(* ===== verification/_CoqProject ===== *)
-Q . S2P
Prelude.v
Runs.v
Programs.v
GoHeap.v
Dll.v
KeyedLists.v
Types.v
Config.v
Metrics.v
Cache.v
CacheIndex.v
CacheExpiry.v
CacheInv.v
CacheExpire.v
CacheSpec.v
Admission.v
GoIO.v
Urls.v
Wire.v
Idempotency.v
Checkpoints.v
BatchWire.v
Base64.v
Pending.v
PendingInv.v
Deliveries.v
GroupIndex.v
GroupWork.v
GroupInv.v
SubscriberInv.v
GroupLoop.v
GroupRetry.v
GroupTick.v
Groups.v
Accept.v
AcceptInv.v
AcceptLocal.v
AcceptGaps.v
AcceptBatch.v
AcceptReplica.v
AcceptGroups.v
AcceptSpec.v
CacheOrder.v
Replication.v
ReplicationInv.v
Actions.v
ReplicationSpec.v
Repair.v
RepairSpec.v
Services.v
Publish.v
Handlers.v
Contracts.v
PublishSpec.v
ServeSpec.v
Executions.v
ActionsSpec.v
StreamCursor.v
StreamResume.v
Stream.v
StreamSpec.v
Sync.v
Frontiers.v
SyncSpec.v
Compression.v
Dedupe.v
Client.v
Batcher.v
BatcherInv.v
Frames.v
FramesSpec.v
Session.v
SessionInv.v
SessionSpec.v
Subscribe.v
SubscribeSpec.v
EndToEnd.v
Digest.v
Status.v
Startup.v
