(* ===== verification/Prelude.v ===== *)
(** * Spruce: a verification development of the broker and its Go client

    Spruce (Go, src/) is an in-memory message broker: publications of a topic are kept in a bounded cache
    until they expire, copied to peers, and delivered to subscribers and consumer groups, which
    acknowledge them.  This development models the broker (src/internal/broker) and the Go client
    (src/pkg/spruce) operation by operation and proves what each part promises.

    ** How the program is modelled

    - Integers are [Z], kept in range by [i64] and [u64] where Go wraps; a bound under which nothing wraps is
      proved, not assumed, where the code has one.
    - Memory: Go's pointers are [loc]; a structure that is reached through several pointers lives in a
      [gmap loc] store of its component.  [GoM] is the monad of code that changes such a state and may panic
      ([None]: a nil dereference or an index out of range); the theorems show that it does not.  An error is
      returned beside the result, or instead of it, as in Go.
    - Time: a handler or a tick reads the clock through an argument [now], or through a call of [sNow] where
      it is read more than once; UnixMilli and the units of durations are in Types.v.
    - Concurrency: what a mutex covers is one step; components are transition systems of such steps and the
      theorems are invariants of every interleaving (Admission, Idempotency, Replication, Actions, Repair, Batcher, Session).
      A step whose outcome is an answer from outside carries it as evidence: a batch is delivered only by an executed
      post that was answered 2xx ([exchange], [delivered]), and a worker is stopped only by a pause that the stop ended.
      In Groups the critical sections of a delivery, its sends, the receives and the ends of replays are steps of their own, while
      the opening and the closing of a stream and a tick of maintenance, several critical sections each, are one step.
    - Handlers are programs over the services of the broker (Services.v): a theorem about a handler holds
      for every answer that the other parts can give, hence for every interleaving with other requests.
    - Loops have fuel only where the code has no bound of its own; each use names the measure that bounds
      it, and the theorems prove that this fuel is enough.

    ** The parts

    Foundations.  Prelude (machine integers, the monad and its weakest preconditions, lists), GoHeap
    (container/heap with back-pointers), Dll and KeyedLists (intrusive lists, and families of them by key),
    Types, Config (Config, DefaultConfig, the checks of New), Metrics, GoIO (readers and writers of bytes), Base64.

    The cache (broker.go 85-694).  Cache: the state [cache] and every operation.  CacheIndex, CacheExpiry,
    CacheInv, CacheExpire: the invariant (indexes, topic lists, expiry heap, accounting), operation by
    operation.  CacheSpec: memory, insertion, expiry, reading and paging.  CacheOrder: the
    order of insertion over time, for repairs.

    Publication.  Admission (1147-1222: the byte budget and its queue), Idempotency (1550-1633), Accept
    (acceptLocked, acceptBatchLocked, acceptReplicatedBatch, acceptIdempotent, origin_memory.go) with
    AcceptInv, AcceptLocal, AcceptGaps, AcceptBatch, AcceptReplica, AcceptGroups and the promises in AcceptSpec: a copy
    is accepted once and in the order of its origin, a batch is all or nothing, memory stays bounded.

    Delivery.  Pending, PendingInv, Deliveries (deliveries in flight: sendDeliveryLocked, acknowledgements,
    deadlines; each refines an abstract table), GroupIndex and GroupWork (group_work.go: lanes, work,
    dispatch), GroupInv, SubscriberInv, GroupLoop (streams, groupTick, maintenance), GroupRetry, GroupTick and
    Groups (memory, safety of a turn, liveness of retries).  Checkpoints: the completions of groups.

    Replication.  Wire (the peer format, both versions), Replication (budget, queues, peerLoop,
    replicateOne, replicateAvailable), ReplicationInv, ReplicationSpec (a copy is queued, answered by the peer, or leaves a
    repair version), Repair and RepairSpec (repair.go: a walk that completes has had everything that is cached
    confirmed by the peer, whatever happened to the cache meanwhile).

    Handlers.  BatchWire (the client's batches), Services, Publish (publish, publishBatch, publishAvailable),
    Handlers (acknowledgements, peers, serveHTTP and its routes), Contracts (what a request owes),
    PublishSpec, ServeSpec, Executions: in every execution of a request what was taken is given back once,
    nothing happens without credentials, and the answer is honest.

    Actions for peers.  Actions and ActionsSpec: broadcastAction and actionLoop; every identifier that is queued is
    in exactly one request, in order, within the budget of bytes, and the worker ends each request: answered, counted
    as dropped, or left at the stop of the broker.

    Streams.  StreamCursor (stream_cursor.go, encodeReplayCursor, decodeReplayCursor), StreamResume (a cursor
    replays what is newer than the frames of its origin, and nothing that a frame delivered), Stream (the whole handler [stream] as a program) and StreamSpec (in
    every execution what was taken is given back once, the subscriber is removed once, and what is written is what the channel yields, in order under the cursor).

    Starting from peers.  Sync (SyncFromPeers), Frontiers (a subscriber whose cursor is behind an eviction is told so,
    also by a broker that took its frontiers from a peer), SyncSpec (a synchronisation that succeeds has
    copied what the peer had, as long as the peer does not publish the message of a page's cursor again).

    What operators see.  Digest (cacheDigest: equal digests mean equal caches), Status (status,
    prometheus: the page is read back).  Startup (src/cmd/spruce/main.go with New, Ready,
    BeginDrain and Close: the configuration, and the order of start and stop).

    Subscriptions of the client.  Urls (escaping), Frames and FramesSpec (writeFrame, readFrame), Session, SessionInv
    and SessionSpec (the goroutines of one connection as interleaved steps: windows, acknowledgements, the cursor
    of what is processed), Subscribe and SubscribeSpec (connecting and reconnecting), EndToEnd (broker and client
    together: after a reconnection the broker replays what is newer than the first processed deliveries, and none of these).

    Runs (steps of shared state) and Programs (programs over calls, protocols, executions) are the two
    frameworks that the theorems about interleavings use.

    The client (src/pkg/spruce).  Compression, Dedupe, Client (publish, retries, redirects, batches), Batcher and
    BatcherInv (the producer's batcher: every publication is answered exactly once).

    ** Parameters

    Code that is not under src/ is an argument: SHA-256, time.ParseDuration and duration texts ([PublishStd]), JSON
    ([AckJSON], [CursorJSON], [SyncJSON], [DeliveryDecoder]), the order of Go's map iteration ([MapRange], [MapOrder], any
    permutation), the tables of the unicode package ([RuneTable]), the HTTP transport of peers ([PeerNet]), what the
    client uses of the standard library ([SubStd]), the compressors (Compression), the environment (Startup).  What is assumed of them
    is a law of the class, and every theorem with such a parameter is applied to a concrete instance.

    ** What is not modelled

    The load generators and test tools under src/cmd (spruce-bench, spruce-binary-soak, spruce-integration,
    spruce-lifecycle, spruce-consumer, spruce-producer), which are no part of the broker or the client.  The
    handlers of the stream and of the three pages are calls of [sOther] in Handlers.v: their models are in
    Stream, Digest and Status, and the routes only say who reaches them.
    Log lines; goroutine scheduling below the granularity of a mutex or channel operation; the failure of
    a request's body while it is read (the transport delivers it whole or the handler is not reached);
    the text of encoding/json. *)
From Stdlib Require Export ZArith Lia Strings.Byte.
From stdpp Require Export base tactics option list gmap strings.
#[local] Open Scope Z_scope.

(** ** Machine integers *)

(** Two's-complement wrap-around of Go's [int64]. *)
Definition i64 (x : Z) : Z := (x + 9223372036854775808) mod 18446744073709551616 - 9223372036854775808.
(** Modular wrap-around of Go's [uint64]. *)
Definition u64 (x : Z) : Z := x mod 18446744073709551616.

Definition in_i64 (x : Z) : Prop := -9223372036854775808 <= x < 9223372036854775808.
Definition in_u64 (x : Z) : Prop := 0 <= x < 18446744073709551616.

Lemma i64_id x : in_i64 x -> i64 x = x.
Proof. unfold in_i64, i64. intros H. rewrite Z.mod_small; lia. Qed.

Lemma u64_id x : in_u64 x -> u64 x = x.
Proof. unfold in_u64, u64. intros H. by rewrite Z.mod_small. Qed.

Lemma i64_range x : in_i64 (i64 x).
Proof.
  unfold in_i64, i64.
  pose proof (Z.mod_pos_bound (x + 9223372036854775808) 18446744073709551616). lia.
Qed.

Lemma u64_range x : in_u64 (u64 x).
Proof. unfold in_u64, u64. apply Z.mod_pos_bound. lia. Qed.

(** [int64(uint64(x))] is [x]. *)
Lemma i64_u64 x : in_i64 x -> i64 (u64 x) = x.
Proof.
  intros Hx. unfold in_i64 in Hx. unfold i64, u64.
  destruct (Z_lt_dec x 0).
  - rewrite <- (Z.mod_add x 1), (Z.mod_small (x + _)) by lia.
    replace (x + 1 * 18446744073709551616 + 9223372036854775808)
      with (x + 9223372036854775808 + 1 * 18446744073709551616) by lia.
    rewrite Z.mod_add, Z.mod_small by lia. lia.
  - rewrite (Z.mod_small x) by lia. rewrite Z.mod_small by lia. lia.
Qed.

Lemma u64_add_l x y : u64 (u64 x + y) = u64 (x + y).
Proof. unfold u64. by rewrite Zplus_mod_idemp_l. Qed.

#[global] Opaque i64 u64.
#[global] Arguments i64 : simpl never.
#[global] Arguments u64 : simpl never.

(** [i64s] removes the wrap-around of every [i64]/[u64] whose argument [lia] proves to be in range. *)
Ltac i64s :=
  repeat match goal with
  | |- context [i64 ?x] => rewrite (i64_id x) by (unfold in_i64 in *; lia)
  | |- context [u64 ?x] => rewrite (u64_id x) by (unfold in_u64 in *; lia)
  | H : context [i64 ?x] |- _ => rewrite (i64_id x) in H by (unfold in_i64 in *; lia)
  | H : context [u64 ?x] |- _ => rewrite (u64_id x) in H by (unfold in_u64 in *; lia)
  end.

(** Go's [len] of a string, as an [int]. *)
Definition slen (s : string) : Z := Z.of_nat (String.length s).
(** Go's [len] of a slice. *)
Definition llen {A} (l : list A) : Z := Z.of_nat (length l).
(** Go's [len] of a map. *)
Definition mlen {K V} `{Countable K} (m : gmap K V) : Z := Z.of_nat (size m).
#[global] Arguments slen : simpl never.
#[global] Arguments llen {A} : simpl never.
#[global] Arguments mlen {K V _ _} : simpl never.

Lemma slen_nonneg s : 0 <= slen s.
Proof. unfold slen. lia. Qed.
Lemma llen_nonneg {A} (l : list A) : 0 <= llen l.
Proof. unfold llen. lia. Qed.
Lemma llen_app {A} (l k : list A) : llen (l ++ k) = llen l + llen k.
Proof. unfold llen. rewrite length_app. lia. Qed.
Lemma llen_cons {A} (x : A) l : llen (x :: l) = 1 + llen l.
Proof. unfold llen. simpl. lia. Qed.

#[export] Instance byte_eq_dec : EqDecision byte := Byte.byte_eq_dec.

(** ** Heap locations: Go pointers to the objects a component allocates *)
Abbreviation loc := positive.

(** ** Record update

    [r <| f := v |>] is the struct assignment [r.f = v].  A record of the model gives its
    constructor applied to its projections once ([Settable]); [derive_setter] makes the [Setter]
    of a field from it, by replacing that field's projection. *)
Class Setter {R T : Type} (proj : R -> T) := setf : T -> R -> R.
Class Settable (R : Type) := settable : R -> R.

Ltac derive_setter :=
  lazymatch goal with
  | |- @Setter ?R ?T ?proj =>
    let inst := constr:(_ : Settable R) in
    let body := eval hnf in inst in
    lazymatch eval pattern proj in body with
    | ?F _ => let t := eval cbv beta in (fun (v : T) (r : R) => F (fun _ => v) r) in exact t
    end
  end.

Declare Scope go_scope.
Delimit Scope go_scope with go.
Notation "r <| f := v |>" := (setf (proj := f) v r)
  (at level 1, f at level 0, v at level 200, left associativity,
   format "r  <|  f  :=  v  |>") : go_scope.
#[global] Open Scope go_scope.

(** ** The state monad with run-time panics

    [None] is a Go run-time panic (nil dereference, index out of range) or a
    loop that has used up its fuel: a theorem of the form [wp m s Q] therefore also says that
    the code neither panics nor runs past the bound. *)
Definition GoM (S A : Type) : Type := S -> option (A * S).

Section Monad.
Context {S : Type}.

Definition gret {A} (a : A) : GoM S A := fun s => Some (a, s).
Definition gbind {A B} (m : GoM S A) (k : A -> GoM S B) : GoM S B :=
  fun s => match m s with Some (a, s') => k a s' | None => None end.
Definition gpanic {A} : GoM S A := fun _ => None.
Definition gget : GoM S S := fun s => Some (s, s).
Definition gput (s : S) : GoM S unit := fun _ => Some (tt, s).
Definition gmodify (f : S -> S) : GoM S unit := fun s => Some (tt, f s).
(** [glift o] panics when [o] is [None]: a dereference or an index expression. *)
Definition glift {A} (o : option A) : GoM S A :=
  match o with Some a => gret a | None => gpanic end.
Definition gwhen (b : bool) (m : GoM S unit) : GoM S unit := if b then m else gret tt.

(** Run [f] on each element, in order. *)
Fixpoint gfor {A} (l : list A) (f : A -> GoM S unit) : GoM S unit :=
  match l with
  | [] => gret tt
  | x :: l => gbind (f x) (fun _ => gfor l f)
  end.
End Monad.

Notation "x <- c ;; k" := (gbind c (fun x => k))
  (at level 100, c at next level, right associativity) : go_scope.
Notation "'let!' p := c ;; k" := (gbind c (fun x => match x with p => k end))
  (at level 100, p pattern, c at next level, right associativity) : go_scope.
Notation "c ;;; k" := (gbind c (fun _ => k)) (at level 100, right associativity) : go_scope.

(** Run a computation on a part of a larger state. *)
Definition gzoom {S P A} (get : S -> P) (put : P -> S -> S) (m : GoM P A) : GoM S A :=
  fun s => match m (get s) with Some (a, p) => Some (a, put p s) | None => None end.

(** Weakest precondition: the computation returns, and what it returns satisfies [Q]. *)
Definition wp {S A} (m : GoM S A) (s : S) (Q : A -> S -> Prop) : Prop :=
  match m s with Some (a, s') => Q a s' | None => False end.

Section WP.
Context {S : Type}.

Lemma wp_ret {A} (a : A) (s : S) Q : Q a s -> wp (gret a) s Q.
Proof. done. Qed.
Lemma wp_bind {A B} (m : GoM S A) (k : A -> GoM S B) s Q :
  wp m s (fun a s' => wp (k a) s' Q) -> wp (gbind m k) s Q.
Proof. unfold wp, gbind. destruct (m s) as [[a s']|]; done. Qed.
Lemma wp_get (s : S) Q : Q s s -> wp gget s Q.
Proof. done. Qed.
Lemma wp_put (s s' : S) (Q : unit -> S -> Prop) : Q tt s' -> wp (gput s') s Q.
Proof. done. Qed.
Lemma wp_modify (f : S -> S) s (Q : unit -> S -> Prop) : Q tt (f s) -> wp (gmodify f) s Q.
Proof. done. Qed.
Lemma wp_lift {A} (o : option A) (a : A) s (Q : A -> S -> Prop) :
  o = Some a -> Q a s -> wp (glift o) s Q.
Proof. intros ->. done. Qed.
Lemma wp_mono {A} (m : GoM S A) s (Q R : A -> S -> Prop) :
  wp m s Q -> (forall a s', Q a s' -> R a s') -> wp m s R.
Proof. unfold wp. destruct (m s) as [[a s']|]; eauto. Qed.
Lemma wp_elim {A} (m : GoM S A) s (Q : A -> S -> Prop) :
  wp m s Q -> exists a s', m s = Some (a, s') /\ Q a s'.
Proof. unfold wp. destruct (m s) as [[a s']|]; [eauto|done]. Qed.
Lemma wp_use {A} (m : GoM S A) s a s' (Q : A -> S -> Prop) :
  m s = Some (a, s') -> wp m s Q -> Q a s'.
Proof. unfold wp. by intros ->. Qed.
Lemma wp_intro {A} (m : GoM S A) s a s' (Q : A -> S -> Prop) :
  m s = Some (a, s') -> Q a s' -> wp m s Q.
Proof. unfold wp. intros ->. done. Qed.
Lemma wp_when (b : bool) (m : GoM S unit) s (Q : unit -> S -> Prop) :
  (b = true -> wp m s Q) -> (b = false -> Q tt s) -> wp (gwhen b m) s Q.
Proof. destruct b; simpl; intros H1 H2; [by apply H1|by apply wp_ret, H2]. Qed.

(** The loop rule: an invariant indexed by the elements still to be processed. *)
Lemma wp_for {A} (I : list A -> S -> Prop) (l : list A) (f : A -> GoM S unit) s
    (Q : unit -> S -> Prop) :
  I l s ->
  (forall x l' s', I (x :: l') s' -> wp (f x) s' (fun _ s'' => I l' s'')) ->
  (forall s', I [] s' -> Q tt s') ->
  wp (gfor l f) s Q.
Proof.
  intros HI Hstep HQ. revert s HI. induction l as [|x l IH]; intros s HI; simpl.
  - by apply wp_ret, HQ.
  - apply wp_bind. eapply wp_mono; [by apply Hstep|]. intros [] s' HI'. by apply IH.
Qed.
End WP.

Lemma wp_zoom {S P A} (get : S -> P) (put : P -> S -> S) (m : GoM P A) s (Q : A -> S -> Prop) :
  wp m (get s) (fun a p => Q a (put p s)) -> wp (gzoom get put m) s Q.
Proof. unfold wp, gzoom. destruct (m (get s)) as [[a p]|]; done. Qed.

#[export] Hint Resolve slen_nonneg llen_nonneg : core.

(** One step of symbolic execution. *)
Ltac wp_step :=
  lazymatch goal with
  | |- wp (gbind _ _) _ _ => apply wp_bind
  | |- wp (gret _) _ _ => apply wp_ret
  | |- wp gget _ _ => apply wp_get
  | |- wp (gput _) _ _ => apply wp_put
  | |- wp (gmodify _) _ _ => apply wp_modify
  | |- wp (glift _) _ _ => eapply wp_lift; [eassumption|]
  end.
Ltac wp_steps := repeat (wp_step; cbn beta iota).

(** ** Sums over lists and maps *)
Definition zsum (l : list Z) : Z := foldr Z.add 0 l.
#[global] Arguments zsum : simpl never.

Lemma zsum_cons x l : zsum (x :: l) = x + zsum l.
Proof. done. Qed.

Lemma zsum_app l k : zsum (l ++ k) = zsum l + zsum k.
Proof. induction l as [|x l IH]; cbn [app]; [done|]. rewrite !zsum_cons. lia. Qed.

#[export] Instance zsum_perm : Proper ((≡ₚ) ==> (=)) zsum.
Proof. induction 1; rewrite ?zsum_cons; lia. Qed.

Lemma zsum_nonneg l : Forall (fun x => 0 <= x) l -> 0 <= zsum l.
Proof. induction 1; [done|]. rewrite zsum_cons. lia. Qed.

Section MapSum.
Context {K V : Type} `{Countable K}.

(** [msum f m] adds [f k v] over the entries of [m]. *)
Definition msum (f : K -> V -> Z) (m : gmap K V) : Z :=
  zsum ((fun p => f p.1 p.2) <$> map_to_list m).

Lemma msum_empty f : msum f ∅ = 0.
Proof. unfold msum. by rewrite map_to_list_empty. Qed.

Lemma msum_insert f m k v :
  m !! k = None -> msum f (<[k:=v]> m) = f k v + msum f m.
Proof. intros Hk. unfold msum. by rewrite (map_to_list_insert m k v Hk). Qed.

Lemma msum_delete f m k v :
  m !! k = Some v -> msum f m = f k v + msum f (delete k m).
Proof.
  intros Hk. rewrite <- (insert_delete_id m k v Hk) at 1.
  rewrite msum_insert; [done|]. apply lookup_delete_eq.
Qed.

Lemma msum_ext f g m :
  (forall k v, m !! k = Some v -> f k v = g k v) -> msum f m = msum g m.
Proof.
  induction m as [|k v m Hk Hfst IH] using map_first_key_ind; intros Hext.
  - by rewrite !msum_empty.
  - rewrite !msum_insert by done. rewrite Hext by apply lookup_insert_eq.
    f_equal. apply IH. intros k' v' Hk'. apply Hext.
    rewrite lookup_insert_ne; [done|]. naive_solver.
Qed.

Lemma msum_update f m k v v' :
  m !! k = Some v -> msum f (<[k:=v']> m) = msum f m - f k v + f k v'.
Proof.
  intros Hk. rewrite (msum_delete f m k v Hk), <- insert_delete_eq, msum_insert; [lia|].
  apply lookup_delete_eq.
Qed.

Lemma msum_nonneg f m :
  (forall k v, m !! k = Some v -> 0 <= f k v) -> 0 <= msum f m.
Proof.
  intros Hf. apply zsum_nonneg, Forall_fmap, Forall_forall. intros [k v] Hin.
  apply elem_of_map_to_list in Hin. by apply Hf.
Qed.

Lemma msum_le_elem f m k v :
  (forall k v, m !! k = Some v -> 0 <= f k v) -> m !! k = Some v -> f k v <= msum f m.
Proof.
  intros Hf Hk. rewrite (msum_delete f m k v Hk).
  pose proof (msum_nonneg f (delete k m)) as Hn.
  assert (0 <= msum f (delete k m)); [|lia]. apply Hn. intros k' v' Hk'.
  apply lookup_delete_Some in Hk' as [_ Hk']. by apply Hf.
Qed.
End MapSum.

Lemma filter_all {A} (P : A -> Prop) `{forall x, Decision (P x)} (l : list A) :
  Forall P l -> filter P l = l.
Proof. induction 1 as [|x l Hx _ IH]; [done|]. by rewrite filter_cons, decide_True, IH. Qed.

(** ** Go's stable sort and monadic filters *)
Section Sort.
Context {A : Type} (less : A -> A -> bool).

(** [x] goes after everything that is not greater. *)
Fixpoint insert_stable (x : A) (l : list A) : list A :=
  match l with
  | [] => [x]
  | y :: l' => if less x y then x :: l else y :: insert_stable x l'
  end.

(** The result of [sort.SliceStable(l, less)]: there is only one for a strict weak order. *)
Definition stable_sort (l : list A) : list A := foldl (fun acc x => insert_stable x acc) [] l.

Lemma insert_stable_perm x l : insert_stable x l ≡ₚ x :: l.
Proof.
  induction l as [|y l IH]; simpl; [done|]. destruct (less x y); [done|].
  rewrite IH. by constructor.
Qed.

Lemma stable_sort_perm l : stable_sort l ≡ₚ l.
Proof.
  unfold stable_sort. rewrite <- (app_nil_r l) at 2. generalize (@nil A).
  induction l as [|x l IH]; intros acc; simpl; [done|].
  rewrite IH, insert_stable_perm. by rewrite Permutation_middle.
Qed.
End Sort.

Section Filter.
Context {S A : Type}.

(** [for _, x := range l { if f(x) { out = append(out, x) } }] *)
Fixpoint gfilter (f : A -> GoM S bool) (l : list A) : GoM S (list A) :=
  match l with
  | [] => gret []
  | x :: l => b <- f x ;; out <- gfilter f l ;; gret (if b : bool then x :: out else out)
  end.

Fixpoint gmap_list {B} (f : A -> GoM S B) (l : list A) : GoM S (list B) :=
  match l with
  | [] => gret []
  | x :: l => y <- f x ;; ys <- gmap_list f l ;; gret (y :: ys)
  end.

Lemma wp_filter (I : list A -> S -> Prop) (f : A -> GoM S bool) (l : list A) s (Q : list A -> S -> Prop) :
  I l s ->
  (forall x l' s', I (x :: l') s' -> wp (f x) s' (fun _ s'' => I l' s'')) ->
  (forall out s', I [] s' -> out `sublist_of` l -> Q out s') ->
  wp (gfilter f l) s Q.
Proof.
  intros HI Hstep. revert s Q HI. induction l as [|x l IH]; intros s Q HI HQ; cbn [gfilter].
  - by apply wp_ret, HQ.
  - apply wp_bind. eapply wp_mono; [by apply Hstep|]. intros b s' HI'. apply wp_bind. apply IH; [done|].
    intros out s'' HI'' Hout. apply wp_ret, HQ; [done|]. destruct b; by constructor.
Qed.
End Filter.

(** ** Stores that agree on a view of their objects *)
Definition agree {A B} (f : A -> B) (st st' : gmap loc A) : Prop :=
  forall r, f <$> st' !! r = f <$> st !! r.

Section Agree.
Context {A B : Type} (f : A -> B).

#[export] Instance agree_refl : Reflexive (agree f).
Proof. intros st r. done. Qed.
#[export] Instance agree_sym : Symmetric (agree f).
Proof. intros a b H r. by rewrite H. Qed.
#[export] Instance agree_trans : Transitive (agree f).
Proof. intros a b c Hab Hbc r. by rewrite Hbc, Hab. Qed.

Lemma agree_lookup st st' r m :
  agree f st st' -> st !! r = Some m -> exists m', st' !! r = Some m' /\ f m' = f m.
Proof.
  intros Ha Hr. specialize (Ha r). rewrite Hr in Ha. simpl in Ha.
  destruct (st' !! r) as [m'|]; simplify_eq/=. eauto.
Qed.

Lemma agree_insert st r m m' : st !! r = Some m -> f m' = f m -> agree f st (<[r := m']> st).
Proof.
  intros Hr E r'. destruct (decide (r = r')) as [<-|Hne].
  - rewrite lookup_insert_eq, Hr. simpl. by rewrite E.
  - by rewrite lookup_insert_ne.
Qed.

Lemma agree_weaken {C} (g : B -> C) st st' : agree f st st' -> agree (fun m => g (f m)) st st'.
Proof.
  intros H r. specialize (H r). destruct (st !! r), (st' !! r); simplify_eq/=; congruence.
Qed.
End Agree.

(** A list of distinct live pointers is not longer than the store. *)
Lemma length_live {A} (st : gmap loc A) l : NoDup l -> (forall r, r ∈ l -> is_Some (st !! r)) ->
  (length l <= size st)%nat.
Proof.
  intros Hnd Hl. rewrite <- (size_list_to_set (C := gset loc) l) by done. rewrite <- (size_dom (D := gset loc) st).
  apply subseteq_size. intros r Hr. apply elem_of_dom, Hl. by apply elem_of_list_to_set in Hr.
Qed.

Lemma sublist_fmap' {A B} (f : A -> B) (l k : list A) : l `sublist_of` k -> f <$> l `sublist_of` f <$> k.
Proof. induction 1; cbn; by constructor. Qed.
