(* ===== verification/Runs.v ===== *)
(** * Computations as sequences of steps

    A component whose state several goroutines share is given by its atomic steps on the state and a
    ghost state.  [runsBy step] says of a computation that it returns and that what it did is a sequence of
    such steps: an invariant of the steps then holds in every interleaving of every operation. *)
From S2P Require Import Prelude.

Section Runs.
Context {S G : Type} (step : S * G -> S * G -> Prop).

Inductive steps : S * G -> S * G -> Prop :=
| steps_refl x : steps x x
| steps_step x y z : step x y -> steps y z -> steps x z.

Lemma steps_trans x y z : steps x y -> steps y z -> steps x z.
Proof. induction 1; [done|]. intros Hz. econstructor; [eassumption|]. auto. Qed.
Lemma steps_one x y : step x y -> steps x y.
Proof. intros Hx. econstructor; [exact Hx|constructor]. Qed.
Lemma steps_inv (I : S * G -> Prop) x y : (forall x y, I x -> step x y -> I y) -> I x -> steps x y -> I y.
Proof. intros Hi Hx St. induction St; eauto. Qed.

Definition runsBy {A} (s : S) (g : G) (m : GoM S A) (Q : A -> S -> G -> Prop) : Prop :=
  wp m s (fun a s' => exists g', steps (s, g) (s', g') /\ Q a s' g').

Lemma runs_ret {A} (a : A) s g (Q : A -> S -> G -> Prop) : Q a s g -> runsBy s g (gret a) Q.
Proof. intros HQ. apply wp_ret. exists g. split; [constructor|done]. Qed.

Lemma runs_bind {A B} (m : GoM S A) (k : A -> GoM S B) s g (Q : B -> S -> G -> Prop) :
  runsBy s g m (fun a s' g' => runsBy s' g' (k a) Q) -> runsBy s g (gbind m k) Q.
Proof.
  intros Hm. apply wp_bind. eapply wp_mono; [exact Hm|]. intros a s' (g' & S1 & Hk). eapply wp_mono; [exact Hk|].
  intros b s2 (g2 & S2 & HQ). exists g2. split; [by eapply steps_trans|done].
Qed.

Lemma runs_mono {A} (m : GoM S A) s g (Q R : A -> S -> G -> Prop) : runsBy s g m Q -> (forall a s' g', Q a s' g' -> R a s' g') -> runsBy s g m R.
Proof. intros Hm HR. eapply wp_mono; [exact Hm|]. intros a s' (g' & S1 & HQ). exists g'. eauto. Qed.

Lemma runs_get s g (Q : S -> S -> G -> Prop) : Q s s g -> runsBy s g gget Q.
Proof. intros HQ. apply wp_get. exists g. split; [constructor|done]. Qed.

Lemma runs_one {A} (m : GoM S A) s g a s' g' (Q : A -> S -> G -> Prop) : m s = Some (a, s') -> step (s, g) (s', g') -> Q a s' g' -> runsBy s g m Q.
Proof. intros E St HQ. eapply wp_intro; [exact E|]. exists g'. split; [by apply steps_one|done]. Qed.

(** A computation that changes nothing, and a step of the ghost state alone. *)
Lemma runs_read {A} (m : GoM S A) s g a (Q : A -> S -> G -> Prop) : m s = Some (a, s) -> Q a s g -> runsBy s g m Q.
Proof. intros E HQ. eapply wp_intro; [exact E|]. exists g. split; [constructor|done]. Qed.
Lemma runs_ghost {A} (m : GoM S A) s g g' (Q : A -> S -> G -> Prop) : step (s, g) (s, g') -> runsBy s g' m Q -> runsBy s g m Q.
Proof. intros St Hm. eapply wp_mono; [exact Hm|]. intros a s' (g2 & S2 & HQ). exists g2. split; [by econstructor|done]. Qed.

(** The rule of a loop. *)
Lemma runs_for {A} (I : list A -> S -> G -> Prop) (l : list A) (f : A -> GoM S unit) s g (Q : unit -> S -> G -> Prop) :
  I l s g -> (forall x l' s' g', I (x :: l') s' g' -> runsBy s' g' (f x) (fun _ => I l')) -> (forall s' g', I [] s' g' -> Q tt s' g') -> runsBy s g (gfor l f) Q.
Proof.
  intros HI Hf HQ. revert s g HI. induction l as [|x l IH]; intros s g HI; cbn [gfor]; [by apply runs_ret, HQ|].
  apply runs_bind. eapply runs_mono; [by apply Hf|]. intros [] s' g' HI'. by apply IH.
Qed.
End Runs.
