(* ===== verification/Programs.v ===== *)
(** * Programs over the calls of components

    A goroutine that calls components which others use at the same time is a [program]: its calls are data, and
    what they answer is left open.  A protocol says when a call is allowed ([permits]), what it
    changes for the caller ([after]) and what may be answered ([possible]); [obeys] is the weakest precondition of a
    program for it, and [execution] the sequences of calls with their answers. *)
From S2P Require Import Prelude.

Inductive program (E : Type -> Type) (A : Type) : Type :=
| Ret (a : A)
| Do {X : Type} (e : E X) (k : X -> program E A).
Arguments Ret {E A}. Arguments Do {E A X}.

Fixpoint pbind {E A B} (p : program E A) (f : A -> program E B) : program E B :=
  match p with
  | Ret a => f a
  | Do e k => Do e (fun x => pbind (k x) f)
  end.
Definition call {E : Type -> Type} {X} (e : E X) : program E X := Do e Ret.

Declare Scope prog_scope.
Delimit Scope prog_scope with prog.
Notation "x <- c ;; k" := (pbind c (fun x => k)) (at level 100, c at next level, right associativity) : prog_scope.
Notation "'let!' p := c ;; k" := (pbind c (fun x => match x with p => k end)) (at level 100, p pattern, c at next level, right associativity) : prog_scope.
Notation "c ;;; k" := (pbind c (fun _ => k)) (at level 100, right associativity) : prog_scope.

Inductive action (E : Type -> Type) := | Act {X : Type} (e : E X) (x : X).
Arguments Act {E X}.

Section Protocol.
Context {E : Type -> Type} {D : Type} (permits : forall X, E X -> D -> Prop) (after : forall X, E X -> X -> D -> D) (possible : forall X, E X -> D -> X -> Prop).

Fixpoint obeys {A} (p : program E A) (d : D) (Q : A -> D -> Prop) : Prop :=
  match p with
  | Ret a => Q a d
  | Do e k => permits _ e d /\ forall x, possible _ e d x -> obeys (k x) (after _ e x d) Q
  end.

Lemma program_mono {A} (p : program E A) d (Q R : A -> D -> Prop) : (forall a d, Q a d -> R a d) -> obeys p d Q -> obeys p d R.
Proof. intros HQ. revert d. induction p as [a|X e k IH]; intros d; cbn; [apply HQ|]. intros [Hp Hk]. split; [done|]. intros x Hx. apply IH, Hk, Hx. Qed.

Lemma program_bind {A B} (p : program E A) (f : A -> program E B) d (Q : B -> D -> Prop) : obeys p d (fun a d' => obeys (f a) d' Q) -> obeys (pbind p f) d Q.
Proof. revert d. induction p as [a|X e k IH]; intros d; cbn; [done|]. intros [Hp Hk]. split; [done|]. intros x Hx. apply IH, Hk, Hx. Qed.

Lemma program_call {X} (e : E X) d (Q : X -> D -> Prop) : permits _ e d -> (forall x, possible _ e d x -> Q x (after _ e x d)) -> obeys (call e) d Q.
Proof. done. Qed.
Lemma obeys_ret {A} (a : A) d (Q : A -> D -> Prop) : Q a d -> obeys (Ret a) d Q.
Proof. done. Qed.

Lemma program_seq {A B} (p : program E A) (f : A -> program E B) d (P : A -> D -> Prop) Q : obeys p d P -> (forall a d', P a d' -> obeys (f a) d' Q) -> obeys (pbind p f) d Q.
Proof. intros Hp Hf. apply program_bind. eapply program_mono; [|exact Hp]. exact Hf. Qed.

(** ** Executions *)
Inductive execution {A} : program E A -> D -> list (action E) -> A -> Prop :=
| ex_ret a d : execution (Ret a) d [] a
| ex_do {X} (e : E X) (k : X -> program E A) d x tr a : possible _ e d x -> execution (k x) (after _ e x d) tr a -> execution (Do e k) d (Act e x :: tr) a.

Fixpoint permitted (tr : list (action E)) (d : D) : Prop :=
  match tr with
  | [] => True
  | Act e x :: tr => permits _ e d /\ permitted tr (after _ e x d)
  end.
Fixpoint afterAll (tr : list (action E)) (d : D) : D :=
  match tr with
  | [] => d
  | Act e x :: tr => afterAll tr (after _ e x d)
  end.

Lemma obeys_sound {A} (p : program E A) d tr a : execution p d tr a -> forall Q, obeys p d Q -> permitted tr d /\ Q a (afterAll tr d).
Proof. induction 1 as [a d|X e k d x tr a Hx _ IH]; intros Q; [done|]. intros [Hp Hk]. destruct (IH _ (Hk x Hx)) as [H1 H2]. by split. Qed.

(** A sequence of calls that are allowed, with answers that are possible. *)
Fixpoint lawful (tr : list (action E)) (d : D) : Prop :=
  match tr with
  | [] => True
  | Act e x :: tr => permits _ e d /\ possible _ e d x /\ lawful tr (after _ e x d)
  end.
Lemma obeys_lawful {A} (p : program E A) d tr a : execution p d tr a -> forall Q, obeys p d Q -> lawful tr d /\ Q a (afterAll tr d).
Proof. induction 1 as [a d|X e k d x tr a Hx _ IH]; intros Q; [done|]. intros [Hp Hk]. destruct (IH _ (Hk x Hx)) as [H1 H2]. by split. Qed.

Lemma afterAll_snoc tr X (e : E X) x d : afterAll (tr ++ [Act e x]) d = after _ e x (afterAll tr d).
Proof. revert d. induction tr as [|[Y f y] tr IH]; intros d; cbn; [done|]. apply IH. Qed.
Lemma lawful_snoc tr X (e : E X) x d : lawful (tr ++ [Act e x]) d -> lawful tr d /\ permits _ e (afterAll tr d) /\ possible _ e (afterAll tr d) x.
Proof. revert d. induction tr as [|[Y f y] tr IH]; intros d; cbn; [by intros (H1 & H2 & _)|]. intros (H1 & H2 & H3). apply IH in H3 as (H3 & H4). done. Qed.

(** What holds at first and is kept by every lawful call holds after every execution. *)
Lemma lawful_inv (I : list (action E) -> D -> Prop) d0 :
  I [] d0 -> (forall tr X (e : E X) x d, I tr d -> permits _ e d -> possible _ e d x -> I (tr ++ [Act e x]) (after _ e x d)) ->
  forall tr, lawful tr d0 -> I tr (afterAll tr d0).
Proof.
  intros H0 Hs tr. induction tr as [|[X e x] tr IH] using rev_ind; intros Hl; [done|]. apply lawful_snoc in Hl as (Hl & Hp & Hx). rewrite afterAll_snoc. by apply Hs; [apply IH| |].
Qed.

(** The execution in which every call is answered by [answer], which may keep a state. *)
Section Run.
Context {S : Type} (answer : forall X, E X -> S -> X * S).

Fixpoint run {A} (p : program E A) (s : S) : list (action E) * A * S :=
  match p with
  | Ret a => ([], a, s)
  | Do e k => let '(x, s) := answer _ e s in let '(tr, a, s) := run (k x) s in (Act e x :: tr, a, s)
  end.

(** With answers that look at what the caller has. *)
Lemma run_related (R : S -> D -> Prop) : (forall X (e : E X) d s, R s d -> possible _ e d (answer X e s).1 /\ R (answer X e s).2 (after _ e (answer X e s).1 d)) ->
  forall A (p : program E A) d s, R s d -> execution p d (run p s).1.1 (run p s).1.2.
Proof.
  intros Ha A p. induction p as [a|X e k IH]; intros d s Hr; cbn; [constructor|].
  pose proof (Ha X e d s Hr) as [Hx Hr']. destruct (answer X e s) as [x s']. specialize (IH x (after _ e x d) s' Hr'). destruct (run (k x) s') as [[tr a] s'']. by constructor.
Qed.
Lemma run_execution : (forall X (e : E X) d s, possible _ e d (answer X e s).1) -> forall A (p : program E A) d s, execution p d (run p s).1.1 (run p s).1.2.
Proof. intros Ha A p d s. by apply (run_related (fun _ _ => True)). Qed.
End Run.
End Protocol.
