(* ===== verification/GoHeap.v ===== *)
(** * Go's [container/heap] over intrusive items

    The broker keeps two priority queues ([expiryHeap] and [pendingHeap] of broker.go); both
    are slices of pointers to items that store their own position, driven by the standard
    library's [container/heap].  [HeapItem] is the interface of such an item, [up], [down],
    [Push], [Pop], [Remove] and [Fix] are the library's algorithms over it, and the theorems
    say that every operation keeps the heap order and the back-pointers, never indexes out
    of range, and that [Pop] returns an item of least key. *)
From S2P Require Import Prelude.
#[local] Open Scope Z_scope.

(** What [heap.Interface] asks of an item: a key and a position it records. *)
Class HeapItem (T : Type) := {
  hi_at : T -> Z;
  hi_index : T -> Z;
  hi_set_index : Z -> T -> T;
  hi_at_set : forall i t, hi_at (hi_set_index i t) = hi_at t;
  hi_index_set : forall i t, hi_index (hi_set_index i t) = i;
  hi_set_set : forall i j t, hi_set_index i (hi_set_index j t) = hi_set_index i t;
}.

(** The slice of pointers and the store they point into. *)
Record heapSt (T : Type) := mkHeapSt { h_slice : list loc; h_store : gmap loc T }.
Arguments mkHeapSt {T} _ _.
Arguments h_slice {T} _.
Arguments h_store {T} _.

Section Ops.
Context `{HI : HeapItem T}.
#[local] Abbreviation HM := (GoM (heapSt T)).

(** [h[i]] dereferenced. *)
Definition hderef (i : nat) : HM (loc * T) :=
  s <- gget ;;
  r <- glift (h_slice s !! i) ;;
  t <- glift (h_store s !! r) ;;
  gret (r, t).

Definition Less (i j : nat) : HM bool :=
  let! (_, a) := hderef i ;;
  let! (_, b) := hderef j ;;
  gret (bool_decide (hi_at a < hi_at b)).

(** [h[k].index = k]. *)
Definition hset_index (k : nat) : HM unit :=
  let! (r, t) := hderef k ;;
  gmodify (fun s => mkHeapSt (h_slice s) (<[r := hi_set_index (Z.of_nat k) t]> (h_store s))).

Definition Swap (i j : nat) : HM unit :=
  let! (ri, _) := hderef i ;;
  let! (rj, _) := hderef j ;;
  gmodify (fun s => mkHeapSt (<[i := rj]> (<[j := ri]> (h_slice s))) (h_store s)) ;;;
  hset_index i ;;; hset_index j.

(** The [Push] and [Pop] methods of the slice itself. *)
Definition PushSlice (r : loc) : HM unit :=
  s <- gget ;;
  t <- glift (h_store s !! r) ;;
  gput (mkHeapSt (h_slice s ++ [r])
          (<[r := hi_set_index (llen (h_slice s)) t]> (h_store s))).

Definition PopSlice : HM loc :=
  s <- gget ;;
  r <- glift (last (h_slice s)) ;;
  t <- glift (h_store s !! r) ;;
  gput (mkHeapSt (take (pred (length (h_slice s))) (h_slice s))
          (<[r := hi_set_index (-1) t]> (h_store s))) ;;;
  gret r.

(** [heap.up]: the [break] of the loop at the root is [i == j], since Go's [(0-1)/2] is 0. *)
Fixpoint up (fuel : nat) (j : nat) : HM unit :=
  match fuel with
  | O => gpanic
  | S fuel =>
    let i := Nat.div (Nat.pred j) 2 in
    if decide (i = j) then gret tt
    else
      b <- Less j i ;;
      if b : bool then Swap i j ;;; up fuel i else gret tt
  end.

(** [heap.down]: whether the element moved. *)
Fixpoint down_loop (fuel : nat) (i0 i n : nat) : HM bool :=
  match fuel with
  | O => gpanic
  | S fuel =>
    let j1 := (2 * i + 1)%nat in
    if decide (n <= j1)%nat then gret (bool_decide (i0 < i)%nat)
    else
      let j2 := (j1 + 1)%nat in
      b2 <- (if decide (j2 < n)%nat then Less j2 j1 else gret false) ;;
      let j := if b2 : bool then j2 else j1 in
      b <- Less j i ;;
      if b : bool then Swap i j ;;; down_loop fuel i0 j n
      else gret (bool_decide (i0 < i)%nat)
  end.
Definition down (i0 n : nat) : HM bool := down_loop (S n) i0 i0 n.

Definition Push (r : loc) : HM unit :=
  PushSlice r ;;;
  s <- gget ;;
  let j := Nat.pred (length (h_slice s)) in
  up (S j) j.

Definition Pop : HM loc :=
  s <- gget ;;
  let n := Nat.pred (length (h_slice s)) in
  Swap 0 n ;;;
  _ <- down 0 n ;;
  PopSlice.

Definition Remove (i : nat) : HM loc :=
  s <- gget ;;
  let n := Nat.pred (length (h_slice s)) in
  gwhen (bool_decide (n <> i))
    (Swap i n ;;;
     b <- down i n ;;
     gwhen (negb b) (up (S i) i)) ;;;
  PopSlice.

Definition Fix (i : nat) : HM unit :=
  s <- gget ;;
  b <- down i (length (h_slice s)) ;;
  gwhen (negb b) (up (S i) i).
End Ops.

(** ** Keys as a total function of the position *)
Section Keys.
Context `{HI : HeapItem T}.

(** Every pointer of the slice is live and records its own position. *)
Definition hwf (s : heapSt T) : Prop :=
  forall i r, h_slice s !! i = Some r ->
    exists t, h_store s !! r = Some t /\ hi_index t = Z.of_nat i.

Definition kf (s : heapSt T) (i : nat) : Z :=
  default 0 (r ← h_slice s !! i; t ← h_store s !! r; Some (hi_at t)).

(** The stores agree up to the recorded positions. *)
Definition idx_eq (st st' : gmap loc T) : Prop :=
  forall r, hi_set_index 0 <$> st' !! r = hi_set_index 0 <$> st !! r.

(** What every heap operation guarantees besides the order. *)
Record hframe (s s' : heapSt T) : Prop := {
  hf_perm : h_slice s' ≡ₚ h_slice s;
  hf_idx : idx_eq (h_store s) (h_store s');
  hf_out : forall r, r ∉ h_slice s -> h_store s' !! r = h_store s !! r;
}.

#[export] Instance idx_eq_refl : Reflexive idx_eq.
Proof. intros st r. done. Qed.
#[export] Instance idx_eq_trans : Transitive idx_eq.
Proof. intros a b c Hab Hbc r. by rewrite Hbc, Hab. Qed.

#[export] Instance hframe_refl : Reflexive hframe.
Proof. intros s. split; [done|reflexivity|done]. Qed.
#[export] Instance hframe_trans : Transitive hframe.
Proof.
  intros a b c [P1 I1 O1] [P2 I2 O2]. split.
  - by rewrite P2.
  - by etransitivity.
  - intros r Hr. rewrite O2; [by apply O1|]. by rewrite P1.
Qed.

Lemma idx_eq_insert st r t i :
  st !! r = Some t -> idx_eq st (<[r := hi_set_index i t]> st).
Proof.
  intros Hr r'. destruct (decide (r = r')) as [<-|Hne].
  - rewrite lookup_insert_eq, Hr. simpl. by rewrite hi_set_set.
  - by rewrite lookup_insert_ne.
Qed.

Lemma idx_eq_lookup st st' r t :
  idx_eq st st' -> st !! r = Some t ->
  exists t', st' !! r = Some t' /\ hi_set_index 0 t' = hi_set_index 0 t.
Proof.
  intros Hi Hr. specialize (Hi r). rewrite Hr in Hi. simpl in Hi.
  destruct (st' !! r) as [t'|]; simplify_eq/=. eauto.
Qed.

Lemma norm_at (t t' : T) : hi_set_index 0 t' = hi_set_index 0 t -> hi_at t' = hi_at t.
Proof. intros E. by rewrite <- (hi_at_set 0 t'), E, hi_at_set. Qed.

Lemma hwf_inj s i j r :
  hwf s -> h_slice s !! i = Some r -> h_slice s !! j = Some r -> i = j.
Proof.
  intros Hw Hi Hj. destruct (Hw _ _ Hi) as (t & Ht & Ei), (Hw _ _ Hj) as (t' & Ht' & Ej).
  simplify_eq. lia.
Qed.

Lemma hwf_nodup s : hwf s -> NoDup (h_slice s).
Proof. intros Hw. apply NoDup_alt. intros i j r. by apply hwf_inj. Qed.

Lemma hwf_lookup s i :
  hwf s -> (i < length (h_slice s))%nat ->
  exists r t, h_slice s !! i = Some r /\ h_store s !! r = Some t /\
    hi_index t = Z.of_nat i /\ kf s i = hi_at t.
Proof.
  intros Hw Hi. apply lookup_lt_is_Some in Hi as [r Hr].
  destruct (Hw _ _ Hr) as (t & Ht & Et). exists r, t.
  split_and!; try done. unfold kf. rewrite Hr. simpl. by rewrite Ht.
Qed.

Lemma wp_hderef s i (Q : loc * T -> heapSt T -> Prop) :
  hwf s -> (i < length (h_slice s))%nat ->
  (forall r t, h_slice s !! i = Some r -> h_store s !! r = Some t ->
     kf s i = hi_at t -> Q (r, t) s) ->
  wp (hderef i) s Q.
Proof.
  intros Hw Hi HQ. destruct (hwf_lookup s i Hw Hi) as (r & t & Hr & Ht & _ & Ek).
  unfold hderef. wp_steps. eauto.
Qed.

Lemma wp_Less s i j (Q : bool -> heapSt T -> Prop) :
  hwf s -> (i < length (h_slice s))%nat -> (j < length (h_slice s))%nat ->
  Q (bool_decide (kf s i < kf s j)) s -> wp (Less i j) s Q.
Proof.
  intros Hw Hi Hj HQ. unfold Less. wp_step. apply wp_hderef; [done..|].
  intros ri ti _ _ Ei. wp_step. apply wp_hderef; [done..|].
  intros rj tj _ _ Ej. wp_steps. by rewrite <- Ei, <- Ej.
Qed.

Definition swapf (f : nat -> Z) (i j x : nat) : Z :=
  if decide (x = i) then f j else if decide (x = j) then f i else f x.

Lemma kf_idx_eq s s' :
  h_slice s' = h_slice s -> idx_eq (h_store s) (h_store s') ->
  forall i, kf s' i = kf s i.
Proof.
  intros El Hi i. unfold kf. rewrite El. destruct (h_slice s !! i) as [r|]; [|done]. simpl.
  specialize (Hi r).
  destruct (h_store s !! r) as [t|], (h_store s' !! r) as [t'|]; simplify_eq/=; try done.
  by apply norm_at.
Qed.
End Keys.

(** ** Swap *)
Definition sigma (i j k : nat) : nat :=
  if decide (k = i) then j else if decide (k = j) then i else k.

Lemma sigma_invol i j k : sigma i j (sigma i j k) = k.
Proof. unfold sigma. repeat case_decide; lia. Qed.

Lemma lookup_swap {A} (l : list A) i j a b k :
  l !! i = Some a -> l !! j = Some b ->
  <[i := b]> (<[j := a]> l) !! k = l !! sigma i j k.
Proof.
  intros Hi Hj. assert (i < length l)%nat by by eapply lookup_lt_Some.
  assert (j < length l)%nat by by eapply lookup_lt_Some. unfold sigma.
  destruct (decide (k = i)) as [->|].
  { by rewrite list_lookup_insert_eq by (rewrite length_insert; lia). }
  rewrite list_lookup_insert_ne by done. destruct (decide (k = j)) as [->|].
  - by rewrite list_lookup_insert_eq by lia.
  - by rewrite list_lookup_insert_ne by done.
Qed.

Lemma swap_perm {A} (l : list A) i j a b :
  NoDup l -> l !! i = Some a -> l !! j = Some b -> <[i := b]> (<[j := a]> l) ≡ₚ l.
Proof.
  intros Hnd Hi Hj. apply NoDup_Permutation; [|done|].
  - apply NoDup_alt. intros x y z. rewrite !(lookup_swap l i j a b) by done.
    intros Hx Hy. rewrite <- (sigma_invol i j x), <- (sigma_invol i j y).
    f_equal. by eapply NoDup_lookup.
  - intros x. rewrite !list_elem_of_lookup. split; intros [k Hk].
    + rewrite (lookup_swap l i j a b) in Hk by done. eauto.
    + exists (sigma i j k). rewrite (lookup_swap l i j a b) by done. by rewrite sigma_invol.
Qed.

Section SwapSpec.
Context `{HI : HeapItem T}.
Implicit Types s : heapSt T.

Lemma kf_swapf (f : nat -> Z) i j k : f (sigma i j k) = swapf f i j k.
Proof. unfold sigma, swapf. by repeat case_decide. Qed.

Lemma kf_sigma s s' i j :
  (forall k, h_slice s' !! k = h_slice s !! sigma i j k) ->
  idx_eq (h_store s) (h_store s') ->
  forall k, kf s' k = swapf (kf s) i j k.
Proof.
  intros El Hi k. rewrite <- kf_swapf. unfold kf. rewrite El.
  destruct (h_slice s !! sigma i j k) as [r|]; [|done]. simpl. specialize (Hi r).
  destruct (h_store s !! r) as [t|], (h_store s' !! r) as [t'|]; simplify_eq/=; try done.
  by apply norm_at.
Qed.

Lemma wp_Swap s i j (Q : unit -> heapSt T -> Prop) :
  hwf s -> (i < length (h_slice s))%nat -> (j < length (h_slice s))%nat ->
  (forall s', hwf s' -> hframe s s' -> length (h_slice s') = length (h_slice s) ->
     (forall k, h_slice s' !! k = h_slice s !! sigma i j k) ->
     (forall k, kf s' k = swapf (kf s) i j k) -> Q tt s') ->
  wp (Swap i j) s Q.
Proof.
  intros Hw Hi Hj HQ.
  destruct (hwf_lookup s i Hw Hi) as (ri & ti & Hri & Hti & Iti & _).
  destruct (hwf_lookup s j Hw Hj) as (rj & tj & Hrj & Htj & Itj & _).
  pose (l := <[i := rj]> (<[j := ri]> (h_slice s))).
  assert (forall k, l !! k = h_slice s !! sigma i j k) as Hl.
  { intros k. by apply lookup_swap. }
  assert (l !! i = Some rj /\ l !! j = Some ri) as [Hli Hlj].
  { rewrite !Hl. unfold sigma. repeat case_decide; simplify_eq; done. }
  pose (st1 := <[rj := hi_set_index (Z.of_nat i) tj]> (h_store s)).
  assert (exists t1, st1 !! ri = Some t1 /\ hi_set_index 0 t1 = hi_set_index 0 ti) as (t1 & Ht1 & Et1).
  { unfold st1. destruct (decide (rj = ri)) as [->|].
    - rewrite lookup_insert_eq. simplify_eq. eexists; split; [done|]. by rewrite hi_set_set.
    - rewrite lookup_insert_ne by done. eauto. }
  assert (hset_index_run : forall (u : heapSt T) k r t, h_slice u !! k = Some r -> h_store u !! r = Some t ->
    hset_index k u = Some (tt, mkHeapSt (h_slice u) (<[r := hi_set_index (Z.of_nat k) t]> (h_store u)))).
  { intros u k r t Hr Ht. unfold hset_index, hderef, gbind, gget, glift, gret, gmodify.
    rewrite Hr. cbn. by rewrite Ht. }
  unfold Swap. wp_step. apply wp_hderef; [done..|]. intros r t Hr _ _. rewrite Hri in Hr. injection Hr as <-.
  wp_step. apply wp_hderef; [done..|]. intros r t' Hr _ _. rewrite Hrj in Hr. injection Hr as <-.
  wp_steps. eapply wp_intro; [by eapply hset_index_run|].
  eapply wp_intro; [by eapply hset_index_run|]. cbn [h_slice h_store].
  assert (idx_eq (h_store s) (<[ri := hi_set_index (Z.of_nat j) t1]> st1)) as Hidx.
  { transitivity st1; [by apply idx_eq_insert|]. by apply idx_eq_insert. }
  apply HQ.
  - intros k r Hk. cbn in Hk. cbn. fold l in Hk.
    destruct (decide (ri = r)) as [<-|Hne].
    { rewrite lookup_insert_eq. eexists; split; [done|]. rewrite hi_index_set.
      rewrite Hl in Hk. assert (sigma i j k = i) as E by by eapply hwf_inj.
      rewrite <- (sigma_invol i j k), E. unfold sigma. repeat case_decide; lia. }
    rewrite lookup_insert_ne by done. unfold st1. destruct (decide (rj = r)) as [<-|Hne'].
    { rewrite lookup_insert_eq. eexists; split; [done|]. rewrite hi_index_set.
      rewrite Hl in Hk. assert (sigma i j k = j) as E by by eapply hwf_inj.
      rewrite <- (sigma_invol i j k), E. unfold sigma. repeat case_decide; lia. }
    rewrite lookup_insert_ne by done. rewrite Hl in Hk. unfold sigma in Hk.
    repeat case_decide; simplify_eq. by apply Hw.
  - split; cbn; [by apply swap_perm; [apply hwf_nodup|..]|done|].
    intros r Hr. unfold st1. rewrite !lookup_insert_ne; [done|intros <-..]; apply Hr;
      apply list_elem_of_lookup; eauto.
  - cbn. by rewrite !length_insert.
  - exact Hl.
  - apply kf_sigma; [exact Hl|exact Hidx].
Qed.
End SwapSpec.

(** ** The heap order *)
Definition parent (c : nat) : nat := Nat.div (Nat.pred c) 2.

Lemma parent_spec c : (0 < c)%nat -> (c = 2 * parent c + 1 \/ c = 2 * parent c + 2)%nat.
Proof.
  intros Hc. unfold parent. pose proof (Nat.div_mod_eq (Nat.pred c) 2).
  pose proof (Nat.mod_upper_bound (Nat.pred c) 2). lia.
Qed.
Lemma parent_eq c p : (c = 2 * p + 1 \/ c = 2 * p + 2)%nat -> parent c = p.
Proof. intros Hc. assert (0 < c)%nat as H0 by lia. destruct (parent_spec c H0); lia. Qed.
Lemma parent_0 : parent 0 = 0%nat.
Proof. done. Qed.
#[global] Opaque parent.

(** The first [n] positions are in heap order. *)
Definition heap_ok (f : nat -> Z) (n : nat) : Prop :=
  forall c, (0 < c < n)%nat -> f (parent c) <= f c.
(** ... except between [j] and its parent. *)
Definition up_inv (f : nat -> Z) (n j : nat) : Prop :=
  (forall c, (0 < c < n)%nat -> c <> j -> f (parent c) <= f c) /\
  (forall c, (0 < c < n)%nat -> parent c = j -> (0 < j)%nat -> f (parent j) <= f c).
(** ... except between [i] and its children. *)
Definition dn_inv (f : nat -> Z) (n i : nat) : Prop :=
  (forall c, (0 < c < n)%nat -> parent c <> i -> f (parent c) <= f c) /\
  (forall c, (0 < c < n)%nat -> parent c = i -> (0 < i)%nat -> f (parent i) <= f c).
(** ... except around [i]: an arbitrary element was put there. *)
Definition hole_inv (f : nat -> Z) (n i : nat) : Prop :=
  (forall c, (0 < c < n)%nat -> c <> i -> parent c <> i -> f (parent c) <= f c) /\
  (forall c, (0 < c < n)%nat -> parent c = i -> (0 < i)%nat -> f (parent i) <= f c).

Ltac parents :=
  repeat match goal with
  | H : (0 < ?c)%nat |- _ =>
      lazymatch goal with
      | _ : (c = 2 * parent c + 1 \/ c = 2 * parent c + 2)%nat |- _ => fail
      | _ => pose proof (parent_spec c H)
      end
  | H : (0 < ?c < _)%nat |- _ =>
      lazymatch goal with
      | _ : (0 < c)%nat |- _ => fail
      | _ => assert (0 < c)%nat by lia
      end
  end.

Lemma swapf_l f i j : swapf f i j i = f j.
Proof. unfold swapf. by rewrite decide_True. Qed.
Lemma swapf_r f i j : swapf f i j j = f i.
Proof. unfold swapf. case_decide; [by subst|]. by rewrite decide_True. Qed.
Lemma swapf_o f i j k : k <> i -> k <> j -> swapf f i j k = f k.
Proof. intros. unfold swapf. by rewrite !decide_False. Qed.

Lemma up_inv_step f n j :
  up_inv f n j -> (0 < j < n)%nat -> f j < f (parent j) ->
  up_inv (swapf f (parent j) j) n (parent j).
Proof.
  intros [H1 H2] Hj Hlt. parents. set (i := parent j) in *.
  assert (i <> j) by lia. split.
  - intros c Hc Hci. parents. destruct (decide (c = j)) as [->|Hcj].
    { fold i. rewrite swapf_l, swapf_r. lia. }
    rewrite (swapf_o f i j c) by done.
    destruct (decide (parent c = i)) as [E|E].
    { rewrite E, swapf_l. specialize (H1 c Hc Hcj). rewrite E in H1. lia. }
    destruct (decide (parent c = j)) as [E'|E'].
    { rewrite E', swapf_r. apply H2; [done..|lia]. }
    rewrite swapf_o by done. by apply H1.
  - intros c Hc Ec Hi. parents. assert (parent i <> i /\ parent i <> j) as [? ?] by lia.
    rewrite (swapf_o f i j (parent i)) by done.
    assert (f (parent i) <= f i) by (apply H1; lia).
    destruct (decide (c = j)) as [->|Hcj]; [rewrite swapf_r; lia|].
    rewrite (swapf_o f i j c) by lia. specialize (H1 c Hc Hcj). rewrite Ec in H1. lia.
Qed.

Lemma up_inv_done f n j :
  up_inv f n j -> ((0 < j)%nat -> f (parent j) <= f j) -> heap_ok f n.
Proof. intros [H1 _] H0 c Hc. destruct (decide (c = j)) as [->|]; [apply H0; lia|by apply H1]. Qed.

(** [j] is the least child of [i] among the first [n] positions. *)
Definition min_child (f : nat -> Z) (n i j : nat) : Prop :=
  (0 < j < n)%nat /\ parent j = i /\ forall c, (0 < c < n)%nat -> parent c = i -> f j <= f c.

Lemma hole_inv_step f n i j :
  hole_inv f n i -> min_child f n i j -> f j < f i ->
  dn_inv (swapf f j i) n j.
Proof.
  intros [H1 H2] (Hj & Ej & Hmin) Hlt. parents. split.
  - intros c Hc Hpc. parents. destruct (decide (c = i)) as [->|Hci].
    { rewrite swapf_r, swapf_o by lia. apply H2; lia. }
    destruct (decide (c = j)) as [->|Hcj].
    { rewrite Ej, swapf_l, swapf_r. lia. }
    rewrite (swapf_o f j i c) by done. destruct (decide (parent c = i)) as [E|E].
    { rewrite E, swapf_r. by apply Hmin. }
    rewrite swapf_o by done. by apply H1.
  - intros c Hc Epc _. parents. rewrite Ej, swapf_r.
    rewrite (swapf_o f j i c) by lia. rewrite <- Epc. apply H1; lia.
Qed.

Lemma dn_hole f n i : dn_inv f n i -> hole_inv f n i.
Proof. intros [H1 H2]. split; [intros c Hc _ Hp; by apply H1|done]. Qed.

Lemma dn_inv_done f n i :
  dn_inv f n i -> (forall c, (0 < c < n)%nat -> parent c = i -> f i <= f c) -> heap_ok f n.
Proof. intros [H1 _] H0 c Hc. destruct (decide (parent c = i)) as [E|]; [rewrite E; auto|by apply H1]. Qed.

Lemma hole_inv_stay f n i :
  hole_inv f n i -> (forall c, (0 < c < n)%nat -> parent c = i -> f i <= f c) -> up_inv f n i.
Proof.
  intros [H1 H2] H0. split; [|done]. intros c Hc Hci.
  destruct (decide (parent c = i)) as [E|]; [rewrite E; auto|by apply H1].
Qed.

Lemma heap_ok_root f n : heap_ok f n -> forall c, (c < n)%nat -> f 0%nat <= f c.
Proof.
  intros H c. induction c as [c IH] using lt_wf_ind. intros Hc.
  destruct (decide (c = 0)%nat) as [->|]; [lia|].
  assert (0 < c)%nat as H0 by lia. pose proof (parent_spec c H0).
  assert (f 0%nat <= f (parent c)) by (apply IH; lia). specialize (H c ltac:(lia)). lia.
Qed.

Lemma heap_ok_ext f g n : (forall c, (c < n)%nat -> f c = g c) -> heap_ok f n -> heap_ok g n.
Proof.
  intros E H c Hc. parents. rewrite <- !E by lia. by apply H.
Qed.

(** ** The library's loops *)
Section Loops.
Context `{HI : HeapItem T}.
Implicit Types s : heapSt T.

(** What a step on the first [n] positions guarantees besides the order. *)
Record hstep (n : nat) (s s' : heapSt T) : Prop := {
  hs_wf : hwf s';
  hs_frame : hframe s s';
  hs_len : length (h_slice s') = length (h_slice s);
  hs_tail : forall k, (n <= k)%nat -> h_slice s' !! k = h_slice s !! k;
}.

Lemma hstep_refl n s : hwf s -> hstep n s s.
Proof. intros Hw. by split. Qed.
Lemma hstep_trans n s1 s2 s3 : hstep n s1 s2 -> hstep n s2 s3 -> hstep n s1 s3.
Proof.
  intros [W1 F1 L1 T1] [W2 F2 L2 T2]. split; [done|by etransitivity|congruence|].
  intros k Hk. rewrite T2; auto.
Qed.

Lemma wp_Swap_step n s i j (Q : unit -> heapSt T -> Prop) :
  hwf s -> (n <= length (h_slice s))%nat -> (i < n)%nat -> (j < n)%nat ->
  (forall s', hstep n s s' -> (forall k, kf s' k = swapf (kf s) i j k) -> Q tt s') ->
  wp (Swap i j) s Q.
Proof.
  intros Hw Hn Hi Hj HQ. apply wp_Swap; [done|lia..|].
  intros s' Hw' Hf Hl Hk Hkf. apply HQ; [|done]. split; [done..|].
  intros k Hnk. rewrite Hk. unfold sigma. rewrite !decide_False by lia. done.
Qed.

Lemma up_inv_ext (f g : nat -> Z) n j : (forall k, g k = f k) -> up_inv f n j -> up_inv g n j.
Proof. intros E [H1 H2]. split; intros; rewrite !E; auto. Qed.
Lemma dn_inv_ext (f g : nat -> Z) n j : (forall k, g k = f k) -> dn_inv f n j -> dn_inv g n j.
Proof. intros E [H1 H2]. split; intros; rewrite !E; auto. Qed.

(** [up] terminates, never leaves the slice, and restores the order. *)
Lemma wp_up n fuel j s (Q : unit -> heapSt T -> Prop) :
  hwf s -> (n <= length (h_slice s))%nat -> (j < n)%nat -> (j < fuel)%nat ->
  up_inv (kf s) n j ->
  (forall s', hstep n s s' -> heap_ok (kf s') n -> Q tt s') ->
  wp (up fuel j) s Q.
Proof.
  revert j s. induction fuel as [|fuel IH]; intros j s Hw Hn Hj Hfu Hinv HQ; [lia|].
  cbn [up]. change (Nat.div (Nat.pred j) 2) with (parent j). destruct (decide (parent j = j)) as [Ej|Ej].
  - apply wp_ret, HQ; [by apply hstep_refl|]. apply (up_inv_done _ _ _ Hinv). intros H0.
    parents. lia.
  - assert (0 < j)%nat as H0. { destruct j; [done|lia]. } parents.
    wp_step. apply wp_Less; [done|lia..|]. case_bool_decide as Hlt.
    + wp_step. apply (wp_Swap_step n); [done|lia..|]. intros s1 Hs1 Hk1.
      destruct Hs1 as [W1 F1 L1 T1]. apply IH; [done|lia..| |].
      * eapply up_inv_ext; [exact Hk1|]. apply up_inv_step; [done|lia|done].
      * intros s2 Hs2 Hok. apply HQ; [|done]. by eapply hstep_trans; [split|].
    + apply wp_ret, HQ; [by apply hstep_refl|]. apply (up_inv_done _ _ _ Hinv). lia.
Qed.

Lemma wp_down_loop n fuel i0 i s (Q : bool -> heapSt T -> Prop) :
  hwf s -> (n <= length (h_slice s))%nat -> (n <= i + fuel)%nat -> (0 < fuel)%nat ->
  (i0 <= i)%nat -> hole_inv (kf s) n i -> ((i0 < i)%nat -> dn_inv (kf s) n i) ->
  (forall b s', hstep n s s' ->
     (if b : bool then heap_ok (kf s') n else up_inv (kf s') n i0) -> Q b s') ->
  wp (down_loop fuel i0 i n) s Q.
Proof.
  revert i s. induction fuel as [|fuel IH]; intros i s Hw Hn Hfu H0 Hi Hhole Hdn HQ; [lia|].
  cbn [down_loop].
  assert (Hstop : (forall c, (0 < c < n)%nat -> parent c = i -> kf s i <= kf s c) ->
    Q (bool_decide (i0 < i)%nat) s).
  { intros Hch. apply HQ; [by apply hstep_refl|]. case_bool_decide as Hlt.
    - by apply (dn_inv_done _ _ i); [apply Hdn|].
    - assert (i0 = i) as -> by lia. by apply hole_inv_stay. }
  destruct (decide (n <= 2 * i + 1)%nat) as [Hj1|Hj1].
  { apply wp_ret, Hstop. intros c Hc Hp. parents. lia. }
  wp_step.
  assert (Hcase : forall b, (b = true -> (2 * i + 1 + 1 < n)%nat) ->
    min_child (kf s) n i (if b : bool then 2 * i + 1 + 1 else 2 * i + 1)%nat ->
    wp (b' <- Less (if b then 2 * i + 1 + 1 else 2 * i + 1)%nat i ;;
        if b' : bool then Swap i (if b then 2 * i + 1 + 1 else 2 * i + 1)%nat ;;;
          down_loop fuel i0 (if b then 2 * i + 1 + 1 else 2 * i + 1)%nat n
        else gret (bool_decide (i0 < i)%nat)) s Q).
  { intros b Hb Hmin. set (j := (if b then _ else _)) in *.
    destruct Hmin as (Hj & Ej & Hmin). parents.
    wp_step. apply wp_Less; [done|lia..|]. destruct (bool_decide_reflect (kf s j < kf s i)) as [Hlt|Hlt].
    - cbn beta iota. wp_step. apply (wp_Swap_step n); [done|lia..|]. intros s1 Hs1 Hk1.
      assert (dn_inv (kf s1) n j) as Hdn1.
      { eapply dn_inv_ext; [|apply (hole_inv_step (kf s) n i j); [done|exact (conj Hj (conj Ej Hmin))|done]].
        intros k. rewrite Hk1. unfold swapf. repeat case_decide; congruence. }
      pose proof Hs1 as [W1 F1 L1 T1]. apply IH; [done|lia..|by apply dn_hole|done|].
      intros b' s2 Hs2 Hok. apply HQ; [by eapply hstep_trans|done].
    - apply wp_ret, Hstop. intros c Hc Hp. specialize (Hmin c Hc Hp). lia. }
  assert (Echild : forall c, (0 < c < n)%nat -> parent c = i -> c = (2 * i + 1)%nat \/ c = (2 * i + 1 + 1)%nat).
  { intros c Hc Hp. parents. lia. }
  assert (parent (2 * i + 1) = i /\ parent (2 * i + 1 + 1) = i) as [P1 P2].
  { split; apply parent_eq; lia. }
  destruct (decide (2 * i + 1 + 1 < n)%nat) as [Hj2|Hj2].
  - apply wp_Less; [done|lia..|]. apply Hcase; [done|]. destruct (bool_decide_reflect (kf s (2 * i + 1 + 1)%nat < kf s (2 * i + 1)%nat)) as [Hlt|Hlt]; cbn beta iota.
    + split; [lia|split; [done|]]. intros c Hc Hp. destruct (Echild c Hc Hp) as [->| ->]; lia.
    + split; [lia|split; [done|]]. intros c Hc Hp. destruct (Echild c Hc Hp) as [->| ->]; lia.
  - apply wp_ret, (Hcase false); [done|]. cbn beta iota. split; [lia|split; [done|]].
    intros c Hc Hp. destruct (Echild c Hc Hp) as [->| ->]; lia.
Qed.

(** [down] terminates and restores the order, unless the element did not move, in which
    case it may still be smaller than its parent. *)
Lemma wp_down n i s (Q : bool -> heapSt T -> Prop) :
  hwf s -> (n <= length (h_slice s))%nat -> hole_inv (kf s) n i ->
  (forall b s', hstep n s s' ->
     (if b : bool then heap_ok (kf s') n else up_inv (kf s') n i) -> Q b s') ->
  wp (down i n) s Q.
Proof. intros. unfold down. apply wp_down_loop; [done..|lia|lia|lia|done|lia|done]. Qed.

(** [if !down(h, i, n) { up(h, i) }]: the common core of [Remove] and [Fix]. *)
Lemma wp_down_up n i s (Q : unit -> heapSt T -> Prop) :
  hwf s -> (n <= length (h_slice s))%nat -> (i < n)%nat -> hole_inv (kf s) n i ->
  (forall s', hstep n s s' -> heap_ok (kf s') n -> Q tt s') ->
  wp (b <- down i n ;; gwhen (negb b) (up (S i) i)) s Q.
Proof.
  intros Hw Hn Hi Hh HQ. wp_step. apply (wp_down n); [done..|]. intros [] s1 Hs1 Hok; cbn [gwhen negb].
  - by apply wp_ret, HQ.
  - pose proof Hs1 as [W1 F1 L1 T1]. apply (wp_up n); [done|lia..|done|].
    intros s2 Hs2 Hok2. apply HQ; [by eapply hstep_trans|done].
Qed.
End Loops.

(** ** The operations *)
Section Spec.
Context `{HI : HeapItem T}.
Implicit Types s : heapSt T.

(** A heap: live, self-positioned items in heap order. *)
Definition hrep (s : heapSt T) : Prop := hwf s /\ heap_ok (kf s) (length (h_slice s)).

Definition hkey (s : heapSt T) (r : loc) : Z :=
  default 0 (hi_at <$> h_store s !! r).

Lemma kf_hkey s i r : h_slice s !! i = Some r -> kf s i = hkey s r.
Proof. intros Hr. unfold kf, hkey. rewrite Hr. simpl. by destruct (h_store s !! r). Qed.

Lemma hkey_idx s s' r : idx_eq (h_store s) (h_store s') -> hkey s' r = hkey s r.
Proof.
  intros Hi. specialize (Hi r). unfold hkey.
  destruct (h_store s !! r) as [t|], (h_store s' !! r) as [t'|]; simplify_eq/=; try done.
  by apply norm_at.
Qed.

(** The root is a least item. *)
Lemma hrep_root s r : hrep s -> h_slice s !! 0%nat = Some r ->
  forall r', r' ∈ h_slice s -> hkey s r <= hkey s r'.
Proof.
  intros [Hw Hok] H0 r' Hin. apply list_elem_of_lookup in Hin as [i Hi].
  rewrite <- (kf_hkey s 0 r), <- (kf_hkey s i r') by done.
  eapply heap_ok_root; [done|]. by eapply lookup_lt_Some.
Qed.

(** A heap only looks at the keys and positions of its own items. *)
Lemma hrep_ext sl st st' :
  hrep (mkHeapSt sl st) ->
  (forall r t, r ∈ sl -> st !! r = Some t ->
     exists t', st' !! r = Some t' /\ hi_at t' = hi_at t /\ hi_index t' = hi_index t) ->
  hrep (mkHeapSt sl st').
Proof.
  intros [Hw Hok] Hext. split.
  - intros i r Hi. cbn in *. destruct (Hw i r Hi) as (t & Ht & Ei). cbn in Ht.
    destruct (Hext r t) as (t' & Ht' & _ & Ei'); [apply list_elem_of_lookup; eauto|done|].
    exists t'. split; [done|congruence].
  - cbn in *. eapply heap_ok_ext; [|exact Hok]. intros c Hc. unfold kf. cbn.
    destruct (sl !! c) as [r|] eqn:Hr; [|done]. cbn. destruct (Hw c r Hr) as (t & Ht & _). cbn in Ht.
    destruct (Hext r t) as (t' & Ht' & Ea & _); [apply list_elem_of_lookup; eauto|done|].
    by rewrite Ht, Ht'.
Qed.

Lemma heap_ok_hole (f g : nat -> Z) n i :
  heap_ok f n -> (forall k, (k < n)%nat -> k <> i -> g k = f k) -> hole_inv g n i.
Proof.
  intros Hok E. split.
  - intros c Hc H1 H2. parents. rewrite !E by lia. by apply Hok.
  - intros c Hc Ep Hi. parents. rewrite !E by lia.
    assert (f (parent i) <= f i) by (apply Hok; lia).
    assert (f (parent c) <= f c) by (by apply Hok). rewrite Ep in *. lia.
Qed.

(** [Push] of a live item that is not in the slice. *)
Lemma wp_Push s r t (Q : unit -> heapSt T -> Prop) :
  hrep s -> r ∉ h_slice s -> h_store s !! r = Some t ->
  (forall s', hrep s' -> h_slice s' ≡ₚ r :: h_slice s -> idx_eq (h_store s) (h_store s') ->
     (forall r', r' ∉ r :: h_slice s -> h_store s' !! r' = h_store s !! r') -> Q tt s') ->
  wp (Push r) s Q.
Proof.
  intros [Hw Hok] Hr Ht HQ. unfold Push, PushSlice. wp_steps.
  set (s1 := mkHeapSt _ _). set (n := length (h_slice s)).
  assert (Hlen : length (h_slice s1) = S n).
  { unfold s1, n. cbn. rewrite length_app. cbn. lia. }
  assert (Hw1 : hwf s1).
  { intros i r' Hi. cbn in *. apply lookup_app_Some in Hi as [Hi|[Hge Hi]].
    - destruct (Hw _ _ Hi) as (t' & Ht' & Et'). exists t'. rewrite lookup_insert_ne; [done|].
      intros <-. apply Hr, list_elem_of_lookup. eauto.
    - apply list_lookup_singleton_Some in Hi as [Hi <-]. rewrite lookup_insert_eq.
      eexists; split; [done|]. rewrite hi_index_set. unfold llen. lia. }
  assert (Hk1 : forall k, (k < n)%nat -> kf s1 k = kf s k).
  { intros k Hk. unfold kf, s1. cbn. rewrite lookup_app_l by done.
    destruct (h_slice s !! k) as [r'|] eqn:Hr'; [|done]. simpl. rewrite lookup_insert_ne; [done|].
    intros <-. apply Hr, list_elem_of_lookup. eauto. }
  rewrite Hlen. cbn [Nat.pred].
  apply (wp_up (S n)); [done|lia..| |].
  - split; intros c Hc; parents.
    + intros Hcn. rewrite !Hk1 by lia. apply Hok. fold n. lia.
    + intros Hp Hpos. lia.
  - intros s' [W F L Ht'] Hok'. destruct F as [Fp Fi Fo]. apply HQ.
    + split; [done|]. by rewrite L, Hlen.
    + rewrite Fp. cbn. by rewrite Permutation_app_comm.
    + etransitivity; [|exact Fi]. by apply idx_eq_insert.
    + intros r' Hr'. rewrite Fo.
      * cbn. rewrite lookup_insert_ne; [done|]. intros <-. set_solver.
      * cbn. rewrite elem_of_app, list_elem_of_singleton. intros [Hx|Hx]; apply Hr'; set_unfold; tauto.
Qed.

(** The slice's own [Pop]: the last pointer leaves, the rest is untouched. *)
Lemma wp_PopSlice s n r (Q : loc -> heapSt T -> Prop) :
  hwf s -> length (h_slice s) = S n -> h_slice s !! n = Some r -> heap_ok (kf s) n ->
  (forall s', hrep s' -> h_slice s ≡ₚ r :: h_slice s' -> idx_eq (h_store s) (h_store s') ->
     (forall r', r' <> r -> h_store s' !! r' = h_store s !! r') -> Q r s') ->
  wp PopSlice s Q.
Proof.
  intros Hw Hl Hn Hok HQ. destruct (Hw _ _ Hn) as (t & Ht & _).
  assert (Hlast : last (h_slice s) = Some r) by (rewrite last_lookup, Hl; exact Hn).
  assert (Htk : h_slice s = take n (h_slice s) ++ [r]).
  { rewrite <- (take_S_r _ _ _ Hn), take_ge by lia. done. }
  unfold PopSlice. wp_steps. rewrite Hl. cbn [Nat.pred].
  assert (Hnk : forall k x, take n (h_slice s) !! k = Some x -> (k < n)%nat /\ h_slice s !! k = Some x /\ x <> r).
  { intros k x Hk. apply lookup_take_Some in Hk as [Hk Hkn]. split_and!; [done..|].
    intros ->. pose proof (hwf_inj _ _ _ _ Hw Hk Hn). lia. }
  apply HQ.
  - split.
    + intros i x Hi. cbn in *. apply Hnk in Hi as (Hi & Hx & Hne).
      rewrite lookup_insert_ne by done. by apply Hw.
    + cbn. rewrite length_take, Hl, Nat.min_l by lia.
      eapply heap_ok_ext; [|exact Hok]. intros k Hk. unfold kf. cbn.
      rewrite lookup_take_lt by done.
      destruct (h_slice s !! k) as [x|] eqn:Hx; [|done]. simpl.
      rewrite lookup_insert_ne; [done|]. intros <-. pose proof (hwf_inj _ _ _ _ Hw Hx Hn). lia.
  - cbn. rewrite Htk at 1. by rewrite Permutation_app_comm.
  - by apply idx_eq_insert.
  - intros r' Hr'. cbn. by rewrite lookup_insert_ne.
Qed.

(** What leaving the heap guarantees. *)
Definition hremoved (s : heapSt T) (r : loc) (s' : heapSt T) : Prop :=
  hrep s' /\ h_slice s ≡ₚ r :: h_slice s' /\ idx_eq (h_store s) (h_store s') /\
  (forall r', r' ∉ h_slice s -> h_store s' !! r' = h_store s !! r').

Lemma heap_ok_le (f : nat -> Z) n m : (m <= n)%nat -> heap_ok f n -> heap_ok f m.
Proof. intros Hm Hok c Hc. apply Hok. lia. Qed.

(** The end of [Pop] and [Remove]: the item is last and the rest is in order. *)
Lemma wp_PopSlice_removed s s1 n r (Q : loc -> heapSt T -> Prop) :
  hframe s s1 -> hwf s1 -> length (h_slice s1) = S n -> h_slice s1 !! n = Some r ->
  heap_ok (kf s1) n -> (forall s', hremoved s r s' -> Q r s') -> wp PopSlice s1 Q.
Proof.
  intros [Fp Fi Fo] Hw Hl Hr Hok HQ. apply (wp_PopSlice s1 n r); [done..|].
  intros s' Hrep Hp Hi Ho. apply HQ. split; [done|]. split_and!.
  - by rewrite <- Hp, Fp.
  - by etransitivity.
  - intros r' Hr'. rewrite Ho; [by apply Fo|]. intros ->. apply Hr'.
    rewrite <- Fp. apply list_elem_of_lookup. eauto.
Qed.

(** [Pop] returns a least item. *)
Lemma wp_Pop s (Q : loc -> heapSt T -> Prop) :
  hrep s -> h_slice s <> [] ->
  (forall r s', h_slice s !! 0%nat = Some r -> hremoved s r s' -> Q r s') ->
  wp Pop s Q.
Proof.
  intros [Hw Hok] Hne HQ. unfold Pop. wp_steps.
  destruct (h_slice s !! 0%nat) as [r0|] eqn:E0; [|by destruct (h_slice s)].
  destruct (length (h_slice s)) as [|n] eqn:El; [by destruct (h_slice s)|]. cbn [Nat.pred].
  apply (wp_Swap s); [done|lia|lia|]. intros s1 W1 F1 L1 S1 K1.
  wp_step. apply (wp_down n); [done|lia| |].
  - apply (heap_ok_hole (kf s)); [by apply (heap_ok_le _ (S n)); [lia|]|].
    intros k Hk Hk0. rewrite K1, swapf_o by lia. done.
  - intros b s2 [W2 F2 L2 T2] Hb. apply (wp_PopSlice_removed s _ n r0).
    + by etransitivity.
    + done.
    + lia.
    + rewrite T2, S1 by lia. unfold sigma. repeat case_decide; by simplify_eq.
    + destruct b; [done|]. apply (up_inv_done _ _ _ Hb). lia.
    + by auto.
Qed.

(** [Remove] takes out the item at position [i]. *)
Lemma wp_Remove s i r (Q : loc -> heapSt T -> Prop) :
  hrep s -> h_slice s !! i = Some r ->
  (forall s', hremoved s r s' -> Q r s') -> wp (Remove i) s Q.
Proof.
  intros [Hw Hok] Hr HQ. unfold Remove. wp_steps.
  pose proof (lookup_lt_Some _ _ _ Hr).
  destruct (length (h_slice s)) as [|n] eqn:El; [lia|]. cbn [Nat.pred].
  destruct (decide (n = i)) as [->|Hni].
  - rewrite bool_decide_false by auto. cbn [gwhen]. wp_steps.
    apply (wp_PopSlice_removed s _ i r); [reflexivity|done..| |done].
    by apply (heap_ok_le _ (S i)); [lia|].
  - rewrite bool_decide_true by done. cbn [gwhen].
    wp_step. apply (wp_Swap s); [done|lia|lia|]. intros s1 W1 F1 L1 S1 K1.
    apply (wp_down_up n); [done|lia|lia| |].
    + apply (heap_ok_hole (kf s)); [by apply (heap_ok_le _ (S n)); [lia|]|].
      intros k Hk Hki. rewrite K1, swapf_o by lia. done.
    + intros s2 [W2 F2 L2 T2] Hok2. apply (wp_PopSlice_removed s _ n r).
      * by etransitivity.
      * done.
      * lia.
      * rewrite T2, S1 by lia. unfold sigma. repeat case_decide; by simplify_eq.
      * done.
      * by auto.
Qed.

(** [Fix] after the key of the item at position [i] has changed. *)
Lemma wp_Fix s0 s i (Q : unit -> heapSt T -> Prop) :
  hrep s0 -> hwf s -> h_slice s = h_slice s0 -> (i < length (h_slice s))%nat ->
  (forall k, k <> i -> kf s k = kf s0 k) ->
  (forall s', hrep s' -> hframe s s' -> Q tt s') -> wp (Fix i) s Q.
Proof.
  intros [_ Hok0] Hw El Hi Hk HQ. unfold Fix. apply wp_bind, wp_get.
  apply (wp_down_up (length (h_slice s))); [done|lia|done| |].
  - apply (heap_ok_hole (kf s0)); [by rewrite El|auto].
  - intros s' [W F L _] Hok. apply HQ; [|done]. split; [done|]. by rewrite L.
Qed.
End Spec.
