(* ===== verification/Dll.v ===== *)
(** * Intrusive doubly linked lists

    broker.go and group_work.go thread objects on doubly linked lists through their own
    fields: messages of one expiry ([expiryPrev]/[expiryNext]), pending deliveries of one
    topic ([topicPrev]/[topicNext]) and the work of one key ([prev]/[next]).  [DllNode] is the
    interface of such an object; the operations are the pointer manipulations of the code
    and the theorems relate them to the list of the nodes in order. *)
From S2P Require Import Prelude.
#[local] Open Scope Z_scope.

Class DllNode (T : Type) := {
  nd_prev : T -> option loc;
  nd_next : T -> option loc;
  nd_set_prev : option loc -> T -> T;
  nd_set_next : option loc -> T -> T;
  nd_prev_set_prev : forall p t, nd_prev (nd_set_prev p t) = p;
  nd_prev_set_next : forall p t, nd_prev (nd_set_next p t) = nd_prev t;
  nd_next_set_next : forall p t, nd_next (nd_set_next p t) = p;
  nd_next_set_prev : forall p t, nd_next (nd_set_prev p t) = nd_next t;
  (** What the links do not hold. *)
  nd_strip : T -> T;
  nd_strip_set_prev : forall p t, nd_strip (nd_set_prev p t) = nd_strip t;
  nd_strip_set_next : forall p t, nd_strip (nd_set_next p t) = nd_strip t;
}.

Section Ops.
Context `{DN : DllNode T}.
#[local] Abbreviation DM := (GoM (gmap loc T)).

(** [r.f = ...] through a pointer. *)
Definition nd_update (r : loc) (f : T -> T) : DM unit :=
  st <- gget ;; t <- glift (st !! r) ;; gput (<[r := f t]> st).

Definition nd_read (r : loc) : DM T := st <- gget ;; glift (st !! r).

(** Push at the front; the new head is returned (no tail is kept). *)
Definition link_front (hd : option loc) (r : loc) : DM (option loc) :=
  nd_update r (nd_set_next hd) ;;;
  match hd with
  | Some h => nd_update h (nd_set_prev (Some r)) ;;; gret (Some r)
  | None => gret (Some r)
  end.

(** Push at the back, keeping head and tail. *)
Definition link_back (hd tl : option loc) (r : loc) : DM (option loc * option loc) :=
  nd_update r (nd_set_prev tl) ;;;
  match tl with
  | Some t => nd_update t (nd_set_next (Some r)) ;;; gret (hd, Some r)
  | None => gret (Some r, Some r)
  end.

(** Take a node out of the middle; the new head and tail are returned. *)
Definition unlink (hd tl : option loc) (r : loc) : DM (option loc * option loc) :=
  t <- nd_read r ;;
  hd' <- match nd_prev t with
         | Some p => nd_update p (nd_set_next (nd_next t)) ;;; gret hd
         | None => gret (nd_next t)
         end ;;
  t <- nd_read r ;;
  tl' <- match nd_next t with
         | Some n => nd_update n (nd_set_prev (nd_prev t)) ;;; gret tl
         | None => gret (nd_prev t)
         end ;;
  gret (hd', tl').

Definition clear_links (r : loc) : DM unit :=
  nd_update r (fun t => nd_set_next None (nd_set_prev None t)).
End Ops.

(** ** Segments *)
Definition hd_or (l : list loc) (n : option loc) : option loc :=
  match l with [] => n | r :: _ => Some r end.
Definition last_or (l : list loc) (p : option loc) : option loc :=
  match last l with Some r => Some r | None => p end.

Lemma hd_or_head l : hd_or l None = head l.
Proof. by destruct l. Qed.
Lemma last_or_last l : last_or l None = last l.
Proof. unfold last_or. by destruct (last l). Qed.
Lemma last_or_cons r l p : last_or (r :: l) p = last_or l (Some r).
Proof. unfold last_or. rewrite last_cons. by destruct (last l). Qed.
Lemma last_or_snoc l r p : last_or (l ++ [r]) p = Some r.
Proof. unfold last_or. by rewrite last_snoc. Qed.
Lemma hd_or_app l k n : hd_or (l ++ k) n = hd_or l (hd_or k n).
Proof. by destruct l. Qed.

Section Seg.
Context `{DN : DllNode T}.
Implicit Types st : gmap loc T.

(** The nodes of [l] are live, linked to each other in order, to [p] before and [n] after. *)
Fixpoint dlseg st (p : option loc) (l : list loc) (n : option loc) : Prop :=
  match l with
  | [] => True
  | r :: l' => exists t, st !! r = Some t /\ nd_prev t = p /\ nd_next t = hd_or l' n /\
                 dlseg st (Some r) l' n
  end.

(** The nodes of a list with head [hd] and tail [tl], in order. *)
Definition dll st (hd tl : option loc) (l : list loc) : Prop :=
  NoDup l /\ dlseg st None l None /\ hd = head l /\ tl = last l.

(** The stores agree up to links, and exactly outside [l]. *)
Definition links_eq (l : list loc) st st' : Prop :=
  (forall r, nd_strip <$> st' !! r = nd_strip <$> st !! r) /\
  (forall r, r ∉ l -> st' !! r = st !! r).

Lemma links_eq_refl l st : links_eq l st st.
Proof. by split. Qed.
Lemma links_eq_trans l st1 st2 st3 : links_eq l st1 st2 -> links_eq l st2 st3 -> links_eq l st1 st3.
Proof. intros [A1 B1] [A2 B2]. split; intros r; [by rewrite A2|]. intros Hr. by rewrite B2, B1. Qed.
Lemma links_eq_mono l k st st' : l ⊆ k -> links_eq l st st' -> links_eq k st st'.
Proof. intros Hs [A B]. split; [done|]. intros r Hr. apply B. set_solver. Qed.
Lemma links_eq_update l st r t t' :
  st !! r = Some t -> r ∈ l -> nd_strip t' = nd_strip t -> links_eq l st (<[r := t']> st).
Proof.
  intros Hr Hl E. split; intros r'.
  - destruct (decide (r = r')) as [<-|]; [rewrite lookup_insert_eq, Hr; simpl; by rewrite E|].
    by rewrite lookup_insert_ne.
  - intros Hr'. rewrite lookup_insert_ne; [done|]. by intros ->.
Qed.

Lemma dlseg_frame st st' p l n :
  (forall r, r ∈ l -> st' !! r = st !! r) -> dlseg st p l n -> dlseg st' p l n.
Proof.
  revert p. induction l as [|r l IH]; intros p Hf Hd; [done|].
  destruct Hd as (t & Ht & Ep & En & Hd). exists t. rewrite Hf by set_solver.
  split_and!; [done..|]. apply IH; [|done]. intros r' Hr'. apply Hf. set_solver.
Qed.

Lemma dlseg_app st p l k n :
  dlseg st p (l ++ k) n <-> dlseg st p l (hd_or k n) /\ dlseg st (last_or l p) k n.
Proof.
  revert p. induction l as [|r l IH]; intros p; simpl.
  - unfold last_or. simpl. tauto.
  - rewrite last_or_cons. setoid_rewrite IH. rewrite hd_or_app.
    split; [intros (t & ? & ? & ? & ? & ?)|intros ((t & ? & ? & ? & ?) & ?)]; eauto 10.
Qed.

Lemma dlseg_set_next st p l r n n' t :
  NoDup (l ++ [r]) -> dlseg st p (l ++ [r]) n -> st !! r = Some t ->
  dlseg (<[r := nd_set_next n' t]> st) p (l ++ [r]) n'.
Proof.
  intros Hnd Hd Hr. apply NoDup_app in Hnd as (_ & Hnl & _).
  apply dlseg_app in Hd as [H1 (t' & Ht' & Ep & En & _)].
  rewrite Hr in Ht'. injection Ht' as <-.
  apply dlseg_app. split.
  - eapply dlseg_frame; [|exact H1]. intros r' Hr'. apply lookup_insert_ne. intros <-.
    by apply (Hnl r); [|set_solver].
  - simpl. exists (nd_set_next n' t). rewrite lookup_insert_eq, nd_prev_set_next, nd_next_set_next.
    done.
Qed.

Lemma dlseg_set_prev st p p' l r n t :
  NoDup (r :: l) -> dlseg st p (r :: l) n -> st !! r = Some t ->
  dlseg (<[r := nd_set_prev p' t]> st) p' (r :: l) n.
Proof.
  intros [Hnr _]%NoDup_cons (t' & Ht' & Ep & En & Hd) Hr.
  rewrite Hr in Ht'. injection Ht' as <-.
  exists (nd_set_prev p' t). rewrite lookup_insert_eq, nd_prev_set_prev, nd_next_set_prev.
  split_and!; [done..|]. eapply dlseg_frame; [|exact Hd]. intros r' Hr'.
  apply lookup_insert_ne. by intros <-.
Qed.

Lemma dlseg_live st p l n r : dlseg st p l n -> r ∈ l -> is_Some (st !! r).
Proof.
  revert p. induction l as [|x l IH]; intros p Hd Hr; [set_solver|].
  destruct Hd as (t & Ht & _ & _ & Hd). apply elem_of_cons in Hr as [->|Hr]; eauto.
Qed.
End Seg.

(** ** The operations *)
Section Spec.
Context `{DN : DllNode T}.
Implicit Types st : gmap loc T.

Lemma wp_nd_update st r t f (Q : unit -> gmap loc T -> Prop) :
  st !! r = Some t -> Q tt (<[r := f t]> st) -> wp (nd_update r f) st Q.
Proof. intros Hr HQ. unfold nd_update. wp_steps. done. Qed.

Lemma wp_nd_read st r t (Q : T -> gmap loc T -> Prop) :
  st !! r = Some t -> Q t st -> wp (nd_read r) st Q.
Proof. intros Hr HQ. unfold nd_read. wp_step. apply wp_get. by eapply wp_lift. Qed.

(** Pushing a node whose [prev] is nil at the front. *)
Lemma wp_link_front st hd l r t (Q : option loc -> gmap loc T -> Prop) :
  dll st hd (last l) l -> r ∉ l -> st !! r = Some t -> nd_prev t = None ->
  (forall st', dll st' (Some r) (last (r :: l)) (r :: l) -> links_eq (r :: l) st st' ->
     Q (Some r) st') ->
  wp (link_front hd r) st Q.
Proof.
  intros (Hnd & Hd & Eh & _) Hr Ht Ep HQ. unfold link_front.
  wp_step. eapply wp_nd_update; [done|].
  assert (Hd1 : dlseg (<[r := nd_set_next hd t]> st) None l None).
  { eapply dlseg_frame; [|exact Hd]. intros x Hx. apply lookup_insert_ne. by intros <-. }
  assert (Hl1 : links_eq (r :: l) st (<[r := nd_set_next hd t]> st)).
  { eapply links_eq_update; [done|set_solver|apply nd_strip_set_next]. }
  destruct hd as [h|], l as [|h' l]; simplify_eq/=.
  - destruct Hd1 as (th & Hth & Hpr & Hrest). wp_step. eapply wp_nd_update; [done|]. wp_steps.
    apply HQ.
    + split_and!; [by constructor| |done|done].
      exists (nd_set_next (Some h') t). assert (h' <> r) by set_solver.
      rewrite lookup_insert_ne, lookup_insert_eq by done.
      rewrite nd_prev_set_next, nd_next_set_next. split_and!; [done..|].
      eapply dlseg_set_prev; [done| |done]. simpl. exists th. eauto.
    + eapply links_eq_trans; [exact Hl1|]. eapply links_eq_update; [done|set_solver|].
      apply nd_strip_set_prev.
  - wp_steps. apply HQ; [|done]. split_and!; [by constructor| |done|done]. simpl.
    exists (nd_set_next None t). rewrite lookup_insert_eq, nd_prev_set_next, nd_next_set_next. done.
Qed.

(** Pushing a node whose [next] is nil at the back. *)
Lemma wp_link_back st hd tl l r t (Q : option loc * option loc -> gmap loc T -> Prop) :
  dll st hd tl l -> r ∉ l -> st !! r = Some t -> nd_next t = None ->
  (forall hd' tl' st', dll st' hd' tl' (l ++ [r]) -> links_eq (l ++ [r]) st st' ->
     Q (hd', tl') st') ->
  wp (link_back hd tl r) st Q.
Proof.
  intros (Hnd & Hd & -> & ->) Hr Ht En HQ. unfold link_back.
  wp_step. eapply wp_nd_update; [done|].
  assert (Hnd' : NoDup (l ++ [r])).
  { apply NoDup_app. split_and!; [done| |apply NoDup_singleton]. set_solver. }
  set (st1 := <[r := nd_set_prev (last l) t]> st).
  assert (Hd1 : dlseg st1 None l None).
  { eapply dlseg_frame; [|exact Hd]. intros x Hx. apply lookup_insert_ne. by intros <-. }
  assert (Hl1 : links_eq (l ++ [r]) st st1).
  { eapply links_eq_update; [done|set_solver|apply nd_strip_set_prev]. }
  assert (Hr1 : st1 !! r = Some (nd_set_prev (last l) t)) by apply lookup_insert_eq.
  destruct (last l) as [q|] eqn:El.
  - apply last_Some in El as [l' ->]. assert (q <> r) by set_solver.
    destruct (dlseg_live _ _ _ _ q Hd1) as [tq Hq]; [set_solver|].
    wp_step. eapply wp_nd_update; [done|]. wp_steps. apply HQ.
    + split_and!; [done| |by destruct l'|by rewrite last_snoc].
      apply dlseg_app. split; [by eapply dlseg_set_next|]. simpl.
      exists (nd_set_prev (Some q) t). rewrite lookup_insert_ne, Hr1 by done.
      rewrite nd_prev_set_prev, nd_next_set_prev, last_or_snoc. done.
    + eapply links_eq_trans; [exact Hl1|]. eapply links_eq_update; [done|set_solver|].
      apply nd_strip_set_next.
  - apply last_None in El as ->. wp_steps. apply HQ; [|done]. split_and!; [done| |done|done].
    simpl. exists (nd_set_prev None t). rewrite nd_prev_set_prev, nd_next_set_prev. done.
Qed.

(** Taking a node out of the middle of the list. *)
Lemma wp_unlink st hd tl l1 r l2 (Q : option loc * option loc -> gmap loc T -> Prop) :
  dll st hd tl (l1 ++ r :: l2) ->
  (forall hd' tl' st', dll st' hd' tl' (l1 ++ l2) -> links_eq (l1 ++ l2) st st' ->
     Q (hd', tl') st') ->
  wp (unlink hd tl r) st Q.
Proof.
  intros (Hnd & Hd & -> & ->) HQ. apply dlseg_app in Hd as [Hd1 (t & Ht & Ep & En & Hd2)].
  cbn [hd_or] in Hd1.
  assert (Hnd12 : NoDup (l1 ++ l2) /\ r ∉ l1 /\ r ∉ l2).
  { apply NoDup_app in Hnd as (? & Hdis & [? ?]%NoDup_cons). split_and!; [|set_solver..].
    apply NoDup_app. split_and!; [done| |done]. set_solver. }
  destruct Hnd12 as (Hnd12 & Hr1 & Hr2). pose proof Hnd12 as (Hnd1 & Hdis & Hnd2)%NoDup_app.
  unfold unlink. wp_step. eapply wp_nd_read; [done|]. wp_step.
  (* the predecessor *)
  apply (wp_mono _ _ (fun hd' st1 => hd' = head (l1 ++ l2) /\ dlseg st1 None l1 (hd_or l2 None) /\
    dlseg st1 (Some r) l2 None /\ st1 !! r = Some t /\ links_eq (l1 ++ l2) st st1)).
  { rewrite Ep. destruct (last_or l1 None) as [q|] eqn:Eq; rewrite last_or_last in Eq.
    - apply last_Some in Eq as [l' ->].
      destruct (dlseg_live _ _ _ _ q Hd1) as [tq Hq]; [set_solver|].
      wp_step. eapply wp_nd_update; [done|]. wp_steps. split_and!; [by destruct l'| | | |].
      + rewrite En. by eapply dlseg_set_next.
      + eapply dlseg_frame; [|exact Hd2]. intros x Hx. apply lookup_insert_ne. intros <-. set_solver.
      + rewrite lookup_insert_ne; [done|]. intros <-. set_solver.
      + eapply links_eq_update; [done|set_solver|apply nd_strip_set_next].
    - apply last_None in Eq as ->. wp_steps. rewrite En. split_and!; try done;
        first [by rewrite hd_or_head|by apply links_eq_refl]. }
  (* the successor *)
  intros hd' st1 (-> & Hd1' & Hd2' & Ht1 & Hl1). wp_step. eapply wp_nd_read; [done|]. wp_step.
  apply (wp_mono _ _ (fun tl' st2 => tl' = last (l1 ++ l2) /\ dlseg st2 None l1 (hd_or l2 None) /\
    dlseg st2 (last_or l1 None) l2 None /\ links_eq (l1 ++ l2) st st2)).
  { rewrite En. destruct l2 as [|q l2]; cbn [hd_or].
    - wp_steps. rewrite Ep, app_nil_r in *. rewrite last_or_last. done.
    - destruct Hd2' as (tq & Hq & Hq'). wp_step. eapply wp_nd_update; [done|]. wp_steps. split_and!.
      + rewrite !last_app. done.
      + eapply dlseg_frame; [|exact Hd1']. intros x Hx. apply lookup_insert_ne. intros <-. set_solver.
      + rewrite <- Ep. eapply (dlseg_set_prev _ (Some r)); [done| |done]. simpl. eauto.
      + eapply links_eq_trans; [exact Hl1|]. eapply links_eq_update; [done|set_solver|].
        apply nd_strip_set_prev. }
  intros tl' st2 (-> & Ha & Hb & Hc). wp_steps. apply HQ; [|done].
  split_and!; [done| |done|done]. by apply dlseg_app.
Qed.
End Spec.
