(* ===== verification/KeyedLists.v ===== *)
(** * Families of intrusive lists

    A map from keys to lists threaded through the objects of one store, as the topics' lists of
    pending deliveries and the lanes of a group: what it means for the family to be well formed,
    and what linking and unlinking one object does to it. *)
From S2P Require Import Prelude GoHeap Dll.
#[local] Open Scope Z_scope.

Section Family.
Context `{DN : DllNode T} {H : Type}.
Context (key : T -> string) (hdH tlH : H -> option loc) (okH : H -> list loc -> Prop).
Implicit Types (st : gmap loc T) (tp : gmap string H) (L : string -> list loc).

(** The family [tp] of lists has the objects [L], under the keys they carry. *)
Record lists_ok st tp L : Prop := {
  lo_state : forall t, match tp !! t with
    | None => L t = []
    | Some s => L t <> [] /\ dll st (hdH s) (tlH s) (L t) /\ okH s (L t)
    end;
  lo_key : forall t r, r ∈ L t -> exists p, st !! r = Some p /\ key p = t;
}.

(** Objects may change in everything but links and key. *)
Lemma lists_ok_ext st st' tp L :
  (forall t r p, r ∈ L t -> st !! r = Some p -> exists p', st' !! r = Some p' /\
     nd_prev p' = nd_prev p /\ nd_next p' = nd_next p /\ key p' = key p) ->
  lists_ok st tp L -> lists_ok st' tp L.
Proof.
  intros Hext [H1 H2]. split.
  - intros t. specialize (H1 t). destruct (tp !! t) as [s|]; [|done].
    destruct H1 as (Hne & (Hnd & Hd & ? & ?) & ?). split; [done|]. split; [|done].
    split_and!; [done| |done|done]. clear Hne Hnd. specialize (Hext t). revert Hd Hext.
    generalize (L t) as l. generalize (@None loc) at 1 3. intros a l. revert a.
    induction l as [|r l IH]; intros a; cbn; [done|]. intros (q & Hq & Ep & En & Hd) Hext.
    destruct (Hext r q) as (q' & Hq' & Ep' & En' & _); [set_solver|done|]. exists q'.
    split_and!; [done|congruence|congruence|]. apply IH; [done|]. intros x p Hx. apply Hext. set_solver.
  - intros t r Hr. destruct (H2 _ _ Hr) as (p & Hp & <-).
    destruct (Hext _ _ _ Hr Hp) as (p' & Hp' & _ & _ & E). eauto.
Qed.

Lemma lists_ok_out st st' tp L :
  (forall t r, r ∈ L t -> st' !! r = st !! r) -> lists_ok st tp L -> lists_ok st' tp L.
Proof.
  intros Ho. apply lists_ok_ext. intros t r p Hr Hp. exists p. by rewrite (Ho t r Hr).
Qed.

Lemma lists_ok_agree st tp L r p p' : lists_ok st tp L -> st !! r = Some p ->
  nd_prev p' = nd_prev p -> nd_next p' = nd_next p -> key p' = key p -> lists_ok (<[r := p']> st) tp L.
Proof.
  intros HL Hr E1 E2 E3. eapply lists_ok_ext; [|exact HL]. intros t x q Hx Hq.
  destruct (decide (x = r)) as [->|Hne].
  - rewrite lookup_insert_eq. exists p'. assert (q = p) as -> by congruence. done.
  - rewrite lookup_insert_ne by done. eauto.
Qed.

Lemma lists_ok_live st tp L t r : lists_ok st tp L -> r ∈ L t -> is_Some (st !! r).
Proof. intros HL Hr. destruct (lo_key _ _ _ HL _ _ Hr) as (p & ? & _). eauto. Qed.

Lemma lists_ok_nodup st tp L t : lists_ok st tp L -> NoDup (L t).
Proof.
  intros HL. pose proof (lo_state _ _ _ HL t) as Hs. destruct (tp !! t) as [s|].
  - by destruct Hs as (_ & (? & _) & _).
  - rewrite Hs. constructor.
Qed.

Definition addTo (t : string) (r : loc) (L : string -> list loc) : string -> list loc :=
  fun u => if decide (u = t) then L t ++ [r] else L u.
Definition dropFrom (t : string) (r : loc) (L : string -> list loc) : string -> list loc :=
  fun u => if decide (u = t) then filter (.≠ r) (L t) else L u.

Lemma drop_nin st tp L r p : lists_ok st tp L -> st !! r = Some p ->
  forall u, r ∉ dropFrom (key p) r L u.
Proof.
  intros HL Hr u. unfold dropFrom. destruct (decide _) as [->|Hne]; [intros [? _]%list_elem_of_filter; done|].
  intros Hin. destruct (lo_key _ _ _ HL _ _ Hin) as (q & Hq & Et). apply Hne. congruence.
Qed.

Context (key_strip : forall t t', nd_strip t' = nd_strip t -> key t' = key t).

(** A change of links inside one list. *)
Lemma lists_ok_relink st st' tp t l s L :
  links_eq l st st' -> (forall x, x ∈ l -> exists p, st !! x = Some p /\ key p = t) ->
  lists_ok st tp L -> (forall x, x ∈ s -> x ∈ l) ->
  forall tp', (forall u, u <> t -> tp' !! u = tp !! u) ->
  match tp' !! t with
  | None => s = []
  | Some z => s <> [] /\ dll st' (hdH z) (tlH z) s /\ okH z s
  end ->
  lists_ok st' tp' (fun u => if decide (u = t) then s else L u).
Proof.
  intros [Hstrip Hout] Hl [H1 H2] Hs tp' Htp Ht.
  assert (Hother : forall u x, u <> t -> x ∈ L u -> st' !! x = st !! x).
  { intros u x Hu Hx. apply Hout. intros Hin. destruct (Hl _ Hin) as (p & Hp & Et).
    destruct (H2 _ _ Hx) as (p' & Hp' & Et'). congruence. }
  split.
  - intros u. destruct (decide (u = t)) as [->|Hu]; [done|]. rewrite Htp by done. specialize (H1 u).
    destruct (tp !! u) as [z|]; [|done]. destruct H1 as (Hne & (Hnd & Hd & ? & ?) & ?).
    split; [done|]. split; [|done]. split_and!; [done| |done|done].
    eapply dlseg_frame; [|done]. intros x Hx. by eapply Hother.
  - intros u x. destruct (decide (u = t)) as [->|Hu].
    + intros Hx. destruct (Hl _ (Hs _ Hx)) as (p & Hp & Et). specialize (Hstrip x). rewrite Hp in Hstrip.
      destruct (st' !! x) as [p'|]; [|done]. apply (inj Some) in Hstrip.
      exists p'. split; [done|]. by rewrite (key_strip p p').
    + intros Hx. rewrite (Hother _ _ Hu Hx). by apply H2.
Qed.

Lemma filter_remove (l1 l2 : list loc) r :
  NoDup (l1 ++ r :: l2) -> filter (.≠ r) (l1 ++ r :: l2) = l1 ++ l2.
Proof.
  intros Hnd. apply NoDup_app in Hnd as (_ & Hd & [Hr _]%NoDup_cons).
  rewrite filter_app, filter_cons, decide_False by auto.
  rewrite !filter_all; [done|..]; apply Forall_forall; intros x Hx ->; [done|].
  by apply (Hd r Hx), elem_of_cons; left.
Qed.

(** Appending an object to the list of its key. *)
Lemma wp_append st tp L r p hd tl (Q : option loc * option loc -> gmap loc T -> Prop) :
  lists_ok st tp L -> st !! r = Some p -> nd_next p = None -> (forall t, r ∉ L t) ->
  match tp !! key p with Some s => hd = hdH s /\ tl = tlH s | None => hd = None /\ tl = None end ->
  (forall hd' tl' st', links_eq (L (key p) ++ [r]) st st' -> hd' = head (L (key p) ++ [r]) ->
     (forall s', hdH s' = hd' -> tlH s' = tl' -> okH s' (L (key p) ++ [r]) ->
        lists_ok st' (<[key p := s']> tp) (addTo (key p) r L)) ->
     Q (hd', tl') st') ->
  wp (link_back hd tl r) st Q.
Proof.
  intros HL Hr Hnext Hnin Hends HQ. set (t := key p) in *.
  assert (Hdll : dll st hd tl (L t)).
  { pose proof (lo_state _ _ _ HL t) as Ht. destruct (tp !! t) as [s|].
    - destruct Hends as [-> ->]. by destruct Ht as (_ & ? & _).
    - destruct Hends as [-> ->]. rewrite Ht. split_and!; try done. constructor. }
  eapply wp_link_back; [exact Hdll|exact (Hnin t)|exact Hr|exact Hnext|].
  intros hd' tl' st' Hdll' Hl. apply HQ; [done|by destruct Hdll' as (_ & _ & ? & _)|].
  intros s' <- <- Hok. unfold addTo. eapply (lists_ok_relink _ _ _ t (L t ++ [r])); [exact Hl| |exact HL|done| |].
  - intros x [Hx| ->%list_elem_of_singleton]%elem_of_app; [by apply (lo_key _ _ _ HL)|eauto].
  - intros u Hu. by rewrite lookup_insert_ne.
  - rewrite lookup_insert_eq. split; [by intros [_ E]%app_eq_nil|]. done.
Qed.

(** Taking an object out of the list of its key. *)
Lemma wp_remove st tp L r p s (Q : option loc * option loc -> gmap loc T -> Prop) :
  lists_ok st tp L -> st !! r = Some p -> r ∈ L (key p) -> tp !! key p = Some s ->
  (forall hd tl st', let rest := filter (.≠ r) (L (key p)) in
     links_eq rest st st' -> hd = head rest ->
     llen (L (key p)) = 1 + llen rest ->
     (rest = [] -> lists_ok st' (delete (key p) tp) (dropFrom (key p) r L)) ->
     (forall s', rest <> [] -> hdH s' = hd -> tlH s' = tl -> okH s' rest ->
        lists_ok st' (<[key p := s']> tp) (dropFrom (key p) r L)) ->
     Q (hd, tl) st') ->
  wp (unlink (hdH s) (tlH s) r) st Q.
Proof.
  intros HL Hr Hin Hs HQ. set (t := key p) in *.
  pose proof (lo_state _ _ _ HL t) as Ht. rewrite Hs in Ht. destruct Ht as (Hne & Hdll & Hcount).
  pose proof Hin as Hin'. apply list_elem_of_split in Hin' as (l1 & l2 & El). pose proof Hdll as Hdll0. rewrite El in Hdll.
  pose proof Hdll as (Hnd & _). eapply wp_unlink; [exact Hdll|].
  assert (Ef : filter (.≠ r) (L t) = l1 ++ l2) by (rewrite El; by apply filter_remove).
  intros hd tl st' Hdll' Hl'. pose proof Hl' as Hl2. rewrite <- Ef in Hl2.
  assert (Hlt : links_eq (L t) st st').
  { eapply links_eq_mono; [|exact Hl']. rewrite El. intros x. set_solver. }
  assert (Hrel : forall tp', (forall u, u <> t -> tp' !! u = tp !! u) ->
    match tp' !! t with
    | None => l1 ++ l2 = []
    | Some z => l1 ++ l2 <> [] /\ dll st' (hdH z) (tlH z) (l1 ++ l2) /\ okH z (l1 ++ l2)
    end -> lists_ok st' tp' (dropFrom t r L)).
  { intros tp' Hu Hz. unfold dropFrom. rewrite Ef. eapply (lists_ok_relink _ _ _ t (L t)); [exact Hlt| |exact HL| |exact Hu|exact Hz].
    - intros x. apply (lo_key _ _ _ HL).
    - intros x Hx. rewrite El. set_solver. }
  apply HQ; cbv zeta; rewrite Ef.
  - done.
  - by destruct Hdll' as (_ & _ & ? & _).
  - rewrite El, !llen_app, llen_cons. lia.
  - intros E. apply Hrel; [intros u Hu; by rewrite lookup_delete_ne|]. by rewrite lookup_delete_eq.
  - intros s' Hne' <- <- Hok. apply Hrel; [intros u Hu; by rewrite lookup_insert_ne|]. rewrite lookup_insert_eq. done.
Qed.
End Family.
