(* ===== verification/Types.v ===== *)
(** * The broker's data types

    The structs of internal/broker/broker.go as records, field for field: [Message]
    with its intrusive fields, the cache's expiry items, replay frontiers and topic
    sequences, the group checkpoints and the scopes that key them.  A pointer to an object
    is a [loc] into the store of the component that owns it; [nil] is [None].  A string is a
    Go string (its bytes); a payload is a list of bytes; an [int64], a [uint64] or a
    [time.Duration] is a [Z]. *)
From S2P Require Import Prelude GoHeap Dll.
#[local] Open Scope Z_scope.

(** ** Constants *)
Definition maxHeaders : Z := 8192.
Definition topicCompactTombstones : Z := 256.
Definition orderCompactTombstones : Z := 1024.
Definition maxBatchMessages : Z := 4096.
Definition maxBatchBytes : Z := 16777216.
Definition streamMemoryReservation : Z := 262144.

(** Go durations, in nanoseconds. *)
Definition Millisecond : Z := 1000000.
Definition Second : Z := 1000000000.
Definition Minute : Z := 60000000000.
Definition Hour : Z := 3600000000000.


(** ** Messages *)
(** [type Message struct]: the wire fields, then the cache's intrusive fields. *)
Record Message := mkMessage {
  m_ID : string;
  m_Topic : string;
  m_Key : string;
  m_Headers : gmap string string;
  m_Payload : list byte;
  m_CreatedAt : Z;
  m_ExpiresAt : Z;
  m_Origin : string;
  m_Sequence : Z;
  m_expiry : option loc;
  m_expiryPrev : option loc;
  m_expiryNext : option loc;
  m_orderIndex : Z;
  m_topicIndex : Z;
  m_accountedSize : Z;
  m_repairOrdinal : Z;
}.
#[export] Instance Message_settable : Settable Message := fun r => mkMessage (m_ID r) (m_Topic r)
  (m_Key r) (m_Headers r) (m_Payload r) (m_CreatedAt r) (m_ExpiresAt r) (m_Origin r) (m_Sequence r)
  (m_expiry r) (m_expiryPrev r) (m_expiryNext r) (m_orderIndex r) (m_topicIndex r) (m_accountedSize
  r) (m_repairOrdinal r).
#[export] Instance set_m_ID : Setter m_ID := ltac:(derive_setter).
#[export] Instance set_m_Topic : Setter m_Topic := ltac:(derive_setter).
#[export] Instance set_m_Key : Setter m_Key := ltac:(derive_setter).
#[export] Instance set_m_Headers : Setter m_Headers := ltac:(derive_setter).
#[export] Instance set_m_Payload : Setter m_Payload := ltac:(derive_setter).
#[export] Instance set_m_CreatedAt : Setter m_CreatedAt := ltac:(derive_setter).
#[export] Instance set_m_ExpiresAt : Setter m_ExpiresAt := ltac:(derive_setter).
#[export] Instance set_m_Origin : Setter m_Origin := ltac:(derive_setter).
#[export] Instance set_m_Sequence : Setter m_Sequence := ltac:(derive_setter).
#[export] Instance set_m_expiry : Setter m_expiry := ltac:(derive_setter).
#[export] Instance set_m_expiryPrev : Setter m_expiryPrev := ltac:(derive_setter).
#[export] Instance set_m_expiryNext : Setter m_expiryNext := ltac:(derive_setter).
#[export] Instance set_m_orderIndex : Setter m_orderIndex := ltac:(derive_setter).
#[export] Instance set_m_topicIndex : Setter m_topicIndex := ltac:(derive_setter).
#[export] Instance set_m_accountedSize : Setter m_accountedSize := ltac:(derive_setter).
#[export] Instance set_m_repairOrdinal : Setter m_repairOrdinal := ltac:(derive_setter).

#[export] Instance Message_node : DllNode Message.
Proof.
  refine {| nd_prev := m_expiryPrev; nd_next := m_expiryNext;
            nd_set_prev p m := m <| m_expiryPrev := p |>;
            nd_set_next n m := m <| m_expiryNext := n |>;
            nd_strip m := (m <| m_expiryPrev := None |>) <| m_expiryNext := None |> |}; done.
Defined.

(** ** Expiry items *)
(** [type expiryItem struct]: the messages of one expiry instant, threaded through [expiryPrev]/[expiryNext]. *)
Record expiryItem := mkExpiryItem {
  ei_at : Z;
  ei_index : Z;
  ei_head : option loc;
  ei_count : Z;
}.
#[export] Instance expiryItem_settable : Settable expiryItem := fun r => mkExpiryItem (ei_at r)
  (ei_index r) (ei_head r) (ei_count r).
#[export] Instance set_ei_at : Setter ei_at := ltac:(derive_setter).
#[export] Instance set_ei_index : Setter ei_index := ltac:(derive_setter).
#[export] Instance set_ei_head : Setter ei_head := ltac:(derive_setter).
#[export] Instance set_ei_count : Setter ei_count := ltac:(derive_setter).

#[export] Instance expiryItem_heap : HeapItem expiryItem.
Proof.
  refine {| hi_at := ei_at; hi_index := ei_index;
            hi_set_index i e := e <| ei_index := i |> |}; done.
Defined.

(** ** Replay metadata *)
(** [type topicSequence struct] *)
Record topicSequence := mkTopicSequence {
  ts_origin : string;
  ts_next : Z;
  ts_expiresAt : Z;
}.
#[export] Instance topicSequence_settable : Settable topicSequence := fun r => mkTopicSequence
  (ts_origin r) (ts_next r) (ts_expiresAt r).
#[export] Instance set_ts_origin : Setter ts_origin := ltac:(derive_setter).
#[export] Instance set_ts_next : Setter ts_next := ltac:(derive_setter).
#[export] Instance set_ts_expiresAt : Setter ts_expiresAt := ltac:(derive_setter).
(** [type topicFrontier struct] *)
Record topicFrontier := mkTopicFrontier {
  tf_Sequences : gmap string Z;
  tf_ExpiresAt : Z;
}.
#[export] Instance topicFrontier_settable : Settable topicFrontier := fun r => mkTopicFrontier
  (tf_Sequences r) (tf_ExpiresAt r).
#[export] Instance set_tf_Sequences : Setter tf_Sequences := ltac:(derive_setter).
#[export] Instance set_tf_ExpiresAt : Setter tf_ExpiresAt := ltac:(derive_setter).

(** ** Group checkpoints *)
(** [type checkpointScope struct]: the key of the checkpoint and group-work maps. *)
Record checkpointScope := mkScope {
  cs_topic : string;
  cs_group : string;
}.
#[export] Instance checkpointScope_settable : Settable checkpointScope := fun r => mkScope (cs_topic
  r) (cs_group r).
#[export] Instance set_cs_topic : Setter cs_topic := ltac:(derive_setter).
#[export] Instance set_cs_group : Setter cs_group := ltac:(derive_setter).

#[export] Instance checkpointScope_eq_dec : EqDecision checkpointScope.
Proof. solve_decision. Defined.
#[export] Instance checkpointScope_countable : Countable checkpointScope.
Proof.
  refine (inj_countable' (fun s => (cs_topic s, cs_group s)) (fun p => mkScope p.1 p.2) _).
  by intros [].
Defined.

(** [type groupCheckpoint struct] *)
Record groupCheckpoint := mkCheckpoint {
  gc_Topic : string;
  gc_Group : string;
  gc_MessageID : string;
  gc_ExpiresAt : Z;
}.
#[export] Instance groupCheckpoint_settable : Settable groupCheckpoint := fun r => mkCheckpoint
  (gc_Topic r) (gc_Group r) (gc_MessageID r) (gc_ExpiresAt r).
#[export] Instance set_gc_Topic : Setter gc_Topic := ltac:(derive_setter).
#[export] Instance set_gc_Group : Setter gc_Group := ltac:(derive_setter).
#[export] Instance set_gc_MessageID : Setter gc_MessageID := ltac:(derive_setter).
#[export] Instance set_gc_ExpiresAt : Setter gc_ExpiresAt := ltac:(derive_setter).

(** [type ackRequest struct] *)
Record ackRequest := mkAckRequest { ar_DeliveryIDs : list string; ar_Checkpoints : list groupCheckpoint }.

(** [type checkpointOrderEntry struct] *)
Record checkpointOrderEntry := mkOrderEntry {
  co_scope : checkpointScope;
  co_messageID : string;
  co_expiresAt : Z;
}.
#[export] Instance checkpointOrderEntry_settable : Settable checkpointOrderEntry := fun r =>
  mkOrderEntry (co_scope r) (co_messageID r) (co_expiresAt r).
#[export] Instance set_co_scope : Setter co_scope := ltac:(derive_setter).
#[export] Instance set_co_messageID : Setter co_messageID := ltac:(derive_setter).
#[export] Instance set_co_expiresAt : Setter co_expiresAt := ltac:(derive_setter).

(** ** Errors *)

(** The error values the modelled functions return; [errOther] carries the text of an
    [errors.New] that callers do not compare. *)
Inductive error :=
| errRetentionCapacity
| errReplicaSequenceMissing
| errIdempotencyConflict
| errOther (msg : string).

#[export] Instance error_eq_dec : EqDecision error.
Proof. solve_decision. Defined.

Definition errCacheCapacity : error := errOther "message exceeds cache capacity".
Definition errTopicSequence : error := errOther "topic sequence capacity".

(** ** Small functions of messages *)

(** [validTopic]: 1 to 255 bytes of [A-Za-z0-9._-].  Ranging over the runes of a Go string
    yields U+FFFD for a byte that is not ASCII text, so a non-ASCII byte fails the test. *)
Definition topicRune (a : Ascii.ascii) : bool :=
  let n := Z.of_N (Ascii.N_of_ascii a) in
  (n =? 46) || (n =? 45) || (n =? 95)
  || ((97 <=? n) && (n <=? 122)) || ((65 <=? n) && (n <=? 90)) || ((48 <=? n) && (n <=? 57)).

Definition validTopic (s : string) : bool :=
  if (slen s =? 0) || (255 <? slen s) then false
  else forallb topicRune (String.list_ascii_of_string s).

(** The affinity of a message: its key, or its ID. *)
Definition deliveryAffinity (m : Message) : string :=
  if bool_decide (m_Key m <> "") then m_Key m else m_ID m.

(** The size a message is charged for, before it is memoised in [accountedSize]. *)
Definition rawSize (m : Message) : Z :=
  264 + slen (m_ID m) + slen (m_Topic m) + slen (m_Key m) + llen (m_Payload m)
  + msum (fun k v => slen k + slen v + 8) (m_Headers m).

(** What [messageSize] returns. *)
Definition sizeOf (m : Message) : Z :=
  if bool_decide (0 < m_accountedSize m) then m_accountedSize m else rawSize m.

Lemma rawSize_pos m : 264 <= rawSize m.
Proof.
  unfold rawSize. pose proof (slen_nonneg (m_ID m)). pose proof (slen_nonneg (m_Topic m)).
  pose proof (slen_nonneg (m_Key m)). pose proof (llen_nonneg (m_Payload m)).
  assert (0 <= msum (fun k v => slen k + slen v + 8) (m_Headers m)); [|lia].
  apply msum_nonneg. intros k v _. pose proof (slen_nonneg k). pose proof (slen_nonneg v). lia.
Qed.

Lemma sizeOf_pos m : 0 < sizeOf m.
Proof. unfold sizeOf. pose proof (rawSize_pos m). case_bool_decide; lia. Qed.
