(* ===== verification/Config.v ===== *)
(** * The broker's configuration

    [Config], [DefaultConfig] and the checks and defaults at the start of [New]
    (internal/broker/broker.go). *)
From S2P Require Import Prelude Types.
#[local] Open Scope Z_scope.

(** [type Config struct]; the logger is left out: nothing reads it but log lines. *)
Record Config := mkConfig {
  cfg_CacheBytes : Z;
  cfg_DefaultTTL : Z;
  cfg_MaxTTL : Z;
  cfg_MaxMessage : Z;
  cfg_QueueDepth : Z;
  cfg_ReplicationQueueBytes : Z;
  cfg_ActionQueueBytes : Z;
  cfg_MaxInflightBytes : Z;
  cfg_MaxSubscriberInflightBytes : Z;
  cfg_AckDeadline : Z;
  cfg_MaxAttempts : Z;
  cfg_Peers : list string;
  cfg_PeerToken : string;
  cfg_PreviousPeerToken : string;
  cfg_ClusterID : string;
  cfg_PeerCAFile : string;
  cfg_ClientToken : string;
  cfg_PreviousClientToken : string;
  cfg_AdminToken : string;
  cfg_PreviousAdminToken : string;
  cfg_BasicUsername : string;
  cfg_BasicPassword : string;
  cfg_AdminBasicUsername : string;
  cfg_AdminBasicPassword : string;
  cfg_RequireClientAuth : bool;
  cfg_RequireAdminAuth : bool;
  cfg_IdempotencyEntries : Z;
  cfg_CheckpointEntries : Z;
  cfg_MaxConcurrentRequests : Z;
  cfg_MaxStreams : Z;
  cfg_StreamMemoryBytes : Z;
  cfg_MaxInternalRequests : Z;
  cfg_PublishAdmissionBytes : Z;
  cfg_PublishAdmissionWait : Z;
  cfg_DeliveryLagLimit : Z;
}.
#[export] Instance Config_settable : Settable Config := fun r => mkConfig (cfg_CacheBytes r)
  (cfg_DefaultTTL r) (cfg_MaxTTL r) (cfg_MaxMessage r) (cfg_QueueDepth r) (cfg_ReplicationQueueBytes
  r) (cfg_ActionQueueBytes r) (cfg_MaxInflightBytes r) (cfg_MaxSubscriberInflightBytes r)
  (cfg_AckDeadline r) (cfg_MaxAttempts r) (cfg_Peers r) (cfg_PeerToken r) (cfg_PreviousPeerToken r)
  (cfg_ClusterID r) (cfg_PeerCAFile r) (cfg_ClientToken r) (cfg_PreviousClientToken r)
  (cfg_AdminToken r) (cfg_PreviousAdminToken r) (cfg_BasicUsername r) (cfg_BasicPassword r)
  (cfg_AdminBasicUsername r) (cfg_AdminBasicPassword r) (cfg_RequireClientAuth r)
  (cfg_RequireAdminAuth r) (cfg_IdempotencyEntries r) (cfg_CheckpointEntries r)
  (cfg_MaxConcurrentRequests r) (cfg_MaxStreams r) (cfg_StreamMemoryBytes r)
  (cfg_MaxInternalRequests r) (cfg_PublishAdmissionBytes r) (cfg_PublishAdmissionWait r)
  (cfg_DeliveryLagLimit r).
#[export] Instance set_cfg_CacheBytes : Setter cfg_CacheBytes := ltac:(derive_setter).
#[export] Instance set_cfg_DefaultTTL : Setter cfg_DefaultTTL := ltac:(derive_setter).
#[export] Instance set_cfg_MaxTTL : Setter cfg_MaxTTL := ltac:(derive_setter).
#[export] Instance set_cfg_MaxMessage : Setter cfg_MaxMessage := ltac:(derive_setter).
#[export] Instance set_cfg_QueueDepth : Setter cfg_QueueDepth := ltac:(derive_setter).
#[export] Instance set_cfg_ReplicationQueueBytes : Setter cfg_ReplicationQueueBytes := ltac:(derive_setter).
#[export] Instance set_cfg_ActionQueueBytes : Setter cfg_ActionQueueBytes := ltac:(derive_setter).
#[export] Instance set_cfg_MaxInflightBytes : Setter cfg_MaxInflightBytes := ltac:(derive_setter).
#[export] Instance set_cfg_MaxSubscriberInflightBytes : Setter cfg_MaxSubscriberInflightBytes := ltac:(derive_setter).
#[export] Instance set_cfg_AckDeadline : Setter cfg_AckDeadline := ltac:(derive_setter).
#[export] Instance set_cfg_MaxAttempts : Setter cfg_MaxAttempts := ltac:(derive_setter).
#[export] Instance set_cfg_Peers : Setter cfg_Peers := ltac:(derive_setter).
#[export] Instance set_cfg_ClientToken : Setter cfg_ClientToken := ltac:(derive_setter).
#[export] Instance set_cfg_PeerToken : Setter cfg_PeerToken := ltac:(derive_setter).
#[export] Instance set_cfg_IdempotencyEntries : Setter cfg_IdempotencyEntries := ltac:(derive_setter).
#[export] Instance set_cfg_CheckpointEntries : Setter cfg_CheckpointEntries := ltac:(derive_setter).
#[export] Instance set_cfg_MaxConcurrentRequests : Setter cfg_MaxConcurrentRequests := ltac:(derive_setter).
#[export] Instance set_cfg_MaxStreams : Setter cfg_MaxStreams := ltac:(derive_setter).
#[export] Instance set_cfg_StreamMemoryBytes : Setter cfg_StreamMemoryBytes := ltac:(derive_setter).
#[export] Instance set_cfg_MaxInternalRequests : Setter cfg_MaxInternalRequests := ltac:(derive_setter).
#[export] Instance set_cfg_PublishAdmissionBytes : Setter cfg_PublishAdmissionBytes := ltac:(derive_setter).
#[export] Instance set_cfg_PublishAdmissionWait : Setter cfg_PublishAdmissionWait := ltac:(derive_setter).
#[export] Instance set_cfg_DeliveryLagLimit : Setter cfg_DeliveryLagLimit := ltac:(derive_setter).

Definition DefaultConfig : Config := {|
  cfg_CacheBytes := 268435456;
  cfg_DefaultTTL := Minute;
  cfg_MaxTTL := (24 * Hour);
  cfg_MaxMessage := 1048576;
  cfg_QueueDepth := 4096;
  cfg_ReplicationQueueBytes := 67108864;
  cfg_ActionQueueBytes := 4194304;
  cfg_MaxInflightBytes := 67108864;
  cfg_MaxSubscriberInflightBytes := 16777216;
  cfg_AckDeadline := (30 * Second);
  cfg_MaxAttempts := 8;
  cfg_Peers := [];
  cfg_PeerToken := "";
  cfg_PreviousPeerToken := "";
  cfg_ClusterID := "";
  cfg_PeerCAFile := "";
  cfg_ClientToken := "";
  cfg_PreviousClientToken := "";
  cfg_AdminToken := "";
  cfg_PreviousAdminToken := "";
  cfg_BasicUsername := "";
  cfg_BasicPassword := "";
  cfg_AdminBasicUsername := "";
  cfg_AdminBasicPassword := "";
  cfg_RequireClientAuth := false;
  cfg_RequireAdminAuth := false;
  cfg_IdempotencyEntries := 65536;
  cfg_CheckpointEntries := 65536;
  cfg_MaxConcurrentRequests := 4096;
  cfg_MaxStreams := 1024;
  cfg_StreamMemoryBytes := 16777216;
  cfg_MaxInternalRequests := 1024;
  cfg_PublishAdmissionBytes := 33554432;
  cfg_PublishAdmissionWait := (100 * Millisecond);
  cfg_DeliveryLagLimit := Second
|}.

(** ** The checks and defaults of [New] *)

(** [if cfg.F <= 0 { cfg.F = DefaultConfig().F }] *)
Definition orDefault (proj : Config -> Z) `{!Setter proj} (cfg : Config) : Config :=
  if bool_decide (proj cfg <= 0) then cfg <| proj := proj DefaultConfig |> else cfg.

(** [New] up to the creation of the broker: [None] is one of its panics.  The peers are the
    trimmed, non-empty URLs of [cfg.Peers], which the caller passes as [peers]. *)
Definition normalizeConfig (peers : list string) (cfg : Config) : option Config :=
  if cfg_RequireClientAuth cfg && bool_decide (cfg_ClientToken cfg = "")
     && bool_decide (cfg_BasicUsername cfg = "") then None else
  if cfg_RequireAdminAuth cfg && bool_decide (cfg_AdminToken cfg = "")
     && bool_decide (cfg_AdminBasicUsername cfg = "") then None else
  let cfg := orDefault cfg_CacheBytes cfg in
  let cfg := orDefault cfg_DefaultTTL cfg in
  let cfg := orDefault cfg_MaxTTL cfg in
  let cfg := orDefault cfg_MaxMessage cfg in
  if bool_decide (23 * 1048576 < cfg_MaxMessage cfg) then None else
  let cfg := orDefault cfg_QueueDepth cfg in
  let cfg := orDefault cfg_ReplicationQueueBytes cfg in
  let cfg := orDefault cfg_ActionQueueBytes cfg in
  let cfg := orDefault cfg_MaxInflightBytes cfg in
  let cfg := orDefault cfg_MaxSubscriberInflightBytes cfg in
  let cfg := orDefault cfg_AckDeadline cfg in
  let cfg := orDefault cfg_MaxAttempts cfg in
  let cfg := orDefault cfg_IdempotencyEntries cfg in
  let cfg := orDefault cfg_CheckpointEntries cfg in
  let cfg := orDefault cfg_MaxConcurrentRequests cfg in
  let cfg := orDefault cfg_MaxStreams cfg in
  let cfg := orDefault cfg_StreamMemoryBytes cfg in
  if bool_decide (cfg_StreamMemoryBytes cfg < streamMemoryReservation) then None else
  let cfg := orDefault cfg_MaxInternalRequests cfg in
  let cfg := orDefault cfg_PublishAdmissionBytes cfg in
  let cfg := orDefault cfg_PublishAdmissionWait cfg in
  let cfg := orDefault cfg_DeliveryLagLimit cfg in
  if bool_decide (cfg_PublishAdmissionBytes cfg < cfg_MaxMessage cfg)
     || bool_decide (cfg_PublishAdmissionBytes cfg < maxBatchBytes) then None else
  if bool_decide (0 < llen peers)
     && (bool_decide (cfg_PeerToken cfg = "") || bool_decide (cfg_ClusterID cfg = ""))
  then None else Some cfg.

(** ** What the configuration guarantees *)

(** The limits every component relies on. *)
Definition configOk (peers : list string) (cfg : Config) : bool :=
  forallb (fun x => bool_decide (0 < x))
    [cfg_CacheBytes cfg; cfg_DefaultTTL cfg; cfg_MaxTTL cfg; cfg_MaxMessage cfg;
     cfg_QueueDepth cfg; cfg_ReplicationQueueBytes cfg; cfg_ActionQueueBytes cfg;
     cfg_MaxInflightBytes cfg; cfg_MaxSubscriberInflightBytes cfg; cfg_AckDeadline cfg;
     cfg_MaxAttempts cfg; cfg_IdempotencyEntries cfg; cfg_CheckpointEntries cfg;
     cfg_MaxConcurrentRequests cfg; cfg_MaxStreams cfg; cfg_StreamMemoryBytes cfg;
     cfg_MaxInternalRequests cfg; cfg_PublishAdmissionBytes cfg; cfg_PublishAdmissionWait cfg;
     cfg_DeliveryLagLimit cfg]
  && bool_decide (cfg_MaxMessage cfg <= 23 * 1048576)
  && bool_decide (streamMemoryReservation <= cfg_StreamMemoryBytes cfg)
  && bool_decide (cfg_MaxMessage cfg <= cfg_PublishAdmissionBytes cfg)
  && bool_decide (maxBatchBytes <= cfg_PublishAdmissionBytes cfg)
  && (negb (cfg_RequireClientAuth cfg) || bool_decide (cfg_ClientToken cfg <> "")
      || bool_decide (cfg_BasicUsername cfg <> ""))
  && (negb (cfg_RequireAdminAuth cfg) || bool_decide (cfg_AdminToken cfg <> "")
      || bool_decide (cfg_AdminBasicUsername cfg <> ""))
  && (bool_decide (peers = [])
      || (bool_decide (cfg_PeerToken cfg <> "") && bool_decide (cfg_ClusterID cfg <> ""))).

Lemma orDefault_other {A} (proj : Config -> Z) `{!Setter proj} (other : Config -> A) cfg :
  (forall c v, other (c <| proj := v |>) = other c) -> other (orDefault proj cfg) = other cfg.
Proof. intros E. unfold orDefault. case_bool_decide; done. Qed.
Lemma orDefault_same (proj : Config -> Z) `{!Setter proj} cfg :
  (forall c v, proj (c <| proj := v |>) = v) ->
  proj (orDefault proj cfg) = if bool_decide (proj cfg <= 0) then proj DefaultConfig else proj cfg.
Proof. intros E. unfold orDefault. case_bool_decide; done. Qed.
Lemma orDefault_pos (proj : Config -> Z) `{!Setter proj} cfg :
  (forall c v, proj (c <| proj := v |>) = v) -> 0 < proj DefaultConfig ->
  0 < proj (orDefault proj cfg).
Proof. intros E Hd. rewrite orDefault_same by done. case_bool_decide; lia. Qed.

Ltac cfg_other := repeat match goal with |- context [?f (orDefault ?p ?c)] =>
  lazymatch type of (f c) with Config => fail | _ => idtac end;
  assert_fails (constr_eq f p);
  rewrite (orDefault_other p f c) by (intros; reflexivity) end.

Lemma bool_decide_le_flip (a b : Z) : bool_decide (a < b) = false -> bool_decide (b <= a) = true.
Proof. intros H%bool_decide_eq_false. apply bool_decide_true. lia. Qed.

Lemma auth_flip (b : bool) (x y : string) :
  b && bool_decide (x = "") && bool_decide (y = "") = false ->
  negb b || bool_decide (x <> "") || bool_decide (y <> "") = true.
Proof. destruct b; repeat case_bool_decide; done. Qed.

Lemma peers_flip (peers : list string) (x y : string) :
  bool_decide (0 < llen peers) && (bool_decide (x = "") || bool_decide (y = "")) = false ->
  bool_decide (peers = []) || (bool_decide (x <> "") && bool_decide (y <> "")) = true.
Proof.
  destruct peers as [|p peers]; [done|]. rewrite (bool_decide_true (0 < _)) by (unfold llen; simpl; lia).
  repeat case_bool_decide; done.
Qed.

(** Whatever configuration [New] accepts, the limits the broker runs with are positive, a
    message fits the publish admission and the wire frame, one stream fits the stream memory,
    required credentials are present, and a broker with peers has a cluster ID and a token. *)
Theorem normalizeConfig_ok peers cfg cfg' :
  normalizeConfig peers cfg = Some cfg' -> configOk peers cfg' = true.
Proof.
  unfold normalizeConfig.
  repeat match goal with |- context [if ?b then None else _] => destruct b eqn:?; [done|] end.
  intros H. apply (inj Some) in H. subst cfg'.
  repeat match goal with H : _ || _ = false |- _ => apply orb_false_iff in H as [? ?] end.
  unfold configOk. rewrite !andb_true_iff. split_and!.
  - cbn [forallb]. cfg_other. rewrite !bool_decide_true; [done|..]; (apply orDefault_pos; [done|]).
    all: vm_compute; done.
  - cfg_other. by apply bool_decide_le_flip.
  - cfg_other. by apply bool_decide_le_flip.
  - by apply bool_decide_le_flip.
  - by apply bool_decide_le_flip.
  - cfg_other. by apply auth_flip.
  - cfg_other. by apply auth_flip.
  - apply peers_flip. assumption.
Qed.

Lemma orDefault_id (proj : Config -> Z) `{!Setter proj} cfg :
  bool_decide (0 < proj cfg) = true -> orDefault proj cfg = cfg.
Proof. rewrite bool_decide_eq_true. unfold orDefault. case_bool_decide; [lia|done]. Qed.

Lemma bool_decide_lt_flip (a b : Z) : bool_decide (b <= a) = true -> bool_decide (a < b) = false.
Proof. rewrite bool_decide_eq_true. intros H. apply bool_decide_false. lia. Qed.

Lemma auth_flip_back (b : bool) (x y : string) :
  negb b || bool_decide (x <> "") || bool_decide (y <> "") = true ->
  b && bool_decide (x = "") && bool_decide (y = "") = false.
Proof. destruct b; repeat case_bool_decide; done. Qed.

Lemma peers_flip_back (peers : list string) (x y : string) :
  bool_decide (peers = []) || (bool_decide (x <> "") && bool_decide (y <> "")) = true ->
  bool_decide (0 < llen peers) && (bool_decide (x = "") || bool_decide (y = "")) = false.
Proof. destruct peers as [|p peers]; [done|]. repeat case_bool_decide; done. Qed.

(** A configuration that satisfies these guarantees is accepted and left unchanged: the
    defaults only replace values that are not positive. *)
Theorem normalizeConfig_id peers cfg :
  configOk peers cfg = true -> normalizeConfig peers cfg = Some cfg.
Proof.
  unfold configOk. rewrite !andb_true_iff. cbn [forallb]. rewrite !andb_true_iff. intros H.
  destruct_and! H. unfold normalizeConfig.
  rewrite !auth_flip_back by done.
  cbv zeta. repeat (rewrite (orDefault_id _ cfg) by assumption).
  rewrite !bool_decide_lt_flip by assumption. rewrite peers_flip_back by assumption. done.
Qed.

(** ** Witnesses *)
Lemma normalizeConfig_ok_witness :
  normalizeConfig [] DefaultConfig = Some DefaultConfig /\ configOk [] DefaultConfig = true.
Proof.
  assert (H : normalizeConfig [] DefaultConfig = Some DefaultConfig) by reflexivity.
  split; [exact H|]. exact (normalizeConfig_ok _ _ _ H).
Defined.

Lemma normalizeConfig_id_witness :
  configOk ["http://a"] (DefaultConfig <| cfg_Peers := ["http://a"] |>) = false /\
  normalizeConfig [] DefaultConfig = Some DefaultConfig.
Proof. split; [reflexivity|]. apply normalizeConfig_id. reflexivity. Defined.
