(* ===== verification/Metrics.v ===== *)
(** * Metrics

    [durationHistogram] and [type Metrics struct] of internal/broker/broker.go: the counters the
    handlers increment.  A counter is an [atomic.Uint64]. *)
From S2P Require Import Prelude Types.
#[local] Open Scope Z_scope.

(** ** Latency histograms *)
Definition latencyBoundsUS : list Z := [100; 250; 500; 1000; 2500; 5000; 10000; 50000].

Record durationHistogram := mkHistogram {
  dh_buckets : list Z;
  dh_count : Z;
  dh_sumUS : Z;
}.
Definition newHistogram : durationHistogram := mkHistogram (replicate (length latencyBoundsUS) 0) 0 0.

(** [uint64(max(0, elapsed.Microseconds()))]; the duration is in nanoseconds, and Go's division
    truncates. *)
Definition microseconds (elapsed : Z) : Z := u64 (Z.max 0 (Z.quot elapsed 1000)).

Definition observe (elapsed : Z) (h : durationHistogram) : durationHistogram :=
  let us := microseconds elapsed in
  mkHistogram
    (zip_with (fun bound n => if bool_decide (us <= bound) then u64 (n + 1) else n)
       latencyBoundsUS (dh_buckets h))
    (u64 (dh_count h + 1)) (u64 (dh_sumUS h + us)).

(** [type Metrics struct] *)
Record Metrics := mkMetrics {
  mt_GroupExpired : Z;
  mt_RepairPages : Z;
  mt_RepairMessages : Z;
  mt_RepairErrors : Z;
  mt_Published : Z;
  mt_PublishBytes : Z;
  mt_Rejected : Z;
  mt_OverloadRejected : Z;
  mt_CursorExpired : Z;
  mt_Replicated : Z;
  mt_ReplicationErrors : Z;
  mt_ReplicationDropped : Z;
  mt_ReplicationPressureRejected : Z;
  mt_DeliveryPressureRejected : Z;
  mt_AckActionDropped : Z;
  mt_NackActionDropped : Z;
  mt_Delivered : Z;
  mt_Redelivered : Z;
  mt_Acked : Z;
  mt_Dropped : Z;
  mt_Duplicate : Z;
  mt_PublishLatency : durationHistogram;
  mt_ReplicationLatency : durationHistogram;
  mt_AckLatency : durationHistogram;
  mt_PublicAuthRejected : Z;
  mt_AdminAuthRejected : Z;
  mt_PeerAuthRejected : Z;
}.
#[export] Instance Metrics_settable : Settable Metrics := fun r => mkMetrics (mt_GroupExpired r)
  (mt_RepairPages r) (mt_RepairMessages r) (mt_RepairErrors r) (mt_Published r) (mt_PublishBytes r)
  (mt_Rejected r) (mt_OverloadRejected r) (mt_CursorExpired r) (mt_Replicated r)
  (mt_ReplicationErrors r) (mt_ReplicationDropped r) (mt_ReplicationPressureRejected r)
  (mt_DeliveryPressureRejected r) (mt_AckActionDropped r) (mt_NackActionDropped r) (mt_Delivered r)
  (mt_Redelivered r) (mt_Acked r) (mt_Dropped r) (mt_Duplicate r) (mt_PublishLatency r)
  (mt_ReplicationLatency r) (mt_AckLatency r) (mt_PublicAuthRejected r) (mt_AdminAuthRejected r)
  (mt_PeerAuthRejected r).
#[export] Instance set_mt_GroupExpired : Setter mt_GroupExpired := ltac:(derive_setter).
#[export] Instance set_mt_RepairPages : Setter mt_RepairPages := ltac:(derive_setter).
#[export] Instance set_mt_RepairMessages : Setter mt_RepairMessages := ltac:(derive_setter).
#[export] Instance set_mt_RepairErrors : Setter mt_RepairErrors := ltac:(derive_setter).
#[export] Instance set_mt_Published : Setter mt_Published := ltac:(derive_setter).
#[export] Instance set_mt_PublishBytes : Setter mt_PublishBytes := ltac:(derive_setter).
#[export] Instance set_mt_Rejected : Setter mt_Rejected := ltac:(derive_setter).
#[export] Instance set_mt_OverloadRejected : Setter mt_OverloadRejected := ltac:(derive_setter).
#[export] Instance set_mt_CursorExpired : Setter mt_CursorExpired := ltac:(derive_setter).
#[export] Instance set_mt_Replicated : Setter mt_Replicated := ltac:(derive_setter).
#[export] Instance set_mt_ReplicationErrors : Setter mt_ReplicationErrors := ltac:(derive_setter).
#[export] Instance set_mt_ReplicationDropped : Setter mt_ReplicationDropped := ltac:(derive_setter).
#[export] Instance set_mt_ReplicationPressureRejected : Setter mt_ReplicationPressureRejected := ltac:(derive_setter).
#[export] Instance set_mt_DeliveryPressureRejected : Setter mt_DeliveryPressureRejected := ltac:(derive_setter).
#[export] Instance set_mt_AckActionDropped : Setter mt_AckActionDropped := ltac:(derive_setter).
#[export] Instance set_mt_NackActionDropped : Setter mt_NackActionDropped := ltac:(derive_setter).
#[export] Instance set_mt_Delivered : Setter mt_Delivered := ltac:(derive_setter).
#[export] Instance set_mt_Redelivered : Setter mt_Redelivered := ltac:(derive_setter).
#[export] Instance set_mt_Acked : Setter mt_Acked := ltac:(derive_setter).
#[export] Instance set_mt_Dropped : Setter mt_Dropped := ltac:(derive_setter).
#[export] Instance set_mt_Duplicate : Setter mt_Duplicate := ltac:(derive_setter).
#[export] Instance set_mt_PublishLatency : Setter mt_PublishLatency := ltac:(derive_setter).
#[export] Instance set_mt_ReplicationLatency : Setter mt_ReplicationLatency := ltac:(derive_setter).
#[export] Instance set_mt_AckLatency : Setter mt_AckLatency := ltac:(derive_setter).
#[export] Instance set_mt_PublicAuthRejected : Setter mt_PublicAuthRejected := ltac:(derive_setter).
#[export] Instance set_mt_AdminAuthRejected : Setter mt_AdminAuthRejected := ltac:(derive_setter).
#[export] Instance set_mt_PeerAuthRejected : Setter mt_PeerAuthRejected := ltac:(derive_setter).

Definition newMetrics : Metrics :=
  mkMetrics 0 0 0 0 0 0 0 0 0 0 0 0 0 0 0 0 0 0 0 0 0 newHistogram newHistogram newHistogram 0 0 0.

(** [counter.Add(1)] *)
Definition bumpMetric (proj : Metrics -> Z) `{!Setter proj} (m : Metrics) : Metrics :=
  m <| proj := u64 (proj m + 1) |>.

(** ** What a histogram counts *)
Definition countLe (bound : Z) (obs : list Z) : Z :=
  llen (filter (fun e => microseconds e <= bound) obs).

Definition observeAll (obs : list Z) : durationHistogram :=
  foldl (fun h e => observe e h) newHistogram obs.

Lemma countLe_snoc bound obs e :
  countLe bound (obs ++ [e]) = countLe bound obs + (if bool_decide (microseconds e <= bound) then 1 else 0).
Proof.
  unfold countLe. rewrite filter_app, llen_app, filter_cons, filter_nil.
  destruct (bool_decide_reflect (microseconds e <= bound)); [rewrite decide_True by done|rewrite decide_False by done]; done.
Qed.

Lemma countLe_range bound obs : 0 <= countLe bound obs <= llen obs.
Proof. unfold countLe, llen. pose proof (length_filter (fun e => microseconds e <= bound) obs). lia. Qed.

Lemma zip_buckets us obs l e :
  llen obs < 2 ^ 64 - 1 -> us = microseconds e ->
  zip_with (fun bound n => if bool_decide (us <= bound) then u64 (n + 1) else n) l
    ((fun bound => countLe bound obs) <$> l) = (fun bound => countLe bound (obs ++ [e])) <$> l.
Proof.
  intros Hl ->. induction l as [|b l IH]; [done|]. cbn [fmap list_fmap zip_with]. rewrite IH.
  f_equal. rewrite countLe_snoc. pose proof (countLe_range b obs).
  case_bool_decide; [|lia]. apply u64_id. unfold in_u64. lia.
Qed.

(** A latency histogram is exact: after any sequence of fewer than 2^64 observations bucket
    [i] holds the number of observations of at most its bound, the counter their number,
    and the sum their total in microseconds (modulo 2^64). *)
Theorem histogram_exact obs :
  llen obs < 2 ^ 64 ->
  dh_buckets (observeAll obs) = (fun bound => countLe bound obs) <$> latencyBoundsUS /\
  dh_count (observeAll obs) = llen obs /\
  dh_sumUS (observeAll obs) = u64 (zsum (microseconds <$> obs)).
Proof.
  unfold observeAll. induction obs as [|e obs IH] using rev_ind; [done|].
  rewrite llen_app. change (llen [e]) with 1. intros Hl. rewrite foldl_snoc.
  destruct IH as (IH1 & IH2 & IH3); [lia|]. pose proof (llen_nonneg obs). split_and!.
  - cbn [observe dh_buckets]. rewrite IH1. apply zip_buckets; [lia|done].
  - cbn [observe dh_count]. rewrite IH2. apply u64_id. unfold in_u64. lia.
  - cbn [observe dh_sumUS]. rewrite IH3, fmap_app, zsum_app. cbn [fmap list_fmap].
    rewrite zsum_cons. change (zsum []) with 0. rewrite Z.add_0_r. apply u64_add_l.
Qed.

Lemma histogram_exact_witness :
  dh_buckets (observeAll [99000; 260000; 60000000; -5]) = [2; 2; 3; 3; 3; 3; 3; 3] /\
  dh_count (observeAll [99000; 260000; 60000000; -5]) = 4.
Proof.
  destruct (histogram_exact [99000; 260000; 60000000; -5]) as (H1 & H2 & _); [vm_compute; reflexivity|].
  split; [rewrite H1; vm_compute; reflexivity|rewrite H2; reflexivity].
Defined.
