(* ===== verification/Cache.v ===== *)
(** * The message cache: state and operations

    [type cache struct] of internal/broker/broker.go and its methods, pointer for pointer: the
    messages and the expiry items live in stores ([c_mstore], [c_estore]), the index of IDs, the
    insertion order, the per-topic indexes and the expiry heap hold pointers to them.  Every
    method that takes [c.mu] is one atomic step of the model; [tnow] is the reading of
    [time.Now().UnixMilli()] a method takes inside its critical section.  A [for range] over a Go
    map runs over [map_to_list]: the results below do not depend on the order unless stated. *)
From S2P Require Import Prelude GoHeap Dll Types.
#[local] Open Scope Z_scope.

(** [type cache struct], with the stores its pointers point into. *)
Record cache := mkCache {
  c_mstore : gmap loc Message;
  c_estore : gmap loc expiryItem;
  c_items : gmap string loc;
  c_order : list (option loc);
  c_orderHead : nat;
  c_expiry : list loc;
  c_expiryItems : gmap Z loc;
  c_tombstones : Z;
  c_topics : gmap string (list (option loc));
  c_topicTombstones : gmap string Z;
  c_frontiers : gmap string topicFrontier;
  c_frontierLimit : Z;
  c_unsafe : gmap string (gmap string Z);
  c_topicSequences : gmap string topicSequence;
  c_receivedThrough : gmap string Z;
  c_receivedUntil : gmap string Z;
  c_nextMetadataExpiry : Z;
  c_reorder : gmap string (gmap Z loc);
  c_reorderSince : gmap string Z;
  c_reorderBytes : Z;
  c_reorderLimit : Z;
  c_bytes : Z;
  c_nextRepairOrdinal : Z;
  c_maxBytes : Z;
  c_rejectPressure : bool;
  c_evicted : Z;
  c_expired : Z;
}.
#[export] Instance cache_settable : Settable cache := fun r => mkCache (c_mstore r) (c_estore r)
  (c_items r) (c_order r) (c_orderHead r) (c_expiry r) (c_expiryItems r) (c_tombstones r) (c_topics
  r) (c_topicTombstones r) (c_frontiers r) (c_frontierLimit r) (c_unsafe r) (c_topicSequences r)
  (c_receivedThrough r) (c_receivedUntil r) (c_nextMetadataExpiry r) (c_reorder r) (c_reorderSince
  r) (c_reorderBytes r) (c_reorderLimit r) (c_bytes r) (c_nextRepairOrdinal r) (c_maxBytes r)
  (c_rejectPressure r) (c_evicted r) (c_expired r).
#[export] Instance set_c_mstore : Setter c_mstore := ltac:(derive_setter).
#[export] Instance set_c_estore : Setter c_estore := ltac:(derive_setter).
#[export] Instance set_c_items : Setter c_items := ltac:(derive_setter).
#[export] Instance set_c_order : Setter c_order := ltac:(derive_setter).
#[export] Instance set_c_orderHead : Setter c_orderHead := ltac:(derive_setter).
#[export] Instance set_c_expiry : Setter c_expiry := ltac:(derive_setter).
#[export] Instance set_c_expiryItems : Setter c_expiryItems := ltac:(derive_setter).
#[export] Instance set_c_tombstones : Setter c_tombstones := ltac:(derive_setter).
#[export] Instance set_c_topics : Setter c_topics := ltac:(derive_setter).
#[export] Instance set_c_topicTombstones : Setter c_topicTombstones := ltac:(derive_setter).
#[export] Instance set_c_frontiers : Setter c_frontiers := ltac:(derive_setter).
#[export] Instance set_c_frontierLimit : Setter c_frontierLimit := ltac:(derive_setter).
#[export] Instance set_c_unsafe : Setter c_unsafe := ltac:(derive_setter).
#[export] Instance set_c_topicSequences : Setter c_topicSequences := ltac:(derive_setter).
#[export] Instance set_c_receivedThrough : Setter c_receivedThrough := ltac:(derive_setter).
#[export] Instance set_c_receivedUntil : Setter c_receivedUntil := ltac:(derive_setter).
#[export] Instance set_c_nextMetadataExpiry : Setter c_nextMetadataExpiry := ltac:(derive_setter).
#[export] Instance set_c_reorder : Setter c_reorder := ltac:(derive_setter).
#[export] Instance set_c_reorderSince : Setter c_reorderSince := ltac:(derive_setter).
#[export] Instance set_c_reorderBytes : Setter c_reorderBytes := ltac:(derive_setter).
#[export] Instance set_c_reorderLimit : Setter c_reorderLimit := ltac:(derive_setter).
#[export] Instance set_c_bytes : Setter c_bytes := ltac:(derive_setter).
#[export] Instance set_c_nextRepairOrdinal : Setter c_nextRepairOrdinal := ltac:(derive_setter).
#[export] Instance set_c_maxBytes : Setter c_maxBytes := ltac:(derive_setter).
#[export] Instance set_c_rejectPressure : Setter c_rejectPressure := ltac:(derive_setter).
#[export] Instance set_c_evicted : Setter c_evicted := ltac:(derive_setter).
#[export] Instance set_c_expired : Setter c_expired := ltac:(derive_setter).

#[export] Instance cache_inhabited : Inhabited cache :=
  populate (mkCache ∅ ∅ ∅ [] 0 [] ∅ 0 ∅ ∅ ∅ 0 ∅ ∅ ∅ ∅ 0 ∅ ∅ 0 0 0 0 0 false 0 0).

Abbreviation CM := (GoM cache).

(** [newCache]: at least 1024 frontiers. *)
Definition newCache (max : Z) : cache :=
  let limit := Z.quot max 128 in
  let limit := if bool_decide (limit < 1024) then 1024 else limit in
  mkCache ∅ ∅ ∅ [] 0 [] ∅ 0 ∅ ∅ ∅ limit ∅ ∅ ∅ ∅ 0 ∅ ∅ 0 4096 0 0 max false 0 0.

(** ** Pointers *)
Definition cderef (r : loc) : CM Message := c <- gget ;; glift (c_mstore c !! r).

Definition cupdate (r : loc) (f : Message -> Message) : CM unit :=
  m <- cderef r ;; gmodify (fun c => c <| c_mstore := <[r := f m]> (c_mstore c) |>).

Definition ederef (e : loc) : CM expiryItem := c <- gget ;; glift (c_estore c !! e).

Definition eupdate (e : loc) (f : expiryItem -> expiryItem) : CM unit :=
  i <- ederef e ;; gmodify (fun c => c <| c_estore := <[e := f i]> (c_estore c) |>).

(** The expiry heap as [container/heap] sees it. *)
Definition c_heap (c : cache) : heapSt expiryItem := mkHeapSt (c_expiry c) (c_estore c).
Definition c_set_heap (h : heapSt expiryItem) (c : cache) : cache :=
  (c <| c_expiry := h_slice h |>) <| c_estore := h_store h |>.
Definition heapM {A} : GoM (heapSt expiryItem) A -> CM A := gzoom c_heap c_set_heap.
(** The links of the expiry lists. *)
Definition linkM {A} : GoM (gmap loc Message) A -> CM A :=
  gzoom c_mstore (fun st c => c <| c_mstore := st |>).

(** ** Topics whose history is unsafe to replay *)
Definition markUnsafeLocked (topic source : string) (until : Z) (c : cache) : cache :=
  if bool_decide (until <= 0) then c else
  let '(topic, source, entries) :=
    match c_unsafe c !! topic with
    | Some entries => (topic, source, entries)
    | None =>
      let '(topic, source) :=
        if bool_decide (c_frontierLimit c <= mlen (c_unsafe c)) then ("*", "capacity")
        else (topic, source) in
      (topic, source, default ∅ (c_unsafe c !! topic))
    end in
  let source := if bool_decide (256 <= mlen entries) then "capacity" else source in
  c <| c_unsafe := <[topic := <[source := Z.max (default 0 (entries !! source)) until]> entries]>
                     (c_unsafe c) |>.

Definition clearUnsafeLocked (topic source : string) (c : cache) : cache :=
  match c_unsafe c !! topic with
  | Some entries =>
    let entries := delete source entries in
    c <| c_unsafe := if bool_decide (entries = ∅) then delete topic (c_unsafe c)
                     else <[topic := entries]> (c_unsafe c) |>
  | None => c
  end.

(** The expired sources of one key are deleted; whether a live one remains. *)
Definition pruneUnsafeKey (now : Z) (key : string) (c : cache) : cache * bool :=
  match c_unsafe c !! key with
  | Some entries =>
    let live := filter (fun p => now < p.2) entries in
    (c <| c_unsafe := if bool_decide (live = ∅) then delete key (c_unsafe c)
                      else <[key := live]> (c_unsafe c) |>, bool_decide (live <> ∅))
  | None => (c, false)
  end.

Definition topicUnsafeLocked (topic : string) (now : Z) (c : cache) : cache * bool :=
  let '(c, b1) := pruneUnsafeKey now "*" c in
  let '(c, b2) := pruneUnsafeKey now topic c in
  (c, b1 || b2).

(** ** Replay cursors and frontiers *)

(** A nil frontier is behind nothing; a missing origin of the cursor reads 0. *)
Definition frontierBehind (cursor : gmap string Z) (frontier : option topicFrontier) : bool :=
  match frontier with
  | None => false
  | Some f => existsb (fun p => bool_decide (default 0 (cursor !! p.1) < p.2))
                (map_to_list (tf_Sequences f))
  end.

(** ** Sizes *)

(** [messageSize] computes the charge once and memoises it in the message. *)
Definition messageSize (r : loc) : CM Z :=
  m <- cderef r ;;
  if bool_decide (0 < m_accountedSize m) then gret (m_accountedSize m)
  else
    let n := rawSize m in
    cupdate r (fun m => m <| m_accountedSize := n |>) ;;; gret n.

(** ** Removal *)

(** An eviction under pressure moves the topic's frontier past the lost message, or marks the
    topic unsafe when there is no room to record it. *)
Definition noteEvictedLocked (m : Message) (tnow : Z) (c : cache) : cache :=
  let '(c, frontier) :=
    match c_frontiers c !! m_Topic m with
    | Some f => (c, Some f)
    | None =>
      let c :=
        if bool_decide (c_frontierLimit c <= mlen (c_frontiers c))
        then c <| c_frontiers := filter (fun p => tnow < tf_ExpiresAt p.2) (c_frontiers c) |>
        else c in
      if bool_decide (c_frontierLimit c <= mlen (c_frontiers c))
      then (markUnsafeLocked (m_Topic m) "frontier-capacity" (m_ExpiresAt m) c, None)
      else (c, Some (mkTopicFrontier ∅ 0))
    end in
  let '(c, frontier) :=
    match frontier with
    | Some f =>
      if bool_decide (tf_Sequences f !! m_Origin m = None)
         && bool_decide (256 <= mlen (tf_Sequences f))
      then (markUnsafeLocked (m_Topic m) "frontier-origins" (m_ExpiresAt m) c, None)
      else (c, Some f)
    | None => (c, None)
    end in
  match frontier with
  | Some f =>
    let seq := Z.max (default 0 (tf_Sequences f !! m_Origin m)) (m_Sequence m) in
    c <| c_frontiers :=
      <[m_Topic m := mkTopicFrontier (<[m_Origin m := seq]> (tf_Sequences f))
                       (Z.max (tf_ExpiresAt f) (m_ExpiresAt m))]> (c_frontiers c) |>
  | None => c
  end.

(** [if item == nil { return }] and the unlinking of the message from its expiry list; an item
    without messages leaves the map and the heap. *)
Definition unlinkExpiryLocked (r : loc) : CM unit :=
  m <- cderef r ;;
  match m_expiry m with
  | None => gret tt
  | Some e =>
    item <- ederef e ;;
    let! (hd, _) := linkM (unlink (ei_head item) None r) ;;
    eupdate e (fun i => i <| ei_head := hd |>) ;;;
    cupdate r (fun m => m <| m_expiry := None |>) ;;;
    linkM (clear_links r) ;;;
    eupdate e (fun i => i <| ei_count := ei_count i - 1 |>) ;;;
    item <- ederef e ;;
    gwhen (bool_decide (ei_count item = 0))
      (gmodify (fun c => c <| c_expiryItems := delete (ei_at item) (c_expiryItems c) |>) ;;;
       gwhen (bool_decide (0 <= ei_index item))
         (_ <- heapM (Remove (Z.to_nat (ei_index item))) ;; gret tt))
  end.

(** The live pointers of an index move to the front; each object records its new position. *)
Fixpoint compactIndex (setIndex : Z -> Message -> Message) (kept : list (option loc))
    (l : list (option loc)) : CM (list (option loc)) :=
  match l with
  | [] => gret kept
  | None :: l => compactIndex setIndex kept l
  | Some r :: l =>
    cupdate r (setIndex (llen kept)) ;;; compactIndex setIndex (kept ++ [Some r]) l
  end.

(** [indexed[i] == m] for an in-range [i]. *)
Definition at_index (l : list (option loc)) (i : Z) (r : loc) : bool :=
  bool_decide (0 <= i) && bool_decide (i < llen l)
  && bool_decide (l !! Z.to_nat i = Some (Some r)).

Definition dropOrderIndex (r : loc) (m : Message) : CM unit :=
  c <- gget ;;
  gwhen (at_index (c_order c) (m_orderIndex m) r)
    (gmodify (fun c => (c <| c_order := <[Z.to_nat (m_orderIndex m) := None]> (c_order c) |>)
                         <| c_tombstones := c_tombstones c + 1 |>)).

(** The topic index loses the message; an index of tombstones only is deleted, one with more
    than [topicCompactTombstones] of them and a majority of them is compacted. *)
Definition dropTopicIndex (r : loc) (m : Message) : CM unit :=
  c <- gget ;;
  let indexed := default [] (c_topics c !! m_Topic m) in
  gwhen (at_index indexed (m_topicIndex m) r)
    (let indexed := <[Z.to_nat (m_topicIndex m) := None]> indexed in
     let t := default 0 (c_topicTombstones c !! m_Topic m) + 1 in
     gmodify (fun c => (c <| c_topics := <[m_Topic m := indexed]> (c_topics c) |>)
                         <| c_topicTombstones := <[m_Topic m := t]> (c_topicTombstones c) |>) ;;;
     if bool_decide (t = llen indexed) then
       gmodify (fun c => (c <| c_topics := delete (m_Topic m) (c_topics c) |>)
                           <| c_topicTombstones := delete (m_Topic m) (c_topicTombstones c) |>)
     else gwhen (bool_decide (topicCompactTombstones < t) && bool_decide (llen indexed < t * 2))
       (kept <- compactIndex (fun i m => m <| m_topicIndex := i |>) [] indexed ;;
        gmodify (fun c =>
          (c <| c_topics := if bool_decide (kept = []) then delete (m_Topic m) (c_topics c)
                            else <[m_Topic m := kept]> (c_topics c) |>)
            <| c_topicTombstones := delete (m_Topic m) (c_topicTombstones c) |>))).

Definition removeLocked (r : loc) (pressure : bool) (tnow : Z) : CM unit :=
  m <- cderef r ;;
  c <- gget ;;
  gwhen (bool_decide (is_Some (c_items c !! m_ID m)))
    (gwhen (pressure && bool_decide (m_Origin m <> "")) (gmodify (noteEvictedLocked m tnow)) ;;;
     gmodify (fun c => c <| c_items := delete (m_ID m) (c_items c) |>) ;;;
     dropOrderIndex r m ;;;
     dropTopicIndex r m ;;;
     unlinkExpiryLocked r ;;;
     sz <- messageSize r ;;
     gmodify (fun c => c <| c_bytes := i64 (c_bytes c - sz) |>) ;;;
     if pressure then gmodify (fun c => c <| c_evicted := u64 (c_evicted c + 1) |>)
     else gmodify (fun c => c <| c_expired := u64 (c_expired c + 1) |>)).

(** The oldest cached message is evicted; the head of the order moves past tombstones. *)
Fixpoint dropOldestLocked (fuel : nat) (tnow : Z) : CM unit :=
  match fuel with
  | O => gpanic
  | S fuel =>
    c <- gget ;;
    if decide (length (c_order c) <= c_orderHead c)%nat then gret tt else
    e <- glift (c_order c !! c_orderHead c) ;;
    gmodify (fun c => ((c <| c_order := <[c_orderHead c := None]> (c_order c) |>)
                         <| c_orderHead := S (c_orderHead c) |>)
                         <| c_tombstones := c_tombstones c + 1 |>) ;;;
    match e with
    | None => dropOldestLocked fuel tnow
    | Some r =>
      m <- cderef r ;;
      c <- gget ;;
      if bool_decide (is_Some (c_items c !! m_ID m)) then removeLocked r true tnow
      else dropOldestLocked fuel tnow
    end
  end.

(** [for c.bytes+sz > c.maxBytes && c.orderHead < len(c.order) { c.dropOldestLocked() }] *)
Fixpoint evictFor (fuel : nat) (sz : Z) (tnow : Z) : CM unit :=
  match fuel with
  | O => gpanic
  | S fuel =>
    c <- gget ;;
    if bool_decide (c_maxBytes c < i64 (c_bytes c + sz))
       && bool_decide (c_orderHead c < length (c_order c))%nat
    then dropOldestLocked (S (length (c_order c))) tnow ;;; evictFor fuel sz tnow
    else gret tt
  end.

(** ** Insertion *)

(** The expiry item of an instant, created and pushed on the heap when there is none. *)
Definition expiryItemFor (at_ : Z) : CM loc :=
  c <- gget ;;
  match c_expiryItems c !! at_ with
  | Some e => gret e
  | None =>
    let e := fresh (dom (c_estore c)) in
    gmodify (fun c => (c <| c_estore := <[e := mkExpiryItem at_ (-1) None 0]> (c_estore c) |>)
                        <| c_expiryItems := <[at_ := e]> (c_expiryItems c) |>) ;;;
    heapM (Push e) ;;;
    gret e
  end.

(** The message enters the ID index, the insertion order and its topic's index. *)
Definition indexMessage (r : loc) : CM unit :=
  m <- cderef r ;;
  gmodify (fun c => (c <| c_items := <[m_ID m := r]> (c_items c) |>)
                      <| c_nextRepairOrdinal := u64 (c_nextRepairOrdinal c + 1) |>) ;;;
  c <- gget ;;
  cupdate r (fun m => (m <| m_repairOrdinal := c_nextRepairOrdinal c |>)
                        <| m_orderIndex := llen (c_order c) |>) ;;;
  gmodify (fun c => c <| c_order := c_order c ++ [Some r] |>) ;;;
  let indexed := default [] (c_topics c !! m_Topic m) in
  cupdate r (fun m => m <| m_topicIndex := llen indexed |>) ;;;
  gmodify (fun c => c <| c_topics := <[m_Topic m := indexed ++ [Some r]]> (c_topics c) |>).

(** The message enters the list of its expiry instant. *)
Definition linkExpiry (r : loc) : CM unit :=
  m <- cderef r ;;
  e <- expiryItemFor (m_ExpiresAt m) ;;
  cupdate r (fun m => m <| m_expiry := Some e |>) ;;;
  item <- ederef e ;;
  hd <- linkM (link_front (ei_head item) r) ;;
  eupdate e (fun i => (i <| ei_head := hd |>) <| ei_count := ei_count i + 1 |>).

Definition insertLocked (r : loc) (tnow : Z) : CM (bool * option error) :=
  m <- cderef r ;;
  c <- gget ;;
  if bool_decide (is_Some (c_items c !! m_ID m)) then gret (false, None) else
  sz <- messageSize r ;;
  if bool_decide (c_maxBytes c < sz) then gret (false, Some errCacheCapacity) else
  if c_rejectPressure c && bool_decide (c_maxBytes c < i64 (c_bytes c + sz))
  then gret (false, Some errRetentionCapacity) else
  evictFor (S (length (c_order c))) sz tnow ;;;
  indexMessage r ;;;
  linkExpiry r ;;;
  gmodify (fun c => c <| c_bytes := i64 (c_bytes c + sz) |>) ;;;
  gret (true, None).

(** ** Expiry *)

(** The expired messages of one origin's buffer leave it; the topic of the last one visited
    is returned. *)
Fixpoint expireGapLoop (now : Z) (origin : string) (l : list (Z * loc)) (topic : string)
    : CM string :=
  match l with
  | [] => gret topic
  | (sequence, r) :: l =>
    m <- cderef r ;;
    gwhen (bool_decide (m_ExpiresAt m <= now))
      (sz <- messageSize r ;;
       gmodify (fun c => (c <| c_reorderBytes := i64 (c_reorderBytes c - sz) |>)
         <| c_reorder := alter (delete sequence) origin (c_reorder c) |>)) ;;;
    expireGapLoop now origin l (m_Topic m)
  end.

(** One origin's buffered messages; an emptied buffer is deleted. *)
Definition expireGap (now : Z) (og : string * gmap Z loc) : CM unit :=
  topic <- expireGapLoop now og.1 (map_to_list og.2) "" ;;
  c <- gget ;;
  gwhen (bool_decide (default ∅ (c_reorder c !! og.1) = ∅))
    (gmodify (fun c => (c <| c_reorder := delete og.1 (c_reorder c) |>)
                         <| c_reorderSince := delete og.1 (c_reorderSince c) |>) ;;;
     gwhen (bool_decide (topic <> ""))
       (gmodify (clearUnsafeLocked topic ("gap:" +:+ og.1)))).

(** The historical metadata, at the maintenance cadence. *)
Definition expireMetadata (now : Z) : CM unit :=
  gmodify (fun c => c <| c_nextMetadataExpiry := i64 (now + 1000) |>) ;;;
  gmodify (fun c =>
    let dead := filter (fun p => p.2 <= now /\ default ∅ (c_reorder c !! p.1) = ∅)
                  (c_receivedUntil c) in
    (c <| c_receivedUntil := filter (fun p => dead !! p.1 = None) (c_receivedUntil c) |>)
      <| c_receivedThrough := filter (fun p => dead !! p.1 = None) (c_receivedThrough c) |>) ;;;
  gmodify (fun c => c <| c_frontiers := filter (fun p => now < tf_ExpiresAt p.2) (c_frontiers c) |>) ;;;
  gmodify (fun c => foldl (fun c p => (topicUnsafeLocked p.1 now c).1) c (map_to_list (c_unsafe c))) ;;;
  gmodify (fun c => c <| c_topicSequences :=
    filter (fun p => ~ (ts_expiresAt p.2 <= now /\ default [] (c_topics c !! p.1) = []))
      (c_topicSequences c) |>) ;;;
  c <- gget ;;
  gfor (map_to_list (c_reorder c)) (expireGap now).

(** The messages of a popped expiry item: each is detached, and removed if it is still the
    cached message of its ID and of that instant. *)
Fixpoint expireList (fuel : nat) (at_ : Z) (cur : option loc) (tnow : Z) : CM unit :=
  match cur with
  | None => gret tt
  | Some r =>
    match fuel with
    | O => gpanic
    | S fuel =>
      m <- cderef r ;;
      let next := m_expiryNext m in
      cupdate r (fun m => ((m <| m_expiry := None |>) <| m_expiryPrev := None |>)
                            <| m_expiryNext := None |>) ;;;
      c <- gget ;;
      gwhen (bool_decide (c_items c !! m_ID m = Some r) && bool_decide (m_ExpiresAt m = at_))
        (removeLocked r false tnow) ;;;
      expireList fuel at_ next tnow
    end
  end.

(** [for c.expiry.Len() > 0 && c.expiry[0].at <= now { ... }] *)
Fixpoint expireHeap (fuel : nat) (now tnow : Z) : CM unit :=
  match fuel with
  | O => gpanic
  | S fuel =>
    c <- gget ;;
    match head (c_expiry c) with
    | None => gret tt
    | Some e0 =>
      root <- ederef e0 ;;
      if bool_decide (ei_at root <= now) then
        e <- heapM Pop ;;
        item <- ederef e ;;
        gmodify (fun c => c <| c_expiryItems := delete (ei_at item) (c_expiryItems c) |>) ;;;
        c <- gget ;;
        expireList (size (c_mstore c)) (ei_at item) (ei_head item) tnow ;;;
        eupdate e (fun i => (i <| ei_head := None |>) <| ei_count := 0 |>) ;;;
        expireHeap fuel now tnow
      else gret tt
    end
  end.

(** The insertion order is compacted when tombstones are many and a majority. *)
Definition compactOrder : CM unit :=
  c <- gget ;;
  gwhen (bool_decide (orderCompactTombstones < c_tombstones c)
         && bool_decide (llen (c_order c) < c_tombstones c * 2))
    (live <- gfilter (fun o : option loc =>
        match o with
        | None => gret false
        | Some r => m <- cderef r ;; c <- gget ;; gret (bool_decide (is_Some (c_items c !! m_ID m)))
        end) (c_order c) ;;
     kept <- compactIndex (fun i m => m <| m_orderIndex := i |>) [] live ;;
     gmodify (fun c => ((c <| c_order := kept |>) <| c_orderHead := 0%nat |>)
                         <| c_tombstones := 0 |>)).

Definition expireLocked (now tnow : Z) : CM unit :=
  c <- gget ;;
  gwhen (bool_decide (c_nextMetadataExpiry c <= now)) (expireMetadata now) ;;;
  c <- gget ;;
  expireHeap (S (length (c_expiry c))) now tnow ;;;
  compactOrder.

Definition putLocked (r : loc) (now tnow : Z) : CM (bool * option error) :=
  expireLocked now tnow ;;; insertLocked r tnow.

Definition insertBatchLocked (messages : list loc) (tnow : Z) : CM (list bool) :=
  gmap_list (fun r => res <- insertLocked r tnow ;; gret res.1) messages.

(** The aggregate budget of a batch; [total > c.maxBytes-sz] keeps the sum from overflowing. *)
Fixpoint checkBatch (messages : list loc) (total : Z) : CM bool :=
  match messages with
  | [] => gret true
  | r :: l =>
    sz <- messageSize r ;;
    c <- gget ;;
    if bool_decide (c_maxBytes c < sz) || bool_decide (i64 (c_maxBytes c - sz) < total)
    then gret false else checkBatch l (i64 (total + sz))
  end.

Definition putBatchLocked (messages : list loc) (now tnow : Z) : CM (list bool * option error) :=
  expireLocked now tnow ;;;
  ok <- checkBatch messages 0 ;;
  if ok : bool then inserted <- insertBatchLocked messages tnow ;; gret (inserted, None)
  else gret ([], Some errCacheCapacity).

(** ** Reading *)

(** The live messages of a topic that pass a test, in index order. *)
Definition topicFilter (topic : string) (p : Message -> bool) : CM (list (loc * Message)) :=
  c <- gget ;;
  l <- gfilter (fun o : option loc =>
      match o with None => gret false | Some r => m <- cderef r ;; gret (p m) end)
    (default [] (c_topics c !! topic)) ;;
  gmap_list (fun r => m <- cderef r ;; gret (r, m)) (omap id l).

Definition byCreatedAt (a b : loc * Message) : bool := bool_decide (m_CreatedAt a.2 < m_CreatedAt b.2).

Definition snapshot (topic : string) (since tnow : Z) : CM (list loc) :=
  l <- topicFilter topic (fun m => bool_decide (m_Topic m = topic)
         && bool_decide (since <= m_CreatedAt m) && bool_decide (tnow < m_ExpiresAt m)) ;;
  gret (fst <$> stable_sort byCreatedAt l).

Definition replayLocked (topic : string) (cursor : gmap string Z) : CM (list loc) :=
  l <- topicFilter topic (fun m => bool_decide (default 0 (cursor !! m_Origin m) < m_Sequence m)) ;;
  gret (fst <$> l).

Definition replaySinceLocked (topic : string) (since : Z) : CM (list loc) :=
  l <- topicFilter topic (fun m => bool_decide (since <= m_CreatedAt m)) ;;
  gret (fst <$> stable_sort byCreatedAt l).

(** [replayIDsLocked] of stream_memory.go: the IDs only. *)
Definition replayIDsLocked (topic : string) (cursor : gmap string Z) (legacy : bool) (since : Z)
    : CM (list string) :=
  l <- topicFilter topic (fun m =>
         if legacy then bool_decide (since <= m_CreatedAt m)
         else bool_decide (default 0 (cursor !! m_Origin m) < m_Sequence m)) ;;
  let l := if legacy then stable_sort byCreatedAt l else l in
  gret ((fun p => m_ID p.2) <$> l).

(** The position after the message [after], searched from [i]. *)
Fixpoint findAfter (after : string) (i : nat) (l : list (option loc)) : CM (option nat) :=
  match l with
  | [] => gret None
  | None :: l => findAfter after (S i) l
  | Some r :: l =>
    m <- cderef r ;;
    if bool_decide (m_ID m = after) then gret (Some (S i)) else findAfter after (S i) l
  end.

Fixpoint pageLoop (l : list (option loc)) (maxBytes : Z) (out : list loc) (bytes : Z)
    (next : string) : CM (list loc * string * bool) :=
  match l with
  | [] => gret (out, next, true)
  | o :: l =>
    if bool_decide (llen out < maxBatchMessages) then
      match o with
      | None => pageLoop l maxBytes out bytes next
      | Some r =>
        sz <- messageSize r ;;
        if bool_decide (maxBytes < i64 (bytes + sz)) then
          if bool_decide (llen out = 0) then gret ([], "", false) else gret (out, next, true)
        else
          m <- cderef r ;;
          pageLoop l maxBytes (out ++ [r]) (i64 (bytes + sz)) (m_ID m)
      end
    else gret (out, next, true)
  end.

(** [page]: the cursor is the ID of the last message of the previous page. *)
Definition page (after : string) (maxBytes tnow : Z) : CM (list loc * string * bool) :=
  expireLocked tnow tnow ;;;
  c <- gget ;;
  start <- (if bool_decide (after <> "")
            then findAfter after (c_orderHead c) (drop (c_orderHead c) (c_order c))
            else gret (Some (c_orderHead c))) ;;
  match start with
  | None => gret ([], "", false)
  | Some start => pageLoop (drop start (c_order c)) maxBytes [] 0 after
  end.

Fixpoint repairLoop (l : list (option loc)) (after maxBytes : Z) (out : list loc) (bytes next : Z)
    : CM (list loc * Z * bool) :=
  match l with
  | [] => gret (out, next, true)
  | None :: l => repairLoop l after maxBytes out bytes next
  | Some r :: l =>
    m <- cderef r ;;
    if bool_decide (m_repairOrdinal m <= after) then repairLoop l after maxBytes out bytes next
    else
      sz <- messageSize r ;;
      if bool_decide (maxBytes < i64 (bytes + sz)) then
        if bool_decide (llen out = 0) then gret ([], after, false) else gret (out, next, true)
      else
        let out := out ++ [r] in
        if bool_decide (maxBatchMessages <= llen out) then gret (out, m_repairOrdinal m, true)
        else repairLoop l after maxBytes out (i64 (bytes + sz)) (m_repairOrdinal m)
  end.

(** [repairPage]: the cursor is an insertion ordinal, which survives expiry and compaction. *)
Definition repairPage (after maxBytes tnow : Z) : CM (list loc * Z * bool) :=
  expireLocked tnow tnow ;;;
  c <- gget ;;
  repairLoop (c_order c) after maxBytes [] 0 after.

Definition has (id : string) (c : cache) : bool := bool_decide (is_Some (c_items c !! id)).
Definition get (id : string) (c : cache) : option loc := c_items c !! id.

(** [replayMessage] of stream_memory.go. *)
Definition replayMessage (id : string) (tnow : Z) : CM (option loc) :=
  c <- gget ;;
  match get id c with
  | None => gret None
  | Some r => m <- cderef r ;; gret (if bool_decide (m_ExpiresAt m <= tnow) then None else Some r)
  end.
