(* ===== verification/CacheIndex.v ===== *)
(** * The cache's indexes

    The insertion order ([c_order]) and the per-topic indexes ([c_topics]) hold a pointer to
    every cached message at the position the message records, and tombstones elsewhere.
    This file states the two index invariants, proves that the pointer code of Cache.v
    (indexing, dropping, compaction) keeps them, and gives the reasoning rules for
    dereferencing and updating messages that the other cache proofs share. *)
From S2P Require Import Prelude GoHeap Dll Types Cache.
#[local] Open Scope Z_scope.

(** ** Dereferencing *)
Lemma wp_cderef r m c (Q : Message -> cache -> Prop) :
  c_mstore c !! r = Some m -> Q m c -> wp (cderef r) c Q.
Proof. intros Hr HQ. unfold cderef. wp_step. apply wp_get. by eapply wp_lift. Qed.

Lemma wp_cupdate r f m c (Q : unit -> cache -> Prop) :
  c_mstore c !! r = Some m -> Q tt (c <| c_mstore := <[r := f m]> (c_mstore c) |>) ->
  wp (cupdate r f) c Q.
Proof. intros Hr HQ. unfold cupdate. wp_step. eapply wp_cderef; [done|]. by apply wp_modify. Qed.

Lemma wp_ederef e i c (Q : expiryItem -> cache -> Prop) :
  c_estore c !! e = Some i -> Q i c -> wp (ederef e) c Q.
Proof. intros Hr HQ. unfold ederef. wp_step. apply wp_get. by eapply wp_lift. Qed.

Lemma wp_eupdate e f i c (Q : unit -> cache -> Prop) :
  c_estore c !! e = Some i -> Q tt (c <| c_estore := <[e := f i]> (c_estore c) |>) ->
  wp (eupdate e f) c Q.
Proof. intros Hr HQ. unfold eupdate. wp_step. eapply wp_ederef; [done|]. by apply wp_modify. Qed.

(** ** Slots of an index *)
Abbreviation live := (omap id : list (option loc) -> list loc).

Lemma live_some r l : live (Some r :: l) = r :: live l.
Proof. done. Qed.
Lemma live_none l : live (None :: l) = live l.
Proof. done. Qed.

Lemma elem_of_live r (l : list (option loc)) : r ∈ live l <-> exists i, l !! i = Some (Some r).
Proof.
  rewrite list_elem_of_omap. split.
  - intros (o & Ho & E). apply list_elem_of_lookup in Ho as [i Hi]. exists i. by rewrite Hi, <- E.
  - intros [i Hi]. exists (Some r). split; [|done]. apply list_elem_of_lookup. eauto.
Qed.

Lemma live_tombstone l i r :
  l !! i = Some (Some r) -> live l ≡ₚ r :: live (<[i := None]> l).
Proof.
  revert i. induction l as [|o l IH]; intros [|i] Hi; simplify_eq/=; [done|].
  destruct o as [x|]; simpl; [|by apply IH]. rewrite (IH _ Hi). constructor.
Qed.

Lemma live_length l : (length (live l) <= length l)%nat.
Proof.
  induction l as [|[x|] l IH]; [done|rewrite live_some|rewrite live_none]; cbn [length]; lia.
Qed.

Lemma live_nil_lookup l : live l = [] -> forall i r, l !! i <> Some (Some r).
Proof.
  intros E i r Hi. assert (r ∈ live l) as Hin by (apply elem_of_live; eauto).
  rewrite E in Hin. set_solver.
Qed.

Lemma at_index_true l i r : 0 <= i -> l !! Z.to_nat i = Some (Some r) -> at_index l i r = true.
Proof.
  intros Hi Hl. unfold at_index. pose proof (lookup_lt_Some _ _ _ Hl).
  rewrite !bool_decide_true by (unfold llen; done || lia). done.
Qed.

(** ** Compaction of an index *)
Section Compact.
Context (getI : Message -> Z) (setI : Z -> Message -> Message).

Lemma wp_compactIndex kept l c (Q : list (option loc) -> cache -> Prop) :
  NoDup (live l) -> (forall r, r ∈ live l -> is_Some (c_mstore c !! r)) ->
  (forall st',
     (forall i r m, live l !! i = Some r -> c_mstore c !! r = Some m ->
        st' !! r = Some (setI (llen kept + Z.of_nat i) m)) ->
     (forall r, r ∉ live l -> st' !! r = c_mstore c !! r) ->
     Q (kept ++ (Some <$> live l)) (c <| c_mstore := st' |>)) ->
  wp (compactIndex setI kept l) c Q.
Proof.
  revert kept c. induction l as [|[r|] l IH]; intros kept c Hnd Hlive HQ; cbn [compactIndex].
  - apply wp_ret. specialize (HQ (c_mstore c)). cbn in HQ. rewrite app_nil_r in HQ.
    destruct c. apply HQ; [|done]. intros i r m Hi. done.
  - cbn in Hnd. apply NoDup_cons in Hnd as [Hr Hnd]. change (r ∉ live l) in Hr.
    destruct (Hlive r) as [m Hm]; [cbn; set_solver|].
    wp_step. eapply wp_cupdate; [done|]. apply IH; [done| |].
    + intros r' Hr'. cbn. destruct (decide (r = r')) as [<-|]; [by rewrite lookup_insert_eq|].
      rewrite lookup_insert_ne by done. apply Hlive. cbn. set_solver.
    + intros st' Hst Hout.
      replace ((kept ++ [Some r]) ++ (Some <$> live l)) with (kept ++ (Some <$> live (Some r :: l)))
        by (rewrite <- app_assoc; done).
      refine (HQ st' _ _).
      * intros [|i] r' m' Hi Hm'; cbn in Hi.
        { injection Hi as <-. rewrite Hout by done. cbn. rewrite lookup_insert_eq.
          simplify_eq. by rewrite Z.add_0_r. }
        assert (r <> r') by (intros ->; apply Hr, list_elem_of_lookup; eauto).
        erewrite Hst; [|done|cbn; by rewrite lookup_insert_ne].
        rewrite llen_app, llen_cons. f_equal. f_equal. unfold llen. simpl. lia.
      * intros r' Hr'. cbn in Hr'. rewrite Hout by set_solver. cbn.
        rewrite lookup_insert_ne; [done|]. set_solver.
  - by apply IH.
Qed.
End Compact.

(** ** The insertion order *)
Record IXO (its : gmap string loc) (ord : list (option loc)) (st : gmap loc Message) : Prop := {
  ixo_item : forall id r, its !! id = Some r ->
    exists m, st !! r = Some m /\ m_ID m = id /\ 0 <= m_orderIndex m /\
      ord !! Z.to_nat (m_orderIndex m) = Some (Some r);
  ixo_slot : forall i r, ord !! i = Some (Some r) ->
    exists m, st !! r = Some m /\ its !! m_ID m = Some r /\ m_orderIndex m = Z.of_nat i;
}.

Abbreviation viewO := (fun m : Message => (m_ID m, m_orderIndex m)).

Lemma IXO_agree its ord st st' : agree viewO st st' -> IXO its ord st -> IXO its ord st'.
Proof.
  intros Ha [H1 H2]. split.
  - intros id r Hr. destruct (H1 _ _ Hr) as (m & Hm & E & Hi & Ho).
    destruct (agree_lookup _ _ _ _ _ Ha Hm) as (m' & Hm' & E'). exists m'.
    injection E' as -> ->. done.
  - intros i r Hr. destruct (H2 _ _ Hr) as (m & Hm & E & Hi).
    destruct (agree_lookup _ _ _ _ _ Ha Hm) as (m' & Hm' & E'). exists m'.
    injection E' as -> ->. done.
Qed.

Lemma IXO_nodup its ord st : IXO its ord st -> NoDup (live ord).
Proof.
  intros [_ H2].
  assert (forall i j r, ord !! i = Some (Some r) -> ord !! j = Some (Some r) -> i = j) as Hinj.
  { intros i j r Hi Hj. destruct (H2 _ _ Hi) as (m & Hm & _ & Ei), (H2 _ _ Hj) as (m' & Hm' & _ & Ej).
    simplify_eq. lia. }
  clear H2. induction ord as [|[r|] ord IH]; [constructor| |].
  - cbn. constructor.
    + intros Hin. apply (elem_of_live r ord) in Hin as [i Hi]. specialize (Hinj 0%nat (S i) r eq_refl Hi). lia.
    + apply IH. intros i j r' Hi Hj. specialize (Hinj (S i) (S j) r' Hi Hj). lia.
  - cbn. apply IH. intros i j r' Hi Hj. specialize (Hinj (S i) (S j) r' Hi Hj). lia.
Qed.

Lemma IXO_drop its ord st r m :
  IXO its ord st -> st !! r = Some m -> its !! m_ID m = Some r ->
  IXO (delete (m_ID m) its) (<[Z.to_nat (m_orderIndex m) := None]> ord) st.
Proof.
  intros [H1 H2] Hm Hid. split.
  - intros id r' [Hne Hr']%lookup_delete_Some. destruct (H1 _ _ Hr') as (m' & Hm' & E & Hi & Ho).
    exists m'. split_and!; try done. rewrite list_lookup_insert_ne; [done|]. intros Ei.
    destruct (H1 _ _ Hid) as (m'' & Hm'' & _ & _ & Ho'). simplify_eq. rewrite <- Ei in Ho.
    simplify_eq.
  - intros i r' Hi. destruct (decide (Z.to_nat (m_orderIndex m) = i)) as [<-|Hne].
    { destruct (H1 _ _ Hid) as (m'' & Hm'' & _ & _ & Ho'). simplify_eq.
      rewrite list_lookup_insert_eq in Hi; [done|]. by eapply lookup_lt_Some. }
    rewrite list_lookup_insert_ne in Hi by done.
    destruct (H2 _ _ Hi) as (m' & Hm' & E & Ei). exists m'. split_and!; try done.
    rewrite lookup_delete_ne; [done|]. intros Eid. rewrite <- Eid in E. simplify_eq. lia.
Qed.

Lemma IXO_add its ord st r m :
  IXO its ord st -> st !! r = Some m -> its !! m_ID m = None ->
  IXO (<[m_ID m := r]> its) (ord ++ [Some r]) (<[r := m <| m_orderIndex := llen ord |>]> st).
Proof.
  intros [H1 H2] Hm Hid.
  assert (Hfr : forall id r', its !! id = Some r' -> r' <> r).
  { intros id r' Hr' ->. destruct (H1 _ _ Hr') as (m' & Hm' & E & _). simplify_eq. }
  split.
  - intros id r' Hr'. destruct (decide (id = m_ID m)) as [->|Hne].
    + rewrite lookup_insert_eq in Hr'. injection Hr' as <-.
      exists (m <| m_orderIndex := llen ord |>). rewrite lookup_insert_eq. split_and!; [done|done|apply llen_nonneg|].
      cbn. unfold llen. rewrite Nat2Z.id, lookup_app_r, Nat.sub_diag by lia. done.
    + rewrite lookup_insert_ne in Hr' by done. specialize (Hfr _ _ Hr').
      destruct (H1 _ _ Hr') as (m' & Hm' & E & Hi & Ho).
      exists m'. rewrite lookup_insert_ne by done. split_and!; try done. by apply lookup_app_l_Some.
  - intros i r' [Hi|[Hge Hi]]%lookup_app_Some.
    + destruct (H2 _ _ Hi) as (m' & Hm' & E & Ei). specialize (Hfr _ _ E).
      exists m'. rewrite !lookup_insert_ne; [done| |done]. intros Eid. rewrite <- Eid in E. simplify_eq.
    + apply list_lookup_singleton_Some in Hi as [Hi [= <-]].
      exists (m <| m_orderIndex := llen ord |>). rewrite lookup_insert_eq. split_and!; [done| |].
      * cbn. apply lookup_insert_eq.
      * cbn. unfold llen. lia.
Qed.

(** Compacting the order: every live pointer keeps its place among the others. *)
Lemma IXO_compact its ord st st' :
  IXO its ord st ->
  (forall i r m, live ord !! i = Some r -> st !! r = Some m ->
     st' !! r = Some (m <| m_orderIndex := Z.of_nat i |>)) ->
  (forall r, r ∉ live ord -> st' !! r = st !! r) ->
  IXO its (Some <$> live ord) st'.
Proof.
  intros [H1 H2] Hst Hout. split.
  - intros id r Hr. destruct (H1 _ _ Hr) as (m & Hm & E & Hi & Ho).
    assert (r ∈ live ord) as [i Hri]%list_elem_of_lookup by (apply elem_of_live; eauto).
    exists (m <| m_orderIndex := Z.of_nat i |>). rewrite (Hst _ _ _ Hri Hm).
    split_and!; [done|done|cbn; lia|]. cbn. rewrite Nat2Z.id, list_lookup_fmap, Hri. done.
  - intros i r Hi. rewrite list_lookup_fmap in Hi.
    destruct (live ord !! i) as [r'|] eqn:Hri; simplify_eq/=.
    assert (r ∈ live ord) as [j Hj]%elem_of_live by (apply list_elem_of_lookup; eauto).
    destruct (H2 _ _ Hj) as (m & Hm & E & _). exists (m <| m_orderIndex := Z.of_nat i |>).
    by rewrite (Hst _ _ _ Hri Hm).
Qed.

(** ** The topic indexes *)
Record IXT (its : gmap string loc) (tp : gmap string (list (option loc))) (tt : gmap string Z)
    (st : gmap loc Message) : Prop := {
  ixt_item : forall id r, its !! id = Some r ->
    exists m l, st !! r = Some m /\ m_ID m = id /\ tp !! m_Topic m = Some l /\
      0 <= m_topicIndex m /\ l !! Z.to_nat (m_topicIndex m) = Some (Some r);
  ixt_slot : forall t l i r, tp !! t = Some l -> l !! i = Some (Some r) ->
    exists m, st !! r = Some m /\ its !! m_ID m = Some r /\ m_Topic m = t /\
      m_topicIndex m = Z.of_nat i;
  ixt_tomb : forall t l, tp !! t = Some l ->
    default 0 (tt !! t) = llen l - llen (live l) /\ live l <> [];
  ixt_none : forall t, tp !! t = None -> tt !! t = None;
}.

Abbreviation viewT := (fun m : Message => (m_ID m, m_Topic m, m_topicIndex m)).

Lemma IXT_agree its tp tt st st' : agree viewT st st' -> IXT its tp tt st -> IXT its tp tt st'.
Proof.
  intros Ha [H1 H2 H3 H4]. split; [| |done|done].
  - intros id r Hr. destruct (H1 _ _ Hr) as (m & l & Hm & E & Ht & Hi & Ho).
    destruct (agree_lookup _ _ _ _ _ Ha Hm) as (m' & Hm' & E'). exists m', l.
    injection E' as -> -> ->. done.
  - intros t l i r Ht Hr. destruct (H2 _ _ _ _ Ht Hr) as (m & Hm & E & Et & Hi).
    destruct (agree_lookup _ _ _ _ _ Ha Hm) as (m' & Hm' & E'). exists m'.
    injection E' as -> -> ->. done.
Qed.

Lemma IXT_inj its tp tt st t l i j r :
  IXT its tp tt st -> tp !! t = Some l -> l !! i = Some (Some r) -> l !! j = Some (Some r) -> i = j.
Proof.
  intros HI Ht Hi Hj.
  destruct (ixt_slot _ _ _ _ HI _ _ _ _ Ht Hi) as (m & Hm & _ & _ & Ei).
  destruct (ixt_slot _ _ _ _ HI _ _ _ _ Ht Hj) as (m' & Hm' & _ & _ & Ej).
  rewrite Hm in Hm'. injection Hm' as <-. lia.
Qed.

Lemma live_nodup (l : list (option loc)) :
  (forall i j r, l !! i = Some (Some r) -> l !! j = Some (Some r) -> i = j) -> NoDup (live l).
Proof.
  induction l as [|[r|] l IH]; intros Hinj; [constructor|rewrite live_some|rewrite live_none].
  - constructor.
    + intros Hin. apply elem_of_live in Hin as [i Hi]. specialize (Hinj 0%nat (S i) r eq_refl Hi). lia.
    + apply IH. intros i j r' Hi Hj. specialize (Hinj (S i) (S j) r' Hi Hj). lia.
  - apply IH. intros i j r' Hi Hj. specialize (Hinj (S i) (S j) r' Hi Hj). lia.
Qed.

(** The slots of the topic indexes, for an index given by its lookup function. *)
Record IXTv (its : gmap string loc) (lk : string -> option (list (option loc)))
    (st : gmap loc Message) : Prop := {
  ixtv_item : forall id r, its !! id = Some r ->
    exists m l, st !! r = Some m /\ m_ID m = id /\ lk (m_Topic m) = Some l /\
      0 <= m_topicIndex m /\ l !! Z.to_nat (m_topicIndex m) = Some (Some r);
  ixtv_slot : forall t l i r, lk t = Some l -> l !! i = Some (Some r) ->
    exists m, st !! r = Some m /\ its !! m_ID m = Some r /\ m_Topic m = t /\
      m_topicIndex m = Z.of_nat i;
}.

Lemma IXTv_ext its lk lk' st : (forall t, lk' t = lk t) -> IXTv its lk st -> IXTv its lk' st.
Proof. intros E [H1 H2]. split; setoid_rewrite E; done. Qed.

Section Drop.
Context (its : gmap string loc) (tp : gmap string (list (option loc))) (tt : gmap string Z).
Context (st st' : gmap loc Message) (r : loc) (m : Message) (l l' : list (option loc)).
Context (HI : IXT its tp tt st) (Hm : st !! r = Some m) (Hid : its !! m_ID m = Some r).
Context (Hl : tp !! m_Topic m = Some l) (Hperm : live l ≡ₚ r :: live l').
(** The new index of the topic: the others, each at the position it records. *)
Context (Hslot : forall i x, l' !! i = Some (Some x) -> x <> r /\
  exists m', st !! x = Some m' /\ st' !! x = Some (m' <| m_topicIndex := Z.of_nat i |>)).
Context (Hout : forall x, x ∉ live l' -> st' !! x = st !! x).

Lemma drop_old i x : l' !! i = Some (Some x) ->
  exists mx, st !! x = Some mx /\ its !! m_ID mx = Some x /\ m_Topic mx = m_Topic m.
Proof using HI Hl Hperm.
  intros Hx. assert (x ∈ live l) as [j Hj]%elem_of_live.
  { rewrite Hperm. apply elem_of_cons. right. apply elem_of_live. eauto. }
  destruct (ixt_slot _ _ _ _ HI _ _ _ _ Hl Hj) as (mx & ? & ? & ? & _). eauto.
Qed.

Lemma drop_same t k i x : tp !! t = Some k -> t <> m_Topic m -> k !! i = Some (Some x) ->
  st' !! x = st !! x.
Proof using HI Hl Hperm Hout.
  intros Ht Hne Hx. destruct (ixt_slot _ _ _ _ HI _ _ _ _ Ht Hx) as (mx & Hmx & _ & Et & _).
  apply Hout. intros [j Hj]%elem_of_live. destruct (drop_old _ _ Hj) as (m' & Hm' & _ & Et').
  congruence.
Qed.

Lemma drop_delete mx x : st !! x = Some mx -> its !! m_ID mx = Some x -> x <> r ->
  delete (m_ID m) its !! m_ID mx = Some x.
Proof using Hid.
  intros Hmx Hx Hne. rewrite lookup_delete_ne; [done|]. intros E. rewrite <- E in Hx. congruence.
Qed.

Lemma IXTv_drop :
  IXTv (delete (m_ID m) its) (fun t => if decide (m_Topic m = t) then Some l' else tp !! t) st'.
Proof using HI Hm Hid Hl Hperm Hslot Hout.
  split.
  - intros id x [Hne Hx]%lookup_delete_Some.
    destruct (ixt_item _ _ _ _ HI _ _ Hx) as (mx & k & Hmx & E & Ht & Hi & Hk).
    destruct (decide (m_Topic m = m_Topic mx)) as [Et|Et].
    + assert (k = l) as -> by congruence.
      assert (x ∈ live l) as Hin by (apply elem_of_live; eauto).
      rewrite Hperm in Hin. apply elem_of_cons in Hin as [->|[j Hj]%elem_of_live]; [congruence|].
      destruct (Hslot _ _ Hj) as (_ & m' & Hm' & Hst'). assert (m' = mx) as -> by congruence.
      exists (mx <| m_topicIndex := Z.of_nat j |>), l'. cbn. rewrite decide_True, Nat2Z.id by done.
      split_and!; [done|done|done|lia|done].
    + exists mx, k. rewrite (drop_same _ _ _ _ Ht (not_eq_sym Et) Hk), decide_False by done. done.
  - intros t k i x Ht Hx. case_decide as Et.
    + injection Ht as <-. destruct (Hslot _ _ Hx) as (Hne & m' & Hm' & Hst').
      destruct (drop_old _ _ Hx) as (m'' & Hm'' & Hid' & Et'). assert (m'' = m') as -> by congruence.
      exists (m' <| m_topicIndex := Z.of_nat i |>). cbn. split_and!; [done| |congruence|done].
      by eapply drop_delete.
    + destruct (ixt_slot _ _ _ _ HI _ _ _ _ Ht Hx) as (mx & Hmx & Hid' & Et' & Hi).
      exists mx. rewrite (drop_same _ _ _ _ Ht (not_eq_sym Et) Hx). split_and!; try done.
      eapply drop_delete; [done..|]. intros ->. congruence.
Qed.

(** The index keeps its tombstones. *)
Lemma IXT_drop_plain n : live l' <> [] -> n = llen l' - llen (live l') ->
  IXT (delete (m_ID m) its) (<[m_Topic m := l']> tp) (<[m_Topic m := n]> tt) st'.
Proof using HI Hm Hid Hl Hperm Hslot Hout.
  intros Hlive Hn. destruct (IXTv_ext _ _ (fun t => <[m_Topic m := l']> tp !! t) _
    (fun t => lookup_insert tp (m_Topic m) t l') IXTv_drop) as [A B].
  destruct HI as [_ _ H3 H4]. split; [done|done| |].
  - intros t k. rewrite !lookup_insert. destruct (decide (m_Topic m = t)); [|by apply H3].
    intros [= <-]. split; [exact Hn|exact Hlive].
  - intros t. rewrite !lookup_insert. destruct (decide (m_Topic m = t)); [done|by apply H4].
Qed.

(** The index was compacted: no tombstone is left. *)
Lemma IXT_drop_compact : live l' <> [] -> llen l' = llen (live l') ->
  IXT (delete (m_ID m) its) (<[m_Topic m := l']> tp) (delete (m_Topic m) tt) st'.
Proof using HI Hm Hid Hl Hperm Hslot Hout.
  intros Hlive Hn. destruct (IXTv_ext _ _ (fun t => <[m_Topic m := l']> tp !! t) _
    (fun t => lookup_insert tp (m_Topic m) t l') IXTv_drop) as [A B].
  destruct HI as [_ _ H3 H4]. split; [done|done| |].
  - intros t k. rewrite lookup_insert, lookup_delete. destruct (decide (m_Topic m = t)); [|by apply H3].
    intros [= <-]. cbn. split; [lia|done].
  - intros t. rewrite lookup_insert, lookup_delete. destruct (decide (m_Topic m = t)); [done|by apply H4].
Qed.

(** The last message of the topic is gone. *)
Lemma IXT_drop_last : live l' = [] ->
  IXT (delete (m_ID m) its) (delete (m_Topic m) tp) (delete (m_Topic m) tt) st'.
Proof using HI Hm Hid Hl Hperm Hslot Hout.
  intros Hlive. destruct IXTv_drop as [A B]. destruct HI as [_ _ H3 H4]. split.
  - intros id x Hx. destruct (A _ _ Hx) as (mx & k & Hmx & E & Hk & Hi & Hki).
    exists mx, k. rewrite lookup_delete. split_and!; try done. case_decide; [|done].
    injection Hk as <-. exfalso. by eapply live_nil_lookup.
  - intros t k i x. rewrite lookup_delete. destruct (decide (m_Topic m = t)); [done|].
    intros Ht. apply B. by rewrite decide_False.
  - intros t k. rewrite !lookup_delete. destruct (decide (m_Topic m = t)); [done|by apply H3].
  - intros t. rewrite !lookup_delete. destruct (decide (m_Topic m = t)); [done|by apply H4].
Qed.
End Drop.

Lemma IXT_add its tp tt st r m :
  IXT its tp tt st -> st !! r = Some m -> its !! m_ID m = None ->
  let l := default [] (tp !! m_Topic m) in
  IXT (<[m_ID m := r]> its) (<[m_Topic m := l ++ [Some r]]> tp) tt
    (<[r := m <| m_topicIndex := llen l |>]> st).
Proof.
  intros HI Hm Hid l. pose proof HI as [H1 H2 H3 H4].
  assert (Hfr : forall id x, its !! id = Some x -> x <> r).
  { intros id x Hx ->. destruct (H1 _ _ Hx) as (m' & k & Hm' & E & _). congruence. }
  assert (Hlk : forall i x, l !! i = Some x -> tp !! m_Topic m = Some l).
  { intros i x. unfold l. destruct (tp !! m_Topic m); done. }
  split.
  - intros id x. rewrite lookup_insert. case_decide as Eid.
    + intros [= <-]. exists (m <| m_topicIndex := llen l |>), (l ++ [Some r]).
      rewrite !lookup_insert_eq. cbn. unfold llen.
      rewrite Nat2Z.id, lookup_app_r, Nat.sub_diag by lia. split_and!; [done|done|done|lia|done].
    + intros Hx. destruct (H1 _ _ Hx) as (mx & k & Hmx & E & Ht & Hi & Hk).
      rewrite lookup_insert_ne by (specialize (Hfr _ _ Hx); done).
      destruct (decide (m_Topic m = m_Topic mx)) as [Et|Et].
      * exists mx, (l ++ [Some r]). rewrite <- Et, lookup_insert_eq. rewrite <- Et in Ht.
        assert (l = k) as -> by (unfold l; by rewrite Ht). split_and!; try done.
        by apply lookup_app_l_Some.
      * exists mx, k. by rewrite lookup_insert_ne.
  - assert (Hold : forall t k i x, tp !! t = Some k -> k !! i = Some (Some x) ->
      exists m0, <[r:=m <| m_topicIndex := llen l |>]> st !! x = Some m0 /\
        <[m_ID m:=r]> its !! m_ID m0 = Some x /\ m_Topic m0 = t /\ m_topicIndex m0 = Z.of_nat i).
    { intros t k i x Ht Hx. destruct (H2 _ _ _ _ Ht Hx) as (mx & Hmx & E & Et & Hi).
      exists mx. rewrite lookup_insert_ne by (specialize (Hfr _ _ E); done).
      rewrite lookup_insert_ne; [done|]. intros Eid. rewrite <- Eid in E. congruence. }
    intros t k i x. rewrite lookup_insert. case_decide as Et; [|by apply Hold].
    intros [= <-] [Hx|[Hge Hx]]%lookup_app_Some; [subst t; by eapply Hold; [eapply Hlk|]|].
    apply list_lookup_singleton_Some in Hx as [Hx [= <-]].
    exists (m <| m_topicIndex := llen l |>). rewrite lookup_insert_eq. cbn. rewrite lookup_insert_eq.
    unfold llen. split_and!; [done..|lia].
  - intros t k. rewrite lookup_insert. case_decide as Et; [|by apply H3]. intros [= <-]. subst t.
    assert (default 0 (tt !! m_Topic m) = llen l - llen (live l)) as ->.
    { unfold l. destruct (tp !! m_Topic m) as [k|] eqn:Ek; simpl; [by apply H3|]. by rewrite H4. }
    rewrite omap_app, !llen_app. split; [unfold llen; cbn; lia|]. by destruct (live l).
  - intros t. rewrite lookup_insert. case_decide; [done|by apply H4].
Qed.
