(* ===== verification/CacheExpiry.v ===== *)
(** * The cache's expiry lists

    Every cached message is threaded on the list of its expiry instant, and the instants are in
    a heap.  This file states that invariant ([EX]) and proves that linking, unlinking and
    detaching a message keep it.  [loose] are cached messages whose instant was popped from the
    heap and that the expiry loop has not visited yet. *)
From S2P Require Import Prelude GoHeap Dll Types Cache CacheIndex.
#[local] Open Scope Z_scope.

(** ** Heads without tails *)

(** The tail a caller passes to [unlink] only passes through. *)
Lemma wp_unlink_head (st : gmap loc Message) hd tl l1 r l2 (Q : option loc * option loc -> gmap loc Message -> Prop) :
  dll st hd (last (l1 ++ r :: l2)) (l1 ++ r :: l2) ->
  (forall hd' tl' st', dll st' hd' (last (l1 ++ l2)) (l1 ++ l2) -> links_eq (l1 ++ l2) st st' -> Q (hd', tl') st') ->
  wp (unlink hd tl r) st Q.
Proof.
  intros Hd HQ.
  assert (Hw : wp (unlink hd (last (l1 ++ r :: l2)) r) st (fun p st' =>
    dll st' p.1 (last (l1 ++ l2)) (l1 ++ l2) /\ links_eq (l1 ++ l2) st st')).
  { eapply wp_unlink; [exact Hd|]. intros hd' tl' st' Hd' Hl. split; [|done].
    destruct Hd' as (H1 & H2 & H3 & _). done. }
  revert Hw. generalize (last (l1 ++ r :: l2)). intros tl0. unfold wp, unlink, gbind.
  destruct (nd_read r st) as [[t st1]|]; [|done].
  set (first := match nd_prev t with Some _ => _ | None => _ end). destruct (first st1) as [[hd' st2]|]; [|done].
  destruct (nd_read r st2) as [[t2 st3]|]; [|done].
  destruct (nd_next t2) as [n|].
  - destruct (nd_update n _ st3) as [[[] st4]|]; [|done]. cbn. intros [H1 H2]. eauto.
  - cbn. intros [H1 H2]. eauto.
Qed.

(** The links and the instant of a message. *)
Abbreviation viewX := (fun m : Message => (m_ID m, m_ExpiresAt m, m_expiry m, m_expiryPrev m, m_expiryNext m)).
(** Everything but its place in an expiry list. *)
Definition bare (m : Message) : Message := (nd_strip m) <| m_expiry := None |>.
Definition unlinked (m : Message) : Prop := m_expiry m = None /\ m_expiryPrev m = None /\ m_expiryNext m = None.

Lemma dlseg_viewX st st' p l n : agree viewX st st' -> dlseg st p l n -> dlseg st' p l n.
Proof.
  intros Ha. revert p. induction l as [|r l IH]; intros p; cbn [dlseg]; [done|].
  intros (m & Hm & Ep & En & Hd). destruct (agree_lookup _ _ _ _ _ Ha Hm) as (m' & Hm' & E).
  exists m'. cbn in *. split_and!; [done|congruence|congruence|by apply IH].
Qed.

Lemma dll_viewX st st' hd tl l : agree viewX st st' -> dll st hd tl l -> dll st' hd tl l.
Proof. intros Ha (H1 & H2 & H3). split_and!; [done|by eapply dlseg_viewX|tauto..]. Qed.

(** ** The lists *)

(** [es] are the items in force; [L] gives the messages of each. *)
Record XL (loose : list loc) (its : gmap string loc) (st : gmap loc Message) (es : list loc) (est : gmap loc expiryItem)
    (L : loc -> list loc) : Prop := {
  xl_item : forall e, e ∈ es -> exists i, est !! e = Some i /\ dll st (ei_head i) (last (L e)) (L e) /\ ei_count i = llen (L e);
  xl_msg : forall e r, e ∈ es -> r ∈ L e -> exists m i, st !! r = Some m /\ m_expiry m = Some e /\
    its !! m_ID m = Some r /\ est !! e = Some i /\ ei_at i = m_ExpiresAt m;
  xl_cached : forall id r, its !! id = Some r -> r ∈ loose \/
    exists m e, st !! r = Some m /\ m_ID m = id /\ m_expiry m = Some e /\ e ∈ es /\ r ∈ L e;
  xl_loose : forall r m e, r ∈ loose -> st !! r = Some m -> m_expiry m = Some e -> e ∉ es;
  xl_idle : forall r m, st !! r = Some m -> its !! m_ID m <> Some r -> unlinked m;
}.

Lemma XL_agree loose its st st' es est L : agree viewX st st' -> XL loose its st es est L -> XL loose its st' es est L.
Proof.
  intros Ha [H1 H2 H3 H4 H5].
  assert (Hback : forall r m', st' !! r = Some m' -> exists m, st !! r = Some m /\ viewX m' = viewX m).
  { intros r m' Hm'. destruct (agree_lookup _ _ _ _ _ (symmetry Ha) Hm') as (m & Hm & E). eauto. }
  split.
  - intros e He. destruct (H1 _ He) as (i & Hi & Hd & Hc). exists i. split_and!; [done|by eapply dll_viewX|done].
  - intros e r He Hr. destruct (H2 _ _ He Hr) as (m & i & Hm & Ee & Hid & Hi & Ea).
    destruct (agree_lookup _ _ _ _ _ Ha Hm) as (m' & Hm' & E). injection E as E1 E2 E3 _ _. exists m', i.
    split_and!; [done|congruence|congruence|done|congruence].
  - intros id r Hr. destruct (H3 _ _ Hr) as [?|(m & e & Hm & Hid & Ee & He & Hin)]; [by left|right].
    destruct (agree_lookup _ _ _ _ _ Ha Hm) as (m' & Hm' & E). injection E as E1 _ E3 _ _. exists m', e.
    split_and!; [done|congruence|congruence|done|done].
  - intros r m' e Hr Hm' Ee. destruct (Hback _ _ Hm') as (m & Hm & E). injection E as _ _ E3 _ _. eapply H4; [done..|congruence].
  - intros r m' Hm' Hn. destruct (Hback _ _ Hm') as (m & Hm & E). injection E as E1 _ E3 E4 E5.
    destruct (H5 r m Hm) as (U1 & U2 & U3); [congruence|]. split_and!; congruence.
Qed.

(** Items may change in everything the lists do not use. *)
Lemma XL_items loose its st es es' est est' L :
  (forall e, e ∈ es' <-> e ∈ es) ->
  (forall e i, e ∈ es -> est !! e = Some i -> exists i', est' !! e = Some i' /\ ei_head i' = ei_head i /\ ei_count i' = ei_count i /\ ei_at i' = ei_at i) ->
  XL loose its st es est L -> XL loose its st es' est' L.
Proof.
  intros Hes Hest [H1 H2 H3 H4 H5]. split.
  - intros e He%Hes. destruct (H1 _ He) as (i & Hi & Hd & Hc). destruct (Hest _ _ He Hi) as (i' & Hi' & E1 & E2 & _). exists i'. by rewrite E1, E2.
  - intros e r He%Hes Hr. destruct (H2 _ _ He Hr) as (m & i & Hm & Ee & Hid & Hi & Ea).
    destruct (Hest _ _ He Hi) as (i' & Hi' & _ & _ & Ea'). exists m, i'. split_and!; [done..|congruence].
  - intros id r Hr. destruct (H3 _ _ Hr) as [?|(m & e & ? & ? & ? & He & ?)]; [by left|right].
    exists m, e. rewrite Hes. done.
  - intros r m e Hr Hm Ee. rewrite Hes. by eapply H4.
  - done.
Qed.

Lemma XL_disjoint loose its st es est L e e' r : XL loose its st es est L -> e ∈ es -> e' ∈ es -> r ∈ L e -> r ∈ L e' -> e = e'.
Proof.
  intros HL He He' Hr Hr'. destruct (xl_msg _ _ _ _ _ _ HL _ _ He Hr) as (m & _ & Hm & Ee & _).
  destruct (xl_msg _ _ _ _ _ _ HL _ _ He' Hr') as (m' & _ & Hm' & Ee' & _). congruence.
Qed.

(** A message leaves its list and the cache. *)
Lemma XL_unlinked loose its st st1 es es' est est' L e r m l1 l2 i' :
  XL loose its st es est L -> e ∈ es -> L e = l1 ++ r :: l2 -> st !! r = Some m -> links_eq (l1 ++ l2) st st1 ->
  est' !! e = Some i' -> dll st1 (ei_head i') (last (l1 ++ l2)) (l1 ++ l2) -> ei_count i' = llen (l1 ++ l2) ->
  (forall i, est !! e = Some i -> ei_at i' = ei_at i) ->
  (forall x, x ∈ es' <-> x ∈ es /\ (x = e -> l1 ++ l2 <> [])) ->
  (forall x i, x <> e -> x ∈ es -> est !! x = Some i -> exists i', est' !! x = Some i' /\ ei_head i' = ei_head i /\ ei_count i' = ei_count i /\ ei_at i' = ei_at i) ->
  XL (filter (.≠ r) loose) (delete (m_ID m) its) (<[r := bare m]> st1) es' est' (fun x => if decide (x = e) then l1 ++ l2 else L x).
Proof.
  intros HL He El Hm [Hstrip Hout] Hi' Hd Hc Ha Hes Hest.
  destruct (xl_item _ _ _ _ _ _ HL _ He) as (i & Hi & (Hnd & _) & _). rewrite El in Hnd.
  assert (Hr12 : r ∉ l1 ++ l2).
  { apply NoDup_app in Hnd as (_ & Hdis & [Hr2 _]%NoDup_cons). intros [Hx|Hx]%elem_of_app; [|done].
    apply (Hdis r Hx). left. }
  assert (Hsub : forall x, x ∈ l1 ++ l2 -> x ∈ L e) by (intros x; rewrite El; set_solver).
  assert (Hlost : forall x, x ∈ L e -> x ≠ r -> x ∈ l1 ++ l2) by (intros x; rewrite El; set_solver).
  assert (Hin : r ∈ L e) by (rewrite El; set_solver).
  destruct (xl_msg _ _ _ _ _ _ HL _ _ He Hin) as (m0 & _ & Hm0 & Ee & Hid & _). rewrite Hm in Hm0. injection Hm0 as <-.
  (* other messages: same up to links; outside of the list, the same *)
  assert (Hother : forall x mx, x <> r -> st !! x = Some mx -> exists mx', <[r := bare m]> st1 !! x = Some mx' /\
    nd_strip mx' = nd_strip mx).
  { intros x mx Hx Hmx. rewrite lookup_insert_ne by done. specialize (Hstrip x). rewrite Hmx in Hstrip.
    destruct (st1 !! x) as [mx'|]; [|done]. exists mx'. split; [done|]. by apply (inj Some) in Hstrip. }
  assert (Hsame : forall x, x <> r -> x ∉ l1 ++ l2 -> <[r := bare m]> st1 !! x = st !! x).
  { intros x Hx Hn. rewrite lookup_insert_ne by done. by apply Hout. }
  assert (Hids : forall x mx mx', nd_strip mx' = nd_strip mx -> st !! x = Some mx -> m_ID mx' = m_ID mx /\ m_expiry mx' = m_expiry mx /\ m_ExpiresAt mx' = m_ExpiresAt mx).
  { intros x mx mx' E _. injection E. intros; split_and!; congruence. }
  assert (Hkeep : forall x mx, x <> r -> st !! x = Some mx -> its !! m_ID mx = Some x -> delete (m_ID m) its !! m_ID mx = Some x).
  { intros x mx Hx Hmx Hix. rewrite lookup_delete_ne; [done|]. intros E. rewrite E in Hid. congruence. }
  split; cbv beta.
  - intros x [Hx Hne]%Hes. destruct (decide (x = e)) as [->|Hxe].
    + exists i'. split_and!; [done| |done]. destruct Hd as (D1 & D2 & D3 & D4). split_and!; [done| |done..].
      eapply dlseg_frame; [|exact D2]. intros y Hy. apply lookup_insert_ne. intros ->. done.
    + destruct (xl_item _ _ _ _ _ _ HL _ Hx) as (ix & Hix & Hdx & Hcx). destruct (Hest _ _ Hxe Hx Hix) as (ix' & Hix' & Eh & Ec & _).
      exists ix'. rewrite Eh, Ec. split_and!; [done| |done]. destruct Hdx as (D1 & D2 & D3 & D4). split_and!; [done| |done..].
      eapply dlseg_frame; [|exact D2]. intros y Hy. apply Hsame.
      * intros ->. apply Hxe. by eapply XL_disjoint.
      * intros Hy'. apply Hxe. eapply XL_disjoint; eauto.
  - intros x y [Hx _]%Hes Hy. destruct (decide (x = e)) as [->|Hxe].
    + destruct (xl_msg _ _ _ _ _ _ HL _ _ He (Hsub _ Hy)) as (my & iy & Hmy & Eey & Hiy & Hey & Eay).
      assert (y <> r) as Hyr by (intros ->; done). destruct (Hother _ _ Hyr Hmy) as (my' & Hmy' & E).
      destruct (Hids _ _ _ E Hmy) as (E1 & E2 & E3). exists my', i'. split_and!; [done|congruence| |done|].
      * rewrite E1. by eapply Hkeep.
      * rewrite E3, <- Eay. by apply Ha.
    + destruct (xl_msg _ _ _ _ _ _ HL _ _ Hx Hy) as (my & iy & Hmy & Eey & Hiy & Hey & Eay).
      assert (y <> r) as Hyr by (intros ->; congruence).
      destruct (Hest _ _ Hxe Hx Hey) as (iy' & Hiy' & _ & _ & Ea'). exists my, iy'.
      rewrite Hsame; [split_and!; [done|done|by eapply Hkeep|done|congruence]|done|].
      intros Hy'. apply Hxe. eapply XL_disjoint; eauto.
  - intros id y [Hne Hy]%lookup_delete_Some. assert (y <> r) as Hyr.
    { intros ->. destruct (xl_cached _ _ _ _ _ _ HL _ _ Hy) as [Hl|(my & ey & Hmy & E & _)]; [|congruence].
      by apply (xl_loose _ _ _ _ _ _ HL _ _ _ Hl Hm Ee). }
    destruct (xl_cached _ _ _ _ _ _ HL _ _ Hy) as [Hl|(my & ey & Hmy & Ei & Eey & Hey & Hiny)].
    { left. by apply list_elem_of_filter. }
    right. destruct (Hother _ _ Hyr Hmy) as (my' & Hmy' & E). destruct (Hids _ _ _ E Hmy) as (E1 & E2 & E3).
    exists my', ey. split_and!; [done|congruence|congruence| |].
    + apply Hes. split; [done|]. intros -> En. apply (Hlost _ Hiny) in Hyr. rewrite En in Hyr. by apply elem_of_nil in Hyr.
    + destruct (decide (ey = e)) as [->|]; [by apply Hlost|done].
  - intros y my ey [Hyr Hy]%list_elem_of_filter Hmy Eey [Hx _]%Hes. rewrite lookup_insert_ne in Hmy by done.
    pose proof (Hstrip y) as Hs. rewrite Hmy in Hs. destruct (st !! y) as [my0|] eqn:Hmy0; [|done].
    apply (inj Some) in Hs. destruct (Hids _ _ _ Hs Hmy0) as (_ & E2 & _).
    eapply (xl_loose _ _ _ _ _ _ HL y my0 ey); [done..|congruence|done].
  - intros y my Hmy Hn. destruct (decide (y = r)) as [->|Hyr].
    + rewrite lookup_insert_eq in Hmy. injection Hmy as <-. done.
    + destruct (decide (y ∈ l1 ++ l2)) as [Hy|Hy].
      * exfalso. destruct (xl_msg _ _ _ _ _ _ HL _ _ He (Hsub _ Hy)) as (my0 & _ & Hmy0 & _ & Hiy & _).
        destruct (Hother _ _ Hyr Hmy0) as (my' & Hmy' & E). rewrite Hmy in Hmy'. injection Hmy' as <-.
        destruct (Hids _ _ _ E Hmy0) as (E1 & _). apply Hn. rewrite E1. by eapply Hkeep.
      * rewrite Hsame in Hmy by done. apply (xl_idle _ _ _ _ _ _ HL _ _ Hmy). intros Hiy. apply Hn. by eapply Hkeep.
Qed.

(** ** The heap of instants *)
Record XH (h : heapSt expiryItem) (xm : gmap Z loc) : Prop := {
  xh_heap : hrep h;
  xh_map : forall at_ e, xm !! at_ = Some e <-> e ∈ h_slice h /\ exists i, h_store h !! e = Some i /\ ei_at i = at_;
}.

(** The expiry invariant of a cache whose messages are [its]. *)
Record EX (loose : list loc) (its : gmap string loc) (c : cache) (L : loc -> list loc) : Prop := {
  ex_heap : XH (c_heap c) (c_expiryItems c);
  ex_lists : XL loose its (c_mstore c) (c_expiry c) (c_estore c) L;
  ex_some : forall e, e ∈ c_expiry c -> L e <> [];
}.

(** What the operations on the expiry lists leave alone: everything but those lists and the places of the messages in them. *)
Record xframe (c c' : cache) : Prop := {
  xf_store : agree bare (c_mstore c) (c_mstore c');
  xf_rest : (((c' <| c_mstore := c_mstore c |>) <| c_estore := c_estore c |>) <| c_expiry := c_expiry c |>)
              <| c_expiryItems := c_expiryItems c |> = c;
}.

Lemma slice_store h e : hrep h -> e ∈ h_slice h -> exists i k, h_store h !! e = Some i /\ h_slice h !! k = Some e /\ ei_index i = Z.of_nat k.
Proof. intros [Hw _] [k Hk]%list_elem_of_lookup. destruct (Hw _ _ Hk) as (i & Hi & E). eauto. Qed.

Lemma XH_store sl st st' xm : XH (mkHeapSt sl st) xm ->
  (forall e i, e ∈ sl -> st !! e = Some i -> exists i', st' !! e = Some i' /\ ei_at i' = ei_at i /\ ei_index i' = ei_index i) ->
  XH (mkHeapSt sl st') xm.
Proof.
  intros [Hh Hm] Hext. cbn in *. split; cbn; [by eapply hrep_ext|].
  intros a e. rewrite Hm. split; intros (He & i & Hi & Ea); (split; [done|]).
  - destruct (Hext _ _ He Hi) as (i' & Hi' & Ea' & _). exists i'. split; [done|congruence].
  - destruct (slice_store _ _ Hh He) as (i0 & k & Hi0 & _). cbn in Hi0. destruct (Hext _ _ He Hi0) as (i' & Hi' & Ea' & _).
    exists i0. split; [done|congruence].
Qed.

Lemma xframe_refl c : xframe c c.
Proof. split; [reflexivity|by destruct c]. Qed.

Lemma norm_item (i i' : expiryItem) : hi_set_index 0 i' = hi_set_index 0 i -> ei_head i' = ei_head i /\ ei_count i' = ei_count i /\ ei_at i' = ei_at i.
Proof. destruct i, i'. cbn. intros E. injection E. intros; split_and!; congruence. Qed.

(** An instant leaves the heap and the map. *)
Lemma XH_removed h h' xm e i : XH h xm -> hremoved h e h' -> h_store h !! e = Some i -> XH h' (delete (ei_at i) xm).
Proof.
  intros [Hh Hm] (Hh' & Hp & Hidx & _) Hi.
  assert (Hnd := hwf_nodup _ (proj1 Hh)). rewrite Hp in Hnd. apply NoDup_cons in Hnd as [Hn _].
  assert (He : e ∈ h_slice h) by (rewrite Hp; left).
  split; [done|]. intros a x.
  assert (Hat : forall y j, h_store h' !! y = Some j -> exists j0, h_store h !! y = Some j0 /\ ei_at j0 = ei_at j).
  { intros y j Hj. specialize (Hidx y). rewrite Hj in Hidx. destruct (h_store h !! y) as [j0|]; [|done].
    exists j0. split; [done|]. apply (inj Some) in Hidx. symmetry. exact (norm_at j0 j Hidx). }
  split.
  - intros [Hne (Hx & j & Hj & Ea)%Hm]%lookup_delete_Some. rewrite Hp in Hx. apply elem_of_cons in Hx as [->|Hx].
    + rewrite Hi in Hj. injection Hj as <-. done.
    + split; [done|]. destruct (idx_eq_lookup _ _ _ _ Hidx Hj) as (j' & Hj' & E). exists j'. split; [done|].
      rewrite <- Ea. exact (norm_at j j' E).
  - intros (Hx & j & Hj & Ea). destruct (Hat _ _ Hj) as (j0 & Hj0 & Ea0). apply lookup_delete_Some. split.
    + intros E. assert (xm !! ei_at i = Some x) as H1. { apply Hm. rewrite Hp. split; [by right|]. exists j0. split; [done|congruence]. }
      assert (xm !! ei_at i = Some e) as H2 by (apply Hm; eauto). rewrite H1 in H2. injection H2 as ->. done.
    + apply Hm. rewrite Hp. split; [by right|]. exists j0. split; [done|congruence].
Qed.

(** ** Leaving the lists *)
Lemma XL_drop_loose loose its st es est L : XL loose its st es est L ->
  (forall id r, its !! id = Some r -> exists m, st !! r = Some m /\ m_ID m = id) ->
  forall r m, st !! r = Some m -> its !! m_ID m = Some r -> r ∈ loose -> unlinked m ->
  XL (filter (.≠ r) loose) (delete (m_ID m) its) st es est L.
Proof.
  intros [H1 H2 H3 H4 H5] Hids r m Hm Hid Hr Hu.
  assert (Hkeep : forall x mx, x <> r -> st !! x = Some mx -> its !! m_ID mx = Some x -> delete (m_ID m) its !! m_ID mx = Some x).
  { intros x mx Hx Hmx Hix. rewrite lookup_delete_ne; [done|]. intros E. rewrite E in Hid. congruence. }
  split; [done| | | |].
  - intros e x He Hx. destruct (H2 _ _ He Hx) as (mx & i & Hmx & Ee & Hix & Hi & Ea). exists mx, i.
    split_and!; try done. apply (Hkeep x); [|done..]. intros ->. destruct Hu as (U & _). congruence.
  - intros id x [Hne Hx]%lookup_delete_Some. destruct (H3 _ _ Hx) as [Hl|]; [left|by right].
    apply list_elem_of_filter. split; [|done]. intros ->. destruct (Hids _ _ Hx) as (mx & Hmx & E). congruence.
  - intros x mx e [_ Hx]%list_elem_of_filter. by apply H4.
  - intros x mx Hmx Hn. destruct (decide (x = r)) as [->|Hxr]; [congruence|]. apply (H5 x mx Hmx). intros Hix. apply Hn. by eapply Hkeep.
Qed.

(** The first part of [unlinkExpiryLocked]: the message leaves the list of its instant [e]. *)
Lemma wp_takeFromList loose its c L r m e i l1 l2 (k : CM unit) (Q : unit -> cache -> Prop) :
  EX loose its c L -> c_mstore c !! r = Some m -> its !! m_ID m = Some r -> m_expiry m = Some e -> e ∈ c_expiry c ->
  c_estore c !! e = Some i -> L e = l1 ++ r :: l2 ->
  (forall st1 hd, links_eq (l1 ++ l2) (c_mstore c) st1 -> dll st1 hd (last (l1 ++ l2)) (l1 ++ l2) ->
    let i' := ((i <| ei_head := hd |>) <| ei_count := llen (l1 ++ l2) |>) in
    wp k (c <| c_mstore := <[r := bare m]> st1 |> <| c_estore := <[e := i']> (c_estore c) |>) Q) ->
  wp (let! (hd, _) := linkM (unlink (ei_head i) None r) ;;
      eupdate e (fun i => i <| ei_head := hd |>) ;;;
      cupdate r (fun m => m <| m_expiry := None |>) ;;;
      linkM (clear_links r) ;;;
      eupdate e (fun i => i <| ei_count := ei_count i - 1 |>) ;;; k) c Q.
Proof.
  intros [HH HL _] Hm Hid Ee He Hi El HQ.
  destruct (xl_item _ _ _ _ _ _ HL _ He) as (i0 & Hi0 & Hd & Hc). rewrite Hi in Hi0. injection Hi0 as <-. rewrite El in Hd.
  pose proof Hd as (Hnd & _).
  assert (Hr12 : r ∉ l1 ++ l2).
  { apply NoDup_app in Hnd as (_ & Hdis & [Hr2 _]%NoDup_cons). intros [Hx|Hx]%elem_of_app; [|done]. apply (Hdis r Hx). left. }
  wp_step. unfold linkM. apply wp_zoom. eapply wp_unlink_head; [exact Hd|]. intros hd tl st1 Hd1 Hl1.
  assert (Hr1 : st1 !! r = Some m) by (rewrite (proj2 Hl1) by done; exact Hm).
  wp_step. eapply wp_eupdate; [exact Hi|]. wp_step. eapply wp_cupdate; [exact Hr1|]. wp_step. apply wp_zoom.
  eapply wp_nd_update; [cbn; apply lookup_insert_eq|]. wp_step. eapply wp_eupdate; [cbn; apply lookup_insert_eq|].
  specialize (HQ st1 hd Hl1 Hd1). cbv zeta in HQ. cbn in HQ |- *. rewrite !insert_insert_eq.
  replace (ei_count i - 1) with (llen (l1 ++ l2)) by (rewrite Hc, El, !llen_app, llen_cons; lia). exact HQ.
Qed.

Lemma agree_bare_links l st st1 r m : links_eq l st st1 -> st !! r = Some m -> r ∉ l -> agree bare st (<[r := bare m]> st1).
Proof.
  intros [Hs Ho] Hm Hr x. destruct (decide (x = r)) as [->|Hx].
  - rewrite lookup_insert_eq, Hm. done.
  - rewrite lookup_insert_ne by done. specialize (Hs x). destruct (st !! x) as [a|], (st1 !! x) as [b|]; try done.
    apply (inj Some) in Hs. change (Some (bare b) = Some (bare a)). unfold bare. change (nd_strip b = nd_strip a) in Hs. by rewrite Hs.
Qed.

Lemma EX_put loose its c L (l : list loc) e i i' : EX loose its c L -> e ∈ c_expiry c -> c_estore c !! e = Some i ->
  ei_at i' = ei_at i -> ei_index i' = ei_index i ->
  XH (mkHeapSt (c_expiry c) (<[e := i']> (c_estore c))) (c_expiryItems c) /\
  (forall x j, x <> e -> x ∈ l -> c_estore c !! x = Some j ->
    exists j', <[e := i']> (c_estore c) !! x = Some j' /\ ei_head j' = ei_head j /\ ei_count j' = ei_count j /\ ei_at j' = ei_at j).
Proof.
  intros [HH _ _] He Hi Ea Ei. split.
  - eapply XH_store; [exact HH|]. intros x j Hx Hj. cbn in Hj. destruct (decide (x = e)) as [->|Hne].
    + rewrite lookup_insert_eq. exists i'. split_and!; [done|congruence..].
    + rewrite lookup_insert_ne by done. eauto.
  - intros x j Hne _ Hj. rewrite lookup_insert_ne by done. eauto 10.
Qed.

Lemma wp_unlinkExpiry loose its c L r m (Q : unit -> cache -> Prop) :
  EX loose its c L -> (forall id r, its !! id = Some r -> exists m, c_mstore c !! r = Some m /\ m_ID m = id) ->
  c_mstore c !! r = Some m -> its !! m_ID m = Some r -> (r ∈ loose -> unlinked m) ->
  (forall c' L', EX (filter (.≠ r) loose) (delete (m_ID m) its) c' L' -> xframe c c' -> (r ∈ loose -> c' = c) -> Q tt c') ->
  wp (unlinkExpiryLocked r) c Q.
Proof.
  intros HE Hids Hm Hid Hloose HQ. pose proof HE as [HH HL Hne]. unfold unlinkExpiryLocked. wp_step. eapply wp_cderef; [exact Hm|].
  destruct (m_expiry m) as [e|] eqn:Ee.
  - assert (Hr : r ∉ loose) by (intros Hr; destruct (Hloose Hr) as (U & _); congruence).
    destruct (xl_cached _ _ _ _ _ _ HL _ _ Hid) as [|(m0 & e0 & Hm0 & _ & Ee0 & He & Hin)]; [done|].
    assert (m0 = m) as -> by congruence. assert (e0 = e) as -> by congruence. clear Hm0 Ee0.
    destruct (xl_item _ _ _ _ _ _ HL _ He) as (i & Hi & Hd & Hc). wp_step. eapply wp_ederef; [exact Hi|].
    pose proof Hin as Hin'. apply list_elem_of_split in Hin' as (l1 & l2 & El).
    assert (Hr12 : r ∉ l1 ++ l2).
    { destruct Hd as (Hnd & _). rewrite El in Hnd. apply NoDup_app in Hnd as (_ & Hdis & [Hr2 _]%NoDup_cons).
      intros [Hx|Hx]%elem_of_app; [|done]. apply (Hdis r Hx). left. }
    eapply (wp_takeFromList loose its c L r m e i l1 l2); [exact HE|done..|]. intros st1 hd Hl1 Hd1 i'.
    set (c1 := c <| c_mstore := <[r := bare m]> st1 |> <| c_estore := <[e := i']> (c_estore c) |>).
    destruct (EX_put loose its c L (c_expiry c) e i i' HE He Hi eq_refl eq_refl) as [HH1 Hother].
    pose proof (agree_bare_links _ _ _ _ _ Hl1 Hm Hr12) as Hbare.
    wp_step. eapply (wp_ederef _ i'); [cbn; apply lookup_insert_eq|]. apply wp_when.
    + intros Hz%bool_decide_eq_true. wp_step. apply wp_modify.
      destruct (slice_store _ _ (xh_heap _ _ HH1) He) as (i1 & k & Hi1 & Hk & Ek). cbn in Hi1. rewrite lookup_insert_eq in Hi1.
      injection Hi1 as <-. apply wp_when; [intros _|intros Hf; apply bool_decide_eq_false in Hf; lia].
      wp_step. unfold heapM. apply wp_zoom. rewrite Ek, Nat2Z.id. eapply (wp_Remove _ k e); [apply HH1|exact Hk|].
      intros [sl est] Hrem. apply wp_ret. pose proof Hrem as (_ & Hp & Hidx & _). cbn in Hp, Hidx.
      assert (En : l1 ++ l2 = []). { unfold i' in Hz. cbn in Hz. destruct (l1 ++ l2); [done|]. rewrite llen_cons in Hz. pose proof (llen_nonneg l). lia. }
      assert (Hsl : forall x, x ∈ sl <-> x ∈ c_expiry c /\ (x = e -> l1 ++ l2 <> [])).
      { pose proof (hwf_nodup _ (proj1 (xh_heap _ _ HH1))) as Hnd. cbn in Hnd. rewrite Hp in Hnd. apply NoDup_cons in Hnd as [Hn _].
        intros x. rewrite En, Hp, elem_of_cons. naive_solver. }
      assert (Hest : forall x j, <[e := i']> (c_estore c) !! x = Some j -> exists j', est !! x = Some j' /\
        ei_head j' = ei_head j /\ ei_count j' = ei_count j /\ ei_at j' = ei_at j).
      { intros x j Hj. destruct (idx_eq_lookup _ _ _ _ Hidx Hj) as (j' & Hj' & E). exists j'. split; [done|]. by apply norm_item. }
      destruct (Hest e i' (lookup_insert_eq _ _ _)) as (i2 & Hi2 & E1 & E2 & E3).
      apply (HQ _ (fun x => if decide (x = e) then l1 ++ l2 else L x)).
      * split.
        -- exact (XH_removed _ _ _ _ _ HH1 Hrem (lookup_insert_eq _ _ _)).
        -- eapply (XL_unlinked _ _ _ st1 (c_expiry c) sl (c_estore c) est L e r m l1 l2 i2); [done..| | | |exact Hsl|].
           ++ rewrite E1. exact Hd1.
           ++ rewrite E2. done.
           ++ intros i3 Hi3. rewrite E3. unfold i'. cbn. congruence.
           ++ intros x j Hxe Hx Hj. apply Hest. by rewrite lookup_insert_ne.
        -- intros x [Hx Hxe]%Hsl. destruct (decide (x = e)); [by apply Hxe|by apply Hne].
      * split; [exact Hbare|by destruct c].
      * done.
    + intros Hz%bool_decide_eq_false.
      assert (En : l1 ++ l2 <> []) by (intros En; apply Hz; unfold i'; cbn; by rewrite En).
      apply (HQ _ (fun x => if decide (x = e) then l1 ++ l2 else L x)).
      * split; [exact HH1| |].
        -- eapply (XL_unlinked _ _ _ st1 (c_expiry c) _ (c_estore c) _ L e r m l1 l2 i'); [done..|apply lookup_insert_eq|exact Hd1|done| | |].
           ++ intros i3 Hi3. unfold i'. cbn. congruence.
           ++ naive_solver.
           ++ intros x j Hxe Hx Hj. eauto.
        -- intros x Hx. cbn. destruct (decide (x = e)); [done|by apply Hne].
      * split; [exact Hbare|by destruct c].
      * done.
  - wp_steps. destruct (decide (r ∈ loose)) as [Hr|Hr].
    + apply (HQ c L); [|apply xframe_refl|done]. split; [done| |done]. by eapply XL_drop_loose; eauto.
    + destruct (xl_cached _ _ _ _ _ _ HL _ _ Hid) as [|(m0 & e0 & Hm0 & _ & Ee0 & He & Hin)]; [done|congruence].
Qed.

(** ** Entering the lists *)
Lemma XL_new its st es es' est est' L e i : XL [] its st es est L -> e ∉ es -> (forall x, x ∈ es' <-> x = e \/ x ∈ es) ->
  est' !! e = Some i -> ei_head i = None -> ei_count i = 0 ->
  (forall x j, x ∈ es -> est !! x = Some j -> exists j', est' !! x = Some j' /\ ei_head j' = ei_head j /\ ei_count j' = ei_count j /\ ei_at j' = ei_at j) ->
  XL [] its st es' est' (fun x => if decide (x = e) then [] else L x).
Proof.
  intros [H1 H2 H3 H4 H5] He Hes Hi Hh Hc Hest. split; cbv beta.
  - intros x Hx. destruct (decide (x = e)) as [->|Hxe].
    + exists i. rewrite Hh, Hc. split; [done|]. split; [|done]. by split; [constructor|].
    + apply Hes in Hx as [|Hx]; [done|]. destruct (H1 _ Hx) as (j & Hj & Hd & Hcj). destruct (Hest _ _ Hx Hj) as (j' & Hj' & E1 & E2 & _).
      exists j'. by rewrite E1, E2.
  - intros x r Hx Hr. destruct (decide (x = e)) as [->|Hxe]; [by apply elem_of_nil in Hr|].
    apply Hes in Hx as [|Hx]; [done|]. destruct (H2 _ _ Hx Hr) as (m & j & Hm & Ee & Hid & Hj & Ea).
    destruct (Hest _ _ Hx Hj) as (j' & Hj' & _ & _ & E). exists m, j'. split_and!; [done..|congruence].
  - intros id r Hr. right. destruct (H3 _ _ Hr) as [Hl|(m & x & Hm & Hid & Ee & Hx & Hin)]; [by apply elem_of_nil in Hl|].
    exists m, x. rewrite Hes. rewrite decide_False by (intros ->; done). split_and!; try done. by right.
  - intros r m x Hr. by apply elem_of_nil in Hr.
  - done.
Qed.

Lemma XL_linked its st st2 es est est' L e r m i hd :
  XL [] its st es est L -> e ∈ es -> st !! r = Some m -> its !! m_ID m = None -> est !! e = Some i -> ei_at i = m_ExpiresAt m ->
  links_eq (r :: L e) (<[r := m <| m_expiry := Some e |>]> st) st2 -> dll st2 hd (last (r :: L e)) (r :: L e) ->
  est' = <[e := (i <| ei_head := hd |>) <| ei_count := ei_count i + 1 |>]> est ->
  XL [] (<[m_ID m := r]> its) st2 es est' (fun x => if decide (x = e) then r :: L e else L x).
Proof.
  intros HL He Hm Hid Hi Ha [Hstrip Hout] Hd ->. pose proof HL as [H1 H2 H3 H4 H5].
  assert (Hrn : forall x, x ∈ es -> r ∉ L x).
  { intros x Hx Hr. destruct (H2 _ _ Hx Hr) as (m0 & _ & Hm0 & _ & Hid0 & _). congruence. }
  (* what the messages became *)
  assert (Hr2 : exists m2, st2 !! r = Some m2 /\ m_ID m2 = m_ID m /\ m_expiry m2 = Some e /\ m_ExpiresAt m2 = m_ExpiresAt m).
  { specialize (Hstrip r). rewrite lookup_insert_eq in Hstrip. destruct (st2 !! r) as [m2|]; [|done]. apply (inj Some) in Hstrip.
    exists m2. split; [done|]. injection Hstrip. intros; split_and!; congruence. }
  assert (Hold : forall x mx, x <> r -> st !! x = Some mx -> exists m2, st2 !! x = Some m2 /\ m_ID m2 = m_ID mx /\
    m_expiry m2 = m_expiry mx /\ m_ExpiresAt m2 = m_ExpiresAt mx).
  { intros x mx Hx Hmx. specialize (Hstrip x). rewrite lookup_insert_ne, Hmx in Hstrip by done.
    destruct (st2 !! x) as [m2|]; [|done]. apply (inj Some) in Hstrip. exists m2. split; [done|].
    injection Hstrip. intros; split_and!; congruence. }
  assert (Hsame : forall x, x <> r -> x ∉ L e -> st2 !! x = st !! x).
  { intros x Hx Hn. rewrite Hout by (rewrite elem_of_cons; tauto). by rewrite lookup_insert_ne. }
  assert (Hkeep : forall x mx, its !! m_ID mx = Some x -> <[m_ID m := r]> its !! m_ID mx = Some x).
  { intros x mx Hx. rewrite lookup_insert_ne; [done|]. intros E. rewrite E in Hid. congruence. }
  split; cbv beta.
  - intros x Hx. destruct (decide (x = e)) as [->|Hxe].
    + eexists. rewrite lookup_insert_eq. split; [done|]. cbn [ei_head ei_count]. split; [exact Hd|]. cbn. rewrite llen_cons.
      destruct (H1 _ He) as (i0 & Hi0 & _ & Hc). rewrite Hi in Hi0. injection Hi0 as <-. lia.
    + destruct (H1 _ Hx) as (j & Hj & Hdj & Hcj). exists j. rewrite lookup_insert_ne by done. split_and!; [done| |done].
      destruct Hdj as (D1 & D2 & D3 & D4). split_and!; [done| |done..]. eapply dlseg_frame; [|exact D2].
      intros y Hy. apply Hsame; [intros ->; by apply (Hrn x)|]. intros Hy'. apply Hxe. eapply XL_disjoint; eauto.
  - intros x y Hx Hy. destruct (decide (x = e)) as [->|Hxe].
    + apply elem_of_cons in Hy as [->|Hy].
      * destruct Hr2 as (m2 & Hm2 & E1 & E2 & E3). eexists m2, _. rewrite lookup_insert_eq, E1. split_and!; [done|done|apply lookup_insert_eq|done|].
        cbn. congruence.
      * destruct (H2 _ _ He Hy) as (my & j & Hmy & Eey & Hiy & Hj & Ea). assert (y <> r) as Hyr by (intros ->; by apply (Hrn e)).
        destruct (Hold _ _ Hyr Hmy) as (m2 & Hm2 & E1 & E2 & E3). eexists m2, _. rewrite lookup_insert_eq, E1.
        split_and!; [done|congruence|by apply Hkeep|done|]. cbn. congruence.
    + destruct (H2 _ _ Hx Hy) as (my & j & Hmy & Eey & Hiy & Hj & Ea). exists my, j. rewrite (lookup_insert_ne est) by done.
      rewrite Hsame; [split_and!; [done|done|by apply Hkeep|done..]|intros ->; by apply (Hrn x)|].
      intros Hy'. apply Hxe. eapply XL_disjoint; eauto.
  - intros id y. rewrite lookup_insert. case_decide as Eid.
    + intros [= <-]. right. destruct Hr2 as (m2 & Hm2 & E1 & E2 & E3). exists m2, e. rewrite decide_True by done.
      split_and!; [done|congruence|done|done|left].
    + intros Hy. right. destruct (H3 _ _ Hy) as [Hl|(my & x & Hmy & E & Ee & Hx & Hin)]; [by apply elem_of_nil in Hl|].
      assert (y <> r) as Hyr by (intros ->; by apply (Hrn x)). destruct (Hold _ _ Hyr Hmy) as (m2 & Hm2 & E1 & E2 & E3).
      exists m2, x. split_and!; [done|congruence|congruence|done|]. destruct (decide (x = e)) as [->|]; [by right|done].
  - intros y my x Hy. by apply elem_of_nil in Hy.
  - intros y my Hmy Hn. destruct (decide (y = r)) as [->|Hyr].
    { exfalso. destruct Hr2 as (m2 & Hm2 & E1 & _). rewrite Hmy in Hm2. injection Hm2 as <-. apply Hn. rewrite E1. apply lookup_insert_eq. }
    destruct (decide (y ∈ L e)) as [Hy|Hy].
    + exfalso. destruct (H2 _ _ He Hy) as (my0 & j & Hmy0 & _ & Hiy & _). destruct (Hold _ _ Hyr Hmy0) as (m2 & Hm2 & E1 & _).
      rewrite Hmy in Hm2. injection Hm2 as <-. apply Hn. rewrite E1. by apply Hkeep.
    + rewrite Hsame in Hmy by done. apply (H5 _ _ Hmy). intros Hiy. apply Hn. by apply Hkeep.
Qed.

Lemma agree_bare_linked l st st2 r m e : links_eq l (<[r := m <| m_expiry := Some e |>]> st) st2 -> st !! r = Some m -> agree bare st st2.
Proof.
  intros [Hs _] Hm x. specialize (Hs x). destruct (decide (x = r)) as [->|Hx].
  - rewrite lookup_insert_eq in Hs. rewrite Hm. destruct (st2 !! r) as [b|]; [|done]. apply (inj Some) in Hs.
    change (Some (bare b) = Some (bare m)). change (nd_strip b = nd_strip (m <| m_expiry := Some e |>)) in Hs. unfold bare. rewrite Hs. by destruct m.
  - rewrite lookup_insert_ne in Hs by done. destruct (st !! x) as [a|], (st2 !! x) as [b|]; try done.
    apply (inj Some) in Hs. change (Some (bare b) = Some (bare a)). change (nd_strip b = nd_strip a) in Hs. unfold bare. by rewrite Hs.
Qed.

(** The item of an instant, possibly with no message yet. *)
Definition EX_at (e : loc) (at_ : Z) (its : gmap string loc) (c : cache) (L : loc -> list loc) : Prop :=
  XH (c_heap c) (c_expiryItems c) /\ XL [] its (c_mstore c) (c_expiry c) (c_estore c) L /\
  (forall x, x ∈ c_expiry c -> x <> e -> L x <> []) /\ e ∈ c_expiry c /\ exists i, c_estore c !! e = Some i /\ ei_at i = at_.

Lemma wp_expiryItemFor its c L at_ (Q : loc -> cache -> Prop) : EX [] its c L ->
  (forall e c' L', EX_at e at_ its c' L' -> xframe c c' -> c_mstore c' = c_mstore c -> Q e c') ->
  wp (expiryItemFor at_) c Q.
Proof.
  intros [HH HL Hne] HQ. unfold expiryItemFor. wp_steps. destruct (c_expiryItems c !! at_) as [e|] eqn:Ex.
  - apply wp_ret. pose proof Ex as Ex'. apply (xh_map _ _ HH) in Ex' as (He & i & Hi & Ea). apply (HQ e c L); [|apply xframe_refl|done].
    split; [done|]. split; [done|]. split; [by auto|]. split; [done|]. by exists i.
  - set (e := fresh (dom (c_estore c))). assert (Hfr : c_estore c !! e = None) by (apply not_elem_of_dom, is_fresh).
    assert (He : e ∉ c_expiry c).
    { intros He. destruct (slice_store _ _ (xh_heap _ _ HH) He) as (i & _ & Hi & _). cbn in Hi. congruence. }
    wp_steps. unfold heapM. apply wp_zoom. cbn [c_heap c_expiry c_estore].
    set (est1 := <[e := mkExpiryItem at_ (-1) None 0]> (c_estore c)).
    assert (Hold : forall x j, c_estore c !! x = Some j -> est1 !! x = Some j).
    { intros x j Hj. unfold est1. rewrite lookup_insert_ne; [done|]. intros ->. congruence. }
    assert (HH1 : XH (mkHeapSt (c_expiry c) est1) (c_expiryItems c)) by (eapply XH_store; [exact HH|eauto]).
    eapply (wp_Push (mkHeapSt (c_expiry c) est1) e (mkExpiryItem at_ (-1) None 0)); [apply HH1|exact He|apply lookup_insert_eq|].
    intros [sl est] Hh' Hp Hidx Hout. cbn in Hp, Hidx. apply wp_ret.
    assert (Hest : forall x j, est1 !! x = Some j -> exists j', est !! x = Some j' /\
      ei_head j' = ei_head j /\ ei_count j' = ei_count j /\ ei_at j' = ei_at j).
    { intros x j Hj. destruct (idx_eq_lookup _ _ _ _ Hidx Hj) as (j' & Hj' & E). exists j'. split; [done|]. by apply norm_item. }
    destruct (Hest e _ (lookup_insert_eq _ _ _)) as (i & Hi & E1 & E2 & E3). cbn in E1, E2, E3.
    assert (Hsl : forall x, x ∈ sl <-> x = e \/ x ∈ c_expiry c) by (intros x; rewrite Hp; apply elem_of_cons).
    apply (HQ e _ (fun x => if decide (x = e) then [] else L x)).
    + split; [|split; [|split; [|split]]]; cbn.
      * split; [exact Hh'|]. intros a x. cbn. rewrite Hsl, lookup_insert. split.
        -- case_decide as Ea.
           ++ intros [= <-]. split; [by left|]. exists i. split; [done|congruence].
           ++ intros (Hx & j & Hj & Eaj)%(xh_map _ _ HH). split; [by right|]. cbn in Hj.
              destruct (Hest _ _ (Hold _ _ Hj)) as (j' & Hj' & _ & _ & E). exists j'. split; [done|congruence].
        -- intros ([->|Hx] & j & Hj & Eaj).
           ++ rewrite decide_True; [done|]. congruence.
           ++ destruct (slice_store _ _ (xh_heap _ _ HH) Hx) as (j0 & _ & Hj0 & _). cbn in Hj0.
              destruct (Hest _ _ (Hold _ _ Hj0)) as (j' & Hj' & _ & _ & E). rewrite Hj in Hj'. injection Hj' as <-.
              assert (Hxm : c_expiryItems c !! a = Some x) by (apply (xh_map _ _ HH); split; [done|]; exists j0; split; [done|congruence]).
              rewrite decide_False; [done|]. intros ->. congruence.
      * eapply (XL_new _ _ (c_expiry c) sl (c_estore c) est L e i); [done..|]. intros x j _ Hj. apply Hest, Hold, Hj.
      * intros x [->|Hx]%Hsl Hxe; [done|]. rewrite decide_False by done. by apply Hne.
      * apply Hsl. by left.
      * by exists i.
    + split; [reflexivity|by destruct c].
    + done.
Qed.

Lemma xframe_trans c1 c2 c3 : xframe c1 c2 -> xframe c2 c3 -> xframe c1 c3.
Proof. intros [A1 B1] [A2 B2]. split; [by etransitivity|]. rewrite <- B1, <- B2. by destruct c3. Qed.

Lemma wp_linkExpiry its c L r m (Q : unit -> cache -> Prop) : EX [] its c L -> c_mstore c !! r = Some m -> its !! m_ID m = None ->
  (forall c' L', EX [] (<[m_ID m := r]> its) c' L' -> xframe c c' -> Q tt c') -> wp (linkExpiry r) c Q.
Proof.
  intros HE Hm Hid HQ. unfold linkExpiry. wp_step. eapply wp_cderef; [exact Hm|]. wp_step.
  eapply wp_expiryItemFor; [exact HE|]. intros e c1 L1 (HH & HL & Hne & He & i & Hi & Ea) Hf Hms.
  rewrite <- Hms in Hm. wp_step. eapply wp_cupdate; [exact Hm|]. wp_step. eapply wp_ederef; [exact Hi|]. wp_step. unfold linkM. apply wp_zoom.
  destruct (xl_item _ _ _ _ _ _ HL _ He) as (i0 & Hi0 & Hd & Hc). rewrite Hi in Hi0. injection Hi0 as <-.
  assert (Hr : r ∉ L1 e).
  { intros Hr. destruct (xl_msg _ _ _ _ _ _ HL _ _ He Hr) as (m0 & _ & Hm0 & _ & Hid0 & _). congruence. }
  destruct (xl_idle _ _ _ _ _ _ HL _ _ Hm) as (U1 & U2 & U3); [congruence|].
  eapply (wp_link_front _ _ (L1 e) r); [|exact Hr|cbn; apply lookup_insert_eq|exact U2|].
  { cbn. destruct Hd as (D1 & D2 & D3 & D4). split_and!; [done| |done..]. eapply dlseg_frame; [|exact D2].
    intros x Hx. apply lookup_insert_ne. intros ->. done. }
  intros st2 Hd2 Hl2. cbn in Hl2. eapply wp_eupdate; [exact Hi|].
  pose proof (XL_linked _ _ st2 _ _ _ L1 e r m i (Some r) HL He Hm Hid Hi Ea Hl2 Hd2 eq_refl) as HL2.
  apply (HQ _ (fun x => if decide (x = e) then r :: L1 e else L1 x)).
  - split; [|exact HL2|].
    + eapply XH_store; [exact HH|]. intros x j Hx Hj. cbn in Hj |- *. destruct (decide (x = e)) as [->|Hxe].
      * rewrite lookup_insert_eq. eexists. split; [done|]. cbn. split; congruence.
      * rewrite lookup_insert_ne by done. eauto.
    + intros x Hx. cbn. destruct (decide (x = e)); [done|by apply Hne].
  - eapply xframe_trans; [exact Hf|]. split; [by eapply agree_bare_linked|by destruct c1].
Qed.
