(* ===== verification/CacheInv.v ===== *)
(** * The cache's invariant

    The indexes of CacheIndex.v, the expiry lists of CacheExpiry.v and the byte account
    together ([cinv]), and the proofs that removal, insertion and expiry keep them.  The other
    components read a message through [mview], everything but its places in the cache's lists. *)
From S2P Require Import Prelude GoHeap Dll Types Cache CacheIndex CacheExpiry.
#[local] Open Scope Z_scope.

(** ** Views of a message *)

(** What a message says, and what it is charged. *)
Abbreviation mview := (fun m : Message => (m_ID m, m_Topic m, m_Key m, m_Headers m, m_Payload m, m_CreatedAt m, m_ExpiresAt m,
  m_Origin m, m_Sequence m, sizeOf m)).

Definition sizeAt (st : gmap loc Message) (r : loc) : Z := match st !! r with Some m => sizeOf m | None => 0 end.

Lemma sizeAt_nonneg st r : 0 <= sizeAt st r.
Proof. unfold sizeAt. destruct (st !! r) as [m|]; [|lia]. pose proof (sizeOf_pos m). lia. Qed.

Lemma sizeAt_view st st' r : agree mview st st' -> sizeAt st' r = sizeAt st r.
Proof.
  intros Ha. specialize (Ha r). unfold sizeAt. destruct (st !! r) as [m|], (st' !! r) as [m'|]; try done.
  apply (inj Some) in Ha. injection Ha. congruence.
Qed.

Lemma bare_mview st st' : agree bare st st' -> agree mview st st'.
Proof. intros H. exact (agree_weaken bare (fun m => mview m) st st' H). Qed.

(** Everything but the position in the topic's index. *)
Definition noTopicIndex (m : Message) : Message := m <| m_topicIndex := 0 |>.
Lemma noTopicIndex_mview st st' : agree noTopicIndex st st' -> agree mview st st'.
Proof. intros H. exact (agree_weaken noTopicIndex (fun m => mview m) st st' H). Qed.

(** ** Dropping a message from the indexes *)
Lemma wp_dropOrderIndex its c r m (Q : unit -> cache -> Prop) :
  IXO its (c_order c) (c_mstore c) -> c_mstore c !! r = Some m -> its !! m_ID m = Some r ->
  (forall t, let ord := <[Z.to_nat (m_orderIndex m) := None]> (c_order c) in
     IXO (delete (m_ID m) its) ord (c_mstore c) -> Q tt ((c <| c_order := ord |>) <| c_tombstones := t |>)) ->
  wp (dropOrderIndex r m) c Q.
Proof.
  intros HO Hm Hid HQ. unfold dropOrderIndex. wp_steps. destruct (ixo_item _ _ _ HO _ _ Hid) as (m' & Hm' & _ & Hi & Ho).
  assert (m' = m) as -> by congruence. rewrite (at_index_true _ _ _ Hi Ho). cbn [gwhen]. apply wp_modify.
  apply HQ. by apply (IXO_drop _ _ _ r).
Qed.

Lemma compact_agree st st' (l : list loc) : NoDup l -> (forall r, r ∈ l -> is_Some (st !! r)) ->
  (forall i r m, l !! i = Some r -> st !! r = Some m -> st' !! r = Some (m <| m_topicIndex := llen (@nil (option loc)) + Z.of_nat i |>)) ->
  (forall r, r ∉ l -> st' !! r = st !! r) -> agree noTopicIndex st st'.
Proof.
  intros Hnd Hlive Hin Hout r. destruct (decide (r ∈ l)) as [Hr|Hr]; [|by rewrite Hout].
  destruct (Hlive _ Hr) as [m Hm]. apply list_elem_of_lookup in Hr as [i Hi]. by rewrite (Hin _ _ _ Hi Hm), Hm.
Qed.

Lemma wp_dropTopicIndex its c r m (Q : unit -> cache -> Prop) :
  IXT its (c_topics c) (c_topicTombstones c) (c_mstore c) -> c_mstore c !! r = Some m -> its !! m_ID m = Some r ->
  (forall tp t st, IXT (delete (m_ID m) its) tp t st -> agree noTopicIndex (c_mstore c) st ->
     Q tt (((c <| c_mstore := st |>) <| c_topics := tp |>) <| c_topicTombstones := t |>)) ->
  wp (dropTopicIndex r m) c Q.
Proof.
  intros HT Hm Hid HQ. unfold dropTopicIndex. wp_steps. destruct (ixt_item _ _ _ _ HT _ _ Hid) as (m' & l & Hm' & _ & Hl & Hi & Hli).
  assert (m' = m) as -> by congruence. rewrite Hl. change (default [] (Some l)) with l. cbv zeta. rewrite (at_index_true _ _ _ Hi Hli). cbn [gwhen].
  set (l' := <[Z.to_nat (m_topicIndex m) := None]> l). pose proof (live_tombstone _ _ _ Hli) as Hperm. fold l' in Hperm.
  assert (Hslot : forall i x, l' !! i = Some (Some x) -> x <> r /\ exists m', c_mstore c !! x = Some m' /\ m_topicIndex m' = Z.of_nat i).
  { intros i x Hx. unfold l' in Hx. destruct (decide (Z.to_nat (m_topicIndex m) = i)) as [<-|Hne].
    { rewrite list_lookup_insert_eq in Hx; [done|]. by eapply lookup_lt_Some. }
    rewrite list_lookup_insert_ne in Hx by done. destruct (ixt_slot _ _ _ _ HT _ _ _ _ Hl Hx) as (mx & Hmx & _ & _ & Ei).
    split; [|eauto]. intros ->. apply Hne. eapply IXT_inj; eauto. }
  assert (Ht : default 0 (c_topicTombstones c !! m_Topic m) + 1 = llen l' - llen (live l')).
  { rewrite (proj1 (ixt_tomb _ _ _ _ HT _ _ Hl)). unfold l', llen. rewrite length_insert.
    pose proof (Permutation_length Hperm) as Hp. cbn in Hp. fold l' in Hp. unfold l' in Hp. lia. }
  pose proof (ixt_tomb _ _ _ _ HT _ _ Hl) as [_ Hlive].
  assert (Hslot0 : forall i x, l' !! i = Some (Some x) -> x <> r /\ exists m', c_mstore c !! x = Some m' /\
    c_mstore c !! x = Some (m' <| m_topicIndex := Z.of_nat i |>)).
  { intros i x Hx. destruct (Hslot _ _ Hx) as (Hne & mx & Hmx & Ei). split; [done|]. exists mx. split; [done|].
    rewrite Hmx, <- Ei. f_equal. by destruct mx. }
  assert (Hlen : llen l = llen l') by (unfold l', llen; by rewrite length_insert).
  wp_step. apply wp_modify. rewrite Ht.
  destruct (bool_decide_reflect (llen l' - llen (live l') = llen l')) as [Hall|Hsome].
  - apply wp_modify. cbn. rewrite delete_insert_eq, delete_insert_eq.
    assert (live l' = []) as Hn by (destruct (live l'); [done|rewrite llen_cons in Hall; pose proof (llen_nonneg l0); lia]).
    specialize (HQ (delete (m_Topic m) (c_topics c)) (delete (m_Topic m) (c_topicTombstones c)) (c_mstore c)).
    destruct c; cbn in *. apply HQ; [|reflexivity]. eapply IXT_drop_last; [exact HT|exact Hm|exact Hid|exact Hl|exact Hperm|exact Hslot0|done|exact Hn].
  - assert (Hne : live l' <> []) by (intros E; apply Hsome; rewrite E; change (llen []) with 0; lia). apply wp_when.
    + intros _. wp_step. assert (Hnd : NoDup (live l')).
      { apply live_nodup. intros i j x Hx Hy. destruct (Hslot _ _ Hx) as (_ & mx & Hmx & Ex), (Hslot _ _ Hy) as (_ & my & Hmy & Ey).
        assert (mx = my) as -> by congruence. lia. }
      assert (Hst : forall x, x ∈ live l' -> is_Some (c_mstore c !! x)).
      { intros x [i Hx]%elem_of_live. destruct (Hslot _ _ Hx) as (_ & mx & Hmx & _). eauto. }
      eapply (wp_compactIndex m_topicIndex); [exact Hnd|exact Hst|]. cbn. intros st' Hin Hout. apply wp_modify.
      rewrite bool_decide_false by (intros E; apply Hne; by destruct (live l')).
      rewrite delete_insert_eq, insert_insert_eq.
      specialize (HQ (<[m_Topic m := Some <$> live l']> (c_topics c)) (delete (m_Topic m) (c_topicTombstones c)) st').
      destruct c; cbn in *. apply HQ; [|by eapply compact_agree].
      eapply (IXT_drop_compact _ _ _ _ _ r m l (Some <$> live l')); [exact HT|exact Hm|exact Hid|exact Hl| | | | |].
      all: assert (El : live (Some <$> live l') = live l') by (generalize (live l'); intros k; induction k; cbn; congruence).
      * by rewrite El.
      * intros i x Hx. rewrite list_lookup_fmap in Hx. destruct (live l' !! i) as [y|] eqn:Ey; [|done]. injection Hx as ->.
        assert (x ∈ live l') as [j Hj]%elem_of_live by (apply list_elem_of_lookup; eauto).
        destruct (Hslot _ _ Hj) as (Hxr & mx & Hmx & _). split; [done|]. exists mx. split; [done|]. by rewrite (Hin _ _ _ Ey Hmx).
      * intros x. rewrite El. apply Hout.
      * by rewrite El.
      * rewrite El. unfold llen. by rewrite length_fmap.
    + intros _. specialize (HQ (<[m_Topic m := l']> (c_topics c)) (<[m_Topic m := llen l' - llen (live l')]> (c_topicTombstones c)) (c_mstore c)).
      destruct c; cbn in *. apply HQ; [|reflexivity].
      eapply IXT_drop_plain; [exact HT|exact Hm|exact Hid|exact Hl|exact Hperm|exact Hslot0|done|exact Hne|done].
Qed.

(** ** The invariant *)
Record cinv (loose : list loc) (c : cache) (L : loc -> list loc) : Prop := {
  ci_order : IXO (c_items c) (c_order c) (c_mstore c);
  ci_topics : IXT (c_items c) (c_topics c) (c_topicTombstones c) (c_mstore c);
  ci_expiry : EX loose (c_items c) c L;
  ci_bytes : c_bytes c = msum (fun _ r => sizeAt (c_mstore c) r) (c_items c);
  ci_room : c_bytes c <= c_maxBytes c;
  ci_max : c_maxBytes c < 2 ^ 62;
  ci_head : (c_orderHead c <= length (c_order c))%nat;
  ci_before : forall i r, c_order c !! i = Some (Some r) -> (c_orderHead c <= i)%nat;
}.

(** The invariant but for the insertion order, which an eviction updates first. *)
Record cbase (loose : list loc) (c : cache) (L : loc -> list loc) : Prop := {
  cb_ids : forall id r, c_items c !! id = Some r -> exists m, c_mstore c !! r = Some m /\ m_ID m = id;
  cb_topics : IXT (c_items c) (c_topics c) (c_topicTombstones c) (c_mstore c);
  cb_expiry : EX loose (c_items c) c L;
  cb_bytes : c_bytes c = msum (fun _ r => sizeAt (c_mstore c) r) (c_items c);
  cb_room : c_bytes c <= c_maxBytes c;
  cb_max : c_maxBytes c < 2 ^ 62;
  cb_head : (c_orderHead c <= length (c_order c))%nat;
  cb_before : forall i r, c_order c !! i = Some (Some r) -> (c_orderHead c <= i)%nat;
}.

Lemma cinv_base loose c L : cinv loose c L -> cbase loose c L.
Proof.
  intros [HO HT HE Hb Hr Hm Hh Hbf]. split; try done.
  intros id r Hr'. destruct (ixo_item _ _ _ HO _ _ Hr') as (m & Hm' & E & _). eauto.
Qed.

Lemma ci_item loose c L id r : cinv loose c L -> c_items c !! id = Some r -> exists m, c_mstore c !! r = Some m /\ m_ID m = id.
Proof. intros I Hr. destruct (ixo_item _ _ _ (ci_order _ _ _ I) _ _ Hr) as (m & Hm & E & _). eauto. Qed.

Lemma cb_bytes_nonneg loose c L : cbase loose c L -> 0 <= c_bytes c.
Proof. intros I. rewrite (cb_bytes _ _ _ I). apply msum_nonneg. intros k v _. apply sizeAt_nonneg. Qed.

(** The metadata and the settings, which the operations on cached messages do not touch. *)
Definition meta (c : cache) := (c_frontierLimit c, c_topicSequences c, c_receivedThrough c, c_receivedUntil c, c_nextMetadataExpiry c,
  (c_reorder c, c_reorderSince c, c_reorderBytes c, c_reorderLimit c), (c_maxBytes c, c_rejectPressure c)).

(** What the cache remembers of the messages it lost: the replay frontiers, and the topics that are unsafe to replay. *)
Definition evidence (c : cache) := (c_frontiers c, c_unsafe c).

(** *** Shapes of the metadata operations *)
Lemma markUnsafe_shape topic source until c : exists u, markUnsafeLocked topic source until c = c <| c_unsafe := u |>.
Proof.
  unfold markUnsafeLocked. destruct (bool_decide _); [exists (c_unsafe c); by destruct c|].
  destruct (c_unsafe c !! topic); [eauto|]. destruct (bool_decide _); eauto.
Qed.

Lemma clearUnsafe_shape topic source c : exists u, clearUnsafeLocked topic source c = c <| c_unsafe := u |>.
Proof. unfold clearUnsafeLocked. destruct (c_unsafe c !! topic); [eauto|]. exists (c_unsafe c). by destruct c. Qed.

Lemma noteEvicted_shape m tnow c : exists f u, noteEvictedLocked m tnow c = (c <| c_frontiers := f |>) <| c_unsafe := u |>.
Proof.
  assert (Hc : forall o : option topicFrontier, exists f u, c = (c <| c_frontiers := f |>) <| c_unsafe := u |>) by (intros _; exists (c_frontiers c), (c_unsafe c); by destruct c).
  assert (Hmark : forall topic source until c1, (exists f u, c1 = (c <| c_frontiers := f |>) <| c_unsafe := u |>) ->
    exists f u, markUnsafeLocked topic source until c1 = (c <| c_frontiers := f |>) <| c_unsafe := u |>).
  { intros topic source until c1 (f & u & ->). destruct (markUnsafe_shape topic source until ((c <| c_frontiers := f |>) <| c_unsafe := u |>)) as [u' ->]. eauto. }
  assert (Hput : forall f0 c1, (exists f u, c1 = (c <| c_frontiers := f |>) <| c_unsafe := u |>) ->
    exists f u, c1 <| c_frontiers := f0 |> = (c <| c_frontiers := f |>) <| c_unsafe := u |>).
  { intros f0 c1 (f & u & ->). eauto. }
  unfold noteEvictedLocked. destruct (c_frontiers c !! m_Topic m) as [f|].
  - destruct (_ && _); [apply Hmark|apply Hput]; apply (Hc None).
  - set (c1 := if bool_decide _ then _ else c).
    assert (Hc1 : exists f u, c1 = (c <| c_frontiers := f |>) <| c_unsafe := u |>) by (unfold c1; destruct (bool_decide _); [apply Hput|]; apply (Hc None)).
    destruct (bool_decide (c_frontierLimit c1 <= mlen (c_frontiers c1))); [by apply Hmark|].
    destruct (_ && _); [by apply Hmark|by apply Hput].
Qed.

(** ** Sizes *)
Lemma sizeOf_memo m : sizeOf (m <| m_accountedSize := rawSize m |>) = rawSize m.
Proof. unfold sizeOf. cbn. rewrite bool_decide_true; [done|]. pose proof (rawSize_pos m). lia. Qed.

Definition memo (m : Message) : Message := if bool_decide (0 < m_accountedSize m) then m else m <| m_accountedSize := rawSize m |>.
Lemma memo_mview m : mview (memo m) = mview m.
Proof.
  unfold memo. destruct (bool_decide_reflect (0 < m_accountedSize m)); [done|]. rewrite sizeOf_memo. cbn.
  unfold sizeOf. by rewrite bool_decide_false.
Qed.

Lemma wp_messageSize c r m (Q : Z -> cache -> Prop) : c_mstore c !! r = Some m ->
  Q (sizeOf m) (c <| c_mstore := <[r := memo m]> (c_mstore c) |>) -> wp (messageSize r) c Q.
Proof.
  intros Hm HQ. unfold messageSize. wp_step. eapply wp_cderef; [exact Hm|]. unfold memo, sizeOf in HQ.
  destruct (bool_decide (0 < m_accountedSize m)).
  - apply wp_ret. rewrite insert_id in HQ by done. destruct c; exact HQ.
  - wp_step. eapply wp_cupdate; [exact Hm|]. by apply wp_ret.
Qed.

(** Remembering the size of a message changes nothing else. *)
Abbreviation viewM := (fun m : Message => (mview m, viewX m, (m_orderIndex m, m_topicIndex m, m_repairOrdinal m))).
Lemma memo_agree st r m : st !! r = Some m -> agree viewM st (<[r := memo m]> st).
Proof.
  intros Hm. eapply agree_insert; [exact Hm|]. rewrite memo_mview. unfold memo. by destruct (bool_decide _).
Qed.

Lemma EX_store loose its c L st : agree viewX (c_mstore c) st -> EX loose its c L -> EX loose its (c <| c_mstore := st |>) L.
Proof. intros Ha [H1 H2 H3]. split; [done|by eapply XL_agree|done]. Qed.

Lemma viewM_X st st' : agree viewM st st' -> agree viewX st st'.
Proof. intros H. exact (agree_weaken viewM (fun p => p.1.2) st st' H). Qed.
Lemma viewM_view st st' : agree viewM st st' -> agree mview st st'.
Proof. intros H. exact (agree_weaken viewM (fun p => p.1.1) st st' H). Qed.
Lemma viewM_O st st' : agree viewM st st' -> agree viewO st st'.
Proof. intros H. exact (agree_weaken viewM (fun p => (p.1.2.1.1.1.1, p.2.1.1)) st st' H). Qed.
Lemma viewM_T st st' : agree viewM st st' -> agree viewT st st'.
Proof. intros H. refine (agree_weaken viewM (fun p => (p.1.2.1.1.1.1, p.1.1.1.1.1.1.1.1.1.1.2, p.2.1.2)) st st' H). Qed.

Lemma msum_view st st' (its : gmap string loc) : agree mview st st' ->
  msum (fun _ r => sizeAt st' r) its = msum (fun _ r => sizeAt st r) its.
Proof. intros Ha. apply msum_ext. intros k r _. by apply sizeAt_view. Qed.

(** ** Removal *)
Record removed (loose : list loc) (r : loc) (m : Message) (c c' : cache) : Prop := {
  rm_items : c_items c' = delete (m_ID m) (c_items c);
  rm_view : agree mview (c_mstore c) (c_mstore c');
  rm_bytes : c_bytes c' = c_bytes c - sizeOf m;
  rm_meta : meta c' = meta c;
  rm_order : c_order c' = <[Z.to_nat (m_orderIndex m) := None]> (c_order c);
  rm_head : c_orderHead c' = c_orderHead c;
  rm_loose : r ∈ loose -> agree viewX (c_mstore c) (c_mstore c') /\ c_expiry c' = c_expiry c /\ c_estore c' = c_estore c;
}.

Lemma noTopicIndex_X st st' : agree noTopicIndex st st' -> agree viewX st st'.
Proof. intros H. exact (agree_weaken noTopicIndex (fun m => viewX m) st st' H). Qed.
Lemma noTopicIndex_O st st' : agree noTopicIndex st st' -> agree viewO st st'.
Proof. intros H. exact (agree_weaken noTopicIndex (fun m => viewO m) st st' H). Qed.
Lemma bare_O st st' : agree bare st st' -> agree viewO st st'.
Proof. intros H. exact (agree_weaken bare (fun m => viewO m) st st' H). Qed.
Lemma bare_T st st' : agree bare st st' -> agree viewT st st'.
Proof. intros H. exact (agree_weaken bare (fun m => viewT m) st st' H). Qed.

(** Reading the other fields through [xframe]. *)
Lemma xframe_fields c c' : xframe c c' -> c_items c' = c_items c /\ c_order c' = c_order c /\ c_orderHead c' = c_orderHead c /\
  c_topics c' = c_topics c /\ c_topicTombstones c' = c_topicTombstones c /\ c_bytes c' = c_bytes c /\ meta c' = meta c.
Proof. intros [_ H]. rewrite <- H. by destruct c'. Qed.

(** The cache after the indexes, the expiry lists and the account were updated. *)
Lemma cinv_removed loose c L r m c' L' : cbase loose c L -> c_mstore c !! r = Some m -> c_items c !! m_ID m = Some r ->
  IXO (c_items c') (c_order c') (c_mstore c') -> IXT (c_items c') (c_topics c') (c_topicTombstones c') (c_mstore c') ->
  EX (filter (.≠ r) loose) (c_items c') c' L' -> removed loose r m c c' -> cinv (filter (.≠ r) loose) c' L'.
Proof.
  intros I Hm Hid HO HT HE [Ei Ev Eb Em Eo Eh _]. pose proof (sizeOf_pos m) as Hpos.
  assert (Emax : c_maxBytes c' = c_maxBytes c) by (unfold meta in Em; congruence).
  split; try done.
  - rewrite Eb, Ei, (cb_bytes _ _ _ I), (msum_view _ _ _ Ev), (msum_delete _ (c_items c) _ _ Hid). unfold sizeAt at 1. rewrite Hm. lia.
  - rewrite Eb, Emax. pose proof (cb_room _ _ _ I). lia.
  - rewrite Emax. apply I.
  - rewrite Eh, Eo, length_insert. apply I.
  - intros i x. rewrite Eo, Eh. intros [(_ & E & _)|[_ Hx]]%list_lookup_insert_Some; [done|]. by apply (cb_before _ _ _ I _ x).
Qed.

(** Removal, given what dropping the message from the insertion order does. *)
Lemma wp_removeLocked_gen loose c L r m (pressure : bool) tnow (Q : unit -> cache -> Prop) :
  cbase loose c L -> (forall c1 (Q' : unit -> cache -> Prop), c_order c1 = c_order c -> c_mstore c1 = c_mstore c ->
    (forall t, let ord := <[Z.to_nat (m_orderIndex m) := None]> (c_order c) in IXO (delete (m_ID m) (c_items c)) ord (c_mstore c) ->
       Q' tt ((c1 <| c_order := ord |>) <| c_tombstones := t |>)) -> wp (dropOrderIndex r m) c1 Q') -> c_mstore c !! r = Some m -> c_items c !! m_ID m = Some r -> (r ∈ loose -> unlinked m) ->
  (forall c' L', cinv (filter (.≠ r) loose) c' L' -> removed loose r m c c' -> Q tt c') ->
  wp (removeLocked r pressure tnow) c Q.
Proof.
  intros I Hdrop Hm Hid Hloose HQ. unfold removeLocked. wp_step. eapply wp_cderef; [exact Hm|]. wp_step. apply wp_get.
  apply wp_when; [intros _|rewrite Hid; intros Hf%bool_decide_eq_false; by destruct Hf].
  wp_step. apply (wp_mono _ _ (fun _ c1 => exists f u, c1 = (c <| c_frontiers := f |>) <| c_unsafe := u |>)).
  { apply wp_when; intros _; [|exists (c_frontiers c), (c_unsafe c); by destruct c]. apply wp_modify. apply noteEvicted_shape. }
  intros _ c1 (f & u & ->). wp_step. apply wp_modify. wp_step.
  apply Hdrop; [done|done|]. intros t ord HO. wp_step.
  eapply (wp_dropTopicIndex (c_items c)); [exact (cb_topics _ _ _ I)|exact Hm|exact Hid|]. intros tp tt0 st HT Ha. cbn in HT, Ha.
  pose proof (noTopicIndex_X _ _ Ha) as HaX.
  destruct (agree_lookup _ _ _ _ _ HaX Hm) as (m1 & Hm1 & E1). injection E1 as Em1 _ Ee1 Ep1 En1.
  wp_step. eapply (wp_unlinkExpiry loose (c_items c) _ L r m1).
  { destruct (cb_expiry _ _ _ I) as [X1 X2 X3]. split; [exact X1|by eapply XL_agree|exact X3]. }
  { intros id x Hx. destruct (cb_ids _ _ _ I _ _ Hx) as (mx & Hmx & E). destruct (agree_lookup _ _ _ _ _ HaX Hmx) as (mx' & Hmx' & E').
    exists mx'. split; [done|congruence]. }
  { exact Hm1. }
  { by rewrite Em1. }
  { intros Hr. destruct (Hloose Hr) as (U1 & U2 & U3). split_and!; congruence. }
  intros c2 L2 HE2 Hf2 Hl2. rewrite Em1 in HE2. destruct (xframe_fields _ _ Hf2) as (Ei & Eo & Eh & Et & Ett & Eb & Em). cbn in Ei, Eo, Eh, Et, Ett, Eb.
  destruct Hf2 as [Hb2 _]. cbn in Hb2.
  destruct (agree_lookup _ _ _ _ _ (bare_mview _ _ Hb2) Hm1) as (m2 & Hm2 & E2).
  wp_step. eapply wp_messageSize; [exact Hm2|]. wp_step. apply wp_modify.
  pose proof (memo_agree _ _ _ Hm2) as Hmm.
  assert (Hview : agree mview (c_mstore c) (<[r := memo m2]> (c_mstore c2))).
  { etransitivity; [by apply noTopicIndex_mview|]. etransitivity; [by apply bare_mview|]. by apply viewM_view. }
  assert (Hsz : sizeOf m2 = sizeOf m).
  { pose proof (sizeAt_view _ _ r (noTopicIndex_mview _ _ Ha)) as S1. pose proof (sizeAt_view _ _ r (bare_mview _ _ Hb2)) as S2.
    unfold sizeAt in S1, S2. rewrite Hm, Hm1 in S1. rewrite Hm1, Hm2 in S2. congruence. }
  assert (Hbytes : i64 (c_bytes c - sizeOf m) = c_bytes c - sizeOf m).
  { apply i64_id. unfold in_i64. pose proof (sizeOf_pos m). pose proof (cb_max _ _ _ I). pose proof (cb_room _ _ _ I). pose proof (cb_bytes_nonneg _ _ _ I).
    assert (sizeOf m <= c_bytes c).
    { rewrite (cb_bytes _ _ _ I). pose proof (msum_le_elem (fun _ r => sizeAt (c_mstore c) r) (c_items c) (m_ID m) r) as Hle.
      unfold sizeAt at 2 in Hle. rewrite Hm in Hle. apply Hle; [|done]. intros; apply sizeAt_nonneg. }
    change (2 ^ 62) with 4611686018427387904 in *. lia. }
  assert (Hend : forall c3, c3 = (c2 <| c_mstore := <[r := memo m2]> (c_mstore c2) |>) <| c_bytes := i64 (c_bytes c2 - sizeOf m2) |> ->
    forall n1 n2, let c4 := (c3 <| c_evicted := n1 |>) <| c_expired := n2 |> in
    removed loose r m c c4 /\ IXO (c_items c4) (c_order c4) (c_mstore c4) /\ IXT (c_items c4) (c_topics c4) (c_topicTombstones c4) (c_mstore c4) /\
    EX (filter (.≠ r) loose) (c_items c4) c4 L2).
  { intros c3 -> n1 n2 c4. split_and!.
    - split; cbn.
      + exact Ei.
      + exact Hview.
      + rewrite Eb, Hsz. exact Hbytes.
      + unfold meta in Em |- *. cbn in Em |- *. exact Em.
      + exact Eo.
      + exact Eh.
      + intros Hr. specialize (Hl2 Hr). split; [|by rewrite Hl2]. etransitivity; [exact HaX|]. rewrite Hl2 in *. cbn in *. by apply viewM_X.
    - cbn. rewrite Ei, Eo. eapply IXO_agree; [by apply viewM_O|]. eapply IXO_agree; [by apply bare_O|]. eapply IXO_agree; [by apply noTopicIndex_O|]. exact HO.
    - cbn. rewrite Ei, Et, Ett. eapply IXT_agree; [by apply viewM_T|]. eapply IXT_agree; [by apply bare_T|]. exact HT.
    - cbn. rewrite Ei. destruct HE2 as [X1 X2 X3]. split; [exact X1|eapply XL_agree; [by apply viewM_X|exact X2]|exact X3]. }
  specialize (Hend _ eq_refl). destruct pressure; apply wp_modify.
  - match goal with |- Q tt ?cf => specialize (Hend (c_evicted cf) (c_expired cf)) end. cbn in Hend.
    destruct Hend as (R & O & T & X). eapply HQ; [eapply (cinv_removed loose c L r m); [exact I|exact Hm|exact Hid|exact O|exact T|exact X|exact R]|exact R].
  - match goal with |- Q tt ?cf => specialize (Hend (c_evicted cf) (c_expired cf)) end. cbn in Hend.
    destruct Hend as (R & O & T & X). eapply HQ; [eapply (cinv_removed loose c L r m); [exact I|exact Hm|exact Hid|exact O|exact T|exact X|exact R]|exact R].
Qed.

Lemma wp_removeLocked loose c L r m (pressure : bool) tnow (Q : unit -> cache -> Prop) :
  cinv loose c L -> c_mstore c !! r = Some m -> c_items c !! m_ID m = Some r -> (r ∈ loose -> unlinked m) ->
  (forall c' L', cinv (filter (.≠ r) loose) c' L' -> removed loose r m c c' -> Q tt c') ->
  wp (removeLocked r pressure tnow) c Q.
Proof.
  intros I Hm Hid Hloose HQ. eapply wp_removeLocked_gen; [by apply cinv_base| |exact Hm|exact Hid|exact Hloose|exact HQ].
  intros c1 Q' Eo Es HQ'. eapply (wp_dropOrderIndex (c_items c)); [rewrite Eo, Es; apply I|by rewrite Es|done|].
  intros t ord HO. unfold ord in *. rewrite Eo, Es in *. by apply HQ'.
Qed.

(** ** Eviction *)

(** The oldest messages were dropped, and nothing else. *)
Record shed (c c' : cache) : Prop := {
  sh_items : c_items c' ⊆ c_items c;
  sh_view : agree mview (c_mstore c) (c_mstore c');
  sh_meta : meta c' = meta c;
  sh_len : length (c_order c') = length (c_order c);
  sh_head : (c_orderHead c <= c_orderHead c')%nat;
  sh_order : forall i, (c_orderHead c' <= i)%nat -> c_order c' !! i = c_order c !! i;
  sh_bytes : c_bytes c' <= c_bytes c;
}.

Lemma shed_refl c : shed c c.
Proof. by split. Qed.
Lemma shed_trans c1 c2 c3 : shed c1 c2 -> shed c2 c3 -> shed c1 c3.
Proof.
  intros [A1 A2 A3 A4 A5 A6 A7] [B1 B2 B3 B4 B5 B6 B7]. split; try congruence; try lia; try by etransitivity.
  intros i Hi. transitivity (c_order c2 !! i); [by apply B6|apply A6; lia].
Qed.

(** The head of the order moves past an empty slot. *)
Lemma cinv_skip c L t : cinv [] c L -> c_order c !! c_orderHead c = Some None ->
  cinv [] (((c <| c_order := <[c_orderHead c := None]> (c_order c) |>) <| c_orderHead := S (c_orderHead c) |>) <| c_tombstones := t |>) L.
Proof.
  intros [HO HT HE Hb Hr Hm Hh Hbf] Hn. rewrite list_insert_id by done. split; cbn; try done.
  - destruct HE as [X1 X2 X3]. by split.
  - pose proof (lookup_lt_Some _ _ _ Hn). lia.
  - intros i r Hi. pose proof (Hbf _ _ Hi). destruct (decide (i = c_orderHead c)) as [Ei|]; [rewrite Ei in Hi; congruence|lia].
Qed.

Lemma wp_dropOldest fuel c L tnow (Q : unit -> cache -> Prop) :
  cinv [] c L -> (length (c_order c) - c_orderHead c < fuel)%nat ->
  (forall c' L', cinv [] c' L' -> shed c c' -> ((c_orderHead c < length (c_order c))%nat -> (c_orderHead c < c_orderHead c')%nat) -> Q tt c') ->
  wp (dropOldestLocked fuel tnow) c Q.
Proof.
  revert c L Q. induction fuel as [|fuel IH]; intros c L Q I Hf HQ; [lia|]. cbn [dropOldestLocked]. wp_step. apply wp_get.
  destruct (decide (length (c_order c) <= c_orderHead c)%nat) as [Hend|Hlt].
  { apply wp_ret. apply (HQ c L I); [apply shed_refl|lia]. }
  destruct (lookup_lt_is_Some_2 (c_order c) (c_orderHead c)) as [o Ho]; [lia|].
  wp_step. eapply wp_lift; [exact Ho|]. wp_step. apply wp_modify. set (t := c_tombstones c + 1).
  set (c1 := ((c <| c_order := <[c_orderHead c := None]> (c_order c) |>) <| c_orderHead := S (c_orderHead c) |>) <| c_tombstones := t |>).
  assert (Hs1 : shed c c1).
  { split; cbn; try done; [by rewrite length_insert|lia|]. intros i Hi. rewrite list_lookup_insert_ne by lia. done. }
  destruct o as [r|].
  - destruct (ixo_slot _ _ _ (ci_order _ _ _ I) _ _ Ho) as (m & Hm & Hid & Hidx).
    wp_step. eapply wp_cderef; [exact Hm|]. wp_step. apply wp_get. cbn [c_items]. change (c_items c1) with (c_items c).
    rewrite bool_decide_true by (rewrite Hid; by eexists).
    assert (Ek : Z.to_nat (m_orderIndex m) = c_orderHead c) by lia.
    pose proof (IXO_drop _ _ _ _ _ (ci_order _ _ _ I) Hm Hid) as HO. rewrite Ek in HO.
    eapply (wp_removeLocked_gen [] c1 L r m); [| |exact Hm|exact Hid|intros Hx; by apply elem_of_nil in Hx|].
    + destruct (cinv_base _ _ _ I) as [H1 H2 H3 H4 H5 H6 H7 H8]. split; cbn; try done; [by destruct H3; split|rewrite length_insert; lia|].
      intros i x [(_ & E & _)|[Hne Hx]]%list_lookup_insert_Some; [done|]. pose proof (H8 _ _ Hx). lia.
    + intros c2 Q' Eo2 Es2 HQ'. unfold dropOrderIndex. wp_steps. apply wp_when.
      * intros Hat. exfalso. unfold at_index in Hat. rewrite Eo2 in Hat. apply andb_true_iff in Hat as [_ Hat%bool_decide_eq_true].
        cbn in Hat. rewrite Ek, list_lookup_insert_eq in Hat; [done|]. by eapply lookup_lt_Some.
      * intros _. specialize (HQ' (c_tombstones c2)). cbv zeta in HQ'. rewrite Ek in HQ'.
        assert (Eo3 : <[c_orderHead c := None]> (c_order c1) = c_order c2) by (rewrite Eo2; cbn; by rewrite list_insert_insert_eq).
        rewrite Eo3 in HQ'. specialize (HQ' ltac:(rewrite Eo2; exact HO)). destruct c2; exact HQ'.
    + intros c' L' I' [R1 R2 R3 R4 R5 R6 _]. apply (HQ c' L' I').
      * eapply shed_trans; [exact Hs1|]. split; try done.
        -- rewrite R1. apply delete_subseteq.
        -- rewrite R5. by rewrite length_insert.
        -- by rewrite R6.
        -- intros i Hi. rewrite R5, Ek. rewrite R6 in Hi. cbn in Hi. rewrite list_lookup_insert_ne by lia. done.
        -- rewrite R3. cbn. pose proof (sizeOf_pos m). lia.
      * intros _. rewrite R6. cbn. lia.
  - assert (I1 : cinv [] c1 L) by by apply cinv_skip.
    eapply (IH _ L); [exact I1|unfold c1; cbn; rewrite length_insert; lia|]. intros c' L' I' Hs Hp. apply (HQ c' L' I'); [by eapply shed_trans|].
    intros _. pose proof (sh_head _ _ Hs) as Hh. cbn in Hh. lia.
Qed.

(** Making room for [sz] bytes. *)
Lemma wp_evictFor fuel c L sz tnow (Q : unit -> cache -> Prop) :
  cinv [] c L -> 0 <= sz <= c_maxBytes c -> (length (c_order c) - c_orderHead c < fuel)%nat ->
  (forall c' L', cinv [] c' L' -> shed c c' -> c_bytes c' + sz <= c_maxBytes c ->
     (c_bytes c + sz <= c_maxBytes c -> c' = c) -> Q tt c') ->
  wp (evictFor fuel sz tnow) c Q.
Proof.
  revert c L Q. induction fuel as [|fuel IH]; intros c L Q I Hsz Hf HQ; [lia|]. cbn [evictFor]. wp_step. apply wp_get.
  assert (Hi : i64 (c_bytes c + sz) = c_bytes c + sz).
  { apply i64_id. unfold in_i64. pose proof (ci_max _ _ _ I). pose proof (ci_room _ _ _ I). pose proof (cb_bytes_nonneg _ _ _ (cinv_base _ _ _ I)).
    change (2 ^ 62) with 4611686018427387904 in *. lia. }
  rewrite Hi. destruct (bool_decide_reflect (c_maxBytes c < c_bytes c + sz)) as [Hover|Hfit]; cbn [andb].
  - destruct (bool_decide_reflect (c_orderHead c < length (c_order c))%nat) as [Hlt|Hend].
    + wp_step. eapply (wp_dropOldest _ _ L); [exact I|lia|]. intros c1 L1 I1 Hs Hp. specialize (Hp Hlt).
      assert (Emax : c_maxBytes c1 = c_maxBytes c) by (pose proof (sh_meta _ _ Hs) as E; unfold meta in E; congruence).
      eapply (IH _ L1); [exact I1|lia|rewrite (sh_len _ _ Hs); lia|]. intros c' L' I' Hs' Hroom _. rewrite Emax in Hroom.
      apply (HQ c' L' I'); [by eapply shed_trans|done|lia].
    + apply wp_ret. exfalso. assert (Hemp : c_items c = ∅).
      { apply map_empty. intros id. destruct (c_items c !! id) as [r|] eqn:Hr; [|done]. exfalso.
        destruct (ixo_item _ _ _ (ci_order _ _ _ I) _ _ Hr) as (m & _ & _ & Hi0 & Ho). pose proof (ci_before _ _ _ I _ _ Ho).
        pose proof (lookup_lt_Some _ _ _ Ho). lia. }
      pose proof (ci_bytes _ _ _ I) as Hb. rewrite Hemp, msum_empty in Hb. lia.
  - apply wp_ret. apply (HQ c L I); [apply shed_refl|lia|done].
Qed.

(** ** Insertion *)
Abbreviation viewV := (fun m : Message => (mview m, viewX m)).
Lemma viewV_X st st' : agree viewV st st' -> agree viewX st st'.
Proof. intros H. exact (agree_weaken viewV (fun p => p.2) st st' H). Qed.
Lemma viewV_view st st' : agree viewV st st' -> agree mview st st'.
Proof. intros H. exact (agree_weaken viewV (fun p => p.1) st st' H). Qed.

Lemma wp_indexMessage c r m (Q : unit -> cache -> Prop) :
  IXO (c_items c) (c_order c) (c_mstore c) -> IXT (c_items c) (c_topics c) (c_topicTombstones c) (c_mstore c) ->
  c_mstore c !! r = Some m -> c_items c !! m_ID m = None ->
  (forall tp st n, IXO (<[m_ID m := r]> (c_items c)) (c_order c ++ [Some r]) st ->
     IXT (<[m_ID m := r]> (c_items c)) tp (c_topicTombstones c) st -> agree viewV (c_mstore c) st ->
     Q tt (((((c <| c_mstore := st |>) <| c_items := <[m_ID m := r]> (c_items c) |>) <| c_nextRepairOrdinal := n |>)
             <| c_order := c_order c ++ [Some r] |>) <| c_topics := tp |>)) ->
  wp (indexMessage r) c Q.
Proof.
  intros HO HT Hm Hid HQ. unfold indexMessage. wp_step. eapply wp_cderef; [exact Hm|]. wp_step. apply wp_modify. wp_step. apply wp_get.
  wp_step. eapply wp_cupdate; [exact Hm|]. wp_step. apply wp_modify. cbv zeta. wp_step. eapply wp_cupdate; [cbn; apply lookup_insert_eq|].
  apply wp_modify. cbn. rewrite insert_insert_eq.
  set (n := u64 (c_nextRepairOrdinal c + 1)). set (l := default [] (c_topics c !! m_Topic m)).
  match goal with |- context [<[r := ?x]> (c_mstore c)] => set (mi := x) in * end.
  assert (Ha : agree viewV (c_mstore c) (<[r := mi]> (c_mstore c))) by (by eapply agree_insert).
  specialize (HQ (<[m_Topic m := l ++ [Some r]]> (c_topics c)) (<[r := mi]> (c_mstore c)) n).
  destruct c; cbn in *. apply HQ; [| |exact Ha].
  - eapply IXO_agree; [|exact (IXO_add _ _ _ _ _ HO Hm Hid)]. intros x. destruct (decide (x = r)) as [->|Hx].
    + by rewrite !lookup_insert_eq.
    + by rewrite !lookup_insert_ne.
  - eapply IXT_agree; [|exact (IXT_add _ _ _ _ _ _ HT Hm Hid)]. intros x. destruct (decide (x = r)) as [->|Hx].
    + by rewrite !lookup_insert_eq.
    + by rewrite !lookup_insert_ne.
Qed.

(** Nothing but the memory of a size changed: neither what is cached, nor the metadata, nor what is remembered of lost messages. *)
Record quiet (c c' : cache) : Prop := {
  qt_items : c_items c' = c_items c;
  qt_view : agree mview (c_mstore c) (c_mstore c');
  qt_meta : meta c' = meta c;
  qt_bytes : c_bytes c' = c_bytes c;
  qt_evidence : evidence c' = evidence c;
}.

(** Of the messages [its] only the oldest may be missing from [its']. *)
Definition oldest (st : gmap loc Message) (its its' : gmap string loc) : Prop :=
  forall id x mx id' y my, its !! id = Some x -> its !! id' = Some y -> st !! x = Some mx -> st !! y = Some my ->
    m_orderIndex mx < m_orderIndex my -> its' !! id' = None -> its' !! id = None.

Lemma shed_oldest c c' L L' : cinv [] c L -> cinv [] c' L' -> shed c c' -> oldest (c_mstore c) (c_items c) (c_items c').
Proof.
  intros I I' Hs id x mx id' y my Hx Hy Hmx Hmy Hlt Hgone. destruct (c_items c' !! id) as [x'|] eqn:Hx'; [exfalso|done].
  pose proof (lookup_weaken _ _ _ _ Hx' (sh_items _ _ Hs)) as Ex. assert (x' = x) as -> by congruence. clear Ex.
  destruct (ixo_item _ _ _ (ci_order _ _ _ I') _ _ Hx') as (mx' & Hmx' & _ & Hix & Hox). pose proof (ci_before _ _ _ I' _ _ Hox) as Hhx.
  rewrite (sh_order _ _ Hs) in Hox by done. destruct (ixo_slot _ _ _ (ci_order _ _ _ I) _ _ Hox) as (mx1 & Hmx1 & _ & Eix).
  assert (mx1 = mx) as -> by congruence.
  destruct (ixo_item _ _ _ (ci_order _ _ _ I) _ _ Hy) as (my1 & Hmy1 & Eidy & Hiy & Hoy). assert (my1 = my) as -> by congruence.
  rewrite <- (sh_order _ _ Hs) in Hoy by lia. destruct (ixo_slot _ _ _ (ci_order _ _ _ I') _ _ Hoy) as (my' & Hmy' & Hidy & _).
  destruct (agree_lookup _ _ _ _ _ (sh_view _ _ Hs) Hmy) as (my2 & Hmy2 & E). assert (m_ID my' = id') by congruence. congruence.
Qed.

Record inserted (r : loc) (m : Message) (c c' : cache) : Prop := {
  in_items : exists its, its ⊆ c_items c /\ c_items c' = <[m_ID m := r]> its /\
    (c_bytes c + sizeOf m <= c_maxBytes c -> its = c_items c);
  in_view : agree mview (c_mstore c) (c_mstore c');
  in_meta : meta c' = meta c;
  in_bytes : c_bytes c' <= c_bytes c + sizeOf m;
  in_exact : c_bytes c + sizeOf m <= c_maxBytes c -> c_bytes c' = c_bytes c + sizeOf m;
  in_oldest : oldest (c_mstore c) (c_items c) (c_items c');
}.

(** What [insertLocked] may answer. *)
Definition insertResult (r : loc) (m : Message) (c : cache) (res : bool * option error) (c' : cache) : Prop :=
  match res with
  | (false, None) => is_Some (c_items c !! m_ID m) /\ c' = c
  | (false, Some e) => c_items c !! m_ID m = None /\ quiet c c' /\
      ((e = errCacheCapacity /\ c_maxBytes c < sizeOf m) \/
       (e = errRetentionCapacity /\ sizeOf m <= c_maxBytes c < c_bytes c + sizeOf m))
  | (true, None) => c_items c !! m_ID m = None /\ sizeOf m <= c_maxBytes c /\ inserted r m c c'
  | (true, Some _) => False
  end.

Lemma cinv_memo c L r m : cinv [] c L -> c_mstore c !! r = Some m ->
  let c' := c <| c_mstore := <[r := memo m]> (c_mstore c) |> in cinv [] c' L /\ quiet c c'.
Proof.
  intros [HO HT HE Hb Hr Hm Hh Hbf] Hrm c'. pose proof (memo_agree _ _ _ Hrm) as Ha. pose proof (viewM_view _ _ Ha) as Hv. split.
  - split; cbn; try done; [by eapply IXO_agree; [apply viewM_O|]|by eapply IXT_agree; [apply viewM_T|]| |].
    + apply EX_store; [by apply viewM_X|done].
    + by rewrite (msum_view _ _ _ Hv).
  - by split.
Qed.

Lemma maxBytes_meta c c' : meta c' = meta c -> c_maxBytes c' = c_maxBytes c.
Proof. unfold meta. congruence. Qed.

(** The message enters the indexes, the expiry lists and the account. *)
Lemma wp_enterCache c L r m (Q : bool * option error -> cache -> Prop) : cinv [] c L -> c_mstore c !! r = Some m ->
  c_items c !! m_ID m = None -> c_bytes c + sizeOf m <= c_maxBytes c ->
  (forall c' L', cinv [] c' L' -> inserted r m c c' -> Q (true, None) c') ->
  wp (indexMessage r ;;; linkExpiry r ;;; gmodify (fun c => c <| c_bytes := i64 (c_bytes c + sizeOf m) |>) ;;; gret (true, None)) c Q.
Proof.
  intros I Hm Hid Hfit HQ. wp_step. eapply wp_indexMessage; [apply I|apply I|exact Hm|exact Hid|]. intros tp st n HO HT Ha.
  destruct (agree_lookup _ _ _ _ _ Ha Hm) as (m1 & Hm1 & E1). assert (Eid : m_ID m1 = m_ID m) by congruence.
  wp_step. eapply (wp_linkExpiry (c_items c) _ L r m1).
  { destruct (ci_expiry _ _ _ I) as [X1 X2 X3]. split; [exact X1|eapply XL_agree; [by apply viewV_X|exact X2]|exact X3]. }
  { exact Hm1. }
  { by rewrite Eid. }
  intros c2 L2 HE2 Hf2. rewrite Eid in HE2. destruct (xframe_fields _ _ Hf2) as (Ei & Eo & Eh & Et & Ett & Eb & Em). cbn in Ei, Eo, Eh, Et, Ett, Eb.
  destruct Hf2 as [Hb2 _]. cbn in Hb2. wp_step. apply wp_modify. apply wp_ret.
  assert (Hv : agree mview (c_mstore c) (c_mstore c2)) by (etransitivity; [by apply viewV_view|by apply bare_mview]).
  assert (Hi : i64 (c_bytes c2 + sizeOf m) = c_bytes c + sizeOf m).
  { rewrite Eb. apply i64_id. unfold in_i64. pose proof (ci_max _ _ _ I). pose proof (cb_bytes_nonneg _ _ _ (cinv_base _ _ _ I)). pose proof (sizeOf_pos m).
    change (2 ^ 62) with 4611686018427387904 in *. lia. }
  assert (Em' : meta (c2 <| c_bytes := i64 (c_bytes c2 + sizeOf m) |>) = meta c) by (unfold meta in *; cbn in *; exact Em).
  pose proof (maxBytes_meta _ _ Em') as Emax. cbn in Emax.
  assert (Hins : inserted r m c (c2 <| c_bytes := i64 (c_bytes c2 + sizeOf m) |>)).
  { split; [exists (c_items c); cbn; by rewrite Ei|exact Hv|exact Em'| | |];
      change (c_bytes (c2 <| c_bytes := i64 (c_bytes c2 + sizeOf m) |>)) with (i64 (c_bytes c2 + sizeOf m)); rewrite Hi; [lia|done|].
    intros id x mx id' y my Hx Hy _ _ _. cbn. rewrite Ei, lookup_insert_ne; [congruence|]. intros <-. congruence. }
  apply (HQ _ L2); [|exact Hins]. rewrite Hi. split; cbn [c_items c_order c_mstore c_topics c_topicTombstones c_bytes c_maxBytes c_orderHead set_c_bytes setf];
    rewrite ?Ei, ?Eo, ?Et, ?Ett, ?Eh, ?Emax.
  - eapply IXO_agree; [by apply bare_O|exact HO].
  - eapply IXT_agree; [by apply bare_T|exact HT].
  - destruct HE2 as [X1 X2 X3]. by split.
  - rewrite msum_insert by done. rewrite (msum_view _ _ _ Hv), <- (ci_bytes _ _ _ I). rewrite (sizeAt_view _ _ _ Hv). unfold sizeAt. rewrite Hm. lia.
  - done.
  - apply I.
  - rewrite length_app. pose proof (ci_head _ _ _ I). lia.
  - intros i x [Hx|[Hge Hx]]%lookup_app_Some; [by apply (ci_before _ _ _ I _ x)|]. pose proof (ci_head _ _ _ I). lia.
Qed.

Lemma wp_insertLocked c L r m tnow (Q : bool * option error -> cache -> Prop) : cinv [] c L -> c_mstore c !! r = Some m ->
  (forall res c' L', cinv [] c' L' -> insertResult r m c res c' -> Q res c') -> wp (insertLocked r tnow) c Q.
Proof.
  intros I Hm HQ. unfold insertLocked. wp_step. eapply wp_cderef; [exact Hm|]. wp_step. apply wp_get.
  destruct (bool_decide_reflect (is_Some (c_items c !! m_ID m))) as [Hdup|Hnew]; [by apply wp_ret, (HQ _ c L)|].
  assert (Hid : c_items c !! m_ID m = None) by (destruct (c_items c !! m_ID m); [by destruct Hnew|done]).
  wp_step. eapply wp_messageSize; [exact Hm|]. destruct (cinv_memo _ _ _ _ I Hm) as [I1 Hq]. set (c1 := c <| c_mstore := _ |>) in *.
  pose proof (sizeOf_pos m) as Hpos.
  destruct (bool_decide_reflect (c_maxBytes c < sizeOf m)) as [Hbig|Hsmall].
  { apply wp_ret. apply (HQ _ c1 L I1). cbn. split; [done|]. split; [exact Hq|]. by left. }
  assert (Hi : i64 (c_bytes c + sizeOf m) = c_bytes c + sizeOf m).
  { apply i64_id. unfold in_i64. pose proof (ci_max _ _ _ I). pose proof (ci_room _ _ _ I). pose proof (cb_bytes_nonneg _ _ _ (cinv_base _ _ _ I)).
    change (2 ^ 62) with 4611686018427387904 in *. lia. }
  rewrite Hi. destruct (c_rejectPressure c && bool_decide (c_maxBytes c < c_bytes c + sizeOf m)) eqn:Ep.
  { apply wp_ret. apply (HQ _ c1 L I1). cbn. split; [done|]. split; [exact Hq|]. right.
    apply andb_true_iff in Ep as [_ Hp%bool_decide_eq_true]. split; [done|lia]. }
  wp_step. eapply (wp_evictFor _ c1 L); [exact I1|cbn; lia|cbn; lia|]. intros c2 L2 I2 Hs Hroom Hsame. cbn in Hroom.
  assert (Hv : agree mview (c_mstore c) (c_mstore c2)) by (etransitivity; [apply Hq|apply Hs]).
  destruct (agree_lookup _ _ _ _ _ Hv Hm) as (m2 & Hm2 & E2). assert (Eid : m_ID m2 = m_ID m) by congruence. assert (Esz : sizeOf m2 = sizeOf m) by congruence.
  assert (Emeta : meta c2 = meta c) by (rewrite (sh_meta _ _ Hs); apply Hq).
  pose proof (maxBytes_meta _ _ Emeta) as Emax.
  rewrite <- Esz. eapply (wp_enterCache c2 L2 r m2); [exact I2|exact Hm2| |rewrite Emax, Esz; exact Hroom|].
  { rewrite Eid. pose proof (sh_items _ _ Hs) as Hsub. destruct (c_items c2 !! m_ID m) as [x|] eqn:Ex; [|done].
    apply (lookup_weaken _ _ _ _ Ex) in Hsub. cbn in Hsub. congruence. }
  intros c3 L3 I3 [(its & Hits & Ei & Heq) V3 M3 B3 X3 _]. apply (HQ _ c3 L3 I3). cbn. split; [done|]. split; [lia|].
  rewrite Emax, Eid, Esz in *. pose proof (sh_bytes _ _ Hs) as Hbs. cbn in Hbs. specialize (Heq Hroom). specialize (X3 Hroom).
  pose proof (shed_oldest _ _ _ _ I1 I2 Hs) as Hold.
  split; [| | |lia| |].
  - exists its. split; [|split; [exact Ei|]]. { rewrite Heq. apply (sh_items _ _ Hs). }
    intros Hfit. cbn in Hsame. rewrite Heq, (Hsame Hfit). done.
  - etransitivity; [exact Hv|exact V3].
  - by rewrite M3.
  - intros Hfit. cbn in Hsame. rewrite X3, (Hsame Hfit). done.
  - intros id x mx id' y my Hx Hy Hmx Hmy Hlt Hn. rewrite Ei, Heq in Hn |- *. apply lookup_insert_None in Hn as [Hn _].
    rewrite lookup_insert_ne by (intros <-; congruence).
    destruct (decide (x = r)) as [->|Hxr].
    { destruct (ci_item _ _ _ _ _ I Hx) as (m' & Hm' & E'). congruence. }
    destruct (decide (y = r)) as [->|Hyr].
    { destruct (ci_item _ _ _ _ _ I Hy) as (m' & Hm' & E'). congruence. }
    eapply (Hold id x mx id' y my); [exact Hx|exact Hy| | |exact Hlt|exact Hn]; cbn; by rewrite lookup_insert_ne.
Qed.
