(* ===== verification/CacheExpire.v ===== *)
(** * Expiry

    [expireLocked] removes exactly the messages whose instant has come: the loop over the
    expiry heap, the walk over one instant's list, the expiry of buffered messages and of
    historical metadata, and the compaction of the insertion order. *)
From S2P Require Import Prelude GoHeap Dll Types Cache CacheIndex CacheExpiry CacheInv.
#[local] Open Scope Z_scope.

(** ** Computations that leave the evidence of lost messages alone *)
Definition silent {A} (m : CM A) : Prop := forall c a c', m c = Some (a, c') -> evidence c' = evidence c.

Lemma silent_ret {A} (a : A) : silent (gret a).
Proof. by intros c b c' [= _ <-]. Qed.
Lemma silent_panic {A} : silent (A := A) gpanic.
Proof. by intros c b c'. Qed.
Lemma silent_get : silent gget.
Proof. by intros c b c' [= _ <-]. Qed.
Lemma silent_lift {A} (o : option A) : silent (glift o).
Proof. intros c b c'. destruct o; [by intros [= _ <-]|done]. Qed.
Lemma silent_bind {A B} (m : CM A) (k : A -> CM B) : silent m -> (forall a, silent (k a)) -> silent (gbind m k).
Proof. intros Hm Hk c b c' E. unfold gbind in E. destruct (m c) as [[a c1]|] eqn:E1; [|done]. rewrite (Hk _ _ _ _ E). by eapply Hm. Qed.
Lemma silent_when b (m : CM unit) : silent m -> silent (gwhen b m).
Proof. intros Hm. destruct b; [done|apply silent_ret]. Qed.
Lemma silent_filter {A} (f : A -> CM bool) (l : list A) : (forall x, silent (f x)) -> silent (gfilter f l).
Proof. intros Hf. induction l; cbn; [apply silent_ret|]. apply silent_bind; [done|intros b]. apply silent_bind; [done|intros ?; apply silent_ret]. Qed.
Lemma silent_modify f : (forall c, evidence (f c) = evidence c) -> silent (gmodify f).
Proof. intros Hf c b c' [= _ <-]. apply Hf. Qed.
Lemma silent_heap {A} (m : GoM (heapSt expiryItem) A) : silent (heapM m).
Proof. intros c a c' E. unfold heapM, gzoom in E. destruct (m (c_heap c)) as [[b h]|]; [|done]. by injection E as _ <-. Qed.
Lemma silent_link {A} (m : GoM (gmap loc Message) A) : silent (linkM m).
Proof. intros c a c' E. unfold linkM, gzoom in E. destruct (m (c_mstore c)) as [[b st]|]; [|done]. by injection E as _ <-. Qed.

Create HintDb silent.
#[export] Hint Resolve silent_ret silent_panic silent_get silent_lift silent_heap silent_link : silent.

Ltac silent := cbv zeta; repeat first
  [ progress eauto with silent
  | apply silent_bind; [|intros ?]
  | apply silent_when
  | apply silent_filter; intros ?
  | apply silent_modify; by intros []
  | match goal with |- silent (if ?b then _ else _) => destruct b end; cbv zeta
  | match goal with |- silent (match ?x with _ => _ end) => destruct x end ].

Lemma silent_deref r : silent (cderef r).
Proof. unfold cderef. silent. Qed.
Lemma silent_ederef e : silent (ederef e).
Proof. unfold ederef. silent. Qed.
#[export] Hint Resolve silent_deref silent_ederef : silent.
Lemma silent_update r f : silent (cupdate r f).
Proof. unfold cupdate. silent. Qed.
Lemma silent_eupdate e f : silent (eupdate e f).
Proof. unfold eupdate. silent. Qed.
#[export] Hint Resolve silent_update silent_eupdate : silent.
Lemma silent_size r : silent (messageSize r).
Proof. unfold messageSize. silent. Qed.
Lemma silent_compactIndex setIndex l : forall kept, silent (compactIndex setIndex kept l).
Proof. induction l as [|[r|] l IH]; intros kept; cbn [compactIndex]; silent. Qed.
Lemma silent_unlinkExpiry r : silent (unlinkExpiryLocked r).
Proof. unfold unlinkExpiryLocked. silent. Qed.
#[export] Hint Resolve silent_size silent_compactIndex silent_unlinkExpiry : silent.
(** A message that leaves because its instant has come is not lost: nothing is noted. *)
Lemma silent_remove r tnow : silent (removeLocked r false tnow).
Proof. unfold removeLocked, dropOrderIndex, dropTopicIndex. cbn [andb gwhen]. silent. Qed.
#[export] Hint Resolve silent_remove : silent.
Lemma silent_expireList fuel at_ tnow : forall cur, silent (expireList fuel at_ cur tnow).
Proof. induction fuel as [|fuel IH]; intros [r|]; cbn [expireList]; silent. Qed.
#[export] Hint Resolve silent_expireList : silent.
Lemma silent_expireHeap fuel now tnow : silent (expireHeap fuel now tnow).
Proof. induction fuel as [|fuel IH]; cbn [expireHeap]; silent. Qed.
Lemma silent_compactOrder : silent compactOrder.
Proof. unfold compactOrder. silent. Qed.
Lemma silent_expireGapLoop now o l : forall topic, silent (expireGapLoop now o l topic).
Proof. induction l as [|[s r] l IH]; intros topic; cbn [expireGapLoop]; silent. Qed.
#[export] Hint Resolve silent_expireHeap silent_compactOrder silent_expireGapLoop : silent.

Lemma wp_silent {A} (m : CM A) c (Q : A -> cache -> Prop) : silent m -> wp m c (fun a c' => evidence c' = evidence c -> Q a c') -> wp m c Q.
Proof. intros Hs Hm. apply wp_elim in Hm as (a & c' & E & HQ). eapply wp_intro; [exact E|]. by apply HQ, (Hs _ _ _ E). Qed.

(** ** One instant *)

(** The messages [l] left the cache. *)
Record purged (l : list loc) (c c' : cache) : Prop := {
  pg_items : forall id r, c_items c' !! id = Some r <-> c_items c !! id = Some r /\ r ∉ l;
  pg_view : agree mview (c_mstore c) (c_mstore c');
  pg_meta : meta c' = meta c;
  pg_heap : c_expiry c' = c_expiry c /\ c_estore c' = c_estore c;
  pg_bytes : c_bytes c' <= c_bytes c;
}.

(** The links of a message that is on no list in force are cleared. *)
Lemma XL_cleared loose its st es est L r m m' : XL loose its st es est L -> st !! r = Some m -> r ∈ loose ->
  (forall e, e ∈ es -> r ∉ L e) -> m_ID m' = m_ID m -> unlinked m' -> XL loose its (<[r := m']> st) es est L.
Proof.
  intros [H1 H2 H3 H4 H5] Hm Hr Hn Eid Hu. split.
  - intros e He. destruct (H1 _ He) as (i & Hi & (D1 & D2 & D3 & D4) & Hc). exists i. split_and!; [done| |done]. split_and!; [done| |done..].
    eapply dlseg_frame; [|exact D2]. intros x Hx. apply lookup_insert_ne. intros ->. by apply (Hn e).
  - intros e x He Hx. destruct (H2 _ _ He Hx) as (mx & i & Hmx & ?). exists mx, i. rewrite lookup_insert_ne; [done|]. intros ->. by apply (Hn e).
  - intros id x Hx. destruct (H3 _ _ Hx) as [|(mx & e & Hmx & ? & ? & He & Hin)]; [by left|right].
    exists mx, e. rewrite lookup_insert_ne; [done|]. intros ->. by apply (Hn e).
  - intros x mx e Hx. destruct (decide (x = r)) as [->|Hxr].
    + rewrite lookup_insert_eq. intros [= <-]. destruct Hu as (U & _). congruence.
    + rewrite lookup_insert_ne by done. by apply H4.
  - intros x mx. destruct (decide (x = r)) as [->|Hxr].
    + rewrite lookup_insert_eq. by intros [= <-] _.
    + rewrite lookup_insert_ne by done. apply H5.
Qed.

Lemma XL_loose_out loose its st es est L r m : XL loose its st es est L -> st !! r = Some m -> r ∈ loose -> forall e, e ∈ es -> r ∉ L e.
Proof.
  intros HL Hm Hr e He Hin. destruct (xl_msg _ _ _ _ _ _ HL _ _ He Hin) as (m0 & _ & Hm0 & Ee & _).
  assert (m0 = m) as -> by congruence. by apply (xl_loose _ _ _ _ _ _ HL _ _ _ Hr Hm Ee).
Qed.

Definition clearNode (m : Message) : Message := ((m <| m_expiry := None |>) <| m_expiryPrev := None |>) <| m_expiryNext := None |>.

Lemma clearNode_bare st r m : st !! r = Some m -> agree bare st (<[r := clearNode m]> st).
Proof. intros Hm. eapply agree_insert; [exact Hm|]. by destruct m. Qed.

Lemma cinv_cleared loose c L r m : cinv loose c L -> c_mstore c !! r = Some m -> r ∈ loose ->
  cinv loose (c <| c_mstore := <[r := clearNode m]> (c_mstore c) |>) L.
Proof.
  intros [HO HT [X1 X2 X3] Hb Hr Hm Hh Hbf] Hrm Hin. pose proof (clearNode_bare _ _ _ Hrm) as Ha.
  split; cbn; try done; [eapply IXO_agree; [by apply bare_O|done]|eapply IXT_agree; [by apply bare_T|done]| |].
  - split; [done| |done]. cbn. eapply XL_cleared; [exact X2|exact Hrm|exact Hin|by eapply XL_loose_out|done|done].
  - by rewrite (msum_view _ _ _ (bare_mview _ _ Ha)).
Qed.

Lemma wp_expireList fuel c L l p at_ tnow (Q : unit -> cache -> Prop) : cinv l c L -> dlseg (c_mstore c) p l None -> NoDup l ->
  (forall r, r ∈ l -> exists m, c_mstore c !! r = Some m /\ c_items c !! m_ID m = Some r /\ m_ExpiresAt m = at_) ->
  (length l <= fuel)%nat ->
  (forall c' L', cinv [] c' L' -> purged l c c' -> Q tt c') ->
  wp (expireList fuel at_ (hd_or l None) tnow) c Q.
Proof.
  revert c L l p Q. induction fuel as [|fuel IH]; intros c L [|r l] p Q I Hd Hnd Hl Hf HQ; cbn [length] in Hf; try lia.
  1,2: cbn [hd_or expireList]; apply wp_ret; apply (HQ c L I); split; try done; intros id r; rewrite elem_of_nil; tauto.
  cbn [hd_or expireList]. destruct Hd as (m0 & Hm0 & Ep & En & Hd). cbn in Ep, En.
  apply NoDup_cons in Hnd as [Hrl Hnd]. destruct (Hl r) as (m & Hm & Hid & Hat); [left|]. assert (m0 = m) as -> by congruence.
  wp_step. eapply wp_cderef; [exact Hm|]. wp_step. eapply wp_cupdate; [exact Hm|]. fold (clearNode m).
  pose proof (cinv_cleared _ _ _ _ _ I Hm ltac:(left)) as I1.
  set (c1 := c <| c_mstore := <[r := clearNode m]> (c_mstore c) |>) in *.
  wp_step. apply wp_get. wp_step.
  apply wp_when; [intros _|intros Hf2; apply andb_false_iff in Hf2 as [Hf2|Hf2]; apply bool_decide_eq_false in Hf2; [by destruct (Hf2 Hid)|by destruct (Hf2 Hat)]].
  eapply (wp_removeLocked (r :: l) c1 L r (clearNode m)); [exact I1|cbn; apply lookup_insert_eq|exact Hid|done|].
  intros c2 L2 I2 [Ri Rv Rb Rm _ _ Rl]. destruct (Rl ltac:(left)) as (Hx & Hex & Hes).
  assert (Efil : filter (.≠ r) (r :: l) = l).
  { rewrite filter_cons, decide_False by auto. apply filter_all, Forall_forall. intros x Hxl ->. done. }
  rewrite Efil in I2. rewrite En.
  assert (Hv : agree mview (c_mstore c) (c_mstore c2)).
  { etransitivity; [apply bare_mview, (clearNode_bare _ _ _ Hm)|exact Rv]. }
  eapply (IH c2 L2 l (Some r)); [exact I2| |exact Hnd| |lia|].
  - eapply dlseg_viewX; [exact Hx|]. eapply dlseg_frame; [|exact Hd]. intros x Hxl. cbn. apply lookup_insert_ne. intros ->. done.
  - intros x Hxl. destruct (Hl x) as (mx & Hmx & Hix & Hax); [by right|].
    destruct (agree_lookup _ _ _ _ _ Hv Hmx) as (mx' & Hmx' & E). exists mx'. split; [done|]. split; [|congruence].
    replace (m_ID mx') with (m_ID mx) by congruence. rewrite Ri. cbn. rewrite lookup_delete_ne; [done|].
    intros Ei. rewrite Ei in Hid. assert (x = r) as -> by (cbn in *; congruence). done.
  - intros c3 L3 I3 [Pi Pv Pm Ph Pb]. apply (HQ c3 L3 I3). split.
    + intros id x. rewrite Pi, Ri, elem_of_cons. cbn [c_items c1]. rewrite lookup_delete_Some. split.
      * intros [[Hne Hix] Hxl]. split; [done|]. intros [->|]; [|done]. apply Hne.
        destruct (ci_item _ _ _ _ _ I Hix) as (mx & Hmx & E). cbn. congruence.
      * intros [Hix Hxn]. split; [|tauto]. split; [|done]. intros <-. apply Hxn. left. cbn in *. congruence.
    + by etransitivity.
    + by rewrite Pm.
    + destruct Ph as [-> ->]. by rewrite Hex, Hes.
    + rewrite Rb in Pb. cbn in Pb. pose proof (sizeOf_pos (clearNode m)). lia.
Qed.

(** ** The heap of instants *)
Record lapsed (now : Z) (c c' : cache) : Prop := {
  lp_items : c_items c' ⊆ c_items c;
  lp_gone : forall id r m, c_items c !! id = Some r -> c_items c' !! id = None -> c_mstore c !! r = Some m -> m_ExpiresAt m <= now;
  lp_view : agree mview (c_mstore c) (c_mstore c');
  lp_meta : meta c' = meta c;
  lp_bytes : c_bytes c' <= c_bytes c;
}.

Lemma lapsed_refl now c : lapsed now c c.
Proof. split; try done. congruence. Qed.
Lemma lapsed_trans now c1 c2 c3 : lapsed now c1 c2 -> lapsed now c2 c3 -> lapsed now c1 c3.
Proof.
  intros [A1 A2 A3 A4 A5] [B1 B2 B3 B4 B5]. split; [by etransitivity| |by etransitivity|congruence|lia].
  intros id r m Hr Hn Hm. destruct (c_items c2 !! id) as [r'|] eqn:E.
  - pose proof (lookup_weaken _ _ _ _ E A1) as E'. assert (r' = r) as -> by congruence.
    destruct (agree_lookup _ _ _ _ _ A3 Hm) as (m' & Hm' & Ev). specialize (B2 _ _ _ E Hn Hm'). congruence.
  - by eapply A2.
Qed.

(** The root leaves the heap: its messages are loose. *)
Lemma XL_popped its st es es' est est' L e : XL [] its st es est L -> e ∈ es -> (forall x, x ∈ es' <-> x ∈ es /\ x <> e) ->
  (forall x j, x ∈ es -> est !! x = Some j -> exists j', est' !! x = Some j' /\ ei_head j' = ei_head j /\ ei_count j' = ei_count j /\ ei_at j' = ei_at j) ->
  XL (L e) its st es' est' L.
Proof.
  intros HL He Hes Hest. pose proof HL as [H1 H2 H3 H4 H5]. split.
  - intros x [Hx _]%Hes. destruct (H1 _ Hx) as (i & Hi & Hd & Hc). destruct (Hest _ _ Hx Hi) as (i' & Hi' & E1 & E2 & _). exists i'. by rewrite E1, E2.
  - intros x r [Hx _]%Hes Hr. destruct (H2 _ _ Hx Hr) as (m & i & Hm & Ee & Hid & Hi & Ea). destruct (Hest _ _ Hx Hi) as (i' & Hi' & _ & _ & E).
    exists m, i'. split_and!; [done..|congruence].
  - intros id r Hr. destruct (H3 _ _ Hr) as [Hl|(m & x & Hm & Hid & Ee & Hx & Hin)]; [by apply elem_of_nil in Hl|].
    destruct (decide (x = e)) as [->|Hxe]; [by left|right]. exists m, x. rewrite Hes. done.
  - intros r m x Hr Hm Ee [Hx Hxe]%Hes. destruct (H2 _ _ He Hr) as (m' & _ & Hm' & Ee' & _). congruence.
  - done.
Qed.

Lemma wp_expireHeap fuel now tnow c L (Q : unit -> cache -> Prop) : cinv [] c L -> (length (c_expiry c) < fuel)%nat ->
  (forall c' L', cinv [] c' L' -> lapsed now c c' ->
     (forall id r m, c_items c' !! id = Some r -> c_mstore c' !! r = Some m -> now < m_ExpiresAt m) -> Q tt c') ->
  wp (expireHeap fuel now tnow) c Q.
Proof.
  revert c L Q. induction fuel as [|fuel IH]; intros c L Q I Hf HQ; [lia|]. cbn [expireHeap]. wp_step. apply wp_get.
  pose proof (ci_expiry _ _ _ I) as [HH HL Hne].
  destruct (c_expiry c) as [|e0 es] eqn:Ees; cbn [head].
  { apply wp_ret. apply (HQ c L I); [apply lapsed_refl|]. intros id r m Hr Hm.
    destruct (xl_cached _ _ _ _ _ _ HL _ _ Hr) as [Hl|(m' & e & _ & _ & _ & He & _)]; [by apply elem_of_nil in Hl|by apply elem_of_nil in He]. }
  assert (He0 : e0 ∈ c_expiry c) by (rewrite Ees; left).
  destruct (slice_store _ _ (xh_heap _ _ HH) He0) as (i0 & k & Hi0 & _). cbn in Hi0.
  wp_step. eapply wp_ederef; [exact Hi0|].
  destruct (bool_decide_reflect (ei_at i0 <= now)) as [Hdue|Hlater].
  - wp_step. unfold heapM. apply wp_zoom. apply wp_Pop; [apply HH|cbn; by rewrite Ees|]. intros e [sl est] Hroot Hrem.
    cbn in Hroot. rewrite Ees in Hroot. injection Hroot as <-. pose proof Hrem as (Hh' & Hp & Hidx & _). cbn in Hp, Hidx.
    assert (Hest : forall x j, c_estore c !! x = Some j -> exists j', est !! x = Some j' /\
      ei_head j' = ei_head j /\ ei_count j' = ei_count j /\ ei_at j' = ei_at j).
    { intros x j Hj. destruct (idx_eq_lookup _ _ _ _ Hidx Hj) as (j' & Hj' & E). exists j'. split; [done|]. by apply norm_item. }
    destruct (Hest _ _ Hi0) as (i & Hi & Eh & Ec & Ea). cbn [c_set_heap h_slice h_store].
    wp_step. eapply wp_ederef; [exact Hi|]. wp_step. apply wp_modify. wp_step. apply wp_get.
    set (c1 := ((c <| c_expiry := sl |>) <| c_estore := est |>) <| c_expiryItems := delete (ei_at i) (c_expiryItems c) |>).
    assert (Hsl : forall x, x ∈ sl <-> x ∈ e0 :: es /\ x <> e0).
    { pose proof (hwf_nodup _ (proj1 (xh_heap _ _ HH))) as Hnd. cbn in Hnd. rewrite Hp in Hnd. apply NoDup_cons in Hnd as [Hn _].
      intros x. rewrite <- Ees, Hp, elem_of_cons. naive_solver. }
    assert (Hee : e0 ∈ e0 :: es) by left.
    assert (HL1 : XL (L e0) (c_items c) (c_mstore c) sl est L).
    { eapply (XL_popped _ _ (e0 :: es) _ (c_estore c)); [exact HL|exact Hee|exact Hsl|]. intros x j _ Hj. by apply Hest. }
    assert (I1 : cinv (L e0) c1 L).
    { destruct I as [HO HT _ Hb Hr Hm Hh Hbf]. split; cbn; try done. split; cbn.
      - rewrite Ea. exact (XH_removed _ _ _ _ _ HH Hrem Hi0).
      - exact HL1.
      - intros x [Hx _]%Hsl. by apply Hne. }
    destruct (xl_item _ _ _ _ _ _ HL _ Hee) as (i1 & Hi1 & (D1 & D2 & D3 & _) & _). assert (i1 = i0) as -> by congruence.
    assert (Hmsg : forall r, r ∈ L e0 -> exists m, c_mstore c !! r = Some m /\ c_items c !! m_ID m = Some r /\ m_ExpiresAt m = ei_at i).
    { intros r Hr. destruct (xl_msg _ _ _ _ _ _ HL _ _ Hee Hr) as (m & j & Hm & _ & Hid & Hj & Eaj). exists m. split_and!; [done..|congruence]. }
    wp_step. rewrite Eh, D3, <- hd_or_head. eapply (wp_expireList _ c1 L (L e0) None); [exact I1|exact D2|exact D1|exact Hmsg| |].
    { apply (length_live (c_mstore c)); [done|]. intros r Hr. destruct (Hmsg _ Hr) as (m & -> & _). eauto. }
    intros c2 L2 I2 [Pi Pv Pm [Pe Ps] Pb]. cbn in Pe, Ps. wp_step. eapply (wp_eupdate _ _ i); [by rewrite Ps|].
    set (c3 := c2 <| c_estore := _ |>).
    assert (He0n : e0 ∉ c_expiry c2) by (rewrite Pe, Hsl; tauto).
    assert (I3 : cinv [] c3 L2).
    { destruct I2 as [HO HT [X1 X2 X3] Hb Hr Hm Hh Hbf]. split; cbn; try done. split; cbn.
      - eapply XH_store; [exact X1|]. intros x j Hx Hj. exists j. cbn in Hj |- *. rewrite lookup_insert_ne; [done|]. intros ->. done.
      - eapply XL_items; [done| |exact X2]. intros x j Hx Hj. exists j. rewrite lookup_insert_ne; [done|]. intros ->. done.
      - exact X3. }
    assert (Hlap : lapsed now c c3).
    { split; cbn.
      - apply map_subseteq_spec. intros id r Hr. apply Pi in Hr as [Hr _]. exact Hr.
      - intros id r m Hr Hn Hm. assert (r ∈ L e0) as Hin.
        { destruct (decide (r ∈ L e0)) as [|Hout]; [done|]. assert (c_items c2 !! id = Some r) by by apply Pi. congruence. }
        destruct (Hmsg _ Hin) as (m' & Hm' & _ & Eat). assert (m' = m) as -> by congruence. lia.
      - exact Pv.
      - unfold meta in Pm |- *. cbn in Pm |- *. exact Pm.
      - exact Pb. }
    eapply (IH c3 L2); [exact I3| |].
    { cbn. rewrite Pe. pose proof (Permutation_length Hp) as Hlen. rewrite Ees in Hlen. cbn in Hlen, Hf. lia. }
    intros c4 L4 I4 Hlap4 Hend. apply (HQ c4 L4 I4); [by eapply lapsed_trans|exact Hend].
  - apply wp_ret. apply (HQ c L I); [apply lapsed_refl|]. intros id r m Hr Hm.
    destruct (xl_cached _ _ _ _ _ _ HL _ _ Hr) as [Hl|(m' & e & Hm' & _ & _ & He & Hin)]; [by apply elem_of_nil in Hl|].
    destruct (xl_msg _ _ _ _ _ _ HL _ _ He Hin) as (m2 & j & Hm2 & _ & _ & Hj & Ea). assert (m2 = m) as -> by congruence.
    pose proof (hrep_root (c_heap c) e0 (xh_heap _ _ HH)) as Hroot. cbn in Hroot. rewrite Ees in Hroot. specialize (Hroot eq_refl e He).
    unfold hkey in Hroot. cbn in Hroot. rewrite Hi0, Hj in Hroot. cbn in Hroot. lia.
Qed.

(** ** Compaction of the insertion order *)
Lemma live_fmap_Some (l : list loc) : live (Some <$> l) = l.
Proof. induction l as [|x l IH]; cbn; [done|]. by f_equal. Qed.

Lemma live_filter (l : list (option loc)) : Some <$> live l = filter is_Some l.
Proof.
  induction l as [|[x|] l IH]; [done| |].
  - rewrite filter_cons, decide_True by by eexists. cbn. by f_equal.
  - rewrite filter_cons, decide_False by (intros [? [=]]). exact IH.
Qed.

Lemma wp_liveOrder c (l : list (option loc)) (Q : list (option loc) -> cache -> Prop) :
  (forall r, Some r ∈ l -> exists m, c_mstore c !! r = Some m /\ is_Some (c_items c !! m_ID m)) -> Q (Some <$> live l) c ->
  wp (gfilter (fun o : option loc => match o with
    | None => gret false
    | Some r => m <- cderef r ;; c <- gget ;; gret (bool_decide (is_Some (c_items c !! m_ID m))) end) l) c Q.
Proof.
  revert Q. induction l as [|[r|] l IH]; intros Q Hl HQ; cbn [gfilter]; [by apply wp_ret| |].
  - destruct (Hl r) as (m & Hm & Hid); [left|]. wp_step. wp_step. eapply wp_cderef; [exact Hm|]. wp_step. apply wp_get. apply wp_ret.
    wp_step. apply IH; [intros x Hx; apply Hl; by right|]. apply wp_ret. rewrite bool_decide_true by done. exact HQ.
  - wp_step. apply wp_ret. wp_step. apply IH; [intros x Hx; apply Hl; by right|]. apply wp_ret. exact HQ.
Qed.

(** Nothing but positions changed. *)
Record tidied (c c' : cache) : Prop := {
  td_items : c_items c' = c_items c;
  td_view : agree mview (c_mstore c) (c_mstore c');
  td_meta : meta c' = meta c;
  td_bytes : c_bytes c' = c_bytes c;
}.

Lemma wp_compactOrder c L (Q : unit -> cache -> Prop) : cinv [] c L ->
  (forall c' , cinv [] c' L -> tidied c c' -> Q tt c') -> wp compactOrder c Q.
Proof.
  intros I HQ. unfold compactOrder. wp_step. apply wp_get. apply wp_when; [intros _|intros _; by apply HQ].
  pose proof I as [HO HT [X1 X2 X3] Hb Hr Hm Hh Hbf]. wp_step. apply wp_liveOrder.
  { intros r [i Hi]%list_elem_of_lookup. destruct (ixo_slot _ _ _ HO _ _ Hi) as (m & Hm' & Hid & _). eauto. }
  pose proof (IXO_nodup _ _ _ HO) as Hnd. wp_step.
  eapply (wp_compactIndex m_orderIndex); [by rewrite live_fmap_Some| |].
  { rewrite live_fmap_Some. intros r [i Hi]%elem_of_live. destruct (ixo_slot _ _ _ HO _ _ Hi) as (m & Hm' & _). eauto. }
  rewrite live_fmap_Some. intros st' Hin Hout. apply wp_modify. cbn [app].
  assert (Hin' : forall i r m, live (c_order c) !! i = Some r -> c_mstore c !! r = Some m -> st' !! r = Some (m <| m_orderIndex := Z.of_nat i |>)).
  { intros i r m Hi Hm'. by rewrite (Hin _ _ _ Hi Hm'). }
  set (noO := fun m : Message => m <| m_orderIndex := 0 |>).
  assert (Ha : agree noO (c_mstore c) st').
  { intros r. destruct (decide (r ∈ live (c_order c))) as [Hr'|Hr']; [|by rewrite Hout].
    pose proof Hr' as [i Hi]%list_elem_of_lookup. apply elem_of_live in Hr' as [j Hj]. destruct (ixo_slot _ _ _ HO _ _ Hj) as (m & Hm' & _).
    by rewrite (Hin' _ _ _ Hi Hm'), Hm'. }
  assert (Hv : agree mview (c_mstore c) st') by exact (agree_weaken noO (fun m => mview m) _ _ Ha).
  apply HQ.
  - split; cbn; try done.
    + by eapply IXO_compact.
    + eapply IXT_agree; [|exact HT]. exact (agree_weaken noO (fun m => viewT m) _ _ Ha).
    + split; [exact X1|eapply XL_agree; [|exact X2]|exact X3]. exact (agree_weaken noO (fun m => viewX m) _ _ Ha).
    + by rewrite (msum_view _ _ _ Hv).
    + lia.
    + lia.
  - by split.
Qed.

(** ** Buffered messages *)

(** The bytes of the messages buffered behind gaps. *)
Definition gapBytes (st : gmap loc Message) (g : gmap Z loc) : Z := msum (fun _ r => sizeAt st r) g.
Definition bufferedBytes (st : gmap loc Message) (ro : gmap string (gmap Z loc)) : Z := msum (fun _ g => gapBytes st g) ro.
Definition buffered (ro : gmap string (gmap Z loc)) (o : string) (s : Z) : option loc := ro !! o ≫= (.!! s).

Record rinv (c : cache) : Prop := {
  ri_live : forall o s r, buffered (c_reorder c) o s = Some r ->
    exists m, c_mstore c !! r = Some m /\ m_Origin m = o /\ m_Sequence m = s;
  ri_bytes : c_reorderBytes c = bufferedBytes (c_mstore c) (c_reorder c);
  ri_max : c_reorderBytes c < 2 ^ 62;
}.

Lemma gapBytes_nonneg st g : 0 <= gapBytes st g.
Proof. apply msum_nonneg. intros; apply sizeAt_nonneg. Qed.

Lemma gapBytes_view st st' g : agree mview st st' -> gapBytes st' g = gapBytes st g.
Proof. intros Ha. apply msum_ext. intros k r _. by apply sizeAt_view. Qed.

Lemma bufferedBytes_view st st' ro : agree mview st st' -> bufferedBytes st' ro = bufferedBytes st ro.
Proof. intros Ha. apply msum_ext. intros k g _. by apply gapBytes_view. Qed.

Lemma bufferedBytes_nonneg st ro : 0 <= bufferedBytes st ro.
Proof. apply msum_nonneg. intros; apply gapBytes_nonneg. Qed.

Lemma rinv_view c c' : agree mview (c_mstore c) (c_mstore c') -> c_reorder c' = c_reorder c -> c_reorderBytes c' = c_reorderBytes c ->
  rinv c -> rinv c'.
Proof.
  intros Ha Er Eb [H1 H2 H3]. split; rewrite ?Er, ?Eb.
  - intros o s r Hr. destruct (H1 _ _ _ Hr) as (m & Hm & <- & <-). destruct (agree_lookup _ _ _ _ _ Ha Hm) as (m' & Hm' & E).
    exists m'. split_and!; [done|congruence|congruence].
  - by rewrite (bufferedBytes_view _ _ _ Ha).
  - done.
Qed.

Lemma rinv_meta c c' : agree mview (c_mstore c) (c_mstore c') -> meta c' = meta c -> rinv c -> rinv c'.
Proof. intros Ha Em. unfold meta in Em. apply rinv_view; [done|congruence..]. Qed.

(** Taking one message out of a buffer. *)
Lemma buffered_delete ro o s o' s' :
  buffered (alter (delete s) o ro) o' s' = if decide (o' = o /\ s' = s) then None else buffered ro o' s'.
Proof.
  unfold buffered. destruct (decide (o' = o)) as [->|Ho].
  - rewrite lookup_alter_eq. destruct (ro !! o) as [g|]; cbn; [|by case_decide].
    destruct (decide (s' = s)) as [->|Hs]; [by rewrite lookup_delete_eq, decide_True|].
    rewrite lookup_delete_ne by done. rewrite decide_False; [done|]. tauto.
  - rewrite lookup_alter_ne by done. rewrite decide_False; [done|]. tauto.
Qed.

Lemma bufferedBytes_delete st ro o s r : buffered ro o s = Some r ->
  bufferedBytes st (alter (delete s) o ro) = bufferedBytes st ro - sizeAt st r.
Proof.
  unfold buffered. destruct (ro !! o) as [g|] eqn:Eg; [|done]. cbn. intros Hr.
  assert (Ea : alter (delete s) o ro = <[o := delete s g]> ro).
  { apply map_eq. intros o'. destruct (decide (o' = o)) as [->|Ho].
    - by rewrite lookup_alter_eq, Eg, lookup_insert_eq.
    - by rewrite lookup_alter_ne, lookup_insert_ne. }
  rewrite Ea. unfold bufferedBytes. rewrite (msum_update _ _ _ _ _ Eg). unfold gapBytes at 2 3.
  rewrite (msum_delete _ g _ _ Hr). lia.
Qed.

(** *** The metadata operations *)

(** What they leave alone. *)
Definition core (c : cache) := (c_estore c, c_items c, c_order c, c_orderHead c, c_expiry c, c_expiryItems c,
  (c_tombstones c, c_topics c, c_topicTombstones c, c_frontierLimit c, c_reorderLimit c, c_bytes c, c_maxBytes c, c_rejectPressure c)).

Record mframe (c c' : cache) : Prop := {
  mf_view : agree viewM (c_mstore c) (c_mstore c');
  mf_core : core c' = core c;
}.

Lemma mframe_refl c : mframe c c.
Proof. by split. Qed.
Lemma mframe_trans c1 c2 c3 : mframe c1 c2 -> mframe c2 c3 -> mframe c1 c3.
Proof. intros [A1 A2] [B1 B2]. split; [by etransitivity|congruence]. Qed.

Lemma cinv_mframe c c' L : mframe c c' -> cinv [] c L -> cinv [] c' L.
Proof.
  intros [Ha Hc] [HO HT [X1 X2 X3] Hb Hr Hm Hh Hbf]. unfold core in Hc. injection Hc as Ees Eit Eo Eoh Ex Exi _ Et Ett _ _ Eb Emx _.
  split; rewrite ?Ees, ?Eit, ?Eo, ?Eoh, ?Ex, ?Exi, ?Et, ?Ett, ?Eb, ?Emx; try done.
  - eapply IXO_agree; [by apply viewM_O|done].
  - eapply IXT_agree; [by apply viewM_T|done].
  - split; [|rewrite Ex, Ees; eapply XL_agree; [by apply viewM_X|done]|by rewrite Ex].
    unfold c_heap in *. by rewrite Ex, Ees, Exi.
  - by rewrite (msum_view _ _ _ (viewM_view _ _ Ha)).
Qed.

(** The receive frontiers, the replay frontiers and the sequences of the topics. *)
Definition hist (c : cache) := (c_receivedThrough c, c_receivedUntil c, c_frontiers c, c_topicSequences c, c_nextMetadataExpiry c).

(** Whose instant has come. *)
Definition due (c : cache) (now : Z) (r : loc) : Prop := exists m, c_mstore c !! r = Some m /\ m_ExpiresAt m <= now.

Lemma due_view c c' now r : agree mview (c_mstore c) (c_mstore c') -> due c' now r <-> due c now r.
Proof.
  assert (Himp : forall c1 c2, agree mview (c_mstore c1) (c_mstore c2) -> due c1 now r -> due c2 now r).
  { intros c1 c2 Ha (m & Hm & Hle). destruct (agree_lookup _ _ _ _ _ Ha Hm) as (m' & Hm' & E). exists m'. split; [done|].
    by replace (m_ExpiresAt m') with (m_ExpiresAt m) by congruence. }
  intros Ha. split; apply Himp; [by symmetry|done].
Qed.

(** The due messages among [l] left the buffer of [o]. *)
Record ungapped (now : Z) (o : string) (l : list (Z * loc)) (c c' : cache) : Prop := {
  ug_frame : mframe c c';
  ug_hist : hist c' = hist c;
  ug_bytes : c_reorderBytes c' <= c_reorderBytes c;
  ug_buffered : forall o' s r, buffered (c_reorder c') o' s = Some r <->
    buffered (c_reorder c) o' s = Some r /\ ~ (o' = o /\ (s, r) ∈ l /\ due c now r);
}.

Lemma due_em c now r : due c now r \/ ~ due c now r.
Proof.
  unfold due. destruct (c_mstore c !! r) as [m|] eqn:E; [|right; by intros (? & ? & _)].
  destruct (Z.le_gt_cases (m_ExpiresAt m) now) as [Hle|Hgt]; [left; by exists m|]. right. intros (m' & [= <-] & Hle). lia.
Qed.

Lemma sizeAt_buffered c o s r : rinv c -> buffered (c_reorder c) o s = Some r -> 0 <= sizeAt (c_mstore c) r <= c_reorderBytes c.
Proof.
  intros R Hr. rewrite (ri_bytes _ R). split; [apply sizeAt_nonneg|]. pose proof (bufferedBytes_delete (c_mstore c) _ _ _ _ Hr) as E.
  pose proof (bufferedBytes_nonneg (c_mstore c) (alter (delete s) o (c_reorder c))). lia.
Qed.

(** A buffered message leaves, with its charge. *)
Definition unbuffer (o : string) (s sz : Z) (c : cache) : cache :=
  (c <| c_reorderBytes := i64 (c_reorderBytes c - sz) |>) <| c_reorder := alter (delete s) o (c_reorder c) |>.

Lemma rinv_unbuffer c o s r : rinv c -> buffered (c_reorder c) o s = Some r ->
  rinv (unbuffer o s (sizeAt (c_mstore c) r) c) /\ c_reorderBytes (unbuffer o s (sizeAt (c_mstore c) r) c) = c_reorderBytes c - sizeAt (c_mstore c) r.
Proof.
  intros R Hr. pose proof (sizeAt_buffered _ _ _ _ R Hr) as Hsz. pose proof R as [H1 H2 H3].
  assert (Ei : i64 (c_reorderBytes c - sizeAt (c_mstore c) r) = c_reorderBytes c - sizeAt (c_mstore c) r).
  { apply i64_id. unfold in_i64. change (2 ^ 62) with 4611686018427387904 in *. lia. }
  split; [|exact Ei]. split; cbn; rewrite ?Ei.
  - intros o' s' r'. rewrite buffered_delete. case_decide; [done|]. apply H1.
  - rewrite (bufferedBytes_delete _ _ _ _ _ Hr). lia.
  - lia.
Qed.

Lemma buffered_live c o s r : rinv c -> buffered (c_reorder c) o s = Some r -> exists m, c_mstore c !! r = Some m.
Proof. intros R Hr. destruct (ri_live _ R _ _ _ Hr) as (m & Hm & _). eauto. Qed.

Lemma rinv_mstore c st : agree mview (c_mstore c) st -> rinv c -> rinv (c <| c_mstore := st |>).
Proof. intros Ha. by apply rinv_view. Qed.

(** [delete(gaps, sequence); c.reorderBytes -= messageSize(m)], as several methods do it. *)
Lemma wp_unbuffer c o s r (Q : unit -> cache -> Prop) : rinv c -> buffered (c_reorder c) o s = Some r ->
  (forall c', rinv c' -> mframe c c' -> hist c' = hist c -> c_reorderSince c' = c_reorderSince c -> c_reorder c' = alter (delete s) o (c_reorder c) ->
     c_reorderBytes c' = c_reorderBytes c - sizeAt (c_mstore c) r -> Q tt c') ->
  wp (sz <- messageSize r ;; gmodify (unbuffer o s sz)) c Q.
Proof.
  intros R Hr HQ. destruct (buffered_live _ _ _ _ R Hr) as [m Hm]. wp_step. eapply wp_messageSize; [exact Hm|].
  apply wp_modify. pose proof (memo_agree _ _ _ Hm) as Ha. set (c1 := c <| c_mstore := _ |>).
  assert (R1 : rinv c1) by (apply rinv_mstore; [by apply viewM_view|done]).
  assert (Es : sizeAt (c_mstore c1) r = sizeOf m).
  { cbn. rewrite (sizeAt_view _ _ _ (viewM_view _ _ Ha)). unfold sizeAt. by rewrite Hm. }
  destruct (rinv_unbuffer c1 o s r R1 Hr) as [R2 E2]. rewrite Es in R2, E2. apply HQ; [exact R2|by split|done..|].
  rewrite E2. unfold sizeAt. by rewrite Hm.
Qed.

(** Which sources mark a topic unsafe, and until when. *)
Definition noted (c : cache) (topic source : string) : option Z := c_unsafe c !! topic ≫= (.!! source).

Lemma noted_clear topic source c t s :
  noted (clearUnsafeLocked topic source c) t s = if decide (t = topic /\ s = source) then None else noted c t s.
Proof.
  unfold noted, clearUnsafeLocked. destruct (c_unsafe c !! topic) as [entries|] eqn:E; cbn.
  - destruct (decide (t = topic)) as [->|Ht].
    + rewrite E. cbn. destruct (bool_decide_reflect (delete source entries = ∅)) as [He|He].
      * rewrite lookup_delete_eq. cbn. case_decide as Hd; [done|]. assert (s <> source) as Hs by tauto. rewrite <- (lookup_delete_ne entries source s) by done. by rewrite He.
      * rewrite lookup_insert_eq. cbn. case_decide as Hd; [destruct Hd as [_ ->]; by rewrite lookup_delete_eq|]. rewrite lookup_delete_ne; [done|]. intros <-. tauto.
    + rewrite decide_False by tauto. destruct (bool_decide _); [by rewrite lookup_delete_ne|by rewrite lookup_insert_ne].
  - case_decide as Hd; [|done]. destruct Hd as [-> _]. by rewrite E.
Qed.

Lemma noted_prune now key c t s x : noted (pruneUnsafeKey now key c).1 t s = Some x <-> noted c t s = Some x /\ (t = key -> now < x).
Proof.
  unfold noted, pruneUnsafeKey. destruct (c_unsafe c !! key) as [entries|] eqn:E; cbn.
  - destruct (decide (t = key)) as [->|Ht].
    + rewrite E. cbn. destruct (bool_decide_reflect (filter (fun p : string * Z => now < p.2) entries = ∅)) as [He|He].
      * rewrite lookup_delete_eq. cbn. split; [done|]. intros [Hs Hx]. exfalso. assert (filter (fun p : string * Z => now < p.2) entries !! s = Some x) as Hf by (apply map_lookup_filter_Some; auto).
        by rewrite He in Hf.
      * rewrite lookup_insert_eq. cbn. rewrite map_lookup_filter_Some. cbn. tauto.
    + destruct (bool_decide _); [rewrite lookup_delete_ne by done|rewrite lookup_insert_ne by done]; tauto.
  - split; [|tauto]. intros Hx. split; [done|]. intros ->. by rewrite E in Hx.
Qed.

Lemma noted_topicUnsafe topic now c t s x : noted (topicUnsafeLocked topic now c).1 t s = Some x <-> noted c t s = Some x /\ (t = topic \/ t = "*" -> now < x).
Proof.
  unfold topicUnsafeLocked. pose proof (noted_prune now "*" c t s x) as H1. destruct (pruneUnsafeKey now "*" c) as [c1 b1]. cbn in H1.
  pose proof (noted_prune now topic c1 t s x) as H2. destruct (pruneUnsafeKey now topic c1) as [c2 b2]. cbn in H2. cbn. rewrite H2, H1. tauto.
Qed.

(** The sweep of the unsafe topics forgets the sources whose instant has come. *)
Lemma noted_pruneAll now (l : list (string * gmap string Z)) : forall c t s x, (noted c t s = Some x -> t ∈ l.*1 \/ now < x) ->
  noted (foldl (fun c p => (topicUnsafeLocked p.1 now c).1) c l) t s = Some x <-> noted c t s = Some x /\ now < x.
Proof.
  induction l as [|p l IH]; intros c t s x Hl; cbn [foldl].
  - split; [|tauto]. intros Hx. destruct (Hl Hx) as [Hin|]; [by apply elem_of_nil in Hin|done].
  - pose proof (noted_topicUnsafe p.1 now c t s x) as Hn. rewrite IH, Hn; [split; [tauto|]; intros [Hx Hlt]; tauto|].
    intros [Hx Hp]%Hn. destruct (Hl Hx) as [Hin|]; [|by right]. cbn in Hin. apply elem_of_cons in Hin as [->|Hin]; [right; apply Hp; by left|by left].
Qed.

(** A whole buffer whose instants have come. *)
Definition allDue (c : cache) (now : Z) (g : gmap Z loc) : Prop := forall s r, g !! s = Some r -> due c now r.
(** A buffer that is gone takes its gap mark with it, from the topic of one of its messages. *)
Record closed (now : Z) (o : string) (g : gmap Z loc) (c c' : cache) : Prop := {
  cl_open : ~ allDue c now g -> c_reorderSince c' = c_reorderSince c /\ c_unsafe c' = c_unsafe c;
  cl_since : allDue c now g -> c_reorderSince c' = delete o (c_reorderSince c);
  cl_unsafe : allDue c now g -> (g = ∅ /\ c_unsafe c' = c_unsafe c) \/
    exists s r m, g !! s = Some r /\ c_mstore c !! r = Some m /\
      forall t x, noted c' t x = if decide (m_Topic m <> "" /\ t = m_Topic m /\ x = "gap:" +:+ o) then None else noted c t x;
}.

(** The topic that a walk over a buffer ends with. *)
Definition lastTopic (c : cache) (l : list (Z * loc)) (topic t : string) : Prop :=
  l = [] /\ t = topic \/ exists s r m, (s, r) ∈ l /\ c_mstore c !! r = Some m /\ t = m_Topic m.

Lemma wp_expireGapLoop now o l topic c (Q : string -> cache -> Prop) : rinv c -> NoDup l.*1 ->
  (forall s r, (s, r) ∈ l -> buffered (c_reorder c) o s = Some r) ->
  (forall t c', rinv c' -> ungapped now o l c c' -> c_reorderSince c' = c_reorderSince c -> lastTopic c l topic t -> Q t c') ->
  wp (expireGapLoop now o l topic) c Q.
Proof.
  revert topic c Q. induction l as [|[s r] l IH]; intros topic c Q R Hnd Hl HQ; cbn [expireGapLoop].
  { apply wp_ret, HQ; [done| |done|by left]. split; [apply mframe_refl|done..|]. intros o' s r. rewrite elem_of_nil. tauto. }
  assert (Hr : buffered (c_reorder c) o s = Some r) by (apply Hl; left).
  apply NoDup_cons in Hnd as [Hs Hnd]. cbn in Hs.
  assert (Hsl : forall x, (s, x) ∉ l) by (intros x Hx; apply Hs; apply list_elem_of_fmap; by exists (s, x)).
  destruct (buffered_live _ _ _ _ R Hr) as [m Hm]. wp_step. eapply wp_cderef; [exact Hm|]. wp_step.
  apply (wp_mono _ _ (fun _ c1 => rinv c1 /\ ungapped now o [(s, r)] c c1 /\ c_reorderSince c1 = c_reorderSince c)).
  - apply wp_when.
    + intros Hdue%bool_decide_eq_true. eapply (wp_unbuffer c o s r); [done..|]. intros c1 R1 F1 Hh1 Es1 Ro1 Eb1. split; [done|]. split; [|done]. split; [done|done| |].
      { rewrite Eb1. pose proof (sizeAt_nonneg (c_mstore c) r). lia. }
      intros o' s' r'. rewrite Ro1, buffered_delete, list_elem_of_singleton. case_decide as Hd.
      * destruct Hd as [-> ->]. split; [done|]. intros [Hx Hn]. destruct Hn. split; [done|]. assert (r' = r) as -> by congruence. split; [done|]. by exists m.
      * split; [|tauto]. intros Hx. split; [done|]. intros (-> & [= -> ->] & _). by apply Hd.
    + intros Hdue%bool_decide_eq_false. split; [done|]. split; [|done]. split; [apply mframe_refl|done..|]. intros o' s' r'. split; [|tauto]. intros Hx. split; [done|].
      intros (_ & [= -> ->]%list_elem_of_singleton & (m' & Hm' & Hle)). assert (m' = m) as -> by congruence. done.
  - intros _ c1 (R1 & [F1 Hh1 L1 B1] & Es1). apply IH; [done|done| |].
    + intros s' r' Hin. apply B1. split; [apply Hl; by right|]. intros (_ & [= -> ->]%list_elem_of_singleton & _). by apply (Hsl r).
    + intros t c' R' [F2 Hh2 L2 B2] Es2 Ht. apply HQ; [done| |congruence|].
      2:{ right. destruct Ht as [[-> ->]|(s' & r' & m' & Hin & Hm' & ->)]; [exists s, r, m; split_and!; [left|done..]|].
          destruct (agree_lookup _ _ _ _ _ (symmetry (viewM_view _ _ (mf_view _ _ F1))) Hm') as (m0 & Hm0 & E). exists s', r', m0.
          split_and!; [by right|done|congruence]. }
      split; [by eapply mframe_trans|congruence|lia|]. intros o' s' r'.
      rewrite B2, B1, list_elem_of_singleton, elem_of_cons, (due_view _ _ _ _ (viewM_view _ _ (mf_view _ _ F1))). split.
      * intros [[Hx Hn1] Hn2]. split; [done|]. intros (-> & [|] & ?); [by apply Hn1|by apply Hn2].
      * intros [Hx Hn]. split; [split; [done|]|]; intros (-> & ? & ?); apply Hn; tauto.
Qed.

Lemma buffered_empty ro o : default ∅ (ro !! o) = ∅ -> forall o' s, buffered (delete o ro) o' s = buffered ro o' s.
Proof.
  intros He o' s. unfold buffered. destruct (decide (o' = o)) as [->|Hne]; [|by rewrite lookup_delete_ne].
  rewrite lookup_delete_eq. destruct (ro !! o) as [g|]; cbn in *; [by rewrite He|done].
Qed.

Lemma bufferedBytes_empty st ro o : default ∅ (ro !! o) = ∅ -> bufferedBytes st (delete o ro) = bufferedBytes st ro.
Proof.
  intros He. unfold bufferedBytes. destruct (ro !! o) as [g|] eqn:Eg; [|by rewrite delete_id].
  rewrite (msum_delete _ ro _ _ Eg). cbn in He. rewrite He. unfold gapBytes. rewrite msum_empty. lia.
Qed.

Lemma clearUnsafe_since topic source c : c_reorderSince (clearUnsafeLocked topic source c) = c_reorderSince c.
Proof. by destruct (clearUnsafe_shape topic source c) as [u ->]. Qed.

Lemma buffer_empty ro o : default ∅ (ro !! o) = ∅ <-> forall s, buffered ro o s = None.
Proof.
  unfold buffered. destruct (ro !! o) as [g|]; cbn; [|done]. split; [intros ->; intros s; apply lookup_empty|intros Hs; by apply map_eq].
Qed.

(** An emptied buffer is deleted, with its gap mark. *)
Definition dropGap (o : string) (topic : option string) (c : cache) : cache :=
  let c := (c <| c_reorder := delete o (c_reorder c) |>) <| c_reorderSince := delete o (c_reorderSince c) |> in
  match topic with Some t => clearUnsafeLocked t ("gap:" +:+ o) c | None => c end.

Lemma dropGap_ok o topic c : rinv c -> default ∅ (c_reorder c !! o) = ∅ ->
  rinv (dropGap o topic c) /\ mframe c (dropGap o topic c) /\ hist (dropGap o topic c) = hist c /\ c_reorderBytes (dropGap o topic c) = c_reorderBytes c /\
  forall o' s, buffered (c_reorder (dropGap o topic c)) o' s = buffered (c_reorder c) o' s.
Proof.
  intros [H1 H2 H3] He. unfold dropGap. set (c1 := (c <| c_reorder := _ |>) <| c_reorderSince := _ |>).
  assert (H : rinv c1 /\ mframe c c1 /\ hist c1 = hist c /\ c_reorderBytes c1 = c_reorderBytes c /\ forall o' s, buffered (c_reorder c1) o' s = buffered (c_reorder c) o' s).
  { split_and!; [|done..|cbn; by apply buffered_empty]. split; cbn; [|by rewrite bufferedBytes_empty|done].
    intros o' s r. rewrite buffered_empty by done. apply H1. }
  destruct topic as [t|]; [|exact H]. destruct (clearUnsafe_shape t ("gap:" +:+ o) c1) as [u ->].
  destruct H as (R & F & Hh & B & E). split_and!; [by destruct R; split|done..].
Qed.

Lemma wp_expireGap now og c (Q : unit -> cache -> Prop) : rinv c ->
  (forall s, buffered (c_reorder c) og.1 s = og.2 !! s) ->
  (forall c', rinv c' -> ungapped now og.1 (map_to_list og.2) c c' -> closed now og.1 og.2 c c' -> Q tt c') -> wp (expireGap now og) c Q.
Proof.
  intros R Hl HQ. unfold expireGap. wp_step. apply wp_silent; [apply silent_expireGapLoop|]. apply wp_expireGapLoop; [done|apply NoDup_fst_map_to_list| |].
  { intros s r Hin%elem_of_map_to_list. by rewrite Hl. }
  intros topic c1 R1 U1 Es1 Ht Ev. injection Ev as _ Eu1.
  assert (Hempty : default ∅ (c_reorder c1 !! og.1) = ∅ <-> allDue c now og.2).
  { rewrite buffer_empty. pose proof (ug_buffered _ _ _ _ _ U1 og.1) as Hb. setoid_rewrite elem_of_map_to_list in Hb. split.
    - intros Hn s r Hs. specialize (Hb s r). rewrite Hn, Hl in Hb. destruct (due_em c now r) as [|Hnd]; [done|]. exfalso. destruct Hb as [_ Hb].
      assert (None = Some r) as Hx by (apply Hb; split; [done|tauto]). done.
    - intros Hd s. destruct (buffered (c_reorder c1) og.1 s) as [r|] eqn:Er; [|done]. apply Hb in Er as [Er Hn]. rewrite Hl in Er. exfalso. apply Hn. by split_and!; [| |eapply Hd]. }
  wp_step. apply wp_get. apply wp_when.
  2:{ intros Hne%bool_decide_eq_false. apply HQ; [done|done|]. rewrite Hempty in Hne. split; [by split|done|done]. }
  intros He%bool_decide_eq_true. apply Hempty in He as Had.
  assert (Hend : forall t, (t = Some topic /\ topic <> "" \/ t = None /\ topic = "") -> Q tt (dropGap og.1 t c1)).
  { intros t Htt. destruct (dropGap_ok og.1 t c1 R1 He) as (R2 & F2 & Hh2 & E2 & B2). destruct U1 as [F1 Hh1 L1 B1]. apply HQ; [done| |].
    { split; [by eapply mframe_trans|congruence|lia|]. intros o' s r. rewrite B2. apply B1. }
    assert (Hn1 : forall c0 x y, c_unsafe c0 = c_unsafe c -> noted c0 x y = noted c x y) by (intros c0 x y E; unfold noted; by rewrite E).
    split; [done|intros _; rewrite <- Es1; destruct t; [apply clearUnsafe_since|done]|]. intros _.
    destruct Ht as [[El ->]|(s & r & m & Hin%elem_of_map_to_list & Hm & ->)].
    - left. apply map_to_list_empty_iff in El. split; [done|]. by destruct Htt as [[_ ?]|[-> _]].
    - right. exists s, r, m. split_and!; [done..|]. intros x y. destruct Htt as [[-> Hne]|[-> Hem]]; unfold dropGap.
      + rewrite noted_clear. rewrite Hn1 by done. repeat case_decide; tauto.
      + rewrite decide_False by tauto. by apply Hn1. }
  wp_step. apply wp_modify. apply wp_when; intros Hb; [apply bool_decide_eq_true in Hb; apply wp_modify; apply (Hend (Some topic)); by left|].
  apply bool_decide_eq_false in Hb. apply (Hend None). right. split; [done|]. by apply dec_stable.
Qed.

Lemma pruneUnsafe_shape now key c : exists u, (pruneUnsafeKey now key c).1 = c <| c_unsafe := u |>.
Proof. unfold pruneUnsafeKey. destruct (c_unsafe c !! key); [cbn; eauto|]. exists (c_unsafe c). by destruct c. Qed.

Lemma topicUnsafe_shape topic now c : exists u, (topicUnsafeLocked topic now c).1 = c <| c_unsafe := u |>.
Proof.
  unfold topicUnsafeLocked. destruct (pruneUnsafe_shape now "*" c) as [u1 E1]. destruct (pruneUnsafeKey now "*" c) as [c1 b1]. cbn in E1. subst c1.
  destruct (pruneUnsafe_shape now topic (c <| c_unsafe := u1 |>)) as [u2 E2]. destruct (pruneUnsafeKey now topic _) as [c2 b2]. cbn in E2. subst c2. eauto.
Qed.

Lemma pruneAll_shape now (l : list (string * gmap string Z)) c : exists u, foldl (fun c p => (topicUnsafeLocked p.1 now c).1) c l = c <| c_unsafe := u |>.
Proof.
  revert c. induction l as [|p l IH]; intros c; cbn; [exists (c_unsafe c); by destruct c|].
  destruct (topicUnsafe_shape p.1 now c) as [u ->]. destruct (IH (c <| c_unsafe := u |>)) as [u' ->]. eauto.
Qed.

(** The buffers that are gone, and the gap marks that went with them. *)
Record gapsClosed (now : Z) (l : list (string * gmap Z loc)) (c c' : cache) : Prop := {
  gc_since : forall o t, c_reorderSince c' !! o = Some t <-> c_reorderSince c !! o = Some t /\ ~ (exists g, (o, g) ∈ l /\ allDue c now g);
  gc_sub : forall topic source t, noted c' topic source = Some t -> noted c topic source = Some t;
  gc_live : forall topic source t, noted c topic source = Some t ->
    (forall o g s r m, (o, g) ∈ l -> source = "gap:" +:+ o -> allDue c now g -> g !! s = Some r -> c_mstore c !! r = Some m -> m_Topic m <> topic) ->
    noted c' topic source = Some t;
  gc_gone : forall o g topic, (o, g) ∈ l -> allDue c now g -> g <> ∅ -> topic <> "" ->
    (forall s r m, g !! s = Some r -> c_mstore c !! r = Some m -> m_Topic m = topic) -> noted c' topic ("gap:" +:+ o) = None;
}.

Lemma gapsClosed_nil now c : gapsClosed now [] c c.
Proof. split; [|done|done|]. { intros o t. split; [|tauto]. intros Ht. split; [done|]. by intros (g & Hg%elem_of_nil & _). } intros o g topic Hg. by apply elem_of_nil in Hg. Qed.

Lemma allDue_view c c' now g : agree mview (c_mstore c) (c_mstore c') -> allDue c' now g <-> allDue c now g.
Proof. intros Ha. unfold allDue. by setoid_rewrite (due_view _ _ _ _ Ha). Qed.

Lemma closed_sub now o g c c' topic source t : closed now o g c c' -> (allDue c now g \/ ~ allDue c now g) -> noted c' topic source = Some t -> noted c topic source = Some t.
Proof.
  intros [C1 C2 C3] [Hd|Hd] Hn; [|unfold noted in *; by rewrite (proj2 (C1 Hd)) in Hn].
  destruct (C3 Hd) as [[_ E]|(s & r & m & _ & _ & E)]; [unfold noted in *; by rewrite E in Hn|]. rewrite E in Hn. by case_decide.
Qed.

Lemma allDue_em c now g : allDue c now g \/ ~ allDue c now g.
Proof.
  assert (Hl : forall l : list (Z * loc), (forall s r, (s, r) ∈ l -> due c now r) \/ exists s r, (s, r) ∈ l /\ ~ due c now r).
  { induction l as [|[s r] l [IH|(s' & r' & Hin & Hn)]]; [left; intros s r Hin; by apply elem_of_nil in Hin| |right; exists s', r'; split; [by right|done]].
    destruct (due_em c now r) as [Hd|Hn]; [left; intros s' r' [[= -> ->]|Hin]%elem_of_cons; [done|by eapply IH]|right; exists s, r; split; [left|done]]. }
  destruct (Hl (map_to_list g)) as [Hd|(s & r & Hin%elem_of_map_to_list & Hn)].
  - left. intros s r Hs. apply (Hd s). by apply elem_of_map_to_list.
  - right. intros Ha. by apply Hn, (Ha s).
Qed.

Lemma gapsClosed_cons now o g l c c1 c' : agree mview (c_mstore c) (c_mstore c1) -> o ∉ l.*1 -> (forall s r, g !! s = Some r -> is_Some (c_mstore c !! r)) ->
  closed now o g c c1 -> gapsClosed now l c1 c' -> gapsClosed now ((o, g) :: l) c c'.
Proof.
  intros Ha Ho Hlive Hc [S1 S2 S3 S4]. pose proof Hc as [C1 C2 C3]. pose proof (allDue_em c now g) as Hem.
  assert (Htop : forall r m1, c_mstore c1 !! r = Some m1 -> exists m, c_mstore c !! r = Some m /\ m_Topic m = m_Topic m1).
  { intros r m1 Hm1. destruct (agree_lookup _ _ _ _ _ (symmetry Ha) Hm1) as (m & Hm & E). exists m. split; [done|congruence]. }
  assert (Hno : forall g', (o, g') ∉ l) by (intros g' Hin; apply Ho, list_elem_of_fmap; by exists (o, g')).
  split.
  - intros o' t. rewrite S1. setoid_rewrite (allDue_view _ _ now _ Ha). destruct Hem as [Hd|Hd].
    + rewrite (C2 Hd), lookup_delete_Some. split.
      * intros [[Hne Hs] Hn]. split; [done|]. intros (g' & [[= -> ->]|Hin]%elem_of_cons & Hg'); [done|]. apply Hn. by exists g'.
      * intros [Hs Hn]. split; [split; [|done]|].
        { intros <-. apply Hn. exists g. split; [left|done]. }
        { intros (g' & Hin & Hg'). apply Hn. exists g'. split; [by right|done]. }
    + destruct (C1 Hd) as [-> _]. split; intros [Hs Hn]; (split; [done|]).
      * intros (g' & [[= -> ->]|Hin]%elem_of_cons & Hg'); [done|]. apply Hn. by exists g'.
      * intros (g' & Hin & Hg'). apply Hn. exists g'. split; [by right|done].
  - intros topic source t Hn. apply S2 in Hn. by eapply closed_sub.
  - intros topic source t Hn Hk. apply S3.
    + destruct Hem as [Hd|Hd]; [|unfold noted in *; by rewrite (proj2 (C1 Hd))]. destruct (C3 Hd) as [[_ E]|(s & r & m & Hs & Hm & E)]; [unfold noted in *; by rewrite E|].
      rewrite E. rewrite decide_False; [done|]. intros (_ & -> & ->). apply (Hk o g s r m); first [by left|done].
    + intros o' g' s r m1 Hin -> Hd Hs Hm1. apply (allDue_view _ _ _ _ Ha) in Hd. destruct (Htop _ _ Hm1) as (m & Hm & <-). apply (Hk o' g' s r m); first [by right|done].
  - intros o' g' topic [[= -> ->]|Hin]%elem_of_cons Hd Hne Hte Htopic.
    + assert (E : noted c1 topic ("gap:" +:+ o) = None).
      { destruct (C3 Hd) as [[? _]|(s & r & m & Hs & Hm & E)]; [done|]. rewrite E. specialize (Htopic _ _ _ Hs Hm). rewrite decide_True; [done|by subst topic]. }
      destruct (noted c' topic ("gap:" +:+ o)) as [t|] eqn:En; [|done]. apply S2 in En. congruence.
    + apply (S4 o' g'); [done|by apply (allDue_view _ _ _ _ Ha)|done|done|]. intros s r m1 Hs Hm1. destruct (Htop _ _ Hm1) as (m & Hm & <-). by eapply Htopic.
Qed.

(** The due messages left every buffer. *)
Record unbuffered (now : Z) (os : list string) (c c' : cache) : Prop := {
  ub_frame : mframe c c';
  ub_hist : hist c' = hist c;
  ub_bytes : c_reorderBytes c' <= c_reorderBytes c;
  ub_buffered : forall o s r, buffered (c_reorder c') o s = Some r <-> buffered (c_reorder c) o s = Some r /\ ~ (o ∈ os /\ due c now r);
}.

Lemma wp_expireGaps now l c (Q : unit -> cache -> Prop) : rinv c -> NoDup l.*1 ->
  (forall o g, (o, g) ∈ l -> forall s, buffered (c_reorder c) o s = g !! s) ->
  (forall c', rinv c' -> unbuffered now l.*1 c c' -> gapsClosed now l c c' -> Q tt c') -> wp (gfor l (expireGap now)) c Q.
Proof.
  revert c Q. induction l as [|[o g] l IH]; intros c Q R Hnd Hl HQ; cbn [gfor].
  { apply wp_ret, HQ; [done| |apply gapsClosed_nil]. split; [apply mframe_refl|done..|]. intros o s r. cbn. rewrite elem_of_nil. tauto. }
  apply NoDup_cons in Hnd as [Ho Hnd]. cbn in Ho. pose proof (Hl o g ltac:(left)) as Hg.
  wp_step. apply wp_expireGap; [done|exact Hg|]. cbn. intros c1 R1 [F1 Hh1 L1 B1] Cl1. apply IH; [done|done| |].
  - intros o' g' Hin s. rewrite <- (Hl o' g') by by right. apply option_eq. intros r. rewrite B1. split; [tauto|]. intros Hx. split; [done|].
    intros (-> & _). apply Ho, list_elem_of_fmap. by exists (o, g').
  - intros c2 R2 [F2 Hh2 L2 B2] Cl2. apply HQ; [done| |].
    2:{ eapply gapsClosed_cons; [apply viewM_view, F1|done| |exact Cl1|exact Cl2]. intros s r Hs. rewrite <- Hg in Hs. destruct (buffered_live _ _ _ _ R Hs) as [m Hm]. by exists m. }
    split; [by eapply mframe_trans|congruence|lia|]. intros o' s r.
    rewrite B2, B1. cbn. rewrite elem_of_cons, (due_view _ _ _ _ (viewM_view _ _ (mf_view _ _ F1))), elem_of_map_to_list, <- Hg.
    split; [|intros [Hx Hn]; split; [split; [done|]|]; [intros (-> & _ & Hd)|intros (Hin & Hd)]; apply Hn; tauto].
    intros [[Hx Hn1] Hn2]. split; [done|]. intros [[->|Hin] Hd]; [apply Hn1|apply Hn2]; done.
Qed.

(** What the expiry of metadata does: which receive frontiers, replay frontiers, unsafe sources, topic sequences and
    buffered messages are left.  A gap mark is forgotten with the buffer that it stands for. *)
Record forgot (now : Z) (c c' : cache) : Prop := {
  fg_buffered : forall o s r, buffered (c_reorder c') o s = Some r <-> buffered (c_reorder c) o s = Some r /\ ~ due c now r;
  fg_since : forall o t, c_reorderSince c' !! o = Some t <-> c_reorderSince c !! o = Some t /\ ~ (exists g, c_reorder c !! o = Some g /\ allDue c now g);
  fg_through : forall o n, c_receivedThrough c' !! o = Some n <-> c_receivedThrough c !! o = Some n /\
    ~ (exists t, c_receivedUntil c !! o = Some t /\ t <= now /\ default ∅ (c_reorder c !! o) = ∅);
  fg_until : forall o t, c_receivedUntil c' !! o = Some t <-> c_receivedUntil c !! o = Some t /\ ~ (t <= now /\ default ∅ (c_reorder c !! o) = ∅);
  fg_frontiers : c_frontiers c' = filter (fun p => now < tf_ExpiresAt p.2) (c_frontiers c);
  fg_unsafe : forall topic source t, noted c' topic source = Some t -> noted c topic source = Some t /\ now < t;
  fg_marks : forall topic source t, noted c topic source = Some t -> now < t ->
    (forall o g s r m, c_reorder c !! o = Some g -> source = "gap:" +:+ o -> allDue c now g -> g !! s = Some r -> c_mstore c !! r = Some m -> m_Topic m <> topic) ->
    noted c' topic source = Some t;
  fg_gaps : forall o g topic, c_reorder c !! o = Some g -> allDue c now g -> g <> ∅ -> topic <> "" ->
    (forall s r m, g !! s = Some r -> c_mstore c !! r = Some m -> m_Topic m = topic) -> noted c' topic ("gap:" +:+ o) = None;
  fg_topics : c_topicSequences c' = filter (fun p => ~ (ts_expiresAt p.2 <= now /\ default [] (c_topics c !! p.1) = [])) (c_topicSequences c);
  fg_next : c_nextMetadataExpiry c' = i64 (now + 1000);
  fg_bytes : c_reorderBytes c' <= c_reorderBytes c;
}.

Lemma forgot_meta now c c1 c' : forgot now c c1 -> meta c' = meta c1 -> evidence c' = evidence c1 -> forgot now c c'.
Proof.
  intros [F1 F2 F3 F4 F5 F6 F7 F8 F9 F10 F11] M E. unfold meta in M. unfold evidence in E.
  assert (c_reorder c' = c_reorder c1) as Er by congruence. assert (c_reorderSince c' = c_reorderSince c1) as Es by congruence.
  assert (c_receivedThrough c' = c_receivedThrough c1) as Et by congruence. assert (c_receivedUntil c' = c_receivedUntil c1) as Eu by congruence.
  assert (c_reorderBytes c' = c_reorderBytes c1) as Eb by congruence. injection E as Ef Eun.
  split; unfold noted; rewrite ?Er, ?Es, ?Et, ?Eu, ?Eb, ?Ef, ?Eun; try done; congruence.
Qed.

Lemma wp_expireMetadata now c (Q : unit -> cache -> Prop) : rinv c -> (forall c', rinv c' -> mframe c c' -> forgot now c c' -> Q tt c') ->
  wp (expireMetadata now) c Q.
Proof.
  intros R HQ. unfold expireMetadata. repeat (wp_step; apply wp_modify). wp_step. apply wp_get.
  match goal with |- context [foldl ?f ?c0 (map_to_list (c_unsafe ?c00))] => set (cu := c0) end.
  assert (Hpr : forall t s x, noted (foldl (fun c p => (topicUnsafeLocked p.1 now c).1) cu (map_to_list (c_unsafe cu))) t s = Some x <-> noted c t s = Some x /\ now < x).
  { intros t s x. change (noted c t s) with (noted cu t s). apply noted_pruneAll. intros Hx. left. unfold noted in Hx. destruct (c_unsafe cu !! t) as [es|] eqn:Ees; [|done].
    apply list_elem_of_fmap. exists (t, es). split; [done|by apply elem_of_map_to_list]. }
  destruct (pruneAll_shape now (map_to_list (c_unsafe cu)) cu) as [u Eu]. change (c_unsafe cu) with (c_unsafe c) in *. cbn [c_unsafe] in *. rewrite Eu in Hpr |- *. clear Eu. unfold cu in *. clear cu.
  match goal with |- wp _ ?x _ => set (c1 := x) end.
  assert (R1 : rinv c1) by (destruct R; by split). apply wp_expireGaps; [done|apply NoDup_fst_map_to_list| |].
  { intros o g Hin%elem_of_map_to_list s. unfold buffered. by rewrite Hin. }
  intros c2 R2 [F2 Hh2 L2 B2] [G1 G2 G3 G4]. change (c_reorder c1) with (c_reorder c) in *. setoid_rewrite elem_of_map_to_list in G1. setoid_rewrite elem_of_map_to_list in G3.
  setoid_rewrite elem_of_map_to_list in G4. unfold hist in Hh2. injection Hh2 as Et Eu Ef Es En. apply HQ; [done|eapply mframe_trans; [|exact F2]; by split|]. split.
  - intros o s r. rewrite B2. unfold due. cbn. split; [intros [Hx Hn]|tauto]. split; [done|]. intros Hd. apply Hn. split; [|done].
    unfold buffered in Hx. destruct (c_reorder c !! o) as [g|] eqn:Eg; [|done]. apply list_elem_of_fmap. exists (o, g). split; [done|by apply elem_of_map_to_list].
  - exact G1.
  - intros o n. rewrite Et. cbn. rewrite map_lookup_filter_Some. cbn. rewrite map_lookup_filter_None. cbn. split; intros [Hx Hn]; split; try done.
    + intros (t & Hu & Hd). destruct Hn as [Hn|Hn]; [congruence|by apply (Hn t Hu)].
    + destruct (c_receivedUntil c !! o) as [t|] eqn:Eo; [right|by left]. intros t' [= <-] Hd. apply Hn. by exists t.
  - intros o t. rewrite Eu. cbn. rewrite map_lookup_filter_Some. cbn. rewrite map_lookup_filter_None. cbn. split; intros [Hx Hn]; split; try done.
    + destruct Hn as [Hn|Hn]; [congruence|by apply Hn].
    + right. intros t' Ht'. by assert (t' = t) as -> by congruence.
  - by rewrite Ef.
  - intros topic source t Hn. by apply G2, Hpr in Hn.
  - intros topic source t Hn Hlt Hk. apply G3; [by apply Hpr|exact Hk].
  - exact G4.
  - by rewrite Es.
  - by rewrite En.
  - exact L2.
Qed.

(** ** [expireLocked] *)
Definition limits (c : cache) := (c_maxBytes c, c_rejectPressure c, c_frontierLimit c, c_reorderLimit c).

(** The cache is consistent, and so are the buffers. *)
Definition cacheOK (c : cache) : Prop := (exists L, cinv [] c L) /\ rinv c.

(** What a sweep leaves. *)
Record swept (now : Z) (c c' : cache) : Prop := {
  sw_items : forall id r, c_items c' !! id = Some r <-> c_items c !! id = Some r /\ ~ due c now r;
  sw_view : agree mview (c_mstore c) (c_mstore c');
  sw_bytes : c_bytes c' <= c_bytes c;
  sw_limits : limits c' = limits c;
  sw_meta : if decide (c_nextMetadataExpiry c <= now) then forgot now c c' else meta c' = meta c /\ evidence c' = evidence c;
}.

Lemma meta_limits c c' : meta c' = meta c -> limits c' = limits c.
Proof. unfold meta, limits. congruence. Qed.

(** What the heap left behind, read from the cache before. *)
Lemma lapsed_items now c0 c c' : (exists L, cinv [] c0 L) -> agree mview (c_mstore c0) (c_mstore c) -> c_items c = c_items c0 -> lapsed now c c' ->
  (forall id r m, c_items c' !! id = Some r -> c_mstore c' !! r = Some m -> now < m_ExpiresAt m) ->
  forall id r, c_items c' !! id = Some r <-> c_items c0 !! id = Some r /\ ~ due c0 now r.
Proof.
  intros [L0 I0] Hv Hi [P1 P2 P3 P4 P5] Hlive id r. split.
  - intros Hr. pose proof (lookup_weaken _ _ _ _ Hr P1) as Hr0. rewrite Hi in Hr0. split; [done|]. intros Hd.
    assert (agree mview (c_mstore c0) (c_mstore c')) as Hv' by (by etransitivity).
    apply (due_view _ _ _ _ Hv') in Hd as (m & Hm & Hle). specialize (Hlive _ _ _ Hr Hm). lia.
  - intros [Hr Hd]. destruct (c_items c' !! id) as [r'|] eqn:E.
    + pose proof (lookup_weaken _ _ _ _ E P1) as E'. congruence.
    + exfalso. apply Hd. destruct (ci_item _ _ _ _ _ I0 Hr) as (m0 & Hm0 & _). destruct (agree_lookup _ _ _ _ _ Hv Hm0) as (m & Hm & Em).
      rewrite <- Hi in Hr. specialize (P2 _ _ _ Hr E Hm). exists m0. split; [done|]. replace (m_ExpiresAt m0) with (m_ExpiresAt m) by congruence. done.
Qed.

Lemma wp_expireLocked now tnow c (Q : unit -> cache -> Prop) : cacheOK c ->
  (forall c', cacheOK c' -> swept now c c' -> Q tt c') -> wp (expireLocked now tnow) c Q.
Proof.
  intros [[L I] R] HQ. unfold expireLocked. wp_step. apply wp_get. wp_step.
  apply (wp_mono _ _ (fun _ c1 => mframe c c1 /\ rinv c1 /\ if decide (c_nextMetadataExpiry c <= now) then forgot now c c1 else c1 = c)).
  { apply wp_when; intros H; [apply bool_decide_eq_true in H|apply bool_decide_eq_false in H].
    - apply wp_expireMetadata; [done|]. intros c1 R1 F1 G1. by rewrite decide_True by done.
    - rewrite decide_False by done. split_and!; [apply mframe_refl|done..]. }
  intros _ c1 (F1 & R1 & M1). pose proof (cinv_mframe _ _ _ F1 I) as I1. pose proof (viewM_view _ _ (mf_view _ _ F1)) as V1.
  pose proof (mf_core _ _ F1) as C1. unfold core in C1. apply wp_silent; [silent|]. wp_step. apply wp_get. wp_step.
  eapply (wp_expireHeap _ now tnow c1 L); [exact I1|lia|]. intros c2 L2 I2 P2 Hlive.
  eapply (wp_compactOrder c2 L2); [exact I2|]. intros c3 I3 [T1 T2 T3 T4]. pose proof P2 as [_ _ V2 M2 B2].
  assert (V13 : agree mview (c_mstore c1) (c_mstore c3)) by by etransitivity.
  intros Ev. apply HQ.
  - split; [by exists L2|]. eapply (rinv_meta c1); [done|congruence|done].
  - split.
    + rewrite T1. eapply lapsed_items; [by exists L|exact V1|congruence|exact P2|exact Hlive].
    + by etransitivity.
    + rewrite T4. assert (c_bytes c1 = c_bytes c) by congruence. lia.
    + pose proof (meta_limits _ _ (eq_trans T3 M2)) as E. rewrite E. unfold limits. congruence.
    + destruct (decide _); [eapply forgot_meta; [exact M1|congruence|done]|]. split; [congruence|by rewrite Ev, M1].
Qed.

(** ** Insertion, with the buffers *)
Lemma insertResult_frame r m c res c' : insertResult r m c res c' -> agree mview (c_mstore c) (c_mstore c') /\ meta c' = meta c.
Proof. destruct res as [[] [e|]]; cbn; [done|by intros (_ & _ & [])|by intros (_ & [] & _)|by intros [_ ->]]. Qed.

Lemma wp_insert c r m tnow (Q : bool * option error -> cache -> Prop) : cacheOK c -> c_mstore c !! r = Some m ->
  (forall res c', cacheOK c' -> insertResult r m c res c' -> Q res c') -> wp (insertLocked r tnow) c Q.
Proof.
  intros [[L I] R] Hm HQ. eapply (wp_insertLocked c L r m); [exact I|exact Hm|]. intros res c' L' I' Hres. apply HQ; [|done].
  destruct (insertResult_frame _ _ _ _ _ Hres). split; [by exists L'|by eapply rinv_meta].
Qed.

Lemma wp_putLocked r m now tnow c (Q : bool * option error -> cache -> Prop) : cacheOK c -> c_mstore c !! r = Some m ->
  (forall res c1 c2 m1, cacheOK c1 -> swept now c c1 -> c_mstore c1 !! r = Some m1 -> mview m1 = mview m ->
     cacheOK c2 -> insertResult r m1 c1 res c2 -> Q res c2) -> wp (putLocked r now tnow) c Q.
Proof.
  intros K Hm HQ. unfold putLocked. wp_step. apply wp_expireLocked; [done|]. intros c1 K1 S1.
  destruct (agree_lookup _ _ _ _ _ (sw_view _ _ _ S1) Hm) as (m1 & Hm1 & E1). eapply wp_insert; [exact K1|exact Hm1|].
  intros res c2 K2 Hres. by eapply (HQ res c1 c2 m1).
Qed.

(** A batch of messages, in order; the pointers stay live. *)
Lemma wp_insertBatch rs tnow c (Q : list bool -> cache -> Prop) : cacheOK c -> (forall r, r ∈ rs -> is_Some (c_mstore c !! r)) ->
  (forall bs c', cacheOK c' -> length bs = length rs -> agree mview (c_mstore c) (c_mstore c') -> meta c' = meta c -> Q bs c') ->
  wp (insertBatchLocked rs tnow) c Q.
Proof.
  unfold insertBatchLocked. revert c Q. induction rs as [|r rs IH]; intros c Q K Hl HQ; cbn [gmap_list]; [by apply wp_ret, HQ|].
  destruct (Hl r) as [m Hm]; [left|]. wp_step. wp_step. eapply wp_insert; [done|exact Hm|]. intros res c1 K1 Hres.
  destruct (insertResult_frame _ _ _ _ _ Hres) as [V1 M1]. apply wp_ret. wp_step. apply IH; [done| |].
  - intros x Hx. destruct (Hl x) as [mx Hmx]; [by right|]. destruct (agree_lookup _ _ _ _ _ V1 Hmx) as (? & ? & _). eauto.
  - intros bs c2 K2 E2 V2 M2. apply wp_ret. apply HQ; [done|cbn; congruence|by etransitivity|congruence].
Qed.

Lemma cacheOK_memo c r m : cacheOK c -> c_mstore c !! r = Some m -> cacheOK (c <| c_mstore := <[r := memo m]> (c_mstore c) |>).
Proof.
  intros [[L I] R] Hm. destruct (cinv_memo _ _ _ _ I Hm) as [I1 [_ V _ _]]. split; [by exists L|by apply rinv_mstore].
Qed.

Lemma sizeAt_sizeOf c r m : c_mstore c !! r = Some m -> sizeAt (c_mstore c) r = sizeOf m.
Proof. unfold sizeAt. by intros ->. Qed.
