(* ===== verification/CacheSpec.v ===== *)
(** * The message cache: what it promises

    The properties of the cache's methods: insertion with eviction, expiry, the readers, and the
    memory bound over every sequence of operations. *)
From Stdlib Require Import Sorting.Sorted.
From S2P Require Import Prelude GoHeap Dll Types Cache CacheIndex CacheExpiry CacheInv CacheExpire.
#[local] Open Scope Z_scope.

(** ** The empty cache *)
Lemma cacheOK_new max : 0 <= max < 2 ^ 62 -> cacheOK (newCache max).
Proof.
  intros Hm. split; [exists (fun _ => [])|].
  - split; cbn; try done; try lia. split; cbn; [| |intros e He; by apply elem_of_nil in He].
    + split; cbn; [|intros at_ e; rewrite lookup_empty; split; [done|intros [He _]; by apply elem_of_nil in He]].
      split; [intros i r Hi; cbn in Hi; by rewrite lookup_nil in Hi|intros i Hi; cbn in Hi; lia].
    + split; cbn; try done; intros e; intros; match goal with H : _ ∈ [] |- _ => by apply elem_of_nil in H end.
  - by split.
Qed.

(** A message enters the store: a pointer that nothing holds yet. *)
Definition blank (m : Message) : Prop := unlinked m /\ m_accountedSize m = 0.

Lemma dll_subseteq st st' h t l : st ⊆ st' -> dll st h t l -> dll st' h t l.
Proof.
  intros Hs (D1 & D2 & D3 & D4). split_and!; try done. clear D1 D3 D4. revert D2. generalize (@None loc) at 1 3. intros p. revert p. induction l as [|x l IH]; intros p; cbn; [done|]. intros (m & Hm & E1 & E2 & Hd). exists m.
  split_and!; [by eapply lookup_weaken|done|done|by apply IH].
Qed.

Lemma alloc_ok c r m : cacheOK c -> c_mstore c !! r = None -> unlinked m -> cacheOK (c <| c_mstore := <[r := m]> (c_mstore c) |>).
Proof.
  intros [[L [HO HT [X1 X2 X3] Hb Hr Hm Hh Hbf]] R] Hn Hu. pose proof (insert_subseteq _ _ m Hn) as Hsub. split; [exists L|].
  - assert (Hid : forall id x, c_items c !! id = Some x -> x <> r).
    { intros id x Hx ->. destruct (ixo_item _ _ _ HO _ _ Hx) as (? & ? & _). congruence. }
    split; cbn; try done.
    + destruct HO as [H1 H2]. split.
      * intros id x Hx. destruct (H1 _ _ Hx) as (mx & ? & ?). exists mx. split; [by eapply lookup_weaken|done].
      * intros i x Hx. destruct (H2 _ _ Hx) as (mx & ? & ?). exists mx. split; [by eapply lookup_weaken|done].
    + destruct HT as [H1 H2 H3 H4]. split; [| |done..].
      * intros id x Hx. destruct (H1 _ _ Hx) as (mx & l & ? & ?). exists mx, l. split; [by eapply lookup_weaken|done].
      * intros t l i x Hl Hx. destruct (H2 _ _ _ _ Hl Hx) as (mx & ? & ?). exists mx. split; [by eapply lookup_weaken|done].
    + split; cbn; [exact X1| |done]. destruct X2 as [H1 H2 H3 H4 H5]. split.
      * intros e He. destruct (H1 _ He) as (i & ? & ? & ?). exists i. split_and!; [done|by eapply dll_subseteq|done].
      * intros e x He Hx. destruct (H2 _ _ He Hx) as (mx & i & ? & ?). exists mx, i. split; [by eapply lookup_weaken|done].
      * intros id x Hx. destruct (H3 _ _ Hx) as [|(mx & e & ? & ?)]; [by left|right]. exists mx, e. split; [by eapply lookup_weaken|done].
      * intros x mx e Hx. by apply elem_of_nil in Hx.
      * intros x mx. rewrite lookup_insert_Some. intros [[<- <-]|[_ Hx]]; [done|]. by apply H5.
    + rewrite Hb. apply msum_ext. intros id x Hx. unfold sizeAt. rewrite lookup_insert_ne; [done|]. by apply not_eq_sym, (Hid id).
  - destruct R as [H1 H2 H3]. split; cbn; [| |done].
    + intros o s x Hx. destruct (H1 _ _ _ Hx) as (mx & ? & ?). exists mx. split; [by eapply lookup_weaken|done].
    + rewrite H2. apply msum_ext. intros o g Hg. apply msum_ext. intros s x Hx. unfold sizeAt. rewrite lookup_insert_ne; [done|]. intros ->.
      destruct (H1 o s x) as (? & ? & _); [unfold buffered; rewrite Hg; exact Hx|]. congruence.
Qed.

(** ** Reading *)

(** The messages of a topic that pass a test, with their pointers. *)
Definition selected (c : cache) (topic : string) (p : Message -> bool) (l : list (loc * Message)) : Prop :=
  NoDup l.*1 /\ forall r m, (r, m) ∈ l <->
    c_mstore c !! r = Some m /\ c_items c !! m_ID m = Some r /\ m_Topic m = topic /\ p m = true.

(** The live slots whose message passes the test. *)
Definition passing (st : gmap loc Message) (p : Message -> bool) (l : list loc) : list loc :=
  omap (fun r => m ← st !! r; if p m : bool then Some r else None) l.

Lemma passing_sublist st p l : passing st p l `sublist_of` l.
Proof.
  induction l as [|r l IH]; [done|]. cbn. destruct (m ← st !! r; if p m then Some r else None) as [x|] eqn:E; [|by constructor].
  destruct (st !! r) as [m|]; [|done]. cbn in E. destruct (p m); [|done]. injection E as <-. by constructor.
Qed.

Lemma elem_of_passing st p l r : r ∈ passing st p l <-> r ∈ l /\ exists m, st !! r = Some m /\ p m = true.
Proof.
  unfold passing. rewrite list_elem_of_omap. split.
  - intros (x & Hx & E). destruct (st !! x) as [m|] eqn:Hm; [|done]. cbn in E. destruct (p m) eqn:Ep; [|done]. injection E as <-. eauto.
  - intros (Hr & m & Hm & Ep). exists r. rewrite Hm. cbn. by rewrite Ep.
Qed.

Lemma wp_filterLive c p l (Q : list (option loc) -> cache -> Prop) : (forall r, r ∈ live l -> is_Some (c_mstore c !! r)) ->
  (forall l', omap id l' = passing (c_mstore c) p (live l) -> Q l' c) ->
  wp (gfilter (fun o : option loc => match o with None => gret false | Some r => m <- cderef r ;; gret (p m) end) l) c Q.
Proof.
  revert Q. induction l as [|[r|] l IH]; intros Q Hl HQ; cbn [gfilter].
  - by apply wp_ret, HQ.
  - destruct (Hl r) as [m Hm]; [left|]. wp_step. wp_step. eapply wp_cderef; [exact Hm|]. apply wp_ret. wp_step.
    apply IH; [intros x Hx; apply Hl; by right|]. intros l' E. apply wp_ret. apply HQ. cbn. rewrite Hm. cbn.
    destruct (p m) eqn:Ep; cbn; [by f_equal|done].
  - wp_step. apply wp_ret. wp_step. apply IH; [done|]. intros l' E. by apply wp_ret, HQ.
Qed.

Lemma wp_derefAll c (l : list loc) (Q : list (loc * Message) -> cache -> Prop) :
  (forall r, r ∈ l -> is_Some (c_mstore c !! r)) ->
  (forall out, out.*1 = l -> (forall r m, (r, m) ∈ out -> c_mstore c !! r = Some m) -> Q out c) ->
  wp (gmap_list (fun r => m <- cderef r ;; gret (r, m)) l) c Q.
Proof.
  revert Q. induction l as [|r l IH]; intros Q Hl HQ; cbn [gmap_list].
  - apply wp_ret, HQ; [done|]. intros r m Hx. by apply elem_of_nil in Hx.
  - destruct (Hl r) as [m Hm]; [left|]. wp_step. wp_step. eapply wp_cderef; [exact Hm|]. apply wp_ret. wp_step.
    apply IH; [intros x Hx; apply Hl; by right|]. intros out E Hout. apply wp_ret, HQ; [cbn; by f_equal|].
    intros x mx [[= -> ->]|Hx]%elem_of_cons; [done|by apply Hout].
Qed.

Lemma wp_topicFilter c topic p (Q : list (loc * Message) -> cache -> Prop) : cacheOK c ->
  (forall l, selected c topic p l -> Q l c) -> wp (topicFilter topic p) c Q.
Proof.
  intros [[L I] _] HQ. unfold topicFilter. wp_step. apply wp_get. set (idx := default [] (c_topics c !! topic)).
  assert (Hslot : forall i r, idx !! i = Some (Some r) -> exists m, c_mstore c !! r = Some m /\ c_items c !! m_ID m = Some r /\
    m_Topic m = topic /\ m_topicIndex m = Z.of_nat i).
  { intros i r Hi. unfold idx in Hi. destruct (c_topics c !! topic) as [l|] eqn:El; [|by destruct i].
    by apply (ixt_slot _ _ _ _ (ci_topics _ _ _ I) _ _ _ _ El). }
  assert (Hlive : forall r, r ∈ live idx -> exists m, c_mstore c !! r = Some m /\ c_items c !! m_ID m = Some r /\ m_Topic m = topic).
  { intros r [i Hi]%elem_of_live. destruct (Hslot _ _ Hi) as (m & ? & ? & ? & _). eauto. }
  assert (Hnd : NoDup (live idx)).
  { apply live_nodup. intros i j x Hx Hy. destruct (Hslot _ _ Hx) as (m & ? & _ & _ & ?), (Hslot _ _ Hy) as (m' & ? & _ & _ & ?). assert (m' = m) by congruence. subst m'. lia. }
  assert (Hst : forall r, r ∈ live idx -> is_Some (c_mstore c !! r)) by (intros r Hr; destruct (Hlive _ Hr) as (m & ? & _); eauto).
  wp_step. apply wp_filterLive; [exact Hst|]. intros l' El'. rewrite El'.
  apply wp_derefAll; [intros r [Hr _]%elem_of_passing; by apply Hst|]. intros out Eout Hout. apply HQ. split.
  - rewrite Eout. eapply sublist_NoDup; [exact Hnd|apply passing_sublist].
  - intros r m. split.
    + intros Hin. pose proof (Hout _ _ Hin) as Hm. assert (Hr : r ∈ out.*1) by (apply list_elem_of_fmap; by exists (r, m)).
      rewrite Eout in Hr. apply elem_of_passing in Hr as (Hr & m' & Hm' & Ep). destruct (Hlive _ Hr) as (m2 & ? & ? & ?).
      assert (m' = m) as -> by congruence. assert (m2 = m) as -> by congruence. done.
    + intros (Hm & Hid & Ht & Ep). destruct (ixt_item _ _ _ _ (ci_topics _ _ _ I) _ _ Hid) as (m' & l & Hm' & _ & Hl & _ & Hi).
      assert (m' = m) as -> by congruence. rewrite Ht in Hl. assert (Hr : r ∈ out.*1).
      { rewrite Eout. apply elem_of_passing. split; [|eauto]. apply elem_of_live. exists (Z.to_nat (m_topicIndex m)). unfold idx. by rewrite Hl. }
      apply list_elem_of_fmap in Hr as ([r' m'] & -> & Hin). pose proof (Hout _ _ Hin). cbn in *. congruence.
Qed.

(** *** Order *)
Section Sorted.
Context {A : Type} (key : A -> Z) (less : A -> A -> bool) (Hless : forall a b, less a b = bool_decide (key a < key b)).

Lemma insert_stable_sorted x l : StronglySorted Z.le (key <$> l) -> StronglySorted Z.le (key <$> insert_stable less x l).
Proof.
  induction l as [|y l IH]; cbn; intros Hs; [repeat constructor|]. inversion Hs as [|? ? Hs' Hy]; subst. rewrite Hless.
  destruct (bool_decide_reflect (key x < key y)) as [Hlt|Hge]; cbn.
  - constructor; [done|]. constructor; [lia|]. eapply Forall_impl; [exact Hy|]. intros z Hz. cbn in Hz. lia.
  - constructor; [by apply IH|]. rewrite (insert_stable_perm less x l). constructor; [lia|done].
Qed.

Lemma stable_sort_sorted l : StronglySorted Z.le (key <$> stable_sort less l).
Proof.
  unfold stable_sort. assert (H : StronglySorted Z.le (key <$> @nil A)) by constructor. revert H. generalize (@nil A).
  induction l as [|x l IH]; intros acc H; cbn; [done|]. by apply IH, insert_stable_sorted.
Qed.
End Sorted.

(** The pointers of [l] are the cached messages of the topic that pass the test, each once. *)
Definition reads (c : cache) (topic : string) (p : Message -> Prop) (l : list loc) : Prop :=
  NoDup l /\ forall r, r ∈ l <-> exists m, c_mstore c !! r = Some m /\ c_items c !! m_ID m = Some r /\ m_Topic m = topic /\ p m.

Lemma selected_reads c topic (p : Message -> bool) (P : Message -> Prop) l out : (forall m, m_Topic m = topic -> p m = true <-> P m) ->
  selected c topic p l -> out ≡ₚ l.*1 -> reads c topic P out.
Proof.
  intros HP [Hnd Hin] Ep. split; [by rewrite Ep|]. intros r. rewrite Ep, list_elem_of_fmap. split.
  - intros ([r' m] & -> & H). apply Hin in H as (? & ? & Ht & Hp). exists m. split_and!; [done..|]. by apply HP.
  - intros (m & ? & ? & Ht & Hp). exists (r, m). split; [done|]. apply Hin. split_and!; [done..|]. by apply HP.
Qed.

(** The creation instants of a list of pointers. *)
Definition createdAt (c : cache) (l : list loc) : list Z := (fun r => from_option m_CreatedAt 0 (c_mstore c !! r)) <$> l.

Lemma createdAt_sorted c topic p l : selected c topic p l -> StronglySorted Z.le (createdAt c (stable_sort byCreatedAt l).*1).
Proof.
  intros [_ Hin]. unfold createdAt. rewrite <- list_fmap_compose.
  assert (E : ((fun r => from_option m_CreatedAt 0 (c_mstore c !! r)) ∘ fst) <$> stable_sort byCreatedAt l = (fun q : loc * Message => m_CreatedAt q.2) <$> stable_sort byCreatedAt l).
  { apply list_fmap_ext. intros i [r m] Hi. assert (H : (r, m) ∈ stable_sort byCreatedAt l) by by eapply list_elem_of_lookup_2.
    rewrite stable_sort_perm in H. apply Hin in H as (Hm & _). cbn. by rewrite Hm. }
  rewrite E. by apply stable_sort_sorted.
Qed.

(** ** Pages *)

(** The bytes of a list of messages. *)
Definition sizesOf (st : gmap loc Message) (l : list loc) : Z := zsum (sizeAt st <$> l).

Lemma sizesOf_view st st' l : agree mview st st' -> sizesOf st' l = sizesOf st l.
Proof. intros Ha. unfold sizesOf. f_equal. apply list_fmap_ext. intros i r _. by apply sizeAt_view. Qed.

Lemma wp_size c r m (Q : Z -> cache -> Prop) : cacheOK c -> c_mstore c !! r = Some m ->
  (forall c', cacheOK c' -> quiet c c' -> c_order c' = c_order c -> agree viewM (c_mstore c) (c_mstore c') -> Q (sizeOf m) c') -> wp (messageSize r) c Q.
Proof.
  intros K Hm HQ. eapply wp_messageSize; [exact Hm|]. pose proof K as [[L I] _]. destruct (cinv_memo _ _ _ _ I Hm) as [_ Hq].
  apply HQ; [by apply cacheOK_memo|exact Hq|done|by apply memo_agree].
Qed.

(** The ID that a page ends on. *)
Definition lastID (st : gmap loc Message) (next : string) (l : list loc) : string :=
  match last l with Some r => from_option m_ID next (st !! r) | None => next end.

(** What a page makes of the messages [l] that are left: as many as the limits allow. *)
Definition pageResult (st : gmap loc Message) (maxBytes : Z) (next0 : string) (l : list loc) (res : list loc * string * bool) : Prop :=
  let '(out, next, ok) := res in
  if ok : bool then exists rest, l = out ++ rest /\ sizesOf st out <= maxBytes /\ llen out <= maxBatchMessages /\ next = lastID st next0 out /\
    (forall r, head rest = Some r -> llen out = maxBatchMessages \/ maxBytes < sizesOf st out + sizeAt st r) /\ (out = [] -> rest = [])
  else out = [] /\ next = "" /\ exists r, head l = Some r /\ maxBytes < sizeAt st r.

Lemma pageResult_view st st' maxBytes next0 l res : agree mview st st' -> pageResult st' maxBytes next0 l res -> pageResult st maxBytes next0 l res.
Proof.
  intros Ha. destruct res as [[out next] ok]. unfold pageResult. destruct ok.
  - intros (rest & -> & H1 & H2 & -> & H3 & H4). exists rest. rewrite (sizesOf_view _ _ _ Ha) in H1, H3. split_and!; [done..| | |done].
    + unfold lastID. destruct (last out) as [r|]; [|done]. specialize (Ha r). destruct (st !! r), (st' !! r); try done. cbn in *. congruence.
    + intros r Hr. rewrite <- (sizeAt_view _ _ _ Ha). by apply H3.
  - intros (-> & -> & r & Hr & Hs). split_and!; [done..|]. exists r. by rewrite <- (sizeAt_view _ _ _ Ha).
Qed.

Lemma quiet_trans c1 c2 c3 : quiet c1 c2 -> quiet c2 c3 -> quiet c1 c3.
Proof. intros [A1 A2 A3 A4 A5] [B1 B2 B3 B4 B5]. split; [congruence|by etransitivity|congruence..]. Qed.

(** A cached message fits what counters can add up. *)
Lemma cached_size c id r m : cacheOK c -> c_items c !! id = Some r -> c_mstore c !! r = Some m -> 0 < sizeOf m < 2 ^ 62.
Proof.
  intros [[L I] _] Hr Hm. split; [apply sizeOf_pos|]. pose proof (ci_max _ _ _ I). pose proof (ci_room _ _ _ I). rewrite (ci_bytes _ _ _ I) in *.
  pose proof (msum_le_elem (fun _ r => sizeAt (c_mstore c) r) (c_items c) id r) as Hle. cbn in Hle. rewrite (sizeAt_sizeOf _ _ _ Hm) in Hle.
  specialize (Hle ltac:(intros; apply sizeAt_nonneg) Hr). lia.
Qed.

Lemma wp_pageLoop l maxBytes : 0 <= maxBytes < 2 ^ 62 -> forall out bytes next c (Q : list loc * string * bool -> cache -> Prop), cacheOK c ->
  (forall r, r ∈ live l -> exists m, c_mstore c !! r = Some m /\ c_items c !! m_ID m = Some r) ->
  bytes = sizesOf (c_mstore c) out -> 0 <= bytes <= maxBytes -> llen out <= maxBatchMessages ->
  (forall res c', cacheOK c' -> quiet c c' -> c_order c' = c_order c ->
     (let '(out', next', ok) := res in
      if ok : bool then exists mid rest, out' = out ++ mid /\ live l = mid ++ rest /\ sizesOf (c_mstore c) out' <= maxBytes /\
        llen out' <= maxBatchMessages /\ next' = lastID (c_mstore c) next mid /\
        (forall r, head rest = Some r -> llen out' = maxBatchMessages \/ maxBytes < sizesOf (c_mstore c) out' + sizeAt (c_mstore c) r) /\ (out' = [] -> rest = [])
      else out = [] /\ out' = [] /\ next' = "" /\ exists r, head (live l) = Some r /\ maxBytes < sizeAt (c_mstore c) r) -> Q res c') ->
  wp (pageLoop l maxBytes out bytes next) c Q.
Proof.
  intros Hmax. induction l as [|o l IH]; intros out bytes next c Q K Hl Hb Hbm Hlen HQ; cbn [pageLoop].
  { apply wp_ret. apply HQ; [done|by split|done|]. exists [], []. rewrite app_nil_r. subst bytes. split_and!; [done..|lia|lia|done|done|done]. }
  destruct (bool_decide_reflect (llen out < maxBatchMessages)) as [Hroom|Hfull].
  2: { apply wp_ret. apply HQ; [done|by split|done|]. exists [], (live (o :: l)). rewrite app_nil_r. subst bytes. split_and!; [done..|lia|lia|done|intros; left; lia|]. intros ->. by exfalso. }
  destruct o as [r|]; [|by apply IH].
  destruct (Hl r) as (m & Hm & Hid); [left|]. wp_step. eapply wp_size; [done|exact Hm|]. intros c1 K1 Hq1 Eo1 Ha1.
  pose proof (cached_size _ _ _ _ K Hid Hm) as Hsz. pose proof (sizeAt_sizeOf _ _ _ Hm) as Es.
  assert (Ei : i64 (bytes + sizeOf m) = bytes + sizeOf m).
  { apply i64_id. unfold in_i64. change (2 ^ 62) with 4611686018427387904 in *. lia. }
  rewrite Ei. destruct (bool_decide_reflect (maxBytes < bytes + sizeOf m)) as [Hover|Hfit].
  { destruct (bool_decide_reflect (llen out = 0)) as [H0|H0].
    - assert (out = []) as -> by (destruct out; [done|rewrite llen_cons in H0; pose proof (llen_nonneg out); lia]).
      apply wp_ret. apply HQ; [done..|]. split_and!; [done..|]. exists r. split; [done|]. rewrite Es. subst bytes. exact Hover.
    - apply wp_ret. apply HQ; [done..|]. exists [], (live (Some r :: l)). rewrite app_nil_r. subst bytes. split_and!; [done..|lia|lia|done| |by intros ->].
      intros x [= <-]. right. rewrite Es. done. }
  pose proof (qt_view _ _ Hq1) as V1. destruct (agree_lookup _ _ _ _ _ V1 Hm) as (m1 & Hm1 & E1).
  wp_step. eapply wp_cderef; [exact Hm1|]. apply IH; [done| | |lia| |].
  - intros x Hx. destruct (Hl x) as (mx & Hmx & Hidx); [by right|]. destruct (agree_lookup _ _ _ _ _ V1 Hmx) as (mx1 & Hmx1 & Ex).
    exists mx1. split; [done|]. rewrite (qt_items _ _ Hq1). by replace (m_ID mx1) with (m_ID mx) by congruence.
  - rewrite (sizesOf_view _ _ _ V1). unfold sizesOf. rewrite fmap_app, zsum_app. cbn. rewrite zsum_cons. change (zsum []) with 0. rewrite Es.
    subst bytes. unfold sizesOf. lia.
  - unfold llen in *. rewrite length_app. cbn. unfold maxBatchMessages in *. lia.
  - intros res c2 K2 Hq2 Eo2 Hres. apply HQ; [done|by eapply quiet_trans|congruence|]. destruct res as [[out' next'] ok]. destruct ok.
    + destruct Hres as (mid & rest & -> & El & Hs & Hn & -> & Hmaxl & Hempty). exists (r :: mid), rest. rewrite (sizesOf_view _ _ _ V1) in Hs, Hmaxl.
      cbn. rewrite <- (app_assoc out [r] mid) in *. cbn [app] in *. split_and!; [done|by f_equal|done|done| | |exact Hempty].
      * unfold lastID. destruct mid as [|y mid] using rev_ind; [cbn; rewrite Hm; cbn; congruence|].
        clear IHmid. rewrite app_comm_cons, !last_snoc. destruct (Hl y) as (my & Hmy & _).
        { change (y ∈ r :: live l). right. rewrite El. rewrite !elem_of_app. left. right. left. }
        destruct (agree_lookup _ _ _ _ _ V1 Hmy) as (my' & Hmy' & Ey). rewrite Hmy, Hmy'. cbn. congruence.
      * intros x Hx. rewrite <- (sizeAt_view _ _ _ V1). by apply Hmaxl.
    + destruct Hres as (E & _). by destruct out.
Qed.

(** The search for the cursor of a page. *)
Lemma wp_findAfter c after l i (Q : option nat -> cache -> Prop) :
  (forall r, r ∈ live l -> exists m, c_mstore c !! r = Some m) ->
  (forall o, match o with
    | Some k => exists r m j, k = S (i + j) /\ l !! j = Some (Some r) /\ c_mstore c !! r = Some m /\ m_ID m = after
    | None => forall r m, r ∈ live l -> c_mstore c !! r = Some m -> m_ID m <> after
    end -> Q o c) ->
  wp (findAfter after i l) c Q.
Proof.
  revert i Q. induction l as [|[r|] l IH]; intros i Q Hl HQ; cbn [findAfter].
  - apply wp_ret, HQ. intros r m Hr. by apply elem_of_nil in Hr.
  - destruct (Hl r) as [m Hm]; [left|]. wp_step. eapply wp_cderef; [exact Hm|].
    destruct (bool_decide_reflect (m_ID m = after)) as [E|E].
    + apply wp_ret, HQ. exists r, m, 0%nat. split_and!; [lia|done..].
    + apply IH; [intros x Hx; apply Hl; by right|]. intros [k|] Ho; apply HQ.
      * destruct Ho as (x & mx & j & -> & Hj & ?). exists x, mx, (S j). split_and!; [lia|done|tauto..].
      * intros x mx [->|Hx]%elem_of_cons Hmx; [congruence|by eapply Ho].
  - apply IH; [done|]. intros [k|] Ho; apply HQ; [|done]. destruct Ho as (x & mx & j & -> & Hj & ?). exists x, mx, (S j).
    split_and!; [lia|done|tauto..].
Qed.

Lemma live_app (l k : list (option loc)) : live (l ++ k) = live l ++ live k.
Proof. unfold live. by rewrite omap_app. Qed.

Lemma live_absent (l : list (option loc)) : (forall i r, l !! i <> Some (Some r)) -> live l = [].
Proof.
  intros Hl. destruct (live l) as [|r k] eqn:E; [done|]. assert (H : r ∈ live l) by (rewrite E; left). apply elem_of_live in H as [i Hi]. by destruct (Hl i r).
Qed.

(** Everything cached, oldest first. *)
Definition cached (c : cache) : list loc := live (c_order c).

Lemma cached_spec c : cacheOK c -> NoDup (cached c) /\ forall r, r ∈ cached c <-> exists m, c_mstore c !! r = Some m /\ c_items c !! m_ID m = Some r.
Proof.
  intros [[L I] _]. pose proof (ci_order _ _ _ I) as HO. split; [by eapply IXO_nodup|]. intros r. unfold cached. rewrite elem_of_live. split.
  - intros [i Hi]. destruct (ixo_slot _ _ _ HO _ _ Hi) as (m & ? & ? & _). eauto.
  - intros (m & Hm & Hid). destruct (ixo_item _ _ _ HO _ _ Hid) as (m' & _ & _ & _ & Hi). eauto.
Qed.

Lemma cached_head c : cacheOK c -> live (drop (c_orderHead c) (c_order c)) = cached c.
Proof.
  intros [[L I] _]. unfold cached. rewrite <- (take_drop (c_orderHead c) (c_order c)) at 2. rewrite live_app.
  rewrite (live_absent (take _ _)); [done|]. intros i r Hi. assert (i < c_orderHead c)%nat by (apply lookup_lt_Some in Hi; rewrite length_take in Hi; lia).
  rewrite lookup_take_lt in Hi by done. pose proof (ci_before _ _ _ I _ _ Hi). lia.
Qed.

Lemma swept_quiet now c c1 c2 : swept now c c1 -> quiet c1 c2 -> swept now c c2.
Proof.
  intros [S1 S2 S3 S4 S5] [Q1 Q2 Q3 Q4 Q5]. split.
  - by setoid_rewrite Q1.
  - by etransitivity.
  - lia.
  - rewrite <- S4. by apply meta_limits.
  - destruct (decide _); [by eapply forgot_meta|destruct S5; split; congruence].
Qed.

(** What follows a cursor. *)
Definition following (c : cache) (after : string) (l : list loc) : Prop :=
  if decide (after = "") then l = cached c else exists r l1, c_items c !! after = Some r /\ cached c = l1 ++ r :: l.

Lemma wp_page after maxBytes tnow c (Q : list loc * string * bool -> cache -> Prop) : cacheOK c -> 0 <= maxBytes < 2 ^ 62 ->
  (forall res c', cacheOK c' -> swept tnow c c' ->
     (if decide (after <> "" /\ c_items c' !! after = None) then res = ([], "", false)
      else exists l, following c' after l /\ pageResult (c_mstore c') maxBytes after l res) -> Q res c') ->
  wp (page after maxBytes tnow) c Q.
Proof.
  intros K Hmax HQ. unfold page. wp_step. apply wp_expireLocked; [done|]. intros c1 K1 S1. wp_step. apply wp_get.
  destruct (cached_spec c1 K1) as [Hnd Hin]. pose proof (cached_head c1 K1) as Eh.
  assert (Hloop : forall start l, live (drop start (c_order c1)) = l -> l `suffix_of` cached c1 ->
    (forall c', cacheOK c' -> quiet c1 c' -> c_order c' = c_order c1 -> following c' after l /\ ~ (after <> "" /\ c_items c' !! after = None)) ->
    wp (pageLoop (drop start (c_order c1)) maxBytes [] 0 after) c1 Q).
  { intros start l El [l0 Hsuf] Hfol. apply wp_pageLoop; [done|done| |done|lia|done|].
    - intros r Hr. apply Hin. rewrite Hsuf. apply elem_of_app. right. by rewrite <- El.
    - intros res c2 K2 Hq2 Eo2 Hres. destruct (Hfol c2 K2 Hq2 Eo2) as [Hf Hn]. apply HQ; [done|by eapply swept_quiet|].
      rewrite decide_False by done. exists l. split; [done|]. eapply pageResult_view; [symmetry; apply Hq2|].
      destruct res as [[out next] ok]. destruct ok; cbn in Hres |- *.
      + destruct Hres as (mid & rest & -> & E & H). exists rest. rewrite <- El, E. tauto.
      + destruct Hres as (_ & -> & -> & H). by rewrite <- El. }
  wp_step. destruct (bool_decide_reflect (after <> "")) as [Ha|Ha].
  - apply wp_findAfter.
    { intros r Hr. rewrite Eh in Hr. apply Hin in Hr as (m & Hm & _). eauto. }
    intros [k|] Hk.
    + destruct Hk as (r & m & j & -> & Hj & Hm & Eid). rewrite lookup_drop in Hj.
      assert (Esplit : c_order c1 = take (c_orderHead c1 + j) (c_order c1) ++ Some r :: drop (S (c_orderHead c1 + j)) (c_order c1)).
      { symmetry. by apply take_drop_middle. }
      assert (Ec : cached c1 = live (take (c_orderHead c1 + j) (c_order c1)) ++ r :: live (drop (S (c_orderHead c1 + j)) (c_order c1))).
      { unfold cached. rewrite Esplit at 1. by rewrite live_app. }
      assert (Hid : c_items c1 !! after = Some r).
      { assert (Hr : r ∈ cached c1) by (rewrite Ec; apply elem_of_app; right; left). apply Hin in Hr as (m' & Hm' & Hid'). congruence. }
      eapply Hloop; [done|rewrite Ec; by exists (live (take (c_orderHead c1 + j) (c_order c1)) ++ [r]); rewrite <- app_assoc|].
      intros c2 K2 Hq2 Eo2. split; [|intros [_ Hn]; rewrite (qt_items _ _ Hq2) in Hn; congruence]. unfold following. rewrite decide_False by done.
      eexists r, _. split; [by rewrite (qt_items _ _ Hq2)|]. unfold cached in *. by rewrite Eo2.
    + apply wp_ret. apply HQ; [done|done|]. rewrite decide_True; [done|]. split; [done|].
      destruct (c_items c1 !! after) as [r|] eqn:Er; [|done]. exfalso. pose proof K1 as [[L1 I1] _]. destruct (ci_item _ _ _ _ _ I1 Er) as (m & Hm & E).
      eapply (Hk r m); [|done|done]. rewrite Eh. apply Hin. exists m. by rewrite E.
  - apply dec_stable in Ha. apply wp_ret. eapply Hloop; [exact Eh|by exists []|]. intros c2 K2 Hq2 Eo2. split; [|tauto].
    unfold following. rewrite decide_True by done. unfold cached. by rewrite Eo2.
Qed.

(** *** Pages for repair *)
Definition newer (st : gmap loc Message) (after : Z) (l : list loc) : list loc :=
  passing st (fun m => bool_decide (after < m_repairOrdinal m)) l.

Definition lastOrdinal (st : gmap loc Message) (next : Z) (l : list loc) : Z :=
  match last l with Some r => from_option m_repairOrdinal next (st !! r) | None => next end.

Definition repairResult (st : gmap loc Message) (maxBytes after : Z) (l : list loc) (res : list loc * Z * bool) : Prop :=
  let '(out, next, ok) := res in
  if ok : bool then exists rest, l = out ++ rest /\ sizesOf st out <= maxBytes /\ llen out <= maxBatchMessages /\ next = lastOrdinal st after out /\
    (forall r, head rest = Some r -> llen out = maxBatchMessages \/ maxBytes < sizesOf st out + sizeAt st r) /\ (out = [] -> rest = [])
  else out = [] /\ next = after /\ exists r, head l = Some r /\ maxBytes < sizeAt st r.

Lemma newer_view st st' after l : agree viewM st st' -> newer st' after l = newer st after l.
Proof.
  intros Ha. unfold newer, passing. apply list_omap_ext, Forall2_same_length_lookup_2; [done|]. intros i x y Hx Hy. assert (y = x) as -> by congruence.
  specialize (Ha x). destruct (st !! x) as [m|], (st' !! x) as [m'|]; try done. cbn in *. assert (m_repairOrdinal m' = m_repairOrdinal m) as -> by congruence. done.
Qed.

Lemma repairResult_view st st' maxBytes after l res : agree viewM st st' -> repairResult st' maxBytes after l res -> repairResult st maxBytes after l res.
Proof.
  intros Ha. pose proof (viewM_view _ _ Ha) as Hv. destruct res as [[out next] ok]. unfold repairResult. destruct ok.
  - intros (rest & -> & H1 & H2 & -> & H3 & H4). exists rest. rewrite (sizesOf_view _ _ _ Hv) in H1, H3. split_and!; [done..| | |done].
    + unfold lastOrdinal. destruct (last out) as [r|]; [|done]. specialize (Ha r). destruct (st !! r), (st' !! r); try done. cbn in *. congruence.
    + intros r Hr. rewrite <- (sizeAt_view _ _ _ Hv). by apply H3.
  - intros (-> & -> & r & Hr & Hs). split_and!; [done..|]. exists r. by rewrite <- (sizeAt_view _ _ _ Hv).
Qed.

Lemma wp_repairLoop l after maxBytes : 0 <= maxBytes < 2 ^ 62 -> forall out bytes next c (Q : list loc * Z * bool -> cache -> Prop), cacheOK c ->
  (forall r, r ∈ live l -> exists m, c_mstore c !! r = Some m /\ c_items c !! m_ID m = Some r) ->
  bytes = sizesOf (c_mstore c) out -> 0 <= bytes <= maxBytes -> llen out < maxBatchMessages ->
  (forall res c', cacheOK c' -> quiet c c' -> c_order c' = c_order c -> agree viewM (c_mstore c) (c_mstore c') ->
     (let '(out', next', ok) := res in
      let l := newer (c_mstore c) after (live l) in
      if ok : bool then exists mid rest, out' = out ++ mid /\ l = mid ++ rest /\ sizesOf (c_mstore c) out' <= maxBytes /\
        llen out' <= maxBatchMessages /\ next' = lastOrdinal (c_mstore c) next mid /\
        (forall r, head rest = Some r -> llen out' = maxBatchMessages \/ maxBytes < sizesOf (c_mstore c) out' + sizeAt (c_mstore c) r) /\
        (out' = [] -> rest = [])
      else out = [] /\ out' = [] /\ next' = after /\ exists r, head l = Some r /\ maxBytes < sizeAt (c_mstore c) r) -> Q res c') ->
  wp (repairLoop l after maxBytes out bytes next) c Q.
Proof.
  intros Hmax. induction l as [|o l IH]; intros out bytes next c Q K Hl Hb Hbm Hlen HQ; cbn [repairLoop].
  { apply wp_ret. apply HQ; [done|by split|done|done|]. exists [], []. rewrite app_nil_r. subst bytes. split_and!; [done..|lia|lia|done|done|done]. }
  destruct o as [r|]; [|by apply IH].
  destruct (Hl r) as (m & Hm & Hid); [left|]. wp_step. eapply wp_cderef; [exact Hm|].
  assert (El0 : forall l0, newer (c_mstore c) after (r :: l0) = if bool_decide (after < m_repairOrdinal m) then r :: newer (c_mstore c) after l0 else newer (c_mstore c) after l0).
  { intros l0. unfold newer, passing. cbn. rewrite Hm. cbn. by destruct (bool_decide _). }
  change (live (Some r :: l)) with (r :: live l) in HQ. rewrite El0 in HQ.
  destruct (bool_decide_reflect (m_repairOrdinal m <= after)) as [Hold|Hnew].
  { rewrite bool_decide_false in HQ by lia. apply IH; [done|intros x Hx; apply Hl; by right|done..]. }
  rewrite bool_decide_true in HQ by lia.
  wp_step. eapply wp_size; [done|exact Hm|]. intros c1 K1 Hq1 Eo1 Ha1.
  pose proof (cached_size _ _ _ _ K Hid Hm) as Hsz. pose proof (sizeAt_sizeOf _ _ _ Hm) as Es.
  assert (Ei : i64 (bytes + sizeOf m) = bytes + sizeOf m).
  { apply i64_id. unfold in_i64. change (2 ^ 62) with 4611686018427387904 in *. lia. }
  rewrite Ei. destruct (bool_decide_reflect (maxBytes < bytes + sizeOf m)) as [Hover|Hfit].
  { destruct (bool_decide_reflect (llen out = 0)) as [H0|H0].
    - assert (out = []) as -> by (destruct out; [done|rewrite llen_cons in H0; pose proof (llen_nonneg out); lia]).
      apply wp_ret. apply HQ; [done..|]. split_and!; [done..|]. exists r. split; [done|]. rewrite Es. subst bytes. exact Hover.
    - apply wp_ret. apply HQ; [done..|]. exists [], (r :: newer (c_mstore c) after (live l)). rewrite app_nil_r. subst bytes.
      split_and!; [done..|lia|lia|done| |by intros ->]. intros x [= <-]. right. rewrite Es. done. }
  pose proof (qt_view _ _ Hq1) as V1. destruct (agree_lookup _ _ _ _ _ V1 Hm) as (m1 & Hm1 & E1).
  assert (Esz : sizesOf (c_mstore c) (out ++ [r]) = bytes + sizeOf m).
  { unfold sizesOf. rewrite fmap_app, zsum_app. cbn. rewrite zsum_cons. change (zsum []) with 0. rewrite Es. subst bytes. unfold sizesOf. lia. }
  assert (El1 : llen (out ++ [r]) = llen out + 1) by (unfold llen; rewrite length_app; cbn; lia).
  destruct (bool_decide_reflect (maxBatchMessages <= llen (out ++ [r]))) as [Hfull|Hroom].
  { apply wp_ret. apply HQ; [done..|]. exists [r], (newer (c_mstore c) after (live l)). rewrite Esz. split_and!; [done|done|lia|lia| | |].
    - unfold lastOrdinal. cbn. by rewrite Hm.
    - intros x Hx. left. lia.
    - intros E. exfalso. by destruct out. }
  apply IH; [done| | |lia|lia|].
  - intros x Hx. destruct (Hl x) as (mx & Hmx & Hidx); [by right|]. destruct (agree_lookup _ _ _ _ _ V1 Hmx) as (mx1 & Hmx1 & Ex).
    exists mx1. split; [done|]. rewrite (qt_items _ _ Hq1). by replace (m_ID mx1) with (m_ID mx) by congruence.
  - by rewrite (sizesOf_view _ _ _ V1).
  - intros res c2 K2 Hq2 Eo2 Ha2 Hres. apply HQ; [done|by eapply quiet_trans|congruence|by etransitivity|]. destruct res as [[out' next'] ok]. destruct ok.
    + destruct Hres as (mid & rest & -> & El & Hs & Hn & -> & Hmaxl & Hempty). rewrite (newer_view _ _ _ _ Ha1) in El. exists (r :: mid), rest. rewrite (sizesOf_view _ _ _ V1) in Hs, Hmaxl.
      cbn. rewrite <- (app_assoc out [r] mid) in *. cbn [app] in *. split_and!; [done|by f_equal|done|done| | |exact Hempty].
      * unfold lastOrdinal. destruct mid as [|y mid] using rev_ind; [cbn; by rewrite Hm|].
        clear IHmid. rewrite app_comm_cons, !last_snoc. assert (Hy : y ∈ newer (c_mstore c) after (live l)) by (rewrite El, !elem_of_app; left; right; left).
        apply elem_of_passing in Hy as (_ & my & Hmy & _). destruct (agree_lookup _ _ _ _ _ Ha1 Hmy) as (my' & Hmy' & Ey). rewrite Hmy, Hmy'. cbn. congruence.
      * intros x Hx. rewrite <- (sizeAt_view _ _ _ V1). by apply Hmaxl.
    + destruct Hres as (E & _). by destruct out.
Qed.

Lemma wp_repairPage after maxBytes tnow c (Q : list loc * Z * bool -> cache -> Prop) : cacheOK c -> 0 <= maxBytes < 2 ^ 62 ->
  (forall res c', cacheOK c' -> swept tnow c c' -> repairResult (c_mstore c') maxBytes after (newer (c_mstore c') after (cached c')) res -> Q res c') ->
  wp (repairPage after maxBytes tnow) c Q.
Proof.
  intros K Hmax HQ. unfold repairPage. wp_step. apply wp_expireLocked; [done|]. intros c1 K1 S1. wp_step. apply wp_get.
  destruct (cached_spec c1 K1) as [_ Hin]. apply wp_repairLoop; [done|done| |done|lia|done|].
  { intros r Hr. by apply Hin. }
  intros res c2 K2 Hq2 Eo2 Ha2 Hres. apply HQ; [done|by eapply swept_quiet|]. unfold cached. rewrite Eo2, (newer_view _ _ _ _ Ha2).
  eapply repairResult_view; [symmetry; exact Ha2|]. destruct res as [[out next] ok]. destruct ok; cbn in Hres |- *.
  - destruct Hres as (mid & rest & -> & E & H). exists rest. rewrite E. tauto.
  - destruct Hres as (_ & -> & -> & H). done.
Qed.

(** ** Batches *)
Lemma wp_checkBatch rs total c (Q : bool -> cache -> Prop) : cacheOK c -> (forall r, r ∈ rs -> is_Some (c_mstore c !! r)) ->
  0 <= total <= c_maxBytes c ->
  (forall c', cacheOK c' -> quiet c c' ->
     Q (bool_decide (total + sizesOf (c_mstore c) rs <= c_maxBytes c)) c') -> wp (checkBatch rs total) c Q.
Proof.
  revert total c Q. induction rs as [|r rs IH]; intros total c Q K Hl Ht HQ; cbn [checkBatch].
  { apply wp_ret. specialize (HQ c K ltac:(by split)). unfold sizesOf in HQ. cbn in HQ. change (zsum []) with 0 in HQ. by rewrite bool_decide_true in HQ by lia. }
  destruct (Hl r) as [m Hm]; [left|]. pose proof (sizeOf_pos m) as Hpos. assert (Es : forall st, agree mview (c_mstore c) st -> sizesOf st (r :: rs) = sizeOf m + sizesOf st rs).
  { intros st Ha. unfold sizesOf. cbn. rewrite zsum_cons, (sizeAt_view _ _ _ Ha). by rewrite (sizeAt_sizeOf _ _ _ Hm). }
  assert (Hnn : forall st, 0 <= sizesOf st rs) by (intros st; apply zsum_nonneg, Forall_fmap, Forall_forall; intros; apply sizeAt_nonneg).
  specialize (Hnn (c_mstore c)). rewrite (Es (c_mstore c)) in HQ by done.
  wp_step. eapply wp_size; [done|exact Hm|]. intros c1 K1 Hq1 _ _. wp_step. apply wp_get.
  assert (Emax : c_maxBytes c1 = c_maxBytes c) by (pose proof (qt_meta _ _ Hq1) as E; unfold meta in E; congruence). rewrite Emax.
  pose proof K as [[L I] _]. pose proof (ci_max _ _ _ I) as Hmax. change (2 ^ 62) with 4611686018427387904 in *.
  destruct (bool_decide_reflect (c_maxBytes c < sizeOf m)) as [Hbig|Hfit]; cbn [orb].
  { apply wp_ret. specialize (HQ c1 K1 Hq1). rewrite bool_decide_false in HQ by lia. exact HQ. }
  rewrite (i64_id (c_maxBytes c - sizeOf m)) by (unfold in_i64; lia).
  destruct (bool_decide_reflect (c_maxBytes c - sizeOf m < total)) as [Hover|Hroom].
  { apply wp_ret. specialize (HQ c1 K1 Hq1). rewrite bool_decide_false in HQ by lia. exact HQ. }
  rewrite i64_id by (unfold in_i64; lia). pose proof (qt_view _ _ Hq1) as V1. apply IH; [done| |lia|].
  - intros x Hx. destruct (Hl x) as [mx Hmx]; [by right|]. destruct (agree_lookup _ _ _ _ _ V1 Hmx) as (? & ? & _). eauto.
  - intros c2 K2 Hq2. specialize (HQ c2 K2 (quiet_trans _ _ _ Hq1 Hq2)). rewrite (sizesOf_view _ _ _ V1), Emax.
    replace (total + sizeOf m + sizesOf (c_mstore c) rs) with (total + (sizeOf m + sizesOf (c_mstore c) rs)) by lia. exact HQ.
Qed.

Lemma wp_putBatchLocked rs now tnow c (Q : list bool * option error -> cache -> Prop) : cacheOK c -> (forall r, r ∈ rs -> is_Some (c_mstore c !! r)) ->
  (forall bs e c', cacheOK c' -> agree mview (c_mstore c) (c_mstore c') -> limits c' = limits c -> Q (bs, e) c') -> wp (putBatchLocked rs now tnow) c Q.
Proof.
  intros K Hl HQ. unfold putBatchLocked. wp_step. apply wp_expireLocked; [done|]. intros c1 K1 S1.
  assert (Hl1 : forall c', agree mview (c_mstore c1) (c_mstore c') -> forall r, r ∈ rs -> is_Some (c_mstore c' !! r)).
  { intros c' Ha r Hr. destruct (Hl r Hr) as [m Hm]. destruct (agree_lookup _ _ _ _ _ (sw_view _ _ _ S1) Hm) as (m1 & Hm1 & _).
    destruct (agree_lookup _ _ _ _ _ Ha Hm1) as (? & ? & _). eauto. }
  pose proof K1 as [[L1 I1] _]. pose proof (ci_room _ _ _ I1). pose proof (cb_bytes_nonneg _ _ _ (cinv_base _ _ _ I1)).
  wp_step. apply wp_checkBatch; [done|by apply Hl1|lia|]. intros c2 K2 Hq2. destruct (bool_decide _).
  - wp_step. apply wp_insertBatch; [done|apply Hl1, Hq2|]. intros bs c3 K3 _ V3 M3. apply wp_ret. apply HQ; [done| |].
    + etransitivity; [apply S1|]. etransitivity; [apply Hq2|done].
    + rewrite <- (sw_limits _ _ _ S1). apply meta_limits. rewrite M3. apply Hq2.
  - apply wp_ret. apply HQ; [done| |].
    + etransitivity; [apply S1|apply Hq2].
    + rewrite <- (sw_limits _ _ _ S1). apply meta_limits. apply Hq2.
Qed.

(** ** Runs *)

(** A method that returned, or a message that a caller allocated. *)
Inductive cstep : cache -> cache -> Prop :=
| cs_alloc c r m : c_mstore c !! r = None -> unlinked m -> cstep c (c <| c_mstore := <[r := m]> (c_mstore c) |>)
| cs_put c r now tnow res c' : is_Some (c_mstore c !! r) -> putLocked r now tnow c = Some (res, c') -> cstep c c'
| cs_putBatch c rs now tnow res c' : (forall r, r ∈ rs -> is_Some (c_mstore c !! r)) -> putBatchLocked rs now tnow c = Some (res, c') -> cstep c c'
| cs_expire c now tnow c' : expireLocked now tnow c = Some (tt, c') -> cstep c c'
| cs_page c after maxBytes tnow res c' : 0 <= maxBytes < 2 ^ 62 -> page after maxBytes tnow c = Some (res, c') -> cstep c c'
| cs_repair c after maxBytes tnow res c' : 0 <= maxBytes < 2 ^ 62 -> repairPage after maxBytes tnow c = Some (res, c') -> cstep c c'.

Inductive cruns (max : Z) : cache -> Prop :=
| cruns_new : cruns max (newCache max)
| cruns_step c c' : cruns max c -> cstep c c' -> cruns max c'.

Lemma wp_ok {A} (m : GoM cache A) c x c' (P : cache -> Prop) : m c = Some (x, c') -> wp m c (fun _ c' => P c') -> P c'.
Proof. unfold wp. by intros ->. Qed.

Lemma cstep_ok c c' : cacheOK c -> cstep c c' -> cacheOK c' /\ limits c' = limits c.
Proof.
  intros K St. destruct St as [c r m Hr Hu|c r now tnow res c' [m Hm] E|c rs now tnow res c' Hl E|c now tnow c' E|c after mb tnow res c' Hb E|c after mb tnow res c' Hb E].
  - split; [by apply alloc_ok|done].
  - refine (wp_ok _ _ _ _ (fun c' => cacheOK c' /\ limits c' = limits c) E _). eapply wp_putLocked; [done|exact Hm|].
    intros res0 c1 c2 m1 K1 S1 _ _ K2 Hres. split; [done|]. rewrite <- (sw_limits _ _ _ S1). by apply meta_limits, (insertResult_frame _ _ _ _ _ Hres).
  - refine (wp_ok _ _ _ _ (fun c' => cacheOK c' /\ limits c' = limits c) E _). by apply wp_putBatchLocked.
  - refine (wp_ok _ _ _ _ (fun c' => cacheOK c' /\ limits c' = limits c) E _). apply wp_expireLocked; [done|]. intros c1 K1 S1. split; [done|apply S1].
  - refine (wp_ok _ _ _ _ (fun c' => cacheOK c' /\ limits c' = limits c) E _). apply wp_page; [done..|]. intros r1 c1 K1 S1 _. split; [done|apply S1].
  - refine (wp_ok _ _ _ _ (fun c' => cacheOK c' /\ limits c' = limits c) E _). apply wp_repairPage; [done..|]. intros r1 c1 K1 S1 _. split; [done|apply S1].
Qed.

Lemma cruns_ok max c : 0 <= max < 2 ^ 62 -> cruns max c -> cacheOK c /\ c_maxBytes c = max.
Proof.
  intros Hm. induction 1 as [|c c' _ [K E] St]; [by split; [apply cacheOK_new|]|].
  destruct (cstep_ok _ _ K St) as [K' El]. split; [done|]. unfold limits in El. congruence.
Qed.

(** ** The properties *)

(** C17: memory of the cache over every sequence of its methods (insertions of one message and of batches, expiry,
    pages). What is accounted is exactly the sizes of the cached messages, within the limit; every index
    entry is a live message under its ID; and the insertion order lists every cached message exactly once. *)
Theorem cache_memory max c :
  0 <= max < 2 ^ 62 -> cruns max c ->
  c_bytes c = msum (fun _ r => sizeAt (c_mstore c) r) (c_items c) /\ 0 <= c_bytes c <= max /\
  (forall id r, c_items c !! id = Some r -> exists m, c_mstore c !! r = Some m /\ m_ID m = id) /\
  NoDup (cached c) /\ (forall r, r ∈ cached c <-> exists m, c_mstore c !! r = Some m /\ c_items c !! m_ID m = Some r).
Proof.
  intros Hm Hr. destruct (cruns_ok _ _ Hm Hr) as [K E]. pose proof K as [[L I] _].
  split; [apply I|]. split; [split; [apply (cb_bytes_nonneg _ _ _ (cinv_base _ _ _ I))|rewrite <- E; apply I]|].
  split; [intros id r; by apply (ci_item _ _ _ _ _ I)|]. by apply cached_spec.
Qed.

(** C27: insertion, on every branch, without a panic. A message whose ID is cached changes nothing; one that
    exceeds the limit, or that would need an eviction while eviction is refused, is not cached; otherwise it
    is cached and charged, nothing is evicted if it fits, and if something must go, the oldest messages go. *)
Theorem cache_insert c r m tnow :
  cacheOK c -> c_mstore c !! r = Some m ->
  exists res c', insertLocked r tnow c = Some (res, c') /\ cacheOK c' /\ insertResult r m c res c'.
Proof.
  intros K Hm. assert (H : wp (insertLocked r tnow) c (fun res c' => cacheOK c' /\ insertResult r m c res c')) by by eapply wp_insert.
  apply wp_elim in H as (res & c' & E & ? & ?). by exists res, c'.
Qed.

(** C28: expiry. [expireLocked] terminates without a panic and drops exactly the cached messages whose instant has
    come; at the maintenance cadence it also drops exactly the buffered messages whose instant has come,
    the receive frontiers of origins without history or buffered messages, the replay frontiers and the unsafe sources whose
    instant has come, the sequences of topics whose instant has come and that have no index, and the gap marks of the buffers that are
    gone; in between it leaves the frontiers, the unsafe topics and all other metadata as they are. *)
Theorem cache_expire c now tnow :
  cacheOK c -> exists c', expireLocked now tnow c = Some (tt, c') /\ cacheOK c' /\ swept now c c'.
Proof.
  intros K. assert (H : wp (expireLocked now tnow) c (fun _ c' => cacheOK c' /\ swept now c c')) by by apply wp_expireLocked.
  apply wp_elim in H as ([] & c' & E & ? & ?). by exists c'.
Qed.

(** the readers of a topic. The replay after a cursor returns each cached message of the topic with a
    sequence beyond the cursor of its origin exactly once, the replay since an instant each message
    created since, and the snapshot each of those that has not expired; the last two in the order of
    creation. *)
Theorem cache_readers c topic cursor since tnow :
  cacheOK c ->
  (exists l, replayLocked topic cursor c = Some (l, c) /\ reads c topic (fun m => default 0 (cursor !! m_Origin m) < m_Sequence m) l) /\
  (exists l, replaySinceLocked topic since c = Some (l, c) /\ reads c topic (fun m => since <= m_CreatedAt m) l /\ StronglySorted Z.le (createdAt c l)) /\
  (exists l, snapshot topic since tnow c = Some (l, c) /\ reads c topic (fun m => since <= m_CreatedAt m /\ tnow < m_ExpiresAt m) l /\
     StronglySorted Z.le (createdAt c l)).
Proof.
  intros K. split_and!.
  - assert (H : wp (replayLocked topic cursor) c (fun l c' => c' = c /\ reads c topic (fun m => default 0 (cursor !! m_Origin m) < m_Sequence m) l)).
    { unfold replayLocked. wp_step. apply wp_topicFilter; [done|]. intros l Hl. apply wp_ret. split; [done|].
      eapply selected_reads; [|exact Hl|done]. intros m _. apply bool_decide_eq_true. }
    apply wp_elim in H as (l & c' & E & -> & H). by exists l.
  - assert (H : wp (replaySinceLocked topic since) c (fun l c' => c' = c /\ reads c topic (fun m => since <= m_CreatedAt m) l /\ StronglySorted Z.le (createdAt c l))).
    { unfold replaySinceLocked. wp_step. apply wp_topicFilter; [done|]. intros l Hl. apply wp_ret. split; [done|]. split; [|by eapply createdAt_sorted].
      eapply selected_reads; [|exact Hl|by rewrite stable_sort_perm]. intros m _. apply bool_decide_eq_true. }
    apply wp_elim in H as (l & c' & E & -> & H). by exists l.
  - assert (H : wp (snapshot topic since tnow) c (fun l c' => c' = c /\ reads c topic (fun m => since <= m_CreatedAt m /\ tnow < m_ExpiresAt m) l /\ StronglySorted Z.le (createdAt c l))).
    { unfold snapshot. wp_step. apply wp_topicFilter; [done|]. intros l Hl. apply wp_ret. split; [done|]. split; [|by eapply createdAt_sorted].
      eapply selected_reads; [|exact Hl|by rewrite stable_sort_perm]. intros m Ht. rewrite !andb_true_iff, !bool_decide_eq_true. tauto. }
    apply wp_elim in H as (l & c' & E & -> & H). by exists l.
Qed.

(** paging. A page after a message that is cached returns the messages that follow it in insertion order,
    as many as the byte and message limits allow, and names the last one: repeated pages visit every cached
    message in order, none twice. A cursor that is no longer cached is refused; only a message that is
    larger than a whole page stops the paging. A repair page does the same by insertion ordinals. *)
Theorem cache_pages c after ordinal maxBytes tnow :
  cacheOK c -> 0 <= maxBytes < 2 ^ 62 ->
  (exists res c', page after maxBytes tnow c = Some (res, c') /\ cacheOK c' /\ swept tnow c c' /\
     if decide (after <> "" /\ c_items c' !! after = None) then res = ([], "", false)
     else exists l, following c' after l /\ pageResult (c_mstore c') maxBytes after l res) /\
  (exists res c', repairPage ordinal maxBytes tnow c = Some (res, c') /\ cacheOK c' /\ swept tnow c c' /\
     repairResult (c_mstore c') maxBytes ordinal (newer (c_mstore c') ordinal (cached c')) res).
Proof.
  intros K Hmax. split.
  - assert (H : wp (page after maxBytes tnow) c (fun res c' => cacheOK c' /\ swept tnow c c' /\
      if decide (after <> "" /\ c_items c' !! after = None) then res = ([], "", false)
      else exists l, following c' after l /\ pageResult (c_mstore c') maxBytes after l res)) by by apply wp_page.
    apply wp_elim in H as (res & c' & E & ? & ? & ?). by exists res, c'.
  - assert (H : wp (repairPage ordinal maxBytes tnow) c (fun res c' => cacheOK c' /\ swept tnow c c' /\
      repairResult (c_mstore c') maxBytes ordinal (newer (c_mstore c') ordinal (cached c')) res)) by by apply wp_repairPage.
    apply wp_elim in H as (res & c' & E & ? & ? & ?). by exists res, c'.
Qed.

(** ** Witnesses *)
Definition ex_msg (id : string) (expires : Z) : Message := mkMessage id "t" "" ∅ [] 5 expires "o" 1 None None None 0 0 0 0.
Definition allocated (r : loc) (m : Message) (c : cache) : cache := c <| c_mstore := <[r := m]> (c_mstore c) |>.
Definition ex_store : cache := allocated 2%positive (ex_msg "b" 20) (allocated 1%positive (ex_msg "a" 10) (newCache 1000)).
Definition afterCache {A} (r : option (A * cache)) : cache := match r with Some (_, c) => c | None => ex_store end.
Definition ex_one : cache := afterCache (putLocked 1%positive 0 0 ex_store).
Definition ex_two : cache := afterCache (putLocked 2%positive 0 0 ex_one).

Lemma ex_put_one : putLocked 1%positive 0 0 ex_store = Some ((true, None), ex_one).
Proof. vm_compute. reflexivity. Qed.
Lemma ex_put_two : putLocked 2%positive 0 0 ex_one = Some ((true, None), ex_two).
Proof. vm_compute. reflexivity. Qed.

Lemma ex_store_runs : cruns 1000 ex_store.
Proof.
  eapply cruns_step; [eapply cruns_step; [apply cruns_new|]|].
  - by apply (cs_alloc (newCache 1000) 1%positive (ex_msg "a" 10)).
  - by apply (cs_alloc (allocated 1%positive (ex_msg "a" 10) (newCache 1000)) 2%positive (ex_msg "b" 20)).
Qed.

Lemma ex_two_runs : cruns 1000 ex_two.
Proof.
  eapply cruns_step; [eapply cruns_step; [apply ex_store_runs|]|].
  - eapply cs_put; [|exact ex_put_one]. by eexists.
  - eapply cs_put; [|exact ex_put_two]. vm_compute. by eexists.
Qed.

Lemma ex_store_ok : cacheOK ex_store.
Proof. apply (cruns_ok 1000); [done|apply ex_store_runs]. Qed.
Lemma ex_two_ok : cacheOK ex_two.
Proof. apply (cruns_ok 1000); [done|apply ex_two_runs]. Qed.

Lemma cache_memory_witness : cruns 1000 ex_two /\ 0 <= c_bytes ex_two <= 1000.
Proof. split; [exact ex_two_runs|]. exact (proj1 (proj2 (cache_memory 1000 ex_two ltac:(lia) ex_two_runs))). Defined.

Lemma cache_insert_witness : exists c', insertLocked 1%positive 0 ex_store = Some ((true, None), c') /\ c_bytes c' = 266.
Proof.
  destruct (cache_insert ex_store 1%positive (ex_msg "a" 10) 0 ex_store_ok eq_refl) as (res & c' & E & _ & _).
  assert ((fun x => (x.1, c_bytes x.2)) <$> insertLocked 1%positive 0 ex_store = Some ((true, None), 266)) as E2 by (vm_compute; done).
  rewrite E in E2. apply (inj Some) in E2. apply pair_equal_spec in E2 as [E2 E3]. cbn in E2, E3. subst res. by exists c'.
Defined.

Lemma cache_expire_witness : exists c', expireLocked 10 10 ex_two = Some (tt, c') /\ c_items c' !! "a" = None.
Proof.
  destruct (cache_expire ex_two 10 10 ex_two_ok) as (c' & E & _ & _). exists c'. split; [exact E|].
  assert ((fun x => c_items x.2 !! "a") <$> expireLocked 10 10 ex_two = Some None) as E2 by (vm_compute; done).
  rewrite E in E2. by injection E2.
Defined.

Lemma cache_readers_witness : replayLocked "t" ∅ ex_two = Some ([1%positive; 2%positive], ex_two) /\
  NoDup [1%positive; 2%positive].
Proof.
  destruct (proj1 (cache_readers ex_two "t" ∅ 0 0 ex_two_ok)) as (l & E & Hl & _).
  assert (fst <$> replayLocked "t" ∅ ex_two = Some [1%positive; 2%positive]) as E2 by (vm_compute; done).
  rewrite E in E2. apply (inj Some) in E2. cbn in E2. subst l. by split.
Defined.

Lemma cache_pages_witness : exists c', page "a" 500 0 ex_two = Some (([2%positive], "b", true), c').
Proof.
  destruct (proj1 (cache_pages ex_two "a" 0 500 0 ex_two_ok ltac:(lia))) as (res & c' & E & _).
  assert (fst <$> page "a" 500 0 ex_two = Some ([2%positive], "b", true)) as E2 by (vm_compute; done).
  rewrite E in E2. apply (inj Some) in E2. cbn in E2. subst res. by exists c'.
Defined.
