(* ===== verification/Admission.v ===== *)
(** * Publish admission

    [acquirePublishAdmission], [grantPublishAdmissionLocked] and [releasePublishAdmission] of
    internal/broker/broker.go: a byte budget with a queue of waiters that smaller requests may
    bypass a bounded number of times.  Each function that takes [admissionMu] is one atomic
    step; a waiter's request blocks between its enqueueing and [giveUp] (its timer or context
    fired) or its grant.  The second half is the transition system of all requests, its
    safety invariant and the bound on how often a waiter can be overtaken. *)
From S2P Require Import Prelude Types Config.
#[local] Open Scope Z_scope.

(** [type publishAdmissionWaiter struct]; [pw_id] is the pointer, and [granted]/[ready] is
    membership in [ad_granted]: a waiter that left the queue by a grant. *)
Record publishAdmissionWaiter := mkWaiter {
  pw_id : loc;
  pw_bytes : Z;
  pw_bypassed : Z;
}.
#[export] Instance publishAdmissionWaiter_settable : Settable publishAdmissionWaiter :=
  fun r => mkWaiter (pw_id r) (pw_bytes r) (pw_bypassed r).
#[export] Instance set_pw_bypassed : Setter pw_bypassed := ltac:(derive_setter).

(** The admission fields of [Broker]. *)
Record admission := mkAdmission {
  ad_limit : Z; (* cfg.PublishAdmissionBytes *)
  ad_used : Z; (* publishAdmissionBytes *)
  ad_waiters : list publishAdmissionWaiter; (* admissionWaiters *)
  ad_granted : gset loc; (* the waiters with granted = true *)
}.
#[export] Instance admission_settable : Settable admission :=
  fun r => mkAdmission (ad_limit r) (ad_used r) (ad_waiters r) (ad_granted r).
#[export] Instance set_ad_used : Setter ad_used := ltac:(derive_setter).
#[export] Instance set_ad_waiters : Setter ad_waiters := ltac:(derive_setter).
#[export] Instance set_ad_granted : Setter ad_granted := ltac:(derive_setter).

Definition newAdmission (limit : Z) : admission := mkAdmission limit 0 [] ∅.

Definition maxBypass : Z := 8.

(** ** Granting *)

(** The [for i, waiter := range] loop: the first waiter that fits, unless the head of the
    queue does not fit and has been bypassed often enough. *)
Fixpoint selectFrom (i : nat) (available : Z) (ws : list publishAdmissionWaiter) : option nat :=
  match ws with
  | [] => None
  | w :: ws =>
    if bool_decide (pw_bytes w <= available) then Some i
    else if bool_decide (i = 0%nat) && bool_decide (maxBypass <= pw_bypassed w) then None
    else selectFrom (S i) available ws
  end.

Definition selectWaiter (a : admission) : option nat :=
  selectFrom 0 (i64 (ad_limit a - ad_used a)) (ad_waiters a).

Definition bump (w : publishAdmissionWaiter) : publishAdmissionWaiter :=
  if bool_decide (pw_bypassed w < maxBypass) then w <| pw_bypassed := pw_bypassed w + 1 |> else w.

(** One turn of the [for len(b.admissionWaiters) > 0] loop: the waiter whose [ready] channel is
    closed, and the state after; [None] is the [return]. *)
Definition grantOne (a : admission) : option (publishAdmissionWaiter * admission) :=
  k ← selectWaiter a ;
  w ← ad_waiters a !! k ;
  Some (w, ((a <| ad_waiters := (bump <$> take k (ad_waiters a)) ++ drop (S k) (ad_waiters a) |>)
              <| ad_used := i64 (ad_used a + pw_bytes w) |>)
             <| ad_granted := {[ pw_id w ]} ∪ ad_granted a |>).

Fixpoint grantLoop (fuel : nat) (a : admission) : option (list publishAdmissionWaiter * admission) :=
  match fuel with
  | O => None
  | S fuel =>
    match grantOne a with
    | None => Some ([], a)
    | Some (w, a') => '(ws, a'') ← grantLoop fuel a' ; Some (w :: ws, a'')
    end
  end.

(** The waiters granted, in order; each turn of the loop shortens the queue. *)
Definition grantPublishAdmissionLocked (a : admission)
    : option (list publishAdmissionWaiter * admission) :=
  grantLoop (S (length (ad_waiters a))) a.

(** ** The operations *)

(** The first critical section of [acquirePublishAdmission]. *)
Inductive acquired := Refused | Granted | Enqueued.

Definition acquirePublishAdmission (id : loc) (bytes : Z) (a : admission) : acquired * admission :=
  if bool_decide (bytes <= 0) || bool_decide (ad_limit a < bytes) then (Refused, a) else
  if bool_decide (llen (ad_waiters a) = 0) && bool_decide (i64 (ad_used a + bytes) <= ad_limit a)
  then (Granted, a <| ad_used := i64 (ad_used a + bytes) |>)
  else (Enqueued, a <| ad_waiters := ad_waiters a ++ [mkWaiter id bytes 0] |>).

Fixpoint dropWaiter (id : loc) (ws : list publishAdmissionWaiter) : list publishAdmissionWaiter :=
  match ws with
  | [] => []
  | w :: ws => if bool_decide (pw_id w = id) then ws else w :: dropWaiter id ws
  end.

(** The second critical section, after the context or the timer fired: [true] if the waiter
    was granted in the meantime; otherwise it leaves the queue, which may unblock others. *)
Definition giveUp (id : loc) (a : admission)
    : option (bool * list publishAdmissionWaiter * admission) :=
  if decide (id ∈ ad_granted a) then Some (true, [], a)
  else
    '(ws, a') ← grantPublishAdmissionLocked (a <| ad_waiters := dropWaiter id (ad_waiters a) |>) ;
    Some (false, ws, a').

Definition releasePublishAdmission (bytes : Z) (a : admission)
    : option (list publishAdmissionWaiter * admission) :=
  grantPublishAdmissionLocked (a <| ad_used := i64 (ad_used a + i64 (- bytes)) |>).

(** ** Granting: what one turn does *)

Lemma selectFrom_bound i av ws k : selectFrom i av ws = Some k -> (i <= k < i + length ws)%nat.
Proof.
  revert i. induction ws as [|w ws IH]; intros i; simpl; [done|]. case_bool_decide.
  - intros [= <-]. lia.
  - destruct (_ && _); [done|]. intros E%IH. lia.
Qed.

(** The selected waiter fits; those before it do not; it is not the head only if the head may
    still be bypassed. *)
Lemma selectFrom_Some i av ws k :
  selectFrom i av ws = Some k ->
  exists w, ws !! (k - i)%nat = Some w /\ pw_bytes w <= av /\
    (forall j v, (j < k - i)%nat -> ws !! j = Some v -> av < pw_bytes v) /\
    (i = 0%nat -> k <> 0%nat -> exists h, ws !! 0%nat = Some h /\ pw_bypassed h < maxBypass).
Proof.
  revert i. induction ws as [|w ws IH]; intros i; cbn [selectFrom]; [done|].
  case_bool_decide as Hfit.
  - intros [= <-]. rewrite Nat.sub_diag. exists w. split_and!; [done|done|lia|done].
  - destruct (bool_decide (i = 0%nat) && bool_decide (maxBypass <= pw_bypassed w)) eqn:Hb; [done|].
    intros E. pose proof (selectFrom_bound _ _ _ _ E). apply IH in E as (v & Hv & Hfv & Hbefore & _).
    exists v. replace (k - i)%nat with (S (k - S i)) by lia. split_and!; [done|done| |].
    + intros [|j] u Hj Hu; simplify_eq/=; [lia|]. apply (Hbefore j); [lia|done].
    + intros -> _. exists w. split; [done|]. apply andb_false_iff in Hb as [Hb|Hb]; [done|].
      apply bool_decide_eq_false in Hb. lia.
Qed.

Lemma selectFrom_None i av ws :
  selectFrom i av ws = None ->
  (forall w, w ∈ ws -> av < pw_bytes w) \/
  (i = 0%nat /\ exists h, head ws = Some h /\ av < pw_bytes h /\ maxBypass <= pw_bypassed h).
Proof.
  revert i. induction ws as [|w ws IH]; intros i; cbn [selectFrom]; [left; set_solver|].
  case_bool_decide as Hfit; [done|].
  destruct (bool_decide (i = 0%nat) && bool_decide (maxBypass <= pw_bypassed w)) eqn:Hb.
  - intros _. right. apply andb_true_iff in Hb as [->%bool_decide_eq_true Hb%bool_decide_eq_true].
    split; [done|]. exists w. split_and!; [done|lia|done].
  - intros [Hall|[? _]]%IH; [|lia]. left. intros v [->|Hv]%elem_of_cons; [lia|by apply Hall].
Qed.

Lemma bump_bytes w : pw_bytes (bump w) = pw_bytes w.
Proof. unfold bump. by case_bool_decide. Qed.
Lemma bump_id w : pw_id (bump w) = pw_id w.
Proof. unfold bump. by case_bool_decide. Qed.
Lemma bump_range w : 0 <= pw_bypassed w <= maxBypass -> 0 <= pw_bypassed (bump w) <= maxBypass.
Proof. unfold bump. case_bool_decide; cbn; lia. Qed.

(** ** The invariant

    [held] maps every admitted request that has not released to its bytes. *)
Record adm_inv (held : gmap loc Z) (a : admission) : Prop := {
  ai_limit : 0 <= ad_limit a < 2 ^ 62;
  ai_used : ad_used a = msum (fun _ b => b) held;
  ai_bound : ad_used a <= ad_limit a;
  ai_held : forall id b, held !! id = Some b -> 0 < b <= ad_limit a;
  ai_waiter : forall w, w ∈ ad_waiters a -> 0 < pw_bytes w <= ad_limit a /\
    0 <= pw_bypassed w <= maxBypass /\ held !! pw_id w = None /\ pw_id w ∉ ad_granted a;
  ai_nodup : NoDup (pw_id <$> ad_waiters a);
}.

Lemma ai_nonneg held a : adm_inv held a -> 0 <= ad_used a.
Proof. intros I. rewrite (ai_used _ _ I). apply msum_nonneg. intros. by apply (ai_held _ _ I) in H as ?; lia. Qed.

(** A waiter no later grant can serve: the budget left is too small for everyone, or the head
    has been bypassed as often as it may be and does not fit. *)
Definition blocked (a : admission) : Prop :=
  (forall w, w ∈ ad_waiters a -> ad_limit a - ad_used a < pw_bytes w) \/
  (exists h, head (ad_waiters a) = Some h /\ ad_limit a - ad_used a < pw_bytes h /\
     maxBypass <= pw_bypassed h).

Lemma grantOne_Some held a w a' :
  adm_inv held a -> grantOne a = Some (w, a') ->
  exists k, ad_waiters a !! k = Some w /\ pw_bytes w <= ad_limit a - ad_used a /\
    (k <> 0%nat -> exists h, ad_waiters a !! 0%nat = Some h /\ pw_bypassed h < maxBypass) /\
    a' = mkAdmission (ad_limit a) (ad_used a + pw_bytes w)
           ((bump <$> take k (ad_waiters a)) ++ drop (S k) (ad_waiters a))
           ({[ pw_id w ]} ∪ ad_granted a).
Proof.
  intros I. pose proof (ai_nonneg _ _ I). pose proof (ai_bound _ _ I). pose proof (ai_limit _ _ I).
  unfold grantOne, selectWaiter. rewrite i64_id by (unfold in_i64; lia).
  destruct (selectFrom _ _ _) as [k|] eqn:E; [|done].
  apply selectFrom_Some in E as (v & Hv & Hfit & _ & Hhead). rewrite Nat.sub_0_r in Hv.
  cbn [mbind option_bind]. rewrite Hv. cbn [mbind option_bind]. intros [= <- <-].
  assert (0 < pw_bytes v) by (eapply (ai_waiter _ _ I), list_elem_of_lookup; eauto).
  rewrite i64_id by (unfold in_i64; lia). exists k. split_and!; auto.
Qed.

Lemma grantOne_None held a : adm_inv held a -> grantOne a = None -> blocked a.
Proof.
  intros I. pose proof (ai_nonneg _ _ I). pose proof (ai_bound _ _ I). pose proof (ai_limit _ _ I).
  unfold grantOne, selectWaiter. rewrite i64_id by (unfold in_i64; lia).
  destruct (selectFrom _ _ _) as [k|] eqn:E.
  - apply selectFrom_Some in E as (w & Hw & _). rewrite Nat.sub_0_r in Hw.
    cbn [mbind option_bind]. by rewrite Hw.
  - intros _. apply selectFrom_None in E as [?|[_ ?]]; [by left|by right].
Qed.

Lemma elem_of_granted_queue k q v :
  v ∈ (bump <$> take k q) ++ drop (S k) q -> exists u, u ∈ q /\ (v = u \/ v = bump u).
Proof.
  rewrite elem_of_app, list_elem_of_fmap. intros [(u & -> & Hu)|Hv].
  - exists u. split; [|by right]. apply elem_of_take in Hu as (i & Hi & _). apply list_elem_of_lookup. eauto.
  - exists v. split; [|by left]. apply list_elem_of_lookup in Hv as [i Hi]. rewrite lookup_drop in Hi.
    apply list_elem_of_lookup. eauto.
Qed.

Lemma granted_queue_ids k q w :
  q !! k = Some w ->
  pw_id <$> q ≡ₚ pw_id w :: (pw_id <$> (bump <$> take k q) ++ drop (S k) q).
Proof.
  intros Hk. rewrite <- (take_drop_middle q k w Hk) at 1. rewrite !fmap_app, fmap_cons.
  rewrite <- Permutation_middle. do 2 f_equiv. rewrite <- list_fmap_compose.
  apply reflexive_eq, list_fmap_ext. intros i u _. cbn. by rewrite bump_id.
Qed.

Lemma grantOne_inv held a w a' :
  adm_inv held a -> grantOne a = Some (w, a') ->
  adm_inv (<[pw_id w := pw_bytes w]> held) a' /\ S (length (ad_waiters a')) = length (ad_waiters a).
Proof.
  intros I E. destruct (grantOne_Some _ _ _ _ I E) as (k & Hk & Hfit & _ & ->).
  assert (Hin : w ∈ ad_waiters a) by (apply list_elem_of_lookup; eauto).
  destruct (ai_waiter _ _ I _ Hin) as (Hb & _ & Hh & _).
  pose proof (granted_queue_ids _ _ _ Hk) as Hp. pose proof (ai_nodup _ _ I) as Hnd.
  rewrite Hp in Hnd. apply NoDup_cons in Hnd as [Hnin Hnd].
  split; [split; cbn|].
  - apply (ai_limit _ _ I).
  - rewrite msum_insert by done. rewrite (ai_used _ _ I). lia.
  - lia.
  - intros id b. rewrite lookup_insert. case_decide; [by intros [= <-]|by apply (ai_held _ _ I)].
  - intros v Hv. assert (pw_id v <> pw_id w).
    { intros Ev. apply Hnin. rewrite <- Ev. by apply list_elem_of_fmap_2. }
    apply elem_of_granted_queue in Hv as (u & Hu & Hvu).
    destruct (ai_waiter _ _ I _ Hu) as (? & ? & ? & ?).
    assert (pw_bytes v = pw_bytes u /\ pw_id v = pw_id u /\ 0 <= pw_bypassed v <= maxBypass) as (-> & Ei & ?).
    { destruct Hvu as [->| ->]; [done|]. rewrite bump_bytes, bump_id.
      split; [done|]. split; [done|]. by apply bump_range. }
    rewrite lookup_insert_ne by congruence. rewrite Ei in *.
    split; [done|]. split; [done|]. split; [done|]. set_solver.
  - done.
  - apply Permutation_length in Hp. rewrite !length_fmap in Hp. cbn in Hp.
    rewrite length_fmap in Hp. cbn. done.
Qed.

Definition holders (held : gmap loc Z) (ws : list publishAdmissionWaiter) : gmap loc Z :=
  foldl (fun m w => <[pw_id w := pw_bytes w]> m) held ws.

(** The loop returns within its fuel and leaves nobody it could serve. *)
Lemma grantLoop_spec fuel held a :
  adm_inv held a -> (length (ad_waiters a) < fuel)%nat ->
  exists ws a', grantLoop fuel a = Some (ws, a') /\ adm_inv (holders held ws) a' /\ blocked a'.
Proof.
  revert held a. induction fuel as [|fuel IH]; intros held a I Hl; [lia|]. cbn [grantLoop].
  destruct (grantOne a) as [[w a1]|] eqn:E.
  - destruct (grantOne_inv _ _ _ _ I E) as [I1 L1].
    destruct (IH _ _ I1) as (ws & a2 & -> & I2 & B2); [lia|]. exists (w :: ws), a2. done.
  - exists [], a. split_and!; [done|done|by eapply grantOne_None].
Qed.

(** ** The system of requests *)

Lemma dropWaiter_perm id ws w :
  w ∈ dropWaiter id ws -> w ∈ ws.
Proof.
  induction ws as [|v ws IH]; simpl; [done|]. case_bool_decide; [set_solver|].
  rewrite !elem_of_cons. tauto.
Qed.

Lemma dropWaiter_nodup id ws : NoDup (pw_id <$> ws) -> NoDup (pw_id <$> dropWaiter id ws).
Proof.
  induction ws as [|v ws IH]; simpl; [done|]. intros [Hv Hnd]%NoDup_cons.
  case_bool_decide; [done|]. cbn. apply NoDup_cons. split; [|auto].
  intros (u & E & Hu%dropWaiter_perm)%list_elem_of_fmap. apply Hv, list_elem_of_fmap. eauto.
Qed.

Lemma adm_inv_drop held a id :
  adm_inv held a -> adm_inv held (a <| ad_waiters := dropWaiter id (ad_waiters a) |>).
Proof.
  intros [H1 H2 H3 H4 H5 H6]. split; cbn; try done.
  - intros w Hw%dropWaiter_perm. by apply H5.
  - by apply dropWaiter_nodup.
Qed.

Lemma adm_inv_release held a id b :
  adm_inv held a -> held !! id = Some b ->
  adm_inv (delete id held) (a <| ad_used := i64 (ad_used a + i64 (- b)) |>).
Proof.
  intros I Hb. destruct (ai_held _ _ I _ _ Hb) as [Hb0 Hbl]. pose proof I as [H1 H2 H3 H4 H5 H6].
  assert (b <= ad_used a).
  { rewrite H2. apply (msum_le_elem (fun _ b => b)) with (k := id); [|done].
    intros k v Hk. apply H4 in Hk. lia. }
  i64s. split; cbn; try done.
  - rewrite H2, (msum_delete _ _ _ _ Hb). cbn beta. lia.
  - lia.
  - intros k v [_ Hk]%lookup_delete_Some. by apply (H4 k).
  - intros w Hw. destruct (H5 _ Hw) as (? & ? & Hn & ?).
    split; [done|]. split; [done|]. split; [|done].
    rewrite lookup_delete_ne; [done|]. congruence.
Qed.

Lemma adm_inv_acquire held a id bytes r a' :
  adm_inv held a -> held !! id = None -> id ∉ pw_id <$> ad_waiters a -> id ∉ ad_granted a ->
  acquirePublishAdmission id bytes a = (r, a') ->
  adm_inv (match r with Granted => <[id := bytes]> held | _ => held end) a'.
Proof.
  intros I Hh Hw Hg. pose proof (ai_nonneg _ _ I). pose proof I as [H1 H2 H3 H4 H5 H6].
  unfold acquirePublishAdmission. destruct (_ || _) eqn:E; [by intros [= <- <-]|].
  apply orb_false_iff in E as [E1%bool_decide_eq_false E2%bool_decide_eq_false].
  rewrite i64_id by (unfold in_i64; lia). destruct (_ && _) eqn:E; intros [= <- <-].
  - apply andb_true_iff in E as [E3%bool_decide_eq_true E4%bool_decide_eq_true].
    destruct (ad_waiters a) as [|w l] eqn:El; [|unfold llen in E3; cbn in E3; lia].
    split; cbn; rewrite ?El; try done; [rewrite msum_insert by done; lia| |set_solver].
    intros k b. rewrite lookup_insert. case_decide; [intros [= <-]; lia|by apply H4].
  - split; cbn; try done.
    + intros w [Hin| ->%list_elem_of_singleton]%elem_of_app; [by apply H5|]. cbn.
      split_and!; try done; lia.
    + rewrite fmap_app. apply NoDup_app. split_and!; [done| |apply NoDup_singleton]. set_solver.
Qed.

(** One critical section of one request, and the waiters it grants. *)
Inductive adm_step (held : gmap loc Z) (a : admission) :
    list publishAdmissionWaiter -> gmap loc Z -> admission -> Prop :=
| step_acquire id bytes r a' :
    held !! id = None -> id ∉ pw_id <$> ad_waiters a -> id ∉ ad_granted a ->
    acquirePublishAdmission id bytes a = (r, a') ->
    adm_step held a [] (match r with Granted => <[id := bytes]> held | _ => held end) a'
| step_giveUp id b ws a' :
    giveUp id a = Some (b, ws, a') -> adm_step held a ws (holders held ws) a'
| step_release id bytes ws a' :
    held !! id = Some bytes -> releasePublishAdmission bytes a = Some (ws, a') ->
    adm_step held a ws (holders (delete id held) ws) a'.

Inductive adm_steps : gmap loc Z -> admission -> gmap loc Z -> admission -> Prop :=
| steps_refl held a : adm_steps held a held a
| steps_trans held a ws held1 a1 held2 a2 :
    adm_step held a ws held1 a1 -> adm_steps held1 a1 held2 a2 -> adm_steps held a held2 a2.

Lemma grant_spec held a :
  adm_inv held a ->
  exists ws a', grantPublishAdmissionLocked a = Some (ws, a') /\ adm_inv (holders held ws) a' /\
    blocked a'.
Proof. intros I. apply grantLoop_spec; [done|lia]. Qed.

Lemma adm_step_inv held a ws held' a' :
  adm_inv held a -> adm_step held a ws held' a' -> adm_inv held' a'.
Proof.
  intros I. destruct 1 as [id bytes r a' Hh Hw Hg E|id b ws a' E|id bytes ws a' Hh E].
  - by eapply adm_inv_acquire.
  - unfold giveUp in E. case_decide; [by simplify_eq|].
    destruct (grant_spec _ _ (adm_inv_drop _ _ id I)) as (ws' & a2 & E2 & I2 & _).
    rewrite E2 in E. cbn in E. by simplify_eq.
  - destruct (grant_spec _ _ (adm_inv_release _ _ _ _ I Hh)) as (ws' & a2 & E2 & I2 & _).
    unfold releasePublishAdmission in E. rewrite E2 in E. by simplify_eq.
Qed.

Lemma adm_inv_new limit : 0 <= limit < 2 ^ 62 -> adm_inv ∅ (newAdmission limit).
Proof.
  intros Hl. split; cbn; [done|by rewrite msum_empty|lia| | |constructor].
  - intros id b. by rewrite lookup_empty.
  - intros w. by rewrite elem_of_nil.
Qed.

(** ** Fairness *)

(** The waiters behind [id] in the queue. *)
Fixpoint after (id : loc) (q : list publishAdmissionWaiter) : list loc :=
  match q with
  | [] => []
  | w :: q => if bool_decide (pw_id w = id) then pw_id <$> q else after id q
  end.

(** How many of the granted waiters were behind [id]. *)
Definition overtaking (id : loc) (q ws : list publishAdmissionWaiter) : nat :=
  length (filter (fun w => pw_id w ∈ after id q) ws).

(** The bypasses left to the waiters up to and including [id]. *)
Fixpoint credit (id : loc) (q : list publishAdmissionWaiter) : Z :=
  match q with
  | [] => 0
  | w :: q => (maxBypass - pw_bypassed w) + (if bool_decide (pw_id w = id) then 0 else credit id q)
  end.

Lemma after_in id l r :
  id ∈ pw_id <$> l -> after id (l ++ r) = after id l ++ (pw_id <$> r) /\
    credit id (l ++ r) = credit id l.
Proof.
  induction l as [|w l IH]; cbn; [set_solver|]. case_bool_decide; [by rewrite fmap_app|].
  intros [?|Hin]%elem_of_cons; [congruence|]. destruct (IH Hin) as [-> ->]. done.
Qed.

Lemma after_notin id l r :
  id ∉ pw_id <$> l -> after id (l ++ r) = after id r /\
    credit id (l ++ r) = zsum ((fun w => maxBypass - pw_bypassed w) <$> l) + credit id r.
Proof.
  induction l as [|w l IH]; cbn; [done|]. intros [Hne Hnin]%not_elem_of_cons.
  rewrite bool_decide_false by congruence. destruct (IH Hnin) as [-> ->].
  rewrite zsum_cons. split; [done|lia].
Qed.

Lemma after_sub id q x : x ∈ after id q -> x ∈ pw_id <$> q.
Proof.
  induction q as [|w q IH]; cbn; [done|]. case_bool_decide; rewrite elem_of_cons; auto.
Qed.

Lemma bump_ids (l : list publishAdmissionWaiter) : pw_id <$> (bump <$> l) = pw_id <$> l.
Proof. rewrite <- list_fmap_compose. apply list_fmap_ext. intros i w _. cbn. by rewrite bump_id. Qed.

Lemma after_bump id (l : list publishAdmissionWaiter) : after id (bump <$> l) = after id l.
Proof.
  induction l as [|w l IH]; cbn; [done|]. rewrite bump_id. case_bool_decide; [apply bump_ids|done].
Qed.

Lemma bump_le w : pw_bypassed w <= pw_bypassed (bump w).
Proof. unfold bump. case_bool_decide; cbn; lia. Qed.

Lemma credit_bump id (l : list publishAdmissionWaiter) : credit id (bump <$> l) <= credit id l.
Proof.
  induction l as [|w l IH]; cbn; [lia|]. rewrite bump_id. pose proof (bump_le w).
  case_bool_decide; lia.
Qed.

Lemma zsum_bump (l : list publishAdmissionWaiter) :
  zsum ((fun w => maxBypass - pw_bypassed w) <$> (bump <$> l))
  <= zsum ((fun w => maxBypass - pw_bypassed w) <$> l).
Proof. induction l as [|w l IH]; cbn; rewrite ?zsum_cons; [done|]. pose proof (bump_le w). lia. Qed.

(** One grant: an overtaking costs the queue up to [id] one bypass, and those behind [id] stay
    behind. *)
Lemma grant_credit id q k w :
  NoDup (pw_id <$> q) -> (forall v, v ∈ q -> 0 <= pw_bypassed v <= maxBypass) -> q !! k = Some w ->
  (k <> 0%nat -> exists h, q !! 0%nat = Some h /\ pw_bypassed h < maxBypass) ->
  let q' := (bump <$> take k q) ++ drop (S k) q in
  id ∈ pw_id <$> q' ->
  credit id q' + (if bool_decide (pw_id w ∈ after id q) then 1 else 0) <= credit id q /\
  forall x, x ∈ pw_id <$> q' -> (x ∈ after id q' <-> x ∈ after id q).
Proof.
  intros Hnd Hr Hk Hhead q' Hid. pose proof (granted_queue_ids _ _ _ Hk) as Hp.
  pose proof Hnd as Hnd'. rewrite Hp in Hnd'. apply NoDup_cons in Hnd' as [Hw _].
  unfold q' in *. clear q'. pose proof (take_drop_middle q k w Hk) as Hq.
  assert (Hlen : (k < length q)%nat) by (by eapply lookup_lt_Some).
  set (l := take k q) in *. set (r := drop (S k) q) in *.
  assert (Hl : length l = k) by (unfold l; rewrite length_take; lia). clearbody l r. subst q.
  assert (Hne : id <> pw_id w) by (intros ->; done).
  destruct (decide (id ∈ pw_id <$> l)) as [Hin|Hnin].
  - destruct (after_in id l (w :: r) Hin) as [-> ->].
    destruct (after_in id (bump <$> l) r) as [-> ->]; [by rewrite bump_ids|]. rewrite after_bump. split.
    + destruct l as [|h l]; [set_solver|].
      destruct (Hhead ltac:(cbn in Hl; lia)) as (h' & Hh' & Hb). cbn in Hh'. injection Hh' as <-.
      cbn. rewrite bump_id. unfold bump at 1. rewrite (bool_decide_true (pw_bypassed h < _)) by done. cbn.
      pose proof (credit_bump id l). repeat case_bool_decide; lia.
    + intros x Hx. cbn. rewrite !elem_of_app, elem_of_cons. split; [tauto|].
      intros [?|[->|?]]; [tauto| |tauto]. done.
  - destruct (after_notin id l (w :: r) Hnin) as [-> ->].
    destruct (after_notin id (bump <$> l) r) as [-> ->]; [by rewrite bump_ids|]. split.
    + cbn. rewrite (bool_decide_false (pw_id w = id)) by congruence.
      rewrite bool_decide_false.
      * pose proof (zsum_bump l). assert (0 <= maxBypass - pw_bypassed w); [|lia].
        specialize (Hr w ltac:(set_solver)). lia.
      * intros Hx%after_sub. apply Hw. rewrite fmap_app. set_solver.
    + cbn. rewrite bool_decide_false by congruence. done.
Qed.

Lemma overtaking_cons id q w ws :
  overtaking id q (w :: ws) =
  ((if bool_decide (pw_id w ∈ after id q) then 1 else 0) + overtaking id q ws)%nat.
Proof. unfold overtaking. rewrite filter_cons. case_decide; case_bool_decide; done. Qed.

Lemma overtaking_ext id q q' ws :
  (forall w, w ∈ ws -> (pw_id w ∈ after id q <-> pw_id w ∈ after id q')) ->
  overtaking id q ws = overtaking id q' ws.
Proof.
  induction ws as [|w ws IH]; intros H; [done|]. rewrite !overtaking_cons, IH by set_solver.
  rewrite (bool_decide_ext _ (pw_id w ∈ after id q')); [done|]. apply H. set_solver.
Qed.

Lemma grantLoop_sub fuel held a ws a' :
  adm_inv held a -> grantLoop fuel a = Some (ws, a') ->
  (pw_id <$> ws) ++ (pw_id <$> ad_waiters a') ≡ₚ pw_id <$> ad_waiters a.
Proof.
  revert held a ws. induction fuel as [|fuel IH]; intros held a ws I; cbn [grantLoop]; [done|].
  destruct (grantOne a) as [[w a1]|] eqn:E; [|by intros [= <- <-]].
  destruct (grantLoop fuel a1) as [[ws1 a2]|] eqn:E2; [|done]. intros [= <- <-].
  pose proof (grantOne_inv _ _ _ _ I E) as [I1 _].
  destruct (grantOne_Some _ _ _ _ I E) as (k & Hk & _ & _ & ->).
  rewrite (granted_queue_ids _ _ _ Hk). cbn. rewrite (IH _ _ _ I1 E2). done.
Qed.

Lemma grantLoop_credit fuel held a ws a' id :
  adm_inv held a -> grantLoop fuel a = Some (ws, a') -> id ∈ pw_id <$> ad_waiters a' ->
  credit id (ad_waiters a') + Z.of_nat (overtaking id (ad_waiters a) ws) <= credit id (ad_waiters a).
Proof.
  revert held a ws. induction fuel as [|fuel IH]; intros held a ws I; cbn [grantLoop]; [done|].
  destruct (grantOne a) as [[w a1]|] eqn:E; [|intros [= <- <-] _; cbn; lia].
  destruct (grantLoop fuel a1) as [[ws1 a2]|] eqn:E2; [|done]. intros [= <- <-] Hid.
  pose proof (grantOne_inv _ _ _ _ I E) as [I1 _].
  specialize (IH _ _ _ I1 E2 Hid).
  pose proof (grantLoop_sub _ _ _ _ _ I1 E2) as Hsub.
  destruct (grantOne_Some _ _ _ _ I E) as (k & Hk & _ & Hhead & ->). cbn [ad_waiters] in *.
  destruct (grant_credit id _ k w (ai_nodup _ _ I)) as [Hc Ha].
  - intros v Hv. by apply (ai_waiter _ _ I).
  - done.
  - done.
  - rewrite <- Hsub, elem_of_app. by right.
  - rewrite overtaking_cons, (overtaking_ext id _
      ((bump <$> take k (ad_waiters a)) ++ drop (S k) (ad_waiters a)) ws1).
    + case_bool_decide; lia.
    + intros v Hv. symmetry. apply Ha. rewrite <- Hsub, elem_of_app. left. by apply list_elem_of_fmap_2.
Qed.

Lemma dropWaiter_ids x q y : y <> x -> y ∈ pw_id <$> dropWaiter x q <-> y ∈ pw_id <$> q.
Proof.
  intros Hne. induction q as [|w q IH]; cbn; [done|]. case_bool_decide; cbn; set_solver.
Qed.

Lemma dropWaiter_gone x q : NoDup (pw_id <$> q) -> x ∉ pw_id <$> dropWaiter x q.
Proof.
  induction q as [|w q IH]; cbn; [set_solver|]. intros [Hw Hnd]%NoDup_cons.
  case_bool_decide; [congruence|]. cbn. set_solver.
Qed.

Lemma dropWaiter_credit id x q :
  (forall v, v ∈ q -> 0 <= pw_bypassed v <= maxBypass) -> id <> x ->
  credit id (dropWaiter x q) <= credit id q /\
  forall y, y <> x -> y ∈ after id (dropWaiter x q) <-> y ∈ after id q.
Proof.
  intros Hr Hne. induction q as [|w q IH]; cbn; [done|].
  destruct IH as [IH1 IH2]; [set_solver|]. specialize (Hr w ltac:(set_solver)).
  destruct (bool_decide_reflect (pw_id w = x)) as [->|Hx].
  - rewrite bool_decide_false by congruence. split; [lia|done].
  - cbn. destruct (bool_decide_reflect (pw_id w = id)) as [E|Hi]; [|split; [lia|done]].
    split; [lia|]. intros y Hy. by apply dropWaiter_ids.
Qed.

(** [waits id held a n held' a']: [id] is in the queue from the first state to the last, and [n]
    requests that were behind it were granted in between. *)
Inductive waits (id : loc) : gmap loc Z -> admission -> nat -> gmap loc Z -> admission -> Prop :=
| waits_refl held a : id ∈ pw_id <$> ad_waiters a -> waits id held a 0 held a
| waits_step held a ws held1 a1 n held2 a2 :
    id ∈ pw_id <$> ad_waiters a -> adm_step held a ws held1 a1 -> waits id held1 a1 n held2 a2 ->
    waits id held a (overtaking id (ad_waiters a) ws + n) held2 a2.

Lemma waits_start id held a n held' a' : waits id held a n held' a' -> id ∈ pw_id <$> ad_waiters a.
Proof. by destruct 1. Qed.

Lemma adm_step_credit id held a ws held' a' :
  adm_inv held a -> adm_step held a ws held' a' -> id ∈ pw_id <$> ad_waiters a ->
  id ∈ pw_id <$> ad_waiters a' ->
  credit id (ad_waiters a') + Z.of_nat (overtaking id (ad_waiters a) ws) <= credit id (ad_waiters a).
Proof.
  intros I. destruct 1 as [x bytes r a' Hh Hw Hg E|x b ws a' E|x bytes ws a' Hh E]; intros Hid Hid'.
  - unfold acquirePublishAdmission in E. cbn.
    repeat case_match; simplify_eq/=; [lia..|]. destruct (after_in id _ [mkWaiter x bytes 0] Hid) as [_ ->]. lia.
  - unfold giveUp in E. case_decide; [simplify_eq; cbn; lia|].
    destruct (grantPublishAdmissionLocked _) as [[ws' a2]|] eqn:E2; [|done]. cbn in E. simplify_eq.
    pose proof (adm_inv_drop _ _ x I) as I2. unfold grantPublishAdmissionLocked in E2.
    pose proof (grantLoop_credit _ _ _ _ _ id I2 E2 Hid') as Hc.
    pose proof (grantLoop_sub _ _ _ _ _ I2 E2) as Hsub. cbn in Hc, Hsub.
    assert (Hx : x ∉ pw_id <$> dropWaiter x (ad_waiters a)) by apply dropWaiter_gone, (ai_nodup _ _ I).
    rewrite <- Hsub, elem_of_app in Hx.
    destruct (dropWaiter_credit id x (ad_waiters a)) as [Hd Ha].
    { intros v Hv. by apply (ai_waiter _ _ I). }
    { intros ->. tauto. }
    rewrite (overtaking_ext id _ (dropWaiter x (ad_waiters a))); [lia|].
    intros w Hw. symmetry. apply Ha. intros <-. apply Hx. left. by apply list_elem_of_fmap_2.
  - unfold releasePublishAdmission, grantPublishAdmissionLocked in E.
    apply (grantLoop_credit _ _ _ _ _ id (adm_inv_release _ _ _ _ I Hh) E Hid').
Qed.

Lemma waits_credit id held a n held' a' :
  adm_inv held a -> waits id held a n held' a' ->
  0 <= credit id (ad_waiters a') /\ credit id (ad_waiters a') + Z.of_nat n <= credit id (ad_waiters a).
Proof.
  intros I H. revert I. induction H as [held a Hid|held a ws held1 a1 n held2 a2 Hid Hs Hw IH]; intros I.
  - split; [|lia]. clear Hid. assert (Hr : forall w, w ∈ ad_waiters a -> 0 <= pw_bypassed w <= maxBypass).
    { intros w Hw. by apply (ai_waiter _ _ I). }
    clear I. induction (ad_waiters a) as [|w q IH]; cbn; [done|].
    specialize (IH ltac:(set_solver)). specialize (Hr w ltac:(set_solver)). case_bool_decide; lia.
  - pose proof (adm_step_inv _ _ _ _ _ I Hs) as I1.
    pose proof (adm_step_credit id _ _ _ _ _ I Hs Hid (waits_start _ _ _ _ _ _ Hw)). destruct (IH I1). lia.
Qed.

Lemma credit_bound id q k w :
  (forall v, v ∈ q -> 0 <= pw_bypassed v) -> q !! k = Some w -> pw_id w = id ->
  credit id q <= maxBypass * (Z.of_nat k + 1).
Proof.
  revert k. induction q as [|v q IH]; intros [|k] Hr Hk Hid; simplify_eq/=.
  - rewrite bool_decide_true by done. specialize (Hr w ltac:(set_solver)). lia.
  - specialize (IH k ltac:(set_solver) Hk eq_refl). specialize (Hr v ltac:(set_solver)).
    unfold maxBypass in *. case_bool_decide; lia.
Qed.

(** ** What publish admission guarantees *)

Lemma grantLoop_limit fuel a ws a' : grantLoop fuel a = Some (ws, a') -> ad_limit a' = ad_limit a.
Proof.
  revert a ws. induction fuel as [|fuel IH]; intros a ws; cbn [grantLoop]; [done|].
  destruct (grantOne a) as [[w a1]|] eqn:E; [|by intros [= _ <-]].
  destruct (grantLoop fuel a1) as [[ws1 a2]|] eqn:E2; [|done]. intros [= _ <-].
  rewrite (IH _ _ E2). unfold grantOne in E. destruct (selectWaiter a); [|done].
  cbn in E. destruct (ad_waiters a !! _); [|done]. by injection E as _ <-.
Qed.

Lemma adm_step_limit held a ws held' a' : adm_step held a ws held' a' -> ad_limit a' = ad_limit a.
Proof.
  destruct 1 as [x bytes r a' _ _ _ E|x b ws a' E|x bytes ws a' _ E].
  - unfold acquirePublishAdmission in E. repeat case_match; by simplify_eq.
  - unfold giveUp in E. case_decide; [by simplify_eq|].
    destruct (grantPublishAdmissionLocked _) as [[ws' a2]|] eqn:E2; [|done]. cbn in E. simplify_eq.
    by apply grantLoop_limit in E2.
  - by apply grantLoop_limit in E.
Qed.

Lemma adm_steps_inv held a held' a' :
  adm_inv held a -> adm_steps held a held' a' -> adm_inv held' a' /\ ad_limit a' = ad_limit a.
Proof.
  intros I H. revert I. induction H as [|held a ws held1 a1 held2 a2 Hs _ IH]; intros I; [done|].
  destruct (IH (adm_step_inv _ _ _ _ _ I Hs)) as [I2 ->]. split; [done|]. by eapply adm_step_limit.
Qed.

(** C24: publish admission never overcommits. In every state that any interleaving of
    acquire, give-up and release reaches, the budget in use is exactly the sum of the bytes of
    the requests that were admitted and have not released, it is between 0 and the limit, and
    nobody waiting is counted as admitted. *)
Theorem admission_safe limit held a :
  0 <= limit < 2 ^ 62 -> adm_steps ∅ (newAdmission limit) held a ->
  ad_used a = msum (fun _ b => b) held /\ 0 <= ad_used a <= limit /\
  (forall w, w ∈ ad_waiters a -> held !! pw_id w = None /\ 0 < pw_bytes w <= limit).
Proof.
  intros Hl Hs. destruct (adm_steps_inv _ _ _ _ (adm_inv_new _ Hl) Hs) as [I El]. cbn in El.
  pose proof (ai_nonneg _ _ I). pose proof (ai_bound _ _ I). rewrite El in *.
  split; [apply (ai_used _ _ I)|]. split; [lia|]. intros w Hw.
  destruct (ai_waiter _ _ I w Hw) as (Hb & _ & Hh & _). rewrite El in Hb. done.
Qed.

(** a release or a give-up always returns, and when it does nobody is left waiting that
    could be served: every waiter needs more than the budget that is free, or the head of the
    queue does and has already been bypassed eight times. *)
Theorem admission_progress limit held a id :
  0 <= limit < 2 ^ 62 -> adm_steps ∅ (newAdmission limit) held a ->
  (forall bytes, held !! id = Some bytes ->
     exists ws a', releasePublishAdmission bytes a = Some (ws, a') /\ blocked a') /\
  (id ∉ ad_granted a -> exists ws a', giveUp id a = Some (false, ws, a') /\ blocked a').
Proof.
  intros Hl Hs. destruct (adm_steps_inv _ _ _ _ (adm_inv_new _ Hl) Hs) as [I _]. split.
  - intros bytes Hb. destruct (grant_spec _ _ (adm_inv_release _ _ _ _ I Hb)) as (ws & a' & E & _ & B).
    exists ws, a'. done.
  - intros Hg. destruct (grant_spec _ _ (adm_inv_drop _ _ id I)) as (ws & a' & E & _ & B).
    exists ws, a'. unfold giveUp. rewrite decide_False by done. rewrite E. done.
Qed.

(** no waiter starves behind smaller requests: while the waiter at position [k] of the queue
    keeps waiting, at most [8 * (k + 1)] requests that were behind it are granted before it,
    however the other requests arrive, give up and release. *)
Theorem admission_fair limit held a k w n held' a' :
  0 <= limit < 2 ^ 62 -> adm_steps ∅ (newAdmission limit) held a ->
  ad_waiters a !! k = Some w -> waits (pw_id w) held a n held' a' ->
  Z.of_nat n <= maxBypass * (Z.of_nat k + 1).
Proof.
  intros Hl Hs Hk Hw. destruct (adm_steps_inv _ _ _ _ (adm_inv_new _ Hl) Hs) as [I _].
  destruct (waits_credit _ _ _ _ _ _ I Hw). pose proof (credit_bound (pw_id w) _ _ _
    (fun v Hv => proj1 (proj1 (proj2 (ai_waiter _ _ I v Hv)))) Hk eq_refl). lia.
Qed.

(** ** Witnesses: two requests fill a budget of 10; a third waits and a small one passes it *)
Definition ex_busy : gmap loc Z := <[2%positive := 3]> (<[1%positive := 6]> ∅).
Definition ex_waiting : admission :=
  mkAdmission 10 9 [mkWaiter 3 5 0; mkWaiter 4 3 0] ∅.

Lemma ex_steps : adm_steps ∅ (newAdmission 10) ex_busy ex_waiting.
Proof.
  eapply steps_trans; [apply (step_acquire _ _ 1 6 Granted); [done|set_solver|set_solver|reflexivity]|].
  eapply steps_trans; [apply (step_acquire _ _ 2 3 Granted); [done|set_solver|set_solver|reflexivity]|].
  eapply steps_trans; [apply (step_acquire _ _ 3 5 Enqueued); [done|set_solver|set_solver|reflexivity]|].
  eapply steps_trans; [apply (step_acquire _ _ 4 3 Enqueued); [done|cbn; set_solver|set_solver|reflexivity]|].
  apply steps_refl.
Defined.

Lemma admission_safe_witness :
  ad_used ex_waiting = msum (fun _ b => b) ex_busy /\ 0 <= ad_used ex_waiting <= 10.
Proof.
  destruct (admission_safe 10 ex_busy ex_waiting) as (H1 & H2 & _); [lia|exact ex_steps|done].
Defined.

Lemma admission_progress_witness :
  exists ws a', releasePublishAdmission 3 ex_waiting = Some (ws, a') /\ blocked a' /\
    pw_id <$> ws = [4%positive].
Proof.
  destruct (admission_progress 10 ex_busy ex_waiting 2) as [H _]; [lia|exact ex_steps|].
  destruct (H 3 eq_refl) as (ws & a' & E & B). exists ws, a'. split; [done|]. split; [done|].
  vm_compute in E. injection E as <- <-. reflexivity.
Defined.

Lemma admission_fair_witness :
  exists n held' a', waits 3 ex_busy ex_waiting n held' a' /\ n = 1%nat /\ Z.of_nat n <= 8.
Proof.
  set (ws := [mkWaiter 4 3 0]). set (held' := holders (delete 2%positive ex_busy) ws).
  set (a' := mkAdmission 10 9 [mkWaiter 3 5 1] ({[ 4%positive ]} ∪ ∅)).
  assert (E : releasePublishAdmission 3 ex_waiting = Some (ws, a')) by (vm_compute; reflexivity).
  assert (H : waits 3 ex_busy ex_waiting 1 held' a').
  { change 1%nat with (overtaking 3 (ad_waiters ex_waiting) ws + 0)%nat.
    apply (waits_step _ _ _ ws held' a').
    - cbn. set_solver.
    - by eapply (step_release _ _ 2 3).
    - apply waits_refl. cbn. set_solver. }
  exists 1%nat, held', a'. split; [exact H|]. split; [done|].
  apply (admission_fair 10 ex_busy ex_waiting 0 (mkWaiter 3 5 0) 1 held' a');
    [lia|exact ex_steps|done|exact H].
Defined.
