(* ===== verification/GoIO.v ===== *)
(** * Byte streams

    What the codecs use of Go's [io] and [encoding/binary]: an [io.Reader] over the bytes that
    are left, an [io.Writer] as an interface, big-endian integers, and the bytes of a string. *)
From Stdlib Require Strings.String.
From S2P Require Import Prelude Types.
#[local] Open Scope Z_scope.

(** ** Bytes and strings *)
Definition Zbyte (b : byte) : Z := Z.of_N (Byte.to_N b).
Definition byteZ (z : Z) : byte := default x00 (Byte.of_N (Z.to_N (z mod 256))).

Lemma Zbyte_range b : 0 <= Zbyte b < 256.
Proof. unfold Zbyte. pose proof (Byte.to_N_bounded b). lia. Qed.

Lemma Zbyte_byteZ z : Zbyte (byteZ z) = z mod 256.
Proof.
  unfold Zbyte, byteZ. pose proof (Z.mod_pos_bound z 256 eq_refl) as H.
  destruct (Byte.of_N (Z.to_N (z mod 256))) as [b|] eqn:E.
  - cbn. apply Byte.to_of_N in E. rewrite E. lia.
  - apply Byte.of_N_None_iff in E. lia.
Qed.

Lemma byteZ_Zbyte b : byteZ (Zbyte b) = b.
Proof.
  unfold byteZ. rewrite Z.mod_small by apply Zbyte_range. unfold Zbyte. rewrite N2Z.id.
  by rewrite Byte.of_to_N.
Qed.

(** The bytes of a Go string. *)
Definition sbytes (s : string) : list byte := String.list_byte_of_string s.
Definition bstring (l : list byte) : string := String.string_of_list_byte l.

Lemma bstring_sbytes s : bstring (sbytes s) = s.
Proof. apply String.string_of_list_byte_of_string. Qed.
Lemma sbytes_bstring l : sbytes (bstring l) = l.
Proof. apply String.list_byte_of_string_of_list_byte. Qed.

Lemma llen_sbytes s : llen (sbytes s) = slen s.
Proof.
  unfold llen, slen, sbytes, String.list_byte_of_string. rewrite length_map. f_equal.
  induction s as [|a s IH]; simpl; congruence.
Qed.
Lemma slen_bstring l : slen (bstring l) = llen l.
Proof. by rewrite <- llen_sbytes, sbytes_bstring. Qed.

(** ** Big-endian integers: [binary.BigEndian.AppendUintN] and [UintN] *)
Fixpoint beBytes (n : nat) (v : Z) : list byte :=
  match n with
  | O => []
  | S n => byteZ (Z.shiftr v (8 * Z.of_nat n)) :: beBytes n v
  end.

Definition beRead (l : list byte) : Z := foldl (fun acc b => acc * 256 + Zbyte b) 0 l.

Lemma length_beBytes n v : length (beBytes n v) = n.
Proof. induction n; simpl; congruence. Qed.

Lemma beRead_acc l acc : foldl (fun acc b => acc * 256 + Zbyte b) acc l = acc * 256 ^ llen l + beRead l.
Proof.
  unfold beRead. revert acc. induction l as [|b l IH]; intros acc; cbn [foldl].
  - unfold llen. simpl. lia.
  - rewrite IH, (IH (0 * 256 + Zbyte b)), llen_cons, Z.pow_add_r by (unfold llen; lia). lia.
Qed.

Lemma beRead_beBytes n v : beRead (beBytes n v) = v mod 256 ^ Z.of_nat n.
Proof.
  induction n as [|n IH]; cbn [beBytes].
  - unfold beRead. simpl. by rewrite Z.mod_1_r.
  - unfold beRead. cbn [foldl]. rewrite beRead_acc, IH, Zbyte_byteZ. unfold llen.
    rewrite length_beBytes, Z.shiftr_div_pow2 by lia.
    replace (2 ^ (8 * Z.of_nat n)) with (256 ^ Z.of_nat n) by (rewrite Z.pow_mul_r by lia; done).
    rewrite Nat2Z.inj_succ, Z.pow_succ_r by lia. set (p := 256 ^ Z.of_nat n).
    assert (0 < p) by (apply Z.pow_pos_nonneg; lia). rewrite (Z.mul_comm 256 p), Z.rem_mul_r by lia. lia.
Qed.

Lemma beRead_range l : 0 <= beRead l < 256 ^ llen l.
Proof.
  induction l as [|b l IH] using rev_ind; [done|].
  unfold beRead in *. rewrite foldl_snoc, llen_app, Z.pow_add_r by (unfold llen; lia).
  pose proof (Zbyte_range b). change (256 ^ llen [b]) with 256. lia.
Qed.

(** ** Readers *)

(** A read fails, or returns a value and the bytes that are left. *)
Definition Reader (A : Type) : Type := list byte -> error + A * list byte.

Definition rret {A} (a : A) : Reader A := fun bs => inr (a, bs).
Definition rfail {A} (e : error) : Reader A := fun _ => inl e.
Definition rbind {A B} (m : Reader A) (k : A -> Reader B) : Reader B :=
  fun bs => match m bs with inl e => inl e | inr (a, bs') => k a bs' end.
Definition rguard {A} (bad : bool) (e : error) (k : Reader A) : Reader A :=
  if bad then rfail e else k.

Notation "x <~ c ;; k" := (rbind c (fun x => k))
  (at level 100, c at next level, right associativity) : go_scope.

(** [io.EOF] and [io.ErrUnexpectedEOF]. *)
Definition errEOF : error := errOther "EOF".
Definition errUnexpectedEOF : error := errOther "unexpected EOF".

(** [io.ReadFull] into a buffer of [n] bytes: [io.EOF] only when no byte was left. *)
Definition readFull (n : nat) : Reader (list byte) := fun bs =>
  if bool_decide (n <= length bs)%nat then inr (take n bs, drop n bs)
  else inl (if bool_decide (bs = []) then errEOF else errUnexpectedEOF).

(** [io.LimitReader]: at most [n] bytes are seen. *)
Definition limitReader (n : Z) (bs : list byte) : list byte :=
  if bool_decide (llen bs <= n) then bs else take (Z.to_nat n) bs.

(** [for range n { ... }] collecting its results. *)
Fixpoint rtimes {A} (n : nat) (m : Reader A) : Reader (list A) :=
  match n with
  | O => rret []
  | S n => a <~ m ;; l <~ rtimes n m ;; rret (a :: l)
  end.

Lemma readFull_app bs rest n : length bs = n -> readFull n (bs ++ rest) = inr (bs, rest).
Proof.
  intros <-. unfold readFull. rewrite bool_decide_true by (rewrite length_app; lia).
  by rewrite take_app_length, drop_app_length.
Qed.

Lemma readFull_inr n bs l rest : readFull n bs = inr (l, rest) -> length l = n /\ bs = l ++ rest.
Proof.
  unfold readFull. case_bool_decide; [|done]. intros [= <- <-].
  rewrite length_take, take_drop. split; [lia|done].
Qed.

Lemma rbind_inr {A B} (m : Reader A) (k : A -> Reader B) bs r :
  rbind m k bs = inr r -> exists a bs', m bs = inr (a, bs') /\ k a bs' = inr r.
Proof. unfold rbind. destruct (m bs) as [?|[a bs']]; [done|eauto]. Qed.

Lemma rguard_inr {A} bad e (k : Reader A) bs r :
  rguard bad e k bs = inr r -> bad = false /\ k bs = inr r.
Proof. by destruct bad. Qed.

Lemma rbind_eq {A B} (m : Reader A) (k : A -> Reader B) bs a bs' :
  m bs = inr (a, bs') -> rbind m k bs = k a bs'.
Proof. unfold rbind. by intros ->. Qed.

Lemma rtimes_Forall {A} (P : A -> Prop) (m : Reader A) n bs l rest :
  (forall bs a rest, m bs = inr (a, rest) -> P a) ->
  rtimes n m bs = inr (l, rest) -> length l = n /\ Forall P l.
Proof.
  intros Hm. revert bs l. induction n as [|n IH]; intros bs l; cbn [rtimes].
  - intros [= <- _]. done.
  - intros (a & bs1 & Ha & (l1 & bs2 & Hl & [= <- <-])%rbind_inr)%rbind_inr.
    destruct (IH _ _ Hl) as [<- ?]. split; [done|]. constructor; [by eapply Hm|done].
Qed.

(** ** Writers *)

(** [io.Writer]: a write may fail, in which case the rest of the output is not attempted. *)
Class IoWriter (W : Type) := io_write : list byte -> W -> W * option error.

(** [bytes.Buffer]: never fails. *)
#[export] Instance buffer_writer : IoWriter (list byte) := fun p w => (w ++ p, None).

Section Writer.
Context {W : Type} `{IoWriter W}.

Definition Writer : Type := W -> W * option error.

Definition wdone : Writer := fun w => (w, None).
Definition wfail (e : error) : Writer := fun w => (w, Some e).
Definition wthen (m k : Writer) : Writer := fun w =>
  match m w with (w', None) => k w' | r => r end.
Definition wwrite (p : list byte) : Writer := io_write p.

Fixpoint weach {A} (l : list A) (f : A -> Writer) : Writer :=
  match l with [] => wdone | x :: l => wthen (f x) (weach l f) end.
End Writer.
Arguments Writer W : clear implicits.
Notation "a ;>> b" := (wthen a b) (at level 100, right associativity) : go_scope.
