(* ===== verification/Urls.v ===== *)
(** * Texts in URLs and headers

    What the code uses of net/url and encoding/hex: [PathEscape], [QueryEscape], [Values.Encode] and [EncodeToString]. *)
From Stdlib Require Import Strings.Ascii.
From S2P Require Import Prelude Types GoIO.
#[local] Open Scope Z_scope.

(** [url.PathEscape] *)
Definition escapes (a : ascii) : bool :=
  let n := Z.of_N (N_of_ascii a) in
  negb ((97 <=? n) && (n <=? 122) || (65 <=? n) && (n <=? 90) || (48 <=? n) && (n <=? 57)
        || bool_decide (n ∈ [45; 95; 46; 126; 36; 38; 43; 58; 61; 64])).
Definition upperhex (n : Z) : ascii := ascii_of_N (Z.to_N (if n <? 10 then 48 + n else 55 + n)).
Fixpoint PathEscape (s : string) : string :=
  match s with
  | String.EmptyString => ""
  | String.String a s =>
    if escapes a then
      let n := Z.of_N (N_of_ascii a) in
      String.String (ascii_of_N 37) (String.String (upperhex (n / 16)) (String.String (upperhex (n mod 16)) (PathEscape s)))
    else String.String a (PathEscape s)
  end.

(** [hex.EncodeToString] *)
Definition lowerhex (n : Z) : ascii := ascii_of_N (Z.to_N (if n <? 10 then 48 + n else 87 + n)).
Fixpoint hexString (l : list byte) : string :=
  match l with
  | [] => ""
  | b :: l => String.String (lowerhex (Zbyte b / 16)) (String.String (lowerhex (Zbyte b mod 16)) (hexString l))
  end.

(** [url.QueryEscape], and [Values.Encode] of a map whose keys come in their order. *)
Definition queryEscapes (a : ascii) : bool :=
  let n := Z.of_N (N_of_ascii a) in
  negb ((97 <=? n) && (n <=? 122) || (65 <=? n) && (n <=? 90) || (48 <=? n) && (n <=? 57) || bool_decide (n ∈ [45; 95; 46; 126])).
Fixpoint QueryEscape (s : string) : string :=
  match s with
  | String.EmptyString => ""
  | String.String a s =>
    let n := Z.of_N (N_of_ascii a) in
    if n =? 32 then String.String (ascii_of_N 43) (QueryEscape s) else
    if queryEscapes a then String.String (ascii_of_N 37) (String.String (upperhex (n / 16)) (String.String (upperhex (n mod 16)) (QueryEscape s)))
    else String.String a (QueryEscape s)
  end.
Fixpoint encodeValues (l : list (string * string)) : string :=
  match l with
  | [] => ""
  | (k, v) :: l =>
    let pair := String.append (QueryEscape k) (String.append "=" (QueryEscape v)) in
    match l with [] => pair | _ => String.append pair (String.append "&" (encodeValues l)) end
  end.

(** ** A value that was escaped can be read back *)
Definition hexValue (a : ascii) : Z := let n := Z.of_N (N_of_ascii a) in if n <? 58 then n - 48 else n - 55.
Fixpoint unescape (s : string) : string :=
  match s with
  | String.EmptyString => ""
  | String.String a s =>
    if Ascii.eqb a "+"%char then String.String " "%char (unescape s) else
    if Ascii.eqb a "%"%char then
      match s with
      | String.String x (String.String y s) => String.String (ascii_of_N (Z.to_N (16 * hexValue x + hexValue y))) (unescape s)
      | _ => ""
      end
    else String.String a (unescape s)
  end.

Definition escaped1 (a : ascii) (t : string) : string :=
  let n := Z.of_N (N_of_ascii a) in
  if n =? 32 then String.String (ascii_of_N 43) t else
  if queryEscapes a then String.String (ascii_of_N 37) (String.String (upperhex (n / 16)) (String.String (upperhex (n mod 16)) t)) else String.String a t.
Lemma unescape_escaped1 a t : unescape (escaped1 a t) = String.String a (unescape t).
Proof. destruct a as [[] [] [] [] [] [] [] []]; reflexivity. Qed.
Lemma unescape_QueryEscape s : unescape (QueryEscape s) = s.
Proof. induction s as [|a s IH]; [done|]. change (QueryEscape (String.String a s)) with (escaped1 a (QueryEscape s)). by rewrite unescape_escaped1, IH. Qed.
#[export] Instance QueryEscape_inj : Inj (=) (=) QueryEscape.
Proof. intros s t E. by rewrite <- (unescape_QueryEscape s), E, unescape_QueryEscape. Qed.
