(* ===== verification/Wire.v ===== *)
(** * The peer wire format

    The encoders and decoders of replication batches in internal/broker/broker.go:
    [writePeerString], [writePeerBatch], [appendPeerBatch], [readPeerString], [readPeerBatch],
    and the version-1 format [writePeerBatchV1]/[readPeerBatchV1].  Go iterates over a header map
    in an unspecified order: the order is a parameter, [rangeMap]. *)
From S2P Require Import Prelude Types GoIO.
#[local] Open Scope Z_scope.

(** A [for k, v := range m] visits every entry once. *)
Class MapRange := {
  rangeMap : gmap string string -> list (string * string);
  rangeMap_perm : forall h, rangeMap h ≡ₚ map_to_list h;
}.

(** ** Encoding *)
Definition errStringTooLarge : error := errOther "peer string too large".
Definition errMessageTooLarge : error := errOther "peer message too large".
Definition errBatchSize : error := errOther "invalid peer batch size".

Section Encode.
Context `{MapRange}.

Definition writePeerString {W} `{IoWriter W} (value : string) : Writer W :=
  if bool_decide (65535 < slen value) then wfail errStringTooLarge else
  wwrite (beBytes 2 (slen value)) ;>> wwrite (sbytes value).

Definition appendPeerString (value : string) : Writer (list byte) := fun out =>
  if bool_decide (65535 < slen value) then (out, Some errStringTooLarge) else
  (out ++ beBytes 2 (slen value) ++ sbytes value, None).

(** [fixed[:]]: lengths, times and, in version 2, the sequence. *)
Definition fixedPart (m : Message) : list byte :=
  beBytes 2 (mlen (m_Headers m)) ++ beBytes 4 (llen (m_Payload m)) ++
  beBytes 8 (m_CreatedAt m) ++ beBytes 8 (m_ExpiresAt m).

Definition writeMessage {W} `{IoWriter W} (m : Message) : Writer W :=
  writePeerString (m_ID m) ;>>
  writePeerString (m_Topic m) ;>>
  writePeerString (m_Key m) ;>>
  writePeerString (m_Origin m) ;>>
  if bool_decide (65535 < mlen (m_Headers m)) || bool_decide (4294967295 < llen (m_Payload m))
  then wfail errMessageTooLarge else
  wwrite (fixedPart m ++ beBytes 8 (m_Sequence m)) ;>>
  weach (rangeMap (m_Headers m)) (fun kv =>
    writePeerString kv.1 ;>> writePeerString kv.2) ;>>
  wwrite (m_Payload m).

Definition appendMessage (m : Message) : Writer (list byte) :=
  appendPeerString (m_ID m) ;>>
  appendPeerString (m_Topic m) ;>>
  appendPeerString (m_Key m) ;>>
  appendPeerString (m_Origin m) ;>>
  if bool_decide (65535 < mlen (m_Headers m)) || bool_decide (4294967295 < llen (m_Payload m))
  then wfail errMessageTooLarge else
  wwrite (fixedPart m ++ beBytes 8 (m_Sequence m)) ;>>
  weach (rangeMap (m_Headers m)) (fun kv =>
    appendPeerString kv.1 ;>> appendPeerString kv.2) ;>>
  wwrite (m_Payload m).

Definition badBatchSize (messages : list Message) : bool :=
  bool_decide (llen messages = 0) || bool_decide (maxBatchMessages < llen messages).

Definition appendPeerBatch (messages : list Message) : Writer (list byte) :=
  if badBatchSize messages then wfail errBatchSize else
  wwrite (beBytes 4 (llen messages)) ;>>
  weach messages appendMessage.

(** [isBuffer] says whether the writer is a [bytes.Buffer] (a type assertion): a buffer receives the
    encoding of the whole batch in one write. *)
Definition writePeerBatch {W} `{IoWriter W} (isBuffer : bool) (messages : list Message) : Writer W :=
  if badBatchSize messages then wfail errBatchSize else
  if isBuffer then
    match appendPeerBatch messages [] with
    | (_, Some e) => wfail e
    | (encoded, None) => wwrite encoded
    end
  else
  wwrite (beBytes 4 (llen messages)) ;>>
  weach messages writeMessage.

(** Version 1 carries neither origin nor sequence. *)
Definition writeMessageV1 {W} `{IoWriter W} (m : Message) : Writer W :=
  writePeerString (m_ID m) ;>>
  writePeerString (m_Topic m) ;>>
  writePeerString (m_Key m) ;>>
  wwrite (fixedPart m) ;>>
  weach (rangeMap (m_Headers m)) (fun kv =>
    writePeerString kv.1 ;>> writePeerString kv.2) ;>>
  wwrite (m_Payload m).

Definition writePeerBatchV1 {W} `{IoWriter W} (messages : list Message) : Writer W :=
  if badBatchSize messages then wfail errBatchSize else
  wwrite (beBytes 4 (llen messages)) ;>>
  weach messages writeMessageV1.
End Encode.

(** ** Decoding *)
Definition readPeerString (maximum : Z) : Reader string :=
  size <~ readFull 2 ;;
  let n := beRead size in
  rguard (bool_decide (maximum < n)) (errOther "peer string exceeds limit")
  (value <~ readFull (Z.to_nat n) ;;
   rret (bstring value)).

(** [for range headerCount { ... }] *)
Fixpoint readHeaders (n : nat) (headerBytes : Z) (headers : gmap string string)
    : Reader (gmap string string) :=
  match n with
  | O => rret headers
  | S n =>
    k <~ readPeerString maxHeaders ;;
    v <~ readPeerString maxHeaders ;;
    let headerBytes := headerBytes + (slen k + slen v) in
    rguard (bool_decide (maxHeaders < headerBytes)) (errOther "peer headers exceed limit")
    (readHeaders n headerBytes (<[k := v]> headers))
  end.

(** A slice of the [fixed] array as an integer. *)
Definition field (off len : nat) (fixed : list byte) : Z := beRead (take len (drop off fixed)).

Definition readMessage (maxMessage : Z) : Reader Message :=
  id <~ readPeerString 64 ;;
  topic <~ readPeerString 255 ;;
  key <~ readPeerString maxHeaders ;;
  origin <~ readPeerString 64 ;;
  fixed <~ readFull 30 ;;
  let headerCount := field 0 2 fixed in
  let payloadSize := field 2 4 fixed in
  rguard (bool_decide (256 < headerCount) || bool_decide (maxMessage < payloadSize))
    (errOther "peer message exceeds limit")
  (headers <~ readHeaders (Z.to_nat headerCount) 0 ∅ ;;
   payload <~ readFull (Z.to_nat payloadSize) ;;
   rret (mkMessage id topic key headers payload (i64 (field 6 8 fixed)) (i64 (field 14 8 fixed))
           origin (field 22 8 fixed) None None None 0 0 0 0)).

Definition readMessageV1 (maxMessage : Z) : Reader Message :=
  id <~ readPeerString 64 ;;
  topic <~ readPeerString 255 ;;
  key <~ readPeerString maxHeaders ;;
  fixed <~ readFull 22 ;;
  let headerCount := field 0 2 fixed in
  let payloadSize := field 2 4 fixed in
  rguard (bool_decide (256 < headerCount) || bool_decide (maxMessage < payloadSize))
    (errOther "peer message exceeds limit")
  (headers <~ readHeaders (Z.to_nat headerCount) 0 ∅ ;;
   payload <~ readFull (Z.to_nat payloadSize) ;;
   rret (mkMessage id topic key headers payload (i64 (field 6 8 fixed)) (i64 (field 14 8 fixed))
           "" 0 None None None 0 0 0 0)).

Definition readBatchOf (rd : Reader Message) : Reader (list Message) :=
  countBytes <~ readFull 4 ;;
  let count := beRead countBytes in
  rguard (bool_decide (count = 0) || bool_decide (maxBatchMessages < count)) errBatchSize
  (rtimes (Z.to_nat count) rd).

Definition readPeerBatch (maxMessage : Z) : Reader (list Message) := readBatchOf (readMessage maxMessage).
Definition readPeerBatchV1 (maxMessage : Z) : Reader (list Message) := readBatchOf (readMessageV1 maxMessage).

(** ** Composition of encoders and decoders *)
Definition emits (w : Writer (list byte)) (bs : list byte) : Prop :=
  forall out, w out = (out ++ bs, None).
Definition decodes {A} (rd : Reader A) (bs : list byte) (a : A) : Prop :=
  forall rest, rd (bs ++ rest) = inr (a, rest).

Lemma emits_write bs : emits (wwrite bs) bs.
Proof. done. Qed.
Lemma emits_then w1 w2 b1 b2 : emits w1 b1 -> emits w2 b2 -> emits (w1 ;>> w2) (b1 ++ b2).
Proof. intros H1 H2 out. unfold wthen. by rewrite H1, H2, app_assoc. Qed.
Lemma emits_each {A} (l : list A) (f : A -> Writer (list byte)) (enc : A -> list byte) :
  (forall x, x ∈ l -> emits (f x) (enc x)) -> emits (weach l f) (concat (enc <$> l)).
Proof.
  induction l as [|x l IH]; intros Hf; cbn.
  - intros out. by rewrite app_nil_r.
  - apply emits_then; [apply Hf|apply IH; intros; apply Hf]; set_solver.
Qed.

Lemma decodes_bind {A B} (m : Reader A) (k : A -> Reader B) b1 b2 a b :
  decodes m b1 a -> decodes (k a) b2 b -> decodes (rbind m k) (b1 ++ b2) b.
Proof. intros H1 H2 rest. rewrite <- app_assoc. by rewrite (rbind_eq _ _ _ _ _ (H1 _)). Qed.
Lemma decodes_ret {A} (a : A) : decodes (rret a) [] a.
Proof. done. Qed.
Lemma decodes_bind_ret {A B} (m : Reader A) (f : A -> B) bs a :
  decodes m bs a -> decodes (rbind m (fun x => rret (f x))) bs (f a).
Proof. intros Hm rest. by rewrite (rbind_eq _ _ _ _ _ (Hm rest)). Qed.
Lemma decodes_full bs n : length bs = n -> decodes (readFull n) bs bs.
Proof. intros Hl rest. by apply readFull_app. Qed.
Lemma decodes_guard {A} bad e (k : Reader A) bs a :
  bad = false -> decodes k bs a -> decodes (rguard bad e k) bs a.
Proof. by intros ->. Qed.

Lemma decodes_times {A B} (rd : Reader A) (enc : B -> list byte) (f : B -> A) l :
  (forall x, x ∈ l -> decodes rd (enc x) (f x)) ->
  decodes (rtimes (length l) rd) (concat (enc <$> l)) (f <$> l).
Proof.
  induction l as [|x l IH]; intros Hd; cbn; [apply decodes_ret|].
  eapply decodes_bind; [apply Hd; set_solver|]. apply decodes_bind_ret, IH.
  intros y Hy. apply Hd. set_solver.
Qed.

(** ** What a message must satisfy to cross the wire *)
Definition headerBytes (h : gmap string string) : Z := msum (fun k v => slen k + slen v) h.

Record wireOk (maxMessage : Z) (m : Message) : Prop := {
  wo_id : slen (m_ID m) <= 64;
  wo_topic : slen (m_Topic m) <= 255;
  wo_key : slen (m_Key m) <= maxHeaders;
  wo_origin : slen (m_Origin m) <= 64;
  wo_count : mlen (m_Headers m) <= 256;
  wo_headers : headerBytes (m_Headers m) <= maxHeaders;
  wo_payload : llen (m_Payload m) <= maxMessage;
  wo_payload32 : llen (m_Payload m) <= 4294967295;
  wo_created : in_i64 (m_CreatedAt m);
  wo_expires : in_i64 (m_ExpiresAt m);
  wo_sequence : in_u64 (m_Sequence m);
}.

(** The message the other side builds: the wire fields, no cache state. *)
Definition wireOf (m : Message) : Message :=
  mkMessage (m_ID m) (m_Topic m) (m_Key m) (m_Headers m) (m_Payload m) (m_CreatedAt m)
    (m_ExpiresAt m) (m_Origin m) (m_Sequence m) None None None 0 0 0 0.

(** ** Strings *)
Definition encString (s : string) : list byte := beBytes 2 (slen s) ++ sbytes s.

Lemma emits_writePeerString `{MapRange} s :
  slen s <= 65535 -> emits (writePeerString s) (encString s).
Proof.
  intros Hs. unfold writePeerString. rewrite bool_decide_false by lia.
  apply emits_then; apply emits_write.
Qed.

Lemma emits_appendPeerString `{MapRange} s :
  slen s <= 65535 -> emits (appendPeerString s) (encString s).
Proof. intros Hs out. unfold appendPeerString. by rewrite bool_decide_false by lia. Qed.

Lemma decodes_string maximum s :
  slen s <= maximum -> maximum <= 65535 -> decodes (readPeerString maximum) (encString s) s.
Proof.
  intros Hs Hm. pose proof (slen_nonneg s). unfold readPeerString, encString.
  eapply decodes_bind; [by apply decodes_full, length_beBytes|]. cbv zeta.
  rewrite beRead_beBytes, Z.mod_small by lia. apply decodes_guard; [by apply bool_decide_false; lia|].
  rewrite <- (bstring_sbytes s) at 3. apply decodes_bind_ret, decodes_full.
  rewrite <- llen_sbytes. unfold llen. lia.
Qed.

Lemma readPeerString_inr maximum bs s rest :
  readPeerString maximum bs = inr (s, rest) -> slen s <= maximum /\ slen s <= 65535.
Proof.
  unfold readPeerString. intros (size & bs1 & Hsz & H)%rbind_inr. apply rguard_inr in H as [Hg H].
  apply rbind_inr in H as (v & bs2 & Hv & [= <- <-]). apply bool_decide_eq_false in Hg.
  apply readFull_inr in Hsz as [Hl _], Hv as [Hlv _]. rewrite slen_bstring. unfold llen. rewrite Hlv.
  pose proof (beRead_range size) as Hr. unfold llen in Hr. rewrite Hl in Hr.
  change (256 ^ Z.of_nat 2) with 65536 in Hr. rewrite Z2Nat.id by lia. lia.
Qed.

(** ** Headers *)
Definition addHeader (h : gmap string string) (kv : string * string) : gmap string string :=
  <[kv.1 := kv.2]> h.
Definition pairBytes (l : list (string * string)) : Z := zsum ((fun p => slen p.1 + slen p.2) <$> l).

Lemma pairBytes_nonneg l : 0 <= pairBytes l.
Proof.
  apply zsum_nonneg, Forall_fmap, Forall_true. intros [k v]. cbn.
  pose proof (slen_nonneg k). pose proof (slen_nonneg v). lia.
Qed.

Lemma foldl_addHeader l acc : foldl addHeader acc l = list_to_map (reverse l) ∪ acc.
Proof.
  revert acc. induction l as [|[k v] l IH]; intros acc; cbn [foldl].
  - by rewrite reverse_nil, list_to_map_nil, map_empty_union.
  - rewrite IH, reverse_cons, list_to_map_app. unfold addHeader. cbn.
    rewrite <- map_union_assoc, insert_empty. by rewrite <- insert_union_singleton_l.
Qed.

Lemma foldl_rangeMap `{MapRange} h : foldl addHeader ∅ (rangeMap h) = h.
Proof.
  rewrite foldl_addHeader, map_union_empty. transitivity (list_to_map (M := gmap string string) (map_to_list h)).
  - apply list_to_map_proper; rewrite reverse_Permutation, rangeMap_perm; [|done].
    apply NoDup_fst_map_to_list.
  - apply list_to_map_to_list.
Qed.

Lemma pairBytes_rangeMap `{MapRange} h : pairBytes (rangeMap h) = headerBytes h.
Proof. unfold pairBytes, headerBytes, msum. by rewrite rangeMap_perm. Qed.

Lemma length_rangeMap `{MapRange} h : length (rangeMap h) = size h.
Proof. rewrite rangeMap_perm. apply length_map_to_list. Qed.

Definition encPair (kv : string * string) : list byte := encString kv.1 ++ encString kv.2.

Lemma decodes_headers l hb acc :
  0 <= hb -> hb + pairBytes l <= maxHeaders ->
  decodes (readHeaders (length l) hb acc) (concat (encPair <$> l)) (foldl addHeader acc l).
Proof.
  revert hb acc. induction l as [|[k v] l IH]; intros hb acc Hhb Hl; [apply decodes_ret|].
  change (pairBytes ((k, v) :: l)) with (zsum ((slen k + slen v) :: ((fun p => slen p.1 + slen p.2) <$> l))) in Hl.
  rewrite zsum_cons in Hl. fold (pairBytes l) in Hl. pose proof (pairBytes_nonneg l).
  pose proof (slen_nonneg k). pose proof (slen_nonneg v). unfold maxHeaders in Hl.
  cbn [length readHeaders fmap list_fmap concat foldl]. unfold encPair at 1. cbn [fst snd].
  rewrite <- app_assoc.
  eapply decodes_bind; [apply decodes_string; unfold maxHeaders; lia|].
  eapply decodes_bind; [apply decodes_string; unfold maxHeaders; lia|]. cbv zeta.
  apply decodes_guard; [apply bool_decide_false; unfold maxHeaders; lia|].
  apply IH; unfold maxHeaders; lia.
Qed.

Lemma emits_headers `{MapRange} (str : string -> Writer (list byte)) l :
  (forall s, slen s <= 65535 -> emits (str s) (encString s)) ->
  pairBytes l <= maxHeaders ->
  emits (weach l (fun kv => str kv.1 ;>> str kv.2)) (concat (encPair <$> l)).
Proof.
  intros Hstr Hl. apply emits_each. intros [k v] Hin. unfold encPair. cbn [fst snd].
  assert (slen k + slen v <= pairBytes l) as Hle.
  { apply list_elem_of_split in Hin as (l1 & l2 & ->). unfold pairBytes.
    rewrite fmap_app, zsum_app, fmap_cons, zsum_cons. cbn.
    pose proof (pairBytes_nonneg l1). pose proof (pairBytes_nonneg l2). unfold pairBytes in *. lia. }
  pose proof (slen_nonneg k). pose proof (slen_nonneg v). unfold maxHeaders in Hl.
  apply emits_then; apply Hstr; lia.
Qed.

(** ** Messages *)
Definition encMessage `{MapRange} (m : Message) : list byte :=
  encString (m_ID m) ++ encString (m_Topic m) ++ encString (m_Key m) ++ encString (m_Origin m) ++
  (fixedPart m ++ beBytes 8 (m_Sequence m)) ++
  concat (encPair <$> rangeMap (m_Headers m)) ++ m_Payload m.

Definition encMessageV1 `{MapRange} (m : Message) : list byte :=
  encString (m_ID m) ++ encString (m_Topic m) ++ encString (m_Key m) ++
  fixedPart m ++ concat (encPair <$> rangeMap (m_Headers m)) ++ m_Payload m.

Definition encBatch (enc : Message -> list byte) (messages : list Message) : list byte :=
  beBytes 4 (llen messages) ++ concat (enc <$> messages).

Lemma emits_message_gen `{MapRange} (str : string -> Writer (list byte)) maxMessage m :
  (forall s, slen s <= 65535 -> emits (str s) (encString s)) -> wireOk maxMessage m ->
  emits (str (m_ID m) ;>> str (m_Topic m) ;>> str (m_Key m) ;>> str (m_Origin m) ;>>
    if bool_decide (65535 < mlen (m_Headers m)) || bool_decide (4294967295 < llen (m_Payload m))
    then wfail errMessageTooLarge else
    wwrite (fixedPart m ++ beBytes 8 (m_Sequence m)) ;>>
    weach (rangeMap (m_Headers m)) (fun kv => str kv.1 ;>> str kv.2) ;>>
    wwrite (m_Payload m)) (encMessage m).
Proof.
  intros Hstr O. destruct O. unfold maxHeaders in *.
  rewrite !bool_decide_false by lia. cbn [orb].
  repeat (apply emits_then; [first [apply Hstr; lia|apply emits_write|apply emits_headers; [done|]]|]).
  - by rewrite pairBytes_rangeMap.
  - apply emits_write.
Qed.

Lemma emits_messageV1 `{MapRange} maxMessage m :
  wireOk maxMessage m -> emits (writeMessageV1 m) (encMessageV1 m).
Proof.
  intros O. destruct O. unfold maxHeaders in *.
  repeat (apply emits_then; [first [apply emits_writePeerString; lia|apply emits_write|
    apply emits_headers; [apply emits_writePeerString|]]|]).
  - by rewrite pairBytes_rangeMap.
  - apply emits_write.
Qed.

(** The fields of the fixed part. *)
Lemma field_beBytes (pre post : list byte) off len v :
  length pre = off -> field off len (pre ++ beBytes len v ++ post) = v mod 256 ^ Z.of_nat len.
Proof.
  intros <-. unfold field. rewrite drop_app_length, take_app_length' by (by rewrite length_beBytes).
  apply beRead_beBytes.
Qed.

Lemma fixed_fields m post :
  let fixed := fixedPart m ++ post in
  field 0 2 fixed = mlen (m_Headers m) mod 65536 /\
  field 2 4 fixed = llen (m_Payload m) mod 4294967296 /\
  field 6 8 fixed = u64 (m_CreatedAt m) /\
  field 14 8 fixed = u64 (m_ExpiresAt m).
Proof.
  cbv zeta. unfold fixedPart. rewrite <- !app_assoc. split_and!.
  - apply (field_beBytes []). done.
  - apply (field_beBytes (beBytes 2 _)). done.
  - rewrite (app_assoc (beBytes 2 _)). apply field_beBytes. done.
  - rewrite (app_assoc (beBytes 2 _)), (app_assoc (_ ++ beBytes 4 _)). apply field_beBytes. done.
Qed.

(** Headers and payload, the tail both versions share. *)
Lemma decodes_tail `{MapRange} {A} maxMessage (f : gmap string string -> list byte -> A) m :
  wireOk maxMessage m ->
  decodes (headers <~ readHeaders (Z.to_nat (mlen (m_Headers m))) 0 ∅ ;;
           payload <~ readFull (Z.to_nat (llen (m_Payload m))) ;; rret (f headers payload))
    (concat (encPair <$> rangeMap (m_Headers m)) ++ m_Payload m) (f (m_Headers m) (m_Payload m)).
Proof.
  intros O. destruct O. unfold mlen, llen. rewrite !Nat2Z.id. eapply decodes_bind.
  - rewrite <- length_rangeMap. apply decodes_headers; [done|]. by rewrite pairBytes_rangeMap.
  - rewrite foldl_rangeMap. by apply decodes_bind_ret, decodes_full.
Qed.

Lemma size_guard maxMessage m :
  wireOk maxMessage m ->
  bool_decide (256 < mlen (m_Headers m) mod 65536) ||
    bool_decide (maxMessage < llen (m_Payload m) mod 4294967296) = false /\
  mlen (m_Headers m) mod 65536 = mlen (m_Headers m) /\
  llen (m_Payload m) mod 4294967296 = llen (m_Payload m).
Proof.
  intros O. destruct O. pose proof (llen_nonneg (m_Payload m)).
  assert (0 <= mlen (m_Headers m)) by (unfold mlen; lia).
  rewrite !Z.mod_small by lia. rewrite !bool_decide_false by lia. done.
Qed.

Lemma decodes_message `{MapRange} maxMessage m :
  wireOk maxMessage m -> decodes (readMessage maxMessage) (encMessage m) (wireOf m).
Proof.
  intros O. unfold readMessage, encMessage. destruct (size_guard _ _ O) as (Hg & Hc & Hp).
  do 4 (eapply decodes_bind; [apply decodes_string; [apply O|done]|]).
  eapply decodes_bind; [by apply decodes_full|]. cbv zeta.
  destruct (fixed_fields m (beBytes 8 (m_Sequence m))) as (-> & -> & -> & ->).
  apply decodes_guard; [done|]. rewrite Hc, Hp, !i64_u64 by apply O.
  assert (field 22 8 (fixedPart m ++ beBytes 8 (m_Sequence m)) = m_Sequence m) as ->.
  { rewrite <- (app_nil_r (beBytes 8 (m_Sequence m))). rewrite (field_beBytes (fixedPart m)) by done.
    apply Z.mod_small. destruct (wo_sequence _ _ O). done. }
  apply (decodes_tail maxMessage (fun h p => mkMessage _ _ _ h p _ _ _ _ _ _ _ _ _ _ _) m O).
Qed.

Lemma decodes_messageV1 `{MapRange} maxMessage m :
  wireOk maxMessage m ->
  decodes (readMessageV1 maxMessage) (encMessageV1 m)
    ((wireOf m) <| m_Origin := "" |> <| m_Sequence := 0 |>).
Proof.
  intros O. unfold readMessageV1, encMessageV1. destruct (size_guard _ _ O) as (Hg & Hc & Hp).
  do 3 (eapply decodes_bind; [apply decodes_string; [apply O|done]|]).
  eapply decodes_bind; [by apply decodes_full|]. cbv zeta.
  pose proof (fixed_fields m []) as Hf. cbv zeta in Hf. rewrite app_nil_r in Hf.
  destruct Hf as (-> & -> & -> & ->).
  apply decodes_guard; [done|]. rewrite Hc, Hp, !i64_u64 by apply O.
  apply (decodes_tail maxMessage (fun h p => mkMessage _ _ _ h p _ _ _ _ _ _ _ _ _ _ _) m O).
Qed.

(** ** Batches *)
Definition batchOk (maxMessage : Z) (messages : list Message) : Prop :=
  1 <= llen messages <= maxBatchMessages /\ Forall (wireOk maxMessage) messages.

Lemma badBatchSize_ok maxMessage messages :
  batchOk maxMessage messages -> badBatchSize messages = false.
Proof.
  intros [Hl _]. unfold badBatchSize. rewrite !bool_decide_false by lia. done.
Qed.

Lemma emits_batch (f : Message -> Writer (list byte)) enc maxMessage messages :
  batchOk maxMessage messages -> (forall m, wireOk maxMessage m -> emits (f m) (enc m)) ->
  emits (wwrite (beBytes 4 (llen messages)) ;>> weach messages f) (encBatch enc messages).
Proof.
  intros [_ Hok] Hf. apply emits_then; [apply emits_write|]. apply emits_each.
  intros m Hm. apply Hf. by eapply Forall_forall in Hok.
Qed.

Lemma decodes_batch (rd : Reader Message) enc f maxMessage messages :
  batchOk maxMessage messages -> (forall m, wireOk maxMessage m -> decodes rd (enc m) (f m)) ->
  decodes (readBatchOf rd) (encBatch enc messages) (f <$> messages).
Proof.
  intros [Hl Hok] Hd. unfold readBatchOf, encBatch. unfold maxBatchMessages in Hl.
  eapply decodes_bind; [by apply decodes_full, length_beBytes|]. cbv zeta.
  rewrite beRead_beBytes, Z.mod_small by lia. unfold maxBatchMessages.
  apply decodes_guard; [by rewrite !bool_decide_false by lia|]. unfold llen. rewrite Nat2Z.id.
  apply decodes_times. intros m Hm. apply Hd. by eapply Forall_forall in Hok.
Qed.

(** C34: replication round trip: a batch within the limits is encoded without error, whatever
    the order in which the headers are visited, and the peer decodes exactly the same
    messages from it, consuming exactly the bytes of the batch. *)
Theorem peerBatch_roundtrip `{MapRange} maxMessage messages out rest :
  batchOk maxMessage messages ->
  exists bs, appendPeerBatch messages out = (out ++ bs, None) /\
    writePeerBatch true messages out = (out ++ bs, None) /\
    writePeerBatch false messages out = (out ++ bs, None) /\
    readPeerBatch maxMessage (bs ++ rest) = inr (wireOf <$> messages, rest).
Proof.
  intros Ok. pose proof (badBatchSize_ok _ _ Ok) as Hb. exists (encBatch encMessage messages).
  assert (Ha : emits (appendPeerBatch messages) (encBatch encMessage messages)).
  { unfold appendPeerBatch. rewrite Hb. apply (emits_batch _ _ maxMessage); [done|].
    intros m Hm. apply (emits_message_gen appendPeerString maxMessage); [apply emits_appendPeerString|done]. }
  split_and!.
  - apply Ha.
  - unfold writePeerBatch. rewrite Hb, Ha. done.
  - unfold writePeerBatch. rewrite Hb. apply (emits_batch _ _ maxMessage); [done|].
    intros m Hm. apply (emits_message_gen writePeerString maxMessage); [apply emits_writePeerString|done].
  - apply (decodes_batch _ _ _ maxMessage); [done|]. intros m. apply decodes_message.
Qed.

(** The version-1 format carries everything but the origin and the sequence. *)
Theorem peerBatchV1_roundtrip `{MapRange} maxMessage messages out rest :
  batchOk maxMessage messages ->
  exists bs, writePeerBatchV1 messages out = (out ++ bs, None) /\
    readPeerBatchV1 maxMessage (bs ++ rest) =
    inr ((fun m => (wireOf m) <| m_Origin := "" |> <| m_Sequence := 0 |>) <$> messages, rest).
Proof.
  intros Ok. pose proof (badBatchSize_ok _ _ Ok) as Hb. exists (encBatch encMessageV1 messages). split.
  - unfold writePeerBatchV1. rewrite Hb. apply (emits_batch _ _ maxMessage); [done|].
    intros m. apply emits_messageV1.
  - apply (decodes_batch _ _ (fun m => (wireOf m) <| m_Origin := "" |> <| m_Sequence := 0 |>) maxMessage);
      [done|]. intros m. apply decodes_messageV1.
Qed.

(** ** What a decoder accepts *)
Lemma headerBytes_insert k v h : headerBytes (<[k := v]> h) <= headerBytes h + (slen k + slen v).
Proof.
  unfold headerBytes. destruct (h !! k) as [v0|] eqn:E.
  - rewrite <- insert_delete_eq, msum_insert by apply lookup_delete_eq.
    rewrite (msum_delete _ h k v0 E). pose proof (slen_nonneg k). pose proof (slen_nonneg v0). lia.
  - rewrite msum_insert by done. lia.
Qed.

Lemma readHeaders_inr n hb acc bs h rest :
  readHeaders n hb acc bs = inr (h, rest) -> headerBytes acc <= hb -> hb <= maxHeaders ->
  mlen h <= mlen acc + Z.of_nat n /\ headerBytes h <= maxHeaders.
Proof.
  revert hb acc bs. induction n as [|n IH]; intros hb acc bs; cbn [readHeaders].
  - intros [= <- <-]. lia.
  - intros (k & bs1 & Hk & (v & bs2 & Hv & H)%rbind_inr)%rbind_inr Hacc Hhb.
    apply rguard_inr in H as [Hg%bool_decide_eq_false H].
    pose proof (headerBytes_insert k v acc). destruct (IH _ _ _ H); [lia..|].
    split; [|done]. unfold mlen in *. pose proof (map_size_insert k v acc) as Hs.
    destruct (acc !! k); cbn in Hs; lia.
Qed.

Lemma field_range off len fixed n :
  length fixed = n -> (off + len <= n)%nat -> 0 <= field off len fixed < 256 ^ Z.of_nat len.
Proof.
  intros Hl Hn. unfold field. pose proof (beRead_range (take len (drop off fixed))) as H.
  unfold llen in H. rewrite length_take, length_drop, Nat.min_l in H by lia. done.
Qed.

Lemma readMessage_inr maxMessage bs m rest :
  readMessage maxMessage bs = inr (m, rest) -> wireOk maxMessage m /\ wireOf m = m.
Proof.
  unfold readMessage.
  intros (id & b1 & Hid & (topic & b2 & Ht & (key & b3 & Hk & (origin & b4 & Ho & H)%rbind_inr)%rbind_inr)%rbind_inr)%rbind_inr.
  apply rbind_inr in H as (fixed & b5 & Hf & H). apply rguard_inr in H as [Hg H].
  apply orb_false_iff in Hg as [Hc%bool_decide_eq_false Hp%bool_decide_eq_false].
  apply rbind_inr in H as (h & b6 & Hh & (payload & b7 & Hpl & [= <- <-])%rbind_inr).
  apply readFull_inr in Hf as [Hlf _], Hpl as [Hlp _].
  apply readHeaders_inr in Hh as [Hh1 Hh2]; [|done|done].
  apply readPeerString_inr in Hid as [? _], Ht as [? _], Hk as [? _], Ho as [? _].
  pose proof (field_range 0 2 fixed _ Hlf ltac:(lia)). pose proof (field_range 2 4 fixed _ Hlf ltac:(lia)).
  pose proof (field_range 22 8 fixed _ Hlf ltac:(lia)).
  assert (llen payload = field 2 4 fixed) as Hll by (unfold llen; lia).
  split; [|done]. split; cbn [m_ID m_Topic m_Key m_Origin m_Headers m_Payload m_CreatedAt m_ExpiresAt m_Sequence];
    try done; try apply i64_range.
  - unfold mlen in Hh1 at 2. rewrite map_size_empty in Hh1. lia.
  - lia.
  - rewrite Hll. change (256 ^ Z.of_nat 4) with 4294967296 in *. lia.
Qed.

(** a decoder is safe on any input: when it accepts a batch, the batch has between 1 and
    4096 messages and every message is within the limits a broker may forward (identifiers,
    headers, payload), however the bytes were made. *)
Theorem readPeerBatch_bounds maxMessage bs messages rest :
  readPeerBatch maxMessage bs = inr (messages, rest) ->
  batchOk maxMessage messages /\ wireOf <$> messages = messages.
Proof.
  unfold readPeerBatch, readBatchOf.
  intros (cb & b1 & Hcb & H)%rbind_inr. apply rguard_inr in H as [Hg H].
  apply orb_false_iff in Hg as [H0%bool_decide_eq_false H1%bool_decide_eq_false].
  apply (rtimes_Forall (fun m => wireOk maxMessage m /\ wireOf m = m)) in H as [Hlen Hok];
    [|intros; by eapply readMessage_inr].
  apply readFull_inr in Hcb as [Hlcb _]. pose proof (beRead_range cb).
  split; [split|].
  - unfold llen. lia.
  - eapply Forall_impl; [exact Hok|]. by intros m [].
  - clear Hlen. induction Hok as [|m l [_ E] _ IH]; [done|]. cbn. by rewrite E, IH.
Qed.

(** what a broker accepted from a peer it can forward to another one: the batch is encoded
    again without error, and the next broker reads the same messages. *)
Theorem peerBatch_relay `{MapRange} maxMessage bs messages rest :
  readPeerBatch maxMessage bs = inr (messages, rest) ->
  exists bs', writePeerBatch true messages [] = (bs', None) /\
    readPeerBatch maxMessage bs' = inr (messages, []).
Proof.
  intros Hr. destruct (readPeerBatch_bounds _ _ _ _ Hr) as [Ok E].
  destruct (peerBatch_roundtrip maxMessage messages [] [] Ok) as (bs' & _ & Hw & _ & Hd).
  exists bs'. rewrite app_nil_r, E in Hd. done.
Qed.

(** ** Witnesses *)
Definition ex_range : MapRange := {|
  rangeMap := map_to_list;
  rangeMap_perm := fun h => Permutation_refl (map_to_list h)
|}.

Definition ex_message : Message :=
  mkMessage "id-1" "orders" "k" (<["content-type" := "text/plain"]> (<["x" := "y"]> ∅))
    [x01; x02; xff] 1000 (-5) "local:orders" 7 (Some 3%positive) None None 4 5 300 9.

Lemma ex_batchOk : batchOk 16 [ex_message; ex_message].
Proof.
  split; [vm_compute; split; discriminate|].
  repeat constructor; vm_compute; try (split; [discriminate|reflexivity]); discriminate.
Defined.

Lemma peerBatch_roundtrip_witness :
  exists bs, appendPeerBatch (H := ex_range) [ex_message; ex_message] [] = ([] ++ bs, None) /\
    readPeerBatch 16 (bs ++ [x2a]) = inr ([wireOf ex_message; wireOf ex_message], [x2a]).
Proof.
  destruct (peerBatch_roundtrip (H := ex_range) 16 [ex_message; ex_message] [] [x2a] ex_batchOk)
    as (bs & H1 & _ & _ & H2).
  exists bs. split; [exact H1|exact H2].
Defined.

Lemma peerBatchV1_roundtrip_witness :
  exists bs, writePeerBatchV1 (H := ex_range) [ex_message] [] = ([] ++ bs, None) /\ length bs = 78%nat.
Proof.
  destruct (peerBatchV1_roundtrip (H := ex_range) 16 [ex_message] [] []) as (bs & H1 & _).
  - destruct ex_batchOk as [_ Hok]. apply Forall_cons in Hok as [Hm _].
    split; [vm_compute; split; discriminate|by constructor].
  - exists bs. split; [exact H1|]. vm_compute in H1. injection H1 as <-. reflexivity.
Defined.

Lemma readPeerBatch_bounds_witness :
  exists messages rest, readPeerBatch 16 (appendPeerBatch (H := ex_range) [ex_message] []).1 = inr (messages, rest)
    /\ batchOk 16 messages.
Proof.
  destruct (readPeerBatch 16 (appendPeerBatch (H := ex_range) [ex_message] []).1) as [e|[ms rest]] eqn:E.
  - exfalso. vm_compute in E. discriminate.
  - exists ms, rest. split; [done|]. exact (proj1 (readPeerBatch_bounds _ _ _ _ E)).
Defined.

Lemma peerBatch_relay_witness :
  exists messages bs', writePeerBatch (H := ex_range) true messages [] = (bs', None) /\ llen messages = 1.
Proof.
  destruct (readPeerBatch 16 (appendPeerBatch (H := ex_range) [ex_message] []).1) as [e|[ms rest]] eqn:E.
  - exfalso. vm_compute in E. discriminate.
  - destruct (peerBatch_relay (H := ex_range) 16 _ ms rest E) as (bs' & Hw & _).
    exists ms, bs'. split; [exact Hw|]. vm_compute in E. injection E as <- _. reflexivity.
Defined.
