(* ===== verification/Idempotency.v ===== *)
(** * Idempotent publication: the table of operations in flight and done

    [beginIdempotency], [finishIdempotency] and the accessors of internal/broker/broker.go.  An
    entry is a pointer shared by the table, its eviction order and the requests waiting for
    it; [ie_ready] is whether its [ready] channel is closed.  Each critical section of [b.mu] is
    one step; a request that waits on [ready] runs the step again when the owner failed. *)
From S2P Require Import Prelude Types.
#[local] Open Scope Z_scope.

(** [type idempotencyEntry struct]; the fingerprint is the SHA-256 sum of the request. *)
Record idempotencyEntry := mkEntry {
  ie_id : string;
  ie_expiresAt : Z;
  ie_accepted : bool;
  ie_replicated : bool;
  ie_ready : bool;
  ie_fingerprint : list byte;
  ie_inProgress : bool;
}.
#[export] Instance idempotencyEntry_settable : Settable idempotencyEntry := fun r =>
  mkEntry (ie_id r) (ie_expiresAt r) (ie_accepted r) (ie_replicated r) (ie_ready r)
    (ie_fingerprint r) (ie_inProgress r).
#[export] Instance set_ie_expiresAt : Setter ie_expiresAt := ltac:(derive_setter).
#[export] Instance set_ie_accepted : Setter ie_accepted := ltac:(derive_setter).
#[export] Instance set_ie_replicated : Setter ie_replicated := ltac:(derive_setter).
#[export] Instance set_ie_ready : Setter ie_ready := ltac:(derive_setter).
#[export] Instance set_ie_inProgress : Setter ie_inProgress := ltac:(derive_setter).

(** The idempotency fields of [Broker], with the entries the pointers point to. *)
Record idemTable := mkIdem {
  id_limit : Z; (* cfg.IdempotencyEntries *)
  id_store : gmap loc idempotencyEntry;
  id_map : gmap string loc; (* idempotency *)
  id_order : list (string * loc); (* idempotencyOrder *)
}.
#[export] Instance idemTable_settable : Settable idemTable := fun r =>
  mkIdem (id_limit r) (id_store r) (id_map r) (id_order r).
#[export] Instance set_id_store : Setter id_store := ltac:(derive_setter).
#[export] Instance set_id_map : Setter id_map := ltac:(derive_setter).
#[export] Instance set_id_order : Setter id_order := ltac:(derive_setter).

Definition newIdem (limit : Z) : idemTable := mkIdem limit ∅ ∅ [].

(** ** Operations *)

(** The table still maps the key of the order entry to the entry itself. *)
Definition current (t : idemTable) (item : string * loc) : bool :=
  bool_decide (id_map t !! item.1 = Some item.2).

(** The [for i, candidate := range] loop: the first entry that is current and not in progress
    is deleted, and its place in the order closed. *)
Fixpoint evictFirst (t : idemTable) (seen rest : list (string * loc)) : option idemTable :=
  match rest with
  | [] => None
  | item :: rest =>
    if negb (current t item)
       || default false (ie_inProgress <$> id_store t !! item.2)
    then evictFirst t (seen ++ [item]) rest
    else Some ((t <| id_map := delete item.1 (id_map t) |>) <| id_order := seen ++ rest |>)
  end.

(** A new entry becomes the current one of its key; the order is compacted past twice the limit. *)
Definition insertEntry (key id : string) (expiresAt : Z) (fingerprint : list byte) (t : idemTable)
    : loc * idemTable :=
  let e := fresh (dom (id_store t)) in
  let t := ((t <| id_store := <[e := mkEntry id expiresAt false false false fingerprint true]> (id_store t) |>)
              <| id_map := <[key := e]> (id_map t) |>)
             <| id_order := id_order t ++ [(key, e)] |> in
  (e, if bool_decide (2 * id_limit t < llen (id_order t))
      then t <| id_order := filter (fun item => current t item) (id_order t) |> else t).

(** How one turn of [beginIdempotency] ends. *)
Inductive begun :=
| Conflict (* errIdempotencyConflict *)
| Exhausted (* "idempotency capacity exhausted" *)
| Wait (e : loc) (* blocked on existing.ready *)
| Owner (e : loc).

(** The part of the turn that makes the request the owner of a new entry. *)
Definition beginOwner (key id : string) (expiresAt : Z) (fingerprint : list byte) (t : idemTable)
    : begun * idemTable :=
  if bool_decide (id_limit t <= mlen (id_map t)) then
    match evictFirst t [] (id_order t) with
    | None => (Exhausted, t)
    | Some t => let '(e, t) := insertEntry key id expiresAt fingerprint t in (Owner e, t)
    end
  else let '(e, t) := insertEntry key id expiresAt fingerprint t in (Owner e, t).

Definition beginIdempotency (key id : string) (expiresAt : Z) (fingerprint : list byte) (now : Z)
    (t : idemTable) : option (begun * idemTable) :=
  match id_map t !! key with
  | None => Some (beginOwner key id expiresAt fingerprint t)
  | Some e =>
    existing ← id_store t !! e ;
    Some (if ie_inProgress existing || bool_decide (now < ie_expiresAt existing) then
            if bool_decide (ie_fingerprint existing = fingerprint) then (Wait e, t) else (Conflict, t)
          else beginOwner key id expiresAt fingerprint t)
  end.

(** What the waiting request does when [ready] is closed: [Some e] returns the entry to the
    caller as a duplicate, [None] runs the turn again; it blocks while the channel is open. *)
Definition afterReady (e : loc) (t : idemTable) : option (option loc) :=
  existing ← id_store t !! e ;
  if ie_ready existing then Some (if ie_accepted existing then Some e else None) else None.

(** [finishIdempotency]; closing a closed channel panics. *)
Definition finishIdempotency (key : string) (entry : loc) (accepted replicated : bool) (t : idemTable)
    : option idemTable :=
  x ← id_store t !! entry ;
  if ie_ready x then None else
  let x := (((x <| ie_accepted := accepted |>) <| ie_replicated := replicated |>)
              <| ie_inProgress := false |>) <| ie_ready := true |> in
  let t' := t <| id_store := <[entry := x]> (id_store t) |> in
  Some (if negb accepted && bool_decide (id_map t !! key = Some entry)
        then t' <| id_map := delete key (id_map t) |> else t').

Definition updateEntry (f : idempotencyEntry -> idempotencyEntry) (e : loc) (t : idemTable)
    : option idemTable :=
  x ← id_store t !! e ; Some (t <| id_store := <[e := f x]> (id_store t) |>).

Definition markIdempotencyReplicated : loc -> idemTable -> option idemTable :=
  updateEntry (fun x => x <| ie_replicated := true |>).
Definition idempotencyReplicated (e : loc) (t : idemTable) : option bool :=
  ie_replicated <$> id_store t !! e.
(** [idempotency.expiresAt = m.ExpiresAt] in [publish]. *)
Definition setExpiresAt (expiresAt : Z) : loc -> idemTable -> option idemTable :=
  updateEntry (fun x => x <| ie_expiresAt := expiresAt |>).

(** ** The invariant

    [owners] maps a key to the entry of the request that is executing it: the one that got
    [Owner] and has not called [finishIdempotency]. *)
Record idem_inv (owners : gmap string loc) (t : idemTable) : Prop := {
  ii_limit : 0 < id_limit t;
  ii_size : mlen (id_map t) <= id_limit t;
  ii_order : llen (id_order t) <= 2 * id_limit t;
  ii_map : forall k e, id_map t !! k = Some e -> (k, e) ∈ id_order t;
  ii_nodup : NoDup (snd <$> id_order t);
  ii_store : forall k e, (k, e) ∈ id_order t -> is_Some (id_store t !! e);
  ii_ready : forall e x, id_store t !! e = Some x -> ie_ready x = negb (ie_inProgress x);
  ii_owner : forall k e, owners !! k = Some e -> id_map t !! k = Some e /\
    exists x, id_store t !! e = Some x /\ ie_inProgress x = true;
  ii_progress : forall k e x, id_map t !! k = Some e -> id_store t !! e = Some x ->
    if ie_inProgress x then owners !! k = Some e else ie_accepted x = true;
}.

Lemma idem_inv_new limit : 0 < limit -> idem_inv ∅ (newIdem limit).
Proof.
  intros Hl. split; cbn; try done.
  - unfold mlen. rewrite map_size_empty. lia.
  - unfold llen. cbn. lia.
  - constructor.
  - intros k e H. by apply elem_of_nil in H.
Qed.

Lemma ii_map_store owners t k e : idem_inv owners t -> id_map t !! k = Some e -> is_Some (id_store t !! e).
Proof. intros I Hk. by eapply (ii_store _ _ I), (ii_map _ _ I). Qed.

Lemma order_inj (l : list (string * loc)) k k' e :
  NoDup (snd <$> l) -> (k, e) ∈ l -> (k', e) ∈ l -> k = k'.
Proof.
  induction l as [|[k0 e0] l IH]; cbn; [by intros _ ?%elem_of_nil|].
  intros [Hn Hnd]%NoDup_cons [E|H1]%elem_of_cons [E'|H2]%elem_of_cons; simplify_eq; auto; exfalso; apply Hn.
  - by apply (list_elem_of_fmap_2 snd l (k', e0)).
  - by apply (list_elem_of_fmap_2 snd l (k, e0)).
Qed.

(** ** Eviction *)
Lemma evictFirst_Some t seen rest t' :
  evictFirst t seen rest = Some t' ->
  exists l1 k e l2, rest = l1 ++ (k, e) :: l2 /\ id_map t !! k = Some e /\
    (forall x, id_store t !! e = Some x -> ie_inProgress x = false) /\
    t' = (t <| id_map := delete k (id_map t) |>) <| id_order := (seen ++ l1) ++ l2 |>.
Proof.
  revert seen. induction rest as [|[k e] rest IH]; intros seen; cbn [evictFirst]; [done|].
  destruct (negb _ || _) eqn:E.
  - intros (l1 & k' & e' & l2 & -> & Hm & Hp & ->)%IH. exists ((k, e) :: l1), k', e', l2.
    rewrite <- !app_assoc. done.
  - intros [= <-]. apply orb_false_iff in E as [E1 E2]. unfold current in E1.
    apply negb_false_iff, bool_decide_eq_true in E1. exists [], k, e, rest.
    rewrite app_nil_r. split_and!; [done|done| |done].
    intros x Hx. cbn in E2. by rewrite Hx in E2.
Qed.

Lemma evictFirst_None t seen rest :
  evictFirst t seen rest = None ->
  forall k e x, (k, e) ∈ rest -> id_map t !! k = Some e -> id_store t !! e = Some x ->
    ie_inProgress x = true.
Proof.
  revert seen. induction rest as [|item rest IH]; intros seen; cbn [evictFirst]; [by intros _ ????%elem_of_nil|].
  destruct (negb _ || _) eqn:E; [|done]. intros Hn k e x [<-|Hin]%elem_of_cons Hm Hx.
  - unfold current in E. cbn in E. rewrite bool_decide_true, Hx in E by done. done.
  - by eapply IH.
Qed.

Lemma evict_inv owners t seen t' :
  idem_inv owners t -> evictFirst t seen (id_order t) = Some t' -> seen = [] ->
  idem_inv owners t' /\ mlen (id_map t') = mlen (id_map t) - 1 /\
  id_limit t' = id_limit t /\ id_store t' = id_store t.
Proof.
  intros I E ->. apply evictFirst_Some in E as (l1 & k & e & l2 & Ho & Hm & Hp & ->).
  destruct (ii_map_store _ _ _ _ I Hm) as [x Hx]. specialize (Hp x Hx).
  assert (Hperm : id_order t ≡ₚ (k, e) :: ([] ++ l1) ++ l2) by (rewrite Ho; symmetry; apply Permutation_middle).
  assert (Hsz : mlen (delete k (id_map t)) = mlen (id_map t) - 1).
  { unfold mlen. pose proof (map_size_delete_Some k (id_map t) (ex_intro _ e Hm)).
    assert (size (id_map t) <> 0%nat); [|lia]. intros Hz%map_size_empty_iff. rewrite Hz in Hm.
    by rewrite lookup_empty in Hm. }
  split; [|done]. destruct I as [I1 I2 I3 I4 I5 I6 I7 I8 I9]. split; cbn; try done.
  - lia.
  - unfold llen in *. rewrite Hperm in I3. cbn in *. lia.
  - intros k' e' [Hne Hk]%lookup_delete_Some. apply I4 in Hk. rewrite Hperm in Hk.
    apply elem_of_cons in Hk as [[=]|]; done.
  - rewrite Hperm in I5. by apply NoDup_cons in I5 as [_ I5].
  - intros k' e' Hin. apply (I6 k'). rewrite Hperm. by right.
  - intros k' e' Hk. destruct (I8 _ _ Hk) as (Hm' & x' & Hx' & Hpr). split; [|eauto].
    rewrite lookup_delete_ne; [done|]. intros <-. congruence.
  - intros k' e' x' [Hne Hk]%lookup_delete_Some. by apply I9.
Qed.

(** ** Insertion *)
Lemma current_length t (l : list (string * loc)) :
  NoDup (snd <$> l) -> llen (filter (fun item => current t item) l) <= mlen (id_map t).
Proof.
  intros Hnd. unfold llen, mlen. rewrite <- (length_map_to_list (id_map t)).
  assert (Hsub : filter (fun item => current t item) l ⊆+ map_to_list (id_map t)).
  { apply NoDup_submseteq.
    - apply NoDup_filter. by eapply NoDup_fmap_1.
    - intros [k e] [Hc _]%list_elem_of_filter. apply elem_of_map_to_list.
      unfold current in Hc. apply Is_true_true, bool_decide_eq_true in Hc. done. }
  apply submseteq_length in Hsub. lia.
Qed.

Lemma filter_snd_nodup (P : string * loc -> Prop) `{forall x, Decision (P x)} (l : list (string * loc)) :
  NoDup (snd <$> l) -> NoDup (snd <$> filter P l).
Proof.
  induction l as [|x l IH]; [done|]. rewrite filter_cons, fmap_cons. intros [Hx Hnd]%NoDup_cons.
  case_decide; [|auto]. rewrite fmap_cons. apply NoDup_cons. split; [|auto].
  intros (y & E & Hy)%list_elem_of_fmap. apply list_elem_of_filter in Hy as [_ Hy]. apply Hx.
  rewrite E. by apply list_elem_of_fmap_2.
Qed.

Section Insert.
Context (owners : gmap string loc) (t : idemTable) (key id : string) (expiresAt : Z) (fp : list byte).
Context (I : idem_inv owners t) (Hroom : mlen (id_map t) < id_limit t).
Context (Hstale : forall e x, id_map t !! key = Some e -> id_store t !! e = Some x ->
  ie_inProgress x = false).

Lemma key_no_owner : owners !! key = None.
Proof using I Hstale.
  destruct (owners !! key) as [e|] eqn:E; [|done].
  destruct (ii_owner _ _ I _ _ E) as (Hm & x & Hx & Hp). rewrite (Hstale _ _ Hm Hx) in Hp. done.
Qed.

(** The table before the order is compacted. *)
Definition inserted (e : loc) : idemTable :=
  ((t <| id_store := <[e := mkEntry id expiresAt false false false fp true]> (id_store t) |>)
     <| id_map := <[key := e]> (id_map t) |>)
    <| id_order := id_order t ++ [(key, e)] |>.

Lemma inserted_compacts e (order : list (string * loc)) :
  e ∉ dom (id_store t) -> llen order <= 2 * id_limit t ->
  (forall k x, (k, x) ∈ order -> (k, x) ∈ id_order t ++ [(key, e)]) ->
  (forall k x, <[key := e]> (id_map t) !! k = Some x -> (k, x) ∈ order) ->
  NoDup (snd <$> order) ->
  idem_inv (<[key := e]> owners) ((inserted e) <| id_order := order |>).
Proof using I Hroom Hstale.
  intros Hfresh Hlen Hsub Hmap Hnd. pose proof I as [I1 I2 I3 I4 I5 I6 I7 I8 I9].
  assert (Hne : forall k x, id_map t !! k = Some x -> x <> e).
  { intros k x Hk ->. apply Hfresh, elem_of_dom. by eapply ii_map_store. }
  split; cbn; try done.
  - unfold mlen in *. pose proof (map_size_insert key e (id_map t)) as Hs.
    destruct (id_map t !! key); cbn in Hs; lia.
  - intros k x Hin%Hsub. apply elem_of_app in Hin as [Hin|Hin%list_elem_of_singleton].
    + destruct (I6 _ _ Hin) as [y Hy]. destruct (decide (e = x)) as [<-|];
        [rewrite lookup_insert_eq|rewrite lookup_insert_ne by done]; eauto.
    + injection Hin as -> ->. rewrite lookup_insert_eq. eauto.
  - intros x y. rewrite lookup_insert. case_decide; [by intros [= <-]|apply I7].
  - intros k x. rewrite lookup_insert. case_decide as Ek.
    + intros [= <-]. subst k. rewrite lookup_insert_eq. split; [done|].
      exists (mkEntry id expiresAt false false false fp true). by rewrite lookup_insert_eq.
    + intros Hk. destruct (I8 _ _ Hk) as (Hm & y & Hy & Hp). rewrite lookup_insert_ne by done.
      split; [done|]. exists y. rewrite lookup_insert_ne; [done|]. specialize (Hne _ _ Hm). done.
  - intros k x y. rewrite !lookup_insert. destruct (decide (key = k)) as [<-|Ek].
    + intros [= <-]. rewrite decide_True by done. by intros [= <-].
    + intros Hk. specialize (Hne _ _ Hk). rewrite decide_False by done. intros Hy.
      specialize (I9 _ _ _ Hk Hy). done.
Qed.

Lemma insert_inv e t' :
  insertEntry key id expiresAt fp t = (e, t') ->
  idem_inv (<[key := e]> owners) t' /\ id_map t' = <[key := e]> (id_map t) /\ e ∉ dom (id_store t).
Proof using I Hroom Hstale.
  unfold insertEntry. set (e' := fresh (dom (id_store t))). cbv zeta. fold (inserted e').
  intros [= <- <-]. assert (Hfresh : e' ∉ dom (id_store t)) by apply is_fresh.
  pose proof (ii_nodup _ _ I) as Hnd.
  assert (Hnd' : NoDup (snd <$> id_order t ++ [(key, e')])).
  { rewrite fmap_app. apply NoDup_app. split_and!; [done| |apply NoDup_singleton].
    intros x ([k y] & -> & Hin)%list_elem_of_fmap Hx. cbn in Hx. apply list_elem_of_singleton in Hx as ->.
    apply Hfresh, elem_of_dom. by eapply (ii_store _ _ I). }
  assert (Hmap : forall k x, <[key := e']> (id_map t) !! k = Some x -> (k, x) ∈ id_order t ++ [(key, e')]).
  { intros k x. rewrite lookup_insert, elem_of_app. case_decide as Ek.
    - intros [= <-]. subst k. right. set_solver.
    - intros Hk. left. by apply (ii_map _ _ I). }
  case_bool_decide as Hbig.
  - split; [|done]. apply inserted_compacts; [done| | | |by apply filter_snd_nodup].
    + pose proof (ii_limit _ _ I). etransitivity; [by apply current_length|]. cbn.
      unfold mlen in *. pose proof (map_size_insert key e' (id_map t)) as Hs.
      destruct (id_map t !! key); cbn in Hs; lia.
    + intros k x [_ Hin]%list_elem_of_filter. done.
    + intros k x Hk. apply list_elem_of_filter. split; [|by apply Hmap]. unfold current. cbn.
      by rewrite bool_decide_true.
  - split; [|done]. apply (inserted_compacts e' (id_order t ++ [(key, e')])); try done. cbn in Hbig. lia.
Qed.
End Insert.

(** ** The steps *)
Lemma beginOwner_spec owners t key id expiresAt fp r t' :
  idem_inv owners t ->
  (forall e x, id_map t !! key = Some e -> id_store t !! e = Some x -> ie_inProgress x = false) ->
  beginOwner key id expiresAt fp t = (r, t') ->
  (exists e, r = Owner e /\ idem_inv (<[key := e]> owners) t' /\ owners !! key = None) \/
  (r = Exhausted /\ t' = t /\ mlen (id_map t) = id_limit t /\
   forall k e x, id_map t !! k = Some e -> id_store t !! e = Some x -> ie_inProgress x = true).
Proof.
  intros I Hst. pose proof (key_no_owner _ _ _ I Hst) as Hno. unfold beginOwner.
  pose proof (ii_size _ _ I). case_bool_decide as Hfull.
  - destruct (evictFirst t [] (id_order t)) as [t1|] eqn:E.
    + pose proof (evictFirst_Some _ _ _ _ E) as (l1 & k & e1 & l2 & _ & _ & _ & Et).
      destruct (evict_inv _ _ _ _ I E eq_refl) as (I1 & Hsz & Hlim & Hstore).
      destruct (insertEntry _ _ _ _ t1) as [e t2] eqn:Ei. intros [= <- <-]. left. exists e.
      split; [done|]. split; [|done]. eapply insert_inv; [exact I1|lia| |exact Ei].
      intros e2 x Hm Hx. rewrite Et in Hm. cbn in Hm. apply lookup_delete_Some in Hm as [_ Hm].
      rewrite Hstore in Hx. by eapply Hst.
    + intros [= <- <-]. right. split_and!; [done|done|lia|].
      intros k e x Hk Hx. eapply evictFirst_None; [exact E| |exact Hk|exact Hx]. by apply (ii_map _ _ I).
  - destruct (insertEntry _ _ _ _ t) as [e t1] eqn:Ei. intros [= <- <-]. left. exists e.
    split; [done|]. split; [|done]. eapply insert_inv; [exact I|lia|exact Hst|exact Ei].
Qed.

(** What one turn of [beginIdempotency] does. *)
Lemma begin_spec owners t key id expiresAt fp now :
  idem_inv owners t ->
  exists r t', beginIdempotency key id expiresAt fp now t = Some (r, t') /\
    match r with
    | Owner e => idem_inv (<[key := e]> owners) t' /\ owners !! key = None
    | Exhausted => t' = t /\ mlen (id_map t) = id_limit t /\
        forall k e x, id_map t !! k = Some e -> id_store t !! e = Some x -> ie_inProgress x = true
    | Conflict => t' = t /\ exists e x, id_map t !! key = Some e /\ id_store t !! e = Some x /\
        (ie_inProgress x = true \/ now < ie_expiresAt x) /\ ie_fingerprint x <> fp
    | Wait e => t' = t /\ exists x, id_map t !! key = Some e /\ id_store t !! e = Some x /\
        (ie_inProgress x = true \/ now < ie_expiresAt x) /\ ie_fingerprint x = fp
    end.
Proof.
  intros I. unfold beginIdempotency. destruct (id_map t !! key) as [e|] eqn:Hk.
  - destruct (ii_map_store _ _ _ _ I Hk) as [x Hx]. rewrite Hx. cbn.
    destruct (ie_inProgress x || bool_decide (now < ie_expiresAt x)) eqn:Hlive.
    + assert (ie_inProgress x = true \/ now < ie_expiresAt x).
      { apply orb_true_iff in Hlive as [?|?%bool_decide_eq_true]; auto. }
      destruct (bool_decide_reflect (ie_fingerprint x = fp)).
      * exists (Wait e), t. split; [done|]. split; [done|]. exists x. done.
      * exists Conflict, t. split; [done|]. split; [done|]. exists e, x. done.
    + apply orb_false_iff in Hlive as [Hp _].
      destruct (beginOwner key id expiresAt fp t) as [r t'] eqn:E. exists r, t'. split; [done|].
      apply (beginOwner_spec owners) in E as [(e' & -> & ? & ?)|(-> & -> & ? & ?)]; try done.
      intros e' x' Hm Hx'. congruence.
  - destruct (beginOwner key id expiresAt fp t) as [r t'] eqn:E. exists r, t'. split; [done|].
    apply (beginOwner_spec owners) in E as [(e' & -> & ? & ?)|(-> & -> & ? & ?)]; try done. congruence.
Qed.

(** Updates of an entry that keep its progress. *)
Lemma updateEntry_inv owners t e f t' :
  (forall x, ie_ready (f x) = ie_ready x /\ ie_inProgress (f x) = ie_inProgress x /\
     ie_accepted (f x) = ie_accepted x) ->
  idem_inv owners t -> updateEntry f e t = Some t' -> idem_inv owners t'.
Proof.
  intros Hf I. unfold updateEntry. destruct (id_store t !! e) as [x|] eqn:Hx; [|done].
  cbn. intros [= <-]. destruct I as [I1 I2 I3 I4 I5 I6 I7 I8 I9].
  destruct (Hf x) as (F1 & F2 & F3). split; cbn; try done.
  - intros k y Hin. destruct (decide (e = y)) as [<-|]; [rewrite lookup_insert_eq; eauto|].
    rewrite lookup_insert_ne by done. by eapply I6.
  - intros y z. rewrite lookup_insert. case_decide; [|apply I7]. intros [= <-]. subst y.
    rewrite F1, F2. by apply I7 in Hx.
  - intros k y Hk. destruct (I8 _ _ Hk) as (Hm & z & Hz & Hp). split; [done|].
    destruct (decide (e = y)) as [<-|]; [|exists z; by rewrite lookup_insert_ne].
    exists (f x). rewrite lookup_insert_eq. split; [done|]. congruence.
  - intros k y z Hk. rewrite lookup_insert. case_decide; [|by apply I9]. intros [= <-]. subst y.
    rewrite F2, F3. by apply (I9 _ _ _ Hk).
Qed.

(** The owner finishes: the channel is closed once, and a failed operation leaves the table. *)
Lemma finish_inv owners t key e accepted replicated :
  idem_inv owners t -> owners !! key = Some e ->
  exists t' x, finishIdempotency key e accepted replicated t = Some t' /\
    idem_inv (delete key owners) t' /\ id_store t' !! e = Some x /\ ie_ready x = true /\
    ie_accepted x = accepted /\ id_map t' !! key = if accepted then Some e else None.
Proof.
  intros I Ho. destruct (ii_owner _ _ I _ _ Ho) as (Hm & x & Hx & Hp).
  pose proof (ii_ready _ _ I _ _ Hx) as Hr. rewrite Hp in Hr. cbn in Hr.
  unfold finishIdempotency. rewrite Hx. cbn. rewrite Hr. rewrite (bool_decide_true (_ !! _ = _)) by done.
  rewrite andb_true_r. match goal with |- context [<[e := ?v]>] => set (x' := v) end.
  assert (Huniq : forall k, id_map t !! k = Some e -> k = key).
  { intros k Hk. by eapply order_inj; [exact (ii_nodup _ _ I)|apply (ii_map _ _ I)..]. }
  pose proof I as [I1 I2 I3 I4 I5 I6 I7 I8 I9].
  assert (Hall : forall (m : gmap string loc), (forall k y, m !! k = Some y -> id_map t !! k = Some y) ->
    (forall k y, id_map t !! k = Some y -> k <> key -> m !! k = Some y) -> mlen m <= id_limit t ->
    (accepted = false -> m !! key = None) ->
    idem_inv (delete key owners) (((t <| id_store := <[e := x']> (id_store t) |>)) <| id_map := m |>)).
  { intros m Hsub Hkeep Hlen Hacc. split; cbn; try done.
    - auto.
    - intros k y Hin. destruct (decide (e = y)) as [<-|]; [rewrite lookup_insert_eq; eauto|].
      rewrite lookup_insert_ne by done. by eapply I6.
    - intros y z. rewrite lookup_insert. case_decide; [by intros [= <-]|apply I7].
    - intros k y [Hne Hk]%lookup_delete_Some. destruct (I8 _ _ Hk) as (Hmk & z & Hz & Hpz).
      split; [by apply Hkeep|]. exists z. rewrite lookup_insert_ne; [done|]. intros <-.
      by apply Huniq in Hmk.
    - intros k y z Hk. rewrite lookup_insert. destruct (decide (e = y)) as [<-|Hy].
      + intros [= <-]. cbn. pose proof (Huniq _ (Hsub _ _ Hk)) as ->.
        destruct accepted; [done|]. rewrite Hacc in Hk by done. done.
      + intros Hz. specialize (I9 _ _ _ (Hsub _ _ Hk) Hz). destruct (ie_inProgress z); [|done].
        rewrite lookup_delete_ne; [done|]. intros ->. congruence. }
  destruct accepted; cbn.
  - exists (t <| id_store := <[e := x']> (id_store t) |>), x'. split; [done|].
    split; [apply (Hall (id_map t)); [auto|auto|done|done]|]. cbn. rewrite lookup_insert_eq. done.
  - exists ((t <| id_store := <[e := x']> (id_store t) |>) <| id_map := delete key (id_map t) |>), x'.
    split; [done|]. split.
    + apply Hall; cbn.
      * by intros k y [_ ?]%lookup_delete_Some.
      * intros k y Hk Hne. by rewrite lookup_delete_ne.
      * unfold mlen in *. rewrite map_size_delete, Hm. cbn. lia.
      * intros _. apply lookup_delete_eq.
    + cbn. rewrite lookup_insert_eq, lookup_delete_eq. done.
Qed.

(** One critical section: a request begins, an owner finishes, or an entry is updated. *)
Inductive idem_step (owners : gmap string loc) (t : idemTable) : gmap string loc -> idemTable -> Prop :=
| istep_begin key id expiresAt fp now r t' :
    beginIdempotency key id expiresAt fp now t = Some (r, t') ->
    idem_step owners t (match r with Owner e => <[key := e]> owners | _ => owners end) t'
| istep_finish key e accepted replicated t' :
    owners !! key = Some e -> finishIdempotency key e accepted replicated t = Some t' ->
    idem_step owners t (delete key owners) t'
| istep_replicated e t' : markIdempotencyReplicated e t = Some t' -> idem_step owners t owners t'
| istep_expires e at_ t' : setExpiresAt at_ e t = Some t' -> idem_step owners t owners t'.

Inductive idem_reach (limit : Z) : gmap string loc -> idemTable -> Prop :=
| ireach_new : idem_reach limit ∅ (newIdem limit)
| ireach_step owners t owners' t' :
    idem_reach limit owners t -> idem_step owners t owners' t' -> idem_reach limit owners' t'.

Lemma idem_step_inv owners t owners' t' :
  idem_inv owners t -> idem_step owners t owners' t' -> idem_inv owners' t'.
Proof.
  intros I. destruct 1 as [key id at_ fp now r t' E|key e a r t' Ho E|e t' E|e at_ t' E].
  - destruct (begin_spec _ _ key id at_ fp now I) as (r2 & t2 & E2 & H). rewrite E in E2.
    injection E2 as <- <-. destruct r; [by destruct H as [-> _]..|by destruct H].
  - destruct (finish_inv _ _ _ _ a r I Ho) as (t2 & x & E2 & I2 & _). congruence.
  - eapply updateEntry_inv; [|exact I|exact E]. done.
  - eapply updateEntry_inv; [|exact I|exact E]. done.
Qed.

Lemma idem_reach_inv limit owners t : 0 < limit -> idem_reach limit owners t -> idem_inv owners t.
Proof. intros Hl. induction 1; [by apply idem_inv_new|by eapply idem_step_inv]. Qed.

Lemma idem_step_limit owners t owners' t' : idem_step owners t owners' t' -> id_limit t' = id_limit t.
Proof.
  assert (Hins : forall key id at_ fp u e u', insertEntry key id at_ fp u = (e, u') -> id_limit u' = id_limit u).
  { intros key id at_ fp u e u'. unfold insertEntry. cbv zeta. intros [= _ <-]. by case_bool_decide. }
  assert (Hown : forall key id at_ fp r u', beginOwner key id at_ fp t = (r, u') -> id_limit u' = id_limit t).
  { intros key id at_ fp r u'. unfold beginOwner. case_bool_decide.
    - destruct (evictFirst _ _ _) as [u|] eqn:E; [|by intros [= _ <-]].
      apply evictFirst_Some in E as (? & ? & ? & ? & _ & _ & _ & ->).
      destruct (insertEntry _ _ _ _ _) as [e u2] eqn:Ei. intros [= _ <-]. by apply Hins in Ei.
    - destruct (insertEntry _ _ _ _ _) as [e u2] eqn:Ei. intros [= _ <-]. by apply Hins in Ei. }
  assert (Hupd : forall f e u', updateEntry f e t = Some u' -> id_limit u' = id_limit t).
  { intros f e u'. unfold updateEntry. destruct (_ !! _); [|done]. by intros [= <-]. }
  destruct 1 as [key id at_ fp now r t' E|key e a r t' Ho E|e t' E|e at_ t' E]; [| |by eapply Hupd..].
  - unfold beginIdempotency in E. destruct (id_map t !! key) as [e|].
    + destruct (id_store t !! e) as [x|]; [|done]. cbn in E. injection E as E.
      destruct (_ || _); [|by eapply Hown]. destruct (bool_decide _); by simplify_eq.
    + injection E as E. by eapply Hown.
  - unfold finishIdempotency in E. destruct (id_store t !! e) as [x|]; [|done]. cbn in E.
    destruct (ie_ready x); [done|]. destruct (negb a && _); by simplify_eq.
Qed.

Lemma idem_reach_limit limit owners t : idem_reach limit owners t -> id_limit t = limit.
Proof. induction 1 as [|? ? ? ? _ IH Hs]; [done|]. apply idem_step_limit in Hs. congruence. Qed.

(** C25: an idempotent operation is executed by one request at a time. Whatever requests begin,
    finish and update entries, while a request owns a key every other request with that key
    waits for it or is refused as a conflict — none becomes a second owner, and the entry is
    neither evicted nor replaced — and the owner's finish succeeds (it never closes a
    closed channel). *)
Theorem idempotency_exclusive limit owners t key e :
  0 < limit -> idem_reach limit owners t -> owners !! key = Some e ->
  id_map t !! key = Some e /\
  (forall id at_ fp now, exists r, beginIdempotency key id at_ fp now t = Some (r, t) /\
     (r = Wait e \/ r = Conflict)) /\
  (forall accepted replicated, is_Some (finishIdempotency key e accepted replicated t)).
Proof.
  intros Hl Hr Ho. pose proof (idem_reach_inv _ _ _ Hl Hr) as I.
  destruct (ii_owner _ _ I _ _ Ho) as (Hm & x & Hx & Hp). split; [done|]. split.
  - intros id at_ fp now. unfold beginIdempotency. rewrite Hm, Hx. cbn. rewrite Hp. cbn.
    case_bool_decide; eauto.
  - intros a r. destruct (finish_inv _ _ _ _ a r I Ho) as (t' & y & -> & _). eauto.
Qed.

(** the table is bounded: it never holds more than [IdempotencyEntries] operations, its
    eviction order never more than twice that, and a new operation is refused for lack of
    capacity only when every operation in a full table is still in progress. *)
Theorem idempotency_bounded limit owners t :
  0 < limit -> idem_reach limit owners t ->
  mlen (id_map t) <= limit /\ llen (id_order t) <= 2 * limit /\
  forall key id at_ fp now t', beginIdempotency key id at_ fp now t = Some (Exhausted, t') ->
    t' = t /\ mlen (id_map t) = limit /\ dom owners = dom (id_map t).
Proof.
  intros Hl Hr. pose proof (idem_reach_inv _ _ _ Hl Hr) as I. pose proof (idem_reach_limit _ _ _ Hr) as El.
  pose proof (ii_size _ _ I). pose proof (ii_order _ _ I). rewrite El in *. split_and!; [done|done|].
  intros key id at_ fp now t' E. destruct (begin_spec _ _ key id at_ fp now I) as (r & t2 & E2 & H2).
  rewrite E in E2. injection E2 as <- <-. destruct H2 as (-> & Hsz & Hall). split; [done|]. split; [congruence|].
  apply set_eq. intros k. rewrite !elem_of_dom. split.
  - intros [e Ho]. destruct (ii_owner _ _ I _ _ Ho) as [Hm _]. eauto.
  - intros [e Hm]. destruct (ii_map_store _ _ _ _ I Hm) as [x Hx].
    pose proof (ii_progress _ _ I _ _ _ Hm Hx) as Hp. rewrite (Hall _ _ _ Hm Hx) in Hp. eauto.
Qed.

(** retries are answered from the table: a request whose key is held by a finished,
    unexpired operation never runs it again; with the same fingerprint it returns the entry
    of an accepted operation at once, with another one it is refused as a conflict. *)
Theorem idempotency_dedup limit owners t key e x id at_ fp now :
  0 < limit -> idem_reach limit owners t -> id_map t !! key = Some e -> id_store t !! e = Some x ->
  ie_inProgress x = false -> now < ie_expiresAt x ->
  beginIdempotency key id at_ fp now t =
    Some (if bool_decide (ie_fingerprint x = fp) then Wait e else Conflict, t) /\
  afterReady e t = Some (Some e).
Proof.
  intros Hl Hr Hm Hx Hp He. pose proof (idem_reach_inv _ _ _ Hl Hr) as I.
  pose proof (ii_progress _ _ I _ _ _ Hm Hx) as Ha. rewrite Hp in Ha.
  pose proof (ii_ready _ _ I _ _ Hx) as Hrd. rewrite Hp in Hrd. cbn in Hrd. split.
  - unfold beginIdempotency. rewrite Hm, Hx. cbn. rewrite Hp, bool_decide_true by done. cbn.
    by case_bool_decide.
  - unfold afterReady. rewrite Hx. cbn. by rewrite Hrd, Ha.
Qed.

(** ** Witnesses: a table of two; key "a" is in progress, key "b" is done *)
Definition ex_table : idemTable :=
  mkIdem 2 (<[2%positive := mkEntry "ib" 900 true false true [x02] false]>
              (<[1%positive := mkEntry "ia" 500 false false false [x01] true]> ∅))
    (<["b" := 2%positive]> (<["a" := 1%positive]> ∅)) [("a", 1%positive); ("b", 2%positive)].

Lemma ex_reach : idem_reach 2 (delete "b" (<["b" := 2%positive]> (<["a" := 1%positive]> ∅))) ex_table.
Proof.
  eapply ireach_step; [eapply ireach_step; [eapply ireach_step; [apply ireach_new|]|]|].
  - apply (istep_begin _ _ "a" "ia" 500 [x01] 100 (Owner 1)). vm_compute. reflexivity.
  - apply (istep_begin _ _ "b" "ib" 900 [x02] 100 (Owner 2)). vm_compute. reflexivity.
  - apply (istep_finish _ _ "b" 2 true false); vm_compute; reflexivity.
Defined.

Lemma idempotency_exclusive_witness :
  id_map ex_table !! "a" = Some 1%positive /\
  beginIdempotency "a" "ia" 600 [x01] 550 ex_table = Some (Wait 1, ex_table).
Proof.
  destruct (idempotency_exclusive 2 _ ex_table "a" 1 ltac:(lia) ex_reach eq_refl) as (H & _ & _).
  split; [exact H|]. vm_compute. reflexivity.
Defined.

Lemma idempotency_bounded_witness :
  mlen (id_map ex_table) <= 2 /\ llen (id_order ex_table) <= 4 /\
  exists e t', beginIdempotency "c" "ic" 600 [x03] 550 ex_table = Some (Owner e, t') /\
    id_map t' !! "b" = None.
Proof.
  destruct (idempotency_bounded 2 _ ex_table ltac:(lia) ex_reach) as (H1 & H2 & _).
  split; [exact H1|]. split; [exact H2|]. eexists _, _. split; vm_compute; reflexivity.
Defined.

Lemma idempotency_dedup_witness :
  beginIdempotency "b" "ib" 950 [x02] 800 ex_table = Some (Wait 2, ex_table) /\
  afterReady 2 ex_table = Some (Some 2%positive).
Proof.
  exact (idempotency_dedup 2 _ ex_table "b" 2 (mkEntry "ib" 900 true false true [x02] false)
    "ib" 950 [x02] 800 ltac:(lia) ex_reach eq_refl eq_refl eq_refl ltac:(cbn; lia)).
Defined.
