(* ===== verification/Checkpoints.v ===== *)
(** * Group checkpoints

    The record of messages a consumer group has completed: [checkpointActiveLocked],
    [putCheckpointLocked] and [applyCheckpoints] of internal/broker/broker.go and
    [compactCheckpointsLocked] of internal/broker/checkpoint_memory.go.  The table is bounded by
    [CheckpointEntries]; a first-in first-out order with a moving head drives eviction, and is
    compacted when refreshes make it too long. *)
From S2P Require Import Prelude Types.
#[local] Open Scope Z_scope.

(** The checkpoint fields of [Broker]. *)
Record checkpointTable := mkCheckpoints {
  ck_limit : Z; (* cfg.CheckpointEntries *)
  ck_map : gmap checkpointScope (gmap string Z); (* checkpoints *)
  ck_order : list checkpointOrderEntry; (* checkpointOrder *)
  ck_head : nat; (* checkpointHead *)
  ck_count : Z; (* checkpointCount *)
}.
#[export] Instance checkpointTable_settable : Settable checkpointTable := fun r =>
  mkCheckpoints (ck_limit r) (ck_map r) (ck_order r) (ck_head r) (ck_count r).
#[export] Instance set_ck_map : Setter ck_map := ltac:(derive_setter).
#[export] Instance set_ck_order : Setter ck_order := ltac:(derive_setter).
#[export] Instance set_ck_head : Setter ck_head := ltac:(derive_setter).
#[export] Instance set_ck_count : Setter ck_count := ltac:(derive_setter).

Definition newCheckpoints (limit : Z) : checkpointTable := mkCheckpoints limit ∅ [] 0 0.

(** [b.checkpoints[scope][messageID]]: zero when there is none. *)
Definition expiryOf (scope : checkpointScope) (messageID : string) (t : checkpointTable) : Z :=
  default 0 (default ∅ (ck_map t !! scope) !! messageID).

Definition checkpointActiveLocked (topic group messageID : string) (now : Z) (t : checkpointTable) : bool :=
  bool_decide (now < expiryOf (mkScope topic group) messageID t).

(** [delete(entries, id); checkpointCount--], and the scope once it is empty. *)
Definition forget (scope : checkpointScope) (messageID : string) (t : checkpointTable) : checkpointTable :=
  let entries := delete messageID (default ∅ (ck_map t !! scope)) in
  (t <| ck_map := if bool_decide (entries = ∅) then delete scope (ck_map t)
                  else <[scope := entries]> (ck_map t) |>)
    <| ck_count := ck_count t - 1 |>.

(** [for checkpointCount > limit && checkpointHead < len(checkpointOrder)] *)
Fixpoint evictLoop (fuel : nat) (t : checkpointTable) : option checkpointTable :=
  match fuel with
  | O => None
  | S fuel =>
    if bool_decide (ck_limit t < ck_count t) && bool_decide (ck_head t < length (ck_order t))%nat then
      old ← ck_order t !! ck_head t ;
      let t := (t <| ck_order := <[ck_head t := mkOrderEntry (mkScope "" "") "" 0]> (ck_order t) |>)
                 <| ck_head := S (ck_head t) |> in
      evictLoop fuel
        (match ck_map t !! co_scope old with
         | Some entries =>
           if bool_decide (default 0 (entries !! co_messageID old) = co_expiresAt old)
           then forget (co_scope old) (co_messageID old) t else t
         | None => t
         end)
    else Some t
  end.

(** The [range] of [compactCheckpointsLocked] over the live part of the order. *)
Fixpoint compactLoop (now : Z) (live kept : list checkpointOrderEntry) (t : checkpointTable)
    : list checkpointOrderEntry * checkpointTable :=
  match live with
  | [] => (kept, t)
  | old :: live =>
    if bool_decide (expiryOf (co_scope old) (co_messageID old) t <> co_expiresAt old)
    then compactLoop now live kept t else
    if bool_decide (co_expiresAt old <= now)
    then compactLoop now live kept (forget (co_scope old) (co_messageID old) t)
    else compactLoop now live (kept ++ [old]) t
  end.

Definition compactCheckpointsLocked (now : Z) (t : checkpointTable) : checkpointTable :=
  let '(kept, t) := compactLoop now (drop (ck_head t) (ck_order t)) [] t in
  (t <| ck_order := kept |>) <| ck_head := 0%nat |>.

(** [checkpointScope{topic: checkpoint.Topic, group: checkpoint.Group}] *)
Definition scopeOf (c : groupCheckpoint) : checkpointScope := mkScope (gc_Topic c) (gc_Group c).

(** [putCheckpointLocked]: the state after, and whether the checkpoint was new (in which case the
    group's work on the message is completed). *)
Definition putCheckpointLocked (c : groupCheckpoint) (now : Z) (t : checkpointTable)
    : option (bool * checkpointTable) :=
  if bool_decide (gc_ExpiresAt c <= now) then Some (false, t) else
  let scope := scopeOf c in
  let indexed := default ∅ (ck_map t !! scope) in
  let t := t <| ck_map := <[scope := indexed]> (ck_map t) |> in
  let present := default 0 (indexed !! gc_MessageID c) in
  if bool_decide (gc_ExpiresAt c <= present) then Some (false, t) else
  let t := t <| ck_count := if bool_decide (present = 0) then ck_count t + 1 else ck_count t |> in
  let t := (t <| ck_map := <[scope := <[gc_MessageID c := gc_ExpiresAt c]> indexed]> (ck_map t) |>)
             <| ck_order := ck_order t ++ [mkOrderEntry scope (gc_MessageID c) (gc_ExpiresAt c)] |> in
  t ← evictLoop (S (length (ck_order t))) t ;
  Some (true, if bool_decide (2 * ck_limit t < llen (ck_order t))
              then compactCheckpointsLocked now t else t).

(** [applyCheckpoints]: what a peer or a snapshot sends, no further ahead than the longest TTL;
    the checkpoints that were new. *)
Fixpoint applyCheckpoints (cs : list groupCheckpoint) (maxTTLms now : Z) (t : checkpointTable)
    : option (list groupCheckpoint * checkpointTable) :=
  match cs with
  | [] => Some ([], t)
  | c :: cs =>
    if bool_decide (gc_ExpiresAt c <= i64 (now + maxTTLms)) then
      '(recorded, t) ← putCheckpointLocked c now t ;
      '(l, t) ← applyCheckpoints cs maxTTLms now t ;
      Some (if recorded : bool then c :: l else l, t)
    else applyCheckpoints cs maxTTLms now t
  end.

(** ** The invariant, over the live part of the order *)
Definition lookupCk (m : gmap checkpointScope (gmap string Z)) (scope : checkpointScope) (id : string)
    : option Z := m !! scope ≫= (.!! id).

Definition sameKey (a b : checkpointOrderEntry) : Prop :=
  co_scope a = co_scope b /\ co_messageID a = co_messageID b.

(** The entries of one message are in the order of their expiries. *)
Definition keysSorted (live : list checkpointOrderEntry) : Prop :=
  forall i j a b, (i < j)%nat -> live !! i = Some a -> live !! j = Some b ->
    sameKey a b -> co_expiresAt a < co_expiresAt b.

Lemma keysSorted_remove l1 a l2 : keysSorted (l1 ++ a :: l2) -> keysSorted (l1 ++ l2).
Proof.
  intros H i j b c Hij Hi Hj. apply (H (if decide (i < length l1)%nat then i else S i)
    (if decide (j < length l1)%nat then j else S j)).
  - repeat case_decide; lia.
  - case_decide as Hil; [rewrite lookup_app_l in * by lia; done|].
    rewrite lookup_app_r in * by lia. by replace (S i - length l1)%nat with (S (i - length l1)) by lia.
  - case_decide as Hjl; [rewrite lookup_app_l in * by lia; done|].
    rewrite lookup_app_r in * by lia. by replace (S j - length l1)%nat with (S (j - length l1)) by lia.
Qed.

Record live_inv (m : gmap checkpointScope (gmap string Z)) (count : Z) (live : list checkpointOrderEntry)
    : Prop := {
  li_count : count = msum (fun _ e => mlen e) m;
  li_nonempty : forall s e, m !! s = Some e -> e <> ∅;
  li_listed : forall s id x, lookupCk m s id = Some x -> mkOrderEntry s id x ∈ live;
  li_pos : forall a, a ∈ live -> 0 < co_expiresAt a;
  li_cover : forall a, a ∈ live -> exists x, lookupCk m (co_scope a) (co_messageID a) = Some x /\
    co_expiresAt a <= x;
  li_sorted : keysSorted live;
}.

Definition ck_inv (t : checkpointTable) : Prop :=
  live_inv (ck_map t) (ck_count t) (drop (ck_head t) (ck_order t)) /\ (ck_head t <= length (ck_order t))%nat.

Lemma expiryOf_lookup scope id t : expiryOf scope id t = default 0 (lookupCk (ck_map t) scope id).
Proof.
  unfold expiryOf, lookupCk. destruct (ck_map t !! scope); [done|]. cbn. by rewrite lookup_empty.
Qed.

(** ** One entry less, one entry more *)
Lemma mlen_empty {K V} `{Countable K} : mlen (∅ : gmap K V) = 0.
Proof. unfold mlen. by rewrite map_size_empty. Qed.

Lemma mlen_delete {K V} `{Countable K} (m : gmap K V) k v :
  m !! k = Some v -> mlen (delete k m) = mlen m - 1.
Proof.
  intros Hk. unfold mlen. rewrite map_size_delete, Hk.
  assert (size m <> 0%nat); [|lia]. intros Hz%map_size_empty_iff. by rewrite Hz, lookup_empty in Hk.
Qed.

Lemma mlen_insert {K V} `{Countable K} (m : gmap K V) k v :
  mlen (<[k := v]> m) = mlen m + (if m !! k then 0 else 1).
Proof. unfold mlen. rewrite map_size_insert. destruct (m !! k); cbn; lia. Qed.

Section Forget.
Context (t : checkpointTable) (s : checkpointScope) (id : string) (x : Z).
Context (Hx : lookupCk (ck_map t) s id = Some x).

Lemma forget_lookup s' id' :
  lookupCk (ck_map (forget s id t)) s' id' =
  if decide (s' = s /\ id' = id) then None else lookupCk (ck_map t) s' id'.
Proof using Hx.
  unfold lookupCk in *. unfold forget. cbn. destruct (ck_map t !! s) as [e|] eqn:He; [|done].
  cbn in *. case_bool_decide as Hempty.
  - rewrite lookup_delete. destruct (decide (s = s')) as [<-|Hs].
    + cbn. destruct (decide (s = s /\ id' = id)) as [_|Hn]; [done|]. rewrite He. cbn.
      destruct (decide (id' = id)) as [->|Hid]; [by destruct Hn|].
      rewrite <- (lookup_delete_ne e id id') by done. rewrite Hempty. done.
    + rewrite decide_False; [done|]. intros [-> _]. done.
  - rewrite lookup_insert. destruct (decide (s = s')) as [<-|Hs].
    + cbn. rewrite He. cbn. rewrite lookup_delete. destruct (decide (id = id')) as [<-|Hid].
      * by rewrite decide_True.
      * rewrite decide_False; [done|]. intros [_ ->]. done.
    + rewrite decide_False; [done|]. intros [-> _]. done.
Qed.

Lemma forget_sum :
  msum (fun _ e => mlen e) (ck_map (forget s id t)) = msum (fun _ e => mlen e) (ck_map t) - 1.
Proof using Hx.
  unfold lookupCk in Hx. unfold forget. cbn. destruct (ck_map t !! s) as [e|] eqn:He; [|done].
  cbn in *. rewrite (msum_delete _ _ _ _ He). pose proof (mlen_delete _ _ _ Hx) as Hd.
  case_bool_decide as Hempty.
  - rewrite Hempty, mlen_empty in Hd. lia.
  - rewrite <- insert_delete_eq, msum_insert by apply lookup_delete_eq. lia.
Qed.

Lemma forget_nonempty :
  (forall s e, ck_map t !! s = Some e -> e <> ∅) ->
  forall s' e, ck_map (forget s id t) !! s' = Some e -> e <> ∅.
Proof using Hx.
  intros Hne s' e. unfold forget. cbn. case_bool_decide as Hempty.
  - intros [_ H]%lookup_delete_Some. by eapply Hne.
  - rewrite lookup_insert. case_decide; [by intros [= <-]|apply Hne].
Qed.
End Forget.

(** Dropping an order entry that is not the current one of its message. *)
Lemma live_drop_stale m count l1 a l2 :
  live_inv m count (l1 ++ a :: l2) -> lookupCk m (co_scope a) (co_messageID a) <> Some (co_expiresAt a) ->
  live_inv m count (l1 ++ l2).
Proof.
  intros [H1 H2 H3 H4 H5 H6] Hst. split; try done.
  - intros s id x Hx. specialize (H3 _ _ _ Hx). apply elem_of_app in H3 as [?|[<-|?]%elem_of_cons];
      [apply elem_of_app; auto| |apply elem_of_app; auto]. done.
  - intros b Hb. apply H4. set_solver.
  - intros b Hb. apply H5. set_solver.
  - by eapply keysSorted_remove.
Qed.

(** Nothing else in the order concerns a message whose current entry is known to be the last. *)
Lemma live_current_last m count l1 a l2 b :
  live_inv m count (l1 ++ a :: l2) -> lookupCk m (co_scope a) (co_messageID a) = Some (co_expiresAt a) ->
  b ∈ l2 -> ~ sameKey a b.
Proof.
  intros [_ _ _ _ H5 H6] Ha Hb Hk. apply list_elem_of_lookup in Hb as [j Hj].
  assert (co_expiresAt a < co_expiresAt b).
  { apply (H6 (length l1) (length l1 + S j)%nat); [lia|by rewrite list_lookup_middle| |done].
    rewrite lookup_app_r by lia. by replace (length l1 + S j - length l1)%nat with (S j) by lia. }
  destruct (H5 b) as (x & Hx & Hle).
  { apply elem_of_app. right. right. apply list_elem_of_lookup. eauto. }
  destruct Hk as [E1 E2]. rewrite <- E1, <- E2 in Hx. rewrite Ha in Hx. injection Hx as <-. lia.
Qed.

(** Forgetting the current entry of a message; what precedes it does not concern that message. *)
Lemma live_forget t l1 a l2 :
  live_inv (ck_map t) (ck_count t) (l1 ++ a :: l2) ->
  lookupCk (ck_map t) (co_scope a) (co_messageID a) = Some (co_expiresAt a) ->
  (forall b, b ∈ l1 -> ~ sameKey b a) ->
  live_inv (ck_map (forget (co_scope a) (co_messageID a) t))
    (ck_count (forget (co_scope a) (co_messageID a) t)) (l1 ++ l2).
Proof.
  intros I Ha Hpre. pose proof I as [H1 H2 H3 H4 H5 H6].
  assert (Hout : forall b, b ∈ l1 ++ l2 -> ~ sameKey b a).
  { intros b [Hb|Hb]%elem_of_app; [by apply Hpre|]. intros [E1 E2].
    by apply (live_current_last _ _ _ _ _ _ I Ha Hb). }
  split.
  - rewrite forget_sum with (x := co_expiresAt a) by done. cbn. lia.
  - by apply forget_nonempty with (x := co_expiresAt a).
  - intros s id x. rewrite forget_lookup with (x := co_expiresAt a) by done.
    case_decide as Hk; [done|]. intros Hx. specialize (H3 _ _ _ Hx).
    apply elem_of_app in H3 as [?|[<-|?]%elem_of_cons]; [apply elem_of_app; auto| |apply elem_of_app; auto].
    destruct Hk. done.
  - intros b Hb. apply H4. set_solver.
  - intros b Hb. rewrite forget_lookup with (x := co_expiresAt a) by done.
    rewrite decide_False; [apply H5; set_solver|]. intros [E1 E2]. by apply (Hout b Hb).
  - by eapply keysSorted_remove.
Qed.

(** ** Compaction *)

(** What is kept: the current, unexpired entries, none for the same message twice. *)
Definition keptOk (now : Z) (t : checkpointTable) (kept : list checkpointOrderEntry) : Prop :=
  forall a, a ∈ kept ->
    lookupCk (ck_map t) (co_scope a) (co_messageID a) = Some (co_expiresAt a) /\ now < co_expiresAt a.

(** A table that only lost expired checkpoints. *)
Definition lostExpired (now : Z) (t t' : checkpointTable) : Prop :=
  ck_limit t' = ck_limit t /\ ck_count t' <= ck_count t /\
  forall s id, lookupCk (ck_map t') s id = lookupCk (ck_map t) s id \/
    (lookupCk (ck_map t') s id = None /\ exists x, lookupCk (ck_map t) s id = Some x /\ x <= now).

Lemma lostExpired_refl now t : lostExpired now t t.
Proof. split; [done|]. split; [lia|auto]. Qed.

Lemma lostExpired_trans now t1 t2 t3 : lostExpired now t1 t2 -> lostExpired now t2 t3 -> lostExpired now t1 t3.
Proof.
  intros (L1 & C1 & H1) (L2 & C2 & H2). split; [congruence|]. split; [lia|]. intros s id.
  destruct (H1 s id) as [E1|[N1 E1]], (H2 s id) as [E2|[N2 E2]]; rewrite ?E2, ?N2; auto.
  - right. split; [done|]. by rewrite <- E1.
Qed.

Lemma compactLoop_spec now live kept t kept' t' :
  live_inv (ck_map t) (ck_count t) (kept ++ live) -> keptOk now t kept ->
  compactLoop now live kept t = (kept', t') ->
  live_inv (ck_map t') (ck_count t') kept' /\ keptOk now t' kept' /\ lostExpired now t t'.
Proof.
  revert kept t. induction live as [|a live IH]; intros kept t I Hk; cbn [compactLoop].
  - rewrite app_nil_r in I. intros [= <- <-]. split; [done|]. split; [done|apply lostExpired_refl].
  - assert (Hpos : 0 < co_expiresAt a) by (apply (li_pos _ _ _ I); set_solver).
    rewrite expiryOf_lookup. case_bool_decide as Hcur.
    + apply IH; [|done]. apply (live_drop_stale _ _ _ a); [done|]. intros E. rewrite E in Hcur. done.
    + assert (Ha : lookupCk (ck_map t) (co_scope a) (co_messageID a) = Some (co_expiresAt a)).
      { destruct (lookupCk _ _ _); cbn in Hcur; [congruence|lia]. }
      assert (Hdis : forall b, b ∈ kept -> ~ sameKey b a).
      { intros b Hb Hs. destruct (Hk b Hb) as [Eb _]. apply list_elem_of_lookup in Hb as [i Hi].
        assert (co_expiresAt b < co_expiresAt a).
        { apply (li_sorted _ _ _ I i (length kept) b a).
          - by eapply lookup_lt_Some.
          - by apply lookup_app_l_Some.
          - by rewrite list_lookup_middle.
          - done. }
        destruct Hs as [E1 E2]. rewrite E1, E2, Ha in Eb. injection Eb as E. lia. }
      case_bool_decide as Hexp.
      * intros E. pose proof (live_forget t _ _ _ I Ha Hdis) as I'.
        destruct (IH kept (forget (co_scope a) (co_messageID a) t) I') as (J1 & J2 & J3); [|done|].
        { intros b Hb. rewrite (forget_lookup t _ _ _ Ha), decide_False; [by apply Hk|].
          intros [E1 E2]. by apply (Hdis b Hb). }
        split_and!; [done|done|]. eapply lostExpired_trans; [|exact J3]. split; [done|]. split; [cbn; lia|]. intros s id.
        rewrite (forget_lookup t _ _ _ Ha). case_decide as Hs; [|by left]. destruct Hs as [-> ->]. right. eauto.
      * apply IH; [by rewrite <- app_assoc|]. intros b [Hb|Hb%list_elem_of_singleton]%elem_of_app;
          [by apply Hk|subst b]. split; [done|lia].
Qed.

(** Distinct messages: the kept entries are at most as many as the checkpoints. *)
Lemma kept_length now t kept :
  live_inv (ck_map t) (ck_count t) kept -> keptOk now t kept -> llen kept <= ck_count t.
Proof.
  revert t. induction kept as [|a kept IH]; intros t I Hk.
  - unfold llen. cbn. rewrite (li_count _ _ _ I). apply msum_nonneg. unfold mlen. lia.
  - destruct (Hk a ltac:(set_solver)) as [Ha _].
    pose proof (live_forget t [] a kept I Ha ltac:(set_solver)) as I'.
    assert (llen kept <= ck_count (forget (co_scope a) (co_messageID a) t)) as Hle.
    { apply IH; [done|]. intros b Hb. rewrite (forget_lookup t _ _ _ Ha), decide_False; [apply Hk; set_solver|].
      intros [E1 E2]. by apply (live_current_last _ _ [] a kept b I Ha Hb). }
    cbn in Hle. rewrite llen_cons. lia.
Qed.

Lemma compact_spec now t :
  ck_inv t ->
  let t' := compactCheckpointsLocked now t in
  ck_inv t' /\ llen (ck_order t') <= ck_count t' /\ lostExpired now t t' /\ ck_head t' = 0%nat /\
  forall a, a ∈ ck_order t' -> now < co_expiresAt a.
Proof.
  intros [I _]. unfold compactCheckpointsLocked.
  destruct (compactLoop _ _ _ _) as [kept t'] eqn:E.
  apply compactLoop_spec in E as (J1 & J2 & J3); [|done|by intros a ?%elem_of_nil].
  cbv zeta. cbn. split; [split; cbn; [done|lia]|]. split; [by eapply kept_length|]. split; [done|].
  split; [done|]. intros a Ha. by apply J2.
Qed.

(** ** Eviction *)
Lemma count_le_live live : forall t,
  live_inv (ck_map t) (ck_count t) live -> ck_count t <= llen live.
Proof.
  induction live as [|a live IH]; intros t I.
  - destruct (decide (ck_map t = ∅)) as [E|Hne]; [rewrite (li_count _ _ _ I), E, msum_empty; done|].
    exfalso. apply map_choose in Hne as (s & e & He). pose proof (li_nonempty _ _ _ I _ _ He) as Hn.
    apply map_choose in Hn as (id & x & Hx).
    assert (mkOrderEntry s id x ∈ []) as Hin%elem_of_nil; [|done].
    apply (li_listed _ _ _ I). unfold lookupCk. by rewrite He.
  - rewrite llen_cons. destruct (decide (lookupCk (ck_map t) (co_scope a) (co_messageID a) = Some (co_expiresAt a))) as [Ha|Ha].
    + pose proof (live_forget t [] a live I Ha ltac:(set_solver)) as I'. apply IH in I'. cbn in I'. lia.
    + pose proof (live_drop_stale _ _ [] a live I Ha) as I'. cbn in I'. apply IH in I'. lia.
Qed.

Lemma evictLoop_spec fuel t :
  ck_inv t -> (length (ck_order t) - ck_head t < fuel)%nat -> 0 < ck_limit t ->
  exists t', evictLoop fuel t = Some t' /\ ck_inv t' /\ ck_count t' <= ck_limit t' /\
    ck_limit t' = ck_limit t /\ length (ck_order t') = length (ck_order t) /\
    (ck_count t <= ck_limit t -> t' = t) /\
    forall a, last (drop (ck_head t) (ck_order t)) = Some a ->
      lookupCk (ck_map t) (co_scope a) (co_messageID a) = Some (co_expiresAt a) ->
      last (drop (ck_head t') (ck_order t')) = Some a /\
      lookupCk (ck_map t') (co_scope a) (co_messageID a) = Some (co_expiresAt a).
Proof.
  revert t. induction fuel as [|fuel IH]; intros t [I Hh] Hf Hl; [lia|]. cbn [evictLoop].
  pose proof (count_le_live _ _ I) as Hc. unfold llen in Hc. rewrite length_drop in Hc.
  destruct (bool_decide_reflect (ck_limit t < ck_count t)) as [Hover|Hok]; cbn [andb].
  2:{ exists t. split_and!; try done. lia. }
  rewrite bool_decide_true by lia.
  destruct (ck_order t !! ck_head t) as [old|] eqn:Hold; [|apply lookup_ge_None in Hold; lia].
  cbn [mbind option_bind].
  assert (Hdrop : drop (ck_head t) (ck_order t) = old :: drop (S (ck_head t)) (ck_order t)).
  { by apply drop_S. }
  set (t0 := mkCheckpoints (ck_limit t) (ck_map t) (<[ck_head t := mkOrderEntry (mkScope "" "") "" 0]> (ck_order t))
    (S (ck_head t)) (ck_count t)).
  match goal with |- context [evictLoop fuel ?x] => set (t1 := x) end.
  assert (Hd1 : drop (S (ck_head t)) (<[ck_head t := mkOrderEntry (mkScope "" "") "" 0]> (ck_order t))
    = drop (S (ck_head t)) (ck_order t)) by (apply drop_insert_lt; lia).
  rewrite Hdrop in I.
  assert (H1 : ck_inv t1 /\ ck_limit t1 = ck_limit t /\ ck_head t1 = S (ck_head t) /\
    length (ck_order t1) = length (ck_order t) /\
    drop (ck_head t1) (ck_order t1) = drop (S (ck_head t)) (ck_order t) /\
    forall a, a ∈ drop (S (ck_head t)) (ck_order t) ->
      lookupCk (ck_map t) (co_scope a) (co_messageID a) = Some (co_expiresAt a) ->
      lookupCk (ck_map t1) (co_scope a) (co_messageID a) = Some (co_expiresAt a)).
  { assert (Hlt : (S (ck_head t) <= length (ck_order t))%nat) by (apply lookup_lt_Some in Hold; lia).
    destruct (decide (lookupCk (ck_map t) (co_scope old) (co_messageID old) = Some (co_expiresAt old))) as [Hcur|Hst].
    - assert (t1 = forget (co_scope old) (co_messageID old) t0) as ->.
      { unfold t1, t0. unfold lookupCk in Hcur. cbn. destruct (ck_map t !! co_scope old); [|done].
        cbn in Hcur. rewrite Hcur. cbn. by rewrite bool_decide_true. }
      pose proof (live_forget t0 [] old _ I Hcur ltac:(set_solver)) as I1. cbn [app] in I1.
      unfold ck_inv. cbn [forget ck_order ck_head ck_limit] in *. unfold t0 at 3 4 5 6 7 8. cbn.
      rewrite length_insert, Hd1. split_and!; try done.
      intros a Ha Hla. change (ck_map t) with (ck_map t0) in Hla.
      rewrite (forget_lookup t0 _ _ _ Hcur), decide_False; [done|].
      intros [E1 E2]. by apply (live_current_last _ _ [] old _ a I Hcur Ha).
    - assert (t1 = t0) as ->.
      { unfold t1, t0. unfold lookupCk in Hst. cbn. destruct (ck_map t !! co_scope old) as [e|] eqn:He; [|done].
        cbn in Hst. rewrite bool_decide_false; [done|]. intros E.
        assert (0 < co_expiresAt old) by (apply (li_pos _ _ _ I); set_solver).
        destruct (e !! co_messageID old); cbn in E; [by rewrite E in Hst|lia]. }
      pose proof (live_drop_stale _ _ [] old _ I Hst) as I1. unfold ck_inv, t0. cbn in *.
      rewrite length_insert, Hd1. split_and!; done. }
  destruct H1 as (I1 & L1 & Hh1 & Hlen1 & Hdr1 & Hkeep).
  destruct (IH t1) as (t' & E & I' & Hc' & L' & Hlen' & _ & Hlast); [done|lia|lia|].
  exists t'. split_and!; try done; [congruence|congruence|lia|].
  intros a Ha Hla. rewrite Hdrop in Ha.
  destruct (drop (S (ck_head t)) (ck_order t)) as [|b l] eqn:El.
  { exfalso. pose proof (count_le_live _ _ I) as Hc1. unfold llen in Hc1. cbn in Hc1. lia. }
  rewrite Hdr1 in Hlast. change (last (b :: l) = Some a) in Ha.
  apply Hlast; [done|]. apply Hkeep; [|done]. by apply last_Some_elem_of.
Qed.

(** ** Recording a checkpoint *)
Definition table_ok (t : checkpointTable) : Prop :=
  ck_inv t /\ 0 < ck_limit t /\ ck_count t <= ck_limit t /\ llen (ck_order t) <= 2 * ck_limit t.

Definition expOf (t : checkpointTable) (c : groupCheckpoint) : option Z :=
  lookupCk (ck_map t) (scopeOf c) (gc_MessageID c).

(** The table with one more entry, before eviction. *)
Definition addEntry (c : groupCheckpoint) (t : checkpointTable) : checkpointTable :=
  let scope := scopeOf c in
  let indexed := default ∅ (ck_map t !! scope) in
  mkCheckpoints (ck_limit t) (<[scope := <[gc_MessageID c := gc_ExpiresAt c]> indexed]> (ck_map t))
    (ck_order t ++ [mkOrderEntry scope (gc_MessageID c) (gc_ExpiresAt c)]) (ck_head t)
    (if bool_decide (default 0 (indexed !! gc_MessageID c) = 0) then ck_count t + 1 else ck_count t).

Lemma lookupCk_insert m s id x s' id' :
  lookupCk (<[s := <[id := x]> (default ∅ (m !! s))]> m) s' id' =
  if decide (s' = s /\ id' = id) then Some x else lookupCk m s' id'.
Proof.
  unfold lookupCk. rewrite lookup_insert. destruct (decide (s = s')) as [<-|Hs].
  - cbn. rewrite lookup_insert. destruct (decide (id = id')) as [<-|Hid].
    + by rewrite decide_True.
    + rewrite decide_False by (intros [_ ->]; done). destruct (m !! s); [done|]. cbn. apply lookup_empty.
  - rewrite decide_False; [done|]. intros [-> _]. done.
Qed.

Lemma addEntry_inv c t :
  ck_inv t -> 0 < gc_ExpiresAt c -> default 0 (expOf t c) < gc_ExpiresAt c -> ck_inv (addEntry c t).
Proof.
  intros [I Hh] Hpos Hnew. unfold expOf in Hnew.
  pose proof I as [H1 H2 H3 H4 H5 H6].
  assert (Hold : forall x, lookupCk (ck_map t) (scopeOf c) (gc_MessageID c) = Some x -> 0 < x).
  { intros x Hx. apply H3 in Hx. by apply H4 in Hx. }
  unfold ck_inv, addEntry. cbn. split; [|rewrite length_app; lia].
  rewrite drop_app_le by done. split.
  - rewrite H1. unfold lookupCk in Hold. destruct (ck_map t !! (scopeOf c)) as [e|] eqn:He; cbn.
    + rewrite <- insert_delete_eq, msum_insert by apply lookup_delete_eq.
      rewrite mlen_insert, (msum_delete _ _ _ _ He). cbn in Hold.
      destruct (e !! gc_MessageID c) as [x|] eqn:Hx; cbn.
      * rewrite bool_decide_false; [lia|]. specialize (Hold x eq_refl). lia.
      * rewrite bool_decide_true by done. lia.
    + rewrite msum_insert by done. rewrite lookup_empty, bool_decide_true by done.
      rewrite mlen_insert, mlen_empty, lookup_empty. lia.
  - intros s e. rewrite lookup_insert. case_decide; [intros [= <-]; apply insert_non_empty|apply H2].
  - intros s id x. rewrite lookupCk_insert, elem_of_app. case_decide as Hk.
    + destruct Hk as [-> ->]. intros [= <-]. right. set_solver.
    + intros Hx. left. by apply H3.
  - intros a [Ha|Ha%list_elem_of_singleton]%elem_of_app; [by apply H4|by subst a].
  - intros a [Ha|Ha%list_elem_of_singleton]%elem_of_app; rewrite lookupCk_insert.
    + destruct (H5 _ Ha) as (x & Hx & Hle). case_decide as Hk; [|eauto].
      destruct Hk as [E1 E2]. rewrite E1, E2 in Hx. rewrite Hx in Hnew. cbn in Hnew.
      exists (gc_ExpiresAt c). split; [done|lia].
    + subst a. cbn. rewrite decide_True by done. eauto with lia.
  - intros i j a b Hij Hi Hj [E1 E2]. apply lookup_app_Some in Hj as [Hj|[Hge Hj]].
    + apply (H6 i j); [done| |done|done]. rewrite lookup_app_l in Hi; [done|].
      apply lookup_lt_Some in Hj. lia.
    + apply list_lookup_singleton_Some in Hj as [Hj <-]. rewrite lookup_app_l in Hi by lia. cbn in *.
      destruct (H5 a) as (x & Hx & Hle); [apply list_elem_of_lookup; eauto|].
      rewrite E1, E2 in Hx. rewrite Hx in Hnew. cbn in Hnew. lia.
Qed.


(** What recording does on every branch. *)
Lemma put_spec c now t :
  table_ok t -> 0 <= now ->
  exists r t', putCheckpointLocked c now t = Some (r, t') /\ table_ok t' /\ ck_limit t' = ck_limit t /\
    (r = bool_decide (now < gc_ExpiresAt c) && bool_decide (default 0 (expOf t c) < gc_ExpiresAt c)) /\
    (r = false -> t' = t) /\
    (r = true -> expOf t' c = Some (gc_ExpiresAt c)) /\
    (ck_count t < ck_limit t \/ expOf t c <> None -> r = true -> lostExpired now (addEntry c t) t').
Proof.
  intros (I & Hl & Hc & Ho) Hnow. unfold putCheckpointLocked.
  case_bool_decide as Hexp.
  { exists false, t. rewrite (bool_decide_false (now < _)) by lia. split_and!; done. }
  rewrite (bool_decide_true (now < _)) by lia. cbn [andb].
  assert (Hpres : default 0 (default ∅ (ck_map t !! (scopeOf c)) !! gc_MessageID c) = default 0 (expOf t c)).
  { unfold expOf, lookupCk. destruct (ck_map t !! (scopeOf c)); [done|]. cbn. by rewrite lookup_empty. }
  rewrite Hpres. case_bool_decide as Hold.
  { exists false. rewrite bool_decide_false by lia. eexists. split; [done|].
    assert (Hid : t <| ck_map := <[(scopeOf c) := default ∅ (ck_map t !! (scopeOf c))]> (ck_map t) |> = t).
    { rewrite <- Hpres in Hold. destruct (ck_map t !! scopeOf c) as [e|] eqn:He.
      - cbn [default]. rewrite insert_id by done. by destruct t.
      - change (gc_ExpiresAt c <= 0) in Hold. lia. }
    rewrite Hid. split_and!; done. }
  rewrite (bool_decide_true (default 0 (expOf t c) < _)) by lia.
  assert (Eadd : ((((t <| ck_map := <[(scopeOf c) := default ∅ (ck_map t !! (scopeOf c))]> (ck_map t) |>)
      <| ck_count := (if bool_decide (default 0 (expOf t c) = 0) then ck_count t + 1 else ck_count t) |>)
      <| ck_map := <[(scopeOf c) := <[gc_MessageID c := gc_ExpiresAt c]> (default ∅ (ck_map t !! (scopeOf c)))]>
           (<[(scopeOf c) := default ∅ (ck_map t !! (scopeOf c))]> (ck_map t)) |>)
      <| ck_order := ck_order t ++ [mkOrderEntry (scopeOf c) (gc_MessageID c) (gc_ExpiresAt c)] |>) = addEntry c t).
  { unfold addEntry. rewrite Hpres. unfold setf, set_ck_map, set_ck_count, set_ck_order. cbn.
    f_equal. apply insert_insert_eq. }
  cbv zeta. cbn [ck_map ck_order ck_count ck_limit setf set_ck_map set_ck_count set_ck_order] in Eadd |- *.
  rewrite Eadd. clear Eadd.
  pose proof (addEntry_inv c t I ltac:(lia) ltac:(lia)) as Ia.
  destruct (evictLoop_spec (S (length (ck_order t ++ [mkOrderEntry (scopeOf c) (gc_MessageID c) (gc_ExpiresAt c)])))
    (addEntry c t)) as (t1 & -> & I1 & Hc1 & Hl1 & Hlen1 & Hid1 & Hlast1); [done|cbn; lia|done|].
  cbn [mbind option_bind].
  assert (Hnew1 : expOf t1 c = Some (gc_ExpiresAt c)).
  { destruct (Hlast1 (mkOrderEntry (scopeOf c) (gc_MessageID c) (gc_ExpiresAt c))) as [_ H]; [| |exact H].
    - cbn. destruct I as [_ Hh]. rewrite drop_app_le by done. apply last_snoc.
    - cbn. rewrite lookupCk_insert. by rewrite decide_True. }
  assert (Hroom : ck_count t < ck_limit t \/ expOf t c <> None -> t1 = addEntry c t).
  { intros Hr. apply Hid1. unfold addEntry. cbn. rewrite Hpres. case_bool_decide as H0; [|lia].
    destruct Hr as [?|Hr]; [lia|]. exfalso. destruct (expOf t c) as [x|] eqn:Ex; [|done].
    destruct I as [I _]. apply (li_listed _ _ _ I) in Ex. apply (li_pos _ _ _ I) in Ex. cbn in Ex, H0. lia. }
  cbn in Hl1. case_bool_decide as Hbig.
  - pose proof (compact_spec now t1 I1) as (I2 & Hlen2 & (L2 & C2 & H2) & _ & _). cbv zeta in *.
    exists true, (compactCheckpointsLocked now t1). split; [done|].
    split; [unfold table_ok; rewrite L2, Hl1; split_and!; [done|done|lia|lia]|].
    split; [congruence|]. split; [done|]. split; [done|]. split.
    + intros _. unfold expOf in *. destruct (H2 (scopeOf c) (gc_MessageID c)) as [->|[_ (x & Hx & Hle)]]; [done|].
      rewrite Hnew1 in Hx. injection Hx as <-. lia.
    + intros Hr _. rewrite <- (Hroom Hr). split; [done|]. split; [done|exact H2].
  - exists true, t1. split; [done|]. split; [unfold table_ok; rewrite Hl1; split_and!; [done|done|lia|lia]|].
    split; [done|]. split; [done|]. split; [done|]. split; [done|].
    intros Hr _. rewrite (Hroom Hr). apply lostExpired_refl.
Qed.

(** ** What the checkpoint table guarantees *)
Inductive ck_reach (limit : Z) : checkpointTable -> Prop :=
| ckr_new : ck_reach limit (newCheckpoints limit)
| ckr_put c now r t t' : 0 <= now -> ck_reach limit t -> putCheckpointLocked c now t = Some (r, t') ->
    ck_reach limit t'
| ckr_compact now t : ck_reach limit t -> ck_reach limit (compactCheckpointsLocked now t).

Lemma table_ok_new limit : 0 < limit -> table_ok (newCheckpoints limit).
Proof.
  intros Hl. split; [split; [|cbn; lia]|]; cbn; [|unfold llen; cbn; lia]. split; cbn.
  - by rewrite msum_empty.
  - intros s e. by rewrite lookup_empty.
  - intros s id x. unfold lookupCk. by rewrite lookup_empty.
  - intros a Ha. by apply elem_of_nil in Ha.
  - intros a Ha. by apply elem_of_nil in Ha.
  - intros i j a b _ Hi. by rewrite lookup_nil in Hi.
Qed.

Lemma ck_reach_ok limit t : 0 < limit -> ck_reach limit t -> table_ok t /\ ck_limit t = limit.
Proof.
  intros Hl. induction 1 as [|c now r t t' Hn _ [IH1 IH2] E|now t _ [IH1 IH2]].
  - split; [by apply table_ok_new|done].
  - destruct (put_spec c now t IH1 Hn) as (r2 & t2 & E2 & Ok & L & _). rewrite E in E2.
    injection E2 as <- <-. split; [done|congruence].
  - destruct IH1 as (I & L & C & O). pose proof (compact_spec now t I) as (I2 & Hlen & (L2 & C2 & _) & _ & _).
    cbv zeta in *. split; [|congruence]. unfold table_ok. rewrite L2. split_and!; [done|done|lia|lia].
Qed.

(** the table is bounded and its bookkeeping exact: after any sequence of checkpoints and
    compactions the counter is the number of recorded checkpoints, at most
    [CheckpointEntries], the eviction order holds at most twice as many entries, and recording
    one more always returns. *)
Theorem checkpoint_bounded limit t c now :
  0 < limit -> ck_reach limit t -> 0 <= now ->
  ck_count t = msum (fun _ e => mlen e) (ck_map t) /\ ck_count t <= limit /\
  llen (ck_order t) <= 2 * limit /\ is_Some (putCheckpointLocked c now t).
Proof.
  intros Hl Hr Hn. destruct (ck_reach_ok _ _ Hl Hr) as [Ok El]. pose proof Ok as ([I _] & _ & C & O).
  rewrite El in C, O. split; [apply (li_count _ _ _ I)|]. split; [done|]. split; [done|].
  destruct (put_spec c now t Ok Hn) as (r & t' & -> & _). eauto.
Qed.

(** a completed message stays completed: recording an unexpired checkpoint makes the message
    inactive for its group until the later of the new and the recorded expiry, and while
    there is room in the table no other unexpired checkpoint is lost. *)
Theorem checkpoint_recorded limit t c now r t' :
  0 < limit -> ck_reach limit t -> 0 <= now -> now < gc_ExpiresAt c ->
  putCheckpointLocked c now t = Some (r, t') ->
  (forall later, later < gc_ExpiresAt c ->
     checkpointActiveLocked (gc_Topic c) (gc_Group c) (gc_MessageID c) later t' = true) /\
  (forall topic group id, checkpointActiveLocked topic group id now t = true -> ck_count t < limit ->
     checkpointActiveLocked topic group id now t' = true).
Proof.
  intros Hl Hr Hn Hexp E. destruct (ck_reach_ok _ _ Hl Hr) as [Ok El].
  destruct (put_spec c now t Ok Hn) as (r2 & t2 & E2 & _ & _ & Er & Hsame & Hnew & Hroom).
  rewrite E in E2. injection E2 as <- <-. unfold checkpointActiveLocked. rewrite (bool_decide_true (now < _)) in Er by done.
  split.
  - intros later Hlater. apply bool_decide_true. rewrite expiryOf_lookup. fold (scopeOf c). fold (expOf t' c).
    destruct r; [rewrite Hnew by done; cbn; lia|]. rewrite Hsame by done.
    cbn in Er. symmetry in Er. apply bool_decide_eq_false in Er. lia.
  - intros topic group id H Hc. apply bool_decide_eq_true in H. apply bool_decide_true.
    rewrite expiryOf_lookup in *. destruct r; [|by rewrite Hsame].
    cbn in Er. symmetry in Er. apply bool_decide_eq_true in Er.
    destruct (Hroom ltac:(left; lia) eq_refl) as (_ & _ & Hlost).
    specialize (Hlost (mkScope topic group) id). unfold addEntry in Hlost. cbn [ck_map] in Hlost.
    rewrite lookupCk_insert in Hlost. case_decide as Hk.
    + destruct Hk as [E1 ->]. unfold expOf in Er. rewrite <- E1 in Er.
      destruct Hlost as [->|[_ (x & [= <-] & ?)]]; [cbn; lia|lia].
    + destruct Hlost as [->|[_ (x & Hx & Hle)]]; [done|]. rewrite Hx in H. cbn in H. lia.
Qed.

(** ** Witnesses *)
Definition ex_ck (id : string) (at_ : Z) : groupCheckpoint := mkCheckpoint "orders" "billing" id at_.
Definition ex_ckTable : checkpointTable :=
  default (newCheckpoints 2)
    (snd <$> (putCheckpointLocked (ex_ck "m1" 100) 10 (newCheckpoints 2))).

Lemma ex_ckReach : ck_reach 2 ex_ckTable.
Proof. eapply (ckr_put 2 (ex_ck "m1" 100) 10 true); [lia|apply ckr_new|vm_compute; reflexivity]. Defined.

Lemma checkpoint_bounded_witness :
  ck_count ex_ckTable = 1 /\ llen (ck_order ex_ckTable) <= 4.
Proof.
  destruct (checkpoint_bounded 2 ex_ckTable (ex_ck "m2" 50) 10 ltac:(lia) ex_ckReach ltac:(lia))
    as (H1 & _ & H3 & _).
  split; [rewrite H1; vm_compute; reflexivity|exact H3].
Defined.

Lemma checkpoint_recorded_witness :
  exists t', putCheckpointLocked (ex_ck "m2" 50) 20 ex_ckTable = Some (true, t') /\
    checkpointActiveLocked "orders" "billing" "m2" 49 t' = true /\
    checkpointActiveLocked "orders" "billing" "m1" 20 t' = true.
Proof.
  destruct (putCheckpointLocked (ex_ck "m2" 50) 20 ex_ckTable) as [[r t']|] eqn:E; [|vm_compute in E; discriminate].
  assert (Er : r = true) by (vm_compute in E; injection E as <- _; reflexivity). subst r.
  destruct (checkpoint_recorded 2 ex_ckTable (ex_ck "m2" 50) 20 true t' ltac:(lia) ex_ckReach ltac:(lia)
    ltac:(cbn; lia) E) as [H1 H2].
  exists t'. split; [done|]. split; [apply (H1 49); cbn; lia|].
  apply H2; [vm_compute; reflexivity|vm_compute; reflexivity].
Defined.
