(* ===== verification/BatchWire.v ===== *)
(** * The client's batch format

    The body of [POST /v1/topics/{topic}/batches]: what [PublishBatchEntries] of
    pkg/spruce/client.go writes (format 2: a key and a payload per message) and what the read
    loop of [publishBatch] in internal/broker/broker.go accepts (formats 1 and 2). *)
From S2P Require Import Prelude Types GoIO.
#[local] Open Scope Z_scope.

(** ** The server's read loop *)

(** An early [return] of the loop: whether the [Rejected] metric was incremented, the HTTP status
    and the error code. *)
Record problem := mkProblem { pb_rejected : bool; pb_status : Z; pb_code : string }.

Definition invalid_batch (rejected : bool) : problem := mkProblem rejected 400 "invalid_batch".
Definition batch_too_large (rejected : bool) : problem := mkProblem rejected 413 "batch_too_large".

(** The outcome of one turn: an early return, the [break] at the end of the body, or a message
    (its key, its payload, the new total) and the bytes that are left. *)
Inductive turn :=
| Return (p : problem)
| Break
| Next (key : string) (payload : list byte) (total : Z) (rest : list byte).

(** The key of format 2; [inl] ends the turn. *)
Definition readKey (v2 : bool) (total : Z) (bs : list byte) : turn + string * Z * list byte :=
  if v2 then
    match readFull 2 bs with
    | inl e => inl (if bool_decide (e = errEOF) then Break else Return (invalid_batch false))
    | inr (keySize, bs) =>
      let kn := beRead keySize in
      let total := total + (2 + kn) in
      if bool_decide (maxHeaders < kn) || bool_decide (maxBatchBytes < total)
      then inl (Return (batch_too_large false)) else
      match readFull (Z.to_nat kn) bs with
      | inl _ => inl (Return (invalid_batch false))
      | inr (keyBytes, bs) => inr (bstring keyBytes, total, bs)
      end
    end
  else inr ("", total, bs).

Definition readEntry (v2 : bool) (maxMessage total : Z) (bs : list byte) : turn :=
  match readKey v2 total bs with
  | inl t => t
  | inr (key, total, bs) =>
    match readFull 4 bs with
    | inl e => if bool_decide (e = errEOF) && negb v2 then Break else Return (invalid_batch true)
    | inr (size, bs) =>
      let n := beRead size in
      let total := total + (4 + n) in
      if bool_decide (maxMessage < n) || bool_decide (maxBatchBytes < total)
      then Return (batch_too_large true) else
      match readFull (Z.to_nat n) bs with
      | inl _ => Return (invalid_batch true)
      | inr (payload, bs) => Next key payload total bs
      end
    end
  end.

(** [for len(payloads) < maxBatchMessages]: [room] is the number of turns left. *)
Fixpoint readEntries (room : nat) (v2 : bool) (maxMessage total : Z) (bs : list byte)
    : problem + list (string * list byte) * list byte :=
  match room with
  | O => inr ([], bs)
  | S room =>
    match readEntry v2 maxMessage total bs with
    | Return p => inl p
    | Break => inr ([], bs)
    | Next key payload total bs =>
      match readEntries room v2 maxMessage total bs with
      | inl p => inl p
      | inr (l, bs) => inr ((key, payload) :: l, bs)
      end
    end
  end.

(** The whole body; [io.LimitReader(r.Body, maxBatchBytes+1)] cuts it.  The [Peek] of a full
    batch looks for one more byte. *)
Definition decodeBatch (v2 : bool) (maxMessage : Z) (body : list byte)
    : problem + list (string * list byte) :=
  match readEntries (Z.to_nat maxBatchMessages) v2 maxMessage 0 (limitReader (maxBatchBytes + 1) body) with
  | inl p => inl p
  | inr (l, rest) =>
    if bool_decide (llen l = maxBatchMessages) && bool_decide (rest <> [])
    then inl (mkProblem false 413 "too_many_batch_messages") else
    if bool_decide (llen l = 0) then inl (mkProblem false 400 "empty_batch") else inr l
  end.

(** ** The client's encoder *)
Definition entrySize (e : string * list byte) : Z := 6 + slen e.1 + llen e.2.

(** [total > (16<<20)-6-len(key)-len(entry.Payload)] keeps the sum within the protocol limit. *)
Fixpoint checkEntries (total : Z) (entries : list (string * list byte)) : option error :=
  match entries with
  | [] => None
  | e :: entries =>
    if bool_decide (8192 < slen e.1) || bool_decide (1048576 < llen e.2)
       || bool_decide (16777216 - 6 - slen e.1 - llen e.2 < total)
    then Some (errOther "batch exceeds protocol limits")
    else checkEntries (total + entrySize e) entries
  end.

Definition encodeEntry (e : string * list byte) : list byte :=
  beBytes 2 (slen e.1) ++ sbytes e.1 ++ beBytes 4 (llen e.2) ++ e.2.

(** The body of the request: keys, and payloads after compression. *)
Definition encodeEntries (entries : list (string * list byte)) : error + list byte :=
  if bool_decide (llen entries = 0) then inl (errOther "batch is empty") else
  if bool_decide (4096 < llen entries) then inl (errOther "batch exceeds 4096 messages") else
  match checkEntries 0 entries with
  | Some e => inl e
  | None => inr (concat (encodeEntry <$> entries))
  end.

(** ** What the decoder accepts *)
Definition batchSize (v2 : bool) (l : list (string * list byte)) : Z :=
  zsum ((fun e => if v2 then entrySize e else 4 + llen e.2) <$> l).

Lemma batchSize_nil v2 : batchSize v2 [] = 0.
Proof. done. Qed.
Lemma batchSize_cons v2 e l :
  batchSize v2 (e :: l) = (if v2 then entrySize e else 4 + llen e.2) + batchSize v2 l.
Proof. done. Qed.

Lemma readFull_len n bs l rest : readFull n bs = inr (l, rest) -> llen l = Z.of_nat n.
Proof. intros [<- _]%readFull_inr. done. Qed.

Lemma readEntry_Next v2 maxMessage total bs key payload total' rest :
  readEntry v2 maxMessage total bs = Next key payload total' rest ->
  total' = total + (if v2 then entrySize (key, payload) else 4 + llen payload) /\
  total' <= maxBatchBytes /\ llen payload <= maxMessage /\ slen key <= maxHeaders /\
  (v2 = false -> key = "").
Proof.
  unfold readEntry, readKey. pose proof (beRead_range) as Hr. unfold entrySize. cbn [fst snd].
  destruct v2.
  - destruct (readFull 2 bs) as [e|[ks b1]]; [by case_bool_decide|].
    destruct (_ || _) eqn:E1; [done|].
    apply orb_false_iff in E1 as [E1%bool_decide_eq_false E2%bool_decide_eq_false].
    destruct (readFull (Z.to_nat (beRead ks)) b1) as [e|[kb b2]] eqn:Ek; [done|].
    destruct (readFull 4 b2) as [e|[sz b3]]; [by destruct (_ && _)|].
    destruct (_ || _) eqn:E3; [done|].
    apply orb_false_iff in E3 as [E3%bool_decide_eq_false E4%bool_decide_eq_false].
    destruct (readFull (Z.to_nat (beRead sz)) b3) as [e|[pl b4]] eqn:Ep; [done|]. intros [= <- <- <- <-].
    apply readFull_len in Ek, Ep. rewrite slen_bstring.
    pose proof (Hr ks). pose proof (Hr sz). rewrite Z2Nat.id in Ek, Ep by lia.
    split_and!; [lia..|done].
  - destruct (readFull 4 bs) as [e|[sz b3]]; [by destruct (_ && _)|].
    destruct (_ || _) eqn:E3; [done|].
    apply orb_false_iff in E3 as [E3%bool_decide_eq_false E4%bool_decide_eq_false].
    destruct (readFull (Z.to_nat (beRead sz)) b3) as [e|[pl b4]] eqn:Ep; [done|]. intros [= <- <- <- <-].
    apply readFull_len in Ep. pose proof (Hr sz). rewrite Z2Nat.id in Ep by lia.
    split_and!; [lia..|vm_compute; discriminate|done].
Qed.

Lemma readEntries_inr room v2 maxMessage total bs l rest :
  readEntries room v2 maxMessage total bs = inr (l, rest) -> total <= maxBatchBytes ->
  (length l <= room)%nat /\ total + batchSize v2 l <= maxBatchBytes /\
  Forall (fun e => llen e.2 <= maxMessage /\ slen e.1 <= maxHeaders) l /\
  (v2 = false -> Forall (fun e => e.1 = "") l).
Proof.
  revert total bs l. induction room as [|room IH]; intros total bs l; cbn [readEntries].
  - intros [= <- _] Ht. rewrite batchSize_nil. split_and!; [cbn; lia|lia|done|done].
  - destruct (readEntry _ _ _ _) as [p| |key payload total' b1] eqn:E; [done| |].
    + intros [= <- _] Ht. rewrite batchSize_nil. split_and!; [cbn; lia|lia|done|done].
    + destruct (readEntry_Next _ _ _ _ _ _ _ _ E) as (-> & Hle & Hp & Hk & Hv).
      destruct (readEntries room _ _ _ b1) as [p|[l1 b2]] eqn:E2; [done|]. intros [= <- <-] Ht.
      destruct (IH _ _ _ E2 Hle) as (H1 & H2 & H3 & H4). split_and!.
      * cbn. lia.
      * rewrite batchSize_cons. cbn [snd]. lia.
      * by constructor.
      * intros Hf. constructor; auto.
Qed.

(** Whatever bytes a client sends, a batch the server accepts has 1 to 4096 messages, no
    message exceeds [MaxMessage], no key exceeds the header limit, and the body it was
    read from is at most 16 MiB; without format 2 every key is the request's. *)
Theorem decodeBatch_bounds v2 maxMessage body l :
  decodeBatch v2 maxMessage body = inr l ->
  1 <= llen l <= maxBatchMessages /\ batchSize v2 l <= maxBatchBytes /\
  Forall (fun e => llen e.2 <= maxMessage /\ slen e.1 <= maxHeaders) l /\
  (v2 = false -> Forall (fun e => e.1 = "") l).
Proof.
  unfold decodeBatch. destruct (readEntries _ _ _ _ _) as [p|[l1 rest]] eqn:E; [done|].
  destruct (_ && _); [done|]. case_bool_decide as Hl; [done|]. intros [= <-].
  apply readEntries_inr in E as (H1 & H2 & H3 & H4); [|vm_compute; discriminate].
  pose proof (llen_nonneg l1). split; [|split; [lia|done]]. unfold llen in *. lia.
Qed.

(** ** The round trip *)
Lemma checkEntries_None total l :
  checkEntries total l = None ->
  (l <> [] -> total + batchSize true l <= maxBatchBytes) /\
  Forall (fun e => slen e.1 <= maxHeaders /\ llen e.2 <= 1048576) l.
Proof.
  revert total. induction l as [|e l IH]; intros total; cbn [checkEntries]; [done|].
  destruct (_ || _) eqn:E; [done|].
  apply orb_false_iff in E as [[E1%bool_decide_eq_false E2%bool_decide_eq_false]%orb_false_iff
    E3%bool_decide_eq_false]. intros [H1 H2]%IH. split.
  - intros _. rewrite batchSize_cons. destruct l as [|e' l].
    + rewrite batchSize_nil. unfold entrySize, maxBatchBytes. lia.
    + specialize (H1 ltac:(done)). lia.
  - constructor; [unfold maxHeaders; lia|done].
Qed.

Lemma readEntry_encode maxMessage total e rest :
  slen e.1 <= maxHeaders -> llen e.2 <= 1048576 -> 1048576 <= maxMessage ->
  total + entrySize e <= maxBatchBytes ->
  readEntry true maxMessage total (encodeEntry e ++ rest) = Next e.1 e.2 (total + entrySize e) rest.
Proof.
  intros Hk Hp Hm Ht. unfold entrySize in *. pose proof (slen_nonneg e.1). pose proof (llen_nonneg e.2).
  unfold maxHeaders in Hk. unfold readEntry, readKey, encodeEntry. rewrite <- !app_assoc.
  rewrite (readFull_app (beBytes 2 _)) by apply length_beBytes.
  rewrite beRead_beBytes. change (256 ^ Z.of_nat 2) with 65536. rewrite (Z.mod_small (slen _)) by lia.
  unfold maxHeaders. rewrite !bool_decide_false by lia. cbn [orb].
  rewrite (readFull_app (sbytes _)) by (rewrite <- llen_sbytes; unfold llen; lia).
  rewrite (readFull_app (beBytes 4 _)) by apply length_beBytes.
  rewrite beRead_beBytes. change (256 ^ Z.of_nat 4) with 4294967296. rewrite (Z.mod_small (llen _)) by lia.
  rewrite !bool_decide_false by lia. cbn [orb].
  rewrite (readFull_app (e.2)) by (unfold llen; lia). rewrite bstring_sbytes. f_equal. lia.
Qed.

Lemma readEntries_encode maxMessage room total l :
  1048576 <= maxMessage -> total + batchSize true l <= maxBatchBytes ->
  Forall (fun e => slen e.1 <= maxHeaders /\ llen e.2 <= 1048576) l -> (length l <= room)%nat ->
  readEntries room true maxMessage total (concat (encodeEntry <$> l)) = inr (l, []).
Proof.
  intros Hm. revert room total. induction l as [|[k p] l IH]; intros [|room] total Ht Hok Hroom;
    cbn [length] in Hroom; try lia; [done|done|].
  apply Forall_cons in Hok as [[Hk Hp] Hok]. rewrite batchSize_cons in Ht.
  assert (0 <= batchSize true l).
  { apply zsum_nonneg, Forall_fmap, Forall_true. intros e. unfold entrySize. cbn.
    pose proof (slen_nonneg e.1). pose proof (llen_nonneg e.2). lia. }
  cbn [readEntries fmap list_fmap concat]. rewrite readEntry_encode by (done || lia).
  cbn [fst snd]. rewrite IH; [done|lia|done|lia].
Qed.

Lemma length_encode l : llen (concat (encodeEntry <$> l)) = batchSize true l.
Proof.
  induction l as [|e l IH]; [done|]. cbn [fmap list_fmap concat]. rewrite llen_app, IH, batchSize_cons.
  unfold encodeEntry, entrySize. rewrite !llen_app, llen_sbytes. unfold llen at 1 2.
  rewrite !length_beBytes. lia.
Qed.

(** The server reads back what the client encoded. *)
Lemma decode_encodeEntries maxMessage entries body :
  1048576 <= maxMessage -> encodeEntries entries = inr body ->
  decodeBatch true maxMessage body = inr entries.
Proof.
  intros Hm. unfold encodeEntries. case_bool_decide as H0; [done|]. case_bool_decide as H1; [done|].
  destruct (checkEntries 0 entries) eqn:Hc; [done|]. intros [= <-].
  apply checkEntries_None in Hc as [Hs Hok].
  assert (Hne : entries <> []) by (by intros ->).
  specialize (Hs Hne). rewrite Z.add_0_l in Hs. unfold decodeBatch.
  unfold limitReader. rewrite length_encode, bool_decide_true by lia.
  rewrite readEntries_encode; [|done|lia|done|unfold llen, maxBatchMessages in *; lia].
  rewrite (bool_decide_false ([] <> [])) by auto. rewrite andb_false_r.
  by rewrite bool_decide_false.
Qed.

(** Client and server agree on the batch format: every batch the client library encodes is
    accepted by a broker whose message limit is at least the library's (1 MiB), which reads
    back exactly the keys and payloads that were encoded. *)
Theorem batch_client_server maxMessage entries body :
  1048576 <= maxMessage -> encodeEntries entries = inr body ->
  decodeBatch true maxMessage body = inr entries.
Proof. apply decode_encodeEntries. Qed.

(** ** Witnesses *)
Definition ex_entries : list (string * list byte) := [("k1", [x01; x02]); ("", []); ("key", [xff])].

Lemma batch_client_server_witness :
  exists body, encodeEntries ex_entries = inr body /\ llen body = 26 /\
    decodeBatch true 1048576 body = inr ex_entries.
Proof.
  destruct (encodeEntries ex_entries) as [e|body] eqn:E; [vm_compute in E; discriminate|].
  exists body. split; [done|]. split; [vm_compute in E; injection E as <-; reflexivity|].
  apply (batch_client_server 1048576 ex_entries body); [lia|exact E].
Defined.

Lemma decodeBatch_bounds_witness :
  exists l, decodeBatch false 4 [x00; x00; x00; x01; xaa; x00; x00; x00; x00] = inr l /\
    1 <= llen l <= maxBatchMessages.
Proof.
  destruct (decodeBatch false 4 [x00; x00; x00; x01; xaa; x00; x00; x00; x00]) as [p|l] eqn:E;
    [vm_compute in E; discriminate|].
  exists l. split; [done|]. exact (proj1 (decodeBatch_bounds _ _ _ _ E)).
Defined.
