(* ===== verification/Base64.v ===== *)
(** * base64.RawURLEncoding

    Identifiers and cursors are base64 without padding over the URL alphabet.  [encode64] is
    [EncodeToString] and [decode64] is [DecodeString] (which skips line breaks and does not look at
    the unused low bits of the last character). *)
From S2P Require Import Prelude Types GoIO.
#[local] Open Scope Z_scope.

Definition alphabet : list byte :=
  String.list_byte_of_string "ABCDEFGHIJKLMNOPQRSTUVWXYZabcdefghijklmnopqrstuvwxyz0123456789-_".

Definition char64 (v : Z) : byte := nth (Z.to_nat v) alphabet x41.

(** Position of a character in the alphabet. *)
Fixpoint indexOf (b : byte) (i : Z) (l : list byte) : option Z :=
  match l with
  | [] => None
  | c :: l => if bool_decide (b = c) then Some i else indexOf b (i + 1) l
  end.
Definition value64 (b : byte) : option Z := indexOf b 0 alphabet.

Fixpoint encodeBytes (l : list byte) : list byte :=
  match l with
  | [] => []
  | [a] => [char64 (Zbyte a / 4); char64 ((Zbyte a * 16) mod 64)]
  | [a; b] =>
    let v := Zbyte a * 256 + Zbyte b in
    [char64 (v / 1024); char64 ((v / 16) mod 64); char64 ((v * 4) mod 64)]
  | a :: b :: c :: l =>
    let v := Zbyte a * 65536 + Zbyte b * 256 + Zbyte c in
    char64 (v / 262144) :: char64 ((v / 4096) mod 64) :: char64 ((v / 64) mod 64) :: char64 (v mod 64)
      :: encodeBytes l
  end.

Fixpoint decodeBytes (l : list byte) : option (list byte) :=
  match l with
  | [] => Some []
  | [_] => None
  | [p; q] =>
    x ← value64 p ; y ← value64 q ; Some [byteZ ((x * 64 + y) / 16)]
  | [p; q; r] =>
    x ← value64 p ; y ← value64 q ; z ← value64 r ;
    let v := (x * 4096 + y * 64 + z) / 4 in Some [byteZ (v / 256); byteZ v]
  | p :: q :: r :: s :: l =>
    x ← value64 p ; y ← value64 q ; z ← value64 r ; w ← value64 s ;
    let v := x * 262144 + y * 4096 + z * 64 + w in
    rest ← decodeBytes l ;
    Some (byteZ (v / 65536) :: byteZ (v / 256) :: byteZ v :: rest)
  end.

Definition encode64 (l : list byte) : string := bstring (encodeBytes l).
Definition decode64 (s : string) : option (list byte) :=
  decodeBytes (filter (fun b => b <> x0a /\ b <> x0d) (sbytes s)).

(** ** The round trip *)
Ltac dlia := Z.to_euclidean_division_equations; lia.

Lemma alphabet_value : forallb (fun i => bool_decide (value64 (char64 (Z.of_nat i)) = Some (Z.of_nat i)))
  (seq 0 64) = true.
Proof. vm_compute. reflexivity. Qed.

Lemma value_char v : 0 <= v < 64 -> value64 (char64 v) = Some v.
Proof.
  intros Hv. pose proof alphabet_value as H. rewrite forallb_forall in H.
  specialize (H (Z.to_nat v)). rewrite Z2Nat.id in H by lia. eapply bool_decide_eq_true_1, H.
  apply List.in_seq. lia.
Qed.

Lemma byteZ_eq z b : z mod 256 = Zbyte b -> byteZ z = b.
Proof.
  intros E. rewrite <- (byteZ_Zbyte b), <- E. unfold byteZ. by rewrite Z.mod_mod.
Qed.

(** Induction on a list three elements at a time. *)
Lemma list_ind3 {A} (P : list A -> Prop) :
  P [] -> (forall a, P [a]) -> (forall a b, P [a; b]) ->
  (forall a b c l, P l -> P (a :: b :: c :: l)) -> forall l, P l.
Proof.
  intros H0 H1 H2 H3 l. enough (P l /\ (forall a, P (a :: l)) /\ (forall a b, P (a :: b :: l))) by tauto.
  induction l as [|x l (IH1 & IH2 & IH3)]; [auto|]. split_and!; auto.
Qed.

Lemma encodeBytes_printable l : Forall (fun b => b <> x0a /\ b <> x0d) (encodeBytes l).
Proof.
  assert (Hc : forall v, char64 v <> x0a /\ char64 v <> x0d).
  { intros v. unfold char64. destruct (nth_in_or_default (Z.to_nat v) alphabet x41) as [Hin| ->]; [|done].
    revert Hin. generalize (nth (Z.to_nat v) alphabet x41). intros b Hin.
    assert (forallb (fun b => bool_decide (b <> x0a /\ b <> x0d)) alphabet = true) as H by (vm_compute; reflexivity).
    rewrite forallb_forall in H. by apply H, bool_decide_eq_true in Hin. }
  induction l as [|a|a b|a b c l IH] using list_ind3; cbn [encodeBytes]; repeat constructor; auto; by apply Hc.
Qed.

Lemma decode_encode_bytes l : decodeBytes (encodeBytes l) = Some l.
Proof.
  induction l as [|a|a b|a b c l IH] using list_ind3; cbn [encodeBytes decodeBytes]; [done|..].
  - pose proof (Zbyte_range a). rewrite !value_char by dlia. cbn. do 2 f_equal. apply byteZ_eq. dlia.
  - pose proof (Zbyte_range a). pose proof (Zbyte_range b). rewrite !value_char by dlia. cbn.
    do 2 f_equal; [|f_equal]; apply byteZ_eq; dlia.
  - pose proof (Zbyte_range a). pose proof (Zbyte_range b). pose proof (Zbyte_range c).
    rewrite !value_char by dlia. cbn [mbind option_bind]. rewrite IH. cbn.
    do 2 f_equal; [|f_equal; [|f_equal]]; apply byteZ_eq; dlia.
Qed.

Lemma decode_encode64 l : decode64 (encode64 l) = Some l.
Proof.
  unfold decode64, encode64. rewrite sbytes_bstring, filter_all; [apply decode_encode_bytes|].
  apply encodeBytes_printable.
Qed.

Lemma encode64_inj l k : encode64 l = encode64 k -> l = k.
Proof. intros E. apply (f_equal decode64) in E. rewrite !decode_encode64 in E. congruence. Qed.
