(* ===== verification/Pending.v ===== *)
(** * Pending deliveries

    The in-flight part of [Broker] (internal/broker/broker.go, group_work.go): deliveries handed to
    a subscriber's channel and not acknowledged yet.  A pending delivery is an object on three
    indexes at once: the map by delivery ID, the list of its topic (oldest first), and the heap
    of deadlines.  [sendDeliveryLocked] admits one under the byte budgets of the broker and of
    the subscriber; acknowledgements, negative acknowledgements and the deadline pass of
    [maintenance] take them out.  Every operation is one critical section of [b.mu]; [now] is its
    reading of the clock in nanoseconds. *)
From S2P Require Import Prelude GoHeap Dll Types Config Metrics GoIO Base64.
#[local] Open Scope Z_scope.

(** [type Delivery struct] *)
Record Delivery := mkDelivery {
  d_DeliveryID : string;
  d_MessageID : string;
  d_Topic : string;
  d_Key : string;
  d_Headers : gmap string string;
  d_CreatedAt : Z;
  d_Attempt : Z;
  d_Cursor : string;
  d_Payload : list byte;
  d_origin : string;
  d_sequence : Z;
  d_expiresAt : Z;
}.
#[export] Instance Delivery_settable : Settable Delivery := fun r => mkDelivery (d_DeliveryID r)
  (d_MessageID r) (d_Topic r) (d_Key r) (d_Headers r) (d_CreatedAt r) (d_Attempt r) (d_Cursor r)
  (d_Payload r) (d_origin r) (d_sequence r) (d_expiresAt r).
#[export] Instance set_d_Cursor : Setter d_Cursor := ltac:(derive_setter).

(** [type subscriber struct]; [s_ch] is the content of the channel, [s_cancel] is [nil] or whether the
    stream's context has been cancelled. *)
Record subscriber := mkSubscriber {
  s_id : string;
  s_topic : string;
  s_group : string;
  s_affinityID : string;
  s_ch : list Delivery;
  s_inflightBytes : Z;
  s_cancel : option bool;
  s_detached : bool;
  s_replaying : bool;
  s_deferred : list string;
}.
#[export] Instance subscriber_settable : Settable subscriber := fun r => mkSubscriber (s_id r)
  (s_topic r) (s_group r) (s_affinityID r) (s_ch r) (s_inflightBytes r) (s_cancel r) (s_detached r)
  (s_replaying r) (s_deferred r).
#[export] Instance set_s_ch : Setter s_ch := ltac:(derive_setter).
#[export] Instance set_s_inflightBytes : Setter s_inflightBytes := ltac:(derive_setter).
#[export] Instance set_s_cancel : Setter s_cancel := ltac:(derive_setter).
#[export] Instance set_s_detached : Setter s_detached := ltac:(derive_setter).
#[export] Instance set_s_replaying : Setter s_replaying := ltac:(derive_setter).
#[export] Instance set_s_deferred : Setter s_deferred := ltac:(derive_setter).

(** [make(chan Delivery, 256)] *)
Definition chanCap : Z := 256.

(** [type pending struct], with its [pendingDeadline] in place; a pointer to the deadline is the
    pointer to the pending delivery. *)
Record pending := mkPending {
  p_deliveryID : string;
  p_message : Message;
  p_attempt : Z;
  p_group : string;
  p_subscriberID : string;
  p_expiresAt : Z;
  p_bytes : Z;
  p_next : Z;
  p_deadlineID : string;
  p_deadlineAt : Z;
  p_deadlineIndex : Z;
  p_deliveredAt : Z;
  p_topicPrev : option loc;
  p_topicNext : option loc;
}.
#[export] Instance pending_settable : Settable pending := fun r => mkPending (p_deliveryID r)
  (p_message r) (p_attempt r) (p_group r) (p_subscriberID r) (p_expiresAt r) (p_bytes r) (p_next r)
  (p_deadlineID r) (p_deadlineAt r) (p_deadlineIndex r) (p_deliveredAt r) (p_topicPrev r)
  (p_topicNext r).
#[export] Instance set_p_attempt : Setter p_attempt := ltac:(derive_setter).
#[export] Instance set_p_next : Setter p_next := ltac:(derive_setter).
#[export] Instance set_p_deadlineAt : Setter p_deadlineAt := ltac:(derive_setter).
#[export] Instance set_p_deadlineIndex : Setter p_deadlineIndex := ltac:(derive_setter).
#[export] Instance set_p_topicPrev : Setter p_topicPrev := ltac:(derive_setter).
#[export] Instance set_p_topicNext : Setter p_topicNext := ltac:(derive_setter).

#[export] Instance pending_heap : HeapItem pending.
Proof.
  refine {| hi_at := p_deadlineAt; hi_index := p_deadlineIndex;
            hi_set_index i p := p <| p_deadlineIndex := i |> |}; done.
Defined.

#[export] Instance pending_node : DllNode pending.
Proof.
  refine {| nd_prev := p_topicPrev; nd_next := p_topicNext;
            nd_set_prev x p := p <| p_topicPrev := x |>;
            nd_set_next x p := p <| p_topicNext := x |>;
            nd_strip p := (p <| p_topicPrev := None |>) <| p_topicNext := None |> |}; done.
Defined.

(** [type topicPendingState struct] *)
Record topicPendingState := mkTopicPending {
  tp_head : option loc;
  tp_tail : option loc;
  tp_count : Z;
}.
#[export] Instance topicPendingState_settable : Settable topicPendingState := fun r =>
  mkTopicPending (tp_head r) (tp_tail r) (tp_count r).

(** The fields of [Broker] that pending deliveries live in, with the stores of the pointers. *)
Record deliveries := mkDeliveries {
  dv_cfg : Config;
  dv_boot : list byte;
  dv_seq : Z;
  dv_sstore : gmap loc subscriber;
  dv_subs : gmap string loc;
  dv_pstore : gmap loc pending;
  dv_pending : gmap string loc;
  dv_topicPending : gmap string topicPendingState;
  dv_pendingBytes : Z;
  dv_deadlines : list loc;
  dv_metrics : Metrics;
}.
#[export] Instance deliveries_settable : Settable deliveries := fun r => mkDeliveries (dv_cfg r)
  (dv_boot r) (dv_seq r) (dv_sstore r) (dv_subs r) (dv_pstore r) (dv_pending r) (dv_topicPending r)
  (dv_pendingBytes r) (dv_deadlines r) (dv_metrics r).
#[export] Instance set_dv_seq : Setter dv_seq := ltac:(derive_setter).
#[export] Instance set_dv_sstore : Setter dv_sstore := ltac:(derive_setter).
#[export] Instance set_dv_subs : Setter dv_subs := ltac:(derive_setter).
#[export] Instance set_dv_pstore : Setter dv_pstore := ltac:(derive_setter).
#[export] Instance set_dv_pending : Setter dv_pending := ltac:(derive_setter).
#[export] Instance set_dv_topicPending : Setter dv_topicPending := ltac:(derive_setter).
#[export] Instance set_dv_pendingBytes : Setter dv_pendingBytes := ltac:(derive_setter).
#[export] Instance set_dv_deadlines : Setter dv_deadlines := ltac:(derive_setter).
#[export] Instance set_dv_metrics : Setter dv_metrics := ltac:(derive_setter).

#[local] Abbreviation PM := (GoM deliveries).

(** ** Helpers *)
Definition pderef (r : loc) : PM pending := d <- gget ;; glift (dv_pstore d !! r).
Definition pupdate (r : loc) (f : pending -> pending) : PM unit :=
  p <- pderef r ;; gmodify (fun d => d <| dv_pstore := <[r := f p]> (dv_pstore d) |>).
Definition sderef (r : loc) : PM subscriber := d <- gget ;; glift (dv_sstore d !! r).
Definition supdate (r : loc) (f : subscriber -> subscriber) : PM unit :=
  s <- sderef r ;; gmodify (fun d => d <| dv_sstore := <[r := f s]> (dv_sstore d) |>).

(** [container/heap] on [pendingDeadlines]. *)
Definition heapP {A} (m : GoM (heapSt pending) A) : PM A :=
  gzoom (fun d => mkHeapSt (dv_deadlines d) (dv_pstore d))
    (fun h d => (d <| dv_deadlines := h_slice h |>) <| dv_pstore := h_store h |>) m.
Definition linkP {A} (m : GoM (gmap loc pending) A) : PM A :=
  gzoom dv_pstore (fun st d => d <| dv_pstore := st |>) m.

Definition metric (proj : Metrics -> Z) `{!Setter proj} : PM unit :=
  gmodify (fun d => d <| dv_metrics := bumpMetric proj (dv_metrics d) |>).

(** Instants are exact; [Time.Sub] saturates at the range of a [time.Duration]. *)
Definition timeSub (a b : Z) : Z :=
  Z.max (-9223372036854775808) (Z.min 9223372036854775807 (a - b)).

(** [now.UnixMilli()] *)
Definition unixMilli (now : Z) : Z := now / Millisecond.

(** [nextID]: eight bytes drawn at start, then a counter. *)
Definition idOf (boot : list byte) (n : Z) : string := encode64 (boot ++ beBytes 8 n).
Definition nextID : PM string :=
  gmodify (fun d => d <| dv_seq := u64 (dv_seq d + 1) |>) ;;;
  d <- gget ;; gret (idOf (dv_boot d) (dv_seq d)).

(** ** The list of a topic *)
Definition topicOf (p : pending) : string := m_Topic (p_message p).

Definition linkTopicPendingLocked (r : loc) : PM unit :=
  p <- pderef r ;;
  d <- gget ;;
  let topic := topicOf p in
  let state := default (mkTopicPending None None 0) (dv_topicPending d !! topic) in
  let! (hd, tl) := linkP (link_back (tp_head state) (tp_tail state) r) ;;
  gmodify (fun d => d <| dv_topicPending :=
    <[topic := mkTopicPending hd tl (tp_count state + 1)]> (dv_topicPending d) |>).

Definition unlinkTopicPendingLocked (r : loc) : PM unit :=
  p <- pderef r ;;
  d <- gget ;;
  let topic := topicOf p in
  match dv_topicPending d !! topic with
  | None => gret tt
  | Some state =>
    let! (hd, tl) := linkP (unlink (tp_head state) (tp_tail state) r) ;;
    linkP (clear_links r) ;;;
    let count := tp_count state - 1 in
    gmodify (fun d => d <| dv_topicPending :=
      if bool_decide (count = 0) then delete topic (dv_topicPending d)
      else <[topic := mkTopicPending hd tl count]> (dv_topicPending d) |>)
  end.

(** ** Admission *)

(** Whether a delivery must wait: [s] is detached, a byte budget is exhausted or the channel is
    full. *)
Definition deliveryPressure (s : subscriber) (bytes : Z) (d : deliveries) : bool :=
  s_detached s
  || bool_decide (cfg_MaxInflightBytes (dv_cfg d) < i64 (dv_pendingBytes d + bytes))
  || bool_decide (cfg_MaxSubscriberInflightBytes (dv_cfg d) < i64 (s_inflightBytes s + bytes))
  || bool_decide (llen (s_ch s) = chanCap).

(** The delivery [id] of [m] to [s] enters the indexes, is charged and put on the channel. *)
Definition admitDelivery (sr : loc) (s : subscriber) (m : Message) (attempt : Z) (id : string) (now : Z)
    : PM unit :=
  d <- gget ;;
  let bytes := sizeOf m in
  let r := fresh (dom (dv_pstore d)) in
  let next := now + cfg_AckDeadline (dv_cfg d) in
  let p := mkPending id m attempt (s_group s) (s_id s) (m_ExpiresAt m) bytes next id next 0 now None None in
  gmodify (fun d => (d <| dv_pstore := <[r := p]> (dv_pstore d) |>)
                      <| dv_pending := <[id := r]> (dv_pending d) |>) ;;;
  linkTopicPendingLocked r ;;;
  gmodify (fun d => d <| dv_pendingBytes := i64 (dv_pendingBytes d + bytes) |>) ;;;
  supdate sr (fun s => s <| s_inflightBytes := i64 (s_inflightBytes s + bytes) |>) ;;;
  heapP (Push r) ;;;
  supdate sr (fun s => s <| s_ch := s_ch s ++ [mkDelivery id (m_ID m) (m_Topic m) (m_Key m)
    (m_Headers m) (m_CreatedAt m) attempt "" (m_Payload m) (m_Origin m) (m_Sequence m) (m_ExpiresAt m)] |>) ;;;
  metric mt_Delivered.

(** [sendDeliveryLocked]: the delivery ID, or the empty string. *)
Definition sendDeliveryLocked (sr : loc) (m : Message) (attempt : Z) (cancelOnPressure : bool) (now : Z)
    : PM string :=
  s <- sderef sr ;;
  d <- gget ;;
  if deliveryPressure s (sizeOf m) d then
    gwhen (cancelOnPressure && bool_decide (s_cancel s <> None))
      (supdate sr (fun s => s <| s_cancel := Some true |>)) ;;;
    gwhen cancelOnPressure (metric mt_Dropped) ;;;
    gret ""
  else
    id <- nextID ;;
    admitDelivery sr s m attempt id now ;;;
    gret id.

Definition sendDelivery (sr : loc) (m : Message) (attempt : Z) (now : Z) : PM bool :=
  id <- sendDeliveryLocked sr m attempt true now ;; gret (bool_decide (id <> "")).

(** ** Removal *)

(** What every removal does to the byte budgets; the subscriber may be gone. *)
Definition releaseBytes (p : pending) : PM unit :=
  gmodify (fun d => d <| dv_pendingBytes := i64 (dv_pendingBytes d - p_bytes p) |>) ;;;
  d <- gget ;;
  match dv_subs d !! p_subscriberID p with
  | Some sr => supdate sr (fun s => s <| s_inflightBytes := i64 (s_inflightBytes s - p_bytes p) |>)
  | None => gret tt
  end.

(** [releasePending]: the object goes back to the pool; the pointer is dead. *)
Definition releasePending (r : loc) : PM unit :=
  gmodify (fun d => d <| dv_pstore := delete r (dv_pstore d) |>).

(** The removal of one acknowledged delivery in [removeAcks]. *)
Definition removeAcked (id : string) (r : loc) (now : Z) : PM unit :=
  gmodify (fun d => d <| dv_pending := delete id (dv_pending d) |>) ;;;
  unlinkTopicPendingLocked r ;;;
  p <- pderef r ;;
  gwhen (bool_decide (0 <= p_deadlineIndex p))
    (_ <- heapP (Remove (Z.to_nat (p_deadlineIndex p))) ;; gret tt) ;;;
  releaseBytes p ;;;
  metric mt_Acked ;;;
  gmodify (fun d => d <| dv_metrics := (dv_metrics d) <| mt_AckLatency :=
    observe (timeSub now (p_deliveredAt p)) (mt_AckLatency (dv_metrics d)) |> |>) ;;;
  releasePending r.

(** Making a pending delivery due now ([applyNacks], and the end of a stream). *)
Definition makeDue (r : loc) (now : Z) : PM unit :=
  pupdate r (fun p => (p <| p_next := now |>) <| p_deadlineAt := now |>) ;;;
  p <- pderef r ;;
  heapP (Fix (Z.to_nat (p_deadlineIndex p))).

Definition applyNacks (ids : list string) (now : Z) : PM unit :=
  gfor ids (fun id =>
    d <- gget ;;
    match dv_pending d !! id with Some r => makeDue r now | None => gret tt end).

(** The end of [stream]: the deliveries of a subscriber that left are due at once. *)
Definition makeSubscriberDue (sid : string) (now : Z) : PM unit :=
  d <- gget ;;
  gfor (map_to_list (dv_pending d)) (fun ir =>
    p <- pderef ir.2 ;;
    gwhen (bool_decide (p_subscriberID p = sid)) (makeDue ir.2 now)).

(** The delivery [id] leaves the indexes. *)
Definition takeDue (id : string) (p : pending) (r : loc) : PM unit :=
  gmodify (fun d => d <| dv_pending := delete id (dv_pending d) |>) ;;;
  unlinkTopicPendingLocked r ;;;
  releaseBytes p.

(** The deadline loop of [maintenance]: the deliveries that are due leave the indexes; their
    objects are returned for the retries that follow. *)
Fixpoint popDue (fuel : nat) (now : Z) : PM (list loc) :=
  match fuel with
  | O => gpanic
  | S fuel =>
    d <- gget ;;
    match head (dv_deadlines d) with
    | None => gret []
    | Some r0 =>
      root <- pderef r0 ;;
      if bool_decide (now < p_deadlineAt root) then gret [] else
      r <- heapP Pop ;;
      deadline <- pderef r ;;
      d <- gget ;;
      match dv_pending d !! p_deadlineID deadline with
      | None => popDue fuel now
      | Some pr =>
        p <- pderef pr ;;
        if bool_decide (p_next p <> p_deadlineAt deadline) then popDue fuel now else
        takeDue (p_deadlineID deadline) p pr ;;;
        retry <- popDue fuel now ;;
        gret (pr :: retry)
      end
    end
  end.

(** ** Broadcast pressure *)

(** The [for p := state.head] walk: the oldest broadcast delivery of the topic decides. *)
Fixpoint oldestBroadcast (fuel : nat) (cur : option loc) (st : gmap loc pending) : option (option pending) :=
  match cur with
  | None => Some None
  | Some r =>
    match fuel with
    | O => None
    | S fuel =>
      p ← st !! r ;
      if bool_decide (p_group p = "") then Some (Some p) else oldestBroadcast fuel (p_topicNext p) st
    end
  end.

Definition topicDeliveryPressured (topic : string) (now : Z) (d : deliveries) : option bool :=
  match dv_topicPending d !! topic with
  | None => Some false
  | Some state =>
    p ← oldestBroadcast (size (dv_pstore d)) (tp_head state) (dv_pstore d) ;
    Some (match p with
          | Some p => bool_decide (cfg_DeliveryLagLimit (dv_cfg d) <= i64 (now - p_deliveredAt p))
          | None => false
          end)
  end.
