(* ===== verification/PendingInv.v ===== *)
(** * Pending deliveries: the invariant

    The three indexes of the pending deliveries agree: the map, the topics' lists and the heap of
    deadlines hold the same objects; the byte counters of the broker and of every attached
    subscriber are the sums over them and stay within their budgets.  Every operation of
    Pending.v keeps the invariant and never dereferences a dead pointer. *)
From Stdlib Require Import Sorting.Sorted.
From S2P Require Import Prelude GoHeap Dll KeyedLists Types Config Metrics GoIO Base64 Pending.
#[local] Open Scope Z_scope.

(** ** Rules for the helpers *)
Lemma wp_pderef r p d (Q : pending -> deliveries -> Prop) :
  dv_pstore d !! r = Some p -> Q p d -> wp (pderef r) d Q.
Proof. intros Hr HQ. unfold pderef. wp_step. apply wp_get. by eapply wp_lift. Qed.

Lemma wp_pupdate r f p d (Q : unit -> deliveries -> Prop) :
  dv_pstore d !! r = Some p -> Q tt (d <| dv_pstore := <[r := f p]> (dv_pstore d) |>) ->
  wp (pupdate r f) d Q.
Proof. intros Hr HQ. unfold pupdate. wp_step. eapply wp_pderef; [done|]. by apply wp_modify. Qed.

Lemma wp_sderef r s d (Q : subscriber -> deliveries -> Prop) :
  dv_sstore d !! r = Some s -> Q s d -> wp (sderef r) d Q.
Proof. intros Hr HQ. unfold sderef. wp_step. apply wp_get. by eapply wp_lift. Qed.

Lemma wp_supdate r f s d (Q : unit -> deliveries -> Prop) :
  dv_sstore d !! r = Some s -> Q tt (d <| dv_sstore := <[r := f s]> (dv_sstore d) |>) ->
  wp (supdate r f) d Q.
Proof. intros Hr HQ. unfold supdate. wp_step. eapply wp_sderef; [done|]. by apply wp_modify. Qed.

(** ** The lists of the topics *)
Abbreviation pstrip := (nd_strip (T := pending)).

Definition countOk (s : topicPendingState) (l : list loc) : Prop := tp_count s = llen l.
Abbreviation plists := (lists_ok (T := pending) topicOf tp_head tp_tail countOk).

Lemma topicOf_strip (t t' : pending) : nd_strip t' = nd_strip t -> topicOf t' = topicOf t.
Proof. intros E. unfold topicOf. by apply (f_equal p_message) in E; cbn in E; rewrite E. Qed.

(** A store that differs only in heap positions. *)
Lemma plists_idx st st' tp L : idx_eq st st' -> plists st tp L -> plists st' tp L.
Proof.
  intros Hi HL. eapply lists_ok_ext; [|exact HL]. intros t r p _ Hp. destruct (idx_eq_lookup _ _ _ _ Hi Hp) as (p' & Hp' & E).
  exists p'. split; [done|]. split_and!; [by apply (f_equal p_topicPrev) in E|by apply (f_equal p_topicNext) in E|].
  unfold topicOf. by apply (f_equal p_message) in E; cbn in E; rewrite E.
Qed.

Lemma wp_linkTopic d r p L (Q : unit -> deliveries -> Prop) :
  dv_pstore d !! r = Some p -> p_topicNext p = None ->
  plists (dv_pstore d) (dv_topicPending d) L -> (forall t, r ∉ L t) ->
  (forall st' tp', agree pstrip (dv_pstore d) st' ->
     plists st' tp' (addTo (topicOf p) r L) ->
     Q tt ((d <| dv_pstore := st' |>) <| dv_topicPending := tp' |>)) ->
  wp (linkTopicPendingLocked r) d Q.
Proof.
  intros Hr Hnext HL Hnin HQ. unfold linkTopicPendingLocked. wp_step. eapply wp_pderef; [done|].
  wp_step. apply wp_get. change (topicOf p) with (topicOf p). wp_step. unfold linkP. apply wp_zoom.
  pose proof (lo_state _ _ _ _ _ _ _ HL (topicOf p)) as Ht.
  set (s := default (mkTopicPending None None 0) (dv_topicPending d !! topicOf p)).
  assert (Hcount : tp_count s = llen (L (topicOf p))).
  { unfold s. destruct (dv_topicPending d !! topicOf p); [by destruct Ht as (_ & _ & ?)|by rewrite Ht]. }
  eapply (wp_append topicOf tp_head tp_tail countOk topicOf_strip); [exact HL|exact Hr|exact Hnext|exact Hnin| |].
  { by destruct (dv_topicPending d !! topicOf p). }
  intros hd tl st' [Hstrip _] _ HL'. cbn beta iota. apply wp_modify. apply HQ; [exact Hstrip|].
  apply HL'; [done|done|]. unfold countOk. cbn. rewrite llen_app, Hcount. done.
Qed.

Lemma wp_unlinkTopic d r p L (Q : unit -> deliveries -> Prop) :
  dv_pstore d !! r = Some p -> plists (dv_pstore d) (dv_topicPending d) L -> r ∈ L (topicOf p) ->
  (forall st' tp', agree pstrip (dv_pstore d) st' ->
     plists st' tp' (dropFrom (topicOf p) r L) ->
     Q tt ((d <| dv_pstore := st' |>) <| dv_topicPending := tp' |>)) ->
  wp (unlinkTopicPendingLocked r) d Q.
Proof.
  intros Hr HL Hin HQ. unfold unlinkTopicPendingLocked. wp_step. eapply wp_pderef; [done|].
  wp_step. apply wp_get. change (topicOf p) with (topicOf p).
  pose proof (lo_state _ _ _ _ _ _ _ HL (topicOf p)) as Ht.
  destruct (dv_topicPending d !! topicOf p) as [s|] eqn:Hs; [|rewrite Ht in Hin; by apply elem_of_nil in Hin].
  destruct Ht as (Hne & Hdll & Hcount). wp_step. unfold linkP. apply wp_zoom.
  eapply (wp_remove topicOf tp_head tp_tail countOk topicOf_strip); [exact HL|exact Hr|exact Hin|exact Hs|].
  intros hd tl st1 rest Hl _ Hlen Hnil Hcons. cbn beta iota. wp_step. apply wp_zoom.
  assert (Hr1 : st1 !! r = Some p).
  { destruct Hl as [_ Hout]. rewrite Hout; [done|]. by intros [? _]%list_elem_of_filter. }
  unfold clear_links. eapply wp_nd_update; [exact Hr1|]. cbv beta zeta. apply wp_modify.
  set (p2 := nd_set_next None (nd_set_prev None p)).
  assert (Hfree : forall tp', plists st1 tp' (dropFrom (topicOf p) r L) ->
    plists (<[r := p2]> st1) tp' (dropFrom (topicOf p) r L)).
  { intros tp' HL'. eapply lists_ok_out; [|exact HL']. intros t x Hx. apply lookup_insert_ne. intros <-.
    revert Hx. eapply (drop_nin topicOf tp_head tp_tail countOk); [exact HL|exact Hr]. }
  specialize (HQ (<[r := p2]> st1) (if bool_decide (tp_count s - 1 = 0) then delete (topicOf p) (dv_topicPending d)
                      else <[topicOf p := mkTopicPending hd tl (tp_count s - 1)]> (dv_topicPending d))).
  apply HQ.
  - etransitivity; [by destruct Hl|]. by eapply agree_insert.
  - apply Hfree. unfold countOk in Hcount. rewrite Hcount, Hlen.
    destruct (bool_decide_reflect (1 + llen rest - 1 = 0)) as [Hz|Hz].
    + apply Hnil. unfold llen in Hz. destruct rest; [done|]. cbn in Hz. lia.
    + apply Hcons; [|done|done|]; [|unfold countOk; cbn; lia]. intros E. rewrite E in Hz. done.
Qed.

(** ** The subscriber registry *)

(** An operation that leaves the subscriber registry alone. *)
Definition subFields (s : subscriber) : string * string * string * string * option bool * bool * bool :=
  (s_id s, s_topic s, s_group s, s_affinityID s, (fun _ => true) <$> s_cancel s, s_detached s, s_replaying s).
Definition registryKept (d d' : deliveries) : Prop :=
  dv_cfg d' = dv_cfg d /\ dv_boot d' = dv_boot d /\ dv_subs d' = dv_subs d /\
  agree subFields (dv_sstore d) (dv_sstore d').

#[export] Instance registryKept_refl : Reflexive registryKept.
Proof. intros d. by split_and!. Qed.
#[export] Instance registryKept_trans : Transitive registryKept.
Proof.
  intros a b c (A1 & A2 & A3 & A4) (B1 & B2 & B3 & B4). split_and!; [congruence..|]. by etransitivity.
Qed.

Lemma registry_lookup d d' sr s : registryKept d d' -> dv_sstore d !! sr = Some s ->
  exists s', dv_sstore d' !! sr = Some s' /\ s_id s' = s_id s /\ s_topic s' = s_topic s /\ s_group s' = s_group s /\
    s_affinityID s' = s_affinityID s /\ s_detached s' = s_detached s /\ s_replaying s' = s_replaying s.
Proof.
  intros (_ & _ & _ & Ha) Hs. destruct (agree_lookup _ _ _ _ _ Ha Hs) as (s' & Hs' & E). exists s'. split; [done|].
  unfold subFields in E. by injection E as -> -> -> -> _ -> ->.
Qed.

(** Identifiers of subscribers are unique. *)
Definition uniqueIds (ss : gmap loc subscriber) : Prop := forall sr sr' s s',
  ss !! sr = Some s -> ss !! sr' = Some s' -> s_id s = s_id s' -> sr = sr'.

Lemma uniqueIds_agree ss ss' : agree s_id ss ss' -> uniqueIds ss -> uniqueIds ss'.
Proof.
  intros Ha Hu sr sr' s s' Hs Hs' E.
  destruct (agree_lookup _ _ _ _ _ (symmetry Ha) Hs) as (t & Ht & Et).
  destruct (agree_lookup _ _ _ _ _ (symmetry Ha) Hs') as (t' & Ht' & Et'). eapply Hu; [exact Ht|exact Ht'|congruence].
Qed.

Lemma uniqueIds_registry d d' : registryKept d d' -> uniqueIds (dv_sstore d) -> uniqueIds (dv_sstore d').
Proof.
  intros (_ & _ & _ & Ha). apply uniqueIds_agree. exact (agree_weaken subFields (fun x => x.1.1.1.1.1.1) _ _ Ha).
Qed.

(** ** The invariant *)

(** A pending delivery without its places in the indexes. *)
Definition pview (p : pending) : pending := hi_set_index 0 (pstrip p).

Definition pbytes (st : gmap loc pending) (f : pending -> bool) : string -> loc -> Z := fun _ r =>
  match st !! r with Some p => if f p then p_bytes p else 0 | None => 0 end.
(** The bytes of the pending deliveries that satisfy [f]. *)
Definition psum (d : deliveries) (f : pending -> bool) : Z := msum (pbytes (dv_pstore d) f) (dv_pending d).

Definition everything (p : pending) : bool := true.
Definition sentTo (sid : string) (p : pending) : bool := bool_decide (p_subscriberID p = sid).

(** The budgets are ones that [int64] sums stay clear of. *)
Record budgets_ok (d : deliveries) : Prop := {
  bo_max : 0 <= cfg_MaxInflightBytes (dv_cfg d) < 2 ^ 62;
  bo_submax : 0 <= cfg_MaxSubscriberInflightBytes (dv_cfg d) < 2 ^ 62;
}.

(** An identifier that [nextID] has given out. *)
Definition issued (d : deliveries) (i : string) : Prop := exists n, 0 < n <= dv_seq d /\ i = idOf (dv_boot d) n.

Lemma issued_mono d d' i : dv_boot d' = dv_boot d -> dv_seq d <= dv_seq d' -> issued d i -> issued d' i.
Proof. intros Eb Hs (n & Hn & ->). exists n. rewrite Eb. split; [lia|done]. Qed.

Record pinv (d : deliveries) (L : string -> list loc) : Prop := {
  pi_budgets : budgets_ok d;
  pi_item : forall id r, dv_pending d !! id = Some r -> exists p, dv_pstore d !! r = Some p /\
    p_deliveryID p = id /\ p_deadlineID p = id /\ p_next p = p_deadlineAt p /\ 0 < p_bytes p;
  pi_ids : forall id r, dv_pending d !! id = Some r -> issued d id;
  pi_seq : 0 <= dv_seq d;
  pi_heap : hrep (mkHeapSt (dv_deadlines d) (dv_pstore d));
  pi_heapdom : forall r, r ∈ dv_deadlines d <-> exists id, dv_pending d !! id = Some r;
  pi_lists : plists (dv_pstore d) (dv_topicPending d) L;
  pi_listdom : forall r p, dv_pstore d !! r = Some p ->
    (r ∈ L (topicOf p) <-> exists id, dv_pending d !! id = Some r);
  pi_bytes : dv_pendingBytes d = psum d everything;
  pi_max : dv_pendingBytes d <= cfg_MaxInflightBytes (dv_cfg d);
  pi_subs : forall sid sr, dv_subs d !! sid = Some sr -> exists s, dv_sstore d !! sr = Some s /\
    s_id s = sid /\ s_detached s = false;
  pi_sub : forall sr s, dv_sstore d !! sr = Some s -> s_detached s = false ->
    dv_subs d !! s_id s = Some sr /\ s_inflightBytes s = psum d (sentTo (s_id s)) /\
    s_inflightBytes s <= cfg_MaxSubscriberInflightBytes (dv_cfg d);
  pi_chan : forall sr s, dv_sstore d !! sr = Some s -> llen (s_ch s) <= chanCap;
  pi_sids : forall sr s, dv_sstore d !! sr = Some s -> issued d (s_id s);
  pi_pids : forall id r p, dv_pending d !! id = Some r -> dv_pstore d !! r = Some p -> issued d (p_subscriberID p);
  pi_uniq : uniqueIds (dv_sstore d);
  pi_sizes : forall id r p, dv_pending d !! id = Some r -> dv_pstore d !! r = Some p -> p_bytes p = sizeOf (p_message p);
}.

Definition viewTest (f : pending -> bool) : Prop := forall p p', pview p = pview p' -> f p = f p'.

Lemma viewTest_everything : viewTest everything.
Proof. done. Qed.
Lemma viewTest_sentTo sid : viewTest (sentTo sid).
Proof. intros p p' E. unfold sentTo. by apply (f_equal p_subscriberID) in E; cbn in E; rewrite E. Qed.
#[export] Hint Resolve viewTest_everything viewTest_sentTo : core.

Lemma pview_fields p p' : pview p' = pview p ->
  p_deliveryID p' = p_deliveryID p /\ p_message p' = p_message p /\ p_deadlineID p' = p_deadlineID p /\
  p_next p' = p_next p /\ p_deadlineAt p' = p_deadlineAt p /\ p_bytes p' = p_bytes p /\
  p_subscriberID p' = p_subscriberID p /\ p_group p' = p_group p.
Proof.
  intros E. split_and!;
    [apply (f_equal p_deliveryID) in E|apply (f_equal p_message) in E|apply (f_equal p_deadlineID) in E|
     apply (f_equal p_next) in E|apply (f_equal p_deadlineAt) in E|apply (f_equal p_bytes) in E|
     apply (f_equal p_subscriberID) in E|apply (f_equal p_group) in E]; exact E.
Qed.

Lemma pview_topic p p' : pview p' = pview p -> topicOf p' = topicOf p.
Proof. intros E. unfold topicOf. by destruct (pview_fields _ _ E) as (_ & -> & _). Qed.

Lemma agree_strip_view st st' : agree pstrip st st' -> agree pview st st'.
Proof. apply (agree_weaken pstrip (hi_set_index 0)). Qed.

Lemma agree_idx_view st st' : idx_eq st st' -> agree pview st st'.
Proof.
  intros H r. specialize (H r). destruct (st !! r) as [p|], (st' !! r) as [p'|]; try done.
  apply (inj Some) in H. cbn. f_equal. unfold pview.
  change (pstrip (hi_set_index 0 p') = pstrip (hi_set_index 0 p)). by rewrite H.
Qed.

Lemma msum_pview st st' f (pend : gmap string loc) :
  viewTest f -> (forall id r, pend !! id = Some r -> pview <$> st' !! r = pview <$> st !! r) ->
  msum (pbytes st' f) pend = msum (pbytes st f) pend.
Proof.
  intros Hf Ha. apply msum_ext. intros id r Hr. specialize (Ha _ _ Hr). unfold pbytes.
  destruct (st !! r) as [p|], (st' !! r) as [p'|]; try done. apply (inj Some) in Ha.
  rewrite (Hf p' p Ha). by destruct (pview_fields _ _ Ha) as (_ & _ & _ & _ & _ & -> & _).
Qed.

Lemma psum_nonneg d L f : pinv d L -> 0 <= psum d f.
Proof.
  intros I. apply msum_nonneg. intros id r Hr. unfold pbytes.
  destruct (pi_item _ _ I _ _ Hr) as (p & -> & _ & _ & _ & ?). destruct (f p); lia.
Qed.

(** Identifiers are not reused. *)
Lemma idOf_inj boot n k : in_u64 n -> in_u64 k -> idOf boot n = idOf boot k -> n = k.
Proof.
  intros Hn Hk E. apply encode64_inj, app_inv_head in E. apply (f_equal beRead) in E.
  rewrite !beRead_beBytes, !Z.mod_small in E; done.
Qed.

Lemma fresh_id d L :
  pinv d L -> dv_seq d + 1 < 2 ^ 64 -> dv_pending d !! idOf (dv_boot d) (dv_seq d + 1) = None.
Proof.
  intros I Hs. destruct (_ !! _) as [r|] eqn:E; [|done]. destruct (pi_ids _ _ I _ _ E) as (n & Hn & En).
  apply idOf_inj in En; unfold in_u64; lia.
Qed.

(** ** Taking a delivery out *)
Lemma pending_inj d L id id' r :
  pinv d L -> dv_pending d !! id = Some r -> dv_pending d !! id' = Some r -> id' = id.
Proof.
  intros I H H'. destruct (pi_item _ _ I _ _ H) as (p & Hp & <- & _).
  destruct (pi_item _ _ I _ _ H') as (p' & Hp' & <- & _). congruence.
Qed.

Definition relieve (b : Z) (s : subscriber) : subscriber :=
  s <| s_inflightBytes := i64 (s_inflightBytes s - b) |>.

(** What a removal leaves behind; the object itself may live on for its retry. *)
Record taken (d : deliveries) (L : string -> list loc) (id : string) (r : loc) (p : pending)
    (d' : deliveries) : Prop := {
  tk_cfg : dv_cfg d' = dv_cfg d;
  tk_boot : dv_boot d' = dv_boot d;
  tk_seq : dv_seq d' = dv_seq d;
  tk_subs : dv_subs d' = dv_subs d;
  tk_pending : dv_pending d' = delete id (dv_pending d);
  tk_store : forall x, dv_pstore d' !! x = None /\ x = r \/
    pview <$> dv_pstore d' !! x = pview <$> dv_pstore d !! x;
  tk_heap : hrep (mkHeapSt (dv_deadlines d') (dv_pstore d'));
  tk_slice : dv_deadlines d ≡ₚ r :: dv_deadlines d';
  tk_lists : plists (dv_pstore d') (dv_topicPending d') (dropFrom (topicOf p) r L);
  tk_bytes : dv_pendingBytes d' = i64 (dv_pendingBytes d - p_bytes p);
  tk_sstore : dv_sstore d' = match dv_subs d !! p_subscriberID p with
    | Some sr => alter (relieve (p_bytes p)) sr (dv_sstore d)
    | None => dv_sstore d
    end;
}.

Lemma taken_registry d L id r p d' : taken d L id r p d' -> registryKept d d'.
Proof.
  intros [Tc Tb _ Tu _ _ _ _ _ _ Tss]. split_and!; [done..|]. intros sr. rewrite Tss.
  destruct (dv_subs d !! p_subscriberID p) as [sr0|]; [|done].
  destruct (decide (sr0 = sr)) as [->|Hne]; [|by rewrite lookup_alter_ne].
  rewrite lookup_alter_eq. by destruct (dv_sstore d !! sr).
Qed.

Section Taken.
Context (d : deliveries) (L : string -> list loc) (id : string) (r : loc) (p : pending) (d' : deliveries).
Context (I : pinv d L) (Hid : dv_pending d !! id = Some r) (Hr : dv_pstore d !! r = Some p).
Context (T : taken d L id r p d').

Lemma taken_view id' r' : dv_pending d' !! id' = Some r' ->
  r' <> r /\ dv_pending d !! id' = Some r' /\ pview <$> dv_pstore d' !! r' = pview <$> dv_pstore d !! r'.
Proof.
  rewrite (tk_pending _ _ _ _ _ _ T). intros [Hne Hid']%lookup_delete_Some.
  assert (r' <> r) by (intros ->; apply Hne; symmetry; by eapply pending_inj).
  split; [done|]. split; [done|]. destruct (tk_store _ _ _ _ _ _ T r') as [[_ ->]|Hv]; done.
Qed.

Lemma taken_item id' r' : dv_pending d' !! id' = Some r' -> exists p', dv_pstore d' !! r' = Some p' /\
  p_deliveryID p' = id' /\ p_deadlineID p' = id' /\ p_next p' = p_deadlineAt p' /\ 0 < p_bytes p'.
Proof.
  intros (_ & Hid' & Hv)%taken_view. destruct (pi_item _ _ I _ _ Hid') as (q & Hq & ? & ? & ? & ?).
  rewrite Hq in Hv. destruct (dv_pstore d' !! r') as [p'|]; [|done]. apply (inj Some) in Hv.
  destruct (pview_fields _ _ Hv) as (? & ? & ? & ? & ? & ? & _). exists p'. split_and!; congruence.
Qed.

Lemma taken_psum f : viewTest f -> psum d' f = psum d f - (if f p then p_bytes p else 0).
Proof.
  intros Hf. unfold psum. rewrite (msum_delete _ _ _ _ Hid). unfold pbytes at 2. rewrite Hr.
  rewrite (tk_pending _ _ _ _ _ _ T). rewrite (msum_pview (dv_pstore d) (dv_pstore d') f); [lia|done|].
  intros id' r'. rewrite <- (tk_pending _ _ _ _ _ _ T). by intros (_ & _ & ?)%taken_view.
Qed.

Lemma psum_range f : (f p = true -> p_bytes p <= psum d f) /\ 0 <= psum d f.
Proof.
  split; [|by eapply psum_nonneg]. intros Hf.
  pose proof (msum_le_elem (pbytes (dv_pstore d) f) (dv_pending d) id r) as Hle.
  replace (pbytes (dv_pstore d) f id r) with (p_bytes p) in Hle by (unfold pbytes; by rewrite Hr, Hf).
  apply Hle; [|done]. intros id' r' H'. unfold pbytes.
  destruct (pi_item _ _ I _ _ H') as (q & -> & _ & _ & _ & ?). destruct (f q); lia.
Qed.

Lemma taken_sub sr s' : dv_sstore d' !! sr = Some s' -> s_detached s' = false ->
  dv_subs d' !! s_id s' = Some sr /\ s_inflightBytes s' = psum d' (sentTo (s_id s')) /\
  s_inflightBytes s' <= cfg_MaxSubscriberInflightBytes (dv_cfg d').
Proof.
  rewrite (tk_sstore _ _ _ _ _ _ T), (tk_subs _ _ _ _ _ _ T), (tk_cfg _ _ _ _ _ _ T).
  intros Hs Hdet. rewrite taken_psum by auto. pose proof (bo_submax _ (pi_budgets _ _ I)).
  assert (Hp : 0 < p_bytes p).
  { destruct (pi_item _ _ I _ _ Hid) as (q & Hq & _ & _ & _ & ?). by replace p with q by congruence. }
  assert (Hother : forall s, dv_sstore d !! sr = Some s -> s_detached s = false ->
    p_subscriberID p <> s_id s -> dv_subs d !! s_id s = Some sr /\
    s_inflightBytes s = psum d (sentTo (s_id s)) - (if sentTo (s_id s) p then p_bytes p else 0) /\
    s_inflightBytes s <= cfg_MaxSubscriberInflightBytes (dv_cfg d)).
  { intros s Hs0 Hd0 Hne. destruct (pi_sub _ _ I _ _ Hs0 Hd0) as (? & ? & ?).
    unfold sentTo at 2. rewrite bool_decide_false by done. split_and!; [done|lia|done]. }
  destruct (dv_subs d !! p_subscriberID p) as [sr0|] eqn:Hsub.
  - destruct (pi_subs _ _ I _ _ Hsub) as (s0 & Hs0 & Eid & Hd0).
    destruct (decide (sr0 = sr)) as [->|Hne].
    + rewrite lookup_alter_eq, Hs0 in Hs. cbn in Hs. apply (inj Some) in Hs. subst s'.
      unfold relieve. cbn [s_id s_inflightBytes]. unfold setf, set_s_inflightBytes. cbn [s_id s_inflightBytes].
      destruct (pi_sub _ _ I _ _ Hs0 Hd0) as (? & Ein & ?). rewrite Eid in *. rewrite Ein in *.
      assert (Es : sentTo (p_subscriberID p) p = true) by by apply bool_decide_true.
      destruct (psum_range (sentTo (p_subscriberID p))) as [Hle _]. specialize (Hle Es).
      rewrite Es. i64s. split_and!; [done|lia|lia].
    + rewrite lookup_alter_ne in Hs by done. apply Hother; [done|done|]. intros E.
      destruct (pi_sub _ _ I _ _ Hs Hdet) as (E' & _). rewrite <- E in E'. congruence.
  - apply Hother; [done|done|]. intros E. destruct (pi_sub _ _ I _ _ Hs Hdet) as (E' & _).
    rewrite <- E in E'. congruence.
Qed.

Lemma pinv_taken : pinv d' (dropFrom (topicOf p) r L).
Proof.
  destruct T as [Tc Tb Tq Tu Tp Ts Th Tl To Tby Tss].
  assert (Hnd : r ∉ dv_deadlines d').
  { pose proof (hwf_nodup _ (proj1 (pi_heap _ _ I))) as Hnd. cbn in Hnd. rewrite Tl in Hnd.
    by apply NoDup_cons in Hnd as []. }
  split.
  - split; rewrite Tc; apply (pi_budgets _ _ I).
  - exact taken_item.
  - intros id' r' (_ & H & _)%taken_view. apply (issued_mono d); [done|lia|]. by eapply pi_ids.
  - rewrite Tq. by eapply pi_seq.
  - done.
  - intros x. assert (Hx : x ∈ dv_deadlines d' <-> x ∈ dv_deadlines d /\ x <> r).
    { rewrite Tl. split; [intros Hx; split; [by right|by intros ->]|by intros [[->|]%elem_of_cons ?]]. }
    rewrite Hx, (pi_heapdom _ _ I). split.
    + intros [[id' H'] Hne]. exists id'. rewrite Tp. apply lookup_delete_Some. split; [|done].
      intros <-. congruence.
    + intros [id' (? & ? & _)%taken_view]. eauto.
  - done.
  - intros x q Hx. destruct (Ts x) as [[Hn _]|Hv]; [congruence|]. rewrite Hx in Hv.
    destruct (dv_pstore d !! x) as [q0|] eqn:Hx0; [|done]. apply (inj Some) in Hv.
    rewrite (pview_topic _ _ Hv). pose proof (pi_listdom _ _ I _ _ Hx0) as Hdom.
    assert (Hd : x ∈ dropFrom (topicOf p) r L (topicOf q0) <->
                 x ∈ L (topicOf q0) /\ x <> r).
    { unfold dropFrom. destruct (decide _) as [->|Hne].
      - rewrite list_elem_of_filter. naive_solver.
      - split; [|naive_solver]. intros Hin. split; [done|]. intros ->. apply Hne. congruence. }
    rewrite Hd, Hdom. split.
    + intros [[id' H'] Hne]. exists id'. rewrite Tp. apply lookup_delete_Some. split; [|done].
      intros <-. congruence.
    + intros [id' (? & ? & _)%taken_view]. eauto.
  - pose proof (pi_bytes _ _ I). pose proof (pi_max _ _ I). pose proof (bo_max _ (pi_budgets _ _ I)).
    destruct (psum_range everything) as [Hle _]. specialize (Hle eq_refl).
    rewrite Tby, taken_psum by auto. cbn [everything].
    destruct (pi_item _ _ I _ _ Hid) as (q & Hq & _ & _ & _ & ?). replace q with p in * by congruence. i64s. lia.
  - pose proof (pi_bytes _ _ I). pose proof (pi_max _ _ I). pose proof (bo_max _ (pi_budgets _ _ I)).
    destruct (psum_range everything) as [Hle _]. specialize (Hle eq_refl). rewrite Tby, Tc.
    destruct (pi_item _ _ I _ _ Hid) as (q & Hq & _ & _ & _ & ?). replace q with p in * by congruence. i64s. lia.
  - rewrite Tu, Tss. intros sid sr Hs. destruct (pi_subs _ _ I _ _ Hs) as (s & Hss & E & Hdet).
    destruct (dv_subs d !! p_subscriberID p) as [sr0|]; [|eauto].
    destruct (decide (sr0 = sr)) as [->|Hne]; [|rewrite lookup_alter_ne by done; eauto].
    rewrite lookup_alter_eq, Hss. cbn. eauto.
  - exact taken_sub.
  - rewrite Tss. intros sr s Hs. destruct (dv_subs d !! p_subscriberID p) as [sr0|]; [|by eapply pi_chan].
    destruct (decide (sr0 = sr)) as [->|Hne]; [|rewrite lookup_alter_ne in Hs by done; by eapply pi_chan].
    rewrite lookup_alter_eq in Hs. destruct (dv_sstore d !! sr) as [s0|] eqn:E; [|done].
    cbn in Hs. apply (inj Some) in Hs. subst s. cbn. by apply (pi_chan _ _ I _ _ E).
  - rewrite Tss. intros sr s Hs. apply (issued_mono d); [done|lia|].
    destruct (dv_subs d !! p_subscriberID p) as [sr0|]; [|by eapply pi_sids].
    destruct (decide (sr0 = sr)) as [->|Hne]; [|rewrite lookup_alter_ne in Hs by done; by eapply pi_sids].
    rewrite lookup_alter_eq in Hs. destruct (dv_sstore d !! sr) as [s0|] eqn:E; [|done].
    cbn in Hs. apply (inj Some) in Hs. subst s. by apply (pi_sids _ _ I _ _ E).
  - intros id' r' p' (_ & Hid' & Hv)%taken_view Hp'. apply (issued_mono d); [done|lia|]. rewrite Hp' in Hv.
    destruct (dv_pstore d !! r') as [q|] eqn:Hq; [|done]. apply (inj Some) in Hv.
    destruct (pview_fields _ _ Hv) as (_ & _ & _ & _ & _ & _ & -> & _). by eapply (pi_pids _ _ I).
  - eapply uniqueIds_registry; [by eapply taken_registry|apply (pi_uniq _ _ I)].
  - intros id' r' p' (_ & Hid' & Hv)%taken_view Hp'. rewrite Hp' in Hv.
    destruct (dv_pstore d !! r') as [q|] eqn:Hq; [|done]. apply (inj Some) in Hv.
    destruct (pview_fields _ _ Hv) as (_ & -> & _ & _ & _ & -> & _). by eapply (pi_sizes _ _ I).
Qed.
End Taken.

(** ** The operations that take deliveries out *)
Lemma slice_index d L id r :
  pinv d L -> dv_pending d !! id = Some r -> exists p k, dv_pstore d !! r = Some p /\
    p_deadlineIndex p = Z.of_nat k /\ dv_deadlines d !! k = Some r.
Proof.
  intros I Hid. assert (Hin : r ∈ dv_deadlines d) by (apply (pi_heapdom _ _ I); eauto).
  apply list_elem_of_lookup in Hin as [k Hk]. destruct (pi_heap _ _ I) as [Hw _].
  destruct (Hw k r Hk) as (p & Hp & Ei). exists p, k. split_and!; done.
Qed.

(** Heap positions and deadlines do not depend on the links. *)
Lemma hrep_strip sl st st' : agree pstrip st st' -> hrep (mkHeapSt sl st) -> hrep (mkHeapSt sl st').
Proof.
  intros Ha Hh. eapply hrep_ext; [exact Hh|]. intros r t _ Ht.
  destruct (agree_lookup _ _ _ _ _ Ha Ht) as (t' & Ht' & E). exists t'. split; [done|].
  split; [by apply (f_equal p_deadlineAt) in E|by apply (f_equal p_deadlineIndex) in E].
Qed.

Lemma wp_releaseBytes p d L0 d0 (Q : unit -> deliveries -> Prop) :
  pinv d0 L0 -> dv_subs d = dv_subs d0 -> dv_sstore d = dv_sstore d0 ->
  (forall ss, ss = match dv_subs d0 !! p_subscriberID p with
     | Some sr => alter (relieve (p_bytes p)) sr (dv_sstore d0) | None => dv_sstore d0 end ->
   Q tt ((d <| dv_pendingBytes := i64 (dv_pendingBytes d - p_bytes p) |>) <| dv_sstore := ss |>)) ->
  wp (releaseBytes p) d Q.
Proof.
  intros I Es Ess HQ. unfold releaseBytes. wp_step. apply wp_modify. wp_step. apply wp_get. cbn [dv_subs].
  change (dv_subs (setf _ d)) with (dv_subs d). rewrite Es.
  destruct (dv_subs d0 !! p_subscriberID p) as [sr|] eqn:Hsr.
  - destruct (pi_subs _ _ I _ _ Hsr) as (s & Hs & _). rewrite <- Ess in Hs.
    eapply wp_supdate; [exact Hs|]. apply HQ. cbn. rewrite <- Ess. symmetry.
    apply map_eq. intros x. destruct (decide (x = sr)) as [->|Hne].
    + rewrite lookup_alter_eq, lookup_insert_eq, Hs. done.
    + by rewrite lookup_alter_ne, lookup_insert_ne.
  - apply wp_ret. specialize (HQ _ eq_refl). rewrite <- Ess in HQ. by destruct d.
Qed.

(** Freeing an object that has left the indexes. *)
Lemma hrep_free sl st r : r ∉ sl -> hrep (mkHeapSt sl st) -> hrep (mkHeapSt sl (delete r st)).
Proof.
  intros Hn Hh. eapply hrep_ext; [exact Hh|]. intros x t Hx Ht. exists t.
  rewrite lookup_delete_ne by (intros ->; done). done.
Qed.

(** Both removals, seen from the state before: [d1] is the state between the index updates and
    the byte budgets. *)
Lemma taken_intro d L id r p d1 d' (free : bool) sl st tp :
  pinv d L -> dv_pending d !! id = Some r -> dv_pstore d !! r = Some p ->
  agree pview (dv_pstore d) st -> hrep (mkHeapSt sl st) -> dv_deadlines d ≡ₚ r :: sl ->
  plists st tp (dropFrom (topicOf p) r L) ->
  d1 = (((d <| dv_pending := delete id (dv_pending d) |>) <| dv_pstore := st |>)
          <| dv_topicPending := tp |>) <| dv_deadlines := sl |> ->
  forall bytes ss m, bytes = i64 (dv_pendingBytes d - p_bytes p) ->
  ss = match dv_subs d !! p_subscriberID p with
       | Some sr => alter (relieve (p_bytes p)) sr (dv_sstore d) | None => dv_sstore d end ->
  d' = (((d1 <| dv_pendingBytes := bytes |>) <| dv_sstore := ss |>) <| dv_metrics := m |>)
         <| dv_pstore := if free then delete r st else st |> ->
  taken d L id r p d'.
Proof.
  intros I Hid Hr Ha Hh Hsl HL -> bytes ss m -> -> ->.
  assert (Hn : r ∉ sl).
  { pose proof (hwf_nodup _ (proj1 (pi_heap _ _ I))) as Hnd. cbn in Hnd. rewrite Hsl in Hnd.
    by apply NoDup_cons in Hnd as []. }
  assert (Hnl : forall u, r ∉ dropFrom (topicOf p) r L u) by (eapply drop_nin; [apply (pi_lists _ _ I)|done]).
  split; try done.
  - cbn. intros x. destruct free; [|right; apply Ha].
    destruct (decide (x = r)) as [->|Hne]; [left; by rewrite lookup_delete_eq|right].
    rewrite lookup_delete_ne by done. apply Ha.
  - cbn. destruct free; [by apply hrep_free|done].
  - cbn. destruct free; [|done]. eapply lists_ok_out; [|exact HL]. intros t x Hx.
    rewrite lookup_delete_ne; [done|]. intros <-. by apply (Hnl t).
Qed.

Lemma wp_removeAcked d L id r p now (Q : unit -> deliveries -> Prop) :
  pinv d L -> dv_pending d !! id = Some r -> dv_pstore d !! r = Some p ->
  (forall d', taken d L id r p d' -> dv_pstore d' !! r = None -> Q tt d') ->
  wp (removeAcked id r now) d Q.
Proof.
  intros I Hid Hr HQ. unfold removeAcked. wp_step. apply wp_modify. wp_step.
  eapply (wp_unlinkTopic _ r p L); [exact Hr|apply (pi_lists _ _ I)|apply (pi_listdom _ _ I _ _ Hr); eauto|].
  intros st tp Hst HL. wp_step.
  destruct (agree_lookup _ _ _ _ _ Hst Hr) as (p1 & Hp1 & E1). eapply wp_pderef; [exact Hp1|].
  destruct (slice_index _ _ _ _ I Hid) as (p0 & k & Hp0 & Ei & Hk). replace p0 with p in * by congruence.
  assert (Ei1 : p_deadlineIndex p1 = Z.of_nat k) by (apply (f_equal p_deadlineIndex) in E1; cbn in E1; congruence).
  wp_step. apply wp_when; [intros _|intros Hf; apply bool_decide_eq_false in Hf; lia].
  wp_step. unfold heapP. apply wp_zoom. rewrite Ei1, Nat2Z.id. cbn [dv_deadlines dv_pstore].
  eapply (wp_Remove _ k r); [eapply hrep_strip; [exact Hst|]; apply (pi_heap _ _ I)|exact Hk|].
  intros [sl st2] (Hh2 & Hsl & Hidx & Hout2). cbn [h_slice h_store] in *. apply wp_ret.
  wp_step. eapply (wp_releaseBytes _ _ L d); [done|done|done|]. intros ss Hss.
  wp_step. apply wp_modify. wp_step. apply wp_modify. apply wp_modify.
  destruct (pview_fields p p1) as (_ & _ & _ & _ & _ & Eb & Esub & _);
    [by apply (f_equal (hi_set_index 0)) in E1|].
  assert (Ha : agree pview (dv_pstore d) st2).
  { etransitivity; [apply agree_strip_view, Hst|apply agree_idx_view, Hidx]. }
  apply HQ; [|cbn; apply lookup_delete_eq]. rewrite Esub, Eb in Hss.
  eapply (taken_intro d L id r p _ _ true sl st2 tp); [done..| |reflexivity| |exact Hss|].
  - eapply plists_idx; [exact Hidx|exact HL].
  - reflexivity.
  - cbn. rewrite Eb. reflexivity.
Qed.

(** One turn of the deadline loop, on the root. *)
Lemma wp_takeDue d L id r p p1 sl st (Q : unit -> deliveries -> Prop) :
  pinv d L -> dv_pending d !! id = Some r -> dv_pstore d !! r = Some p ->
  hremoved (mkHeapSt (dv_deadlines d) (dv_pstore d)) r (mkHeapSt sl st) -> st !! r = Some p1 ->
  (forall d', taken d L id r p d' -> agree pview (dv_pstore d) (dv_pstore d') -> Q tt d') ->
  wp (takeDue id p1 r) ((d <| dv_deadlines := sl |>) <| dv_pstore := st |>) Q.
Proof.
  intros I Hid Hr (Hh & Hsl & Hidx & _) Hp1 HQ. cbn [h_slice h_store] in *. unfold takeDue.
  pose proof (agree_idx_view _ _ Hidx) as Hv. pose proof (Hv r) as Hvr. rewrite Hp1, Hr in Hvr.
  apply (inj Some) in Hvr. destruct (pview_fields _ _ Hvr) as (_ & _ & Eid & _ & _ & Eb & Esub & _). pose proof (pview_topic _ _ Hvr) as Em.
  wp_step. apply wp_modify. wp_step.
  eapply (wp_unlinkTopic _ r p1 L); [exact Hp1| | |].
  { eapply plists_idx; [exact Hidx|apply (pi_lists _ _ I)]. }
  { rewrite Em. apply (pi_listdom _ _ I _ _ Hr). eauto. }
  intros st2 tp Hst HL. eapply (wp_releaseBytes _ _ L d); [done|done|done|]. intros ss Hss.
  assert (Ha : agree pview (dv_pstore d) st2).
  { etransitivity; [exact Hv|apply agree_strip_view, Hst]. }
  apply HQ; [|exact Ha]. rewrite Esub, Eb in Hss. rewrite Em in HL.
  eapply (taken_intro d L id r p _ _ false sl st2 tp); [done..| |exact Hsl|exact HL| | |exact Hss|].
  - eapply hrep_strip; [exact Hst|exact Hh].
  - reflexivity.
  - reflexivity.
  - cbn. rewrite Eb. reflexivity.
Qed.

(** ** The deadline loop *)
Definition dueBy (d : deliveries) (now : Z) (r : loc) : bool :=
  match dv_pstore d !! r with Some p => bool_decide (p_deadlineAt p <= now) | None => false end.
Definition deadlineOf (d : deliveries) (r : loc) : Z :=
  match dv_pstore d !! r with Some p => p_deadlineAt p | None => 0 end.

Lemma view_deadline d d' r : pview <$> dv_pstore d' !! r = pview <$> dv_pstore d !! r ->
  deadlineOf d' r = deadlineOf d r /\ forall now, dueBy d' now r = dueBy d now r.
Proof.
  unfold deadlineOf, dueBy. intros Hv. destruct (dv_pstore d' !! r) as [p'|], (dv_pstore d !! r) as [p|]; try done.
  apply (inj Some) in Hv. by destruct (pview_fields _ _ Hv) as (_ & _ & _ & _ & -> & _).
Qed.

(** What the loop has done: the due deliveries left, in the order of their deadlines. *)
Record swept (now : Z) (d : deliveries) (l : list loc) (d' : deliveries) : Prop := {
  sw_view : agree pview (dv_pstore d) (dv_pstore d');
  sw_kept : forall id r, dv_pending d' !! id = Some r <-> dv_pending d !! id = Some r /\ dueBy d now r = false;
  sw_taken : forall r, r ∈ l <-> (exists id, dv_pending d !! id = Some r) /\ dueBy d now r = true;
  sw_nodup : NoDup l;
  sw_sorted : StronglySorted (fun a b => deadlineOf d a <= deadlineOf d b) l;
}.

Lemma root_least d L r0 sl : pinv d L -> dv_deadlines d = r0 :: sl ->
  forall id r, dv_pending d !! id = Some r -> deadlineOf d r0 <= deadlineOf d r.
Proof.
  intros I E id r Hid. assert (Hin : r ∈ dv_deadlines d) by (apply (pi_heapdom _ _ I); eauto).
  pose proof (hrep_root _ r0 (pi_heap _ _ I)) as Hroot. cbn in Hroot. rewrite E in Hroot at 1.
  specialize (Hroot eq_refl r Hin). unfold hkey in Hroot. cbn in Hroot. unfold deadlineOf.
  by destruct (dv_pstore d !! r0), (dv_pstore d !! r).
Qed.

Lemma swept_nil d L now :
  pinv d L -> (forall r0 sl, dv_deadlines d = r0 :: sl -> now < deadlineOf d r0) -> swept now d [] d.
Proof.
  intros I Hroot.
  assert (Hall : forall id r, dv_pending d !! id = Some r -> dueBy d now r = false).
  { intros id r Hid. assert (Hin : r ∈ dv_deadlines d) by (apply (pi_heapdom _ _ I); eauto).
    destruct (dv_deadlines d) as [|r0 sl] eqn:E; [by apply elem_of_nil in Hin|].
    pose proof (root_least _ _ _ _ I E _ _ Hid) as Hle. specialize (Hroot _ _ eq_refl).
    unfold dueBy. unfold deadlineOf at 2 in Hle. destruct (dv_pstore d !! r); [|done].
    apply bool_decide_eq_false. lia. }
  split; [reflexivity| | |constructor|constructor].
  - intros id r. split; [eauto|by intros []].
  - intros r. split; [by intros ?%elem_of_nil|]. intros [[id Hid] Hdue]. by rewrite (Hall _ _ Hid) in Hdue.
Qed.

Lemma swept_cons d L id r p sl now d1 l d' :
  pinv d L -> dv_pending d !! id = Some r -> dv_pstore d !! r = Some p ->
  dv_deadlines d = r :: sl -> p_deadlineAt p <= now ->
  taken d L id r p d1 -> agree pview (dv_pstore d) (dv_pstore d1) -> swept now d1 l d' ->
  swept now d (r :: l) d'.
Proof.
  intros I Hid Hr Hsl Hle Htk Ha [Sv Sk St Sn Ss].
  assert (Hd : forall x, deadlineOf d1 x = deadlineOf d x /\ forall now, dueBy d1 now x = dueBy d now x)
    by (intros x; apply view_deadline, Ha).
  assert (Hp1 : forall id' r', dv_pending d1 !! id' = Some r' <-> dv_pending d !! id' = Some r' /\ r' <> r).
  { intros id' r'. rewrite (tk_pending _ _ _ _ _ _ Htk), lookup_delete_Some. split.
    - intros [Hne Hid']. split; [done|]. intros ->. apply Hne. symmetry. by eapply pending_inj.
    - intros [Hid' Hne]. split; [|done]. intros <-. congruence. }
  assert (Hdue : dueBy d now r = true) by (unfold dueBy; rewrite Hr; by apply bool_decide_true).
  split.
  - by etransitivity.
  - intros id' r'. rewrite Sk, Hp1, (proj2 (Hd r')). split; [by intros [[? ?] ?]|].
    intros [? Hnd]. split_and!; [done| |done]. intros ->. congruence.
  - intros x. rewrite elem_of_cons, St, (proj2 (Hd x)). split.
    + intros [->|[[id' [? ?]%Hp1] ?]]; [eauto|eauto].
    + intros [[id' Hid'] Hx]. destruct (decide (x = r)) as [->|Hne]; [by left|right].
      split; [|done]. exists id'. by apply Hp1.
  - constructor; [|done]. rewrite St. intros [[id' [_ ?]%Hp1] _]. done.
  - constructor.
    + eapply Sorted.StronglySorted_ind with (P := fun l => StronglySorted (fun a b => deadlineOf d a <= deadlineOf d b) l);
        [constructor| |exact Ss]. intros a k _ IH Hk. constructor; [done|].
      eapply Forall_impl; [exact Hk|]. cbn. intros x. by rewrite !(proj1 (Hd _)).
    + apply Forall_forall. intros x [[id' [Hid' _]%Hp1] _]%St. by eapply root_least.
Qed.

Lemma wp_popDue fuel now d L (Q : list loc -> deliveries -> Prop) :
  (length (dv_deadlines d) < fuel)%nat -> pinv d L ->
  (forall l d' L', pinv d' L' -> registryKept d d' /\ dv_seq d' = dv_seq d -> swept now d l d' -> Q l d') ->
  wp (popDue fuel now) d Q.
Proof.
  revert d L Q. induction fuel as [|fuel IH]; intros d L Q Hf I HQ; [lia|]. cbn [popDue].
  wp_step. apply wp_get. destruct (dv_deadlines d) as [|r sl0] eqn:Hsl; cbn [head].
  { apply wp_ret. apply (HQ _ _ _ I); [by split|]. eapply swept_nil; [done|]. intros. congruence. }
  assert (Hin : exists id, dv_pending d !! id = Some r) by (apply (pi_heapdom _ _ I); rewrite Hsl; by left).
  destruct Hin as [id Hid]. destruct (pi_item _ _ I _ _ Hid) as (p & Hr & _ & Eid & En & _).
  wp_step. eapply wp_pderef; [exact Hr|]. case_bool_decide as Hnow.
  { apply wp_ret. apply (HQ _ _ _ I); [by split|]. eapply swept_nil; [done|]. intros r0 sl E. rewrite Hsl in E.
    injection E as <- _. unfold deadlineOf. by rewrite Hr. }
  wp_step. unfold heapP. apply wp_zoom.
  apply wp_Pop; [apply (pi_heap _ _ I)|cbn; by rewrite Hsl|]. cbn [h_slice dv_deadlines].
  intros r1 [sl st] E0 Hrem. rewrite Hsl in E0. cbn in E0. apply (inj Some) in E0. subst r1.
  destruct (idx_eq_lookup _ _ r p (proj1 (proj2 (proj2 Hrem))) Hr) as (p1 & Hp1 & E1). cbn [h_store h_slice] in *.
  assert (Ev : pview p1 = pview p).
  { pose proof (agree_idx_view _ _ (proj1 (proj2 (proj2 Hrem))) r) as Hv. cbn in Hv. rewrite Hp1, Hr in Hv.
    by apply (inj Some) in Hv. }
  destruct (pview_fields _ _ Ev) as (_ & _ & Eid1 & En1 & Ea1 & _).
  wp_step. eapply wp_pderef; [exact Hp1|]. wp_step. apply wp_get. rewrite Eid1, Eid.
  change (dv_pending _ !! id) with (dv_pending d !! id). rewrite Hid. wp_step. eapply wp_pderef; [exact Hp1|].
  rewrite bool_decide_false by (rewrite En1, Ea1; auto).
  wp_step. eapply (wp_takeDue d L id r p p1 sl st); [done..|]. intros d1 Htk Ha. wp_step.
  pose proof (pinv_taken _ _ _ _ _ _ I Hid Hr Htk) as I1. eapply (IH _ _ _); [|exact I1|].
  { pose proof (Permutation_length (tk_slice _ _ _ _ _ _ Htk)) as Hl. rewrite Hsl in Hl. cbn in *. lia. }
  intros l d' L' I' [Hk Hseq] Hsw. apply wp_ret. apply (HQ _ _ _ I').
  { split; [etransitivity; [by eapply taken_registry|done]|]. rewrite Hseq. apply (tk_seq _ _ _ _ _ _ Htk). }
  eapply swept_cons; first [exact I|done|lia].
Qed.

(** ** Putting a delivery in *)
Definition charge (b : Z) (dl : Delivery) (s : subscriber) : subscriber :=
  (s <| s_inflightBytes := i64 (s_inflightBytes s + b) |>) <| s_ch := s_ch s ++ [dl] |>.

Record given (d : deliveries) (L : string -> list loc) (sr : loc) (s : subscriber) (id : string) (r : loc)
    (p : pending) (dl : Delivery) (d' : deliveries) : Prop := {
  gi_cfg : dv_cfg d' = dv_cfg d;
  gi_boot : dv_boot d' = dv_boot d;
  gi_seq : dv_seq d' = dv_seq d + 1;
  gi_subs : dv_subs d' = dv_subs d;
  gi_id : id = idOf (dv_boot d) (dv_seq d + 1);
  gi_fresh : dv_pstore d !! r = None;
  gi_pending : dv_pending d' = <[id := r]> (dv_pending d);
  gi_store : forall x, x <> r -> pview <$> dv_pstore d' !! x = pview <$> dv_pstore d !! x;
  gi_new : pview <$> dv_pstore d' !! r = Some (pview p);
  gi_heap : hrep (mkHeapSt (dv_deadlines d') (dv_pstore d'));
  gi_slice : dv_deadlines d' ≡ₚ r :: dv_deadlines d;
  gi_lists : plists (dv_pstore d') (dv_topicPending d') (addTo (topicOf p) r L);
  gi_bytes : dv_pendingBytes d' = i64 (dv_pendingBytes d + p_bytes p);
  gi_sstore : dv_sstore d' = <[sr := charge (p_bytes p) dl s]> (dv_sstore d);
}.

Lemma given_registry d L sr s id r p dl d' : dv_sstore d !! sr = Some s ->
  given d L sr s id r p dl d' -> registryKept d d'.
Proof.
  intros Hs G. split_and!; [apply G..|]. rewrite (gi_sstore _ _ _ _ _ _ _ _ _ G). by eapply agree_insert.
Qed.

Section Given.
Context (d : deliveries) (L : string -> list loc) (sr : loc) (s : subscriber) (id : string) (r : loc).
Context (p : pending) (dl : Delivery) (d' : deliveries).
Context (I : pinv d L) (Hs : dv_sstore d !! sr = Some s) (G : given d L sr s id r p dl d').
Context (Hpress : deliveryPressure s (p_bytes p) d = false) (Hseq : dv_seq d + 1 < 2 ^ 64).
Context (Hp : p_deliveryID p = id /\ p_deadlineID p = id /\ p_next p = p_deadlineAt p /\ 0 < p_bytes p < 2 ^ 62).
Context (Hsub : p_subscriberID p = s_id s) (Hsize : p_bytes p = sizeOf (p_message p)).

Lemma unpressed : s_detached s = false /\ dv_pendingBytes d + p_bytes p <= cfg_MaxInflightBytes (dv_cfg d) /\
  s_inflightBytes s + p_bytes p <= cfg_MaxSubscriberInflightBytes (dv_cfg d) /\ llen (s_ch s) < chanCap.
Proof.
  unfold deliveryPressure in Hpress. apply orb_false_iff in Hpress as [H1 Hc].
  apply orb_false_iff in H1 as [H1 Hb]. apply orb_false_iff in H1 as [Hd Ha].
  apply bool_decide_eq_false in Ha, Hb, Hc. destruct (pi_sub _ _ I _ _ Hs Hd) as (_ & Es & ?).
  pose proof (psum_nonneg _ _ (sentTo (s_id s)) I). pose proof (psum_nonneg _ _ everything I).
  pose proof (pi_bytes _ _ I). pose proof (pi_max _ _ I). destruct (pi_budgets _ _ I).
  destruct Hp as (_ & _ & _ & ?). i64s. pose proof (pi_chan _ _ I _ _ Hs). split_and!; [done|lia..].
Qed.

#[local] Lemma given_fresh : dv_pending d !! id = None.
Proof. rewrite (gi_id _ _ _ _ _ _ _ _ _ G). by eapply fresh_id. Qed.

#[local] Lemma given_old id' r' : dv_pending d !! id' = Some r' -> r' <> r.
Proof.
  intros Hid ->. destruct (pi_item _ _ I _ _ Hid) as (q & Hq & _).
  rewrite (gi_fresh _ _ _ _ _ _ _ _ _ G) in Hq. done.
Qed.

#[local] Lemma given_new : exists p', dv_pstore d' !! r = Some p' /\ pview p' = pview p.
Proof.
  pose proof (gi_new _ _ _ _ _ _ _ _ _ G) as E. destruct (dv_pstore d' !! r) as [p'|]; [|done].
  exists p'. split; [done|]. by apply (inj Some) in E.
Qed.

Lemma given_psum f : viewTest f -> psum d' f = psum d f + (if f p then p_bytes p else 0).
Proof.
  intros Hf. unfold psum. rewrite (gi_pending _ _ _ _ _ _ _ _ _ G), msum_insert by apply given_fresh.
  rewrite (msum_pview (dv_pstore d) (dv_pstore d') f); [|done|].
  - destruct given_new as (p' & Hp' & Ev). unfold pbytes at 1. rewrite Hp', (Hf p' p Ev).
    destruct (pview_fields _ _ Ev) as (_ & _ & _ & _ & _ & -> & _). lia.
  - intros id' r' Hid'. apply (gi_store _ _ _ _ _ _ _ _ _ G). by eapply given_old.
Qed.

Lemma given_item id' r' : dv_pending d' !! id' = Some r' -> exists p', dv_pstore d' !! r' = Some p' /\
  p_deliveryID p' = id' /\ p_deadlineID p' = id' /\ p_next p' = p_deadlineAt p' /\ 0 < p_bytes p'.
Proof.
  rewrite (gi_pending _ _ _ _ _ _ _ _ _ G). intros [[<- <-]|[Hne Hid']]%lookup_insert_Some.
  - destruct given_new as (p' & Hp' & Ev). destruct (pview_fields _ _ Ev) as (E0 & _ & E & E1 & E2 & E3 & _).
    destruct Hp as (? & ? & ? & ?). exists p'. rewrite E0, E, E1, E2, E3. split_and!; (done || lia).
  - destruct (pi_item _ _ I _ _ Hid') as (q & Hq & ? & ? & ? & ?).
    pose proof (gi_store _ _ _ _ _ _ _ _ _ G r' (given_old _ _ Hid')) as Hv. rewrite Hq in Hv.
    destruct (dv_pstore d' !! r') as [p'|]; [|done]. apply (inj Some) in Hv.
    destruct (pview_fields _ _ Hv) as (? & ? & ? & ? & ? & ? & _). exists p'. split_and!; congruence.
Qed.

Lemma given_sub sr' s' : dv_sstore d' !! sr' = Some s' -> s_detached s' = false ->
  dv_subs d' !! s_id s' = Some sr' /\ s_inflightBytes s' = psum d' (sentTo (s_id s')) /\
  s_inflightBytes s' <= cfg_MaxSubscriberInflightBytes (dv_cfg d').
Proof.
  destruct unpressed as (Hdet & _ & Hle & _). destruct Hp as (_ & _ & _ & Hpos).
  destruct (pi_sub _ _ I _ _ Hs Hdet) as (Esub & Ein & _).
  pose proof (psum_nonneg _ _ (sentTo (s_id s)) I). pose proof (bo_submax _ (pi_budgets _ _ I)).
  rewrite (gi_sstore _ _ _ _ _ _ _ _ _ G), (gi_subs _ _ _ _ _ _ _ _ _ G), (gi_cfg _ _ _ _ _ _ _ _ _ G).
  intros [[<- <-]|[Hne Hs']]%lookup_insert_Some Hd'; rewrite given_psum by auto.
  - change (s_id (charge (p_bytes p) dl s)) with (s_id s).
    change (s_inflightBytes (charge (p_bytes p) dl s)) with (i64 (s_inflightBytes s + p_bytes p)).
    assert (Et : sentTo (s_id s) p = true) by by apply bool_decide_true. rewrite Et. i64s. split_and!; [done|lia|lia].
  - destruct (pi_sub _ _ I _ _ Hs' Hd') as (E & ? & ?).
    assert (Et : sentTo (s_id s') p = false).
    { apply bool_decide_false. rewrite Hsub. intros E'. rewrite <- E' in E. congruence. }
    rewrite Et. split_and!; [done|lia|done].
Qed.

Lemma given_listdom x q : dv_pstore d' !! x = Some q ->
  (x ∈ addTo (topicOf p) r L (topicOf q) <-> exists id', dv_pending d' !! id' = Some x).
Proof.
  intros Hx. rewrite (gi_pending _ _ _ _ _ _ _ _ _ G). destruct (decide (x = r)) as [->|Hne].
  - split; [intros _; exists id; apply lookup_insert_eq|intros _].
    destruct given_new as (p' & Hp' & Ev). pose proof (pview_topic _ _ Ev) as Em.
    replace q with p' by congruence. unfold addTo. rewrite Em, decide_True by done. set_solver.
  - pose proof (gi_store _ _ _ _ _ _ _ _ _ G _ Hne) as Hv. rewrite Hx in Hv.
    destruct (dv_pstore d !! x) as [q0|] eqn:Hx0; [|done]. apply (inj Some) in Hv.
    rewrite (pview_topic _ _ Hv).
    assert (Hd : x ∈ addTo (topicOf p) r L (topicOf q0) <-> x ∈ L (topicOf q0)).
    { unfold addTo. destruct (decide _) as [->|]; [set_solver|done]. }
    rewrite Hd, (pi_listdom _ _ I _ _ Hx0). split; intros [id' H']; exists id'.
    + apply lookup_insert_Some. right. split; [|done]. intros <-. rewrite given_fresh in H'. done.
    + by apply lookup_insert_Some in H' as [[_ ?]|[_ ?]].
Qed.

Lemma pinv_given : pinv d' (addTo (topicOf p) r L).
Proof.
  destruct unpressed as (Hdet & Hle & _ & Hch). destruct Hp as (_ & _ & _ & Hpos).
  pose proof (pi_bytes _ _ I). pose proof (psum_nonneg _ _ everything I). pose proof (bo_max _ (pi_budgets _ _ I)).
  pose proof G as [Tc Tb Tq Tu Tid Tf Tp Ts Tn Th Tl To Tby Tss]. split.
  - split; rewrite Tc; apply (pi_budgets _ _ I).
  - exact given_item.
  - rewrite Tp. pose proof (pi_seq _ _ I). intros id' r' [[<- _]|[_ Hid']]%lookup_insert_Some.
    + exists (dv_seq d + 1). rewrite Tq, Tb. split; [lia|done].
    + apply (issued_mono d); [done|lia|]. by eapply pi_ids.
  - rewrite Tq. pose proof (pi_seq _ _ I). lia.
  - done.
  - intros x. rewrite Tl, elem_of_cons, (pi_heapdom _ _ I), Tp. split.
    + intros [->|[id' Hid']]; [exists id; apply lookup_insert_eq|]. exists id'. apply lookup_insert_Some.
      right. split; [|done]. intros <-. rewrite given_fresh in Hid'. done.
    + intros [id' [[_ <-]|[_ Hid']]%lookup_insert_Some]; eauto.
  - done.
  - exact given_listdom.
  - rewrite Tby, given_psum by auto. cbn [everything]. i64s. lia.
  - rewrite Tby, Tc. i64s. lia.
  - rewrite Tu, Tss. intros sid sr' Hsr. destruct (pi_subs _ _ I _ _ Hsr) as (s0 & Hs0 & E & Hd0).
    destruct (decide (sr' = sr)) as [->|Hne]; [|rewrite lookup_insert_ne by done; eauto].
    rewrite lookup_insert_eq. exists (charge (p_bytes p) dl s). split; [done|]. cbn. by replace s with s0 by congruence.
  - exact given_sub.
  - rewrite Tss. intros sr' s' [[_ <-]|[_ Hs']]%lookup_insert_Some; [|by eapply pi_chan].
    cbn. rewrite llen_app, llen_cons. unfold llen at 2. cbn. lia.
  - rewrite Tss. intros sr' s' Hs'. apply (issued_mono d); [done|lia|].
    apply lookup_insert_Some in Hs' as [[_ <-]|[_ Hs']]; [apply (pi_sids _ _ I _ _ Hs)|by eapply (pi_sids _ _ I)].
  - intros id' r' p' Hid' Hp'. apply (issued_mono d); [done|lia|]. rewrite Tp in Hid'.
    apply lookup_insert_Some in Hid' as [[_ <-]|[_ Hid']].
    + destruct given_new as (p1 & Hp1 & Ev). assert (p1 = p') as -> by congruence.
      destruct (pview_fields _ _ Ev) as (_ & _ & _ & _ & _ & _ & -> & _). rewrite Hsub. apply (pi_sids _ _ I _ _ Hs).
    + pose proof (Ts r' (given_old _ _ Hid')) as Hv. rewrite Hp' in Hv.
      destruct (dv_pstore d !! r') as [q|] eqn:Hq; [|done]. apply (inj Some) in Hv.
      destruct (pview_fields _ _ Hv) as (_ & _ & _ & _ & _ & _ & -> & _). by eapply (pi_pids _ _ I).
  - eapply uniqueIds_registry; [by eapply given_registry|apply (pi_uniq _ _ I)].
  - intros id' r' p' Hid' Hp'. rewrite Tp in Hid'. apply lookup_insert_Some in Hid' as [[_ <-]|[_ Hid']].
    + destruct given_new as (p1 & Hp1 & Ev). assert (p1 = p') as -> by congruence.
      by destruct (pview_fields _ _ Ev) as (_ & -> & _ & _ & _ & -> & _).
    + pose proof (Ts r' (given_old _ _ Hid')) as Hv. rewrite Hp' in Hv.
      destruct (dv_pstore d !! r') as [q|] eqn:Hq; [|done]. apply (inj Some) in Hv.
      destruct (pview_fields _ _ Hv) as (_ & -> & _ & _ & _ & -> & _). by eapply (pi_sizes _ _ I).
Qed.
End Given.

(** A subscriber is told to go. *)
Definition cancelled (s : subscriber) : subscriber := s <| s_cancel := Some true |>.

Lemma pinv_cancel d L sr s m : pinv d L -> dv_sstore d !! sr = Some s ->
  pinv ((d <| dv_sstore := <[sr := cancelled s]> (dv_sstore d) |>) <| dv_metrics := m |>) L.
Proof.
  intros I Hs. destruct I. split; try done.
  - by destruct pi_budgets0.
  - intros sid sr' Hsr. destruct (pi_subs0 _ _ Hsr) as (s0 & Hs0 & E & Hd0). cbn.
    destruct (decide (sr' = sr)) as [->|Hne]; [|rewrite lookup_insert_ne by done; eauto].
    rewrite lookup_insert_eq. exists (cancelled s). split; [done|]. cbn. by replace s with s0 by congruence.
  - cbn. intros sr' s' [[<- <-]|[_ Hs']]%lookup_insert_Some; [|by eauto]. intros Hd. by apply (pi_sub0 sr s).
  - cbn. intros sr' s' [[_ <-]|[_ Hs']]%lookup_insert_Some; [|by eauto]. by apply (pi_chan0 sr s).
  - cbn. intros sr' s' [[_ <-]|[_ Hs']]%lookup_insert_Some; [by apply (pi_sids0 sr s)|by eapply pi_sids0].
  - cbn. eapply uniqueIds_agree; [by eapply agree_insert|done].
Qed.

Lemma pinv_metrics d L m : pinv d L -> pinv (d <| dv_metrics := m |>) L.
Proof. intros []. split; try done. by destruct pi_budgets0. Qed.

(** ** Admission *)
Lemma idOf_nonempty boot n : idOf boot n <> "".
Proof.
  intros E. apply (encode64_inj _ []) in E. apply app_eq_nil in E as [_ E].
  apply (f_equal length) in E. by rewrite length_beBytes in E.
Qed.
#[local] Opaque idOf.

(** The delivery that [sendDeliveryLocked] puts on the channel. *)
Definition deliveryOf (id : string) (m : Message) (attempt : Z) : Delivery :=
  mkDelivery id (m_ID m) (m_Topic m) (m_Key m) (m_Headers m) (m_CreatedAt m) attempt "" (m_Payload m)
    (m_Origin m) (m_Sequence m) (m_ExpiresAt m).
Definition pendingOf (id : string) (m : Message) (attempt : Z) (s : subscriber) (next now : Z) : pending :=
  mkPending id m attempt (s_group s) (s_id s) (m_ExpiresAt m) (sizeOf m) next id next 0 now None None.

(** The state after a refusal. *)
Definition refusedSend (d : deliveries) (sr : loc) (s : subscriber) (cancel : bool) (d' : deliveries) : Prop :=
  exists m, d' = ((d <| dv_sstore :=
    if cancel && bool_decide (s_cancel s <> None) then <[sr := cancelled s]> (dv_sstore d) else dv_sstore d |>)
    <| dv_metrics := m |>).

Lemma refused_registry d sr s cancel d' : dv_sstore d !! sr = Some s -> refusedSend d sr s cancel d' -> registryKept d d'.
Proof.
  intros Hs [m ->]. split_and!; [done..|]. cbn. destruct (_ && bool_decide (s_cancel s <> None)) eqn:E; [|done].
  apply andb_true_iff in E as [_ E]. apply bool_decide_eq_true in E. eapply agree_insert; [done|].
  unfold subFields, cancelled. cbn. by destruct (s_cancel s).
Qed.

Lemma fresh_out d L : pinv d L -> let r := fresh (dom (dv_pstore d)) in
  dv_pstore d !! r = None /\ (forall t, r ∉ L t) /\ r ∉ dv_deadlines d.
Proof.
  intros I r. assert (Hr : dv_pstore d !! r = None) by (apply not_elem_of_dom, is_fresh).
  split_and!; [done| |].
  - intros t Hin. destruct (lo_key _ _ _ _ _ _ _ (pi_lists _ _ I) _ _ Hin) as (q & Hq & _). congruence.
  - intros [id' Hid']%(pi_heapdom _ _ I). destruct (pi_item _ _ I _ _ Hid') as (q & Hq & _). congruence.
Qed.

Lemma wp_admitDelivery d L sr s m attempt now (Q : unit -> deliveries -> Prop) :
  pinv d L -> dv_sstore d !! sr = Some s ->
  let id := idOf (dv_boot d) (dv_seq d + 1) in
  let p := pendingOf id m attempt s (now + cfg_AckDeadline (dv_cfg d)) now in
  (forall r d', given d L sr s id r p (deliveryOf id m attempt) d' -> Q tt d') ->
  wp (admitDelivery sr s m attempt id now) (d <| dv_seq := dv_seq d + 1 |>) Q.
Proof.
  intros I Hs id p HQ. unfold admitDelivery. wp_step. apply wp_get.
  change (dv_pstore (setf _ d)) with (dv_pstore d). change (dv_cfg (setf _ d)) with (dv_cfg d).
  set (r := fresh (dom (dv_pstore d))). change (mkPending _ _ _ _ _ _ _ _ _ _ _ _ _ _) with p.
  destruct (fresh_out _ _ I) as (Hr & HrL & HrH). fold r in Hr, HrL, HrH.
  wp_step. apply wp_modify. wp_step. eapply (wp_linkTopic _ r p L); [cbn; apply lookup_insert_eq|done| |exact HrL|].
  { cbn. eapply lists_ok_out; [|apply (pi_lists _ _ I)]. intros t x Hx.
    apply lookup_insert_ne. intros <-. by apply (HrL t). }
  change (topicOf p) with (m_Topic m). intros st tp Hst HL.
  wp_step. apply wp_modify. wp_step. eapply wp_supdate; [exact Hs|].
  wp_step. unfold heapP. apply wp_zoom. cbn [dv_deadlines dv_pstore].
  destruct (agree_lookup _ _ st r p Hst) as (p1 & Hp1 & Ev1); [cbn; apply lookup_insert_eq|].
  eapply (wp_Push _ r p1); [|exact HrH|exact Hp1|].
  { eapply hrep_strip; [exact Hst|]. eapply hrep_ext; [apply (pi_heap _ _ I)|]. cbn. intros x t Hx Ht.
    exists t. rewrite lookup_insert_ne by (intros <-; done). done. }
  intros [sl st2] Hh2 Hsl Hidx Hout2. cbn [h_slice h_store] in *.
  wp_step. eapply wp_supdate; [cbn; apply lookup_insert_eq|]. apply wp_modify. apply (HQ r).
  assert (Ha : agree pview (<[r := p]> (dv_pstore d)) st2).
  { etransitivity; [apply agree_strip_view, Hst|apply agree_idx_view, Hidx]. }
  split; try done.
  - intros x Hx. change (pview <$> st2 !! x = pview <$> dv_pstore d !! x). rewrite (Ha x).
    by rewrite lookup_insert_ne.
  - change (pview <$> st2 !! r = Some (pview p)). rewrite (Ha r). by rewrite lookup_insert_eq.
  - change (plists st2 tp (addTo (m_Topic m) r L)). by eapply plists_idx.
  - cbn -[id p deliveryOf]. by rewrite insert_insert_eq.
Qed.

Lemma wp_sendDeliveryLocked d L sr s m attempt cancel now (Q : string -> deliveries -> Prop) :
  pinv d L -> dv_sstore d !! sr = Some s -> sizeOf m < 2 ^ 62 -> dv_seq d + 1 < 2 ^ 64 ->
  (deliveryPressure s (sizeOf m) d = true -> forall d', pinv d' L -> refusedSend d sr s cancel d' -> Q "" d') ->
  (deliveryPressure s (sizeOf m) d = false -> forall r d', let id := idOf (dv_boot d) (dv_seq d + 1) in
     let p := pendingOf id m attempt s (now + cfg_AckDeadline (dv_cfg d)) now in
     pinv d' (addTo (m_Topic m) r L) -> given d L sr s id r p (deliveryOf id m attempt) d' -> Q id d') ->
  wp (sendDeliveryLocked sr m attempt cancel now) d Q.
Proof.
  intros I Hs Hm Hseq HQ1 HQ2. unfold sendDeliveryLocked. wp_step. eapply wp_sderef; [exact Hs|].
  wp_step. apply wp_get. destruct (deliveryPressure s (sizeOf m) d) eqn:Hpress.
  - wp_step. specialize (HQ1 eq_refl). destruct cancel; cbn [andb gwhen] in *.
    + apply wp_when; intros Hc.
      * eapply wp_supdate; [exact Hs|]. wp_step. apply wp_modify. apply wp_ret. apply HQ1.
        { by apply pinv_cancel. }
        { eexists. by rewrite Hc. }
      * wp_step. apply wp_modify. apply wp_ret. apply HQ1; [by apply pinv_metrics|].
        eexists. rewrite Hc. cbn. by destruct d.
    + apply wp_ret. wp_step. apply wp_ret, wp_ret. apply HQ1; [done|]. exists (dv_metrics d). by destruct d.
  - specialize (HQ2 eq_refl). wp_step. unfold nextID.
    wp_step. apply wp_modify. wp_step. apply wp_get. apply wp_ret. wp_step.
    rewrite (u64_id (dv_seq d + 1)) by (pose proof (pi_seq _ _ I); unfold in_u64; lia).
    set (d0 := d <| dv_seq := _ |>). change (dv_boot d0) with (dv_boot d). change (dv_seq d0) with (dv_seq d + 1).
    apply (wp_admitDelivery d L); [exact I|exact Hs|]. intros r d' G. apply wp_ret. apply (HQ2 r _); [|exact G].
    apply (pinv_given d L sr s _ r _ _ _ I Hs G); try done. pose proof (sizeOf_pos m). done.
Qed.


(** ** Making a delivery due *)
Definition dueNow (now : Z) (p : pending) : pending := (p <| p_next := now |>) <| p_deadlineAt := now |>.

Lemma plists_due st tp L r p now : st !! r = Some p -> plists st tp L ->
  plists (<[r := dueNow now p]> st) tp L.
Proof. intros Hr HL. by eapply lists_ok_agree. Qed.

(** What [makeDue] changes. *)
Record redued (d : deliveries) (r : loc) (p : pending) (now : Z) (d' : deliveries) : Prop := {
  rd_rest : d' = (d <| dv_deadlines := dv_deadlines d' |>) <| dv_pstore := dv_pstore d' |>;
  rd_view : agree pview (<[r := dueNow now p]> (dv_pstore d)) (dv_pstore d');
  rd_heap : hrep (mkHeapSt (dv_deadlines d') (dv_pstore d'));
  rd_slice : dv_deadlines d' ≡ₚ dv_deadlines d;
}.

Section Redued.
Context (d : deliveries) (L : string -> list loc) (id : string) (r : loc) (p : pending) (now : Z).
Context (d' : deliveries) (I : pinv d L) (Hid : dv_pending d !! id = Some r).
Context (Hr : dv_pstore d !! r = Some p) (R : redued d r p now d').

(** Every object keeps what the invariant looks at, its deadline apart. *)
Lemma redued_lookup x q : dv_pstore d !! x = Some q -> exists q', dv_pstore d' !! x = Some q' /\
  p_deliveryID q' = p_deliveryID q /\ p_message q' = p_message q /\ p_deadlineID q' = p_deadlineID q /\
  p_bytes q' = p_bytes q /\ p_subscriberID q' = p_subscriberID q /\
  p_next q' = (if decide (x = r) then now else p_next q) /\
  p_deadlineAt q' = (if decide (x = r) then now else p_deadlineAt q).
Proof.
  intros Hx. pose proof (rd_view _ _ _ _ _ R x) as Hv. destruct (decide (x = r)) as [->|Hne].
  - rewrite lookup_insert_eq in Hv. destruct (dv_pstore d' !! r) as [q'|]; [|done]. apply (inj Some) in Hv.
    exists q'. split; [done|]. replace q with p by congruence. by destruct (pview_fields _ _ Hv) as (? & ? & ? & ? & ? & ? & ? & _).
  - rewrite lookup_insert_ne, Hx in Hv by done. destruct (dv_pstore d' !! x) as [q'|]; [|done].
    apply (inj Some) in Hv. exists q'. split; [done|]. by destruct (pview_fields _ _ Hv) as (? & ? & ? & ? & ? & ? & ? & _).
Qed.

Lemma redued_psum f : (forall q q', p_subscriberID q' = p_subscriberID q -> f q' = f q) ->
  psum d' f = psum d f.
Proof.
  intros Hf. unfold psum. rewrite (rd_rest _ _ _ _ _ R). apply msum_ext. intros id' x Hx. unfold pbytes.
  destruct (pi_item _ _ I _ _ Hx) as (q & Hq & _). destruct (redued_lookup _ _ Hq) as (q' & Hq' & _ & _ & _ & Eb & Es & _).
  change (dv_pstore (setf _ _)) with (dv_pstore d'). by rewrite Hq, Hq', Eb, (Hf q q' Es).
Qed.

Lemma pinv_redued : plists (dv_pstore d') (dv_topicPending d') L -> pinv d' L.
Proof.
  intros HL. pose proof R as [E _ Hh Hsl].
  assert (Ep : dv_pending d' = dv_pending d) by by rewrite E.
  assert (Eother : dv_cfg d' = dv_cfg d /\ dv_boot d' = dv_boot d /\ dv_seq d' = dv_seq d /\
    dv_sstore d' = dv_sstore d /\ dv_subs d' = dv_subs d /\ dv_pendingBytes d' = dv_pendingBytes d) by by rewrite E.
  destruct Eother as (Ec & Eb & Eq & Ess & Es & Epb).
  split; rewrite ?Ep, ?Ec, ?Eb, ?Eq, ?Ess, ?Es, ?Epb.
  - destruct (pi_budgets _ _ I). split; by rewrite Ec.
  - intros id' x Hx. destruct (pi_item _ _ I _ _ Hx) as (q & Hq & E1 & E2 & E3 & E4).
    destruct (redued_lookup _ _ Hq) as (q' & Hq' & F1 & _ & F2 & F3 & _ & F4 & F5). exists q'.
    rewrite F1, F2, F3, F4, F5. split_and!; try done. by destruct (decide _).
  - intros id' x Hx. apply (issued_mono d); [done|lia|]. by eapply (pi_ids _ _ I).
  - apply (pi_seq _ _ I).
  - done.
  - intros x. rewrite Hsl. apply (pi_heapdom _ _ I).
  - done.
  - intros x q' Hq'. pose proof (rd_view _ _ _ _ _ R x) as Hv. rewrite Hq' in Hv.
    destruct (dv_pstore d !! x) as [q|] eqn:Hq.
    + destruct (redued_lookup _ _ Hq) as (q1 & Hq1 & _ & Em & _). replace q' with q1 by congruence.
      unfold topicOf. rewrite Em. by apply (pi_listdom _ _ I).
    + rewrite lookup_insert_ne, Hq in Hv by congruence. done.
  - rewrite redued_psum by done. apply (pi_bytes _ _ I).
  - apply (pi_max _ _ I).
  - apply (pi_subs _ _ I).
  - intros sr s Hs Hd. rewrite redued_psum; [by apply (pi_sub _ _ I)|]. intros q q' Eq'. unfold sentTo. by rewrite Eq'.
  - apply (pi_chan _ _ I).
  - intros sr s Hs. apply (issued_mono d); [done|lia|]. by apply (pi_sids _ _ I sr).
  - intros id' x q' Hx Hq'. apply (issued_mono d); [done|lia|]. destruct (pi_item _ _ I _ _ Hx) as (q & Hq & _).
    destruct (redued_lookup _ _ Hq) as (q1 & Hq1 & _ & _ & _ & _ & Es' & _). assert (q1 = q') as -> by congruence.
    rewrite Es'. by eapply (pi_pids _ _ I).
  - apply (pi_uniq _ _ I).
  - intros id' x q' Hx Hq'. destruct (pi_item _ _ I _ _ Hx) as (q & Hq & _).
    destruct (redued_lookup _ _ Hq) as (q1 & Hq1 & _ & Em & _ & Eb' & _). assert (q1 = q') as -> by congruence.
    rewrite Em, Eb'. by eapply (pi_sizes _ _ I).
Qed.
End Redued.

Lemma wp_makeDue d L id r p now (Q : unit -> deliveries -> Prop) :
  pinv d L -> dv_pending d !! id = Some r -> dv_pstore d !! r = Some p ->
  (forall d', pinv d' L -> redued d r p now d' -> Q tt d') -> wp (makeDue r now) d Q.
Proof.
  intros I Hid Hr HQ. unfold makeDue. wp_step. eapply wp_pupdate; [exact Hr|]. wp_step.
  eapply wp_pderef; [cbn; apply lookup_insert_eq|].
  destruct (slice_index _ _ _ _ I Hid) as (p0 & k & Hp0 & Ei & Hk). replace p0 with p in * by congruence.
  change (p_deadlineIndex (setf _ _)) with (p_deadlineIndex p). rewrite Ei, Nat2Z.id.
  unfold heapP. apply wp_zoom. change (dv_deadlines (setf _ d)) with (dv_deadlines d).
  change (dv_pstore (setf _ d)) with (<[r := dueNow now p]> (dv_pstore d)).
  pose proof (pi_heap _ _ I) as Hh. destruct Hh as [Hw Hok].
  eapply (wp_Fix (mkHeapSt (dv_deadlines d) (dv_pstore d))); [done| |done|by eapply lookup_lt_Some| |].
  - intros i x Hx. destruct (Hw i x Hx) as (q & Hq & Eq). cbn in *. destruct (decide (x = r)) as [->|Hne].
    + rewrite lookup_insert_eq. eexists. split; [done|]. cbn. by replace p with q by congruence.
    + rewrite lookup_insert_ne by done. eauto.
  - intros j Hj. unfold kf. cbn. destruct (dv_deadlines d !! j) as [x|] eqn:Hx; [|done]. cbn.
    rewrite lookup_insert_ne; [done|]. intros <-. apply Hj. by eapply (hwf_inj _ _ _ r Hw).
  - intros [sl st] Hh2 [Hp Hi Ho]. cbn [h_slice h_store] in *.
    set (d' := setf _ _). assert (R : redued d r p now d').
    { split; [done|by apply agree_idx_view|done|done]. }
    apply HQ; [|done]. eapply pinv_redued; [done..|]. eapply plists_idx; [exact Hi|].
    apply plists_due; [done|apply (pi_lists _ _ I)].
Qed.

(** The deliveries in [P] are due [now]; nothing else changed. *)
Record madeDue (d : deliveries) (P : loc -> Prop) (now : Z) (d' : deliveries) : Prop := {
  md_rest : d' = (d <| dv_deadlines := dv_deadlines d' |>) <| dv_pstore := dv_pstore d' |>;
  md_lookup : forall x q, dv_pstore d !! x = Some q -> exists q', dv_pstore d' !! x = Some q' /\
    (P x -> pview q' = pview (dueNow now q)) /\ (~ P x -> pview q' = pview q);
}.

Lemma madeDue_refl d now : madeDue d (fun _ => False) now d.
Proof. split; [by destruct d|]. intros x q Hx. exists q. by split_and!. Qed.

Lemma madeDue_ext d P P' now d' : (forall x, P x <-> P' x) -> madeDue d P now d' -> madeDue d P' now d'.
Proof.
  intros HP [E H]. split; [done|]. intros x q Hx. destruct (H x q Hx) as (q' & ? & H1 & H2). exists q'.
  rewrite HP in H1, H2. eauto.
Qed.

Lemma madeDue_step d P now d1 r p d2 `{HP : !forall x, Decision (P x)} :
  madeDue d P now d1 -> dv_pstore d1 !! r = Some p -> redued d1 r p now d2 ->
  madeDue d (fun x => P x \/ x = r) now d2.
Proof.
  intros [E1 H1] Hr [E2 Hv _ _]. split; [rewrite E2, E1; done|].
  intros x q Hx. destruct (H1 x q Hx) as (q1 & Hq1 & HP1 & HP2). pose proof (Hv x) as Hvx.
  destruct (decide (x = r)) as [->|Hne].
  - rewrite lookup_insert_eq in Hvx. destruct (dv_pstore d2 !! r) as [q2|]; [|done]. apply (inj Some) in Hvx.
    exists q2. split; [done|]. split; [intros _|intros Hn; exfalso; apply Hn; by right].
    assert (q1 = p) as -> by congruence. rewrite Hvx. destruct (decide (P r)) as [HPr|HPr].
    + specialize (HP1 HPr). by apply (f_equal (dueNow now)) in HP1.
    + specialize (HP2 HPr). by apply (f_equal (dueNow now)) in HP2.
  - rewrite lookup_insert_ne, Hq1 in Hvx by done. destruct (dv_pstore d2 !! x) as [q2|]; [|done].
    apply (inj Some) in Hvx. exists q2. split; [done|]. rewrite Hvx. split; [intros [?|?]; [auto|done]|auto].
Qed.

Lemma madeDue_pending d P now d' : madeDue d P now d' -> dv_pending d' = dv_pending d /\ dv_subs d' = dv_subs d /\
  dv_pendingBytes d' = dv_pendingBytes d /\ dv_sstore d' = dv_sstore d.
Proof. intros [E _]. by rewrite E. Qed.

Lemma madeDue_registry d P now d' : madeDue d P now d' -> registryKept d d'.
Proof. intros [E _]. rewrite E. apply (registryKept_refl d). Qed.

Lemma wp_applyNacks ids now d L (Q : unit -> deliveries -> Prop) :
  pinv d L ->
  (forall d', pinv d' L -> madeDue d (fun r => Exists (fun id => dv_pending d !! id = Some r) ids) now d' -> Q tt d') ->
  wp (applyNacks ids now) d Q.
Proof.
  intros I HQ. unfold applyNacks.
  apply (wp_for (fun rem s => pinv s L /\ exists past, ids = past ++ rem /\
    madeDue d (fun r => Exists (fun id => dv_pending d !! id = Some r) past) now s)).
  - split; [done|]. exists []. split; [done|]. eapply madeDue_ext; [|apply madeDue_refl].
    intros x. by rewrite Exists_nil.
  - intros id rem s (Is & past & Eids & Hm). wp_step. apply wp_get.
    destruct (madeDue_pending _ _ _ _ Hm) as (Ep & _). rewrite Ep.
    destruct (dv_pending d !! id) as [r|] eqn:Hid.
    + destruct (pi_item _ _ Is id r) as (p & Hr & _); [by rewrite Ep|].
      eapply wp_makeDue; [exact Is|by rewrite Ep|exact Hr|]. intros d' I' R. split; [done|].
      exists (past ++ [id]). split; [by rewrite <- app_assoc|]. eapply madeDue_ext; [|exact (madeDue_step _ _ _ _ _ _ _ Hm Hr R)].
      intros x. rewrite Exists_app, Exists_cons, Exists_nil, Hid. naive_solver.
    + apply wp_ret. split; [done|]. exists (past ++ [id]). split; [by rewrite <- app_assoc|].
      eapply madeDue_ext; [|exact Hm]. intros x. rewrite Exists_app, Exists_cons, Exists_nil, Hid. naive_solver.
  - intros s (Is & past & -> & Hm). rewrite app_nil_r in HQ. by apply HQ.
Qed.

Lemma wp_makeSubscriberDue sid now d L (Q : unit -> deliveries -> Prop) :
  pinv d L ->
  (forall d', pinv d' L -> madeDue d (fun r => exists id p, dv_pending d !! id = Some r /\
     dv_pstore d !! r = Some p /\ p_subscriberID p = sid) now d' -> Q tt d') ->
  wp (makeSubscriberDue sid now) d Q.
Proof.
  intros I HQ. unfold makeSubscriberDue. wp_step. apply wp_get.
  set (mine := fun ir : string * loc => exists p, dv_pstore d !! ir.2 = Some p /\ p_subscriberID p = sid).
  assert (Dm : forall ir, Decision (mine ir)).
  { intros ir. unfold mine. destruct (dv_pstore d !! ir.2) as [p|]; [|right; by intros (? & ? & _)].
    destruct (decide (p_subscriberID p = sid)); [left; eauto|right; intros (? & ? & ?); congruence]. }
  apply (wp_for (fun rem s => pinv s L /\ exists past, map_to_list (dv_pending d) = past ++ rem /\
    madeDue d (fun r => Exists (fun ir => mine ir /\ ir.2 = r) past) now s)).
  - split; [done|]. exists []. split; [done|]. eapply madeDue_ext; [|apply madeDue_refl].
    intros x. by rewrite Exists_nil.
  - intros [id r] rem s (Is & past & El & Hm). cbn [snd]. destruct (madeDue_pending _ _ _ _ Hm) as (Ep & _).
    assert (Hid : dv_pending d !! id = Some r).
    { apply elem_of_map_to_list. rewrite El. set_solver. }
    destruct (pi_item _ _ I _ _ Hid) as (q & Hq & _). destruct (md_lookup _ _ _ _ Hm _ _ Hq) as (p & Hp & Hv1 & Hv2).
    assert (Es : p_subscriberID p = p_subscriberID q).
    { destruct (decide (Exists (fun ir => mine ir /\ ir.2 = r) past)) as [Hx|Hx].
      - by apply (f_equal p_subscriberID) in Hv1.
      - by apply (f_equal p_subscriberID) in Hv2. }
    wp_step. eapply wp_pderef; [exact Hp|]. apply wp_when; intros Hb.
    + apply bool_decide_eq_true in Hb. eapply wp_makeDue; [exact Is|by rewrite Ep|exact Hp|].
      intros d' I' R. split; [done|]. exists (past ++ [(id, r)]). split; [by rewrite <- app_assoc|].
      eapply madeDue_ext; [|exact (madeDue_step _ _ _ _ _ _ _ Hm Hp R)].
      intros x. rewrite Exists_app, Exists_cons, Exists_nil. cbn. unfold mine at 3. cbn. split; [|naive_solver].
      intros [?| ->]; [by left|right; left]. split; [|done]. exists q. split; [done|congruence].
    + apply bool_decide_eq_false in Hb. split; [done|]. exists (past ++ [(id, r)]). split; [by rewrite <- app_assoc|].
      eapply madeDue_ext; [|exact Hm]. intros x. rewrite Exists_app, Exists_cons, Exists_nil. split; [by left|].
      intros [?|[[(q' & Hq' & Es') _]|[]]]; [done|]. cbn in Hq'. congruence.
  - intros s (Is & past & El & Hm). apply HQ; [done|]. rewrite app_nil_r in El. subst past.
    eapply madeDue_ext; [|exact Hm]. intros x. rewrite Exists_exists. split.
    + intros ([id r] & Hin & (p & Hp & Es) & <-). apply elem_of_map_to_list in Hin. cbn in *. eauto.
    + intros (id & p & Hid & Hp & Es). exists (id, x). split; [by apply elem_of_map_to_list|]. split; [|done].
      by exists p.
Qed.
