(* ===== verification/Deliveries.v ===== *)
(** * Pending deliveries: what they promise

    Seen from outside, the pending deliveries are a map from delivery IDs to deliveries in flight
    ([inflight]).  The operations of Pending.v implement the obvious operations on that map, under
    the byte budgets, whatever the lists, the heap and the counters behind it do. *)
From Stdlib Require Import Sorting.Sorted.
From S2P Require Import Prelude GoHeap Dll KeyedLists Types Config Metrics GoIO Base64 Pending PendingInv.
#[local] Open Scope Z_scope.

(** ** The abstract state *)

(** A delivery in flight. *)
Record flight := mkFlight {
  f_message : Message;
  f_attempt : Z;
  f_group : string;
  f_subscriber : string;
  f_bytes : Z;
  f_due : Z;
  f_delivered : Z;
}.
#[export] Instance flight_settable : Settable flight := fun r => mkFlight (f_message r) (f_attempt r)
  (f_group r) (f_subscriber r) (f_bytes r) (f_due r) (f_delivered r).
#[export] Instance set_f_due : Setter f_due := ltac:(derive_setter).

Definition flightOf (p : pending) : flight :=
  mkFlight (p_message p) (p_attempt p) (p_group p) (p_subscriberID p) (p_bytes p) (p_next p)
    (p_deliveredAt p).

Definition flightAt (d : deliveries) (r : loc) : option flight := flightOf <$> dv_pstore d !! r.

Definition inflight (d : deliveries) : gmap string flight := omap (flightAt d) (dv_pending d).

(** The bytes in flight, to one subscriber or to all. *)
Definition flightBytes (f : flight -> bool) (m : gmap string flight) : Z :=
  msum (fun _ x => if f x then f_bytes x else 0) m.

(** The state is one the operations can leave behind. *)
Definition pend_ok (d : deliveries) : Prop := exists L, pinv d L.

(** ** Lookups *)
Lemma inflight_lookup d id : inflight d !! id = dv_pending d !! id ≫= flightAt d.
Proof. unfold inflight. by rewrite lookup_omap. Qed.

Lemma inflight_None d L id : pinv d L -> inflight d !! id = None <-> dv_pending d !! id = None.
Proof.
  intros I. rewrite inflight_lookup. destruct (dv_pending d !! id) as [r|] eqn:E; [|done].
  destruct (pi_item _ _ I _ _ E) as (p & Hp & _). cbn. unfold flightAt. by rewrite Hp.
Qed.

Lemma flightOf_view p p' : pview p' = pview p -> flightOf p' = flightOf p.
Proof.
  intros E. unfold flightOf. destruct (pview_fields _ _ E) as (_ & -> & _ & -> & _ & -> & -> & ->).
  apply (f_equal (fun p => (p_attempt p, p_deliveredAt p))) in E. cbn in E. by apply pair_equal_spec in E as [-> ->].
Qed.

Lemma flightAt_view d d' r : pview <$> dv_pstore d' !! r = pview <$> dv_pstore d !! r ->
  flightAt d' r = flightAt d r.
Proof.
  unfold flightAt. destruct (dv_pstore d' !! r) as [p'|], (dv_pstore d !! r) as [p|]; try done.
  intros E. apply (inj Some) in E. cbn. f_equal. by apply flightOf_view.
Qed.

(** ** The byte counters are the sums over the map *)
Lemma msum_omap {V W} (g : V -> option W) (f : string -> W -> Z) (m : gmap string V) :
  msum f (omap g m) = msum (fun k v => match g v with Some w => f k w | None => 0 end) m.
Proof.
  induction m as [|k v m Hk _ IH] using map_first_key_ind; [by rewrite omap_empty, !msum_empty|].
  rewrite msum_insert by done. destruct (g v) as [w|] eqn:E.
  - rewrite (omap_insert_Some _ _ _ _ w) by done. rewrite msum_insert; [by rewrite IH|].
    rewrite lookup_omap, Hk. done.
  - rewrite omap_insert_None by done. rewrite delete_id; [lia|]. rewrite lookup_omap, Hk. done.
Qed.

Lemma psum_flights d f g : (forall p, g (flightOf p) = f p) -> psum d f = flightBytes g (inflight d).
Proof.
  intros Hg. unfold psum, flightBytes, inflight. rewrite msum_omap. apply msum_ext. intros id r _.
  unfold pbytes, flightAt. destruct (dv_pstore d !! r) as [p|]; [|done]. cbn. by rewrite Hg.
Qed.

(** ** Each operation on the abstract state *)
Definition flightFor (m : Message) (attempt : Z) (s : subscriber) (due now : Z) : flight :=
  mkFlight m attempt (s_group s) (s_id s) (sizeOf m) due now.

Lemma inflight_given d L sr s id r p dl d' : pinv d L -> given d L sr s id r p dl d' ->
  inflight d' = <[id := flightOf p]> (inflight d).
Proof.
  intros I G. apply map_eq. intros id'. rewrite inflight_lookup, (gi_pending _ _ _ _ _ _ _ _ _ G).
  destruct (decide (id' = id)) as [->|Hne].
  - rewrite !lookup_insert_eq. cbn. unfold flightAt. pose proof (gi_new _ _ _ _ _ _ _ _ _ G) as Hv.
    destruct (dv_pstore d' !! r) as [p'|]; [|done]. apply (inj Some) in Hv. cbn. f_equal. by apply flightOf_view.
  - rewrite !lookup_insert_ne, inflight_lookup by done. destruct (dv_pending d !! id') as [r'|] eqn:E; [|done].
    cbn. apply flightAt_view, (gi_store _ _ _ _ _ _ _ _ _ G). intros ->.
    destruct (pi_item _ _ I _ _ E) as (q & Hq & _). rewrite (gi_fresh _ _ _ _ _ _ _ _ _ G) in Hq. done.
Qed.

Lemma inflight_taken d L id r p d' : pinv d L -> dv_pending d !! id = Some r -> taken d L id r p d' ->
  inflight d' = delete id (inflight d).
Proof.
  intros I Hid T. apply map_eq. intros id'. rewrite inflight_lookup, (tk_pending _ _ _ _ _ _ T).
  destruct (decide (id' = id)) as [->|Hne]; [by rewrite !lookup_delete_eq|].
  rewrite !lookup_delete_ne, inflight_lookup by done. destruct (dv_pending d !! id') as [r'|] eqn:E; [|done].
  cbn. apply flightAt_view. destruct (tk_store _ _ _ _ _ _ T r') as [[_ ->]|Hv]; [|done].
  exfalso. apply Hne. by eapply pending_inj.
Qed.

Lemma inflight_swept d now l d' : swept now d l d' ->
  forall id f, inflight d' !! id = Some f <-> inflight d !! id = Some f /\ exists r, dv_pending d !! id = Some r /\ dueBy d now r = false.
Proof.
  intros [Sv Sk _ _ _] id f. rewrite !inflight_lookup, !bind_Some. split.
  - intros (r & Hr & Hf). apply Sk in Hr as [Hr Hdue]. rewrite (flightAt_view d d') in Hf by apply Sv. eauto 6.
  - intros [(r & Hr & Hf) (r' & Hr' & Hdue)]. exists r. assert (r' = r) as -> by congruence.
    split; [by apply Sk|]. by rewrite (flightAt_view d d') by apply Sv.
Qed.

Lemma flight_due d L id r : pinv d L -> dv_pending d !! id = Some r ->
  exists f, inflight d !! id = Some f /\ flightAt d r = Some f /\ deadlineOf d r = f_due f /\
    forall now, dueBy d now r = bool_decide (f_due f <= now).
Proof.
  intros I Hid. destruct (pi_item _ _ I _ _ Hid) as (p & Hp & _ & _ & En & _). exists (flightOf p).
  rewrite inflight_lookup, Hid. cbn. unfold flightAt, deadlineOf, dueBy. rewrite Hp. cbn. rewrite En. done.
Qed.

Lemma inflight_madeDue d L P now d' : pinv d L -> madeDue d P now d' ->
  forall id r (b : bool), dv_pending d !! id = Some r -> (P r <-> b = true) ->
  inflight d' !! id = (fun f => if b then f <| f_due := now |> else f) <$> inflight d !! id.
Proof.
  intros I M id r b Hid Hb. destruct (madeDue_pending _ _ _ _ M) as (Ep & _).
  rewrite !inflight_lookup, Ep, Hid. cbn. unfold flightAt.
  destruct (pi_item _ _ I _ _ Hid) as (p & Hp & _). destruct (md_lookup _ _ _ _ M _ _ Hp) as (p' & Hp' & H1 & H2).
  rewrite Hp, Hp'. cbn. destruct b.
  - by rewrite (flightOf_view _ _ (H1 (proj2 Hb eq_refl))).
  - rewrite (flightOf_view p p'); [done|]. apply H2. intros HP. by apply Hb in HP.
Qed.

(** C32: [sendDeliveryLocked] never panics. It refuses exactly under pressure (a subscriber that left, a
    byte budget that the message would exceed, a full channel), and then nothing is in flight that
    was not, and no byte is charged. Otherwise it returns an ID that is not in use, the message is
    in flight under that ID and due after the acknowledgement deadline, and the delivery is the last
    one of the subscriber's channel. In both cases the budgets hold afterwards. *)
Theorem send_refines d sr s m attempt cancel now :
  pend_ok d -> dv_sstore d !! sr = Some s -> sizeOf m < 2 ^ 62 -> dv_seq d + 1 < 2 ^ 64 ->
  exists id d', sendDeliveryLocked sr m attempt cancel now d = Some (id, d') /\ pend_ok d' /\
    dv_pendingBytes d' <= cfg_MaxInflightBytes (dv_cfg d) /\
    if deliveryPressure s (sizeOf m) d then
      id = "" /\ inflight d' = inflight d /\ dv_pendingBytes d' = dv_pendingBytes d /\
      (exists s', dv_sstore d' = <[sr := s']> (dv_sstore d) /\ s_ch s' = s_ch s /\
         s_inflightBytes s' = s_inflightBytes s)
    else
      id <> "" /\ inflight d !! id = None /\
      inflight d' = <[id := flightFor m attempt s (now + cfg_AckDeadline (dv_cfg d)) now]> (inflight d) /\
      dv_pendingBytes d' = dv_pendingBytes d + sizeOf m /\
      (exists s', dv_sstore d' = <[sr := s']> (dv_sstore d) /\
         s_ch s' = s_ch s ++ [deliveryOf id m attempt] /\
         s_inflightBytes s' = s_inflightBytes s + sizeOf m /\
         s_inflightBytes s' <= cfg_MaxSubscriberInflightBytes (dv_cfg d)).
Proof.
  intros [L I] Hs Hm Hseq. apply wp_elim. pose proof (pi_seq _ _ I).
  eapply wp_sendDeliveryLocked; [exact I|exact Hs|exact Hm|exact Hseq|..].
  - intros Hp d' I' [mt ->]. rewrite Hp. split; [by exists L|]. split; [apply (pi_max _ _ I')|].
    split_and!; [done|done|done|]. cbn. destruct (_ && _).
    + eexists. split; [done|]. by split.
    + exists s. by rewrite insert_id.
  - intros Hp r d' id p I' G. rewrite Hp. split; [by eexists|].
    pose proof (pi_max _ _ I') as Hmax. rewrite (gi_cfg _ _ _ _ _ _ _ _ _ G) in Hmax. split; [exact Hmax|].
    destruct (unpressed d L sr s id p I Hs Hp) as (Hdet & Hle & Hsle & _); [split_and!; [done|done|done|apply sizeOf_pos|exact Hm]|].
    pose proof (psum_nonneg _ _ (sentTo (s_id s)) I) as Hsum. destruct (pi_sub _ _ I _ _ Hs Hdet) as (_ & Ein & _).
    pose proof (bo_submax _ (pi_budgets _ _ I)). pose proof (bo_max _ (pi_budgets _ _ I)).
    pose proof (psum_nonneg _ _ everything I). pose proof (pi_bytes _ _ I). pose proof (sizeOf_pos m).
    change (p_bytes p) with (sizeOf m) in *.
    split_and!; [apply idOf_nonempty| |by apply (inflight_given _ _ _ _ _ _ _ _ _ I G)| |].
    + apply (inflight_None _ _ _ I). by eapply fresh_id.
    + rewrite (gi_bytes _ _ _ _ _ _ _ _ _ G). change (p_bytes p) with (sizeOf m). i64s. done.
    + eexists. split; [exact (gi_sstore _ _ _ _ _ _ _ _ _ G)|]. split; [done|].
      change (s_inflightBytes (charge _ _ s)) with (i64 (s_inflightBytes s + sizeOf m)).
      i64s. split; [done|lia].
Qed.

(** the acknowledgement of a delivery in flight never panics: it takes exactly that delivery out of
    flight, gives its bytes back and frees its object, and the budgets still hold. *)
Theorem ack_refines d id r f now :
  pend_ok d -> dv_pending d !! id = Some r -> inflight d !! id = Some f ->
  exists d', removeAcked id r now d = Some (tt, d') /\ pend_ok d' /\
    inflight d' = delete id (inflight d) /\ dv_pstore d' !! r = None /\
    dv_pendingBytes d' = dv_pendingBytes d - f_bytes f /\ 0 <= dv_pendingBytes d'.
Proof.
  intros [L I] Hid Hf. destruct (pi_item _ _ I _ _ Hid) as (p & Hp & _ & _ & _ & Hpos).
  assert (f = flightOf p) as ->.
  { rewrite inflight_lookup, Hid in Hf. cbn in Hf. unfold flightAt in Hf. rewrite Hp in Hf. by apply (inj Some) in Hf. }
  assert (H : wp (removeAcked id r now) d (fun u d' => u = tt /\ pend_ok d' /\
    inflight d' = delete id (inflight d) /\ dv_pstore d' !! r = None /\
    dv_pendingBytes d' = dv_pendingBytes d - p_bytes p /\ 0 <= dv_pendingBytes d')).
  { eapply wp_removeAcked; [exact I|exact Hid|exact Hp|]. intros d' T Hfree.
    pose proof (pinv_taken d L id r p d' I Hid Hp T) as I'. split; [done|]. split; [by eexists|].
    split; [by eapply inflight_taken|]. split; [done|].
    pose proof (pi_bytes _ _ I'). pose proof (psum_nonneg _ _ everything I'). split; [|lia].
    rewrite (pi_bytes _ _ I'), (taken_psum d L id r p d' I Hid Hp T), <- (pi_bytes _ _ I) by done. done. }
  apply wp_elim in H as ([] & d' & E & _ & H). eauto.
Qed.

(** The IDs of the objects that a sweep returns. *)
Definition idAt (d : deliveries) (r : loc) : string :=
  match dv_pstore d !! r with Some p => p_deliveryID p | None => "" end.

Lemma idAt_pending d L id r : pinv d L -> dv_pending d !! id = Some r -> idAt d r = id.
Proof. intros I Hid. unfold idAt. by destruct (pi_item _ _ I _ _ Hid) as (p & -> & -> & _). Qed.

(** [l] holds the deliveries [ids], all of [d] that are due, soonest first. *)
Record dueList (d : deliveries) (now : Z) (ids : list string) (l : list loc) (d' : deliveries) : Prop := {
  dl_nodup : NoDup ids;
  dl_all : forall id, id ∈ ids <-> exists f, inflight d !! id = Some f /\ f_due f <= now;
  dl_live : Forall2 (fun id r => is_Some (inflight d !! id) /\ flightAt d' r = inflight d !! id) ids l;
  dl_sorted : StronglySorted Z.le (f_due <$> omap (fun id => inflight d !! id) ids);
}.

Lemma swept_dueList d L now l d' : pinv d L -> swept now d l d' -> dueList d now (idAt d <$> l) l d'.
Proof.
  intros I [Sv Sk St Sn Ss].
  assert (Hin : forall r, r ∈ l -> exists id f, dv_pending d !! id = Some r /\ idAt d r = id /\
    inflight d !! id = Some f /\ flightAt d r = Some f /\ deadlineOf d r = f_due f /\ f_due f <= now).
  { intros r [[id Hid] Hdue]%St. destruct (flight_due _ _ _ _ I Hid) as (f & Hf & Hat & Hdl & Hd).
    rewrite Hd in Hdue. apply bool_decide_eq_true in Hdue. exists id, f. split_and!; try done.
    by eapply idAt_pending. }
  split.
  - apply NoDup_fmap_2_strong; [|done]. intros x y (id & f & Hx & Ex & _)%Hin (id' & f' & Hy & Ey & _)%Hin E.
    congruence.
  - intros id. rewrite list_elem_of_fmap. split.
    + intros (r & -> & (i & f & _ & -> & ? & _ & _ & ?)%Hin). eauto.
    + intros (f & Hf & Hle). rewrite inflight_lookup in Hf. apply bind_Some in Hf as (r & Hid & Hat).
      destruct (flight_due _ _ _ _ I Hid) as (f' & _ & Hat' & _ & Hd). exists r.
      split; [symmetry; by eapply idAt_pending|]. apply St. split; [eauto|]. rewrite Hd.
      apply bool_decide_eq_true. congruence.
  - apply Forall2_fmap_l, Forall_Forall2_diag, Forall_forall.
    intros r (id & f & _ & E & Hf & Hat & _)%Hin. unfold compose. rewrite E, Hf. split; [done|].
    rewrite (flightAt_view d d') by apply Sv. done.
  - clear St Sn. induction Ss as [|r l Hs IH Hr]; [constructor|]. cbn.
    destruct (Hin r) as (id & f & _ & E & Hf & _ & Hdl & _); [by left|]. rewrite E, Hf. cbn. constructor.
    + apply IH. intros x Hx. apply Hin. by right.
    + apply Forall_fmap, Forall_forall. intros g (x & Hx & Hg)%list_elem_of_omap.
      apply list_elem_of_fmap in Hx as (y & -> & Hy). rewrite Forall_forall in Hr. specialize (Hr _ Hy).
      destruct (Hin y) as (id' & f' & _ & E' & Hf' & _ & Hdl' & _); [by right|]. cbn. rewrite Hdl, Hdl' in Hr.
      assert (g = f') as -> by congruence. done.
Qed.

(** C33: the deadline loop of [maintenance] terminates, without a panic, after at most one turn per delivery in
    flight. It takes out of flight exactly the deliveries that are due, hands them to the retries in
    the order of their deadlines, and leaves the others untouched. *)
Theorem sweep_refines d now :
  pend_ok d -> exists l ids d', popDue (S (length (dv_deadlines d))) now d = Some (l, d') /\ pend_ok d' /\
    dueList d now ids l d' /\
    inflight d' = filter (fun x => now < f_due x.2) (inflight d).
Proof.
  intros [L I].
  assert (H : wp (popDue (S (length (dv_deadlines d))) now) d (fun l d' => pend_ok d' /\
    dueList d now (idAt d <$> l) l d' /\ inflight d' = filter (fun x => now < f_due x.2) (inflight d))).
  { eapply wp_popDue; [lia|exact I|]. intros l d' L' I' _ Hsw. split; [by eexists|].
    split; [by eapply swept_dueList|]. apply map_eq. intros id. apply option_eq. intros f.
    rewrite (inflight_swept _ _ _ _ Hsw), map_lookup_filter_Some. cbn. split.
    - intros [Hf (r & Hid & Hdue)]. split; [done|]. destruct (flight_due _ _ _ _ I Hid) as (f' & Hf' & _ & _ & Hd).
      rewrite Hd in Hdue. apply bool_decide_eq_false in Hdue. assert (f' = f) as -> by congruence. lia.
    - intros [Hf Hlt]. split; [done|]. pose proof Hf as Hf0. rewrite inflight_lookup in Hf0.
      apply bind_Some in Hf0 as (r & Hid & _). exists r. split; [done|].
      destruct (flight_due _ _ _ _ I Hid) as (f' & Hf' & _ & _ & Hd). assert (f' = f) as -> by congruence.
      rewrite Hd. apply bool_decide_eq_false. lia. }
  apply wp_elim in H as (l & d' & E & ? & ? & ?). eauto 10.
Qed.

Lemma inflight_due_all d L P (P' : string -> flight -> bool) now d' :
  pinv d L -> madeDue d P now d' ->
  (forall id r f, dv_pending d !! id = Some r -> inflight d !! id = Some f -> P r <-> P' id f = true) ->
  inflight d' = map_imap (fun id f => Some (if P' id f then f <| f_due := now |> else f)) (inflight d).
Proof.
  intros I M HP. apply map_eq. intros id. rewrite map_lookup_imap.
  destruct (dv_pending d !! id) as [r|] eqn:Hid.
  - destruct (flight_due _ _ _ _ I Hid) as (f & Hf & _).
    rewrite (inflight_madeDue _ _ _ _ _ I M _ _ (P' id f) Hid) by by apply HP. by rewrite Hf.
  - destruct (madeDue_pending _ _ _ _ M) as (Ep & _). rewrite !inflight_lookup, Ep, Hid. done.
Qed.

(** A negative acknowledgement never panics and makes exactly the listed deliveries, as far as they are in
    flight, due at once; nothing else changes. *)
Theorem nack_refines d ids now :
  pend_ok d -> exists d', applyNacks ids now d = Some (tt, d') /\ pend_ok d' /\
    dv_pendingBytes d' = dv_pendingBytes d /\
    inflight d' = map_imap (fun id f => Some (if bool_decide (id ∈ ids) then f <| f_due := now |> else f)) (inflight d).
Proof.
  intros [L I].
  assert (H : wp (applyNacks ids now) d (fun u d' => pend_ok d' /\ dv_pendingBytes d' = dv_pendingBytes d /\
    inflight d' = map_imap (fun id f => Some (if bool_decide (id ∈ ids) then f <| f_due := now |> else f)) (inflight d))).
  { eapply wp_applyNacks; [exact I|]. intros d' I' M. split; [by eexists|].
    split; [by destruct (madeDue_pending _ _ _ _ M) as (_ & _ & ? & _)|].
    eapply (inflight_due_all d L _ (fun id _ => bool_decide (id ∈ ids))); [exact I|exact M|].
    intros id r f Hid _. rewrite bool_decide_eq_true, Exists_exists. split.
    - intros (id' & Hin & Hid'). by rewrite <- (pending_inj _ _ _ _ _ I Hid Hid').
    - eauto. }
  apply wp_elim in H as ([] & d' & E & ? & ? & ?). eauto 10.
Qed.

(** When a stream ends, exactly the deliveries of its subscriber are made due at once, so that the next pass
    of [maintenance] gives them to others. *)
Theorem leave_refines d sid now :
  pend_ok d -> exists d', makeSubscriberDue sid now d = Some (tt, d') /\ pend_ok d' /\
    dv_pendingBytes d' = dv_pendingBytes d /\
    inflight d' = map_imap (fun _ f => Some (if bool_decide (f_subscriber f = sid) then f <| f_due := now |> else f))
                    (inflight d).
Proof.
  intros [L I].
  assert (H : wp (makeSubscriberDue sid now) d (fun u d' => pend_ok d' /\ dv_pendingBytes d' = dv_pendingBytes d /\
    inflight d' = map_imap (fun _ f => Some (if bool_decide (f_subscriber f = sid) then f <| f_due := now |> else f))
                    (inflight d))).
  { eapply wp_makeSubscriberDue; [exact I|]. intros d' I' M. split; [by eexists|].
    split; [by destruct (madeDue_pending _ _ _ _ M) as (_ & _ & ? & _)|].
    set (P := fun r => exists id p, dv_pending d !! id = Some r /\ dv_pstore d !! r = Some p /\ p_subscriberID p = sid) in M.
    assert (HP : forall id r f, dv_pending d !! id = Some r -> inflight d !! id = Some f ->
      P r <-> bool_decide (f_subscriber f = sid) = true).
    { intros id r f Hid Hf. rewrite inflight_lookup, Hid in Hf. cbn in Hf. unfold flightAt in Hf.
      destruct (dv_pstore d !! r) as [p|] eqn:Hp; [|done]. apply (inj Some) in Hf. subst f. rewrite bool_decide_eq_true. cbn.
      split; [intros (id' & p' & _ & Hp' & <-); congruence|]. intros E. exists id, p. done. }
    eapply (inflight_due_all d L P (fun _ f => bool_decide (f_subscriber f = sid))); [exact I|exact M|exact HP]. }
  apply wp_elim in H as ([] & d' & E & ? & ? & ?). eauto 10.
Qed.

(** ** Broadcast pressure *)
Definition isBroadcast (p : pending) : bool := bool_decide (p_group p = "").

Lemma oldestBroadcast_list st l a fuel : dlseg (T := pending) st a l None -> (length l <= fuel)%nat ->
  oldestBroadcast fuel (head l) st = Some (head (filter isBroadcast (omap (fun r => st !! r) l))).
Proof.
  revert a fuel. induction l as [|r l IH]; intros a fuel; [by destruct fuel|].
  intros (p & Hp & _ & En & Hd) Hf. destruct fuel as [|fuel]; [cbn in Hf; lia|].
  assert (Eo : omap (fun r => st !! r) (r :: l) = p :: omap (fun r => st !! r) l) by (cbn; by rewrite Hp).
  rewrite Eo, filter_cons. cbn [oldestBroadcast head]. rewrite Hp. cbn [mbind option_bind].
  destruct (bool_decide_reflect (p_group p = "")) as [Hg|Hg].
  - rewrite decide_True; [done|]. by apply bool_decide_pack.
  - rewrite decide_False by (by intros ?%bool_decide_unpack). rewrite hd_or_head in En. change (p_topicNext p = head l) in En. rewrite En.
    eapply IH; [done|cbn in Hf; lia].
Qed.

(** The walk over a topic's deliveries terminates. Publishing to a topic is slowed down only because of a
    broadcast delivery in flight for at least the lag limit; grouped deliveries never slow it down; and when
    every broadcast delivery of the topic has been in flight for so long, and there is one, it is
    slowed down. *)
Theorem pressure_broadcast_only d topic now :
  pend_ok d -> exists b, topicDeliveryPressured topic now d = Some b /\
    let lagging f := cfg_DeliveryLagLimit (dv_cfg d) <= i64 (now - f_delivered f) in
    let broadcast f := m_Topic (f_message f) = topic /\ f_group f = "" in
    (b = true -> exists id f, inflight d !! id = Some f /\ broadcast f /\ lagging f) /\
    ((exists id f, inflight d !! id = Some f /\ broadcast f) ->
     (forall id f, inflight d !! id = Some f -> broadcast f -> lagging f) -> b = true).
Proof.
  intros [L I]. unfold topicDeliveryPressured. pose proof (lo_state _ _ _ _ _ _ _ (pi_lists _ _ I) topic) as Hst.
  assert (Hfl : forall r p, r ∈ L topic -> dv_pstore d !! r = Some p ->
    m_Topic (f_message (flightOf p)) = topic /\ exists id, inflight d !! id = Some (flightOf p)).
  { intros r p Hr Hp. destruct (lo_key _ _ _ _ _ _ _ (pi_lists _ _ I) _ _ Hr) as (p' & Hp' & Et).
    assert (p' = p) as -> by congruence. split; [done|]. rewrite <- Et in Hr.
    apply (pi_listdom _ _ I _ _ Hp) in Hr as [id Hid]. exists id. rewrite inflight_lookup, Hid. cbn.
    unfold flightAt. by rewrite Hp. }
  assert (Hlf : forall id f, inflight d !! id = Some f -> m_Topic (f_message f) = topic ->
    exists r p, r ∈ L topic /\ dv_pstore d !! r = Some p /\ f = flightOf p).
  { intros id f Hf Et. rewrite inflight_lookup in Hf. apply bind_Some in Hf as (r & Hid & Hat). unfold flightAt in Hat.
    destruct (dv_pstore d !! r) as [p|] eqn:Hp; [|done]. apply (inj Some) in Hat. subst f. exists r, p.
    split; [|done]. rewrite <- Et. apply (pi_listdom _ _ I _ _ Hp). eauto. }
  destruct (dv_topicPending d !! topic) as [state|].
  - destruct Hst as (_ & (Hnd & Hseg & -> & _) & _).
    erewrite (oldestBroadcast_list _ _ _ _ Hseg).
    2:{ apply length_live; [done|]. intros r Hr. eapply lists_ok_live; [apply (pi_lists _ _ I)|exact Hr]. }
    set (ps := filter isBroadcast (omap (fun r => dv_pstore d !! r) (L topic))).
    assert (Hps : forall p, p ∈ ps -> exists r, r ∈ L topic /\ dv_pstore d !! r = Some p /\ p_group p = "").
    { intros p [Hb (r & Hr & Hp)%list_elem_of_omap]%list_elem_of_filter. exists r. split_and!; [done..|].
      unfold isBroadcast in Hb. by apply bool_decide_unpack in Hb. }
    assert (Hsp : forall r p, r ∈ L topic -> dv_pstore d !! r = Some p -> p_group p = "" -> p ∈ ps).
    { intros r p Hr Hp Hg. apply list_elem_of_filter. split; [by apply bool_decide_pack|]. apply list_elem_of_omap. eauto. }
    destruct ps as [|p ps'] eqn:E; cbn.
    + eexists. split; [done|]. split; [done|]. intros (id & f & Hf & Et & Hg). exfalso.
      destruct (Hlf _ _ Hf Et) as (r & p & Hr & Hp & ->). specialize (Hsp _ _ Hr Hp Hg). by apply elem_of_nil in Hsp.
    + destruct (Hps p) as (r & Hr & Hp & Hg); [by left|]. destruct (Hfl _ _ Hr Hp) as (Et & id & Hid).
      eexists. split; [done|]. rewrite bool_decide_eq_true. split; [eauto 10|]. intros _ Hall. by apply (Hall _ _ Hid).
  - eexists. split; [done|]. split; [done|]. intros (id & f & Hf & Et & _). exfalso.
    destruct (Hlf _ _ Hf Et) as (r & p & Hr & _). rewrite Hst in Hr. by apply elem_of_nil in Hr.
Qed.

(** ** The initial state, with its subscribers attached *)
Lemma pinv_idle cfg boot seq ss subs mt : 0 <= seq ->
  0 <= cfg_MaxInflightBytes cfg < 2 ^ 62 -> 0 <= cfg_MaxSubscriberInflightBytes cfg < 2 ^ 62 ->
  uniqueIds ss ->
  (forall sid sr, subs !! sid = Some sr -> exists s, ss !! sr = Some s /\ s_id s = sid /\ s_detached s = false) ->
  (forall sr s, ss !! sr = Some s -> llen (s_ch s) <= chanCap /\
     (exists n, 0 < n <= seq /\ s_id s = idOf boot n) /\ (s_detached s = false -> subs !! s_id s = Some sr /\ s_inflightBytes s = 0)) ->
  pinv (mkDeliveries cfg boot seq ss subs ∅ ∅ ∅ 0 [] mt) (fun _ => []).
Proof.
  intros Hseq H1 H2 Huniq Hsubs Hss. split; try done; cbn.
  - intros x. split; [intros Hx; by apply elem_of_nil in Hx|]. intros (id & Hid). done.
  - split; [intros t; by rewrite lookup_empty|]. intros t r Hr. by apply elem_of_nil in Hr.
  - lia.
  - intros sr s Hs Hd. destruct (Hss _ _ Hs) as (_ & _ & Hs'). destruct (Hs' Hd) as [? ->]. split; [done|].
    split; [done|lia].
  - intros sr s Hs. by apply (Hss _ _ Hs).
  - intros sr s Hs. by apply (Hss _ _ Hs).
Qed.

(** ** Witnesses *)
Definition ex_sub : subscriber := mkSubscriber (idOf [] 1) "t" "" "" [] 0 (Some false) false false [].
Definition ex_idle : deliveries :=
  mkDeliveries DefaultConfig [] 1 {[ 1%positive := ex_sub ]} {[ idOf [] 1 := 1%positive ]} ∅ ∅ ∅ 0 [] newMetrics.
Definition ex_message : Message :=
  mkMessage "m1" "t" "k" ∅ [] 0 1000 "o" 1 None None None 0 0 0 0.
Definition ex_sent : deliveries :=
  match sendDeliveryLocked 1 ex_message 1 true 100 ex_idle with Some (_, d) => d | None => ex_idle end.
Definition ex_id : string := idOf [] 2.

Lemma ex_idle_ok : pend_ok ex_idle.
Proof.
  eexists. apply pinv_idle; [done|done|done|..].
  - intros sr sr' s s' [<- <-]%lookup_singleton_Some [<- <-]%lookup_singleton_Some _. done.
  - intros sid sr [<- <-]%lookup_singleton_Some. exists ex_sub. done.
  - intros sr s [<- <-]%lookup_singleton_Some. split_and!; [done|by exists 1|done].
Qed.

Lemma ex_sent_ok : pend_ok ex_sent.
Proof.
  destruct ex_idle_ok as [L I]. unfold ex_sent.
  assert (H : wp (sendDeliveryLocked 1 ex_message 1 true 100) ex_idle (fun _ d => pend_ok d)).
  { eapply (wp_sendDeliveryLocked ex_idle L 1 ex_sub); [exact I|done|vm_compute; done|vm_compute; done|..].
    - intros _ d' I' _. by exists L.
    - intros _ x d' id p I' _. by eexists. }
  apply wp_elim in H as (id & d & E & H). by rewrite E.
Qed.

Lemma send_refines_witness : exists id d', sendDeliveryLocked 1 ex_message 1 true 100 ex_idle = Some (id, d') /\
  id = ex_id /\ dv_pendingBytes d' = sizeOf ex_message.
Proof.
  destruct (send_refines ex_idle 1 ex_sub ex_message 1 true 100 ex_idle_ok)
    as (id & d' & E & _ & _ & H); [done|vm_compute; done|vm_compute; done|].
  exists id, d'. split; [exact E|].
  assert (deliveryPressure ex_sub (sizeOf ex_message) ex_idle = false) as Hp by (vm_compute; done).
  rewrite Hp in H. destruct H as (_ & _ & _ & H & _). rewrite H. split; [|done].
  assert (fst <$> sendDeliveryLocked 1 ex_message 1 true 100 ex_idle = Some ex_id) as E' by (vm_compute; done).
  rewrite E in E'. by injection E'.
Defined.

Lemma ack_refines_witness : exists d', removeAcked ex_id 1 250 ex_sent = Some (tt, d') /\
  inflight d' = delete ex_id (inflight ex_sent) /\ dv_pendingBytes d' = 0.
Proof.
  destruct (ack_refines ex_sent ex_id 1 (flightFor ex_message 1 ex_sub (100 + cfg_AckDeadline DefaultConfig) 100) 250
    ex_sent_ok) as (d' & E & _ & H & _ & Hb & _); [vm_compute; done|vm_compute; done|].
  exists d'. split; [exact E|]. split; [exact H|]. rewrite Hb. vm_compute. done.
Defined.

Lemma sweep_refines_witness : exists l ids d',
  popDue (S (length (dv_deadlines ex_sent))) (10 ^ 12) ex_sent = Some (l, d') /\
  dueList ex_sent (10 ^ 12) ids l d' /\ l = [1%positive].
Proof.
  destruct (sweep_refines ex_sent (10 ^ 12) ex_sent_ok) as (l & ids & d' & E & _ & H & _).
  exists l, ids, d'. split; [exact E|]. split; [exact H|].
  assert (fst <$> popDue (S (length (dv_deadlines ex_sent))) (10 ^ 12) ex_sent = Some [1%positive]) as E'
    by (vm_compute; done). rewrite E in E'. by injection E'.
Defined.

Lemma nack_refines_witness : exists d', applyNacks ["none"; ex_id] 200 ex_sent = Some (tt, d') /\
  (f_due <$> inflight d' !! ex_id) = Some 200.
Proof.
  destruct (nack_refines ex_sent ["none"; ex_id] 200 ex_sent_ok) as (d' & E & _ & _ & H).
  exists d'. split; [exact E|]. rewrite H. vm_compute. done.
Defined.

Lemma leave_refines_witness : exists d', makeSubscriberDue (idOf [] 1) 200 ex_sent = Some (tt, d') /\
  (f_due <$> inflight d' !! ex_id) = Some 200.
Proof.
  destruct (leave_refines ex_sent (idOf [] 1) 200 ex_sent_ok) as (d' & E & _ & _ & H).
  exists d'. split; [exact E|]. rewrite H. vm_compute. done.
Defined.

Lemma pressure_broadcast_only_witness : exists b, topicDeliveryPressured "t" (10 ^ 15) ex_sent = Some b /\ b = true.
Proof.
  destruct (pressure_broadcast_only ex_sent "t" (10 ^ 15) ex_sent_ok) as (b & E & _ & H).
  exists b. split; [exact E|]. apply H.
  - exists ex_id, (flightFor ex_message 1 ex_sub (100 + cfg_AckDeadline DefaultConfig) 100).
    split; [vm_compute; done|]. done.
  - intros id f Hf _. assert (inflight ex_sent =
      {[ ex_id := flightFor ex_message 1 ex_sub (100 + cfg_AckDeadline DefaultConfig) 100 ]}) as Ei by (vm_compute; done).
    rewrite Ei in Hf. apply lookup_singleton_Some in Hf as [_ <-]. vm_compute. done.
Defined.
