(* ===== verification/GroupIndex.v ===== *)
(** * The work index of one group

    [groupWorkState] of internal/broker/group_work.go: the messages a consumer group has still to
    process, by message ID and, per key, in a lane in the order of their arrival.  This file has
    the operations on one group's index; GroupWork.v has the broker's side (budgets, dispatch).
    A work item is reachable from its own group only, so each group keeps the store of its items. *)
From S2P Require Import Prelude GoHeap Dll KeyedLists Types.
#[local] Open Scope Z_scope.

(** [type groupWork struct] *)
Record groupWork := mkWork {
  w_id : string;
  w_key : string;
  w_expires : Z;
  w_charge : Z;
  w_attempt : Z;
  w_delivery : string;
  w_prev : option loc;
  w_next : option loc;
}.
#[export] Instance groupWork_settable : Settable groupWork := fun r => mkWork (w_id r) (w_key r)
  (w_expires r) (w_charge r) (w_attempt r) (w_delivery r) (w_prev r) (w_next r).
#[export] Instance set_w_attempt : Setter w_attempt := ltac:(derive_setter).
#[export] Instance set_w_delivery : Setter w_delivery := ltac:(derive_setter).
#[export] Instance set_w_prev : Setter w_prev := ltac:(derive_setter).
#[export] Instance set_w_next : Setter w_next := ltac:(derive_setter).

#[export] Instance groupWork_node : DllNode groupWork.
Proof.
  refine {| nd_prev := w_prev; nd_next := w_next;
            nd_set_prev x w := w <| w_prev := x |>;
            nd_set_next x w := w <| w_next := x |>;
            nd_strip w := (w <| w_prev := None |>) <| w_next := None |> |}; done.
Defined.

(** [type groupLane struct] *)
Record groupLane := mkLane { ln_head : option loc; ln_tail : option loc }.

(** [type groupWorkState struct], with the store of its items. *)
Record groupWorkState := mkGroup {
  g_scope : checkpointScope;
  g_lanes : gmap string groupLane;
  g_work : gmap string loc;
  g_charge : Z;
  g_indexPeak : Z;
  g_store : gmap loc groupWork;
}.
#[export] Instance groupWorkState_settable : Settable groupWorkState := fun r => mkGroup (g_scope r)
  (g_lanes r) (g_work r) (g_charge r) (g_indexPeak r) (g_store r).
#[export] Instance set_g_lanes : Setter g_lanes := ltac:(derive_setter).
#[export] Instance set_g_work : Setter g_work := ltac:(derive_setter).
#[export] Instance set_g_indexPeak : Setter g_indexPeak := ltac:(derive_setter).
#[export] Instance set_g_store : Setter g_store := ltac:(derive_setter).

#[local] Abbreviation GM := (GoM groupWorkState).

(** [workCharge] *)
Definition workCharge (m : Message) : Z := 384 + slen (m_ID m) + slen (deliveryAffinity m).

Definition newGroup (scope : checkpointScope) (charge : Z) : groupWorkState := mkGroup scope ∅ ∅ charge 0 ∅.

Definition wderef (r : loc) : GM groupWork := g <- gget ;; glift (g_store g !! r).
Definition wupdate (r : loc) (f : groupWork -> groupWork) : GM unit :=
  w <- wderef r ;; gmodify (fun g => g <| g_store := <[r := f w]> (g_store g) |>).
Definition linkW {A} (m : GoM (gmap loc groupWork) A) : GM A :=
  gzoom g_store (fun st g => g <| g_store := st |>) m.

(** The body of the second loop of [prepareGroupWork]: [m] goes to the back of its lane; the
    bytes it is charged. *)
Definition appendWork (m : Message) : GM Z :=
  g <- gget ;;
  let key := deliveryAffinity m in
  let r := fresh (dom (g_store g)) in
  let lane := default (mkLane None None) (g_lanes g !! key) in
  gmodify (fun g => g <| g_store :=
    <[r := mkWork (m_ID m) key (m_ExpiresAt m) (workCharge m) 1 "" None None]> (g_store g) |>) ;;;
  let! (hd, tl) := linkW (link_back (ln_head lane) (ln_tail lane) r) ;;
  gmodify (fun g => g <| g_lanes := <[key := mkLane hd tl]> (g_lanes g) |>) ;;;
  gmodify (fun g => g <| g_work := <[m_ID m := r]> (g_work g) |>) ;;;
  gmodify (fun g => g <| g_indexPeak := Z.max (g_indexPeak g) (mlen (g_work g)) |>) ;;;
  gret (workCharge m).

(** [removeGroupWorkLocked], the index side; the bytes that are given back. *)
Definition removeWork (r : loc) : GM Z :=
  w <- wderef r ;;
  g <- gget ;;
  lane <- glift (g_lanes g !! w_key w) ;;
  let! (hd, tl) := linkW (unlink (ln_head lane) (ln_tail lane) r) ;;
  gmodify (fun g => g <| g_work := delete (w_id w) (g_work g) |>) ;;;
  gmodify (fun g => g <| g_lanes := if bool_decide (hd = None) then delete (w_key w) (g_lanes g)
                                    else <[w_key w := mkLane hd tl]> (g_lanes g) |>) ;;;
  gmodify (fun g => if bool_decide (8 < g_indexPeak g) && bool_decide (mlen (g_work g) < g_indexPeak g / 4)
                    then g <| g_indexPeak := mlen (g_work g) |> else g) ;;;
  gret (w_charge w).

(** [retryGroup], once the group is found: the head is dispatched again, expiry releases it. *)
Definition retryWork (messageID deliveryID : string) (maxAttempts : Z) : GM unit :=
  g <- gget ;;
  match g_work g !! messageID with
  | None => gret tt
  | Some r =>
    w <- wderef r ;;
    gwhen (bool_decide (w_delivery w = deliveryID))
      (wupdate r (fun w => (w <| w_delivery := "" |>) <| w_attempt := Z.min (w_attempt w + 1) maxAttempts |>))
  end.

(** ** The lane of a key, from its head *)
Fixpoint walk (fuel : nat) (cur : option loc) (st : gmap loc groupWork) : option (list groupWork) :=
  match cur with
  | None => Some []
  | Some r =>
    match fuel with
    | O => None
    | S fuel => w ← st !! r ; l ← walk fuel (w_next w) st ; Some (w :: l)
    end
  end.

Definition laneItems (key : string) (g : groupWorkState) : option (list groupWork) :=
  match g_lanes g !! key with
  | None => Some []
  | Some lane => walk (size (g_store g)) (ln_head lane) (g_store g)
  end.

(** What a consumer sees of an item. *)
Record job := mkJob { j_id : string; j_expires : Z; j_attempt : Z; j_delivery : string }.
Definition jobOf (w : groupWork) : job := mkJob (w_id w) (w_expires w) (w_attempt w) (w_delivery w).

(** The queue of a key. *)
Definition queue (key : string) (g : groupWorkState) : list job := jobOf <$> default [] (laneItems key g).

(** ** The invariant *)
Abbreviation wstrip := (nd_strip (T := groupWork)).
Abbreviation lanes_ok := (lists_ok (T := groupWork) w_key ln_head ln_tail (fun _ _ => True)).

Lemma w_key_strip (t t' : groupWork) : nd_strip t' = nd_strip t -> w_key t' = w_key t.
Proof. intros E. by apply (f_equal w_key) in E. Qed.

(** The items in lanes [K] are those of the map; their charges are what [workCharge] gave; only the
    head of a lane may be out for delivery. *)
Record gw_inv (g : groupWorkState) (K : string -> list loc) : Prop := {
  gi_lanes : lanes_ok (g_store g) (g_lanes g) K;
  gi_work : forall id r, g_work g !! id = Some r ->
    exists w, g_store g !! r = Some w /\ w_id w = id /\ r ∈ K (w_key w);
  gi_listed : forall k r w, r ∈ K k -> g_store g !! r = Some w -> g_work g !! w_id w = Some r;
  gi_item : forall k r w, r ∈ K k -> g_store g !! r = Some w ->
    w_charge w = 384 + slen (w_id w) + slen (w_key w) /\ 1 <= w_attempt w;
  gi_head : forall k r w, r ∈ K k -> g_store g !! r = Some w -> w_delivery w <> "" -> head (K k) = Some r;
}.

(** The bytes charged for the items. *)
Definition workBytes (g : groupWorkState) : Z :=
  msum (fun _ r => match g_store g !! r with Some w => w_charge w | None => 0 end) (g_work g).

Lemma workCharge_pos m : 384 <= workCharge m.
Proof. unfold workCharge. pose proof (slen_nonneg (m_ID m)). pose proof (slen_nonneg (deliveryAffinity m)). lia. Qed.

Lemma newGroup_inv scope charge : gw_inv (newGroup scope charge) (fun _ => []).
Proof.
  split; try done; [split|..]; try (intros; by match goal with H : _ ∈ [] |- _ => apply elem_of_nil in H end).
  intros t. cbn. by rewrite lookup_empty.
Qed.

Lemma workBytes_nonneg g K : gw_inv g K -> 0 <= workBytes g.
Proof.
  intros I. apply msum_nonneg. intros id r Hid. destruct (gi_work _ _ I _ _ Hid) as (w & Hw & _ & Hin). rewrite Hw.
  destruct (gi_item _ _ I _ _ _ Hin Hw) as [-> _]. pose proof (slen_nonneg (w_id w)). pose proof (slen_nonneg (w_key w)). lia.
Qed.

Lemma work_inj g K id id' r : gw_inv g K -> g_work g !! id = Some r -> g_work g !! id' = Some r -> id' = id.
Proof.
  intros I H H'. destruct (gi_work _ _ I _ _ H) as (w & Hw & <- & _).
  destruct (gi_work _ _ I _ _ H') as (w' & Hw' & <- & _). congruence.
Qed.

(** ** The lane, read off the invariant *)
Lemma walk_list st l a fuel : dlseg (T := groupWork) st a l None -> (length l <= fuel)%nat ->
  walk fuel (head l) st = Some (omap (fun r => st !! r) l).
Proof.
  revert a fuel. induction l as [|r l IH]; intros a fuel; [by destruct fuel|].
  intros (w & Hw & _ & En & Hd) Hf. destruct fuel as [|fuel]; [cbn in Hf; lia|].
  assert (Eo : omap (fun r => st !! r) (r :: l) = w :: omap (fun r => st !! r) l) by (cbn; by rewrite Hw).
  rewrite Eo. cbn [walk head]. rewrite Hw. cbn [mbind option_bind]. rewrite hd_or_head in En.
  change (w_next w = head l) in En. rewrite En, (IH (Some r)); [done|done|cbn in Hf; lia].
Qed.

Lemma laneItems_list g K key : gw_inv g K -> laneItems key g = Some (omap (fun r => g_store g !! r) (K key)).
Proof.
  intros I. unfold laneItems. pose proof (lo_state _ _ _ _ _ _ _ (gi_lanes _ _ I) key) as Hs.
  destruct (g_lanes g !! key) as [lane|]; [|by rewrite Hs].
  destruct Hs as (_ & (Hnd & Hseg & -> & _) & _). eapply walk_list; [exact Hseg|]. apply length_live; [done|].
  intros r Hr. eapply lists_ok_live; [apply (gi_lanes _ _ I)|exact Hr].
Qed.

Definition jobAt (g : groupWorkState) (r : loc) : option job := jobOf <$> g_store g !! r.

Lemma queue_list g K key : gw_inv g K -> queue key g = omap (jobAt g) (K key).
Proof.
  intros I. unfold queue. rewrite (laneItems_list _ _ _ I).
  change (jobOf <$> omap (fun r => g_store g !! r) (K key) = omap (jobAt g) (K key)).
  induction (K key) as [|r l IH]; [done|]. cbn. unfold jobAt at 1.
  destruct (g_store g !! r); [cbn; by rewrite IH|exact IH].
Qed.

Lemma jobOf_strip w w' : wstrip w' = wstrip w -> jobOf w' = jobOf w.
Proof.
  intros E. apply (f_equal (fun w => (w_id w, w_expires w, w_attempt w, w_delivery w))) in E. cbn in E.
  unfold jobOf. by injection E as -> -> -> ->.
Qed.

Lemma jobAt_agree g g' r : agree wstrip (g_store g) (g_store g') -> jobAt g' r = jobAt g r.
Proof.
  intros H. specialize (H r). unfold jobAt. destruct (g_store g' !! r), (g_store g !! r); try done.
  apply (inj Some) in H. cbn. f_equal. by apply jobOf_strip.
Qed.

Lemma wp_wderef r w g (Q : groupWork -> groupWorkState -> Prop) :
  g_store g !! r = Some w -> Q w g -> wp (wderef r) g Q.
Proof. intros Hr HQ. unfold wderef. wp_step. apply wp_get. by eapply wp_lift. Qed.

Lemma wp_wupdate r f w g (Q : unit -> groupWorkState -> Prop) :
  g_store g !! r = Some w -> Q tt (g <| g_store := <[r := f w]> (g_store g) |>) -> wp (wupdate r f) g Q.
Proof. intros Hr HQ. unfold wupdate. wp_step. eapply wp_wderef; [done|]. by apply wp_modify. Qed.

(** ** Appending *)
Definition jobFor (m : Message) : job := mkJob (m_ID m) (m_ExpiresAt m) 1 "".

Record appended (g : groupWorkState) (m : Message) (g' : groupWorkState) : Prop := {
  ap_scope : g_scope g' = g_scope g;
  ap_charge : g_charge g' = g_charge g;
  ap_dom : dom (g_work g') = {[ m_ID m ]} ∪ dom (g_work g);
  ap_queue : forall key, queue key g' = queue key g ++ (if decide (key = deliveryAffinity m) then [jobFor m] else []);
  ap_bytes : workBytes g' = workBytes g + workCharge m;
}.

Section Append.
Context (g : groupWorkState) (K : string -> list loc) (m : Message) (I : gw_inv g K).
Context (Hnew : g_work g !! m_ID m = None).

Let key := deliveryAffinity m.
Let r : loc := fresh (dom (g_store g)).
Let w := mkWork (m_ID m) key (m_ExpiresAt m) (workCharge m) 1 "" None None.

#[local] Lemma append_fresh : g_store g !! r = None /\ forall k, r ∉ K k.
Proof.
  assert (Hr : g_store g !! r = None) by (apply not_elem_of_dom, is_fresh). split; [done|].
  intros k Hin. destruct (lists_ok_live _ _ _ _ _ _ _ _ _ (gi_lanes _ _ I) Hin) as [x Hx]. congruence.
Qed.

Context (st : gmap loc groupWork) (lanes : gmap string groupLane) (peak : Z).
Context (Hl : links_eq (K key ++ [r]) (<[r := w]> (g_store g)) st).
Context (HL : lanes_ok st lanes (addTo key r K)).

Let g' := (((g <| g_store := st |>) <| g_lanes := lanes |>) <| g_work := <[m_ID m := r]> (g_work g) |>)
            <| g_indexPeak := peak |>.

#[local] Lemma append_view x : wstrip <$> st !! x = wstrip <$> <[r := w]> (g_store g) !! x.
Proof. apply Hl. Qed.

#[local] Lemma append_old x v : x <> r -> g_store g !! x = Some v -> exists v', st !! x = Some v' /\ wstrip v' = wstrip v.
Proof.
  intros Hne Hx. pose proof (append_view x) as Hv. rewrite lookup_insert_ne, Hx in Hv by done.
  destruct (st !! x) as [v'|]; [|done]. apply (inj Some) in Hv. eauto.
Qed.

#[local] Lemma append_new : exists w', st !! r = Some w' /\ wstrip w' = wstrip w.
Proof.
  pose proof (append_view r) as Hv. rewrite lookup_insert_eq in Hv. destruct (st !! r) as [w'|]; [|done].
  apply (inj Some) in Hv. eauto.
Qed.

#[local] Lemma strip_fields (v v' : groupWork) : wstrip v' = wstrip v ->
  w_id v' = w_id v /\ w_key v' = w_key v /\ w_charge v' = w_charge v /\ w_attempt v' = w_attempt v /\ w_delivery v' = w_delivery v.
Proof.
  intros E. apply (f_equal (fun w => (w_id w, w_key w, w_charge w, w_attempt w, w_delivery w))) in E. cbn in E.
  by injection E as -> -> -> -> ->.
Qed.

#[local] Lemma append_in k x : x ∈ addTo key r K k -> (x = r /\ k = key) \/ (x <> r /\ x ∈ K k).
Proof.
  destruct append_fresh as [_ Hf]. unfold addTo. destruct (decide (k = key)) as [->|Hne].
  - intros [Hx| ->%list_elem_of_singleton]%elem_of_app; [right|by left]. split; [|done]. intros ->. by apply (Hf key).
  - intros Hx. right. split; [|done]. intros ->. by apply (Hf k).
Qed.

Lemma appended_inv : gw_inv g' (addTo key r K).
Proof.
  destruct append_fresh as [Hr Hf]. destruct append_new as (w' & Hw' & Ew).
  destruct (strip_fields _ _ Ew) as (E1 & E2 & E3 & E4 & E5). split.
  - exact HL.
  - intros id x. cbn. intros [[<- <-]|[Hne Hx]]%lookup_insert_Some.
    + exists w'. split_and!; [done|done|]. rewrite E2. unfold addTo. cbn. rewrite decide_True by done. set_solver.
    + destruct (gi_work _ _ I _ _ Hx) as (v & Hv & <- & Hin). assert (x <> r) as Hxr by (intros ->; by apply (Hf (w_key v))).
      destruct (append_old _ _ Hxr Hv) as (v' & Hv' & Ev). destruct (strip_fields _ _ Ev) as (F1 & F2 & _).
      exists v'. split_and!; [done|done|]. rewrite F2. unfold addTo. destruct (decide _) as [<-|]; [set_solver|done].
  - intros k x v. cbn. intros [[-> ->]|[Hxr Hin]]%append_in Hv.
    + assert (v = w') as -> by congruence. rewrite E1. apply lookup_insert_eq.
    + destruct (lists_ok_live _ _ _ _ _ _ _ _ _ (gi_lanes _ _ I) Hin) as [u Hu].
      destruct (append_old _ _ Hxr Hu) as (u' & Hu' & Eu). assert (u' = v) as -> by congruence.
      destruct (strip_fields _ _ Eu) as (-> & _). pose proof (gi_listed _ _ I _ _ _ Hin Hu) as Hid.
      rewrite lookup_insert_ne; [done|]. intros E. congruence.
  - intros k x v. cbn. intros [[-> ->]|[Hxr Hin]]%append_in Hv.
    + assert (v = w') as -> by congruence. rewrite E1, E2, E3, E4. cbn. split; [done|lia].
    + destruct (lists_ok_live _ _ _ _ _ _ _ _ _ (gi_lanes _ _ I) Hin) as [u Hu].
      destruct (append_old _ _ Hxr Hu) as (u' & Hu' & Eu). assert (u' = v) as -> by congruence.
      destruct (strip_fields _ _ Eu) as (-> & -> & -> & -> & _). by eapply gi_item.
  - intros k x v. cbn. intros [[-> ->]|[Hxr Hin]]%append_in Hv Hd.
    + assert (v = w') as -> by congruence. by rewrite E5 in Hd.
    + destruct (lists_ok_live _ _ _ _ _ _ _ _ _ (gi_lanes _ _ I) Hin) as [u Hu].
      destruct (append_old _ _ Hxr Hu) as (u' & Hu' & Eu). assert (u' = v) as -> by congruence.
      destruct (strip_fields _ _ Eu) as (_ & _ & _ & _ & E). rewrite E in Hd.
      pose proof (gi_head _ _ I _ _ _ Hin Hu Hd) as Hh. unfold addTo. destruct (decide _) as [->|]; [|done].
      destruct (K key); [done|]. done.
Qed.

Lemma appended_effect : appended g m g'.
Proof.
  destruct append_fresh as [Hr Hf]. destruct append_new as (w' & Hw' & Ew). split; try done.
  - cbn. apply dom_insert_L.
  - intros k. rewrite (queue_list _ _ _ appended_inv), (queue_list _ _ _ I).
    assert (Hold : omap (jobAt g') (K k) = omap (jobAt g) (K k)).
    { apply list_omap_ext, Forall_Forall2_diag, Forall_forall. intros x Hx. unfold jobAt. cbn.
      assert (x <> r) as Hxr by (intros ->; by apply (Hf k)).
      destruct (lists_ok_live _ _ _ _ _ _ _ _ _ (gi_lanes _ _ I) Hx) as [u Hu].
      destruct (append_old _ _ Hxr Hu) as (u' & Hu' & Eu). rewrite Hu, Hu'. cbn. f_equal. by apply jobOf_strip. }
    unfold addTo. fold key. destruct (decide (k = key)) as [->|]; [|by rewrite app_nil_r].
    rewrite omap_app, Hold. f_equal. cbn. unfold jobAt. cbn. rewrite Hw'. cbn. f_equal. exact (jobOf_strip _ _ Ew).
  - unfold workBytes. cbn. rewrite msum_insert by done. rewrite Hw'. destruct (strip_fields _ _ Ew) as (_ & _ & -> & _).
    cbn. rewrite Z.add_comm. f_equal. apply msum_ext. intros id x Hx.
    destruct (gi_work _ _ I _ _ Hx) as (v & Hv & _ & Hin). assert (x <> r) as Hxr by (intros ->; by apply (Hf (w_key v))).
    destruct (append_old _ _ Hxr Hv) as (v' & Hv' & Ev). destruct (strip_fields _ _ Ev) as (_ & _ & E & _).
    by rewrite Hv, Hv'.
Qed.
End Append.

Lemma wp_appendWork g K m (Q : Z -> groupWorkState -> Prop) :
  gw_inv g K -> g_work g !! m_ID m = None ->
  (forall g' K', gw_inv g' K' -> appended g m g' -> Q (workCharge m) g') ->
  wp (appendWork m) g Q.
Proof.
  intros I Hnew HQ. unfold appendWork. wp_step. apply wp_get.
  destruct (append_fresh g K I) as [Hr Hf]. set (r := fresh (dom (g_store g))) in *.
  wp_step. apply wp_modify. wp_step. unfold linkW. apply wp_zoom. cbn [g_store].
  set (w := mkWork _ _ _ _ _ _ _ _). set (key := deliveryAffinity m).
  eapply (wp_append w_key ln_head ln_tail (fun _ _ => True) w_key_strip _ (g_lanes g) K r w).
  - eapply lists_ok_out; [|apply (gi_lanes _ _ I)]. intros t x Hx. cbn. apply lookup_insert_ne. intros <-. by apply (Hf t).
  - cbn. apply lookup_insert_eq.
  - done.
  - exact Hf.
  - cbn. fold key. by destruct (g_lanes g !! key).
  - intros hd tl st Hl _ HL. cbn beta iota. specialize (HL (mkLane hd tl) eq_refl eq_refl Logic.I).
    wp_step. apply wp_modify. wp_step. apply wp_modify. wp_step. apply wp_modify. apply wp_ret.
    eapply HQ; [by apply (appended_inv g K m I Hnew st (<[key := mkLane hd tl]> (g_lanes g)) _ Hl HL)|].
    by apply (appended_effect g K m I Hnew st (<[key := mkLane hd tl]> (g_lanes g)) _ Hl HL).
Qed.

(** ** Removing *)
Record worked (g : groupWorkState) (id : string) (g' : groupWorkState) : Prop := {
  wk_scope : g_scope g' = g_scope g;
  wk_charge : g_charge g' = g_charge g;
  wk_work : g_work g' = delete id (g_work g);
  wk_store : agree wstrip (g_store g) (g_store g');
  wk_queue : forall key, queue key g' = filter (fun j => j_id j <> id) (queue key g);
}.

Section Remove.
Context (g : groupWorkState) (K : string -> list loc) (id : string) (r : loc) (w : groupWork).
Context (I : gw_inv g K) (Hid : g_work g !! id = Some r) (Hr : g_store g !! r = Some w) (Ew : w_id w = id).
Context (st : gmap loc groupWork) (lanes : gmap string groupLane) (peak : Z).
Context (Hst : agree wstrip (g_store g) st) (HL : lanes_ok st lanes (dropFrom (w_key w) r K)).

Let g' := (((g <| g_store := st |>) <| g_lanes := lanes |>) <| g_work := delete id (g_work g) |>)
            <| g_indexPeak := peak |>.

#[local] Lemma removed_old x v' : st !! x = Some v' -> exists v, g_store g !! x = Some v /\
  w_id v' = w_id v /\ w_key v' = w_key v /\ w_charge v' = w_charge v /\ w_attempt v' = w_attempt v /\ w_delivery v' = w_delivery v.
Proof.
  intros Hx. specialize (Hst x). rewrite Hx in Hst. destruct (g_store g !! x) as [v|]; [|done].
  apply (inj Some) in Hst. exists v. split; [done|]. by apply strip_fields.
Qed.

#[local] Lemma removed_in k x : x ∈ dropFrom (w_key w) r K k <-> x ∈ K k /\ x <> r.
Proof.
  unfold dropFrom. destruct (decide (k = w_key w)) as [->|Hne].
  - rewrite list_elem_of_filter. tauto.
  - split; [|by intros []]. intros Hx. split; [done|]. intros ->.
    destruct (lo_key _ _ _ _ _ _ _ (gi_lanes _ _ I) _ _ Hx) as (v & Hv & <-). congruence.
Qed.

Lemma removed_inv : gw_inv g' (dropFrom (w_key w) r K).
Proof.
  split.
  - exact HL.
  - intros id' x. cbn. intros [Hne Hx]%lookup_delete_Some. destruct (gi_work _ _ I _ _ Hx) as (v & Hv & Ev & Hin).
    destruct (agree_lookup _ _ _ _ _ Hst Hv) as (v' & Hv' & E). destruct (strip_fields _ _ E) as (F1 & F2 & _).
    exists v'. split_and!; [done|congruence|]. rewrite F2. apply removed_in. split; [done|]. intros ->. congruence.
  - intros k x v'. cbn. intros [Hin Hne]%removed_in (v & Hv & -> & _)%removed_old.
    pose proof (gi_listed _ _ I _ _ _ Hin Hv) as Hx. rewrite lookup_delete_ne; [done|]. intros E. congruence.
  - intros k x v'. cbn. intros [Hin Hne]%removed_in (v & Hv & -> & -> & -> & -> & _)%removed_old. by eapply gi_item.
  - intros k x v'. cbn. intros [Hin Hne]%removed_in (v & Hv & _ & _ & _ & _ & ->)%removed_old Hd.
    pose proof (gi_head _ _ I _ _ _ Hin Hv Hd) as Hh. unfold dropFrom. destruct (decide _) as [->|]; [|done].
    destruct (K (w_key w)) as [|y l]; [done|]. cbn in Hh. injection Hh as ->. by rewrite filter_cons, decide_True.
Qed.

Lemma removed_effect : worked g id g'.
Proof.
  split; try done. intros k. rewrite (queue_list _ _ _ removed_inv), (queue_list _ _ _ I).
  transitivity (omap (jobAt g) (dropFrom (w_key w) r K k)).
  { apply list_omap_ext, Forall_Forall2_diag, Forall_forall. intros x _. by apply jobAt_agree. }
  assert (Hk : forall x, x ∈ K k -> exists v, g_store g !! x = Some v /\ (w_id v = id <-> x = r)).
  { intros x Hx. destruct (lists_ok_live _ _ _ _ _ _ _ _ _ (gi_lanes _ _ I) Hx) as [v Hv]. exists v. split; [done|].
    pose proof (gi_listed _ _ I _ _ _ Hx Hv) as Hw. split; [intros E; congruence|]. intros ->. congruence. }
  unfold dropFrom. destruct (decide (k = w_key w)) as [->|Hne].
  - clear Hst HL g'. induction (K (w_key w)) as [|x l IH]; [done|]. rewrite filter_cons.
    destruct (Hk x) as (v & Hv & Hxr); [by left|]. assert (IH' := IH (fun y Hy => Hk y (proj2 (elem_of_cons _ _ _) (or_intror Hy)))).
    assert (Ex : jobAt g x = Some (jobOf v)) by (unfold jobAt; by rewrite Hv). destruct (decide (x <> r)) as [Hd|Hd].
    + cbn. rewrite Ex. rewrite filter_cons, decide_True by (cbn; naive_solver). f_equal. exact IH'.
    + cbn. rewrite Ex. rewrite filter_cons, decide_False by (cbn; intros Hc; apply Hd; naive_solver). exact IH'.
  - symmetry. apply filter_all, Forall_forall. intros j (x & Hx & Hj)%list_elem_of_omap.
    destruct (Hk x Hx) as (v & Hv & Hxr). unfold jobAt in Hj. rewrite Hv in Hj. apply (inj Some) in Hj. subst j. cbn.
    intros ->%Hxr. destruct (lo_key _ _ _ _ _ _ _ (gi_lanes _ _ I) _ _ Hx) as (v' & Hv' & <-). congruence.
Qed.

Lemma removed_bytes : workBytes g' = workBytes g - w_charge w.
Proof.
  unfold workBytes at 2. rewrite (msum_delete _ _ _ _ Hid), Hr.
  assert (workBytes g' = msum (fun _ r => match g_store g !! r with Some w => w_charge w | None => 0 end) (delete id (g_work g)));
    [|lia]. unfold workBytes. cbn. apply msum_ext. intros id' x [_ Hx]%lookup_delete_Some.
  destruct (gi_work _ _ I _ _ Hx) as (v & Hv & _ & _). destruct (agree_lookup _ _ _ _ _ Hst Hv) as (v' & Hv' & E).
  rewrite Hv, Hv'. by apply strip_fields.
Qed.
End Remove.

Lemma wp_removeWork g K id r w (Q : Z -> groupWorkState -> Prop) :
  gw_inv g K -> g_work g !! id = Some r -> g_store g !! r = Some w ->
  (forall g', gw_inv g' (dropFrom (w_key w) r K) -> worked g id g' -> workBytes g' = workBytes g - w_charge w ->
     Q (w_charge w) g') ->
  wp (removeWork r) g Q.
Proof.
  intros I Hid Hr HQ. destruct (gi_work _ _ I _ _ Hid) as (w' & Hw' & Eid & Hin). assert (w' = w) as -> by congruence.
  unfold removeWork. wp_step. eapply wp_wderef; [exact Hr|]. wp_step. apply wp_get.
  pose proof (lo_state _ _ _ _ _ _ _ (gi_lanes _ _ I) (w_key w)) as Hs.
  destruct (g_lanes g !! w_key w) as [lane|] eqn:El; [|rewrite Hs in Hin; by apply elem_of_nil in Hin].
  wp_step. eapply wp_lift; [done|]. wp_step. unfold linkW. apply wp_zoom.
  eapply (wp_remove w_key ln_head ln_tail (fun _ _ => True) w_key_strip); [apply (gi_lanes _ _ I)|exact Hr|exact Hin|exact El|].
  intros hd tl st rest Hl Ehd _ Hnil Hcons. cbn beta iota.
  wp_step. apply wp_modify. wp_step. apply wp_modify. wp_step. apply wp_modify. apply wp_ret.
  cbn [g_work g_lanes g_indexPeak].
  set (lanes := if bool_decide (hd = None) then delete (w_key w) (g_lanes g) else <[w_key w := mkLane hd tl]> (g_lanes g)).
  assert (HL : lanes_ok st lanes (dropFrom (w_key w) r K)).
  { unfold lanes. destruct (bool_decide_reflect (hd = None)) as [E|E].
    - apply Hnil. rewrite Ehd in E. by destruct rest.
    - apply (Hcons (mkLane hd tl)); [|done..]. intros Er. apply E. by rewrite Ehd, Er. }
  destruct Hl as [Hst _].
  assert (Hcase : forall peak, let g' := (((g <| g_store := st |>) <| g_lanes := lanes |>)
      <| g_work := delete id (g_work g) |>) <| g_indexPeak := peak |> in Q (w_charge w) g').
  { intros peak g'. apply HQ.
    - by apply (removed_inv g K id r w I Hid Hr Eid st lanes peak Hst HL).
    - by apply (removed_effect g K id r w I Hid Hr Eid st lanes peak Hst HL).
    - by apply (removed_bytes g K id r w I Hid Hr st lanes peak Hst). }
  cbn. rewrite Eid. change (if bool_decide (hd = None) then _ else _) with lanes.
  destruct (_ && _); apply Hcase.
Qed.

(** ** Changing an item in place *)
Definition setWork (r : loc) (w : groupWork) (g : groupWorkState) : groupWorkState :=
  g <| g_store := <[r := w]> (g_store g) |>.

Section Update.
Context (g : groupWorkState) (K : string -> list loc) (id : string) (r : loc) (w w' : groupWork).
Context (I : gw_inv g K) (Hid : g_work g !! id = Some r) (Hr : g_store g !! r = Some w) (Eid : w_id w = id).
Context (Hsame : w_id w' = w_id w /\ w_key w' = w_key w /\ w_charge w' = w_charge w /\ w_prev w' = w_prev w /\ w_next w' = w_next w).
Context (Hatt : 1 <= w_attempt w') (Hhead : w_delivery w' <> "" -> head (K (w_key w)) = Some r).

#[local] Lemma set_lookup x v : g_store (setWork r w' g) !! x = Some v ->
  (x = r /\ v = w') \/ (x <> r /\ g_store g !! x = Some v).
Proof. cbn. intros [[<- <-]|[Hne Hx]]%lookup_insert_Some; [by left|by right]. Qed.

Lemma setWork_inv : gw_inv (setWork r w' g) K.
Proof.
  destruct Hsame as (E1 & E2 & E3 & E4 & E5). split.
  - by eapply lists_ok_agree; [apply (gi_lanes _ _ I)|exact Hr|..].
  - cbn. intros id' x Hx. destruct (gi_work _ _ I _ _ Hx) as (v & Hv & <- & Hin).
    destruct (decide (x = r)) as [->|Hne]; [|rewrite lookup_insert_ne by done; eauto].
    rewrite lookup_insert_eq. assert (v = w) as -> by congruence. exists w'. by rewrite E1, E2.
  - intros k x v Hin [[-> ->]|[Hne Hv]]%set_lookup; [|by eapply (gi_listed _ _ I)]. cbn. rewrite E1. by eapply (gi_listed _ _ I).
  - intros k x v Hin [[-> ->]|[Hne Hv]]%set_lookup; [|by eapply (gi_item _ _ I)].
    rewrite E1, E2, E3. split; [by eapply (gi_item _ _ I)|done].
  - intros k x v Hin [[-> ->]|[Hne Hv]]%set_lookup Hd; [|by eapply (gi_head _ _ I)].
    destruct (lo_key _ _ _ _ _ _ _ (gi_lanes _ _ I) _ _ Hin) as (u & Hu & <-). assert (u = w) as -> by congruence. auto.
Qed.

Lemma setWork_bytes : workBytes (setWork r w' g) = workBytes g.
Proof.
  destruct Hsame as (_ & _ & E3 & _). unfold workBytes. apply msum_ext. intros id' x Hx. cbn.
  destruct (decide (x = r)) as [->|Hne]; [|by rewrite lookup_insert_ne].
  by rewrite lookup_insert_eq, Hr.
Qed.

Lemma setWork_queue key :
  queue key (setWork r w' g) = (fun j => if bool_decide (j_id j = id) then jobOf w' else j) <$> queue key g.
Proof.
  rewrite (queue_list _ _ _ setWork_inv), (queue_list _ _ _ I).
  assert (Hk : forall x, x ∈ K key -> exists v, g_store g !! x = Some v /\ (w_id v = id <-> x = r)).
  { intros x Hx. destruct (lists_ok_live _ _ _ _ _ _ _ _ _ (gi_lanes _ _ I) Hx) as [v Hv]. exists v. split; [done|].
    pose proof (gi_listed _ _ I _ _ _ Hx Hv) as Hw. split; [intros E; congruence|]. intros ->. congruence. }
  induction (K key) as [|x l IH]; [done|].
  destruct (Hk x) as (v & Hv & Hxr); [by left|].
  assert (IH' := IH (fun y Hy => Hk y (proj2 (elem_of_cons _ _ _) (or_intror Hy)))).
  assert (Ex : jobAt g x = Some (jobOf v)) by (unfold jobAt; by rewrite Hv).
  assert (Ex' : jobAt (setWork r w' g) x = Some (if bool_decide (w_id v = id) then jobOf w' else jobOf v)).
  { unfold jobAt. cbn. destruct (decide (x = r)) as [->|Hne].
    - rewrite lookup_insert_eq, bool_decide_true by (by apply Hxr). done.
    - rewrite lookup_insert_ne, Hv by done. rewrite bool_decide_false by naive_solver. done. }
  change (omap (jobAt (setWork r w' g)) (x :: l)) with
    (match jobAt (setWork r w' g) x with Some y => y :: omap (jobAt (setWork r w' g)) l | None => omap (jobAt (setWork r w' g)) l end).
  change (omap (jobAt g) (x :: l)) with
    (match jobAt g x with Some y => y :: omap (jobAt g) l | None => omap (jobAt g) l end).
  rewrite Ex, Ex'. cbn. f_equal. exact IH'.
Qed.
End Update.

(** [retryGroup]: the job's delivery is forgotten, its attempts grow up to the limit. *)
Definition retried (messageID deliveryID : string) (maxAttempts : Z) (j : job) : job :=
  if bool_decide (j_id j = messageID) && bool_decide (j_delivery j = deliveryID)
  then mkJob (j_id j) (j_expires j) (Z.min (j_attempt j + 1) maxAttempts) "" else j.

Lemma wp_retryWork g K mid did maxAttempts (Q : unit -> groupWorkState -> Prop) :
  gw_inv g K -> 1 <= maxAttempts ->
  (forall g', gw_inv g' K -> workBytes g' = workBytes g -> g_scope g' = g_scope g -> g_charge g' = g_charge g ->
     g_work g' = g_work g -> (forall key, queue key g' = retried mid did maxAttempts <$> queue key g) -> Q tt g') ->
  wp (retryWork mid did maxAttempts) g Q.
Proof.
  intros I Hmax HQ. unfold retryWork. wp_step. apply wp_get.
  assert (Hj : forall key j, j ∈ queue key g -> exists r v, g_work g !! j_id j = Some r /\ g_store g !! r = Some v /\ j = jobOf v).
  { intros key j. rewrite (queue_list _ _ _ I). intros (x & Hx & Hj)%list_elem_of_omap. unfold jobAt in Hj.
    destruct (g_store g !! x) as [v|] eqn:Hv; [|done]. apply (inj Some) in Hj. subst j. exists x, v.
    split; [by eapply (gi_listed _ _ I)|done]. }
  assert (Hsame : (forall key j, j ∈ queue key g -> retried mid did maxAttempts j = j) -> Q tt g).
  { intros H. apply HQ; try done. intros key. specialize (H key). induction (queue key g) as [|j l IH]; [done|].
    cbn. rewrite (H j) by (by left). f_equal. apply IH. intros j' Hj'. apply H. by right. }
  destruct (g_work g !! mid) as [r|] eqn:Hid.
  2:{ apply wp_ret, Hsame. intros key j Hin. destruct (Hj _ _ Hin) as (r & v & Hw & _). unfold retried.
      rewrite bool_decide_false by congruence. done. }
  destruct (gi_work _ _ I _ _ Hid) as (w & Hw & Ew & Hin). wp_step. eapply wp_wderef; [exact Hw|].
  apply wp_when; intros Hb; [apply bool_decide_eq_true in Hb|apply bool_decide_eq_false in Hb].
  - eapply wp_wupdate; [exact Hw|]. set (w' := (w <| w_delivery := "" |>) <| w_attempt := Z.min (w_attempt w + 1) maxAttempts |>).
    change (setf _ g) with (setWork r w' g).
    assert (Hatt : 1 <= w_attempt w') by (destruct (gi_item _ _ I _ _ _ Hin Hw); cbn; lia).
    apply HQ; try done.
    + by eapply setWork_inv.
    + by eapply setWork_bytes.
    + intros key. erewrite setWork_queue; [|exact I|exact Hid|exact Hw|done..]. apply list_fmap_ext. intros i j Hjin%list_elem_of_lookup_2.
      destruct (Hj _ _ Hjin) as (r' & v & Hr' & Hv & ->). unfold retried. cbn.
      destruct (bool_decide_reflect (w_id v = mid)) as [E|E]; [|done]. cbn in Hr'.
      assert (v = w) as -> by congruence. rewrite bool_decide_true by done. done.
  - apply Hsame. intros key j Hjin. destruct (Hj _ _ Hjin) as (r' & v & Hr' & Hv & ->). unfold retried. cbn in *.
    destruct (bool_decide_reflect (w_id v = mid)) as [E|E]; [|done]. assert (v = w) as -> by congruence.
    rewrite bool_decide_false by done. done.
Qed.
