(* ===== verification/GroupWork.v ===== *)
(** * Consumer groups and subscribers

    internal/broker/group_work.go and the subscriber registry of internal/broker/broker.go: which
    subscribers there are, the work indexes of the groups and the memory they are charged, the
    dispatch of a lane's head to the member that the rendezvous hash selects, completion by
    acknowledgement or checkpoint, and the retry of what timed out.  Most operations are one critical
    section of [b.mu]; [deliver], [openStream], [endStream] and [maintenanceTick] are several, one after the
    other. [now] is an operation's reading of the clock, in nanoseconds.  Go ranges over maps in
    an unspecified order; the definitions take the order of [map_to_list]. *)
From S2P Require Import Prelude GoHeap Dll KeyedLists Types Config Metrics GoIO Base64 Checkpoints.
From S2P Require Import Pending GroupIndex.
#[local] Open Scope Z_scope.

(** The fields of [Broker] that groups live in; those of pending deliveries and of checkpoints are
    parts of their own. *)
Record groups := mkGroups {
  gr_dv : deliveries;
  gr_ck : checkpointTable;
  gr_groupWork : gmap checkpointScope groupWorkState;
  gr_groupWorkByTopic : gmap string (gset string);
  gr_groupMemoryBytes : Z;
  gr_streamMemoryBytes : Z;
  gr_groupWake : bool;
  gr_topicBroadcast : gmap string (gmap string loc);
  gr_topicGroups : gmap string (gmap string (gmap string loc));
}.
#[export] Instance groups_settable : Settable groups := fun r => mkGroups (gr_dv r) (gr_ck r)
  (gr_groupWork r) (gr_groupWorkByTopic r) (gr_groupMemoryBytes r) (gr_streamMemoryBytes r)
  (gr_groupWake r) (gr_topicBroadcast r) (gr_topicGroups r).
#[export] Instance set_gr_dv : Setter gr_dv := ltac:(derive_setter).
#[export] Instance set_gr_ck : Setter gr_ck := ltac:(derive_setter).
#[export] Instance set_gr_groupWork : Setter gr_groupWork := ltac:(derive_setter).
#[export] Instance set_gr_groupWorkByTopic : Setter gr_groupWorkByTopic := ltac:(derive_setter).
#[export] Instance set_gr_groupMemoryBytes : Setter gr_groupMemoryBytes := ltac:(derive_setter).
#[export] Instance set_gr_streamMemoryBytes : Setter gr_streamMemoryBytes := ltac:(derive_setter).
#[export] Instance set_gr_groupWake : Setter gr_groupWake := ltac:(derive_setter).
#[export] Instance set_gr_topicBroadcast : Setter gr_topicBroadcast := ltac:(derive_setter).
#[export] Instance set_gr_topicGroups : Setter gr_topicGroups := ltac:(derive_setter).

#[local] Abbreviation BM := (GoM groups).

Definition gr_cfg (b : groups) : Config := dv_cfg (gr_dv b).

(** Calls on the parts. *)
Definition inDeliveries {A} (m : GoM deliveries A) : BM A := gzoom gr_dv (fun d b => b <| gr_dv := d |>) m.
Definition inGroup {A} (scope : checkpointScope) (m : GoM groupWorkState A) : BM A :=
  b <- gget ;;
  g <- glift (gr_groupWork b !! scope) ;;
  x <- glift (m g) ;;
  gmodify (fun b => b <| gr_groupWork := <[scope := x.2]> (gr_groupWork b) |>) ;;;
  gret x.1.
Definition count (proj : Metrics -> Z) `{!Setter proj} : BM unit := inDeliveries (metric proj).

(** ** Memory *)

(** [reserveStreamMemory]: the compare-and-swap loop ends with one successful exchange. *)
Definition reserveStreamMemory (bytes : Z) : BM bool :=
  b <- gget ;;
  let used := gr_streamMemoryBytes b in
  if bool_decide (bytes < 0) || bool_decide (i64 (cfg_StreamMemoryBytes (gr_cfg b) - used) < bytes) then gret false else
  gput (b <| gr_streamMemoryBytes := i64 (used + bytes) |>) ;;;
  gret true.

Definition releaseStreamMemory (bytes : Z) : BM unit :=
  gmodify (fun b => b <| gr_streamMemoryBytes := i64 (gr_streamMemoryBytes b - bytes) |>).

(** ** Group registration and admission of work *)
Definition wakeGroups : BM unit := gmodify (fun b => b <| gr_groupWake := true |>).

Definition registerGroupLocked (topic group : string) : BM bool :=
  let scope := mkScope topic group in
  b <- gget ;;
  if bool_decide (gr_groupWork b !! scope <> None) then gret true else
  if bool_decide (cfg_MaxStreams (gr_cfg b) <= mlen (gr_groupWork b)) then gret false else
  let charge := 1024 + slen topic + slen group in
  if bool_decide (cfg_StreamMemoryBytes (gr_cfg b) - streamMemoryReservation < i64 (gr_groupMemoryBytes b + charge))
  then gret false else
  ok <- reserveStreamMemory charge ;;
  if negb ok then gret false else
  gmodify (fun b => b <| gr_groupMemoryBytes := i64 (gr_groupMemoryBytes b + charge) |>) ;;;
  gmodify (fun b => b <| gr_groupWork := <[scope := newGroup scope charge]> (gr_groupWork b) |>) ;;;
  gmodify (fun b => b <| gr_groupWorkByTopic :=
    <[topic := {[ group ]} ∪ default ∅ (gr_groupWorkByTopic b !! topic)]> (gr_groupWorkByTopic b) |>) ;;;
  gret true.

(** [for _, g := range b.groupWorkByTopic[m.Topic]], past the [onlyGroup] filter. *)
Definition scopesFor (topic onlyGroup : string) (b : groups) : list checkpointScope :=
  mkScope topic <$> filter (fun group => onlyGroup = "" \/ group = onlyGroup)
    (elements (default ∅ (gr_groupWorkByTopic b !! topic))).

(** Whether [m] is still to be indexed for the group. *)
Definition needsWork (scope : checkpointScope) (m : Message) (nowMs : Z) (b : groups) : bool :=
  match gr_groupWork b !! scope with
  | Some g => bool_decide (m_Topic m = cs_topic scope) && bool_decide (g_work g !! m_ID m = None) &&
              negb (checkpointActiveLocked (m_Topic m) (cs_group scope) (m_ID m) nowMs (gr_ck b))
  | None => false
  end.

(** The pairs the two loops of [prepareGroupWork] visit, in order. *)
Definition workPairs (messages : list (option Message)) (onlyGroup : string) (b : groups)
    : list (Message * checkpointScope) :=
  m ← omap id messages; scope ← scopesFor (m_Topic m) onlyGroup b; [(m, scope)].

(** The second loop; the bytes charged. *)
Fixpoint indexPairs (pairs : list (Message * checkpointScope)) (nowMs used : Z) : BM Z :=
  match pairs with
  | [] => gret used
  | (m, scope) :: pairs =>
    b <- gget ;;
    if needsWork scope m nowMs b then
      c <- inGroup scope (appendWork m) ;; indexPairs pairs nowMs (i64 (used + c))
    else indexPairs pairs nowMs used
  end.

Definition prepareGroupWork (messages : list (option Message)) (onlyGroup : string) (nowMs : Z) : BM bool :=
  b <- gget ;;
  let pairs := workPairs messages onlyGroup b in
  let charge := foldl (fun c p => if needsWork p.2 p.1 nowMs b then i64 (c + workCharge p.1) else c) 0 pairs in
  if bool_decide (cfg_StreamMemoryBytes (gr_cfg b) - streamMemoryReservation < i64 (gr_groupMemoryBytes b + charge))
  then gret false else
  ok <- reserveStreamMemory charge ;;
  if negb ok then gret false else
  used <- indexPairs pairs nowMs 0 ;;
  releaseStreamMemory (i64 (charge - used)) ;;;
  gmodify (fun b => b <| gr_groupMemoryBytes := i64 (gr_groupMemoryBytes b + used) |>) ;;;
  gret true.

(** ** Removal and completion *)
Definition removeGroupWorkLocked (scope : checkpointScope) (r : loc) : BM unit :=
  charge <- inGroup scope (removeWork r) ;;
  releaseStreamMemory charge ;;;
  gmodify (fun b => b <| gr_groupMemoryBytes := i64 (gr_groupMemoryBytes b - charge) |>).

Definition completeGroupWorkLocked (topic group id : string) : BM unit :=
  let scope := mkScope topic group in
  b <- gget ;;
  match gr_groupWork b !! scope with
  | Some g => match g_work g !! id with Some r => removeGroupWorkLocked scope r | None => gret tt end
  | None => gret tt
  end ;;;
  wakeGroups.

(** [putCheckpointLocked], with the completion of the group's work that a new checkpoint is. *)
Definition recordCheckpoint (c : groupCheckpoint) (nowMs : Z) : BM unit :=
  b <- gget ;;
  x <- glift (putCheckpointLocked c nowMs (gr_ck b)) ;;
  gput (b <| gr_ck := x.2 |>) ;;;
  gwhen x.1 (completeGroupWorkLocked (gc_Topic c) (gc_Group c) (gc_MessageID c)).

(** [applyCheckpoints] on the broker. *)
Definition acceptCheckpoints (cs : list groupCheckpoint) (nowMs : Z) : BM unit :=
  b <- gget ;;
  gfor cs (fun c =>
    gwhen (bool_decide (gc_ExpiresAt c <= i64 (nowMs + Z.quot (cfg_MaxTTL (gr_cfg b)) Millisecond)))
      (recordCheckpoint c nowMs)).

(** ** Dispatch *)

(** [hashValue]: FNV-1a over the parts, each closed by 0xff. *)
Definition fnvByte (h : Z) (b : byte) : Z := u64 (Z.lxor h (Zbyte b) * 1099511628211).
Definition hashValue (parts : list string) : Z :=
  foldl (fun h s => u64 (Z.lxor (foldl fnvByte h (sbytes s)) 255 * 1099511628211)) 14695981039346656037 parts.

Definition subscriberAffinity (s : subscriber) : string :=
  if bool_decide (s_affinityID s <> "") then s_affinityID s else s_id s.

(** [b.topicGroups[topic][group]] and [b.topicBroadcast[topic]], as lists of pointers. *)
Definition groupMembers (scope : checkpointScope) (b : groups) : list loc :=
  (map_to_list (default ∅ (default ∅ (gr_topicGroups b !! cs_topic scope) !! cs_group scope))).*2.
Definition broadcastMembers (topic : string) (b : groups) : list loc :=
  (map_to_list (default ∅ (gr_topicBroadcast b !! topic))).*2.

Definition subAt (b : groups) (sr : loc) : option subscriber := dv_sstore (gr_dv b) !! sr.

(** The selection loop: the first member with the highest score. *)
Fixpoint selectMember (score : subscriber -> Z) (members : list (loc * subscriber)) (best : option (loc * Z))
    : option (loc * Z) :=
  match members with
  | [] => best
  | (sr, s) :: members =>
    if s_detached s || s_replaying s then selectMember score members best else
    let n := score s in
    selectMember score members
      (match best with
       | None => Some (sr, n)
       | Some (_, top) => if bool_decide (top < n) then Some (sr, n) else best
       end)
  end.

Definition memberScore (topic group key : string) (s : subscriber) : Z :=
  hashValue [topic; group; key; subscriberAffinity s].

(** [dispatchGroupLocked], on the lane of [key]. *)
Definition dispatchGroupLocked (scope : checkpointScope) (key : string) (m : option Message) (now : Z) : BM unit :=
  b <- gget ;;
  g <- glift (gr_groupWork b !! scope) ;;
  lane <- glift (g_lanes g !! key) ;;
  match ln_head lane, m with
  | Some r, Some m =>
    w <- glift (g_store g !! r) ;;
    if bool_decide (w_delivery w <> "") || bool_decide (m_ID m <> w_id w) || bool_decide (w_expires w <= unixMilli now)
    then gret tt else
    members <- glift (mapM (fun sr => s ← subAt b sr; Some (sr, s)) (groupMembers scope b)) ;;
    if existsb (fun x => s_replaying x.2) members then gret tt else
    match selectMember (memberScore (m_Topic m) (cs_group scope) (w_key w)) members None with
    | None => gret tt
    | Some (selected, _) =>
      id <- inDeliveries (sendDeliveryLocked selected m (w_attempt w) false now) ;;
      gwhen (bool_decide (id <> "")) (inGroup scope (wupdate r (fun w => w <| w_delivery := id |>)))
    end
  | _, _ => gret tt
  end.

Definition dispatchGroupMessage (m : Message) (onlyGroup : string) (now : Z) : BM unit :=
  b <- gget ;;
  gfor (scopesFor (m_Topic m) onlyGroup b) (fun scope =>
    b <- gget ;;
    g <- glift (gr_groupWork b !! scope) ;;
    if bool_decide (cs_topic scope = m_Topic m) && bool_decide (g_lanes g !! deliveryAffinity m <> None)
    then dispatchGroupLocked scope (deliveryAffinity m) (Some m) now else gret tt).

(** [retryGroup], after the timed-out delivery [p] has left the pending ones. *)
Definition retryGroup (p : pending) : BM unit :=
  let scope := mkScope (m_Topic (p_message p)) (p_group p) in
  b <- gget ;;
  match gr_groupWork b !! scope with
  | Some _ => inGroup scope (retryWork (m_ID (p_message p)) (p_deliveryID p) (cfg_MaxAttempts (gr_cfg b)))
  | None => gret tt
  end ;;;
  wakeGroups.

(** ** One turn of [groupLoop]; [items] is [b.cache.items]. *)

(** The cleanup of one item: expired, or completed elsewhere. *)
Definition cleanupWork (scope : checkpointScope) (nowMs : Z) (r : loc) : BM unit :=
  b <- gget ;;
  g <- glift (gr_groupWork b !! scope) ;;
  w <- glift (g_store g !! r) ;;
  if bool_decide (w_expires w <= nowMs) then
    count mt_GroupExpired ;;; removeGroupWorkLocked scope r
  else
    gwhen (checkpointActiveLocked (cs_topic scope) (cs_group scope) (w_id w) nowMs (gr_ck b))
      (removeGroupWorkLocked scope r).

(** [for lane.head != nil && lane.head.expires <= now]; a lane that has become empty is gone. *)
Fixpoint expireHeads (fuel : nat) (scope : checkpointScope) (key : string) (nowMs : Z) : BM unit :=
  match fuel with
  | O => gpanic
  | S fuel =>
    b <- gget ;;
    g <- glift (gr_groupWork b !! scope) ;;
    match g_lanes g !! key ≫= ln_head with
    | None => gret tt
    | Some r =>
      w <- glift (g_store g !! r) ;;
      if bool_decide (w_expires w <= nowMs) then
        count mt_GroupExpired ;;; removeGroupWorkLocked scope r ;;; expireHeads fuel scope key nowMs
      else gret tt
    end
  end.

Definition serveLane (items : string -> option Message) (scope : checkpointScope) (key : string) (now : Z) : BM unit :=
  b <- gget ;;
  g <- glift (gr_groupWork b !! scope) ;;
  expireHeads (S (size (g_work g))) scope key (unixMilli now) ;;;
  b <- gget ;;
  g <- glift (gr_groupWork b !! scope) ;;
  match g_lanes g !! key ≫= ln_head with
  | None => gret tt
  | Some r =>
    w <- glift (g_store g !! r) ;;
    dispatchGroupLocked scope key (items (w_id w)) now
  end.

(** A group without work and without members is forgotten. *)
Definition forgetGroup (scope : checkpointScope) : BM unit :=
  b <- gget ;;
  g <- glift (gr_groupWork b !! scope) ;;
  gwhen (bool_decide (g_work g = ∅) && bool_decide (groupMembers scope b = []))
    (gmodify (fun b => b <| gr_groupWork := delete scope (gr_groupWork b) |>) ;;;
     gmodify (fun b =>
       let names := default ∅ (gr_groupWorkByTopic b !! cs_topic scope) ∖ {[ cs_group scope ]} in
       b <| gr_groupWorkByTopic := if bool_decide (names = ∅) then delete (cs_topic scope) (gr_groupWorkByTopic b)
                                   else <[cs_topic scope := names]> (gr_groupWorkByTopic b) |>) ;;;
     releaseStreamMemory (g_charge g) ;;;
     gmodify (fun b => b <| gr_groupMemoryBytes := i64 (gr_groupMemoryBytes b - g_charge g) |>)).

(** The body of the loop over the groups. *)
Definition turnGroup (cleanup : bool) (items : string -> option Message) (now : Z) (scope : checkpointScope) : BM unit :=
  b <- gget ;;
  g <- glift (gr_groupWork b !! scope) ;;
  gwhen cleanup (gfor (map_to_list (g_work g)).*2 (cleanupWork scope (unixMilli now))) ;;;
  b <- gget ;;
  g <- glift (gr_groupWork b !! scope) ;;
  gfor (map_to_list (g_lanes g)).*1 (fun key => serveLane items scope key now) ;;;
  forgetGroup scope.

(** [woken]: the turn was started by the wake-up channel rather than by the ticker. *)
Definition groupTick (woken cleanup : bool) (items : string -> option Message) (now : Z) : BM unit :=
  gwhen woken (gmodify (fun b => b <| gr_groupWake := false |>)) ;;;
  b <- gget ;;
  gfor (map_to_list (gr_groupWork b)).*1 (turnGroup cleanup items now).

(** ** Subscribers *)

(** [addSubscriberLocked]. The subscriber is local to its stream until here, so this is where the
    model gives it a location. *)
Definition addSubscriberLocked (s : subscriber) : BM loc :=
  (if bool_decide (s_group s <> "") then registerGroupLocked (s_topic s) (s_group s) else gret true) ;;;
  b <- gget ;;
  let sr := fresh (dom (dv_sstore (gr_dv b))) in
  inDeliveries (gmodify (fun d => (d <| dv_sstore := <[sr := s]> (dv_sstore d) |>)
                                    <| dv_subs := <[s_id s := sr]> (dv_subs d) |>)) ;;;
  gmodify (fun b =>
    if bool_decide (s_group s = "") then
      b <| gr_topicBroadcast :=
        <[s_topic s := <[s_id s := sr]> (default ∅ (gr_topicBroadcast b !! s_topic s))]> (gr_topicBroadcast b) |>
    else
      let topic := default ∅ (gr_topicGroups b !! s_topic s) in
      b <| gr_topicGroups :=
        <[s_topic s := <[s_group s := <[s_id s := sr]> (default ∅ (topic !! s_group s))]> topic]> (gr_topicGroups b) |>) ;;;
  gret sr.

Definition removeSubscriberLocked (sr : loc) : BM unit :=
  inDeliveries (supdate sr (fun s => s <| s_detached := true |>)) ;;;
  s <- inDeliveries (sderef sr) ;;
  inDeliveries (gmodify (fun d => d <| dv_subs := delete (s_id s) (dv_subs d) |>)) ;;;
  gmodify (fun b =>
    if bool_decide (s_group s = "") then
      match gr_topicBroadcast b !! s_topic s with
      | None => b
      | Some members =>
        let members := delete (s_id s) members in
        b <| gr_topicBroadcast := if bool_decide (members = ∅) then delete (s_topic s) (gr_topicBroadcast b)
                                  else <[s_topic s := members]> (gr_topicBroadcast b) |>
      end
    else
      match gr_topicGroups b !! s_topic s with
      | None => b
      | Some topic =>
        let members := delete (s_id s) (default ∅ (topic !! s_group s)) in
        let topic := if bool_decide (members = ∅) then delete (s_group s) topic else <[s_group s := members]> topic in
        b <| gr_topicGroups := if bool_decide (topic = ∅) then delete (s_topic s) (gr_topicGroups b)
                               else <[s_topic s := topic]> (gr_topicGroups b) |>
      end).

(** [fenceAffinityMemberLocked]: an earlier stream of the same member gives way to [s]. *)
Definition fenceAffinityMemberLocked (s : subscriber) : BM unit :=
  gwhen (bool_decide (s_group s <> "") && bool_decide (s_affinityID s <> ""))
    (b <- gget ;;
     gfor (groupMembers (mkScope (s_topic s) (s_group s)) b) (fun er =>
       existing <- inDeliveries (sderef er) ;;
       gwhen (bool_decide (s_affinityID existing = s_affinityID s))
         (inDeliveries (supdate er (fun s => s <| s_replaying := false |>)) ;;;
          inDeliveries (supdate er (fun s => s <| s_cancel := if s_cancel s then Some true else None |>)) ;;;
          removeSubscriberLocked er))).

(** The bytes of the index of a broadcast replay. *)
Definition streamIndexBytes (messages : list (option Message)) : Z :=
  foldl (fun n m => match m with Some m => i64 (n + slen (m_ID m)) | None => n end)
    (i64 (llen messages * 16)) messages.

(** The opening of [stream], from the memory reservation to the registration, once the parameters and
    the cursor are accepted: the subscriber and its reservation, or the error code. [messages] is
    [b.cache.topics[topic]]. Every failure gives the reservation back. *)
Definition joinStream (id topic group member : string) (messages : list (option Message)) (draining : bool)
    (nowMs : Z) : BM (string + loc * Z) :=
  let refuse code := releaseStreamMemory streamMemoryReservation ;;; gret (inl code) in
  if draining then refuse "broker_draining" else
  registered <- (if bool_decide (group <> "") then registerGroupLocked topic group else gret true) ;;
  if negb registered then refuse "group_memory_capacity" else
  prepared <- (if bool_decide (group <> "") then prepareGroupWork messages "" nowMs else gret true) ;;
  if negb prepared then refuse "group_memory_capacity" else
  let indexBytes := if bool_decide (group = "") then streamIndexBytes messages else 0 in
  indexed <- (if bool_decide (group = "") then reserveStreamMemory indexBytes else gret true) ;;
  if negb indexed then refuse "replay_memory_capacity" else
  let s := mkSubscriber id topic group member [] 0 (Some false) false (bool_decide (group = "")) [] in
  fenceAffinityMemberLocked s ;;;
  sr <- addSubscriberLocked s ;;
  wakeGroups ;;;
  gret (inr (sr, i64 (streamMemoryReservation + indexBytes))).

(** With what precedes it: the reservation and the identifier. *)
Definition openStream (topic group member : string) (messages : list (option Message)) (draining : bool)
    (nowMs : Z) : BM (string + loc * Z) :=
  ok <- reserveStreamMemory streamMemoryReservation ;;
  if negb ok then gret (inl "stream_memory_capacity") else
  id <- inDeliveries nextID ;;
  joinStream id topic group member messages draining nowMs.

(** The end of [stream]: its deferred functions, in their order. *)
Definition endStream (sr : loc) (reservedMemory now : Z) : BM unit :=
  removeSubscriberLocked sr ;;;
  s <- inDeliveries (sderef sr) ;;
  inDeliveries (makeSubscriberDue (s_id s) now) ;;;
  releaseStreamMemory reservedMemory.

(** The end of a replay: nothing deferred any more, or the messages deferred meanwhile. *)
Definition takeDeferred (sr : loc) : BM (list string) :=
  s <- inDeliveries (sderef sr) ;;
  inDeliveries (supdate sr (fun s => s <| s_deferred := [] |>)) ;;;
  gwhen (bool_decide (s_deferred s = []))
    (inDeliveries (supdate sr (fun s => s <| s_replaying := false |>))) ;;;
  gret (s_deferred s).

(** [case d := <-s.ch] *)
Definition receiveDelivery (sr : loc) : BM (option Delivery) :=
  s <- inDeliveries (sderef sr) ;;
  match s_ch s with
  | [] => gret None
  | d :: ch => inDeliveries (supdate sr (fun s => s <| s_ch := ch |>)) ;;; gret (Some d)
  end.

(** ** Delivery *)
Definition maxDeferred : Z := 256.

(** The loop of [deliver] over the broadcast subscribers: a replaying one defers the message or, with too
    much deferred, is cancelled; the others are candidates. *)
Definition offerBroadcast (m : Message) (sr : loc) : BM bool :=
  s <- inDeliveries (sderef sr) ;;
  if s_replaying s then
    (if bool_decide (maxDeferred <= llen (s_deferred s))
     then _ <- glift (s_cancel s) ;; inDeliveries (supdate sr (fun s => s <| s_cancel := Some true |>))
     else inDeliveries (supdate sr (fun s => s <| s_deferred := s_deferred s ++ [m_ID m] |>))) ;;;
    gret false
  else gret true.

(** The third critical section of [deliver]: its candidates. *)
Definition offerCandidates (m : Message) (onlyGroup : string) : BM (list loc) :=
  b <- gget ;;
  if bool_decide (default ∅ (gr_topicBroadcast b !! m_Topic m) = ∅) &&
     bool_decide (default ∅ (gr_topicGroups b !! m_Topic m) = ∅) then gret [] else
  if bool_decide (onlyGroup = "") then gfilter (offerBroadcast m) (broadcastMembers (m_Topic m) b) else gret [].

Definition deliver (m : Message) (onlyGroup : string) (attempt now : Z) : BM unit :=
  prepareGroupWork [Some m] onlyGroup (unixMilli now) ;;;
  dispatchGroupMessage m onlyGroup now ;;;
  candidates <- offerCandidates m onlyGroup ;;
  gfor candidates (fun sr => inDeliveries (sendDelivery sr m attempt now) ;;; gret tt).

(** ** Acknowledgement *)
Definition checkpointFor (p : pending) : groupCheckpoint :=
  mkCheckpoint (m_Topic (p_message p)) (p_group p) (m_ID (p_message p)) (p_expiresAt p).

Definition checkpointsForAcks (ids : list string) (b : groups) : list groupCheckpoint :=
  omap (fun id => r ← dv_pending (gr_dv b) !! id; p ← dv_pstore (gr_dv b) !! r;
    if bool_decide (p_group p <> "") then Some (checkpointFor p) else None) ids.

Fixpoint removeAcks (ids : list string) (now : Z) : BM (list groupCheckpoint) :=
  match ids with
  | [] => gret []
  | id :: ids =>
    b <- gget ;;
    match dv_pending (gr_dv b) !! id with
    | None => removeAcks ids now
    | Some r =>
      p <- inDeliveries (pderef r) ;;
      gwhen (bool_decide (p_group p <> "")) (recordCheckpoint (checkpointFor p) (unixMilli now)) ;;;
      inDeliveries (removeAcked id r now) ;;;
      checkpoints <- removeAcks ids now ;;
      gret (if bool_decide (p_group p <> "") then checkpointFor p :: checkpoints else checkpoints)
    end
  end.

(** ** The periodic pass over the deadlines *)

(** The retry of one delivery that has left the indexes. (The second test for a group in the source,
    after the increment of the attempts, is never taken.) *)
Definition retryPending (r : loc) (now : Z) : BM unit :=
  p <- inDeliveries (pderef r) ;;
  b <- gget ;;
  (if bool_decide (p_group p <> "") then
     retryGroup p ;;; count mt_Redelivered
   else if bool_decide (cfg_MaxAttempts (gr_cfg b) <= p_attempt p) then count mt_Dropped else
     inDeliveries (pupdate r (fun p => p <| p_attempt := p_attempt p + 1 |>)) ;;;
     count mt_Redelivered ;;;
     if bool_decide (p_expiresAt p <= unixMilli now) then count mt_Dropped else
     b <- gget ;;
     match dv_subs (gr_dv b) !! p_subscriberID p with
     | Some sr => inDeliveries (sendDelivery sr (p_message p) (p_attempt p + 1) now) ;;; gret tt
     | None => count mt_Dropped
     end) ;;;
  inDeliveries (releasePending r).

(** The deadline part of [maintenance], after [b.cache.expire]. *)
Definition maintenanceTick (now : Z) : BM unit :=
  gmodify (fun b => b <| gr_ck := compactCheckpointsLocked (unixMilli now) (gr_ck b) |>) ;;;
  b <- gget ;;
  retry <- inDeliveries (popDue (S (length (dv_deadlines (gr_dv b)))) now) ;;
  gfor retry (fun r => retryPending r now).
