(* ===== verification/GroupInv.v ===== *)
(** * Consumer groups: the invariant

    What every operation of GroupWork.v keeps: each group's index is well formed, the two maps of
    groups agree, the memory counters are the sums of what the indexes are charged and stay within
    the stream memory budget, and the member tables hold attached subscribers only. *)
From S2P Require Import Prelude GoHeap Dll KeyedLists Types Config Metrics GoIO Base64 Checkpoints.
From S2P Require Import Pending PendingInv Deliveries GroupIndex GroupWork.
#[local] Open Scope Z_scope.

Definition groupBytes (g : groupWorkState) : Z := g_charge g + workBytes g.
Definition groupTotal (m : gmap checkpointScope groupWorkState) : Z := msum (fun _ g => groupBytes g) m.

(** One group's index. *)
Definition group_ok (scope : checkpointScope) (g : groupWorkState) : Prop :=
  (exists K, gw_inv g K) /\ g_scope g = scope /\ g_charge g = 1024 + slen (cs_topic scope) + slen (cs_group scope).

Definition membersOf (topic group : string) (b : groups) : gmap string loc :=
  default ∅ (default ∅ (gr_topicGroups b !! topic) !! group).

Definition attached (d : deliveries) (topic group sid : string) (sr : loc) : Prop :=
  exists s, dv_sstore d !! sr = Some s /\ s_id s = sid /\ s_topic s = topic /\ s_group s = group /\
    s_detached s = false.

(** The groups and their memory. *)
Record mem_ok (b : groups) : Prop := {
  mo_index : forall scope g, gr_groupWork b !! scope = Some g -> group_ok scope g;
  mo_topic : forall topic group,
    group ∈ default ∅ (gr_groupWorkByTopic b !! topic) <-> is_Some (gr_groupWork b !! mkScope topic group);
  mo_bytes : gr_groupMemoryBytes b = groupTotal (gr_groupWork b);
  mo_room : gr_groupMemoryBytes b <= cfg_StreamMemoryBytes (gr_cfg b) - streamMemoryReservation;
  mo_stream : gr_groupMemoryBytes b <= gr_streamMemoryBytes b <= cfg_StreamMemoryBytes (gr_cfg b);
  mo_limit : streamMemoryReservation <= cfg_StreamMemoryBytes (gr_cfg b) < 2 ^ 62;
}.

(** The subscribers and the rest. *)
Record ginv (b : groups) : Prop := {
  gn_mem : mem_ok b;
  gn_pend : pend_ok (gr_dv b);
  gn_ck : table_ok (gr_ck b);
  gn_members : forall topic group sid sr, membersOf topic group b !! sid = Some sr ->
    group <> "" /\ attached (gr_dv b) topic group sid sr;
  gn_broadcast : forall topic sid sr, default ∅ (gr_topicBroadcast b !! topic) !! sid = Some sr ->
    attached (gr_dv b) topic "" sid sr;
  gn_attempts : 1 <= cfg_MaxAttempts (gr_cfg b);
  gn_cancel : forall sr s, dv_sstore (gr_dv b) !! sr = Some s -> s_cancel s <> None;
}.

(** ** Rules for the calls on the parts *)
Lemma wp_inDeliveries {A} (m : GoM deliveries A) b (Q : A -> groups -> Prop) :
  wp m (gr_dv b) (fun x d => Q x (b <| gr_dv := d |>)) -> wp (inDeliveries m) b Q.
Proof. intros H. unfold inDeliveries. by apply wp_zoom. Qed.

Lemma wp_inGroup {A} scope g (m : GoM groupWorkState A) b (Q : A -> groups -> Prop) :
  gr_groupWork b !! scope = Some g ->
  wp m g (fun x g' => Q x (b <| gr_groupWork := <[scope := g']> (gr_groupWork b) |>)) ->
  wp (inGroup scope m) b Q.
Proof.
  intros Hg H. apply wp_elim in H as (x & g' & E & H). unfold inGroup. wp_step. apply wp_get.
  wp_step. eapply wp_lift; [exact Hg|]. wp_step. eapply wp_lift; [exact E|].
  wp_step. apply wp_modify. by apply wp_ret.
Qed.

(** ** Sums *)
Lemma groupBytes_nonneg scope g : group_ok scope g -> 1024 <= groupBytes g.
Proof.
  intros ([K I] & _ & E). unfold groupBytes. rewrite E. pose proof (workBytes_nonneg _ _ I).
  pose proof (slen_nonneg (cs_topic scope)). pose proof (slen_nonneg (cs_group scope)). lia.
Qed.

Lemma groupTotal_nonneg b : mem_ok b -> 0 <= groupTotal (gr_groupWork b).
Proof. intros M. apply msum_nonneg. intros scope g Hg. pose proof (groupBytes_nonneg _ _ (mo_index _ M _ _ Hg)). lia. Qed.

Lemma groupTotal_ge b scope g : mem_ok b -> gr_groupWork b !! scope = Some g ->
  groupBytes g <= gr_groupMemoryBytes b.
Proof.
  intros M Hg. rewrite (mo_bytes _ M). apply (msum_le_elem (fun _ g => groupBytes g) _ scope); [|done].
  intros scope' g' Hg'. pose proof (groupBytes_nonneg _ _ (mo_index _ M _ _ Hg')). lia.
Qed.

Lemma groupTotal_set m scope g g' : m !! scope = Some g ->
  groupTotal (<[scope := g']> m) = groupTotal m - groupBytes g + groupBytes g'.
Proof. apply (msum_update (fun _ g => groupBytes g)). Qed.

(** A group changes within the memory counters. *)
Lemma mem_ok_set b scope g g' used :
  mem_ok b -> gr_groupWork b !! scope = Some g -> group_ok scope g' ->
  forall b', b' = ((b <| gr_groupWork := <[scope := g']> (gr_groupWork b) |>)
      <| gr_groupMemoryBytes := gr_groupMemoryBytes b + (groupBytes g' - groupBytes g) |>)
      <| gr_streamMemoryBytes := gr_streamMemoryBytes b + used |> ->
  groupBytes g' - groupBytes g <= used ->
  gr_groupMemoryBytes b + (groupBytes g' - groupBytes g) <= cfg_StreamMemoryBytes (gr_cfg b) - streamMemoryReservation ->
  gr_streamMemoryBytes b + used <= cfg_StreamMemoryBytes (gr_cfg b) ->
  mem_ok b'.
Proof.
  intros M Hg Hg' b' -> Hused Hroom Hstream. destruct M as [M1 M2 M3 M4 M5 M6].
  split; change (gr_cfg (setf _ _)) with (gr_cfg b); cbn; try done.
  - intros scope' g1 [[<- <-]|[_ H]]%lookup_insert_Some; [done|by apply M1].
  - intros topic group. rewrite M2. destruct (decide (mkScope topic group = scope)) as [->|Hne].
    + rewrite lookup_insert_eq, Hg. split; eauto.
    + by rewrite lookup_insert_ne.
  - rewrite (groupTotal_set _ _ _ _ Hg), M3. lia.
  - lia.
Qed.

(** The stream memory that is not the groups': the reservations of the open streams. *)
Definition slack (b : groups) : Z := gr_streamMemoryBytes b - gr_groupMemoryBytes b.

(** Everything a group operation leaves alone. *)
Definition sameRest (b b' : groups) : Prop :=
  gr_dv b' = gr_dv b /\ gr_ck b' = gr_ck b /\ gr_groupWorkByTopic b' = gr_groupWorkByTopic b /\
  gr_topicBroadcast b' = gr_topicBroadcast b /\ gr_topicGroups b' = gr_topicGroups b /\ slack b' = slack b.

#[export] Instance sameRest_refl : Reflexive sameRest.
Proof. by intros b. Qed.
#[export] Instance sameRest_trans : Transitive sameRest.
Proof. intros a b c (? & ? & ? & ? & ? & ?) (? & ? & ? & ? & ? & ?). unfold sameRest. split_and!; congruence. Qed.

(** ** Removal *)
Record dropped (b : groups) (scope : checkpointScope) (id : string) (b' : groups) : Prop := {
  dp_rest : sameRest b b';
  dp_other : forall s, s <> scope -> gr_groupWork b' !! s = gr_groupWork b !! s;
  dp_group : forall g, gr_groupWork b !! scope = Some g ->
    exists g', gr_groupWork b' !! scope = Some g' /\ worked g id g';
  dp_bytes : gr_groupMemoryBytes b' <= gr_groupMemoryBytes b;
}.

Lemma wp_removeGroupWork b scope g id r (Q : unit -> groups -> Prop) :
  mem_ok b -> gr_groupWork b !! scope = Some g -> g_work g !! id = Some r ->
  (forall b', mem_ok b' -> dropped b scope id b' -> Q tt b') ->
  wp (removeGroupWorkLocked scope r) b Q.
Proof.
  intros M Hg Hid HQ. pose proof (mo_index _ M _ _ Hg) as ([K I] & Es & Ec).
  destruct (gi_work _ _ I _ _ Hid) as (w & Hw & Ew & Hin). unfold removeGroupWorkLocked.
  wp_step. eapply wp_inGroup; [exact Hg|]. eapply wp_removeWork; [exact I|exact Hid|exact Hw|].
  intros g' I' W Hb. unfold releaseStreamMemory. wp_step. apply wp_modify. apply wp_modify.
  assert (Hg' : group_ok scope g') by (split; [eauto|]; by rewrite (wk_scope _ _ _ W), (wk_charge _ _ _ W)).
  pose proof (groupBytes_nonneg _ _ Hg') as Hg0. pose proof (groupTotal_ge _ _ _ M Hg) as Hge.
  assert (Ed : groupBytes g' - groupBytes g = - w_charge w) by (unfold groupBytes; rewrite (wk_charge _ _ _ W), Hb; lia).
  destruct (gi_item _ _ I _ _ _ Hin Hw) as [Ewc _]. pose proof (slen_nonneg (w_id w)). pose proof (slen_nonneg (w_key w)).
  pose proof (mo_limit _ M). pose proof (mo_stream _ M). pose proof (mo_room _ M).
  pose proof (groupTotal_nonneg _ M) as Hnn. rewrite <- (mo_bytes _ M) in Hnn.
  cbn [gr_groupMemoryBytes gr_streamMemoryBytes]. apply HQ.
  - eapply (mem_ok_set b scope g g' (- w_charge w) M Hg Hg'); [|lia..]. rewrite Ed.
    cbn. i64s. f_equal; lia.
  - split; [split_and!; try done; unfold slack; cbn; i64s; lia|..].
    + intros s Hne. cbn. by rewrite lookup_insert_ne.
    + intros g1 Hg1. assert (g1 = g) as -> by congruence. exists g'. cbn. by rewrite lookup_insert_eq.
    + cbn. i64s. lia.
Qed.

(** The queues of the groups. *)
Definition queueOf (b : groups) (scope : checkpointScope) (key : string) : list job :=
  match gr_groupWork b !! scope with Some g => queue key g | None => [] end.

(** Whether the group still has [id] to process. *)
Definition hasWork (b : groups) (scope : checkpointScope) (id : string) : Prop :=
  exists g, gr_groupWork b !! scope = Some g /\ is_Some (g_work g !! id).

(** [completeGroupWorkLocked]: the message leaves the group's queues, and nothing else does. *)
Record completed (b : groups) (scope : checkpointScope) (id : string) (b' : groups) : Prop := {
  co_rest : sameRest b b';
  co_groups : forall s, is_Some (gr_groupWork b' !! s) <-> is_Some (gr_groupWork b !! s);
  co_work : forall s i, hasWork b' s i <-> hasWork b s i /\ (s <> scope \/ i <> id);
  co_queue : forall s key, queueOf b' s key =
    if decide (s = scope) then filter (fun j => j_id j <> id) (queueOf b s key) else queueOf b s key;
}.

Lemma dropped_completed b scope id b' g :
  gr_groupWork b !! scope = Some g -> dropped b scope id b' -> completed b scope id b'.
Proof.
  intros Hg [Hr Ho Hgr _]. destruct (Hgr _ Hg) as (g' & Hg' & W). split; [done|..].
  - intros s. destruct (decide (s = scope)) as [->|Hne]; [|by rewrite Ho]. rewrite Hg, Hg'. split; eauto.
  - intros s i. unfold hasWork. destruct (decide (s = scope)) as [->|Hne].
    + rewrite Hg, Hg'. split.
      * intros (g1 & [= <-] & Hi). rewrite (wk_work _ _ _ W), lookup_delete_is_Some in Hi. naive_solver.
      * intros [(g1 & [= <-] & Hi) [?|Hi']]; [done|]. exists g'. split; [done|].
        rewrite (wk_work _ _ _ W), lookup_delete_ne by done. done.
    + rewrite Ho by done. naive_solver.
  - intros s key. unfold queueOf. destruct (decide (s = scope)) as [->|Hne]; [|by rewrite Ho].
    rewrite Hg, Hg'. apply (wk_queue _ _ _ W).
Qed.

(** Nothing to do: the message is in no queue of the group. *)
Lemma completed_refl b scope id : mem_ok b -> ~ hasWork b scope id -> completed b scope id b.
Proof.
  intros M Hn. split; [reflexivity|done|..].
  - intros s i. split; [|by intros [? _]]. intros Hi. split; [done|]. destruct (decide (s = scope)) as [->|]; [|by left].
    right. by intros ->.
  - intros s key. case_decide as Es; [|done]. subst s. symmetry. unfold queueOf.
    destruct (gr_groupWork b !! scope) as [g|] eqn:Hg; [|done]. apply filter_all, Forall_forall. intros j Hj Ej.
    apply Hn. exists g. split; [done|]. destruct (mo_index _ M _ _ Hg) as ([K I] & _).
    rewrite (queue_list _ _ _ I) in Hj. apply list_elem_of_omap in Hj as (r & Hr & Hj). unfold jobAt in Hj.
    destruct (g_store g !! r) as [w|] eqn:Hw; [|done]. apply (inj Some) in Hj. subst j.
    rewrite <- Ej. exists r. by eapply (gi_listed _ _ I).
Qed.

Definition wakened (b : groups) : groups := b <| gr_groupWake := true |>.
Lemma mem_ok_wake b : mem_ok b -> mem_ok (wakened b).
Proof. by intros []. Qed.
Lemma completed_wake b scope id b' : completed b scope id b' -> completed b scope id (wakened b').
Proof. by intros []. Qed.

Lemma wp_completeGroupWork b topic group id (Q : unit -> groups -> Prop) :
  mem_ok b -> (forall b', mem_ok b' -> completed b (mkScope topic group) id b' -> Q tt b') ->
  wp (completeGroupWorkLocked topic group id) b Q.
Proof.
  intros M HQ. unfold completeGroupWorkLocked, wakeGroups. wp_step. apply wp_get. cbv zeta.
  assert (Hnone : ~ hasWork b (mkScope topic group) id -> wp (gmodify (fun b => b <| gr_groupWake := true |>)) b Q).
  { intros Hn. apply wp_modify. apply HQ; [by apply mem_ok_wake|]. by apply completed_wake, completed_refl. }
  wp_step. destruct (gr_groupWork b !! mkScope topic group) as [g|] eqn:Hg.
  2:{ apply wp_ret, Hnone. intros (g & Hg' & _). congruence. }
  destruct (g_work g !! id) as [r|] eqn:Hid.
  2:{ apply wp_ret, Hnone. intros (g' & Hg' & [x Hx]). congruence. }
  eapply wp_removeGroupWork; [done..|]. intros b' M' Hd. apply wp_modify. apply HQ; [by apply mem_ok_wake|].
  apply completed_wake. by eapply dropped_completed.
Qed.

(** ** Checkpoints *)
Lemma ginv_rest b b' : ginv b -> mem_ok b' -> table_ok (gr_ck b') -> gr_dv b' = gr_dv b ->
  gr_topicBroadcast b' = gr_topicBroadcast b -> gr_topicGroups b' = gr_topicGroups b -> ginv b'.
Proof.
  intros [_ G2 _ G4 G5 G6 G7] M T E1 E2 E3. split; unfold gr_cfg, membersOf in *; rewrite ?E1, ?E2, ?E3; done.
Qed.

Definition checkpointed (b : groups) (c : groupCheckpoint) (nowMs : Z) (b' : groups) : Prop :=
  exists recorded t, putCheckpointLocked c nowMs (gr_ck b) = Some (recorded, t) /\
    if recorded : bool then completed (b <| gr_ck := t |>) (scopeOf c) (gc_MessageID c) b'
    else b' = b <| gr_ck := t |>.

Lemma mem_ok_ck b t : mem_ok b -> mem_ok (b <| gr_ck := t |>).
Proof. by intros []. Qed.

Lemma wp_recordCheckpoint b c nowMs (Q : unit -> groups -> Prop) :
  ginv b -> 0 <= nowMs -> (forall b', ginv b' -> checkpointed b c nowMs b' -> Q tt b') ->
  wp (recordCheckpoint c nowMs) b Q.
Proof.
  intros G Hnow HQ. unfold recordCheckpoint. wp_step. apply wp_get.
  destruct (put_spec c nowMs _ (gn_ck _ G) Hnow) as (rec & t & E & Ht & _).
  wp_step. eapply wp_lift; [exact E|]. wp_step. apply wp_put. cbn [fst snd].
  set (b1 := b <| gr_ck := t |>). assert (M1 : mem_ok b1) by (apply mem_ok_ck, gn_mem, G).
  apply wp_when; intros Er.
  - subst rec. eapply wp_completeGroupWork; [exact M1|]. intros b' M' Hc. apply HQ.
    + destruct (co_rest _ _ _ _ Hc) as (E1 & E2 & _ & E4 & E5 & _).
      eapply ginv_rest; [exact G|exact M'|rewrite E2; exact Ht|rewrite E1; done|rewrite E4; done|rewrite E5; done].
    + exists true, t. by split.
  - subst rec. apply HQ; [by eapply ginv_rest|]. exists false, t. by split.
Qed.

(** What checkpoints leave alone, and that work only shrinks. *)
Record shrunk (b b' : groups) : Prop := {
  sh_dv : gr_dv b' = gr_dv b;
  sh_members : gr_topicBroadcast b' = gr_topicBroadcast b /\ gr_topicGroups b' = gr_topicGroups b;
  sh_topic : gr_groupWorkByTopic b' = gr_groupWorkByTopic b;
  sh_slack : slack b' = slack b;
  sh_work : forall s i, hasWork b' s i -> hasWork b s i;
}.
#[export] Instance shrunk_refl : Reflexive shrunk.
Proof. intros b. by split. Qed.
#[export] Instance shrunk_trans : Transitive shrunk.
Proof.
  intros a b c [A1 [A2 A3] A4 A5 A6] [B1 [B2 B3] B4 B5 B6].
  split; [congruence|split; congruence|congruence|congruence|auto].
Qed.

Lemma checkpointed_shrunk b c nowMs b' : checkpointed b c nowMs b' -> shrunk b b'.
Proof.
  intros (rec & t & _ & H). destruct rec; [|by subst b'].
  destruct (co_rest _ _ _ _ H) as (? & ? & ? & ? & ? & ?). split; [done|done|done|done|].
  intros s i Hi. by apply (co_work _ _ _ _ H) in Hi as [Hi _].
Qed.

Lemma checkpointed_done b c nowMs b' : ginv b -> 0 <= nowMs -> nowMs < gc_ExpiresAt c -> checkpointed b c nowMs b' ->
  checkpointActiveLocked (gc_Topic c) (gc_Group c) (gc_MessageID c) nowMs (gr_ck b') = true /\
  (default 0 (expOf (gr_ck b) c) < gc_ExpiresAt c -> ~ hasWork b' (scopeOf c) (gc_MessageID c)).
Proof.
  intros G Hn Hexp (rec & t & E & H).
  destruct (put_spec c nowMs _ (gn_ck _ G) Hn) as (rec2 & t2 & E2 & _ & _ & Er & Hsame & Hnew & _).
  rewrite E in E2. apply (inj Some) in E2. apply pair_equal_spec in E2 as [<- <-].
  rewrite (bool_decide_true (nowMs < _)) in Er by done. cbn in Er.
  assert (Ect : gr_ck b' = t) by (destruct rec; [by destruct (co_rest _ _ _ _ H) as (_ & -> & _)|by subst b']).
  split.
  - rewrite Ect. unfold checkpointActiveLocked. apply bool_decide_true. rewrite expiryOf_lookup. fold (scopeOf c). fold (expOf t c).
    destruct rec; [rewrite Hnew by done; cbn; lia|]. rewrite Hsame by done. symmetry in Er. apply bool_decide_eq_false in Er. lia.
  - intros Hlt. rewrite bool_decide_true in Er by done. subst rec. rewrite (co_work _ _ _ _ H). naive_solver.
Qed.

Lemma ginv_dv b d : ginv b -> pend_ok d -> registryKept (gr_dv b) d -> ginv (b <| gr_dv := d |>).
Proof.
  intros [M _ T G4 G5 G6 G7] Hd Hreg. pose proof Hreg as (Ec & _).
  assert (Ecfg : gr_cfg (b <| gr_dv := d |>) = gr_cfg b) by (unfold gr_cfg; cbn; done).
  assert (Hatt : forall topic group sid sr, attached (gr_dv b) topic group sid sr -> attached d topic group sid sr).
  { intros topic group sid sr (s & Hsr & E1 & E2 & E3 & E4). destruct (registry_lookup _ _ _ _ Hreg Hsr) as (s' & ? & F1 & F2 & F3 & _ & F4 & _).
    exists s'. split; [done|]. by rewrite F1, F2, F3, F4. }
  split; rewrite ?Ecfg; try done.
  - destruct M as [M1 M2 M3 M4 M5 M6]. by split; rewrite ?Ecfg.
  - intros topic group sid sr H. destruct (G4 _ _ _ _ H) as [? ?]. split; [done|]. by apply Hatt.
  - intros topic sid sr H. by apply Hatt, (G5 _ _ _ H).
  - cbn. intros sr s Hs. destruct (agree_lookup _ _ _ _ _ (symmetry (proj2 (proj2 (proj2 Hreg)))) Hs) as (s0 & Hs0 & E).
    pose proof (G7 _ _ Hs0) as Hc. unfold subFields in E. destruct (s_cancel s); [done|]. destruct (s_cancel s0); [|done].
    by injection E.
Qed.

(** ** Admission of work *)

(** The messages of [pairs] for one group and key, in order. *)
Definition pairsOf (pairs : list (Message * checkpointScope)) (s : checkpointScope) (key : string) : list Message :=
  (filter (fun p => p.2 = s /\ deliveryAffinity p.1 = key) pairs).*1.

(** The bytes that indexing [pairs] may take. *)
Definition expansion (pairs : list (Message * checkpointScope)) (nowMs : Z) (b : groups) : Z :=
  zsum ((fun p => if needsWork p.2 p.1 nowMs b then workCharge p.1 else 0) <$> pairs).

(** [b'] is [b] with the pairs indexed that needed it. *)
Record grown (pairs : list (Message * checkpointScope)) (nowMs : Z) (b b' : groups) : Prop := {
  gr_rest : b' = b <| gr_groupWork := gr_groupWork b' |>;
  gr_index : forall s g', gr_groupWork b' !! s = Some g' -> group_ok s g';
  gr_dom : forall s, is_Some (gr_groupWork b' !! s) <-> is_Some (gr_groupWork b !! s);
  gr_needs : forall s m, needsWork s m nowMs b' = true -> needsWork s m nowMs b = true;
  gr_done : forall p, p ∈ pairs -> needsWork p.2 p.1 nowMs b' = false;
  gr_queue : forall s key, exists ms, queueOf b' s key = queueOf b s key ++ (jobFor <$> ms) /\
    ms `sublist_of` pairsOf pairs s key;
}.

Lemma expansion_nonneg pairs nowMs b : 0 <= expansion pairs nowMs b.
Proof.
  apply zsum_nonneg, Forall_fmap, Forall_forall. intros p _. cbn. pose proof (workCharge_pos p.1).
  destruct (needsWork _ _ _ _); lia.
Qed.

Lemma expansion_mono pairs nowMs b b' :
  (forall s m, needsWork s m nowMs b' = true -> needsWork s m nowMs b = true) ->
  expansion pairs nowMs b' <= expansion pairs nowMs b.
Proof.
  intros Hn. unfold expansion. induction pairs as [|p pairs IH]; [done|]. rewrite !fmap_cons, !zsum_cons.
  pose proof (workCharge_pos p.1). specialize (Hn p.2 p.1). destruct (needsWork p.2 p.1 nowMs b'); [rewrite Hn by done; lia|].
  destruct (needsWork p.2 p.1 nowMs b); lia.
Qed.

(** Indexing one message. *)
Lemma appended_grown b scope g g' m nowMs :
  (forall s g', gr_groupWork b !! s = Some g' -> group_ok s g') ->
  gr_groupWork b !! scope = Some g -> needsWork scope m nowMs b = true ->
  (exists K, gw_inv g' K) -> appended g m g' ->
  let b' := b <| gr_groupWork := <[scope := g']> (gr_groupWork b) |> in
  (forall s g', gr_groupWork b' !! s = Some g' -> group_ok s g') /\
  (forall s, is_Some (gr_groupWork b' !! s) <-> is_Some (gr_groupWork b !! s)) /\
  (forall s m, needsWork s m nowMs b' = true -> needsWork s m nowMs b = true) /\
  needsWork scope m nowMs b' = false /\
  (forall s key, queueOf b' s key = queueOf b s key ++
     (if decide (s = scope /\ key = deliveryAffinity m) then [jobFor m] else [])) /\
  groupTotal (gr_groupWork b') = groupTotal (gr_groupWork b) + workCharge m.
Proof.
  intros Hix Hg Hneed Hg' Ha b'. destruct (Hix _ _ Hg) as (_ & Es & Ec). split_and!.
  - intros s g1. cbn. intros [[<- <-]|[_ H]]%lookup_insert_Some; [|by apply Hix].
    split; [done|]. by rewrite (ap_scope _ _ _ Ha), (ap_charge _ _ _ Ha).
  - intros s. cbn. destruct (decide (s = scope)) as [->|Hne]; [|by rewrite lookup_insert_ne].
    rewrite lookup_insert_eq, Hg. split; eauto.
  - intros s m'. unfold needsWork. cbn. destruct (decide (s = scope)) as [->|Hne]; [|by rewrite lookup_insert_ne].
    rewrite lookup_insert_eq, Hg. intros [[H1 H2]%andb_true_iff H3]%andb_true_iff. rewrite H1, H3.
    apply bool_decide_eq_true in H2. rewrite bool_decide_true; [done|]. apply not_elem_of_dom.
    apply not_elem_of_dom in H2. rewrite (ap_dom _ _ _ Ha) in H2. set_solver.
  - unfold needsWork. cbn. rewrite lookup_insert_eq. rewrite (bool_decide_false (g_work g' !! m_ID m = None)); [by rewrite andb_false_r|].
    apply not_eq_None_Some, elem_of_dom. rewrite (ap_dom _ _ _ Ha). set_solver.
  - intros s key. unfold queueOf. cbn. destruct (decide (s = scope)) as [->|Hne].
    + rewrite lookup_insert_eq, Hg, (ap_queue _ _ _ Ha). f_equal.
      destruct (decide (key = deliveryAffinity m)); [rewrite decide_True by done|rewrite decide_False by naive_solver]; done.
    + rewrite lookup_insert_ne, decide_False by naive_solver. by rewrite app_nil_r.
  - cbn. rewrite (groupTotal_set _ _ _ _ Hg). unfold groupBytes. rewrite (ap_charge _ _ _ Ha), (ap_bytes _ _ _ Ha). lia.
Qed.

Lemma pairsOf_cons m scope pairs s key : pairsOf ((m, scope) :: pairs) s key =
  (if decide (s = scope /\ key = deliveryAffinity m) then [m] else []) ++ pairsOf pairs s key.
Proof.
  unfold pairsOf. rewrite filter_cons. cbn. destruct (decide (s = scope /\ key = deliveryAffinity m)) as [[-> ->]|Hn].
  - by rewrite decide_True.
  - by rewrite decide_False by naive_solver.
Qed.

Lemma grown_cons b b1 b' m scope pairs nowMs :
  b1 = b <| gr_groupWork := gr_groupWork b1 |> ->
  (forall s, is_Some (gr_groupWork b1 !! s) <-> is_Some (gr_groupWork b !! s)) ->
  (forall s m, needsWork s m nowMs b1 = true -> needsWork s m nowMs b = true) ->
  needsWork scope m nowMs b1 = false ->
  (forall s key, queueOf b1 s key = queueOf b s key \/
     queueOf b1 s key = queueOf b s key ++ (if decide (s = scope /\ key = deliveryAffinity m) then [jobFor m] else [])) ->
  grown pairs nowMs b1 b' -> grown ((m, scope) :: pairs) nowMs b b'.
Proof.
  intros E1 Hd Hn Hdone Hq [G1 G2 G3 G4 G5 G6]. split.
  - rewrite G1, E1. done.
  - done.
  - intros s. by rewrite G3.
  - eauto.
  - intros p [->|Hp]%elem_of_cons; [|by apply G5]. cbn. destruct (needsWork scope m nowMs b') eqn:E; [|done].
    apply G4 in E. congruence.
  - intros s key. destruct (G6 s key) as (ms & Eq & Hsub). rewrite pairsOf_cons. destruct (Hq s key) as [Eb|Eb]; rewrite Eb in Eq.
    + exists ms. split; [done|]. by apply sublist_inserts_l.
    + rewrite <- app_assoc in Eq. destruct (decide _) as [Hd'|Hd'].
      * exists (m :: ms). split; [done|]. by apply sublist_skip.
      * exists ms. by split.
Qed.

Lemma wp_indexPairs pairs nowMs : forall used b (Q : Z -> groups -> Prop),
  (forall s g', gr_groupWork b !! s = Some g' -> group_ok s g') ->
  0 <= used -> used + expansion pairs nowMs b < 2 ^ 62 ->
  (forall used' b', grown pairs nowMs b b' -> used <= used' <= used + expansion pairs nowMs b ->
     groupTotal (gr_groupWork b') = groupTotal (gr_groupWork b) + (used' - used) -> Q used' b') ->
  wp (indexPairs pairs nowMs used) b Q.
Proof.
  induction pairs as [|[m scope] pairs IH]; intros used b Q Hix Hu Hexp HQ; cbn [indexPairs].
  - apply wp_ret. pose proof (expansion_nonneg [] nowMs b). apply HQ; [|lia|lia]. split; try done.
    + by destruct b.
    + intros p Hp. by apply elem_of_nil in Hp.
    + intros s key. exists []. by rewrite app_nil_r.
  - wp_step. apply wp_get. unfold expansion in Hexp, HQ. rewrite fmap_cons, zsum_cons in Hexp, HQ. cbn [fst snd] in Hexp, HQ.
    fold (expansion pairs nowMs b) in Hexp, HQ. destruct (needsWork scope m nowMs b) eqn:Hneed; rewrite ?Hneed in Hexp, HQ.
    + pose proof Hneed as Hneed'. unfold needsWork in Hneed'. destruct (gr_groupWork b !! scope) as [g|] eqn:Hg; [|done].
      apply andb_true_iff in Hneed' as [Hneed' _]. apply andb_true_iff in Hneed' as [_ Hnone]. apply bool_decide_eq_true in Hnone.
      destruct (Hix _ _ Hg) as ([K I] & _). wp_step. eapply wp_inGroup; [exact Hg|].
      eapply wp_appendWork; [exact I|exact Hnone|]. intros g' K' I' Ha.
      destruct (appended_grown b scope g g' m nowMs Hix Hg Hneed (ex_intro _ K' I') Ha) as (H1 & H2 & H3 & H4 & H5 & H6).
      set (b1 := b <| gr_groupWork := _ |>) in *. pose proof (expansion_mono pairs nowMs b b1 H3).
      pose proof (workCharge_pos m). pose proof (expansion_nonneg pairs nowMs b1). i64s.
      apply IH; [exact H1|lia|lia|]. intros used' b' Gr Hu' Ht. apply HQ; [|lia|lia].
      eapply grown_cons; [..|exact Gr]; try done. intros s key. right. apply H5.
    + pose proof (expansion_nonneg pairs nowMs b). apply IH; [exact Hix|lia|lia|]. intros used' b' Gr Hu' Ht.
      apply HQ; [|lia|lia]. eapply (grown_cons b b); [by destruct b|done|done|done| |exact Gr]. intros s key. by left.
Qed.

Lemma charge_fold pairs nowMs b c : 0 <= c -> c + expansion pairs nowMs b < 2 ^ 62 ->
  foldl (fun c p => if needsWork p.2 p.1 nowMs b then i64 (c + workCharge p.1) else c) c pairs =
  c + expansion pairs nowMs b.
Proof.
  revert c. induction pairs as [|p pairs IH]; intros c Hc Hle; [cbn; unfold expansion; cbn; rewrite Z.add_comm; done|].
  unfold expansion in Hle. unfold expansion. rewrite fmap_cons, zsum_cons in Hle. rewrite fmap_cons, zsum_cons. cbn [foldl].
  fold (expansion pairs nowMs b) in Hle. fold (expansion pairs nowMs b).
  pose proof (workCharge_pos p.1). pose proof (expansion_nonneg pairs nowMs b).
  destruct (needsWork p.2 p.1 nowMs b); i64s; rewrite IH by lia; lia.
Qed.

(** A refusal of memory changes nothing; a grant takes exactly the bytes and stays in the budget. *)
Lemma wp_reserveStreamMemory b bytes (Q : bool -> groups -> Prop) :
  mem_ok b -> 0 <= bytes ->
  (cfg_StreamMemoryBytes (gr_cfg b) < gr_streamMemoryBytes b + bytes -> Q false b) ->
  (gr_streamMemoryBytes b + bytes <= cfg_StreamMemoryBytes (gr_cfg b) ->
     Q true (b <| gr_streamMemoryBytes := gr_streamMemoryBytes b + bytes |>)) ->
  wp (reserveStreamMemory bytes) b Q.
Proof.
  intros M Hb HQ1 HQ2. unfold reserveStreamMemory. wp_step. apply wp_get. cbv zeta.
  pose proof (mo_limit _ M). pose proof (mo_stream _ M). pose proof (groupTotal_nonneg _ M). pose proof (mo_bytes _ M).
  rewrite (bool_decide_false (bytes < 0)) by lia. i64s. cbn [orb].
  destruct (bool_decide_reflect (cfg_StreamMemoryBytes (gr_cfg b) - gr_streamMemoryBytes b < bytes)).
  - apply wp_ret, HQ1. lia.
  - wp_step. apply wp_put. apply wp_ret. i64s. apply HQ2. lia.
Qed.

(** What [prepareGroupWork] does: nothing, or all of it. *)
Definition prepared (messages : list (option Message)) (onlyGroup : string) (nowMs : Z) (b : groups) (ok : bool)
    (b' : groups) : Prop :=
  if ok then
    exists b1 used, grown (workPairs messages onlyGroup b) nowMs b b1 /\
      b' = ((b1 <| gr_groupMemoryBytes := gr_groupMemoryBytes b + used |>)
              <| gr_streamMemoryBytes := gr_streamMemoryBytes b + used |>) /\
      0 <= used <= expansion (workPairs messages onlyGroup b) nowMs b
  else b' = b.

Lemma mem_ok_grown pairs nowMs b b1 used : mem_ok b -> grown pairs nowMs b b1 ->
  groupTotal (gr_groupWork b1) = groupTotal (gr_groupWork b) + used -> 0 <= used ->
  gr_groupMemoryBytes b + used <= cfg_StreamMemoryBytes (gr_cfg b) - streamMemoryReservation ->
  gr_streamMemoryBytes b + used <= cfg_StreamMemoryBytes (gr_cfg b) ->
  mem_ok ((b1 <| gr_groupMemoryBytes := gr_groupMemoryBytes b + used |>)
            <| gr_streamMemoryBytes := gr_streamMemoryBytes b + used |>).
Proof.
  intros M [G1 G2 G3 _ _ _] Ht Hu Hroom Hstream. destruct M as [M1 M2 M3 M4 M5 M6].
  assert (Ec : gr_cfg b1 = gr_cfg b) by by rewrite G1.
  assert (Et : gr_groupWorkByTopic b1 = gr_groupWorkByTopic b) by by rewrite G1.
  split; unfold gr_cfg in *; cbn; rewrite ?Ec, ?Et; try done; [|lia..].
  intros topic group. by rewrite G3.
Qed.

Lemma wp_prepareGroupWork b messages onlyGroup nowMs (Q : bool -> groups -> Prop) :
  mem_ok b -> expansion (workPairs messages onlyGroup b) nowMs b < 2 ^ 62 ->
  (forall ok b', mem_ok b' -> prepared messages onlyGroup nowMs b ok b' -> Q ok b') ->
  wp (prepareGroupWork messages onlyGroup nowMs) b Q.
Proof.
  intros M Hexp HQ. unfold prepareGroupWork. wp_step. apply wp_get. cbv zeta.
  set (pairs := workPairs messages onlyGroup b) in *. pose proof (expansion_nonneg pairs nowMs b).
  rewrite (charge_fold pairs nowMs b 0) by lia. rewrite Z.add_0_l.
  pose proof (mo_limit _ M). pose proof (mo_room _ M). pose proof (groupTotal_nonneg _ M) as Hnn. rewrite <- (mo_bytes _ M) in Hnn.
  assert (Er : streamMemoryReservation = 262144) by done. i64s. destruct (bool_decide_reflect (cfg_StreamMemoryBytes (gr_cfg b) - streamMemoryReservation <
    gr_groupMemoryBytes b + expansion pairs nowMs b)) as [Hover|Hroom].
  { apply wp_ret. by apply HQ. }
  wp_step. apply wp_reserveStreamMemory; [done|lia|..]; intros Hfit; cbn [negb].
  { apply wp_ret. by apply HQ. }
  set (b0 := b <| gr_streamMemoryBytes := _ |>). wp_step.
  assert (E0 : expansion pairs nowMs b0 = expansion pairs nowMs b) by done.
  apply wp_indexPairs; [apply (mo_index _ M)|lia|lia|]. intros used b1 Gr Hu Ht.
  pose proof (gr_rest _ _ _ _ Gr) as E1. pose proof (mo_stream _ M).
  assert (Em : gr_groupMemoryBytes b1 = gr_groupMemoryBytes b) by by rewrite E1.
  assert (Est : gr_streamMemoryBytes b1 = gr_streamMemoryBytes b + expansion pairs nowMs b) by by rewrite E1.
  unfold releaseStreamMemory. wp_step. apply wp_modify. wp_step. apply wp_modify. apply wp_ret. cbn.
  rewrite Em, Est. i64s. set (b' := setf _ _).
  assert (Gr' : grown pairs nowMs b (b1 <| gr_streamMemoryBytes := gr_streamMemoryBytes b |>)).
  { destruct Gr as [G1 G2 G3 G4 G5 G6]. split; try done. rewrite G1. done. }
  assert (Eb' : b' = ((b1 <| gr_streamMemoryBytes := gr_streamMemoryBytes b |>) <| gr_groupMemoryBytes := gr_groupMemoryBytes b + used |>)
              <| gr_streamMemoryBytes := gr_streamMemoryBytes b + used |>).
  { unfold b'. replace (gr_streamMemoryBytes b + expansion pairs nowMs b - (expansion pairs nowMs b - used))
      with (gr_streamMemoryBytes b + used) by lia. done. }
  apply HQ.
  - rewrite Eb'. eapply mem_ok_grown; [exact M|exact Gr'|..]; [|lia..].
    change (groupTotal (gr_groupWork b1) = groupTotal (gr_groupWork b) + used). rewrite Ht.
    change (gr_groupWork b0) with (gr_groupWork b). lia.
  - eexists _, used. split; [exact Gr'|]. split; [exact Eb'|]. fold pairs. lia.
Qed.

(** ** Registration *)
Record registered (b : groups) (scope : checkpointScope) (b' : groups) : Prop := {
  rg_rest : gr_dv b' = gr_dv b /\ gr_ck b' = gr_ck b /\ gr_topicBroadcast b' = gr_topicBroadcast b /\
    gr_topicGroups b' = gr_topicGroups b /\ slack b' = slack b;
  rg_present : is_Some (gr_groupWork b' !! scope);
  rg_kept : forall s g, gr_groupWork b !! s = Some g -> gr_groupWork b' !! s = Some g;
  rg_queue : forall s key, queueOf b' s key = queueOf b s key;
  rg_size : mlen (gr_groupWork b') <= mlen (gr_groupWork b) + 1;
}.

Lemma wp_registerGroup b topic group (Q : bool -> groups -> Prop) :
  mem_ok b ->
  (forall b', mem_ok b' -> registered b (mkScope topic group) b' -> Q true b') ->
  (gr_groupWork b !! mkScope topic group = None -> Q false b) ->
  slen topic + slen group < 2 ^ 61 ->
  wp (registerGroupLocked topic group) b Q.
Proof.
  intros M HQ1 HQ2 Hlen. unfold registerGroupLocked. wp_step. apply wp_get. cbv zeta. set (scope := mkScope topic group) in *.
  destruct (bool_decide_reflect (gr_groupWork b !! scope <> None)) as [Hs|Hs].
  { apply wp_ret. apply HQ1; [done|]. split; try done; [by apply not_eq_None_Some|lia]. }
  assert (Hn : gr_groupWork b !! scope = None) by (destruct (gr_groupWork b !! scope); [exfalso; by apply Hs|done]). specialize (HQ2 Hn).
  case_bool_decide as Hmax; [by apply wp_ret|]. set (charge := 1024 + slen topic + slen group).
  pose proof (mo_limit _ M). pose proof (mo_room _ M). pose proof (groupTotal_nonneg _ M) as Hnn. rewrite <- (mo_bytes _ M) in Hnn.
  pose proof (slen_nonneg topic). pose proof (slen_nonneg group).
  assert (Er : streamMemoryReservation = 262144) by done. i64s.
  destruct (bool_decide_reflect (cfg_StreamMemoryBytes (gr_cfg b) - streamMemoryReservation < gr_groupMemoryBytes b + charge)) as [Hov|Hroom];
    [by apply wp_ret|].
  wp_step. apply wp_reserveStreamMemory; [done|lia|..]; intros Hfit; cbn [negb]; [by apply wp_ret|].
  wp_step. apply wp_modify. wp_step. apply wp_modify. wp_step. apply wp_modify. apply wp_ret.
  cbn [gr_groupMemoryBytes gr_groupWork gr_groupWorkByTopic]. set (b' := setf _ _).
  assert (Em : gr_groupMemoryBytes b' = gr_groupMemoryBytes b + charge) by (apply (i64_id (gr_groupMemoryBytes b + charge)); unfold in_i64; lia).
  assert (Ew : gr_groupWork b' = <[scope := newGroup scope charge]> (gr_groupWork b)) by done.
  apply HQ1.
  - pose proof (mo_stream _ M). split.
    + rewrite Ew. intros s g [[<- <-]|[_ Hg]]%lookup_insert_Some; [|by apply (mo_index _ M)].
      split; [eexists; apply newGroup_inv|done].
    + intros t gp. rewrite Ew. change (gr_groupWorkByTopic b') with (<[topic := {[ group ]} ∪ default ∅ (gr_groupWorkByTopic b !! topic)]> (gr_groupWorkByTopic b)).
      pose proof (mo_topic _ M t gp) as Ht. destruct (decide (t = topic)) as [->|Hne].
      * rewrite lookup_insert_eq. cbn. destruct (decide (gp = group)) as [->|Hgp].
        { rewrite lookup_insert_eq. split; [eauto|intros _; set_solver]. }
        { rewrite lookup_insert_ne by (unfold scope; congruence). rewrite <- Ht. set_solver. }
      * rewrite !lookup_insert_ne by (unfold scope; congruence). done.
    + rewrite Em, Ew. unfold groupTotal. rewrite msum_insert by done. rewrite (mo_bytes _ M).
      change (groupBytes (newGroup scope charge)) with (charge + 0). unfold groupTotal. lia.
    + rewrite Em. change (gr_cfg b') with (gr_cfg b). lia.
    + rewrite Em. change (gr_cfg b') with (gr_cfg b). change (gr_streamMemoryBytes b') with (gr_streamMemoryBytes b + charge). lia.
    + done.
  - split.
    + split_and!; try done. unfold slack. rewrite Em.
      change (gr_streamMemoryBytes b') with (gr_streamMemoryBytes b + charge). lia.
    + rewrite Ew, lookup_insert_eq. eauto.
    + intros s g Hg. rewrite Ew, lookup_insert_ne; [done|]. intros <-. congruence.
    + intros s key. unfold queueOf. rewrite Ew. destruct (decide (s = scope)) as [->|Hne]; [|by rewrite lookup_insert_ne].
      by rewrite lookup_insert_eq, Hn.
    + rewrite Ew. unfold mlen. rewrite map_size_insert_None by done. lia.
Qed.

(** A group's index changes without a change of its bytes. *)
Lemma mem_ok_same b scope g g' : mem_ok b -> gr_groupWork b !! scope = Some g -> group_ok scope g' ->
  groupBytes g' = groupBytes g -> mem_ok (b <| gr_groupWork := <[scope := g']> (gr_groupWork b) |>).
Proof.
  intros M Hg Hg' Eb. eapply (mem_ok_set b scope g g' 0 M Hg Hg'); rewrite ?Eb.
  - replace (gr_groupMemoryBytes b + (groupBytes g - groupBytes g)) with (gr_groupMemoryBytes b) by lia.
    rewrite Z.add_0_r. by destruct b.
  - lia.
  - pose proof (mo_room _ M). lia.
  - pose proof (mo_stream _ M). lia.
Qed.

Lemma ginv_group b scope g g' : ginv b -> gr_groupWork b !! scope = Some g -> group_ok scope g' ->
  groupBytes g' = groupBytes g -> ginv (b <| gr_groupWork := <[scope := g']> (gr_groupWork b) |>).
Proof.
  intros G Hg Hg' Eb. eapply ginv_rest; [exact G|by apply (mem_ok_same b scope g g' (gn_mem _ G))|apply (gn_ck _ G)|done..].
Qed.

(** ** Dispatch *)

(** The choice of the member: an eligible one of the highest score. *)
Definition eligible (s : subscriber) : Prop := s_detached s = false /\ s_replaying s = false.

Lemma selectMember_spec score members best sr n :
  selectMember score members best = Some (sr, n) ->
  (best = Some (sr, n) \/ exists s, (sr, s) ∈ members /\ eligible s /\ score s = n) /\
  (forall r' s', (r', s') ∈ members -> eligible s' -> score s' <= n) /\
  (forall r' n', best = Some (r', n') -> n' <= n).
Proof.
  revert best. induction members as [|[r s] members IH]; intros best; cbn [selectMember].
  - intros ->. split; [by left|]. split; [intros r' s' Hin; by apply elem_of_nil in Hin|]. intros r' n' [= -> ->]. lia.
  - destruct (s_detached s || s_replaying s) eqn:Hel.
    + intros H. destruct (IH _ H) as (H1 & H2 & H3). split; [|split; [|done]].
      * destruct H1 as [?|(s' & ? & ?)]; [by left|right]. exists s'. split; [by right|done].
      * intros r' s' [[= -> ->]|Hin]%elem_of_cons [Hd Hr]; [by rewrite Hd, Hr in Hel|by eapply H2].
    + apply orb_false_iff in Hel as [Hd Hr]. intros H. destruct (IH _ H) as (H1 & H2 & H3). split_and!.
      * destruct H1 as [Hb|(s' & ? & ?)]; [|right; exists s'; split; [by right|done]].
        assert (Hs : Some (r, score s) = Some (sr, n) -> exists s0, (sr, s0) ∈ (r, s) :: members /\ eligible s0 /\ score s0 = n).
        { intros E. injection E as -> <-. exists s. split; [by left|]. done. }
        destruct best as [[rb top]|]; [|by right; apply Hs]. destruct (bool_decide (top < score s)); [right; by apply Hs|by left].
      * intros r' s' [[= -> ->]|Hin]%elem_of_cons He; [|by eapply H2].
        destruct best as [[rb top]|]; [|by eapply H3]. destruct (bool_decide_reflect (top < score s)); [by eapply H3|].
        specialize (H3 _ _ eq_refl). lia.
      * intros r' n' ->. destruct (bool_decide_reflect (n' < score s)); [specialize (H3 _ _ eq_refl); lia|by eapply H3].
Qed.

Lemma selectMember_some score members best : best <> None -> selectMember score members best <> None.
Proof.
  revert best. induction members as [|[r s] members IH]; intros best Hb; cbn; [done|]. destruct (_ || _); [by apply IH|].
  apply IH. destruct best as [[? ?]|]; [|done]. by destruct (bool_decide _).
Qed.

Lemma selectMember_none score members : selectMember score members None = None ->
  forall r s, (r, s) ∈ members -> ~ eligible s.
Proof.
  induction members as [|[r s] members IH]; intros H r' s' Hin; [by apply elem_of_nil in Hin|].
  cbn in H. destruct (s_detached s || s_replaying s) eqn:Hel.
  - apply elem_of_cons in Hin as [[= -> ->]|Hin]; [|by eapply IH]. intros [Hd Hr]. by rewrite Hd, Hr in Hel.
  - exfalso. by apply (selectMember_some score members (Some (r, score s))) in H.
Qed.

Lemma groupMembers_elem b scope sr : sr ∈ groupMembers scope b <->
  exists sid, membersOf (cs_topic scope) (cs_group scope) b !! sid = Some sr.
Proof.
  unfold groupMembers. rewrite list_elem_of_fmap. split.
  - intros ([sid r] & -> & H). apply elem_of_map_to_list in H. eauto.
  - intros [sid H]. exists (sid, sr). split; [done|]. by apply elem_of_map_to_list.
Qed.

(** Nothing was sent: only the counters of the metrics may differ. *)
Definition idleDispatch (b b' : groups) : Prop :=
  gr_groupWork b' = gr_groupWork b /\ inflight (gr_dv b') = inflight (gr_dv b) /\
  dv_seq (gr_dv b') = dv_seq (gr_dv b).

(** The head of the lane was sent to a member of the highest score. *)
Definition sentDispatch (b : groups) (scope : checkpointScope) (key : string) (m : Message) (now : Z) (b' : groups) : Prop :=
  exists j rest sr s id, queueOf b scope key = j :: rest /\ j_delivery j = "" /\ j_id j = m_ID m /\
    unixMilli now < j_expires j /\ sr ∈ groupMembers scope b /\ subAt b sr = Some s /\ eligible s /\
    (forall sr' s', sr' ∈ groupMembers scope b -> subAt b sr' = Some s' -> eligible s' ->
       memberScore (m_Topic m) (cs_group scope) key s' <= memberScore (m_Topic m) (cs_group scope) key s) /\
    id <> "" /\ inflight (gr_dv b) !! id = None /\
    inflight (gr_dv b') = <[id := flightFor m (j_attempt j) s (now + cfg_AckDeadline (gr_cfg b)) now]> (inflight (gr_dv b)) /\
    queueOf b' scope key = mkJob (j_id j) (j_expires j) (j_attempt j) id :: rest /\
    (forall scope' key', (scope', key') <> (scope, key) -> queueOf b' scope' key' = queueOf b scope' key').

Record dispatched (b : groups) (scope : checkpointScope) (key : string) (m : option Message) (now : Z) (b' : groups) : Prop := {
  di_rest : gr_ck b' = gr_ck b /\ gr_groupWorkByTopic b' = gr_groupWorkByTopic b /\ gr_topicBroadcast b' = gr_topicBroadcast b /\
    gr_topicGroups b' = gr_topicGroups b /\ slack b' = slack b;
  di_reg : registryKept (gr_dv b) (gr_dv b');
  di_seq : dv_seq (gr_dv b) <= dv_seq (gr_dv b') <= dv_seq (gr_dv b) + 1;
  di_work : forall s, (g_work <$> gr_groupWork b' !! s) = (g_work <$> gr_groupWork b !! s) /\
    (g_lanes <$> gr_groupWork b' !! s) = (g_lanes <$> gr_groupWork b !! s);
  di_other : forall s, s <> scope -> gr_groupWork b' !! s = gr_groupWork b !! s;
  di_effect : idleDispatch b b' \/ exists m', m = Some m' /\ sentDispatch b scope key m' now b';
}.

Lemma dispatched_idle b scope key m now : ginv b -> dispatched b scope key m now b.
Proof. intros G. split; try done; [lia|]. left. by split_and!. Qed.

Lemma members_lookup b l : (forall sr, sr ∈ l -> is_Some (subAt b sr)) ->
  exists ms, mapM (fun sr => s ← subAt b sr; Some (sr, s)) l = Some ms /\
    (forall sr s, (sr, s) ∈ ms <-> sr ∈ l /\ subAt b sr = Some s).
Proof.
  induction l as [|sr l IH]; intros Hl.
  - exists []. split; [done|]. intros sr s. split; [intros H; by apply elem_of_nil in H|intros [H _]; by apply elem_of_nil in H].
  - destruct IH as (ms & E & Hms); [intros x Hx; apply Hl; by right|].
    destruct (Hl sr) as [s Hs]; [by left|]. exists ((sr, s) :: ms). split; [cbn; rewrite Hs; cbn; by rewrite E|].
    intros x y. rewrite !elem_of_cons, Hms. split.
    + intros [[= -> ->]|[? ?]]; eauto.
    + intros [[->|?] ?]; [left; congruence|right; eauto].
Qed.

(** The member is sent the message, and its ID is noted in the head of the lane. *)
Lemma wp_sendHead b scope g K key r w sr s m now (Q : unit -> groups -> Prop) :
  ginv b -> gr_groupWork b !! scope = Some g -> gw_inv g K -> head (K key) = Some r ->
  g_store g !! r = Some w -> subAt b sr = Some s -> w_delivery w = "" ->
  sizeOf m < 2 ^ 62 -> dv_seq (gr_dv b) + 1 < 2 ^ 64 ->
  (forall b', ginv b' -> (forall m', dispatched b scope key m' now b') -> idleDispatch b b' -> Q tt b') ->
  (forall id d' w', ginv ((b <| gr_dv := d' |>) <| gr_groupWork := <[scope := setWork r w' g]> (gr_groupWork b) |>) ->
     w' = w <| w_delivery := id |> -> id <> "" -> inflight (gr_dv b) !! id = None ->
     registryKept (gr_dv b) d' -> dv_seq d' = dv_seq (gr_dv b) + 1 ->
     inflight d' = <[id := flightFor m (w_attempt w) s (now + cfg_AckDeadline (gr_cfg b)) now]> (inflight (gr_dv b)) ->
     Q tt ((b <| gr_dv := d' |>) <| gr_groupWork := <[scope := setWork r w' g]> (gr_groupWork b) |>)) ->
  wp (id <- inDeliveries (sendDeliveryLocked sr m (w_attempt w) false now) ;;
      gwhen (bool_decide (id <> "")) (inGroup scope (wupdate r (fun w => w <| w_delivery := id |>)))) b Q.
Proof.
  intros G Hg I Hr Hw Hs Hwd Hm Hseq HQ1 HQ2. destruct (gn_pend _ G) as [L P]. wp_step. apply wp_inDeliveries.
  assert (Hin : r ∈ K key) by (destruct (K key); [done|]; cbn in Hr; injection Hr as ->; by left).
  destruct (lo_key _ _ _ _ _ _ _ (gi_lanes _ _ I) _ _ Hin) as (w1 & Hw1 & Ekey). assert (w1 = w) as -> by congruence.
  eapply wp_sendDeliveryLocked; [exact P|exact Hs|exact Hm|exact Hseq|..].
  - intros _ d' P' Href. rewrite bool_decide_false by auto. cbn [gwhen]. apply wp_ret.
    assert (Hreg := refused_registry _ _ _ _ _ Hs Href).
    assert (Ed : inflight d' = inflight (gr_dv b) /\ dv_seq d' = dv_seq (gr_dv b)) by (destruct Href as [mt ->]; by cbn).
    apply HQ1.
    + apply ginv_dv; [done|by eexists|done].
    + intros m'. split; try done; [cbn; lia|]. left. by destruct Ed.
    + by destruct Ed.
  - intros _ x d' id p P' Gi. rewrite bool_decide_true by (apply idOf_nonempty). cbn [gwhen].
    eapply wp_inGroup; [exact Hg|]. eapply wp_wupdate; [exact Hw|]. set (w' := w <| w_delivery := id |>).
    change (setf _ g) with (setWork r w' g).
    assert (I' : gw_inv (setWork r w' g) K).
    { eapply setWork_inv; [exact I|exact Hw|done|exact (proj2 (gi_item _ _ I _ _ _ Hin Hw))|]. intros _. by rewrite Ekey. }
    assert (Hreg := given_registry _ _ _ _ _ _ _ _ _ Hs Gi).
    apply (HQ2 id d' w'); try done.
    + set (b1 := b <| gr_dv := d' |>). assert (G1 : ginv b1) by (apply ginv_dv; [done|by eexists|done]).
      change (gr_groupWork b) with (gr_groupWork b1). apply (ginv_group b1 scope g); [done|done| |].
      * destruct (mo_index _ (gn_mem _ G) _ _ Hg) as (_ & ? & ?). split; [eauto|done].
      * unfold groupBytes. change (g_charge (setWork r w' g)) with (g_charge g). f_equal. by eapply setWork_bytes.
    + apply idOf_nonempty.
    + apply (inflight_None _ _ _ P). by eapply fresh_id.
    + apply (gi_seq _ _ _ _ _ _ _ _ _ Gi).
    + by rewrite (inflight_given _ _ _ _ _ _ _ _ _ P Gi).
Qed.

Lemma members_live b scope : ginv b -> forall sr, sr ∈ groupMembers scope b -> is_Some (subAt b sr).
Proof.
  intros G sr [sid Hs]%groupMembers_elem. destruct (gn_members _ G _ _ _ _ Hs) as (_ & s & Hsr & _). by exists s.
Qed.

Lemma lane_head b scope g K key lane : ginv b -> gr_groupWork b !! scope = Some g -> gw_inv g K ->
  g_lanes g !! key = Some lane ->
  exists r w, ln_head lane = Some r /\ head (K key) = Some r /\ r ∈ K key /\ g_store g !! r = Some w /\ w_key w = key /\
    exists rest, K key = r :: rest.
Proof.
  intros G Hg I Hl. pose proof (lo_state _ _ _ _ _ _ _ (gi_lanes _ _ I) key) as Hs. rewrite Hl in Hs.
  destruct Hs as (Hne & (_ & _ & Hh & _) & _). destruct (K key) as [|r rest] eqn:E; [done|].
  assert (Hin : r ∈ K key) by (rewrite E; by left).
  destruct (lo_key _ _ _ _ _ _ _ (gi_lanes _ _ I) _ _ Hin) as (w & Hw & Ek). exists r, w. rewrite <- E.
  split_and!; try done; [by rewrite E|eauto].
Qed.

(** The queues after the head [r] of [key] is noted as out for delivery. *)
Lemma queue_noted g K key r rest w id : gw_inv g K -> K key = r :: rest -> g_store g !! r = Some w ->
  exists js, queue key g = jobOf w :: js /\
    queue key (setWork r (w <| w_delivery := id |>) g) = mkJob (w_id w) (w_expires w) (w_attempt w) id :: js /\
    forall key', key' <> key -> queue key' (setWork r (w <| w_delivery := id |>) g) = queue key' g.
Proof.
  intros I E Hw. set (w' := w <| w_delivery := id |>).
  assert (Hin : r ∈ K key) by (rewrite E; by left).
  destruct (lo_key _ _ _ _ _ _ _ (gi_lanes _ _ I) _ _ Hin) as (w1 & Hw1 & Ek). assert (w1 = w) as -> by congruence.
  assert (I' : gw_inv (setWork r w' g) K).
  { eapply setWork_inv; [exact I|exact Hw|done|exact (proj2 (gi_item _ _ I _ _ _ Hin Hw))|]. intros _. by rewrite Ek, E. }
  assert (Hsame : forall l : list loc, r ∉ l -> omap (jobAt (setWork r w' g)) l = omap (jobAt g) l).
  { intros l Hl. apply list_omap_ext, Forall_Forall2_diag, Forall_forall. intros x Hx. unfold jobAt, setWork. cbn.
    rewrite lookup_insert_ne; [done|]. by intros <-. }
  pose proof (lists_ok_nodup _ _ _ _ _ _ _ key (gi_lanes _ _ I)) as Hnd. rewrite E in Hnd. apply NoDup_cons in Hnd as [Hr _].
  exists (omap (jobAt g) rest). rewrite !(queue_list _ _ _ I), !(queue_list _ _ _ I'), E.
  assert (E1 : jobAt g r = Some (jobOf w)) by (unfold jobAt; by rewrite Hw).
  assert (E2 : jobAt (setWork r w' g) r = Some (mkJob (w_id w) (w_expires w) (w_attempt w) id)).
  { unfold jobAt, setWork. cbn. by rewrite lookup_insert_eq. }
  split_and!.
  - cbn. by rewrite E1.
  - cbn. rewrite E2. f_equal. by apply Hsame.
  - intros key' Hne. rewrite (queue_list _ _ _ I'), (queue_list _ _ _ I). apply Hsame. intros Hin'.
    destruct (lo_key _ _ _ _ _ _ _ (gi_lanes _ _ I) _ _ Hin') as (w2 & Hw2 & Ek2). congruence.
Qed.

Lemma wp_dispatchGroup b scope g key lane m now (Q : unit -> groups -> Prop) :
  ginv b -> gr_groupWork b !! scope = Some g -> g_lanes g !! key = Some lane ->
  (forall m', m = Some m' -> sizeOf m' < 2 ^ 62) -> dv_seq (gr_dv b) + 1 < 2 ^ 64 ->
  (forall b', ginv b' -> dispatched b scope key m now b' -> Q tt b') ->
  wp (dispatchGroupLocked scope key m now) b Q.
Proof.
  intros G Hg Hl Hm Hseq HQ. assert (Hidle : Q tt b) by (apply HQ; [done|by apply dispatched_idle]).
  destruct (mo_index _ (gn_mem _ G) _ _ Hg) as ([K I] & _).
  destruct (lane_head _ _ _ _ _ _ G Hg I Hl) as (r & w & Eh & Ehd & Hin & Hw & Ek & rest & EK).
  unfold dispatchGroupLocked. wp_step. apply wp_get. wp_step. eapply wp_lift; [exact Hg|].
  wp_step. eapply wp_lift; [exact Hl|]. rewrite Eh. destruct m as [m|]; [|by apply wp_ret].
  wp_step. eapply wp_lift; [exact Hw|].
  destruct (bool_decide_reflect (w_delivery w <> "")) as [Hd|Hd]; cbn [orb]; [by apply wp_ret|].
  assert (Hd' : w_delivery w = "") by (destruct (decide (w_delivery w = "")); [done|by exfalso]). clear Hd.
  destruct (bool_decide_reflect (m_ID m <> w_id w)) as [Hid|Hid]; cbn [orb]; [by apply wp_ret|].
  assert (Hid' : m_ID m = w_id w) by (destruct (decide (m_ID m = w_id w)); [done|by exfalso]). clear Hid.
  destruct (bool_decide_reflect (w_expires w <= unixMilli now)) as [He|He]; [by apply wp_ret|].
  destruct (members_lookup b (groupMembers scope b) (members_live _ _ G)) as (ms & Ems & Hms).
  wp_step. eapply wp_lift; [exact Ems|]. destruct (existsb _ ms); [by apply wp_ret|].
  destruct (selectMember _ ms None) as [[sr n]|] eqn:Esel; [|by apply wp_ret].
  destruct (selectMember_spec _ _ _ _ _ Esel) as ([?|(s & Hsm & Hel & En)] & Hmax & _); [done|].
  apply Hms in Hsm as [Hmem Hs].
  eapply (wp_sendHead b scope g K key r w sr s m now); try done; [by apply Hm| |].
  - intros b' G' Hdi _. apply HQ; [done|apply Hdi].
  - intros id d' w' G' -> Hne Hnone Hreg Es Einf. apply HQ; [exact G'|]. split.
    + done.
    + exact Hreg.
    + cbn. lia.
    + intros s'. cbn. destruct (decide (s' = scope)) as [->|Hs']; [|by rewrite lookup_insert_ne].
      by rewrite lookup_insert_eq, Hg.
    + intros s' Hs'. cbn. by rewrite lookup_insert_ne.
    + right. exists m. split; [done|].
      destruct (queue_noted g K key r rest w id I EK Hw) as (js & Q1 & Q2 & Q3).
      exists (jobOf w), js, sr, s, id. unfold queueOf. rewrite Hg. cbn [gr_groupWork]. 
      split_and!; try done.
      * cbn. lia.
      * intros sr' s' Hmem' Hs' He'. rewrite <- Ek, En. eapply Hmax; [by apply Hms|done].
      * cbn. rewrite lookup_insert_eq. exact Q2.
      * intros scope' key' Hne'. cbn. destruct (decide (scope' = scope)) as [->|Hs']; [|by rewrite lookup_insert_ne].
        rewrite lookup_insert_eq, Hg. apply Q3. intros ->. by apply Hne'.
Qed.

(** ** Acknowledgements *)

(** The checkpoint of a delivery in flight to a group. *)
Definition flightCheckpoint (f : flight) : groupCheckpoint :=
  mkCheckpoint (m_Topic (f_message f)) (f_group f) (m_ID (f_message f)) (m_ExpiresAt (f_message f)).

Definition sameFlights (b b' : groups) : Prop := inflight (gr_dv b') = inflight (gr_dv b).

(** The effect of acknowledging [ids]: *)
Record acked (b : groups) (ids : list string) (cs : list groupCheckpoint) (b' : groups) : Prop := {
  ac_flight : inflight (gr_dv b') = filter (fun x => x.1 ∉ ids) (inflight (gr_dv b));
  ac_reg : registryKept (gr_dv b) (gr_dv b');
  ac_members : gr_topicBroadcast b' = gr_topicBroadcast b /\ gr_topicGroups b' = gr_topicGroups b /\ slack b' = slack b;
  ac_work : forall s i, hasWork b' s i -> hasWork b s i;
  ac_from : forall c, c ∈ cs -> exists id r p, id ∈ ids /\ dv_pending (gr_dv b) !! id = Some r /\
    dv_pstore (gr_dv b) !! r = Some p /\ p_group p <> "" /\ c = checkpointFor p;
}.

Lemma wp_pderef_b b r p (Q : pending -> groups -> Prop) :
  dv_pstore (gr_dv b) !! r = Some p -> Q p b -> wp (inDeliveries (pderef r)) b Q.
Proof. intros Hr HQ. apply wp_inDeliveries. eapply wp_pderef; [exact Hr|]. by destruct b. Qed.

Lemma ginv_taken b L id r p d' : ginv b -> pinv (gr_dv b) L -> dv_pending (gr_dv b) !! id = Some r ->
  dv_pstore (gr_dv b) !! r = Some p -> taken (gr_dv b) L id r p d' -> ginv (b <| gr_dv := d' |>).
Proof.
  intros G I Hid Hp T. apply ginv_dv; [done| |by eapply taken_registry]. eexists. by eapply pinv_taken.
Qed.

Lemma acked_nil b : acked b [] [] b.
Proof.
  split; try done.
  - symmetry. apply map_filter_id. intros i x _. apply not_elem_of_nil.
  - intros c Hc. by apply elem_of_nil in Hc.
Qed.

(** One acknowledgement, then the others. *)
Lemma acked_cons b id r p L b1 d2 ids cs b' (grouped : bool) :
  pinv (gr_dv b) L -> dv_pending (gr_dv b) !! id = Some r -> dv_pstore (gr_dv b) !! r = Some p ->
  grouped = bool_decide (p_group p <> "") ->
  shrunk b b1 -> taken (gr_dv b) L id r p d2 -> acked (b1 <| gr_dv := d2 |>) ids cs b' ->
  acked b (id :: ids) (if grouped then checkpointFor p :: cs else cs) b'.
Proof.
  intros I Hid Hp -> Sh T [A1 A2 (A3 & A4 & A7) A5 A6]. cbn [gr_dv] in *. pose proof (inflight_taken _ _ _ _ _ _ I Hid T) as Ei.
  destruct Sh as [S1 [S2 S3] _ S5 S4]. split.
  - rewrite A1. change (gr_dv (b1 <| gr_dv := d2 |>)) with d2. rewrite Ei. apply map_eq. intros i. apply option_eq. intros f.
    rewrite !map_lookup_filter_Some, lookup_delete_Some, elem_of_cons. cbn. split.
    + intros [[Hne Hf] Hnin]. split; [done|]. intros [->|?]; [by apply Hne|by apply Hnin].
    + intros [Hf Hnin]. split; [split; [|done]|].
      * intros ->. apply Hnin. by left.
      * intros ?. apply Hnin. by right.
  - etransitivity; [by eapply taken_registry|exact A2].
  - split_and!; [rewrite A3; exact S2|rewrite A4; exact S3|rewrite A7; exact S5].
  - intros s i Hi. apply S4. by apply A5 in Hi.
  - assert (Hrest : forall c, c ∈ cs -> exists id0 r0 p0, id0 ∈ id :: ids /\ dv_pending (gr_dv b) !! id0 = Some r0 /\
      dv_pstore (gr_dv b) !! r0 = Some p0 /\ p_group p0 <> "" /\ c = checkpointFor p0).
    { intros c Hc. destruct (A6 c Hc) as (id0 & r0 & p0 & Hin & Hid0 & Hp0 & Hg & ->).
      change (dv_pending d2 !! id0 = Some r0) in Hid0. change (dv_pstore d2 !! r0 = Some p0) in Hp0.
      destruct (taken_view _ _ _ _ _ _ I Hid T _ _ Hid0) as (_ & Hid0' & Hv). rewrite Hp0 in Hv.
      destruct (dv_pstore (gr_dv b) !! r0) as [q|] eqn:Hq; [|done]. apply (inj Some) in Hv.
      exists id0, r0, q. split; [by right|]. split_and!; try done.
      - by destruct (pview_fields _ _ Hv) as (_ & _ & _ & _ & _ & _ & _ & <-).
      - unfold checkpointFor. apply (f_equal (fun p => (p_message p, p_group p, p_expiresAt p))) in Hv. cbn in Hv.
        by injection Hv as -> -> ->. }
    intros c Hc. destruct (bool_decide_reflect (p_group p <> "")) as [Hg|Hg]; [|by apply Hrest].
    apply elem_of_cons in Hc as [->|Hc]; [|by apply Hrest]. exists id, r, p. split; [by left|]. done.
Qed.

Lemma wp_removeAcks ids now : forall b (Q : list groupCheckpoint -> groups -> Prop),
  ginv b -> 0 <= unixMilli now ->
  (forall cs b', ginv b' -> acked b ids cs b' -> Q cs b') -> wp (removeAcks ids now) b Q.
Proof.
  induction ids as [|id ids IH]; intros b Q G Hnow HQ; cbn [removeAcks].
  { apply wp_ret. apply HQ; [done|apply acked_nil]. }
  wp_step. apply wp_get. destruct (gn_pend _ G) as [L I].
  destruct (dv_pending (gr_dv b) !! id) as [r|] eqn:Hid.
  2:{ apply IH; [done|done|]. intros cs b' G' [A1 A2 A3 A4 A5]. apply HQ; [done|]. split; try done.
      - rewrite A1. apply map_filter_ext. intros i f Hf. cbn. rewrite elem_of_cons.
        assert (i <> id) by (intros ->; rewrite inflight_lookup, Hid in Hf; done). naive_solver.
      - intros c Hc. destruct (A5 c Hc) as (i & r & p & Hin & ?). exists i, r, p. split; [by right|done]. }
  destruct (pi_item _ _ I _ _ Hid) as (p & Hp & _). wp_step. eapply wp_pderef_b; [exact Hp|].
  assert (Hafter : forall b1, ginv b1 -> shrunk b b1 ->
    wp (inDeliveries (removeAcked id r now) ;;; checkpoints <- removeAcks ids now ;;
        gret (if bool_decide (p_group p <> "") then checkpointFor p :: checkpoints else checkpoints)) b1 Q).
  { intros b1 G1 Sh. pose proof (sh_dv _ _ Sh) as Ed. wp_step. apply wp_inDeliveries. rewrite Ed.
    eapply wp_removeAcked; [exact I|exact Hid|exact Hp|]. intros d2 T _. wp_step.
    assert (G2 : ginv (b1 <| gr_dv := d2 |>)).
    { eapply (ginv_taken b1 L id r p); rewrite ?Ed; done. }
    apply IH; [exact G2|done|]. intros cs b' G' Ha. apply wp_ret. apply HQ; [done|].
    by eapply (acked_cons b id r p L b1 d2). }
  wp_step. apply wp_when; intros Hg.
  - eapply wp_recordCheckpoint; [done|done|]. intros b1 G1 Hc. apply Hafter; [done|]. by eapply checkpointed_shrunk.
  - apply Hafter; [done|reflexivity].
Qed.
