(* ===== verification/SubscriberInv.v ===== *)
(** * Subscribers: the invariant

    Registering a subscriber, fencing the earlier stream of the same member and removing a subscriber
    keep the invariant of the pending deliveries and of the groups. *)
From S2P Require Import Prelude GoHeap Dll KeyedLists Types Config Metrics GoIO Base64 Checkpoints.
From S2P Require Import Pending PendingInv Deliveries GroupIndex GroupWork GroupInv.
#[local] Open Scope Z_scope.

(** ** On the pending deliveries *)

(** A subscriber changes in what the byte budgets do not look at. *)
Lemma pinv_setsub d L sr s s' : pinv d L -> dv_sstore d !! sr = Some s ->
  s_id s' = s_id s -> llen (s_ch s') <= llen (s_ch s) -> s_inflightBytes s' = s_inflightBytes s -> s_detached s' = s_detached s ->
  pinv (d <| dv_sstore := <[sr := s']> (dv_sstore d) |>) L.
Proof.
  intros I Hs E1 E2 E3 E4. destruct I. split; try done.
  - by destruct pi_budgets.
  - intros sid sr' Hsr. destruct (pi_subs _ _ Hsr) as (s0 & Hs0 & E & Hd0). cbn.
    destruct (decide (sr' = sr)) as [->|Hne]; [|rewrite lookup_insert_ne by done; eauto].
    rewrite lookup_insert_eq. assert (s0 = s) as -> by congruence. exists s'. split_and!; congruence.
  - cbn. intros sr' s1 [[<- <-]|[_ Hs']]%lookup_insert_Some; [|by eauto]. rewrite E1, E3, E4. by apply (pi_sub sr s).
  - cbn. intros sr' s1 [[_ <-]|[_ Hs']]%lookup_insert_Some; [|by eauto]. pose proof (pi_chan sr s Hs). lia.
  - cbn. intros sr' s1 [[_ <-]|[_ Hs']]%lookup_insert_Some; [|by eapply pi_sids]. rewrite E1. by apply (pi_sids sr s).
  - cbn. eapply uniqueIds_agree; [by eapply agree_insert|done].
Qed.

Definition fresh_sub (d : deliveries) (s : subscriber) : Prop :=
  s_detached s = false /\ s_cancel s <> None /\ s_ch s = [] /\ s_inflightBytes s = 0 /\
  (exists n, s_id s = idOf (dv_boot d) n /\ 0 < n <= dv_seq d) /\
  (forall id r p, dv_pending d !! id = Some r -> dv_pstore d !! r = Some p -> p_subscriberID p <> s_id s) /\
  dv_subs d !! s_id s = None /\ (forall sr' s', dv_sstore d !! sr' = Some s' -> s_id s' <> s_id s).

Lemma psum_zero d f : (forall id r p, dv_pending d !! id = Some r -> dv_pstore d !! r = Some p -> f p = false) ->
  psum d f = 0.
Proof.
  intros H. unfold psum. rewrite (msum_ext _ (fun _ _ => 0)).
  - unfold msum. induction (map_to_list (dv_pending d)) as [|x l IH]; [done|]. rewrite fmap_cons, zsum_cons, IH. done.
  - intros id r Hid. unfold pbytes. destruct (dv_pstore d !! r) as [p|] eqn:Hp; [|done]. by rewrite (H _ _ _ Hid Hp).
Qed.

Lemma pinv_attach d L sr s : pinv d L -> fresh_sub d s -> dv_sstore d !! sr = None ->
  pinv ((d <| dv_sstore := <[sr := s]> (dv_sstore d) |>) <| dv_subs := <[s_id s := sr]> (dv_subs d) |>) L.
Proof.
  intros I (Hdet & _ & Hch & Hin & (n & En & Hn) & Hno & Hsubs & Hids) Hsr. pose proof I as I0. destruct I. split; try done.
  - by destruct pi_budgets.
  - cbn. intros sid sr' [[<- <-]|[Hne Hs]]%lookup_insert_Some.
    + exists s. by rewrite lookup_insert_eq.
    + destruct (pi_subs _ _ Hs) as (s0 & Hs0 & E & Hd0). exists s0. rewrite lookup_insert_ne by congruence. done.
  - cbn. intros sr' s' [[<- <-]|[Hne Hs]]%lookup_insert_Some Hd.
    + rewrite lookup_insert_eq. split; [done|]. rewrite Hin.
      assert (E0 : psum d (sentTo (s_id s)) = 0).
      { apply psum_zero. intros id r p Hid Hp. apply bool_decide_false. by eapply Hno. }
      unfold psum in *. cbn. rewrite E0. split; [done|]. pose proof (bo_submax _ pi_budgets). lia.
    + destruct (pi_sub _ _ Hs Hd) as (E & ? & ?). split; [|done]. rewrite lookup_insert_ne; [done|]. congruence.
  - cbn. intros sr' s' [[_ <-]|[_ Hs]]%lookup_insert_Some; [|by eauto]. rewrite Hch. done.
  - cbn. intros sr' s' [[_ <-]|[_ Hs]]%lookup_insert_Some; [|by eapply pi_sids]. exists n. done.
  - cbn. intros sr1 sr2 s1 s2 [[<- <-]|[_ H1]]%lookup_insert_Some [[<- <-]|[_ H2]]%lookup_insert_Some E; [done|..].
    + exfalso. by eapply Hids.
    + exfalso. by eapply Hids.
    + by eapply pi_uniq.
Qed.

Lemma pinv_detach d L sr s : pinv d L -> dv_sstore d !! sr = Some s ->
  pinv ((d <| dv_sstore := <[sr := s <| s_detached := true |>]> (dv_sstore d) |>)
          <| dv_subs := delete (s_id s) (dv_subs d) |>) L.
Proof.
  intros I Hs. destruct I. split; try done.
  - by destruct pi_budgets.
  - cbn. intros sid sr' [Hne Hsr]%lookup_delete_Some. destruct (pi_subs _ _ Hsr) as (s0 & Hs0 & E & Hd0). exists s0.
    rewrite lookup_insert_ne; [done|]. intros <-. congruence.
  - cbn. intros sr' s' [[_ <-]|[Hne Hs']]%lookup_insert_Some Hd; [done|].
    destruct (pi_sub _ _ Hs' Hd) as (E & ? & ?). split; [|done]. rewrite lookup_delete_ne; [done|]. intros E'.
    destruct (pi_subs _ _ E) as (s0 & Hs0 & Es0 & _). apply Hne. by apply (pi_uniq sr sr' s s').
  - cbn. intros sr' s' [[_ <-]|[_ Hs']]%lookup_insert_Some; [by apply (pi_chan sr s)|by eapply pi_chan].
  - cbn. intros sr' s' [[_ <-]|[_ Hs']]%lookup_insert_Some; [by apply (pi_sids sr s)|by eapply pi_sids].
  - cbn. eapply uniqueIds_agree; [by eapply agree_insert|done].
Qed.

(** ** The member tables *)
Definition broadcastOf (topic : string) (b : groups) : gmap string loc := default ∅ (gr_topicBroadcast b !! topic).

(** The tables with the members of one topic and group (broadcast when it is empty) changed by [f]. *)
Record tables (topic group : string) (f : gmap string loc -> gmap string loc) (b b' : groups) : Prop := {
  tb_members : forall t g, membersOf t g b' =
    if decide (t = topic /\ g = group /\ group <> "") then f (membersOf t g b) else membersOf t g b;
  tb_broadcast : forall t, broadcastOf t b' =
    if decide (t = topic /\ group = "") then f (broadcastOf t b) else broadcastOf t b;
}.

Lemma default_Some {A} (d x : A) : default d (Some x) = x.
Proof. done. Qed.

Lemma lookup_delete_if {K V W} `{Countable K} `{Countable W} (m : gmap K (gmap W V)) k (x : gmap W V)
    `{!Decision (x = ∅)} :
  default ∅ ((if bool_decide (x = ∅) then delete k m else <[k := x]> m) !! k) = x.
Proof. destruct (bool_decide_reflect (x = ∅)) as [->|]; [by rewrite lookup_delete_eq|by rewrite lookup_insert_eq]. Qed.

Lemma lookup_delete_if_ne {K V W} `{Countable K} `{Countable W} (m : gmap K (gmap W V)) k k' (x : gmap W V)
    `{!Decision (x = ∅)} : k' <> k ->
  (if bool_decide (x = ∅) then delete k m else <[k := x]> m) !! k' = m !! k'.
Proof. intros Hne. destruct (bool_decide (x = ∅)); [by rewrite lookup_delete_ne|by rewrite lookup_insert_ne]. Qed.

(** The table update of [removeSubscriberLocked]. *)
Definition dropMember (s : subscriber) (b : groups) : groups :=
  if bool_decide (s_group s = "") then
    match gr_topicBroadcast b !! s_topic s with
    | None => b
    | Some members =>
      let members := delete (s_id s) members in
      b <| gr_topicBroadcast := if bool_decide (members = ∅) then delete (s_topic s) (gr_topicBroadcast b)
                                else <[s_topic s := members]> (gr_topicBroadcast b) |>
    end
  else
    match gr_topicGroups b !! s_topic s with
    | None => b
    | Some topic =>
      let members := delete (s_id s) (default ∅ (topic !! s_group s)) in
      let topic := if bool_decide (members = ∅) then delete (s_group s) topic else <[s_group s := members]> topic in
      b <| gr_topicGroups := if bool_decide (topic = ∅) then delete (s_topic s) (gr_topicGroups b)
                             else <[s_topic s := topic]> (gr_topicGroups b) |>
    end.

Lemma dropMember_tables s b : tables (s_topic s) (s_group s) (delete (s_id s)) b (dropMember s b).
Proof.
  unfold dropMember. destruct (bool_decide_reflect (s_group s = "")) as [Hg|Hg].
  - assert (Hm : forall b', gr_topicGroups b' = gr_topicGroups b -> forall t g, membersOf t g b' = membersOf t g b)
      by (unfold membersOf; by intros b' ->).
    destruct (gr_topicBroadcast b !! s_topic s) as [ms|] eqn:E.
    + split; [intros t g; rewrite decide_False by tauto; by apply Hm|]. intros t. unfold broadcastOf, setf, set_gr_topicBroadcast. cbn [gr_topicBroadcast].
      destruct (decide (t = s_topic s)) as [->|Hne].
      * rewrite decide_True by done. rewrite lookup_delete_if, E. done.
      * rewrite decide_False by tauto. by rewrite lookup_delete_if_ne.
    + split; [intros t g; by rewrite decide_False by tauto|]. intros t. destruct (decide _) as [[-> _]|]; [|done].
      unfold broadcastOf. rewrite E. cbn. by rewrite delete_empty.
  - assert (Hm : forall b', gr_topicBroadcast b' = gr_topicBroadcast b -> forall t, broadcastOf t b' = broadcastOf t b)
      by (unfold broadcastOf; by intros b' ->).
    destruct (gr_topicGroups b !! s_topic s) as [topic|] eqn:E.
    + split; [|intros t; rewrite decide_False by tauto; by apply Hm]. intros t g. unfold membersOf, setf, set_gr_topicGroups. cbn [gr_topicGroups].
      destruct (decide (t = s_topic s)) as [->|Hne].
      * rewrite lookup_delete_if, E. cbn [default]. destruct (decide (g = s_group s)) as [->|Hgne].
        { rewrite lookup_delete_if. by rewrite decide_True. }
        { rewrite lookup_delete_if_ne by done. by rewrite decide_False by tauto. }
      * rewrite lookup_delete_if_ne by done. by rewrite decide_False by tauto.
    + split; [|intros t; by rewrite decide_False by tauto]. intros t g. destruct (decide _) as [(-> & -> & _)|]; [|done].
      unfold membersOf. rewrite E. cbn. rewrite lookup_empty. cbn. by rewrite delete_empty.
Qed.

Lemma dropMember_rest s b : gr_dv (dropMember s b) = gr_dv b /\ gr_ck (dropMember s b) = gr_ck b /\
  gr_groupWork (dropMember s b) = gr_groupWork b /\ gr_groupWorkByTopic (dropMember s b) = gr_groupWorkByTopic b /\
  gr_groupMemoryBytes (dropMember s b) = gr_groupMemoryBytes b /\
  gr_streamMemoryBytes (dropMember s b) = gr_streamMemoryBytes b.
Proof. unfold dropMember. destruct (bool_decide _), (_ !! _); by split_and!. Qed.

(** The table update of [addSubscriberLocked]. *)
Definition addMember (s : subscriber) (sr : loc) (b : groups) : groups :=
  if bool_decide (s_group s = "") then
    b <| gr_topicBroadcast :=
      <[s_topic s := <[s_id s := sr]> (default ∅ (gr_topicBroadcast b !! s_topic s))]> (gr_topicBroadcast b) |>
  else
    let topic := default ∅ (gr_topicGroups b !! s_topic s) in
    b <| gr_topicGroups :=
      <[s_topic s := <[s_group s := <[s_id s := sr]> (default ∅ (topic !! s_group s))]> topic]> (gr_topicGroups b) |>.

Lemma addMember_tables s sr b : tables (s_topic s) (s_group s) (insert (s_id s) sr) b (addMember s sr b).
Proof.
  unfold addMember. destruct (bool_decide_reflect (s_group s = "")) as [Hg|Hg]; split; intros t.
  - intros g. by rewrite decide_False by tauto.
  - unfold broadcastOf, setf, set_gr_topicBroadcast. cbn [gr_topicBroadcast]. destruct (decide (t = s_topic s)) as [->|Hne].
    + by rewrite lookup_insert_eq, decide_True.
    + rewrite lookup_insert_ne by done. by rewrite decide_False by tauto.
  - intros g. unfold membersOf, setf, set_gr_topicGroups. cbn [gr_topicGroups]. destruct (decide (t = s_topic s)) as [->|Hne].
    + rewrite lookup_insert_eq, default_Some. destruct (decide (g = s_group s)) as [->|Hgne].
      * by rewrite lookup_insert_eq, decide_True.
      * rewrite lookup_insert_ne by done. by rewrite decide_False by tauto.
    + rewrite lookup_insert_ne by done. by rewrite decide_False by tauto.
  - by rewrite decide_False by tauto.
Qed.

Lemma addMember_rest s sr b : gr_dv (addMember s sr b) = gr_dv b /\ gr_ck (addMember s sr b) = gr_ck b /\
  gr_groupWork (addMember s sr b) = gr_groupWork b /\ gr_groupWorkByTopic (addMember s sr b) = gr_groupWorkByTopic b /\
  gr_groupMemoryBytes (addMember s sr b) = gr_groupMemoryBytes b /\
  gr_streamMemoryBytes (addMember s sr b) = gr_streamMemoryBytes b.
Proof. unfold addMember. by destruct (bool_decide _). Qed.

(** ** Removal and registration on the broker *)

Lemma mem_ok_rest b b' : mem_ok b -> gr_groupWork b' = gr_groupWork b -> gr_groupWorkByTopic b' = gr_groupWorkByTopic b ->
  gr_groupMemoryBytes b' = gr_groupMemoryBytes b -> gr_streamMemoryBytes b' = gr_streamMemoryBytes b ->
  gr_cfg b' = gr_cfg b -> mem_ok b'.
Proof. intros [] E1 E2 E3 E4 E5. split; rewrite ?E1, ?E2, ?E3, ?E4, ?E5; done. Qed.

(** What subscriber operations leave alone. *)
Definition indexKept (b b' : groups) : Prop :=
  gr_groupWork b' = gr_groupWork b /\ gr_groupWorkByTopic b' = gr_groupWorkByTopic b /\
  gr_groupMemoryBytes b' = gr_groupMemoryBytes b /\ gr_streamMemoryBytes b' = gr_streamMemoryBytes b /\
  gr_ck b' = gr_ck b /\ gr_cfg b' = gr_cfg b /\ dv_boot (gr_dv b') = dv_boot (gr_dv b) /\
  dv_seq (gr_dv b') = dv_seq (gr_dv b) /\ dv_pending (gr_dv b') = dv_pending (gr_dv b) /\
  dv_pstore (gr_dv b') = dv_pstore (gr_dv b).

#[export] Instance indexKept_refl : Reflexive indexKept.
Proof. intros b. by split_and!. Qed.
#[export] Instance indexKept_trans : Transitive indexKept.
Proof.
  intros a b c (?&?&?&?&?&?&?&?&?&?) (?&?&?&?&?&?&?&?&?&?). unfold indexKept. split_and!; congruence.
Qed.

(** The subscriber at [sr] is out of every table. *)
Record left_ (b : groups) (sr : loc) (s : subscriber) (b' : groups) : Prop := {
  lf_index : indexKept b b';
  lf_tables : tables (s_topic s) (s_group s) (delete (s_id s)) b b';
  lf_subs : dv_subs (gr_dv b') = delete (s_id s) (dv_subs (gr_dv b));
  lf_store : exists s', s_detached s' = true /\ s_cancel s' = s_cancel s /\
    dv_sstore (gr_dv b') = <[sr := s']> (dv_sstore (gr_dv b));
}.

Lemma attached_left b sr s b' topic group sid r : left_ b sr s b' -> r <> sr ->
  attached (gr_dv b) topic group sid r -> attached (gr_dv b') topic group sid r.
Proof.
  intros [_ _ _ (s' & _ & _ & E)] Hne (x & Hx & H). exists x. split; [|done]. by rewrite E, lookup_insert_ne.
Qed.

Lemma ginv_left b sr s b' : ginv b -> dv_sstore (gr_dv b) !! sr = Some s -> left_ b sr s b' ->
  pend_ok (gr_dv b') -> ginv b'.
Proof.
  intros G Hs Lf Hp. pose proof Lf as [(E1 & E2 & E3 & E4 & E5 & E6 & _) [T1 T2] _ _]. split.
  - by eapply mem_ok_rest; [apply (gn_mem _ G)|..].
  - done.
  - rewrite E5. apply (gn_ck _ G).
  - intros topic group sid r. rewrite T1. destruct (decide _) as [(-> & -> & Hg)|Hne]; intros Hr.
    + apply lookup_delete_Some in Hr as [Hid Hr]. destruct (gn_members _ G _ _ _ _ Hr) as [_ Hatt]. split; [done|].
      eapply attached_left; [exact Lf| |exact Hatt]. intros ->. destruct Hatt as (x & Hx & Ei & _). congruence.
    + destruct (gn_members _ G _ _ _ _ Hr) as [Hg Hatt]. split; [done|].
      eapply attached_left; [exact Lf| |exact Hatt]. intros ->. destruct Hatt as (x & Hx & _ & Et & Eg & _).
      apply Hne. split_and!; congruence.
  - intros topic sid r. change (default ∅ (gr_topicBroadcast b' !! topic)) with (broadcastOf topic b'). rewrite T2.
    destruct (decide _) as [[-> Hg]|Hne]; intros Hr.
    + apply lookup_delete_Some in Hr as [Hid Hr]. pose proof (gn_broadcast _ G _ _ _ Hr) as Hatt.
      eapply attached_left; [exact Lf| |exact Hatt]. intros ->. destruct Hatt as (x & Hx & Ei & _). congruence.
    + pose proof (gn_broadcast _ G _ _ _ Hr) as Hatt.
      eapply attached_left; [exact Lf| |exact Hatt]. intros ->. destruct Hatt as (x & Hx & _ & Et & Eg & _).
      apply Hne. split; congruence.
  - rewrite E6. apply (gn_attempts _ G).
  - destruct (lf_store _ _ _ _ Lf) as (s' & _ & Ec & ->). intros r x [[_ <-]|[_ Hx]]%lookup_insert_Some.
    + rewrite Ec. by apply (gn_cancel _ G sr).
    + by apply (gn_cancel _ G r).
Qed.

Lemma wp_sderef_b b sr s (Q : subscriber -> groups -> Prop) :
  dv_sstore (gr_dv b) !! sr = Some s -> Q s b -> wp (inDeliveries (sderef sr)) b Q.
Proof. intros Hs HQ. apply wp_inDeliveries. eapply wp_sderef; [exact Hs|]. by destruct b. Qed.

Lemma wp_removeSubscriber b sr s (Q : unit -> groups -> Prop) :
  ginv b -> dv_sstore (gr_dv b) !! sr = Some s ->
  (forall b', ginv b' -> left_ b sr s b' ->
     dv_sstore (gr_dv b') = <[sr := s <| s_detached := true |>]> (dv_sstore (gr_dv b)) -> Q tt b') ->
  wp (removeSubscriberLocked sr) b Q.
Proof.
  intros G Hs HQ. destruct (gn_pend _ G) as [L I]. unfold removeSubscriberLocked.
  wp_step. apply wp_inDeliveries. eapply wp_supdate; [exact Hs|]. wp_step.
  eapply wp_sderef_b; [cbn; apply lookup_insert_eq|]. wp_step. apply wp_inDeliveries. apply wp_modify. apply wp_modify.
  set (s' := s <| s_detached := true |>). set (b1 := setf _ _).
  change (Q tt (dropMember s b1)).
  pose proof (dropMember_tables s b1) as [T1 T2].
  destruct (dropMember_rest s b1) as (E1 & E2 & E3 & E4 & E5 & E6).
  assert (Hss : dv_sstore (gr_dv (dropMember s b1)) = <[sr := s']> (dv_sstore (gr_dv b))) by (rewrite E1; done).
  assert (Lf : left_ b sr s (dropMember s b1)).
  { split.
    - unfold indexKept, gr_cfg. rewrite E1, E2, E3, E4, E5, E6. by split_and!.
    - split; [intros t g; rewrite T1; done|intros t; rewrite T2; done].
    - rewrite E1. done.
    - exists s'. done. }
  apply HQ; [|done|done]. eapply ginv_left; [exact G|exact Hs|exact Lf|].
  exists L. rewrite E1. exact (pinv_detach _ L sr s I Hs).
Qed.

(** ** Fencing *)

(** What identifies a subscriber for dispatch and fencing. *)
Definition identity (s : subscriber) : string * string * string * string := (s_id s, s_topic s, s_group s, s_affinityID s).

(** What a subscriber keeps whatever happens to others: its identity and, outside a group, its place in
    the registry. *)
Definition standing (s : subscriber) : string * string * string * string * bool :=
  (identity s, if bool_decide (s_group s = "") then s_detached s else false).

Lemma standing_identity s s' : standing s' = standing s -> identity s' = identity s.
Proof. intros E. exact (f_equal fst E). Qed.

(** Subscribers may leave or be cancelled; none comes or changes its identity, and those of broadcasts stay. *)
Record regShrunk (b b' : groups) : Prop := {
  rs_index : indexKept b b';
  rs_stand : agree standing (dv_sstore (gr_dv b)) (dv_sstore (gr_dv b'));
  rs_subs : dv_subs (gr_dv b') ⊆ dv_subs (gr_dv b);
  rs_members : forall t g, membersOf t g b' ⊆ membersOf t g b;
  rs_broadcast : forall t, broadcastOf t b' ⊆ broadcastOf t b;
}.
#[export] Instance regShrunk_refl : Reflexive regShrunk.
Proof. intros b. by split. Qed.
#[export] Instance regShrunk_trans : Transitive regShrunk.
Proof.
  intros a b c [A1 A2 A3 A4 A5] [B1 B2 B3 B4 B5].
  split; [by etransitivity..|intros t g; etransitivity; [apply B4|apply A4]|intros t; etransitivity; [apply B5|apply A5]].
Qed.

Lemma rs_store b b' : regShrunk b b' -> agree identity (dv_sstore (gr_dv b)) (dv_sstore (gr_dv b')).
Proof.
  intros Sh r. pose proof (rs_stand _ _ Sh r) as E.
  destruct (dv_sstore (gr_dv b) !! r), (dv_sstore (gr_dv b') !! r); cbn in *; try done. f_equal. apply standing_identity. exact (inj Some _ _ E).
Qed.

Lemma registry_standing d d' : registryKept d d' -> agree standing (dv_sstore d) (dv_sstore d').
Proof.
  intros (_ & _ & _ & Ha) r. specialize (Ha r). destruct (dv_sstore d !! r) as [x|], (dv_sstore d' !! r) as [y|]; cbn in *; try done.
  apply (inj Some) in Ha. unfold subFields in Ha. injection Ha as E1 E2 E3 E4 _ E5 _. f_equal. unfold standing, identity.
  by rewrite E1, E2, E3, E4, E5.
Qed.

Lemma left_shrunk b sr s b' : dv_sstore (gr_dv b) !! sr = Some s -> s_group s <> "" ->
  dv_sstore (gr_dv b') = <[sr := s <| s_detached := true |>]> (dv_sstore (gr_dv b)) -> left_ b sr s b' -> regShrunk b b'.
Proof.
  intros Hs Hg Ess [L1 [T1 T2] L3 _]. split; [done|..].
  - rewrite Ess. eapply agree_insert; [exact Hs|]. unfold standing. cbn. by rewrite (bool_decide_false (s_group s = "")).
  - rewrite L3. apply delete_subseteq.
  - intros t g. rewrite T1. destruct (decide _); [apply delete_subseteq|done].
  - intros t. rewrite T2. destruct (decide _); [apply delete_subseteq|done].
Qed.

Definition putSub (sr : loc) (s : subscriber) (b : groups) : groups :=
  b <| gr_dv := (gr_dv b) <| dv_sstore := <[sr := s]> (dv_sstore (gr_dv b)) |> |>.

Lemma ginv_putSub b sr s s' : ginv b -> dv_sstore (gr_dv b) !! sr = Some s -> identity s' = identity s ->
  (s_cancel s <> None -> s_cancel s' <> None) ->
  llen (s_ch s') <= llen (s_ch s) -> s_inflightBytes s' = s_inflightBytes s -> s_detached s' = s_detached s ->
  ginv (putSub sr s' b) /\ regShrunk b (putSub sr s' b).
Proof.
  intros G Hs Ei Hcan E1 E2 E3. unfold identity in Ei. injection Ei as F1 F2 F3 F4.
  destruct (gn_pend _ G) as [L I]. split.
  - assert (Hatt : forall topic group sid r, attached (gr_dv b) topic group sid r ->
      attached (gr_dv (putSub sr s' b)) topic group sid r).
    { intros topic group sid r (x & Hx & H). destruct (decide (r = sr)) as [->|Hne].
      - exists s'. cbn. rewrite lookup_insert_eq. assert (x = s) as -> by congruence. rewrite F1, F2, F3, E3. done.
      - exists x. cbn. by rewrite lookup_insert_ne. }
    split.
    + eapply mem_ok_rest; [apply (gn_mem _ G)|done..].
    + exists L. by eapply pinv_setsub.
    + apply (gn_ck _ G).
    + intros topic group sid r H. destruct (gn_members _ G _ _ _ _ H) as [? ?]. split; [done|]. by apply Hatt.
    + intros topic sid r H. by apply Hatt, (gn_broadcast _ G _ _ _ H).
    + apply (gn_attempts _ G).
    + cbn. intros r x [[_ <-]|[_ Hx]]%lookup_insert_Some; [by eapply Hcan, (gn_cancel _ G)|by apply (gn_cancel _ G r)].
  - split; try done. cbn. eapply agree_insert; [exact Hs|]. unfold standing, identity. by rewrite F1, F2, F3, F4, E3.
Qed.

Lemma wp_supdate_b b sr s f (Q : unit -> groups -> Prop) :
  dv_sstore (gr_dv b) !! sr = Some s -> Q tt (putSub sr (f s) b) -> wp (inDeliveries (supdate sr f)) b Q.
Proof. intros Hs HQ. apply wp_inDeliveries. by eapply wp_supdate. Qed.

(** After the fence no member of the group has the affinity of [s]. *)
Lemma wp_fence b s (Q : unit -> groups -> Prop) :
  ginv b ->
  (forall b', ginv b' -> regShrunk b b' ->
     (s_group s <> "" -> s_affinityID s <> "" -> forall sid sr x, membersOf (s_topic s) (s_group s) b' !! sid = Some sr ->
        subAt b' sr = Some x -> s_affinityID x <> s_affinityID s) -> Q tt b') ->
  wp (fenceAffinityMemberLocked s) b Q.
Proof.
  intros G HQ. unfold fenceAffinityMemberLocked. apply wp_when; intros Hc.
  2:{ apply HQ; [done|reflexivity|]. intros H1 H2. rewrite !bool_decide_true in Hc by done. done. }
  apply andb_true_iff in Hc as [Hg _]. apply bool_decide_eq_true in Hg.
  wp_step. apply wp_get. set (scope := mkScope (s_topic s) (s_group s)).
  apply (wp_for (fun rem c => ginv c /\ regShrunk b c /\ (forall sr, sr ∈ rem -> sr ∈ groupMembers scope b) /\
    forall sid sr x, membersOf (s_topic s) (s_group s) c !! sid = Some sr -> subAt c sr = Some x ->
      s_affinityID x = s_affinityID s -> sr ∈ rem)).
  - split_and!; [done|reflexivity|done|]. intros sid sr x Hm _ _. apply groupMembers_elem. eauto.
  - intros er rem c (Gc & Sc & Hrem & Hout).
    assert (is_Some (subAt b er)) as [e0 He0] by (apply (members_live b scope G), Hrem; by left).
    destruct (agree_lookup _ _ _ _ _ (rs_store _ _ Sc) He0) as (e & He & Eie).
    wp_step. eapply wp_sderef_b; [exact He|]. apply wp_when; intros Hb; [apply bool_decide_eq_true in Hb|apply bool_decide_eq_false in Hb].
    + wp_step. eapply wp_supdate_b; [exact He|]. wp_step. eapply wp_supdate_b; [cbn; apply lookup_insert_eq|].
      set (e1 := e <| s_replaying := false |>). set (e2 := setf (if s_cancel e1 then Some true else None) e1).
      destruct (ginv_putSub c er e e1 Gc He) as [G1 S1]; [done..|].
      destruct (ginv_putSub (putSub er e1 c) er e1 e2 G1) as [G2 S2]; [cbn; apply lookup_insert_eq|done| |done..|]; [by destruct (s_cancel e1)|].
      eapply wp_removeSubscriber; [exact G2|cbn; apply lookup_insert_eq|]. intros c' G' Lf Ess.
      assert (Hgs : er ∈ groupMembers scope b) by (apply Hrem; by left).
      apply groupMembers_elem in Hgs as [sid0 Hsid0]. destruct (gn_members _ G _ _ _ _ Hsid0) as (_ & x0 & Hx0 & Ei0 & Et0 & Eg0 & _).
      assert (Hge : s_group e <> "").
      { assert (x0 = e0) as -> by (unfold subAt in He0; congruence). apply (f_equal (fun x => x.1.2)) in Eie. cbn in Eie, Eg0. congruence. }
      pose proof (left_shrunk _ _ e2 _ (lookup_insert_eq _ _ _) Hge Ess Lf) as S3.
      split; [done|]. split; [etransitivity; [exact Sc|]; etransitivity; [exact S1|]; by etransitivity|].
      split; [intros sr Hsr; apply Hrem; by right|].
      intros sid sr x Hm Hx Ea. assert (Hm0 := Hm). pose proof (lookup_weaken _ _ _ _ Hm (rs_members _ _ S3 _ _)) as Hm2.
      destruct (decide (sr = er)) as [->|Hne].
      * exfalso. destruct (gn_members _ G' _ _ _ _ Hm0) as (_ & y & Hy & _ & _ & _ & Hdy). rewrite Ess, lookup_insert_eq in Hy.
        apply (inj Some) in Hy. subst y. done.
      * unfold subAt in Hx. rewrite Ess, lookup_insert_ne in Hx by done. cbn in Hx. rewrite !lookup_insert_ne in Hx by done.
        assert (Hin : sr ∈ er :: rem) by (eapply Hout; [exact Hm2|exact Hx|exact Ea]).
        apply elem_of_cons in Hin as [?|?]; done.
    + split_and!; try done; [intros sr Hsr; apply Hrem; by right|].
      intros sid sr x Hm Hx Ea. pose proof (Hout _ _ _ Hm Hx Ea) as Hin. apply elem_of_cons in Hin as [->|?]; [|done].
      exfalso. apply Hb. unfold subAt in Hx. congruence.
  - intros c (Gc & Sc & _ & Hout). apply HQ; [done|done|]. intros _ _ sid sr x Hm Hx Ea.
    pose proof (Hout _ _ _ Hm Hx Ea) as Hin. by apply elem_of_nil in Hin.
Qed.

(** ** Registration of a subscriber *)
Record joined (b : groups) (s : subscriber) (sr : loc) (b' : groups) : Prop := {
  jn_fresh : dv_sstore (gr_dv b) !! sr = None;
  jn_dv : gr_dv b' = ((gr_dv b) <| dv_sstore := <[sr := s]> (dv_sstore (gr_dv b)) |>)
                       <| dv_subs := <[s_id s := sr]> (dv_subs (gr_dv b)) |>;
  jn_tables : tables (s_topic s) (s_group s) (insert (s_id s) sr) b b';
  jn_slack : slack b' = slack b;
  jn_ck : gr_ck b' = gr_ck b;
  jn_queue : forall scope key, queueOf b' scope key = queueOf b scope key;
}.

Lemma ginv_joined b s sr b' : ginv b -> mem_ok b' -> fresh_sub (gr_dv b) s -> joined b s sr b' -> ginv b'.
Proof.
  intros G M Hf [J1 J2 [T1 T2] _ J4 _]. destruct (gn_pend _ G) as [L I].
  assert (Hold : forall topic group sid r, attached (gr_dv b) topic group sid r -> attached (gr_dv b') topic group sid r).
  { intros topic group sid r (x & Hx & H). exists x. rewrite J2. cbn. rewrite lookup_insert_ne; [done|]. intros <-. congruence. }
  assert (Hnew : attached (gr_dv b') (s_topic s) (s_group s) (s_id s) sr).
  { exists s. rewrite J2. cbn. rewrite lookup_insert_eq. by destruct Hf. }
  split.
  - done.
  - exists L. rewrite J2. by apply pinv_attach.
  - rewrite J4. apply (gn_ck _ G).
  - intros topic group sid r. rewrite T1. destruct (decide _) as [(-> & -> & Hg)|Hne]; intros Hr.
    + apply lookup_insert_Some in Hr as [[<- <-]|[_ Hr]]; [done|]. destruct (gn_members _ G _ _ _ _ Hr). by auto.
    + destruct (gn_members _ G _ _ _ _ Hr). by auto.
  - intros topic sid r. change (default ∅ (gr_topicBroadcast b' !! topic)) with (broadcastOf topic b'). rewrite T2.
    destruct (decide _) as [[-> Hg]|Hne]; intros Hr.
    + apply lookup_insert_Some in Hr as [[<- <-]|[_ Hr]]; [by rewrite Hg in Hnew|]. by apply Hold, (gn_broadcast _ G).
    + by apply Hold, (gn_broadcast _ G).
  - unfold gr_cfg. rewrite J2. apply (gn_attempts _ G).
  - rewrite J2. cbn. intros r x [[_ <-]|[_ Hx]]%lookup_insert_Some; [apply Hf|by apply (gn_cancel _ G r)].
Qed.

Lemma tables_rebase topic group f b b1 b' : gr_topicBroadcast b1 = gr_topicBroadcast b -> gr_topicGroups b1 = gr_topicGroups b ->
  tables topic group f b1 b' -> tables topic group f b b'.
Proof.
  intros E1 E2 [T1 T2]. split.
  - intros t g. rewrite T1. unfold membersOf. by rewrite E2.
  - intros t. rewrite T2. unfold broadcastOf. by rewrite E1.
Qed.

Lemma wp_addSubscriber b s (Q : loc -> groups -> Prop) :
  ginv b -> fresh_sub (gr_dv b) s -> slen (s_topic s) + slen (s_group s) < 2 ^ 61 ->
  (forall sr b', ginv b' -> joined b s sr b' -> Q sr b') -> wp (addSubscriberLocked s) b Q.
Proof.
  intros G Hf Hlen HQ. unfold addSubscriberLocked. wp_step.
  set (P := fun (_ : bool) b1 => mem_ok b1 /\ gr_dv b1 = gr_dv b /\ gr_ck b1 = gr_ck b /\
    gr_topicBroadcast b1 = gr_topicBroadcast b /\ gr_topicGroups b1 = gr_topicGroups b /\ slack b1 = slack b /\
    forall scope key, queueOf b1 scope key = queueOf b scope key).
  apply (wp_mono _ _ P).
  { destruct (bool_decide (s_group s <> "")).
    - apply wp_registerGroup; [apply (gn_mem _ G)| | |done].
      + intros b1 M1 [(R1 & R2 & R3 & R4 & R5) _ _ R6 _]. by split_and!.
      + intros _. split_and!; try done. apply (gn_mem _ G).
    - apply wp_ret. split_and!; try done. apply (gn_mem _ G). }
  intros _ b1 (M1 & E1 & E2 & E3 & E4 & E5 & E6). wp_step. apply wp_get. cbv zeta. rewrite E1.
  set (sr := fresh _). assert (Hsr : dv_sstore (gr_dv b) !! sr = None) by (apply not_elem_of_dom, is_fresh).
  wp_step. apply wp_inDeliveries. apply wp_modify. wp_step. apply wp_modify. apply wp_ret.
  set (b2 := b1 <| gr_dv := _ |>). change (Q sr (addMember s sr b2)).
  destruct (addMember_rest s sr b2) as (F1 & F2 & F3 & F4 & F5 & F6).
  assert (J : joined b s sr (addMember s sr b2)).
  { split.
    - done.
    - rewrite F1. cbn. by rewrite E1.
    - eapply (tables_rebase _ _ _ b b2); [by cbn|by cbn|]. apply addMember_tables.
    - unfold slack. rewrite F5, F6. exact E5.
    - by rewrite F2.
    - intros scope key. unfold queueOf. rewrite F3. apply E6. }
  apply HQ; [|done]. eapply ginv_joined; [exact G| |exact Hf|exact J].
  eapply mem_ok_rest; [exact M1|done..|]. unfold gr_cfg. rewrite F1. done.
Qed.

(** ** The life of a stream *)
Lemma pinv_seq d L : pinv d L -> pinv (d <| dv_seq := dv_seq d + 1 |>) L.
Proof.
  intros I. pose proof (pi_seq _ _ I). destruct I. split; try done; try (cbn; lia).
  - by destruct pi_budgets.
  - intros id r Hid. apply (issued_mono d); [done|cbn; lia|by eapply pi_ids].
  - intros sr s Hs. apply (issued_mono d); [done|cbn; lia|by eapply pi_sids].
  - intros id r p Hid Hp. apply (issued_mono d); [done|cbn; lia|by eapply pi_pids].
Qed.

(** A new identifier is fresh for a subscriber, also after others have left. *)
Lemma fresh_new d L d' s : pinv d L -> dv_seq d + 1 < 2 ^ 64 ->
  dv_boot d' = dv_boot d -> dv_seq d' = dv_seq d + 1 -> dv_pending d' = dv_pending d -> dv_pstore d' = dv_pstore d ->
  agree identity (dv_sstore d) (dv_sstore d') -> dv_subs d' ⊆ dv_subs d ->
  s_id s = idOf (dv_boot d) (dv_seq d + 1) -> s_detached s = false -> s_cancel s <> None -> s_ch s = [] -> s_inflightBytes s = 0 ->
  fresh_sub d' s.
Proof.
  intros I Hseq Eb Eq Ep Est Ha Hsub Eid Hd Hcan Hc Hi. pose proof (pi_seq _ _ I).
  assert (Hnew : ~ issued d (s_id s)).
  { intros (n & Hn & E). rewrite Eid in E. apply idOf_inj in E; unfold in_u64; lia. }
  split_and!; try done.
  - exists (dv_seq d + 1). rewrite Eb, Eq. split; [done|lia].
  - intros id r p. rewrite Ep, Est. intros Hid Hp E. apply Hnew. rewrite <- E. by eapply pi_pids.
  - destruct (dv_subs d' !! s_id s) as [sr|] eqn:E; [|done]. exfalso. apply Hnew.
    apply (lookup_weaken _ _ _ _ E) in Hsub. destruct (pi_subs _ _ I _ _ Hsub) as (s0 & Hs0 & <- & _). by eapply pi_sids.
  - intros sr' s' Hs' E. apply Hnew. rewrite <- E.
    destruct (agree_lookup _ _ _ _ _ (symmetry Ha) Hs') as (s0 & Hs0 & Ei). unfold identity in Ei. injection Ei as <- _ _ _.
    by eapply pi_sids.
Qed.

Lemma ginv_stream b n : ginv b -> gr_groupMemoryBytes b <= n <= cfg_StreamMemoryBytes (gr_cfg b) ->
  ginv (b <| gr_streamMemoryBytes := n |>).
Proof.
  intros G Hn. eapply ginv_rest; [exact G| |apply (gn_ck _ G)|done..]. destruct (gn_mem _ G). by split.
Qed.

Lemma wp_nextID_b b (Q : string -> groups -> Prop) :
  ginv b -> dv_seq (gr_dv b) + 1 < 2 ^ 64 ->
  (forall b', ginv b' -> b' = b <| gr_dv := (gr_dv b) <| dv_seq := dv_seq (gr_dv b) + 1 |> |> ->
     Q (idOf (dv_boot (gr_dv b)) (dv_seq (gr_dv b) + 1)) b') ->
  wp (inDeliveries nextID) b Q.
Proof.
  intros G Hs HQ. destruct (gn_pend _ G) as [L I]. apply wp_inDeliveries. unfold nextID. wp_step. apply wp_modify.
  wp_step. apply wp_get. apply wp_ret.
  rewrite (u64_id (dv_seq (gr_dv b) + 1)) by (pose proof (pi_seq _ _ I); unfold in_u64; lia).
  apply HQ; [|done]. apply ginv_dv; [done|exists L; by apply pinv_seq|by split_and!].
Qed.

(** [endStream]: the stream's memory is given back, its subscriber is gone and what it had in flight
    is due. *)
Record ended (b : groups) (sr : loc) (s : subscriber) (reserved now : Z) (b' : groups) : Prop := {
  en_slack : slack b' = slack b - reserved;
  en_tables : tables (s_topic s) (s_group s) (delete (s_id s)) b b';
  en_subs : dv_subs (gr_dv b') = delete (s_id s) (dv_subs (gr_dv b));
  en_flight : inflight (gr_dv b') =
    map_imap (fun _ f => Some (if bool_decide (f_subscriber f = s_id s) then f <| f_due := now |> else f)) (inflight (gr_dv b));
  en_queue : forall scope key, queueOf b' scope key = queueOf b scope key;
  en_old : forall r x, r <> sr -> subAt b r = Some x -> exists y, subAt b' r = Some y /\ standing y = standing x;
}.

Lemma wp_makeSubscriberDue_flights sid now d L (Q : unit -> deliveries -> Prop) :
  pinv d L ->
  (forall d', pinv d' L -> registryKept d d' -> dv_seq d' = dv_seq d ->
     inflight d' = map_imap (fun _ f => Some (if bool_decide (f_subscriber f = sid) then f <| f_due := now |> else f))
                    (inflight d) -> Q tt d') ->
  wp (makeSubscriberDue sid now) d Q.
Proof.
  intros I HQ. eapply wp_makeSubscriberDue; [exact I|]. intros d' I' M. apply HQ; [done|by eapply madeDue_registry| |].
  { by rewrite (md_rest _ _ _ _ M). }
  set (P := fun r => exists id p, dv_pending d !! id = Some r /\ dv_pstore d !! r = Some p /\ p_subscriberID p = sid) in M.
  assert (HP : forall id r f, dv_pending d !! id = Some r -> inflight d !! id = Some f ->
    P r <-> bool_decide (f_subscriber f = sid) = true).
  { intros id r f Hid Hf. rewrite inflight_lookup, Hid in Hf. cbn in Hf. unfold flightAt in Hf.
    destruct (dv_pstore d !! r) as [p|] eqn:Hp; [|done]. apply (inj Some) in Hf. subst f. rewrite bool_decide_eq_true. cbn.
    split; [intros (id' & p' & _ & Hp' & <-); congruence|]. intros E. exists id, p. done. }
  by apply (inflight_due_all d L P (fun _ f => bool_decide (f_subscriber f = sid)) now d').
Qed.

Lemma wp_endStream b sr s reserved now (Q : unit -> groups -> Prop) :
  ginv b -> dv_sstore (gr_dv b) !! sr = Some s -> 0 <= reserved <= slack b ->
  (forall b', ginv b' -> ended b sr s reserved now b' -> Q tt b') ->
  wp (endStream sr reserved now) b Q.
Proof.
  intros G Hs Hr HQ. unfold endStream. wp_step. eapply wp_removeSubscriber; [exact G|exact Hs|].
  intros b1 G1 [L1 L2 L3 _] Ess. wp_step. eapply wp_sderef_b; [rewrite Ess; apply lookup_insert_eq|].
  destruct (gn_pend _ G1) as [L I1]. wp_step. apply wp_inDeliveries.
  eapply wp_makeSubscriberDue_flights; [exact I1|]. intros d2 I2 Hreg Hseq Hfl.
  assert (G2 : ginv (b1 <| gr_dv := d2 |>)) by (apply ginv_dv; [done|by exists L|done]).
  set (b2 := b1 <| gr_dv := d2 |>) in *. unfold releaseStreamMemory. apply wp_modify.
  destruct L1 as (E1 & E2 & E3 & E4 & E5 & E6 & E7 & E8 & E9 & E10).
  assert (F3 : gr_groupMemoryBytes b2 = gr_groupMemoryBytes b) by exact E3.
  assert (F4 : gr_streamMemoryBytes b2 = gr_streamMemoryBytes b) by exact E4.
  pose proof (mo_stream _ (gn_mem _ G2)). pose proof (mo_limit _ (gn_mem _ G2)).
  pose proof (groupTotal_nonneg _ (gn_mem _ G2)) as Hnn. rewrite <- (mo_bytes _ (gn_mem _ G2)) in Hnn.
  unfold slack in Hr. i64s. apply HQ.
  - apply ginv_stream; [exact G2|]. lia.
  - split.
    + unfold slack. cbn [gr_streamMemoryBytes gr_groupMemoryBytes].
      change (gr_streamMemoryBytes b2 - reserved - gr_groupMemoryBytes b2 = gr_streamMemoryBytes b - gr_groupMemoryBytes b - reserved). lia.
    + destruct L2 as [T1 T2]. split; [exact T1|exact T2].
    + change (dv_subs d2 = delete (s_id s) (dv_subs (gr_dv b))). destruct Hreg as (_ & _ & -> & _). exact L3.
    + transitivity (inflight d2); [done|]. rewrite Hfl. f_equal. unfold inflight, flightAt. rewrite E9. apply map_eq.
      intros i. rewrite !lookup_omap. destruct (dv_pending (gr_dv b) !! i); [|done]. cbn. by rewrite E10.
    + intros scope key. transitivity (queueOf b1 scope key); [done|]. unfold queueOf. by rewrite E1.
    + intros r x Hne Hx. apply (agree_lookup standing (dv_sstore (gr_dv b1))); [by apply registry_standing|].
      by rewrite Ess, lookup_insert_ne.
Qed.
