(* ===== verification/GroupLoop.v ===== *)
(** * Consumer groups: streams, delivery, retries and the loops

    Opening a stream, delivering a message, retrying what timed out and one turn of [groupLoop]:
    that each keeps the invariant of the groups, what it leaves alone, and what it does to the work. *)
From S2P Require Import Prelude GoHeap Dll KeyedLists Types Config Metrics GoIO Base64 Checkpoints.
From S2P Require Import Pending PendingInv Deliveries GroupIndex GroupWork GroupInv SubscriberInv.
#[local] Open Scope Z_scope.

(** ** What serving leaves alone *)
Record served (n : Z) (b b' : groups) : Prop := {
  sv_slack : slack b' = slack b;
  sv_broadcast : gr_topicBroadcast b' = gr_topicBroadcast b;
  sv_members : gr_topicGroups b' = gr_topicGroups b;
  sv_reg : registryKept (gr_dv b) (gr_dv b');
  sv_seq : dv_seq (gr_dv b) <= dv_seq (gr_dv b') <= dv_seq (gr_dv b) + n;
}.

Lemma served_refl b : served 0 b b.
Proof. split; try done. lia. Qed.

Lemma served_trans n m k b c e : served n b c -> served m c e -> n + m <= k -> served k b e.
Proof.
  intros [A1 A2 A3 A4 A5] [B1 B2 B3 B4 B5] Hk. split; [congruence..|by etransitivity|lia].
Qed.

(** The same scopes have an index. *)
Definition scopesKept (b b' : groups) : Prop :=
  gr_groupWorkByTopic b' = gr_groupWorkByTopic b /\
  forall s, is_Some (gr_groupWork b' !! s) <-> is_Some (gr_groupWork b !! s).
#[export] Instance scopesKept_refl : Reflexive scopesKept.
Proof. done. Qed.
#[export] Instance scopesKept_trans : Transitive scopesKept.
Proof. intros a b c [? H1] [? H2]. split; [congruence|]. intros s. by rewrite H2. Qed.

Lemma dispatched_served b scope key m now b' : dispatched b scope key m now b' ->
  served 1 b b' /\ scopesKept b b'.
Proof.
  intros [(_ & D1 & D2 & D3 & D4) Dr Ds Dw _ _]. split; [by split|]. split; [done|]. intros s.
  destruct (Dw s) as [E _]. destruct (gr_groupWork b' !! s), (gr_groupWork b !! s); try done; split; eauto.
Qed.

(** ** Opening a stream *)

(** A stream that could not open leaves the members and the other streams' memory alone. *)
Record refusedStream (b b' : groups) : Prop := {
  rf_slack : slack b' = slack b;
  rf_members : gr_topicBroadcast b' = gr_topicBroadcast b /\ gr_topicGroups b' = gr_topicGroups b;
  rf_dv : registryKept (gr_dv b) (gr_dv b') /\ inflight (gr_dv b') = inflight (gr_dv b);
  rf_queue : forall scope key, queueOf b' scope key = queueOf b scope key;
}.

(** An open stream: its subscriber is registered, alone with its affinity in its group, and what was
    reserved for it is accounted for. *)
Record openedStream (topic group member : string) (b : groups) (sr : loc) (reserved : Z) (b' : groups) : Prop := {
  os_slack : slack b' = slack b + reserved;
  os_reserved : streamMemoryReservation <= reserved;
  os_sub : exists s, subAt b' sr = Some s /\ s_topic s = topic /\ s_group s = group /\ s_affinityID s = member /\
    s_detached s = false /\ s_replaying s = bool_decide (group = "") /\ s_cancel s = Some false /\
    s_inflightBytes s = 0 /\ s_ch s = [] /\ dv_subs (gr_dv b') !! s_id s = Some sr /\
    (if decide (group = "") then broadcastOf topic b' else membersOf topic group b') !! s_id s = Some sr;
  os_sole : group <> "" -> member <> "" -> forall sid r x, membersOf topic group b' !! sid = Some r ->
    subAt b' r = Some x -> s_affinityID x = member -> r = sr;
  os_queue : forall scope key, exists js, queueOf b' scope key = queueOf b scope key ++ js;
  os_fresh : subAt b sr = None;
  os_old : forall r x, subAt b r = Some x -> exists y, subAt b' r = Some y /\ standing y = standing x;
}.

Lemma release_reserved b c bytes : ginv b -> ginv c -> 0 <= bytes -> slack c = slack b + bytes ->
  0 <= slack b -> ginv (c <| gr_streamMemoryBytes := i64 (gr_streamMemoryBytes c - bytes) |>) /\
  slack (c <| gr_streamMemoryBytes := i64 (gr_streamMemoryBytes c - bytes) |>) = slack b.
Proof.
  intros G Gc Hb Es Hs. pose proof (mo_stream _ (gn_mem _ Gc)). pose proof (mo_limit _ (gn_mem _ Gc)).
  pose proof (groupTotal_nonneg _ (gn_mem _ Gc)) as Hnn. rewrite <- (mo_bytes _ (gn_mem _ Gc)) in Hnn.
  unfold slack in *. i64s. split; [apply ginv_stream; [done|lia]|]. cbn. lia.
Qed.

Lemma slack_nonneg b : ginv b -> 0 <= slack b.
Proof. intros G. pose proof (mo_stream _ (gn_mem _ G)). unfold slack. lia. Qed.

(** The bytes of the messages: of a replay's index and of a group's work. *)
Definition idBytes (messages : list (option Message)) : Z := zsum ((fun m => slen (m_ID m)) <$> omap id messages).
Definition chargeOf (messages : list (option Message)) : Z := zsum (workCharge <$> omap id messages).

Lemma idBytes_nonneg messages : 0 <= idBytes messages.
Proof. apply zsum_nonneg, Forall_fmap, Forall_forall. intros m _. apply slen_nonneg. Qed.

Lemma idBytes_cons o messages :
  idBytes (o :: messages) = (match o with Some m => slen (m_ID m) | None => 0 end) + idBytes messages.
Proof. destruct o as [m|]; [|done]. unfold idBytes. change (omap id (Some m :: messages)) with (m :: omap id messages). by rewrite fmap_cons, zsum_cons. Qed.

Lemma idBytes_fold messages : forall z, 0 <= z -> z + idBytes messages < 2 ^ 62 ->
  foldl (fun n (m : option Message) => match m with Some m => i64 (n + slen (m_ID m)) | None => n end) z messages =
  z + idBytes messages.
Proof.
  induction messages as [|o l IH]; intros z Hz Hle; cbn [foldl]; [change (idBytes []) with 0 in *; lia|].
  rewrite idBytes_cons in *. pose proof (idBytes_nonneg l). destruct o as [m|].
  - pose proof (slen_nonneg (m_ID m)). i64s. rewrite IH by lia. lia.
  - rewrite IH by lia. done.
Qed.

Lemma streamIndexBytes_exact messages : 16 * llen messages + idBytes messages < 2 ^ 62 ->
  streamIndexBytes messages = 16 * llen messages + idBytes messages.
Proof.
  intros H. pose proof (idBytes_nonneg messages). pose proof (llen_nonneg messages). unfold streamIndexBytes. i64s.
  rewrite (Z.mul_comm (llen messages)). apply idBytes_fold; lia.
Qed.

Lemma scopesFor_elem b topic og s : mem_ok b -> s ∈ scopesFor topic og b ->
  cs_topic s = topic /\ is_Some (gr_groupWork b !! s).
Proof.
  intros M (g & -> & Hg)%list_elem_of_fmap. split; [done|]. apply (mo_topic _ M). apply elem_of_elements.
  by apply list_elem_of_filter in Hg as [_ Hg].
Qed.

Lemma scopesFor_bound b topic og : mem_ok b -> llen (scopesFor topic og b) <= mlen (gr_groupWork b).
Proof.
  intros M. unfold llen, mlen. apply inj_le. rewrite <- size_dom.
  change (size (dom (gr_groupWork b))) with (length (elements (dom (gr_groupWork b)))).
  apply submseteq_length, NoDup_submseteq.
  - apply NoDup_fmap_2; [by intros ? ? [=]|]. apply NoDup_filter, NoDup_elements.
  - intros s Hs. apply elem_of_elements, elem_of_dom. by eapply scopesFor_elem.
Qed.

Lemma chargeOf_nonneg messages : 0 <= chargeOf messages.
Proof. apply zsum_nonneg, Forall_fmap, Forall_forall. intros m _. cbn. pose proof (workCharge_pos m). lia. Qed.

Lemma expansion_bound messages og nowMs b : mem_ok b ->
  expansion (workPairs messages og b) nowMs b <= chargeOf messages * mlen (gr_groupWork b).
Proof.
  intros M. unfold workPairs, chargeOf. induction (omap id messages) as [|m l IH]; [cbn; unfold expansion; cbn; change (zsum []) with 0; lia|].
  rewrite fmap_cons, zsum_cons. unfold expansion in *. cbn [mbind list_bind]. rewrite fmap_app, zsum_app.
  assert (Hh : zsum ((fun p => if needsWork p.2 p.1 nowMs b then workCharge p.1 else 0) <$>
      (scope ← scopesFor (m_Topic m) og b; [(m, scope)])) <= workCharge m * llen (scopesFor (m_Topic m) og b)).
  { clear IH. induction (scopesFor (m_Topic m) og b) as [|s ss IH]; [cbn; change (zsum []) with 0; change (llen []) with 0; lia|]. cbn [mbind list_bind app].
    rewrite fmap_cons, zsum_cons, llen_cons. cbn [fst snd]. pose proof (workCharge_pos m). destruct (needsWork s m nowMs b); lia. }
  pose proof (scopesFor_bound b (m_Topic m) og M). pose proof (workCharge_pos m). nia.
Qed.

(** The tail of the opening: the fence, the registration and the wake-up. *)
Record entered (s : subscriber) (b : groups) (sr : loc) (b' : groups) : Prop := {
  et_slack : slack b' = slack b;
  et_sub : subAt b' sr = Some s /\ dv_subs (gr_dv b') !! s_id s = Some sr /\
    (if decide (s_group s = "") then broadcastOf (s_topic s) b' else membersOf (s_topic s) (s_group s) b') !! s_id s = Some sr;
  et_sole : s_group s <> "" -> s_affinityID s <> "" -> forall sid r x, membersOf (s_topic s) (s_group s) b' !! sid = Some r ->
    subAt b' r = Some x -> s_affinityID x = s_affinityID s -> r = sr;
  et_queue : forall scope key, queueOf b' scope key = queueOf b scope key;
  et_fresh : subAt b sr = None;
  et_old : forall r x, subAt b r = Some x -> exists y, subAt b' r = Some y /\ standing y = standing x;
}.

Lemma ginv_wake b : ginv b -> ginv (wakened b).
Proof. intros G. eapply ginv_rest; [exact G|apply mem_ok_wake, gn_mem, G|apply (gn_ck _ G)|done..]. Qed.

(** Only the sequence and the subscribers of others may change before a subscriber enters. *)
Lemma wp_enter b d s L (Q : loc -> groups -> Prop) :
  ginv b -> gr_dv b = d <| dv_seq := dv_seq d + 1 |> -> pinv d L -> dv_seq d + 1 < 2 ^ 64 ->
  s_id s = idOf (dv_boot d) (dv_seq d + 1) -> s_detached s = false -> s_cancel s <> None -> s_ch s = [] -> s_inflightBytes s = 0 ->
  slen (s_topic s) + slen (s_group s) < 2 ^ 61 ->
  (forall sr b', ginv b' -> entered s b sr b' -> Q sr b') ->
  wp (fenceAffinityMemberLocked s ;;; sr <- addSubscriberLocked s ;; wakeGroups ;;; gret sr) b Q.
Proof.
  intros G Ed I Hseq Eid Hdt Hcan Hch Hin Hlen HQ. wp_step. apply wp_fence; [done|]. intros b1 G1 Sh Hsole.
  destruct (rs_index _ _ Sh) as (X1 & _ & X3 & X4 & _ & _ & X7 & X8 & X9 & X10).
  assert (Hf : fresh_sub (gr_dv b1) s).
  { pose proof (rs_store _ _ Sh) as Hst. pose proof (rs_subs _ _ Sh) as Hsub. rewrite Ed in X7, X8, X9, X10, Hst, Hsub.
    by eapply (fresh_new d L). }
  wp_step. apply wp_addSubscriber; [done|done|done|]. intros sr b2 G2 [J1 J2 [T1 T2] J4 J5 J6].
  wp_step. unfold wakeGroups. apply wp_modify. apply wp_ret. change (setf _ b2) with (wakened b2).
  apply HQ; [by apply ginv_wake|]. split.
  - change (slack (wakened b2)) with (slack b2). rewrite J4. unfold slack. by rewrite X3, X4.
  - unfold subAt. change (gr_dv (wakened b2)) with (gr_dv b2). rewrite J2. cbn. rewrite !lookup_insert_eq.
    split_and!; try done. change (broadcastOf (s_topic s) (wakened b2)) with (broadcastOf (s_topic s) b2).
    change (membersOf (s_topic s) (s_group s) (wakened b2)) with (membersOf (s_topic s) (s_group s) b2).
    rewrite T1, T2. destruct (decide (s_group s = "")) as [E|E].
    + rewrite decide_True by done. apply lookup_insert_eq.
    + rewrite decide_True by done. apply lookup_insert_eq.
  - intros Hg Ha sid r x Hm Hx Eaff. change (membersOf (s_topic s) (s_group s) b2 !! sid = Some r) in Hm.
    change (subAt b2 r = Some x) in Hx. rewrite T1, decide_True in Hm by done.
    apply lookup_insert_Some in Hm as [[_ <-]|[_ Hm]]; [done|].
    destruct (decide (r = sr)) as [|Hne]; [done|]. exfalso. unfold subAt in Hx. rewrite J2 in Hx. cbn in Hx.
    rewrite lookup_insert_ne in Hx by done. by eapply (Hsole Hg Ha).
  - intros scope key. transitivity (queueOf b2 scope key); [done|]. rewrite J6. unfold queueOf. by rewrite X1.
  - unfold subAt. pose proof (rs_store _ _ Sh sr) as E. rewrite J1 in E. by destruct (dv_sstore (gr_dv b) !! sr).
  - intros r x Hx. destruct (agree_lookup _ _ _ _ _ (rs_stand _ _ Sh) Hx) as (y & Hy & Ey). exists y. split; [|done].
    unfold subAt. change (gr_dv (wakened b2)) with (gr_dv b2). rewrite J2. cbn. rewrite lookup_insert_ne; [exact Hy|].
    intros <-. congruence.
Qed.

(** [b] with [extra] bytes reserved and a new identifier taken. *)
Record opening (b : groups) (extra : Z) (c : groups) : Prop := {
  op_slack : slack c = slack b + extra;
  op_dv : gr_dv c = (gr_dv b) <| dv_seq := dv_seq (gr_dv b) + 1 |>;
  op_members : gr_topicBroadcast c = gr_topicBroadcast b /\ gr_topicGroups c = gr_topicGroups b;
  op_queue : forall scope key, queueOf c scope key = queueOf b scope key;
}.

Lemma wp_refuse {A} b c (code : A) (Q : A -> groups -> Prop) :
  ginv b -> ginv c -> opening b streamMemoryReservation c ->
  (forall b', ginv b' -> refusedStream b b' -> Q code b') ->
  wp (releaseStreamMemory streamMemoryReservation ;;; gret code) c Q.
Proof.
  intros G Gc [O1 O2 [O3 O4] O5] HQ. unfold releaseStreamMemory. wp_step. apply wp_modify. apply wp_ret.
  destruct (release_reserved b c streamMemoryReservation G Gc) as [G' Es']; [done|done|by apply slack_nonneg|].
  apply HQ; [exact G'|]. split; [exact Es'|by split| |done].
  change (gr_dv (setf _ c)) with (gr_dv c). rewrite O2. done.
Qed.

Lemma entered_opened topic group member id b c reserved sr b' :
  dv_sstore (gr_dv c) = dv_sstore (gr_dv b) ->
  slack c = slack b + reserved -> streamMemoryReservation <= reserved ->
  (forall scope key, exists js, queueOf c scope key = queueOf b scope key ++ js) ->
  entered (mkSubscriber id topic group member [] 0 (Some false) false (bool_decide (group = "")) []) c sr b' ->
  openedStream topic group member b sr reserved b'.
Proof.
  intros Ess Es Hr Hq [E1 (E2 & E3 & E4) E5 E6 E7 E8]. unfold subAt in E7, E8. rewrite Ess in E7, E8. split.
  - by rewrite E1.
  - done.
  - eexists. split; [exact E2|]. split_and!; done.
  - exact E5.
  - intros scope key. rewrite E6. apply Hq.
  - exact E7.
  - exact E8.
Qed.

Lemma wp_openStream b topic group member messages draining nowMs (Q : (string + loc * Z) -> groups -> Prop) :
  ginv b -> dv_seq (gr_dv b) + 1 < 2 ^ 64 -> slen topic + slen group < 2 ^ 61 ->
  16 * llen messages + idBytes messages < 2 ^ 61 ->
  chargeOf messages * (mlen (gr_groupWork b) + 1) < 2 ^ 62 ->
  (forall code b', ginv b' -> refusedStream b b' -> Q (inl code) b') ->
  (forall sr reserved b', draining = false -> ginv b' -> openedStream topic group member b sr reserved b' ->
     Q (inr (sr, reserved)) b') ->
  wp (openStream topic group member messages draining nowMs) b Q.
Proof.
  intros G Hseq Hlen Hidx Hchg HQ1 HQ2. destruct (gn_pend _ G) as [L I]. pose proof (mo_limit _ (gn_mem _ G)) as Hlim.
  pose proof (mo_stream _ (gn_mem _ G)) as Hst. assert (Er : streamMemoryReservation = 262144) by done.
  unfold openStream. wp_step. apply wp_reserveStreamMemory; [apply (gn_mem _ G)|done|..]; intros Hfit; cbn [negb].
  { apply wp_ret. apply HQ1; [done|]. split; try done. }
  set (b1 := b <| gr_streamMemoryBytes := _ |>).
  assert (G1 : ginv b1) by (apply ginv_stream; [done|rewrite Er in *; lia]).
  wp_step. eapply wp_nextID_b; [exact G1|exact Hseq|]. intros b2 G2 E2. unfold joinStream. cbv zeta.
  assert (O2 : opening b streamMemoryReservation b2).
  { rewrite E2. split; try done. unfold slack, b1. cbn. lia. }
  assert (Hrefuse : forall code c, ginv c -> opening b streamMemoryReservation c ->
    wp (releaseStreamMemory streamMemoryReservation ;;; gret (inl code)) c Q).
  { intros code c Gc Oc. eapply (wp_refuse b); [done|done|done|]. by apply HQ1. }
  destruct draining; [by apply Hrefuse|].
  change (dv_boot (gr_dv b1)) with (dv_boot (gr_dv b)). change (dv_seq (gr_dv b1)) with (dv_seq (gr_dv b)).
  assert (Htail : forall c indexBytes, ginv c -> gr_dv c = (gr_dv b) <| dv_seq := dv_seq (gr_dv b) + 1 |> ->
    slack c = slack b + (streamMemoryReservation + indexBytes) -> 0 <= indexBytes < 2 ^ 62 ->
    (forall scope key, exists js, queueOf c scope key = queueOf b scope key ++ js) ->
    let s := mkSubscriber (idOf (dv_boot (gr_dv b)) (dv_seq (gr_dv b) + 1)) topic group member [] 0 (Some false) false
               (bool_decide (group = "")) [] in
    wp (fenceAffinityMemberLocked s ;;; sr <- addSubscriberLocked s ;; wakeGroups ;;;
        gret (inr (sr, i64 (streamMemoryReservation + indexBytes)))) c Q).
  { intros c ib Gc Ed Es Hib Hq s. 
    assert (H : wp (fenceAffinityMemberLocked s ;;; sr <- addSubscriberLocked s ;; wakeGroups ;;; gret sr) c
      (fun sr b' => Q (inr (sr, i64 (streamMemoryReservation + ib))) b')).
    { eapply (wp_enter c (gr_dv b)); try done. intros sr b' G' En. i64s. apply HQ2; [done|done|].
      eapply entered_opened; [by rewrite Ed|exact Es|lia|exact Hq|exact En]. }
    revert H. unfold wp, gbind, gret. destruct (fenceAffinityMemberLocked s c) as [[[] c1]|]; [|done].
    destruct (addSubscriberLocked s c1) as [[sr c2]|]; [|done]. by destruct (wakeGroups c2) as [[[] c3]|]. }
  destruct O2 as [P1 P2 P3 P4].
  destruct (bool_decide_reflect (group = "")) as [Eg|Eg].
  - rewrite (bool_decide_false (group <> "")) by (intros H; by apply H).
    wp_step. apply wp_ret. cbn [negb]. wp_step. apply wp_ret. cbn [negb].
    rewrite streamIndexBytes_exact by lia. pose proof (idBytes_nonneg messages). pose proof (llen_nonneg messages).
    wp_step. apply wp_reserveStreamMemory; [apply (gn_mem _ G2)|lia|..]; intros Hfit2; cbn [negb].
    { by apply Hrefuse. }
    set (b3 := b2 <| gr_streamMemoryBytes := _ |>).
    assert (G3 : ginv b3) by (apply ginv_stream; [done|]; pose proof (mo_stream _ (gn_mem _ G2)); lia).
    apply (Htail b3); try done; [|lia|].
    + unfold slack in *. cbn. lia.
    + intros scope key. exists []. rewrite app_nil_r. apply P4.
  - rewrite bool_decide_true by done. wp_step.
    apply wp_registerGroup; [apply (gn_mem _ G2)|..]; cbn [negb].
    2:{ intros _. by apply Hrefuse. }
    2:{ done. }
    intros b3 M3 [(R1 & R2 & R3 & R4 & R5) _ _ R6 R7].
    assert (G3 : ginv b3) by (eapply ginv_rest; [exact G2|exact M3|rewrite R2; apply (gn_ck _ G2)|done..]).
    assert (O3 : opening b streamMemoryReservation b3).
    { split; [congruence|congruence|split; [rewrite R3|rewrite R4]; apply P3|]. intros scope key. by rewrite R6. }
    wp_step. apply wp_prepareGroupWork; [done|..].
    { eapply Z.le_lt_trans; [by apply expansion_bound|]. pose proof (chargeOf_nonneg messages).
      assert (Em : gr_groupWork b2 = gr_groupWork b) by by rewrite E2. rewrite Em in R7. nia. }
    intros ok b4 M4 Hp. destruct ok; cbn [negb].
    2:{ cbn in Hp. subst b4. by apply Hrefuse. }
    destruct Hp as (c & used & Gr & E4 & Hused). destruct O3 as [S1 S2 S3 S4].
    assert (Ec : gr_dv b4 = gr_dv b3 /\ gr_ck b4 = gr_ck b3 /\ gr_topicBroadcast b4 = gr_topicBroadcast b3 /\
      gr_topicGroups b4 = gr_topicGroups b3) by (rewrite E4, (gr_rest _ _ _ _ Gr); done).
    destruct Ec as (D1 & D2 & D3 & D4).
    assert (G4 : ginv b4) by (eapply ginv_rest; [exact G3|exact M4|rewrite D2; apply (gn_ck _ G3)|done..]).
    wp_step. apply wp_ret. cbn [negb]. apply (Htail b4 0).
    + done.
    + congruence.
    + rewrite Z.add_0_r, <- S1, E4. unfold slack. cbn. lia.
    + lia.
    + intros scope key. destruct (gr_queue _ _ _ _ Gr scope key) as (ms & Eq & _). exists (jobFor <$> ms).
      rewrite <- S4, <- Eq. rewrite E4. done.
Qed.

(** ** Delivery *)

(** Nothing in flight is lost, and what is new delivers [m]. *)
Definition sends (m : Message) (b b' : groups) : Prop :=
  inflight (gr_dv b) ⊆ inflight (gr_dv b') /\
  forall id f, inflight (gr_dv b') !! id = Some f -> inflight (gr_dv b) !! id = Some f \/ f_message f = m.

Lemma sends_same m b b' : inflight (gr_dv b') = inflight (gr_dv b) -> sends m b b'.
Proof. intros E. split; rewrite E; [done|by left]. Qed.
Lemma sends_refl m b : sends m b b.
Proof. by apply sends_same. Qed.
Lemma sends_trans m a b c : sends m a b -> sends m b c -> sends m a c.
Proof.
  intros [A1 A2] [B1 B2]. split; [by etransitivity|]. intros id f Hf. destruct (B2 _ _ Hf) as [H|H]; [|by right]. by apply A2.
Qed.
Lemma sends_insert m b b' id f : inflight (gr_dv b) !! id = None -> f_message f = m ->
  inflight (gr_dv b') = <[id := f]> (inflight (gr_dv b)) -> sends m b b'.
Proof.
  intros Hn Em E. split; rewrite E; [by apply insert_subseteq|]. intros i g [[_ <-]|[_ H]]%lookup_insert_Some; [by right|by left].
Qed.

(** The objects that the pending deliveries live in; one that is out of the table stays out. *)
Definition objsKept (d d' : deliveries) : Prop := forall r p, dv_pstore d !! r = Some p ->
  pview <$> dv_pstore d' !! r = Some (pview p) /\
  ((forall id, dv_pending d !! id <> Some r) -> forall id, dv_pending d' !! id <> Some r).

(** A send on the broker, accepted or refused. *)
Lemma wp_send_b b sr s m attempt cancel now (Q : string -> groups -> Prop) :
  ginv b -> subAt b sr = Some s -> sizeOf m < 2 ^ 62 -> dv_seq (gr_dv b) + 1 < 2 ^ 64 ->
  (forall id d', let b' := b <| gr_dv := d' |> in ginv b' -> served 1 b b' -> sends m b b' ->
     (inflight d' = inflight (gr_dv b) \/ exists i f, inflight (gr_dv b) !! i = None /\ inflight d' = <[i := f]> (inflight (gr_dv b)) /\
        f_message f = m /\ f_attempt f = attempt /\ f_subscriber f = s_id s) ->
     objsKept (gr_dv b) d' -> Q id b') ->
  wp (inDeliveries (sendDeliveryLocked sr m attempt cancel now)) b Q.
Proof.
  intros G Hs Hm Hseq HQ. destruct (gn_pend _ G) as [L I]. apply wp_inDeliveries.
  eapply wp_sendDeliveryLocked; [exact I|exact Hs|exact Hm|exact Hseq|..].
  - intros _ d' I' Href. pose proof (refused_registry _ _ _ _ _ Hs Href) as Hreg. destruct Href as [mt Ed].
    apply HQ; [apply ginv_dv; [done|by exists L|done]|split; try done; rewrite Ed; cbn; lia|apply sends_same; by rewrite Ed| |].
    { left. by rewrite Ed. }
    intros r p Hr. rewrite Ed. cbn. by rewrite Hr.
  - intros _ r d' id p I' Gi. pose proof (given_registry _ _ _ _ _ _ _ _ _ Hs Gi) as Hreg.
    apply HQ; [apply ginv_dv; [done|by eexists|done]| | | |].
    + split; try done. cbn. rewrite (gi_seq _ _ _ _ _ _ _ _ _ Gi). lia.
    + eapply (sends_insert m b _ id (flightOf p)); [|done|by eapply inflight_given].
      apply (inflight_None _ _ _ I). by eapply fresh_id.
    + right. exists id, (flightOf p). split_and!; [|by eapply inflight_given|done..]. apply (inflight_None _ _ _ I). by eapply fresh_id.
    + intros x q Hx. split.
      * rewrite (gi_store _ _ _ _ _ _ _ _ _ Gi), Hx; [done|]. intros ->. rewrite (gi_fresh _ _ _ _ _ _ _ _ _ Gi) in Hx. done.
      * intros Hout i. rewrite (gi_pending _ _ _ _ _ _ _ _ _ Gi). intros [[_ <-]|[_ Hi]]%lookup_insert_Some.
        { rewrite (gi_fresh _ _ _ _ _ _ _ _ _ Gi) in Hx. done. }
        { by apply (Hout i). }
Qed.

Lemma dispatched_sends b scope key m now b' : dispatched b scope key (Some m) now b' -> sends m b b'.
Proof.
  intros D. destruct (di_effect _ _ _ _ _ _ D) as [(_ & E & _)|(m' & E & j & rest & sr & s & id & H)].
  - by apply sends_same.
  - apply (inj Some) in E. subst m'. destruct H as (_ & _ & _ & _ & _ & _ & _ & _ & _ & Hn & E & _).
    by eapply (sends_insert _ _ _ _ _ Hn); [|exact E].
Qed.

(** A state in the middle of a delivery. *)
Record delivering (m : Message) (n : Z) (b b' : groups) : Prop := {
  dg_served : served n b b';
  dg_sends : sends m b b';
  dg_scopes : scopesKept b b';
  dg_ck : gr_ck b' = gr_ck b;
}.

Lemma delivering_refl m b : delivering m 0 b b.
Proof. split; [apply served_refl|apply sends_refl|reflexivity|done]. Qed.
Lemma delivering_trans m i j k a b c : delivering m i a b -> delivering m j b c -> i + j <= k -> delivering m k a c.
Proof.
  intros [A1 A2 A3 A4] [B1 B2 B3 B4] Hk. split; [by eapply served_trans|by eapply sends_trans|by etransitivity|congruence].
Qed.

Lemma wp_dispatchGroupMessage b m og now (Q : unit -> groups -> Prop) :
  ginv b -> sizeOf m < 2 ^ 62 -> dv_seq (gr_dv b) + mlen (gr_groupWork b) < 2 ^ 64 ->
  (forall b', ginv b' -> delivering m (mlen (gr_groupWork b)) b b' -> Q tt b') ->
  wp (dispatchGroupMessage m og now) b Q.
Proof.
  intros G Hm Hseq HQ. unfold dispatchGroupMessage. wp_step. apply wp_get.
  pose proof (scopesFor_bound b (m_Topic m) og (gn_mem _ G)) as Hlen. set (l := scopesFor _ _ b) in *.
  apply (wp_for (fun rem c => ginv c /\ (forall s, s ∈ rem -> s ∈ l) /\ delivering m (llen l - llen rem) b c /\ llen rem <= llen l)).
  - split_and!; try done. rewrite Z.sub_diag. apply delivering_refl.
  - intros scope rem c (Gc & Hin & Hd & Hle). rewrite llen_cons in *. pose proof (llen_nonneg rem).
    assert (Hnext : forall c', ginv c' -> delivering m 1 c c' ->
      ginv c' /\ (forall s, s ∈ rem -> s ∈ l) /\ delivering m (llen l - llen rem) b c' /\ llen rem <= llen l).
    { intros c' G' Hd'. split_and!; [done|intros s Hs; apply Hin; by right|eapply delivering_trans; [exact Hd|exact Hd'|lia]|lia]. }
    wp_step. apply wp_get.
    assert (is_Some (gr_groupWork c !! scope)) as [g Hg].
    { apply (dg_scopes _ _ _ _ Hd). eapply scopesFor_elem; [apply (gn_mem _ G)|]. apply Hin. by left. }
    wp_step. eapply wp_lift; [exact Hg|]. destruct (bool_decide (cs_topic scope = m_Topic m) && _) eqn:Hb.
    + apply andb_true_iff in Hb as [_ Hb]. apply bool_decide_eq_true in Hb.
      destruct (g_lanes g !! deliveryAffinity m) as [lane|] eqn:Hl; [|done]. clear Hb.
      pose proof (sv_seq _ _ _ (dg_served _ _ _ _ Hd)).
      eapply wp_dispatchGroup; [exact Gc|exact Hg|exact Hl|by intros m' [= <-]|lia|]. intros c' G' D. apply Hnext; [done|].
      destruct (dispatched_served _ _ _ _ _ _ D) as [? ?]. split; [done|by eapply dispatched_sends|done|apply (di_rest _ _ _ _ _ _ D)].
    + apply wp_ret. apply Hnext; [done|]. pose proof (delivering_refl m c) as [[] ? ? ?]. split; try done. split; try done. lia.
  - intros c (Gc & _ & Hd & _). apply HQ; [done|]. eapply delivering_trans; [exact Hd|apply delivering_refl|].
    change (llen []) with 0. lia.
Qed.

Lemma scopesKept_len b b' : scopesKept b b' -> mlen (gr_groupWork b') = mlen (gr_groupWork b).
Proof.
  intros [_ H]. unfold mlen. f_equal. rewrite <- !size_dom. f_equal. apply set_eq. intros s. by rewrite !elem_of_dom.
Qed.

Lemma prepared_delivering m messages og nowMs b ok b' : prepared messages og nowMs b ok b' -> ginv b -> mem_ok b' ->
  ginv b' /\ delivering m 0 b b'.
Proof.
  intros Hp G M. destruct ok; cbn in Hp; [|subst b'; split; [done|apply delivering_refl]].
  destruct Hp as (c & used & Gr & E & _). pose proof (gr_rest _ _ _ _ Gr) as Ec.
  assert (Es : gr_dv b' = gr_dv b /\ gr_ck b' = gr_ck b /\ gr_topicBroadcast b' = gr_topicBroadcast b /\
    gr_topicGroups b' = gr_topicGroups b /\ gr_groupWorkByTopic b' = gr_groupWorkByTopic b) by (rewrite E, Ec; done).
  destruct Es as (E1 & E2 & E3 & E4 & E5). split.
  - eapply ginv_rest; [exact G|exact M|rewrite E2; apply (gn_ck _ G)|done..].
  - split; [split; try done|by apply sends_same; rewrite E1|split; [done|]|done].
    + rewrite E. unfold slack. cbn. lia.
    + by rewrite E1.
    + rewrite E1. lia.
    + intros s. transitivity (is_Some (gr_groupWork c !! s)); [by rewrite E|apply (gr_dom _ _ _ _ Gr)].
Qed.

(** Offering to a broadcast subscriber changes at most its deferred list and its cancellation. *)
Lemma wp_offerBroadcast b m m' sr s (Q : bool -> groups -> Prop) :
  ginv b -> subAt b sr = Some s -> (forall x b', ginv b' -> delivering m' 0 b b' -> Q x b') ->
  wp (offerBroadcast m sr) b Q.
Proof.
  intros G Hs HQ. unfold offerBroadcast. wp_step. eapply wp_sderef_b; [exact Hs|].
  assert (Hput : forall s', identity s' = identity s -> ((fun _ => true) <$> s_cancel s') = ((fun _ => true) <$> s_cancel s) ->
    s_ch s' = s_ch s -> s_inflightBytes s' = s_inflightBytes s -> s_detached s' = s_detached s ->
    s_replaying s' = s_replaying s -> Q false (putSub sr s' b)).
  { intros s' Ei Ec E1 E2 E3 E4. destruct (ginv_putSub b sr s s' G Hs Ei) as [G' Sh]; [|by rewrite E1|done..|].
    { by destruct (s_cancel s), (s_cancel s'). }
    apply HQ; [done|]. split; [split; try done; [|cbn; lia]|by apply sends_same|done|done].
    split_and!; try done. cbn. eapply agree_insert; [exact Hs|]. unfold subFields. unfold identity in Ei.
    injection Ei as -> -> -> ->. by rewrite Ec, E3, E4. }
  destruct (s_replaying s) eqn:Er; [|apply wp_ret; apply HQ; [done|apply delivering_refl]].
  wp_step. case_bool_decide as Hfull.
  - pose proof (gn_cancel _ G _ _ Hs) as Hc. destruct (s_cancel s) as [c|] eqn:Ec; [|done].
    wp_step. eapply wp_lift; [done|]. eapply wp_supdate_b; [exact Hs|]. apply wp_ret. by apply Hput.
  - eapply wp_supdate_b; [exact Hs|]. apply wp_ret. by apply Hput.
Qed.

Lemma delivering_sub m n b c sr s : delivering m n b c -> subAt b sr = Some s -> is_Some (subAt c sr).
Proof.
  intros D Hs. destruct (registry_lookup _ _ _ _ (sv_reg _ _ _ (dg_served _ _ _ _ D)) Hs) as (s' & Hs' & _). by exists s'.
Qed.

Lemma delivering_weaken m n k b c : delivering m n b c -> n <= k -> delivering m k b c.
Proof. intros [[] ? ? ?] Hk. split; try done. split; try done. lia. Qed.

Lemma broadcastMembers_live b topic sr : ginv b -> sr ∈ broadcastMembers topic b -> is_Some (subAt b sr).
Proof.
  intros G ([sid r] & -> & H%elem_of_map_to_list)%list_elem_of_fmap.
  destruct (gn_broadcast _ G _ _ _ H) as (s & Hs & _). by exists s.
Qed.

Lemma broadcastMembers_len b topic : llen (broadcastMembers topic b) = mlen (broadcastOf topic b).
Proof. unfold llen, mlen, broadcastMembers, broadcastOf. rewrite length_fmap, <- length_map_to_list. done. Qed.

Lemma wp_sendAll l m attempt now : forall b (Q : unit -> groups -> Prop),
  ginv b -> (forall sr, sr ∈ l -> is_Some (subAt b sr)) -> sizeOf m < 2 ^ 62 -> dv_seq (gr_dv b) + llen l < 2 ^ 64 ->
  (forall b', ginv b' -> delivering m (llen l) b b' -> Q tt b') ->
  wp (gfor l (fun sr => inDeliveries (sendDelivery sr m attempt now) ;;; gret tt)) b Q.
Proof.
  induction l as [|sr l IH]; intros b Q G Hl Hm Hseq HQ; cbn [gfor].
  { apply wp_ret. apply HQ; [done|apply delivering_refl]. }
  rewrite llen_cons in *. pose proof (llen_nonneg l). destruct (Hl sr) as [s Hs]; [by left|].
  wp_step. wp_step. unfold sendDelivery.
  assert (Hone : wp (inDeliveries (sendDeliveryLocked sr m attempt true now)) b (fun _ b1 =>
    wp (gret tt) b1 (fun _ b2 => wp (gfor l (fun sr => inDeliveries (sendDelivery sr m attempt now) ;;; gret tt)) b2 Q))).
  { eapply wp_send_b; [done|exact Hs|done|lia|]. intros _ d' b1 G1 S1 Sn _ _. apply wp_ret.
    assert (D1 : delivering m 1 b b1) by (by split).
    pose proof (sv_seq _ _ _ S1). apply IH; [done| |done|lia|].
    - intros r Hr. destruct (Hl r) as [x Hx]; [by right|]. by eapply delivering_sub.
    - intros b' G' D'. apply HQ; [done|]. eapply delivering_trans; [exact D1|exact D'|lia]. }
  revert Hone. unfold wp, inDeliveries, gzoom, gbind. destruct (sendDeliveryLocked sr m attempt true now (gr_dv b)) as [[x d]|]; [|done].
  cbn. done.
Qed.

(** What [deliver] reserves of the sequence. *)
Definition receivers (topic : string) (b : groups) : Z := mlen (gr_groupWork b) + mlen (broadcastOf topic b).

(** The part of [deliver] that chooses the broadcast subscribers. *)
Lemma wp_offerCandidates b m og (Q : list loc -> groups -> Prop) :
  ginv b ->
  (forall cands b', ginv b' -> delivering m 0 b b' -> (forall sr, sr ∈ cands -> is_Some (subAt b' sr)) ->
     llen cands <= mlen (broadcastOf (m_Topic m) b) -> Q cands b') ->
  wp (offerCandidates m og) b Q.
Proof.
  intros G HQ. unfold offerCandidates. wp_step. apply wp_get.
  assert (H0 : 0 <= mlen (broadcastOf (m_Topic m) b)) by (unfold mlen; lia).
  assert (Hnone : Q [] b) by (apply HQ; [done|apply delivering_refl|by intros sr Hsr%elem_of_nil|done]).
  destruct (_ && _); [by apply wp_ret|]. case_bool_decide; [|by apply wp_ret]. set (l := broadcastMembers (m_Topic m) b).
  apply (wp_filter (fun rem c => ginv c /\ delivering m 0 b c /\ (forall sr, sr ∈ rem -> sr ∈ l))).
  - split_and!; [done|apply delivering_refl|done].
  - intros sr rem c (Gc & Dc & Hin). destruct (broadcastMembers_live b (m_Topic m) sr G) as [s Hs]; [apply Hin; by left|].
    destruct (delivering_sub _ _ _ _ _ _ Dc Hs) as [s' Hs']. eapply wp_offerBroadcast; [done|exact Hs'|].
    intros _ c' G' D'. split_and!; [done|by eapply delivering_trans; [exact Dc|exact D'|]|intros x Hx; apply Hin; by right].
  - intros out c (Gc & Dc & _) Hsub. apply HQ; [done|done|..].
    + intros sr Hsr. destruct (broadcastMembers_live b (m_Topic m) sr G) as [s Hs]; [by eapply elem_of_sublist|].
      by eapply delivering_sub.
    + rewrite <- broadcastMembers_len. unfold llen. apply inj_le. by apply sublist_length.
Qed.

Lemma wp_deliver b m og attempt now (Q : unit -> groups -> Prop) :
  ginv b -> sizeOf m < 2 ^ 62 -> workCharge m * mlen (gr_groupWork b) < 2 ^ 62 ->
  dv_seq (gr_dv b) + receivers (m_Topic m) b < 2 ^ 64 ->
  (forall b', ginv b' -> delivering m (receivers (m_Topic m) b) b b' -> Q tt b') ->
  wp (deliver m og attempt now) b Q.
Proof.
  intros G Hm Hw Hseq HQ. unfold receivers in *. unfold deliver. wp_step. apply wp_prepareGroupWork; [apply (gn_mem _ G)|..].
  { eapply Z.le_lt_trans; [apply expansion_bound, (gn_mem _ G)|]. unfold chargeOf. cbn. rewrite zsum_cons.
    change (zsum []) with 0. by rewrite Z.add_0_r. }
  intros ok b1 M1 Hp. destruct (prepared_delivering m _ _ _ _ _ _ Hp G M1) as [G1 D1].
  pose proof (sv_seq _ _ _ (dg_served _ _ _ _ D1)). pose proof (scopesKept_len _ _ (dg_scopes _ _ _ _ D1)) as El.
  assert (0 <= mlen (broadcastOf (m_Topic m) b)) by (unfold mlen; lia).
  wp_step. apply wp_dispatchGroupMessage; [done|done|lia|]. intros b2 G2 D2. rewrite El in D2.
  assert (D : delivering m (mlen (gr_groupWork b)) b b2) by (eapply delivering_trans; [exact D1|exact D2|lia]).
  assert (Eb : gr_topicBroadcast b2 = gr_topicBroadcast b) by apply (sv_broadcast _ _ _ (dg_served _ _ _ _ D)).
  pose proof (sv_seq _ _ _ (dg_served _ _ _ _ D)).
  wp_step. apply wp_offerCandidates; [done|]. intros cands c Gc Dc Hin Hle.
  assert (Hl : mlen (broadcastOf (m_Topic m) b2) = mlen (broadcastOf (m_Topic m) b)) by (unfold broadcastOf; by rewrite Eb).
  pose proof (sv_seq _ _ _ (dg_served _ _ _ _ Dc)). apply wp_sendAll; [done|done|done|lia|].
  intros b' G' D'. apply HQ; [done|]. eapply delivering_trans; [exact D|eapply (delivering_trans m _ _ (llen cands)); [exact Dc|exact D'|lia]|lia].
Qed.
