(* ===== verification/GroupRetry.v ===== *)
(** * Consumer groups: the retries of the periodic pass

    [maintenance] takes the deliveries that are due out of flight and retries each: a group's work goes
    back to its queue, a broadcast delivery is sent again while it has attempts left. *)
From S2P Require Import Prelude GoHeap Dll KeyedLists Types Config Metrics GoIO Base64 Checkpoints.
From S2P Require Import Pending PendingInv Deliveries GroupIndex GroupWork GroupInv SubscriberInv GroupLoop.
#[local] Open Scope Z_scope.

Lemma Forall2_elem_l {A B} (P : A -> B -> Prop) l k x : Forall2 P l k -> x ∈ l -> exists y, y ∈ k /\ P x y.
Proof.
  induction 1 as [|a b l k Hab _ IH]; [by intros ?%elem_of_nil|]. intros [->|Hx]%elem_of_cons.
  - exists b. split; [by left|done].
  - destruct (IH Hx) as (y & Hy & Hp). exists y. split; [by right|done].
Qed.

Lemma Forall2_elem_r {A B} (P : A -> B -> Prop) l k y : Forall2 P l k -> y ∈ k -> exists x, x ∈ l /\ P x y.
Proof. intros H%Forall2_flip Hy. by apply (Forall2_elem_l _ _ _ _ H). Qed.

Lemma table_ok_compact now t : table_ok t -> table_ok (compactCheckpointsLocked now t).
Proof.
  intros (I & Hl & Hc & Ho). destruct (compact_spec now t I) as (I' & Hlen & (El & Hcount & _) & _).
  split; [done|]. rewrite El. split_and!; [done|lia|lia].
Qed.

(** An object that is out of the table of pending deliveries may change or go. *)
Lemma pinv_out d L r p st : pinv d L -> dv_pstore d !! r = Some p -> (forall id, dv_pending d !! id <> Some r) ->
  (forall x, x <> r -> st !! x = dv_pstore d !! x) -> (forall q, st !! r = Some q -> topicOf q = topicOf p) ->
  pinv (d <| dv_pstore := st |>) L.
Proof.
  intros I Hr Hout Hst Htop. assert (Hin : forall id x, dv_pending d !! id = Some x -> st !! x = dv_pstore d !! x).
  { intros id x Hx. apply Hst. intros ->. by apply (Hout id). }
  assert (HL : forall t, r ∉ L t).
  { intros t Hrt. destruct (lo_key _ _ _ _ _ _ _ (pi_lists _ _ I) _ _ Hrt) as (q & Hq & <-). assert (q = p) as -> by congruence.
    apply (pi_listdom _ _ I _ _ Hr) in Hrt as [id Hid]. by apply (Hout id). }
  assert (Hsum : forall f, psum (d <| dv_pstore := st |>) f = psum d f).
  { intros f. unfold psum. apply msum_ext. intros id x Hx. unfold pbytes. cbn. by rewrite (Hin _ _ Hx). }
  pose proof I as I0. destruct I. split; try done.
  - by destruct pi_budgets.
  - cbn. intros id x Hx. rewrite (Hin _ _ Hx). by apply pi_item.
  - cbn. eapply hrep_ext; [exact pi_heap|]. cbn. intros x t Hx Ht. exists t. split; [|done].
    apply pi_heapdom in Hx as [id Hid]. by rewrite (Hin _ _ Hid).
  - cbn. eapply lists_ok_out; [|exact pi_lists]. intros t x Hx. apply Hst. intros ->. by apply (HL t).
  - cbn. intros x q Hx. destruct (decide (x = r)) as [->|Hne]; [|rewrite Hst in Hx by done; by apply pi_listdom].
    split; [intros Hxr; by apply HL in Hxr|]. intros [id Hid]. by apply Hout in Hid.
  - rewrite Hsum. done.
  - cbn. intros sr s Hs Hd. rewrite Hsum. by apply pi_sub.
  - cbn. intros id x q Hx Hq. rewrite (Hin _ _ Hx) in Hq. by eapply pi_pids.
  - cbn. intros id x q Hx Hq. rewrite (Hin _ _ Hx) in Hq. by eapply pi_sizes.
Qed.

Lemma inflight_out d r st : (forall id, dv_pending d !! id <> Some r) -> (forall x, x <> r -> st !! x = dv_pstore d !! x) ->
  inflight (d <| dv_pstore := st |>) = inflight d.
Proof.
  intros Hout Hst. apply map_eq. intros i. rewrite !inflight_lookup. cbn. destruct (dv_pending d !! i) as [x|] eqn:E; [|done].
  cbn. unfold flightAt. cbn. rewrite Hst; [done|]. intros ->. by apply (Hout i).
Qed.

(** The jobs of [scope] after the retry of the delivery [p]. *)
Definition requeue (maxAttempts : Z) (p : pending) (scope : checkpointScope) (j : job) : job :=
  if decide (p_group p <> "" /\ scope = mkScope (m_Topic (p_message p)) (p_group p))
  then retried (m_ID (p_message p)) (p_deliveryID p) maxAttempts j else j.

(** A delivery in flight that is the retry of [p]. *)
Definition resendOf (maxAttempts : Z) (p : pending) (f : flight) : Prop :=
  p_group p = "" /\ p_attempt p < maxAttempts /\ f_message f = p_message p /\ f_attempt f = p_attempt p + 1 /\ f_subscriber f = p_subscriberID p.

Record resent (b : groups) (r : loc) (p : pending) (b' : groups) : Prop := {
  rs_served : served 1 b b';
  rs_scopes : scopesKept b b';
  rs_ck : gr_ck b' = gr_ck b;
  rs_kept : inflight (gr_dv b) ⊆ inflight (gr_dv b');
  rs_new : inflight (gr_dv b') = inflight (gr_dv b) \/ exists id f, inflight (gr_dv b) !! id = None /\
    inflight (gr_dv b') = <[id := f]> (inflight (gr_dv b)) /\ resendOf (cfg_MaxAttempts (gr_cfg b)) p f;
  rs_queue : forall scope key, queueOf b' scope key = requeue (cfg_MaxAttempts (gr_cfg b)) p scope <$> queueOf b scope key;
  rs_objs : forall x q, x <> r -> dv_pstore (gr_dv b) !! x = Some q ->
    pview <$> dv_pstore (gr_dv b') !! x = Some (pview q) /\
    ((forall id, dv_pending (gr_dv b) !! id <> Some x) -> forall id, dv_pending (gr_dv b') !! id <> Some x);
}.

(** A step that changes nothing but objects out of the table and the metrics. *)
Definition quiet (r : loc) (d d' : deliveries) : Prop :=
  exists st mt, d' = (d <| dv_pstore := st |>) <| dv_metrics := mt |> /\ forall x, x <> r -> st !! x = dv_pstore d !! x.

Lemma quiet_resent b r p b1 b2 d' : (forall id, dv_pending (gr_dv b1) !! id <> Some r) ->
  resent b r p b1 -> quiet r (gr_dv b1) d' -> b2 = b1 <| gr_dv := d' |> -> resent b r p b2.
Proof.
  intros Hout [[S1 S2 S3 S4 S5] R2 R3 R4 R5 R6 R7] (st & mt & Ed & Hst) E2.
  assert (Ei : inflight (gr_dv b2) = inflight (gr_dv b1)).
  { rewrite E2. cbn. rewrite Ed. transitivity (inflight ((gr_dv b1) <| dv_pstore := st |>)); [done|]. by eapply inflight_out. }
  split; rewrite ?Ei; try done.
  - split; rewrite E2; cbn; try done; rewrite Ed; [|cbn; done]. etransitivity; [exact S4|]. by split_and!.
  - rewrite E2. exact R2.
  - rewrite E2. exact R3.
  - intros scope key. rewrite E2. apply R6.
  - intros x q Hne Hx. destruct (R7 x q Hne Hx) as [V O]. rewrite E2. cbn. rewrite Ed. cbn. rewrite Hst by done. done.
Qed.

Lemma ginv_quiet b r p d' : ginv b -> dv_pstore (gr_dv b) !! r = Some p -> (forall id, dv_pending (gr_dv b) !! id <> Some r) ->
  quiet r (gr_dv b) d' -> (forall q, dv_pstore d' !! r = Some q -> topicOf q = topicOf p) -> ginv (b <| gr_dv := d' |>).
Proof.
  intros G Hr Hout (st & mt & Ed & Hst) Htop. destruct (gn_pend _ G) as [L I]. apply ginv_dv; [done| |by rewrite Ed; split_and!].
  exists L. rewrite Ed. rewrite Ed in Htop. apply pinv_metrics. by eapply pinv_out.
Qed.

Lemma wp_count_b b proj (St : Setter proj) (Q : unit -> groups -> Prop) :
  (forall mt, Q tt (b <| gr_dv := (gr_dv b) <| dv_metrics := mt |> |>)) -> wp (count proj) b Q.
Proof. intros HQ. unfold count, metric. apply wp_inDeliveries, wp_modify, HQ. Qed.

Lemma quiet_metrics r d mt : quiet r d (d <| dv_metrics := mt |>).
Proof. exists (dv_pstore d), mt. by destruct d. Qed.

Lemma resent_refl b r p : p_group p = "" -> resent b r p b.
Proof.
  intros Eg. split; try done; [split; try done; lia|by left| |intros x q _ ->; done].
  intros scope key. symmetry. rewrite <- (list_fmap_id (queueOf b scope key)) at 2. apply list_fmap_ext. intros _ j _.
  unfold requeue. by rewrite decide_False by tauto.
Qed.

Lemma requeue_other maxAttempts p scope (l : list job) : scope <> mkScope (m_Topic (p_message p)) (p_group p) ->
  requeue maxAttempts p scope <$> l = l.
Proof.
  intros Hne. rewrite <- (list_fmap_id l) at 2. apply list_fmap_ext. intros _ j _. unfold requeue. by rewrite decide_False by tauto.
Qed.

Lemma wp_retryGroup b r p (Q : unit -> groups -> Prop) :
  ginv b -> p_group p <> "" ->
  (forall b', ginv b' -> gr_dv b' = gr_dv b -> resent b r p b' -> Q tt b') -> wp (retryGroup p) b Q.
Proof.
  intros G Hg HQ. unfold retryGroup, wakeGroups. wp_step. apply wp_get. set (scope := mkScope _ _).
  assert (Hrest : forall gw, (forall s, is_Some (gw !! s) <-> is_Some (gr_groupWork b !! s)) ->
    ginv (b <| gr_groupWork := gw |>) ->
    (forall s key, queueOf (b <| gr_groupWork := gw |>) s key = requeue (cfg_MaxAttempts (gr_cfg b)) p s <$> queueOf b s key) ->
    Q tt (wakened (b <| gr_groupWork := gw |>))).
  { intros gw Hgw G' Hq. apply HQ; [by apply ginv_wake|done|].
    split; try done; [split; try done; cbn; lia|by left|intros x q _ Hx; cbn; by rewrite Hx]. }
  wp_step. destruct (gr_groupWork b !! scope) as [g|] eqn:Hgs.
  - destruct (mo_index _ (gn_mem _ G) _ _ Hgs) as ([K I] & Es & Ec). eapply wp_inGroup; [exact Hgs|].
    eapply wp_retryWork; [exact I|apply (gn_attempts _ G)|]. intros g' I' Eb Es' Ec' Ew Eq. apply wp_modify. apply Hrest.
    + intros s. destruct (decide (s = scope)) as [->|Hne]; [|by rewrite lookup_insert_ne]. rewrite lookup_insert_eq, Hgs. split; eauto.
    + eapply ginv_group; [exact G|exact Hgs| |].
      * split; [eauto|]. by rewrite Es', Ec'.
      * unfold groupBytes. by rewrite Eb, Ec'.
    + intros s key. unfold queueOf. cbn. destruct (decide (s = scope)) as [->|Hne].
      * rewrite lookup_insert_eq, Hgs, Eq. apply list_fmap_ext. intros _ j _. unfold requeue. by rewrite decide_True.
      * rewrite lookup_insert_ne by done. by rewrite requeue_other.
  - apply wp_ret. apply wp_modify. change (setf true b) with (wakened b).
    replace (wakened b) with (wakened (b <| gr_groupWork := gr_groupWork b |>)) by (by destruct b). apply Hrest.
    + done.
    + by destruct b.
    + intros s key. transitivity (queueOf b s key); [by destruct b|]. destruct (decide (s = scope)) as [->|Hne]; [|by rewrite requeue_other].
      unfold queueOf. by rewrite Hgs.
Qed.

Lemma wp_retryPending b r p now (Q : unit -> groups -> Prop) :
  ginv b -> dv_pstore (gr_dv b) !! r = Some p -> (forall id, dv_pending (gr_dv b) !! id <> Some r) ->
  sizeOf (p_message p) < 2 ^ 62 -> dv_seq (gr_dv b) + 1 < 2 ^ 64 ->
  (forall b', ginv b' -> resent b r p b' -> Q tt b') -> wp (retryPending r now) b Q.
Proof.
  intros G Hr Hout Hsz Hseq HQ. unfold retryPending. wp_step. eapply wp_pderef_b; [exact Hr|]. wp_step. apply wp_get. wp_step.
  assert (Hend : forall b1 p1, ginv b1 -> resent b r p b1 -> dv_pstore (gr_dv b1) !! r = Some p1 ->
    (forall id, dv_pending (gr_dv b1) !! id <> Some r) -> wp (inDeliveries (releasePending r)) b1 Q).
  { intros b1 p1 G1 R1 Hp1 Ho1. apply wp_inDeliveries. unfold releasePending. apply wp_modify.
    assert (Hq : quiet r (gr_dv b1) ((gr_dv b1) <| dv_pstore := delete r (dv_pstore (gr_dv b1)) |>)).
    { exists (delete r (dv_pstore (gr_dv b1))), (dv_metrics (gr_dv b1)). split; [by destruct (gr_dv b1)|]. intros x Hx. by apply lookup_delete_ne. }
    apply HQ.
    - eapply ginv_quiet; [exact G1|exact Hp1|exact Ho1|exact Hq|]. intros q Hd. cbn in Hd. by rewrite lookup_delete_eq in Hd.
    - by eapply quiet_resent. }
  assert (Hcount : forall b1 p1 proj (St : Setter proj), ginv b1 -> resent b r p b1 -> dv_pstore (gr_dv b1) !! r = Some p1 ->
    (forall id, dv_pending (gr_dv b1) !! id <> Some r) ->
    wp (count proj) b1 (fun _ b2 => wp (inDeliveries (releasePending r)) b2 Q)).
  { intros b1 p1 proj St G1 R1 Hp1 Ho1. apply wp_count_b. intros mt. eapply (Hend _ p1); [| |exact Hp1|exact Ho1].
    - eapply ginv_quiet; [exact G1|exact Hp1|exact Ho1|apply quiet_metrics|]. cbn. congruence.
    - eapply quiet_resent; [exact Ho1|exact R1|apply quiet_metrics|done]. }
  destruct (bool_decide_reflect (p_group p <> "")) as [Hg|Hg].
  { wp_step. eapply wp_retryGroup; [done|done|]. intros b1 G1 E1 R1. rewrite <- E1 in Hr, Hout. by eapply Hcount. }
  assert (Eg : p_group p = "") by (destruct (decide (p_group p = "")); [done|by exfalso]).
  pose proof (resent_refl b r p Eg) as R0. destruct (bool_decide_reflect (cfg_MaxAttempts (gr_cfg b) <= p_attempt p)) as [Hmax|Hmax].
  { by eapply Hcount. }
  wp_step. apply wp_inDeliveries. eapply wp_pupdate; [exact Hr|]. set (p1 := p <| p_attempt := _ |>).
  set (d1 := (gr_dv b) <| dv_pstore := _ |>).
  assert (Hq : quiet r (gr_dv b) d1).
  { exists (<[r := p1]> (dv_pstore (gr_dv b))), (dv_metrics (gr_dv b)). unfold d1. split; [by destruct (gr_dv b)|]. intros x Hx. by apply lookup_insert_ne. }
  assert (Hp1 : dv_pstore d1 !! r = Some p1) by apply lookup_insert_eq.
  set (b1 := b <| gr_dv := d1 |>).
  assert (G1 : ginv b1).
  { eapply ginv_quiet; [exact G|exact Hr|exact Hout|exact Hq|]. intros q E. rewrite Hp1 in E. injection E as <-. done. }
  assert (R1 : resent b r p b1) by by eapply quiet_resent.
  wp_step. apply wp_count_b. intros mt. set (b2 := setf _ b1).
  assert (G2 : ginv b2) by (eapply ginv_quiet; [exact G1|exact Hp1|exact Hout|apply quiet_metrics|]; intros q E; change (dv_pstore d1 !! r = Some q) in E; congruence).
  assert (R2 : resent b r p b2) by (eapply (quiet_resent b r p b1 b2); [exact Hout|exact R1|apply quiet_metrics|done]).
  case_bool_decide as Hexp; [by eapply Hcount|]. wp_step. apply wp_get.
  destruct (dv_subs (gr_dv b2) !! p_subscriberID p) as [sr|] eqn:Hsub; [|by eapply Hcount].
  destruct (gn_pend _ G2) as [L2 I2]. destruct (pi_subs _ _ I2 _ _ Hsub) as (s & Hs & Esid & _).
  assert (Hone : wp (inDeliveries (sendDeliveryLocked sr (p_message p) (p_attempt p + 1) true now)) b2
    (fun _ b3 => wp (gret tt) b3 (fun _ b4 => wp (inDeliveries (releasePending r)) b4 Q))).
  { eapply wp_send_b; [exact G2|exact Hs|exact Hsz|exact Hseq|]. intros id d3 b3 G3 S3 [Sk _] Sn Ok. apply wp_ret.
    destruct (Ok r p1 Hp1) as [V O]. destruct (dv_pstore d3 !! r) as [p3|] eqn:Hp3; [|done]. clear V.
    apply (Hend b3 p3); [done| |exact Hp3|by apply O]. destruct R2 as [Q1 Q2 Q3 Q4 Q5 Q6 Q7]. split; try done.
    - destruct S3 as [X1 X2 X3 X4 X5], Q1 as [Y1 Y2 Y3 Y4 Y5].
      split; [congruence..|etransitivity; [exact Y4|exact X4]|]. change (dv_seq (gr_dv b2)) with (dv_seq (gr_dv b)) in X5. lia.
    - etransitivity; [exact Q4|exact Sk].
    - assert (Ei : inflight (gr_dv b2) = inflight (gr_dv b)) by exact (inflight_out (gr_dv b) r (<[r := p1]> (dv_pstore (gr_dv b))) Hout (fun x Hx => lookup_insert_ne _ r x p1 (not_eq_sym Hx))).
      rewrite Ei in Sn. destruct Sn as [E|(i & f & Hi & E & E1 & E2 & E3)]; [left; exact E|]. right. exists i, f. split; [done|]. split; [exact E|].
      split_and!; [done|lia|done|done|]. rewrite E3. exact Esid.
    - intros x q Hne Hx. destruct (Q7 x q Hne Hx) as [V2 O2]. destruct (dv_pstore (gr_dv b2) !! x) as [q2|] eqn:Hq2; [|done].
      destruct (Ok x q2 Hq2) as [V3 O3]. split; [|by auto]. change (dv_pstore (gr_dv b3)) with (dv_pstore d3). rewrite V3. exact V2. }
  revert Hone. unfold wp, sendDelivery, inDeliveries, gzoom, gbind. destruct (sendDeliveryLocked _ _ _ _ _ _) as [[x d]|]; [|done].
  cbn. done.
Qed.

(** ** All the retries of a pass *)
Definition requeueAll (maxAttempts : Z) (ps : list pending) (scope : checkpointScope) (j : job) : job :=
  foldl (fun j p => requeue maxAttempts p scope j) j ps.

(** [c] is [b] after the retries of [ps]. *)
Record retriedAll (b : groups) (ps : list pending) (c : groups) : Prop := {
  ra_served : served (llen ps) b c;
  ra_ck : gr_ck c = gr_ck b;
  ra_kept : inflight (gr_dv b) ⊆ inflight (gr_dv c);
  ra_new : exists new : list (pending * (string * flight)), new.*1 `sublist_of` ps /\ NoDup new.*2.*1 /\
    Forall (fun x => resendOf (cfg_MaxAttempts (gr_cfg b)) x.1 x.2.2) new /\
    forall id f, inflight (gr_dv c) !! id = Some f <-> inflight (gr_dv b) !! id = Some f \/ (id, f) ∈ new.*2;
  ra_queue : forall scope key, queueOf c scope key = requeueAll (cfg_MaxAttempts (gr_cfg b)) ps scope <$> queueOf b scope key;
}.

Lemma retriedAll_nil b : retriedAll b [] b.
Proof.
  split; try done; [split; try done; change (llen []) with 0; lia| |intros scope key; symmetry; apply list_fmap_id].
  exists []. split_and!; [done|constructor|constructor|]. intros id f. cbn. rewrite elem_of_nil. tauto.
Qed.

Lemma retriedAll_snoc b ps c r p c' : retriedAll b ps c -> resent c r p c' -> retriedAll b (ps ++ [p]) c'.
Proof.
  intros [A1 A2 A3 A4 A5] [B1 B2 B3 B4 B5 B6 _].
  assert (Ec : cfg_MaxAttempts (gr_cfg c) = cfg_MaxAttempts (gr_cfg b)).
  { unfold gr_cfg. f_equal. apply (sv_reg _ _ _ A1). }
  rewrite Ec in B5, B6. split.
  - eapply served_trans; [exact A1|exact B1|]. rewrite llen_app. change (llen [p]) with 1. lia.
  - congruence.
  - by etransitivity.
  - destruct A4 as (new & N1 & N2 & N3 & N4). destruct B5 as [E|(id & f & Hid & E & R)].
    + exists new. split_and!; [by apply sublist_inserts_r|done|done|by rewrite E].
    + assert (Hnew : id ∉ new.*2.*1).
      { intros ((i & g) & -> & Hin)%list_elem_of_fmap. assert (inflight (gr_dv c) !! i = Some g) as Hc by (apply N4; by right). cbn in Hid. congruence. }
      exists (new ++ [(p, (id, f))]). rewrite !fmap_app. split_and!; [by apply sublist_app|apply NoDup_app; split_and!; [done| |apply NoDup_singleton]| |].
      * intros x Hx ->%list_elem_of_singleton. by apply Hnew.
      * apply Forall_app. split; [done|by apply Forall_singleton].
      * intros i g. rewrite E, lookup_insert_Some, N4. change ([(p, (id, f))].*2) with [(id, f)]. rewrite elem_of_app, list_elem_of_singleton. split.
        { intros [[<- <-]|[_ [?|?]]]; tauto. }
        { intros [Hi|[Hi|[= -> ->]]]; [| |by left]; right; (split; [|tauto]).
          - intros ->. assert (inflight (gr_dv c) !! i = Some g) as Hc by (apply N4; by left). congruence.
          - intros ->. apply Hnew, list_elem_of_fmap. by exists (i, g). }
  - intros scope key. rewrite B6, A5, <- list_fmap_compose. apply list_fmap_ext. intros _ j _. unfold requeueAll.
    by rewrite foldl_app.
Qed.

Lemma wp_retryAll now l : forall b (Q : unit -> groups -> Prop),
  ginv b -> NoDup l -> dv_seq (gr_dv b) + llen l < 2 ^ 64 ->
  (forall r, r ∈ l -> (forall id, dv_pending (gr_dv b) !! id <> Some r) /\
     exists p, dv_pstore (gr_dv b) !! r = Some p /\ sizeOf (p_message p) < 2 ^ 62) ->
  (forall ps c, ginv c -> retriedAll b ps c ->
     Forall2 (fun r p => pview <$> dv_pstore (gr_dv b) !! r = Some (pview p)) l ps -> Q tt c) ->
  wp (gfor l (fun r => retryPending r now)) b Q.
Proof.
  intros b Q G Hnd Hseq Hl HQ.
  apply (wp_for (fun rem c => ginv c /\ exists d ps, l = d ++ rem /\ retriedAll b ps c /\
    Forall2 (fun r p => pview <$> dv_pstore (gr_dv b) !! r = Some (pview p)) d ps /\
    forall r, r ∈ rem -> (forall id, dv_pending (gr_dv c) !! id <> Some r) /\
      exists p, dv_pstore (gr_dv b) !! r = Some p /\ pview <$> dv_pstore (gr_dv c) !! r = Some (pview p))).
  - split; [done|]. exists [], []. split_and!; [done|apply retriedAll_nil|constructor|]. intros r Hr.
    destruct (Hl r Hr) as (Ho & p & Hp & _). split; [done|]. exists p. by rewrite Hp.
  - intros r rem c (Gc & d & ps & El & Ra & Hf & Hrem).
    destruct (Hrem r) as (Ho & p0 & Hp0 & Hv); [by left|]. destruct (dv_pstore (gr_dv c) !! r) as [p|] eqn:Hp; [|done].
    apply (inj Some) in Hv. destruct (Hl r) as (_ & p1 & Hp1 & Hsz); [rewrite El; apply elem_of_app; right; by left|].
    assert (p1 = p0) as -> by congruence.
    assert (Em : p_message p = p_message p0) by by destruct (pview_fields _ _ Hv) as (_ & -> & _).
    pose proof (Forall2_length _ _ _ Hf) as Hlen. pose proof (sv_seq _ _ _ (ra_served _ _ _ Ra)).
    assert (El' : llen l = llen ps + 1 + llen rem) by (rewrite El, llen_app, llen_cons; unfold llen; rewrite Hlen; lia).
    pose proof (llen_nonneg rem).
    eapply wp_retryPending; [done|exact Hp|exact Ho|by rewrite Em|lia|]. intros c' G' R. split; [done|].
    exists (d ++ [r]), (ps ++ [p]). split_and!.
    + by rewrite El, <- app_assoc.
    + by eapply retriedAll_snoc.
    + apply Forall2_app; [done|]. constructor; [|constructor]. rewrite Hp0. apply (f_equal Some). by symmetry.
    + intros x Hx. destruct (Hrem x) as (Hox & q0 & Hq0 & Hvx); [by right|]. destruct (dv_pstore (gr_dv c) !! x) as [q|] eqn:Hq; [|done].
      assert (Hne : x <> r).
      { intros ->. rewrite El in Hnd. apply NoDup_app in Hnd as (_ & _ & Hnd). by apply NoDup_cons in Hnd as []. }
      destruct (rs_objs _ _ _ _ R x q Hne Hq) as [V O]. split; [by apply O|]. exists q0. split; [done|]. rewrite V. exact Hvx.
  - intros c (Gc & d & ps & El & Ra & Hf & _). rewrite app_nil_r in El. subst d. by eapply HQ.
Qed.

(** The job waits for the acknowledgement of a delivery that is due. *)
Definition timedOut (d : deliveries) (now : Z) (scope : checkpointScope) (j : job) : bool :=
  match inflight d !! j_delivery j with
  | Some f => bool_decide (f_due f <= now) && bool_decide (f_group f <> "") && bool_decide (m_ID (f_message f) = j_id j) &&
      bool_decide (scope = mkScope (m_Topic (f_message f)) (f_group f))
  | None => false
  end.

(** It is to be delivered again, with one more attempt up to the limit. *)
Definition requeued (maxAttempts : Z) (j : job) : job :=
  mkJob (j_id j) (j_expires j) (Z.min (j_attempt j + 1) maxAttempts) "".

(** [p] is the delivery that the job waits for. *)
Definition waitsFor (scope : checkpointScope) (j : job) (p : pending) : Prop :=
  p_group p <> "" /\ scope = mkScope (m_Topic (p_message p)) (p_group p) /\ j_id j = m_ID (p_message p) /\
  j_delivery j = p_deliveryID p.

Lemma requeueAll_job maxAttempts ps scope j : (forall p, p ∈ ps -> p_deliveryID p <> "") ->
  ((exists p, p ∈ ps /\ waitsFor scope j p) /\ requeueAll maxAttempts ps scope j = requeued maxAttempts j) \/
  (~ (exists p, p ∈ ps /\ waitsFor scope j p) /\ requeueAll maxAttempts ps scope j = j).
Proof.
  induction ps as [|p ps IH] using rev_ind; intros Hne.
  { right. split; [|done]. intros (p & Hp & _). by apply elem_of_nil in Hp. }
  assert (Hstep : requeueAll maxAttempts (ps ++ [p]) scope j = requeue maxAttempts p scope (requeueAll maxAttempts ps scope j))
    by (unfold requeueAll; by rewrite foldl_app).
  assert (Hp : p_deliveryID p <> "") by (apply Hne; apply elem_of_app; right; by left).
  destruct IH as [[(q & Hq & Hw) E]|[Hno E]]; [intros q Hq; apply Hne, elem_of_app; by left|..]; rewrite Hstep, E.
  - left. split; [exists q; split; [apply elem_of_app; by left|done]|]. unfold requeue. case_decide; [|done].
    unfold retried. rewrite (bool_decide_false (j_delivery _ = _)) by (by apply not_eq_sym). by rewrite andb_false_r.
  - unfold requeue, retried. case_decide as Hd.
    + destruct (bool_decide_reflect (j_id j = m_ID (p_message p))) as [E1|E1]; cbn [andb].
      * destruct (bool_decide_reflect (j_delivery j = p_deliveryID p)) as [E2|E2].
        { left. split; [|done]. exists p. split; [apply elem_of_app; right; by left|]. destruct Hd. by split_and!. }
        { right. split; [|done]. intros (q & [Hq| ->%list_elem_of_singleton]%elem_of_app & Hw); [by apply Hno; eauto|]. by destruct Hw as (_ & _ & _ & ?). }
      * right. split; [|done]. intros (q & [Hq| ->%list_elem_of_singleton]%elem_of_app & Hw); [by apply Hno; eauto|]. by destruct Hw as (_ & _ & ? & _).
    + right. split; [|done]. intros (q & [Hq| ->%list_elem_of_singleton]%elem_of_app & Hw); [by apply Hno; eauto|].
      destruct Hw as (? & ? & _). by apply Hd.
Qed.

(** What the deadline loop took out. *)
Lemma pinv_size d L id r p : pinv d L -> dv_pending d !! id = Some r -> dv_pstore d !! r = Some p -> sizeOf (p_message p) < 2 ^ 62.
Proof.
  intros I Hid Hp. rewrite <- (pi_sizes _ _ I _ _ _ Hid Hp). pose proof (bo_max _ (pi_budgets _ _ I)).
  pose proof (pi_max _ _ I). pose proof (pi_bytes _ _ I) as Eb.
  assert (Hle : pbytes (dv_pstore d) everything id r <= psum d everything).
  { apply (msum_le_elem (pbytes (dv_pstore d) everything)); [|done]. intros i x Hx.
    destruct (pi_item _ _ I _ _ Hx) as (q & Hq & _ & _ & _ & ?). unfold pbytes. rewrite Hq. cbn. lia. }
  unfold pbytes in Hle. rewrite Hp in Hle. cbn in Hle. lia.
Qed.

Lemma swept_length d L now l d' : pinv d L -> swept now d l d' -> llen l <= mlen (dv_pending d).
Proof.
  intros I [_ _ St Sn _]. unfold llen, mlen. apply inj_le. rewrite <- length_map_to_list, <- (length_fmap snd).
  apply submseteq_length, NoDup_submseteq; [done|]. intros r [[id Hid] _]%St. apply list_elem_of_fmap. exists (id, r).
  split; [done|]. by apply elem_of_map_to_list.
Qed.

Lemma swept_pendings d L now l d' ps : pinv d L -> swept now d l d' ->
  Forall2 (fun r p => pview <$> dv_pstore d' !! r = Some (pview p)) l ps ->
  (forall p, p ∈ ps -> p_deliveryID p <> "" /\ exists f, inflight d !! p_deliveryID p = Some f /\ f_due f <= now /\ flightOf p = f) /\
  (forall id f, inflight d !! id = Some f -> f_due f <= now -> exists p, p ∈ ps /\ p_deliveryID p = id /\ flightOf p = f).
Proof.
  intros I [Sv Sk St Sn Ss] Hf.
  assert (Hat : forall r p, r ∈ l -> pview <$> dv_pstore d' !! r = Some (pview p) -> exists id f, dv_pending d !! id = Some r /\
    inflight d !! id = Some f /\ f_due f <= now /\ p_deliveryID p = id /\ flightOf p = f).
  { intros r p [[id Hid] Hdue]%St Hv. destruct (flight_due _ _ _ _ I Hid) as (f & Hfl & Hat & _ & Hd).
    rewrite Hd in Hdue. apply bool_decide_eq_true in Hdue. destruct (pi_item _ _ I _ _ Hid) as (q & Hq & Eid & _).
    rewrite Sv, Hq in Hv. apply (inj Some) in Hv. exists id, f. split_and!; try done.
    - destruct (pview_fields _ _ Hv) as (E1 & _). congruence.
    - unfold flightAt in Hat. rewrite Hq in Hat. apply (inj Some) in Hat. subst f. symmetry. by apply flightOf_view. }
  split.
  - intros p Hp. destruct (Forall2_elem_r _ _ _ _ Hf Hp) as (r & Hr & Hv).
    destruct (Hat r p Hr Hv) as (id & f & Hid & Hfl & Hdue & -> & E). split; [|eauto].
    destruct (pi_ids _ _ I _ _ Hid) as (n & _ & ->). apply idOf_nonempty.
  - intros id f Hfl Hdue. pose proof Hfl as Hfl0. rewrite inflight_lookup in Hfl. apply bind_Some in Hfl as (r & Hid & _).
    assert (Hr : r ∈ l).
    { apply St. split; [eauto|]. destruct (flight_due _ _ _ _ I Hid) as (f' & Hf' & _ & _ & Hd). rewrite Hd. apply bool_decide_true. congruence. }
    destruct (Forall2_elem_l _ _ _ _ Hf Hr) as (p & Hp & Hv). exists p. split; [done|].
    destruct (Hat r p Hr Hv) as (id' & f' & Hid' & Hf' & _ & E1 & E2).
    assert (id' = id) as -> by (by eapply pending_inj). split; [done|]. congruence.
Qed.

(** No delivery is swept twice. *)
Lemma swept_distinct d L now l d' ps : pinv d L -> swept now d l d' ->
  Forall2 (fun r p => pview <$> dv_pstore d' !! r = Some (pview p)) l ps -> NoDup (p_deliveryID <$> ps).
Proof.
  intros I [Sv Sk St Sn Ss] Hf. assert (Hat : forall r, r ∈ l -> is_Some (dv_pending d !! (default "" (p_deliveryID <$> dv_pstore d' !! r))) /\
    dv_pending d !! (default "" (p_deliveryID <$> dv_pstore d' !! r)) = Some r).
  { intros r [[id Hid] _]%St. destruct (pi_item _ _ I _ _ Hid) as (q & Hq & Eid & _). destruct (agree_lookup _ _ _ _ _ Sv Hq) as (q' & Hq' & E). rewrite Hq'. cbn.
    destruct (pview_fields _ _ E) as (E1 & _). assert (p_deliveryID q' = id) as -> by congruence. eauto. }
  assert (E : p_deliveryID <$> ps = (fun r => default "" (p_deliveryID <$> dv_pstore d' !! r)) <$> l).
  { clear Sn St Ss Hat. induction Hf as [|r p l ps Hr Hf IH]; [done|]. cbn. f_equal; [|done]. destruct (dv_pstore d' !! r) as [q|]; [|done]. cbn. apply (inj Some) in Hr.
    symmetry. by destruct (pview_fields _ _ Hr) as (E1 & _). }
  rewrite E. apply NoDup_fmap_2_strong; [|done]. intros x y Hx Hy Exy. destruct (Hat x Hx) as [_ Ex], (Hat y Hy) as [_ Ey]. rewrite Exy in Ex. congruence.
Qed.

Lemma timedOut_waits d now (ps : list pending) scope j :
  (forall p, p ∈ ps -> p_deliveryID p <> "" /\ exists f, inflight d !! p_deliveryID p = Some f /\ f_due f <= now /\ flightOf p = f) ->
  (forall id f, inflight d !! id = Some f -> f_due f <= now -> exists p, p ∈ ps /\ p_deliveryID p = id /\ flightOf p = f) ->
  timedOut d now scope j = true <-> exists p, p ∈ ps /\ waitsFor scope j p.
Proof.
  intros H1 H2. unfold timedOut. split.
  - destruct (inflight d !! j_delivery j) as [f|] eqn:Hf; [|done]. intros Ht.
    apply andb_true_iff in Ht as [Ht E4]. apply andb_true_iff in Ht as [Ht E3]. apply andb_true_iff in Ht as [E1 E2].
    apply bool_decide_eq_true in E1, E2, E3, E4. destruct (H2 _ _ Hf E1) as (p & Hp & Eid & Ef). exists p. split; [done|].
    subst f. by split_and!.
  - intros (p & Hp & Hg & Hs & Hj & Hd). destruct (H1 p Hp) as (_ & f & Hf & Hdue & Ef). rewrite Hd, Hf. subst f. cbn.
    rewrite !bool_decide_true by done. done.
Qed.

(** The state when the retries begin: compacted, and without the deliveries that are due. *)
Lemma wp_maintenance b now (Q : unit -> groups -> Prop) :
  ginv b -> dv_seq (gr_dv b) + mlen (dv_pending (gr_dv b)) < 2 ^ 64 ->
  (forall l ps d1 b', let b1 := (b <| gr_ck := compactCheckpointsLocked (unixMilli now) (gr_ck b) |>) <| gr_dv := d1 |> in
     ginv b' -> ginv b1 -> registryKept (gr_dv b) d1 -> swept now (gr_dv b) l d1 -> retriedAll b1 ps b' ->
     Forall2 (fun r p => pview <$> dv_pstore d1 !! r = Some (pview p)) l ps -> Q tt b') ->
  wp (maintenanceTick now) b Q.
Proof.
  intros G Hseq HQ. set (b0 := b <| gr_ck := compactCheckpointsLocked (unixMilli now) (gr_ck b) |>) in *.
  assert (G0 : ginv b0) by (eapply ginv_rest; [exact G|apply mem_ok_ck, gn_mem, G|apply table_ok_compact, (gn_ck _ G)|done..]).
  destruct (gn_pend _ G) as [L I].
  unfold maintenanceTick. wp_step. apply wp_modify. fold b0. wp_step. apply wp_get. wp_step. apply wp_inDeliveries.
  eapply wp_popDue; [change (dv_deadlines (gr_dv b0)) with (dv_deadlines (gr_dv b)); lia|exact I|]. intros l d1 L1 I1 [Hreg Hsq] Sw.
  assert (G1 : ginv (b0 <| gr_dv := d1 |>)) by (apply ginv_dv; [done|by exists L1|done]).
  pose proof (swept_length _ _ _ _ _ I Sw). apply wp_retryAll.
  - done.
  - apply (sw_nodup _ _ _ _ Sw).
  - change (dv_seq d1 + llen l < 2 ^ 64). rewrite Hsq. change (dv_seq (gr_dv b0)) with (dv_seq (gr_dv b)). lia.
  - intros r Hr. destruct Sw as [Sv Sk St _ _]. pose proof Hr as Hr0. apply St in Hr0 as [[id Hid] Hdue]. split.
    + intros i [_ Hn]%Sk. congruence.
    + destruct (pi_item _ _ I _ _ Hid) as (q & Hq & _). destruct (agree_lookup _ _ _ _ _ Sv Hq) as (q' & Hq' & E).
      exists q'. split; [done|]. destruct (pview_fields _ _ E) as (_ & -> & _). exact (pinv_size _ _ _ _ _ I Hid Hq).
  - intros ps c Gc Ra Hf. by apply (HQ l ps d1 c).
Qed.

(** C20: the periodic pass over the deadlines. It terminates without a panic and keeps the invariant of the
    groups, the members and the memory of the streams. A delivery that is not due stays in flight;
    a broadcast delivery that is due is resent at most once, to the same member, with one more attempt, and only while it
    has attempts left, and nothing else enters flight: [resends] pairs each delivery that is resent with its one resend; and every
    queued message whose delivery is due, and no other, goes back to waiting in its place in its queue with one more attempt
    up to the limit. *)
Theorem maintenance_retries b now :
  ginv b -> dv_seq (gr_dv b) + mlen (dv_pending (gr_dv b)) < 2 ^ 64 ->
  exists b', maintenanceTick now b = Some (tt, b') /\ ginv b' /\ slack b' = slack b /\
    gr_topicBroadcast b' = gr_topicBroadcast b /\ gr_topicGroups b' = gr_topicGroups b /\
    (forall id f, inflight (gr_dv b) !! id = Some f -> now < f_due f -> inflight (gr_dv b') !! id = Some f) /\
    (exists resends : list (string * string), NoDup resends.*1 /\ NoDup resends.*2 /\
       (forall id f, inflight (gr_dv b') !! id = Some f -> inflight (gr_dv b) !! id = Some f /\ now < f_due f \/ id ∈ resends.*2) /\
       forall id0 id, (id0, id) ∈ resends -> exists f0 f, inflight (gr_dv b) !! id0 = Some f0 /\ f_due f0 <= now /\ f_group f0 = "" /\
         f_attempt f0 < cfg_MaxAttempts (gr_cfg b) /\ inflight (gr_dv b') !! id = Some f /\ f_message f = f_message f0 /\
         f_subscriber f = f_subscriber f0 /\ f_attempt f = f_attempt f0 + 1) /\
    (forall scope key, queueOf b' scope key =
       (fun j => if timedOut (gr_dv b) now scope j then requeued (cfg_MaxAttempts (gr_cfg b)) j else j) <$> queueOf b scope key).
Proof.
  intros G Hseq. set (b0 := b <| gr_ck := compactCheckpointsLocked (unixMilli now) (gr_ck b) |>).
  destruct (gn_pend _ G) as [L I].
  assert (H : wp (maintenanceTick now) b (fun _ b' => exists l ps d1, ginv b' /\
    registryKept (gr_dv b) d1 /\ swept now (gr_dv b) l d1 /\ retriedAll (b0 <| gr_dv := d1 |>) ps b' /\
    Forall2 (fun r p => pview <$> dv_pstore d1 !! r = Some (pview p)) l ps)).
  { apply wp_maintenance; [done|done|]. intros l ps d1 b' b1 G' _ Hreg Sw Ra Hf. exists l, ps, d1.
    exact (conj G' (conj Hreg (conj Sw (conj Ra Hf)))). }
  apply wp_elim in H as ([] & b' & E & l & ps & d1 & G' & Hreg & Sw & [Ra1 Ra2 Ra3 Ra4 Ra5] & Hf).
  destruct (swept_pendings _ _ _ _ _ _ I Sw Hf) as [P1 P2]. exists b'. split; [done|]. split; [done|].
  assert (Hcfg : gr_cfg (b0 <| gr_dv := d1 |>) = gr_cfg b) by (unfold gr_cfg; apply Hreg).
  rewrite Hcfg in Ra4, Ra5.
  assert (Hin : forall id f, inflight d1 !! id = Some f <-> inflight (gr_dv b) !! id = Some f /\ now < f_due f).
  { intros id f. rewrite (inflight_swept _ _ _ _ Sw). split.
    - intros [Hfl (r & Hid & Hdue)]. split; [done|]. destruct (flight_due _ _ _ _ I Hid) as (f' & Hf' & _ & _ & Hd).
      rewrite Hd in Hdue. apply bool_decide_eq_false in Hdue. assert (f' = f) as -> by congruence. lia.
    - intros [Hfl Hlt]. split; [done|]. pose proof Hfl as Hfl0. rewrite inflight_lookup in Hfl. apply bind_Some in Hfl as (r & Hid & _).
      exists r. split; [done|]. destruct (flight_due _ _ _ _ I Hid) as (f' & Hf' & _ & _ & Hd). rewrite Hd. apply bool_decide_false.
      assert (f' = f) as -> by congruence. lia. }
  split_and!.
  - rewrite (sv_slack _ _ _ Ra1). done.
  - rewrite (sv_broadcast _ _ _ Ra1). done.
  - rewrite (sv_members _ _ _ Ra1). done.
  - intros id f Hfl Hlt. eapply lookup_weaken; [|exact Ra3]. apply Hin. by split.
  - destruct Ra4 as (new & N1 & N2 & N3 & N4). exists ((fun x => (p_deliveryID x.1, x.2.1)) <$> new). split_and!.
    + rewrite <- list_fmap_compose. change (fst ∘ _) with (p_deliveryID ∘ (fst : pending * (string * flight) -> pending)). rewrite list_fmap_compose.
      eapply sublist_NoDup; [by eapply swept_distinct|by apply sublist_fmap'].
    + rewrite <- list_fmap_compose. change (snd ∘ _) with (fst ∘ (snd : pending * (string * flight) -> string * flight)). by rewrite list_fmap_compose.
    + intros id f [H1|H1]%N4; [left; by apply Hin|right]. apply list_elem_of_fmap in H1 as (x & E1 & Hx). apply list_elem_of_fmap.
      exists (p_deliveryID x.1, x.2.1). split; [by rewrite <- E1|]. apply list_elem_of_fmap. by exists x.
    + intros id0 id ((p & i & f) & [= -> ->] & Hx)%list_elem_of_fmap. rewrite Forall_forall in N3. destruct (N3 _ Hx) as (R1 & R2 & R3 & R4 & R5). cbn in *.
      assert (Hp : p ∈ ps) by (eapply elem_of_sublist; [|exact N1]; apply list_elem_of_fmap; by exists (p, (i, f))).
      destruct (P1 p Hp) as (_ & f0 & Hf0 & Hdue & Ef). exists f0, f. subst f0. split_and!; try done.
      apply N4. right. apply list_elem_of_fmap. by exists (p, (i, f)).
  - intros scope key. rewrite Ra5. change (queueOf (b0 <| gr_dv := d1 |>) scope key) with (queueOf b scope key).
    apply list_fmap_ext. intros _ j _. pose proof (timedOut_waits (gr_dv b) now ps scope j P1 P2) as Ht.
    destruct (requeueAll_job (cfg_MaxAttempts (gr_cfg b)) ps scope j) as [[Hw ->]|[Hw ->]]; [intros p Hp; by apply P1|..].
    + apply Ht in Hw. by rewrite Hw.
    + destruct (timedOut (gr_dv b) now scope j) eqn:Eto; [|done]. exfalso. by apply Hw, Ht.
Qed.
