(* ===== verification/GroupTick.v ===== *)
(** * Consumer groups: one turn of the loop

    [groupLoop] drops what expired or completed, sends each lane's head that can be sent, and forgets
    the groups that have neither work nor members.  It never drops a message that is still to be
    processed, and takes one identifier at most per lane. *)
From S2P Require Import Prelude GoHeap Dll KeyedLists Types Config Metrics GoIO Base64 Checkpoints.
From S2P Require Import Pending PendingInv Deliveries GroupIndex GroupWork GroupInv SubscriberInv GroupLoop.
From S2P Require Import GroupRetry.
#[local] Open Scope Z_scope.

(** ** Queues and indexes *)
Lemma queue_work g K key j : gw_inv g K -> j ∈ queue key g -> exists r w,
  g_work g !! j_id j = Some r /\ g_store g !! r = Some w /\ j = jobOf w.
Proof.
  intros I. rewrite (queue_list _ _ _ I). intros (x & Hx & Hj)%list_elem_of_omap. unfold jobAt in Hj.
  destruct (g_store g !! x) as [v|] eqn:Hv; [|done]. apply (inj Some) in Hj. subst j. exists x, v.
  split; [by eapply (gi_listed _ _ I)|done].
Qed.

Lemma lane_queue g K key : gw_inv g K -> is_Some (g_lanes g !! key) <-> queue key g <> [].
Proof.
  intros I. rewrite (queue_list _ _ _ I). pose proof (lo_state _ _ _ _ _ _ _ (gi_lanes _ _ I) key) as Hs.
  assert (Hk : omap (jobAt g) (K key) = [] <-> K key = []).
  { split; [|by intros ->]. destruct (K key) as [|r l] eqn:E; [done|].
    destruct (lo_key _ _ _ _ _ _ _ (gi_lanes _ _ I) key r) as (w & Hw & _); [rewrite E; by left|].
    change (omap (jobAt g) (r :: l)) with (match jobAt g r with Some y => y :: omap (jobAt g) l | None => omap (jobAt g) l end).
    unfold jobAt at 1. by rewrite Hw. }
  rewrite Hk. destruct (g_lanes g !! key); [split; [intros _; apply Hs|by eauto]|]. rewrite Hs. split; [by intros [? ?]|done].
Qed.

Definition laneCount (b : groups) (scope : checkpointScope) : Z :=
  match gr_groupWork b !! scope with Some g => mlen (g_lanes g) | None => 0 end.

(** A job that is still to be processed. *)
Definition alive (b : groups) (scope : checkpointScope) (j : job) (nowMs : Z) : Prop :=
  nowMs < j_expires j /\ checkpointActiveLocked (cs_topic scope) (cs_group scope) (j_id j) nowMs (gr_ck b) = false.

(** Serving one group; [n] identifiers at most are taken. *)
Record turned (scope : checkpointScope) (nowMs : Z) (n : Z) (b b' : groups) : Prop := {
  tn_served : served n b b';
  tn_ck : gr_ck b' = gr_ck b;
  tn_flights : inflight (gr_dv b) ⊆ inflight (gr_dv b');
  tn_other : forall s, s <> scope -> gr_groupWork b' !! s = gr_groupWork b !! s;
  tn_alive : forall key j, j ∈ queueOf b scope key -> alive b scope j nowMs ->
    exists j', j' ∈ queueOf b' scope key /\ j_id j' = j_id j /\ j_expires j' = j_expires j /\ j_attempt j' = j_attempt j;
  tn_lanes : forall key, queueOf b' scope key <> [] -> queueOf b scope key <> [];
}.

Lemma turned_refl scope nowMs b : turned scope nowMs 0 b b.
Proof. split; try done; [apply served_refl|]. intros key j Hj _. by exists j. Qed.

Lemma turned_trans scope nowMs n m k a b c : turned scope nowMs n a b -> turned scope nowMs m b c -> n + m <= k ->
  turned scope nowMs k a c.
Proof.
  intros [A1 A2 A3 A4 A5 A6] [B1 B2 B3 B4 B5 B6] Hk. split; [by eapply served_trans|congruence|by etransitivity| | |auto].
  - intros s Hs. rewrite B4, A4; done.
  - intros key j Hj Hal. destruct (A5 key j Hj Hal) as (j1 & Hj1 & E1 & E2 & E3).
    destruct (B5 key j1 Hj1) as (j2 & Hj2 & F1 & F2 & F3).
    { unfold alive in *. by rewrite E1, E2, A2. }
    exists j2. split; [done|]. split_and!; congruence.
Qed.

Lemma turned_lanes scope nowMs n b c : ginv b -> ginv c -> turned scope nowMs n b c -> laneCount c scope <= laneCount b scope.
Proof.
  intros G Gc T. unfold laneCount. destruct (gr_groupWork c !! scope) as [g'|] eqn:Hg'.
  2:{ destruct (gr_groupWork b !! scope); [unfold mlen; lia|done]. }
  destruct (mo_index _ (gn_mem _ Gc) _ _ Hg') as ([K' I'] & _).
  destruct (gr_groupWork b !! scope) as [g|] eqn:Hg.
  - destruct (mo_index _ (gn_mem _ G) _ _ Hg) as ([K I] & _). unfold mlen. apply inj_le. rewrite <- !size_dom.
    apply subseteq_size. intros key Hk. apply elem_of_dom. apply elem_of_dom in Hk. apply (lane_queue _ _ _ I).
    apply (lane_queue _ _ _ I') in Hk. pose proof (tn_lanes _ _ _ _ _ T key) as Hl. unfold queueOf in Hl. rewrite Hg, Hg' in Hl. auto.
  - assert (E : g_lanes g' = ∅).
    { apply map_eq. intros key. rewrite lookup_empty. apply eq_None_not_Some. intros Hk%(lane_queue _ _ _ I').
      pose proof (tn_lanes _ _ _ _ _ T key) as Hl. unfold queueOf in Hl. rewrite Hg, Hg' in Hl. by apply Hl. }
    rewrite E. done.
Qed.

(** ** Cleaning up *)
Lemma ginv_same b b' : ginv b -> mem_ok b' -> sameRest b b' -> ginv b'.
Proof.
  intros G M (E1 & E2 & _ & E4 & E5 & _). eapply ginv_rest; [exact G|exact M|rewrite E2; apply (gn_ck _ G)|done..].
Qed.

Lemma dropped_turned b scope g id r w nowMs b' : ginv b -> gr_groupWork b !! scope = Some g -> g_work g !! id = Some r ->
  g_store g !! r = Some w -> w_id w = id ->
  w_expires w <= nowMs \/ checkpointActiveLocked (cs_topic scope) (cs_group scope) id nowMs (gr_ck b) = true ->
  dropped b scope id b' -> turned scope nowMs 0 b b'.
Proof.
  intros G Hg Hid Hw Ew Hdead [(E1 & E2 & E3 & E4 & E5 & E6) Ho Hgr _]. destruct (Hgr _ Hg) as (g' & Hg' & W).
  assert (Hq : forall key, queueOf b' scope key = filter (fun j => j_id j <> id) (queueOf b scope key)).
  { intros key. unfold queueOf. rewrite Hg, Hg'. apply (wk_queue _ _ _ W). }
  split; try done; [split; rewrite ?E1; try done; lia|by rewrite E1|..].
  - intros key j Hj [Hexp Hck]. exists j. split; [|done]. rewrite Hq. apply list_elem_of_filter. split; [|done]. intros Ej.
    destruct (mo_index _ (gn_mem _ G) _ _ Hg) as ([K I] & _). unfold queueOf in Hj. rewrite Hg in Hj.
    destruct (queue_work _ _ _ _ I Hj) as (r' & w' & Hr' & Hw' & ->). rewrite Ej in Hr', Hck.
    assert (r' = r) as -> by congruence. assert (w' = w) as -> by congruence. cbn in Hexp. destruct Hdead; [lia|congruence].
  - intros key H Hn. apply H. by rewrite Hq, Hn.
Qed.

Lemma wp_drop b scope g id r w nowMs (Q : unit -> groups -> Prop) :
  ginv b -> gr_groupWork b !! scope = Some g -> g_work g !! id = Some r -> g_store g !! r = Some w -> w_id w = id ->
  w_expires w <= nowMs \/ checkpointActiveLocked (cs_topic scope) (cs_group scope) id nowMs (gr_ck b) = true ->
  (forall g' b', ginv b' -> turned scope nowMs 0 b b' -> gr_groupWork b' !! scope = Some g' -> g_work g' = delete id (g_work g) ->
     Q tt b') ->
  wp (removeGroupWorkLocked scope r) b Q.
Proof.
  intros G Hg Hid Hw Ew Hdead HQ. eapply wp_removeGroupWork; [apply (gn_mem _ G)|done|done|]. intros b' M D.
  destruct (dp_group _ _ _ _ D _ Hg) as (g' & Hg' & W). apply (HQ g').
  - eapply ginv_same; [exact G|exact M|apply D].
  - by eapply dropped_turned.
  - done.
  - apply W.
Qed.

Lemma turned_metrics scope nowMs b mt : turned scope nowMs 0 b (b <| gr_dv := (gr_dv b) <| dv_metrics := mt |> |>).
Proof. split; try done; [split; try done; cbn; lia|]. intros key j Hj _. by exists j. Qed.

Lemma ginv_metrics b mt : ginv b -> ginv (b <| gr_dv := (gr_dv b) <| dv_metrics := mt |> |>).
Proof.
  intros G. destruct (gn_pend _ G) as [L I]. apply ginv_dv; [done| |by split_and!]. exists L. by apply pinv_metrics.
Qed.

(** Dropping an expired item, with its count. *)
Lemma wp_expire b scope g id r w nowMs (Q : unit -> groups -> Prop) :
  ginv b -> gr_groupWork b !! scope = Some g -> g_work g !! id = Some r -> g_store g !! r = Some w -> w_id w = id ->
  w_expires w <= nowMs ->
  (forall g' b', ginv b' -> turned scope nowMs 0 b b' -> gr_groupWork b' !! scope = Some g' -> g_work g' = delete id (g_work g) ->
     Q tt b') ->
  wp (count mt_GroupExpired ;;; removeGroupWorkLocked scope r) b Q.
Proof.
  intros G Hg Hid Hw Ew Hexp HQ. wp_step. apply wp_count_b. intros mt.
  eapply (wp_drop _ scope g id r w nowMs); [by apply ginv_metrics|done|done|done|done|by left|]. intros g' b' G' T Hg' Egw.
  eapply HQ; [done| |done|done]. eapply turned_trans; [apply turned_metrics|exact T|done].
Qed.

Lemma wp_cleanupWork b scope g id r nowMs (Q : unit -> groups -> Prop) :
  ginv b -> gr_groupWork b !! scope = Some g -> g_work g !! id = Some r ->
  (forall g' b', ginv b' -> turned scope nowMs 0 b b' -> gr_groupWork b' !! scope = Some g' ->
     (forall i x, i <> id -> g_work g !! i = Some x -> g_work g' !! i = Some x) -> Q tt b') ->
  wp (cleanupWork scope nowMs r) b Q.
Proof.
  intros G Hg Hid HQ. destruct (mo_index _ (gn_mem _ G) _ _ Hg) as ([K I] & _).
  destruct (gi_work _ _ I _ _ Hid) as (w & Hw & Ew & _). unfold cleanupWork. wp_step. apply wp_get.
  wp_step. eapply wp_lift; [exact Hg|]. wp_step. eapply wp_lift; [exact Hw|].
  assert (Hdel : forall g' b', ginv b' -> turned scope nowMs 0 b b' -> gr_groupWork b' !! scope = Some g' ->
    g_work g' = delete id (g_work g) -> Q tt b').
  { intros g' b' G' T Hg' Egw. eapply (HQ g'); [done|done|done|]. intros i x Hne Hx. rewrite Egw. by rewrite lookup_delete_ne. }
  case_bool_decide as Hexp; [by eapply wp_expire|]. apply wp_when; intros Hck.
  - rewrite Ew in Hck. eapply wp_drop; try done. by right.
  - eapply HQ; [done|apply turned_refl|done|done].
Qed.

Lemma wp_expireHeads scope key nowMs : forall fuel b g (Q : unit -> groups -> Prop),
  ginv b -> gr_groupWork b !! scope = Some g -> (size (g_work g) < fuel)%nat ->
  (forall g' b', ginv b' -> turned scope nowMs 0 b b' -> gr_groupWork b' !! scope = Some g' -> Q tt b') ->
  wp (expireHeads fuel scope key nowMs) b Q.
Proof.
  induction fuel as [|fuel IH]; intros b g Q G Hg Hf HQ; [lia|]. cbn [expireHeads]. wp_step. apply wp_get.
  wp_step. eapply wp_lift; [exact Hg|].
  assert (Hdone : Q tt b) by (eapply HQ; [done|apply turned_refl|done]).
  destruct (g_lanes g !! key) as [lane|] eqn:Hl; [|by apply wp_ret].
  destruct (mo_index _ (gn_mem _ G) _ _ Hg) as ([K I] & _).
  destruct (lane_head _ _ _ _ _ _ G Hg I Hl) as (r & w & Eh & _ & Hin & Hw & _).
  change (Some lane ≫= ln_head) with (ln_head lane). rewrite Eh.
  wp_step. eapply wp_lift; [exact Hw|]. case_bool_decide as Hexp; [|by apply wp_ret].
  pose proof (gi_listed _ _ I _ _ _ Hin Hw) as Hid.
  assert (Hone : wp (count mt_GroupExpired ;;; removeGroupWorkLocked scope r) b
    (fun _ b' => wp (expireHeads fuel scope key nowMs) b' Q)).
  { eapply wp_expire; [exact G|exact Hg|exact Hid|exact Hw|done|exact Hexp|]. intros g' b' G' T Hg' Egw.
    eapply IH; [exact G'|exact Hg'| |].
    - rewrite Egw. assert (size (g_work g) <> 0)%nat by (intros E%map_size_empty_inv; by rewrite E in Hid).
      rewrite map_size_delete, Hid. lia.
    - intros g2 b2 G2 T2 Hg2. eapply HQ; [done|by eapply turned_trans; [exact T|exact T2|]|done]. }
  revert Hone. unfold wp, gbind. destruct (count mt_GroupExpired b) as [[[] b1]|]; [|done].
  by destruct (removeGroupWorkLocked scope r b1) as [[[] b2]|].
Qed.

Definition sameJob (j j' : job) : Prop := j_id j' = j_id j /\ j_expires j' = j_expires j /\ j_attempt j' = j_attempt j.

Lemma sameJobs_refl l : Forall2 sameJob l l.
Proof. apply Forall_Forall2_diag, Forall_forall. done. Qed.

Lemma dispatched_turned b scope key m now nowMs b' : dispatched b scope key m now b' -> turned scope nowMs 1 b b'.
Proof.
  intros D. pose proof (di_other _ _ _ _ _ _ D) as Ho. pose proof (dispatched_served _ _ _ _ _ _ D) as [S _].
  assert (Hq : forall k, Forall2 sameJob (queueOf b scope k) (queueOf b' scope k)).
  { intros k. destruct (di_effect _ _ _ _ _ _ D) as [(Egw & _)|(m' & -> & j & rest & sr & s & id & Hdisp)].
    - replace (queueOf b' scope k) with (queueOf b scope k) by (unfold queueOf; by rewrite Egw). apply sameJobs_refl.
    - destruct Hdisp as (Eq & _ & _ & _ & _ & _ & _ & _ & _ & _ & _ & Eq' & Hother). destruct (decide (k = key)) as [->|Hne].
      + rewrite Eq, Eq'. constructor; [done|apply sameJobs_refl].
      + rewrite Hother by congruence. apply sameJobs_refl. }
  split; try done.
  - apply (di_rest _ _ _ _ _ _ D).
  - destruct (di_effect _ _ _ _ _ _ D) as [(_ & -> & _)|(m' & -> & _)]; [done|]. by destruct (dispatched_sends _ _ _ _ _ _ D).
  - intros k j Hj _. destruct (Forall2_elem_l _ _ _ _ (Hq k) Hj) as (j' & Hj' & E). by exists j'.
  - intros k Hk Hn. apply Hk. specialize (Hq k). rewrite Hn in Hq. by inversion Hq.
Qed.

Lemma wp_serveLane b items scope key g now (Q : unit -> groups -> Prop) :
  ginv b -> gr_groupWork b !! scope = Some g -> (forall i m, items i = Some m -> sizeOf m < 2 ^ 62) ->
  dv_seq (gr_dv b) + 1 < 2 ^ 64 ->
  (forall g' b', ginv b' -> turned scope (unixMilli now) 1 b b' -> gr_groupWork b' !! scope = Some g' -> Q tt b') ->
  wp (serveLane items scope key now) b Q.
Proof.
  intros G Hg Hitems Hseq HQ. unfold serveLane. wp_step. apply wp_get. wp_step. eapply wp_lift; [exact Hg|].
  wp_step. eapply wp_expireHeads; [exact G|exact Hg|lia|]. intros g1 b1 G1 T1 Hg1. wp_step. apply wp_get.
  wp_step. eapply wp_lift; [exact Hg1|].
  assert (Hdone : Q tt b1).
  { eapply HQ; [done| |done]. eapply turned_trans; [exact T1|apply turned_refl|done]. }
  destruct (g_lanes g1 !! key) as [lane|] eqn:Hl; [|by apply wp_ret].
  destruct (mo_index _ (gn_mem _ G1) _ _ Hg1) as ([K I] & _).
  destruct (lane_head _ _ _ _ _ _ G1 Hg1 I Hl) as (r & w & Eh & _ & _ & Hw & _).
  change (Some lane ≫= ln_head) with (ln_head lane). rewrite Eh. wp_step. eapply wp_lift; [exact Hw|].
  pose proof (sv_seq _ _ _ (tn_served _ _ _ _ _ T1)).
  eapply wp_dispatchGroup; [exact G1|exact Hg1|exact Hl|intros m' E; by eapply Hitems|lia|]. intros b2 G2 D.
  destruct (di_work _ _ _ _ _ _ D scope) as [E _]. rewrite Hg1 in E. destruct (gr_groupWork b2 !! scope) as [g2|] eqn:Hg2; [|done].
  eapply (HQ g2); [done| |done]. eapply turned_trans; [exact T1|by eapply dispatched_turned|done].
Qed.

(** ** Forgetting a group *)
Lemma wp_forgetGroup b scope g nowMs (Q : unit -> groups -> Prop) :
  ginv b -> gr_groupWork b !! scope = Some g ->
  (forall b', ginv b' -> turned scope nowMs 0 b b' -> Q tt b') -> wp (forgetGroup scope) b Q.
Proof.
  intros G Hg HQ. unfold forgetGroup. wp_step. apply wp_get. wp_step. eapply wp_lift; [exact Hg|].
  apply wp_when; intros Hc; [|apply HQ; [done|apply turned_refl]].
  apply andb_true_iff in Hc as [He _]. apply bool_decide_eq_true in He.
  destruct (mo_index _ (gn_mem _ G) _ _ Hg) as ([K I] & _ & Ec).
  assert (Hq : forall key, queueOf b scope key = []).
  { intros key. unfold queueOf. rewrite Hg. destruct (queue key g) as [|j l] eqn:E; [done|].
    destruct (queue_work _ _ key j I) as (r & w & Hr & _); [rewrite E; by left|]. by rewrite He in Hr. }
  assert (Hb : groupBytes g = g_charge g) by (unfold groupBytes, workBytes; rewrite He, msum_empty; lia).
  unfold releaseStreamMemory. wp_step. apply wp_modify. wp_step. apply wp_modify. wp_step. apply wp_modify. apply wp_modify.
  cbn [gr_groupWork gr_groupWorkByTopic gr_streamMemoryBytes gr_groupMemoryBytes]. set (b' := setf _ _).
  pose proof (groupTotal_ge _ _ _ (gn_mem _ G) Hg) as Hge. pose proof (groupBytes_nonneg _ _ (mo_index _ (gn_mem _ G) _ _ Hg)) as H0.
  destruct (gn_mem _ G) as [M1 M2 M3 M4 M5 M6]. rewrite Hb in Hge, H0.
  assert (Es : gr_streamMemoryBytes b' = gr_streamMemoryBytes b - g_charge g) by (apply (i64_id (gr_streamMemoryBytes b - g_charge g)); unfold in_i64; lia).
  assert (Em : gr_groupMemoryBytes b' = gr_groupMemoryBytes b - g_charge g) by (apply (i64_id (gr_groupMemoryBytes b - g_charge g)); unfold in_i64; lia).
  assert (Ew : gr_groupWork b' = delete scope (gr_groupWork b)) by done.
  assert (Emem : mem_ok b').
  { split; rewrite ?Ew, ?Em, ?Es; change (gr_cfg b') with (gr_cfg b); try done; try lia.
    - intros s g1 [_ Hs]%lookup_delete_Some. by apply M1.
    - intros t gp. rewrite lookup_delete_is_Some, <- M2.
      assert (Et : default ∅ (gr_groupWorkByTopic b' !! t) =
        (if decide (t = cs_topic scope) then default ∅ (gr_groupWorkByTopic b !! t) ∖ {[ cs_group scope ]} else default ∅ (gr_groupWorkByTopic b !! t))).
      { unfold b', setf, set_gr_groupWorkByTopic, set_gr_groupWork, set_gr_groupMemoryBytes, set_gr_streamMemoryBytes. cbn [gr_groupWorkByTopic].
        case_decide as Ht; [subst t|].
        - destruct (bool_decide_reflect (default ∅ (gr_groupWorkByTopic b !! cs_topic scope) ∖ {[cs_group scope]} = ∅)) as [E|E].
          + rewrite lookup_delete_eq. cbn. by rewrite E.
          + by rewrite lookup_insert_eq.
        - destruct (bool_decide _); [by rewrite lookup_delete_ne|by rewrite lookup_insert_ne]. }
      clear - Et. rewrite Et. clear Et. destruct scope as [t0 g0]. cbn [cs_topic cs_group]. destruct (decide (t = t0)) as [->|Ht].
      + rewrite elem_of_difference, elem_of_singleton. split; [intros [? ?]; split; [congruence|done]|intros [? ?]; split; [done|congruence]].
      + split; [intros ?; split; [congruence|done]|by intros []].
    - unfold groupTotal in *. rewrite (msum_delete _ _ _ g) in M3 by done. rewrite M3. rewrite <- Hb.
      assert (Hsum : forall x y : Z, x + y - x = y) by (intros; lia). apply Hsum. }
  apply HQ.
  - eapply ginv_rest; [exact G|exact Emem|apply (gn_ck _ G)|done..].
  - split; try done.
    + split; try done; [unfold slack; rewrite Es, Em; lia|]. change (gr_dv b') with (gr_dv b). lia.
    + intros s Hs. rewrite Ew. by rewrite lookup_delete_ne.
    + intros key j Hj. rewrite Hq in Hj. by apply elem_of_nil in Hj.
    + intros key H _. apply H. unfold queueOf. by rewrite Ew, lookup_delete_eq.
Qed.

(** ** One group's turn *)
Lemma work_nodup g K : gw_inv g K -> NoDup (map_to_list (g_work g)).*2.
Proof.
  intros I. apply NoDup_fmap_2_strong; [|apply NoDup_map_to_list].
  intros [i r] [i' r'] H%elem_of_map_to_list H'%elem_of_map_to_list E. cbn in E. subst r'. f_equal. symmetry; by eapply work_inj.
Qed.

Lemma wp_cleanupAll b scope g nowMs (Q : unit -> groups -> Prop) :
  ginv b -> gr_groupWork b !! scope = Some g ->
  (forall g' b', ginv b' -> turned scope nowMs 0 b b' -> gr_groupWork b' !! scope = Some g' -> Q tt b') ->
  wp (gfor (map_to_list (g_work g)).*2 (cleanupWork scope nowMs)) b Q.
Proof.
  intros G Hg HQ. destruct (mo_index _ (gn_mem _ G) _ _ Hg) as ([K I] & _).
  apply (wp_for (fun rem c => ginv c /\ turned scope nowMs 0 b c /\ NoDup rem /\
    exists gc, gr_groupWork c !! scope = Some gc /\
      forall r, r ∈ rem -> exists i, g_work g !! i = Some r /\ g_work gc !! i = Some r)).
  - split_and!; [done|apply turned_refl|by eapply work_nodup|]. exists g. split; [done|].
    intros r ([i x] & -> & Hi%elem_of_map_to_list)%list_elem_of_fmap. exists i. done.
  - intros r rem c (Gc & Tc & [Hr Hnd]%NoDup_cons & gc & Hgc & Hrem). destruct (Hrem r) as (i & Hi & Hic); [by left|].
    eapply wp_cleanupWork; [exact Gc|exact Hgc|exact Hic|]. intros g' c' G' T' Hg' Hkeep.
    split_and!; [done|by eapply turned_trans; [exact Tc|exact T'|]|done|]. exists g'. split; [done|].
    intros x Hx. destruct (Hrem x) as (i' & Hi' & Hic'); [by right|]. exists i'. split; [done|]. apply Hkeep; [|done].
    intros ->. assert (x = r) as -> by congruence. done.
  - intros c (Gc & Tc & _ & gc & Hgc & _). by eapply HQ.
Qed.

Lemma wp_serveAll items scope now keys : forall b g (Q : unit -> groups -> Prop),
  ginv b -> gr_groupWork b !! scope = Some g -> (forall i m, items i = Some m -> sizeOf m < 2 ^ 62) ->
  dv_seq (gr_dv b) + llen keys < 2 ^ 64 ->
  (forall g' b', ginv b' -> turned scope (unixMilli now) (llen keys) b b' -> gr_groupWork b' !! scope = Some g' -> Q tt b') ->
  wp (gfor keys (fun key => serveLane items scope key now)) b Q.
Proof.
  induction keys as [|key keys IH]; intros b g Q G Hg Hitems Hseq HQ; cbn [gfor].
  { apply wp_ret. eapply HQ; [done|apply turned_refl|done]. }
  rewrite llen_cons in *. pose proof (llen_nonneg keys). wp_step. eapply wp_serveLane; [exact G|exact Hg|done|lia|].
  intros g1 b1 G1 T1 Hg1. pose proof (sv_seq _ _ _ (tn_served _ _ _ _ _ T1)).
  eapply IH; [exact G1|exact Hg1|done|lia|]. intros g2 b2 G2 T2 Hg2. eapply HQ; [done| |done].
  by eapply turned_trans; [exact T1|exact T2|].
Qed.

Lemma wp_turnGroup b cleanup items now scope g (Q : unit -> groups -> Prop) :
  ginv b -> gr_groupWork b !! scope = Some g -> (forall i m, items i = Some m -> sizeOf m < 2 ^ 62) ->
  dv_seq (gr_dv b) + laneCount b scope < 2 ^ 64 ->
  (forall b', ginv b' -> turned scope (unixMilli now) (laneCount b scope) b b' -> Q tt b') ->
  wp (turnGroup cleanup items now scope) b Q.
Proof.
  intros G Hg Hitems Hseq HQ. unfold turnGroup. wp_step. apply wp_get. wp_step. eapply wp_lift; [exact Hg|]. wp_step.
  assert (Hafter : forall g1 b1, ginv b1 -> turned scope (unixMilli now) 0 b b1 -> gr_groupWork b1 !! scope = Some g1 ->
    wp (b <- gget ;; g <- glift (gr_groupWork b !! scope) ;;
        gfor (map_to_list (g_lanes g)).*1 (fun key => serveLane items scope key now) ;;; forgetGroup scope) b1 Q).
  { intros g1 b1 G1 T1 Hg1. pose proof (turned_lanes _ _ _ _ _ G G1 T1) as Hl. pose proof (sv_seq _ _ _ (tn_served _ _ _ _ _ T1)).
    assert (El : llen (map_to_list (g_lanes g1)).*1 = laneCount b1 scope).
    { unfold laneCount, llen, mlen. by rewrite Hg1, length_fmap, length_map_to_list. }
    wp_step. apply wp_get. wp_step. eapply wp_lift; [exact Hg1|]. wp_step.
    eapply wp_serveAll; [exact G1|exact Hg1|done|lia|]. intros g2 b2 G2 T2 Hg2. rewrite El in T2.
    eapply wp_forgetGroup; [exact G2|exact Hg2|]. intros b3 G3 T3. apply HQ; [done|].
    eapply turned_trans; [exact T1|eapply (turned_trans _ _ _ _ (laneCount b1 scope)); [exact T2|exact T3|lia]|lia]. }
  apply wp_when; intros _.
  - eapply wp_cleanupAll; [exact G|exact Hg|]. intros g1 b1 G1 T1 Hg1. by eapply Hafter.
  - eapply Hafter; [exact G|apply turned_refl|exact Hg].
Qed.

(** ** The whole turn *)
Definition laneTotal (b : groups) : Z := zsum (laneCount b <$> (map_to_list (gr_groupWork b)).*1).

Record ticked (nowMs n : Z) (b b' : groups) : Prop := {
  ti_served : served n b b';
  ti_ck : gr_ck b' = gr_ck b;
  ti_flights : inflight (gr_dv b) ⊆ inflight (gr_dv b');
  ti_alive : forall scope key j, j ∈ queueOf b scope key -> alive b scope j nowMs ->
    exists j', j' ∈ queueOf b' scope key /\ j_id j' = j_id j /\ j_expires j' = j_expires j /\ j_attempt j' = j_attempt j;
}.

Lemma turned_ticked scope nowMs n b b' : turned scope nowMs n b b' -> ticked nowMs n b b'.
Proof.
  intros [T1 T2 T3 T4 T5 _]. split; try done. intros s key j Hj Hal. destruct (decide (s = scope)) as [->|Hne]; [by apply T5|].
  exists j. split; [|done]. unfold queueOf in *. by rewrite T4.
Qed.

Lemma ticked_trans nowMs n m k a b c : ticked nowMs n a b -> ticked nowMs m b c -> n + m <= k -> ticked nowMs k a c.
Proof.
  intros [A1 A2 A3 A5] [B1 B2 B3 B5] Hk. split; [by eapply served_trans|congruence|by etransitivity|].
  intros s key j Hj Hal. destruct (A5 s key j Hj Hal) as (j1 & Hj1 & E1 & E2 & E3).
  destruct (B5 s key j1 Hj1) as (j2 & Hj2 & F1 & F2 & F3); [unfold alive in *; by rewrite E1, E2, A2|].
  exists j2. split; [done|]. split_and!; congruence.
Qed.

Lemma ticked_refl nowMs b : ticked nowMs 0 b b.
Proof. split; try done; [apply served_refl|]. intros scope key j Hj _. by exists j. Qed.

Lemma wp_turnGroups b0 b cleanup items now (Q : unit -> groups -> Prop) l :
  ginv b -> NoDup l -> (forall s, s ∈ l -> gr_groupWork b !! s = gr_groupWork b0 !! s /\ is_Some (gr_groupWork b0 !! s)) ->
  (forall i m, items i = Some m -> sizeOf m < 2 ^ 62) -> dv_seq (gr_dv b) + zsum (laneCount b0 <$> l) < 2 ^ 64 ->
  (forall b', ginv b' -> ticked (unixMilli now) (zsum (laneCount b0 <$> l)) b b' -> Q tt b') ->
  wp (gfor l (turnGroup cleanup items now)) b Q.
Proof.
  revert b Q. induction l as [|s l IH]; intros b Q G Hnd Hl Hitems Hseq HQ; cbn [gfor].
  { apply wp_ret, HQ; [done|]. apply ticked_refl. }
  rewrite fmap_cons, zsum_cons in *. apply NoDup_cons in Hnd as [Hs Hnd]. destruct (Hl s) as [Es [g Hg]]; [by left|].
  assert (El : laneCount b s = laneCount b0 s) by (unfold laneCount; by rewrite Es).
  assert (0 <= zsum (laneCount b0 <$> l)).
  { apply zsum_nonneg, Forall_fmap, Forall_forall. intros x _. cbn. unfold laneCount. destruct (_ !! x); [unfold mlen|]; lia. }
  wp_step. eapply wp_turnGroup; [exact G|by rewrite Es|done|lia|]. intros b1 G1 T1. rewrite El in T1.
  pose proof (sv_seq _ _ _ (tn_served _ _ _ _ _ T1)). apply IH; [done|done| |done|lia|].
  - intros x Hx. destruct (Hl x) as [Ex Hx0]; [by right|]. split; [|done]. rewrite <- Ex. apply (tn_other _ _ _ _ _ T1).
    by intros ->.
  - intros b' G' T'. apply HQ; [done|]. eapply ticked_trans; [by eapply turned_ticked|exact T'|lia].
Qed.

Lemma wp_groupTick b woken cleanup items now :
  ginv b -> (forall i m, items i = Some m -> sizeOf m < 2 ^ 62) -> dv_seq (gr_dv b) + laneTotal b < 2 ^ 64 ->
  wp (groupTick woken cleanup items now) b (fun _ b' => ginv b' /\ ticked (unixMilli now) (laneTotal b) b b').
Proof.
  intros G Hitems Hseq. unfold groupTick. wp_step.
  assert (Hmain : forall b1, ginv b1 -> gr_groupWork b1 = gr_groupWork b -> ticked (unixMilli now) 0 b b1 ->
    wp (b <- gget ;; gfor (map_to_list (gr_groupWork b)).*1 (turnGroup cleanup items now)) b1
      (fun _ b' => ginv b' /\ ticked (unixMilli now) (laneTotal b) b b')).
  { intros b1 G1 E1 T1. pose proof (sv_seq _ _ _ (ti_served _ _ _ _ T1)). wp_step. apply wp_get. rewrite E1.
    apply (wp_turnGroups b); [done|apply NoDup_fst_map_to_list| |done|fold (laneTotal b); lia|].
    - intros s ([s' g] & -> & Hs%elem_of_map_to_list)%list_elem_of_fmap. rewrite E1. cbn. by rewrite Hs.
    - intros b' G' T'. split; [done|]. eapply ticked_trans; [exact T1|exact T'|]. fold (laneTotal b). lia. }
  apply wp_when; intros _; [apply wp_modify|]; apply Hmain; try done.
  - eapply ginv_rest; [exact G| |apply (gn_ck _ G)|done..]. by destruct (gn_mem _ G).
  - split; try done; [split; try done; cbn; lia|]. intros scope key j Hj _. by exists j.
  - apply ticked_refl.
Qed.

(** C19: one turn of [groupLoop], from any state that satisfies the invariant. The turn terminates without a
    panic, keeps the invariant, the members of the groups and the memory of the streams, takes at most
    one identifier per lane, and leaves every delivery in flight. It drops nothing that is still to be
    processed: a queued message that has not expired and that no checkpoint completes is still queued,
    with its attempts. *)
Theorem tick_safe b woken cleanup items now :
  ginv b -> (forall i m, items i = Some m -> sizeOf m < 2 ^ 62) -> dv_seq (gr_dv b) + laneTotal b < 2 ^ 64 ->
  exists b', groupTick woken cleanup items now b = Some (tt, b') /\ ginv b' /\ slack b' = slack b /\
    gr_topicBroadcast b' = gr_topicBroadcast b /\ gr_topicGroups b' = gr_topicGroups b /\ gr_ck b' = gr_ck b /\
    dv_seq (gr_dv b') <= dv_seq (gr_dv b) + laneTotal b /\
    inflight (gr_dv b) ⊆ inflight (gr_dv b') /\
    (forall scope key j, j ∈ queueOf b scope key -> alive b scope j (unixMilli now) ->
       exists j', j' ∈ queueOf b' scope key /\ j_id j' = j_id j /\ j_expires j' = j_expires j /\ j_attempt j' = j_attempt j).
Proof.
  intros G Hitems Hseq.
  pose proof (wp_groupTick b woken cleanup items now G Hitems Hseq) as H.
  apply wp_elim in H as ([] & b' & E & G' & [[S1 S2 S3 S4 S5] T2 T3 T4]). exists b'. split_and!; try done. lia.
Qed.
