(* ===== verification/Groups.v ===== *)
(** * Consumer groups: what they promise

    The properties of group_work.go, of the subscribers and of the stream memory: each operation's
    effect on the abstract queues, and the memory accounting over every run. *)
From S2P Require Import Prelude GoHeap Dll KeyedLists Types Config Metrics GoIO Base64 Checkpoints.
From S2P Require Import Pending PendingInv Deliveries GroupIndex GroupWork GroupInv SubscriberInv GroupLoop.
From S2P Require Import GroupRetry GroupTick.
#[local] Open Scope Z_scope.

(** ** The broker before its first stream *)
Definition newGroups (cfg : Config) (boot : list byte) : groups :=
  mkGroups (mkDeliveries cfg boot 0 ∅ ∅ ∅ ∅ ∅ 0 [] newMetrics) (newCheckpoints (cfg_CheckpointEntries cfg))
    ∅ ∅ 0 0 false ∅ ∅.

(** Budgets as [New] leaves them, within what the counters can add up. *)
Definition limits_ok (cfg : Config) : Prop :=
  0 <= cfg_MaxInflightBytes cfg < 2 ^ 62 /\ 0 <= cfg_MaxSubscriberInflightBytes cfg < 2 ^ 62 /\
  streamMemoryReservation <= cfg_StreamMemoryBytes cfg < 2 ^ 62 /\ 0 < cfg_CheckpointEntries cfg /\
  1 <= cfg_MaxAttempts cfg.

Lemma ginv_new cfg boot : limits_ok cfg -> ginv (newGroups cfg boot) /\ slack (newGroups cfg boot) = 0.
Proof.
  intros (H1 & H2 & H3 & H4 & H5). split; [|done]. assert (streamMemoryReservation = 262144) by done. split.
  - split; unfold gr_cfg, newGroups; cbn; try done; try lia.
    intros t g. rewrite lookup_empty. split; [cbn; set_solver|by intros [? ?]].
  - exists (fun _ => []). apply pinv_idle; try done.
  - by apply table_ok_new.
  - intros topic group sid sr. unfold membersOf, newGroups. cbn. rewrite lookup_empty. cbn. by rewrite lookup_empty.
  - intros topic sid sr. unfold newGroups. cbn. by rewrite lookup_empty.
  - done.
  - done.
Qed.

(** ** Checkpoints of peers *)
Lemma wp_acceptCheckpoints cs nowMs b (Q : unit -> groups -> Prop) :
  ginv b -> 0 <= nowMs -> (forall b', ginv b' -> shrunk b b' -> Q tt b') -> wp (acceptCheckpoints cs nowMs) b Q.
Proof.
  intros G Hn HQ. unfold acceptCheckpoints. wp_step. apply wp_get.
  apply (wp_for (fun _ c => ginv c /\ shrunk b c)).
  - split; [done|reflexivity].
  - intros c _ b1 [G1 S1]. apply wp_when; intros _; [|done]. apply wp_recordCheckpoint; [done|done|].
    intros b2 G2 H2. split; [done|]. etransitivity; [exact S1|]. by eapply checkpointed_shrunk.
  - intros b1 [G1 S1]. by apply HQ.
Qed.

(** ** Runs *)

(** The open streams and what is reserved for each. *)
Abbreviation streams := (gmap loc Z).

(** One operation that completed, on messages and requests of a size that counters can add up and with
    identifiers left to issue. The critical sections of [deliver] and its sends are steps of their own, and
    so are the receives of a stream and the end of its replay; [openStream], [endStream] and
    [maintenanceTick], which are several critical sections each, are one step. *)
Inductive step : groups * streams -> groups * streams -> Prop :=
| step_open b o topic group member messages draining nowMs sr reserved b' :
    dv_seq (gr_dv b) + 1 < 2 ^ 64 -> slen topic + slen group < 2 ^ 61 ->
    16 * llen messages + idBytes messages < 2 ^ 61 -> chargeOf messages * (mlen (gr_groupWork b) + 1) < 2 ^ 62 ->
    openStream topic group member messages draining nowMs b = Some (inr (sr, reserved), b') ->
    step (b, o) (b', <[sr := reserved]> o)
| step_refused b o topic group member messages draining nowMs code b' :
    dv_seq (gr_dv b) + 1 < 2 ^ 64 -> slen topic + slen group < 2 ^ 61 ->
    16 * llen messages + idBytes messages < 2 ^ 61 -> chargeOf messages * (mlen (gr_groupWork b) + 1) < 2 ^ 62 ->
    openStream topic group member messages draining nowMs b = Some (inl code, b') ->
    step (b, o) (b', o)
| step_end b o sr reserved now b' :
    o !! sr = Some reserved -> endStream sr reserved now b = Some (tt, b') -> step (b, o) (b', delete sr o)
| step_prepare b o messages onlyGroup nowMs ok b' :
    chargeOf messages * mlen (gr_groupWork b) < 2 ^ 62 ->
    prepareGroupWork messages onlyGroup nowMs b = Some (ok, b') -> step (b, o) (b', o)
| step_dispatch b o m onlyGroup now b' :
    sizeOf m < 2 ^ 62 -> dv_seq (gr_dv b) + mlen (gr_groupWork b) < 2 ^ 64 ->
    dispatchGroupMessage m onlyGroup now b = Some (tt, b') -> step (b, o) (b', o)
| step_offer b o m onlyGroup cands b' : offerCandidates m onlyGroup b = Some (cands, b') -> step (b, o) (b', o)
| step_send b o sr m attempt now id b' :
    sizeOf m < 2 ^ 62 -> dv_seq (gr_dv b) + 1 < 2 ^ 64 ->
    inDeliveries (sendDelivery sr m attempt now) b = Some (id, b') -> step (b, o) (b', o)
| step_receive b o sr d b' : receiveDelivery sr b = Some (d, b') -> step (b, o) (b', o)
| step_deferred b o sr ids b' : takeDeferred sr b = Some (ids, b') -> step (b, o) (b', o)
| step_ack b o ids now cs b' :
    0 <= unixMilli now -> removeAcks ids now b = Some (cs, b') -> step (b, o) (b', o)
| step_checkpoints b o cs nowMs b' :
    0 <= nowMs -> acceptCheckpoints cs nowMs b = Some (tt, b') -> step (b, o) (b', o)
| step_nack b o ids now d' : applyNacks ids now (gr_dv b) = Some (tt, d') -> step (b, o) (b <| gr_dv := d' |>, o)
| step_maintenance b o now b' :
    dv_seq (gr_dv b) + mlen (dv_pending (gr_dv b)) < 2 ^ 64 -> maintenanceTick now b = Some (tt, b') -> step (b, o) (b', o)
| step_tick b o woken cleanup items now b' :
    (forall i m, items i = Some m -> sizeOf m < 2 ^ 62) -> dv_seq (gr_dv b) + laneTotal b < 2 ^ 64 ->
    groupTick woken cleanup items now b = Some (tt, b') -> step (b, o) (b', o).

Inductive run (cfg : Config) (boot : list byte) : groups * streams -> Prop :=
| run_new : run cfg boot (newGroups cfg boot, ∅)
| run_step s s' : run cfg boot s -> step s s' -> run cfg boot s'.

(** An open stream: its subscriber exists, and it is in the registry unless a later stream of the same
    member of its group has fenced it off. *)
Definition standsAt (b : groups) (sr : loc) : Prop :=
  exists s, subAt b sr = Some s /\ (s_detached s = false -> dv_subs (gr_dv b) !! s_id s = Some sr) /\
    (s_group s = "" -> s_detached s = false).

(** The bytes that the open streams reserved. *)
Definition reservedBytes (o : streams) : Z := msum (fun _ n => n) o.

Record runs_ok (s : groups * streams) : Prop := {
  ro_inv : ginv s.1;
  ro_slack : slack s.1 = reservedBytes s.2;
  ro_open : forall sr n, s.2 !! sr = Some n -> streamMemoryReservation <= n /\
    exists x, subAt s.1 sr = Some x /\ (s_group x = "" -> s_detached x = false);
}.

Lemma reserved_le o sr n : (forall sr n, o !! sr = Some n -> streamMemoryReservation <= n) -> o !! sr = Some n ->
  0 <= n <= reservedBytes o.
Proof.
  intros Ho Hn. assert (E : streamMemoryReservation = 262144) by done. split; [specialize (Ho _ _ Hn); lia|].
  apply (msum_le_elem (fun _ n => n) o sr); [|done]. intros k v Hv. specialize (Ho _ _ Hv). lia.
Qed.

(** A step that opens or closes nothing. *)
Lemma standing_kept x y : standing y = standing x -> (s_group x = "" -> s_detached x = false) ->
  s_group y = "" -> s_detached y = false.
Proof.
  unfold standing, identity. intros E. apply pair_equal_spec in E as [[= _ _ Eg _] E]. rewrite <- Eg in E. intros H Hg.
  rewrite bool_decide_true in E by done. rewrite E. apply H. congruence.
Qed.

Lemma runs_ok_same b b' o : runs_ok (b, o) -> ginv b' -> slack b' = slack b ->
  agree standing (dv_sstore (gr_dv b)) (dv_sstore (gr_dv b')) -> runs_ok (b', o).
Proof.
  intros [G Es Ho] G' Es' Hsub. cbn in *. split; cbn; [done|congruence|]. intros sr n Hn. destruct (Ho _ _ Hn) as (? & x & Hx & Hd).
  split; [done|]. destruct (agree_lookup _ _ _ _ _ Hsub Hx) as (y & Hy & Ey). exists y. split; [done|]. by eapply standing_kept.
Qed.

(** A step that sends at most [n] deliveries. *)
Lemma runs_ok_served n b b' o : runs_ok (b, o) -> ginv b' -> served n b b' -> runs_ok (b', o).
Proof. intros R G' [S1 _ _ S4 _]. eapply runs_ok_same; [done|done|done|by apply registry_standing]. Qed.

(** A step that changes one subscriber in what the accounts do not look at. *)
Lemma runs_ok_put b sr s s' o : runs_ok (b, o) -> subAt b sr = Some s -> identity s' = identity s ->
  s_cancel s' = s_cancel s -> llen (s_ch s') <= llen (s_ch s) -> s_inflightBytes s' = s_inflightBytes s ->
  s_detached s' = s_detached s -> runs_ok (putSub sr s' b, o).
Proof.
  intros R Hs Ei Ec E1 E2 E3. destruct (ginv_putSub b sr s s' (ro_inv _ R) Hs Ei) as [G' Sh]; [by rewrite Ec|done..|].
  eapply runs_ok_same; [exact R|exact G'|done|apply (rs_stand _ _ Sh)].
Qed.

(** What a computation that satisfies its specification has returned. *)
Lemma wp_result {S A} (m : GoM S A) s x s' (Q : A -> S -> Prop) : m s = Some (x, s') -> wp m s Q -> Q x s'.
Proof. unfold wp. by intros ->. Qed.

(** Steps of one subscriber: the object that they dereference is there. *)
Lemma sendDelivery_live sr m attempt now b x : inDeliveries (sendDelivery sr m attempt now) b = Some x -> is_Some (subAt b sr).
Proof.
  unfold subAt. destruct (dv_sstore (gr_dv b) !! sr) as [s|] eqn:Hs; [by exists s|]. unfold inDeliveries, gzoom, sendDelivery, sendDeliveryLocked.
  unfold gbind, sderef, gget, gbind, glift. by rewrite Hs.
Qed.

Lemma sderef_live {A} sr (k : subscriber -> GoM groups A) b x : gbind (inDeliveries (sderef sr)) k b = Some x -> is_Some (subAt b sr).
Proof.
  unfold subAt. destruct (dv_sstore (gr_dv b) !! sr) as [s|] eqn:Hs; [by exists s|].
  unfold gbind, inDeliveries, gzoom, sderef, gbind, gget, glift. by rewrite Hs.
Qed.

Lemma receive_ok b o sr d b' : runs_ok (b, o) -> receiveDelivery sr b = Some (d, b') -> runs_ok (b', o).
Proof.
  intros R E. destruct (sderef_live _ _ _ _ E) as [s Hs]. eapply (wp_result _ _ _ _ (fun _ b' => runs_ok (b', o)) E).
  unfold receiveDelivery. wp_step. eapply wp_sderef_b; [exact Hs|]. destruct (s_ch s) as [|d0 ch] eqn:Ech; [by apply wp_ret|].
  wp_step. eapply wp_supdate_b; [exact Hs|]. apply wp_ret. eapply runs_ok_put; [exact R|exact Hs|done..| |done|done].
  rewrite Ech, llen_cons. cbn. lia.
Qed.

Lemma deferred_ok b o sr ids b' : runs_ok (b, o) -> takeDeferred sr b = Some (ids, b') -> runs_ok (b', o).
Proof.
  intros R E. destruct (sderef_live _ _ _ _ E) as [s Hs]. eapply (wp_result _ _ _ _ (fun _ b' => runs_ok (b', o)) E).
  unfold takeDeferred. wp_step. eapply wp_sderef_b; [exact Hs|]. wp_step. eapply wp_supdate_b; [exact Hs|].
  set (s1 := s <| s_deferred := [] |>). assert (R1 : runs_ok (putSub sr s1 b, o)) by (by eapply runs_ok_put).
  assert (Hs1 : subAt (putSub sr s1 b) sr = Some s1) by apply lookup_insert_eq.
  wp_step. apply wp_when; intros _; [|by apply wp_ret]. eapply wp_supdate_b; [exact Hs1|]. apply wp_ret.
  by eapply runs_ok_put; [exact R1|exact Hs1|..].
Qed.

Lemma open_ok b o topic group member ms dr nowMs x b' : runs_ok (b, o) ->
  dv_seq (gr_dv b) + 1 < 2 ^ 64 -> slen topic + slen group < 2 ^ 61 ->
  16 * llen ms + idBytes ms < 2 ^ 61 -> chargeOf ms * (mlen (gr_groupWork b) + 1) < 2 ^ 62 ->
  openStream topic group member ms dr nowMs b = Some (x, b') ->
  match x with inl _ => runs_ok (b', o) | inr (sr, reserved) => runs_ok (b', <[sr := reserved]> o) end.
Proof.
  intros R H1 H2 H3 H4 E. pose proof (ro_inv _ R) as G. cbn [fst] in G.
  eapply (wp_result _ _ _ _ (fun x b' => match x with inl _ => runs_ok (b', o) | inr (sr, rs) => runs_ok (b', <[sr := rs]> o) end) E).
  eapply wp_openStream; try done.
  - intros c0 b0 G0 [F1 F2 [F3 _] _]. eapply runs_ok_same; [exact R|done|done|by apply registry_standing].
  - intros sr0 rs0 b0 _ G0 [O1 O2 (x0 & O3 & _ & _ & _ & O4 & _) _ _ O6 O7].
    destruct R as [_ Es Ho]. cbn in *. split; cbn; [done| |].
    + rewrite O1, Es. unfold reservedBytes. rewrite msum_insert; [lia|]. destruct (o !! sr0) as [n|] eqn:En; [|done].
      destruct (Ho _ _ En) as (_ & y & Hy & _). congruence.
    + intros r n [[<- <-]|[_ Hn]]%lookup_insert_Some.
      * split; [done|]. by exists x0.
      * destruct (Ho _ _ Hn) as (? & y & Hy & Hd). split; [done|]. destruct (O7 _ _ Hy) as (z & Hz & Ez). exists z. split; [done|].
        by eapply standing_kept.
Qed.

Lemma end_ok b o sr rs now b' : runs_ok (b, o) -> o !! sr = Some rs -> endStream sr rs now b = Some (tt, b') ->
  runs_ok (b', delete sr o).
Proof.
  intros R Hsr E. pose proof (ro_inv _ R) as G. destruct (ro_open _ R sr rs Hsr) as (Hn & x & Hx & _). cbn in Hx, G.
  assert (Hle := reserved_le o sr rs (fun sr n H => proj1 (ro_open _ R sr n H)) Hsr).
  eapply (wp_result _ _ _ _ (fun _ b' => runs_ok (b', delete sr o)) E).
  eapply wp_endStream; [exact G|exact Hx|pose proof (ro_slack _ R) as Es; cbn in Es; lia|].
  intros b0 G0 [E1 _ _ _ _ E6]. destruct R as [_ Es Ho]. cbn in *. split; cbn; [done| |].
  - rewrite E1, Es. unfold reservedBytes. rewrite (msum_delete _ _ _ _ Hsr). lia.
  - intros r n [Hne Hr]%lookup_delete_Some. destruct (Ho _ _ Hr) as (? & y & Hy & Hd). split; [done|].
    destruct (E6 r y) as (z & Hz & Ez); [congruence|done|]. exists z. split; [done|]. by eapply standing_kept.
Qed.

Lemma step_ok s s' : runs_ok s -> step s s' -> runs_ok s'.
Proof.
  intros R St. pose proof (ro_inv _ R) as G. destruct St as [b o topic group member ms dr nowMs sr rs b' H1 H2 H3 H4 E
    |b o topic group member ms dr nowMs code b' H1 H2 H3 H4 E|b o sr rs now b' Hsr E|b o ms og now ok b' H1 E|b o m og now b' H1 H2 E
    |b o m og cands b' E|b o sr m at_ now id b' H1 H2 E|b o sr d b' E|b o sr ids b' E
    |b o ids now cs b' H1 E|b o cs nowMs b' H1 E|b o ids now d' E|b o now b' H1 E|b o wk cl items now b' H1 H2 E]; cbn [fst] in G.
  - exact (open_ok _ _ _ _ _ _ _ _ _ _ R H1 H2 H3 H4 E).
  - exact (open_ok _ _ _ _ _ _ _ _ _ _ R H1 H2 H3 H4 E).
  - by eapply end_ok.
  - eapply (wp_result _ _ _ _ (fun _ b' => runs_ok (b', o)) E). apply wp_prepareGroupWork; [apply (gn_mem _ G)|..].
    { eapply Z.le_lt_trans; [apply expansion_bound, (gn_mem _ G)|done]. }
    intros ok0 b0 M0 Hp. destruct (prepared_delivering ex_message _ _ _ _ _ _ Hp G M0) as [G0 D0].
    eapply runs_ok_served; [exact R|exact G0|apply (dg_served _ _ _ _ D0)].
  - eapply (wp_result _ _ _ _ (fun _ b' => runs_ok (b', o)) E). apply wp_dispatchGroupMessage; [done|done|done|].
    intros b0 G0 D0. eapply runs_ok_served; [exact R|exact G0|apply (dg_served _ _ _ _ D0)].
  - eapply (wp_result _ _ _ _ (fun _ b' => runs_ok (b', o)) E). apply wp_offerCandidates; [done|].
    intros cs0 b0 G0 D0 _ _. eapply runs_ok_served; [exact R|exact G0|apply (dg_served _ _ _ _ D0)].
  - destruct (sendDelivery_live _ _ _ _ _ _ E) as [s Hs]. eapply (wp_result _ _ _ _ (fun _ b' => runs_ok (b', o)) E).
    assert (Hone : wp (inDeliveries (sendDeliveryLocked sr m at_ true now)) b (fun _ b' => runs_ok (b', o))).
    { eapply wp_send_b; [done|exact Hs|done|done|]. intros id0 d0 b0 G0 S0 _ _ _. by eapply runs_ok_served. }
    revert Hone. unfold wp, inDeliveries, gzoom, sendDelivery, gbind.
    by destruct (sendDeliveryLocked sr m at_ true now (gr_dv b)) as [[? ?]|].
  - by eapply receive_ok.
  - by eapply deferred_ok.
  - eapply (wp_result _ _ _ _ (fun _ b' => runs_ok (b', o)) E). apply wp_removeAcks; [done|done|].
    intros cs0 b0 G0 [_ A2 (_ & _ & A3) _ _]. eapply runs_ok_same; [exact R|done|done|by apply registry_standing].
  - eapply (wp_result _ _ _ _ (fun _ b' => runs_ok (b', o)) E). apply wp_acceptCheckpoints; [done|done|].
    intros b0 G0 [S1 S2 S3 S4 S5]. eapply runs_ok_same; [exact R|done|done|]. by rewrite S1.
  - destruct (gn_pend _ G) as [L I].
    eapply (wp_result _ _ _ _ (fun _ d' => runs_ok (b <| gr_dv := d' |>, o)) E). eapply wp_applyNacks; [exact I|].
    intros d0 I0 M. pose proof (madeDue_registry _ _ _ _ M) as Hreg.
    assert (G0 : ginv (b <| gr_dv := d0 |>)) by (apply ginv_dv; [done|by exists L|done]).
    eapply runs_ok_same; [exact R|exact G0|done|by apply registry_standing].
  - eapply (wp_result _ _ _ _ (fun _ b' => runs_ok (b', o)) E). apply wp_maintenance; [done|done|].
    intros l ps d1 b0 b1 G0 G1 Hreg _ Ra _. destruct (ra_served _ _ _ Ra) as [S1 _ _ S4 _].
    eapply runs_ok_same; [exact R|exact G0|exact S1|]. apply registry_standing. by etransitivity.
  - eapply (wp_result _ _ _ _ (fun _ b' => runs_ok (b', o)) E). eapply wp_mono; [by apply wp_groupTick|].
    intros _ b0 [G0 [S0 _ _ _]]. by eapply runs_ok_served.
Qed.

Lemma run_ok cfg boot s : limits_ok cfg -> run cfg boot s -> runs_ok s.
Proof.
  intros Hl. induction 1 as [|s s' _ IH Hs]; [|by eapply step_ok]. destruct (ginv_new cfg boot Hl) as [G Es].
  split; cbn [fst snd]; [done|by rewrite Es|]. by intros sr n Hn.
Qed.

(** ** The properties *)

(** C16: memory accounting over every sequence of the operations on streams, groups, deliveries and
    acknowledgements, the turns of the loops, the receives and the ends of replays included; of the
    interleavings, those of the critical sections of [deliver] and of its sends are covered, while the
    opening and the closing of a stream and a tick of [maintenance] run without another operation in
    between. The stream memory counter is exactly what the open streams reserved plus what the indexes of
    the groups are charged; it never exceeds the budget; and the groups always leave room for one more
    stream. A stream that is open is registered under its identifier, unless it belongs to a group and has
    been fenced off. *)
Theorem groups_memory cfg boot b o :
  limits_ok cfg -> run cfg boot (b, o) ->
  gr_streamMemoryBytes b = reservedBytes o + groupTotal (gr_groupWork b) /\
  gr_groupMemoryBytes b = groupTotal (gr_groupWork b) /\
  gr_streamMemoryBytes b <= cfg_StreamMemoryBytes (gr_cfg b) /\
  gr_groupMemoryBytes b + streamMemoryReservation <= cfg_StreamMemoryBytes (gr_cfg b) /\
  (forall sr n, o !! sr = Some n -> streamMemoryReservation <= n /\ standsAt b sr).
Proof.
  intros Hl Hr. destruct (run_ok _ _ _ Hl Hr) as [G Es Ho]. cbn [fst snd] in *. destruct (gn_mem _ G) as [_ _ M3 M4 M5 _].
  unfold slack in Es. split_and!; [lia|done|lia|lia|]. intros sr n Hn. destruct (Ho _ _ Hn) as (? & x & Hx & Hd). split; [done|].
  exists x. split_and!; [done| |done]. intros Hdx. destruct (gn_pend _ G) as [L I]. by destruct (pi_sub _ _ I _ _ Hx Hdx).
Qed.

(** [prepareGroupWork] is all or nothing. It never panics; a refusal changes nothing, and after a success
    every message is, for every group of its topic, either queued or completed by a checkpoint. What is
    new goes to the end of the queue of its key, in the order of the messages, and is paid for within
    the budget. *)
Theorem prepare_atomic b messages onlyGroup nowMs :
  ginv b -> chargeOf messages * mlen (gr_groupWork b) < 2 ^ 62 ->
  exists ok b', prepareGroupWork messages onlyGroup nowMs b = Some (ok, b') /\ ginv b' /\
    if ok : bool then
      (forall m scope, (m, scope) ∈ workPairs messages onlyGroup b -> needsWork scope m nowMs b' = false) /\
      (forall scope key, exists ms, queueOf b' scope key = queueOf b scope key ++ (jobFor <$> ms) /\
         ms `sublist_of` pairsOf (workPairs messages onlyGroup b) scope key) /\
      slack b' = slack b /\ gr_groupMemoryBytes b <= gr_groupMemoryBytes b'
    else b' = b.
Proof.
  intros G Hc. assert (H : wp (prepareGroupWork messages onlyGroup nowMs) b (fun ok b' => mem_ok b' /\
    prepared messages onlyGroup nowMs b ok b')).
  { apply wp_prepareGroupWork; [apply (gn_mem _ G)| |by split]. eapply Z.le_lt_trans; [apply expansion_bound, (gn_mem _ G)|done]. }
  apply wp_elim in H as (ok & b' & E & M & Hp). exists ok, b'. split; [done|].
  destruct (prepared_delivering ex_message _ _ _ _ _ _ Hp G M) as [G' _]. split; [done|]. destruct ok; [|done].
  destruct Hp as (b1 & used & [_ _ _ _ Gd Gq] & -> & Hu). split_and!.
  - intros m scope Hin. exact (Gd (m, scope) Hin).
  - exact Gq.
  - unfold slack. cbn. lia.
  - cbn. lia.
Qed.

(** the dispatch of a lane. The head of the lane is sent at most once at a time: either nothing is sent
    and no queue changes, or the head was waiting, has not expired and is the message at hand, and it is
    sent to an eligible member of the group whose rendezvous score for the key is highest; then the head,
    and nothing else in any queue, is marked with the delivery. *)
Theorem dispatch_head b scope g key lane m now :
  ginv b -> gr_groupWork b !! scope = Some g -> g_lanes g !! key = Some lane ->
  (forall m', m = Some m' -> sizeOf m' < 2 ^ 62) -> dv_seq (gr_dv b) + 1 < 2 ^ 64 ->
  exists b', dispatchGroupLocked scope key m now b = Some (tt, b') /\ ginv b' /\ slack b' = slack b /\
    (idleDispatch b b' \/ exists m', m = Some m' /\ sentDispatch b scope key m' now b').
Proof.
  intros G Hg Hl Hm Hs.
  assert (H : wp (dispatchGroupLocked scope key m now) b (fun _ b' => ginv b' /\ dispatched b scope key m now b')) by by eapply wp_dispatchGroup.
  apply wp_elim in H as ([] & b' & E & G' & [(_ & _ & _ & _ & Es) _ _ _ _ He]). by exists b'.
Qed.

(** opening a stream never panics. Either it is refused, and then every reservation is given back, no
    member, delivery or queue has changed; or its subscriber is registered with its reservation counted,
    and in its group it is the only member with its affinity: an earlier stream of the same member has
    been fenced off. *)
Theorem open_stream b topic group member messages draining nowMs :
  ginv b -> dv_seq (gr_dv b) + 1 < 2 ^ 64 -> slen topic + slen group < 2 ^ 61 ->
  16 * llen messages + idBytes messages < 2 ^ 61 -> chargeOf messages * (mlen (gr_groupWork b) + 1) < 2 ^ 62 ->
  exists x b', openStream topic group member messages draining nowMs b = Some (x, b') /\ ginv b' /\
    match x with
    | inl _ => refusedStream b b'
    | inr (sr, reserved) => draining = false /\ openedStream topic group member b sr reserved b'
    end.
Proof.
  intros G H1 H2 H3 H4.
  assert (H : wp (openStream topic group member messages draining nowMs) b (fun x b' => ginv b' /\
    match x with
    | inl _ => refusedStream b b'
    | inr (sr, reserved) => draining = false /\ openedStream topic group member b sr reserved b'
    end)) by (eapply wp_openStream; eauto).
  apply wp_elim in H as (x & b' & E & G' & Hx). by exists x, b'.
Qed.

(** C29: acknowledgement. Exactly the acknowledged deliveries leave flight, every checkpoint that is returned
    for the peers is that of an acknowledged group delivery, no group gets work from it, and the members
    and the memory of the streams stay. *)
Theorem ack_groups b ids now :
  ginv b -> 0 <= unixMilli now ->
  exists cs b', removeAcks ids now b = Some (cs, b') /\ ginv b' /\ acked b ids cs b'.
Proof.
  intros G Hn. assert (H : wp (removeAcks ids now) b (fun cs b' => ginv b' /\ acked b ids cs b')) by by apply wp_removeAcks.
  apply wp_elim in H as (cs & b' & E & G' & Ha). by exists cs, b'.
Qed.

(** a checkpoint that has not expired and that is newer than the one known completes the message for the
    group: it is recorded as active and the group has no work on it any more, while no other group's and
    no other message's work is touched and the order of every queue is kept. *)
Theorem checkpoint_completes b c nowMs :
  ginv b -> 0 <= nowMs -> nowMs < gc_ExpiresAt c -> default 0 (expOf (gr_ck b) c) < gc_ExpiresAt c ->
  exists b', recordCheckpoint c nowMs b = Some (tt, b') /\ ginv b' /\
    checkpointActiveLocked (gc_Topic c) (gc_Group c) (gc_MessageID c) nowMs (gr_ck b') = true /\
    ~ hasWork b' (scopeOf c) (gc_MessageID c) /\
    (forall s i, s <> scopeOf c \/ i <> gc_MessageID c -> hasWork b' s i <-> hasWork b s i) /\
    (forall s key, queueOf b' s key =
       if decide (s = scopeOf c) then filter (fun j => j_id j <> gc_MessageID c) (queueOf b s key) else queueOf b s key).
Proof.
  intros G Hn Hexp Hnew.
  assert (H : wp (recordCheckpoint c nowMs) b (fun _ b' => ginv b' /\ checkpointed b c nowMs b')) by by apply wp_recordCheckpoint.
  apply wp_elim in H as ([] & b' & E & G' & Hc). exists b'. split; [done|]. split; [done|].
  destruct (checkpointed_done _ _ _ _ G Hn Hexp Hc) as [Hact Hgone]. split; [done|]. split; [by apply Hgone|].
  destruct Hc as (rec & t & Ep & Hc). destruct (put_spec c nowMs _ (gn_ck _ G) Hn) as (rec2 & t2 & E2 & _ & _ & Er & _).
  rewrite Ep in E2. apply (inj Some) in E2. apply pair_equal_spec in E2 as [<- _].
  rewrite !bool_decide_true in Er by done. cbn in Er. subst rec. split.
  - intros s i Hsi. rewrite (co_work _ _ _ _ Hc). split; [by intros [? _]|]. intros ?. split; [done|]. tauto.
  - intros s key. apply (co_queue _ _ _ _ Hc).
Qed.

(** ** Witnesses *)
Definition ex_new : groups := newGroups DefaultConfig [].
Definition after {A} (r : option (A * groups)) : groups := match r with Some (_, b) => b | None => ex_new end.
Definition ex_scope : checkpointScope := mkScope "t" "g".
Definition ex_items (id : string) : option Message := if decide (id = "m1") then Some ex_message else None.
Definition ex_open : groups := after (openStream "t" "g" "alice" [] false 0 ex_new).
Definition ex_queued : groups := after (prepareGroupWork [Some ex_message] "" 0 ex_open).
Definition ex_away : groups := after (groupTick true true ex_items 100 ex_queued).

Lemma after_ok {A} (m : GoM groups A) b (Q : A -> groups -> Prop) : wp m b Q -> (forall x b', Q x b' -> ginv b') -> ginv (after (m b)).
Proof. unfold wp. destruct (m b) as [[x b']|]; [|done]. intros H HQ. by eapply HQ. Qed.

Lemma ex_limits : limits_ok DefaultConfig.
Proof. repeat split; vm_compute; done. Qed.

Lemma ex_open_ok : ginv ex_open.
Proof.
  apply (after_ok _ _ (fun _ b' => ginv b')); [|done].
  eapply wp_openStream; [apply (ginv_new DefaultConfig [] ex_limits)|by vm_compute..|done|done].
Qed.

Lemma ex_queued_ok : ginv ex_queued.
Proof.
  apply (after_ok _ _ (fun _ b' => ginv b')); [|done]. apply wp_prepareGroupWork; [apply (gn_mem _ ex_open_ok)|vm_compute; done|].
  intros ok b' M Hp. by destruct (prepared_delivering ex_message _ _ _ _ _ _ Hp ex_open_ok M).
Qed.

Lemma ex_items_small i m : ex_items i = Some m -> sizeOf m < 2 ^ 62.
Proof. unfold ex_items. case_decide; [|done]. intros [= <-]. by vm_compute. Qed.

Lemma ex_away_ok : ginv ex_away.
Proof.
  apply (after_ok _ _ (fun _ b' => ginv b')); [|done]. eapply wp_mono; [apply wp_groupTick|by intros _ b' [? _]].
  - exact ex_queued_ok.
  - exact ex_items_small.
  - vm_compute. done.
Qed.

Lemma groups_memory_witness : run DefaultConfig [] (ex_open, {[ 1%positive := 262144 ]}) /\
  gr_streamMemoryBytes ex_open = 262144 + groupTotal (gr_groupWork ex_open).
Proof.
  assert (Hr : run DefaultConfig [] (ex_open, {[ 1%positive := 262144 ]})).
  { eapply run_step; [apply run_new|]. apply (step_open _ ∅ "t" "g" "alice" [] false 0); vm_compute; done. }
  split; [exact Hr|].
  destruct (groups_memory DefaultConfig [] ex_open {[ 1%positive := 262144 ]} ex_limits Hr) as [E _]. exact E.
Defined.

Lemma prepare_atomic_witness : exists b', prepareGroupWork [Some ex_message] "" 0 ex_open = Some (true, b') /\
  queueOf b' ex_scope "k" = [jobFor ex_message].
Proof.
  destruct (prepare_atomic ex_open [Some ex_message] "" 0 ex_open_ok) as (ok & b' & E & _); [vm_compute; done|].
  exists b'. assert (fst <$> prepareGroupWork [Some ex_message] "" 0 ex_open = Some true) as E1 by (vm_compute; done).
  assert ((fun x => queueOf x.2 ex_scope "k") <$> prepareGroupWork [Some ex_message] "" 0 ex_open = Some [jobFor ex_message]) as E2
    by (vm_compute; done).
  rewrite E in E1, E2. injection E1 as ->. injection E2 as E2. by split.
Defined.

Lemma dispatch_head_witness : exists b', dispatchGroupLocked ex_scope "k" (Some ex_message) 100 ex_queued = Some (tt, b') /\
  (idleDispatch ex_queued b' \/ exists m', Some ex_message = Some m' /\ sentDispatch ex_queued ex_scope "k" m' 100 b') /\
  j_delivery <$> queueOf b' ex_scope "k" = [idOf [] 2].
Proof.
  destruct (gr_groupWork ex_queued !! ex_scope) as [g|] eqn:Hg; [|vm_compute in Hg; done].
  destruct (g_lanes g !! "k") as [lane|] eqn:Hl; [|vm_compute in Hg; injection Hg as <-; vm_compute in Hl; done].
  destruct (dispatch_head ex_queued ex_scope g "k" lane (Some ex_message) 100 ex_queued_ok Hg Hl) as (b' & E & _ & _ & H).
  - intros m' [= <-]. by vm_compute.
  - by vm_compute.
  - exists b'. split; [exact E|]. split; [exact H|].
    assert ((fun x => j_delivery <$> queueOf x.2 ex_scope "k") <$> dispatchGroupLocked ex_scope "k" (Some ex_message) 100 ex_queued =
      Some [idOf [] 2]) as E2 by (vm_compute; done).
    rewrite E in E2. by injection E2.
Defined.

Lemma open_stream_witness : exists sr reserved b', openStream "t" "g" "alice" [] false 0 ex_open = Some (inr (sr, reserved), b') /\
  mlen (membersOf "t" "g" b') = 1 /\ reserved = 262144.
Proof.
  destruct (open_stream ex_open "t" "g" "alice" [] false 0 ex_open_ok) as (x & b' & E & _ & H); [by vm_compute..|].
  assert ((fun x => (x.1, mlen (membersOf "t" "g" x.2))) <$> openStream "t" "g" "alice" [] false 0 ex_open =
    Some (inr (2%positive, 262144), 1)) as E2 by (vm_compute; done).
  rewrite E in E2. apply (inj Some) in E2. apply pair_equal_spec in E2 as [E2 E3]. cbn [fst] in E2. subst x.
  exists 2%positive, 262144, b'. split; [exact E|]. by split.
Defined.

Lemma ack_groups_witness : exists cs b', removeAcks ["none"; idOf [] 2] 200 ex_away = Some (cs, b') /\
  cs = [mkCheckpoint "t" "g" "m1" 1000] /\ queueOf b' ex_scope "k" = [].
Proof.
  destruct (ack_groups ex_away ["none"; idOf [] 2] 200 ex_away_ok) as (cs & b' & E & _); [by vm_compute|].
  assert ((fun x => (x.1, queueOf x.2 ex_scope "k")) <$> removeAcks ["none"; idOf [] 2] 200 ex_away =
    Some ([mkCheckpoint "t" "g" "m1" 1000], [])) as E2 by (vm_compute; done).
  rewrite E in E2. apply (inj Some) in E2. apply pair_equal_spec in E2 as [E2 E3]. exists cs, b'. split; [exact E|]. by split.
Defined.

Lemma checkpoint_completes_witness : exists b', recordCheckpoint (mkCheckpoint "t" "g" "m1" 1000) 5 ex_queued = Some (tt, b') /\
  ~ hasWork b' ex_scope "m1".
Proof.
  destruct (checkpoint_completes ex_queued (mkCheckpoint "t" "g" "m1" 1000) 5 ex_queued_ok) as (b' & E & _ & _ & H & _);
    [by vm_compute..|]. exists b'. split; [exact E|exact H].
Defined.

Lemma maintenance_retries_witness : exists b', maintenanceTick (10 ^ 15) ex_away = Some (tt, b') /\
  queueOf b' ex_scope "k" = [mkJob "m1" 1000 2 ""].
Proof.
  destruct (maintenance_retries ex_away (10 ^ 15) ex_away_ok) as (b' & E & _ & _ & _ & _ & _ & _ & H); [by vm_compute|].
  exists b'. split; [exact E|]. rewrite (H ex_scope "k"). vm_compute. done.
Defined.

Lemma tick_safe_witness : exists b', groupTick true true ex_items 100 ex_queued = Some (tt, b') /\
  exists j, j ∈ queueOf b' ex_scope "k" /\ j_id j = "m1".
Proof.
  destruct (tick_safe ex_queued true true ex_items 100 ex_queued_ok ex_items_small) as (b' & E & _ & _ & _ & _ & _ & _ & _ & H);
    [by vm_compute|]. exists b'. split; [exact E|].
  destruct (H ex_scope "k" (jobFor ex_message)) as (j' & Hj' & Ej & _).
  - vm_compute. left.
  - split; vm_compute; done.
  - exists j'. split; [exact Hj'|]. rewrite Ej. done.
Defined.
