(* ===== verification/Accept.v ===== *)
(** * Accepting messages

    [acceptLocked], [acceptBatchLocked], [acceptReplicatedBatch], [drainContiguousLocked] of
    internal/broker/broker.go, origin_memory.go and [acceptIdempotent] of idempotency.go: where the
    message cache, the sequences of origins and the consumer groups meet.  The consumer groups are
    behind the interface [Sink]; [AcceptGroups.v] gives its instance.  A handler runs under
    [cache.mu]; [now] is the instant, in nanoseconds, at which it reads the clock. *)
From S2P Require Import Prelude GoHeap Dll Types GoIO Pending Cache.
From Stdlib Require Import String Ascii.
#[local] Open Scope Z_scope.

(** ** The groups, as the accepting code sees them *)
Class Sink (G : Type) := {
  (** [b.prepareGroupWork(messages)]; the instant is in milliseconds. *)
  sk_prepare : list (option Message) -> Z -> GoM G bool;
  (** [b.deliver(m, "", 1)] *)
  sk_deliver : Message -> Z -> GoM G unit;
  (** [b.seq.Add(1)] *)
  sk_next : GoM G Z;
  (** [b.metrics.Duplicate.Add(1)] *)
  sk_duplicate : GoM G unit;
  (** [b.metrics.ReplicationDropped.Add(1)] *)
  sk_dropped : GoM G unit;
}.

(** ** Origins *)

(** [strconv.FormatUint(n, 36)]: 13 digits are enough for 64 bits. *)
Definition digit36 (d : Z) : ascii := ascii_of_nat (Z.to_nat (if bool_decide (d < 10) then 48 + d else 87 + d)).

Fixpoint digits36 (fuel : nat) (n : Z) (acc : string) : string :=
  match fuel with
  | O => acc
  | S fuel =>
    let acc := String (digit36 (n mod 36)) acc in
    if bool_decide (n / 36 = 0) then acc else digits36 fuel (n / 36) acc
  end.
Definition formatUint36 (n : Z) : string := digits36 13 n EmptyString.

(** [recordReceivedLocked] of origin_memory.go. *)
Definition recordReceivedLocked (m : Message) (tnow : Z) (c : cache) : cache :=
  let c := c <| c_receivedThrough :=
    <[m_Origin m := Z.max (default 0 (c_receivedThrough c !! m_Origin m)) (m_Sequence m)]> (c_receivedThrough c) |> in
  let c := c <| c_receivedUntil :=
    <[m_Origin m := Z.max (default 0 (c_receivedUntil c !! m_Origin m)) (m_ExpiresAt m)]> (c_receivedUntil c) |> in
  if bool_decide (0 < mlen (default ∅ (c_reorder c !! m_Origin m)))
  then c <| c_reorderSince := <[m_Origin m := tnow]> (c_reorderSince c) |> else c.

(** The origin that a message will be recorded under. *)
Definition originFor (c : cache) (m : Message) : string :=
  if bool_decide (m_Origin m = "") then
    match c_topicSequences c !! m_Topic m with Some state => ts_origin state | None => "local:" +:+ m_Topic m end
  else m_Origin m.

Definition originCapacityLocked (messages : list Message) (c : cache) : bool :=
  if bool_decide (mlen (c_receivedThrough c) + llen messages <= c_frontierLimit c) then true else
  let added : gset string := foldl (fun added m =>
    let origin := originFor c m in
    if bool_decide (c_receivedThrough c !! origin = None) then {[ origin ]} ∪ added else added) ∅ messages in
  bool_decide (mlen (c_receivedThrough c) + Z.of_nat (size added) <= c_frontierLimit c).

(** ** The broker *)
Record broker (G : Type) := mkBroker { bk_cache : cache; bk_sink : G; bk_origin : string }.
Arguments mkBroker {G}. Arguments bk_cache {G}. Arguments bk_sink {G}. Arguments bk_origin {G}.

Section Accept.
Context {G : Type} `{Sink G}.
Abbreviation BK := (GoM (broker G)).

Definition inCache {A} : CM A -> BK A := gzoom bk_cache (fun c b => mkBroker c (bk_sink b) (bk_origin b)).
Definition inSink {A} : GoM G A -> BK A := gzoom bk_sink (fun g b => mkBroker (bk_cache b) g (bk_origin b)).

(** A message of this broker gets the next sequence of its topic, under an origin of its own. *)
Definition assignSequence (r : loc) (ms : Z) : BK bool :=
  m <- inCache (cderef r) ;;
  c <- inCache gget ;;
  ok <- (match c_topicSequences c !! m_Topic m with
    | Some _ => gret true
    | None =>
      if bool_decide (c_frontierLimit c <= mlen (c_topicSequences c)) then
        inCache (gmodify (markUnsafeLocked (m_Topic m) "sequence-capacity" (m_ExpiresAt m))) ;;; gret false
      else
        n <- inSink sk_next ;;
        b <- gget ;;
        inCache (gmodify (fun c => c <| c_topicSequences :=
          <[m_Topic m := mkTopicSequence (bk_origin b +:+ "." +:+ formatUint36 n) 0 0]> (c_topicSequences c) |>)) ;;;
        gret true
    end) ;;
  if negb ok then gret false else
  c <- inCache gget ;;
  state <- glift (c_topicSequences c !! m_Topic m) ;;
  let state := mkTopicSequence (ts_origin state) (u64 (ts_next state + 1)) (Z.max (ts_expiresAt state) (m_ExpiresAt m)) in
  inCache (gmodify (fun c => c <| c_topicSequences := <[m_Topic m := state]> (c_topicSequences c) |>)) ;;;
  inCache (cupdate r (fun m => (m <| m_Origin := ts_origin state |>) <| m_Sequence := ts_next state |>)) ;;;
  m <- inCache (cderef r) ;;
  inCache (gmodify (recordReceivedLocked m ms)) ;;;
  gret true.

Definition deliverNew (r : loc) (now : Z) : BK unit := m <- inCache (cderef r) ;; inSink (sk_deliver m now).

Definition acceptLocked (r : loc) (now : Z) : BK (bool * option error) :=
  let ms := unixMilli now in
  inCache (expireLocked ms ms) ;;;
  m <- inCache (cderef r) ;;
  sz <- inCache (messageSize r) ;;
  c <- inCache gget ;;
  if bool_decide (c_maxBytes c < sz) then gret (false, Some errCacheCapacity) else
  if bool_decide (is_Some (c_items c !! m_ID m)) then inSink sk_duplicate ;;; gret (false, None) else
  sz <- inCache (messageSize r) ;;
  if bool_decide (c_maxBytes c < i64 (i64 (c_bytes c + c_reorderBytes c) + sz)) then gret (false, Some errRetentionCapacity) else
  if bool_decide (m_Origin m = "") && bool_decide (c_topicSequences c !! m_Topic m = None)
     && bool_decide (c_frontierLimit c <= mlen (c_topicSequences c))
  then gret (false, Some errTopicSequence) else
  if negb (originCapacityLocked [m] c) then gret (false, Some errRetentionCapacity) else
  m <- inCache (cderef r) ;;
  ok <- inSink (sk_prepare [Some m] ms) ;;
  if negb ok then gret (false, Some errRetentionCapacity) else
  ok <- (if bool_decide (m_Origin m = "") then assignSequence r ms else gret true) ;;
  if negb ok then gret (false, Some errTopicSequence) else
  res <- inCache (insertLocked r ms) ;;
  match res with
  | (true, None) => deliverNew r now ;;; gret (true, None)
  | (false, None) => inSink sk_duplicate ;;; gret (false, None)
  | (inserted, Some e) => gret (inserted, Some e)
  end.

(** [accept] takes the lock. *)
Definition accept (r : loc) (now : Z) : BK (bool * option error) := acceptLocked r now.

(** [acceptIdempotent]: a message that is cached under the ID is returned instead, if it is the same. The TTL
    is in milliseconds. *)
Definition acceptIdempotent (r : loc) (ttl now : Z) : BK (option loc * bool * option error) :=
  let ms := unixMilli now in
  inCache (expireLocked ms ms) ;;;
  m <- inCache (cderef r) ;;
  c <- inCache gget ;;
  match c_items c !! m_ID m with
  | Some x =>
    existing <- inCache (cderef x) ;;
    if bool_decide (m_Topic existing <> m_Topic m) || bool_decide (m_Key existing <> m_Key m)
       || bool_decide (default "" (m_Headers existing !! "content-type") <> default "" (m_Headers m !! "content-type"))
       || bool_decide (m_Payload existing <> m_Payload m)
       || bool_decide (i64 (m_ExpiresAt existing - m_CreatedAt existing) <> ttl)
    then gret (None, false, Some errIdempotencyConflict) else gret (Some x, false, None)
  | None =>
    res <- acceptLocked r now ;;
    gret (Some r, res.1, res.2)
  end.

(** ** Buffered messages *)

(** [len(gaps) == 0]: the buffer and the gap mark of the origin go. *)
Definition closeGap (origin topic : string) : CM unit :=
  gmodify (fun c => (c <| c_reorder := delete origin (c_reorder c) |>)
                      <| c_reorderSince := delete origin (c_reorderSince c) |>) ;;;
  gmodify (clearUnsafeLocked topic ("gap:" +:+ origin)).

(** [delete(gaps, m.Sequence); b.cache.reorderBytes -= messageSize(m)] *)
Definition unbufferLocked (origin : string) (sequence : Z) (r : loc) : CM unit :=
  gmodify (fun c => c <| c_reorder := alter (delete sequence) origin (c_reorder c) |>) ;;;
  sz <- messageSize r ;;
  gmodify (fun c => c <| c_reorderBytes := i64 (c_reorderBytes c - sz) |>).

(** The entry of [b.cache.reorder[origin][sequence]]; a missing map reads as empty. *)
Definition bufferedAt (origin : string) (sequence : Z) : CM (option loc) :=
  c <- gget ;; gret (c_reorder c !! origin ≫= (.!! sequence)).

Definition gapsLen (origin : string) : CM Z := c <- gget ;; gret (mlen (default ∅ (c_reorder c !! origin))).

(** The live message at the frontier moves from the buffer to the cache. *)
Definition promote (origin : string) (r : loc) (m : Message) (now : Z) : BK (option error) :=
  let ms := unixMilli now in
  ok <- inSink (sk_prepare [Some m] ms) ;;
  if negb ok then gret (Some errRetentionCapacity) else
  inCache (unbufferLocked origin (m_Sequence m) r) ;;;
  res <- inCache (insertLocked r ms) ;;
  match res with
  | (_, Some e) =>
    inCache (gmodify (fun c => c <| c_reorder := alter (insert (m_Sequence m) r) origin (c_reorder c) |>) ;;;
             sz <- messageSize r ;;
             gmodify (fun c => c <| c_reorderBytes := i64 (c_reorderBytes c + sz) |>)) ;;;
    gret (Some e)
  | (inserted, None) =>
    inCache (gmodify (recordReceivedLocked m ms)) ;;;
    (if inserted : bool then deliverNew r now else inSink sk_duplicate) ;;;
    gret None
  end.

(** An expired message at the frontier consumes its sequence. *)
Definition consumeExpired (origin : string) (r : loc) (m : Message) : CM unit :=
  unbufferLocked origin (m_Sequence m) r ;;;
  gmodify (fun c => (c <| c_receivedThrough := <[origin := m_Sequence m]> (c_receivedThrough c) |>)
    <| c_receivedUntil := <[origin := Z.max (default 0 (c_receivedUntil c !! origin)) (m_ExpiresAt m)]> (c_receivedUntil c) |>).

Fixpoint drainContiguousLocked (fuel : nat) (origin : string) (now : Z) : BK (option error) :=
  match fuel with
  | O => gpanic
  | S fuel =>
    c <- inCache gget ;;
    let through := default 0 (c_receivedThrough c !! origin) in
    o <- inCache (bufferedAt origin (u64 (through + 1))) ;;
    match o with
    | None => gret None
    | Some r =>
      m <- inCache (cderef r) ;;
      err <- (if bool_decide (m_ExpiresAt m <= unixMilli now)
              then inCache (consumeExpired origin r m) ;;; gret None
              else promote origin r m now) ;;
      match err with
      | Some e => gret (Some e)
      | None =>
        n <- inCache (gapsLen origin) ;;
        if bool_decide (n = 0) then inCache (closeGap origin (m_Topic m)) ;;; gret None
        else drainContiguousLocked fuel origin now
      end
    end
  end.

(** ** A batch of this broker's publications, or of a repair *)

(** The aggregate of a batch within the limit, and the topics without a sequence yet. *)
Fixpoint admitSizes (rs : list loc) (total : Z) (newTopics : gset string) : CM (option (gset string)) :=
  match rs with
  | [] => gret (Some newTopics)
  | r :: rs =>
    size <- messageSize r ;;
    c <- gget ;;
    if bool_decide (c_maxBytes c < size) || bool_decide (i64 (c_maxBytes c - size) < total) then gret None else
    m <- cderef r ;;
    admitSizes rs (i64 (total + size))
      (if bool_decide (m_Origin m = "") && bool_decide (c_topicSequences c !! m_Topic m = None)
       then {[ m_Topic m ]} ∪ newTopics else newTopics)
  end.

(** The bytes that a batch adds: a repair does not pay twice for what is buffered. *)
Fixpoint addedBytes (rs : list loc) (repair : bool) (added : Z) : CM Z :=
  match rs with
  | [] => gret added
  | r :: rs =>
    m <- cderef r ;;
    c <- gget ;;
    if bool_decide (c_items c !! m_ID m = None) then
      o <- bufferedAt (m_Origin m) (m_Sequence m) ;;
      same <- (match o with Some x => b <- cderef x ;; gret (bool_decide (m_ID b = m_ID m)) | None => gret false end) ;;
      if negb repair || negb same then size <- messageSize r ;; addedBytes rs repair (i64 (added + size))
      else addedBytes rs repair added
    else addedBytes rs repair added
  end.

(** A repaired message leaves the buffer; what it skips over makes its topic unsafe. *)
Definition repairOne (m : Message) : CM unit :=
  o <- bufferedAt (m_Origin m) (m_Sequence m) ;;
  (match o with
   | Some x =>
     b <- cderef x ;;
     gwhen (bool_decide (m_ID b = m_ID m))
       (unbufferLocked (m_Origin m) (m_Sequence m) x ;;;
        n <- gapsLen (m_Origin m) ;;
        gwhen (bool_decide (n = 0)) (closeGap (m_Origin m) (m_Topic m)))
   | None => gret tt
   end) ;;;
  c <- gget ;;
  gwhen (bool_decide (u64 (default 0 (c_receivedThrough c !! m_Origin m) + 1) < m_Sequence m))
    (gmodify (markUnsafeLocked (m_Topic m) ("repair:" +:+ m_Origin m) (m_ExpiresAt m))).

(** The sequences of a batch, assigned or recorded; a cached message keeps those it has. *)
Fixpoint assignBatch (rs : list loc) (repair : bool) (ms : Z) : BK (option error) :=
  match rs with
  | [] => gret None
  | r :: rs =>
    m <- inCache (cderef r) ;;
    (if repair then inCache (repairOne m) else gret tt) ;;;
    c <- inCache gget ;;
    match c_items c !! m_ID m with
    | Some x =>
      existing <- inCache (cderef x) ;;
      inCache (cupdate r (fun m => (m <| m_Origin := m_Origin existing |>) <| m_Sequence := m_Sequence existing |>)) ;;;
      assignBatch rs repair ms
    | None =>
      ok <- (if bool_decide (m_Origin m = "") then assignSequence r ms
             else inCache (gmodify (recordReceivedLocked m ms)) ;;; gret true) ;;
      if negb ok then gret (Some errTopicSequence) else assignBatch rs repair ms
    end
  end.

Fixpoint deliverBatch (rs : list (loc * bool)) (now : Z) : BK unit :=
  match rs with
  | [] => gret tt
  | (r, inserted) :: rs => (if inserted : bool then deliverNew r now else inSink sk_duplicate) ;;; deliverBatch rs now
  end.

Fixpoint drainAll (origins : list string) (now : Z) : BK (option error) :=
  match origins with
  | [] => gret None
  | origin :: origins =>
    c <- inCache gget ;;
    err <- drainContiguousLocked (S (size (default ∅ (c_reorder c !! origin)))) origin now ;;
    match err with
    | Some e => if bool_decide (e = errRetentionCapacity) then drainAll origins now else gret (Some e)
    | None => drainAll origins now
    end
  end.

Definition acceptBatchLocked (rs : list loc) (repair : bool) (now : Z) : BK (option error) :=
  let ms := unixMilli now in
  inCache (expireLocked ms ms) ;;;
  o <- inCache (admitSizes rs 0 ∅) ;;
  match o with
  | None => gret (Some errCacheCapacity)
  | Some newTopics =>
    c <- inCache gget ;;
    if bool_decide (c_frontierLimit c < mlen (c_topicSequences c) + Z.of_nat (size newTopics)) then gret (Some errTopicSequence) else
    added <- inCache (addedBytes rs repair 0) ;;
    if bool_decide (c_maxBytes c < i64 (i64 (c_bytes c + c_reorderBytes c) + added)) then gret (Some errRetentionCapacity) else
    messages <- inCache (gmap_list cderef rs) ;;
    if negb (originCapacityLocked messages c) then gret (Some errRetentionCapacity) else
    ok <- inSink (sk_prepare (Some <$> messages) ms) ;;
    if negb ok then gret (Some errRetentionCapacity) else
    err <- assignBatch rs repair ms ;;
    match err with
    | Some e => gret (Some e)
    | None =>
      inserted <- inCache (insertBatchLocked rs ms) ;;
      deliverBatch (combine rs inserted) now ;;;
      c <- inCache gget ;;
      drainAll (map_to_list (c_reorder c)).*1 now
    end
  end.

(** [acceptBatch] takes the lock. *)
Definition acceptBatch (rs : list loc) (now : Z) : BK (option error) := acceptBatchLocked rs false now.

(** ** A batch of replicas *)

(** [type sequenceKey struct] *)
Abbreviation sequenceKey := (string * Z)%type.

Fixpoint validReplicas (rs : list loc) : CM bool :=
  match rs with
  | [] => gret true
  | r :: rs =>
    m <- cderef r ;;
    if bool_decide (m_Origin m = "") || bool_decide (m_Sequence m = 0) then gret false else
    size <- messageSize r ;;
    c <- gget ;;
    if bool_decide (c_maxBytes c < size) then gret false else validReplicas rs
  end.

(** The bytes that the batch adds; a sequence that comes twice is counted once. *)
Fixpoint addedReplicas (rs : list loc) (seen : gset sequenceKey) (added : Z) : CM Z :=
  match rs with
  | [] => gret added
  | r :: rs =>
    m <- cderef r ;;
    let key := (m_Origin m, m_Sequence m) in
    if bool_decide (key ∈ seen) then addedReplicas rs seen added else
    c <- gget ;;
    o <- bufferedAt (m_Origin m) (m_Sequence m) ;;
    if bool_decide (c_items c !! m_ID m = None) && bool_decide (o = None)
       && bool_decide (default 0 (c_receivedThrough c !! m_Origin m) < m_Sequence m)
    then size <- messageSize r ;; addedReplicas rs ({[ key ]} ∪ seen) (i64 (added + size))
    else addedReplicas rs ({[ key ]} ∪ seen) added
  end.

Definition byOrigin (a b : loc * Message) : bool :=
  if bool_decide (m_Origin a.2 = m_Origin b.2) then bool_decide (m_Sequence a.2 < m_Sequence b.2)
  else String.ltb (m_Origin a.2) (m_Origin b.2).

(** A message beyond the frontier waits in the buffer of its origin, within the budget. *)
Definition bufferGap (r : loc) (m : Message) (ms : Z) : BK (option error) :=
  c <- inCache gget ;;
  let gaps := default ∅ (c_reorder c !! m_Origin m) in
  inCache (gmodify (fun c => c <| c_reorder := <[m_Origin m := gaps]> (c_reorder c) |>)) ;;;
  if bool_decide (is_Some (gaps !! m_Sequence m)) then inSink sk_duplicate ;;; gret None else
  full <- (if bool_decide (c_reorderLimit c <= mlen gaps) then gret true else
           sz <- inCache (messageSize r) ;;
           gret (bool_decide (Z.quot (c_maxBytes c) 4 < i64 (c_reorderBytes c + sz)))) ;;
  if full : bool then
    inCache (gmodify (markUnsafeLocked (m_Topic m) ("overflow:" +:+ m_Origin m) (m_ExpiresAt m))) ;;;
    inSink sk_dropped ;;;
    gret (Some errRetentionCapacity)
  else
    inCache (
      gmodify (fun c => c <| c_reorder := <[m_Origin m := <[m_Sequence m := r]> gaps]> (c_reorder c) |>) ;;;
      gmodify (fun c => if bool_decide (default 0 (c_reorderSince c !! m_Origin m) = 0)
                        then c <| c_reorderSince := <[m_Origin m := ms]> (c_reorderSince c) |> else c) ;;;
      sz <- messageSize r ;;
      gmodify (fun c => c <| c_reorderBytes := i64 (c_reorderBytes c + sz) |>) ;;;
      gmodify (markUnsafeLocked (m_Topic m) ("gap:" +:+ m_Origin m) (m_ExpiresAt m))) ;;;
    gret None.

(** [if _, ok := gaps[current.Sequence]; ok { delete ... }] *)
Definition unbufferIf (current : loc) (m : Message) : CM unit :=
  o <- bufferedAt (m_Origin m) (m_Sequence m) ;;
  gwhen (bool_decide (is_Some o)) (unbufferLocked (m_Origin m) (m_Sequence m) current).

(** The loop over [current]: what is at the frontier is accepted, then its buffered successors. [first] is the
    message the loop started with. *)
Fixpoint acceptChain (fuel : nat) (first current : loc) (fromGap : bool) (now : Z) : BK (option error) :=
  match fuel with
  | O => gpanic
  | S fuel =>
    let ms := unixMilli now in
    m <- inCache (cderef current) ;;
    inCache (gwhen fromGap (unbufferIf current m)) ;;;
    if bool_decide (m_ExpiresAt m <= ms) then
      inCache (gmodify (fun c => c <| c_receivedThrough :=
        <[m_Origin m := Z.max (default 0 (c_receivedThrough c !! m_Origin m)) (m_Sequence m)]> (c_receivedThrough c) |>)) ;;;
      c <- inCache gget ;;
      match c_reorder c !! m_Origin m with
      | Some _ =>
        inCache (unbufferIf current m) ;;;
        n <- inCache (gapsLen (m_Origin m)) ;;
        if bool_decide (n = 0) then inCache (closeGap (m_Origin m) (m_Topic m)) ;;; gret None else
        o <- inCache (bufferedAt (m_Origin m) (u64 (m_Sequence m + 1))) ;;
        match o with None => gret None | Some next => acceptChain fuel first next true now end
      | None => gret None
      end
    else
      ok <- inSink (sk_prepare [Some m] ms) ;;
      if negb ok then
        (if bool_decide (current <> first) || fromGap then inCache (
          gmodify (fun c => c <| c_reorder :=
            <[m_Origin m := <[m_Sequence m := current]> (default ∅ (c_reorder c !! m_Origin m))]> (c_reorder c) |>) ;;;
          sz <- messageSize current ;;
          gmodify (fun c => c <| c_reorderBytes := i64 (c_reorderBytes c + sz) |>) ;;;
          gmodify (markUnsafeLocked (m_Topic m) ("gap:" +:+ m_Origin m) (m_ExpiresAt m)))
         else gret tt) ;;;
        gret (Some errRetentionCapacity)
      else
        res <- inCache (insertLocked current ms) ;;
        match res with
        | (_, Some e) => gret (Some e)
        | (inserted, None) =>
          inCache (gmodify (recordReceivedLocked m ms)) ;;;
          (if inserted : bool then deliverNew current now else inSink sk_duplicate) ;;;
          o <- inCache (bufferedAt (m_Origin m) (u64 (m_Sequence m + 1))) ;;
          (match o with
           | Some next => inCache (unbufferLocked (m_Origin m) (u64 (m_Sequence m + 1)) next)
           | None => gret tt
           end) ;;;
          n <- inCache (gapsLen (m_Origin m)) ;;
          (if bool_decide (n = 0) then inCache (closeGap (m_Origin m) (m_Topic m)) else gret tt) ;;;
          match o with None => gret None | Some next => acceptChain fuel first next fromGap now end
        end
  end.

(** Enough fuel for a chain: each round takes one message out of the buffer of the origin. *)
Definition chainFuel (origin : string) (c : cache) : nat := S (S (size (default ∅ (c_reorder c !! origin)))).

(** One message of the batch. *)
Definition acceptReplica (r : loc) (now : Z) : BK (option error) :=
  let ms := unixMilli now in
  m <- inCache (cderef r) ;;
  c <- inCache gget ;;
  let through := default 0 (c_receivedThrough c !! m_Origin m) in
  if bool_decide (m_Sequence m <= through) then
    if bool_decide (c_items c !! m_ID m = None) && bool_decide (ms < m_ExpiresAt m) then gret (Some errReplicaSequenceMissing) else
    (if bool_decide (is_Some (c_items c !! m_ID m)) then inSink sk_duplicate else gret tt) ;;;
    o <- inCache (bufferedAt (m_Origin m) (u64 (through + 1))) ;;
    match o with
    | None => gret None
    | Some next =>
      n <- inCache (cderef next) ;;
      inCache (unbufferLocked (m_Origin n) (m_Sequence n) next) ;;;
      if bool_decide (u64 (through + 1) < m_Sequence n) then bufferGap next n ms else
      c <- inCache gget ;;
      acceptChain (chainFuel (m_Origin n) c) next next true now
    end
  else if bool_decide (u64 (through + 1) < m_Sequence m) then bufferGap r m ms
  else acceptChain (chainFuel (m_Origin m) c) r r false now.

Fixpoint acceptReplicas (rs : list loc) (now : Z) : BK (option error) :=
  match rs with
  | [] => gret None
  | r :: rs =>
    err <- acceptReplica r now ;;
    match err with Some e => gret (Some e) | None => acceptReplicas rs now end
  end.

Definition acceptReplicatedBatch (rs : list loc) (now : Z) : BK (option error) :=
  let ms := unixMilli now in
  inCache (expireLocked ms ms) ;;;
  ok <- inCache (validReplicas rs) ;;
  if negb ok then gret (Some (errOther "invalid replicated sequence")) else
  messages <- inCache (gmap_list cderef rs) ;;
  c <- inCache gget ;;
  if negb (originCapacityLocked messages c) then gret (Some errRetentionCapacity) else
  added <- inCache (addedReplicas rs ∅ 0) ;;
  if bool_decide (c_maxBytes c < i64 (i64 (c_bytes c + c_reorderBytes c) + added)) then gret (Some errRetentionCapacity) else
  acceptReplicas (stable_sort byOrigin (zip rs messages)).*1 now.
End Accept.
