(* ===== verification/AcceptInv.v ===== *)
(** * The invariant of the accepting code

    What the cache and the groups keep between them while messages are accepted, and the rules for
    the steps that the handlers of Accept.v are made of. *)
From S2P Require Import Prelude GoHeap Dll Types Pending Cache CacheIndex CacheExpiry CacheInv CacheExpire CacheSpec Accept.
#[local] Open Scope Z_scope.

(** What the groups charge a message for. *)
Definition sview (m : Message) := (m_ID m, m_Topic m, m_Key m, sizeOf m).

(** ** What the groups promise *)
Class SinkLaws (G : Type) `{Sink G} := {
  (** Consistent, with room for [n] more messages. *)
  sk_ok : Z -> G -> Prop;
  (** A message of a size that counters can add up. *)
  sk_small : Message -> Prop;
  sk_small_view m m' : sview m' = sview m -> sk_small m -> sk_small m';
  sk_weaken n n' g : n' <= n -> sk_ok n g -> sk_ok n' g;
  (** All or nothing. *)
  sk_prepare_ok n g ms t : sk_ok n g -> Forall sk_small ms -> llen ms <= n ->
    wp (sk_prepare (Some <$> ms) t) g (fun ok g' => sk_ok n g' /\ (ok = false -> g' = g));
  sk_deliver_ok n g m t : 1 <= n -> sk_ok n g -> sk_small m -> wp (sk_deliver m t) g (fun _ g' => sk_ok (n - 1) g');
  sk_next_ok n g : 1 <= n -> sk_ok n g -> wp sk_next g (fun _ g' => sk_ok (n - 1) g');
  sk_duplicate_ok n g : sk_ok n g -> wp sk_duplicate g (fun _ g' => sk_ok n g');
  sk_dropped_ok n g : sk_ok n g -> wp sk_dropped g (fun _ g' => sk_ok n g');
}.

(** ** Edits of a message that only its caller holds *)
Definition owned (c : cache) (r : loc) : Prop :=
  (forall id, c_items c !! id <> Some r) /\ forall o s, buffered (c_reorder c) o s <> Some r.

Definition placed (o : string) (s : Z) (m : Message) : Message := (m <| m_Origin := o |>) <| m_Sequence := s |>.

Lemma placed_ok c r m o s : cacheOK c -> c_mstore c !! r = Some m -> owned c r ->
  cacheOK (c <| c_mstore := <[r := placed o s m]> (c_mstore c) |>).
Proof.
  intros [[L [HO HT [X1 X2 X3] Hb Hr Hm Hh Hbf]] R] Hrm [Hn1 Hn2]. split; [exists L|].
  - split; cbn; try done.
    + eapply IXO_agree; [|exact HO]. by eapply agree_insert.
    + eapply IXT_agree; [|exact HT]. by eapply agree_insert.
    + split; [exact X1|eapply XL_agree; [|exact X2]|exact X3]. by eapply agree_insert.
    + rewrite Hb. apply msum_ext. intros id x Hx. unfold sizeAt. destruct (decide (x = r)) as [->|Hne]; [by destruct (Hn1 id)|].
      by rewrite lookup_insert_ne.
  - destruct R as [H1 H2 H3]. split; cbn; [| |done].
    + intros o' s' x Hx. destruct (H1 _ _ _ Hx) as (mx & Hmx & E). exists mx. split; [|done]. rewrite lookup_insert_ne; [done|].
      intros <-. by apply (Hn2 o' s').
    + rewrite H2. apply msum_ext. intros o' g Hg. apply msum_ext. intros s' x Hx. unfold sizeAt. rewrite lookup_insert_ne; [done|].
      intros <-. apply (Hn2 o' s'). unfold buffered. by rewrite Hg.
Qed.

(** ** Insertion of a message that fits *)
Record fitted (r : loc) (m : Message) (c c' : cache) : Prop := {
  ft_items : c_items c' = <[m_ID m := r]> (c_items c);
  ft_new : c_items c !! m_ID m = None;
  ft_bytes : c_bytes c' = c_bytes c + sizeOf m;
  ft_view : agree mview (c_mstore c) (c_mstore c');
  ft_meta : meta c' = meta c;
}.

Lemma wp_insert_fit c r m tnow (Q : bool * option error -> cache -> Prop) : cacheOK c -> c_mstore c !! r = Some m ->
  c_bytes c + sizeOf m <= c_maxBytes c ->
  (forall c', cacheOK c' -> fitted r m c c' -> Q (true, None) c') ->
  (is_Some (c_items c !! m_ID m) -> Q (false, None) c) -> wp (insertLocked r tnow) c Q.
Proof.
  intros K Hm Hfit HQ1 HQ2. pose proof (sizeOf_pos m) as Hpos. pose proof K as [[L I] _].
  pose proof (cb_bytes_nonneg _ _ _ (cinv_base _ _ _ I)). eapply wp_insert; [done|exact Hm|].
  intros [[] [e|]] c' K' Hres; cbn in Hres; [done| | |].
  - destruct Hres as (Hn & _ & [(its & _ & Ei & Heq) V M _ B _]). apply HQ1; [done|]. split; try done; [by rewrite Ei, (Heq Hfit)|by apply B].
  - destruct Hres as (_ & _ & [[_ ?]|[_ ?]]); lia.
  - destruct Hres as [Hs ->]. by apply HQ2.
Qed.

(** ** The bookkeeping of sequences *)

(** What the bookkeeping leaves alone. *)
Record kept (c c' : cache) : Prop := {
  kp_store : c_mstore c' = c_mstore c;
  kp_core : core c' = core c;
  kp_reorder : c_reorder c' = c_reorder c;
  kp_bytes : c_reorderBytes c' = c_reorderBytes c;
}.

Lemma kept_trans c1 c2 c3 : kept c1 c2 -> kept c2 c3 -> kept c1 c3.
Proof. intros [A1 A2 A3 A4] [B1 B2 B3 B4]. split; congruence. Qed.

Lemma kept_ok c c' : kept c c' -> cacheOK c -> cacheOK c'.
Proof.
  intros [E1 E2 E3 E4] [[L I] R]. split.
  - exists L. eapply cinv_mframe; [|exact I]. split; [by rewrite E1|done].
  - apply (rinv_view c); [by rewrite E1|done..].
Qed.

Lemma record_kept m ms c : kept c (recordReceivedLocked m ms c).
Proof. unfold recordReceivedLocked. cbv zeta. destruct (bool_decide _); by split. Qed.

Lemma record_hist m ms c :
  c_receivedThrough (recordReceivedLocked m ms c) =
    <[m_Origin m := Z.max (default 0 (c_receivedThrough c !! m_Origin m)) (m_Sequence m)]> (c_receivedThrough c) /\
  c_topicSequences (recordReceivedLocked m ms c) = c_topicSequences c.
Proof. unfold recordReceivedLocked. cbv zeta. by destruct (bool_decide _). Qed.

Lemma mark_kept topic source until c : kept c (markUnsafeLocked topic source until c) /\ hist (markUnsafeLocked topic source until c) = hist c.
Proof. destruct (markUnsafe_shape topic source until c) as [u ->]. by split. Qed.

Lemma clear_kept topic source c : kept c (clearUnsafeLocked topic source c) /\ hist (clearUnsafeLocked topic source c) = hist c.
Proof. destruct (clearUnsafe_shape topic source c) as [u ->]. by split. Qed.

(** The cache after [r] was given the sequence [s] of the origin [o]. *)
Definition assignTo (r : loc) (m : Message) (ms : Z) (o : string) (s e : Z) (c : cache) : cache :=
  recordReceivedLocked (placed o s m) ms
    ((c <| c_topicSequences := <[m_Topic m := mkTopicSequence o s e]> (c_topicSequences c) |>)
       <| c_mstore := <[r := placed o s m]> (c_mstore c) |>).

(** The next sequence of the topic: of the origin it has, or the first of a new one. *)
Definition nextSequence (bo : string) (c : cache) (topic o : string) (s : Z) : Prop :=
  match c_topicSequences c !! topic with
  | Some st => o = ts_origin st /\ s = u64 (ts_next st + 1)
  | None => (exists n, o = bo +:+ "." +:+ formatUint36 n) /\ s = 1
  end.

Lemma assignTo_ok c r m ms o s e : cacheOK c -> c_mstore c !! r = Some m -> owned c r -> cacheOK (assignTo r m ms o s e c).
Proof.
  intros K Hm Ho. eapply kept_ok; [apply record_kept|]. set (c0 := c <| c_topicSequences := _ |>).
  assert (K0 : cacheOK c0) by (by eapply (kept_ok c)). exact (placed_ok c0 r m o s K0 Hm Ho).
Qed.

Lemma assignTo_fields c r m ms o s e : let c' := assignTo r m ms o s e c in
  c_mstore c' = <[r := placed o s m]> (c_mstore c) /\ core c' = core c /\ c_reorder c' = c_reorder c /\ c_reorderBytes c' = c_reorderBytes c /\
  c_receivedThrough c' = <[o := Z.max (default 0 (c_receivedThrough c !! o)) s]> (c_receivedThrough c) /\
  c_topicSequences c' = <[m_Topic m := mkTopicSequence o s e]> (c_topicSequences c).
Proof.
  unfold assignTo. set (c0 := (c <| c_topicSequences := _ |>) <| c_mstore := _ |>).
  destruct (record_kept (placed o s m) ms c0) as [E1 E2 E3 E4], (record_hist (placed o s m) ms c0) as [E5 E6]. cbv zeta.
  rewrite E1, E2, E3, E4, E5, E6. done.
Qed.

(** ** The invariant *)
Section Inv.
Context {G : Type} `{SinkLaws G}.
Implicit Types (c : cache) (g : G) (o : string).

(** Sequences are 64-bit, and positive where they are buffered. *)
Record seqs_ok (c : cache) : Prop := {
  sq_u64 : forall r m, c_mstore c !! r = Some m -> 0 <= m_Sequence m < 2 ^ 64;
  sq_positive : forall o s r, buffered (c_reorder c) o s = Some r -> 0 < s;
  sq_through : forall o t, c_receivedThrough c !! o = Some t -> 0 <= t < 2 ^ 64;
}.

Lemma seqs_sub c c' : agree mview (c_mstore c) (c_mstore c') ->
  (forall o s r, buffered (c_reorder c') o s = Some r -> is_Some (buffered (c_reorder c) o s)) ->
  (forall o t, c_receivedThrough c' !! o = Some t -> 0 <= t < 2 ^ 64 \/ c_receivedThrough c !! o = Some t) -> seqs_ok c -> seqs_ok c'.
Proof.
  intros Ha Hb Ht [S1 S2 S3]. split.
  - intros r m' Hm'. destruct (agree_lookup _ _ _ _ _ (symmetry Ha) Hm') as (m & Hm & E). assert (m_Sequence m' = m_Sequence m) as -> by congruence. by eapply S1.
  - intros o s r Hr. destruct (Hb _ _ _ Hr) as [x Hx]. by eapply S2.
  - intros o t Hot. destruct (Ht _ _ Hot); [done|by eapply S3].
Qed.

(** The messages of the store are small, the cache and the groups are consistent. *)
Record bok (n : Z) (c : cache) (g : G) : Prop := {
  bo_cache : cacheOK c;
  bo_sink : sk_ok n g;
  bo_small : forall r m, c_mstore c !! r = Some m -> sk_small m;
  bo_max : c_maxBytes c < 2 ^ 60;
  bo_gaps : c_reorderBytes c <= Z.quot (c_maxBytes c) 4;
  bo_seqs : seqs_ok c;
}.

Lemma small_view st st' : agree sview st st' -> (forall r m, st !! r = Some m -> sk_small m) -> forall r m, st' !! r = Some m -> sk_small m.
Proof.
  intros Ha Hs r m' Hm'. destruct (agree_lookup _ _ _ _ _ (symmetry Ha) Hm') as (m & Hm & E).
  eapply sk_small_view; [|by eapply Hs]. congruence.
Qed.

Lemma mview_sview st st' : agree mview st st' -> agree sview st st'.
Proof.
  intros Ha. exact (agree_weaken mview (fun p => (p.1.1.1.1.1.1.1.1.1, p.1.1.1.1.1.1.1.1.2, p.1.1.1.1.1.1.1.2, p.2)) st st' Ha).
Qed.

Lemma bok_cache n c c' g : bok n c g -> cacheOK c' -> agree sview (c_mstore c) (c_mstore c') -> c_maxBytes c' = c_maxBytes c ->
  c_reorderBytes c' <= Z.quot (c_maxBytes c) 4 -> seqs_ok c' -> bok n c' g.
Proof. intros [B1 B2 B3 B4 B5 B6] K Ha E1 E2. split; rewrite ?E1; try done. by eapply small_view. Qed.

(** A step that keeps the metadata. *)
Lemma bok_meta n c c' g : bok n c g -> cacheOK c' -> agree mview (c_mstore c) (c_mstore c') -> meta c' = meta c -> bok n c' g.
Proof.
  intros B K Ha Em. unfold meta in Em. eapply bok_cache; [done|done|by apply mview_sview|congruence| |].
  - assert (c_reorderBytes c' = c_reorderBytes c) as -> by congruence. apply B.
  - eapply seqs_sub; [exact Ha| | |apply B].
    + assert (c_reorder c' = c_reorder c) as -> by congruence. eauto.
    + assert (c_receivedThrough c' = c_receivedThrough c) as -> by congruence. eauto.
Qed.

Lemma bok_sink n n' c g g' : bok n c g -> sk_ok n' g' -> bok n' c g'.
Proof. by intros [B1 B2 B3 B4 B5 B6]. Qed.

Lemma wp_inCache {A} (m : GoM cache A) c g o (Q : A -> broker G -> Prop) :
  wp m c (fun a c' => Q a (mkBroker c' g o)) -> wp (inCache m) (mkBroker c g o) Q.
Proof. intros Hm. by apply wp_zoom. Qed.

Lemma wp_inSink {A} (m : GoM G A) c g o (Q : A -> broker G -> Prop) :
  wp m g (fun a g' => Q a (mkBroker c g' o)) -> wp (inSink m) (mkBroker c g o) Q.
Proof. intros Hm. by apply wp_zoom. Qed.

Lemma wp_duplicate n c g o (Q : unit -> broker G -> Prop) : bok n c g -> (forall g', bok n c g' -> sk_duplicate g = Some (tt, g') -> Q tt (mkBroker c g' o)) ->
  wp (inSink sk_duplicate) (mkBroker c g o) Q.
Proof.
  intros B HQ. apply wp_inSink. destruct (wp_elim _ _ _ (sk_duplicate_ok n g (bo_sink _ _ _ B))) as ([] & g' & E & Hg).
  eapply wp_intro; [exact E|]. apply HQ; [by eapply bok_sink|done].
Qed.

Lemma wp_dropped n c g o (Q : unit -> broker G -> Prop) : bok n c g -> (forall g', bok n c g' -> Q tt (mkBroker c g' o)) ->
  wp (inSink sk_dropped) (mkBroker c g o) Q.
Proof. intros B HQ. apply wp_inSink. eapply wp_mono; [by apply (sk_dropped_ok n), B|]. intros [] g' Hg. apply HQ. by eapply bok_sink. Qed.

Lemma wp_deliverNew n c g o r m now (Q : unit -> broker G -> Prop) : 1 <= n -> bok n c g -> c_mstore c !! r = Some m ->
  (forall g', bok (n - 1) c g' -> Q tt (mkBroker c g' o)) -> wp (deliverNew r now) (mkBroker c g o) Q.
Proof.
  intros Hn B Hm HQ. unfold deliverNew. wp_step. apply wp_inCache. eapply wp_cderef; [exact Hm|]. apply wp_inSink.
  eapply wp_mono; [apply (sk_deliver_ok n); [done|apply B|by eapply bo_small]|]. intros [] g' Hg. apply HQ. by eapply bok_sink.
Qed.

Lemma wp_prepare n c g o ms t (Q : bool -> broker G -> Prop) : bok n c g -> (forall m, m ∈ ms -> sk_small m) -> llen ms <= n ->
  (forall ok g', bok n c g' -> (ok = false -> g' = g) -> Q ok (mkBroker c g' o)) ->
  wp (inSink (sk_prepare (Some <$> ms) t)) (mkBroker c g o) Q.
Proof.
  intros B Hs Hn HQ. apply wp_inSink. eapply wp_mono; [apply (sk_prepare_ok n); [apply B|by apply Forall_forall|done]|].
  intros ok g' [Hg E]. apply HQ; [by eapply bok_sink|done].
Qed.

(** ** Sequences *)
Lemma wp_assignSequence n c g bo r m ms (Q : bool -> broker G -> Prop) : 1 <= n -> bok n c g -> c_mstore c !! r = Some m -> owned c r ->
  (c_topicSequences c !! m_Topic m = None -> mlen (c_topicSequences c) < c_frontierLimit c) ->
  (forall g' o s e, bok (n - 1) (assignTo r m ms o s e c) g' -> nextSequence bo c (m_Topic m) o s -> Q true (mkBroker (assignTo r m ms o s e c) g' bo)) ->
  wp (assignSequence r ms) (mkBroker c g bo) Q.
Proof.
  intros Hn B Hm Ho Hroom HQ. unfold assignSequence. wp_step. apply wp_inCache. eapply wp_cderef; [exact Hm|].
  wp_step. apply wp_inCache, wp_get. wp_step.
  assert (Hend : forall c0 g0 st, c_mstore c0 = c_mstore c -> c_topicSequences c0 !! m_Topic m = Some st ->
    c0 = c <| c_topicSequences := c_topicSequences c0 |> -> (forall x, <[m_Topic m := x]> (c_topicSequences c0) = <[m_Topic m := x]> (c_topicSequences c)) ->
    sk_ok (n - 1) g0 -> nextSequence bo c (m_Topic m) (ts_origin st) (u64 (ts_next st + 1)) ->
    wp (c1 <- inCache gget ;; state <- glift (c_topicSequences c1 !! m_Topic m) ;;
      let state := mkTopicSequence (ts_origin state) (u64 (ts_next state + 1)) (Z.max (ts_expiresAt state) (m_ExpiresAt m)) in
      inCache (gmodify (fun c => c <| c_topicSequences := <[m_Topic m := state]> (c_topicSequences c) |>)) ;;;
      inCache (cupdate r (fun m => (m <| m_Origin := ts_origin state |>) <| m_Sequence := ts_next state |>)) ;;;
      m <- inCache (cderef r) ;; inCache (gmodify (recordReceivedLocked m ms)) ;;; gret true) (mkBroker c0 g0 bo) Q).
  { intros c0 g0 st Es Est Ec Ei Hg Hnext. wp_step. apply wp_inCache, wp_get. wp_step. eapply wp_lift; [exact Est|]. cbv zeta.
    wp_step. apply wp_inCache, wp_modify. wp_step. apply wp_inCache. eapply wp_cupdate; [cbn; by rewrite Es|].
    wp_step. apply wp_inCache. eapply wp_cderef; [cbn; apply lookup_insert_eq|]. wp_step. apply wp_inCache, wp_modify. apply wp_ret.
    set (s := u64 (ts_next st + 1)) in *. set (e := Z.max (ts_expiresAt st) (m_ExpiresAt m)).
    specialize (HQ g0 (ts_origin st) s e).
    assert (E : assignTo r m ms (ts_origin st) s e c = recordReceivedLocked (placed (ts_origin st) s m) ms
      ((c0 <| c_topicSequences := <[m_Topic m := mkTopicSequence (ts_origin st) s e]> (c_topicSequences c0) |>) <| c_mstore := <[r := placed (ts_origin st) s m]> (c_mstore c0) |>)).
    { unfold assignTo. f_equal. rewrite Ei. rewrite Ec. cbn. done. }
    rewrite E in HQ. apply HQ; [|exact Hnext]. rewrite <- E. destruct B as [B1 B2 B3 B4 B5 [B6 B7 B8]].
    assert (Hs64 : 0 <= s < 2 ^ 64) by (unfold s; apply u64_range).
    destruct (assignTo_fields c r m ms (ts_origin st) s e) as (Esm & Ecore & Ero & Erb & Eth & _). unfold core in Ecore.
    assert (Emax : c_maxBytes (assignTo r m ms (ts_origin st) s e c) = c_maxBytes c) by congruence.
    split; rewrite ?Emax, ?Erb; [by apply assignTo_ok|done| |done..|].
    - rewrite Esm. intros x mx [[<- <-]|[_ Hx]]%lookup_insert_Some; [|by eapply B3]. eapply sk_small_view; [|by eapply B3]. done.
    - split; rewrite ?Esm, ?Ero, ?Eth; [|done|].
      + intros x mx [[<- <-]|[_ Hx]]%lookup_insert_Some; [exact Hs64|by eapply B6].
      + intros o t [[<- <-]|[_ Hx]]%lookup_insert_Some; [|by eapply B8]. pose proof (B8 (ts_origin st)) as Hold.
        destruct (c_receivedThrough c !! ts_origin st) as [t0|]; cbn; [specialize (Hold t0 eq_refl)|]; lia. }
  destruct (c_topicSequences c !! m_Topic m) as [st|] eqn:Est.
  - apply wp_ret. cbn [negb]. eapply (Hend c g st); try done; [by destruct c|eapply sk_weaken; [|apply B]; lia|].
    unfold nextSequence. by rewrite Est.
  - rewrite bool_decide_false by (specialize (Hroom eq_refl); lia).
    wp_step. apply wp_inSink. eapply wp_mono; [apply (sk_next_ok n); [done|apply B]|]. intros k g' Hg'. wp_step. apply wp_get. wp_step.
    apply wp_inCache, wp_modify. apply wp_ret. cbn [negb]. eapply Hend.
    + done.
    + cbn. apply lookup_insert_eq.
    + done.
    + intros x. cbn. apply insert_insert_eq.
    + done.
    + unfold nextSequence. rewrite Est. cbn. split; [by eexists|done].
Qed.

(** ** The sweep *)
Lemma swept_fields now c c1 : cacheOK c -> swept now c c1 ->
  c_maxBytes c1 = c_maxBytes c /\ c_reorderBytes c1 <= c_reorderBytes c /\ (forall r, owned c r -> owned c1 r) /\
  (forall o s r, buffered (c_reorder c1) o s = Some r -> buffered (c_reorder c) o s = Some r).
Proof.
  intros K [S1 S2 S3 S4 S5]. unfold limits in S4.
  assert (Hb : forall o s r, buffered (c_reorder c1) o s = Some r -> buffered (c_reorder c) o s = Some r).
  { intros o s r. destruct (decide _).
    - intros Hx. by apply (fg_buffered _ _ _ S5) in Hx as [? _].
    - destruct S5 as [S5 _]. unfold meta in S5. assert (c_reorder c1 = c_reorder c) as -> by congruence. done. }
  split_and!; [congruence| | |done].
  { destruct (decide _); [exact (fg_bytes _ _ _ S5)|]. destruct S5 as [S5 _]. unfold meta in S5.
    assert (c_reorderBytes c1 = c_reorderBytes c) as -> by congruence. done. }
  intros r [O1 O2]. split.
  - intros id Hid. apply S1 in Hid as [Hid _]. by apply (O1 id).
  - intros o s Hs. by apply (O2 o s), Hb.
Qed.

Lemma wp_sweep n c g bo ms tnow (Q : unit -> broker G -> Prop) : bok n c g ->
  (forall c1, bok n c1 g -> swept ms c c1 -> Q tt (mkBroker c1 g bo)) -> wp (inCache (expireLocked ms tnow)) (mkBroker c g bo) Q.
Proof.
  intros B HQ. apply wp_inCache. apply wp_expireLocked; [apply B|]. intros c1 K1 S1. apply HQ; [|done].
  destruct (swept_fields _ _ _ (bo_cache _ _ _ B) S1) as (E1 & E2 & _). pose proof (bo_gaps _ _ _ B).
  eapply bok_cache; [done|done|apply mview_sview, S1|done|lia|]. eapply seqs_sub; [apply S1| | |apply B].
  - intros o s r Hr. exists r. by destruct (swept_fields _ _ _ (bo_cache _ _ _ B) S1) as (_ & _ & _ & Hb); apply Hb.
  - intros o t Ht. right. pose proof (sw_meta _ _ _ S1) as M. destruct (decide _).
    + by apply (fg_through _ _ _ M) in Ht as [? _].
    + destruct M as [M _]. unfold meta in M. by assert (c_receivedThrough c1 = c_receivedThrough c) as <- by congruence.
Qed.

(** The size of a message that is about to enter. *)
Lemma wp_sizeB n c g bo r m (Q : Z -> broker G -> Prop) : bok n c g -> c_mstore c !! r = Some m ->
  (forall c1 m1, bok n c1 g -> quiet c c1 -> c_order c1 = c_order c -> c_mstore c1 !! r = Some m1 -> mview m1 = mview m -> Q (sizeOf m) (mkBroker c1 g bo)) ->
  wp (inCache (messageSize r)) (mkBroker c g bo) Q.
Proof.
  intros B Hm HQ. apply wp_inCache. eapply wp_size; [apply B|exact Hm|]. intros c1 K1 Hq Eo _.
  destruct (agree_lookup _ _ _ _ _ (qt_view _ _ Hq) Hm) as (m1 & Hm1 & E1). apply (HQ c1 m1); [|done..]. eapply bok_meta; [done|done|apply Hq|apply Hq].
Qed.

Lemma quiet_owned c c1 r : quiet c c1 -> owned c r -> owned c1 r.
Proof.
  intros [Q1 _ Q3 _] [O1 O2]. unfold meta in Q3. split; [by rewrite Q1|]. assert (c_reorder c1 = c_reorder c) as -> by congruence. done.
Qed.
End Inv.
