(* ===== verification/AcceptLocal.v ===== *)
(** * Accepting this broker's publications

    [acceptLocked], [acceptIdempotent] and [acceptBatchLocked] keep the invariant, assign a sequence
    exactly to what they cache, and never evict. *)
From S2P Require Import Prelude GoHeap Dll Types Pending Cache CacheIndex CacheExpiry CacheInv CacheExpire CacheSpec Accept AcceptInv.
#[local] Open Scope Z_scope.

(** ** One message *)

(** The origin and sequence that a message ends up with, and what is remembered of them. *)
Definition sequenced (bo : string) (r : loc) (m : Message) (c c' : cache) : Prop :=
  if decide (m_Origin m = "") then
    exists o s e m', nextSequence bo c (m_Topic m) o s /\ c_mstore c' !! r = Some m' /\ m_Origin m' = o /\ m_Sequence m' = s /\
      c_topicSequences c' = <[m_Topic m := mkTopicSequence o s e]> (c_topicSequences c) /\
      c_receivedThrough c' = <[o := Z.max (default 0 (c_receivedThrough c !! o)) s]> (c_receivedThrough c)
  else c_topicSequences c' = c_topicSequences c /\ c_receivedThrough c' = c_receivedThrough c /\
    exists m', c_mstore c' !! r = Some m' /\ mview m' = mview m.

(** What [acceptLocked] may answer about the message [m] when the cache, after the sweep, is [c] and the groups are [g]. A
    refusal leaves both as they are; a duplicate is counted. *)
Definition acceptOutcome {G} `{Sink G} (bo : string) (r : loc) (m : Message) (c : cache) (g : G) (res : bool * option error) (c' : cache) (g' : G) : Prop :=
  match res with
  | (true, None) => c_items c !! m_ID m = None /\ c_items c' = <[m_ID m := r]> (c_items c) /\
      c_bytes c' = c_bytes c + sizeOf m /\ c_reorderBytes c' = c_reorderBytes c /\ c_bytes c' + c_reorderBytes c' <= c_maxBytes c /\
      sequenced bo r m c c'
  | (false, None) => is_Some (c_items c !! m_ID m) /\ quiet c c' /\ sk_duplicate g = Some (tt, g')
  | (false, Some e) => quiet c c' /\ g' = g /\ (e = errRetentionCapacity \/
      (e = errCacheCapacity /\ c_maxBytes c < sizeOf m) \/
      (e = errTopicSequence /\ c_topicSequences c !! m_Topic m = None /\ c_frontierLimit c <= mlen (c_topicSequences c)))
  | (true, Some _) => False
  end.

Section Local.
Context {G : Type} `{SinkLaws G}.

Lemma outcome_quiet bo r m c c1 m1 (g : G) res c' g' : quiet c c1 -> mview m1 = mview m -> acceptOutcome bo r m1 c1 g res c' g' -> acceptOutcome bo r m c g res c' g'.
Proof.
  intros Q E. pose proof Q as [Q1 Q2 Q3 Q4 _]. unfold meta in Q3.
  assert (Et : c_topicSequences c1 = c_topicSequences c) by congruence. assert (Er : c_receivedThrough c1 = c_receivedThrough c) by congruence.
  assert (Ef : c_frontierLimit c1 = c_frontierLimit c) by congruence. assert (Em : c_maxBytes c1 = c_maxBytes c) by congruence.
  assert (Eb : c_reorderBytes c1 = c_reorderBytes c) by congruence.
  assert (Ei : m_ID m1 = m_ID m) by congruence. assert (Eo : m_Origin m1 = m_Origin m) by congruence. assert (Etp : m_Topic m1 = m_Topic m) by congruence.
  assert (Es : sizeOf m1 = sizeOf m) by congruence. destruct res as [[] [e|]]; cbn; rewrite ?Ei, ?Q1, ?Q4, ?Em, ?Eb, ?Es, ?Etp, ?Et, ?Ef; [done| | |].
  - intros (H1 & H2 & H3 & H4 & H5 & H6). split_and!; try done. unfold sequenced, nextSequence in *. rewrite Eo, Etp, Et, Er in H6.
    destruct (decide _); [done|]. destruct H6 as (A1 & A2 & m' & A3 & A4). split_and!; [done..|]. exists m'. split; [done|congruence].
  - intros (Hq & ? & He). split; [by eapply quiet_trans|done].
  - intros (? & Hq & ?). split; [done|]. split; [by eapply quiet_trans|done].
Qed.

(** The insertion at the end, and the delivery. *)
Lemma wp_finish n c g bo r m now (Q : bool * option error -> broker G -> Prop) : 1 <= n -> bok n c g -> c_mstore c !! r = Some m ->
  c_items c !! m_ID m = None -> c_bytes c + sizeOf m <= c_maxBytes c ->
  (forall c' g', bok (n - 1) c' g' -> fitted r m c c' -> Q (true, None) (mkBroker c' g' bo)) ->
  wp (res <- inCache (insertLocked r (unixMilli now)) ;;
      match res with
      | (true, None) => deliverNew r now ;;; gret (true, None)
      | (false, None) => inSink sk_duplicate ;;; gret (false, None)
      | (inserted, Some e) => gret (inserted, Some e)
      end) (mkBroker c g bo) Q.
Proof.
  intros Hn B Hm Hid Hfit HQ. wp_step. apply wp_inCache. eapply wp_insert_fit; [apply B|exact Hm|exact Hfit| |rewrite Hid; by intros [? ?]].
  intros c1 K1 F1. destruct (agree_lookup _ _ _ _ _ (ft_view _ _ _ _ F1) Hm) as (m1 & Hm1 & E1).
  assert (B1 : bok n c1 g) by (eapply bok_meta; [done|done|apply F1|apply F1]).
  wp_step. eapply wp_deliverNew; [done|done|exact Hm1|]. intros g' B'. apply wp_ret. by apply HQ.
Qed.

Lemma wp_acceptLocked n c g bo r m now (Q : bool * option error -> broker G -> Prop) : 2 <= n -> bok n c g -> c_mstore c !! r = Some m ->
  (m_Origin m = "" -> owned c r) ->
  (forall res c1 c' g' m1, swept (unixMilli now) c c1 -> c_mstore c1 !! r = Some m1 -> mview m1 = mview m -> bok (n - 2) c' g' ->
     acceptOutcome bo r m1 c1 g res c' g' -> Q res (mkBroker c' g' bo)) ->
  wp (acceptLocked r now) (mkBroker c g bo) Q.
Proof.
  intros Hn B Hm Ho HQ. unfold acceptLocked. cbv zeta. wp_step. apply (wp_sweep n); [done|]. intros c1 B1 S1.
  destruct (agree_lookup _ _ _ _ _ (sw_view _ _ _ S1) Hm) as (m1 & Hm1 & E1). destruct (swept_fields _ _ _ (bo_cache _ _ _ B) S1) as (_ & _ & Hown & _).
  assert (Ho1 : m_Origin m1 = "" -> owned c1 r) by (intros Eo; apply Hown, Ho; congruence). clear Hown Ho.
  wp_step. apply wp_inCache. eapply wp_cderef; [exact Hm1|]. wp_step. eapply wp_sizeB; [exact B1|exact Hm1|]. intros c2 m2 B2 Q12 _ Hm2 E2.
  assert (HQ2 : forall res c' g', bok (n - 2) c' g' -> acceptOutcome bo r m2 c2 g res c' g' -> Q res (mkBroker c' g' bo)).
  { intros res c' g' B' Hout. eapply HQ; [exact S1|exact Hm1|done|exact B'|]. by eapply outcome_quiet. }
  assert (Ho2 : m_Origin m2 = "" -> owned c2 r) by (intros Eo; eapply quiet_owned; [done|]; apply Ho1; congruence).
  assert (Ecap : originCapacityLocked [m1] = originCapacityLocked [m2]).
  { unfold originCapacityLocked, originFor. cbn. replace (m_Origin m1) with (m_Origin m2) by congruence. by replace (m_Topic m1) with (m_Topic m2) by congruence. }
  rewrite Ecap. replace (sizeOf m1) with (sizeOf m2) by congruence. replace (m_ID m1) with (m_ID m2) by congruence.
  replace (m_Origin m1) with (m_Origin m2) by congruence. replace (m_Topic m1) with (m_Topic m2) by congruence.
  clear HQ. clear Q12 E2 Ecap Ho1. pose proof (sizeOf_pos m2) as Hpos.
  pose proof (bo_cache _ _ _ B2) as [[L2 I2] R2]. pose proof (cb_bytes_nonneg _ _ _ (cinv_base _ _ _ I2)) as Hnn. pose proof (ci_room _ _ _ I2) as Hroom.
  pose proof (bo_max _ _ _ B2) as Hmax. pose proof (bo_gaps _ _ _ B2) as Hgaps. pose proof (bufferedBytes_nonneg (c_mstore c2) (c_reorder c2)) as Hrb.
  rewrite <- (ri_bytes _ R2) in Hrb. assert (Hq4 : Z.quot (c_maxBytes c2) 4 <= c_maxBytes c2) by (apply Z.quot_le_upper_bound; lia).
  change (2 ^ 60) with 1152921504606846976 in *.
  assert (Hweak : forall k c' g', bok k c' g' -> n - 2 <= k -> bok (n - 2) c' g') by (intros k c' g' B' Hk; eapply bok_sink; [exact B'|eapply sk_weaken; [exact Hk|apply B']]).
  wp_step. apply wp_inCache, wp_get.
  destruct (bool_decide_reflect (c_maxBytes c2 < sizeOf m2)) as [Hbig|Hsmall].
  { apply wp_ret. apply HQ2; [apply (Hweak n); [done|lia]|]. cbn. split; [done|]. split; [done|]. right. by left. }
  destruct (bool_decide_reflect (is_Some (c_items c2 !! m_ID m2))) as [Hdup|Hnew].
  { wp_step. eapply wp_duplicate; [exact B2|]. intros g' B' Edup. apply wp_ret. apply HQ2; [apply (Hweak n); [done|lia]|]. by split. }
  assert (Hid : c_items c2 !! m_ID m2 = None) by (destruct (c_items c2 !! m_ID m2); [by destruct Hnew|done]). clear Hnew.
  wp_step. eapply wp_sizeB; [exact B2|exact Hm2|]. intros c3 m3 B3 Q23 _ Hm3 E3.
  assert (Ei1 : i64 (c_bytes c2 + c_reorderBytes c2) = c_bytes c2 + c_reorderBytes c2) by (apply i64_id; unfold in_i64; lia).
  assert (Ei2 : i64 (c_bytes c2 + c_reorderBytes c2 + sizeOf m2) = c_bytes c2 + c_reorderBytes c2 + sizeOf m2) by (apply i64_id; unfold in_i64; lia).
  rewrite Ei1, Ei2. assert (HQ3 : forall e, (e = errRetentionCapacity \/ (e = errTopicSequence /\ c_topicSequences c2 !! m_Topic m2 = None /\
    c_frontierLimit c2 <= mlen (c_topicSequences c2))) -> bok n c3 g -> Q (false, Some e) (mkBroker c3 g bo)).
  { intros e He B'. apply HQ2; [apply (Hweak n); [done|lia]|]. cbn. split; [done|]. split; [done|]. destruct He; [by left|by right; right]. }
  destruct (bool_decide_reflect (c_maxBytes c2 < c_bytes c2 + c_reorderBytes c2 + sizeOf m2)) as [Hfull|Hfit].
  { apply wp_ret, HQ3; [by left|done]. }
  destruct (bool_decide (m_Origin m2 = "") && bool_decide (c_topicSequences c2 !! m_Topic m2 = None) && bool_decide (c_frontierLimit c2 <= mlen (c_topicSequences c2))) eqn:Ets.
  { apply wp_ret, HQ3; [|done]. right. rewrite !andb_true_iff, !bool_decide_eq_true in Ets. tauto. }
  destruct (originCapacityLocked [m2] c2); cbn [negb]; [|by apply wp_ret, HQ3; [by left|]].
  wp_step. apply wp_inCache. eapply wp_cderef; [exact Hm3|]. wp_step.
  eapply (wp_prepare n _ _ _ [m3]); [exact B3|intros x ->%list_elem_of_singleton; by eapply bo_small|change (llen [m3]) with 1; lia|].
  intros ok g3 B3' Hok. destruct ok; cbn [negb]; [|rewrite (Hok eq_refl); by apply wp_ret, HQ3; [by left|]].
  pose proof Q23 as [I23 _ M23 Y23 _]. unfold meta in M23. assert (Emax : c_maxBytes c3 = c_maxBytes c2) by congruence.
  assert (Erb : c_reorderBytes c3 = c_reorderBytes c2) by congruence. assert (Ett : c_topicSequences c3 = c_topicSequences c2) by congruence.
  assert (Ert : c_receivedThrough c3 = c_receivedThrough c2) by congruence. assert (Efl : c_frontierLimit c3 = c_frontierLimit c2) by congruence.
  assert (Ei3 : m_ID m3 = m_ID m2) by congruence. assert (Es3 : sizeOf m3 = sizeOf m2) by congruence. assert (Et3 : m_Topic m3 = m_Topic m2) by congruence.
  clear HQ3. wp_step. replace (m_Origin m3) with (m_Origin m2) by congruence. destruct (bool_decide_reflect (m_Origin m2 = "")) as [Hlocal|Hremote].
  - assert (Ho3 : owned c3 r) by (eapply quiet_owned; [exact Q23|by apply Ho2]).
    eapply (wp_assignSequence n c3 g3 bo r m3); [lia|exact B3'|exact Hm3|exact Ho3| |].
    { rewrite Ett, Et3, Efl. intros Hn0. cbn [andb] in Ets. rewrite bool_decide_true in Ets by done. cbn in Ets. apply bool_decide_eq_false in Ets. lia. }
    intros g4 o s e B4 Hnext. cbn [negb]. destruct (assignTo_fields c3 r m3 (unixMilli now) o s e) as (F1 & F2 & F3 & F4 & F5 & F6).
    unfold core in F2. set (c4 := assignTo r m3 (unixMilli now) o s e c3) in *.
    assert (Hm4 : c_mstore c4 !! r = Some (placed o s m3)) by (rewrite F1; apply lookup_insert_eq).
    assert (Eb4 : c_bytes c4 = c_bytes c2) by congruence. assert (Em4 : c_maxBytes c4 = c_maxBytes c2) by congruence. assert (Eit4 : c_items c4 = c_items c2) by congruence.
    eapply (wp_finish (n - 1) c4 g4 bo r _); [lia|exact B4|exact Hm4|cbn; rewrite Eit4, Ei3; exact Hid|change (sizeOf (placed o s m3)) with (sizeOf m3); lia|].
    intros c5 g5 B5 [T1 _ T3 T4 T5]. apply HQ2; [by replace (n - 2) with (n - 1 - 1) by lia|]. unfold meta in T5.
    assert (Erb5 : c_reorderBytes c5 = c_reorderBytes c2) by congruence. change (sizeOf (placed o s m3)) with (sizeOf m3) in T3. change (m_ID (placed o s m3)) with (m_ID m3) in T1.
    destruct (agree_lookup _ _ _ _ _ T4 Hm4) as (m5 & Hm5 & E5). cbn. split; [done|]. split; [by rewrite T1, Eit4, Ei3|]. split; [lia|]. split; [done|]. split; [lia|].
    unfold sequenced. rewrite decide_True by done. exists o, s, e, m5. unfold nextSequence in *. rewrite Et3, Ett in Hnext. split; [done|]. split; [done|].
    change (m_Origin (placed o s m3)) with o in E5. change (m_Sequence (placed o s m3)) with s in E5.
    split; [by injection E5|]. split; [by injection E5|]. split; congruence.
  - apply wp_ret. cbn [negb]. eapply (wp_finish n c3 g3 bo r m3); [lia|exact B3'|exact Hm3|by rewrite I23, Ei3|lia|].
    intros c5 g5 B5 [T1 _ T3 T4 T5]. apply HQ2; [apply (Hweak (n - 1)); [done|lia]|]. unfold meta in T5.
    assert (Erb5 : c_reorderBytes c5 = c_reorderBytes c2) by congruence.
    destruct (agree_lookup _ _ _ _ _ T4 Hm3) as (m5 & Hm5 & E5). cbn. split; [done|]. split; [by rewrite T1, I23, Ei3|]. split; [lia|]. split; [done|]. split; [lia|].
    unfold sequenced. rewrite decide_False by done. split; [congruence|]. split; [congruence|]. exists m5. split; [done|congruence].
Qed.
End Local.
