(* ===== verification/AcceptGaps.v ===== *)
(** * Buffered messages

    [drainContiguousLocked] promotes the buffered successors of a receive frontier: what it does to
    the buffers, the frontiers and the memory, and that it terminates. *)
From S2P Require Import Prelude GoHeap Dll Types Pending Cache CacheIndex CacheExpiry CacheInv CacheExpire CacheSpec Accept AcceptInv.
#[local] Open Scope Z_scope.

(** The receive frontier of an origin. *)
Definition through (c : cache) (o : string) : Z := default 0 (c_receivedThrough c !! o).

(** What is cached and what is buffered, in bytes. *)
Definition total (c : cache) : Z := c_bytes c + c_reorderBytes c.

Section Gaps.
Context {G : Type} `{SinkLaws G}.

Lemma through_range n c (g : G) o : bok n c g -> 0 <= through c o < 2 ^ 64.
Proof.
  intros B. unfold through. pose proof (sq_through _ (bo_seqs _ _ _ B) o) as Hr. destruct (c_receivedThrough c !! o) as [t|]; cbn; [by apply Hr|lia].
Qed.

Lemma bytes_nonneg n c (g : G) : bok n c g -> 0 <= c_bytes c /\ 0 <= c_reorderBytes c.
Proof.
  intros [[[L I] R] _ _ _ _ _]. split; [by eapply cb_bytes_nonneg, cinv_base|]. rewrite (ri_bytes _ R). apply bufferedBytes_nonneg.
Qed.

Lemma buffered_msg n c (g : G) o s r : bok n c g -> buffered (c_reorder c) o s = Some r ->
  exists m, c_mstore c !! r = Some m /\ m_Origin m = o /\ m_Sequence m = s /\ 0 < s < 2 ^ 64.
Proof.
  intros B Hr. destruct (ri_live _ (proj2 (bo_cache _ _ _ B)) _ _ _ Hr) as (m & Hm & Eo & Es). exists m. split_and!; [done..| |].
  - by apply (sq_positive _ (bo_seqs _ _ _ B) _ _ _ Hr).
  - pose proof (sq_u64 _ (bo_seqs _ _ _ B) _ _ Hm). lia.
Qed.

(** ** One message leaves its buffer *)
Record unbuffered1 (o : string) (s : Z) (r : loc) (c c' : cache) : Prop := {
  u1_view : agree mview (c_mstore c) (c_mstore c');
  u1_core : core c' = core c;
  u1_hist : hist c' = hist c;
  u1_reorder : c_reorder c' = alter (delete s) o (c_reorder c);
  u1_bytes : c_reorderBytes c' = c_reorderBytes c - sizeAt (c_mstore c) r;
}.

Lemma alter_lookup {V} (f : V -> V) (m : gmap string V) o x : alter f o m !! x = if decide (x = o) then f <$> m !! x else m !! x.
Proof. destruct (decide (x = o)) as [->|Hne]; [by rewrite lookup_alter_eq|by rewrite lookup_alter_ne]. Qed.

(** [x] is the message itself or a copy of the same size. *)
Lemma wp_unbufferCopy n c (g : G) o s r x m (Q : unit -> cache -> Prop) : bok n c g -> buffered (c_reorder c) o s = Some r ->
  c_mstore c !! x = Some m -> sizeAt (c_mstore c) r = sizeOf m ->
  (forall c', bok n c' g -> unbuffered1 o s r c c' -> Q tt c') -> wp (unbufferLocked o s x) c Q.
Proof.
  intros B Hr Hm Hsz HQ. unfold unbufferLocked. wp_step. apply wp_modify. wp_step.
  eapply wp_messageSize; [exact Hm|]. apply wp_modify. pose proof (memo_agree _ _ _ Hm) as Ha.
  pose proof (rinv_unbuffer _ _ _ _ (proj2 (bo_cache _ _ _ B)) Hr) as [R1 E1]. unfold unbuffer in R1, E1. cbn in E1. rewrite Hsz in R1, E1.
  match goal with |- Q tt ?x => set (c' := x) end.
  assert (Eb : c_reorderBytes c' = c_reorderBytes c - sizeOf m) by exact E1.
  assert (U : unbuffered1 o s r c c').
  { split; try done; [by apply viewM_view|]. by rewrite Hsz. }
  apply HQ; [|exact U]. pose proof B as [[[L I] R] _ _ _ B5 B6]. pose proof (sizeOf_pos m). eapply bok_cache; [exact B| |by apply mview_sview, viewM_view|done|rewrite Eb; lia|].
  - split.
    + exists L. eapply cinv_mframe; [|exact I]. by split.
    + eapply (rinv_view (unbuffer o s (sizeOf m) c)); [by apply viewM_view|done|done|exact R1].
  - eapply seqs_sub; [by apply viewM_view| |by eauto|exact B6]. intros o' s' r'. cbn. rewrite buffered_delete. case_decide; [done|]. eauto.
Qed.

Lemma wp_unbufferLocked n c (g : G) o s r (Q : unit -> cache -> Prop) : bok n c g -> buffered (c_reorder c) o s = Some r ->
  (forall c', bok n c' g -> unbuffered1 o s r c c' -> Q tt c') -> wp (unbufferLocked o s r) c Q.
Proof.
  intros B Hr HQ. destruct (buffered_msg _ _ _ _ _ _ B Hr) as (m & Hm & _). eapply wp_unbufferCopy; [exact B|exact Hr|exact Hm|by apply sizeAt_sizeOf|exact HQ].
Qed.

(** ... and goes back. *)
Lemma wp_rebuffer n c (g : G) o s r m gaps ro (Q : unit -> cache -> Prop) : bok n c g -> c_reorder c !! o = Some gaps \/ c_reorder c !! o = None /\ gaps = ∅ -> gaps !! s = None ->
  c_mstore c !! r = Some m -> m_Origin m = o -> m_Sequence m = s -> 0 < s -> c_reorderBytes c + sizeOf m <= Z.quot (c_maxBytes c) 4 ->
  (forall c', bok n c' g -> agree mview (c_mstore c) (c_mstore c') -> core c' = core c -> hist c' = hist c ->
     c_reorder c' = ro -> c_reorderBytes c' = c_reorderBytes c + sizeOf m -> Q tt c') ->
  ro = <[o := <[s := r]> gaps]> (c_reorder c) ->
  wp (sz <- messageSize r ;; gmodify (fun c => c <| c_reorderBytes := i64 (c_reorderBytes c + sz) |>)) (c <| c_reorder := ro |>) Q.
Proof.
  intros B Hg Hs Hm Eo Es Hpos Hfit HQ ->. wp_step. eapply wp_messageSize; [exact Hm|]. apply wp_modify.
  pose proof (memo_agree _ _ _ Hm) as Ha. pose proof (viewM_view _ _ Ha) as Hv. pose proof B as [[[L I] R] _ _ B4 B5 B6]. pose proof R as [R1 R2 R3].
  pose proof (bufferedBytes_nonneg (c_mstore c) (c_reorder c)) as Hnn. rewrite <- R2 in Hnn. pose proof (sizeOf_pos m) as Hsz. pose proof (ci_room _ _ _ I). pose proof (cb_bytes_nonneg _ _ _ (cinv_base _ _ _ I)).
  assert (Hq4 : Z.quot (c_maxBytes c) 4 <= c_maxBytes c) by (apply Z.quot_le_upper_bound; lia).
  assert (Ei : i64 (c_reorderBytes c + sizeOf m) = c_reorderBytes c + sizeOf m) by (apply i64_id; unfold in_i64; change (2 ^ 60) with 1152921504606846976 in *; lia).
  match goal with |- Q tt ?x => set (c' := x) end.
  assert (Eb : c_reorderBytes c' = c_reorderBytes c + sizeOf m) by exact Ei.
  assert (Hbuf : forall o' s', buffered (c_reorder c') o' s' = if decide (o' = o /\ s' = s) then Some r else buffered (c_reorder c) o' s').
  { intros o' s'. unfold buffered, c'. cbn. destruct (decide (o' = o)) as [->|Hne].
    - rewrite lookup_insert_eq. cbn. destruct (decide (s' = s)) as [->|Hns].
      + by rewrite lookup_insert_eq, decide_True.
      + rewrite lookup_insert_ne by congruence. rewrite decide_False by tauto. destruct Hg as [->|[-> ->]]; cbn; [done|by rewrite lookup_empty].
    - rewrite lookup_insert_ne by congruence. rewrite decide_False by tauto. done. }
  apply HQ; [|done..|exact Eb]. eapply bok_cache; [exact B| |by apply mview_sview|done|rewrite Eb; lia|].
  - split.
    + exists L. eapply cinv_mframe; [|exact I]. by split.
    + split.
      * intros o' s' x. rewrite Hbuf. case_decide as Hd.
        -- intros [= <-]. destruct Hd as [-> ->]. exists (memo m). change (c_mstore c') with (<[r := memo m]> (c_mstore c)). rewrite lookup_insert_eq.
           pose proof (memo_mview m) as Em. split_and!; [done|congruence|congruence].
        -- intros Hx. destruct (R1 _ _ _ Hx) as (mx & Hmx & E1 & E2). destruct (agree_lookup _ _ _ _ _ Hv Hmx) as (mx' & Hmx' & E). exists mx'. split_and!; [done|congruence|congruence].
      * rewrite Eb, R2. change (c_mstore c') with (<[r := memo m]> (c_mstore c)). rewrite (bufferedBytes_view _ _ _ Hv). unfold c', bufferedBytes. cbn.
        assert (Hgap : gapBytes (c_mstore c) (<[s := r]> gaps) = sizeOf m + gapBytes (c_mstore c) gaps).
        { unfold gapBytes. rewrite msum_insert by done. by rewrite (sizeAt_sizeOf _ _ _ Hm). }
        destruct Hg as [Hg|[Hg ->]].
        -- rewrite (msum_update _ _ _ _ _ Hg), Hgap. lia.
        -- rewrite msum_insert by done. rewrite Hgap. assert (gapBytes (c_mstore c) ∅ = 0) by apply msum_empty. lia.
      * rewrite Eb. change (2 ^ 62) with 4611686018427387904. change (2 ^ 60) with 1152921504606846976 in *. lia.
  - destruct B6 as [Q1 Q2 Q3]. split; [|intros o' s' x; rewrite Hbuf; case_decide as Hd; [intros _; by destruct Hd as [_ ->]|by apply Q2]|done].
    intros x mx' Hx. destruct (agree_lookup _ _ _ _ _ (symmetry Hv) Hx) as (mx & Hmx & E). assert (m_Sequence mx' = m_Sequence mx) as -> by congruence. by eapply Q1.
Qed.

(** ** An emptied buffer is closed *)
Lemma wp_closeGap n c (g : G) o topic (Q : unit -> cache -> Prop) : bok n c g -> default ∅ (c_reorder c !! o) = ∅ ->
  (forall c', bok n c' g -> c_mstore c' = c_mstore c -> core c' = core c -> hist c' = hist c -> c_reorderBytes c' = c_reorderBytes c ->
     (forall o' s, buffered (c_reorder c') o' s = buffered (c_reorder c) o' s) ->
     (forall o', default ∅ (c_reorder c' !! o') = default ∅ (c_reorder c !! o')) -> Q tt c') ->
  wp (closeGap o topic) c Q.
Proof.
  intros B He HQ. unfold closeGap. wp_step. apply wp_modify. apply wp_modify. destruct (dropGap_ok o (Some topic) c (proj2 (bo_cache _ _ _ B)) He) as (R1 & F1 & Hh1 & Eb1 & Hb1).
  unfold dropGap in *. cbv zeta in *. set (c0 := (c <| c_reorder := _ |>) <| c_reorderSince := _ |>) in *.
  destruct (clear_kept topic ("gap:" +:+ o) c0) as [[K1 K2 K3 K4] K5]. set (c1 := clearUnsafeLocked topic ("gap:" +:+ o) c0) in *.
  destruct B as [[[L I] R] B2 B3 B4 B5 B6]. pose proof (mf_core _ _ F1) as Ec. unfold core in Ec.
  apply HQ; try done.
  - assert (Em : c_maxBytes c1 = c_maxBytes c) by congruence. split; rewrite ?Em, ?Eb1, ?K1; try done.
    + split; [exists L; by eapply cinv_mframe|done].
    + apply (seqs_sub c); [by rewrite K1| | |exact B6].
      * intros o' s' r. rewrite Hb1. eauto.
      * unfold hist in Hh1. assert (c_receivedThrough c1 = c_receivedThrough c) as -> by congruence. eauto.
  - intros o'. rewrite K3. cbn. destruct (decide (o' = o)) as [->|Hne]; [by rewrite lookup_delete_eq, He|by rewrite lookup_delete_ne].
Qed.

(** ** Progress of the frontiers *)

(** The frontiers move over sequences that were buffered or given, one by one; a buffered message stays
    buffered or is behind its frontier. *)
Record progress (given : loc -> Prop) (c c' : cache) : Prop := {
  pr_max : c_maxBytes c' = c_maxBytes c;
  pr_view : agree mview (c_mstore c) (c_mstore c');
  pr_through : forall o, through c o <= through c' o;
  pr_steps : forall o s, through c o < s <= through c' o -> exists r m, c_mstore c !! r = Some m /\ m_Origin m = o /\ m_Sequence m = s /\
    (buffered (c_reorder c) o s = Some r \/ given r);
  pr_buffered : forall o s r, buffered (c_reorder c') o s = Some r -> buffered (c_reorder c) o s = Some r \/ given r;
}.

(** Nothing that was buffered is lost. *)
Definition retained (c c' : cache) : Prop :=
  forall o s, is_Some (buffered (c_reorder c) o s) -> is_Some (buffered (c_reorder c') o s) \/ s <= through c' o.

Lemma progress_refl given c : progress given c c.
Proof. split; try done; [intros; lia|by left]. Qed.

Lemma progress_trans given c1 c2 c3 : progress given c1 c2 -> progress given c2 c3 -> progress given c1 c3.
Proof.
  intros [A1 A2 A3 A4 A5] [B1 B2 B3 B4 B5]. split; [congruence|by etransitivity| | |].
  - intros o. specialize (A3 o). specialize (B3 o). lia.
  - intros o s Hs. destruct (decide (s <= through c2 o)) as [Hle|Hgt]; [apply A4; lia|].
    destruct (B4 o s) as (r & m & Hm & Eo & Es & Hr); [lia|]. destruct (agree_lookup _ _ _ _ _ (symmetry A2) Hm) as (m' & Hm' & E).
    exists r, m'. split_and!; [done|congruence|congruence|]. destruct Hr as [Hr|]; [by apply A5|by right].
  - intros o s r Hr. destruct (B5 _ _ _ Hr) as [Hr2|]; [by apply A5|by right].
Qed.

Lemma retained_trans given c1 c2 c3 : progress given c2 c3 -> retained c1 c2 -> retained c2 c3 -> retained c1 c3.
Proof.
  intros P A B o s Hs. destruct (A _ _ Hs) as [H2|H2]; [by apply B|]. right. pose proof (pr_through _ _ _ P o). lia.
Qed.

(** Within the memory limit nothing is evicted. *)
Definition frugal (c c' : cache) : Prop := total c <= c_maxBytes c -> total c' <= c_maxBytes c /\ c_items c ⊆ c_items c'.

Lemma frugal_trans given c1 c2 c3 : progress given c1 c2 -> frugal c1 c2 -> frugal c2 c3 -> frugal c1 c3.
Proof.
  intros P A B Ht. destruct (A Ht) as [T2 I2]. unfold frugal in B. rewrite (pr_max _ _ _ P) in B. destruct (B T2) as [T3 I3]. split; [done|by etransitivity].
Qed.

(** ** One message moves over the frontier *)
Record taken (o : string) (s : Z) (c c' : cache) : Prop := {
  tk_max : c_maxBytes c' = c_maxBytes c;
  tk_view : agree mview (c_mstore c) (c_mstore c');
  tk_through : forall o', through c' o' = if decide (o' = o) then s else through c o';
  tk_gaps : forall o', default ∅ (c_reorder c' !! o') = if decide (o' = o) then delete s (default ∅ (c_reorder c !! o)) else default ∅ (c_reorder c !! o');
}.

Lemma buffered_gaps ro o s : buffered ro o s = default ∅ (ro !! o) !! s.
Proof. unfold buffered. by destruct (ro !! o). Qed.

Lemma taken_buffered o s c c' o' s' : taken o s c c' ->
  buffered (c_reorder c') o' s' = if decide (o' = o /\ s' = s) then None else buffered (c_reorder c) o' s'.
Proof.
  intros T. rewrite !buffered_gaps, (tk_gaps _ _ _ _ T). destruct (decide (o' = o)) as [->|Hne]; [|by rewrite decide_False by tauto].
  destruct (decide (s' = s)) as [->|Hns]; [by rewrite lookup_delete_eq, decide_True|]. rewrite lookup_delete_ne by done. by rewrite decide_False by tauto.
Qed.

Lemma taken_progress given o s r m c c' : taken o s c c' -> s = through c o + 1 -> c_mstore c !! r = Some m -> m_Origin m = o -> m_Sequence m = s ->
  buffered (c_reorder c) o s = Some r \/ given r -> progress given c c' /\ retained c c'.
Proof.
  intros T Es Hm Eo Eq Hr. pose proof T as [T1 T2 T3 T4]. split; [split; try done|].
  - intros o'. rewrite T3. case_decide; [subst o'|]; lia.
  - intros o' s'. rewrite T3. case_decide as Hd; [|lia]. intros Hs. assert (s' = s) as -> by (subst o'; lia). subst o'. by exists r, m.
  - intros o' s' x. rewrite (taken_buffered _ _ _ _ _ _ T). case_decide; [done|by left].
  - intros o' s' Hs. rewrite (taken_buffered _ _ _ _ _ _ T), T3. destruct (decide (o' = o /\ s' = s)) as [[-> ->]|Hne]; [|by left].
    right. by rewrite decide_True.
Qed.

(** Recording a message at the frontier. *)
Lemma record_taken n c (g : G) m ms : bok n c g -> (exists r, c_mstore c !! r = Some m) -> m_Sequence m = through c (m_Origin m) + 1 ->
  let c' := recordReceivedLocked m ms c in bok n c' g /\ kept c c' /\
    forall o', through c' o' = if decide (o' = m_Origin m) then m_Sequence m else through c o'.
Proof.
  intros B [r Hm] Es c'. pose proof (record_kept m ms c) as K. pose proof (record_hist m ms c) as [Et _]. pose proof K as [K1 K2 K3 K4]. fold c' in K, K1, K2, K3, K4, Et.
  pose proof (sq_u64 _ (bo_seqs _ _ _ B) _ _ Hm) as Hu. split_and!; [|done|].
  - unfold core in K2. pose proof (bo_gaps _ _ _ B). eapply bok_cache; [exact B|by eapply kept_ok; [|apply B]|by rewrite K1|congruence|lia|].
    eapply (seqs_sub c); [by rewrite K1|rewrite K3; eauto| |apply B]. intros o' t. rewrite Et.
    intros [[_ <-]|[_ Ht]]%lookup_insert_Some; [left|by right]. fold (through c (m_Origin m)). pose proof (through_range _ _ _ (m_Origin m) B). lia.
  - intros o'. unfold through at 1. rewrite Et. destruct (decide (o' = m_Origin m)) as [->|Hne]; [|by rewrite lookup_insert_ne].
    rewrite lookup_insert_eq. cbn. fold (through c (m_Origin m)). lia.
Qed.

Lemma wp_promote n c (g : G) bo o r m now (Q : option error -> broker G -> Prop) : 1 <= n -> bok n c g -> buffered (c_reorder c) o (m_Sequence m) = Some r ->
  c_mstore c !! r = Some m -> m_Sequence m = through c o + 1 ->
  (forall e c' g', bok n c' g' -> progress (fun _ => False) c c' -> retained c c' -> frugal c c' -> (total c <= c_maxBytes c -> e = errRetentionCapacity) ->
     Q (Some e) (mkBroker c' g' bo)) ->
  (forall c' g', bok (n - 1) c' g' -> taken o (m_Sequence m) c c' -> frugal c c' -> Q None (mkBroker c' g' bo)) ->
  wp (promote o r m now) (mkBroker c g bo) Q.
Proof.
  intros Hn B Hr Hm Es HQe HQ. destruct (buffered_msg _ _ _ _ _ _ B Hr) as (m0 & Hm0 & Eo & _ & Hpos). assert (m0 = m) as -> by congruence. clear Hm0.
  unfold promote. cbv zeta. wp_step. eapply (wp_prepare n _ _ _ [m]); [done|intros x ->%list_elem_of_singleton; by eapply bo_small|change (llen [m]) with 1; lia|].
  intros ok g1 B1 _. destruct ok; cbn [negb].
  2: { apply wp_ret. apply HQe; [done|apply progress_refl|by left|by split|done]. }
  pose proof (sizeAt_buffered _ _ _ _ (proj2 (bo_cache _ _ _ B)) Hr) as Hsz. rewrite (sizeAt_sizeOf _ _ _ Hm) in Hsz.
  wp_step. apply wp_inCache. eapply wp_unbufferLocked; [exact B1|exact Hr|]. intros c1 B2 [V1 C1 H1 Ro1 Rb1]. rewrite (sizeAt_sizeOf _ _ _ Hm) in Rb1.
  destruct (agree_lookup _ _ _ _ _ V1 Hm) as (m1 & Hm1 & E1). unfold core in C1.
  assert (Emax1 : c_maxBytes c1 = c_maxBytes c) by congruence. assert (Eit1 : c_items c1 = c_items c) by congruence. assert (Eby1 : c_bytes c1 = c_bytes c) by congruence.
  assert (Esz1 : sizeOf m1 = sizeOf m) by congruence. assert (Eid1 : m_ID m1 = m_ID m) by congruence.
  assert (Hg1 : forall o', default ∅ (c_reorder c1 !! o') = if decide (o' = o) then delete (m_Sequence m) (default ∅ (c_reorder c !! o)) else default ∅ (c_reorder c !! o')).
  { intros o'. rewrite Ro1, alter_lookup. case_decide as Hd; [|done]. subst o'. by destruct (c_reorder c !! o). }
  assert (Hth1 : forall o', through c1 o' = through c o').
  { intros o'. unfold through. unfold hist in H1. by assert (c_receivedThrough c1 = c_receivedThrough c) as -> by congruence. }
  wp_step. apply wp_inCache. eapply wp_insert; [apply B2|exact Hm1|]. intros res c2 K2 Hres.
  destruct (insertResult_frame _ _ _ _ _ Hres) as [V2 M2]. assert (B3 : bok n c2 g1) by by eapply bok_meta. unfold meta in M2.
  assert (Emax2 : c_maxBytes c2 = c_maxBytes c) by congruence. assert (Ero2 : c_reorder c2 = c_reorder c1) by congruence. assert (Erb2 : c_reorderBytes c2 = c_reorderBytes c1) by congruence.
  assert (Hth2 : forall o', through c2 o' = through c o').
  { intros o'. rewrite <- Hth1. unfold through. by assert (c_receivedThrough c2 = c_receivedThrough c1) as -> by congruence. }
  assert (Hfru : forall c3, c_bytes c3 = c_bytes c2 -> c_reorderBytes c3 = c_reorderBytes c2 -> c_items c3 = c_items c2 -> res.2 = None -> frugal c c3).
  { intros c3 E3b E3r E3i Hres2 Ht. unfold total in *. rewrite E3b, E3r, E3i. destruct res as [[] [e|]]; cbn in Hres, Hres2; try done.
    - destruct Hres as (Hnew & _ & [(its & _ & Ei & Heq) _ _ _ Hex _]). rewrite Emax1, Eby1, Esz1, Eit1 in *. rewrite Ei, Heq by lia.
      split; [rewrite Hex by lia; lia|]. apply insert_subseteq. congruence.
    - destruct Hres as [_ ->]. rewrite Eit1. split; [lia|done]. }
  destruct res as [ins [e|]].
  - destruct (agree_lookup _ _ _ _ _ V2 Hm1) as (m2 & Hm2 & E2).
    assert (Hq : quiet c1 c2 /\ (total c <= c_maxBytes c -> False)).
    { destruct ins; cbn in Hres; [done|]. destruct Hres as (_ & Hq & He). split; [done|]. unfold total. rewrite Emax1, Eby1, Esz1 in He. intros Ht.
      destruct (bytes_nonneg _ _ _ B). destruct He as [[_ He]|[_ He]]; lia. }
    destruct Hq as [Q12 Hno]. assert (Hg2 : default ∅ (c_reorder c2 !! o) = delete (m_Sequence m) (default ∅ (c_reorder c !! o))) by (rewrite Ero2, Hg1; by rewrite decide_True).
    assert (Hsome : exists gaps, c_reorder c2 !! o = Some gaps).
    { unfold buffered in Hr. rewrite Ero2, Ro1, alter_lookup, decide_True by done. destruct (c_reorder c !! o); [eauto|done]. }
    destruct Hsome as [gaps Hgaps]. rewrite Hgaps in Hg2. cbn in Hg2.
    wp_step. apply wp_inCache. wp_step. apply wp_modify. eapply (wp_rebuffer n c2 g1 o (m_Sequence m) r m2 gaps).
    + done.
    + by left.
    + rewrite Hg2. apply lookup_delete_eq.
    + done.
    + congruence.
    + congruence.
    + lia.
    + rewrite Emax2, Erb2, Rb1. assert (sizeOf m2 = sizeOf m) as -> by congruence. pose proof (bo_gaps _ _ _ B). lia.
    + intros c3 B4 V3 C3 H3 Ro3 Rb3. apply wp_ret. unfold core in C3. unfold hist in H3.
      assert (Hb3 : forall o' s', buffered (c_reorder c3) o' s' = buffered (c_reorder c) o' s').
      { intros o' s'. rewrite !buffered_gaps, Ro3, alter_lookup. destruct (decide (o' = o)) as [->|Hd]; [|by rewrite Ero2, Hg1, decide_False]. rewrite Hgaps. cbn. rewrite Hg2.
        rewrite buffered_gaps in Hr. destruct (decide (s' = m_Sequence m)) as [->|Hne]; [by rewrite lookup_insert_eq|]. by rewrite lookup_insert_ne, lookup_delete_ne. }
      assert (Hth3 : forall o', through c3 o' = through c o').
      { intros o'. rewrite <- Hth2. unfold through. by assert (c_receivedThrough c3 = c_receivedThrough c2) as -> by congruence. }
      apply HQe; [done| | | |by intros ?%Hno].
      * split; [congruence|by do 2 (etransitivity; [eassumption|])|intros; rewrite Hth3; lia|intros o' s'; rewrite Hth3; lia|intros o' s' x; rewrite Hb3; by left].
      * intros o' s' Hs. left. by rewrite Hb3.
      * intros Ht. by destruct (Hno Ht).
    + apply map_eq. intros o'. rewrite alter_lookup. case_decide as Hd; [subst o'; by rewrite Hgaps, lookup_insert_eq|by rewrite lookup_insert_ne].
  - destruct (agree_lookup _ _ _ _ _ V2 Hm1) as (m2 & Hm2 & E2). wp_step. apply wp_inCache. apply wp_modify.
    assert (Erec : recordReceivedLocked m (unixMilli now) c2 = recordReceivedLocked m2 (unixMilli now) c2).
    { unfold recordReceivedLocked. replace (m_Origin m2) with (m_Origin m) by congruence. replace (m_Sequence m2) with (m_Sequence m) by congruence.
      by replace (m_ExpiresAt m2) with (m_ExpiresAt m) by congruence. }
    destruct (record_taken n c2 g1 m2 (unixMilli now) B3) as (B4 & K4 & T4); [eauto| |].
    { assert (m_Origin m2 = o) as -> by congruence. rewrite Hth2. congruence. }
    rewrite <- Erec in B4, K4, T4. set (c3 := recordReceivedLocked m (unixMilli now) c2) in *. destruct K4 as [S4 C4 R4 Rb4]. unfold core in C4.
    assert (Hend : taken o (m_Sequence m) c c3).
    { split; [congruence| | |].
      - rewrite S4. by etransitivity.
      - intros o'. rewrite T4. assert (m_Origin m2 = o) as -> by congruence. assert (m_Sequence m2 = m_Sequence m) as -> by congruence. case_decide; [done|]. apply Hth2.
      - intros o'. by rewrite R4, Ero2, Hg1. }
    assert (Hf3 : frugal c c3) by (apply Hfru; [congruence|congruence|congruence|done]).
    wp_step. destruct ins.
    + eapply (wp_deliverNew n); [done|exact B4|rewrite S4; exact Hm2|]. intros g2 B5. apply wp_ret. by apply HQ.
    + eapply (wp_duplicate n); [exact B4|]. intros g2 B5 _. apply wp_ret. apply HQ; [|done..]. eapply bok_sink; [exact B5|]. eapply sk_weaken; [|apply B5]. lia.
Qed.

Lemma wp_consumeExpired n c (g : G) o r m (Q : unit -> cache -> Prop) : bok n c g -> buffered (c_reorder c) o (m_Sequence m) = Some r ->
  c_mstore c !! r = Some m -> m_Sequence m = through c o + 1 ->
  (forall c', bok n c' g -> taken o (m_Sequence m) c c' -> frugal c c' -> Q tt c') -> wp (consumeExpired o r m) c Q.
Proof.
  intros B Hr Hm Es HQ. destruct (buffered_msg _ _ _ _ _ _ B Hr) as (m0 & Hm0 & Eo & _ & Hpos). assert (m0 = m) as -> by congruence. clear Hm0.
  unfold consumeExpired. wp_step. eapply wp_unbufferLocked; [exact B|exact Hr|]. intros c1 B1 [V1 C1 H1 Ro1 Rb1]. apply wp_modify.
  set (c2 := (c1 <| c_receivedThrough := _ |>) <| c_receivedUntil := _ |>). unfold core in C1. unfold hist in H1.
  assert (Et1 : c_receivedThrough c1 = c_receivedThrough c) by congruence.
  assert (K : kept c1 c2) by by split. pose proof (sizeAt_nonneg (c_mstore c) r). apply HQ.
  - pose proof (bo_gaps _ _ _ B1). eapply bok_cache; [exact B1|by eapply kept_ok; [|apply B1]|done|done|done|].
    apply (seqs_sub c1); [done|by eauto| |apply B1]. intros o' t. cbn. intros [[_ <-]|[_ Ht]]%lookup_insert_Some; [left; lia|by right].
  - split.
    + cbn. congruence.
    + exact V1.
    + intros o'. unfold through. cbn. destruct (decide (o' = o)) as [->|Hne]; [by rewrite lookup_insert_eq|by rewrite lookup_insert_ne, Et1].
    + intros o'. cbn. rewrite Ro1, alter_lookup. case_decide as Hd; [|done]. subst o'. by destruct (c_reorder c !! o).
  - intros Ht. unfold total in *. change (c_bytes c2) with (c_bytes c1). change (c_reorderBytes c2) with (c_reorderBytes c1). change (c_items c2) with (c_items c1).
    assert (c_bytes c1 = c_bytes c) as -> by congruence. assert (c_items c1 = c_items c) as -> by congruence. split; [lia|done].
Qed.

(** ** Draining *)
Lemma bok_weaken n n' c (g : G) : n' <= n -> bok n c g -> bok n' c g.
Proof. intros Hn B. eapply bok_sink; [exact B|]. eapply sk_weaken; [exact Hn|apply B]. Qed.

Lemma taken_size o s c c' r : taken o s c c' -> buffered (c_reorder c) o s = Some r ->
  size (default ∅ (c_reorder c !! o)) = S (size (default ∅ (c_reorder c' !! o))).
Proof.
  intros T Hr. rewrite (tk_gaps _ _ _ _ T), decide_True by done. rewrite buffered_gaps in Hr. rewrite <- (insert_delete_id _ _ _ Hr) at 1.
  by rewrite map_size_insert_None by apply lookup_delete_eq.
Qed.

(** What a drain may answer. *)
Record drained (o : string) (c c' : cache) (err : option error) : Prop := {
  dr_progress : progress (fun _ => False) c c';
  dr_retained : retained c c';
  dr_frugal : frugal c c';
  dr_error : total c <= c_maxBytes c -> err = None \/ err = Some errRetentionCapacity;
  dr_empty : err = None -> buffered (c_reorder c') o (u64 (through c' o + 1)) = None;
}.

Lemma wp_drain fuel n c (g : G) bo o now (Q : option error -> broker G -> Prop) : bok n c g ->
  (size (default ∅ (c_reorder c !! o)) < fuel)%nat -> Z.of_nat (size (default ∅ (c_reorder c !! o))) <= n ->
  (forall err c' g', bok (n - Z.of_nat (size (default ∅ (c_reorder c !! o)))) c' g' -> drained o c c' err -> Q err (mkBroker c' g' bo)) ->
  wp (drainContiguousLocked fuel o now) (mkBroker c g bo) Q.
Proof.
  revert n c g Q. induction fuel as [|fuel IH]; intros n c g Q B Hf Hn HQ; [lia|]. cbn [drainContiguousLocked]. wp_step. apply wp_inCache, wp_get.
  fold (through c o). wp_step. apply wp_inCache. unfold bufferedAt. wp_step. apply wp_get. apply wp_ret.
  change (c_reorder c !! o ≫= (.!! u64 (through c o + 1))) with (buffered (c_reorder c) o (u64 (through c o + 1))).
  assert (Hstop : forall c' g', bok (n - Z.of_nat (size (default ∅ (c_reorder c !! o)))) c' g' -> progress (fun _ => False) c c' -> retained c c' -> frugal c c' ->
    buffered (c_reorder c') o (u64 (through c' o + 1)) = None -> Q None (mkBroker c' g' bo)).
  { intros c' g' B' P Rt F E. apply HQ; [done|]. split; try done. by left. }
  destruct (buffered (c_reorder c) o (u64 (through c o + 1))) as [r|] eqn:Hr.
  2: { apply wp_ret. apply Hstop; [eapply bok_weaken; [|done]; lia|apply progress_refl|by left|by split|done]. }
  destruct (buffered_msg _ _ _ _ _ _ B Hr) as (m & Hm & Eo & Eq & Hpos). pose proof (through_range _ _ _ o B) as Ht.
  assert (Es : u64 (through c o + 1) = through c o + 1).
  { apply u64_id. unfold in_u64. destruct (decide (through c o + 1 < 2 ^ 64)) as [Hlt|Hge]; [change (2 ^ 64) with 18446744073709551616 in *; lia|].
    assert (through c o + 1 = 2 ^ 64) as E by lia. rewrite E in Hpos. with_strategy transparent [u64] (unfold u64 in Hpos). change (2 ^ 64 mod 18446744073709551616) with 0 in Hpos. lia. }
  rewrite Es in *. rewrite <- Eq in Hr.
  assert (Hsz : exists k, size (default ∅ (c_reorder c !! o)) = S k).
  { rewrite buffered_gaps in Hr. rewrite <- (insert_delete_id _ _ _ Hr), map_size_insert_None by apply lookup_delete_eq. eauto. }
  destruct Hsz as [k Hk]. rewrite Hk in *. wp_step. apply wp_inCache. eapply wp_cderef; [exact Hm|]. wp_step.
  assert (Hnext : forall c1 g1, bok (n - 1) c1 g1 -> taken o (m_Sequence m) c c1 -> frugal c c1 ->
    wp (n0 <- inCache (gapsLen o) ;; if bool_decide (n0 = 0) then inCache (closeGap o (m_Topic m)) ;;; gret None else drainContiguousLocked fuel o now) (mkBroker c1 g1 bo) Q).
  { intros c1 g1 B1 T F. pose proof (taken_size _ _ _ _ _ T Hr) as Hsz. rewrite Hk in Hsz. injection Hsz as Hsz.
    destruct (taken_progress (fun _ => False) o (m_Sequence m) r m c c1 T) as [P Rt]; [congruence|done..|by left|].
    wp_step. apply wp_inCache. unfold gapsLen. wp_step. apply wp_get. apply wp_ret. destruct (bool_decide_reflect (mlen (default ∅ (c_reorder c1 !! o)) = 0)) as [Hz|Hz].
    - assert (He : default ∅ (c_reorder c1 !! o) = ∅) by (apply map_size_empty_inv; unfold mlen in Hz; lia).
      wp_step. apply wp_inCache. eapply wp_closeGap; [exact B1|exact He|]. intros c2 B2 S2 C2 H2 Rb2 Hb2 Hg2. apply wp_ret. unfold core in C2. unfold hist in H2.
      assert (Hth : forall o', through c2 o' = through c1 o') by (intros o'; unfold through; by assert (c_receivedThrough c2 = c_receivedThrough c1) as -> by congruence).
      assert (P2 : progress (fun _ => False) c1 c2).
      { split; [congruence|by rewrite S2|intros; rewrite Hth; lia|intros o' s'; rewrite Hth; lia|intros o' s' x; rewrite Hb2; by left]. }
      assert (R2 : retained c1 c2) by (intros o' s' Hs; left; by rewrite Hb2).
      assert (F2 : frugal c1 c2). { intros Htot. unfold total in *. assert (c_bytes c2 = c_bytes c1) as -> by congruence. assert (c_items c2 = c_items c1) as -> by congruence. rewrite Rb2. by split. }
      apply Hstop.
      + eapply bok_weaken; [|exact B2]. lia.
      + by eapply progress_trans.
      + by eapply retained_trans.
      + by eapply frugal_trans.
      + rewrite Hb2, buffered_gaps, He. apply lookup_empty.
    - apply (IH (n - 1)); [done|lia|lia|]. intros err c2 g2 B2 [P2 R2 F2 E2 D2]. apply HQ.
      + replace (n - Z.of_nat (S k)) with (n - 1 - Z.of_nat (size (default ∅ (c_reorder c1 !! o)))) by lia. done.
      + split; [by eapply progress_trans|by eapply retained_trans|by eapply frugal_trans| |done].
        intros Ht0. apply E2. rewrite (pr_max _ _ _ P). by apply F. }
  destruct (bool_decide_reflect (m_ExpiresAt m <= unixMilli now)) as [Hexp|Hlive].
  - wp_step. apply wp_inCache. eapply wp_consumeExpired; [exact B|exact Hr|exact Hm|congruence|]. intros c1 B1 T F. apply wp_ret. apply Hnext; [|done..].
    eapply bok_weaken; [|exact B1]. lia.
  - eapply (wp_promote n); [lia|exact B|exact Hr|exact Hm|congruence| |].
    + intros e c1 g1 B1 P Rt F He. apply wp_ret. apply HQ; [eapply bok_weaken; [|exact B1]; lia|]. split; try done. intros Htot. right. by rewrite He.
    + intros c1 g1 B1 T F. by apply Hnext.
Qed.
End Gaps.
