(* ===== verification/AcceptBatch.v ===== *)
(** * Accepting a batch

    [acceptBatchLocked] for this broker's publications: admission before any sequence is assigned, then
    every message of the batch is cached and delivered, and the buffers are drained. *)
From S2P Require Import Prelude GoHeap Dll Types Pending Cache CacheIndex CacheExpiry CacheInv CacheExpire CacheSpec Accept AcceptInv.
From S2P Require Import AcceptGaps.
#[local] Open Scope Z_scope.

(** ** Messages of a batch *)

(** The bytes of those messages whose ID is not cached. *)
Definition newBytes (c : cache) (rs : list loc) : Z :=
  zsum ((fun r => match c_mstore c !! r with Some m => if bool_decide (c_items c !! m_ID m = None) then sizeOf m else 0 | None => 0 end) <$> rs).

Lemma newBytes_bounds c rs : 0 <= newBytes c rs <= sizesOf (c_mstore c) rs.
Proof.
  unfold newBytes, sizesOf. induction rs as [|r rs IH]; cbn; [by split|]. rewrite !zsum_cons. unfold sizeAt at 1. destruct (c_mstore c !! r) as [m|]; [|lia].
  pose proof (sizeOf_pos m). destruct (bool_decide _); lia.
Qed.

Lemma newBytes_ext c c' rs : agree sview (c_mstore c) (c_mstore c') -> (forall id, is_Some (c_items c !! id) <-> is_Some (c_items c' !! id)) -> newBytes c' rs = newBytes c rs.
Proof.
  intros Ha Hi. unfold newBytes. f_equal. apply list_fmap_ext. intros i r _. specialize (Ha r). destruct (c_mstore c !! r) as [m|], (c_mstore c' !! r) as [m'|]; try done.
  cbn in Ha. injection Ha as E1 _ _ E4. rewrite E1, E4. specialize (Hi (m_ID m)). destruct (c_items c !! m_ID m), (c_items c' !! m_ID m); try done.
  - by destruct (proj1 Hi ltac:(by eexists)).
  - by destruct (proj2 Hi ltac:(by eexists)).
Qed.

(** ** Distinct pointers in the buffers *)
Definition gapPointers (c : cache) (origins : list string) : list loc := origins ≫= (fun o => (map_to_list (default ∅ (c_reorder c !! o))).*2).

Definition gapsOf (c : cache) (origins : list string) : Z := zsum ((fun o => Z.of_nat (size (default ∅ (c_reorder c !! o)))) <$> origins).

Lemma gapPointers_length c origins : Z.of_nat (length (gapPointers c origins)) = gapsOf c origins.
Proof.
  unfold gapPointers, gapsOf. induction origins as [|o l IH]; cbn; [done|]. rewrite length_app, zsum_cons, length_fmap, length_map_to_list, <- IH. lia.
Qed.

Section Batch.
Context {G : Type} `{SinkLaws G}.

Lemma elem_of_gapPointers c origins r : r ∈ gapPointers c origins <-> exists o s, o ∈ origins /\ buffered (c_reorder c) o s = Some r.
Proof.
  unfold gapPointers. rewrite list_elem_of_bind. split.
  - intros (o & Hr & Ho). apply list_elem_of_fmap in Hr as ([s x] & -> & Hx%elem_of_map_to_list). exists o, s. by rewrite buffered_gaps.
  - intros (o & s & Ho & Hr). exists o. split; [|done]. apply list_elem_of_fmap. exists (s, r). split; [done|]. apply elem_of_map_to_list. by rewrite buffered_gaps in Hr.
Qed.

Lemma gaps_bound n c (g : G) origins : bok n c g -> NoDup origins -> gapsOf c origins <= Z.of_nat (size (c_mstore c)).
Proof.
  intros B Hnd. rewrite <- gapPointers_length. apply inj_le, length_live.
  - induction Hnd as [|o l Ho Hnd IH]; cbn; [constructor|]. apply NoDup_app. split_and!; [| |exact IH].
    + apply NoDup_fmap_2_strong; [|apply NoDup_map_to_list]. intros [s x] [s' x'] Hx%elem_of_map_to_list Hx'%elem_of_map_to_list E. cbn in E. subst x'.
      rewrite <- buffered_gaps in Hx, Hx'. destruct (buffered_msg _ _ _ _ _ _ B Hx) as (m & Hm & _ & Es & _), (buffered_msg _ _ _ _ _ _ B Hx') as (m' & Hm' & _ & Es' & _). congruence.
    + intros r Hr Hl. change (r ∈ gapPointers c l) in Hl. apply elem_of_gapPointers in Hl as (o' & s' & Ho' & Hr').
      assert (exists s, buffered (c_reorder c) o s = Some r) as [s Hs].
      { apply list_elem_of_fmap in Hr as ([s x] & -> & Hx%elem_of_map_to_list). exists s. by rewrite buffered_gaps. }
      destruct (buffered_msg _ _ _ _ _ _ B Hs) as (m & Hm & Eo & _), (buffered_msg _ _ _ _ _ _ B Hr') as (m' & Hm' & Eo' & _). congruence.
  - intros r (o & s & _ & Hr)%elem_of_gapPointers. destruct (buffered_msg _ _ _ _ _ _ B Hr) as (m & Hm & _). by eexists.
Qed.

(** ** Draining every origin *)
Record drainedAll (c c' : cache) (err : option error) : Prop := {
  da_progress : progress (fun _ => False) c c';
  da_retained : retained c c';
  da_frugal : frugal c c';
  da_error : total c <= c_maxBytes c -> err = None;
}.

Lemma gapsOf_mono c c' origins : (forall o s r, buffered (c_reorder c') o s = Some r -> buffered (c_reorder c) o s = Some r) -> gapsOf c' origins <= gapsOf c origins.
Proof.
  intros Hsub. unfold gapsOf. induction origins as [|o l IH]; cbn; [done|]. rewrite !zsum_cons.
  assert (size (default ∅ (c_reorder c' !! o)) <= size (default ∅ (c_reorder c !! o)))%nat; [|lia]. apply map_subseteq_size, map_subseteq_spec. intros s r.
  rewrite <- !buffered_gaps. apply Hsub.
Qed.

Lemma gapsOf_nonneg c origins : 0 <= gapsOf c origins.
Proof. apply zsum_nonneg, Forall_fmap, Forall_forall. intros; cbn; lia. Qed.

Lemma wp_drainAll origins now bo : forall n c (g : G) (Q : option error -> broker G -> Prop), bok n c g -> gapsOf c origins <= n ->
  (forall err c' g', bok (n - gapsOf c origins) c' g' -> drainedAll c c' err -> Q err (mkBroker c' g' bo)) ->
  wp (drainAll origins now) (mkBroker c g bo) Q.
Proof.
  induction origins as [|o l IH]; intros n c g Q B Hn HQ; cbn [drainAll].
  { apply wp_ret. apply HQ; [eapply bok_weaken; [|exact B]; change (gapsOf c []) with 0; lia|]. split; [apply progress_refl|by left|by split|done]. }
  assert (El : gapsOf c (o :: l) = Z.of_nat (size (default ∅ (c_reorder c !! o))) + gapsOf c l) by done. rewrite El in *. pose proof (gapsOf_nonneg c l).
  wp_step. apply wp_inCache, wp_get. wp_step. eapply wp_drain; [exact B|lia|lia|]. intros err c1 g1 B1 [P1 R1 F1 E1 _].
  assert (Hmono : gapsOf c1 l <= gapsOf c l) by (apply gapsOf_mono; intros o' s r Hr; by destruct (pr_buffered _ _ _ P1 _ _ _ Hr)).
  assert (Hgo : wp (drainAll l now) (mkBroker c1 g1 bo) Q).
  { eapply IH; [exact B1|lia|]. intros err2 c2 g2 B2 [P2 R2 F2 E2]. apply HQ; [eapply bok_weaken; [|exact B2]; lia|].
    split; [by eapply progress_trans|by eapply retained_trans|by eapply frugal_trans|]. intros Ht. apply E2. rewrite (pr_max _ _ _ P1). by apply F1. }
  destruct err as [e|]; [|exact Hgo]. destruct (bool_decide_reflect (e = errRetentionCapacity)) as [->|Hne]; [exact Hgo|].
  apply wp_ret. apply HQ; [eapply bok_weaken; [|exact B1]; lia|]. split; [done..|]. intros Ht. destruct (E1 Ht) as [|[= ->]]; done.
Qed.

(** ** Admission *)
Lemma quiet_refl c : quiet c c.
Proof. by split. Qed.

Lemma quiet_live c c' (rs : list loc) : quiet c c' -> (forall r, r ∈ rs -> is_Some (c_mstore c !! r)) -> forall r, r ∈ rs -> is_Some (c_mstore c' !! r).
Proof. intros Hq Hl r Hr. destruct (Hl r Hr) as [m Hm]. destruct (agree_lookup _ _ _ _ _ (qt_view _ _ Hq) Hm) as (? & ? & _). eauto. Qed.

Lemma quiet_fields c c' : quiet c c' -> c_maxBytes c' = c_maxBytes c /\ c_topicSequences c' = c_topicSequences c /\ c_reorder c' = c_reorder c /\
  c_reorderBytes c' = c_reorderBytes c /\ c_frontierLimit c' = c_frontierLimit c /\ c_receivedThrough c' = c_receivedThrough c.
Proof. intros [_ _ M _ _]. unfold meta in M. split_and!; congruence. Qed.

Lemma sizesOf_cons st r rs m : st !! r = Some m -> sizesOf st (r :: rs) = sizeOf m + sizesOf st rs.
Proof. intros Hm. unfold sizesOf. cbn. rewrite zsum_cons. unfold sizeAt at 1. by rewrite Hm. Qed.

Lemma sizesOf_nonneg st rs : 0 <= sizesOf st rs.
Proof. apply zsum_nonneg, Forall_fmap, Forall_forall. intros; apply sizeAt_nonneg. Qed.

Lemma wp_admitSizes rs : forall tot nt c (Q : option (gset string) -> cache -> Prop), cacheOK c -> (forall r, r ∈ rs -> is_Some (c_mstore c !! r)) -> 0 <= tot <= c_maxBytes c ->
  (forall c', cacheOK c' -> quiet c c' -> Q None c') ->
  (forall nt' c', cacheOK c' -> quiet c c' -> tot + sizesOf (c_mstore c) rs <= c_maxBytes c -> nt ⊆ nt' ->
     (forall r m, r ∈ rs -> c_mstore c !! r = Some m -> m_Origin m = "" -> c_topicSequences c !! m_Topic m = None -> m_Topic m ∈ nt') -> Q (Some nt') c') ->
  wp (admitSizes rs tot nt) c Q.
Proof.
  induction rs as [|r rs IH]; intros tot nt c Q K Hl Ht HN HS; cbn [admitSizes].
  { apply wp_ret. apply HS; [done|apply quiet_refl|change (sizesOf (c_mstore c) []) with 0; lia|done|]. intros r m Hr. by apply elem_of_nil in Hr. }
  destruct (Hl r) as [m Hm]; [left|]. pose proof (sizesOf_cons _ _ rs _ Hm) as Es. pose proof (sizesOf_nonneg (c_mstore c) rs) as Hnn. pose proof (sizeOf_pos m) as Hpos.
  wp_step. eapply wp_size; [done|exact Hm|]. intros c1 K1 Hq1 _ _. destruct (quiet_fields _ _ Hq1) as (Emax & Ett & _).
  pose proof K as [[L I] _]. pose proof (ci_max _ _ _ I) as Hmax. change (2 ^ 62) with 4611686018427387904 in *.
  wp_step. apply wp_get. rewrite Emax. destruct (bool_decide_reflect (c_maxBytes c < sizeOf m)) as [Hbig|Hfit]; cbn [orb]; [by apply wp_ret, HN|].
  rewrite (i64_id (c_maxBytes c - sizeOf m)) by (unfold in_i64; lia).
  destruct (bool_decide_reflect (c_maxBytes c - sizeOf m < tot)) as [Hover|Hroom]; [by apply wp_ret, HN|].
  destruct (agree_lookup _ _ _ _ _ (qt_view _ _ Hq1) Hm) as (m1 & Hm1 & E1).
  wp_step. eapply wp_cderef; [exact Hm1|]. rewrite i64_id by (unfold in_i64; lia). apply IH; [done|by eapply quiet_live; [|intros x Hx; apply Hl; by right]|lia| |].
  - intros c2 K2 Hq2. apply HN; [done|by eapply quiet_trans].
  - intros nt' c2 K2 Hq2 Hfits Hsub Hin. rewrite (sizesOf_view _ _ _ (qt_view _ _ Hq1)), Emax in Hfits. apply HS; [done|by eapply quiet_trans|lia| |].
    + etransitivity; [|exact Hsub]. destruct (_ && _); set_solver.
    + intros x mx [->|Hx]%elem_of_cons Hmx Eo Et.
      * assert (mx = m) as -> by congruence. apply Hsub. replace (m_Origin m1) with "" by congruence. replace (m_Topic m1) with (m_Topic m) by congruence.
        rewrite Ett, !bool_decide_true by done. cbn. set_solver.
      * destruct (agree_lookup _ _ _ _ _ (qt_view _ _ Hq1) Hmx) as (mx1 & Hmx1 & Ex). replace (m_Topic mx) with (m_Topic mx1) by congruence.
        apply (Hin x); [done|done|congruence|]. rewrite Ett. congruence.
Qed.

Lemma wp_addedBytes rs : forall added c (Q : Z -> cache -> Prop), cacheOK c -> (forall r, r ∈ rs -> is_Some (c_mstore c !! r)) ->
  0 <= added -> added + sizesOf (c_mstore c) rs <= c_maxBytes c ->
  (forall c', cacheOK c' -> quiet c c' -> Q (added + newBytes c rs) c') -> wp (addedBytes rs false added) c Q.
Proof.
  induction rs as [|r rs IH]; intros added c Q K Hl Ha Hfit HQ; cbn [addedBytes].
  { apply wp_ret. specialize (HQ c K (quiet_refl c)). unfold newBytes in HQ. cbn in HQ. change (zsum []) with 0 in HQ. by rewrite Z.add_0_r in HQ. }
  destruct (Hl r) as [m Hm]; [left|]. pose proof (sizesOf_cons _ _ rs _ Hm) as Es. pose proof (sizesOf_nonneg (c_mstore c) rs) as Hnn. pose proof (sizeOf_pos m) as Hpos.
  assert (Enb : newBytes c (r :: rs) = (if bool_decide (c_items c !! m_ID m = None) then sizeOf m else 0) + newBytes c rs).
  { unfold newBytes. cbn. rewrite zsum_cons. by rewrite Hm. }
  pose proof K as [[L I] R]. pose proof (ci_max _ _ _ I) as Hmax. change (2 ^ 62) with 4611686018427387904 in *.
  wp_step. eapply wp_cderef; [exact Hm|]. wp_step. apply wp_get. rewrite Enb in HQ. destruct (bool_decide_reflect (c_items c !! m_ID m = None)) as [Hn|Hs].
  - wp_step. unfold bufferedAt. wp_step. apply wp_get. apply wp_ret. wp_step.
    assert (Hsame : forall (o : option loc) (Q' : bool -> cache -> Prop), (forall x, o = Some x -> is_Some (c_mstore c !! x)) -> (forall b, Q' b c) ->
      wp (match o with Some x => b <- cderef x ;; gret (bool_decide (m_ID b = m_ID m)) | None => gret false end) c Q').
    { intros [x|] Q' Hx HQ'; [|by apply wp_ret]. destruct (Hx x eq_refl) as [mx Hmx]. wp_step. eapply wp_cderef; [exact Hmx|]. by apply wp_ret. }
    apply Hsame. { intros x Hx. destruct (ri_live _ R _ _ _ Hx) as (mx & ? & _). eauto. }
    intros same. cbn [negb orb]. wp_step. eapply wp_size; [done|exact Hm|]. intros c1 K1 Hq1 _ _. destruct (quiet_fields _ _ Hq1) as (Emax & _).
    rewrite i64_id by (unfold in_i64; lia). apply IH; [done|by eapply quiet_live; [|intros x Hx; apply Hl; by right]|lia|rewrite (sizesOf_view _ _ _ (qt_view _ _ Hq1)), Emax; lia|].
    intros c2 K2 Hq2. rewrite (newBytes_ext c c1) by (first [by apply mview_sview, Hq1|by intros id; rewrite (qt_items _ _ Hq1)]).
    replace (added + sizeOf m + newBytes c rs) with (added + (sizeOf m + newBytes c rs)) by lia. apply HQ; [done|by eapply quiet_trans].
  - apply IH; [done|intros x Hx; apply Hl; by right|done|lia|exact HQ].
Qed.

Lemma wp_derefs rs : forall c (Q : list Message -> cache -> Prop), (forall r, r ∈ rs -> is_Some (c_mstore c !! r)) ->
  (forall ms, length ms = length rs -> (forall m, m ∈ ms -> exists r, r ∈ rs /\ c_mstore c !! r = Some m) -> Q ms c) -> wp (gmap_list cderef rs) c Q.
Proof.
  induction rs as [|r rs IH]; intros c Q Hl HQ; cbn [gmap_list]; [apply wp_ret, HQ; [done|intros m Hm; by apply elem_of_nil in Hm]|].
  destruct (Hl r) as [m Hm]; [left|]. wp_step. eapply wp_cderef; [exact Hm|]. wp_step. apply IH; [intros x Hx; apply Hl; by right|]. intros ms Elen Hms.
  apply wp_ret, HQ; [cbn; congruence|]. intros x [->|Hx]%elem_of_cons; [exists r; by split; [left|]|]. destruct (Hms x Hx) as (y & Hy & ?). exists y. by split; [right|].
Qed.

(** ** Sequences for a batch *)
Record readied (rs : list loc) (c c' : cache) : Prop := {
  rd_core : core c' = core c;
  rd_reorder : c_reorder c' = c_reorder c;
  rd_bytes : c_reorderBytes c' = c_reorderBytes c;
  rd_view : agree sview (c_mstore c) (c_mstore c');
  rd_other : forall r, r ∉ rs -> c_mstore c' !! r = c_mstore c !! r;
  rd_through : forall o, through c o <= through c' o;
  rd_recorded : forall r m, r ∈ rs -> c_mstore c !! r = Some m -> c_items c !! m_ID m = None ->
    exists m', c_mstore c' !! r = Some m' /\ m_Sequence m' <= through c' (m_Origin m');
}.

Lemma record_bok n c (g : G) m ms : bok n c g -> (exists r, c_mstore c !! r = Some m) -> bok n (recordReceivedLocked m ms c) g.
Proof.
  intros B [r Hm]. destruct (record_kept m ms c) as [K1 K2 K3 K4]. destruct (record_hist m ms c) as [Et _]. unfold core in K2.
  pose proof (sq_u64 _ (bo_seqs _ _ _ B) _ _ Hm) as Hu. pose proof (bo_gaps _ _ _ B). eapply bok_cache; [exact B|by eapply kept_ok; [apply record_kept|apply B]|by rewrite K1|congruence|lia|].
  apply (seqs_sub c); [by rewrite K1|rewrite K3; eauto| |apply B]. intros o' t. rewrite Et. intros [[_ <-]|[_ Ht]]%lookup_insert_Some; [left|by right].
  fold (through c (m_Origin m)). pose proof (through_range _ _ _ (m_Origin m) B). lia.
Qed.

(** One message's sequences are settled: the rest of the batch is as it was. *)
Lemma readied_cons r rs c c1 c2 m : NoDup (r :: rs) -> c_mstore c !! r = Some m ->
  core c1 = core c -> c_reorder c1 = c_reorder c -> c_reorderBytes c1 = c_reorderBytes c -> (exists m1, c_mstore c1 = <[r := m1]> (c_mstore c) /\ sview m1 = sview m /\
    (c_items c !! m_ID m = None -> m_Sequence m1 <= through c1 (m_Origin m1))) ->
  (forall o, through c o <= through c1 o) -> readied rs c1 c2 -> readied (r :: rs) c c2.
Proof.
  intros Hnd Hm Hc Hr Hb (m1 & Es & Ev & Hrec) Ht [A1 A2 A3 A4 A5 A6 A7]. apply NoDup_cons in Hnd as [Hn _].
  assert (Hv : agree sview (c_mstore c) (c_mstore c1)) by (rewrite Es; by eapply agree_insert).
  split; try congruence.
  - intros x Hx. rewrite A5 by set_solver. rewrite Es, lookup_insert_ne; [done|]. intros <-. apply Hx. left.
  - intros o. specialize (Ht o). specialize (A6 o). lia.
  - unfold core in Hc. assert (Ei : c_items c1 = c_items c) by congruence. intros x mx [->|Hx]%elem_of_cons Hmx Hid.
    + assert (mx = m) as -> by congruence. exists m1. rewrite A5, Es, lookup_insert_eq by done. split; [done|]. specialize (Hrec Hid). specialize (A6 (m_Origin m1)). lia.
    + apply (A7 x mx); [done| |by rewrite Ei]. rewrite Es, lookup_insert_ne; [done|]. by intros <-.
Qed.

Lemma owned_frame c c1 r : core c1 = core c -> c_reorder c1 = c_reorder c -> owned c r -> owned c1 r.
Proof. intros Hc Hr [O1 O2]. unfold core in Hc. assert (Ei : c_items c1 = c_items c) by congruence. split; [by rewrite Ei|by rewrite Hr]. Qed.

Lemma placed_bok n c (g : G) r m o s : bok n c g -> c_mstore c !! r = Some m -> owned c r -> 0 <= s < 2 ^ 64 ->
  bok n (c <| c_mstore := <[r := placed o s m]> (c_mstore c) |>) g.
Proof.
  intros B Hm Ho Hs. pose proof B as [B1 B2 B3 B4 B5 [B6 B7 B8]]. split; try done.
  - by apply placed_ok.
  - cbn. intros x mx [[<- <-]|[_ Hx]]%lookup_insert_Some; [|by eapply B3]. eapply sk_small_view; [|by eapply B3]. done.
  - split; try done. cbn. intros x mx [[<- <-]|[_ Hx]]%lookup_insert_Some; [done|by eapply B6].
Qed.

Lemma assign_through n c (g : G) r m ms o s e : bok n c g -> forall o', through c o' <= through (assignTo r m ms o s e c) o'.
Proof.
  intros B o'. destruct (assignTo_fields c r m ms o s e) as (_ & _ & _ & _ & Et & _). unfold through. rewrite Et.
  destruct (decide (o' = o)) as [->|Hne]; [rewrite lookup_insert_eq|by rewrite lookup_insert_ne]. change (default 0 (Some ?x)) with x. cbn. lia.
Qed.

Lemma wp_assignBatch rs ms bo : forall n c (g : G) nt (Q : option error -> broker G -> Prop), llen rs <= n -> bok n c g -> NoDup rs ->
  (forall r, r ∈ rs -> is_Some (c_mstore c !! r) /\ owned c r) ->
  (forall r m, r ∈ rs -> c_mstore c !! r = Some m -> m_Origin m = "" -> c_topicSequences c !! m_Topic m = None -> m_Topic m ∈ (nt : gset string)) ->
  mlen (c_topicSequences c) + Z.of_nat (size nt) <= c_frontierLimit c ->
  (forall c' g', bok (n - llen rs) c' g' -> readied rs c c' -> Q None (mkBroker c' g' bo)) ->
  wp (assignBatch rs false ms) (mkBroker c g bo) Q.
Proof.
  induction rs as [|r rs IH]; intros n c g nt Q Hn B Hnd Hl Hnt Hroom HQ; cbn [assignBatch].
  { apply wp_ret. apply HQ; [by rewrite Z.sub_0_r|]. split; try done. intros r m Hr. by apply elem_of_nil in Hr. }
  rewrite llen_cons in *. pose proof (llen_nonneg rs) as Hlen. destruct (Hl r) as [[m Hm] Ho]; [left|].
  assert (Hrs : forall x, x ∈ rs -> x <> r) by (intros x Hx ->; by apply NoDup_cons in Hnd as [? _]).
  (** what the rest of the batch needs after one message *)
  assert (Hgo : forall c1 g1 m1 (nt1 : gset string), bok (n - 1) c1 g1 -> core c1 = core c -> c_reorder c1 = c_reorder c -> c_reorderBytes c1 = c_reorderBytes c ->
    c_mstore c1 = <[r := m1]> (c_mstore c) -> sview m1 = sview m -> (c_items c !! m_ID m = None -> m_Sequence m1 <= through c1 (m_Origin m1)) ->
    (forall o, through c o <= through c1 o) ->
    (forall x mx, x ∈ rs -> c_mstore c !! x = Some mx -> m_Origin mx = "" -> c_topicSequences c1 !! m_Topic mx = None -> m_Topic mx ∈ nt1) ->
    mlen (c_topicSequences c1) + Z.of_nat (size nt1) <= c_frontierLimit c -> wp (assignBatch rs false ms) (mkBroker c1 g1 bo) Q).
  { intros c1 g1 m1 nt1 B1 C1 R1 Rb1 S1 V1 Hrec Hth Hnt1 Hroom1. eapply (IH (n - 1) c1 g1 nt1); [lia|exact B1|by apply NoDup_cons in Hnd as [_ ?]| | | |].
    - intros x Hx. destruct (Hl x) as [Hlx Hox]; [by right|]. split; [|by eapply owned_frame]. rewrite S1, lookup_insert_ne by (apply not_eq_sym; auto). done.
    - intros x mx Hx. rewrite S1, lookup_insert_ne by (apply not_eq_sym; auto). by apply Hnt1.
    - unfold core in C1. by assert (c_frontierLimit c1 = c_frontierLimit c) as -> by congruence.
    - intros c2 g2 B2 Rd. apply HQ; [by replace (n - (1 + llen rs)) with (n - 1 - llen rs) by lia|]. eapply (readied_cons r rs c c1 c2 m); eauto 10. }
  wp_step. apply wp_inCache. eapply wp_cderef; [exact Hm|]. wp_step. apply wp_ret. wp_step. apply wp_inCache, wp_get.
  destruct (c_items c !! m_ID m) as [x|] eqn:Hid.
  - pose proof (bo_cache _ _ _ B) as [[L I] _]. destruct (ci_item _ _ _ _ _ I Hid) as (mx & Hmx & _). wp_step. apply wp_inCache. eapply wp_cderef; [exact Hmx|].
    wp_step. apply wp_inCache. eapply wp_cupdate; [exact Hm|]. fold (placed (m_Origin mx) (m_Sequence mx) m).
    eapply (Hgo _ g _ nt); [|done..| | | |exact Hroom].
    + apply (bok_weaken n); [lia|]. apply placed_bok; [done..|]. by apply (sq_u64 _ (bo_seqs _ _ _ B) _ _ Hmx).
    + done.
    + done.
    + intros y my Hy. by apply Hnt; right.
  - wp_step. destruct (bool_decide_reflect (m_Origin m = "")) as [Hlocal|Hremote].
    + eapply (wp_assignSequence n c g bo r m); [lia|exact B|exact Hm|exact Ho| |].
      { intros Hts. assert (Hin : m_Topic m ∈ nt) by (apply (Hnt r m); [left|done..]). assert (0 < size nt)%nat; [|lia].
        destruct (size nt) eqn:E; [|lia]. apply size_empty_inv in E. set_solver. }
      intros g1 o s e B1 Hnext. cbn [negb]. destruct (assignTo_fields c r m ms o s e) as (F1 & F2 & F3 & F4 & F5 & F6).
      eapply (Hgo _ g1 (placed o s m) (nt ∖ {[ m_Topic m ]})); [exact B1|exact F2|exact F3|exact F4|exact F1|done| |by eapply assign_through| |].
      * intros _. change (m_Sequence (placed o s m)) with s. change (m_Origin (placed o s m)) with o. unfold through. rewrite F5, lookup_insert_eq.
        change (default 0 (Some ?x)) with x. cbn. lia.
      * intros x mx Hx Hmx Eo. rewrite F6. intros [Hts Hne]%lookup_insert_None. apply elem_of_difference. split; [apply (Hnt x); [by right|done..]|set_solver].
      * rewrite F6. destruct (c_topicSequences c !! m_Topic m) as [st|] eqn:Est.
        -- unfold mlen in *. rewrite map_size_insert_Some by eauto. assert (size (nt ∖ {[m_Topic m]}) <= size nt)%nat by (apply subseteq_size; set_solver). lia.
        -- assert (Hin : m_Topic m ∈ nt) by (apply (Hnt r m); [left|done..]). unfold mlen in *. rewrite map_size_insert_None by done.
           rewrite size_difference by set_solver. rewrite size_singleton. assert (size nt <> 0)%nat by (intros E; apply size_empty_inv in E; set_solver). lia.
    + wp_step. apply wp_inCache, wp_modify. apply wp_ret. cbn [negb]. destruct (record_kept m ms c) as [K1 K2 K3 K4]. destruct (record_hist m ms c) as [Et Ets].
      assert (Hth : forall o, through (recordReceivedLocked m ms c) o = if decide (o = m_Origin m) then Z.max (through c o) (m_Sequence m) else through c o).
      { intros o. unfold through. rewrite Et. destruct (decide (o = m_Origin m)) as [->|Hne]; [by rewrite lookup_insert_eq|by rewrite lookup_insert_ne]. }
      eapply (Hgo _ g m nt); [apply (bok_weaken n); [lia|]; apply record_bok; [done|eauto]|exact K2|exact K3|exact K4|by rewrite K1, insert_id|done| | | |].
      * intros _. rewrite Hth, decide_True by done. lia.
      * intros o. rewrite Hth. case_decide; lia.
      * intros x mx Hx Hmx Eo. rewrite Ets. apply (Hnt x); [by right|done..].
      * by rewrite Ets.
Qed.

(** ** The insertion of a batch that fits *)
Definition idsOf (st : gmap loc Message) (rs : list loc) : list string := (fun r => from_option m_ID "" (st !! r)) <$> rs.

Lemma idsOf_view st st' rs : agree sview st st' -> idsOf st' rs = idsOf st rs.
Proof.
  intros Ha. apply list_fmap_ext. intros i r _. specialize (Ha r). destruct (st !! r), (st' !! r); try done. cbn in *. unfold sview in Ha. congruence.
Qed.

Record insertedAll (rs : list loc) (c c' : cache) : Prop := {
  ia_view : agree mview (c_mstore c) (c_mstore c');
  ia_meta : meta c' = meta c;
  ia_bytes : c_bytes c' = c_bytes c + newBytes c rs;
  ia_items : c_items c ⊆ c_items c';
  ia_new : forall r m, r ∈ rs -> c_mstore c !! r = Some m -> c_items c !! m_ID m = None -> c_items c' !! m_ID m = Some r;
}.

Lemma wp_insertAll rs tnow : forall n c (g : G) (Q : list bool -> cache -> Prop), bok n c g -> (forall r, r ∈ rs -> is_Some (c_mstore c !! r)) -> NoDup (idsOf (c_mstore c) rs) ->
  c_bytes c + newBytes c rs <= c_maxBytes c ->
  (forall bs c', bok n c' g -> length bs = length rs -> insertedAll rs c c' -> Q bs c') -> wp (insertBatchLocked rs tnow) c Q.
Proof.
  unfold insertBatchLocked. induction rs as [|r rs IH]; intros n c g Q B Hl Hnd Hfit HQ; cbn [gmap_list].
  { apply wp_ret. apply HQ; [done|done|]. split; try done; [change (newBytes c []) with 0; lia|]. intros r m Hr. by apply elem_of_nil in Hr. }
  destruct (Hl r) as [m Hm]; [left|]. cbn in Hnd. rewrite Hm in Hnd. cbn in Hnd. apply NoDup_cons in Hnd as [Hid Hnd].
  assert (Enb : newBytes c (r :: rs) = (if bool_decide (c_items c !! m_ID m = None) then sizeOf m else 0) + newBytes c rs).
  { unfold newBytes. cbn. rewrite zsum_cons. by rewrite Hm. }
  pose proof (newBytes_bounds c rs) as [Hnn _]. rewrite Enb in Hfit.
  assert (Hgo : forall b c1, bok n c1 g -> agree mview (c_mstore c) (c_mstore c1) -> meta c1 = meta c ->
    c_bytes c1 = c_bytes c + (if bool_decide (c_items c !! m_ID m = None) then sizeOf m else 0) -> c_items c ⊆ c_items c1 ->
    (forall id, id <> m_ID m -> c_items c1 !! id = c_items c !! id) -> (c_items c !! m_ID m = None -> c_items c1 !! m_ID m = Some r) ->
    wp (ys <- gmap_list (fun r => res <- insertLocked r tnow ;; gret res.1) rs ;; gret (b :: ys)) c1 Q).
  { intros b c1 B1 V1 M1 Eb Hsub Hother Hnew. pose proof (mview_sview _ _ V1) as V1'.
    assert (Emax : c_maxBytes c1 = c_maxBytes c) by (unfold meta in M1; congruence).
    assert (Enb1 : newBytes c1 rs = newBytes c rs).
    { unfold newBytes. f_equal. apply list_fmap_ext. intros i x Hx. destruct (Hl x) as [mx Hmx]; [right; by eapply list_elem_of_lookup_2|].
      destruct (agree_lookup _ _ _ _ _ V1 Hmx) as (mx1 & Hmx1 & Ex). rewrite Hmx, Hmx1. assert (E1 : m_ID mx1 = m_ID mx) by congruence. assert (E2 : sizeOf mx1 = sizeOf mx) by congruence. rewrite E1, E2.
      rewrite Hother; [done|]. intros E. apply Hid. unfold idsOf. apply list_elem_of_fmap. exists x. rewrite Hmx. split; [by rewrite <- E|by eapply list_elem_of_lookup_2]. }
    wp_step. eapply (IH n c1 g); [exact B1| |by rewrite (idsOf_view _ _ _ V1')|rewrite Emax, Eb, Enb1; lia|].
    - intros x Hx. destruct (Hl x) as [mx Hmx]; [by right|]. destruct (agree_lookup _ _ _ _ _ V1 Hmx) as (? & ? & _). eauto.
    - intros bs c2 B2 El [I1 I2 I3 I4 I5]. apply wp_ret. apply HQ; [done|cbn; congruence|]. split; [by etransitivity|congruence|rewrite I3, Eb, Enb1, Enb; lia|by etransitivity|].
      intros x mx [->|Hx]%elem_of_cons Hmx Hn.
      + assert (mx = m) as -> by congruence. by eapply lookup_weaken; [apply Hnew|].
      + destruct (agree_lookup _ _ _ _ _ V1 Hmx) as (mx1 & Hmx1 & Ex). assert (E : m_ID mx1 = m_ID mx) by congruence. rewrite <- E. apply I5; [done..|]. rewrite E.
        rewrite Hother; [done|]. intros E2. apply Hid. unfold idsOf. apply list_elem_of_fmap. exists x. rewrite Hmx. by split. }
  wp_step. wp_step. pose proof (bo_cache _ _ _ B) as K.
  destruct (bool_decide_reflect (c_items c !! m_ID m = None)) as [Hn|Hs].
  - eapply wp_insert_fit; [exact K|exact Hm|lia| |rewrite Hn; by intros [? ?]]. intros c1 K1 [F1 _ F3 F4 F5]. apply wp_ret. apply Hgo.
    + by eapply bok_meta.
    + done.
    + done.
    + done.
    + rewrite F1. by apply insert_subseteq.
    + intros id Hne. rewrite F1, lookup_insert_ne; [done|congruence].
    + intros _. by rewrite F1, lookup_insert_eq.
  - eapply wp_insert; [exact K|exact Hm|]. intros res c1 K1 Hres. apply wp_ret.
    assert (Hsame : c1 = c). { destruct res as [[] [e|]]; cbn in Hres; [done|by destruct Hres as [? _]|by destruct Hres as [? _]|by destruct Hres]. }
    subst c1. apply Hgo; try done. lia.
Qed.

Lemma wp_deliverBatch rs now bo : forall n c (g : G) (Q : unit -> broker G -> Prop), bok n c g -> (forall r, r ∈ rs.*1 -> is_Some (c_mstore c !! r)) -> llen rs <= n ->
  (forall g', bok (n - llen rs) c g' -> Q tt (mkBroker c g' bo)) -> wp (deliverBatch rs now) (mkBroker c g bo) Q.
Proof.
  induction rs as [|[r b] rs IH]; intros n c g Q B Hl Hn HQ; cbn [deliverBatch].
  { apply wp_ret. apply HQ. by rewrite Z.sub_0_r. }
  rewrite llen_cons in *. pose proof (llen_nonneg rs). destruct (Hl r) as [m Hm]; [left|]. wp_step.
  assert (Hgo : forall g1, bok (n - 1) c g1 -> wp (deliverBatch rs now) (mkBroker c g1 bo) Q).
  { intros g1 B1. eapply IH; [exact B1|intros x Hx; apply Hl; by right|lia|]. intros g2 B2. apply HQ. by replace (n - (1 + llen rs)) with (n - 1 - llen rs) by lia. }
  destruct b.
  - eapply (wp_deliverNew n); [lia|exact B|exact Hm|]. exact Hgo.
  - eapply (wp_duplicate n); [exact B|]. intros g1 B1 _. apply Hgo. eapply bok_weaken; [|exact B1]. lia.
Qed.

(** ** [acceptBatch] *)

(** What a batch makes of the swept cache [c] and the groups [g]: a refusal leaves both as they are. *)
Definition batchOutcome (rs : list loc) (c : cache) (g : G) (err : option error) (c' : cache) (g' : G) : Prop :=
  match err with
  | Some _ => quiet c c' /\ g' = g
  | None => c_items c ⊆ c_items c' /\ total c' <= c_maxBytes c /\ (forall o, through c o <= through c' o) /\ retained c c' /\
      forall r m, r ∈ rs -> c_mstore c !! r = Some m -> c_items c !! m_ID m = None ->
        exists m', c_mstore c' !! r = Some m' /\ m_ID m' = m_ID m /\ c_items c' !! m_ID m = Some r /\ m_Sequence m' <= through c' (m_Origin m')
  end.

(** The pass after the admission. *)
Lemma wp_batchTail n c (g : G) bo rs nt now (Q : option error -> broker G -> Prop) : bok n c g -> 2 * llen rs + Z.of_nat (size (c_mstore c)) <= n -> NoDup rs ->
  (forall r, r ∈ rs -> is_Some (c_mstore c !! r) /\ owned c r) -> NoDup (idsOf (c_mstore c) rs) ->
  (forall r m, r ∈ rs -> c_mstore c !! r = Some m -> m_Origin m = "" -> c_topicSequences c !! m_Topic m = None -> m_Topic m ∈ (nt : gset string)) ->
  mlen (c_topicSequences c) + Z.of_nat (size nt) <= c_frontierLimit c -> total c + newBytes c rs <= c_maxBytes c ->
  (forall c' g', bok (n - 2 * llen rs - Z.of_nat (size (c_mstore c))) c' g' -> batchOutcome rs c g None c' g' -> Q None (mkBroker c' g' bo)) ->
  wp (err <- assignBatch rs false (unixMilli now) ;;
      match err with
      | Some e => gret (Some e)
      | None =>
        inserted <- inCache (insertBatchLocked rs (unixMilli now)) ;;
        deliverBatch (combine rs inserted) now ;;;
        c <- inCache gget ;;
        drainAll (map_to_list (c_reorder c)).*1 now
      end) (mkBroker c g bo) Q.
Proof.
  intros B Hn Hnd Hl Hids Hnt Hroom Hfit HQ. pose proof (llen_nonneg rs) as Hlen. wp_step. eapply (wp_assignBatch rs _ bo n c g nt); [lia|exact B|exact Hnd|exact Hl|exact Hnt|exact Hroom|].
  intros c1 g1 B1 [A1 A2 A3 A4 A5 A6 A7]. unfold core in A1. assert (Eit : c_items c1 = c_items c) by congruence. assert (Emax : c_maxBytes c1 = c_maxBytes c) by congruence.
  assert (Eby : c_bytes c1 = c_bytes c) by congruence. assert (Enb : newBytes c1 rs = newBytes c rs) by (apply newBytes_ext; [done|by rewrite Eit]).
  assert (Hl1 : forall r, r ∈ rs -> is_Some (c_mstore c1 !! r)).
  { intros r Hr. destruct (Hl r Hr) as [[m Hm] _]. destruct (agree_lookup _ _ _ _ _ A4 Hm) as (? & ? & _). eauto. }
  destruct (bytes_nonneg _ _ _ B) as [_ Hrb]. unfold total in Hfit.
  wp_step. apply wp_inCache. eapply (wp_insertAll rs _ _ c1 g1); [exact B1|exact Hl1|by rewrite (idsOf_view _ _ _ A4)|rewrite Eby, Enb, Emax; lia|].
  intros bs c2 B2 Ebs [I1 I2 I3 I4 I5]. unfold meta in I2. assert (Emax2 : c_maxBytes c2 = c_maxBytes c) by congruence.
  assert (Ero2 : c_reorder c2 = c_reorder c) by congruence. assert (Erb2 : c_reorderBytes c2 = c_reorderBytes c) by congruence.
  assert (Hth2 : forall o, through c2 o = through c1 o) by (intros o; unfold through; by assert (c_receivedThrough c2 = c_receivedThrough c1) as -> by congruence).
  assert (Elen : llen (combine rs bs) = llen rs) by (unfold llen; rewrite length_combine, Ebs; lia).
  assert (Hl2 : forall r, r ∈ (combine rs bs).*1 -> is_Some (c_mstore c2 !! r)).
  { intros r Hr. assert (Hin : r ∈ rs). { apply list_elem_of_fmap in Hr as ([x b] & -> & Hx). apply list_elem_of_In in Hx. apply list_elem_of_In. by eapply in_combine_l. }
    destruct (Hl1 r Hin) as [m Hm]. destruct (agree_lookup _ _ _ _ _ I1 Hm) as (? & ? & _). eauto. }
  wp_step. eapply wp_deliverBatch; [exact B2|exact Hl2|lia|]. intros g3 B3. rewrite Elen in B3.
  wp_step. apply wp_inCache, wp_get.
  assert (Esz : size (c_mstore c2) = size (c_mstore c)).
  { rewrite <- !(size_dom (D := gset loc)). f_equal. apply set_eq. intros r. rewrite !elem_of_dom. specialize (A4 r). specialize (I1 r).
    destruct (c_mstore c !! r), (c_mstore c1 !! r), (c_mstore c2 !! r); try done; cbn in *; try (split; by intros [? ?]); split; eauto. }
  assert (Hbound : gapsOf c2 (map_to_list (c_reorder c2)).*1 <= Z.of_nat (size (c_mstore c))) by (rewrite <- Esz; eapply gaps_bound; [exact B3|apply NoDup_fst_map_to_list]).
  eapply wp_drainAll; [exact B3|lia|]. intros err c3 g4 B4 [D1 D2 D3 D4].
  assert (Htot2 : total c2 <= c_maxBytes c2) by (unfold total; rewrite I3, Eby, Enb, Erb2, Emax2; lia).
  rewrite (D4 Htot2). destruct (D3 Htot2) as [T3 S3]. apply HQ; [eapply bok_weaken; [|exact B4]; lia|]. cbn. split_and!.
  - rewrite <- Eit. by etransitivity.
  - by rewrite Emax2 in T3.
  - intros o. pose proof (A6 o). pose proof (pr_through _ _ _ D1 o). rewrite Hth2 in *. lia.
  - intros o s Hs. rewrite <- Ero2 in Hs. by apply D2.
  - intros r m Hr Hm Hid. destruct (A7 r m Hr Hm Hid) as (m1 & Hm1 & Hq1). destruct (agree_lookup _ _ _ _ _ A4 Hm) as (m1' & Hm1' & E1). assert (m1' = m1) as -> by congruence.
    destruct (agree_lookup _ _ _ _ _ I1 Hm1) as (m2 & Hm2 & E2). destruct (agree_lookup _ _ _ _ _ (pr_view _ _ _ D1) Hm2) as (m3 & Hm3 & E3).
    assert (Eid : m_ID m1 = m_ID m) by (unfold sview in E1; congruence). exists m3. split_and!; [done|congruence| |].
    + eapply lookup_weaken; [|exact S3]. rewrite <- Eid. apply I5; [done..|]. by rewrite Eid, Eit.
    + assert (m_Sequence m3 = m_Sequence m1) as -> by congruence. assert (m_Origin m3 = m_Origin m1) as -> by congruence.
      pose proof (pr_through _ _ _ D1 (m_Origin m1)). rewrite Hth2 in *. lia.
Qed.

Lemma wp_acceptBatch n c (g : G) bo rs now (Q : option error -> broker G -> Prop) : bok n c g -> 2 * llen rs + Z.of_nat (size (c_mstore c)) <= n -> NoDup rs ->
  (forall r, r ∈ rs -> is_Some (c_mstore c !! r) /\ owned c r) -> NoDup (idsOf (c_mstore c) rs) ->
  (forall err c1 c' g', swept (unixMilli now) c c1 -> bok (n - 2 * llen rs - Z.of_nat (size (c_mstore c))) c' g' -> batchOutcome rs c1 g err c' g' -> Q err (mkBroker c' g' bo)) ->
  wp (acceptBatch rs now) (mkBroker c g bo) Q.
Proof.
  intros B Hn Hnd Hl Hids HQ. pose proof (llen_nonneg rs) as Hlen. unfold acceptBatch, acceptBatchLocked. cbv zeta. wp_step. apply (wp_sweep n); [done|]. intros c1 B1 S1.
  destruct (swept_fields _ _ _ (bo_cache _ _ _ B) S1) as (Emax1 & _ & Hown & _). pose proof (sw_view _ _ _ S1) as V1.
  assert (Hl1 : forall r, r ∈ rs -> is_Some (c_mstore c1 !! r)).
  { intros r Hr. destruct (Hl r Hr) as [[m Hm] _]. destruct (agree_lookup _ _ _ _ _ V1 Hm) as (? & ? & _). eauto. }
  assert (HQe : forall e c', bok n c' g -> quiet c1 c' -> Q (Some e) (mkBroker c' g bo)).
  { intros e c' B' Hq. eapply HQ; [exact S1|eapply bok_weaken; [|exact B']; lia|by split]. }
  assert (Hbq : forall c' g', bok n c1 g' -> cacheOK c' -> quiet c1 c' -> bok n c' g').
  { intros c' g' B' K' [_ Hv Hmeta _ _]. by eapply bok_meta. }
  destruct (bytes_nonneg _ _ _ B1) as [Hb1 Hrb1]. pose proof (bo_gaps _ _ _ B1) as Hgaps. pose proof (bo_max _ _ _ B1) as Hmax. pose proof (bo_cache _ _ _ B1) as K1. pose proof K1 as [[L1 I1] _].
  pose proof (ci_room _ _ _ I1) as Hroom1. assert (Hq4 : Z.quot (c_maxBytes c1) 4 <= c_maxBytes c1) by (apply Z.quot_le_upper_bound; lia).
  change (2 ^ 60) with 1152921504606846976 in *.
  wp_step. apply wp_inCache. apply wp_admitSizes; [exact K1|exact Hl1|lia| |].
  { intros c2 K2 Q2. apply wp_ret. apply HQe; [by apply Hbq|done]. }
  intros nt c2 K2 Q2 Hsz _ Hnt. rewrite Z.add_0_l in Hsz. destruct (quiet_fields _ _ Q2) as (Emax2 & Ets2 & Ero2 & Erb2 & Efl2 & _).
  pose proof (quiet_live _ _ _ Q2 Hl1) as Hl2. pose proof (qt_view _ _ Q2) as V2. pose proof (qt_bytes _ _ Q2) as Eby2.
  wp_step. apply wp_inCache, wp_get. destruct (bool_decide_reflect (c_frontierLimit c2 < mlen (c_topicSequences c2) + Z.of_nat (size nt))) as [Hfull|Htopics].
  { apply wp_ret. apply HQe; [by apply Hbq|done]. }
  wp_step. apply wp_inCache. apply wp_addedBytes; [exact K2|exact Hl2|lia|rewrite Z.add_0_l, (sizesOf_view _ _ _ V2), Emax2; exact Hsz|]. intros c3 K3 Q3.
  pose proof (quiet_trans _ _ _ Q2 Q3) as Q13. pose proof (quiet_live _ _ _ Q3 Hl2) as Hl3. destruct (quiet_fields _ _ Q13) as (Emax3 & Ets3 & Ero3 & Erb3 & Efl3 & _).
  pose proof (newBytes_bounds c2 rs) as Hnb. rewrite (sizesOf_view _ _ _ V2) in Hnb. rewrite Z.add_0_l, Eby2, Erb2, Emax2.
  rewrite (i64_id (c_bytes c1 + c_reorderBytes c1)) by (unfold in_i64; lia). rewrite i64_id by (unfold in_i64; lia).
  destruct (bool_decide_reflect (c_maxBytes c1 < c_bytes c1 + c_reorderBytes c1 + newBytes c2 rs)) as [Hover|Hfit].
  { apply wp_ret. apply HQe; [by apply Hbq|done]. }
  wp_step. apply wp_inCache. apply wp_derefs; [exact Hl3|]. intros ms Ems Hms.
  destruct (originCapacityLocked ms c2); cbn [negb]; [|apply wp_ret, HQe; [by apply Hbq|done]].
  assert (B3 : bok n c3 g) by by apply Hbq. wp_step. eapply (wp_prepare n); [exact B3| |unfold llen in *; lia|].
  { intros m Hin. destruct (Hms m Hin) as (r & _ & Hm). by eapply bo_small. }
  intros ok g3 B3' Hok. destruct ok; cbn [negb]; [|rewrite (Hok eq_refl); apply wp_ret, HQe; [done|done]].
  pose proof (qt_view _ _ Q13) as V13. pose proof (qt_items _ _ Q13) as Ei13.
  assert (Esz : size (c_mstore c3) = size (c_mstore c)).
  { rewrite <- !(size_dom (D := gset loc)). f_equal. apply set_eq. intros r. rewrite !elem_of_dom. specialize (V1 r). specialize (V13 r).
    destruct (c_mstore c !! r), (c_mstore c1 !! r), (c_mstore c3 !! r); try done; cbn in *; try (split; by intros [? ?]); split; eauto. }
  assert (Enb : newBytes c3 rs = newBytes c2 rs) by (apply newBytes_ext; [by apply mview_sview, Q3|by rewrite (qt_items _ _ Q3)]).
  eapply (wp_batchTail n c3 g3 bo rs nt); [exact B3'|rewrite Esz; lia|exact Hnd| | | | | |].
  - intros r Hr. split; [by apply Hl3|]. eapply quiet_owned; [exact Q13|]. apply Hown. by apply Hl.
  - rewrite (idsOf_view _ _ _ (mview_sview _ _ V13)), (idsOf_view _ _ _ (mview_sview _ _ V1)). done.
  - intros r m Hr Hm Eo Ets. destruct (agree_lookup _ _ _ _ _ (symmetry V13) Hm) as (m1 & Hm1 & E1). replace (m_Topic m) with (m_Topic m1) by congruence.
    apply (Hnt r m1); [done|done|congruence|]. rewrite <- Ets3. congruence.
  - rewrite Ets3, Efl3. rewrite Ets2, Efl2 in Htopics. lia.
  - unfold total. rewrite (qt_bytes _ _ Q13), Erb3, Emax3, Enb. lia.
  - intros c' g' B' Hout. rewrite Esz in B'. eapply HQ; [exact S1|exact B'|]. cbn in Hout |- *. destruct Hout as (O1 & O2 & O3 & O4 & O5).
    assert (Hth : forall o, through c3 o = through c1 o) by (intros o; unfold through; pose proof (qt_meta _ _ Q13) as M; unfold meta in M; by assert (c_receivedThrough c3 = c_receivedThrough c1) as -> by congruence).
    split_and!; [by rewrite <- Ei13|by rewrite <- Emax3|intros o; rewrite <- Hth; apply O3|intros o s Hs; apply O4; by rewrite Ero3|].
    intros r m Hr Hm Hid. destruct (agree_lookup _ _ _ _ _ V13 Hm) as (m3 & Hm3 & E3). assert (E : m_ID m3 = m_ID m) by congruence. rewrite <- E in *.
    apply (O5 r m3); [done..|]. by rewrite Ei13.
Qed.
End Batch.
