(* ===== verification/AcceptReplica.v ===== *)
(** * Accepting replicas

    [acceptReplicatedBatch]: the copies of other brokers' messages are cached in the order of their
    sequences, those beyond the frontier wait in a buffer within its budget.  Two copies of one
    sequence are assumed to have one size, as copies of one message have. *)
From S2P Require Import Prelude GoHeap Dll Types Pending Cache CacheIndex CacheExpiry CacheInv CacheExpire CacheSpec Accept AcceptInv.
From S2P Require Import AcceptGaps AcceptBatch.
#[local] Open Scope Z_scope.

(** Two messages of the store with the same origin and sequence have the same size. *)
Definition copies (st : gmap loc Message) : Prop :=
  forall r r' m m', st !! r = Some m -> st !! r' = Some m' -> m_Origin m = m_Origin m' -> m_Sequence m = m_Sequence m' -> sizeOf m = sizeOf m'.

Lemma copies_view st st' : agree mview st st' -> copies st -> copies st'.
Proof.
  intros Ha Hc r r' m1 m1' Hm1 Hm1' Eo Es. destruct (agree_lookup _ _ _ _ _ (symmetry Ha) Hm1) as (m & Hm & E), (agree_lookup _ _ _ _ _ (symmetry Ha) Hm1') as (m' & Hm' & E').
  assert (sizeOf m1 = sizeOf m) as -> by congruence. assert (sizeOf m1' = sizeOf m') as -> by congruence. apply (Hc r r'); [done..|congruence|congruence].
Qed.

Lemma agree_size {B} (f : Message -> B) st st' : agree f st st' -> size st' = size st.
Proof.
  intros Ha. rewrite <- !(size_dom (D := gset loc)). f_equal. apply set_eq. intros r. rewrite !elem_of_dom. specialize (Ha r).
  destruct (st !! r), (st' !! r); try done; split; by eauto.
Qed.

Section Replica.
Context {G : Type} `{SinkLaws G}.

(** ** One message is consumed at the frontier *)
Record advanced (o : string) (s : Z) (c c' : cache) : Prop := {
  ad_max : c_maxBytes c' = c_maxBytes c;
  ad_view : agree mview (c_mstore c) (c_mstore c');
  ad_through : forall o', through c' o' = if decide (o' = o) then s else through c o';
  ad_others : forall o' s', ~ (o' = o /\ s' = s) -> buffered (c_reorder c') o' s' = buffered (c_reorder c) o' s';
  ad_self : forall r, buffered (c_reorder c') o s = Some r -> buffered (c_reorder c) o s = Some r;
}.

Lemma advanced_progress given o s r m c c' : advanced o s c c' -> s = through c o + 1 -> c_mstore c !! r = Some m -> m_Origin m = o -> m_Sequence m = s ->
  given r \/ buffered (c_reorder c) o s = Some r -> progress given c c' /\ retained c c'.
Proof.
  intros [A1 A2 A3 A4 A5] Es Hm Eo Eq Hr. split; [split; try done|].
  - intros o'. rewrite A3. case_decide; [subst o'|]; lia.
  - intros o' s'. rewrite A3. case_decide as Hd; [|lia]. intros Hs. assert (s' = s) as -> by (subst o'; lia). subst o'. exists r, m. split_and!; [done..|tauto].
  - intros o' s' x Hx. left. destruct (decide (o' = o /\ s' = s)) as [[-> ->]|Hne]; [by apply A5|by rewrite <- A4].
  - intros o' s' Hs. destruct (decide (o' = o /\ s' = s)) as [[-> ->]|Hne]; [right|left; by rewrite A4]. rewrite A3, decide_True by done. lia.
Qed.

(** A buffered message was taken out. *)
Record without (o : string) (s : Z) (c c1 : cache) : Prop := {
  wo_max : c_maxBytes c1 = c_maxBytes c;
  wo_view : agree mview (c_mstore c) (c_mstore c1);
  wo_through : forall o', through c1 o' = through c o';
  wo_buffered : forall o' s', buffered (c_reorder c1) o' s' = if decide (o' = o /\ s' = s) then None else buffered (c_reorder c) o' s';
}.

Lemma unbuffered_without o s r c c1 : unbuffered1 o s r c c1 -> without o s c c1.
Proof.
  intros [U1 U2 U3 U4 U5]. unfold core in U2. unfold hist in U3. split; [congruence|done| |].
  - intros o'. unfold through. by assert (c_receivedThrough c1 = c_receivedThrough c) as -> by congruence.
  - intros o' s'. by rewrite U4, buffered_delete.
Qed.

(** It counts as given. *)
Lemma progress_without n given o s next c c1 c' (g : G) : bok n c g -> buffered (c_reorder c) o s = Some next -> without o s c c1 -> rinv c' ->
  progress (fun r => given r \/ r = next) c1 c' -> progress given c c' /\ (retained c1 c' -> s <= through c' o -> retained c c').
Proof.
  intros B Hr [U1 U2 Hth Hb] R' [P1 P2 P3 P4 P5].
  assert (Hsub : forall o' s' r, buffered (c_reorder c1) o' s' = Some r -> buffered (c_reorder c) o' s' = Some r) by (intros o' s' r; rewrite Hb; by case_decide).
  destruct (buffered_msg _ _ _ _ _ _ B Hr) as (mn & Hmn & Eno & Ens & _). split; [split|].
  - congruence.
  - by etransitivity.
  - intros o'. rewrite <- Hth. apply P3.
  - intros o' s'. rewrite <- Hth. intros Hs'. destruct (P4 _ _ Hs') as (r & m & Hm & Eo & Eq & Hrr). destruct (agree_lookup _ _ _ _ _ (symmetry U2) Hm) as (m0 & Hm0 & E0).
    exists r, m0. split_and!; [done|congruence|congruence|]. destruct Hrr as [Hb1|[Hg| ->]]; [left; by apply Hsub|by right|left].
    assert (m0 = mn) as -> by congruence. rewrite <- Hr. f_equal; congruence.
  - intros o' s' r Hr'. destruct (P5 _ _ _ Hr') as [Hb1|[Hg| ->]]; [left; by apply Hsub|by right|left].
    destruct (ri_live _ R' _ _ _ Hr') as (m' & Hm' & Eo' & Es'). assert (agree mview (c_mstore c) (c_mstore c')) as Hv by by etransitivity.
    destruct (agree_lookup _ _ _ _ _ Hv Hmn) as (m2 & Hm2 & E2). assert (m2 = m') as -> by congruence. rewrite <- Hr. f_equal; congruence.
  - intros Rt Hs o' s' Hs'. destruct (decide (o' = o /\ s' = s)) as [[-> ->]|Hne]; [by right|]. apply Rt. by rewrite Hb, decide_False.
Qed.

Definition room (c : cache) (m : Message) : Prop := c_reorderBytes c + sizeOf m <= Z.quot (c_maxBytes c) 4.

(** The entry of a message, if there is one, leaves the buffer. *)
Record popped (o : string) (s sz : Z) (c c1 : cache) : Prop := {
  pp_view : agree mview (c_mstore c) (c_mstore c1);
  pp_core : core c1 = core c;
  pp_hist : hist c1 = hist c;
  pp_gaps : forall o', default ∅ (c_reorder c1 !! o') = if decide (o' = o) then delete s (default ∅ (c_reorder c !! o)) else default ∅ (c_reorder c !! o');
  pp_bytes : c_reorderBytes c1 = if decide (buffered (c_reorder c) o s = None) then c_reorderBytes c else c_reorderBytes c - sz;
}.

Lemma popped_buffered o s sz c c1 o' s' : popped o s sz c c1 ->
  buffered (c_reorder c1) o' s' = if decide (o' = o /\ s' = s) then None else buffered (c_reorder c) o' s'.
Proof.
  intros P. rewrite !buffered_gaps, (pp_gaps _ _ _ _ _ P). destruct (decide (o' = o)) as [->|Hne]; [|by rewrite decide_False by tauto].
  destruct (decide (s' = s)) as [->|Hns]; [by rewrite lookup_delete_eq, decide_True|]. rewrite lookup_delete_ne by done. by rewrite decide_False by tauto.
Qed.

Lemma unbuffered_popped o s r m c c1 : unbuffered1 o s r c c1 -> buffered (c_reorder c) o s = Some r -> sizeAt (c_mstore c) r = sizeOf m ->
  popped o s (sizeOf m) c c1.
Proof.
  intros [U1 U2 U3 U4 U5] Hr Hsz. split; try done.
  - intros o'. rewrite U4, alter_lookup. case_decide as Hd; [|done]. subst o'. by destruct (c_reorder c !! o).
  - rewrite decide_False by (rewrite Hr; done). by rewrite U5, Hsz.
Qed.

Lemma wp_unbufferIf n c (g : G) x m (Q : unit -> cache -> Prop) : bok n c g -> copies (c_mstore c) -> c_mstore c !! x = Some m ->
  (forall c1, bok n c1 g -> popped (m_Origin m) (m_Sequence m) (sizeOf m) c c1 -> Q tt c1) -> wp (unbufferIf x m) c Q.
Proof.
  intros B Hc Hm HQ. unfold unbufferIf, bufferedAt. wp_step. wp_step. apply wp_get. apply wp_ret.
  change (c_reorder c !! m_Origin m ≫= (.!! m_Sequence m)) with (buffered (c_reorder c) (m_Origin m) (m_Sequence m)).
  destruct (buffered (c_reorder c) (m_Origin m) (m_Sequence m)) as [r|] eqn:Hr; cbn [gwhen].
  - rewrite bool_decide_true by eauto. cbn [gwhen]. destruct (buffered_msg _ _ _ _ _ _ B Hr) as (mr & Hmr & Eo & Es & _).
    assert (Esz : sizeAt (c_mstore c) r = sizeOf m) by (rewrite (sizeAt_sizeOf _ _ _ Hmr); by eapply Hc). eapply wp_unbufferCopy; [exact B|exact Hr|exact Hm|exact Esz|].
    intros c1 B1 U1. apply HQ; [done|]. by eapply unbuffered_popped.
  - rewrite bool_decide_false by (by intros [? ?]). cbn [gwhen]. apply wp_ret. apply HQ; [done|]. split; try done; [|by rewrite decide_True].
    intros o'. case_decide as Hd; [|done]. subst o'. rewrite buffered_gaps in Hr. by rewrite delete_id.
Qed.

Lemma popped_room o s m c c1 n (g : G) : popped o s (sizeOf m) c c1 -> bok n c g -> (buffered (c_reorder c) o s = None -> room c m) -> room c1 m.
Proof.
  intros P B Hr. unfold room in *. pose proof (pp_core _ _ _ _ _ P) as Hc. unfold core in Hc. assert (Emax : c_maxBytes c1 = c_maxBytes c) by congruence.
  rewrite Emax, (pp_bytes _ _ _ _ _ P). pose proof (bo_gaps _ _ _ B). case_decide as Hd; [by apply Hr|lia].
Qed.

(** *** Entering a round of the chain *)
Record entered (fromGap : bool) (o : string) (s : Z) (c c1 : cache) : Prop := {
  en_max : c_maxBytes c1 = c_maxBytes c;
  en_view : agree mview (c_mstore c) (c_mstore c1);
  en_through : forall o', through c1 o' = through c o';
  en_gaps : forall o', default ∅ (c_reorder c1 !! o') = if decide (o' = o /\ fromGap = true) then delete s (default ∅ (c_reorder c !! o)) else default ∅ (c_reorder c !! o');
}.

Lemma entered_buffered fromGap o s c c1 o' s' : entered fromGap o s c c1 ->
  buffered (c_reorder c1) o' s' = if decide (o' = o /\ s' = s /\ fromGap = true) then None else buffered (c_reorder c) o' s'.
Proof.
  intros P. rewrite !buffered_gaps, (en_gaps _ _ _ _ _ P). destruct (decide (o' = o /\ fromGap = true)) as [[-> ->]|Hne].
  - destruct (decide (s' = s)) as [->|Hns]; [by rewrite lookup_delete_eq, decide_True|]. rewrite lookup_delete_ne by done. by rewrite decide_False by tauto.
  - by rewrite decide_False by tauto.
Qed.

Lemma entered_advanced fromGap o s c c1 c2 : entered fromGap o s c c1 -> advanced o s c1 c2 -> advanced o s c c2.
Proof.
  intros E [A1 A2 A3 A4 A5]. pose proof E as [E1 E2 E3 E4]. split.
  - congruence.
  - by etransitivity.
  - intros o'. rewrite A3. by rewrite E3.
  - intros o' s' Hne. rewrite A4 by done. rewrite (entered_buffered _ _ _ _ _ _ _ E), decide_False; [done|tauto].
  - intros r Hr. apply A5 in Hr. rewrite (entered_buffered _ _ _ _ _ _ _ E) in Hr. by case_decide.
Qed.

(** What a round starts from: a message that came from the buffer has left it, or is about to, with its charge. *)
Definition chainReady (fromGap : bool) (first current : loc) (c : cache) (m : Message) : Prop :=
  m_Sequence m = through c (m_Origin m) + 1 /\
  (current <> first \/ fromGap = true -> (buffered (c_reorder c) (m_Origin m) (m_Sequence m) = None /\ room c m) \/
     (fromGap = true /\ buffered (c_reorder c) (m_Origin m) (m_Sequence m) = Some current)).

(** The buffered messages that a round leaves to the next ones. *)
Definition chainMeasure (fromGap : bool) (c : cache) (m : Message) : nat :=
  let gaps := default ∅ (c_reorder c !! m_Origin m) in size (if fromGap then delete (m_Sequence m) gaps else gaps).

Lemma wp_enterCopy n c (g : G) fromGap first current m (Q : unit -> cache -> Prop) : bok n c g -> copies (c_mstore c) -> c_mstore c !! current = Some m ->
  chainReady fromGap first current c m ->
  (forall c1, bok n c1 g -> entered fromGap (m_Origin m) (m_Sequence m) c c1 ->
     (current <> first \/ fromGap = true -> buffered (c_reorder c1) (m_Origin m) (m_Sequence m) = None /\ room c1 m) ->
     size (default ∅ (c_reorder c1 !! m_Origin m)) = chainMeasure fromGap c m -> Q tt c1) ->
  wp (gwhen fromGap (unbufferIf current m)) c Q.
Proof.
  intros B Hc Hm [_ Hready] HQ. destruct fromGap; cbn [gwhen].
  - eapply wp_unbufferIf; [exact B|exact Hc|exact Hm|]. intros c1 B1 P. pose proof (pp_core _ _ _ _ _ P) as Hcore. unfold core in Hcore.
    pose proof (pp_hist _ _ _ _ _ P) as Hh. unfold hist in Hh. apply HQ; [done| | |].
    + split; [congruence|apply P|intros o'; unfold through; by assert (c_receivedThrough c1 = c_receivedThrough c) as -> by congruence|].
      intros o'. rewrite (pp_gaps _ _ _ _ _ P). destruct (decide (o' = m_Origin m)); [by rewrite decide_True|by rewrite decide_False by tauto].
    + intros _. split; [by rewrite (popped_buffered _ _ _ _ _ _ _ P), decide_True|]. eapply popped_room; [exact P|exact B|]. intros Hn.
      destruct Hready as [[_ ?]|[_ ?]]; [by right|done|congruence].
    + unfold chainMeasure. by rewrite (pp_gaps _ _ _ _ _ P), decide_True.
  - apply wp_ret. apply HQ; [done| | |done].
    + split; try done. intros o'. by rewrite decide_False by (by intros [_ ?]).
    + intros Hx. destruct (Hready Hx) as [?|[? _]]; done.
Qed.

(** Popping and moving the frontier consumes a message. *)
Lemma popped_advanced o s sz c c1 c2 : popped o s sz c c1 -> agree mview (c_mstore c1) (c_mstore c2) -> c_maxBytes c2 = c_maxBytes c1 ->
  (forall o' s', buffered (c_reorder c2) o' s' = buffered (c_reorder c1) o' s') -> (forall o', through c2 o' = if decide (o' = o) then s else through c1 o') -> advanced o s c c2.
Proof.
  intros P Hv Hm Hb Ht. pose proof (pp_core _ _ _ _ _ P) as Hc. unfold core in Hc. pose proof (pp_hist _ _ _ _ _ P) as Hh. unfold hist in Hh. split.
  - congruence.
  - etransitivity; [apply P|done].
  - intros o'. rewrite Ht. case_decide; [done|]. unfold through. by assert (c_receivedThrough c1 = c_receivedThrough c) as -> by congruence.
  - intros o' s' Hne. by rewrite Hb, (popped_buffered _ _ _ _ _ _ _ P), decide_False.
  - intros r. rewrite Hb, (popped_buffered _ _ _ _ _ _ _ P), decide_True by done. done.
Qed.

(** *** The chain *)

(** What a chain that starts with [m] may answer. *)
Definition chained (given : loc -> Prop) (m : Message) (c : cache) (err : option error) (c' : cache) : Prop :=
  progress given c c' /\ (err = None -> retained c c' /\ m_Sequence m <= through c' (m_Origin m)).

Lemma chained_stop given m current c c' : advanced (m_Origin m) (m_Sequence m) c c' -> m_Sequence m = through c (m_Origin m) + 1 -> c_mstore c !! current = Some m ->
  given current \/ buffered (c_reorder c) (m_Origin m) (m_Sequence m) = Some current -> chained given m c None c'.
Proof.
  intros A Es Hm Hg. destruct (advanced_progress given _ _ _ _ _ _ A Es Hm eq_refl eq_refl Hg) as [P R]. split; [done|]. intros _. split; [done|].
  rewrite (ad_through _ _ _ _ A), decide_True by done. lia.
Qed.

(** One round, then the rest of the chain. *)
Lemma chained_next given m m' current c c2 err c' : advanced (m_Origin m) (m_Sequence m) c c2 -> m_Sequence m = through c (m_Origin m) + 1 ->
  c_mstore c !! current = Some m -> given current \/ buffered (c_reorder c) (m_Origin m) (m_Sequence m) = Some current ->
  m_Origin m' = m_Origin m -> m_Sequence m' = m_Sequence m + 1 -> chained given m' c2 err c' -> chained given m c err c'.
Proof.
  intros A Es Hm Hg Eo Eq [P2 R2]. destruct (advanced_progress given _ _ _ _ _ _ A Es Hm eq_refl eq_refl Hg) as [P R].
  split; [by eapply progress_trans|]. intros He. destruct (R2 He) as [Rt Hs]. split; [by eapply retained_trans|]. rewrite Eo, Eq in Hs. lia.
Qed.

Lemma chained_without n given next m c c1 err c' (g : G) : bok n c g -> buffered (c_reorder c) (m_Origin m) (m_Sequence m) = Some next ->
  without (m_Origin m) (m_Sequence m) c c1 -> rinv c' -> chained (fun r => given r \/ r = next) m c1 err c' -> chained given m c err c'.
Proof.
  intros B Hr W R' [P Rt]. destruct (progress_without _ _ _ _ _ _ _ _ _ B Hr W R' P) as [P' R2]. split; [done|]. intros He. destruct (Rt He) as [R1 Hs]. auto.
Qed.

(** A buffered successor. *)
Lemma next_msg n c (g : G) o s next : bok n c g -> 0 < s < 2 ^ 64 -> buffered (c_reorder c) o (u64 (s + 1)) = Some next ->
  u64 (s + 1) = s + 1 /\ exists m', c_mstore c !! next = Some m' /\ m_Origin m' = o /\ m_Sequence m' = s + 1.
Proof.
  intros B Hs Hr. destruct (buffered_msg _ _ _ _ _ _ B Hr) as (m' & Hm' & Eo & Eq & Hpos).
  assert (E : u64 (s + 1) = s + 1).
  { apply u64_id. unfold in_u64. destruct (decide (s + 1 < 2 ^ 64)) as [Hlt|Hge]; [change (2 ^ 64) with 18446744073709551616 in *; lia|].
    assert (s + 1 = 2 ^ 64) as E by lia. rewrite E in Hpos. with_strategy transparent [u64] (unfold u64 in Hpos). change (2 ^ 64 mod 18446744073709551616) with 0 in Hpos. lia. }
  split; [done|]. exists m'. split_and!; [done..|congruence].
Qed.

Lemma next_buffered n c (g : G) o next : bok n c g -> buffered (c_reorder c) o (u64 (through c o + 1)) = Some next ->
  u64 (through c o + 1) = through c o + 1 /\ exists m', c_mstore c !! next = Some m' /\ m_Origin m' = o /\ m_Sequence m' = through c o + 1.
Proof.
  intros B Hr. pose proof (through_range _ _ _ o B) as Ht. destruct (decide (through c o = 0)) as [E0|Hne].
  - rewrite E0 in *. change (u64 (0 + 1)) with 1 in *. destruct (buffered_msg _ _ _ _ _ _ B Hr) as (m' & Hm' & Eo & Eq & _). split; [done|]. by exists m'.
  - eapply next_msg; [exact B|lia|exact Hr].
Qed.

(** Only the buffers, the frontiers and the messages matter to [progress]. *)
Record level (c c' : cache) : Prop := {
  lv_max : c_maxBytes c' = c_maxBytes c;
  lv_view : agree mview (c_mstore c) (c_mstore c');
  lv_through : forall o, through c' o = through c o;
  lv_buffered : forall o s, buffered (c_reorder c') o s = buffered (c_reorder c) o s;
}.

Lemma level_trans c1 c2 c3 : level c1 c2 -> level c2 c3 -> level c1 c3.
Proof. intros [A1 A2 A3 A4] [B1 B2 B3 B4]. split; [congruence|by etransitivity|intros; by rewrite B3|intros; by rewrite B4]. Qed.

Lemma level_advanced o s c c1 c2 : advanced o s c c1 -> level c1 c2 -> advanced o s c c2.
Proof. intros [A1 A2 A3 A4 A5] [B1 B2 B3 B4]. split; [congruence|by etransitivity|intros; by rewrite B3|intros; rewrite B4; auto|intros r; rewrite B4; auto]. Qed.

Lemma meta_level c c' : agree mview (c_mstore c) (c_mstore c') -> meta c' = meta c -> level c c'.
Proof.
  intros Ha Hm. unfold meta in Hm. split; [congruence|done| |].
  - intros o. unfold through. by assert (c_receivedThrough c' = c_receivedThrough c) as -> by congruence.
  - intros o s. by assert (c_reorder c' = c_reorder c) as -> by congruence.
Qed.

Lemma entered_progress given fromGap o s c c1 : entered fromGap o s c c1 -> progress given c c1.
Proof.
  intros E. pose proof E as [E1 E2 E3 E4]. split; [done|done|intros; rewrite E3; lia|intros o' s'; rewrite E3; lia|].
  intros o' s' r Hr. rewrite (entered_buffered _ _ _ _ _ _ _ E) in Hr. destruct (decide _) in Hr; [done|by left].
Qed.

Lemma level_progress given c c' : level c c' -> progress given c c'.
Proof. intros [L1 L2 L3 L4]. split; [done|done|intros; rewrite L3; lia|intros o s; rewrite L3; lia|intros o s r; rewrite L4; by left]. Qed.

Lemma wp_maybeClose n c (g : G) bo o topic (Q : unit -> broker G -> Prop) : bok n c g ->
  (forall c', bok n c' g -> level c c' -> c_reorderBytes c' = c_reorderBytes c -> default ∅ (c_reorder c' !! o) = default ∅ (c_reorder c !! o) -> Q tt (mkBroker c' g bo)) ->
  wp (n <- inCache (gapsLen o) ;; if bool_decide (n = 0) then inCache (closeGap o topic) else gret tt) (mkBroker c g bo) Q.
Proof.
  intros B HQ. wp_step. apply wp_inCache. unfold gapsLen. wp_step. apply wp_get. apply wp_ret.
  destruct (bool_decide_reflect (mlen (default ∅ (c_reorder c !! o)) = 0)) as [Hz|Hz]; [|apply wp_ret, HQ; [done|by split|done|done]].
  assert (He : default ∅ (c_reorder c !! o) = ∅) by (apply map_size_empty_inv; unfold mlen in Hz; lia).
  apply wp_inCache. eapply wp_closeGap; [exact B|exact He|]. intros c2 B2 S2 C2 H2 Rb2 Hb2 Hg2. unfold core in C2. unfold hist in H2. apply HQ; [done| |done|done].
  split; [congruence|by rewrite S2| |done]. intros o'. unfold through. by assert (c_receivedThrough c2 = c_receivedThrough c) as -> by congruence.
Qed.

Lemma wp_bind_inv {S A B} (m : GoM S A) (k : A -> GoM S B) s Q : wp (gbind m k) s Q -> wp m s (fun a s' => wp (k a) s' Q).
Proof. unfold wp, gbind. by destruct (m s) as [[a s']|]. Qed.

Lemma kept_level n c c' (g : G) : bok n c g -> kept c c' -> hist c' = hist c -> bok n c' g /\ level c c'.
Proof.
  intros B K Hh. pose proof K as [K1 K2 K3 K4]. unfold core in K2. unfold hist in Hh. pose proof (bo_gaps _ _ _ B). split.
  - eapply bok_cache; [exact B|by eapply kept_ok; [|apply B]|by rewrite K1|congruence|lia|]. apply (seqs_sub c); [by rewrite K1|rewrite K3; eauto| |apply B].
    assert (c_receivedThrough c' = c_receivedThrough c) as -> by congruence. eauto.
  - split; [congruence|by rewrite K1| |by rewrite K3]. intros o. unfold through. by assert (c_receivedThrough c' = c_receivedThrough c) as -> by congruence.
Qed.

(** The failure of [prepareGroupWork] puts a message that came from the buffer back. *)
Lemma wp_restore n c c1 (g : G) bo fromGap first current m given (Q : unit -> broker G -> Prop) : bok n c1 g -> entered fromGap (m_Origin m) (m_Sequence m) c c1 ->
  c_mstore c !! current = Some m -> 0 < m_Sequence m ->
  (current <> first \/ fromGap = true -> buffered (c_reorder c1) (m_Origin m) (m_Sequence m) = None /\ room c1 m) ->
  given current \/ buffered (c_reorder c) (m_Origin m) (m_Sequence m) = Some current ->
  (forall c', bok n c' g -> progress given c c' -> Q tt (mkBroker c' g bo)) ->
  wp (if bool_decide (current <> first) || fromGap then inCache (
        gmodify (fun c => c <| c_reorder :=
          <[m_Origin m := <[m_Sequence m := current]> (default ∅ (c_reorder c !! m_Origin m))]> (c_reorder c) |>) ;;;
        sz <- messageSize current ;;
        gmodify (fun c => c <| c_reorderBytes := i64 (c_reorderBytes c + sz) |>) ;;;
        gmodify (markUnsafeLocked (m_Topic m) ("gap:" +:+ m_Origin m) (m_ExpiresAt m)))
      else gret tt) (mkBroker c1 g bo) Q.
Proof.
  intros B E Hm Hpos Hcond Hg HQ. pose proof (entered_progress given _ _ _ _ _ E) as P1.
  destruct (bool_decide (current <> first) || fromGap) eqn:Eb; [|by apply wp_ret, HQ].
  assert (Hx : current <> first \/ fromGap = true) by (apply orb_true_iff in Eb as [Eb|Eb]; [left; by apply bool_decide_eq_true in Eb|by right]).
  destruct (Hcond Hx) as [Hn Hroom]. destruct (agree_lookup _ _ _ _ _ (en_view _ _ _ _ _ E) Hm) as (m1 & Hm1 & E1).
  apply wp_inCache. wp_step. apply wp_modify.
  assert (Hwp : wp (sz <- messageSize current ;; gmodify (fun c => c <| c_reorderBytes := i64 (c_reorderBytes c + sz) |>))
    (c1 <| c_reorder := <[m_Origin m := <[m_Sequence m := current]> (default ∅ (c_reorder c1 !! m_Origin m))]> (c_reorder c1) |>)
    (fun _ c2 => bok n c2 g /\ progress given c c2)).
  { eapply (wp_rebuffer n c1 g (m_Origin m) (m_Sequence m) current m1 (default ∅ (c_reorder c1 !! m_Origin m))); try done.
    - destruct (c_reorder c1 !! m_Origin m); [by left|by right].
    - by rewrite <- buffered_gaps.
    - congruence.
    - congruence.
    - unfold room in Hroom. by assert (sizeOf m1 = sizeOf m) as -> by congruence.
    - intros c2 B2 V2 C2 H2 Ro2 _. split; [done|]. unfold core in C2. unfold hist in H2. pose proof E as [F1 F2 F3 F4].
      assert (Hth : forall o, through c2 o = through c o) by (intros o; rewrite <- F3; unfold through; by assert (c_receivedThrough c2 = c_receivedThrough c1) as -> by congruence).
      split; [congruence|by etransitivity|intros; rewrite Hth; lia|intros o s; rewrite Hth; lia|]. intros o s r Hr.
      destruct (decide (o = m_Origin m /\ s = m_Sequence m)) as [[-> ->]|Hne].
      + rewrite buffered_gaps, Ro2, lookup_insert_eq in Hr. cbn in Hr. rewrite lookup_insert_eq in Hr. injection Hr as <-. tauto.
      + assert (Hr1 : buffered (c_reorder c1) o s = Some r); [|by destruct (pr_buffered _ _ _ P1 _ _ _ Hr1); [left|right]].
        rewrite <- Hr, !buffered_gaps, Ro2. destruct (decide (o = m_Origin m)) as [->|Hno]; [|by rewrite lookup_insert_ne]. rewrite lookup_insert_eq. cbn.
        rewrite lookup_insert_ne; [done|]. intros <-. by apply Hne. }
  apply wp_bind. apply wp_bind_inv in Hwp. eapply wp_mono; [exact Hwp|]. cbn beta. intros sz c2 Hw. wp_step. eapply wp_mono; [exact Hw|]. intros [] c3 [B3 P3].
  apply wp_modify. destruct (mark_kept (m_Topic m) ("gap:" +:+ m_Origin m) (m_ExpiresAt m) c3) as [K Hh]. destruct (kept_level _ _ _ _ B3 K Hh) as [B4 L4].
  apply HQ; [done|]. eapply progress_trans; [exact P3|by apply level_progress].
Qed.

(** *** The two branches of a round *)

(** What the rest of the chain promises about the next message. *)
Definition chainNext (fuel : nat) (now : Z) (bo : string) : Prop :=
  forall n c (g : G) first current fromGap m given (Q : option error -> broker G -> Prop), bok n c g -> Z.of_nat fuel <= n -> copies (c_mstore c) ->
    c_mstore c !! current = Some m -> chainReady fromGap first current c m -> (chainMeasure fromGap c m < fuel)%nat ->
    given current \/ buffered (c_reorder c) (m_Origin m) (m_Sequence m) = Some current ->
    (forall err c' g', bok (n - Z.of_nat fuel) c' g' -> chained given m c err c' -> Q err (mkBroker c' g' bo)) ->
    wp (acceptChain fuel first current fromGap now) (mkBroker c g bo) Q.

Lemma u64_seq n c (g : G) m r : bok n c g -> c_mstore c !! r = Some m -> m_Sequence m = through c (m_Origin m) + 1 -> 0 < m_Sequence m < 2 ^ 64.
Proof. intros B Hm Es. pose proof (sq_u64 _ (bo_seqs _ _ _ B) _ _ Hm). pose proof (through_range _ _ _ (m_Origin m) B). lia. Qed.

Lemma size_delete_some (m : gmap Z loc) k x : m !! k = Some x -> size m = S (size (delete k m)).
Proof. intros Hk. rewrite <- (insert_delete_id _ _ _ Hk) at 1. by rewrite map_size_insert_None by apply lookup_delete_eq. Qed.

Lemma size_delete_le (m : gmap Z loc) k : (size (delete k m) <= size m)%nat.
Proof. apply map_subseteq_size, delete_subseteq. Qed.

(** The message expired: its sequence is consumed. *)
Lemma wp_chainExpired fuel now bo n c c1 (g : G) first current fromGap m given (Q : option error -> broker G -> Prop) : chainNext fuel now bo ->
  bok n c g -> Z.of_nat (S fuel) <= n -> copies (c_mstore c) -> c_mstore c !! current = Some m -> m_Sequence m = through c (m_Origin m) + 1 ->
  given current \/ buffered (c_reorder c) (m_Origin m) (m_Sequence m) = Some current ->
  bok n c1 g -> entered fromGap (m_Origin m) (m_Sequence m) c c1 -> (size (default ∅ (c_reorder c1 !! m_Origin m)) < S fuel)%nat ->
  (forall err c' g', bok (n - Z.of_nat (S fuel)) c' g' -> chained given m c err c' -> Q err (mkBroker c' g' bo)) ->
  wp (inCache (gmodify (fun c => c <| c_receivedThrough :=
        <[m_Origin m := Z.max (default 0 (c_receivedThrough c !! m_Origin m)) (m_Sequence m)]> (c_receivedThrough c) |>)) ;;;
      c <- inCache gget ;;
      match c_reorder c !! m_Origin m with
      | Some _ =>
        inCache (unbufferIf current m) ;;;
        n <- inCache (gapsLen (m_Origin m)) ;;
        if bool_decide (n = 0) then inCache (closeGap (m_Origin m) (m_Topic m)) ;;; gret None else
        o <- inCache (bufferedAt (m_Origin m) (u64 (m_Sequence m + 1))) ;;
        match o with None => gret None | Some next => acceptChain fuel first next true now end
      | None => gret None
      end) (mkBroker c1 g bo) Q.
Proof.
  intros IH B Hn Hc Hm Es Hg B1 E Hf HQ. pose proof (u64_seq _ _ _ _ _ B Hm Es) as Hpos.
  assert (Hstop : forall c' g', bok n c' g' -> advanced (m_Origin m) (m_Sequence m) c c' -> Q None (mkBroker c' g' bo)).
  { intros c' g' B' A. apply HQ; [eapply bok_weaken; [|exact B']; lia|by eapply chained_stop]. }
  destruct (agree_lookup _ _ _ _ _ (en_view _ _ _ _ _ E) Hm) as (m1 & Hm1 & E1).
  wp_step. apply wp_inCache, wp_modify. set (c2 := c1 <| c_receivedThrough := _ |>). wp_step. apply wp_inCache, wp_get.
  assert (Hth2 : forall o', through c2 o' = if decide (o' = m_Origin m) then m_Sequence m else through c1 o').
  { intros o'. unfold through, c2. cbn. destruct (decide (o' = m_Origin m)) as [->|Hne]; [|by rewrite lookup_insert_ne]. rewrite lookup_insert_eq.
    change (default 0 (Some ?x)) with x. fold (through c1 (m_Origin m)). rewrite (en_through _ _ _ _ _ E). lia. }
  assert (A2 : advanced (m_Origin m) (m_Sequence m) c1 c2) by by split.
  assert (B2 : bok n c2 g).
  { pose proof (bo_gaps _ _ _ B1). eapply bok_cache; [exact B1|by eapply (kept_ok c1); [|apply B1]|done|done|done|].
    apply (seqs_sub c1); [done|by eauto| |apply B1]. intros o' t Ht. change (c_receivedThrough c2) with (<[m_Origin m := Z.max (default 0 (c_receivedThrough c1 !! m_Origin m)) (m_Sequence m)]> (c_receivedThrough c1)) in Ht.
    apply lookup_insert_Some in Ht as [[_ <-]|[_ Ht]]; [left|by right]. fold (through c1 (m_Origin m)). pose proof (through_range _ _ _ (m_Origin m) B1). lia. }
  change (c_reorder c2) with (c_reorder c1). destruct (c_reorder c1 !! m_Origin m) as [gaps|] eqn:Hgaps.
  2: { apply wp_ret. apply Hstop; [done|by eapply entered_advanced]. }
  cbn in Hf. wp_step. apply wp_inCache.
  assert (Hm12 : mview m1 = mview m) by done. assert (Hcp2 : copies (c_mstore c2)) by (eapply copies_view; [apply (en_view _ _ _ _ _ E)|done]).
  assert (Eun : unbufferIf current m = unbufferIf current m1) by (unfold unbufferIf; assert (m_Origin m1 = m_Origin m) as -> by congruence; by assert (m_Sequence m1 = m_Sequence m) as -> by congruence).
  rewrite Eun. eapply (wp_unbufferIf n c2 g current m1); [exact B2|exact Hcp2|exact Hm1|]. intros c3 B3 P3.
  assert (Eo1 : m_Origin m1 = m_Origin m) by congruence. assert (Eq1 : m_Sequence m1 = m_Sequence m) by congruence. rewrite Eo1, Eq1 in P3.
  pose proof (pp_core _ _ _ _ _ P3) as C3. unfold core in C3. pose proof (pp_hist _ _ _ _ _ P3) as H3. unfold hist in H3.
  assert (A3 : advanced (m_Origin m) (m_Sequence m) c c3).
  { eapply entered_advanced; [exact E|]. split.
    - assert (c_maxBytes c3 = c_maxBytes c2) as -> by congruence. done.
    - apply P3.
    - intros o'. rewrite <- Hth2. unfold through. by assert (c_receivedThrough c3 = c_receivedThrough c2) as -> by congruence.
    - intros o' s' Hne. by rewrite (popped_buffered _ _ _ _ _ _ _ P3), decide_False.
    - intros r Hr. by rewrite (popped_buffered _ _ _ _ _ _ _ P3), decide_True in Hr. }
  assert (Hg3 : default ∅ (c_reorder c3 !! m_Origin m) = delete (m_Sequence m) gaps).
  { rewrite (pp_gaps _ _ _ _ _ P3), decide_True by done. change (c_reorder c2) with (c_reorder c1). by rewrite Hgaps. }
  wp_step. apply wp_inCache. unfold gapsLen. wp_step. apply wp_get. apply wp_ret.
  destruct (bool_decide_reflect (mlen (default ∅ (c_reorder c3 !! m_Origin m)) = 0)) as [Hz|Hz].
  - assert (He : default ∅ (c_reorder c3 !! m_Origin m) = ∅) by (apply map_size_empty_inv; unfold mlen in Hz; lia).
    wp_step. apply wp_inCache. eapply wp_closeGap; [exact B3|exact He|]. intros c4 B4 S4 C4 H4 _ Hb4 _. apply wp_ret. apply Hstop; [done|].
    eapply level_advanced; [exact A3|]. unfold core in C4. unfold hist in H4. split; [congruence|by rewrite S4| |done].
    intros o'. unfold through. by assert (c_receivedThrough c4 = c_receivedThrough c3) as -> by congruence.
  - wp_step. apply wp_inCache. unfold bufferedAt. wp_step. apply wp_get. apply wp_ret.
    change (c_reorder c3 !! m_Origin m ≫= (.!! u64 (m_Sequence m + 1))) with (buffered (c_reorder c3) (m_Origin m) (u64 (m_Sequence m + 1))).
    destruct (buffered (c_reorder c3) (m_Origin m) (u64 (m_Sequence m + 1))) as [next|] eqn:Hnext; [|by apply wp_ret, Hstop].
    destruct (next_msg _ _ _ _ _ _ B3 Hpos Hnext) as (E64 & m' & Hm' & Eo' & Es'). rewrite E64 in Hnext.
    eapply (IH n c3 g first next true m' given); [exact B3|lia|eapply copies_view; [apply P3|done]|exact Hm'| | | |].
    + split; [|intros _; right; split; [done|by rewrite Eo', Es']]. rewrite Eo', Es', (ad_through _ _ _ _ A3), decide_True by done. lia.
    + unfold chainMeasure. rewrite Eo', Es'. rewrite buffered_gaps in Hnext. pose proof (size_delete_some _ _ _ Hnext) as Hsz.
      rewrite Hg3 in Hsz at 1. pose proof (size_delete_le gaps (m_Sequence m)). lia.
    + right. by rewrite Eo', Es'.
    + intros err c' g' B' Hch. apply HQ; [eapply bok_weaken; [|exact B']; lia|]. eapply chained_next; [exact A3|exact Es|exact Hm|exact Hg|exact Eo'|exact Es'|exact Hch].
Qed.

(** The message is live: it is cached, recorded and delivered. *)
Lemma wp_chainInsert fuel now bo n c c1 (g : G) first current fromGap m given (Q : option error -> broker G -> Prop) : chainNext fuel now bo ->
  bok n c g -> Z.of_nat (S fuel) <= n -> copies (c_mstore c) -> c_mstore c !! current = Some m -> m_Sequence m = through c (m_Origin m) + 1 ->
  given current \/ buffered (c_reorder c) (m_Origin m) (m_Sequence m) = Some current ->
  bok n c1 g -> entered fromGap (m_Origin m) (m_Sequence m) c c1 -> (size (default ∅ (c_reorder c1 !! m_Origin m)) < S fuel)%nat ->
  (forall err c' g', bok (n - Z.of_nat (S fuel)) c' g' -> chained given m c err c' -> Q err (mkBroker c' g' bo)) ->
  wp (res <- inCache (insertLocked current (unixMilli now)) ;;
      match res with
      | (_, Some e) => gret (Some e)
      | (inserted, None) =>
        inCache (gmodify (recordReceivedLocked m (unixMilli now))) ;;;
        (if inserted : bool then deliverNew current now else inSink sk_duplicate) ;;;
        o <- inCache (bufferedAt (m_Origin m) (u64 (m_Sequence m + 1))) ;;
        (match o with
         | Some next => inCache (unbufferLocked (m_Origin m) (u64 (m_Sequence m + 1)) next)
         | None => gret tt
         end) ;;;
        n <- inCache (gapsLen (m_Origin m)) ;;
        (if bool_decide (n = 0) then inCache (closeGap (m_Origin m) (m_Topic m)) else gret tt) ;;;
        match o with None => gret None | Some next => acceptChain fuel first next fromGap now end
      end) (mkBroker c1 g bo) Q.
Proof.
  intros IH B Hn Hc Hm Es Hg B1 E Hf HQ. pose proof (u64_seq _ _ _ _ _ B Hm Es) as Hpos.
  destruct (agree_lookup _ _ _ _ _ (en_view _ _ _ _ _ E) Hm) as (m1 & Hm1 & E1).
  wp_step. apply wp_inCache. eapply wp_insert; [apply B1|exact Hm1|]. intros res c2 K2 Hres. destruct (insertResult_frame _ _ _ _ _ Hres) as [V2 M2].
  assert (B2 : bok n c2 g) by by eapply bok_meta. pose proof (meta_level _ _ V2 M2) as L2. destruct res as [ins [e|]].
  { apply wp_ret. apply HQ; [eapply bok_weaken; [|exact B2]; lia|]. split; [|done]. eapply progress_trans; [by eapply entered_progress|by apply level_progress]. }
  destruct (agree_lookup _ _ _ _ _ V2 Hm1) as (m2 & Hm2 & E2). wp_step. apply wp_inCache, wp_modify.
  assert (Eo2 : m_Origin m2 = m_Origin m) by congruence. assert (Eq2 : m_Sequence m2 = m_Sequence m) by congruence.
  assert (Erec : recordReceivedLocked m (unixMilli now) c2 = recordReceivedLocked m2 (unixMilli now) c2).
  { unfold recordReceivedLocked. rewrite Eo2, Eq2. by assert (m_ExpiresAt m2 = m_ExpiresAt m) as -> by congruence. }
  destruct (record_taken n c2 g m2 (unixMilli now) B2) as (B3 & K3 & T3); [eauto|rewrite Eo2, Eq2, (lv_through _ _ L2), (en_through _ _ _ _ _ E); exact Es|].
  rewrite <- Erec in B3, K3, T3. rewrite Eo2, Eq2 in T3. set (c3 := recordReceivedLocked m (unixMilli now) c2) in *. pose proof K3 as [S3 C3 R3 Rb3]. unfold core in C3.
  assert (A3 : advanced (m_Origin m) (m_Sequence m) c c3).
  { eapply entered_advanced; [exact E|]. split.
    - rewrite <- (lv_max _ _ L2). congruence.
    - rewrite S3. done.
    - intros o'. rewrite T3. by rewrite (lv_through _ _ L2).
    - intros o' s' _. by rewrite R3, (lv_buffered _ _ L2).
    - intros r. by rewrite R3, (lv_buffered _ _ L2). }
  assert (Hg3 : c_reorder c3 = c_reorder c1) by (rewrite R3; unfold meta in M2; congruence).
  wp_step. apply (wp_mono _ _ (fun _ b => exists g', b = mkBroker c3 g' bo /\ bok (n - 1) c3 g')).
  { destruct ins; [eapply (wp_deliverNew n); [lia|exact B3|rewrite S3; exact Hm2|eauto]|].
    eapply (wp_duplicate n); [exact B3|]. intros g' B' _. exists g'. split; [done|]. eapply bok_weaken; [|exact B']. lia. }
  intros [] b (g3 & -> & B4). wp_step. apply wp_inCache. unfold bufferedAt. wp_step. apply wp_get. apply wp_ret.
  change (c_reorder c3 !! m_Origin m ≫= (.!! u64 (m_Sequence m + 1))) with (buffered (c_reorder c3) (m_Origin m) (u64 (m_Sequence m + 1))).
  destruct (buffered (c_reorder c3) (m_Origin m) (u64 (m_Sequence m + 1))) as [next|] eqn:Hnext.
  - destruct (next_msg _ _ _ _ _ _ B4 Hpos Hnext) as (E64 & m' & Hm' & Eo' & Es'). rewrite E64 in *.
    wp_step. apply wp_inCache. eapply wp_unbufferLocked; [exact B4|exact Hnext|]. intros c4 B5 U4. pose proof (unbuffered_without _ _ _ _ _ U4) as W4.
    pose proof U4 as [U4v U4c _ U4r U4b]. unfold core in U4c. rewrite (sizeAt_sizeOf _ _ _ Hm') in U4b. destruct (agree_lookup _ _ _ _ _ U4v Hm') as (m4 & Hm4 & E4).
    cut (forall c5 g', bok (n - 1) c5 g' -> level c4 c5 -> c_reorderBytes c5 = c_reorderBytes c4 -> default ∅ (c_reorder c5 !! m_Origin m) = default ∅ (c_reorder c4 !! m_Origin m) ->
      wp (acceptChain fuel first next fromGap now) (mkBroker c5 g' bo) Q).
    { intros Hgo. pose proof (wp_maybeClose (n - 1) c4 g3 bo (m_Origin m) (m_Topic m) (fun _ b => wp (acceptChain fuel first next fromGap now) b Q) B5 (fun c5 B6 => Hgo c5 g3 B6)) as Hcl.
      apply wp_bind_inv in Hcl. wp_step. eapply wp_mono; [exact Hcl|]. cbn beta. intros k b Hk. wp_step. exact Hk. }
    intros c5 g' B6 L5 Rb5 Hg5. destruct (agree_lookup _ _ _ _ _ (lv_view _ _ L5) Hm4) as (m5 & Hm5 & E5).
    assert (Eo5 : m_Origin m5 = m_Origin m) by congruence. assert (Es5 : m_Sequence m5 = m_Sequence m + 1) by congruence. assert (Ez5 : sizeOf m5 = sizeOf m') by congruence.
    assert (W5 : without (m_Origin m) (m_Sequence m + 1) c3 c5).
    { destruct W4 as [W1 W2 W3 W4']. destruct L5 as [L51 L52 L53 L54]. split; [congruence|by etransitivity|intros; by rewrite L53|intros; by rewrite L54]. }
    assert (Hgap5 : default ∅ (c_reorder c5 !! m_Origin m) = delete (m_Sequence m + 1) (default ∅ (c_reorder c3 !! m_Origin m))).
    { rewrite Hg5, U4r, alter_lookup, decide_True by done. by destruct (c_reorder c3 !! m_Origin m). }
    eapply (IH (n - 1) c5 g' first next fromGap m5 (fun r => given r \/ r = next)); [exact B6|lia| |exact Hm5| | |left; by right|].
    + eapply copies_view; [|exact Hc]. etransitivity; [apply A3|apply W5].
    + split; [rewrite Eo5, Es5, (wo_through _ _ _ _ W5), (ad_through _ _ _ _ A3), decide_True by done; lia|].
      intros _. left. rewrite Eo5, Es5, (wo_buffered _ _ _ _ W5), decide_True by done. split; [done|]. unfold room. rewrite Ez5, Rb5, U4b, (wo_max _ _ _ _ W5).
      pose proof (bo_gaps _ _ _ B4). lia.
    + unfold chainMeasure. rewrite Eo5, Hgap5. rewrite buffered_gaps in Hnext. pose proof (size_delete_some _ _ _ Hnext) as Hsz. rewrite Hg3 in *.
      destruct fromGap; [pose proof (size_delete_le (delete (m_Sequence m + 1) (default ∅ (c_reorder c1 !! m_Origin m))) (m_Sequence m5))|]; lia.
    + intros err c' g6 B7 Hch. apply HQ; [eapply bok_weaken; [|exact B7]; lia|]. eapply (chained_next given m m5 current c c3); [exact A3|exact Es|exact Hm|exact Hg|exact Eo5|exact Es5|].
      eapply chained_without; [exact B4|rewrite Eo5, Es5; exact Hnext|rewrite Eo5, Es5; exact W5|apply (bo_cache _ _ _ B7)|exact Hch].
  - wp_step. apply wp_ret. 
    cut (forall c5 g', bok (n - 1) c5 g' -> level c3 c5 -> Q None (mkBroker c5 g' bo)).
    { intros Hgo. pose proof (wp_maybeClose (n - 1) c3 g3 bo (m_Origin m) (m_Topic m) (fun _ b => Q None b) B4 (fun c5 B6 L _ _ => Hgo c5 g3 B6 L)) as Hcl.
      apply wp_bind_inv in Hcl. wp_step. eapply wp_mono; [exact Hcl|]. cbn beta. intros k b Hk. wp_step. eapply wp_mono; [exact Hk|]. intros [] b' Hb'. by apply wp_ret. }
    intros c5 g' B6 L5. apply HQ; [eapply bok_weaken; [|exact B6]; lia|]. eapply chained_stop; [by eapply level_advanced|exact Es|exact Hm|exact Hg].
Qed.

Lemma wp_acceptChain fuel now bo : chainNext fuel now bo.
Proof.
  induction fuel as [|fuel IH]; intros n c g first current fromGap m given Q B Hn Hc Hm Hready Hf Hg HQ; [lia|]. cbn [acceptChain]. pose proof Hready as [Es _].
  pose proof (u64_seq _ _ _ _ _ B Hm Es) as Hpos.
  wp_step. apply wp_inCache. eapply wp_cderef; [exact Hm|]. wp_step. apply wp_inCache. eapply wp_enterCopy; [exact B|exact Hc|exact Hm|exact Hready|].
  intros c1 B1 E Hcond Hmeas. rewrite <- Hmeas in Hf.
  destruct (bool_decide_reflect (m_ExpiresAt m <= unixMilli now)) as [Hexp|Hlive].
  { eapply (wp_chainExpired fuel now bo n c c1 g first current fromGap m given); [exact IH|exact B|exact Hn|exact Hc|exact Hm|exact Es|exact Hg|exact B1|exact E|exact Hf|exact HQ]. }
  wp_step. eapply (wp_prepare n _ _ _ [m]); [exact B1|intros x ->%list_elem_of_singleton; by apply (bo_small _ _ _ B _ _ Hm)|change (llen [m]) with 1; lia|].
  intros ok g1 B1' _. destruct ok; cbn [negb].
  - eapply (wp_chainInsert fuel now bo n c c1 g1 first current fromGap m given); [exact IH| |exact Hn|exact Hc|exact Hm|exact Es|exact Hg|exact B1'|exact E|exact Hf|exact HQ].
    eapply bok_sink; [exact B|apply B1'].
  - wp_step. eapply (wp_restore n c c1 g1 bo fromGap first current m given); [exact B1'|exact E|exact Hm|lia|exact Hcond|exact Hg|].
    intros c' B' P. apply wp_ret. apply HQ; [eapply bok_weaken; [|exact B']; lia|by split].
Qed.

(** ** Buffering *)

(** A message is behind its frontier or buffered. *)
Definition accounted (c : cache) (m : Message) : Prop :=
  m_Sequence m <= through c (m_Origin m) \/ is_Some (buffered (c_reorder c) (m_Origin m) (m_Sequence m)).

Lemma accounted_later given c c' m m' : progress given c c' -> retained c c' -> mview m' = mview m -> accounted c m -> accounted c' m'.
Proof.
  intros P R E [Hs|Hb]; unfold accounted; assert (m_Origin m' = m_Origin m) as -> by congruence; assert (m_Sequence m' = m_Sequence m) as -> by congruence.
  - left. pose proof (pr_through _ _ _ P (m_Origin m)). lia.
  - destruct (R _ _ Hb); [by right|by left].
Qed.

Lemma level_retained c c' : level c c' -> retained c c'.
Proof. intros L o s Hs. left. by rewrite (lv_buffered _ _ L). Qed.

(** What one message of the batch may answer. *)
Definition replicaOutcome (given : loc -> Prop) (m : Message) (c : cache) (err : option error) (c' : cache) : Prop :=
  progress given c c' /\ (err = None -> retained c c' /\ accounted c' m).

Lemma level_bok n c c' (g : G) : bok n c g -> cacheOK c' -> agree sview (c_mstore c) (c_mstore c') -> level c c' -> c_reorderBytes c' = c_reorderBytes c -> c_receivedThrough c' = c_receivedThrough c -> bok n c' g.
Proof.
  intros B K Hs L Hr Ht. pose proof (bo_gaps _ _ _ B). eapply bok_cache; [exact B|exact K|exact Hs|apply L|lia|].
  apply (seqs_sub c); [apply L| |rewrite Ht; eauto|apply B]. intros o s r. rewrite (lv_buffered _ _ L). eauto.
Qed.

Lemma wp_bufferGap n c (g : G) bo r m ms given (Q : option error -> broker G -> Prop) : bok n c g -> c_mstore c !! r = Some m -> 0 < m_Sequence m -> sizeOf m <= c_maxBytes c -> given r ->
  (forall err c' g', bok n c' g' -> replicaOutcome given m c err c' -> Q err (mkBroker c' g' bo)) -> wp (bufferGap r m ms) (mkBroker c g bo) Q.
Proof.
  intros B Hm Hpos Hsz Hgiven HQ. unfold bufferGap. wp_step. apply wp_inCache, wp_get. set (gaps := default ∅ (c_reorder c !! m_Origin m)).
  wp_step. apply wp_inCache, wp_modify. set (c1 := c <| c_reorder := <[m_Origin m := gaps]> (c_reorder c) |>).
  assert (Hg1 : forall o, default ∅ (c_reorder c1 !! o) = default ∅ (c_reorder c !! o)).
  { intros o. cbn. destruct (decide (o = m_Origin m)) as [->|Hne]; [by rewrite lookup_insert_eq|by rewrite lookup_insert_ne]. }
  assert (L1 : level c c1) by (split; try done; intros o s; by rewrite !buffered_gaps, Hg1).
  assert (B1 : bok n c1 g).
  { eapply level_bok; [exact B| |done|exact L1|done|done]. pose proof (bo_cache _ _ _ B) as [[L I] [R1 R2 R3]]. split; [exists L; eapply cinv_mframe; [|exact I]; by split|]. split; cbn; [| |done].
    - intros o s x Hx. apply R1. by rewrite <- (lv_buffered _ _ L1).
    - rewrite R2. unfold bufferedBytes. destruct (c_reorder c !! m_Origin m) as [g0|] eqn:Eg; subst gaps; cbn.
      + by rewrite insert_id.
      + rewrite msum_insert by done. assert (gapBytes (c_mstore c) ∅ = 0) as -> by apply msum_empty. done. }
  assert (Hlevel : forall c', level c c' -> replicaOutcome given m c (Some errRetentionCapacity) c').
  { intros c' L'. split; [by apply level_progress|done]. }
  destruct (bool_decide_reflect (is_Some (gaps !! m_Sequence m))) as [Hdup|Hnew].
  { wp_step. eapply (wp_duplicate n); [exact B1|]. intros g' B' _. apply wp_ret. apply HQ; [done|]. split; [by apply level_progress|]. intros _. split; [by apply level_retained|].
    right. by rewrite buffered_gaps, Hg1. }
  assert (Hn : gaps !! m_Sequence m = None) by (destruct (gaps !! m_Sequence m); [by destruct Hnew|done]).
  cut (forall c2 full, bok n c2 g -> level c1 c2 -> c_reorder c2 = c_reorder c1 -> c_reorderBytes c2 = c_reorderBytes c -> (full = false -> room c2 m) ->
    wp (if full : bool then
      inCache (gmodify (markUnsafeLocked (m_Topic m) ("overflow:" +:+ m_Origin m) (m_ExpiresAt m))) ;;; inSink sk_dropped ;;; gret (Some errRetentionCapacity)
    else inCache (
      gmodify (fun c => c <| c_reorder := <[m_Origin m := <[m_Sequence m := r]> gaps]> (c_reorder c) |>) ;;;
      gmodify (fun c => if bool_decide (default 0 (c_reorderSince c !! m_Origin m) = 0)
                        then c <| c_reorderSince := <[m_Origin m := ms]> (c_reorderSince c) |> else c) ;;;
      sz <- messageSize r ;;
      gmodify (fun c => c <| c_reorderBytes := i64 (c_reorderBytes c + sz) |>) ;;;
      gmodify (markUnsafeLocked (m_Topic m) ("gap:" +:+ m_Origin m) (m_ExpiresAt m))) ;;; gret None) (mkBroker c2 g bo) Q).
  { intros Hgo. wp_step. pose proof (bo_gaps _ _ _ B) as Hgaps. pose proof (bo_max _ _ _ B) as Hmax. destruct (bytes_nonneg _ _ _ B) as [_ Hrb]. pose proof (sizeOf_pos m).
    destruct (bool_decide_reflect (c_reorderLimit c <= mlen gaps)) as [Hlim|Hlim]; [apply wp_ret; apply (Hgo c1 true); try done; by split|]. wp_step. eapply wp_sizeB; [exact B1|exact Hm|]. intros c2 m2 B2 Q2 _ _ _.
    apply wp_ret. pose proof (qt_meta _ _ Q2) as M2. pose proof (meta_level _ _ (qt_view _ _ Q2) M2) as L2. unfold meta in M2.
    assert (Ei : i64 (c_reorderBytes c + sizeOf m) = c_reorderBytes c + sizeOf m).
    { assert (Z.quot (c_maxBytes c) 4 <= c_maxBytes c) by (apply Z.quot_le_upper_bound; lia). apply i64_id. unfold in_i64. change (2 ^ 60) with 1152921504606846976 in *. lia. }
    rewrite Ei. assert (Erb : c_reorderBytes c2 = c_reorderBytes c1) by congruence. assert (Emx : c_maxBytes c2 = c_maxBytes c1) by congruence. apply (Hgo c2); [done|done|congruence|done|].
    intros Hf%bool_decide_eq_false. unfold room. rewrite Erb, Emx. change (c_reorderBytes c1) with (c_reorderBytes c). change (c_maxBytes c1) with (c_maxBytes c). lia. }
  intros c2 full B2 L2 Ero2 Erb2 Hroom. assert (L02 : level c c2) by by eapply level_trans. destruct full.
  { wp_step. apply wp_inCache, wp_modify. destruct (mark_kept (m_Topic m) ("overflow:" +:+ m_Origin m) (m_ExpiresAt m) c2) as [K Hh]. destruct (kept_level _ _ _ _ B2 K Hh) as [B3 L3].
    wp_step. eapply (wp_dropped n); [exact B3|]. intros g' B'. apply wp_ret. apply HQ; [done|]. apply Hlevel. by eapply level_trans. }
  specialize (Hroom eq_refl). destruct (agree_lookup _ _ _ _ _ (lv_view _ _ L02) Hm) as (m2 & Hm2 & E2).
  wp_step. apply wp_inCache. wp_step. apply wp_modify. wp_step. apply wp_modify.
  set (c3 := c2 <| c_reorderSince := if bool_decide (default 0 (c_reorderSince c2 !! m_Origin m) = 0) then <[m_Origin m := ms]> (c_reorderSince c2) else c_reorderSince c2 |>).
  assert (K3 : kept c2 c3) by by split. destruct (kept_level _ _ _ _ B2 K3 eq_refl) as [B3 L3].
  assert (Hgap3 : c_reorder c3 !! m_Origin m = Some gaps) by (cbn; rewrite Ero2; cbn; apply lookup_insert_eq).
  assert (Hwp : wp (sz <- messageSize r ;; gmodify (fun c => c <| c_reorderBytes := i64 (c_reorderBytes c + sz) |>))
    (c3 <| c_reorder := <[m_Origin m := <[m_Sequence m := r]> gaps]> (c_reorder c2) |>)
    (fun _ c4 => bok n c4 g /\ progress given c c4 /\ retained c c4 /\ buffered (c_reorder c4) (m_Origin m) (m_Sequence m) = Some r)).
  { eapply (wp_rebuffer n c3 g (m_Origin m) (m_Sequence m) r m2 gaps); try done; [by left|congruence|congruence| |].
    { unfold room in Hroom. assert (sizeOf m2 = sizeOf m) as -> by congruence. exact Hroom. }
    intros c4 B4 V4 C4 H4 Ro4 _. split; [done|]. unfold core in C4. unfold hist in H4. assert (L03 : level c c3) by (by eapply level_trans).
    assert (Hth : forall o, through c4 o = through c o) by (intros o; rewrite <- (lv_through _ _ L03); unfold through; by assert (c_receivedThrough c4 = c_receivedThrough c3) as -> by congruence).
    assert (Hb : forall o s, buffered (c_reorder c4) o s = if decide (o = m_Origin m /\ s = m_Sequence m) then Some r else buffered (c_reorder c) o s).
    { intros o s. rewrite <- (lv_buffered _ _ L02), !buffered_gaps, Ro4. destruct (decide (o = m_Origin m)) as [->|Hne]; [|rewrite lookup_insert_ne by done; by rewrite decide_False by tauto].
      rewrite lookup_insert_eq. assert (c_reorder c2 !! m_Origin m = Some gaps) as -> by exact Hgap3. cbn.
      destruct (decide (s = m_Sequence m)) as [->|Hns]; [by rewrite lookup_insert_eq, decide_True|rewrite lookup_insert_ne by done; by rewrite decide_False by tauto]. }
    split_and!; [split| |].
    - rewrite <- (lv_max _ _ L03). congruence.
    - etransitivity; [apply L03|done].
    - intros o. rewrite Hth. lia.
    - intros o s. rewrite Hth. lia.
    - intros o s x. rewrite Hb. case_decide; [intros [= <-]; by right|by left].
    - intros o s Hs. left. rewrite Hb. case_decide; [by eexists|done].
    - rewrite Hb. by rewrite decide_True. }
  match goal with |- wp _ ?x _ => replace x with (c3 <| c_reorder := <[m_Origin m := <[m_Sequence m := r]> gaps]> (c_reorder c2) |>) end.
  2: { unfold c3. cbn [c_reorderSince]. change (c_reorderSince (c2 <| c_reorder := <[m_Origin m := <[m_Sequence m := r]> gaps]> (c_reorder c2) |>)) with (c_reorderSince c2). destruct (bool_decide _); [done|]. by destruct c2. }
  apply wp_bind. apply wp_bind_inv in Hwp. eapply wp_mono; [exact Hwp|]. cbn beta. intros sz c4 Hw. wp_step. eapply wp_mono; [exact Hw|]. intros [] c5 (B5 & P5 & R5 & Hb5).
  apply wp_modify. apply wp_ret. destruct (mark_kept (m_Topic m) ("gap:" +:+ m_Origin m) (m_ExpiresAt m) c5) as [K Hh]. destruct (kept_level _ _ _ _ B5 K Hh) as [B6 L6].
  apply HQ; [done|]. pose proof (level_progress given _ _ L6) as P6. split; [by eapply progress_trans|]. intros _. split; [by eapply retained_trans; [exact P6| |apply level_retained]|].
  right. rewrite (lv_buffered _ _ L6). by eexists.
Qed.

(** ** One message of the batch *)
Lemma chained_outcome given m c err c' : chained given m c err c' -> replicaOutcome given m c err c'.
Proof. intros [P R]. split; [done|]. intros He. destruct (R He) as [Rt Hs]. split; [done|by left]. Qed.

Lemma chain_fuel n c (g : G) o : bok n c g -> (size (default ∅ (c_reorder c !! o)) <= size (c_mstore c))%nat.
Proof.
  intros B. set (gaps := default ∅ (c_reorder c !! o)). rewrite <- length_map_to_list, <- (length_fmap snd). apply length_live.
  - apply NoDup_fmap_2_strong; [|apply NoDup_map_to_list]. intros [s x] [s' x'] Hx%elem_of_map_to_list Hx'%elem_of_map_to_list E. cbn in E. subst x'.
    unfold gaps in Hx, Hx'. rewrite <- buffered_gaps in Hx, Hx'. destruct (buffered_msg _ _ _ _ _ _ B Hx) as (m & Hm & _ & Es & _), (buffered_msg _ _ _ _ _ _ B Hx') as (m' & Hm' & _ & Es' & _). congruence.
  - intros r Hr. apply list_elem_of_fmap in Hr as ([s x] & -> & Hx%elem_of_map_to_list). unfold gaps in Hx. rewrite <- buffered_gaps in Hx.
    destruct (buffered_msg _ _ _ _ _ _ B Hx) as (m & Hm & _). by eexists.
Qed.

Lemma wp_acceptReplica n c (g : G) bo r m now k given (Q : option error -> broker G -> Prop) : bok n c g -> copies (c_mstore c) -> c_mstore c !! r = Some m -> m_Sequence m <> 0 ->
  sizeOf m <= c_maxBytes c -> given r -> Z.of_nat (S (S (size (c_mstore c)))) <= k -> k <= n ->
  (forall err c' g', bok (n - k) c' g' -> replicaOutcome given m c err c' -> Q err (mkBroker c' g' bo)) -> wp (acceptReplica r now) (mkBroker c g bo) Q.
Proof.
  intros B Hc Hm Hs0 Hsz Hgiven Hk Hn HQ. unfold acceptReplica. cbv zeta. wp_step. apply wp_inCache. eapply wp_cderef; [exact Hm|]. wp_step. apply wp_inCache, wp_get.
  fold (through c (m_Origin m)). pose proof (through_range _ _ _ (m_Origin m) B) as Ht. pose proof (sq_u64 _ (bo_seqs _ _ _ B) _ _ Hm) as Hu.
  assert (Hweak : forall c' g', bok n c' g' -> bok (n - k) c' g') by (intros c' g' B'; eapply bok_weaken; [|exact B']; lia).
  destruct (bool_decide_reflect (m_Sequence m <= through c (m_Origin m))) as [Hold|Hnew].
  - destruct (bool_decide (c_items c !! m_ID m = None) && bool_decide (unixMilli now < m_ExpiresAt m)).
    { apply wp_ret. apply HQ; [by apply Hweak|]. split; [apply progress_refl|done]. }
    wp_step. apply (wp_mono _ _ (fun _ b => exists g', b = mkBroker c g' bo /\ bok n c g')).
    { destruct (bool_decide _); [eapply (wp_duplicate n); [exact B|eauto]|apply wp_ret; eauto]. }
    intros [] b (g1 & -> & B1). wp_step. apply wp_inCache. unfold bufferedAt. wp_step. apply wp_get. apply wp_ret.
    change (c_reorder c !! m_Origin m ≫= (.!! u64 (through c (m_Origin m) + 1))) with (buffered (c_reorder c) (m_Origin m) (u64 (through c (m_Origin m) + 1))).
    destruct (buffered (c_reorder c) (m_Origin m) (u64 (through c (m_Origin m) + 1))) as [next|] eqn:Hnext.
    2: { apply wp_ret. apply HQ; [by apply Hweak|]. split; [apply progress_refl|]. intros _. split; [by left|by left]. }
    destruct (next_buffered _ _ _ _ _ B1 Hnext) as (E64 & m' & Hm' & Eo' & Es'). rewrite E64 in Hnext.
    wp_step. apply wp_inCache. eapply wp_cderef; [exact Hm'|]. rewrite Eo', Es'. wp_step. apply wp_inCache.
    eapply wp_unbufferLocked; [exact B1|exact Hnext|]. intros c1 B2 U. pose proof (unbuffered_without _ _ _ _ _ U) as W. pose proof U as [U1 _ _ U4 U5].
    rewrite (sizeAt_sizeOf _ _ _ Hm') in U5. destruct (agree_lookup _ _ _ _ _ U1 Hm') as (m1 & Hm1 & E1). rewrite E64, (bool_decide_false (_ < _)) by lia. wp_step. apply wp_inCache, wp_get.
    assert (Eo1 : m_Origin m1 = m_Origin m) by congruence. assert (Es1 : m_Sequence m1 = through c (m_Origin m) + 1) by congruence.
    assert (Hsize : (chainFuel (m_Origin m) c1 <= S (S (size (c_mstore c))))%nat).
    { unfold chainFuel. rewrite U4, alter_lookup, decide_True by done. pose proof (chain_fuel n c g1 (m_Origin m) B1) as Hf.
      destruct (c_reorder c !! m_Origin m) as [gaps|]; cbn in *; [|lia]. pose proof (size_delete_le gaps (through c (m_Origin m) + 1)). lia. }
    eapply (wp_acceptChain (chainFuel (m_Origin m) c1) now bo n c1 g1 next next true m1 (fun x => given x \/ x = next)); [exact B2|lia|by eapply copies_view|exact Hm1| | |left; by right|].
    + split; [by rewrite Eo1, Es1, (wo_through _ _ _ _ W)|]. intros _. left. rewrite Eo1, Es1, (wo_buffered _ _ _ _ W), decide_True by done. split; [done|].
      unfold room. rewrite U5, (wo_max _ _ _ _ W). assert (sizeOf m1 = sizeOf m') as -> by congruence. pose proof (bo_gaps _ _ _ B). lia.
    + unfold chainMeasure, chainFuel. rewrite Eo1. pose proof (size_delete_le (default ∅ (c_reorder c1 !! m_Origin m)) (m_Sequence m1)). lia.
    + intros err c' g' B' Hch. apply HQ; [eapply bok_weaken; [|exact B']; lia|]. 
      assert (Hch' : chained given m1 c err c') by (eapply chained_without; [exact B1|rewrite Eo1, Es1; exact Hnext|rewrite Eo1, Es1; exact W|apply (bo_cache _ _ _ B')|exact Hch]).
      destruct Hch' as [P Rt]. split; [done|]. intros He. destruct (Rt He) as [R1 Hs1]. split; [done|]. left. rewrite Eo1, Es1 in Hs1. lia.
  - assert (E64 : u64 (through c (m_Origin m) + 1) = through c (m_Origin m) + 1) by (apply u64_id; unfold in_u64; change (2 ^ 64) with 18446744073709551616 in *; lia). rewrite E64.
    destruct (bool_decide_reflect (through c (m_Origin m) + 1 < m_Sequence m)) as [Hgap|Hfront].
    + eapply (wp_bufferGap n c g bo r m _ given); [exact B|exact Hm|lia|exact Hsz|exact Hgiven|]. intros err c' g' B' Hout. apply HQ; [by apply Hweak|done].
    + assert (Es : m_Sequence m = through c (m_Origin m) + 1) by lia. pose proof (chain_fuel n c g (m_Origin m) B) as Hfuel.
      eapply (wp_acceptChain (chainFuel (m_Origin m) c) now bo n c g r r false m given); [exact B|unfold chainFuel; lia|exact Hc|exact Hm|split; [done|by intros [?|?]]| |by left|].
      * unfold chainMeasure, chainFuel. lia.
      * intros err c' g' B' Hch. apply HQ; [eapply bok_weaken; [|exact B']; unfold chainFuel; lia|by apply chained_outcome].
Qed.

(** ** The batch *)
Definition replicasOutcome (rs : list loc) (c : cache) (err : option error) (c' : cache) : Prop :=
  progress (fun r => r ∈ rs) c c' /\ (err = None -> retained c c' /\ forall r m', r ∈ rs -> c_mstore c' !! r = Some m' -> accounted c' m').

Lemma wp_acceptReplicas (rs0 : list loc) now bo k (rs : list loc) : forall n c (g : G) (Q : option error -> broker G -> Prop), bok n c g -> copies (c_mstore c) ->
  (forall r, r ∈ rs -> r ∈ rs0 /\ exists m, c_mstore c !! r = Some m /\ m_Sequence m <> 0 /\ sizeOf m <= c_maxBytes c) ->
  Z.of_nat (S (S (size (c_mstore c)))) <= k -> k * llen rs <= n ->
  (forall err c' g', bok (n - k * llen rs) c' g' -> progress (fun r => r ∈ rs0) c c' /\ (err = None -> retained c c' /\ forall r m', r ∈ rs -> c_mstore c' !! r = Some m' -> accounted c' m') ->
     Q err (mkBroker c' g' bo)) ->
  wp (acceptReplicas rs now) (mkBroker c g bo) Q.
Proof.
  induction rs as [|r rs IH]; intros n c g Q B Hc Hl Hk Hn HQ; cbn [acceptReplicas].
  { apply wp_ret. apply HQ; [eapply bok_weaken; [|exact B]; change (llen []) with 0; lia|]. split; [apply progress_refl|]. intros _. split; [by left|]. intros r m' Hr. by apply elem_of_nil in Hr. }
  rewrite llen_cons in *. pose proof (llen_nonneg rs) as Hlen. destruct (Hl r) as (Hr0 & m & Hm & Hs0 & Hsz); [left|].
  wp_step. eapply (wp_acceptReplica n c g bo r m now k (fun r => r ∈ rs0)); [exact B|exact Hc|exact Hm|exact Hs0|exact Hsz|exact Hr0|exact Hk|nia|].
  intros err c1 g1 B1 [P1 R1]. destruct err as [e|].
  { apply wp_ret. apply HQ; [eapply bok_weaken; [|exact B1]; nia|]. by split. }
  destruct (R1 eq_refl) as [Rt1 A1]. pose proof (pr_view _ _ _ P1) as V1.
  eapply (IH (n - k) c1 g1); [exact B1|by eapply copies_view| |by rewrite (agree_size _ _ _ V1)|lia|].
  - intros x Hx. destruct (Hl x) as (Hx0 & mx & Hmx & Hsx & Hzx); [by right|]. destruct (agree_lookup _ _ _ _ _ V1 Hmx) as (mx1 & Hmx1 & Ex).
    split; [done|]. exists mx1. split; [done|]. rewrite (pr_max _ _ _ P1). assert (m_Sequence mx1 = m_Sequence mx) as -> by congruence. by assert (sizeOf mx1 = sizeOf mx) as -> by congruence.
  - intros err c2 g2 B2 [P2 R2]. apply HQ; [by replace (n - k * (1 + llen rs)) with (n - k - k * llen rs) by lia|]. split; [by eapply progress_trans|].
    intros He. destruct (R2 He) as [Rt2 A2]. split; [by eapply retained_trans|]. intros x mx' [->|Hx]%elem_of_cons Hmx'; [|by eapply A2].
    destruct (agree_lookup _ _ _ _ _ V1 Hm) as (m1 & Hm1 & E1). destruct (agree_lookup _ _ _ _ _ (pr_view _ _ _ P2) Hm1) as (m2 & Hm2 & E2). assert (m2 = mx') as -> by congruence.
    eapply (accounted_later _ c1 c2 m); [exact P2|exact Rt2|congruence|exact A1].
Qed.

Lemma wp_validReplicas (rs : list loc) : forall c (Q : bool -> cache -> Prop), cacheOK c -> (forall r, r ∈ rs -> is_Some (c_mstore c !! r)) ->
  (forall ok c', cacheOK c' -> quiet c c' -> (ok = true -> forall r m, r ∈ rs -> c_mstore c !! r = Some m -> m_Origin m <> "" /\ m_Sequence m <> 0 /\ sizeOf m <= c_maxBytes c) -> Q ok c') ->
  wp (validReplicas rs) c Q.
Proof.
  induction rs as [|r rs IH]; intros c Q K Hl HQ; cbn [validReplicas].
  { apply wp_ret. apply HQ; [done|apply quiet_refl|]. intros _ r m Hr. by apply elem_of_nil in Hr. }
  destruct (Hl r) as [m Hm]; [left|]. wp_step. eapply wp_cderef; [exact Hm|].
  destruct (bool_decide_reflect (m_Origin m = "")) as [Ho|Ho]; cbn [orb]; [by apply wp_ret, HQ; try done; apply quiet_refl|].
  destruct (bool_decide_reflect (m_Sequence m = 0)) as [Hs|Hs]; [by apply wp_ret, HQ; try done; apply quiet_refl|].
  wp_step. eapply wp_size; [done|exact Hm|]. intros c1 K1 Q1 _ _. destruct (quiet_fields _ _ Q1) as (Emax & _). wp_step. apply wp_get. rewrite Emax.
  destruct (bool_decide_reflect (c_maxBytes c < sizeOf m)) as [Hbig|Hfit]; [by apply wp_ret, HQ|].
  apply IH; [done|by eapply quiet_live; [|intros x Hx; apply Hl; by right]|]. intros ok c2 K2 Q2 Hok. apply HQ; [done|by eapply quiet_trans|].
  intros E x mx [->|Hx]%elem_of_cons Hmx; [assert (mx = m) as -> by congruence; split_and!; [done|done|lia]|].
  destruct (agree_lookup _ _ _ _ _ (qt_view _ _ Q1) Hmx) as (mx1 & Hmx1 & Ex). destruct (Hok E x mx1 Hx Hmx1) as (H1 & H2 & H3). rewrite Emax in H3. split_and!; congruence.
Qed.

Lemma wp_addedReplicas (rs : list loc) : forall seen added c (Q : Z -> cache -> Prop), cacheOK c -> (forall r, r ∈ rs -> is_Some (c_mstore c !! r)) ->
  (forall z c', cacheOK c' -> quiet c c' -> Q z c') -> wp (addedReplicas rs seen added) c Q.
Proof.
  induction rs as [|r rs IH]; intros seen added c Q K Hl HQ; cbn [addedReplicas]; [apply wp_ret, HQ; [done|apply quiet_refl]|].
  destruct (Hl r) as [m Hm]; [left|]. wp_step. eapply wp_cderef; [exact Hm|]. cbv zeta.
  assert (Hl' : forall x, x ∈ rs -> is_Some (c_mstore c !! x)) by (intros x Hx; apply Hl; by right).
  destruct (bool_decide _); [by apply IH|]. wp_step. apply wp_get. wp_step. unfold bufferedAt. wp_step. apply wp_get. apply wp_ret.
  destruct (_ && _); [|by apply IH]. wp_step. eapply wp_size; [done|exact Hm|]. intros c1 K1 Q1 _ _. apply IH; [done|by eapply quiet_live|].
  intros z c2 K2 Q2. apply HQ; [done|by eapply quiet_trans].
Qed.

Lemma wp_acceptReplicated n c (g : G) bo (rs : list loc) now k (Q : option error -> broker G -> Prop) : bok n c g -> copies (c_mstore c) -> (forall r, r ∈ rs -> is_Some (c_mstore c !! r)) ->
  Z.of_nat (S (S (size (c_mstore c)))) <= k -> k * llen rs <= n ->
  (forall err c1 c' g', swept (unixMilli now) c c1 -> bok (n - k * llen rs) c' g' -> replicasOutcome rs c1 err c' -> Q err (mkBroker c' g' bo)) ->
  wp (acceptReplicatedBatch rs now) (mkBroker c g bo) Q.
Proof.
  intros B Hc Hl Hk Hn HQ. pose proof (llen_nonneg rs) as Hlen. unfold acceptReplicatedBatch. cbv zeta. wp_step. apply (wp_sweep n); [done|]. intros c1 B1 S1.
  pose proof (sw_view _ _ _ S1) as V1.
  assert (Hl1 : forall r, r ∈ rs -> is_Some (c_mstore c1 !! r)).
  { intros r Hr. destruct (Hl r Hr) as [m Hm]. destruct (agree_lookup _ _ _ _ _ V1 Hm) as (? & ? & _). eauto. }
  assert (HQq : forall e c' g', bok n c' g' -> quiet c1 c' -> Q (Some e) (mkBroker c' g' bo)).
  { intros e c' g' B' Hq. eapply HQ; [exact S1|eapply bok_weaken; [|exact B']; nia|]. split; [|done]. apply level_progress. by apply meta_level; apply Hq. }
  assert (Hbq : forall c' g', bok n c1 g' -> cacheOK c' -> quiet c1 c' -> bok n c' g') by (intros c' g' B' K' [_ Hv Hmeta _ _]; by eapply bok_meta).
  wp_step. apply wp_inCache. apply wp_validReplicas; [apply B1|exact Hl1|]. intros ok c2 K2 Q2 Hok. destruct ok; cbn [negb]; [|by apply wp_ret, HQq; [apply Hbq|]].
  specialize (Hok eq_refl). pose proof (quiet_live _ _ _ Q2 Hl1) as Hl2. wp_step. apply wp_inCache. apply wp_derefs; [exact Hl2|]. intros ms Ems _.
  wp_step. apply wp_inCache, wp_get. destruct (originCapacityLocked ms c2); cbn [negb]; [|by apply wp_ret, HQq; [apply Hbq|]].
  wp_step. apply wp_inCache. apply wp_addedReplicas; [done|exact Hl2|]. intros added c3 K3 Q3. pose proof (quiet_trans _ _ _ Q2 Q3) as Q13.
  destruct (bool_decide _); [by apply wp_ret, HQq; [apply Hbq|]|].
  assert (B3 : bok n c3 g) by by apply Hbq. pose proof (qt_view _ _ Q13) as V13. destruct (quiet_fields _ _ Q13) as (Emax3 & _).
  set (sorted := (stable_sort byOrigin (zip rs ms)).*1).
  assert (Hperm : sorted ≡ₚ rs). { unfold sorted. rewrite (stable_sort_perm byOrigin). by rewrite fst_zip by (rewrite Ems; lia). }
  assert (Elen : llen sorted = llen rs) by (unfold llen; by rewrite Hperm).
  eapply (wp_acceptReplicas rs now bo k sorted n c3 g); [exact B3| | | |by rewrite Elen|].
  - eapply copies_view; [exact V13|]. by eapply copies_view.
  - intros r Hr. rewrite Hperm in Hr. split; [done|]. destruct (Hl1 r Hr) as [m Hm]. destruct (agree_lookup _ _ _ _ _ V13 Hm) as (m3 & Hm3 & E3).
    destruct (Hok r m Hr Hm) as (_ & H2 & H3). exists m3. split_and!; [done|congruence|]. rewrite Emax3. assert (sizeOf m3 = sizeOf m) as -> by congruence. done.
  - by rewrite (agree_size _ _ _ V13), (agree_size _ _ _ V1).
  - intros err c' g' B' [P Rt]. rewrite Elen in B'. eapply HQ; [exact S1|exact B'|]. pose proof (meta_level _ _ V13 (qt_meta _ _ Q13)) as L. split; [eapply progress_trans; [by apply level_progress|exact P]|].
    intros He. destruct (Rt He) as [R1 A1]. split; [eapply retained_trans; [exact P|by apply level_retained|exact R1]|]. intros r m' Hr. apply A1. by rewrite Hperm.
Qed.
End Replica.
