(* ===== verification/AcceptGroups.v ===== *)
(** * The groups behind the accepting code

    [groups] is what accept.v's handlers call through [Sink]: [prepareGroupWork], [deliver], the
    sequence of identifiers and two counters.  The laws that the handlers rely on are discharged from
    the theorems about consumer groups. *)
From S2P Require Import Prelude GoHeap Dll KeyedLists Types Config Metrics GoIO Checkpoints.
From S2P Require Import Pending PendingInv Deliveries GroupIndex GroupWork GroupInv SubscriberInv GroupLoop GroupRetry GroupTick.
From S2P Require Import Cache CacheIndex CacheExpiry CacheInv CacheExpire CacheSpec Accept AcceptInv.
#[local] Open Scope Z_scope.

(** [b.seq.Add(1)] *)
Definition nextSeq : GoM groups Z :=
  inDeliveries (gmodify (fun d => d <| dv_seq := u64 (dv_seq d + 1) |>) ;;; d <- gget ;; gret (dv_seq d)).

#[export] Instance groups_sink : Sink groups := {
  sk_prepare messages t := prepareGroupWork messages "" t;
  sk_deliver m now := deliver m "" 1 now;
  sk_next := nextSeq;
  sk_duplicate := count mt_Duplicate;
  sk_dropped := count mt_ReplicationDropped;
}.

(** The most identifiers that one message takes: one for each group and each broadcast member. *)
Definition fanout (b : groups) : Z := mlen (gr_groupWork b) + msum (fun _ ms => mlen ms) (gr_topicBroadcast b).

Lemma receivers_fanout topic b : 0 <= receivers topic b <= fanout b.
Proof.
  unfold receivers, fanout, broadcastOf, mlen. destruct (gr_topicBroadcast b !! topic) as [ms|] eqn:E; cbn.
  - pose proof (msum_le_elem (fun _ (ms : gmap string loc) => Z.of_nat (size ms)) (gr_topicBroadcast b) topic ms) as Hle.
    cbn beta in Hle. specialize (Hle ltac:(intros; lia) E). lia.
  - assert (0 <= msum (fun _ (ms : gmap string loc) => Z.of_nat (size ms)) (gr_topicBroadcast b)) by (apply msum_nonneg; intros; lia).
    rewrite map_size_empty. lia.
Qed.

(** Consistent, with identifiers and charges for [n] more messages. *)
Record room (n : Z) (b : groups) : Prop := {
  rm_inv : ginv b;
  rm_ids : dv_seq (gr_dv b) + n * (fanout b + 1) < 2 ^ 64;
  rm_work : (n + 1) * mlen (gr_groupWork b) < 2 ^ 29;
}.

Definition light (m : Message) : Prop := sizeOf m < 2 ^ 62 /\ workCharge m < 2 ^ 32.

Lemma chargeOf_light ms : Forall light ms -> chargeOf (Some <$> ms) <= 2 ^ 32 * llen ms.
Proof.
  unfold chargeOf. induction 1 as [|m ms [_ Hm] _ IH]; [done|]. rewrite fmap_cons. cbn [omap list_omap id].
  rewrite fmap_cons, zsum_cons, llen_cons. cbn [omap list_omap] in IH. change (2 ^ 32) with 4294967296 in *. lia.
Qed.

Lemma room_served n k b b' : room n b -> 0 <= k -> ginv b' -> scopesKept b b' -> gr_topicBroadcast b' = gr_topicBroadcast b ->
  dv_seq (gr_dv b') <= dv_seq (gr_dv b) + k * (fanout b + 1) -> room (n - k) b'.
Proof.
  intros [R1 R2 R3] Hk G Hs Hb Hseq. pose proof (scopesKept_len _ _ Hs) as El.
  assert (Ef : fanout b' = fanout b) by (unfold fanout; by rewrite El, Hb). assert (0 <= mlen (gr_groupWork b)) by (unfold mlen; lia).
  split; [done|rewrite Ef; lia|rewrite El; nia].
Qed.

Lemma room_metrics n b mt : room n b -> room n (b <| gr_dv := (gr_dv b) <| dv_metrics := mt |> |>).
Proof. intros [R1 R2 R3]. split; [by apply ginv_metrics|exact R2|exact R3]. Qed.

Lemma wp_nextSeq b (Q : Z -> groups -> Prop) : ginv b -> dv_seq (gr_dv b) + 1 < 2 ^ 64 ->
  (let d := (gr_dv b) <| dv_seq := dv_seq (gr_dv b) + 1 |> in ginv (b <| gr_dv := d |>) -> Q (dv_seq (gr_dv b) + 1) (b <| gr_dv := d |>)) -> wp nextSeq b Q.
Proof.
  intros G Hlt HQ. destruct (gn_pend _ G) as [L I]. pose proof (pi_seq _ _ I) as Hnn. unfold nextSeq. apply wp_inDeliveries. wp_step. apply wp_modify. wp_step. apply wp_get. apply wp_ret.
  rewrite (u64_id (dv_seq (gr_dv b) + 1)) by (unfold in_u64; lia). apply HQ. apply ginv_dv; [done|exists L; by apply pinv_seq|]. by split.
Qed.

#[export] Program Instance groups_laws : SinkLaws groups := {
  sk_ok := room;
  sk_small := light;
}.
Next Obligation. intros m m' E [H1 H2]. unfold light, workCharge, deliveryAffinity in *. unfold sview in E. injection E as E1 _ E3 E4. rewrite E1, E3, E4. by split. Qed.
Next Obligation.
  intros n n' b Hle [R1 R2 R3]. pose proof (receivers_fanout "" b). assert (0 <= mlen (gr_groupWork b)) by (unfold mlen; lia). split; [done|nia|nia].
Qed.
Next Obligation.
  intros n b ms t R Hl Hn. pose proof R as [R1 R2 R3]. pose proof (chargeOf_light ms Hl) as Hc. pose proof (llen_nonneg ms).
  assert (0 <= mlen (gr_groupWork b)) by (unfold mlen; lia). cbn. apply wp_prepareGroupWork; [apply (gn_mem _ R1)|..].
  { eapply Z.le_lt_trans; [apply expansion_bound, (gn_mem _ R1)|]. change (2 ^ 62) with (2 ^ 32 * 2 ^ 30). change (2 ^ 32) with 4294967296 in *.
    change (2 ^ 29) with 536870912 in *. change (2 ^ 30) with 1073741824. nia. }
  intros ok b' M Hp. split; [|by intros ->]. destruct (prepared_delivering ex_message _ _ _ _ _ _ Hp R1 M) as [G [S _ K _]].
  replace n with (n - 0) by lia. eapply room_served; [exact R|lia|exact G|exact K|by eapply sv_broadcast|]. pose proof (sv_seq _ _ _ S). lia.
Qed.
Next Obligation.
  intros n b m t Hn R [Hm Hw]. pose proof R as [R1 R2 R3]. pose proof (receivers_fanout (m_Topic m) b) as Hf. assert (0 <= mlen (gr_groupWork b)) by (unfold mlen; lia).
  cbn. apply wp_deliver; [done|done| |nia|].
  { pose proof (workCharge_pos m). change (2 ^ 62) with 4611686018427387904. change (2 ^ 32) with 4294967296 in *. change (2 ^ 29) with 536870912 in *. nia. }
  intros b' G [S _ K _]. eapply room_served; [exact R|lia|exact G|exact K|by eapply sv_broadcast|]. pose proof (sv_seq _ _ _ S). lia.
Qed.
Next Obligation.
  intros n b Hn R. pose proof R as [R1 R2 R3]. pose proof (receivers_fanout "" b). apply wp_nextSeq; [done|nia|]. cbv zeta. intros G.
  eapply (room_served n 1 b); [exact R|lia|exact G|done|done|]. cbn. lia.
Qed.
Next Obligation. intros n b R. apply wp_count_b. intros mt. by apply room_metrics. Qed.
Next Obligation. intros n b R. apply wp_count_b. intros mt. by apply room_metrics. Qed.
