(* ===== verification/AcceptSpec.v ===== *)
(** * Accepting messages: what the handlers promise

    The properties of [acceptLocked], [acceptIdempotent], [acceptBatchLocked] and
    [acceptReplicatedBatch], of the cache and the consumer groups together.  [bok n c b] is the
    invariant: both are consistent, and there are identifiers left for [n] more messages. *)
From S2P Require Import Prelude GoHeap Dll KeyedLists Types Config Metrics GoIO Checkpoints.
From S2P Require Import Pending PendingInv Deliveries GroupIndex GroupWork GroupInv SubscriberInv GroupLoop GroupRetry GroupTick Groups.
From S2P Require Import Cache CacheIndex CacheExpiry CacheInv CacheExpire CacheSpec Accept AcceptInv AcceptLocal AcceptGaps AcceptBatch AcceptReplica AcceptGroups.
#[local] Open Scope Z_scope.

(** ** The idempotent publication *)

(** The cached message is what the repeated request would publish; [ttl] is in milliseconds. *)
Definition sameRequest (m existing : Message) (ttl : Z) : Prop :=
  m_Topic existing = m_Topic m /\ m_Key existing = m_Key m /\
  default "" (m_Headers existing !! "content-type") = default "" (m_Headers m !! "content-type") /\
  m_Payload existing = m_Payload m /\ i64 (m_ExpiresAt existing - m_CreatedAt existing) = ttl.

Lemma conflict_spec m existing ttl :
  bool_decide (m_Topic existing <> m_Topic m) || bool_decide (m_Key existing <> m_Key m)
    || bool_decide (default "" (m_Headers existing !! "content-type") <> default "" (m_Headers m !! "content-type"))
    || bool_decide (m_Payload existing <> m_Payload m)
    || bool_decide (i64 (m_ExpiresAt existing - m_CreatedAt existing) <> ttl) = false <-> sameRequest m existing ttl.
Proof. unfold sameRequest. rewrite !orb_false_iff, !bool_decide_eq_false. split; intros H; split_and!; try tauto; apply dec_stable; tauto. Qed.

(** What [acceptIdempotent] may answer about the message [m] when the cache, after the sweep, is [c]. *)
Definition idempotentOutcome (bo : string) (r : loc) (m : Message) (ttl now : Z) (c : cache) (b : groups)
    (res : option loc * bool * option error) (c' : cache) (b' : groups) : Prop :=
  match c_items c !! m_ID m with
  | Some x => c' = c /\ b' = b /\ exists existing, c_mstore c !! x = Some existing /\ m_ID existing = m_ID m /\
      ((sameRequest m existing ttl /\ res = (Some x, false, None)) \/
       (~ sameRequest m existing ttl /\ res = (None, false, Some errIdempotencyConflict)))
  | None => exists c2 m2 inserted err, swept (unixMilli now) c c2 /\ c_mstore c2 !! r = Some m2 /\ mview m2 = mview m /\
      res = (Some r, inserted, err) /\ acceptOutcome bo r m2 c2 b (inserted, err) c' b'
  end.

Lemma wp_acceptIdempotent n c (b : groups) bo r m ttl now (Q : option loc * bool * option error -> broker groups -> Prop) :
  2 <= n -> bok n c b -> c_mstore c !! r = Some m -> (m_Origin m = "" -> owned c r) ->
  (forall res c1 m1 c' b', swept (unixMilli now) c c1 -> c_mstore c1 !! r = Some m1 -> mview m1 = mview m -> bok (n - 2) c' b' ->
     idempotentOutcome bo r m1 ttl now c1 b res c' b' -> Q res (mkBroker c' b' bo)) ->
  wp (acceptIdempotent r ttl now) (mkBroker c b bo) Q.
Proof.
  intros Hn B Hm Ho HQ. unfold acceptIdempotent. cbv zeta. wp_step. apply (wp_sweep n); [done|]. intros c1 B1 S1.
  destruct (agree_lookup _ _ _ _ _ (sw_view _ _ _ S1) Hm) as (m1 & Hm1 & E1). destruct (swept_fields _ _ _ (bo_cache _ _ _ B) S1) as (_ & _ & Hown & _).
  wp_step. apply wp_inCache. eapply wp_cderef; [exact Hm1|]. wp_step. apply wp_inCache, wp_get.
  destruct (c_items c1 !! m_ID m1) as [x|] eqn:Ex.
  - pose proof (bo_cache _ _ _ B1) as [[L1 I1] _]. destruct (ci_item _ _ _ _ _ I1 Ex) as (existing & Hx & Eid).
    wp_step. apply wp_inCache. eapply wp_cderef; [exact Hx|].
    assert (Hdone : forall res, (sameRequest m1 existing ttl /\ res = (Some x, false, None)) \/
       (~ sameRequest m1 existing ttl /\ res = (None, false, Some errIdempotencyConflict)) -> Q res (mkBroker c1 b bo)).
    { intros res Hres. eapply HQ; [exact S1|exact Hm1|done|eapply bok_weaken; [|exact B1]; lia|]. unfold idempotentOutcome. rewrite Ex.
      split_and!; [done..|]. by exists existing. }
    match goal with |- context[if ?t then _ else _] => destruct t eqn:Hc end; apply wp_ret, Hdone.
    + right. split; [|done]. intros Hs%conflict_spec. congruence.
    + left. split; [|done]. by apply conflict_spec.
  - wp_step. eapply (wp_acceptLocked n c1 b bo r m1); [done|exact B1|exact Hm1|intros Eo; apply Hown, Ho; congruence|].
    intros [inserted err] c2 c' b' m2 S2 Hm2 E2 B' Hout. apply wp_ret. eapply HQ; [exact S1|exact Hm1|done|exact B'|].
    unfold idempotentOutcome. rewrite Ex. by exists c2, m2, inserted, err.
Qed.

(** ** The properties *)

(** What a handler returned, and the broker it left. *)
Lemma wp_broker {A} (m : GoM (broker groups) A) s bo (P : A -> cache -> groups -> Prop) :
  wp m s (fun a s' => exists c' b', s' = mkBroker c' b' bo /\ P a c' b') ->
  exists a c' b', m s = Some (a, mkBroker c' b' bo) /\ P a c' b'.
Proof. intros H. apply wp_elim in H as (a & s' & E & c' & b' & -> & HP). by exists a, c', b'. Qed.


(** C26: an idempotent publication. A request whose identifier is cached changes nothing: it is answered with the
    cached message if topic, key, content type, payload and time to live are the same, and as a conflict
    otherwise; one whose identifier is not cached is accepted like any other. *)
Theorem accept_idempotent n c (b : groups) bo r m ttl now :
  2 <= n -> bok n c b -> c_mstore c !! r = Some m -> (m_Origin m = "" -> owned c r) ->
  exists res c' b', acceptIdempotent r ttl now (mkBroker c b bo) = Some (res, mkBroker c' b' bo) /\ bok (n - 2) c' b' /\
    exists c1 m1, swept (unixMilli now) c c1 /\ c_mstore c1 !! r = Some m1 /\ mview m1 = mview m /\
      idempotentOutcome bo r m1 ttl now c1 b res c' b'.
Proof.
  intros Hn B Hm Ho. apply wp_broker. eapply wp_acceptIdempotent; [exact Hn|exact B|exact Hm|exact Ho|].
  intros res c1 m1 c' b' S1 Hm1 E1 B' Hout. exists c', b'. split; [done|]. split; [done|]. by exists c1, m1.
Qed.

(** C22: a batch of this broker's publications is accepted as a whole or refused as a whole. When it is refused,
    nothing but the sweep has happened: what is cached and buffered, the frontiers, the unsafe topics and the groups are as they were; when it is accepted, nothing was evicted, what is cached and buffered is
    within the limit, no origin's frontier went back, no buffered message is lost, and each new message is
    cached under its ID with a sequence that its origin's frontier has reached. *)
Theorem accept_batch n c (b : groups) bo (rs : list loc) now :
  bok n c b -> 2 * llen rs + Z.of_nat (size (c_mstore c)) <= n -> NoDup rs ->
  (forall r, r ∈ rs -> is_Some (c_mstore c !! r) /\ owned c r) -> NoDup (idsOf (c_mstore c) rs) ->
  exists err c' b', acceptBatch rs now (mkBroker c b bo) = Some (err, mkBroker c' b' bo) /\
    bok (n - 2 * llen rs - Z.of_nat (size (c_mstore c))) c' b' /\
    exists c1, swept (unixMilli now) c c1 /\ batchOutcome rs c1 b err c' b'.
Proof.
  intros B Hn Hnd Hl Hids. apply wp_broker. eapply wp_acceptBatch; [exact B|exact Hn|exact Hnd|exact Hl|exact Hids|].
  intros err c1 c' b' S1 B' Hout. exists c', b'. split; [done|]. split; [done|]. by exists c1.
Qed.

(** C1: a batch of replicas. The receive frontier of every origin only advances, and only over messages of that
    origin that were buffered or are in the batch, one for every sequence: a gap is never skipped. When the
    batch is acknowledged, each of its messages is behind the frontier or buffered, and so is
    everything that was buffered before. *)
Theorem accept_replicas n c (b : groups) bo (rs : list loc) now k :
  bok n c b -> copies (c_mstore c) -> (forall r, r ∈ rs -> is_Some (c_mstore c !! r)) ->
  Z.of_nat (S (S (size (c_mstore c)))) <= k -> k * llen rs <= n ->
  exists err c' b', acceptReplicatedBatch rs now (mkBroker c b bo) = Some (err, mkBroker c' b' bo) /\ bok (n - k * llen rs) c' b' /\
    exists c1, swept (unixMilli now) c c1 /\ progress (fun r => r ∈ rs) c1 c' /\
      (err = None -> retained c1 c' /\ forall r m', r ∈ rs -> c_mstore c' !! r = Some m' -> accounted c' m').
Proof.
  intros B Hc Hl Hk Hn. apply wp_broker. eapply wp_acceptReplicated; [exact B|exact Hc|exact Hl|exact Hk|exact Hn|].
  intros err c1 c' b' S1 B' Hout. exists c', b'. split; [done|]. split; [done|]. by exists c1.
Qed.

(** ** Witnesses *)
Definition ex_local (id : string) : Message := mkMessage id "t" "" ∅ [] 5 1000 "" 0 None None None 0 0 0 0.
Definition ex_copy (id : string) (s : Z) : Message := mkMessage id "t" "" ∅ [] 5 1000 "o" s None None None 0 0 0 0.
(** Two messages of this broker and two copies of a peer's. *)
Definition ex_acc : cache :=
  allocated 4%positive (ex_copy "d" 2) (allocated 3%positive (ex_copy "c" 1)
    (allocated 2%positive (ex_local "b") (allocated 1%positive (ex_local "a") (newCache 100000)))).

Lemma ex_acc_ok : cacheOK ex_acc.
Proof. unfold ex_acc, allocated. repeat (apply alloc_ok; [|vm_compute; done|done]). by apply cacheOK_new. Qed.

Lemma ex_acc_lookup r m : c_mstore ex_acc !! r = Some m ->
  (r = 4%positive /\ m = ex_copy "d" 2) \/ (r = 3%positive /\ m = ex_copy "c" 1) \/
  (r = 2%positive /\ m = ex_local "b") \/ (r = 1%positive /\ m = ex_local "a").
Proof.
  change (c_mstore ex_acc) with (<[4%positive := ex_copy "d" 2]> (<[3%positive := ex_copy "c" 1]>
    (<[2%positive := ex_local "b"]> (<[1%positive := ex_local "a"]> (∅ : gmap loc Message))))).
  rewrite !lookup_insert_Some. rewrite lookup_empty. naive_solver.
Qed.

Lemma ex_acc_sound : bok 100 ex_acc ex_new.
Proof.
  split.
  - apply ex_acc_ok.
  - split; [apply ginv_new, ex_limits|done|done].
  - intros r m Hm. destruct (ex_acc_lookup _ _ Hm) as [[_ ->]|[[_ ->]|[[_ ->]|[_ ->]]]]; by split.
  - done.
  - done.
  - split.
    + intros r m Hm. destruct (ex_acc_lookup _ _ Hm) as [[_ ->]|[[_ ->]|[[_ ->]|[_ ->]]]]; done.
    + intros o s r. unfold buffered. cbn. by rewrite lookup_empty.
    + intros o t. cbn. by rewrite lookup_empty.
Qed.

Lemma ex_acc_owned r : owned ex_acc r.
Proof. split; [intros id; cbn; by rewrite lookup_empty|]. intros o s. unfold buffered. cbn. by rewrite lookup_empty. Qed.

Lemma ex_acc_copies : copies (c_mstore ex_acc).
Proof.
  intros r r' m m' Hm Hm' _ _.
  destruct (ex_acc_lookup _ _ Hm) as [[_ ->]|[[_ ->]|[[_ ->]|[_ ->]]]], (ex_acc_lookup _ _ Hm') as [[_ ->]|[[_ ->]|[[_ ->]|[_ ->]]]]; done.
Qed.

(** What a handler answered and where it left an origin's frontier. *)
Definition answer {A} (o : string) (r : option (A * broker groups)) : option (A * Z) :=
  (fun x => (x.1, through (bk_cache x.2) o)) <$> r.

Lemma answered {A} o (r : option (A * broker groups)) a t res c b bo : answer o r = Some (a, t) -> r = Some (res, mkBroker c b bo) ->
  res = a /\ through c o = t.
Proof. intros Ha ->. by injection Ha. Qed.

Lemma ex_accept_local : answer "boot.1" (accept 1%positive 0 (mkBroker ex_acc ex_new "boot")) = Some ((true, None), 1).
Proof. vm_compute. reflexivity. Qed.
Lemma ex_accept_idempotent : fst <$> acceptIdempotent 1%positive 995 0 (mkBroker ex_acc ex_new "boot") = Some (Some 1%positive, true, None).
Proof. vm_compute. reflexivity. Qed.
Lemma ex_accept_batch : answer "boot.1" (acceptBatch [1%positive; 2%positive] 0 (mkBroker ex_acc ex_new "boot")) = Some (None, 2).
Proof. vm_compute. reflexivity. Qed.
Lemma ex_accept_replicas : answer "o" (acceptReplicatedBatch [4%positive; 3%positive] 0 (mkBroker ex_acc ex_new "boot")) = Some (None, 2).
Proof. vm_compute. reflexivity. Qed.


Lemma accept_idempotent_witness : exists c' b',
  acceptIdempotent 1%positive 995 0 (mkBroker ex_acc ex_new "boot") = Some ((Some 1%positive, true, None), mkBroker c' b' "boot").
Proof.
  destruct (accept_idempotent 100 ex_acc ex_new "boot" 1%positive (ex_local "a") 995 0 ltac:(lia) ex_acc_sound eq_refl (fun _ => ex_acc_owned _))
    as (res & c' & b' & E & _). pose proof ex_accept_idempotent as E2. rewrite E in E2. injection E2 as ->. exists c', b'. exact E.
Defined.

Lemma ex_batch_live r : r ∈ [1%positive; 2%positive] -> is_Some (c_mstore ex_acc !! r) /\ owned ex_acc r.
Proof.
  intros Hr. split; [|apply ex_acc_owned]. rewrite elem_of_cons, list_elem_of_singleton in Hr. destruct Hr as [->| ->]; vm_compute; by eexists.
Qed.
Lemma ex_batch_ids : NoDup (idsOf (c_mstore ex_acc) [1%positive; 2%positive]).
Proof. apply (bool_decide_unpack _). vm_compute. exact I. Qed.
Lemma ex_copies_live r : r ∈ [4%positive; 3%positive] -> is_Some (c_mstore ex_acc !! r).
Proof. rewrite elem_of_cons, list_elem_of_singleton. intros [->| ->]; vm_compute; by eexists. Qed.
Lemma ex_batch_nodup : NoDup [1%positive; 2%positive].
Proof. apply (bool_decide_unpack _). vm_compute. exact I. Qed.
Lemma ex_batch_room : 2 * llen [1%positive; 2%positive] + Z.of_nat (size (c_mstore ex_acc)) <= 100.
Proof. vm_compute. discriminate. Qed.
Lemma ex_copies_fuel : Z.of_nat (S (S (size (c_mstore ex_acc)))) <= 6.
Proof. vm_compute. discriminate. Qed.

Lemma accept_batch_witness : exists c' b',
  acceptBatch [1%positive; 2%positive] 0 (mkBroker ex_acc ex_new "boot") = Some (None, mkBroker c' b' "boot") /\ through c' "boot.1" = 2.
Proof.
  destruct (accept_batch 100 ex_acc ex_new "boot" [1%positive; 2%positive] 0 ex_acc_sound ex_batch_room ex_batch_nodup ex_batch_live ex_batch_ids)
    as (err & c' & b' & E & _). destruct (answered _ _ _ _ _ _ _ _ ex_accept_batch E) as [-> E3]. exists c', b'. split; [exact E|exact E3].
Defined.

Lemma accept_replicas_witness : exists c' b',
  acceptReplicatedBatch [4%positive; 3%positive] 0 (mkBroker ex_acc ex_new "boot") = Some (None, mkBroker c' b' "boot") /\ through c' "o" = 2.
Proof.
  destruct (accept_replicas 100 ex_acc ex_new "boot" [4%positive; 3%positive] 0 6 ex_acc_sound ex_acc_copies ex_copies_live
    ex_copies_fuel ltac:(done)) as (err & c' & b' & E & _).
  destruct (answered _ _ _ _ _ _ _ _ ex_accept_replicas E) as [-> E3]. exists c', b'. split; [exact E|exact E3].
Defined.
