(* ===== verification/CacheOrder.v ===== *)
(** * The order of insertion

    Every cached message has an ordinal: the number of its insertion.  Whatever the cache does, the
    messages that stay keep their ordinal and their order, and a new one comes last; so an ordinal is a
    cursor that survives expiry, eviction and compaction, which repairs rely on. *)
From S2P Require Import Prelude GoHeap Dll Types GoIO Wire Cache CacheIndex CacheExpiry CacheInv CacheExpire CacheSpec.
From Stdlib Require Import Sorting.Sorted.
#[local] Open Scope Z_scope.

(** What never changes in a message: the publication and its ordinal. *)
Definition constant (m : Message) : Message * Z := (wireOf m, m_repairOrdinal m).

(** The cache has lost messages at most. *)
Record thinned (c c' : cache) : Prop := {
  th_store : agree constant (c_mstore c) (c_mstore c');
  th_order : live (c_order c') `sublist_of` live (c_order c);
  th_next : c_nextRepairOrdinal c' = c_nextRepairOrdinal c;
}.

#[export] Instance thinned_refl : Reflexive thinned.
Proof. by split. Qed.
#[export] Instance thinned_trans : Transitive thinned.
Proof. intros c1 c2 c3 [A1 A2 A3] [B1 B2 B3]. split; [by etransitivity|by etransitivity|congruence]. Qed.

(** ** Computations that only lose messages *)
Definition thins {A} (m : GoM cache A) : Prop := forall c a c', m c = Some (a, c') -> thinned c c'.

Lemma thins_ret {A} (a : A) : thins (gret a).
Proof. by intros c b c' [= _ <-]. Qed.
Lemma thins_panic {A} : thins (A := A) gpanic.
Proof. by intros c b c'. Qed.
Lemma thins_get : thins gget.
Proof. by intros c b c' [= _ <-]. Qed.
Lemma thins_lift {A} (o : option A) : thins (glift o).
Proof. intros c b c'. destruct o; [by intros [= _ <-]|done]. Qed.
Lemma thins_bind {A B} (m : GoM cache A) (k : A -> GoM cache B) : thins m -> (forall a, thins (k a)) -> thins (gbind m k).
Proof.
  intros Hm Hk c b c' E. unfold gbind in E. destruct (m c) as [[a c1]|] eqn:E1; [|done]. etransitivity; [by eapply Hm|by eapply Hk].
Qed.
Lemma thins_when b (m : GoM cache unit) : thins m -> thins (gwhen b m).
Proof. intros Hm. destruct b; [done|apply thins_ret]. Qed.
Lemma thins_for {A} (l : list A) (f : A -> GoM cache unit) : (forall x, thins (f x)) -> thins (gfor l f).
Proof. intros Hf. induction l; cbn; [apply thins_ret|by apply thins_bind]. Qed.
Lemma thins_filter {A} (f : A -> GoM cache bool) (l : list A) : (forall x, thins (f x)) -> thins (gfilter f l).
Proof. intros Hf. induction l; cbn; [apply thins_ret|]. apply thins_bind; [done|intros b]. apply thins_bind; [done|intros ?; apply thins_ret]. Qed.
Lemma thins_map {A B} (f : A -> GoM cache B) (l : list A) : (forall x, thins (f x)) -> thins (gmap_list f l).
Proof. intros Hf. induction l; cbn; [apply thins_ret|]. apply thins_bind; [done|intros b]. apply thins_bind; [done|intros ?; apply thins_ret]. Qed.
Lemma thins_modify f : (forall c, thinned c (f c)) -> thins (gmodify f).
Proof. intros Hf c b c' [= _ <-]. apply Hf. Qed.

Definition same (c c' : cache) : Prop := c_mstore c' = c_mstore c /\ c_order c' = c_order c /\ c_nextRepairOrdinal c' = c_nextRepairOrdinal c.
Lemma same_thinned c c' : same c c' -> thinned c c'.
Proof. intros (E1 & E2 & E3). split; [by rewrite E1|by rewrite E2|done]. Qed.
Lemma thins_same f : (forall c, same c (f c)) -> thins (gmodify f).
Proof. intros Hf. apply thins_modify. intros c. apply same_thinned, Hf. Qed.

Lemma thins_deref r : thins (cderef r).
Proof. apply thins_bind; [apply thins_get|intros ?; apply thins_lift]. Qed.
Lemma thins_ederef e : thins (ederef e).
Proof. apply thins_bind; [apply thins_get|intros ?; apply thins_lift]. Qed.
Lemma thins_update r f : (forall m, constant (f m) = constant m) -> thins (cupdate r f).
Proof.
  intros Hf c a c' E. unfold cupdate, cderef, gbind, gget, glift, gmodify in E. destruct (c_mstore c !! r) as [m|] eqn:Hm; [|done].
  injection E as _ <-. split; [|done|done]. cbn. by apply (agree_insert constant _ _ m).
Qed.
Lemma thins_eupdate e f : thins (eupdate e f).
Proof. apply thins_bind; [apply thins_ederef|intros i]. by apply thins_same. Qed.
Lemma thins_heap {A} (m : GoM (heapSt expiryItem) A) : thins (heapM m).
Proof. intros c a c' E. unfold heapM, gzoom in E. destruct (m (c_heap c)) as [[b h]|]; [|done]. injection E as _ <-. by apply same_thinned. Qed.

(** List surgery on the messages. *)
Definition keepsOrdinals {A} (m : GoM (gmap loc Message) A) : Prop := forall st a st', m st = Some (a, st') -> agree constant st st'.
Lemma keeps_update r f : (forall m, constant (f m) = constant m) -> keepsOrdinals (nd_update r f).
Proof.
  intros Hf st a st' E. unfold nd_update, gbind, gget, glift, gput in E. destruct (st !! r) as [m|] eqn:Hm; [|done]. injection E as _ <-.
  by apply (agree_insert constant _ _ m).
Qed.
Lemma keeps_read r : keepsOrdinals (nd_read (T := Message) r).
Proof. intros st a st' E. unfold nd_read, gbind, gget, glift in E. destruct (st !! r); [|done]. injection E as _ <-. done. Qed.
Lemma keeps_ret {A} (a : A) : keepsOrdinals (gret a).
Proof. by intros st b st' [= _ <-]. Qed.
Lemma keeps_bind {A B} (m : GoM (gmap loc Message) A) (k : A -> GoM _ B) : keepsOrdinals m -> (forall a, keepsOrdinals (k a)) -> keepsOrdinals (gbind m k).
Proof.
  intros Hm Hk st b st' E. unfold gbind in E. destruct (m st) as [[a st1]|] eqn:E1; [|done]. etransitivity; [by eapply Hm|by eapply Hk].
Qed.
Lemma thins_link {A} (m : GoM (gmap loc Message) A) : keepsOrdinals m -> thins (linkM m).
Proof.
  intros Hm c a c' E. unfold linkM, gzoom in E. destruct (m (c_mstore c)) as [[b st]|] eqn:E1; [|done]. injection E as _ <-.
  split; [by eapply Hm|done|done].
Qed.

Create HintDb thins.
#[export] Hint Resolve thins_ret thins_panic thins_get thins_lift thins_deref thins_ederef thins_eupdate thins_heap keeps_ret keeps_read : thins.

Ltac thins := cbv zeta; repeat first
  [ progress eauto with thins
  | match goal with |- thins (cupdate _ _) => apply thins_update; by intros [] end
  | match goal with |- keepsOrdinals (nd_update _ _) => apply keeps_update; by intros [] end
  | apply thins_bind; [|intros ?]
  | apply keeps_bind; [|intros ?]
  | apply thins_when
  | apply thins_for; intros ?
  | apply thins_filter; intros ?
  | apply thins_map; intros ?
  | apply thins_link
  | apply thins_same; by intros []
  | match goal with |- thins (if ?b then _ else _) => destruct b end; cbv zeta
  | match goal with |- thins (match ?x with _ => _ end) => destruct x end
  | match goal with |- keepsOrdinals (match ?x with _ => _ end) => destruct x end ].

(** ** The methods *)
Lemma thins_size r : thins (messageSize r).
Proof. unfold messageSize. thins. Qed.
#[export] Hint Resolve thins_size : thins.

Lemma thins_compactIndex setIndex l : (forall i m, constant (setIndex i m) = constant m) -> forall kept, thins (compactIndex setIndex kept l).
Proof. intros Hs. induction l as [|[r|] l IH]; intros kept; cbn [compactIndex]; thins. Qed.

Lemma thins_unlinkExpiry r : thins (unlinkExpiryLocked r).
Proof. unfold unlinkExpiryLocked, unlink, clear_links. thins. Qed.
#[export] Hint Resolve thins_unlinkExpiry : thins.

Lemma live_tombstones (l : list (option loc)) i : live (<[i := None]> l) `sublist_of` live l.
Proof.
  revert i. induction l as [|o l IH]; intros [|i]; cbn; try done.
  - destruct o; [by apply sublist_cons|done].
  - destruct o; [by apply sublist_skip|done].
Qed.

Lemma thins_dropOrder r m : thins (dropOrderIndex r m).
Proof. unfold dropOrderIndex. thins. apply thins_modify. intros c. split; [done|apply live_tombstones|done]. Qed.
Lemma thins_dropTopic r m : thins (dropTopicIndex r m).
Proof. unfold dropTopicIndex. thins. apply thins_compactIndex. by intros i []. Qed.
#[export] Hint Resolve thins_dropOrder thins_dropTopic : thins.

Lemma markUnsafe_same topic source until c : same c (markUnsafeLocked topic source until c).
Proof. destruct (markUnsafe_shape topic source until c) as [u ->]. done. Qed.
Lemma clearUnsafe_same topic source c : same c (clearUnsafeLocked topic source c).
Proof. destruct (clearUnsafe_shape topic source c) as [u ->]. done. Qed.
Lemma noteEvicted_same m tnow c : same c (noteEvictedLocked m tnow c).
Proof. destruct (noteEvicted_shape m tnow c) as (f & u & ->). done. Qed.

Lemma thins_remove r pressure tnow : thins (removeLocked r pressure tnow).
Proof. unfold removeLocked. thins. apply thins_same. apply noteEvicted_same. Qed.
#[export] Hint Resolve thins_remove : thins.

Lemma thins_dropOldest fuel tnow : thins (dropOldestLocked fuel tnow).
Proof.
  induction fuel as [|fuel IH]; cbn [dropOldestLocked]; thins. apply thins_modify. intros c. split; [done|apply live_tombstones|done].
Qed.
#[export] Hint Resolve thins_dropOldest : thins.
Lemma thins_evictFor fuel sz tnow : thins (evictFor fuel sz tnow).
Proof. induction fuel as [|fuel IH]; cbn [evictFor]; thins. Qed.
#[export] Hint Resolve thins_evictFor : thins.

Lemma thins_expireList fuel : forall at_ cur tnow, thins (expireList fuel at_ cur tnow).
Proof. induction fuel as [|fuel IH]; intros at_ [r|] tnow; cbn [expireList]; thins. Qed.
#[export] Hint Resolve thins_expireList : thins.
Lemma thins_expireHeap fuel now tnow : thins (expireHeap fuel now tnow).
Proof. induction fuel as [|fuel IH]; cbn [expireHeap]; thins. Qed.
#[export] Hint Resolve thins_expireHeap : thins.

Lemma thins_gapLoop now origin l : forall topic, thins (expireGapLoop now origin l topic).
Proof. induction l as [|[s r] l IH]; intros topic; cbn [expireGapLoop]; thins. Qed.
#[export] Hint Resolve thins_gapLoop : thins.
Lemma thins_metadata now : thins (expireMetadata now).
Proof.
  unfold expireMetadata, expireGap. thins.
  - apply thins_same. intros c. destruct (pruneAll_shape now (map_to_list (c_unsafe c)) c) as [u ->]. done.
  - apply thins_same. intros c. apply clearUnsafe_same.
Qed.
#[export] Hint Resolve thins_metadata : thins.

(** Compaction keeps the live pointers in order. *)
Lemma filter_sublist {A} (f : A -> GoM cache bool) (l : list A) c out c' : gfilter f l c = Some (out, c') -> out `sublist_of` l.
Proof.
  revert c out c'. induction l as [|x l IH]; intros c out c' E; cbn in E; [injection E as <- _; done|].
  unfold gbind in E. destruct (f x c) as [[b c1]|]; [|done]. destruct (gfilter f l c1) as [[out1 c2]|] eqn:E2; [|done]. injection E as <- _.
  apply IH in E2. destruct b; [by apply sublist_skip|by apply sublist_cons].
Qed.

Lemma compactIndex_live setIndex (l : list (option loc)) : forall kept c out c', compactIndex setIndex kept l c = Some (out, c') -> live out = live kept ++ live l.
Proof.
  induction l as [|[r|] l IH]; intros kept c out c' E; cbn [compactIndex] in E.
  - injection E as <- _. by rewrite app_nil_r.
  - unfold gbind in E. destruct (cupdate r _ c) as [[x c1]|]; [|done]. apply IH in E. rewrite E, live_app, <- app_assoc. done.
  - by apply IH in E.
Qed.

Lemma live_of_sublist (l k : list (option loc)) : l `sublist_of` k -> live l `sublist_of` live k.
Proof. induction 1 as [|[x|] l k _ IH|[x|] l k _ IH]; cbn; try done; [by apply sublist_skip|by apply sublist_cons]. Qed.

Lemma thins_compactOrder : thins compactOrder.
Proof.
  intros c a c' E. unfold compactOrder in E. unfold gbind at 1 in E. unfold gget at 1 in E. destruct (_ && _); [|by injection E as _ <-]. cbn [gwhen] in E.
  unfold gbind in E at 1. match type of E with context[gfilter ?f ?l c] => destruct (gfilter f l c) as [[out c1]|] eqn:E1; [|done]; pose proof (filter_sublist f l c out c1 E1) as Hsub;
    assert (Tf : thins (gfilter f l)) by thins; pose proof (Tf _ _ _ E1) as T1; clear Tf end.
  unfold gbind in E at 1. destruct (compactIndex _ [] out c1) as [[kept c2]|] eqn:E2; [|done]. pose proof (compactIndex_live _ _ _ _ _ _ E2) as El.
  match type of E2 with compactIndex ?f _ _ _ = _ => assert (Tf : thins (compactIndex f [] out)) by (apply thins_compactIndex; by intros i []); pose proof (Tf _ _ _ E2) as T2; clear Tf end. injection E as _ <-.
  destruct T1 as [A1 A2 A3], T2 as [B1 B2 B3]. split; cbn; [by etransitivity| |congruence]. rewrite El. by apply live_of_sublist.
Qed.
#[export] Hint Resolve thins_compactOrder : thins.

Lemma thins_expire now tnow : thins (expireLocked now tnow).
Proof. unfold expireLocked. thins. Qed.
#[export] Hint Resolve thins_expire : thins.
Lemma thins_repairLoop l : forall after maxBytes out bytes next, thins (repairLoop l after maxBytes out bytes next).
Proof. induction l as [|[r|] l IH]; intros after maxBytes out bytes next; cbn [repairLoop]; thins. Qed.
Lemma thins_repairPage after maxBytes tnow : thins (repairPage after maxBytes tnow).
Proof. unfold repairPage. thins. apply thins_repairLoop. Qed.
Lemma thins_findAfter after l : forall i, thins (findAfter after i l).
Proof. induction l as [|[r|] l IH]; intros i; cbn [findAfter]; thins. Qed.
Lemma thins_pageLoop l : forall maxBytes out bytes next, thins (pageLoop l maxBytes out bytes next).
Proof. induction l as [|o l IH]; intros maxBytes out bytes next; cbn [pageLoop]; thins. Qed.
Lemma thins_page after maxBytes tnow : thins (page after maxBytes tnow).
Proof. unfold page. thins; [apply thins_findAfter|apply thins_pageLoop]. Qed.

(** ** The order of the ordinals *)
Definition ordinalAt (st : gmap loc Message) (r : loc) : Z := from_option m_repairOrdinal 0 (st !! r).
Definition publicationAt (st : gmap loc Message) (r : loc) : option Message := wireOf <$> st !! r.

(** The cached messages are in the order of their ordinals, none beyond the counter. *)
Record ordered (c : cache) : Prop := {
  od_sorted : StronglySorted Z.lt (ordinalAt (c_mstore c) <$> cached c);
  od_range : Forall (fun r => 0 < ordinalAt (c_mstore c) r <= c_nextRepairOrdinal c) (cached c);
  od_next : 0 <= c_nextRepairOrdinal c < 2 ^ 64;
}.

(** What is cached later: some of what was, with its ordinal, and what came since. *)
Definition evolves (c c' : cache) : Prop :=
  c_nextRepairOrdinal c <= c_nextRepairOrdinal c' /\
  forall r, r ∈ cached c' -> (r ∈ cached c /\ ordinalAt (c_mstore c') r = ordinalAt (c_mstore c) r /\ publicationAt (c_mstore c') r = publicationAt (c_mstore c) r) \/ c_nextRepairOrdinal c < ordinalAt (c_mstore c') r.

Lemma evolves_refl c : evolves c c.
Proof. split; [lia|]. intros r Hr. by left. Qed.
Lemma evolves_trans c1 c2 c3 : evolves c1 c2 -> evolves c2 c3 -> evolves c1 c3.
Proof.
  intros [A1 A2] [B1 B2]. split; [lia|]. intros r Hr. destruct (B2 r Hr) as [(Hr2 & E & F)|Hn]; [|right; lia].
  destruct (A2 r Hr2) as [(Hr1 & E1 & F1)|Hn]; [left; split_and!; [done|congruence|congruence]|right; lia].
Qed.

Lemma ordinalAt_agree st st' r : agree constant st st' -> ordinalAt st' r = ordinalAt st r.
Proof. intros Ha. specialize (Ha r). unfold ordinalAt. destruct (st !! r), (st' !! r); try done. apply (inj Some), pair_equal_spec in Ha as [_ Ha]. done. Qed.
Lemma publicationAt_agree st st' r : agree constant st st' -> publicationAt st' r = publicationAt st r.
Proof. intros Ha. specialize (Ha r). unfold publicationAt. destruct (st !! r), (st' !! r); try done. apply (inj Some), pair_equal_spec in Ha as [Ha _]. cbn. by f_equal. Qed.

Lemma ordinals_agree st st' (l : list loc) : agree constant st st' -> ordinalAt st' <$> l = ordinalAt st <$> l.
Proof. intros Ha. apply list_fmap_ext. intros i r _. by apply ordinalAt_agree. Qed.

Lemma sublist_Forall {A} (P : A -> Prop) (l k : list A) : l `sublist_of` k -> Forall P k -> Forall P l.
Proof. intros Hs. rewrite !Forall_forall. intros Hk x Hx. apply Hk. by eapply elem_of_sublist. Qed.

Lemma sorted_sublist (l k : list Z) : l `sublist_of` k -> StronglySorted Z.lt k -> StronglySorted Z.lt l.
Proof.
  induction 1 as [|x l k Hs IH|x l k _ IH]; intros Hk; [done| |]; apply StronglySorted_inv in Hk as [Hk Hx].
  - constructor; [auto|]. by eapply sublist_Forall.
  - auto.
Qed.

Lemma thinned_ordered c c' : ordered c -> thinned c c' -> ordered c' /\ evolves c c'.
Proof.
  intros [O1 O2 O3] [T1 T2 T3]. unfold cached in *. split.
  - split; unfold cached; rewrite ?T3; [|eapply sublist_Forall; [exact T2|]|done].
    + rewrite (ordinals_agree _ _ _ T1). eapply sorted_sublist; [by apply sublist_fmap'|done].
    + eapply Forall_impl; [exact O2|]. intros r. cbn. by rewrite (ordinalAt_agree _ _ _ T1).
  - split; [lia|]. intros r Hr. left. split; [|split; [by apply ordinalAt_agree|by apply publicationAt_agree]]. unfold cached in *. by eapply elem_of_sublist.
Qed.

Lemma sorted_snoc (l : list Z) x : StronglySorted Z.lt l -> Forall (fun y => y < x) l -> StronglySorted Z.lt (l ++ [x]).
Proof.
  induction 1 as [|y l Hs IH Hy]; intros Hl; cbn; [by repeat constructor|]. apply Forall_cons in Hl as [Hx Hl]. constructor; [auto|].
  apply Forall_app. split; [done|]. by repeat constructor.
Qed.

(** [indexMessage] gives the next ordinal. *)
Lemma index_ordinal r c c' : indexMessage r c = Some (tt, c') ->
  c_nextRepairOrdinal c' = u64 (c_nextRepairOrdinal c + 1) /\ cached c' = cached c ++ [r] /\
  ordinalAt (c_mstore c') r = u64 (c_nextRepairOrdinal c + 1) /\ forall x, x <> r -> ordinalAt (c_mstore c') x = ordinalAt (c_mstore c) x /\ publicationAt (c_mstore c') x = publicationAt (c_mstore c) x.
Proof.
  unfold indexMessage, cupdate, cderef, gbind, gget, gmodify, glift. destruct (c_mstore c !! r) as [m|] eqn:Hm; [|done]. cbn. rewrite Hm. cbn.
  rewrite lookup_insert_eq. cbn. intros [= <-]. cbn. unfold cached. cbn. rewrite live_app. split_and!; try done.
  - unfold ordinalAt. by rewrite lookup_insert_eq.
  - intros x Hx. unfold ordinalAt, publicationAt. by rewrite !lookup_insert_ne.
Qed.

Lemma ordered_insert r tnow c res c' : r ∉ cached c \/ (exists m, c_mstore c !! r = Some m /\ is_Some (c_items c !! m_ID m)) ->
  ordered c -> c_nextRepairOrdinal c + 1 < 2 ^ 64 -> insertLocked r tnow c = Some (res, c') -> ordered c' /\ evolves c c'.
Proof.
  intros Hr O Hn E. unfold insertLocked in E. unfold gbind at 1 in E. destruct (cderef r c) as [[m c0]|] eqn:E0; [|done].
  assert (c0 = c /\ c_mstore c !! r = Some m) as [-> Hm].
  { unfold cderef, gbind, gget, glift in E0. destruct (c_mstore c !! r); [by injection E0 as -> ->|done]. }
  unfold gbind at 1, gget at 1 in E. destruct (bool_decide_reflect (is_Some (c_items c !! m_ID m))) as [Hid|Hid].
  { injection E as _ <-. split; [done|apply evolves_refl]. }
  assert (Hnew : r ∉ cached c) by (destruct Hr as [Hr|(m' & Hm' & Hid')]; [done|assert (m' = m) as -> by congruence; done]). clear Hr.
  unfold gbind at 1 in E. destruct (messageSize r c) as [[sz c1]|] eqn:E1; [|done]. pose proof (thins_size _ _ _ _ E1) as T1.
  destruct (bool_decide (c_maxBytes c < sz)); [injection E as _ <-; by apply thinned_ordered|].
  destruct (_ && _); [injection E as _ <-; by apply thinned_ordered|].
  unfold gbind at 1 in E. destruct (evictFor _ _ _ c1) as [[[] c2]|] eqn:E2; [|done]. pose proof (thins_evictFor _ _ _ _ _ _ E2) as T2.
  assert (T12 : thinned c c2) by by etransitivity. destruct (thinned_ordered _ _ O T12) as [O2 V2]. pose proof (th_next _ _ T12) as En.
  assert (Hnew2 : r ∉ cached c2) by (intros Hin; apply Hnew; by eapply elem_of_sublist; [|apply T12]).
  unfold gbind at 1 in E. destruct (indexMessage r c2) as [[[] c3]|] eqn:E3; [|done]. destruct (index_ordinal _ _ _ E3) as (I1 & I2 & I3 & I4).
  rewrite En, u64_id in I1, I3 by (pose proof (od_next _ O); unfold in_u64; change (2 ^ 64) with 18446744073709551616 in *; lia).
  assert (Hext : forall x, x ∈ cached c2 -> ordinalAt (c_mstore c3) x = ordinalAt (c_mstore c2) x /\ publicationAt (c_mstore c3) x = publicationAt (c_mstore c2) x) by (intros x Hx; apply I4; by intros ->).
  assert (T4 : thinned c3 c').
  { revert E. apply (thins_bind (linkExpiry r) (fun _ => gmodify (fun c => c <| c_bytes := i64 (c_bytes c + sz) |>) ;;; gret (true, None))).
    - unfold linkExpiry, expiryItemFor, link_front. thins.
    - intros []. thins. }
  assert (O3 : ordered c3).
  { destruct O2 as [S2 R2 N2]. split; rewrite ?I1, ?I2.
    - rewrite fmap_app. cbn [fmap list_fmap]. rewrite I3. assert (Ef : ordinalAt (c_mstore c3) <$> cached c2 = ordinalAt (c_mstore c2) <$> cached c2).
      { apply list_fmap_ext. intros i x Hx. apply Hext. by eapply list_elem_of_lookup_2. }
      rewrite Ef. apply sorted_snoc; [done|]. apply Forall_fmap. eapply Forall_impl; [exact R2|]. cbn. intros x Hx. lia.
    - apply Forall_app. split; [|repeat constructor; rewrite I3; pose proof (od_next _ O); lia]. rewrite Forall_forall in *. intros x Hx. specialize (R2 x Hx). destruct (Hext x Hx) as [-> _]. lia.
    - pose proof (od_next _ O). lia. }
  destruct (thinned_ordered _ _ O3 T4) as [O4 V4]. split; [done|]. eapply evolves_trans; [exact V2|]. eapply evolves_trans; [|exact V4].
  split; [lia|]. rewrite I2. intros x [Hx|Hx]%elem_of_app; [left; split; [done|by apply Hext]|]. apply list_elem_of_singleton in Hx as ->. right. rewrite I3. lia.
Qed.

(** ** Steps of the cache between two looks at it *)
Inductive cacheStep : cache -> cache -> Prop :=
| cache_thins c c' : cacheOK c' -> thinned c c' -> cacheStep c c'
| cache_alloc c r m : c_mstore c !! r = None -> unlinked m -> cacheStep c (c <| c_mstore := <[r := m]> (c_mstore c) |>)
| cache_inserts c r tnow res c' : is_Some (c_mstore c !! r) -> c_nextRepairOrdinal c + 1 < 2 ^ 64 -> insertLocked r tnow c = Some (res, c') -> cacheStep c c'.

Lemma cacheStep_ok c c' : cacheOK c -> ordered c -> cacheStep c c' -> cacheOK c' /\ ordered c' /\ evolves c c'.
Proof.
  intros K O St. destruct St as [c c' K' T|c r m Hr Hu|c r tnow res c' [m Hm] Hn E].
  - split; [done|by apply thinned_ordered].
  - split; [by apply alloc_ok|]. destruct (cached_spec c K) as [_ Hc]. assert (Hne : forall x, x ∈ cached c -> ordinalAt (<[r := m]> (c_mstore c)) x = ordinalAt (c_mstore c) x /\ publicationAt (<[r := m]> (c_mstore c)) x = publicationAt (c_mstore c) x).
    { intros x Hx. unfold ordinalAt, publicationAt. rewrite lookup_insert_ne; [done|]. intros <-. apply Hc in Hx as (m' & Hm' & _). congruence. }
    destruct O as [O1 O2 O3]. split.
    + split; cbn; [|rewrite Forall_forall in *; intros x Hx; destruct (Hne x Hx) as [-> _]; by apply O2|done].
      assert (Ef : ordinalAt (<[r := m]> (c_mstore c)) <$> cached c = ordinalAt (c_mstore c) <$> cached c).
      { apply list_fmap_ext. intros i x Hx. apply Hne. by eapply list_elem_of_lookup_2. }
      unfold cached in *. cbn. by rewrite Ef.
    + split; [cbn; lia|]. intros x Hx. left. cbn. split; [done|by apply Hne].
  - assert (W : wp (insertLocked r tnow) c (fun _ c' => cacheOK c')) by (eapply wp_insert; [done|exact Hm|done]).
    split; [by eapply wp_ok; [exact E|]|]. eapply ordered_insert; [|done|done|exact E].
    destruct (decide (r ∈ cached c)) as [Hin|]; [|by left]. right. exists m. split; [done|].
    destruct (cached_spec c K) as [_ Hc]. apply Hc in Hin as (m' & Hm' & Hid). assert (m' = m) as -> by congruence. by eexists.
Qed.
