(* ===== verification/Replication.v ===== *)
(** * Replication to peers

    The queues of copies to the peers (internal/broker/broker.go): a publication claims bytes of a peer's
    queue, the worker of the peer sends what is queued, and a copy that finds no room, or that the peer
    does not take, is counted and leaves a mark that makes [repair.go] send the history again.
    [queuedBytes] is shared by publishers, the worker and repairs: every change is one atomic
    operation on it.  The HTTP client, the timers and the clock are behind [PeerNet]. *)
From S2P Require Import Prelude Types Config Metrics GoIO Wire Pending.
#[local] Open Scope Z_scope.

(** ** State *)

(** [type actionBatch struct] *)
Record actionBatch := mkActionBatch { ab_ids : list string; ab_checkpoints : list groupCheckpoint; ab_bytes : Z }.

(** [type peer struct]; the channels are the batches they hold, [p_copySlots] the number of slots taken. *)
Record peer := mkPeer {
  p_url : string;
  p_ch : list (list Message);
  p_queuedBytes : Z;
  p_actionBytes : Z;
  p_acks : list actionBatch;
  p_nacks : list actionBatch;
  p_v2 : bool;
  p_legacy : bool;
  p_lastV2Probe : Z;
  p_unavailableUntil : Z;
  p_repairVersion : Z;
  p_repairCompleted : Z;
  p_repairOrdinal : Z;
  p_repairStarted : Z;
  p_gapRepairVersion : Z;
  p_gapRepairCompleted : Z;
  p_gapRepairAfter : Z;
  p_copySlots : Z;
}.
#[export] Instance peer_settable : Settable peer := fun r => mkPeer (p_url r) (p_ch r) (p_queuedBytes r) (p_actionBytes r)
  (p_acks r) (p_nacks r) (p_v2 r) (p_legacy r) (p_lastV2Probe r) (p_unavailableUntil r) (p_repairVersion r) (p_repairCompleted r)
  (p_repairOrdinal r) (p_repairStarted r) (p_gapRepairVersion r) (p_gapRepairCompleted r) (p_gapRepairAfter r) (p_copySlots r).
#[export] Instance set_p_ch : Setter p_ch := ltac:(derive_setter).
#[export] Instance set_p_queuedBytes : Setter p_queuedBytes := ltac:(derive_setter).
#[export] Instance set_p_actionBytes : Setter p_actionBytes := ltac:(derive_setter).
#[export] Instance set_p_acks : Setter p_acks := ltac:(derive_setter).
#[export] Instance set_p_nacks : Setter p_nacks := ltac:(derive_setter).
#[export] Instance set_p_v2 : Setter p_v2 := ltac:(derive_setter).
#[export] Instance set_p_legacy : Setter p_legacy := ltac:(derive_setter).
#[export] Instance set_p_lastV2Probe : Setter p_lastV2Probe := ltac:(derive_setter).
#[export] Instance set_p_unavailableUntil : Setter p_unavailableUntil := ltac:(derive_setter).
#[export] Instance set_p_repairVersion : Setter p_repairVersion := ltac:(derive_setter).
#[export] Instance set_p_repairCompleted : Setter p_repairCompleted := ltac:(derive_setter).
#[export] Instance set_p_repairOrdinal : Setter p_repairOrdinal := ltac:(derive_setter).
#[export] Instance set_p_repairStarted : Setter p_repairStarted := ltac:(derive_setter).
#[export] Instance set_p_gapRepairVersion : Setter p_gapRepairVersion := ltac:(derive_setter).
#[export] Instance set_p_gapRepairCompleted : Setter p_gapRepairCompleted := ltac:(derive_setter).
#[export] Instance set_p_gapRepairAfter : Setter p_gapRepairAfter := ltac:(derive_setter).
#[export] Instance set_p_copySlots : Setter p_copySlots := ltac:(derive_setter).

(** A peer as [New] makes it. *)
Definition newPeer (url : string) : peer := mkPeer url [] 0 0 [] [] false false 0 0 0 0 0 0 0 0 0 0.

(** The answer to a request: an error of the context, another error, or a status with two headers. *)
Inductive reply :=
| replyCanceled
| replyFailed
| replied (status : Z) (repairRequired peerVersion : string).

(** [req] of a peer: what the broker sets on it besides its token and cluster. *)
Inductive peerRequest :=
| postReplicate (v2 : bool) (body : list byte)
| postRepair (body : list byte)
| getCapabilities
| postAction (action : string) (body : ackRequest).

(** The world of the workers: [client.Do], a timer raced with [b.stop], and the clock in nanoseconds. *)
Class PeerNet (W : Type) := {
  pn_do : string -> peerRequest -> GoM W reply;
  pn_pause : Z -> GoM W bool;
  pn_now : GoM W Z;
}.

Record replication (W : Type) := mkReplication {
  rp_cfg : Config;
  rp_peers : list peer;
  rp_freed : bool;
  rp_metrics : Metrics;
  rp_world : W;
}.
Arguments mkReplication {W}. Arguments rp_cfg {W}. Arguments rp_peers {W}. Arguments rp_freed {W}. Arguments rp_metrics {W}.
Arguments rp_world {W}.
#[export] Instance replication_settable W : Settable (replication W) := fun r => mkReplication (rp_cfg r) (rp_peers r)
  (rp_freed r) (rp_metrics r) (rp_world r).
#[export] Instance set_rp_peers W : Setter (@rp_peers W) := ltac:(derive_setter).
#[export] Instance set_rp_freed W : Setter (@rp_freed W) := ltac:(derive_setter).
#[export] Instance set_rp_metrics W : Setter (@rp_metrics W) := ltac:(derive_setter).
#[export] Instance set_rp_world W : Setter (@rp_world W) := ltac:(derive_setter).

Section Replication.
Context {W : Type} `{PeerNet W} `{MapRange}.
Abbreviation RM := (GoM (replication W)).

(** [messageSize] is memoised in the message; every call of a message answers the same. *)
Definition batchBytes (batch : list Message) : Z := foldl (fun bytes m => i64 (bytes + sizeOf m)) 0 batch.

Definition inWorld {A} (m : GoM W A) : RM A := gzoom rp_world (fun w s => s <| rp_world := w |>) m.
Definition peerAt (i : nat) : RM peer := s <- gget ;; glift (rp_peers s !! i).
Definition updatePeer (i : nat) (f : peer -> peer) : RM unit := gmodify (fun s => s <| rp_peers := alter f i (rp_peers s) |>).
Definition countBy (proj : Metrics -> Z) `{!Setter proj} (n : Z) : RM unit :=
  gmodify (fun s => s <| rp_metrics := (rp_metrics s) <| proj := u64 (proj (rp_metrics s) + n) |> |>).

(** ** Bytes of a queue *)

(** [p.queuedBytes.Add(bytes)] *)
Definition addQueued (i : nat) (bytes : Z) : RM unit := updatePeer i (fun p => p <| p_queuedBytes := i64 (p_queuedBytes p + bytes) |>).

(** The loop of [Load] and [CompareAndSwap]: it ends with the swap of a value that passed the test, or with one that
    did not. *)
Definition claim (test : Z -> bool) (i : nat) (bytes : Z) : RM bool :=
  p <- peerAt i ;;
  if test (p_queuedBytes p) then addQueued i bytes ;;; gret true else gret false.

Definition replicationHighWaterBytes (cfg : Config) : Z :=
  let highWater := Z.quot (i64 (cfg_ReplicationQueueBytes cfg * 3)) 4 in
  if bool_decide (highWater = 0) then 1 else highWater.

(** [fitsWatermark || fitsEmptyQueue] *)
Definition fitsReserve (cfg : Config) (bytes queued : Z) : bool :=
  bool_decide (i64 (queued + bytes) <= replicationHighWaterBytes cfg)
  || (bool_decide (queued = 0) && bool_decide (bytes <= cfg_ReplicationQueueBytes cfg)).

Fixpoint reserveFrom (peers : list nat) (bytes : Z) : RM (option nat) :=
  match peers with
  | [] => gret None
  | i :: peers =>
    s <- gget ;;
    ok <- claim (fitsReserve (rp_cfg s) bytes) i bytes ;;
    if ok : bool then gret (Some i) else reserveFrom peers bytes
  end.

Definition allPeers : RM (list nat) := s <- gget ;; gret (seq 0 (length (rp_peers s))).
Definition reserveReplicationCapacity (bytes : Z) : RM (option nat) := peers <- allPeers ;; reserveFrom peers bytes.

Definition signalReplicationFreed : RM unit := gmodify (fun s => s <| rp_freed := true |>).

Definition releaseReplicationReservation (p : option nat) (bytes : Z) : RM unit :=
  match p with
  | None => gret tt
  | Some i => addQueued i (- bytes) ;;; signalReplicationFreed
  end.

(** What [waitReplicationAdmission] is woken by. *)
Inductive waitEvent := ctxDone | timerFired | queueFreed.

(** The events that arrive; the wait does not end before one that ends it. *)
Fixpoint waitLoop (events : list waitEvent) (bytes : Z) : RM (option nat) :=
  match events with
  | [] => gpanic
  | ctxDone :: _ => gret None
  | timerFired :: _ => reserveReplicationCapacity bytes
  | queueFreed :: events =>
    gmodify (fun s => s <| rp_freed := false |>) ;;;
    p <- reserveReplicationCapacity bytes ;;
    match p with Some i => gret (Some i) | None => waitLoop events bytes end
  end.

Definition waitReplicationAdmission (events : list waitEvent) (bytes : Z) : RM (option nat) :=
  s <- gget ;;
  if bool_decide (rp_peers s = []) then gret None else
  p <- reserveReplicationCapacity bytes ;;
  match p with Some i => gret (Some i) | None => waitLoop events bytes end.

(** ** The queue of a peer *)

(** [case p.ch <- messages] of a select that has another case: whether the channel had room. *)
Definition trySend (i : nat) (messages : list Message) : RM bool :=
  s <- gget ;;
  p <- peerAt i ;;
  if bool_decide (llen (p_ch p) < cfg_QueueDepth (rp_cfg s))
  then updatePeer i (fun p => p <| p_ch := p_ch p ++ [messages] |>) ;;; gret true else gret false.

(** A copy that the peer will not get from the queue. *)
Definition dropCopy (i : nat) (messages : list Message) : RM unit :=
  countBy mt_ReplicationDropped (llen messages) ;;;
  updatePeer i (fun p => p <| p_repairVersion := u64 (p_repairVersion p + 1) |>).

(** A peer without a reservation. *)
Definition enqueueCopy (i : nat) (messages : list Message) (bytes : Z) : RM unit :=
  s <- gget ;;
  ok <- claim (fun queued => negb (bool_decide (cfg_ReplicationQueueBytes (rp_cfg s) < i64 (queued + bytes)))) i bytes ;;
  if negb ok then dropCopy i messages else
  sent <- trySend i messages ;;
  if sent : bool then gret tt else addQueued i (- bytes) ;;; dropCopy i messages.

(** The peer of the reservation: the send waits for room; [stopped] says that [b.stop] was selected instead. *)
Definition enqueueToReserved (stopped : bool) (i : nat) (messages : list Message) (bytes : Z) : RM unit :=
  if stopped then releaseReplicationReservation (Some i) bytes else
  sent <- trySend i messages ;;
  if sent : bool then gret tt else gpanic.

Definition enqueuePeerBatchExcept (stopped : bool) (messages : list Message) (reservedPeer : option nat) (confirmedPeers : list nat) : RM unit :=
  let bytes := batchBytes messages in
  peers <- allPeers ;;
  gfor peers (fun i =>
    if bool_decide (i ∈ confirmedPeers) then gret tt else
    if bool_decide (reservedPeer = Some i) then enqueueToReserved stopped i messages bytes
    else enqueueCopy i messages bytes).

Definition enqueuePeerBatch (stopped : bool) (messages : list Message) (reservedPeer : option nat) : RM unit :=
  enqueuePeerBatchExcept stopped messages reservedPeer [].
Definition enqueuePeers (stopped : bool) (m : Message) : RM unit := enqueuePeerBatch stopped [m] None.

(** ** Sending *)
Definition probePeerV2 (i : nat) : RM unit :=
  p <- peerAt i ;;
  if p_v2 p then gret tt else
  now <- inWorld pn_now ;;
  let now := unixMilli now in
  if bool_decide (i64 (now - p_lastV2Probe p) < 30000) then gret tt else
  updatePeer i (fun p => p <| p_lastV2Probe := now |>) ;;;
  r <- inWorld (pn_do (p_url p +:+ "/internal/capabilities") getCapabilities) ;;
  match r with
  | replied status _ version =>
    if bool_decide (status = 204) && bool_decide (version = "2") then updatePeer i (fun p => p <| p_v2 := true |>)
    else if bool_decide (status = 404) then updatePeer i (fun p => p <| p_legacy := true |>) else gret tt
  | _ => gret tt
  end.

(** [p.v2.Load() || !p.legacy.Load()], and the body in that version. *)
Definition peerVersion (p : peer) : bool := p_v2 p || negb (p_legacy p).
Definition encodeFor (v2 : bool) (messages : list Message) : list byte * option error :=
  if v2 then writePeerBatch true messages [] else writePeerBatchV1 messages [].

(** The peer is left alone for a second. *)
Definition markUnavailable (i : nat) : RM unit :=
  now <- inWorld pn_now ;;
  updatePeer i (fun p => p <| p_unavailableUntil := i64 (now + Second) |>) ;;;
  countBy mt_ReplicationErrors 1.

Definition sendPeerBody (i : nat) (body : list byte) (count : Z) (v2 : bool) : RM bool :=
  started <- inWorld pn_now ;;
  p <- peerAt i ;;
  r <- inWorld (pn_do (p_url p +:+ "/internal/replicate") (postReplicate v2 body)) ;;
  ok <- (match r with
    | replyCanceled => gret false
    | replyFailed => markUnavailable i ;;; gret false
    | replied status repair _ =>
      if negb (bool_decide (Z.quot status 100 = 2)) then markUnavailable i ;;; gret false else
      updatePeer i (fun p => p <| p_unavailableUntil := 0 |>) ;;;
      (if bool_decide (repair = "true") then
         updatePeer i (fun p => p <| p_gapRepairVersion := u64 (p_gapRepairVersion p + 1) |>) ;;;
         now <- inWorld pn_now ;;
         updatePeer i (fun p => if bool_decide (p_gapRepairAfter p = 0) then p <| p_gapRepairAfter := i64 (now + Second) |> else p)
       else gret tt) ;;;
      countBy mt_Replicated count ;;;
      gret true
    end) ;;
  now <- inWorld pn_now ;;
  gmodify (fun s => s <| rp_metrics := (rp_metrics s) <| mt_ReplicationLatency := observe (i64 (now - started)) (mt_ReplicationLatency (rp_metrics s)) |> |>) ;;;
  gret ok.

Definition sendPeerBatch (i : nat) (messages : list Message) : RM bool :=
  probePeerV2 i ;;;
  p <- peerAt i ;;
  match encodeFor (peerVersion p) messages with
  | (_, Some _) => countBy mt_ReplicationErrors (llen messages) ;;; gret false
  | (body, None) => sendPeerBody i body (llen messages) (peerVersion p)
  end.
Definition sendPeer (i : nat) (m : Message) : RM bool := sendPeerBatch i [m].

(** [case batch := <-p.ch] *)
Definition receiveBatch (i : nat) : RM (option (list Message)) :=
  p <- peerAt i ;;
  match p_ch p with
  | [] => gret None
  | batch :: rest => updatePeer i (fun p => p <| p_ch := rest |>) ;;; gret (Some batch)
  end.

(** The attempts of one batch: delivered, given up, or stopped in a pause. *)
Inductive attempts := sentBatch | gaveUp | stoppedWorker.

Fixpoint attemptLoop (n : nat) (attempt : Z) (i : nat) (body : list byte) (count : Z) (v2 : bool) : RM attempts :=
  match n with
  | O => gret gaveUp
  | S n =>
    ok <- sendPeerBody i body count v2 ;;
    if ok : bool then gret sentBatch else
    if bool_decide (attempt = 2) then gret gaveUp else
    stop <- inWorld (pn_pause (Z.shiftl 1 attempt * (50 * Millisecond))) ;;
    if stop : bool then gret stoppedWorker else attemptLoop n (attempt + 1) i body count v2
  end.

(** The batch leaves the accounts of its queue. *)
Definition settleBatch (i : nat) (batch : list Message) : RM unit := addQueued i (- batchBytes batch) ;;; signalReplicationFreed.

(** One batch of [peerLoop]; [false] when the worker ends. *)
Definition peerTurn (i : nat) (batch : list Message) : RM bool :=
  probePeerV2 i ;;;
  p <- peerAt i ;;
  match encodeFor (peerVersion p) batch with
  | (_, Some _) =>
    countBy mt_ReplicationErrors (llen batch) ;;;
    settleBatch i batch ;;;
    gret true
  | (body, None) =>
    res <- attemptLoop 3 0 i body (llen batch) (peerVersion p) ;;
    match res with
    | stoppedWorker => settleBatch i batch ;;; gret false
    | gaveUp => dropCopy i batch ;;; settleBatch i batch ;;; gret true
    | sentBatch => settleBatch i batch ;;; gret true
    end
  end.

(** ** Synchronous copies *)

(** A slot of [copySlots] for each peer that has one. *)
Fixpoint takeSlots (peers : list nat) : RM (list nat) :=
  match peers with
  | [] => gret []
  | i :: peers =>
    p <- peerAt i ;;
    if bool_decide (p_copySlots p < 32) then
      updatePeer i (fun p => p <| p_copySlots := p_copySlots p + 1 |>) ;;; rest <- takeSlots peers ;; gret (i :: rest)
    else takeSlots peers
  end.

(** The goroutines in the order in which they end, up to the first one that confirms. *)
Fixpoint firstConfirmed (finish : list nat) (m : Message) : RM (option nat) :=
  match finish with
  | [] => gret None
  | i :: finish =>
    ok <- sendPeer i m ;;
    updatePeer i (fun p => p <| p_copySlots := p_copySlots p - 1 |>) ;;;
    if ok : bool then gret (Some i) else firstConfirmed finish m
  end.

(** [finish] orders the peers that have a slot. What the others still do when it returns is cancelled. *)
Definition replicateOne (finish : list nat -> list nat) (stopped : bool) (m : Message) : RM bool :=
  peers <- allPeers ;;
  slots <- takeSlots peers ;;
  confirmed <- firstConfirmed (finish slots) m ;;
  match confirmed with
  | Some i => enqueuePeerBatchExcept stopped [m] None [i] ;;; gret true
  | None => gret false
  end.

(** [available.go]: the peers in cooldown are not tried. *)
Definition availablePeers : RM (list nat) :=
  peers <- allPeers ;;
  gfilter (fun i => p <- peerAt i ;; now <- inWorld pn_now ;; gret (negb (bool_decide (now < p_unavailableUntil p)))) peers.

(** The goroutines that end before the deadline. *)
Fixpoint confirmations (finish : list nat) (m : Message) : RM (list nat) :=
  match finish with
  | [] => gret []
  | i :: finish =>
    ok <- sendPeer i m ;;
    updatePeer i (fun p => p <| p_copySlots := p_copySlots p - 1 |>) ;;;
    rest <- confirmations finish m ;;
    gret (if ok : bool then i :: rest else rest)
  end.

Definition replicateAvailable (finish : list nat -> list nat) (stopped : bool) (m : Message) : RM Z :=
  peers <- availablePeers ;;
  slots <- takeSlots peers ;;
  confirmed <- confirmations (finish slots) m ;;
  enqueuePeerBatchExcept stopped [m] None confirmed ;;;
  gret (1 + llen confirmed).
End Replication.
