(* ===== verification/ReplicationInv.v ===== *)
(** * Replication queues: the invariant of every interleaving

    Publishers, the worker of a peer and repairs share the counter of a queue's bytes.  Their atomic
    operations are the steps of [rstep]; the ghost state says which operation under way holds which bytes, and what
    became of each batch that was offered to the peer.  Every operation of Replication.v is a sequence of such steps, and
    leaves no holder of its own behind. *)
From S2P Require Import Prelude Runs Types Config Metrics GoIO Wire Pending Replication.
#[local] Open Scope Z_scope.

Abbreviation batch := (list Message).

(** The operations under way that hold bytes of the counter, at the points where another can run: a publisher with a reservation; the
    copy of a publication for another peer, with its bytes claimed, with the channel found full, and with the bytes given back and
    the loss still to be counted; and a repair with the bytes of its page. *)
Inductive holder := reserved (b : batch) | copying (b : batch) | returning (b : batch) | dropping (b : batch) | repairing (n : Z).
Definition holderBytes (x : holder) : Z := match x with reserved b | copying b | returning b => batchBytes b | dropping _ => 0 | repairing n => n end.

(** What a peer's counter stands for: the holders, the worker's batch, and the fate of every batch that was offered to the peer. *)
Record holdings := mkHoldings {
  h_held : list holder;
  h_work : option (batch * bool);
  h_offered : list batch;
  h_sent : list batch;
  h_dropped : list batch;
  h_stopped : list batch;
  h_refused : list batch;
  h_gaps : Z;
}.
#[export] Instance holdings_settable : Settable holdings := fun r => mkHoldings (h_held r) (h_work r) (h_offered r) (h_sent r)
  (h_dropped r) (h_stopped r) (h_refused r) (h_gaps r).
#[export] Instance set_h_held : Setter h_held := ltac:(derive_setter).
#[export] Instance set_h_work : Setter h_work := ltac:(derive_setter).
#[export] Instance set_h_offered : Setter h_offered := ltac:(derive_setter).
#[export] Instance set_h_sent : Setter h_sent := ltac:(derive_setter).
#[export] Instance set_h_dropped : Setter h_dropped := ltac:(derive_setter).
#[export] Instance set_h_stopped : Setter h_stopped := ltac:(derive_setter).
#[export] Instance set_h_refused : Setter h_refused := ltac:(derive_setter).
#[export] Instance set_h_gaps : Setter h_gaps := ltac:(derive_setter).

Definition nothing : holdings := mkHoldings [] None [] [] [] [] [] 0.
Definition heldBytes (h : holdings) : Z := zsum (holderBytes <$> h_held h).

(** The batch of the worker, and the part of it that is not accounted for elsewhere yet. *)
Definition workBytes (h : holdings) : Z := match h_work h with Some (b, _) => batchBytes b | None => 0 end.
Definition inHand (h : holdings) : list batch := match h_work h with Some (b, false) => [b] | _ => [] end.

(** A batch whose sizes counters can add up. *)
Definition moderate (b : batch) : Prop := zsum (sizeOf <$> b) < 2 ^ 62.

(** Bytes that counters can add up. *)
Definition holderOk (x : holder) : Prop := match x with reserved b | copying b | returning b | dropping b => moderate b | repairing n => 0 <= n < 2 ^ 62 end.

Lemma batchBytes_sum b : moderate b -> batchBytes b = zsum (sizeOf <$> b).
Proof.
  unfold moderate, batchBytes. change (2 ^ 62) with 4611686018427387904. enough (Hg : forall acc, 0 <= acc -> acc + zsum (sizeOf <$> b) < 4611686018427387904 ->
    foldl (fun bytes m => i64 (bytes + sizeOf m)) acc b = acc + zsum (sizeOf <$> b)) by (intros Hm; rewrite Hg by lia; lia).
  induction b as [|m b IH]; intros acc Ha Hs; cbn [foldl]; [change (zsum (sizeOf <$> [])) with 0; lia|].
  rewrite fmap_cons, zsum_cons in *. pose proof (sizeOf_pos m). assert (0 <= zsum (sizeOf <$> b)).
  { apply zsum_nonneg. apply Forall_fmap, Forall_true. intros x. pose proof (sizeOf_pos x). cbn. lia. }
  rewrite i64_id by (unfold in_i64; lia). rewrite IH; [lia|lia|lia].
Qed.

Lemma batchBytes_range b : moderate b -> 0 <= batchBytes b < 2 ^ 62.
Proof.
  intros Hm. rewrite (batchBytes_sum b Hm). split; [|exact Hm]. apply zsum_nonneg. apply Forall_fmap, Forall_true. intros x. pose proof (sizeOf_pos x). cbn. lia.
Qed.

(** ** The evidence of a fate *)
Section Evidence.
Context {W : Type} `{PeerNet W} `{MapRange}.

(** The peer answered 2xx to a request that posts the batch, encoded. *)
Definition delivered (url : string) (b : batch) : Prop := exists v2 body w status r1 r2 w', encodeFor v2 b = (body, None) /\
  pn_do (url +:+ "/internal/replicate") (postReplicate v2 body) w = Some (replied status r1 r2, w') /\ Z.quot status 100 = 2.
(** A pause of a worker was ended by the broker's stop. *)
Definition stopSelected : Prop := exists d w w', pn_pause (W := W) d w = Some (true, w').
Definition unencodable (b : batch) : Prop := exists v2 body e, encodeFor v2 b = (body, Some e).

Record queue_ok (cfg : Config) (p : peer) (h : holdings) : Prop := {
  qo_bytes : p_queuedBytes p = heldBytes h + zsum (batchBytes <$> p_ch p) + workBytes h;
  qo_held : Forall (fun x => 0 <= holderBytes x) (h_held h);
  qo_max : p_queuedBytes p <= cfg_ReplicationQueueBytes cfg;
  qo_depth : llen (p_ch p) <= Z.max 0 (cfg_QueueDepth cfg);
  qo_small : Forall moderate (p_ch p ++ match h_work h with Some (b, _) => [b] | None => [] end);
  qo_fate : h_offered h ≡ₚ p_ch p ++ inHand h ++ h_sent h ++ h_dropped h ++ h_stopped h ++ h_refused h;
  qo_version : p_repairVersion p = u64 (llen (h_dropped h) + h_gaps h);
  qo_sent : Forall (delivered (p_url p)) (h_sent h);
  qo_stopped : h_stopped h <> [] -> stopSelected;
  qo_refused : Forall unencodable (h_refused h);
  qo_holders : Forall holderOk (h_held h);
}.

Lemma queue_ok_new cfg url : 0 <= cfg_ReplicationQueueBytes cfg -> queue_ok cfg (newPeer url) nothing.
Proof. intros Hc. split; cbn; try done; try constructor. change (llen (@nil batch)) with 0. lia. Qed.
End Evidence.

(** ** The steps *)
Section Steps.
Context {W : Type} `{PeerNet W} `{MapRange}.
Abbreviation RS := (replication W).
Implicit Types (s : RS) (hs : list holdings).

(** The test that a copy and a page are claimed under. *)
Definition fitsQueue (cfg : Config) (bytes queued : Z) : bool := negb (bool_decide (cfg_ReplicationQueueBytes cfg < i64 (queued + bytes))).

Lemma wp_peerAt {i} s p (Q : peer -> RS -> Prop) : rp_peers s !! i = Some p -> Q p s -> wp (peerAt i) s Q.
Proof. intros Hp HQ. unfold peerAt. wp_step. wp_step. by eapply wp_lift. Qed.

(** What the queues are made of. *)
Definition viewOf (p : peer) : list batch * Z * Z * string := (p_ch p, p_queuedBytes p, p_repairVersion p, p_url p).
Definition queueView (s : RS) : Config * list (list batch * Z * Z * string) := (rp_cfg s, viewOf <$> rp_peers s).

(** Whether a copy was queued. *)
Definition channelOf (i : nat) (s : RS) : list batch := default [] (p_ch <$> rp_peers s !! i).
Definition queued (i : nat) (s s' : RS) : bool := bool_decide (length (channelOf i s) < length (channelOf i s'))%nat.

Inductive rstep : RS * list holdings -> RS * list holdings -> Prop :=
(* a publisher: the reservation, its release, and the send it is for *)
| rs_reserve s hs i h b s' : moderate b -> hs !! i = Some h -> claim (fitsReserve (rp_cfg s) (batchBytes b)) i (batchBytes b) s = Some (true, s') ->
    rstep (s, hs) (s', <[i := h <| h_held := reserved b :: h_held h |>]> hs)
| rs_release s hs i h b held s' : hs !! i = Some h -> h_held h ≡ₚ reserved b :: held -> releaseReplicationReservation (Some i) (batchBytes b) s = Some (tt, s') ->
    rstep (s, hs) (s', <[i := h <| h_held := held |>]> hs)
| rs_send s hs i h b held s' : hs !! i = Some h -> h_held h ≡ₚ reserved b :: held -> trySend i b s = Some (true, s') ->
    rstep (s, hs) (s', <[i := (h <| h_held := held |>) <| h_offered := b :: h_offered h |>]> hs)
(* the copy for another peer, in one piece or in the pieces between which others run *)
| rs_copy s hs i h b s' : moderate b -> hs !! i = Some h -> enqueueCopy i b (batchBytes b) s = Some (tt, s') ->
    rstep (s, hs) (s', <[i := (h <| h_offered := b :: h_offered h |>) <| h_dropped := if queued i s s' then h_dropped h else b :: h_dropped h |>]> hs)
| rs_claim s hs i h b ok s' : moderate b -> hs !! i = Some h -> claim (fitsQueue (rp_cfg s) (batchBytes b)) i (batchBytes b) s = Some (ok, s') ->
    rstep (s, hs) (s', <[i := h <| h_held := (if ok then copying b else dropping b) :: h_held h |>]> hs)
| rs_try s hs i h b held ok s' : hs !! i = Some h -> h_held h ≡ₚ copying b :: held -> trySend i b s = Some (ok, s') ->
    rstep (s, hs) (s', <[i := if ok then (h <| h_held := held |>) <| h_offered := b :: h_offered h |> else h <| h_held := returning b :: held |>]> hs)
| rs_return s hs i h b held s' : hs !! i = Some h -> h_held h ≡ₚ returning b :: held -> addQueued i (- batchBytes b) s = Some (tt, s') ->
    rstep (s, hs) (s', <[i := h <| h_held := dropping b :: held |>]> hs)
| rs_drop s hs i h b held s' : hs !! i = Some h -> h_held h ≡ₚ dropping b :: held -> dropCopy i b s = Some (tt, s') ->
    rstep (s, hs) (s', <[i := ((h <| h_held := held |>) <| h_offered := b :: h_offered h |>) <| h_dropped := b :: h_dropped h |>]> hs)
(* a repair: the bytes of a page, and a gap that was reported *)
| rs_claimPage s hs i h n s' : 0 <= n < 2 ^ 62 -> hs !! i = Some h -> claim (fitsQueue (rp_cfg s) n) i n s = Some (true, s') ->
    rstep (s, hs) (s', <[i := h <| h_held := repairing n :: h_held h |>]> hs)
| rs_unclaimPage s hs i h n held s' : hs !! i = Some h -> h_held h ≡ₚ repairing n :: held -> addQueued i (- n) s = Some (tt, s') ->
    rstep (s, hs) (s', <[i := h <| h_held := held |>]> hs)
| rs_gap s hs i h s' : hs !! i = Some h -> updatePeer i (fun p => p <| p_repairVersion := u64 (p_repairVersion p + 1) |>) s = Some (tt, s') ->
    rstep (s, hs) (s', <[i := h <| h_gaps := h_gaps h + 1 |>]> hs)
(* the worker: what became of the batch it took, and the accounts *)
| rs_take s hs i h b s' : hs !! i = Some h -> h_work h = None -> receiveBatch i s = Some (Some b, s') ->
    rstep (s, hs) (s', <[i := h <| h_work := Some (b, false) |>]> hs)
| rs_sent s hs i h b p v2 body status r1 r2 w : hs !! i = Some h -> h_work h = Some (b, false) -> rp_peers s !! i = Some p -> encodeFor v2 b = (body, None) ->
    pn_do (p_url p +:+ "/internal/replicate") (postReplicate v2 body) (rp_world s) = Some (replied status r1 r2, w) -> Z.quot status 100 = 2 ->
    rstep (s, hs) (s <| rp_world := w |>, <[i := (h <| h_work := Some (b, true) |>) <| h_sent := b :: h_sent h |>]> hs)
| rs_stopped s hs i h b d w : hs !! i = Some h -> h_work h = Some (b, false) -> pn_pause d (rp_world s) = Some (true, w) ->
    rstep (s, hs) (s <| rp_world := w |>, <[i := (h <| h_work := Some (b, true) |>) <| h_stopped := b :: h_stopped h |>]> hs)
| rs_refused s hs i h b : hs !! i = Some h -> h_work h = Some (b, false) -> unencodable b ->
    rstep (s, hs) (s, <[i := (h <| h_work := Some (b, true) |>) <| h_refused := b :: h_refused h |>]> hs)
| rs_gaveUp s hs i h b s' : hs !! i = Some h -> h_work h = Some (b, false) -> dropCopy i b s = Some (tt, s') ->
    rstep (s, hs) (s', <[i := (h <| h_work := Some (b, true) |>) <| h_dropped := b :: h_dropped h |>]> hs)
| rs_settle s hs i h b s' : hs !! i = Some h -> h_work h = Some (b, true) -> settleBatch i b s = Some (tt, s') ->
    rstep (s, hs) (s', <[i := h <| h_work := None |>]> hs)
| rs_other s hs s' : queueView s' = queueView s -> rstep (s, hs) (s', hs).

Abbreviation rsteps := (steps rstep).

Definition queues_ok (s : RS) (hs : list holdings) : Prop := Forall2 (queue_ok (rp_cfg s)) (rp_peers s) hs.

(** Budgets that the counters can add up. *)
Definition budget_ok (cfg : Config) : Prop := 0 < cfg_ReplicationQueueBytes cfg < 2 ^ 60.

Lemma alter_at {A} (f : A -> A) i (l : list A) x : l !! i = Some x -> alter f i l = <[i := f x]> l.
Proof.
  intros Hx. apply list_eq. intros j. destruct (decide (j = i)) as [->|Hne].
  - rewrite list_lookup_alter_eq, list_lookup_insert_eq, Hx; [done|]. by eapply lookup_lt_Some.
  - by rewrite list_lookup_alter_ne, list_lookup_insert_ne.
Qed.

(** One peer and its holdings change. *)
Lemma queues_set s s' hs i p h p' h' : queues_ok s hs -> rp_peers s !! i = Some p -> hs !! i = Some h -> rp_cfg s' = rp_cfg s ->
  rp_peers s' = <[i := p']> (rp_peers s) -> (queue_ok (rp_cfg s) p h -> queue_ok (rp_cfg s) p' h') -> queues_ok s' (<[i := h']> hs).
Proof.
  intros Q Hp Hh Ec Ep Hq. unfold queues_ok in *. rewrite Ec, Ep. apply Forall2_insert; [done|]. apply Hq.
  by apply (Forall2_lookup_lr _ _ _ _ _ _ Q Hp Hh).
Qed.

Lemma queues_peer s hs i h : queues_ok s hs -> hs !! i = Some h -> exists p, rp_peers s !! i = Some p /\ queue_ok (rp_cfg s) p h.
Proof. intros Q Hh. destruct (Forall2_lookup_r _ _ _ _ _ Q Hh) as (p & Hp & Hq). by exists p. Qed.
Lemma queues_holdings s hs i p : queues_ok s hs -> rp_peers s !! i = Some p -> exists h, hs !! i = Some h /\ queue_ok (rp_cfg s) p h.
Proof. intros Q Hp. destruct (Forall2_lookup_l _ _ _ _ _ Q Hp) as (h & Hh & Hq). by exists h. Qed.

(** What the operations on one peer compute. *)
Lemma addQueued_eq i bytes s p s' : rp_peers s !! i = Some p -> addQueued i bytes s = Some (tt, s') ->
  s' = s <| rp_peers := <[i := p <| p_queuedBytes := i64 (p_queuedBytes p + bytes) |>]> (rp_peers s) |>.
Proof. intros Hp [= <-]. by rewrite (alter_at _ _ _ _ Hp). Qed.

Lemma claim_eq test i bytes s p : rp_peers s !! i = Some p -> claim test i bytes s =
  if test (p_queuedBytes p) then Some (true, s <| rp_peers := <[i := p <| p_queuedBytes := i64 (p_queuedBytes p + bytes) |>]> (rp_peers s) |>)
  else Some (false, s).
Proof.
  intros Hp. unfold claim, peerAt, gbind, gget, glift. rewrite Hp. cbn. destruct (test _); [|done]. cbn. by rewrite (alter_at _ _ _ _ Hp).
Qed.

Lemma claim_peer test i bytes s x : claim test i bytes s = Some x -> exists p, rp_peers s !! i = Some p.
Proof. unfold claim, peerAt, gbind, gget, glift. destruct (rp_peers s !! i); [eauto|done]. Qed.

Lemma trySend_eq i b s p : rp_peers s !! i = Some p -> trySend i b s =
  if bool_decide (llen (p_ch p) < cfg_QueueDepth (rp_cfg s)) then Some (true, s <| rp_peers := <[i := p <| p_ch := p_ch p ++ [b] |>]> (rp_peers s) |>)
  else Some (false, s).
Proof.
  intros Hp. unfold trySend, peerAt, gbind, gget, glift. rewrite Hp. cbn. destruct (bool_decide _); [|done]. cbn. by rewrite (alter_at _ _ _ _ Hp).
Qed.

Lemma dropCopy_eq i b s p s' : rp_peers s !! i = Some p -> dropCopy i b s = Some (tt, s') ->
  rp_cfg s' = rp_cfg s /\ rp_peers s' = <[i := p <| p_repairVersion := u64 (p_repairVersion p + 1) |>]> (rp_peers s) /\
  mt_ReplicationDropped (rp_metrics s') = u64 (mt_ReplicationDropped (rp_metrics s) + llen b).
Proof. intros Hp [= <-]. cbn. by rewrite (alter_at _ _ _ _ Hp). Qed.

Lemma receiveBatch_eq i s p : rp_peers s !! i = Some p -> receiveBatch i s =
  match p_ch p with
  | [] => Some (None, s)
  | b :: rest => Some (Some b, s <| rp_peers := <[i := p <| p_ch := rest |>]> (rp_peers s) |>)
  end.
Proof.
  intros Hp. unfold receiveBatch, peerAt, gbind, gget, glift. rewrite Hp. cbn. destruct (p_ch p); [done|]. cbn. by rewrite (alter_at _ _ _ _ Hp).
Qed.

(** A claim that passed its test stays within the budget. *)
Lemma fits_claim cfg bytes queued : budget_ok cfg -> 0 <= bytes < 2 ^ 62 -> 0 <= queued <= cfg_ReplicationQueueBytes cfg ->
  fitsReserve cfg bytes queued = true \/ fitsQueue cfg bytes queued = true -> i64 (queued + bytes) = queued + bytes /\ queued + bytes <= cfg_ReplicationQueueBytes cfg.
Proof.
  unfold budget_ok. change (2 ^ 60) with 1152921504606846976. change (2 ^ 62) with 4611686018427387904. intros Hb Hn Hq E.
  assert (Ei : i64 (queued + bytes) = queued + bytes) by (apply i64_id; unfold in_i64; lia). split; [exact Ei|].
  destruct E as [E|E]; unfold fitsReserve, fitsQueue in E.
  - rewrite Ei in E. apply orb_true_iff in E as [E|E].
    + apply bool_decide_eq_true in E. unfold replicationHighWaterBytes in E. rewrite (i64_id (_ * 3)) in E by (unfold in_i64; lia).
      assert (Z.quot (cfg_ReplicationQueueBytes cfg * 3) 4 <= cfg_ReplicationQueueBytes cfg) by (apply Z.quot_le_upper_bound; lia).
      case_bool_decide; lia.
    + apply andb_true_iff in E as [E1 E2]. apply bool_decide_eq_true in E1, E2. lia.
  - rewrite Ei in E. apply negb_true_iff, bool_decide_eq_false in E. lia.
Qed.

Lemma queue_nonneg cfg p h : queue_ok cfg p h -> 0 <= p_queuedBytes p /\ 0 <= heldBytes h /\ 0 <= zsum (batchBytes <$> p_ch p) /\ 0 <= workBytes h.
Proof.
  intros [E Hh _ _ Hs _ _ _ _ _ _]. apply Forall_app in Hs as [Hs Hw]. assert (0 <= heldBytes h) by by apply zsum_nonneg, Forall_fmap.
  assert (0 <= zsum (batchBytes <$> p_ch p)). { apply zsum_nonneg, Forall_fmap. eapply Forall_impl; [exact Hs|]. intros b Hb. apply (batchBytes_range _ Hb). }
  assert (0 <= workBytes h). { unfold workBytes. destruct (h_work h) as [[b ?]|]; [|done]. apply Forall_cons in Hw as [Hw _]. apply (batchBytes_range _ Hw). }
  lia.
Qed.

Lemma queues_view cfg (l l' : list peer) hs : viewOf <$> l' = viewOf <$> l -> Forall2 (queue_ok cfg) l hs -> Forall2 (queue_ok cfg) l' hs.
Proof.
  intros E Q. revert l' E. induction Q as [|p h l hs Hq _ IH]; intros [|p' l'] E; try done. rewrite !fmap_cons in E. unfold viewOf at 1 3 in E. injection E as E1 E2 E3 E4 E.
  constructor; [|by apply IH]. destruct Hq. split; by rewrite ?E1, ?E2, ?E3, ?E4.
Qed.

(** A holder more, a holder less. *)
Lemma queue_claimed cfg p h bytes x : budget_ok cfg -> queue_ok cfg p h -> fitsReserve cfg bytes (p_queuedBytes p) = true \/ fitsQueue cfg bytes (p_queuedBytes p) = true ->
  holderBytes x = bytes -> holderOk x ->
  queue_ok cfg (p <| p_queuedBytes := i64 (p_queuedBytes p + bytes) |>) (h <| h_held := x :: h_held h |>).
Proof.
  intros Hb Hq Ht Ex Hx. destruct (queue_nonneg _ _ _ Hq) as (N1 & N2 & N3 & N4). assert (Hn : 0 <= bytes < 2 ^ 62) by (rewrite <- Ex; destruct x; cbn; [by apply batchBytes_range..|split; [lia|done]|done]).
  destruct (fits_claim _ _ _ Hb Hn (conj N1 (qo_max _ _ _ Hq)) Ht) as [Ei Hle]. destruct Hq as [Q1 Q2 Q3 Q4 Q5 Q6 Q7 Q8 Q9 Q10 Q11].
  split; cbn; try done; [|constructor; [lia|done]|lia|by constructor]. rewrite Ei. unfold heldBytes in *. cbn. rewrite zsum_cons, Ex.
  change (workBytes (h <| h_held := x :: h_held h |>)) with (workBytes h). lia.
Qed.

Lemma queue_holder cfg p h x held : queue_ok cfg p h -> h_held h ≡ₚ x :: held -> heldBytes h = holderBytes x + zsum (holderBytes <$> held) /\
  0 <= holderBytes x <= p_queuedBytes p /\ 0 <= zsum (holderBytes <$> held) /\ Forall (fun x => 0 <= holderBytes x) held /\
  holderOk x /\
  Forall holderOk held.
Proof.
  intros Hq Hp. destruct (queue_nonneg _ _ _ Hq) as (N1 & N2 & N3 & N4). destruct Hq as [Q1 Q2 _ _ _ _ _ _ _ _ Q11].
  assert (E : heldBytes h = holderBytes x + zsum (holderBytes <$> held)) by (unfold heldBytes; by rewrite Hp, fmap_cons, zsum_cons).
  rewrite Hp in Q2, Q11. apply Forall_cons in Q2 as [Q2 Q2'], Q11 as [Q11 Q11']. assert (0 <= zsum (holderBytes <$> held)) by by apply zsum_nonneg, Forall_fmap. split_and!; try done; lia.
Qed.

(** The holder gives its bytes back, and goes or becomes one without bytes. *)
Lemma queue_returned cfg p h x held held' : budget_ok cfg -> queue_ok cfg p h -> h_held h ≡ₚ x :: held -> zsum (holderBytes <$> held') = zsum (holderBytes <$> held) ->
  Forall (fun x => 0 <= holderBytes x) held' -> Forall holderOk held' ->
  queue_ok cfg (p <| p_queuedBytes := i64 (p_queuedBytes p + - holderBytes x) |>) (h <| h_held := held' |>).
Proof.
  unfold budget_ok. intros Hb Hq Hp Es H1 H2. destruct (queue_holder _ _ _ _ _ Hq Hp) as (Eh & Hx & Hr & _). destruct Hq as [Q1 Q2 Q3 Q4 Q5 Q6 Q7 Q8 Q9 Q10 Q11].
  change (2 ^ 60) with 1152921504606846976 in Hb.
  assert (Ei : i64 (p_queuedBytes p + - holderBytes x) = p_queuedBytes p - holderBytes x) by (rewrite i64_id by (unfold in_i64; lia); lia).
  split; cbn; try done; rewrite ?Ei; [|lia]. unfold heldBytes in *. cbn. rewrite Es. change (workBytes (h <| h_held := held' |>)) with (workBytes h). lia.
Qed.

(** The batch of a holder enters the channel. *)
Lemma queue_sent cfg p h b x held : queue_ok cfg p h -> h_held h ≡ₚ x :: held -> x = reserved b \/ x = copying b -> llen (p_ch p) < cfg_QueueDepth cfg ->
  queue_ok cfg (p <| p_ch := p_ch p ++ [b] |>) ((h <| h_held := held |>) <| h_offered := b :: h_offered h |>).
Proof.
  intros Hq Hp Hx Hroom. destruct (queue_holder _ _ _ _ _ Hq Hp) as (Eh & _ & _ & H1 & H2 & H3). destruct Hq as [Q1 Q2 Q3 Q4 Q5 Q6 Q7 Q8 Q9 Q10 Q11].
  assert (holderBytes x = batchBytes b /\ moderate b) as [Ex Hm] by (by destruct Hx as [-> | ->]). split; cbn; try done.
  - rewrite fmap_app, zsum_app. cbn [fmap list_fmap]. rewrite zsum_cons. change (zsum []) with 0. unfold heldBytes in *. cbn.
    change (workBytes ((h <| h_held := held |>) <| h_offered := b :: h_offered h |>)) with (workBytes h). lia.
  - rewrite llen_app. change (llen [b]) with 1. lia.
  - rewrite <- app_assoc. apply Forall_app in Q5 as [Q5a Q5b]. apply Forall_app. split; [done|]. by apply Forall_cons.
  - change (inHand ((h <| h_held := held |>) <| h_offered := b :: h_offered h |>)) with (inHand h). rewrite Q6, <- app_assoc. cbn. by rewrite Permutation_middle.
Qed.

(** A loss is counted: of a copy that was not queued, or of the worker's batch. *)
Lemma queue_dropped cfg p h b held : queue_ok cfg p h -> zsum (holderBytes <$> held) = heldBytes h -> Forall (fun x => 0 <= holderBytes x) held ->
  Forall holderOk held ->
  queue_ok cfg (p <| p_repairVersion := u64 (p_repairVersion p + 1) |>) (((h <| h_held := held |>) <| h_offered := b :: h_offered h |>) <| h_dropped := b :: h_dropped h |>).
Proof.
  intros [Q1 Q2 Q3 Q4 Q5 Q6 Q7 Q8 Q9 Q10 Q11] Eh H1 H2. split; cbn; try done.
  - unfold heldBytes in *. cbn. rewrite Eh. exact Q1.
  - change (inHand _) with (inHand h). rewrite Q6. solve_Permutation.
  - rewrite Q7, llen_cons, u64_add_l. f_equal. lia.
Qed.

Lemma queue_lost cfg p h b : queue_ok cfg p h -> h_work h = Some (b, false) ->
  queue_ok cfg (p <| p_repairVersion := u64 (p_repairVersion p + 1) |>) ((h <| h_work := Some (b, true) |>) <| h_dropped := b :: h_dropped h |>).
Proof.
  intros [Q1 Q2 Q3 Q4 Q5 Q6 Q7 Q8 Q9 Q10 Q11] Hw. unfold workBytes, inHand in *. rewrite Hw in *. split; cbn; try done.
  - rewrite Q6. cbn. solve_Permutation.
  - rewrite Q7, llen_cons, u64_add_l. f_equal. lia.
Qed.

(** The worker's batch is accounted for. *)
Lemma queue_settled cfg p h b : budget_ok cfg -> queue_ok cfg p h -> h_work h = Some (b, true) ->
  queue_ok cfg (p <| p_queuedBytes := i64 (p_queuedBytes p + - batchBytes b) |>) (h <| h_work := None |>).
Proof.
  unfold budget_ok. intros Hb Hq Hw. destruct (queue_nonneg _ _ _ Hq) as (N1 & N2 & N3 & N4). destruct Hq as [Q1 Q2 Q3 Q4 Q5 Q6 Q7 Q8 Q9 Q10 Q11]. unfold workBytes, inHand in *. rewrite Hw in *.
  change (2 ^ 60) with 1152921504606846976 in Hb.
  assert (Ei : i64 (p_queuedBytes p + - batchBytes b) = p_queuedBytes p - batchBytes b) by (rewrite i64_id by (unfold in_i64; lia); lia).
  apply Forall_app in Q5 as [Q5a Q5b]. split; cbn; try done; rewrite ?Ei; unfold workBytes; cbn; [unfold heldBytes in *; cbn; lia|lia|by rewrite app_nil_r].
Qed.

(** What [enqueueCopy] computes in one piece. *)
Lemma enqueueCopy_eq i b s p : rp_peers s !! i = Some p -> enqueueCopy i b (batchBytes b) s =
  if fitsQueue (rp_cfg s) (batchBytes b) (p_queuedBytes p) then
    let p1 := p <| p_queuedBytes := i64 (p_queuedBytes p + batchBytes b) |> in let s1 := s <| rp_peers := <[i := p1]> (rp_peers s) |> in
    if bool_decide (llen (p_ch p) < cfg_QueueDepth (rp_cfg s)) then Some (tt, s1 <| rp_peers := <[i := p1 <| p_ch := p_ch p ++ [b] |>]> (rp_peers s1) |>)
    else dropCopy i b (s1 <| rp_peers := <[i := p1 <| p_queuedBytes := i64 (p_queuedBytes p1 + - batchBytes b) |>]> (rp_peers s1) |>)
  else dropCopy i b s.
Proof.
  intros Hp. assert (Hli : (i < length (rp_peers s))%nat) by by eapply lookup_lt_Some. unfold enqueueCopy. unfold gbind at 1, gget at 1. unfold gbind at 1.
  rewrite (claim_eq (fun queued => negb (bool_decide (cfg_ReplicationQueueBytes (rp_cfg s) < i64 (queued + batchBytes b)))) i (batchBytes b) s p Hp). fold (fitsQueue (rp_cfg s) (batchBytes b) (p_queuedBytes p)).
  destruct (fitsQueue _ _ _); cbn [negb]; [|done]. cbv zeta. set (p1 := p <| p_queuedBytes := _ |>). set (s1 := s <| rp_peers := _ |>).
  assert (Hp1 : rp_peers s1 !! i = Some p1) by (by apply list_lookup_insert_eq). unfold gbind at 1. rewrite (trySend_eq i b s1 p1 Hp1).
  change (p_ch p1) with (p_ch p). change (rp_cfg s1) with (rp_cfg s). destruct (bool_decide (llen (p_ch p) < _)); [done|]. unfold gbind at 1.
  assert (exists s2, addQueued i (- batchBytes b) s1 = Some (tt, s2)) as [s2 Es2] by (by eexists). rewrite Es2. by rewrite (addQueued_eq _ _ _ _ _ Hp1 Es2).
Qed.

Lemma rstep_ok x y : budget_ok (rp_cfg x.1) -> queues_ok x.1 x.2 -> rstep x y -> queues_ok y.1 y.2 /\ rp_cfg y.1 = rp_cfg x.1.
Proof.
  intros Hb Q St.
  destruct St as [s hs i h b s' Hm Hh E|s hs i h b held s' Hh Hp E|s hs i h b held s' Hh Hp E|s hs i h b s' Hm Hh E|s hs i h b ok s' Hm Hh E|s hs i h b held ok s' Hh Hp E
    |s hs i h b held s' Hh Hp E|s hs i h b held s' Hh Hp E|s hs i h n s' Hn Hh E|s hs i h n held s' Hh Hp E|s hs i h s' Hh E|s hs i h b s' Hh Hw E
    |s hs i h b p v2 body status r1 r2 w Hh Hw Ep D1 D2 D3|s hs i h b d w Hh Hw D|s hs i h b Hh Hw D|s hs i h b s' Hh Hw E|s hs i h b s' Hh Hw E|s hs s' E]; cbn [fst snd] in *;
    try (destruct (queues_peer _ _ _ _ Q Hh) as (p0 & Ep0 & Hq); first [assert (p0 = p) as -> by congruence|rename p0 into p, Ep0 into Ep]).
  - rewrite (claim_eq _ _ _ _ _ Ep) in E. destruct (fitsReserve _ _ _) eqn:Et; [|done]. injection E as <-. split; [|done].
    eapply queues_set; [exact Q|exact Ep|exact Hh|done|done|]. intros _. apply queue_claimed; [done|done|by left|done|done].
  - injection E as <-. split; [|done]. eapply queues_set; [exact Q|exact Ep|exact Hh|done|cbn; by rewrite (alter_at _ _ _ _ Ep)|]. intros _.
    destruct (queue_holder _ _ _ _ _ Hq Hp) as (_ & _ & _ & H1 & _ & H2). by apply (queue_returned _ _ _ (reserved b) held).
  - rewrite (trySend_eq _ _ _ _ Ep) in E. destruct (bool_decide_reflect (llen (p_ch p) < cfg_QueueDepth (rp_cfg s))) as [Hroom|]; [|done]. injection E as <-. split; [|done].
    eapply queues_set; [exact Q|exact Ep|exact Hh|done|done|]. intros _. eapply queue_sent; [done|exact Hp|by left|done].
  - rewrite (enqueueCopy_eq _ _ _ _ Ep) in E. destruct (fitsQueue (rp_cfg s) (batchBytes b) (p_queuedBytes p)) eqn:Ef; cbv zeta in E.
    + assert (Hq1 : queue_ok (rp_cfg s) (p <| p_queuedBytes := i64 (p_queuedBytes p + batchBytes b) |>) (h <| h_held := copying b :: h_held h |>)) by (apply queue_claimed; [done|done|by right|done|done]).
      set (p1 := p <| p_queuedBytes := _ |>) in *. set (s1 := s <| rp_peers := _ |>) in *. assert (Hp1 : rp_peers s1 !! i = Some p1) by (apply list_lookup_insert_eq; by eapply lookup_lt_Some).
      case_bool_decide as Hroom.
      * injection E as Es. assert (Eq : queued i s s' = true).
        { rewrite <- Es. unfold queued, channelOf. cbn. rewrite Ep, list_lookup_insert_eq by (rewrite ?length_insert; by eapply lookup_lt_Some). cbn. rewrite length_app. apply bool_decide_true. cbn. lia. }
        rewrite Eq. rewrite <- Es. split; [|done]. eapply queues_set; [exact Q|exact Ep|exact Hh|done|cbn; by rewrite list_insert_insert_eq|]. intros _.
        pose proof (queue_sent _ _ _ b (copying b) (h_held h) Hq1 (reflexivity _) ltac:(by right) Hroom) as Hq2. by destruct h, p.
      * pose proof (queue_returned _ _ _ (copying b) (h_held h) (h_held h) Hb Hq1 (reflexivity _) eq_refl) as Hq2.
        set (p2 := p1 <| p_queuedBytes := _ |>) in *. set (s2 := s1 <| rp_peers := _ |>) in *. assert (Hp2 : rp_peers s2 !! i = Some p2) by (apply list_lookup_insert_eq; rewrite ?length_insert; by eapply lookup_lt_Some).
        destruct (dropCopy_eq _ _ _ _ _ Hp2 E) as (E1 & E2 & _). assert (E3 : rp_peers s' = <[i := p2 <| p_repairVersion := u64 (p_repairVersion p2 + 1) |>]> (rp_peers s)) by (rewrite E2; cbn; by rewrite !list_insert_insert_eq).
        split; [|done]. assert (Eq : queued i s s' = false).
        { unfold queued, channelOf. rewrite Ep, E3, list_lookup_insert_eq by (by eapply lookup_lt_Some). cbn. apply bool_decide_false. lia. }
        rewrite Eq. eapply queues_set; [exact Q|exact Ep|exact Hh|done|exact E3|]. intros _.
        pose proof (queue_dropped _ _ _ b (h_held h) (Hq2 (qo_held _ _ _ Hq) (qo_holders _ _ _ Hq)) eq_refl (qo_held _ _ _ Hq) (qo_holders _ _ _ Hq)) as Hq3. by destruct h.
    + destruct (dropCopy_eq _ _ _ _ _ Ep E) as (E1 & E2 & _). split; [|done]. assert (Eq : queued i s s' = false).
      { unfold queued, channelOf. rewrite Ep, E2, list_lookup_insert_eq by (by eapply lookup_lt_Some). cbn. apply bool_decide_false. lia. }
      rewrite Eq. eapply queues_set; [exact Q|exact Ep|exact Hh|done|exact E2|]. intros _.
      pose proof (queue_dropped _ _ _ b (h_held h) Hq eq_refl (qo_held _ _ _ Hq) (qo_holders _ _ _ Hq)) as Hq3. by destruct h.
  - rewrite (claim_eq _ _ _ _ _ Ep) in E. destruct (fitsQueue _ _ _) eqn:Et; injection E as <- <-; (split; [|done]).
    + eapply queues_set; [exact Q|exact Ep|exact Hh|done|done|]. intros _. apply queue_claimed; [done|done|by right|done|done].
    + eapply (queues_set s s hs i p h p); [exact Q|exact Ep|exact Hh|done|by rewrite list_insert_id|]. intros _. destruct Hq as [Q1 Q2 Q3 Q4 Q5 Q6 Q7 Q8 Q9 Q10 Q11].
      split; cbn; try done; by constructor.
  - rewrite (trySend_eq _ _ _ _ Ep) in E. destruct (bool_decide_reflect (llen (p_ch p) < cfg_QueueDepth (rp_cfg s))) as [Hroom|]; injection E as <- <-; (split; [|done]).
    + eapply queues_set; [exact Q|exact Ep|exact Hh|done|done|]. intros _. eapply queue_sent; [done|exact Hp|by right|done].
    + eapply (queues_set s s hs i p h p); [exact Q|exact Ep|exact Hh|done|by rewrite list_insert_id|]. intros _.
      destruct (queue_holder _ _ _ _ _ Hq Hp) as (Eh & Hx & _ & H1 & H2 & H3). destruct Hq as [Q1 Q2 Q3 Q4 Q5 Q6 Q7 Q8 Q9 Q10 Q11].
      split; cbn; try done; [|constructor; [apply Hx|done]|by constructor]. unfold heldBytes in *. cbn in *. rewrite zsum_cons. cbn. rewrite Q1, Eh. done.
  - rewrite (addQueued_eq _ _ _ _ _ Ep E). split; [|done]. eapply queues_set; [exact Q|exact Ep|exact Hh|done|done|]. intros _.
    destruct (queue_holder _ _ _ _ _ Hq Hp) as (_ & _ & _ & H1 & H2 & H3). apply (queue_returned _ _ _ (returning b) held); [done|done|done|by rewrite fmap_cons, zsum_cons|by constructor..].
  - destruct (dropCopy_eq _ _ _ _ _ Ep E) as (E1 & E2 & _). split; [|done]. eapply queues_set; [exact Q|exact Ep|exact Hh|done|done|]. intros _.
    destruct (queue_holder _ _ _ _ _ Hq Hp) as (Eh & _ & _ & H1 & _ & H2). by apply queue_dropped.
  - rewrite (claim_eq _ _ _ _ _ Ep) in E. destruct (fitsQueue _ _ _) eqn:Et; [|done]. injection E as <-. split; [|done].
    eapply queues_set; [exact Q|exact Ep|exact Hh|done|done|]. intros _. apply queue_claimed; [done|done|by right|done|done].
  - rewrite (addQueued_eq _ _ _ _ _ Ep E). split; [|done]. eapply queues_set; [exact Q|exact Ep|exact Hh|done|done|]. intros _.
    destruct (queue_holder _ _ _ _ _ Hq Hp) as (_ & _ & _ & H1 & _ & H2). by apply (queue_returned _ _ _ (repairing n) held).
  - injection E as <-. split; [|done]. eapply queues_set; [exact Q|exact Ep|exact Hh|done|cbn; by rewrite (alter_at _ _ _ _ Ep)|]. intros _.
    destruct Hq. split; cbn; try done. rewrite qo_version0, u64_add_l. f_equal. lia.
  - rewrite (receiveBatch_eq _ _ _ Ep) in E. destruct (p_ch p) as [|b0 rest] eqn:Ech; [done|]. injection E as -> <-. split; [|done].
    eapply queues_set; [exact Q|exact Ep|exact Hh|done|done|]. intros _. destruct Hq as [Q1 Q2 Q3 Q4 Q5 Q6 Q7 Q8 Q9 Q10 Q11].
    unfold workBytes, inHand in *. rewrite Hw, Ech in *. split; cbn; try done.
    + rewrite fmap_cons, zsum_cons in Q1. unfold workBytes. cbn. unfold heldBytes in *. cbn. lia.
    + rewrite llen_cons in Q4. lia.
    + rewrite app_nil_r in Q5. apply Forall_cons in Q5 as [Q5a Q5b]. apply Forall_app. split; [done|]. by apply Forall_cons.
    + rewrite Q6. cbn. by rewrite <- Permutation_middle.
  - split; [|done]. eapply (queues_set s _ hs i p h p); [exact Q|exact Ep|exact Hh|done|by rewrite list_insert_id|].
    intros _. destruct Hq. unfold workBytes, inHand in *. rewrite Hw in *. split; cbn; try done. constructor; [by exists v2, body, (rp_world s), status, r1, r2, w|done].
  - split; [|done]. eapply (queues_set s _ hs i p h p); [exact Q|exact Ep|exact Hh|done|by rewrite list_insert_id|].
    intros _. destruct Hq. unfold workBytes, inHand in *. rewrite Hw in *. split; cbn; try done; [rewrite qo_fate0; cbn; solve_Permutation|]. intros _. by exists d, (rp_world s), w.
  - split; [|done]. eapply (queues_set s s hs i p h p); [exact Q|exact Ep|exact Hh|done|by rewrite list_insert_id|].
    intros _. destruct Hq. unfold workBytes, inHand in *. rewrite Hw in *. split; cbn; try done; [|by constructor]. rewrite qo_fate0. cbn. solve_Permutation.
  - destruct (dropCopy_eq _ _ _ _ _ Ep E) as (E1 & E2 & _). split; [|done]. eapply queues_set; [exact Q|exact Ep|exact Hh|done|done|]. intros _. by apply queue_lost.
  - injection E as <-. split; [|done]. eapply queues_set; [exact Q|exact Ep|exact Hh|done|cbn; by rewrite (alter_at _ _ _ _ Ep)|]. intros _. by apply queue_settled.
  - unfold queueView in E. injection E as Ec Ev. split; [|done]. unfold queues_ok. rewrite Ec. by eapply queues_view.
Qed.

Lemma rsteps_ok x y : budget_ok (rp_cfg x.1) -> queues_ok x.1 x.2 -> rsteps x y -> queues_ok y.1 y.2 /\ rp_cfg y.1 = rp_cfg x.1.
Proof.
  intros Hb Q St. induction St as [x|x y z S1 S2 IH]; [done|]. destruct (rstep_ok _ _ Hb Q S1) as [Q1 E1].
  destruct IH as [Q2 E2]; [by rewrite E1|done|]. split; [done|congruence].
Qed.

(** ** Operations as sequences of steps *)

Abbreviation runs := (runsBy rstep).

(** A computation that leaves the queues alone. *)
Lemma runs_other {A} (m : GoM RS A) s hs (Q : A -> RS -> list holdings -> Prop) : wp m s (fun a s' => queueView s' = queueView s /\ Q a s' hs) -> runs s hs m Q.
Proof. intros Hm. eapply wp_mono; [exact Hm|]. intros a s' [E HQ]. exists hs. split; [by apply steps_one, rs_other|done]. Qed.

(** What stays the same of the other peers. *)
Definition elsewhere (i : nat) (s s' : RS) (hs hs' : list holdings) : Prop :=
  rp_cfg s' = rp_cfg s /\ length (rp_peers s') = length (rp_peers s) /\ forall j, j <> i -> rp_peers s' !! j = rp_peers s !! j /\ hs' !! j = hs !! j.

Lemma elsewhere_refl i s hs : elsewhere i s s hs hs.
Proof. by split_and!. Qed.
Lemma elsewhere_trans i s1 s2 s3 hs1 hs2 hs3 : elsewhere i s1 s2 hs1 hs2 -> elsewhere i s2 s3 hs2 hs3 -> elsewhere i s1 s3 hs1 hs3.
Proof.
  intros (A1 & A2 & A3) (B1 & B2 & B3). split_and!; [congruence|congruence|]. intros j Hj. destruct (A3 j Hj), (B3 j Hj). split; congruence.
Qed.
Lemma elsewhere_set i s s' hs p h : rp_cfg s' = rp_cfg s -> rp_peers s' = <[i := p]> (rp_peers s) -> elsewhere i s s' hs (<[i := h]> hs).
Proof.
  intros Ec Ep. split_and!; [done|by rewrite Ep, length_insert|]. intros j Hj. by rewrite Ep, !list_lookup_insert_ne.
Qed.

(** What became of a copy for a peer. *)
Inductive copied (b : batch) (p : peer) (h : holdings) (p' : peer) (h' : holdings) : Prop :=
| copied_queued : p_ch p' = p_ch p ++ [b] -> p_repairVersion p' = p_repairVersion p -> h_dropped h' = h_dropped h -> h_offered h' = b :: h_offered h -> copied b p h p' h'
| copied_dropped : p_ch p' = p_ch p -> p_repairVersion p' = u64 (p_repairVersion p + 1) -> h_dropped h' = b :: h_dropped h -> h_offered h' = b :: h_offered h -> copied b p h p' h'.

(** Its bytes are held from the claim on, until they are queued with it or given back. *)
Lemma runs_enqueueCopy i b s hs p h (Q : unit -> RS -> list holdings -> Prop) : moderate b -> rp_peers s !! i = Some p -> hs !! i = Some h ->
  (forall s' hs' p' h', elsewhere i s s' hs hs' -> rp_peers s' !! i = Some p' -> hs' !! i = Some h' -> h_held h' = h_held h -> h_work h' = h_work h ->
     copied b p h p' h' -> Q tt s' hs') ->
  runs s hs (enqueueCopy i b (batchBytes b)) Q.
Proof.
  intros Hm Hp Hh HQ. unfold enqueueCopy. apply runs_bind, runs_get.
  assert (Hli : (i < length (rp_peers s))%nat) by by eapply lookup_lt_Some. assert (Hlh : (i < length hs)%nat) by by eapply lookup_lt_Some.
  fold (fitsQueue (rp_cfg s) (batchBytes b)).
  assert (Hdrop : forall s1 h1 p1, rp_cfg s1 = rp_cfg s -> rp_peers s1 = <[i := p1]> (rp_peers s) -> h_held h1 = dropping b :: h_held h -> h_work h1 = h_work h -> h_dropped h1 = h_dropped h ->
    h_offered h1 = h_offered h -> p_ch p1 = p_ch p -> p_repairVersion p1 = p_repairVersion p -> runs s1 (<[i := h1]> hs) (dropCopy i b) Q).
  { intros s1 h1 p1 Ec Ep E1 E2 E3 E4 E5 E6. assert (Hp1 : rp_peers s1 !! i = Some p1) by (by rewrite Ep, list_lookup_insert_eq).
    assert (exists s2, dropCopy i b s1 = Some (tt, s2)) as [s2 Es2] by (by eexists). destruct (dropCopy_eq _ _ _ _ _ Hp1 Es2) as (F1 & F2 & _).
    eapply runs_one; [exact Es2|by apply (rs_drop _ _ i h1 b (h_held h)); [by rewrite list_lookup_insert_eq|rewrite E1|]|]. rewrite list_insert_insert_eq.
    eapply HQ; [eapply elsewhere_set; [congruence|by rewrite F2, Ep, list_insert_insert_eq]|by rewrite F2, list_lookup_insert_eq by (by rewrite Ep, length_insert)|by apply list_lookup_insert_eq|done|done|].
    apply copied_dropped; cbn; congruence. }
  apply runs_bind. pose proof (claim_eq (fitsQueue (rp_cfg s) (batchBytes b)) i (batchBytes b) s p Hp) as Ecl. destruct (fitsQueue (rp_cfg s) (batchBytes b) (p_queuedBytes p)).
  - eapply runs_one; [exact Ecl|eapply (rs_claim s hs i h b); [exact Hm|exact Hh|exact Ecl]|]. cbn [negb].
    set (p1 := p <| p_queuedBytes := _ |>). set (s1 := s <| rp_peers := _ |>). set (h1 := h <| h_held := _ |>).
    assert (Hp1 : rp_peers s1 !! i = Some p1) by (by apply list_lookup_insert_eq). assert (Hh1 : <[i := h1]> hs !! i = Some h1) by (by apply list_lookup_insert_eq).
    apply runs_bind. pose proof (trySend_eq i b s1 p1 Hp1) as Esend. destruct (bool_decide (llen (p_ch p1) < _)).
    + eapply runs_one; [exact Esend|eapply (rs_try s1 _ i h1 b (h_held h)); [exact Hh1|done|exact Esend]|]. apply runs_ret. rewrite list_insert_insert_eq.
      eapply HQ; [eapply elsewhere_set; [done|cbn; by rewrite list_insert_insert_eq]|cbn; apply list_lookup_insert_eq; by rewrite length_insert|by apply list_lookup_insert_eq|done|done|].
      by apply copied_queued.
    + eapply runs_one; [exact Esend|eapply (rs_try s1 _ i h1 b (h_held h)); [exact Hh1|done|exact Esend]|]. cbv beta iota. rewrite list_insert_insert_eq.
      set (h2 := h1 <| h_held := _ |>). assert (Hh2 : <[i := h2]> hs !! i = Some h2) by (by apply list_lookup_insert_eq). apply runs_bind.
      assert (exists s2, addQueued i (- batchBytes b) s1 = Some (tt, s2)) as [s2 Es2] by (by eexists). pose proof (addQueued_eq _ _ _ _ _ Hp1 Es2) as E2.
      eapply runs_one; [exact Es2|eapply (rs_return s1 _ i h2 b (h_held h)); [exact Hh2|done|exact Es2]|]. rewrite list_insert_insert_eq.
      eapply Hdrop; [by rewrite E2|rewrite E2; cbn; by rewrite list_insert_insert_eq|done..].
  - eapply runs_one; [exact Ecl|eapply (rs_claim s hs i h b); [exact Hm|exact Hh|exact Ecl]|]. cbn [negb].
    eapply (Hdrop s _ p); [done|by rewrite list_insert_id|done..].
Qed.
End Steps.

Abbreviation rsteps := (steps rstep).
Abbreviation runs := (runsBy rstep).
