(* ===== verification/Actions.v ===== *)
(** * Acknowledgements for peers

    [broadcastAction] and [actionLoop] of internal/broker/broker.go: each peer has a queue of acknowledgements
    and one of negative ones, a budget of bytes that both share ([actionBytes]), and a worker for
    each queue that joins what is queued into requests of at most 1024 identifiers and sends them with growing
    pauses until the deadline. *)
From S2P Require Import Prelude Types Config Metrics GoIO Wire Pending Replication.
#[local] Open Scope Z_scope.

(** The bound of both lists of a request, and the capacity of [acks] and [nacks]. *)
Definition maxActionIDs : Z := 1024.
Definition actionQueueDepth : Z := 1024.

(** ** Broadcasting *)

(** The bytes that an action is charged with. *)
Definition actionSize (ids : list string) (checkpoints : list groupCheckpoint) : Z :=
  foldl (fun bytes c => i64 (bytes + (slen (gc_Topic c) + slen (gc_Group c) + slen (gc_MessageID c) + 48)))
    (foldl (fun bytes id => i64 (bytes + (slen id + 4))) 32 ids) checkpoints.

(** [ch = p.acks] or [ch = p.nacks] *)
Definition laneOf (action : string) (p : peer) : list actionBatch := if bool_decide (action = "ack") then p_acks p else p_nacks p.
Definition setLane (action : string) (l : list actionBatch) (p : peer) : peer := if bool_decide (action = "ack") then p <| p_acks := l |> else p <| p_nacks := l |>.

Section Actions.
Context {W : Type} `{PeerNet W}.
Abbreviation RM := (GoM (replication W)).

Definition addAction (i : nat) (bytes : Z) : RM unit := updatePeer i (fun p => p <| p_actionBytes := i64 (p_actionBytes p + bytes) |>).

(** The loop of [Load] and [CompareAndSwap], as in [claim]. *)
Definition claimAction (i : nat) (bytes : Z) : RM bool :=
  s <- gget ;;
  p <- peerAt i ;;
  if bool_decide (cfg_ActionQueueBytes (rp_cfg s) < i64 (p_actionBytes p + bytes)) then gret false
  else addAction i bytes ;;; gret true.

Definition countDroppedAction (action : string) (n : Z) : RM unit :=
  if bool_decide (action = "ack") then countBy mt_AckActionDropped n else countBy mt_NackActionDropped n.

(** [case ch <- actionBatch{...}] *)
Definition trySendAction (i : nat) (action : string) (batch : actionBatch) : RM bool :=
  p <- peerAt i ;;
  if bool_decide (llen (laneOf action p) < actionQueueDepth)
  then updatePeer i (setLane action (laneOf action p ++ [batch])) ;;; gret true else gret false.

(** One peer; [None] when the select takes [ctx.Done]. *)
Definition offerAction (canceled : bool) (i : nat) (action : string) (ids : list string) (checkpoints : list groupCheckpoint) : RM (option bool) :=
  let bytes := actionSize ids checkpoints in
  reserved <- claimAction i bytes ;;
  if negb reserved then countDroppedAction action (Z.max (llen ids) (llen checkpoints)) ;;; gret (Some false) else
  if canceled then addAction i (- bytes) ;;; gret None else
  sent <- trySendAction i action (mkActionBatch ids checkpoints bytes) ;;
  if sent : bool then gret (Some true) else
  addAction i (- bytes) ;;;
  countDroppedAction action (Z.max (llen ids) (llen checkpoints)) ;;;
  gret (Some false).

(** The peers, in order; [canceled i]: the select for peer [i] takes [ctx.Done]. *)
Fixpoint broadcastFrom (peers : list nat) (canceled : nat -> bool) (action : string) (a : ackRequest) (ok : bool) : RM bool :=
  match peers with
  | [] => gret ok
  | i :: peers =>
    sent <- offerAction (canceled i) i action (ar_DeliveryIDs a) (ar_Checkpoints a) ;;
    match sent with
    | None => gret false
    | Some sent => broadcastFrom peers canceled action a (ok && sent)
    end
  end.
Definition broadcastAction (canceled : nat -> bool) (action : string) (a : ackRequest) : RM bool :=
  peers <- allPeers ;; broadcastFrom peers canceled action a true.

(** ** The worker *)

(** [case more := <-ch] *)
Definition receiveAction (i : nat) (action : string) : RM (option actionBatch) :=
  p <- peerAt i ;;
  match laneOf action p with
  | [] => gret None
  | batch :: rest => updatePeer i (setLane action rest) ;;; gret (Some batch)
  end.

(** What the worker has taken from its queue; [ga_carry] does not fit any more. *)
Record gathered := mkGathered { ga_ids : list string; ga_checkpoints : list groupCheckpoint; ga_bytes : Z; ga_carry : option actionBatch }.
#[export] Instance gathered_settable : Settable gathered := fun r => mkGathered (ga_ids r) (ga_checkpoints r) (ga_bytes r) (ga_carry r).
#[export] Instance set_ga_carry : Setter ga_carry := ltac:(derive_setter).

Definition firstGathered (first : actionBatch) : gathered := mkGathered (ab_ids first) (ab_checkpoints first) (ab_bytes first) None.
Definition gatherable (g : gathered) : bool := bool_decide (llen (ga_ids g) < maxActionIDs) && bool_decide (llen (ga_checkpoints g) < maxActionIDs).
(** [room := 1024 - len(ids)] *)
Definition joins (g : gathered) (more : actionBatch) : bool :=
  negb (bool_decide (maxActionIDs - llen (ga_ids g) < llen (ab_ids more)) || bool_decide (maxActionIDs < llen (ga_checkpoints g) + llen (ab_checkpoints more))).
Definition join (g : gathered) (more : actionBatch) : gathered :=
  mkGathered (ga_ids g ++ ab_ids more) (ga_checkpoints g ++ ab_checkpoints more) (i64 (ga_bytes g + ab_bytes more)) (ga_carry g).

Fixpoint gather (n : nat) (i : nat) (action : string) (g : gathered) : RM gathered :=
  if negb (gatherable g) then gret g else
  match n with
  | O => gpanic
  | S n =>
    more <- receiveAction i action ;;
    match more with
    | None => gret g
    | Some more => if joins g more then gather n i action (join g more) else gret (g <| ga_carry := Some more |>)
    end
  end.

(** The attempts of one request: the pause doubles until it is at least two seconds. *)
Fixpoint postLoop (n : nat) (i : nat) (action : string) (body : ackRequest) (backoff deadline : Z) : RM attempts :=
  match n with
  | O => gpanic
  | S n =>
    p <- peerAt i ;;
    r <- inWorld (pn_do (p_url p +:+ "/internal/" +:+ action) (postAction action body)) ;;
    if (match r with replied status _ _ => bool_decide (Z.quot status 100 = 2) | _ => false end) then gret sentBatch else
    now <- inWorld pn_now ;;
    if bool_decide (deadline < now + backoff) then gret gaveUp else
    stop <- inWorld (pn_pause backoff) ;;
    if stop : bool then gret stoppedWorker else
    postLoop n i action body (if bool_decide (backoff < 2 * Second) then i64 (backoff * 2) else backoff) deadline
  end.

(** Enough for every batch that joins, and for the pauses of at least 50ms before the deadline. *)
Definition gatherFuel : nat := Z.to_nat 2050.
Definition postFuel (cfg : Config) : nat := S (Z.to_nat (cfg_AckDeadline cfg / (50 * Millisecond) + 1)).

(** One request of [actionLoop]: what is carried over to the next one; [None] when the worker ends. *)
Definition actionTurn (i : nat) (action : string) (first : actionBatch) : RM (option (option actionBatch)) :=
  s <- gget ;;
  g <- gather gatherFuel i action (firstGathered first) ;;
  now <- inWorld pn_now ;;
  res <- postLoop (postFuel (rp_cfg s)) i action (mkAckRequest (ga_ids g) (ga_checkpoints g)) (50 * Millisecond) (now + cfg_AckDeadline (rp_cfg s)) ;;
  match res with
  | stoppedWorker => gret None
  | sentBatch => addAction i (- ga_bytes g) ;;; gret (Some (ga_carry g))
  | gaveUp =>
    countDroppedAction action (Z.max (llen (ga_ids g)) (llen (ga_checkpoints g))) ;;;
    addAction i (- ga_bytes g) ;;; gret (Some (ga_carry g))
  end.

(** A turn of the loop, by what it selects; without a carried batch it waits for one or for [b.stop]. *)
Inductive actionEvent := actionStop | actionReady.
Definition actionLoop (i : nat) (action : string) (carry : option actionBatch) (ev : actionEvent) : RM (option (option actionBatch)) :=
  match carry with
  | Some first => actionTurn i action first
  | None =>
    match ev with
    | actionStop => gret None
    | actionReady =>
      first <- receiveAction i action ;;
      match first with
      | None => gret (Some None)
      | Some first => actionTurn i action first
      end
    end
  end.
End Actions.
