(* ===== verification/ReplicationSpec.v ===== *)
(** * Replication queues: what they promise

    Every operation is a sequence of the steps of ReplicationInv.v, so the invariant holds in every
    interleaving of publishers, workers and repairs; and what becomes of each copy. *)
From S2P Require Import Prelude Runs Types Config Metrics GoIO Wire Pending Replication ReplicationInv.
#[local] Open Scope Z_scope.

(** The client, the timers and the clock answer: [client.Do] has a timeout, a timer fires. *)
Class PeerNetTotal (W : Type) `{PeerNet W} := {
  do_total url req w : is_Some (pn_do url req w);
  pause_total d w : is_Some (pn_pause d w);
  now_total w : is_Some (pn_now w);
}.

Section Spec.
Context {W : Type} `{PeerNetTotal W} `{MapRange}.
Abbreviation RS := (replication W).
Implicit Types (s : RS) (hs : list holdings).

(** ** What a worker does to the world *)
Inductive event := asked (url : string) (req : peerRequest) (r : reply) | paused (d : Z) (stop : bool).
Inductive exchange : W -> list event -> W -> Prop :=
| ex_end w : exchange w [] w
| ex_asked w url req r w1 evs w2 : pn_do url req w = Some (r, w1) -> exchange w1 evs w2 -> exchange w (asked url req r :: evs) w2
| ex_paused w d stop w1 evs w2 : pn_pause d w = Some (stop, w1) -> exchange w1 evs w2 -> exchange w (paused d stop :: evs) w2
| ex_now w t w1 evs w2 : pn_now w = Some (t, w1) -> exchange w1 evs w2 -> exchange w evs w2.

Lemma exchange_app w1 evs1 w2 evs2 w3 : exchange w1 evs1 w2 -> exchange w2 evs2 w3 -> exchange w1 (evs1 ++ evs2) w3.
Proof. induction 1; cbn; eauto using exchange. Qed.
Lemma exchange_quiet w1 w2 evs w3 : exchange w1 [] w2 -> exchange w2 evs w3 -> exchange w1 evs w3.
Proof. apply (exchange_app w1 [] w2 evs w3). Qed.

(** ** Computations that leave the queues alone, and only read the clock *)
Definition still {A} (i : nat) (m : GoM RS A) : Prop := forall s, is_Some (rp_peers s !! i) ->
  wp m s (fun _ s' => queueView s' = queueView s /\ exchange (rp_world s) [] (rp_world s')).

Lemma view_peer s s' i p : queueView s' = queueView s -> rp_peers s !! i = Some p ->
  exists p', rp_peers s' !! i = Some p' /\ p_ch p' = p_ch p /\ p_queuedBytes p' = p_queuedBytes p /\ p_repairVersion p' = p_repairVersion p /\ p_url p' = p_url p.
Proof.
  unfold queueView. intros E Hp. injection E as _ E. apply (f_equal (.!! i)) in E. rewrite !list_lookup_fmap, Hp in E.
  destruct (rp_peers s' !! i) as [p'|]; [|done]. injection E as E1 E2 E3 E4. exists p'. by split_and!.
Qed.

Lemma view_cfg s s' : queueView s' = queueView s -> rp_cfg s' = rp_cfg s /\ length (rp_peers s') = length (rp_peers s).
Proof. unfold queueView. intros E. injection E as E1 E2. apply (f_equal length) in E2. by rewrite !length_fmap in E2. Qed.

Lemma view_some s s' i : queueView s' = queueView s -> is_Some (rp_peers s !! i) -> is_Some (rp_peers s' !! i).
Proof. intros E [p Hp]. destruct (view_peer _ _ _ _ E Hp) as (p' & Hp' & _). by exists p'. Qed.

Lemma still_ret {A} i (a : A) : still i (gret a).
Proof. intros s _. split; [done|constructor]. Qed.
Lemma still_bind {A B} i (m : GoM RS A) (k : A -> GoM RS B) : still i m -> (forall a, still i (k a)) -> still i (gbind m k).
Proof.
  intros Hm Hk s Hs. apply wp_bind. eapply wp_mono; [by apply Hm|]. intros a s' [E X]. eapply wp_mono; [apply Hk; exact (view_some _ _ _ E Hs)|].
  intros b s2 [E2 X2]. cbn beta in *. split; [by rewrite E2|by eapply exchange_quiet].
Qed.
Lemma still_peer i : still i (peerAt i).
Proof. intros s [p Hp]. unfold peerAt. wp_step. wp_step. eapply wp_lift; [done|]. split; [done|constructor]. Qed.
Lemma still_now i : still i (inWorld pn_now).
Proof. intros s _. apply wp_zoom. unfold wp. destruct (now_total (rp_world s)) as [[a w] E]. rewrite E. split; [done|]. eapply ex_now; [exact E|constructor]. Qed.
Lemma still_modify i (f : RS -> RS) : (forall s, queueView (f s) = queueView s /\ rp_world (f s) = rp_world s) -> still i (gmodify f).
Proof. intros Hf s _. apply wp_modify. destruct (Hf s) as [? ->]. split; [done|constructor]. Qed.
Lemma still_count i proj (St : Setter proj) n : still i (countBy proj n).
Proof. by apply still_modify. Qed.
Lemma still_signal i : still i signalReplicationFreed.
Proof. by apply still_modify. Qed.
Lemma still_update i j f : (forall p, viewOf (f p) = viewOf p) -> still i (updatePeer j f).
Proof.
  intros Hf s _. apply wp_modify. split; [|constructor]. unfold queueView. cbn. f_equal. apply list_eq. intros x. rewrite !list_lookup_fmap.
  destruct (decide (x = j)) as [->|Hne]; [|by rewrite list_lookup_alter_ne]. rewrite list_lookup_alter_eq. destruct (rp_peers s !! j) as [p|]; [|done].
  cbn. by rewrite Hf.
Qed.

End Spec.

Create HintDb still.
#[export] Hint Resolve still_ret still_peer still_count still_signal still_now : still.

Ltac still := repeat first
  [ progress eauto with still
  | apply still_bind; [|intros ?]
  | apply still_update; intros []; repeat case_match; done
  | apply still_modify; done
  | match goal with |- still _ (if ?b then _ else _) => destruct b end
  | match goal with |- still _ (match ?x with _ => _ end) => destruct x end ].

Section Spec2.
Context {W : Type} `{PeerNetTotal W} `{MapRange}.
Abbreviation RS := (replication W).
Implicit Types (s : RS) (hs : list holdings).

(** A computation that leaves the queues alone, among the steps. *)
Lemma runs_still {A} i (m : GoM RS A) s hs (Q : A -> RS -> list holdings -> Prop) : still i m -> is_Some (rp_peers s !! i) ->
  (forall a s', queueView s' = queueView s -> exchange (rp_world s) [] (rp_world s') -> Q a s' hs) -> runs s hs m Q.
Proof. intros Hm Hs HQ. apply runs_other. eapply wp_mono; [by apply Hm|]. intros a s' [E X]. split; [done|by apply HQ]. Qed.

Lemma runs_peerAt i s hs p (Q : peer -> RS -> list holdings -> Prop) : rp_peers s !! i = Some p -> Q p s hs -> runs s hs (peerAt i) Q.
Proof. intros Hp. apply runs_read. unfold peerAt, gbind, gget, glift. by rewrite Hp. Qed.

Lemma inWorld_eq {A} (m : GoM W A) s a w : m (rp_world s) = Some (a, w) -> inWorld m s = Some (a, s <| rp_world := w |>).
Proof. intros E. unfold inWorld, gzoom. by rewrite E. Qed.

Lemma runs_world {A} (m : GoM W A) s hs (Q : A -> RS -> list holdings -> Prop) : is_Some (m (rp_world s)) ->
  (forall a w, m (rp_world s) = Some (a, w) -> Q a (s <| rp_world := w |>) hs) -> runs s hs (inWorld m) Q.
Proof. intros [[a w] E] HQ. apply runs_other, wp_zoom. unfold wp. rewrite E. split; [done|by apply HQ]. Qed.

Lemma runs_addQueued i bytes s hs (Q : unit -> RS -> list holdings -> Prop) p hs' : rp_peers s !! i = Some p ->
  (forall s', addQueued i bytes s = Some (tt, s') -> rstep (s, hs) (s', hs')) ->
  (forall s', rp_cfg s' = rp_cfg s -> rp_peers s' = <[i := p <| p_queuedBytes := i64 (p_queuedBytes p + bytes) |>]> (rp_peers s) -> Q tt s' hs') ->
  runs s hs (addQueued i bytes) Q.
Proof.
  intros Hp St HQ. assert (exists s', addQueued i bytes s = Some (tt, s')) as [s' E] by by eexists.
  eapply runs_one; [exact E|by apply St|]. rewrite (addQueued_eq _ _ _ _ _ Hp E). by apply HQ.
Qed.

(** ** The worker *)
Definition delivers (r : reply) : bool := match r with replied status _ _ => bool_decide (Z.quot status 100 = 2) | _ => false end.
Definition post (url : string) (v2 : bool) (body : list byte) (r : reply) : event := asked (url +:+ "/internal/replicate") (postReplicate v2 body) r.
Definition backoff (k : Z) : Z := Z.shiftl 1 k * (50 * Millisecond).

(** Attempts that failed, each with the pause after it. *)
Fixpoint failures (k : Z) (url : string) (v2 : bool) (body : list byte) (rs : list reply) : list event :=
  match rs with [] => [] | r :: rs => post url v2 body r :: paused (backoff k) false :: failures (k + 1) url v2 body rs end.

(** At most [n] posts of the body, the pauses doubling from that of attempt [k]; only the last may deliver. *)
Definition tries (url : string) (v2 : bool) (body : list byte) (n : nat) (k : Z) (res : attempts) (evs : list event) : Prop :=
  exists rs r tail, evs = failures k url v2 body rs ++ post url v2 body r :: tail /\ Forall (fun r => delivers r = false) rs /\
    match res with
    | sentBatch => (length rs < n)%nat /\ delivers r = true /\ tail = []
    | gaveUp => S (length rs) = n /\ delivers r = false /\ tail = []
    | stoppedWorker => (S (length rs) < n)%nat /\ delivers r = false /\ tail = [paused (backoff (k + Z.of_nat (length rs))) true]
    end.

(** The batch with its fate, before the worker settles its bytes. *)
Definition fateOf (b : batch) (res : attempts) (h : holdings) : holdings :=
  match res with
  | sentBatch => (h <| h_work := Some (b, true) |>) <| h_sent := b :: h_sent h |>
  | gaveUp => (h <| h_work := Some (b, true) |>) <| h_dropped := b :: h_dropped h |>
  | stoppedWorker => (h <| h_work := Some (b, true) |>) <| h_stopped := b :: h_stopped h |>
  end.

(** With a known result. *)
Definition ends {A} (i : nat) (m : GoM RS A) (a : A) : Prop := forall s, is_Some (rp_peers s !! i) ->
  wp m s (fun a' s' => a' = a /\ queueView s' = queueView s /\ exchange (rp_world s) [] (rp_world s')).
Lemma ends_ret {A} i (a : A) : ends i (gret a) a.
Proof. intros s _. split_and!; [done|done|constructor]. Qed.
Lemma ends_bind {A B} i (m : GoM RS A) (k : A -> GoM RS B) b : still i m -> (forall a, ends i (k a) b) -> ends i (gbind m k) b.
Proof.
  intros Hm Hk s Hs. apply wp_bind. eapply wp_mono; [by apply Hm|]. intros a s' [E X]. eapply wp_mono; [apply Hk; exact (view_some _ _ _ E Hs)|].
  intros b' s2 (-> & E2 & X2). cbn beta in *. split_and!; [done|by rewrite E2|by eapply exchange_quiet].
Qed.

Lemma runs_send i b body count v2 s hs p h (Q : bool -> RS -> list holdings -> Prop) : rp_peers s !! i = Some p -> hs !! i = Some h -> h_work h = Some (b, false) ->
  encodeFor v2 b = (body, None) ->
  (forall r s', queueView s' = queueView s -> exchange (rp_world s) [post (p_url p) v2 body r] (rp_world s') ->
     Q (delivers r) s' (if delivers r then <[i := fateOf b sentBatch h]> hs else hs)) ->
  runs s hs (sendPeerBody i body count v2) Q.
Proof.
  intros Hp Hh Hw He HQ. unfold sendPeerBody. apply runs_bind. eapply (runs_still i); [apply still_now|by exists p|]. intros t s1 E1 X1.
  destruct (view_peer _ _ _ _ E1 Hp) as (p1 & Hp1 & _ & _ & _ & Eu). apply runs_bind, (runs_peerAt i s1 hs p1); [done|]. apply runs_bind.
  destruct (do_total (p_url p1 +:+ "/internal/replicate") (postReplicate v2 body) (rp_world s1)) as [[r w] Er].
  set (hs1 := if delivers r then <[i := fateOf b sentBatch h]> hs else hs). set (s2 := s1 <| rp_world := w |>).
  assert (E2 : queueView s2 = queueView s1) by done.
  assert (Hlast : forall m : GoM RS bool, ends i m (delivers r) -> runs s2 hs1 m (fun ok s3 hs3 => runs s3 hs3 (now <- inWorld pn_now ;;
    gmodify (fun s => s <| rp_metrics := (rp_metrics s) <| mt_ReplicationLatency := observe (i64 (now - t)) (mt_ReplicationLatency (rp_metrics s)) |> |>) ;;; gret ok) Q)).
  { intros m Hm. apply runs_other. eapply wp_mono; [apply Hm; by exists p1|]. intros ok s3 (-> & E3 & X3). split; [done|].
    assert (Hs3 : is_Some (rp_peers s3 !! i)) by (by eapply view_some; [exact E3|exists p1]).
    apply runs_bind. eapply (runs_still i); [apply still_now|done|]. intros t' s4 E4 X4. apply runs_bind.
    eapply (runs_still i); [still|by eapply view_some|]. intros [] s5 E5 X5. apply runs_ret, HQ; [congruence|].
    eapply exchange_quiet; [exact X1|]. unfold post. rewrite <- Eu. eapply ex_asked; [exact Er|]. eauto using exchange_quiet. }
  destruct (delivers r) eqn:Ed; subst hs1.
  - destruct r as [| |status repair version]; [done..|]. pose proof Ed as Eq. cbn in Eq. apply bool_decide_eq_true in Eq.
    eapply (runs_one _ _ _ _ _ s2); [apply inWorld_eq, Er|by eapply rs_sent|]. cbv beta iota. apply runs_bind, Hlast. cbn [delivers] in Ed. rewrite Ed. cbn [negb]. repeat (apply ends_bind; [still|intros ?]). apply ends_ret.
  - eapply (runs_world _ s1); [by eexists|]. intros r' w' Er'. assert (r' = r /\ w' = w) as [-> ->] by (split; congruence).
    apply runs_bind, Hlast. destruct r as [| |status repair version]; [apply ends_ret|apply ends_bind; [unfold markUnavailable; still|intros ?; apply ends_ret]|].
    cbn in Ed. rewrite Ed. apply ends_bind; [unfold markUnavailable; still|intros ?; apply ends_ret].
Qed.

Lemma tries_more url v2 body n k r res evs : delivers r = false -> tries url v2 body n (k + 1) res evs ->
  tries url v2 body (S n) k res (post url v2 body r :: paused (backoff k) false :: evs).
Proof.
  intros Hr (rs & r' & tail & -> & Hf & Hres). exists (r :: rs), r', tail. split; [done|]. split; [by constructor|].
  destruct res; cbn [length]; [split_and!; [lia|apply Hres..]|split_and!; [lia|apply Hres..]|]. destruct Hres as (? & ? & ->). split_and!; [lia|done|].
  do 3 f_equal. lia.
Qed.

Lemma runs_attempts i b body count v2 n : forall attempt s hs p h (Q : attempts -> RS -> list holdings -> Prop), attempt + Z.of_nat n = 3 -> n <> O ->
  rp_peers s !! i = Some p -> hs !! i = Some h -> h_work h = Some (b, false) -> encodeFor v2 b = (body, None) ->
  (forall res s' evs, queueView s' = queueView s -> exchange (rp_world s) evs (rp_world s') -> tries (p_url p) v2 body n attempt res evs ->
     Q res s' (match res with gaveUp => hs | _ => <[i := fateOf b res h]> hs end)) ->
  runs s hs (attemptLoop n attempt i body count v2) Q.
Proof.
  induction n as [|n IH]; intros attempt s hs p h Q Hn Hn0 Hp Hh Hw He HQ; cbn [attemptLoop]; [done|].
  apply runs_bind. apply (runs_send i b _ _ _ s hs p h); [done..|]. intros r s1 E1 X1. destruct (delivers r) eqn:Er.
  { apply runs_ret, (HQ sentBatch _ _ E1 X1). exists [], r, []. split_and!; [done|constructor|cbn; lia|done..]. }
  destruct (bool_decide_reflect (attempt = 2)) as [->|Hne].
  { apply runs_ret, (HQ gaveUp _ _ E1 X1). exists [], r, []. split_and!; [done|constructor|cbn; lia|done..]. }
  destruct (view_peer _ _ _ _ E1 Hp) as (p1 & Hp1 & _ & _ & _ & Eu). apply runs_bind. fold (backoff attempt).
  destruct (pause_total (backoff attempt) (rp_world s1)) as [[stop w] Es]. set (s2 := s1 <| rp_world := w |>).
  assert (X2 : forall evs w3, exchange w evs w3 -> exchange (rp_world s) (post (p_url p) v2 body r :: paused (backoff attempt) stop :: evs) w3).
  { intros evs w3 X3. apply (exchange_app _ [_] _ (_ :: evs) _ X1). by eapply ex_paused. }
  destruct stop.
  - eapply (runs_one _ _ _ _ true s2); [apply inWorld_eq, Es|by eapply rs_stopped|]. apply runs_ret, (HQ stoppedWorker s2 _ E1 (X2 _ _ (ex_end w))).
    exists [], r, [paused (backoff attempt) true]. split_and!; [done|constructor|cbn; lia|done|]. do 3 f_equal. cbn. lia.
  - eapply (runs_world _ s1); [by eexists|]. intros stop' w' Es'. assert (stop' = false /\ w' = w) as [-> ->] by (split; congruence).
    apply (IH (attempt + 1) s2 hs p1 h); [lia|lia|done..|]. intros res s3 evs E3 X3 T. rewrite Eu in T.
    apply (HQ res s3 (post (p_url p) v2 body r :: paused (backoff attempt) false :: evs)); [by rewrite E3|by apply X2|by apply tries_more].
Qed.

(** The version of the peer is asked for, or known. *)
Definition probes (url : string) (evs : list event) : Prop := evs = [] \/ exists r, evs = [asked (url +:+ "/internal/capabilities") getCapabilities r].

Lemma runs_probe i s hs p (Q : unit -> RS -> list holdings -> Prop) : rp_peers s !! i = Some p ->
  (forall s' evs, queueView s' = queueView s -> exchange (rp_world s) evs (rp_world s') -> probes (p_url p) evs -> Q tt s' hs) -> runs s hs (probePeerV2 i) Q.
Proof.
  intros Hp HQ. unfold probePeerV2. apply runs_bind, (runs_peerAt i s hs p); [done|]. destruct (p_v2 p); [apply runs_ret, (HQ s []); [done|constructor|by left]|].
  apply runs_bind. eapply (runs_still i); [apply still_now|by exists p|]. intros t s1 E1 X1. destruct (bool_decide _); [apply runs_ret, (HQ s1 []); [done|done|by left]|].
  apply runs_bind. eapply (runs_still i); [still|by eapply view_some; [exact E1|exists p]|]. intros [] s2 E2 X2. apply runs_bind.
  apply runs_world; [apply do_total|]. intros r w Er. set (s3 := s2 <| rp_world := w |>). assert (E3 : queueView s3 = queueView s) by (by rewrite <- E1, <- E2).
  assert (X3 : forall w4, exchange w [] w4 -> exchange (rp_world s) [asked (p_url p +:+ "/internal/capabilities") getCapabilities r] w4).
  { intros w4 X4. eapply exchange_quiet; [exact X1|]. eapply exchange_quiet; [exact X2|]. by eapply ex_asked. }
  eapply (runs_still i); [|by eapply view_some; [exact E3|exists p]|]; [still|]. intros [] s4 E4 X4. eapply HQ; [by rewrite E4|by apply X3|]. right. by exists r.
Qed.

(** The batch leaves the accounts. *)
Lemma runs_settle i b s hs h (Q : unit -> RS -> list holdings -> Prop) : hs !! i = Some h -> h_work h = Some (b, true) ->
  (forall s', rp_world s' = rp_world s -> Q tt s' (<[i := h <| h_work := None |>]> hs)) -> runs s hs (settleBatch i b) Q.
Proof.
  intros Hh Hw HQ. assert (exists s', settleBatch i b s = Some (tt, s') /\ rp_world s' = rp_world s) as (s' & E & Ew) by (by eexists).
  eapply runs_one; [exact E|by eapply rs_settle|by apply HQ].
Qed.

(** What a turn of the worker does to the world and leaves of the holdings: the batch has one fate, with its evidence. *)
Inductive settled (url : string) (b : batch) (h h' : holdings) (evs : list event) : bool -> Prop :=
| settled_tried v2 body res : encodeFor v2 b = (body, None) -> tries url v2 body 3 0 res evs -> h' = (fateOf b res h) <| h_work := None |> ->
    settled url b h h' evs (match res with stoppedWorker => false | _ => true end)
| settled_refused v2 body e : encodeFor v2 b = (body, Some e) -> evs = [] -> h' = (h <| h_refused := b :: h_refused h |>) <| h_work := None |> ->
    settled url b h h' evs true.

Lemma runs_peerTurn i b s hs p h (Q : bool -> RS -> list holdings -> Prop) : rp_peers s !! i = Some p -> hs !! i = Some h -> h_work h = Some (b, false) ->
  (forall go s' h' probe evs, exchange (rp_world s) (probe ++ evs) (rp_world s') -> probes (p_url p) probe -> settled (p_url p) b h h' evs go ->
     Q go s' (<[i := h']> hs)) -> runs s hs (peerTurn i b) Q.
Proof.
  intros Hp Hh Hw HQ. assert (Hlh : (i < length hs)%nat) by by eapply lookup_lt_Some. unfold peerTurn. apply runs_bind, (runs_probe i s hs p); [done|].
  intros s1 probe E1 X1 Pr. destruct (view_peer _ _ _ _ E1 Hp) as (p1 & Hp1 & _ & _ & _ & Eu). apply runs_bind, (runs_peerAt i s1 hs p1); [done|].
  assert (Hset : forall s2 h1 h' evs go, h_work h1 = Some (b, true) -> exchange (rp_world s1) evs (rp_world s2) -> h' = h1 <| h_work := None |> ->
    settled (p_url p) b h h' evs go -> runs s2 (<[i := h1]> hs) (settleBatch i b ;;; gret go) Q).
  { intros s2 h1 h' evs go Hw1 X2 -> Hf. apply runs_bind. eapply (runs_settle i b _ _ h1); [by apply list_lookup_insert_eq|done|].
    intros s3 Ew. rewrite list_insert_insert_eq. apply runs_ret. eapply HQ; [by eapply exchange_app; [|rewrite Ew]|done|done]. }
  destruct (encodeFor (peerVersion p1) b) as [body [e|]] eqn:Eenc.
  - apply runs_bind. eapply (runs_still i); [apply still_count|by exists p1|]. intros [] s2 E2 X2.
    eapply runs_ghost; [eapply (rs_refused s2 hs i h b); [done|done|by exists (peerVersion p1), body, e]|].
    eapply (Hset s2 _ _ []); [done|done|reflexivity|]. by eapply settled_refused.
  - apply runs_bind, (runs_attempts i b body _ _ 3 0 s1 hs p1 h); [done..|]. intros res s2 evs E2 X2 T. rewrite Eu in T.
    pose proof (settled_tried (p_url p) b h _ evs _ _ res Eenc T eq_refl) as F. destruct res; [by eapply Hset| |by eapply Hset].
    destruct (view_peer _ _ _ _ E2 Hp1) as (p2 & Hp2 & _). apply runs_bind. assert (exists s3, dropCopy i b s2 = Some (tt, s3) /\ rp_world s3 = rp_world s2) as (s3 & E3 & Ew) by by eexists.
    eapply runs_one; [exact E3|by eapply rs_gaveUp|]. eapply (Hset s3 (fateOf b gaveUp h)); [done|by rewrite Ew|reflexivity|done].
Qed.

(** ** Reservations *)

(** The first peer of [l] with room, if any. *)
Definition reservedBy (b : batch) (s : RS) (l : list nat) (r : option nat) : Prop :=
  let fits i := exists p, rp_peers s !! i = Some p /\ fitsReserve (rp_cfg s) (batchBytes b) (p_queuedBytes p) = true in
  match r with
  | None => forall i, i ∈ l -> ~ fits i
  | Some r => exists before after, l = before ++ r :: after /\ fits r /\ forall i, i ∈ before -> ~ fits i
  end.

(** What a reservation leaves. *)
Definition afterReserve (b : batch) (r : option nat) s hs s' hs' : Prop :=
  match r with
  | None => s' = s /\ hs' = hs
  | Some r => exists p h, rp_peers s !! r = Some p /\ hs !! r = Some h /\ hs' = <[r := h <| h_held := reserved b :: h_held h |>]> hs /\
      s' = s <| rp_peers := <[r := p <| p_queuedBytes := i64 (p_queuedBytes p + batchBytes b) |>]> (rp_peers s) |>
  end.

Lemma runs_reserveFrom b (l : list nat) s hs : moderate b -> queues_ok s hs -> (forall i, i ∈ l -> is_Some (rp_peers s !! i)) ->
  runs s hs (reserveFrom l (batchBytes b)) (fun r s' hs' => reservedBy b s l r /\ afterReserve b r s hs s' hs').
Proof.
  intros Hm Qs. induction l as [|i l IH]; intros Hl; cbn [reserveFrom]; [apply runs_ret; split; [by intros i ?%elem_of_nil|done]|].
  apply runs_bind, runs_get, runs_bind. destruct (Hl i) as [p Hp]; [by left|]. destruct (queues_holdings _ _ _ _ Qs Hp) as (h & Hh & _).
  pose proof (claim_eq (fitsReserve (rp_cfg s) (batchBytes b)) i (batchBytes b) s p Hp) as E. destruct (fitsReserve (rp_cfg s) (batchBytes b) (p_queuedBytes p)) eqn:Ef.
  - eapply runs_one; [exact E|by eapply rs_reserve|]. apply runs_ret. split; [|by exists p, h]. exists [], l. split; [done|]. split; [by exists p|]. by intros j ?%elem_of_nil.
  - eapply wp_intro; [exact E|]. exists hs. split; [constructor|]. eapply runs_mono; [apply IH; intros j Hj; apply Hl; by right|]. intros r s' hs' [Hr HA]. split; [|done].
    assert (Hi : ~ exists p, rp_peers s !! i = Some p /\ fitsReserve (rp_cfg s) (batchBytes b) (p_queuedBytes p) = true) by (intros (q & Hq & Hf); congruence).
    destruct r as [r|].
    + destruct Hr as (before & after & -> & Hf & Hn). exists (i :: before), after. split; [done|]. split; [done|]. intros j [->|Hj]%elem_of_cons; [done|by apply Hn].
    + intros j [->|Hj]%elem_of_cons; [done|by apply Hr].
Qed.

(** ** The copies of a publication *)

(** What became of the copy for the peer [i]. *)
Definition copyFate (stopped : bool) (b : batch) (reservedPeer : option nat) (confirmed : list nat) (i : nat) (p : peer) (h : holdings) (p' : peer) (h' : holdings) : Prop :=
  h_work h' = h_work h /\
  if bool_decide (i ∈ confirmed) then p_ch p' = p_ch p /\ h' = h else
  if bool_decide (reservedPeer = Some i) then
    h_held h ≡ₚ reserved b :: h_held h' /\ if stopped then p_ch p' = p_ch p /\ h_offered h' = h_offered h else copied b p h p' h' /\ p_ch p' = p_ch p ++ [b]
  else copied b p h p' h' /\ h_held h' = h_held h.

(** The peer of the reservation holds the bytes, and can be sent to. *)
Definition reservedOk (stopped : bool) (b : batch) (s : RS) (hs : list holdings) (reservedPeer : option nat) (confirmed : list nat) : Prop :=
  forall r, reservedPeer = Some r -> r ∉ confirmed -> exists p h, rp_peers s !! r = Some p /\ hs !! r = Some h /\ reserved b ∈ h_held h /\
    (stopped = false -> llen (p_ch p) < cfg_QueueDepth (rp_cfg s)).

Lemma runs_enqueueToReserved stopped i b s hs p h held (Q : unit -> RS -> list holdings -> Prop) : rp_peers s !! i = Some p -> hs !! i = Some h ->
  h_held h ≡ₚ reserved b :: held -> (stopped = false -> llen (p_ch p) < cfg_QueueDepth (rp_cfg s)) ->
  (forall s' hs' p' h', elsewhere i s s' hs hs' -> rp_peers s' !! i = Some p' -> hs' !! i = Some h' -> h_held h ≡ₚ reserved b :: h_held h' -> h_work h' = h_work h ->
     (if stopped then p_ch p' = p_ch p /\ h_offered h' = h_offered h else copied b p h p' h' /\ p_ch p' = p_ch p ++ [b]) -> Q tt s' hs') ->
  runs s hs (enqueueToReserved stopped i b (batchBytes b)) Q.
Proof.
  intros Hp Hh Hheld Hroom HQ. assert (Hli : (i < length (rp_peers s))%nat) by by eapply lookup_lt_Some. assert (Hlh : (i < length hs)%nat) by by eapply lookup_lt_Some.
  unfold enqueueToReserved. destruct stopped.
  - assert (exists s', releaseReplicationReservation (Some i) (batchBytes b) s = Some (tt, s')) as [s' E] by by eexists. pose proof E as [= E'].
    eapply runs_one; [exact E|by eapply rs_release|].
    eapply (HQ _ _ (p <| p_queuedBytes := i64 (p_queuedBytes p + - batchBytes b) |>)); [eapply elsewhere_set; [by rewrite <- E'|rewrite <- E'; cbn; by rewrite (alter_at _ _ _ _ Hp)]
      |rewrite <- E'; cbn; by rewrite list_lookup_alter_eq, Hp|by apply list_lookup_insert_eq|done|done|by split].
  - apply runs_bind. pose proof (trySend_eq i b s p Hp) as E. rewrite bool_decide_true in E by by apply Hroom.
    eapply runs_one; [exact E|by eapply rs_send|]. apply runs_ret.
    eapply HQ; [by eapply elsewhere_set|cbn; by apply list_lookup_insert_eq|by apply list_lookup_insert_eq|done|done|]. split; [by apply copied_queued|done].
Qed.

Lemma runs_enqueue stopped b reservedPeer confirmed s hs (Q : unit -> RS -> list holdings -> Prop) : moderate b -> queues_ok s hs -> reservedOk stopped b s hs reservedPeer confirmed ->
  (forall s' hs', (forall i p h, rp_peers s !! i = Some p -> hs !! i = Some h ->
     exists p' h', rp_peers s' !! i = Some p' /\ hs' !! i = Some h' /\ copyFate stopped b reservedPeer confirmed i p h p' h') -> Q tt s' hs') ->
  runs s hs (enqueuePeerBatchExcept stopped b reservedPeer confirmed) Q.
Proof.
  intros Hm Qs Hres HQ. unfold enqueuePeerBatchExcept. cbv zeta. apply runs_bind. unfold allPeers. apply runs_bind, runs_get, runs_ret.
  apply (runs_for _ (fun (l : list nat) s' hs' => NoDup l /\ (forall i, i ∈ l -> is_Some (rp_peers s !! i)) /\ rp_cfg s' = rp_cfg s /\
    forall i p h, rp_peers s !! i = Some p -> hs !! i = Some h -> exists p' h', rp_peers s' !! i = Some p' /\ hs' !! i = Some h' /\
      if bool_decide (i ∈ l) then p' = p /\ h' = h else copyFate stopped b reservedPeer confirmed i p h p' h')).
  - split_and!; [apply NoDup_seq|intros i Hi%elem_of_seq; apply lookup_lt_is_Some; lia|done|]. intros i p h Hp Hh. exists p, h. split; [done|]. split; [done|].
    rewrite bool_decide_true; [done|]. apply elem_of_seq. apply lookup_lt_Some in Hp. lia.
  - intros i l s1 hs1 (Hnd & Hl & Ec & Hfate). apply NoDup_cons in Hnd as [Hni Hnd]. destruct (Hl i) as [p Hp]; [by left|].
    destruct (queues_holdings _ _ _ _ Qs Hp) as (h & Hh & _). destruct (Hfate i p h Hp Hh) as (p1 & h1 & Hp1 & Hh1 & E1).
    rewrite bool_decide_true in E1 by by left. destruct E1 as [-> ->].
    assert (Hnext : forall s2 hs2 p2 h2, elsewhere i s1 s2 hs1 hs2 -> rp_peers s2 !! i = Some p2 -> hs2 !! i = Some h2 -> copyFate stopped b reservedPeer confirmed i p h p2 h2 ->
      NoDup l /\ (forall i, i ∈ l -> is_Some (rp_peers s !! i)) /\ rp_cfg s2 = rp_cfg s /\
      forall i p h, rp_peers s !! i = Some p -> hs !! i = Some h -> exists p' h', rp_peers s2 !! i = Some p' /\ hs2 !! i = Some h' /\
        if bool_decide (i ∈ l) then p' = p /\ h' = h else copyFate stopped b reservedPeer confirmed i p h p' h').
    { intros s2 hs2 p2 h2 (F1 & _ & F3) Hp2 Hh2 Hf. split; [done|]. split; [intros j Hj; apply Hl; by right|]. split; [congruence|].
      intros j pj hj Hpj Hhj. destruct (decide (j = i)) as [->|Hne].
      - exists p2, h2. split; [done|]. split; [done|]. rewrite bool_decide_false by done. congruence.
      - destruct (F3 j Hne) as [-> ->]. destruct (Hfate j pj hj Hpj Hhj) as (pj' & hj' & Hpj' & Hhj' & Hj). exists pj', hj'. split; [done|]. split; [done|].
        destruct (bool_decide_reflect (j ∈ l)) as [Hin|Hnin]; [by rewrite bool_decide_true in Hj by by right|].
        rewrite bool_decide_false in Hj; [done|]. by intros [?|?]%elem_of_cons. }
    destruct (bool_decide (i ∈ confirmed)) eqn:Econf.
    { apply runs_ret. apply (Hnext s1 hs1 p h); [apply elsewhere_refl|done|done|]. unfold copyFate. by rewrite Econf. }
    destruct (bool_decide (reservedPeer = Some i)) eqn:Er.
    + pose proof Er as Er'. apply bool_decide_eq_true in Er'. apply bool_decide_eq_false in Econf as Econf'.
      destruct (Hres i Er' Econf') as (pr & hr & Hpr & Hhr & [held Hheld]%elem_of_Permutation & Hroom).
      assert (pr = p) as -> by congruence. assert (hr = h) as -> by congruence.
      eapply (runs_enqueueToReserved stopped i b s1 hs1 p h held); [done|done|done|by rewrite Ec|]. intros s2 hs2 p2 h2 El Hp2 Hh2 Hh' Hw' Hst.
      apply (Hnext s2 hs2 p2 h2); [done|done|done|]. unfold copyFate. by rewrite Econf, Er.
    + eapply (runs_enqueueCopy i b s1 hs1 p h); [done|done|done|]. intros s2 hs2 p2 h2 El Hp2 Hh2 Hheld Hw Hc.
      apply (Hnext s2 hs2 p2 h2); [done|done|done|]. unfold copyFate. by rewrite Econf, Er.
  - intros s' hs' (_ & _ & _ & Hfate). apply HQ. intros i p h Hp Hh. destruct (Hfate i p h Hp Hh) as (p' & h' & Hp' & Hh' & Hf). by exists p', h'.
Qed.

(** ** The properties *)
Lemma peerBatch_encodes maxMessage b : batchOk maxMessage b ->
  (exists body, encodeFor true b = (body, None) /\ readPeerBatch maxMessage body = inr (wireOf <$> b, [])) /\
  (exists body, encodeFor false b = (body, None) /\
     readPeerBatchV1 maxMessage body = inr ((fun m => (wireOf m) <| m_Origin := "" |> <| m_Sequence := 0 |>) <$> b, [])).
Proof.
  intros Ok. pose proof (badBatchSize_ok _ _ Ok) as Hb. split; [exists (encBatch encMessage b)|exists (encBatch encMessageV1 b)]; split.
  - unfold encodeFor, writePeerBatch, appendPeerBatch. rewrite Hb.
    assert (Ha : emits (wwrite (beBytes 4 (llen b)) ;>> weach b appendMessage) (encBatch encMessage b)).
    { apply (emits_batch _ _ maxMessage); [done|]. intros m Hm. apply (emits_message_gen appendPeerString maxMessage); [apply emits_appendPeerString|done]. }
    by rewrite Ha.
  - rewrite <- (app_nil_r (encBatch _ _)). apply (decodes_batch _ _ _ maxMessage); [done|]. intros m. apply decodes_message.
  - unfold encodeFor, writePeerBatchV1. rewrite Hb. rewrite (emits_batch _ encMessageV1 maxMessage); [done|done|]. intros m. apply emits_messageV1.
  - rewrite <- (app_nil_r (encBatch _ _)). apply (decodes_batch _ _ (fun m => (wireOf m) <| m_Origin := "" |> <| m_Sequence := 0 |>) maxMessage); [done|].
    intros m. apply decodes_messageV1.
Qed.

(** C14: the queues of copies, in every interleaving of the steps of publishers, workers and repairs. The counter of a queue is
    exactly what the operations under way hold (reservations, copies being queued, pages of a repair), what is queued and what the worker has,
    within the budget; and every batch that was offered to a peer is queued, in the worker's hands, answered with 2xx by the peer to a post of
    its encoding, left by a worker that was told to stop, impossible to encode, or counted as dropped by a repair version of its own. *)
Theorem replication_queues cfg urls m w s hs :
  budget_ok cfg -> rsteps (mkReplication cfg (newPeer <$> urls) false m w, replicate (length urls) nothing) (s, hs) ->
  forall i p, rp_peers s !! i = Some p -> exists h, hs !! i = Some h /\
    p_queuedBytes p = heldBytes h + zsum (batchBytes <$> p_ch p) + workBytes h /\ 0 <= p_queuedBytes p <= cfg_ReplicationQueueBytes cfg /\
    llen (p_ch p) <= Z.max 0 (cfg_QueueDepth cfg) /\
    h_offered h ≡ₚ p_ch p ++ inHand h ++ h_sent h ++ h_dropped h ++ h_stopped h ++ h_refused h /\
    p_repairVersion p = u64 (llen (h_dropped h) + h_gaps h) /\
    Forall (delivered (p_url p)) (h_sent h) /\ (h_stopped h <> [] -> stopSelected) /\ Forall unencodable (h_refused h).
Proof.
  intros Hb St i p Hp. set (s0 := mkReplication _ _ _ _ _) in St.
  assert (Q0 : queues_ok s0 (replicate (length urls) nothing)).
  { unfold queues_ok, s0. cbn. clear - Hb. induction urls as [|u urls IH]; cbn; [constructor|]. constructor; [apply queue_ok_new; unfold budget_ok in Hb; lia|done]. }
  destruct (rsteps_ok (s0, _) (s, hs) Hb Q0 St) as [Qs Ec]. cbn in Qs, Ec. destruct (queues_holdings _ _ _ _ Qs Hp) as (h & Hh & Hq).
  exists h. split; [done|]. destruct (queue_nonneg _ _ _ Hq) as (N1 & _). destruct Hq as [Q1 _ Q3 Q4 _ Q6 Q7 Q8 Q9 Q10 _]. rewrite Ec in Q3, Q4. by split_and!.
Qed.

(** The counter follows what is queued, and the reservation given up. *)
Definition accounts (b : batch) (r : option nat) (confirmed : list nat) (i : nat) (p p' : peer) : Prop :=
  p_queuedBytes p' = p_queuedBytes p + (zsum (batchBytes <$> p_ch p') - zsum (batchBytes <$> p_ch p))
    - (if bool_decide (r = Some i) && negb (bool_decide (i ∈ confirmed)) then batchBytes b else 0).

Lemma copyFate_accounts stopped b r confirmed i cfg p h p' h' : queue_ok cfg p h -> queue_ok cfg p' h' -> copyFate stopped b r confirmed i p h p' h' ->
  accounts b r confirmed i p p'.
Proof.
  intros [Q1 _ _ _ _ _ _ _ _ _ _] [R1 _ _ _ _ _ _ _ _ _ _] [Hw Hf]. unfold accounts. rewrite Q1, R1. unfold workBytes. rewrite Hw. unfold heldBytes.
  destruct (bool_decide (i ∈ confirmed)); cbn [negb andb]; [destruct Hf as [_ ->]; rewrite andb_false_r; lia|]. rewrite andb_true_r.
  destruct (bool_decide (r = Some i)); [|destruct Hf as [_ ->]; lia]. destruct Hf as [-> _]. rewrite fmap_cons, zsum_cons. cbn [holderBytes]. lia.
Qed.


End Spec2.

(** ** Witnesses *)

(** Peers that take everything; the world is the list of what was posted. *)
#[local] Instance ex_net : PeerNet (list peerRequest) := {
  pn_do _ req := gmodify (fun l => l ++ [req]) ;;; gret (replied 204 "" "2");
  pn_pause _ := gret false;
  pn_now := gret 0;
}.
#[local] Instance ex_net_total : PeerNetTotal (list peerRequest).
Proof. split; intros; by eexists. Qed.
#[local] Existing Instance ex_range.

Definition ex_batch : list Message := [Wire.ex_message].
Definition ex_peers : replication (list peerRequest) := mkReplication DefaultConfig (newPeer <$> ["http://a"; "http://b"]) false newMetrics [].
Definition ex_none : list holdings := replicate 2 nothing.

Lemma ex_moderate : moderate ex_batch.
Proof. vm_compute. reflexivity. Qed.
Lemma ex_budget : budget_ok DefaultConfig.
Proof. split; vm_compute; reflexivity. Qed.
Lemma ex_wire : batchOk 16 ex_batch.
Proof. destruct ex_batchOk as [_ Hok]. split; [vm_compute; split; discriminate|]. by apply Forall_cons in Hok as [Hok _]; constructor. Qed.

Definition ex_reserved : replication (list peerRequest) := match reserveReplicationCapacity (batchBytes ex_batch) ex_peers with Some (_, s) => s | None => ex_peers end.
Definition ex_holding : list holdings := [nothing <| h_held := [reserved ex_batch] |>; nothing].

Lemma ex_reserved_steps : rsteps (ex_peers, ex_none) (ex_reserved, ex_holding).
Proof. apply steps_one. apply (rs_reserve ex_peers ex_none 0 nothing ex_batch ex_reserved); [exact ex_moderate|reflexivity|]. vm_compute. reflexivity. Qed.
Lemma ex_queues : queues_ok ex_reserved ex_holding.
Proof. apply (rsteps_ok (ex_peers, ex_none) (ex_reserved, ex_holding) ex_budget); [|exact ex_reserved_steps]. repeat constructor; by vm_compute. Qed.
Lemma ex_reservedOk : reservedOk false ex_batch ex_reserved ex_holding (Some 0%nat) [].
Proof. intros r [= <-] _. eexists _, _. split; [reflexivity|]. split; [reflexivity|]. split; [by left|]. intros _. vm_compute. reflexivity. Qed.

Lemma replication_queues_witness : exists p h, rp_peers ex_reserved !! 0%nat = Some p /\ ex_holding !! 0%nat = Some h /\ 0 <= p_queuedBytes p <= 67108864.
Proof.
  assert (exists p, rp_peers ex_reserved !! 0%nat = Some p) as [p Hp] by by eexists.
  destruct (replication_queues DefaultConfig ["http://a"; "http://b"] newMetrics [] ex_reserved ex_holding ex_budget ex_reserved_steps 0 p Hp) as (h & Hh & _ & Hb & _).
  exists p, h. split; [exact Hp|]. split; [exact Hh|exact Hb].
Defined.


Definition ex_working : holdings := nothing <| h_work := Some (ex_batch, false) |>.
Lemma ex_working_work : h_work ex_working = Some (ex_batch, false).
Proof. reflexivity. Qed.

