(* ===== verification/Repair.v ===== *)
(** * Repairs

    The recovery of dropped copies (internal/broker/repair.go).  It runs on the worker of a peer, after a copy was
    dropped or the peer reported a gap: it walks the cache by insertion ordinals, sends page after page, and
    is complete when it finds no newer message.  The cache is shared with every
    publisher, the budget of the queue with the copies. *)
From S2P Require Import Prelude Types Config Metrics GoIO Wire Cache Replication.
#[local] Open Scope Z_scope.

Record repairs (W : Type) := mkRepairs { rv_replication : replication W; rv_cache : cache }.
Arguments mkRepairs {W}. Arguments rv_replication {W}. Arguments rv_cache {W}.
#[export] Instance repairs_settable W : Settable (repairs W) := fun r => mkRepairs (rv_replication r) (rv_cache r).
#[export] Instance set_rv_replication W : Setter (@rv_replication W) := ltac:(derive_setter).
#[export] Instance set_rv_cache W : Setter (@rv_cache W) := ltac:(derive_setter).

(** The bytes of a page. *)
Definition repairLimit (cfg : Config) : Z :=
  Z.min (cfg_ReplicationQueueBytes cfg) (Z.max (Z.shiftl 1 20) (i64 (cfg_MaxMessage cfg + 2 * maxHeaders + 1024))).

Definition repairPending (p : peer) : bool :=
  negb (bool_decide (p_repairVersion p = p_repairCompleted p)) || negb (bool_decide (p_gapRepairVersion p = p_gapRepairCompleted p)).
Definition repairPendingPeers {W} (s : replication W) : Z := llen (List.filter repairPending (rp_peers s)).

Section Repair.
Context {W : Type} `{PeerNet W} `{MapRange}.
Abbreviation RM := (GoM (replication W)).
Abbreviation VM := (GoM (repairs W)).

Definition onReplication {A} (m : RM A) : VM A := gzoom rv_replication (fun x s => s <| rv_replication := x |>) m.
Definition onCache {A} (m : GoM cache A) : VM A := gzoom rv_cache (fun x s => s <| rv_cache := x |>) m.

(** Whether the receiver still has the gap it reported; then the walk is due. *)
Definition checkPeerGap (i : nat) : RM bool :=
  p <- peerAt i ;;
  let version := p_gapRepairVersion p in
  if bool_decide (version = p_gapRepairCompleted p) then gret false else
  now <- inWorld pn_now ;;
  if bool_decide (now < p_gapRepairAfter p) then gret false else
  r <- inWorld (pn_do (p_url p +:+ "/internal/capabilities") getCapabilities) ;;
  match r with
  | replied status required _ =>
    if negb (bool_decide (status = 204)) then countBy mt_RepairErrors 1 ;;; gret false else
    if bool_decide (required = "pending") then
      now <- inWorld pn_now ;;
      updatePeer i (fun p => p <| p_gapRepairAfter := i64 (now + Second) |>) ;;;
      gret false
    else
      updatePeer i (fun p => p <| p_gapRepairCompleted := version |>) ;;;
      updatePeer i (fun p => p <| p_gapRepairAfter := 0 |>) ;;;
      if bool_decide (required = "false") then gret false else
      updatePeer i (fun p => p <| p_repairVersion := u64 (p_repairVersion p + 1) |>) ;;;
      gret true
  | _ => countBy mt_RepairErrors 1 ;;; gret false
  end.

(** The version that a walk of this step is for, if one is due. *)
Definition repairDue (i : nat) : RM (option Z) :=
  p <- peerAt i ;;
  let version := p_repairVersion p in
  if bool_decide (version = p_repairCompleted p) then
    due <- checkPeerGap i ;;
    if negb due then gret None else p <- peerAt i ;; gret (Some (p_repairVersion p))
  else gret (Some version).

(** [if p.repairStarted == 0 { p.repairStarted = version }] *)
Definition repairBegin (i : nat) (version : Z) : RM unit :=
  updatePeer i (fun p => if bool_decide (p_repairStarted p = 0) then p <| p_repairStarted := version |> else p).

(** The page, with the cursor after it; [None] when the step ends without one. *)
Definition repairFetch (i : nat) (limit tnow : Z) : VM (option (list Message * Z)) :=
  p <- onReplication (peerAt i) ;;
  let! (out, next, valid) := onCache (repairPage (p_repairOrdinal p) limit tnow) ;;
  if negb valid then
    onReplication (updatePeer i (fun p => p <| p_repairOrdinal := 0 |>) ;;; countBy mt_RepairErrors 1) ;;; gret None
  else if bool_decide (llen out = 0) then
    onReplication (updatePeer i (fun p => p <| p_repairCompleted := p_repairStarted p |>) ;;;
      updatePeer i (fun p => p <| p_repairStarted := 0 |>) ;;;
      updatePeer i (fun p => p <| p_repairOrdinal := 0 |>)) ;;; gret None
  else
    messages <- onCache (gmap_list cderef out) ;;
    gret (Some (messages, next)).

(** The page is sent; the cursor moves only when the peer has it. *)
Definition repairSend (i : nat) (messages : list Message) (next : Z) : RM bool :=
  match writePeerBatch true messages [] with
  | (_, Some _) => gret false
  | (body, None) =>
    p <- peerAt i ;;
    r <- inWorld (pn_do (p_url p +:+ "/internal/repair") (postRepair body)) ;;
    match r with
    | replied status _ _ =>
      if negb (bool_decide (status = 204)) then countBy mt_RepairErrors 1 ;;; gret false else
      countBy mt_RepairPages 1 ;;;
      countBy mt_RepairMessages (llen messages) ;;;
      updatePeer i (fun p => p <| p_repairOrdinal := next |>) ;;;
      gret true
    | _ => countBy mt_RepairErrors 1 ;;; gret false
    end
  end.

(** The budget of the page is taken as a copy's. *)
Definition repairClaim (i : nat) (limit : Z) : RM bool :=
  s <- gget ;;
  claim (fun used => negb (bool_decide (cfg_ReplicationQueueBytes (rp_cfg s) < i64 (used + limit)))) i limit.

(** One step of a walk; whether there is more to send. *)
Definition repairPeerStep (i : nat) (tnow : Z) : VM bool :=
  due <- onReplication (repairDue i) ;;
  match due with
  | None => gret false
  | Some version =>
    onReplication (repairBegin i version) ;;;
    s <- gget ;;
    let limit := repairLimit (rp_cfg (rv_replication s)) in
    ok <- onReplication (repairClaim i limit) ;;
    if negb ok then gret false else
    page <- repairFetch i limit tnow ;;
    more <- (match page with
             | None => gret false
             | Some (messages, next) => onReplication (repairSend i messages next)
             end) ;;
    onReplication (addQueued i (- limit) ;;; signalReplicationFreed) ;;;
    gret more
  end.

(** [case <-ticker.C] of [peerLoop]: the pages of a second. *)
Fixpoint repairTick (n : nat) (i : nat) (tnow : Z) : VM unit :=
  match n with
  | O => gret tt
  | S n => more <- repairPeerStep i tnow ;; if negb more then gret tt else repairTick n i tnow
  end.

(** One turn of [peerLoop], by what it selects; [false] when the worker ends. *)
Inductive peerEvent := workerStop | workerTick (tnow : Z) | workerBatch (batch : list Message).
Definition peerLoop (i : nat) (ev : peerEvent) : VM bool :=
  match ev with
  | workerStop => gret false
  | workerTick tnow => repairTick 4 i tnow ;;; gret true
  | workerBatch batch => onReplication (peerTurn i batch)
  end.
End Repair.
