(* ===== verification/RepairSpec.v ===== *)
(** * Repairs: what a completed walk guarantees

    A walk takes many steps of the worker, and the cache changes between any two of them: messages arrive,
    expire, are evicted, the indexes are compacted.  [walkStep] interleaves all of it, down to
    the cache lock and the request; the ghost state is the page in flight and the messages of the
    pages that the peer has confirmed since the walk began. *)
From S2P Require Import Prelude Runs GoHeap Dll Types Config Metrics GoIO Wire Cache CacheIndex CacheExpiry CacheInv CacheExpire CacheSpec CacheOrder Pending Replication ReplicationInv ReplicationSpec Repair.
From Stdlib Require Import Sorting.Sorted.
#[local] Open Scope Z_scope.

(** ** Pages *)
Lemma newer_spec st after (l : list loc) r : r ∈ newer st after l <-> r ∈ l /\ exists m, st !! r = Some m /\ after < m_repairOrdinal m.
Proof.
  unfold newer. rewrite elem_of_passing. split; intros [Hr (m & Hm & Ho)]; (split; [done|]); exists m; (split; [done|]).
  - by apply bool_decide_eq_true in Ho.
  - by apply bool_decide_eq_true.
Qed.

Lemma newer_sorted c after : ordered c -> StronglySorted Z.lt (ordinalAt (c_mstore c) <$> newer (c_mstore c) after (cached c)).
Proof. intros O. eapply sorted_sublist; [|apply O]. apply sublist_fmap', passing_sublist. Qed.

(** In a sorted list, what is not beyond the last element of a prefix is in it. *)
Lemma sorted_prefix (f : loc -> Z) (out rest : list loc) y r : StronglySorted Z.lt (f <$> out ++ y :: rest) -> r ∈ out ++ y :: rest -> f r <= f y -> r ∈ out ++ [y].
Proof.
  intros Hs Hr Hle. apply elem_of_app in Hr as [Hr|Hr]; [apply elem_of_app; by left|]. apply elem_of_cons in Hr as [->|Hr]; [apply elem_of_app; right; left|].
  exfalso. rewrite fmap_app in Hs. induction out as [|x out IH]; cbn in Hs; [|apply StronglySorted_inv in Hs as [Hs _]; by apply IH].
  apply StronglySorted_inv in Hs as [_ Hs]. rewrite Forall_fmap, Forall_forall in Hs. specialize (Hs r Hr). cbn in Hs. lia.
Qed.

(** A page holds every message between the cursors. *)
Lemma page_covers c limit after out next : ordered c -> 0 <= after -> out <> [] ->
  repairResult (c_mstore c) limit after (newer (c_mstore c) after (cached c)) (out, next, true) ->
  after < next <= c_nextRepairOrdinal c /\ forall r, r ∈ cached c -> after < ordinalAt (c_mstore c) r <= next -> r ∈ out.
Proof.
  intros O Ha Hout (rest & El & _ & _ & Hn & _). pose proof (newer_sorted c after O) as Hs. destruct (last_is_Some out) as [_ Hl]. destruct (Hl Hout) as [y Hy].
  apply last_Some in Hy as [out0 ->]. unfold lastOrdinal in Hn. rewrite last_snoc in Hn.
  assert (Hyl : y ∈ newer (c_mstore c) after (cached c)) by (rewrite El; apply elem_of_app; left; apply elem_of_app; right; left).
  apply newer_spec in Hyl as [Hyc (m & Hm & Hlt)]. rewrite Hm in Hn. cbn in Hn. assert (Ey : ordinalAt (c_mstore c) y = next) by (unfold ordinalAt; by rewrite Hm).
  split. { pose proof (od_range _ O) as Hr. rewrite Forall_forall in Hr. specialize (Hr y Hyc). rewrite Ey in Hr. lia. }
  intros r Hr Hor. rewrite <- app_assoc in El. cbn [app] in El. apply (sorted_prefix (ordinalAt (c_mstore c)) out0 rest y r); [by rewrite <- El|rewrite <- El|rewrite Ey; apply Hor].
  apply newer_spec. split; [done|]. unfold ordinalAt in Hor. destruct (c_mstore c !! r) as [mr|]; [|cbn in Hor; lia]. exists mr. split; [done|]. cbn in Hor. lia.
Qed.

Lemma page_complete c limit after next : repairResult (c_mstore c) limit after (newer (c_mstore c) after (cached c)) ([], next, true) ->
  forall r, r ∈ cached c -> is_Some (c_mstore c !! r) -> ordinalAt (c_mstore c) r <= after.
Proof.
  intros (rest & El & _ & _ & _ & _ & Hrest). rewrite (Hrest eq_refl) in El. intros r Hr [m Hm]. destruct (Z.le_gt_cases (ordinalAt (c_mstore c) r) after) as [|Hgt]; [done|].
  assert (Hin : r ∈ newer (c_mstore c) after (cached c)) by (apply newer_spec; split; [done|]; exists m; split; [done|]; unfold ordinalAt in Hgt; rewrite Hm in Hgt; cbn in Hgt; lia).
  rewrite El in Hin. by apply elem_of_nil in Hin.
Qed.

(** Loading the messages of a page. *)
Lemma deref_all (out : list loc) c : (forall r, r ∈ out -> is_Some (c_mstore c !! r)) ->
  exists messages, gmap_list cderef out c = Some (messages, c) /\ Forall2 (fun r m => c_mstore c !! r = Some m) out messages.
Proof.
  induction out as [|r out IH]; intros Hr; [by exists []|]. destruct (Hr r) as [m Hm]; [left|]. destruct IH as (ms & E & F); [intros x Hx; apply Hr; by right|].
  exists (m :: ms). split; [|by constructor]. cbn. unfold gbind, cderef at 1, gbind, gget, glift. rewrite Hm. cbn. by rewrite E.
Qed.

Section Walk.
Context {W : Type} `{PeerNetTotal W} `{MapRange} (i : nat) (url : string).
Abbreviation RS := (replication W).
Abbreviation VS := (repairs W).
Implicit Types (s : VS) (rp : RS) (hs : list holdings).

(** ** The steps of a walk *)
Record walk := mkWalk { wk_flight : option (list Message * Z); wk_acked : list Message }.

(** The cursor of the peer, and where it is. *)
Definition cursorAt (rp : RS) : option (Z * Z * Z * string) := (fun p => (p_repairOrdinal p, p_repairStarted p, p_repairCompleted p, p_url p)) <$> rp_peers rp !! i.

Inductive walkStep : VS * walk -> VS * walk -> Prop :=
| ws_cache s k c : cacheStep (rv_cache s) c -> walkStep (s, k) (s <| rv_cache := c |>, k)
| ws_others s k rp : cursorAt rp = cursorAt (rv_replication s) -> walkStep (s, k) (s <| rv_replication := rp |>, k)
| ws_begin s k version rp : repairBegin i version (rv_replication s) = Some (tt, rp) -> walkStep (s, k) (s <| rv_replication := rp |>, k)
| ws_fetch s k limit tnow page s' : wk_flight k = None -> 0 <= limit < 2 ^ 62 -> repairFetch i limit tnow s = Some (page, s') ->
    walkStep (s, k) (s', match page with Some x => mkWalk (Some x) (wk_acked k) | None => mkWalk None [] end)
| ws_send s k messages next ok rp : wk_flight k = Some (messages, next) -> repairSend i messages next (rv_replication s) = Some (ok, rp) ->
    walkStep (s, k) (s <| rv_replication := rp |>, mkWalk None (if ok then wk_acked k ++ messages else wk_acked k)).

Inductive walkSteps : VS * walk -> VS * walk -> Prop :=
| walkSteps_refl x : walkSteps x x
| walkSteps_step x y z : walkSteps x y -> walkStep y z -> walkSteps x z.

Lemma walkSteps_trans x y z : walkSteps x y -> walkSteps y z -> walkSteps x z.
Proof. intros Hx. induction 1; [done|]. by eapply walkSteps_step; [apply IHwalkSteps|]. Qed.
Lemma walkSteps_one x y : walkStep x y -> walkSteps x y.
Proof. intros Hx. by eapply walkSteps_step; [constructor|]. Qed.

(** The messages cached up to an ordinal are among those of [l]. *)
Definition within (c : cache) (from to : Z) (l : list Message) : Prop :=
  forall r, r ∈ cached c -> from < ordinalAt (c_mstore c) r <= to -> exists m, m ∈ l /\ publicationAt (c_mstore c) r = Some (wireOf m).

(** The peer confirmed the message: it answered 204 to a request that posts an encoded page with the message in it. *)
Definition confirmed (m : Message) : Prop := exists messages body w r1 r2 w', m ∈ messages /\ writePeerBatch true messages [] = (body, None) /\
  pn_do (url +:+ "/internal/repair") (postRepair body) w = Some (replied 204 r1 r2, w').

Record walkOK (x : VS * walk) : Prop := {
  wo_cache : cacheOK (rv_cache x.1);
  wo_order : ordered (rv_cache x.1);
  wo_confirmed : Forall confirmed (wk_acked x.2);
  wo_walk : exists ordinal started completed, cursorAt (rv_replication x.1) = Some (ordinal, started, completed, url) /\
    0 <= ordinal <= c_nextRepairOrdinal (rv_cache x.1) /\ within (rv_cache x.1) 0 ordinal (wk_acked x.2) /\
    match wk_flight x.2 with
    | Some (messages, next) => ordinal < next <= c_nextRepairOrdinal (rv_cache x.1) /\ within (rv_cache x.1) ordinal next messages
    | None => True
    end;
}.

Lemma within_evolves c c' from to l : evolves c c' -> to <= c_nextRepairOrdinal c -> within c from to l -> within c' from to l.
Proof. intros [_ He] Hto Hw r Hr Ho. destruct (He r Hr) as [(Hr0 & E1 & E2)|Hn]; [|lia]. rewrite E2. apply Hw; [done|by rewrite <- E1]. Qed.

Lemma within_app c from mid to l k : within c from mid l -> within c mid to k -> within c from to (l ++ k).
Proof.
  intros Hl Hk r Hr Ho. destruct (Z.le_gt_cases (ordinalAt (c_mstore c) r) mid).
  - destruct (Hl r Hr) as (m & Hm & E); [lia|]. exists m. split; [apply elem_of_app; by left|done].
  - destruct (Hk r Hr) as (m & Hm & E); [lia|]. exists m. split; [apply elem_of_app; by right|done].
Qed.

Lemma within_empty c from l : within c from from l.
Proof. intros r _ Ho. lia. Qed.

Lemma cursorAt_peer rp o st co u : cursorAt rp = Some (o, st, co, u) -> exists p, rp_peers rp !! i = Some p /\ p_repairOrdinal p = o /\ p_repairStarted p = st /\ p_repairCompleted p = co /\ p_url p = u.
Proof. unfold cursorAt. destruct (rp_peers rp !! i) as [p|]; [|done]. intros [= <- <- <- <-]. by exists p. Qed.

(** ** Fetching a page *)
Definition restarted (p : peer) : peer := p <| p_repairOrdinal := 0 |>.
Definition completed (p : peer) : peer := ((p <| p_repairCompleted := p_repairStarted p |>) <| p_repairStarted := 0 |>) <| p_repairOrdinal := 0 |>.

Inductive fetched (limit : Z) (p : peer) (s s' : VS) : option (list Message * Z) -> Prop :=
| fetched_page out messages next : out <> [] -> rv_replication s' = rv_replication s ->
    repairResult (c_mstore (rv_cache s')) limit (p_repairOrdinal p) (newer (c_mstore (rv_cache s')) (p_repairOrdinal p) (cached (rv_cache s'))) (out, next, true) ->
    Forall2 (fun r m => c_mstore (rv_cache s') !! r = Some m) out messages -> fetched limit p s s' (Some (messages, next))
| fetched_large r : rp_peers (rv_replication s') = <[i := restarted p]> (rp_peers (rv_replication s)) -> rp_cfg (rv_replication s') = rp_cfg (rv_replication s) ->
    r ∈ cached (rv_cache s') -> limit < sizeAt (c_mstore (rv_cache s')) r -> fetched limit p s s' None
| fetched_end next : rp_peers (rv_replication s') = <[i := completed p]> (rp_peers (rv_replication s)) -> rp_cfg (rv_replication s') = rp_cfg (rv_replication s) ->
    repairResult (c_mstore (rv_cache s')) limit (p_repairOrdinal p) (newer (c_mstore (rv_cache s')) (p_repairOrdinal p) (cached (rv_cache s'))) ([], next, true) ->
    fetched limit p s s' None.

Lemma wp_onReplication {A} (m : GoM RS A) s (Q : A -> VS -> Prop) : wp m (rv_replication s) (fun a rp => Q a (s <| rv_replication := rp |>)) -> wp (onReplication m) s Q.
Proof. apply wp_zoom. Qed.
Lemma wp_onCache {A} (m : GoM cache A) s (Q : A -> VS -> Prop) : wp m (rv_cache s) (fun a c => Q a (s <| rv_cache := c |>)) -> wp (onCache m) s Q.
Proof. apply wp_zoom. Qed.
Lemma wp_repairFetch limit tnow s p (Q : option (list Message * Z) -> VS -> Prop) : cacheOK (rv_cache s) -> 0 <= limit < 2 ^ 62 -> rp_peers (rv_replication s) !! i = Some p ->
  (forall page s', cacheOK (rv_cache s') -> thinned (rv_cache s) (rv_cache s') -> fetched limit p s s' page -> Q page s') -> wp (repairFetch i limit tnow) s Q.
Proof.
  intros K Hl Hp HQ. unfold repairFetch. wp_step. apply wp_onReplication, (wp_peerAt _ p); [done|]. wp_step. apply wp_onCache.
  assert (Hpage : wp (repairPage (p_repairOrdinal p) limit tnow) (rv_cache s) (fun res c' => cacheOK c' /\
    repairResult (c_mstore c') limit (p_repairOrdinal p) (newer (c_mstore c') (p_repairOrdinal p) (cached c')) res)) by by apply wp_repairPage.
  apply wp_elim in Hpage as (res & c' & E & K' & Hres). eapply wp_intro; [exact E|]. pose proof (thins_repairPage _ _ _ _ _ _ E) as T.
  destruct res as [[out next] valid]. destruct valid; cbn [negb].
  - destruct (bool_decide_reflect (llen out = 0)) as [Hl0|Hl0].
    + assert (out = []) as -> by (destruct out; [done|rewrite llen_cons in Hl0; pose proof (llen_nonneg out); lia]).
      wp_step. apply wp_onReplication. repeat (wp_step; cbn). eapply HQ; [exact K'|exact T|]. eapply (fetched_end _ _ _ _ next); [|done|exact Hres].
      cbn. rewrite (alter_at _ _ _ _ Hp). erewrite (alter_at _ i (<[_:=_]> _)) by (apply list_lookup_insert_eq; by eapply lookup_lt_Some). rewrite list_insert_insert_eq.
      erewrite alter_at by (apply list_lookup_insert_eq; by eapply lookup_lt_Some). by rewrite list_insert_insert_eq.
    + assert (out <> []) as Hne by by intros ->. destruct (deref_all out c') as (messages & Ed & F).
      { intros r Hr. destruct Hres as (rest & El & _). assert (Hin : r ∈ newer (c_mstore c') (p_repairOrdinal p) (cached c')) by (rewrite El; apply elem_of_app; by left).
        apply newer_spec in Hin as [_ (m & Hm & _)]. by exists m. }
      wp_step. apply wp_onCache. eapply wp_intro; [exact Ed|]. wp_step. eapply HQ; [exact K'|exact T|]. by eapply fetched_page.
  - destruct Hres as (-> & -> & r & Hr & Hbig). wp_step. apply wp_onReplication. repeat (wp_step; cbn). eapply HQ; [exact K'|exact T|]. apply (fetched_large _ _ _ _ r); [|done| |exact Hbig].
    + cbn. by rewrite (alter_at _ _ _ p).
    + assert (Hin : r ∈ newer (c_mstore c') (p_repairOrdinal p) (cached c')).
      { destruct (newer (c_mstore c') (p_repairOrdinal p) (cached c')); [done|]. injection Hr as ->. left. }
      by apply newer_spec in Hin as [? _].
Qed.

(** ** Sending a page *)
Lemma wp_repairSend messages next rp p (Q : bool -> RS -> Prop) : rp_peers rp !! i = Some p ->
  (forall rp', queueView rp' = queueView rp -> cursorAt rp' = cursorAt rp -> Q false rp') ->
  (forall rp' body w r1 r2 w', queueView rp' = queueView rp -> cursorAt rp' = Some (next, p_repairStarted p, p_repairCompleted p, p_url p) ->
     writePeerBatch true messages [] = (body, None) -> pn_do (p_url p +:+ "/internal/repair") (postRepair body) w = Some (replied 204 r1 r2, w') -> Q true rp') ->
  wp (repairSend i messages next) rp Q.
Proof.
  intros Hp HF HT. unfold repairSend. destruct (writePeerBatch true messages []) as [body [e|]]; [by apply wp_ret, HF|].
  wp_step. apply (wp_peerAt _ p); [done|]. wp_step. unfold inWorld. apply wp_zoom. unfold wp at 1.
  destruct (do_total (p_url p +:+ "/internal/repair") (postRepair body) (rp_world rp)) as [[r w] Er]. rewrite Er.
  assert (Hf : forall rp', rp' = (rp <| rp_world := w |>) -> wp (countBy (W := W) mt_RepairErrors 1 ;;; gret false) rp' Q) by (intros rp' ->; wp_steps; by apply HF).
  destruct r as [| |status required version]; [by apply Hf..|]. destruct (bool_decide_reflect (status = 204)) as [->|]; cbn [negb]; [|by apply Hf].
  wp_steps. eapply HT; [| |done|exact Er].
  - unfold queueView. cbn. f_equal. apply list_eq. intros x. rewrite !list_lookup_fmap. destruct (decide (x = i)) as [->|Hne]; [|by rewrite list_lookup_alter_ne].
    rewrite list_lookup_alter_eq. by destruct (rp_peers rp !! i).
  - unfold cursorAt. cbn. by rewrite list_lookup_alter_eq, Hp.
Qed.

(** ** The invariant *)
Lemma cursorAt_some rp x : cursorAt rp = Some x -> exists p, rp_peers rp !! i = Some p.
Proof. unfold cursorAt. destruct (rp_peers rp !! i) as [p|]; [eauto|done]. Qed.

Lemma within_page c limit after out next messages : ordered c -> 0 <= after -> out <> [] ->
  repairResult (c_mstore c) limit after (newer (c_mstore c) after (cached c)) (out, next, true) ->
  Forall2 (fun r m => c_mstore c !! r = Some m) out messages -> after < next <= c_nextRepairOrdinal c /\ within c after next messages.
Proof.
  intros O Ha Hne Hres F. destruct (page_covers _ _ _ _ _ O Ha Hne Hres) as [Hn Hin]. split; [done|]. intros r Hr Ho.
  apply Hin in Ho; [|done]. apply list_elem_of_lookup in Ho as [j Hj]. destruct (Forall2_lookup_l _ _ _ _ _ F Hj) as (m & Hm & Er).
  exists m. split; [by eapply list_elem_of_lookup_2|]. unfold publicationAt. by rewrite Er.
Qed.

Lemma walkStep_ok x y : walkOK x -> walkStep x y -> walkOK y.
Proof.
  intros [K O C (o & st & co & Ec & Ho & Hw & Hf)] St.
  destruct St as [s k c Sc|s k rp E|s k version rp E|s k limit tnow page s' Hk Hl E|s k messages next ok rp Hk E]; cbn [fst snd] in *.
  - destruct (cacheStep_ok _ _ K O Sc) as (K' & O' & V). split; [done|done|done|]. exists o, st, co. split; [done|]. pose proof (proj1 V) as Hn. split; [cbn; lia|].
    split; [eapply within_evolves; [exact V|lia|done]|]. cbn [fst snd]. destruct (wk_flight k) as [[messages next]|]; [|done]. split; [cbn; lia|]. eapply within_evolves; [exact V|lia|apply Hf].
  - split; [done|done|done|]. exists o, st, co. by split; [exact (eq_trans E Ec)|].
  - split; [done|done|done|]. injection E as <-. destruct (cursorAt_some _ _ Ec) as [p Hp]. exists o, (if bool_decide (st = 0) then version else st), co.
    split; [|done]. unfold cursorAt in *. cbn. rewrite list_lookup_alter_eq, Hp in *. cbn in *. injection Ec as <- <- <- <-. by destruct (bool_decide (p_repairStarted p = 0)).
  - destruct (cursorAt_peer _ _ _ _ _ Ec) as (p & Hp & <- & <- & <- & Eu). pose proof (lookup_lt_Some _ _ _ Hp) as Hlt.
    eapply (wp_use _ _ _ _ (fun page s' => walkOK (s', match page with Some x => mkWalk (Some x) (wk_acked k) | None => mkWalk None [] end))); [exact E|].
    apply (wp_repairFetch _ _ _ p); [done..|]. clear page s' E. intros page s' K' T F. destruct (thinned_ordered _ _ O T) as [O' V]. pose proof (proj1 V) as Hn.
    destruct F as [out messages next Hne Er Hres F|r Er Ecfg Hr Hbig|next Er Ecfg Hres]; (split; [done|done|first [exact C|constructor]|]); cbn [fst snd wk_flight wk_acked].
    + exists (p_repairOrdinal p), (p_repairStarted p), (p_repairCompleted p). rewrite Er. split; [done|]. split; [lia|].
      split; [eapply within_evolves; [exact V|lia|done]|]. by eapply within_page; [|lia| |exact Hres|].
    + exists 0, (p_repairStarted p), (p_repairCompleted p). unfold cursorAt. rewrite Er, list_lookup_insert_eq by done. cbn. rewrite Eu. split; [done|].
      split; [pose proof (od_next _ O'); lia|]. by split; [apply within_empty|].
    + exists 0, 0, (p_repairStarted p). unfold cursorAt. rewrite Er, list_lookup_insert_eq by done. cbn. rewrite Eu. split; [done|].
      split; [pose proof (od_next _ O'); lia|]. by split; [apply within_empty|].
  - destruct (cursorAt_peer _ _ _ _ _ Ec) as (p & Hp & <- & <- & <- & Eu). rewrite Hk in Hf.
    eapply (wp_use _ _ _ _ (fun ok rp => walkOK (s <| rv_replication := rp |>, mkWalk None (if ok : bool then wk_acked k ++ messages else wk_acked k)))); [exact E|].
    apply (wp_repairSend _ _ _ p); [done| |]; clear ok rp E.
    + intros rp _ E. split; [done|done|done|]. exists (p_repairOrdinal p), (p_repairStarted p), (p_repairCompleted p). split; [exact (eq_trans E Ec)|]. done.
    + intros rp body w r1 r2 w' _ E Eb Er. split; [done|done| |].
      { cbn. apply Forall_app. split; [done|]. apply Forall_forall. intros m Hm. rewrite Eu in Er. by exists messages, body, w, r1, r2, w'. }
      exists next, (p_repairStarted p), (p_repairCompleted p). rewrite <- Eu. split; [done|]. split; [cbn; lia|].
      split; [|done]. by eapply within_app; [|apply Hf].
Qed.

Lemma walkSteps_ok x y : walkOK x -> walkSteps x y -> walkOK y.
Proof. intros Hx. induction 1; [done|]. by eapply walkStep_ok; [apply IHwalkSteps|]. Qed.

(** ** The step of the worker *)

(** What no operation of a repair touches, outside of the cursor. *)
Lemma cursor_update rp f : (forall p, p_repairOrdinal (f p) = p_repairOrdinal p /\ p_repairStarted (f p) = p_repairStarted p /\ p_repairCompleted (f p) = p_repairCompleted p /\ p_url (f p) = p_url p) ->
  cursorAt (rp <| rp_peers := alter f i (rp_peers rp) |>) = cursorAt rp.
Proof.
  intros Hf. unfold cursorAt. cbn. rewrite list_lookup_alter_eq. destruct (rp_peers rp !! i) as [p|]; [|done]. cbn. by destruct (Hf p) as (-> & -> & -> & ->).
Qed.

Lemma view_update rp f : (forall p, viewOf (f p) = viewOf p) ->
  queueView (rp <| rp_peers := alter f i (rp_peers rp) |>) = queueView rp.
Proof.
  intros Hf. unfold queueView. cbn. f_equal. apply list_eq. intros x. rewrite !list_lookup_fmap. destruct (decide (x = i)) as [->|Hne]; [|by rewrite list_lookup_alter_ne].
  rewrite list_lookup_alter_eq. destruct (rp_peers rp !! i) as [p|]; [|done]. cbn. by rewrite Hf.
Qed.

(** The holdings after a step: a gap that was reported counts as a repair version. *)
Inductive gapNoted hs : list holdings -> Prop :=
| gap_same : gapNoted hs hs
| gap_added h : hs !! i = Some h -> gapNoted hs (<[i := h <| h_gaps := h_gaps h + 1 |>]> hs).

Definition gently {A} (m : GoM RS A) : Prop := forall rp, is_Some (rp_peers rp !! i) -> wp m rp (fun _ rp' => queueView rp' = queueView rp /\ cursorAt rp' = cursorAt rp).
Lemma gently_ret {A} (a : A) : gently (gret a).
Proof. by intros rp _. Qed.
Lemma gently_bind {A B} (m : GoM RS A) (f : A -> GoM RS B) : gently m -> (forall a, gently (f a)) -> gently (gbind m f).
Proof.
  intros Hm Hf rp Hs. apply wp_bind. eapply wp_mono; [by apply Hm|]. intros a rp1 [E1 F1]. eapply wp_mono; [apply Hf; exact (view_some _ _ _ E1 Hs)|].
  intros b rp2 [E2 F2]. split; congruence.
Qed.
Lemma gently_peer : gently (peerAt i).
Proof. intros rp [p Hp]. by apply (wp_peerAt _ p). Qed.
Lemma gently_world {A} (m : GoM W A) : (forall w, is_Some (m w)) -> gently (inWorld m).
Proof. intros Hm rp _. unfold inWorld. apply wp_zoom. unfold wp. by destruct (Hm (rp_world rp)) as [[a w] ->]. Qed.
Lemma gently_modify f : (forall rp, queueView (f rp) = queueView rp /\ cursorAt (f rp) = cursorAt rp) -> gently (gmodify f).
Proof. intros Hf rp _. apply wp_modify, Hf. Qed.
Lemma gently_update f : (forall p, viewOf (f p) = viewOf p /\
  p_repairOrdinal (f p) = p_repairOrdinal p /\ p_repairStarted (f p) = p_repairStarted p /\ p_repairCompleted (f p) = p_repairCompleted p /\ p_url (f p) = p_url p) -> gently (updatePeer i f).
Proof. intros Hf. apply gently_modify. intros rp. split; [apply view_update|apply cursor_update]; intros p; apply Hf. Qed.

Lemma runs_gently {A} (m : GoM RS A) rp hs (Q : A -> RS -> list holdings -> Prop) : gently m -> is_Some (rp_peers rp !! i) ->
  (forall a rp', queueView rp' = queueView rp -> cursorAt rp' = cursorAt rp -> is_Some (rp_peers rp' !! i) -> Q a rp' hs) -> runs rp hs m Q.
Proof.
  intros Hm Hs HQ. apply runs_other. eapply wp_mono; [by apply Hm|]. intros a rp' [E F]. split; [done|]. apply HQ; [done|done|]. exact (view_some _ _ _ E Hs).
Qed.

(** The gap is confirmed: a walk is due. *)
Lemma runs_checkPeerGap rp hs h (Q : bool -> RS -> list holdings -> Prop) : is_Some (rp_peers rp !! i) -> hs !! i = Some h ->
  (forall due rp' hs', cursorAt rp' = cursorAt rp -> rp_cfg rp' = rp_cfg rp -> is_Some (rp_peers rp' !! i) -> gapNoted hs hs' -> Q due rp' hs') ->
  runs rp hs (checkPeerGap i) Q.
Proof.
  intros Hs Hh HQ. unfold checkPeerGap. apply runs_bind. apply runs_gently; [apply gently_peer|done|]. intros p rp1 E1 F1 Hs1. cbv zeta.
  assert (HF : forall (m : GoM RS bool) rp', gently m -> queueView rp' = queueView rp -> cursorAt rp' = cursorAt rp -> is_Some (rp_peers rp' !! i) -> runs rp' hs m Q).
  { intros m rp' Hm E F Hs'. apply runs_gently; [done|done|]. intros b rp2 E2 F2 Hs2. apply HQ; [congruence|by apply view_cfg; rewrite E2|done|constructor]. }
  destruct (bool_decide _); [apply HF; [apply gently_ret|done..]|]. apply runs_bind. apply runs_gently; [apply gently_world, now_total|done|]. intros now rp2 E2 F2 Hs2.
  destruct (bool_decide _); [apply HF; [apply gently_ret|congruence..|done]|]. apply runs_bind. apply runs_gently; [apply gently_world, do_total|done|]. intros r rp3 E3 F3 Hs3.
  assert (Hfail : gently (countBy (W := W) mt_RepairErrors 1 ;;; gret false)) by (apply gently_bind; [by apply gently_modify|intros ?; apply gently_ret]).
  destruct r as [| |status required version]; [apply HF; [done|congruence..|done]|apply HF; [done|congruence..|done]|].
  destruct (negb _); [apply HF; [done|congruence..|done]|]. destruct (bool_decide _).
  { apply HF; [|congruence..|done]. apply gently_bind; [apply gently_world, now_total|intros ?]. apply gently_bind; [by apply gently_update|intros ?; apply gently_ret]. }
  apply runs_bind. apply runs_gently; [by apply gently_update|done|]. intros [] rp4 E4 F4 Hs4.
  apply runs_bind. apply runs_gently; [by apply gently_update|done|]. intros [] rp5 E5 F5 Hs5.
  destruct (bool_decide _); [apply HF; [apply gently_ret|congruence..|done]|].
  apply runs_bind. eapply runs_one; [reflexivity|by eapply rs_gap|]. apply runs_ret. apply HQ; [|change (rp_cfg rp5 = rp_cfg rp); apply view_cfg; congruence| |by constructor].
  - rewrite <- F1, <- F2, <- F3, <- F4, <- F5. by apply cursor_update.
  - cbn. rewrite list_lookup_alter_eq. destruct Hs5 as [p5 ->]. by eexists.
Qed.

Lemma runs_repairDue rp hs h (Q : option Z -> RS -> list holdings -> Prop) : is_Some (rp_peers rp !! i) -> hs !! i = Some h ->
  (forall due rp' hs', cursorAt rp' = cursorAt rp -> rp_cfg rp' = rp_cfg rp -> is_Some (rp_peers rp' !! i) -> gapNoted hs hs' -> Q due rp' hs') ->
  runs rp hs (repairDue i) Q.
Proof.
  intros Hs Hh HQ. unfold repairDue. apply runs_bind. destruct Hs as [p Hp]. apply runs_other, (wp_peerAt _ p); [done|]. split; [done|]. cbv zeta.
  assert (Hs : is_Some (rp_peers rp !! i)) by by exists p. destruct (bool_decide _); [|apply runs_ret, HQ; [done..|constructor]].
  apply runs_bind. eapply runs_checkPeerGap; [done|exact Hh|]. intros due rp1 hs1 F1 Ec1 [p1 Hp1] G1.
  destruct due; cbn [negb]; [|apply runs_ret, HQ; [done..|by exists p1|done]]. apply runs_bind. apply runs_other, (wp_peerAt _ p1); [done|].
  split; [done|]. apply runs_ret, HQ; [done..|by exists p1|done].
Qed.

(** What a step leaves of the walk. *)
Record walked (s : VS) (k : walk) (more : bool) (s' : VS) (k' : walk) : Prop := {
  wd_steps : walkSteps (s, k) (s', k');
  wd_landed : wk_flight k' = None;
  wd_cursor : forall p p', rp_peers (rv_replication s) !! i = Some p -> rp_peers (rv_replication s') !! i = Some p' ->
    (more = true -> p_repairOrdinal p < p_repairOrdinal p') /\
    (p_repairCompleted p' <> p_repairCompleted p -> (p_repairStarted p <> 0 -> p_repairCompleted p' = p_repairStarted p) /\
       forall r, r ∈ cached (rv_cache s') -> exists m, m ∈ wk_acked k /\ publicationAt (c_mstore (rv_cache s')) r = Some (wireOf m));
}.

(** The page of a step, fetched and sent. *)
Definition repairPageOf (limit tnow : Z) : GoM VS bool :=
  page <- repairFetch i limit tnow ;;
  match page with None => gret false | Some (messages, next) => onReplication (repairSend i messages next) end.

Lemma cached_found c r : cacheOK c -> r ∈ cached c -> is_Some (c_mstore c !! r).
Proof. intros K Hr. destruct (cached_spec c K) as [_ Hc]. apply Hc in Hr as (m & Hm & _). by exists m. Qed.

Lemma view_cursor rp p p' : rp_peers rp !! i = Some p -> viewOf p' = viewOf p ->
  forall rp', rp_peers rp' = <[i := p']> (rp_peers rp) -> rp_cfg rp' = rp_cfg rp -> queueView rp' = queueView rp.
Proof.
  intros Hp E rp' Ep Ec. unfold queueView. rewrite Ec, Ep. f_equal. rewrite list_fmap_insert. apply list_insert_id. rewrite list_lookup_fmap, Hp. cbn. by rewrite E.
Qed.

Lemma wp_repairPageOf limit tnow s k (Q : bool -> VS -> Prop) : walkOK (s, k) -> wk_flight k = None -> 0 <= limit < 2 ^ 62 ->
  (forall more s' k', walked s k more s' k' -> queueView (rv_replication s') = queueView (rv_replication s) -> is_Some (rp_peers (rv_replication s') !! i) -> Q more s') ->
  wp (repairPageOf limit tnow) s Q.
Proof.
  intros I Hk Hl HQ. pose proof I as [K O _ (o & st & co & Ec & Ho & Hw & _)]. cbn [fst snd] in *. destruct (cursorAt_peer _ _ _ _ _ Ec) as (p & Hp & <- & <- & <- & Eu).
  pose proof (lookup_lt_Some _ _ _ Hp) as Hlt. unfold repairPageOf. wp_step.
  assert (Hf : wp (repairFetch i limit tnow) s (fun page s' => cacheOK (rv_cache s') /\ thinned (rv_cache s) (rv_cache s') /\ fetched limit p s s' page)) by by apply (wp_repairFetch _ _ _ p).
  apply wp_elim in Hf as (page & s' & E & K' & T & F). eapply wp_intro; [exact E|]. pose proof (ws_fetch s k limit tnow page s' Hk Hl E) as St.
  destruct (thinned_ordered _ _ O T) as [O' V].
  destruct F as [out messages next Hne Er Hres F|r Er Ecfg Hr Hbig|next Er Ecfg Hres].
  - apply wp_onReplication. destruct (within_page _ _ _ _ _ _ O' (proj1 Ho) Hne Hres F) as [Hn _].
    assert (Hp' : rp_peers (rv_replication s') !! i = Some p) by by rewrite Er.
    assert (Hsend : wp (repairSend i messages next) (rv_replication s') (fun ok rp => queueView rp = queueView (rv_replication s') /\
      cursorAt rp = if ok : bool then Some (next, p_repairStarted p, p_repairCompleted p, p_url p) else cursorAt (rv_replication s'))).
    { apply (wp_repairSend _ _ _ p); [done|by intros rp ? ?|by intros rp body w r1 r2 w' ? ?]. }
    apply wp_elim in Hsend as (ok & rp & Es & Ev & Ecu). eapply wp_intro; [exact Es|]. pose proof (ws_send s' (mkWalk (Some (messages, next)) (wk_acked k)) _ _ ok rp eq_refl Es) as St2.
    eapply HQ; [|cbn; congruence|cbn; apply (view_some _ _ _ Ev); by exists p]. split; [by eapply walkSteps_step; [apply walkSteps_one, St|exact St2]|done|].
    intros p0 p1 Hp0 Hp1. assert (p0 = p) as -> by congruence. cbn in Hp1. unfold cursorAt in Ecu. rewrite Hp1, Hp' in Ecu. cbn in Ecu.
    destruct ok; injection Ecu as E1 E2 E3 _; rewrite E3; (split; [lia|done]) || (split; [done|done]).
  - apply wp_ret. assert (Ev : queueView (rv_replication s') = queueView (rv_replication s)) by by eapply (view_cursor _ p (restarted p)).
    eapply HQ; [|done|by rewrite Er, list_lookup_insert_eq]. split; [apply walkSteps_one, St|done|]. intros p0 p1 Hp0 Hp1. assert (p0 = p) as -> by congruence.
    rewrite Er, list_lookup_insert_eq in Hp1 by done. injection Hp1 as <-. by split.
  - apply wp_ret. assert (Ev : queueView (rv_replication s') = queueView (rv_replication s)) by by eapply (view_cursor _ p (completed p)).
    eapply HQ; [|done|by rewrite Er, list_lookup_insert_eq]. split; [apply walkSteps_one, St|done|]. intros p0 p1 Hp0 Hp1. assert (p0 = p) as -> by congruence.
    rewrite Er, list_lookup_insert_eq in Hp1 by done. injection Hp1 as <-. split; [done|]. intros _. split; [done|]. intros r Hr. pose proof (cached_found _ _ K' Hr) as Hs.
    pose proof (page_complete _ _ _ _ Hres r Hr Hs) as Hle. assert (Hw' : within (rv_cache s') 0 (p_repairOrdinal p) (wk_acked k)) by (eapply within_evolves; [exact V|lia|done]).
    apply Hw'; [done|]. split; [|done]. pose proof (od_range _ O') as Hra. rewrite Forall_forall in Hra. by apply (Hra r).
Qed.

Lemma wp_unbind {S A B} (m : GoM S A) (f : A -> GoM S B) (x : S) Q : wp (gbind m f) x Q -> wp m x (fun a y => wp (f a) y Q).
Proof. unfold wp, gbind. by destruct (m x) as [[a y]|]. Qed.

Lemma repairLimit_range cfg : budget_ok cfg -> 0 <= repairLimit cfg < 2 ^ 62.
Proof.
  unfold budget_ok, repairLimit. intros Hb. assert (0 <= Z.max (Z.shiftl 1 20) (i64 (cfg_MaxMessage cfg + 2 * maxHeaders + 1024))).
  { etransitivity; [|apply Z.le_max_l]. done. }
  change (2 ^ 60) with 1152921504606846976 in Hb. change (2 ^ 62) with 4611686018427387904. lia.
Qed.

(** Holding the bytes of a page. *)
Definition holding (h : holdings) (bytes : Z) : holdings := h <| h_held := repairing bytes :: h_held h |>.

Lemma walked_before s s1 k more s' k' : walkSteps (s, k) (s1, k) -> (forall p p1, rp_peers (rv_replication s) !! i = Some p -> rp_peers (rv_replication s1) !! i = Some p1 ->
    p_repairOrdinal p1 = p_repairOrdinal p /\ p_repairCompleted p1 = p_repairCompleted p /\ (p_repairStarted p <> 0 -> p_repairStarted p1 = p_repairStarted p)) ->
  is_Some (rp_peers (rv_replication s1) !! i) -> walked s1 k more s' k' -> walked s k more s' k'.
Proof.
  intros St Hc [p1 Hp1] [W1 W2 W3]. split; [by eapply walkSteps_trans|done|]. intros p p' Hp Hp'. destruct (W3 p1 p' Hp1 Hp') as [A B]. destruct (Hc p p1 Hp Hp1) as (E1 & E2 & E3).
  rewrite E1 in A. rewrite E2 in B. split; [done|]. intros Hne. destruct (B Hne) as [B1 B2]. split; [|done]. intros Hnz. rewrite <- (E3 Hnz). apply B1. by rewrite (E3 Hnz).
Qed.

Lemma walked_after s k more s' k' rp : cursorAt rp = cursorAt (rv_replication s') -> walked s k more s' k' -> walked s k more (s' <| rv_replication := rp |>) k'.
Proof.
  intros E [W1 W2 W3]. split; [by eapply walkSteps_step; [exact W1|apply ws_others]|done|]. cbn. intros p p' Hp Hp'. unfold cursorAt in E. rewrite Hp' in E.
  destruct (rp_peers (rv_replication s') !! i) as [p2|] eqn:Hp2; [|done]. cbn in E. injection E as E1 E2 E3 _. rewrite E1, E3. by apply (W3 p p2).
Qed.

Lemma walked_idle s k : wk_flight k = None -> walked s k false s k.
Proof. intros Hk. split; [constructor|done|]. intros p p' Hp Hp'. assert (p' = p) as -> by congruence. by split. Qed.

Lemma cursor_same rp rp' p p' : cursorAt rp' = cursorAt rp -> rp_peers rp !! i = Some p -> rp_peers rp' !! i = Some p' ->
  p_repairOrdinal p' = p_repairOrdinal p /\ p_repairCompleted p' = p_repairCompleted p /\ p_repairStarted p' = p_repairStarted p.
Proof. unfold cursorAt. intros E Hp Hp'. rewrite Hp, Hp' in E. by injection E as -> -> -> _. Qed.

Definition stepDone s hs k (more : bool) s' : Prop := exists k' hs', walked s k more s' k' /\ rsteps (rv_replication s, hs) (rv_replication s', hs') /\ gapNoted hs hs' /\
  is_Some (rp_peers (rv_replication s') !! i).

(** The bytes of the page are given back. *)
Lemma wp_repairRelease limit rp hs h (Q : unit -> RS -> Prop) : is_Some (rp_peers rp !! i) -> hs !! i = Some (holding h limit) ->
  (forall rp', cursorAt rp' = cursorAt rp -> is_Some (rp_peers rp' !! i) -> rsteps (rp, hs) (rp', <[i := h]> hs) -> Q tt rp') ->
  wp (addQueued i (- limit) ;;; signalReplicationFreed) rp Q.
Proof.
  intros [p Hp] Hh HQ. assert (Ecu : forall bytes, cursorAt (rp <| rp_peers := alter (fun p => p <| p_queuedBytes := i64 (p_queuedBytes p + bytes) |>) i (rp_peers rp) |>) = cursorAt rp).
  { intros bytes. by apply cursor_update. }
  wp_steps. apply HQ.
  - by apply Ecu.
  - cbn. rewrite list_lookup_alter_eq, Hp. by eexists.
  - pose proof (rs_unclaimPage rp hs i (holding h limit) limit (h_held h) _ Hh (reflexivity _) eq_refl) as St.
    assert (Eh : (holding h limit) <| h_held := h_held h |> = h) by by destruct h. rewrite Eh in St. eapply steps_step; [exact St|by apply steps_one, rs_other].
Qed.

Lemma wp_repairPeerStep tnow s hs h k (Q : bool -> VS -> Prop) : walkOK (s, k) -> wk_flight k = None -> budget_ok (rp_cfg (rv_replication s)) ->
  hs !! i = Some h -> (forall more s', stepDone s hs k more s' -> Q more s') -> wp (repairPeerStep i tnow) s Q.
Proof.
  intros I Hk Hb Hh HQ. pose proof I as [K O _ (o & st & co & Ec & _)]. cbn [fst snd] in *. destruct (cursorAt_some _ _ Ec) as [p Hp].
  unfold repairPeerStep. wp_step. apply wp_onReplication.
  assert (HA : runs (rv_replication s) hs (repairDue i) (fun due rp hs1 => cursorAt rp = cursorAt (rv_replication s) /\ rp_cfg rp = rp_cfg (rv_replication s) /\ is_Some (rp_peers rp !! i) /\ gapNoted hs hs1)) by by eapply runs_repairDue; [by exists p|exact Hh|].
  apply wp_elim in HA as (due & rp1 & E1 & hs1 & R1 & F1 & C1 & [p1 Hp1] & G1). eapply wp_intro; [exact E1|].
  assert (W1 : walkStep (s, k) (s <| rv_replication := rp1 |>, k)) by by apply ws_others.
  destruct due as [version|]; [|apply wp_ret, HQ; exists k, hs1; split_and!; [|done|done|by exists p1]; apply walked_after; [done|by apply walked_idle]].
  wp_step. apply wp_onReplication. eapply wp_intro; [reflexivity|]. wp_step. apply wp_get. cbv zeta.
  match goal with |- wp _ (_ <| rv_replication := ?x |>) _ => set (rp2 := x) end. set (s2 := _ <| rv_replication := rp2 |>).
  change (rp_cfg (rv_replication s2)) with (rp_cfg rp1). rewrite C1. set (limit := repairLimit _). assert (Hl : 0 <= limit < 2 ^ 62) by by apply repairLimit_range.
  set (p2 := if bool_decide (p_repairStarted p1 = 0) then p1 <| p_repairStarted := version |> else p1).
  assert (Hp2 : rp_peers rp2 !! i = Some p2) by (cbn; by rewrite list_lookup_alter_eq, Hp1).
  assert (V2 : queueView rp2 = queueView rp1) by (apply view_update; intros q; cbv beta; by destruct (bool_decide (p_repairStarted q = 0))).
  assert (W2 : walkSteps (s, k) (s2, k)) by (eapply walkSteps_step; [apply walkSteps_one, W1|by eapply ws_begin]).
  assert (Hcur : forall p p2, rp_peers (rv_replication s) !! i = Some p -> rp_peers rp2 !! i = Some p2 ->
    p_repairOrdinal p2 = p_repairOrdinal p /\ p_repairCompleted p2 = p_repairCompleted p /\ (p_repairStarted p <> 0 -> p_repairStarted p2 = p_repairStarted p)).
  { intros q q2 Hq Hq2. destruct (cursor_same _ _ _ _ F1 Hq Hp1) as (A1 & A2 & A3). assert (q2 = p2) as -> by congruence. unfold p2.
    destruct (bool_decide_reflect (p_repairStarted p1 = 0)); cbn; (split; [done|]); (split; [done|]); intros Hn; congruence. }
  assert (exists h1, hs1 !! i = Some h1) as [h1 Hh1] by (destruct G1; [by exists h|eexists; apply list_lookup_insert_eq; by eapply lookup_lt_Some]).
  wp_step. apply wp_onReplication. unfold repairClaim. wp_step. apply wp_get. cbv beta. set (test := fitsQueue (rp_cfg rp1) limit). pose proof (claim_eq test i limit rp2 p2 Hp2) as Ecl.
  change (rv_replication s2) with rp2. destruct (test (p_queuedBytes p2)).
  - eapply wp_intro; [exact Ecl|]. cbn [negb]. set (rp3 := rp2 <| rp_peers := _ |>) in *. change (s2 <| rv_replication := rp3 |>) with (s <| rv_replication := rp3 |>). set (s3 := s <| rv_replication := rp3 |>).
    set (p3 := p2 <| p_queuedBytes := i64 (p_queuedBytes p2 + limit) |>) in *. assert (Hp3 : rp_peers rp3 !! i = Some p3) by (apply list_lookup_insert_eq; by eapply lookup_lt_Some).
    assert (Cu3 : cursorAt rp3 = cursorAt rp2) by (unfold cursorAt; by rewrite Hp3, Hp2).
    assert (W3 : walkSteps (s, k) (s3, k)) by (eapply walkSteps_step; [exact W2|by apply (ws_others s2)]).
    assert (R3 : rsteps (rv_replication s, hs) (rp3, <[i := holding h1 limit]> hs1)).
    { eapply steps_trans; [exact R1|]. eapply steps_step; [apply rs_other, V2|]. apply steps_one. by apply (rs_claimPage rp2 hs1 i h1 limit rp3). }
    wp_step. eapply wp_mono; [|intros page s4 Hw; wp_step; exact Hw]. apply wp_unbind, (wp_repairPageOf limit tnow s3 k); [by eapply walkSteps_ok|done|done|].
    intros more s4 k4 Wk Vk Sk. wp_step. apply wp_onReplication, (wp_repairRelease _ _ (<[i := holding h1 limit]> hs1) h1); [done|apply list_lookup_insert_eq; by eapply lookup_lt_Some|].
    intros rp5 Cu5 Sk5 R5. apply wp_ret, HQ. exists k4, hs1. split_and!; [|  |done|done].
    + apply walked_after; [done|]. eapply walked_before; [exact W3| |by exists p3|exact Wk]. intros q q3 Hq Hq3. assert (q3 = p3) as -> by (change (rp_peers rp3 !! i = Some q3) in Hq3; congruence).
      apply (Hcur q p2 Hq Hp2).
    + eapply steps_trans; [exact R3|]. eapply steps_step; [apply rs_other, Vk|]. rewrite list_insert_insert_eq, (list_insert_id hs1 i h1) in R5 by done. exact R5.
  - eapply wp_intro; [exact Ecl|]. cbn [negb]. apply wp_ret, HQ. exists k, hs1. split_and!; [| |done|by exists p2].
    + apply (walked_before s s2); [done|exact Hcur|by exists p2|]. by apply walked_idle.
    + eapply steps_trans; [exact R1|]. by apply steps_one, rs_other.
Qed.

(** A broker whose cursor is at rest: no walk has begun. *)
Definition atRest s : Prop := cacheOK (rv_cache s) /\ ordered (rv_cache s) /\ exists started done, cursorAt (rv_replication s) = Some (0, started, done, url).

Lemma atRest_ok s : atRest s -> walkOK (s, mkWalk None []).
Proof. intros (K & O & st & co & Ec). split; [done|done|constructor|]. exists 0, st, co. split; [done|]. split; [pose proof (od_next _ O); cbn; lia|]. by split; [apply within_empty|]. Qed.

(** C9: the repair of a peer that lost copies. However the steps of a walk interleave with insertions, expiry and evictions
    of the cache, a step returns, gives back the bytes it took of the queue, and moves the cursor only over messages that
    the peer confirmed by answering 204 to the page they were encoded in; when it declares the walk complete, every message that is cached at that moment was so
    confirmed during the walk, and the version it completes is the one noted when the walk began. *)
Theorem repair_complete tnow s0 s hs h k :
  atRest s0 -> walkSteps (s0, mkWalk None []) (s, k) -> wk_flight k = None -> budget_ok (rp_cfg (rv_replication s)) -> hs !! i = Some h ->
  exists more s' k' hs', repairPeerStep i tnow s = Some (more, s') /\ walkSteps (s, k) (s', k') /\ wk_flight k' = None /\
    rsteps (rv_replication s, hs) (rv_replication s', hs') /\ gapNoted hs hs' /\
    exists p p', rp_peers (rv_replication s) !! i = Some p /\ rp_peers (rv_replication s') !! i = Some p' /\
      (more = true -> p_repairOrdinal p < p_repairOrdinal p') /\
      (forall r, r ∈ cached (rv_cache s') -> 0 < ordinalAt (c_mstore (rv_cache s')) r <= p_repairOrdinal p' ->
         exists m, m ∈ wk_acked k' /\ confirmed m /\ publicationAt (c_mstore (rv_cache s')) r = Some (wireOf m)) /\
      (p_repairCompleted p' <> p_repairCompleted p ->
        (p_repairStarted p <> 0 -> p_repairCompleted p' = p_repairStarted p) /\
        forall r, r ∈ cached (rv_cache s') -> exists m, m ∈ wk_acked k /\ confirmed m /\ publicationAt (c_mstore (rv_cache s')) r = Some (wireOf m)).
Proof.
  intros R0 St Hk Hb Hh. pose proof (walkSteps_ok _ _ (atRest_ok _ R0) St) as I. pose proof (wo_walk _ I) as (o & st & co & Ec & _). destruct (cursorAt_some _ _ Ec) as [p Hp].
  assert (Hs : wp (repairPeerStep i tnow) s (stepDone s hs k)) by (eapply wp_repairPeerStep; [done|done|done|exact Hh|done]).
  apply wp_elim in Hs as (more & s' & E & k' & hs' & [W1 W2 W3] & R & G & [p' Hp']). exists more, s', k', hs'. split_and!; [done..|]. destruct (W3 p p' Hp Hp') as [W4 W5].
  pose proof (wo_confirmed _ I) as C. pose proof (walkSteps_ok _ _ I W1) as [_ _ C' (o' & st' & co' & Ec' & _ & Hw' & _)]. rewrite Forall_forall in C, C'. cbn [fst snd] in *.
  destruct (cursorAt_peer _ _ _ _ _ Ec') as (q & Hq & <- & _). assert (q = p') as -> by congruence.
  exists p, p'. split_and!; [done..| |].
  - intros r Hr Ho. destruct (Hw' r Hr Ho) as (m & Hm & E'). exists m. split_and!; [done|by apply C'|done].
  - intros Hne. destruct (W5 Hne) as [W6 W7]. split; [done|]. intros r Hr. destruct (W7 r Hr) as (m & Hm & E'). exists m. split_and!; [done|by apply C|done].
Qed.

(** a page of a repair is what the peer decodes. The cursor moves to the end of the page only if the peer answers 204 to a body
    from which it reads exactly the messages of the page; any other answer leaves the walk where it was, to be tried again. *)
Theorem repair_page messages next maxMessage rp p :
  rp_peers rp !! i = Some p -> batchOk maxMessage messages ->
  exists ok rp', repairSend i messages next rp = Some (ok, rp') /\ queueView rp' = queueView rp /\
    if ok : bool then (exists p', rp_peers rp' !! i = Some p' /\ p_repairOrdinal p' = next) /\ exists body w r1 r2 w', readPeerBatch maxMessage body = inr (wireOf <$> messages, []) /\
      pn_do (p_url p +:+ "/internal/repair") (postRepair body) w = Some (replied 204 r1 r2, w')
    else cursorAt rp' = cursorAt rp.
Proof.
  intros Hp Ok. assert (Hw : wp (repairSend i messages next) rp (fun ok rp' => queueView rp' = queueView rp /\
    if ok : bool then (exists p', rp_peers rp' !! i = Some p' /\ p_repairOrdinal p' = next) /\ exists body w r1 r2 w', readPeerBatch maxMessage body = inr (wireOf <$> messages, []) /\
      pn_do (p_url p +:+ "/internal/repair") (postRepair body) w = Some (replied 204 r1 r2, w')
    else cursorAt rp' = cursorAt rp)).
  { apply (wp_repairSend _ _ _ p); [done|by intros rp' ? ?|]. intros rp' body w r1 r2 w' V Ec Eb Er. split; [done|]. split.
    - destruct (cursorAt_peer _ _ _ _ _ Ec) as (p' & Hp' & ? & _). by exists p'.
    - destruct (peerBatch_encodes maxMessage messages Ok) as [(b2 & E2 & D2) _]. unfold encodeFor in E2. rewrite Eb in E2. injection E2 as <-. by exists body, w, r1, r2, w'. }
  apply wp_elim in Hw as (ok & rp' & E & HQ). by exists ok, rp'.
Qed.
End Walk.

(** ** Witnesses *)
#[local] Existing Instance ex_net.
#[local] Existing Instance ex_net_total.
#[local] Existing Instance ex_range.

(** Two messages are cached, and the peer lost a copy. *)
Definition ex_lossy : repairs (list peerRequest) :=
  mkRepairs (mkReplication DefaultConfig [(newPeer "http://a") <| p_repairVersion := 1 |>] false newMetrics []) ex_two.

Lemma ex_two_ordered : ordered ex_two.
Proof.
  split.
  - assert (E : ordinalAt (c_mstore ex_two) <$> cached ex_two = [1; 2]) by (vm_compute; reflexivity). rewrite E. repeat constructor; lia.
  - assert (E : (ordinalAt (c_mstore ex_two) <$> cached ex_two, c_nextRepairOrdinal ex_two) = ([1; 2], 2)) by (vm_compute; reflexivity).
    apply (inj2 pair) in E as [E En]. rewrite En. assert (F : Forall (fun o => 0 < o <= 2) (ordinalAt (c_mstore ex_two) <$> cached ex_two)) by (rewrite E; repeat constructor; lia). by rewrite Forall_fmap in F.
  - vm_compute. split; [discriminate|reflexivity].
Qed.

Lemma ex_lossy_rest : atRest 0 "http://a" ex_lossy.
Proof. split; [exact ex_two_ok|]. split; [exact ex_two_ordered|]. by exists 0, 0. Qed.

Lemma ex_lossy_step : fst <$> repairPeerStep 0 0 ex_lossy = Some true.
Proof. vm_compute. reflexivity. Qed.

Lemma repair_complete_witness : exists s' p', repairPeerStep 0 0 ex_lossy = Some (true, s') /\ rp_peers (rv_replication s') !! 0%nat = Some p' /\ 0 < p_repairOrdinal p'.
Proof.
  destruct (repair_complete 0 "http://a" 0 ex_lossy ex_lossy [nothing] nothing (mkWalk None []) ex_lossy_rest (walkSteps_refl _ _) eq_refl ex_budget eq_refl)
    as (more & s' & k' & hs' & E & _ & _ & _ & _ & p & p' & Hp & Hp' & Hmore & _).
  pose proof ex_lossy_step as E2. rewrite E in E2. injection E2 as ->. exists s', p'. split; [exact E|]. split; [exact Hp'|].
  assert (p = (newPeer "http://a") <| p_repairVersion := 1 |>) as -> by (injection Hp as <-; reflexivity). exact (Hmore eq_refl).
Defined.

Lemma repair_page_witness : exists rp', repairSend 0 ex_batch 7 (rv_replication ex_lossy) = Some (true, rp').
Proof.
  destruct (repair_page 0 ex_batch 7 16 (rv_replication ex_lossy) ((newPeer "http://a") <| p_repairVersion := 1 |>) eq_refl ex_wire) as (ok & rp' & E & _).
  assert (E2 : fst <$> repairSend 0 ex_batch 7 (rv_replication ex_lossy) = Some true) by (vm_compute; reflexivity). rewrite E in E2. injection E2 as ->. exists rp'. exact E.
Defined.
