(* ===== verification/Services.v ===== *)
(** * Handlers as programs over the services of the broker

    An HTTP handler of internal/broker/broker.go calls the components of the broker, which other requests
    use at the same time: what a call answers depends on them.  A handler is therefore a program
    ([prog]) whose calls are data ([service]); its theorems hold for every answer that a component can give.
    What a handler may rely on is in Contracts.v. *)
From S2P Require Import Prelude Programs Types Config Metrics GoIO.
#[local] Open Scope Z_scope.

(** ** Requests and responses *)

(** [*http.Request], as far as the handlers look: [Header.Get], [URL.Query().Get] and [Has], [PathValue], [BasicAuth()].
    [hr_body] is what the body holds before it ends. *)
Record request := mkRequest {
  hr_method : string;
  hr_path : string;
  hr_header : string -> string;
  hr_query : string -> string;
  hr_hasQuery : string -> bool;
  hr_basicAuth : option (string * string);
  hr_contentLength : Z;
  hr_body : list byte;
}.

(** [type replayFrontierSnapshot struct]; [unsafe_until] is not written any more. *)
Record replayFrontierSnapshot := mkFrontierSnapshot {
  rf_Topics : gmap string topicFrontier;
  rf_Unsafe : gmap string (gmap string Z);
}.

(** What [json.NewEncoder(w).Encode] is given, or the bytes of a body. *)
Inductive body :=
| noBody
| errorBody (code : string)
| publishedBody (id : string) (replicated deduplicated : bool)
| availableBody (id : string) (replicated : bool) (confirmed : Z) (degraded deduplicated : bool)
| idsBody (ids : list string)
| checkpointsBody (checkpoints : list groupCheckpoint)
| frontiersBody (snapshot : replayFrontierSnapshot)
| wireBody (bytes : list byte).

Record response := mkResponse { rs_status : Z; rs_headers : list (string * string); rs_body : body }.

(** The slots of [serveHTTP]. *)
Inductive slotKind := requestSlot | streamSlot | internalSlot.
#[export] Instance slotKind_eq_dec : EqDecision slotKind.
Proof. solve_decision. Defined.

(** The handlers that are not programs here. *)
Inductive opaqueHandler := streamHandler | statusHandler | metricsHandler | digestHandler.

Definition retryAfter1 : list (string * string) := [("Retry-After", "1")].
Definition problemResponse (status : Z) (code : string) (headers : list (string * string)) : response :=
  mkResponse status (("Content-Type", "application/json") :: headers) (errorBody code).
Definition jsonResponse (status : Z) (b : body) : response := mkResponse status [("Content-Type", "application/json")] b.

(** ** Services

    A message is passed by its value: the handlers do not change it, and the accepting code answers with
    the message as it has become. *)
Inductive service : Type -> Type :=
| sNow : service Z
| sCount (f : Metrics -> Metrics) : service unit
| sRespond (r : response) : service unit
| sDraining : service bool
| sReady : service bool
| sSlot (kind : slotKind) : service bool
| sFreeSlot (kind : slotKind) : service unit
| sAcquire (bytes : Z) : service bool
| sRelease (bytes : Z) : service unit
| sPressured (topic : string) (now : Z) : service bool
| sNextID : service string
| sBegin (key id : string) (expiresAt : Z) (fingerprint : list byte) : service (error + loc * bool)
| sEntryID (e : loc) : service string
| sFinish (key : string) (e : option loc) (accepted replicated : bool) : service unit
| sReplicated (e : loc) : service bool
| sMarkReplicated (e : loc) : service unit
| sSetExpires (e : loc) (expiresAt : Z) : service unit
| sCacheGet (id : string) : service (option Message)
| sHas (id : string) : service bool
| sWaitReplication (bytes : Z) : service (option nat)
| sReleaseReservation (p : option nat) (bytes : Z) : service unit
| sAccept (m : Message) : service (error + Message * bool)
| sAcceptIdempotent (m : Message) (ttl : Z) : service (error + Message * bool)
| sAcceptBatch (messages : list Message) : service (error + list Message)
| sReplicateOne (m : Message) : service bool
| sReplicateAvailable (m : Message) : service Z
| sEnqueue (messages : list Message) (reserved : option nat) : service unit
| sMarkUnsafe (topic : string) (until : Z) : service unit
| sAcceptReplicas (messages : list Message) : service (option error)
| sBuffered (messages : list Message) : service bool
| sAcceptRepair (messages : list Message) : service (option error)
| sRemoveAcks (ids : list string) : service (list groupCheckpoint)
| sCheckpointsFor (ids : list string) : service (list groupCheckpoint)
| sApplyCheckpoints (checkpoints : list groupCheckpoint) : service unit
| sApplyNacks (ids : list string) : service unit
| sBroadcast (action : string) (a : ackRequest) : service bool
| sPage (after : string) (maxBytes : Z) : service (list Message * string * bool)
| sCheckpoints : service (list groupCheckpoint)
| sFrontiers : service replayFrontierSnapshot
| sGaps : service (list (Z * Z))
| sOther (h : opaqueHandler) : service unit.

(** ** Programs *)
Abbreviation prog := (program service).

Definition respond (r : response) : prog unit := call (sRespond r).
Definition problem (status : Z) (code : string) : prog unit := respond (problemResponse status code []).
(** [w.Header().Set("Retry-After", "1")] before the problem. *)
Definition busy (status : Z) (code : string) : prog unit := respond (problemResponse status code retryAfter1).

Definition addTo (proj : Metrics -> Z) `{!Setter proj} (n : Z) : Metrics -> Metrics := fun mt => mt <| proj := u64 (proj mt + n) |>.
Definition count (proj : Metrics -> Z) `{!Setter proj} : prog unit := call (sCount (addTo proj 1)).
