(* ===== verification/Publish.v ===== *)
(** * Publishing

    [publish] and [publishBatch] of internal/broker/broker.go and [publishAvailable] of available.go, whole: every check
    in its place, every call of a component, every response.  SHA-256 and [time.ParseDuration] are
    parameters, and so is the text of a duration. *)
From S2P Require Import Prelude Programs Types Config Metrics GoIO Base64 BatchWire Replication Pending Services.
#[local] Open Scope Z_scope.
#[local] Open Scope prog_scope.

(** The parts of Go's library that are not modelled. *)
Class PublishStd := {
  ps_parseDuration : string -> option Z;
  ps_durationString : Z -> string;
  ps_sha256 : list byte -> list byte;
  ps_sha256_len l : llen (ps_sha256 l) = 32;
}.

Section Publish.
Context `{PublishStd} (cfg : Config).

Definition parseTTL (value : string) : option Z :=
  if bool_decide (value = "") then Some (cfg_DefaultTTL cfg) else
  ttl ← ps_parseDuration value ;
  if bool_decide (ttl <= 0) || bool_decide (cfg_MaxTTL cfg < ttl) then None else Some ttl.

(** What is hashed, and the hashes. *)
Definition fingerprintText (payload : list byte) (key contentType : string) (ttl : Z) : list byte :=
  payload ++ x00 :: sbytes key ++ x00 :: sbytes contentType ++ x00 :: sbytes (ps_durationString ttl).
Definition messageFingerprint (payload : list byte) (key contentType : string) (ttl : Z) : list byte := ps_sha256 (fingerprintText payload key contentType ttl).

Definition identityText (topic producer key : string) : list byte :=
  sbytes "spruce-idempotency-v1" ++ concat ((fun value => beBytes 4 (slen value) ++ sbytes value) <$> [topic; producer; key]).
Definition idempotentMessageID (topic producer key : string) : string := "i" +:+ encode64 (ps_sha256 (identityText topic producer key)).

Definition contentHeaders (contentType : string) : gmap string string := if bool_decide (contentType <> "") then {[ "content-type" := contentType ]} else ∅.

(** [&Message{...}], with the header of its content type. *)
Definition newMessage (id topic key contentType : string) (payload : list byte) (now ttl : Z) : Message :=
  mkMessage id topic key (contentHeaders contentType) payload (unixMilli now) (unixMilli (now + ttl)) "" 0 None None None 0 0 0 0.

(** [messageSize] leaves its result in the message. *)
Definition sized (m : Message) : Message := m <| m_accountedSize := sizeOf m |>.

Definition publishAvailable (m : Message) (duplicate : bool) (entry : option loc) (cacheKey : string) : prog unit :=
  copies <- call (sReplicateAvailable m) ;;
  (match entry with Some e => call (sFinish cacheKey (Some e) true (bool_decide (1 < copies))) | None => Ret tt end) ;;;
  respond (jsonResponse 202 (availableBody (m_ID m) (bool_decide (1 < copies)) copies (bool_decide (copies < llen (cfg_Peers cfg) + 1)) duplicate)).

(** [ack == ""]: the query, then the header, then the default. *)
Definition ackMode (r : request) : string :=
  let ack := hr_query r "ack" in
  let ack := if bool_decide (ack = "") then hr_header r "Spruce-Ack" else ack in
  if bool_decide (ack = "") then "local" else ack.

Definition overloaded (code : string) : prog unit := count mt_Rejected ;;; count mt_OverloadRejected ;;; busy 429 code.

(** The answers of errors of [accept]. *)
Definition acceptProblem (e : error) : prog unit :=
  if bool_decide (e = errIdempotencyConflict) then problem 409 "idempotency_conflict"
  else if bool_decide (e = errRetentionCapacity) then busy 429 "retention_capacity"
  else problem 507 "cache_capacity".

(** The copies of an accepted message, and the answer. *)
Definition propagate (ack : string) (m : Message) (inserted : bool) (reserved : option nat) (entry : option loc) (cacheKey : string) : prog unit :=
  if bool_decide (ack = "available") then publishAvailable m (negb inserted) entry cacheKey else
  replicated <- (if bool_decide (ack = "one-peer") && bool_decide (0 < llen (cfg_Peers cfg)) then call (sReplicateOne m) else Ret false) ;;
  if bool_decide (ack = "one-peer") && negb replicated then
    call (sFinish cacheKey entry true false) ;;;
    problem 503 "peer_ack_unavailable"
  else
  (if negb (bool_decide (ack = "one-peer")) || negb replicated then call (sEnqueue [m] reserved) else Ret tt) ;;;
  call (sFinish cacheKey entry true replicated) ;;;
  respond (jsonResponse 202 (publishedBody (m_ID m) replicated (negb inserted))).

(** The part of [publish] after the identifier is known: accepting the message and its copies. *)
Definition publishMessage (r : request) (ack : string) (m : Message) (ttl : Z) (idempotent : bool) (entry : option loc) (cacheKey : string) : prog unit :=
  let m := sized m in
  let replicationBytes := sizeOf m in
  reserved <- (if bool_decide (ack = "local") then call (sWaitReplication replicationBytes) else Ret None) ;;
  if bool_decide (ack = "local") && bool_decide (0 < llen (cfg_Peers cfg)) && bool_decide (reserved = None) then
    call (sFinish cacheKey entry false false) ;;;
    count mt_Rejected ;;; count mt_OverloadRejected ;;; count mt_ReplicationPressureRejected ;;;
    busy 429 "replication_overloaded"
  else
  answer <- call (if idempotent then sAcceptIdempotent m (Z.quot ttl Millisecond) else sAccept m) ;;
  match answer with
  | inl e =>
    call (sReleaseReservation reserved replicationBytes) ;;;
    call (sFinish cacheKey entry false false) ;;;
    count mt_Rejected ;;;
    acceptProblem e
  | inr (m, inserted) =>
    (match entry with Some e => call (sSetExpires e (m_ExpiresAt m)) | None => Ret tt end) ;;;
    (if inserted : bool then count mt_Published ;;; call (sCount (addTo mt_PublishBytes (llen (m_Payload m)))) else Ret tt) ;;;
    propagate ack m inserted reserved entry cacheKey
  end.

(** The answer to a request whose operation is done: [!owner]. *)
Definition publishDuplicate (ack : string) (e : loc) : prog unit :=
  id <- call (sEntryID e) ;;
  if bool_decide (ack = "available") then
    m <- call (sCacheGet id) ;;
    match m with
    | None => problem 409 "idempotency_history_expired"
    | Some m => publishAvailable m true None ""
    end
  else
  replicated <- call (sReplicated e) ;;
  if bool_decide (ack = "one-peer") then
    m <- call (sCacheGet id) ;;
    ok <- (match m with None => Ret false | Some m => call (sReplicateOne m) end) ;;
    if negb ok then problem 503 "peer_ack_unavailable" else
    call (sMarkReplicated e) ;;;
    respond (jsonResponse 202 (publishedBody id true true))
  else respond (jsonResponse 202 (publishedBody id replicated true)).

(** [publish] under its admission. *)
Definition publishAdmitted (r : request) (topic : string) : prog unit :=
  if bool_decide (cfg_MaxMessage cfg < hr_contentLength r) then problem 413 "message_too_large" else
  if negb (validTopic topic) then problem 400 "invalid_topic" else
  now <- call sNow ;;
  pressured <- call (sPressured topic now) ;;
  if pressured : bool then
    count mt_Rejected ;;; count mt_OverloadRejected ;;; count mt_DeliveryPressureRejected ;;;
    busy 429 "delivery_overloaded"
  else
  let key := hr_header r "Spruce-Key" in
  let contentType := hr_header r "Content-Type" in
  if bool_decide (maxHeaders < slen key) || bool_decide (maxHeaders < slen contentType) then problem 400 "invalid_metadata" else
  let ack := ackMode r in
  if negb (bool_decide (ack = "local") || bool_decide (ack = "one-peer") || bool_decide (ack = "available")) then problem 400 "invalid_ack_mode" else
  let payload := limitReader (cfg_MaxMessage cfg + 1) (hr_body r) in
  if bool_decide (cfg_MaxMessage cfg < llen payload) then count mt_Rejected ;;; problem 413 "message_too_large" else
  let idempotencyKey := hr_header r "Spruce-Idempotency-Key" in
  let producerID := hr_header r "Spruce-Producer-ID" in
  if bool_decide (128 < slen idempotencyKey) || bool_decide (128 < slen producerID) || (bool_decide (idempotencyKey <> "") && bool_decide (producerID = ""))
  then problem 400 "invalid_idempotency_key" else
  match parseTTL (hr_header r "Spruce-TTL") with
  | None => problem 400 "invalid_ttl"
  | Some ttl =>
    now <- call sNow ;;
    id <- call sNextID ;;
    if bool_decide (idempotencyKey <> "") then
      let id := idempotentMessageID topic producerID idempotencyKey in
      begun <- call (sBegin id id (unixMilli (now + ttl)) (messageFingerprint payload key contentType ttl)) ;;
      match begun with
      | inl e => if bool_decide (e = errIdempotencyConflict) then problem 409 "idempotency_conflict" else problem 429 "idempotency_capacity"
      | inr (e, owner) =>
        if negb owner then publishDuplicate ack e
        else publishMessage r ack (newMessage id topic key contentType payload now ttl) ttl true (Some e) id
      end
    else publishMessage r ack (newMessage id topic key contentType payload now ttl) ttl false None ""
  end.

(** The latency of a publication is observed last. *)
Definition observing (p : prog unit) : prog unit :=
  started <- call sNow ;;
  p ;;;
  ended <- call sNow ;;
  call (sCount (fun mt => mt <| mt_PublishLatency := observe (i64 (ended - started)) (mt_PublishLatency mt) |>)).

(** [defer b.releasePublishAdmission(reserved)] *)
Definition admitted (reserved : Z) (p : prog unit) : prog unit :=
  ok <- call (sAcquire reserved) ;;
  if negb ok then overloaded "overloaded" else p ;;; call (sRelease reserved).

Definition publish (r : request) (topic : string) : prog unit :=
  observing (admitted (if bool_decide (hr_contentLength r <= 0) then cfg_MaxMessage cfg else hr_contentLength r) (publishAdmitted r topic)).

(** ** Batches *)

(** The messages of a batch; [None] when one of them is larger than the cache. *)
Fixpoint batchMessages (v2 : bool) (topic sharedKey contentType : string) (now ttl : Z) (l : list (string * list byte)) : prog (option (list Message)) :=
  match l with
  | [] => Ret (Some [])
  | (key, payload) :: l =>
    id <- call sNextID ;;
    let m := sized (newMessage id topic (if v2 then key else sharedKey) contentType payload now ttl) in
    if bool_decide (cfg_CacheBytes cfg < sizeOf m) then Ret None else
    rest <- batchMessages v2 topic sharedKey contentType now ttl l ;;
    Ret (cons m <$> rest)
  end.

(** [for _, m := range messages] over the metrics. *)
Fixpoint countMessages (messages : list Message) : prog unit :=
  match messages with
  | [] => Ret tt
  | m :: messages => count mt_Published ;;; call (sCount (addTo mt_PublishBytes (llen (m_Payload m)))) ;;; countMessages messages
  end.

Definition publishDecoded (topic sharedKey contentType : string) (v2 : bool) (ttl : Z) (l : list (string * list byte)) : prog unit :=
  now <- call sNow ;;
  messages <- batchMessages v2 topic sharedKey contentType now ttl l ;;
  match messages with
  | None => problem 507 "cache_capacity"
  | Some messages =>
    let replicationBytes := batchBytes messages in
    reserved <- call (sWaitReplication replicationBytes) ;;
    if bool_decide (0 < llen (cfg_Peers cfg)) && bool_decide (reserved = None) then
      count mt_Rejected ;;; count mt_OverloadRejected ;;; count mt_ReplicationPressureRejected ;;;
      busy 429 "replication_overloaded"
    else
    answer <- call (sAcceptBatch messages) ;;
    match answer with
    | inl e =>
      call (sReleaseReservation reserved replicationBytes) ;;;
      if bool_decide (e = errRetentionCapacity) then busy 429 "retention_capacity" else problem 507 "cache_capacity"
    | inr messages =>
      countMessages messages ;;;
      call (sEnqueue messages reserved) ;;;
      respond (jsonResponse 202 (idsBody (m_ID <$> messages)))
    end
  end.

Definition publishBatchAdmitted (r : request) (topic : string) : prog unit :=
  if bool_decide (maxBatchBytes < hr_contentLength r) then problem 413 "batch_too_large" else
  if negb (validTopic topic) then problem 400 "invalid_topic" else
  now <- call sNow ;;
  pressured <- call (sPressured topic now) ;;
  if pressured : bool then
    count mt_Rejected ;;; count mt_OverloadRejected ;;; count mt_DeliveryPressureRejected ;;;
    busy 429 "delivery_overloaded"
  else
  let sharedKey := hr_header r "Spruce-Key" in
  let contentType := hr_header r "Content-Type" in
  if bool_decide (maxHeaders < slen sharedKey) || bool_decide (maxHeaders < slen contentType) then problem 400 "invalid_metadata" else
  let ack := hr_header r "Spruce-Ack" in
  if bool_decide (ack <> "") && bool_decide (ack <> "local") then problem 400 "invalid_ack_mode" else
  if bool_decide (hr_header r "Spruce-Idempotency-Key" <> "") then problem 400 "batch_idempotency_unsupported" else
  match parseTTL (hr_header r "Spruce-TTL") with
  | None => problem 400 "invalid_ttl"
  | Some ttl =>
    let version := hr_header r "Spruce-Batch-Version" in
    if bool_decide (version <> "") && bool_decide (version <> "1") && bool_decide (version <> "2") then problem 400 "invalid_batch_version" else
    let v2 := bool_decide (version = "2") in
    match decodeBatch v2 (cfg_MaxMessage cfg) (hr_body r) with
    | inl p => (if pb_rejected p : bool then count mt_Rejected else Ret tt) ;;; problem (pb_status p) (pb_code p)
    | inr l => publishDecoded topic sharedKey contentType v2 ttl l
    end
  end.

Definition publishBatch (r : request) (topic : string) : prog unit :=
  observing (admitted (if bool_decide (hr_contentLength r <= 0) then maxBatchBytes else hr_contentLength r) (publishBatchAdmitted r topic)).
End Publish.
