(* ===== verification/Handlers.v ===== *)
(** * The other handlers, and the gate before all of them

    Acknowledgements, the calls of peers, and [serveHTTP] with [routes] of internal/broker/broker.go.
    [encoding/json] is behind [AckJSON]; the subscription stream (Stream.v), the status pages (Status.v) and the
    digest (Digest.v) are calls of [sOther]. *)
From S2P Require Import Prelude Programs Types Config Metrics GoIO Base64 Wire Pending Services Publish.
From Stdlib Require Import String Ascii.
#[local] Open Scope Z_scope.
#[local] Open Scope prog_scope.

(** [decoder.Decode(&a)] of the first megabyte, and whether nothing but its end follows. *)
Class AckJSON := { aj_decode : list byte -> option (ackRequest * bool) }.

Section Handlers.
Context `{PublishStd} `{AckJSON} `{MapRange} (cfg : Config).

(** ** Tokens *)

(** [subtle.ConstantTimeCompare] of slices of one length is their equality. *)
Definition tokenEqual (provided expected : string) : bool :=
  bool_decide (expected <> "") && bool_decide (slen provided = slen expected) && bool_decide (provided = expected).

Definition peerAllowed (r : request) : prog bool :=
  let provided := hr_header r "Spruce-Peer-Token" in
  if bool_decide (cfg_PeerToken cfg = "") || (negb (tokenEqual provided (cfg_PeerToken cfg)) && negb (tokenEqual provided (cfg_PreviousPeerToken cfg)))
  then count mt_PeerAuthRejected ;;; Ret false else
  let allowed := bool_decide (hr_header r "Spruce-Cluster-ID" = cfg_ClusterID cfg) in
  (if negb allowed then count mt_PeerAuthRejected else Ret tt) ;;; Ret allowed.

(** The guard of a handler for peers. *)
Definition forPeer (r : request) (p : prog unit) : prog unit := ok <- peerAllowed r ;; if negb ok then problem 401 "invalid_peer" else p.

(** ** Acknowledgements *)
Definition validID (id : string) : bool := bool_decide (0 < slen id) && bool_decide (slen id <= 64).
Definition validCheckpoint (c : groupCheckpoint) : bool :=
  validTopic (gc_Topic c) && bool_decide (0 < slen (gc_Group c)) && bool_decide (slen (gc_Group c) <= 255)
  && validID (gc_MessageID c) && bool_decide (0 < gc_ExpiresAt c).

Definition validAckRequest (a : ackRequest) : bool :=
  negb (bool_decide (1024 < llen (ar_DeliveryIDs a)) || bool_decide (1024 < llen (ar_Checkpoints a))
    || bool_decide (llen (ar_DeliveryIDs a) + llen (ar_Checkpoints a) = 0))
  && forallb validID (ar_DeliveryIDs a) && forallb validCheckpoint (ar_Checkpoints a).

Definition decodeAckRequest (body : list byte) : option ackRequest :=
  '(a, ended) ← aj_decode (limitReader (Z.shiftl 1 20) body) ;
  if negb (validAckRequest a) then None else if ended : bool then Some a else None.

(** An identifier that this process gave out. *)
Definition localID (boot : list byte) (id : string) : bool :=
  match decode64 id with Some raw => bool_decide (llen raw = 16) && bool_decide (take 8 raw = boot) | None => false end.

Definition ack (boot : list byte) (r : request) : prog unit :=
  match decodeAckRequest (hr_body r) with
  | None => problem 400 "invalid_ack"
  | Some a =>
    if bool_decide (ar_DeliveryIDs a = []) then problem 400 "invalid_ack" else
    if forallb (localID boot) (ar_DeliveryIDs a) then
      checkpoints <- call (sRemoveAcks (ar_DeliveryIDs a)) ;;
      (if negb (bool_decide (checkpoints = [])) then call (sBroadcast "ack" (mkAckRequest [] checkpoints)) else Ret true) ;;;
      respond (mkResponse 204 [] noBody)
    else
      checkpoints <- call (sCheckpointsFor (ar_DeliveryIDs a)) ;;
      ok <- call (sBroadcast "ack" (mkAckRequest (ar_DeliveryIDs a) checkpoints)) ;;
      if negb ok then problem 503 "peer_ack_unavailable" else
      call (sRemoveAcks (ar_DeliveryIDs a)) ;;;
      respond (mkResponse 204 [] noBody)
  end.

Definition internalAck (r : request) : prog unit :=
  forPeer r (match decodeAckRequest (hr_body r) with
  | None => problem 400 "invalid_ack"
  | Some a =>
    derived <- call (sRemoveAcks (ar_DeliveryIDs a)) ;;
    (if negb (bool_decide (derived = [])) then call (sBroadcast "ack" (mkAckRequest [] derived)) else Ret true) ;;;
    call (sApplyCheckpoints (ar_Checkpoints a)) ;;;
    respond (mkResponse 204 [] noBody)
  end).

Definition nack (r : request) : prog unit :=
  match decodeAckRequest (hr_body r) with
  | None => problem 400 "invalid_nack"
  | Some a =>
    if bool_decide (ar_DeliveryIDs a = []) || bool_decide (ar_Checkpoints a <> []) then problem 400 "invalid_nack" else
    call (sApplyNacks (ar_DeliveryIDs a)) ;;;
    ok <- call (sBroadcast "nack" a) ;;
    if negb ok then problem 503 "peer_nack_unavailable" else respond (mkResponse 204 [] noBody)
  end.

Definition internalNack (r : request) : prog unit :=
  forPeer r (match decodeAckRequest (hr_body r) with
  | None => problem 400 "invalid_nack"
  | Some a =>
    if bool_decide (ar_DeliveryIDs a = []) || bool_decide (ar_Checkpoints a <> []) then problem 400 "invalid_nack" else
    call (sApplyNacks (ar_DeliveryIDs a)) ;;;
    respond (mkResponse 204 [] noBody)
  end).

(** ** Replication, on the side of the receiver *)
Fixpoint markLegacy (messages : list Message) : prog unit :=
  match messages with
  | [] => Ret tt
  | m :: messages => call (sMarkUnsafe (m_Topic m) (m_ExpiresAt m)) ;;; markLegacy messages
  end.

Fixpoint validBatch (v2 : bool) (messages : list Message) : prog bool :=
  match messages with
  | [] => Ret true
  | m :: messages =>
    if negb (validTopic (m_Topic m)) then Ret false else
    now <- call sNow ;;
    if bool_decide (unixMilli (now + cfg_MaxTTL cfg) < m_ExpiresAt m) || bool_decide (cfg_CacheBytes cfg < sizeOf m)
       || (v2 && (bool_decide (m_Origin m = "") || bool_decide (m_Sequence m = 0)))
    then Ret false else validBatch v2 messages
  end.

Definition repairHeaders (buffered : bool) : list (string * string) := if buffered then [("Spruce-Repair-Required", "true")] else [].

Definition replicaProblem (e : error) (buffered : bool) : prog unit :=
  if bool_decide (e = errReplicaSequenceMissing) then respond (problemResponse 409 "replica_sequence_missing" (repairHeaders buffered))
  else if bool_decide (e = errRetentionCapacity) then respond (problemResponse 429 "retention_capacity" (repairHeaders buffered ++ retryAfter1))
  else respond (problemResponse 507 "cache_capacity" (repairHeaders buffered)).

Definition replicaAnswer (err : option error) (buffered : bool) : prog unit :=
  match err with
  | Some e => replicaProblem e buffered
  | None => respond (mkResponse 204 (repairHeaders buffered) noBody)
  end.

Definition replicate (r : request) : prog unit :=
  forPeer r (
    let v2 := bool_decide (hr_header r "Spruce-Peer-Version" = "2") in
    let body := limitReader (Z.shiftl 32 20) (hr_body r) in
    match (if v2 then readPeerBatch (cfg_MaxMessage cfg) body else readPeerBatchV1 (cfg_MaxMessage cfg) body) with
    | inl _ => problem 400 "invalid_message"
    | inr (messages, _) =>
      now <- call sNow ;;
      let now := unixMilli now in
      (if negb v2 then markLegacy messages else Ret tt) ;;;
      ok <- validBatch v2 messages ;;
      if negb ok then problem 400 "invalid_message" else
      let live := List.filter (fun m => bool_decide (now < m_ExpiresAt m)) (sized <$> messages) in
      if bool_decide (hr_path r = "/internal/repair") then
        if negb v2 then problem 400 "repair_requires_v2" else
        err <- call (sAcceptRepair live) ;; replicaAnswer err false
      else if v2 then
        err <- call (sAcceptReplicas live) ;;
        buffered <- call (sBuffered live) ;;
        replicaAnswer err buffered
      else
        answer <- call (sAcceptBatch live) ;;
        replicaAnswer (match answer with inl e => Some e | inr _ => None end) false
    end).

(** ** What peers read *)
Definition snapshot (r : request) : prog unit :=
  forPeer r (
    let! (messages, next, valid) := call (sPage (hr_query r "after") (Z.shiftl 24 20)) ;;
    if negb valid then problem 409 "snapshot_cursor_expired" else
    if bool_decide (messages = []) then respond (mkResponse 204 [] noBody) else
    let v2 := bool_decide (hr_header r "Spruce-Peer-Version" = "2") in
    let headers := if v2 then [("Content-Type", "application/vnd.spruce.peer.v2"); ("Spruce-Peer-Version", "2")]
                   else [("Content-Type", "application/vnd.spruce.peer")] in
    respond (mkResponse 200 (headers ++ [("Spruce-Next-Cursor", next)])
      (wireBody (if v2 then (writePeerBatch false messages []).1 else (writePeerBatchV1 messages []).1)))).

Definition checkpointSnapshot (r : request) : prog unit :=
  forPeer r (
    now <- call sNow ;;
    checkpoints <- call sCheckpoints ;;
    respond (jsonResponse 200 (checkpointsBody (List.filter (fun c => bool_decide (unixMilli now < gc_ExpiresAt c)) checkpoints)))).

(** The gaps of the origins, with the instants since which they are open. *)
Fixpoint gapState (required : string) (gaps : list (Z * Z)) : prog string :=
  match gaps with
  | [] => Ret required
  | (n, since) :: gaps =>
    if bool_decide (n = 0) then gapState required gaps else
    now <- call sNow ;;
    if bool_decide (1000 <= i64 (unixMilli now - since)) then Ret "true" else gapState "pending" gaps
  end.

Definition peerCapabilities (r : request) : prog unit :=
  forPeer r (
    gaps <- call sGaps ;;
    required <- gapState "false" gaps ;;
    respond (mkResponse 204 [("Spruce-Peer-Version", "2"); ("Spruce-Repair-Required", required)] noBody)).

Definition liveUnsafe (now : Z) (unsafe : gmap string (gmap string Z)) : gmap string (gmap string Z) :=
  omap (fun entries => let copied := filter (fun e => now < e.2) entries in if bool_decide (copied = ∅) then None else Some copied) unsafe.

Definition replayFrontiers (r : request) : prog unit :=
  forPeer r (
    now <- call sNow ;;
    fs <- call sFrontiers ;;
    respond (jsonResponse 200 (frontiersBody (mkFrontierSnapshot (rf_Topics fs) (liveUnsafe (unixMilli now) (rf_Unsafe fs)))))).

(** The digest is in Digest.v. *)
Definition cacheDigest (r : request) : prog unit := forPeer r (call (sOther digestHandler)).

Definition messageStatus (id : string) : prog unit :=
  ok <- call (sHas id) ;; if ok : bool then respond (mkResponse 204 [] noBody) else problem 404 "message_not_cached".

Definition healthReady : prog unit := ready <- call sReady ;; respond (mkResponse (if ready : bool then 204 else 503) [] noBody).

(** ** Routes *)
Fixpoint splitPath (part s : string) : list string :=
  match s with
  | EmptyString => [part]
  | String c s => if bool_decide (c = "/"%char) then part :: splitPath "" s else splitPath (part +:+ String c "") s
  end.

(** [/v1/topics/{topic}/messages] and its like: the wildcard is one segment that is not empty. *)
Definition wildcard (before : list string) (suffix : list string) (path : string) : option string :=
  let parts := splitPath "" path in
  let n := List.length before in
  if bool_decide (take n parts = before) && bool_decide (drop (S n) parts = suffix)
  then x ← parts !! n ; if bool_decide (x = "") then None else Some x else None.

(** The handler of a clean path; [None] stands for what [http.ServeMux] answers itself (404, 405, redirects). *)
Definition route (boot : list byte) (r : request) : option (prog unit) :=
  let on (methods : list string) (p : prog unit) : option (prog unit) := if bool_decide (hr_method r ∈ methods) then Some p else None in
  let get := on ["GET"; "HEAD"] in
  let post := on ["POST"] in
  let path := hr_path r in
  match wildcard [""; "v1"; "topics"] ["messages"] path with
  | Some topic => post (publish cfg r topic)
  | None =>
  match wildcard [""; "v1"; "topics"] ["batches"] path with
  | Some topic => post (publishBatch cfg r topic)
  | None =>
  match wildcard [""; "v1"; "status"; "messages"] [] path with
  | Some id => get (messageStatus id)
  | None =>
    if bool_decide (path = "/v1/subscriptions/stream") then get (call (sOther streamHandler)) else
    if bool_decide (path = "/v1/deliveries/ack") then post (ack boot r) else
    if bool_decide (path = "/v1/deliveries/nack") then post (nack r) else
    if bool_decide (path = "/internal/replicate") then post (replicate r) else
    if bool_decide (path = "/internal/repair") then post (replicate r) else
    if bool_decide (path = "/internal/snapshot") then get (snapshot r) else
    if bool_decide (path = "/internal/checkpoints") then get (checkpointSnapshot r) else
    if bool_decide (path = "/internal/replay-frontiers") then get (replayFrontiers r) else
    if bool_decide (path = "/internal/capabilities") then get (peerCapabilities r) else
    if bool_decide (path = "/internal/cache-digest") then get (cacheDigest r) else
    if bool_decide (path = "/internal/ack") then post (internalAck r) else
    if bool_decide (path = "/internal/nack") then post (internalNack r) else
    if bool_decide (path = "/metrics") then get (call (sOther metricsHandler)) else
    if bool_decide (path = "/health/live") then get (respond (mkResponse 204 [] noBody)) else
    if bool_decide (path = "/health/ready") then get healthReady else
    if bool_decide (path = "/v1/status") then get (call (sOther statusHandler)) else None
  end end end.
Definition dispatch (boot : list byte) (r : request) : prog unit :=
  match route boot r with Some p => p | None => respond (mkResponse 404 [] noBody) end.

(** ** The gate *)
Definition hasPrefix (s prefix : string) : bool := String.prefix prefix s.
Definition adminPath (path : string) : bool := bool_decide (path = "/metrics") || hasPrefix path "/v1/status".

(** The credentials that a path asks for: the token, the previous token, and the basic user with its password. *)
Definition credentials (path : string) : string * string * string * string :=
  if adminPath path && (bool_decide (cfg_AdminToken cfg <> "") || bool_decide (cfg_AdminBasicUsername cfg <> ""))
  then (cfg_AdminToken cfg, cfg_PreviousAdminToken cfg, cfg_AdminBasicUsername cfg, cfg_AdminBasicPassword cfg)
  else (cfg_ClientToken cfg, cfg_PreviousClientToken cfg, cfg_BasicUsername cfg, cfg_BasicPassword cfg).

Definition trimPrefix (s prefix : string) : string := if hasPrefix s prefix then String.substring (String.length prefix) (String.length s - String.length prefix) s else s.

Definition allowed (r : request) (required previous basicUsername basicPassword : string) : bool :=
  let authorization := hr_header r "Authorization" in
  let byToken := bool_decide (required <> "") && hasPrefix authorization "Bearer "
    && (let provided := trimPrefix authorization "Bearer " in tokenEqual provided required || tokenEqual provided previous) in
  byToken || (bool_decide (basicUsername <> "") &&
    match hr_basicAuth r with
    | Some (username, password) => bool_decide (slen username = slen basicUsername) && bool_decide (slen password = slen basicPassword)
        && bool_decide (username = basicUsername) && bool_decide (password = basicPassword)
    | None => false
    end).

Definition quoted (s : string) : string := String (ascii_of_nat 34) s +:+ String (ascii_of_nat 34) "".

(** [defer func() { <-slots }()] *)
Definition slotted (kind : slotKind) (p : prog unit) : prog unit :=
  ok <- call (sSlot kind) ;; if negb ok then problem 429 "concurrency_limit" else p ;;; call (sFreeSlot kind).

Definition authorized (boot : list byte) (r : request) : prog unit :=
  let '(required, previous, basicUsername, basicPassword) := credentials (hr_path r) in
  if (bool_decide (required <> "") || bool_decide (basicUsername <> "")) && negb (allowed r required previous basicUsername basicPassword) then
    (if adminPath (hr_path r) then count mt_AdminAuthRejected else count mt_PublicAuthRejected) ;;;
    respond (problemResponse 401 "unauthorized" [("WWW-Authenticate", "Basic realm=" +:+ quoted "spruce" +:+ ", charset=" +:+ quoted "UTF-8")])
  else dispatch boot r.

Definition serveHTTP (boot : list byte) (r : request) : prog unit :=
  draining <- call sDraining ;;
  let path := hr_path r in
  if (draining : bool) && (bool_decide (path = "/v1/subscriptions/stream") || hasPrefix path "/v1/topics/")
  then respond (problemResponse 503 "broker_draining" [("Retry-After", "0")]) else
  if hasPrefix path "/health/" then dispatch boot r else
  let internal := hasPrefix path "/internal/" in
  let kind := if internal then internalSlot else if bool_decide (path = "/v1/subscriptions/stream") then streamSlot else requestSlot in
  slotted kind (if internal then dispatch boot r else authorized boot r).
End Handlers.
