(* ===== verification/Contracts.v ===== *)
(** * What a handler owes

    The obligations of one request, whatever the components answer: [duty] is what it holds at a moment,
    [permits] when a call is allowed, [after] what the call changes, and [possible] the
    answers that the components promise.  [obeys p d Q] says that no run of [p] from [d] makes a call that is not
    permitted, and that what it returns satisfies [Q]. *)
From S2P Require Import Prelude Programs Types Config Metrics GoIO Pending Replication Services Publish Handlers.
From Stdlib Require Import String.
#[local] Open Scope Z_scope.

Record duty := mkDuty {
  du_slot : option slotKind;
  du_admitted : option Z;
  du_reserved : option (nat * Z);
  du_entry : option (string * loc);
  du_accepted : list Message;
  du_spread : bool;
  du_confirmed : bool;
  du_response : option response;
}.
#[export] Instance duty_settable : Settable duty := fun r => mkDuty (du_slot r) (du_admitted r) (du_reserved r) (du_entry r) (du_accepted r)
  (du_spread r) (du_confirmed r) (du_response r).
#[export] Instance set_du_slot : Setter du_slot := ltac:(derive_setter).
#[export] Instance set_du_admitted : Setter du_admitted := ltac:(derive_setter).
#[export] Instance set_du_reserved : Setter du_reserved := ltac:(derive_setter).
#[export] Instance set_du_entry : Setter du_entry := ltac:(derive_setter).
#[export] Instance set_du_accepted : Setter du_accepted := ltac:(derive_setter).
#[export] Instance set_du_spread : Setter du_spread := ltac:(derive_setter).
#[export] Instance set_du_confirmed : Setter du_confirmed := ltac:(derive_setter).
#[export] Instance set_du_response : Setter du_response := ltac:(derive_setter).

Definition idle : duty := mkDuty None None None None [] false false None.

(** Nothing is held. *)
Definition discharged (d : duty) : Prop := du_slot d = None /\ du_admitted d = None /\ du_reserved d = None /\ du_entry d = None.

Section Contract.
Context (cfg : Config) (r : request).

(** ** Who may call *)

(** The credentials of the path, as the configuration means them. *)
Definition presents (token previous : string) : Prop :=
  (token <> "" /\ hr_header r "Authorization" = "Bearer " +:+ token) \/ (token <> "" /\ previous <> "" /\ hr_header r "Authorization" = "Bearer " +:+ previous).
Definition entitled : Prop :=
  let '(required, previous, username, password) := credentials cfg (hr_path r) in
  (required = "" /\ username = "") \/ presents required previous \/ (username <> "" /\ hr_basicAuth r = Some (username, password)).
Definition fromPeer : Prop :=
  cfg_PeerToken cfg <> "" /\ hr_header r "Spruce-Cluster-ID" = cfg_ClusterID cfg /\
  (hr_header r "Spruce-Peer-Token" = cfg_PeerToken cfg \/ (cfg_PreviousPeerToken cfg <> "" /\ hr_header r "Spruce-Peer-Token" = cfg_PreviousPeerToken cfg)).

(** ** What may be accepted *)

(** A publication of this request within the limits of the configuration. *)
Record publication (m : Message) : Prop := {
  pu_topic : validTopic (m_Topic m) = true;
  pu_key : slen (m_Key m) <= maxHeaders;
  pu_type : exists contentType, m_Headers m = contentHeaders contentType /\ slen contentType <= maxHeaders;
  pu_payload : llen (m_Payload m) <= cfg_MaxMessage cfg;
  pu_new : m_Origin m = "" /\ m_Sequence m = 0;
  pu_life : exists now ttl, (ttl = cfg_DefaultTTL cfg \/ 0 < ttl <= cfg_MaxTTL cfg) /\ m_CreatedAt m = unixMilli now /\ m_ExpiresAt m = unixMilli (now + ttl);
}.

(** A copy that a peer sent. *)
Definition replica (sequenced : bool) (m : Message) : Prop :=
  validTopic (m_Topic m) = true /\ sizeOf m <= cfg_CacheBytes cfg /\ (exists now, m_ExpiresAt m <= unixMilli (now + cfg_MaxTTL cfg)) /\
  (sequenced = true -> m_Origin m <> "" /\ m_Sequence m <> 0).

(** ** Calls *)

(** A publication that is accepted is reserved for a peer first, where it need not be confirmed by one. *)
Definition reservedFor (d : duty) (bytes : Z) : Prop :=
  match du_reserved d with Some (_, n) => n = bytes | None => cfg_Peers cfg = [] \/ ackMode r <> "local" end.
Definition mayPublish (d : duty) : Prop := entitled /\ is_Some (du_admitted d) /\ du_accepted d = [] /\ du_response d = None.

(** An answer says what happened. *)
Definition honest (d : duty) (resp : response) : Prop :=
  match rs_body resp with
  | publishedBody id replicated duplicate =>
    rs_status resp = 202 /\ (ackMode r = "one-peer" -> du_confirmed d = true) /\
    ((exists m, du_accepted d = [m] /\ m_ID m = id /\ du_spread d = true /\ (replicated = true -> du_confirmed d = true)) \/ (du_accepted d = [] /\ duplicate = true))
  | availableBody id replicated copies degraded duplicate =>
    rs_status resp = 202 /\ ackMode r = "available" /\ (replicated = true -> du_confirmed d = true) /\ degraded = bool_decide (copies < llen (cfg_Peers cfg) + 1) /\
    du_spread d = true /\ ((exists m, du_accepted d = [m] /\ m_ID m = id) \/ (du_accepted d = [] /\ duplicate = true))
  | idsBody ids => rs_status resp = 202 /\ ids = m_ID <$> du_accepted d /\ du_spread d = true
  | errorBody code => 400 <= rs_status resp < 600 /\ (du_accepted d = [] \/ (code = "peer_ack_unavailable" /\ ackMode r = "one-peer" /\ du_confirmed d = false))
  | wireBody _ | checkpointsBody _ | frontiersBody _ => fromPeer
  | noBody => du_accepted d = []
  end.

Definition permits {X} (e : service X) (d : duty) : Prop :=
  match e with
  | sNow | sCount _ | sDraining | sReady => True
  | sRespond resp => du_response d = None /\ du_reserved d = None /\ du_entry d = None /\ honest d resp
  | sSlot kind => du_slot d = None
  | sFreeSlot kind => du_slot d = Some kind
  | sAcquire bytes => entitled /\ du_admitted d = None
  | sRelease bytes => du_admitted d = Some bytes
  | sPressured _ _ | sNextID => entitled
  | sBegin key id _ _ => entitled /\ is_Some (du_admitted d) /\ du_entry d = None /\ key = id
  | sEntryID _ | sReplicated _ | sCacheGet _ | sReplicateOne _ | sReplicateAvailable _ => entitled
  | sMarkReplicated _ => entitled /\ du_confirmed d = true
  | sSetExpires e _ => exists key, du_entry d = Some (key, e)
  | sFinish key (Some e) accepted replicated => du_entry d = Some (key, e) /\ (accepted = true <-> du_accepted d <> []) /\ (replicated = true -> du_confirmed d = true)
  | sFinish _ None _ _ => du_entry d = None
  | sWaitReplication _ => mayPublish d /\ du_reserved d = None
  | sReleaseReservation (Some p) bytes => du_reserved d = Some (p, bytes) /\ du_accepted d = []
  | sReleaseReservation None _ => du_reserved d = None
  | sAccept m => mayPublish d /\ publication m /\ reservedFor d (sizeOf m) /\ du_entry d = None
  | sAcceptIdempotent m _ => mayPublish d /\ publication m /\ reservedFor d (sizeOf m) /\ exists e, du_entry d = Some (m_ID m, e)
  | sAcceptBatch messages =>
    (mayPublish d /\ Forall publication messages /\ Forall (fun m => sizeOf m <= cfg_CacheBytes cfg) messages /\ (cfg_Peers cfg = [] \/ exists p, du_reserved d = Some (p, batchBytes messages)))
    \/ (fromPeer /\ Forall (replica false) messages)
  | sEnqueue messages reserved =>
    du_accepted d = messages /\ du_spread d = false /\ match reserved with Some p => du_reserved d = Some (p, batchBytes messages) | None => du_reserved d = None end
  | sMarkUnsafe _ _ => fromPeer
  | sAcceptReplicas messages | sAcceptRepair messages => fromPeer /\ Forall (replica true) messages
  | sBuffered _ | sPage _ _ | sCheckpoints | sFrontiers | sGaps => fromPeer
  | sRemoveAcks ids | sApplyNacks ids => (entitled \/ fromPeer) /\ llen ids <= 1024 /\ Forall (fun id => 0 < slen id <= 64) ids
  | sCheckpointsFor _ => entitled
  | sApplyCheckpoints checkpoints => fromPeer /\ llen checkpoints <= 1024 /\ Forall (fun c => validCheckpoint c = true) checkpoints
  | sBroadcast action a => (entitled \/ fromPeer) /\ 0 < llen (ar_DeliveryIDs a) + llen (ar_Checkpoints a) /\ llen (ar_DeliveryIDs a) <= 1024 /\ llen (ar_Checkpoints a) <= 1024
  | sHas _ => entitled
  | sOther digestHandler => fromPeer
  | sOther _ => entitled
  end.

(** What a call changes. *)
Definition after {X} (e : service X) : X -> duty -> duty :=
  match e in service X return X -> duty -> duty with
  | sRespond resp => fun _ d => d <| du_response := Some resp |>
  | sSlot kind => fun ok d => if ok then d <| du_slot := Some kind |> else d
  | sFreeSlot kind => fun _ d => d <| du_slot := None |>
  | sAcquire bytes => fun ok d => if ok then d <| du_admitted := Some bytes |> else d
  | sRelease _ => fun _ d => d <| du_admitted := None |>
  | sBegin key _ _ _ => fun answer d => match answer with inr (e, true) => d <| du_entry := Some (key, e) |> | _ => d end
  | sFinish _ (Some _) _ _ => fun _ d => d <| du_entry := None |>
  | sWaitReplication bytes => fun p d => match p with Some p => d <| du_reserved := Some (p, bytes) |> | None => d end
  | sReleaseReservation (Some _) _ => fun _ d => d <| du_reserved := None |>
  | sAccept _ | sAcceptIdempotent _ _ => fun answer d => match answer with inr (m, _) => d <| du_accepted := [m] |> | inl _ => d end
  | sAcceptBatch _ => fun answer d => match answer with inr messages => if bool_decide (is_Some (du_admitted d)) then d <| du_accepted := messages |> else d | inl _ => d end
  | sReplicateOne _ => fun ok d => if ok then (d <| du_spread := true |>) <| du_confirmed := true |> else d
  | sReplicateAvailable _ => fun copies d => (d <| du_spread := true |>) <| du_confirmed := bool_decide (1 < copies) |>
  | sEnqueue _ _ => fun _ d => (d <| du_spread := true |>) <| du_reserved := None |>
  | sOther _ => fun _ d => d <| du_response := Some (mkResponse 200 [] noBody) |>
  | _ => fun _ d => d
  end.

(** ** What the components promise *)
Definition sameMessage (m m' : Message) : Prop :=
  m_ID m' = m_ID m /\ m_Topic m' = m_Topic m /\ m_Key m' = m_Key m /\ m_Headers m' = m_Headers m /\ m_Payload m' = m_Payload m /\ sizeOf m' = sizeOf m.

Definition possible {X} (e : service X) : X -> Prop :=
  match e in service X return X -> Prop with
  | sNextID => fun id => slen id <= 64
  | sWaitReplication _ => fun p => cfg_Peers cfg = [] -> p = None
  | sAccept m | sAcceptIdempotent m _ => fun answer => match answer with inr (m', _) => sameMessage m m' | inl _ => True end
  | sAcceptBatch messages => fun answer => match answer with inr messages' => Forall2 sameMessage messages messages' | inl _ => True end
  | sRemoveAcks ids | sCheckpointsFor ids => fun checkpoints => llen checkpoints <= llen ids
  | _ => fun _ => True
  end.

Definition obeys {A} (p : prog A) (d : duty) (Q : A -> duty -> Prop) : Prop :=
  Programs.obeys (@permits) (@after) (fun _ e _ => possible e) p d Q.

Lemma obeys_mono {A} (p : prog A) d (Q R : A -> duty -> Prop) : (forall a d, Q a d -> R a d) -> obeys p d Q -> obeys p d R.
Proof. apply Programs.program_mono. Qed.
Lemma obeys_bind {A B} (p : prog A) (f : A -> prog B) d (Q : B -> duty -> Prop) : obeys p d (fun a d' => obeys (f a) d' Q) -> obeys (pbind p f) d Q.
Proof. apply Programs.program_bind. Qed.
Lemma obeys_call {X} (e : service X) d (Q : X -> duty -> Prop) : permits e d -> (forall x, possible e x -> Q x (after e x d)) -> obeys (call e) d Q.
Proof. intros Hp Hx. split; [exact Hp|exact Hx]. Qed.
Lemma obeys_seq {A B} (p : prog A) (f : A -> prog B) d (P : A -> duty -> Prop) Q : obeys p d P -> (forall a d', P a d' -> obeys (f a) d' Q) -> obeys (pbind p f) d Q.
Proof. apply Programs.program_seq. Qed.
End Contract.

#[global] Arguments obeys cfg r {A} p d Q : simpl never.
#[global] Arguments respond : simpl never.
#[global] Arguments call : simpl never.
#[global] Arguments honest : simpl never.
