(* ===== verification/PublishSpec.v ===== *)
(** * Publishing: what every path of a handler keeps

    Whatever the components answer, a publication gives back what it took, accepts only what
    the limits allow, and answers with what happened. *)
From S2P Require Import Prelude Programs Types Config Metrics GoIO Base64 BatchWire Pending Replication Services Publish Handlers Contracts.
From Stdlib Require Import String.
#[local] Open Scope Z_scope.

Section Spec.
Context `{PublishStd} (cfg : Config) (r : request).
Abbreviation obeys := (obeys cfg r).

(** ** Symbolic execution *)
Lemma obeys_then {X B} (e : service X) (f : X -> prog B) d (Q : B -> duty -> Prop) :
  permits cfg r e d -> (forall x, possible cfg e x -> obeys (f x) (after e x d) Q) -> obeys (pbind (call e) f) d Q.
Proof. intros Hp Hk. apply obeys_bind, obeys_call; [done|]. exact Hk. Qed.

Lemma obeys_count {B} (proj : Metrics -> Z) (St : Setter proj) (f : unit -> prog B) d (Q : B -> duty -> Prop) : obeys (f tt) d Q -> obeys (pbind (count proj) f) d Q.
Proof. intros Hf. apply obeys_then; [done|]. by intros [] _. Qed.

(** A response, at the end of a path. *)
Lemma obeys_respond resp d (Q : unit -> duty -> Prop) :
  du_response d = None -> du_reserved d = None -> du_entry d = None -> honest cfg r d resp -> Q tt (d <| du_response := Some resp |>) -> obeys (respond resp) d Q.
Proof. intros H1 H2 H3 H4 HQ. apply obeys_call; [by split_and!|]. by intros [] _. Qed.

(** Under an admission, nothing accepted yet, nothing else held. *)
Definition working (d : duty) : Prop :=
  is_Some (du_admitted d) /\ du_reserved d = None /\ du_entry d = None /\ du_accepted d = [] /\ du_spread d = false /\ du_confirmed d = false /\ du_response d = None.

(** Answered, and only the admission and the slot are still held. *)
Definition answered (d d' : duty) : Prop :=
  du_slot d' = du_slot d /\ du_admitted d' = du_admitted d /\ du_reserved d' = None /\ du_entry d' = None /\ is_Some (du_response d').

Definition answers (p : prog unit) : Prop := forall d, working d -> obeys p d (fun _ => answered d).

Lemma answers_problem status code headers : 400 <= status < 600 -> answers (respond (problemResponse status code headers)).
Proof. intros Hs d (Ha & Hr & He & Hacc & Hsp & Hc & Hresp). apply obeys_respond; [done..| |by split_and!]. split; [exact Hs|by left]. Qed.
Lemma answers_count (proj : Metrics -> Z) (St : Setter proj) p : answers p -> answers (count proj ;;; p)%prog.
Proof. intros Hp d Hd. apply obeys_count. by apply Hp. Qed.
Lemma answers_if (b : bool) p q : (b = true -> answers p) -> (b = false -> answers q) -> answers (if b then p else q).
Proof. intros Hp Hq. destruct b; auto. Qed.
Lemma answers_now f : (forall now, answers (f now)) -> answers (pbind (call sNow) f).
Proof. intros Hf d Hd. apply obeys_then; [done|]. intros now _. by apply Hf. Qed.
Lemma answers_pressured topic now f : entitled cfg r -> (forall b, answers (f b)) -> answers (pbind (call (sPressured topic now)) f).
Proof. intros He Hf d Hd. apply obeys_then; [done|]. intros b _. by apply Hf. Qed.
Lemma answers_nextID f : entitled cfg r -> (forall id, slen id <= 64 -> answers (f id)) -> answers (pbind (call sNextID) f).
Proof. intros He Hf d Hd. apply obeys_then; [done|]. intros b Hb. by apply Hf. Qed.
End Spec.

Create HintDb answers.
#[export] Hint Resolve answers_problem : answers.
#[export] Hint Extern 1 (_ <= _ < _) => lia : answers.

(** The refusals of a handler. *)
Ltac answers := repeat first
  [ apply answers_count
  | apply answers_problem; lia
  | match goal with |- answers _ _ (problem _ _) => apply answers_problem; lia end
  | match goal with |- answers _ _ (busy _ _) => apply answers_problem; lia end
  | match goal with |- answers _ _ (overloaded _) => unfold overloaded end
  | match goal with |- answers _ _ (acceptProblem _) => unfold acceptProblem end
  | match goal with |- answers _ _ (if ?b then _ else _) => apply answers_if; intros ? end ].

Section Publish.
Context `{PublishStd} (cfg : Config) (r : request).
Hypothesis Hent : entitled cfg r.
Hypothesis Hmax : 0 <= cfg_MaxMessage cfg < 2 ^ 60.
Abbreviation obeys := (obeys cfg r).

(** Owner of an idempotent operation, or not; nothing else is held. *)
Definition owning (key : string) (entry : option loc) (d : duty) : Prop :=
  is_Some (du_admitted d) /\ du_reserved d = None /\ du_entry d = ((fun e => (key, e)) <$> entry) /\ du_accepted d = [] /\ du_spread d = false /\
  du_confirmed d = false /\ du_response d = None.

Lemma batchBytes_one m : sizeOf m < 2 ^ 62 -> batchBytes [m] = sizeOf m.
Proof. intros Hs. pose proof (sizeOf_pos m). unfold batchBytes. cbn [foldl]. apply i64_id. unfold in_i64. change (2 ^ 62) with 4611686018427387904 in Hs. lia. Qed.

Lemma sized_size m : sizeOf (sized m) = sizeOf m.
Proof. unfold sized. pose proof (sizeOf_pos m). unfold sizeOf at 1. cbn. by rewrite bool_decide_true by lia. Qed.

(** The size of a publication is far from the limits of its counters. *)
Lemma publication_size m : publication cfg m -> m_accountedSize m = 0 -> slen (m_ID m) <= 64 -> sizeOf m <= 264 + 64 + 255 + 2 * maxHeaders + 20 + cfg_MaxMessage cfg.
Proof.
  intros [Ht Hk (ct & Hh & Hct) Hp _ _] Ha Hid. unfold sizeOf. rewrite Ha. cbn [bool_decide decide_rel]. rewrite bool_decide_false by lia. unfold rawSize.
  assert (slen (m_Topic m) <= 255). { unfold validTopic in Ht. destruct (_ || _) eqn:E; [done|]. apply orb_false_iff in E as [_ E]. apply Z.ltb_ge in E. lia. }
  assert (msum (fun k v => slen k + slen v + 8) (m_Headers m) <= 20 + maxHeaders).
  { rewrite Hh. unfold contentHeaders. case_bool_decide; [|rewrite msum_empty; unfold maxHeaders; lia]. rewrite <- insert_empty, msum_insert, msum_empty by done. change (slen "content-type") with 12. lia. }
  lia.
Qed.

(** [publishAvailable]: one fresh round of copies, and the answer says how many peers confirmed. *)
Lemma obeys_available m duplicate entry key d : is_Some (du_admitted d) -> du_reserved d = None -> du_entry d = ((fun e => (key, e)) <$> entry) -> du_response d = None ->
  ackMode r = "available" -> (entry <> None -> du_accepted d <> []) ->
  (du_accepted d = [m] \/ (du_accepted d = [] /\ duplicate = true)) ->
  obeys (publishAvailable cfg m duplicate entry key) d (fun _ => answered d).
Proof.
  intros Ha Hr He Hresp Hm Hent' Hacc. unfold publishAvailable. apply obeys_then; [exact Hent|]. intros copies _. cbn [after].
  assert (Hh : forall d', du_accepted d' = du_accepted d -> du_spread d' = true -> du_confirmed d' = bool_decide (1 < copies) ->
    honest cfg r d' (jsonResponse 202 (availableBody (m_ID m) (bool_decide (1 < copies)) copies (bool_decide (copies < llen (cfg_Peers cfg) + 1)) duplicate))).
  { intros d' E1 E2 E3. unfold honest. cbn. rewrite E1, E2, E3. split_and!; [done..|]. destruct Hacc as [Hacc|Hacc]; [left; by exists m|by right]. }
  destruct entry as [e|]; cbn in He.
  - apply obeys_then.
    + cbn. split; [done|]. split; [|done]. split; [intros _; by apply Hent'|done].
    + intros [] _. apply obeys_respond; [done..|by apply Hh|by split_and!].
  - cbn [pbind]. apply obeys_respond; [done..|by apply Hh|by split_and!].
Qed.

(** A publication that is refused after its reservation: everything is given back. *)
Lemma obeys_refused q key entry p bytes d : is_Some (du_admitted d) -> du_reserved d = ((fun p => (p, bytes)) <$> p) -> du_entry d = ((fun e => (key, e)) <$> entry) ->
  du_accepted d = [] -> du_spread d = false -> du_confirmed d = false -> du_response d = None -> answers cfg r q ->
  obeys (call (sReleaseReservation p bytes) ;;; call (sFinish key entry false false) ;;; q)%prog d (fun _ => answered d).
Proof.
  intros Ha Hr He Hacc Hsp Hc Hresp Hq. apply obeys_then; [destruct p; cbn in *; [by split|done]|]. intros [] _. apply obeys_then.
  { destruct p, entry; cbn in *; first [done|split; [done|]; split; [by rewrite Hacc|done]]. }
  intros [] _. eapply obeys_mono; [|apply Hq; destruct p, entry; cbn in *; by split_and!].
  intros [] d' (G1 & G2 & G3 & G4 & G5). destruct p, entry; cbn in *; by split_and!.
Qed.

(** An accepted message is offered to every peer, or confirmed by one, before the answer says so. *)
Lemma obeys_propagate m inserted p entry key d bytes : is_Some (du_admitted d) -> du_reserved d = ((fun p => (p, bytes)) <$> p) -> du_entry d = ((fun e => (key, e)) <$> entry) ->
  du_accepted d = [m] -> du_spread d = false -> du_confirmed d = false -> du_response d = None -> (p <> None -> ackMode r = "local") ->
  (ackMode r = "local" \/ ackMode r = "one-peer" \/ ackMode r = "available") -> sizeOf m < 2 ^ 62 -> bytes = sizeOf m ->
  obeys (propagate cfg (ackMode r) m inserted p entry key) d (fun _ => answered d).
Proof.
  intros Ha Hr He Hacc Hsp Hc Hresp Hp Hmode Hs62 ->. unfold propagate.
  assert (Hfin : forall d' accepted replicated (q : prog unit), du_entry d' = du_entry d -> du_accepted d' = [m] -> accepted = true -> (replicated = true -> du_confirmed d' = true) ->
    obeys q (d' <| du_entry := None |>) (fun _ => answered d) -> obeys (call (sFinish key entry accepted replicated) ;;; q)%prog d' (fun _ => answered d)).
  { intros d' accepted replicated q E1 E2 -> E3 Hq. rewrite He in E1. apply obeys_then; [destruct entry; cbn in *; [by rewrite E2|done]|]. intros [] _.
    destruct entry; [exact Hq|]. cbn in *. by replace d' with (d' <| du_entry := None |>) by (destruct d'; cbn in *; by subst). }
  assert (Hok : forall d' dup replicated, du_slot d' = du_slot d -> du_admitted d' = du_admitted d -> du_reserved d' = None -> du_entry d' = None -> du_accepted d' = [m] -> du_spread d' = true -> du_response d' = None ->
    (replicated = true -> du_confirmed d' = true) -> (ackMode r = "one-peer" -> replicated = true) ->
    obeys (respond (jsonResponse 202 (publishedBody (m_ID m) replicated dup))) d' (fun _ => answered d)).
  { intros d' dup replicated E1 E2 E3 E4 E5 E6 E7 E8 E9. apply obeys_respond; [done..| |by split_and!]. unfold honest. cbn. split; [done|]. split; [by intros; apply E8, E9|]. left. by exists m. }
  destruct (bool_decide_reflect (ackMode r = "available")) as [Hav|Hav].
  { apply obeys_available; [done| |done|done|done|by rewrite Hacc|by left]. destruct p; [|done]. exfalso. assert (ackMode r = "local") by by apply Hp. congruence. }
  destruct (bool_decide_reflect (ackMode r = "one-peer")) as [Hone|Hone]; cbn [andb negb orb].
  - assert (p = None) as -> by (destruct p; [exfalso; assert (ackMode r = "local") by (by apply Hp); congruence|done]). cbn in Hr.
    apply obeys_seq with (P := fun ok d' => d' = if ok : bool then (d <| du_spread := true |>) <| du_confirmed := true |> else d).
    { destruct (bool_decide _); [|done]. apply obeys_call; [exact Hent|]. done. }
    intros [] ? ->; cbn [negb orb andb].
    + cbn [pbind]. apply Hfin; [done..|]. by apply Hok.
    + apply Hfin; [done..|]. apply obeys_respond; [done..| |by split_and!]. unfold honest. cbn. split; [lia|]. by right.
  - cbn [pbind]. apply obeys_then.
    { refine (conj Hacc (conj Hsp _)). destruct p; [|exact Hr]. by rewrite batchBytes_one. }
    intros [] _. apply Hfin; [done..|]. by apply Hok.
Qed.

Lemma obeys_publishMessage m ttl idempotent entry key d : owning key entry d -> publication cfg m -> m_accountedSize m = 0 -> slen (m_ID m) <= 64 ->
  (ackMode r = "local" \/ ackMode r = "one-peer" \/ ackMode r = "available") -> (idempotent = true <-> entry <> None) -> (entry <> None -> key = m_ID m) ->
  obeys (publishMessage cfg r (ackMode r) m ttl idempotent entry key) d (fun _ => answered d).
Proof.
  intros (Ha & Hr & He & Hacc & Hsp & Hc & Hresp) Hpub H0 Hid Hmode Hi Hkey. pose proof (publication_size m Hpub H0 Hid) as Hsize.
  assert (Hs62 : sizeOf m < 2 ^ 62) by (change (2 ^ 62) with 4611686018427387904; change (2 ^ 60) with 1152921504606846976 in Hmax; unfold maxHeaders in Hsize; lia).
  unfold publishMessage. cbv zeta. set (m1 := sized m). assert (Es : sizeOf m1 = sizeOf m) by apply sized_size.
  assert (Hpub1 : publication cfg m1) by (destruct Hpub; by split). assert (Eid : m_ID m1 = m_ID m) by done. rewrite <- Es in Hs62. clearbody m1.
  apply obeys_seq with (P := fun p d1 => d1 = (d <| du_reserved := ((fun p => (p, sizeOf m1)) <$> p) |>) /\ (p <> None -> ackMode r = "local") /\ (cfg_Peers cfg = [] -> p = None)).
  { destruct (bool_decide_reflect (ackMode r = "local")) as [Hl|Hl].
    - apply obeys_call; [by split_and!|]. intros p Hp. split; [|by split]. destruct p; cbn; [done|]. destruct d; cbn in *. by subst.
    - unfold obeys. cbn. split; [|done]. destruct d; cbn in *. by subst. }
  intros p d1 (-> & Hpl & Hpn). set (d1 := d <| du_reserved := _ |>).
  assert (F1 : du_slot d1 = du_slot d /\ du_admitted d1 = du_admitted d /\ du_reserved d1 = ((fun p => (p, sizeOf m1)) <$> p) /\ du_entry d1 = ((fun e => (key, e)) <$> entry) /\
    du_accepted d1 = [] /\ du_spread d1 = false /\ du_confirmed d1 = false /\ du_response d1 = None) by by split_and!.
  clearbody d1. destruct F1 as (F0 & F1 & F2 & F3 & F4 & F5 & F6 & F7). rewrite <- F1 in Ha. clear Hr He Hacc Hsp Hc Hresp.
  assert (Hdone : forall d', answered d1 d' -> answered d d') by (intros d' (G1 & G2 & G3); split; [congruence|]; split; [congruence|done]).
  match goal with |- obeys (if ?b then _ else _) _ _ => destruct b eqn:Eb end.
  { assert (p = None) as -> by (apply andb_true_iff in Eb as [_ Eb]; by apply bool_decide_eq_true in Eb).
    apply (obeys_mono cfg r _ _ (fun _ => answered d1)); [intros _; exact Hdone|]. apply obeys_then; [destruct entry; cbn in *; [split; [done|]; split; [by rewrite F4|done]|done]|]. intros [] _.
    eapply obeys_mono; [|apply (answers_count cfg r mt_Rejected _ (count mt_OverloadRejected ;;; count mt_ReplicationPressureRejected ;;; busy 429 "replication_overloaded")%prog);
      [answers|destruct entry; cbn in *; by split_and!]].
    intros [] d' (G1 & G2 & G3 & G4 & G5). destruct entry; cbn in *; by split_and!. }
  assert (Hres : reservedFor cfg r d1 (sizeOf m1)).
  { unfold reservedFor. rewrite F2. destruct p as [p|]; cbn; [done|]. apply andb_false_iff in Eb as [Eb|Eb]; [|by apply bool_decide_eq_false in Eb].
    apply andb_false_iff in Eb as [Eb|Eb]; apply bool_decide_eq_false in Eb; [by right|]. left. destruct (cfg_Peers cfg); [done|]. rewrite llen_cons in Eb. pose proof (llen_nonneg l). lia. }
  apply obeys_then.
  { destruct idempotent; cbn; (split; [by split_and!|]); (split; [exact Hpub1|]); (split; [exact Hres|]).
    - rewrite F3. destruct entry as [e|]; [|exfalso; by apply (proj1 Hi eq_refl)]. exists e. cbn. by rewrite Eid, Hkey.
    - rewrite F3. destruct entry; [|done]. exfalso. assert (false = true) by by apply Hi. done. }
  intros answer Hans. set (d2 := after _ _ _). assert (Ed2 : d2 = match answer with inr (m, _) => d1 <| du_accepted := [m] |> | inl _ => d1 end) by (unfold d2; by destruct idempotent).
  assert (Hsame : match answer with inr (m2, _) => sameMessage m1 m2 | inl _ => True end) by by destruct idempotent.
  clearbody d2. subst d2. clear Hans. apply (obeys_mono cfg r _ _ (fun _ => answered d1)); [intros _; exact Hdone|].
  destruct answer as [e|[m2 inserted]].
  { apply obeys_refused; [done..|]. answers. }
  assert (Hsz : sizeOf m2 = sizeOf m1) by apply Hsame.
  apply obeys_seq with (P := fun _ d' => d' = d1 <| du_accepted := [m2] |>).
  { destruct entry as [e|]; [|done]. apply obeys_call; [by exists key|]. by intros [] _. }
  intros [] ? ->. apply obeys_seq with (P := fun _ d' => d' = d1 <| du_accepted := [m2] |>).
  { destruct inserted; [|done]. apply obeys_count. apply obeys_call; [done|]. by intros [] _. }
  intros [] ? ->. eapply obeys_mono; [|apply (obeys_propagate _ _ _ _ _ _ (sizeOf m1)); first [by rewrite Hsz|done]]. done.
Qed.

(** ** The message *)
Lemma encodeBytes_len l : 3 * llen (encodeBytes l) <= 4 * llen l + 2.
Proof.
  induction l as [|a|a b|a b c l IH] using list_ind3; cbn [encodeBytes]; [done|by vm_compute|by vm_compute|]. rewrite !llen_cons. lia.
Qed.

Lemma identity_len topic producer key : slen (idempotentMessageID topic producer key) <= 64.
Proof.
  unfold idempotentMessageID. assert (Ei : forall s, slen ("i" +:+ s) = 1 + slen s) by (intros s; unfold slen; change (String.length ("i" +:+ s)) with (S (String.length s)); lia). rewrite Ei. clear Ei.
  pose proof (encodeBytes_len (ps_sha256 (identityText topic producer key))) as Hl. rewrite ps_sha256_len in Hl.
  assert (slen (encode64 (ps_sha256 (identityText topic producer key))) <= 43) by (unfold encode64; rewrite slen_bstring; lia). lia.
Qed.

Lemma newMessage_publication id topic key contentType payload now ttl : validTopic topic = true -> slen key <= maxHeaders -> slen contentType <= maxHeaders ->
  llen payload <= cfg_MaxMessage cfg -> (ttl = cfg_DefaultTTL cfg \/ 0 < ttl <= cfg_MaxTTL cfg) -> publication cfg (newMessage id topic key contentType payload now ttl).
Proof. intros Ht Hk Hc Hp Hl. split; [done|done|by exists contentType|done|done|by exists now, ttl]. Qed.

Lemma parseTTL_spec value ttl : parseTTL cfg value = Some ttl -> ttl = cfg_DefaultTTL cfg \/ 0 < ttl <= cfg_MaxTTL cfg.
Proof.
  unfold parseTTL. case_bool_decide; [intros [= <-]; by left|]. destruct (ps_parseDuration value) as [t|]; [|done]. cbn.
  destruct (bool_decide (t <= 0) || _) eqn:E; [done|]. intros [= <-]. right. apply orb_false_iff in E as [E1 E2]. apply bool_decide_eq_false in E1, E2. lia.
Qed.

(** The answer to a repeated operation. *)
Lemma answers_duplicate e : (ackMode r = "local" \/ ackMode r = "one-peer" \/ ackMode r = "available") -> answers cfg r (publishDuplicate cfg (ackMode r) e).
Proof.
  intros Hmode d Hd. pose proof Hd as (Ha & Hr & He & Hacc & Hsp & Hc & Hresp). unfold publishDuplicate. apply obeys_then; [exact Hent|]. intros id _. cbn [after].
  destruct (bool_decide_reflect (ackMode r = "available")) as [Hav|Hav].
  { apply obeys_then; [exact Hent|]. intros [m|] _; [|by apply answers_problem]. apply obeys_available; [done..| |by right]. by intros ?. }
  apply obeys_then; [exact Hent|]. intros replicated _. destruct (bool_decide_reflect (ackMode r = "one-peer")) as [Hone|Hone].
  - apply obeys_then; [exact Hent|]. intros m _. cbn [after].
    apply obeys_seq with (P := fun ok d' => d' = if ok : bool then (d <| du_spread := true |>) <| du_confirmed := true |> else d).
    { destruct m as [m|]; [|done]. apply obeys_call; [exact Hent|]. done. }
    intros [] ? ->; cbn [negb]; [|by apply answers_problem]. apply obeys_then; [by split|]. intros [] _. apply obeys_respond; [done..| |by split_and!].
    unfold honest. cbn. split; [done|]. split; [done|]. by right.
  - apply obeys_respond; [done..| |by split_and!]. unfold honest. cbn. split; [done|]. split; [done|]. by right.
Qed.

Lemma ackMode_cases : negb (bool_decide (ackMode r = "local") || bool_decide (ackMode r = "one-peer") || bool_decide (ackMode r = "available")) = false ->
  ackMode r = "local" \/ ackMode r = "one-peer" \/ ackMode r = "available".
Proof. intros E. apply negb_false_iff, orb_true_iff in E as [[E|E]%orb_true_iff|E]; apply bool_decide_eq_true in E; auto. Qed.

Lemma answers_publish topic : answers cfg r (publishAdmitted cfg r topic).
Proof.
  unfold publishAdmitted. cbv zeta. apply answers_if; intros E1; [answers|]. apply answers_if; intros E2; [answers|]. apply answers_now. intros now0. apply answers_pressured; [exact Hent|]. intros pressured.
  apply answers_if; intros _; [answers|]. apply answers_if; intros E3; [answers|]. apply answers_if; intros E4; [answers|]. apply answers_if; intros E5; [answers|]. apply answers_if; intros E6; [answers|].
  destruct (parseTTL cfg (hr_header r "Spruce-TTL")) as [ttl|] eqn:E7; [|answers]. apply parseTTL_spec in E7. apply ackMode_cases in E4. apply negb_false_iff in E2.
  apply orb_false_iff in E3 as [E3 E3']. apply bool_decide_eq_false in E3, E3', E5.
  apply answers_now. intros now. apply answers_nextID; [exact Hent|]. intros id Hid.
  assert (Hpub : forall id, publication cfg (newMessage id topic (hr_header r "Spruce-Key") (hr_header r "Content-Type") (limitReader (cfg_MaxMessage cfg + 1) (hr_body r)) now ttl)).
  { intros id'. apply newMessage_publication; [done|lia|lia|lia|done]. }
  apply answers_if; intros E8.
  - intros d (Ha & Hr & He & Hacc & Hsp & Hc & Hresp). apply obeys_then; [by split_and!|]. intros answer _. destruct answer as [e|[e owner]].
    + eapply (answers_if cfg r); [intros _; answers|intros _; answers|]. by split_and!.
    + destruct owner; cbn [negb]; [|by apply answers_duplicate; [done|split_and!]].
      eapply obeys_mono; [|apply obeys_publishMessage; [|apply Hpub|done|apply identity_len|done|done|done]; by split_and!]. done.
  - intros d (Ha & Hr & He & Hacc & Hsp & Hc & Hresp). apply obeys_publishMessage; [by split_and!|apply Hpub|done|done|done|done|done].
Qed.

(** ** Batches *)
Lemma readEntry_status v2 maxMessage total bs p : readEntry v2 maxMessage total bs = Return p -> 400 <= pb_status p < 600.
Proof.
  unfold readEntry, readKey. intros E. repeat (case_match; simplify_eq; try (cbn; lia)).
Qed.

Lemma readEntries_status n v2 maxMessage : forall total bs p, readEntries n v2 maxMessage total bs = inl p -> 400 <= pb_status p < 600.
Proof.
  induction n as [|n IH]; intros total bs p; cbn [readEntries]; [done|]. destruct (readEntry _ _ _ _) as [q| |key payload total' b1] eqn:E; [|done|].
  - intros [= <-]. by apply readEntry_status in E.
  - destruct (readEntries n _ _ _ b1) as [q|[l b2]] eqn:E2; [|done]. intros [= <-]. by apply IH in E2.
Qed.

Lemma decodeBatch_status v2 maxMessage b p : decodeBatch v2 maxMessage b = inl p -> 400 <= pb_status p < 600.
Proof.
  unfold decodeBatch. destruct (readEntries _ _ _ _ _) as [q|[l rest]] eqn:E; [intros [= <-]; by apply readEntries_status in E|].
  case_match; [intros [= <-]; cbn; lia|]. case_match; [intros [= <-]; cbn; lia|done].
Qed.

Lemma obeys_batchMessages v2 topic key contentType now ttl d (l : list (string * list byte)) : validTopic topic = true -> slen key <= maxHeaders -> slen contentType <= maxHeaders ->
  Forall (fun e => llen e.2 <= cfg_MaxMessage cfg /\ slen e.1 <= maxHeaders) l -> (ttl = cfg_DefaultTTL cfg \/ 0 < ttl <= cfg_MaxTTL cfg) ->
  obeys (batchMessages cfg v2 topic key contentType now ttl l) d (fun answer d' => d' = d /\ match answer with
    | Some messages => List.length messages = List.length l /\ Forall (publication cfg) messages /\ Forall (fun m => sizeOf m <= cfg_CacheBytes cfg) messages
    | None => True end).
Proof.
  intros Ht Hk Hc Hl Hlife. induction Hl as [|[k p] l [Hp Hk'] Hl IH]; cbn [batchMessages]; [unfold obeys; cbn; by split_and!|]. cbn in Hp, Hk'.
  apply obeys_then; [exact Hent|]. intros id _. cbv zeta. set (m := sized _). assert (Hm : publication cfg m).
  { assert (Hn : publication cfg (newMessage id topic (if v2 then k else key) contentType p now ttl)) by (apply newMessage_publication; [done|by destruct v2|done..]).
    destruct Hn. by split. }
  clearbody m. destruct (bool_decide_reflect (cfg_CacheBytes cfg < sizeOf m)) as [Hbig|Hfit]; [unfold obeys; cbn; done|].
  eapply obeys_seq; [exact IH|]. intros [messages|] d' [-> Hms]; unfold obeys; cbn; (split; [done|]); [|done].
  destruct Hms as (E1 & E2 & E3). split; [by rewrite E1|]. split; [by constructor|]. constructor; [lia|done].
Qed.

Lemma obeys_countMessages messages d : obeys (countMessages messages) d (fun _ d' => d' = d).
Proof.
  induction messages as [|m messages IH]; cbn [countMessages]; [done|]. apply obeys_count. apply obeys_then; [done|]. by intros [] _.
Qed.

Lemma same_batchBytes messages messages' : Forall2 sameMessage messages messages' -> batchBytes messages' = batchBytes messages.
Proof.
  unfold batchBytes. generalize 0. intros acc F. revert acc. induction F as [|m m' l l' Hm _ IH]; intros acc; [done|]. cbn [foldl].
  assert (sizeOf m' = sizeOf m) as -> by apply Hm. by rewrite IH.
Qed.

Lemma answers_decoded topic key contentType v2 ttl (l : list (string * list byte)) : validTopic topic = true -> slen key <= maxHeaders -> slen contentType <= maxHeaders ->
  Forall (fun e => llen e.2 <= cfg_MaxMessage cfg /\ slen e.1 <= maxHeaders) l -> (ttl = cfg_DefaultTTL cfg \/ 0 < ttl <= cfg_MaxTTL cfg) -> l <> [] ->
  answers cfg r (publishDecoded cfg topic key contentType v2 ttl l).
Proof.
  intros Ht Hk Hc Hl Hlife Hne. unfold publishDecoded. apply answers_now. intros now d Hd. eapply obeys_seq; [by apply obeys_batchMessages|].
  intros [messages|] d' [-> Hms]; [|by apply answers_problem; [lia|]]. destruct Hms as (El & Hpub & Hfit). destruct Hd as (Ha & Hr & He & Hacc & Hsp & Hcf & Hresp). cbv zeta.
  apply obeys_then; [by split_and!|]. intros p Hp. cbn [after].
  set (d1 := match p with Some _ => _ | None => _ end). assert (F : du_slot d1 = du_slot d /\ du_admitted d1 = du_admitted d /\ du_reserved d1 = ((fun p => (p, batchBytes messages)) <$> p) /\ du_entry d1 = None /\
    du_accepted d1 = [] /\ du_spread d1 = false /\ du_confirmed d1 = false /\ du_response d1 = None) by (unfold d1; destruct p; by split_and!).
  clearbody d1. destruct F as (F0 & F1 & F2 & F3 & F4 & F5 & F6 & F7). rewrite <- F1 in Ha.
  apply (obeys_mono cfg r _ _ (fun _ => answered d1)); [intros _ d' (G1 & G2 & G3); split; [congruence|]; split; [congruence|done]|].
  match goal with |- obeys (if ?b then _ else _) _ _ => destruct b eqn:Eb end.
  { assert (p = None) as -> by (apply andb_true_iff in Eb as [_ Eb]; by apply bool_decide_eq_true in Eb).
    apply (answers_count cfg r mt_Rejected _ (count mt_OverloadRejected ;;; count mt_ReplicationPressureRejected ;;; busy 429 "replication_overloaded")%prog); [answers|by split_and!]. }
  apply obeys_then.
  { left. split; [by split_and!|]. split; [exact Hpub|]. split; [exact Hfit|]. rewrite F2. destruct p as [p|]; [right; by exists p|left].
    apply andb_false_iff in Eb as [Eb|Eb]; [|by apply bool_decide_eq_false in Eb]. apply bool_decide_eq_false in Eb. destruct (cfg_Peers cfg) as [|x xs]; [done|]. rewrite llen_cons in Eb. pose proof (llen_nonneg xs). lia. }
  intros [e|messages'] Hans; cbn [after].
  - apply obeys_then; [destruct p; cbn in *; [by split|done]|]. intros [] _.
    eapply obeys_mono; [|eapply (answers_if cfg r); [intros _; answers|intros _; answers|]; destruct p; cbn in *; by split_and!].
    intros [] d' (G1 & G2 & G3 & G4 & G5). destruct p; cbn in *; by split_and!.
  - rewrite bool_decide_true by done. cbn in Hans. eapply obeys_seq; [apply obeys_countMessages|]. intros [] ? ->. apply obeys_then.
    { refine (conj eq_refl (conj F5 _)). rewrite (same_batchBytes _ _ Hans). destruct p; exact F2. }
    intros [] _. apply obeys_respond; [done..| |by split_and!]. unfold honest. cbn. by split_and!.
Qed.

Lemma answers_publishBatch topic : answers cfg r (publishBatchAdmitted cfg r topic).
Proof.
  unfold publishBatchAdmitted. cbv zeta. apply answers_if; intros E1; [answers|]. apply answers_if; intros E2; [answers|]. apply answers_now. intros now0. apply answers_pressured; [exact Hent|]. intros pressured.
  apply answers_if; intros _; [answers|]. apply answers_if; intros E3; [answers|]. apply answers_if; intros E4; [answers|]. apply answers_if; intros E5; [answers|].
  destruct (parseTTL cfg (hr_header r "Spruce-TTL")) as [ttl|] eqn:E7; [|answers]. apply parseTTL_spec in E7. apply answers_if; intros E6; [answers|].
  apply negb_false_iff in E2. apply orb_false_iff in E3 as [E3 E3']. apply bool_decide_eq_false in E3, E3'.
  destruct (decodeBatch _ _ _) as [p|l] eqn:E8.
  - apply decodeBatch_status in E8. intros d Hd. eapply obeys_seq with (P := fun _ d' => d' = d).
    { destruct (pb_rejected p); [|done]. by apply obeys_call. }
    intros [] ? ->. by apply answers_problem.
  - apply decodeBatch_bounds in E8 as (Hn & _ & Hl & _). apply answers_decoded; [done|lia|lia|done|done|]. intros ->. change (llen []) with 0 in Hn. lia.
Qed.

(** ** The whole handlers *)

(** Nothing held by the publication, nothing done. *)
Definition ready (d : duty) : Prop :=
  du_admitted d = None /\ du_reserved d = None /\ du_entry d = None /\ du_accepted d = [] /\ du_spread d = false /\ du_confirmed d = false /\ du_response d = None.

Lemma obeys_admitted bytes p d : ready d -> answers cfg r p -> obeys (admitted bytes p) d (fun _ => answered d).
Proof.
  intros (Ha & Hr & He & Hacc & Hsp & Hc & Hresp) Hp. unfold admitted. apply obeys_then; [by split|]. intros [] _; cbn [after negb].
  - eapply obeys_seq; [apply Hp; by split_and!|]. intros [] d' (G1 & G2 & G3 & G4 & G5). cbn in G1, G2. apply obeys_call; [done|]. intros [] _. by split_and!.
  - unfold overloaded. do 2 apply obeys_count. apply obeys_respond; [done..| |by split_and!]. unfold honest. cbn. split; [lia|by left].
Qed.

Lemma obeys_observing p d : obeys p d (fun _ => answered d) -> obeys (observing p) d (fun _ => answered d).
Proof.
  intros Hp. unfold observing. apply obeys_then; [done|]. intros started _. eapply obeys_seq; [exact Hp|]. intros [] d' Hd. apply obeys_then; [done|]. intros ended _.
  apply obeys_call; [done|]. by intros [] _.
Qed.

Lemma obeys_publish topic d : ready d -> obeys (publish cfg r topic) d (fun _ => answered d).
Proof. intros Hd. apply obeys_observing, obeys_admitted; [done|apply answers_publish]. Qed.
Lemma obeys_publishBatch topic d : ready d -> obeys (publishBatch cfg r topic) d (fun _ => answered d).
Proof. intros Hd. apply obeys_observing, obeys_admitted; [done|apply answers_publishBatch]. Qed.
End Publish.
