(* ===== verification/ServeSpec.v ===== *)
(** * The gate and the handlers of peers: what every path keeps *)
From S2P Require Import Prelude Programs Types Config Metrics GoIO Base64 Wire BatchWire Pending Replication Services Publish Handlers Contracts PublishSpec.
From Stdlib Require Import String Ascii.
#[local] Open Scope Z_scope.

(** ** Strings *)
Lemma substring_all s : String.substring 0 (String.length s) s = s.
Proof. induction s as [|c s IH]; cbn; [done|by rewrite IH]. Qed.

Lemma substring_drop p s : String.substring (String.length p) (String.length (p +:+ s) - String.length p) (p +:+ s) = s.
Proof.
  induction p as [|a p IH].
  - change (String.substring 0 (String.length s - 0) s = s). rewrite Nat.sub_0_r. apply substring_all.
  - exact IH.
Qed.

Lemma hasPrefix_app p s : hasPrefix (p +:+ s) p = true.
Proof. unfold hasPrefix. induction p as [|a p IH]; [by destruct s|]. change ((if ascii_dec a a then String.prefix p (p +:+ s) else false) = true). destruct (ascii_dec a a); [exact IH|congruence]. Qed.

Lemma hasPrefix_split s p : hasPrefix s p = true -> exists t, s = p +:+ t.
Proof.
  unfold hasPrefix. revert s. induction p as [|a p IH]; intros s; [by exists s|]. destruct s as [|c s]; [done|]. change ((if ascii_dec a c then String.prefix p s else false) = true -> exists t, String c s = String a p +:+ t). destruct (ascii_dec a c) as [<-|]; [|done].
  intros [t ->]%IH. by exists t.
Qed.

Lemma hasPrefix_trim s p : hasPrefix s p = true -> s = p +:+ trimPrefix s p.
Proof. intros Hp. unfold trimPrefix. rewrite Hp. destruct (hasPrefix_split _ _ Hp) as [t ->]. by rewrite substring_drop. Qed.

Fixpoint joinPath (parts : list string) : string :=
  match parts with
  | [] => ""
  | [p] => p
  | p :: parts => p +:+ "/" +:+ joinPath parts
  end.

Lemma splitPath_ne part s : splitPath part s <> [].
Proof. revert part. induction s as [|c s IH]; intros part; cbn; [done|]. case_bool_decide; [done|apply IH]. Qed.

Lemma splitPath_join s : forall part, joinPath (splitPath part s) = part +:+ s.
Proof.
  assert (Hnil : forall p, p +:+ "" = p) by (intros p; induction p as [|a p IHp]; [done|]; change (String a (p +:+ "") = String a p); by rewrite IHp).
  assert (Happ : forall p q t, (p +:+ q) +:+ t = p +:+ (q +:+ t)) by (intros p q t; induction p as [|a p IHp]; [done|]; change (String a ((p +:+ q) +:+ t) = String a (p +:+ (q +:+ t))); by rewrite IHp).
  induction s as [|c s IH]; intros part; cbn [splitPath]; [symmetry; apply Hnil|]. destruct (bool_decide_reflect (c = "/"%char)) as [->|Hc].
  - destruct (splitPath "" s) as [|q parts] eqn:E; [by apply splitPath_ne in E|]. change (part +:+ "/" +:+ joinPath (q :: parts) = part +:+ String "/" s). rewrite <- E, IH. done.
  - rewrite IH, Happ. done.
Qed.

Lemma wildcard_path before suffix path x : wildcard before suffix path = Some x -> path = joinPath (before ++ x :: suffix).
Proof.
  unfold wildcard. set (parts := splitPath "" path). destruct (_ && _) eqn:E; [|done]. apply andb_true_iff in E as [E1 E2]. apply bool_decide_eq_true in E1, E2.
  destruct (parts !! List.length before) as [y|] eqn:Ey; [|done]. cbn. case_bool_decide; [done|]. intros [= <-].
  rewrite <- E1 at 1. rewrite <- E2. rewrite take_drop_middle by done. symmetry. apply (splitPath_join path "").
Qed.

(** ** Credentials *)
Lemma tokenEqual_spec provided expected : tokenEqual provided expected = true <-> expected <> "" /\ provided = expected.
Proof.
  unfold tokenEqual. rewrite !andb_true_iff, !bool_decide_eq_true. split; [tauto|]. intros [H1 ->]. tauto.
Qed.

Section Gate.
Context (cfg : Config) (r : request).

Lemma allowed_spec required previous username password : allowed r required previous username password = true ->
  presents r required previous \/ (username <> "" /\ hr_basicAuth r = Some (username, password)).
Proof.
  unfold allowed. cbv zeta. intros [E|E]%orb_true_iff.
  - left. apply andb_true_iff in E as [E E2]. apply andb_true_iff in E as [E1 E3]. apply bool_decide_eq_true in E1. apply hasPrefix_trim in E3. unfold presents.
    apply orb_true_iff in E2 as [E2|E2]; apply tokenEqual_spec in E2 as [E2 Et]; rewrite Et in E3; [by left|by right].
  - right. apply andb_true_iff in E as [E1 E2]. apply bool_decide_eq_true in E1. split; [done|]. destruct (hr_basicAuth r) as [[u p]|]; [|done].
    rewrite !andb_true_iff, !bool_decide_eq_true in E2. by destruct E2 as [[_ ->] ->].
Qed.

(** The gate lets in exactly the entitled. *)
Lemma gate_spec : let '(required, previous, username, password) := credentials cfg (hr_path r) in
  ((bool_decide (required <> "") || bool_decide (username <> "")) && negb (allowed r required previous username password)) = false -> entitled cfg r.
Proof.
  unfold entitled. destruct (credentials cfg (hr_path r)) as [[[required previous] username] password]. intros E. apply andb_false_iff in E as [E|E].
  - apply orb_false_iff in E as [E1 E2]. apply bool_decide_eq_false in E1, E2. left. split; by apply dec_stable.
  - apply negb_false_iff in E. right. by apply allowed_spec.
Qed.
End Gate.

Section Settles.
Context `{PublishStd} `{AckJSON} `{MapRange} (cfg : Config) (r : request).
Abbreviation obeys := (obeys cfg r).

(** From a duty with nothing held but the slot, to an answer. *)
Definition settles (p : prog unit) : Prop := forall d, ready d -> obeys p d (fun _ => answered d).

Lemma settles_respond resp : (forall d, ready d -> honest cfg r d resp) -> settles (respond resp).
Proof. intros Hh d Hd. pose proof Hd as (Ha & Hr & He & Hacc & Hsp & Hc & Hresp). apply obeys_respond; [done..|by apply Hh|by split_and!]. Qed.
Lemma settles_problem status code headers : 400 <= status < 600 -> settles (respond (problemResponse status code headers)).
Proof. intros Hs. apply settles_respond. intros d Hd. split; [exact Hs|left; apply Hd]. Qed.
Lemma settles_empty status headers : settles (respond (mkResponse status headers noBody)).
Proof. apply settles_respond. intros d Hd. apply Hd. Qed.
Lemma settles_then {X} (e : service X) (f : X -> prog unit) :
  (forall d, ready d -> permits cfg r e d) -> (forall x d, ready d -> after e x d = d) -> (forall x, possible cfg e x -> settles (f x)) -> settles (pbind (call e) f).
Proof. intros Hp Ha Hf d Hd. apply obeys_then; [by apply Hp|]. intros x Hx. rewrite Ha by done. by apply Hf. Qed.
Lemma settles_count (proj : Metrics -> Z) (St : Setter proj) (p : prog unit) : settles p -> settles (count proj ;;; p)%prog.
Proof. intros Hp d Hd. apply obeys_count. by apply Hp. Qed.
Lemma settles_if (b : bool) (p q : prog unit) : (b = true -> settles p) -> (b = false -> settles q) -> settles (if b then p else q).
Proof. destruct b; auto. Qed.
Lemma settles_other h : (match h with digestHandler => fromPeer cfg r | _ => entitled cfg r end) -> settles (call (sOther h)).
Proof. intros Hh d (Ha & Hr & He & Hacc & Hsp & Hc & Hresp). apply obeys_call; [destruct h; exact Hh|]. intros [] _. by split_and!. Qed.
(** A part of a handler that answers nothing, and leaves the duty as it was. *)
Definition keeps {A} (p : prog A) (P : A -> Prop) : Prop := forall d, ready d -> obeys p d (fun a d' => d' = d /\ P a).
Lemma settles_seq {A} (p : prog A) (P : A -> Prop) (f : A -> prog unit) : keeps p P -> (forall a, P a -> settles (f a)) -> settles (pbind p f).
Proof. intros Hp Hf d Hd. eapply obeys_seq; [by apply Hp|]. intros a d' [-> Ha]. by apply Hf. Qed.

(** ** The peers' token *)
Lemma keeps_peerAllowed : keeps (peerAllowed cfg r) (fun ok => ok = true -> fromPeer cfg r).
Proof.
  intros d Hd. unfold peerAllowed. cbv zeta. destruct (_ || _) eqn:E; [apply obeys_count; unfold Contracts.obeys; cbn; done|].
  apply orb_false_iff in E as [E1 E2]. apply bool_decide_eq_false in E1.
  apply obeys_seq with (P := fun _ d' => d' = d).
  { destruct (bool_decide (hr_header r "Spruce-Cluster-ID" = _)); [done|]. apply obeys_call; [done|]. by intros [] _. }
  intros [] ? ->. split; [done|]. intros Ec. apply bool_decide_eq_true in Ec. split; [done|]. split; [done|].
  apply andb_false_iff in E2 as [E2|E2]; apply negb_false_iff, tokenEqual_spec in E2 as [E2 ->]; [by left|by right].
Qed.

Lemma settles_forPeer p : (fromPeer cfg r -> settles p) -> settles (forPeer cfg r p).
Proof.
  intros Hp. unfold forPeer. eapply settles_seq; [apply keeps_peerAllowed|]. intros [] Ha; cbn [negb]; [by apply Hp, Ha|]. apply settles_problem. lia.
Qed.
End Settles.

Create HintDb settles.
#[export] Hint Resolve settles_problem settles_empty settles_respond : settles.

Ltac settles := repeat first
  [ apply settles_problem; lia
  | match goal with |- settles _ _ (problem _ _) => apply settles_problem; lia end
  | match goal with |- settles _ _ (busy _ _) => apply settles_problem; lia end
  | apply settles_empty
  | apply settles_count
  | match goal with |- settles _ _ (if ?b then _ else _) => apply settles_if; intros ? end ].

Section Handlers.
Context `{PublishStd} `{AckJSON} `{MapRange} (cfg : Config) (r : request).

(** ** Acknowledgements *)
Lemma validAck_spec a : validAckRequest a = true ->
  llen (ar_DeliveryIDs a) <= 1024 /\ llen (ar_Checkpoints a) <= 1024 /\ 0 < llen (ar_DeliveryIDs a) + llen (ar_Checkpoints a) /\
  Forall (fun id => 0 < slen id <= 64) (ar_DeliveryIDs a) /\ Forall (fun c => validCheckpoint c = true) (ar_Checkpoints a).
Proof.
  unfold validAckRequest. intros E. apply andb_true_iff in E as [E E3]. apply andb_true_iff in E as [E1 E2]. apply negb_true_iff, orb_false_iff in E1 as [E1 E1c]. apply orb_false_iff in E1 as [E1 E1b].
  apply bool_decide_eq_false in E1, E1b, E1c. pose proof (llen_nonneg (ar_DeliveryIDs a)). pose proof (llen_nonneg (ar_Checkpoints a)). split_and!; [lia|lia|lia| |].
  - apply Forall_forall. intros id Hin%list_elem_of_In. rewrite forallb_forall in E2. specialize (E2 id Hin). unfold validID in E2. apply andb_true_iff in E2 as [A B]. apply bool_decide_eq_true in A, B. done.
  - apply Forall_forall. intros c Hin%list_elem_of_In. rewrite forallb_forall in E3. by apply E3.
Qed.

Lemma decodeAck_spec bs a : decodeAckRequest bs = Some a -> validAckRequest a = true.
Proof.
  unfold decodeAckRequest. destruct (aj_decode _) as [[x ended]|]; [|done]. cbn. destruct (validAckRequest x) eqn:E; [|done]. destruct ended; [|done]. by intros [= <-].
Qed.

Lemma settles_ack boot : entitled cfg r -> settles cfg r (ack boot r).
Proof.
  intros He. unfold ack. destruct (decodeAckRequest (hr_body r)) as [a|] eqn:E; [|settles]. apply decodeAck_spec, validAck_spec in E as (E1 & E2 & E3 & E4 & E5).
  apply settles_if; intros Ene; [settles|]. apply bool_decide_eq_false in Ene. apply settles_if; intros _.
  - apply settles_then; [intros d _; split; [by left|done]|done|]. intros checkpoints Hn. cbn in Hn.
    apply (settles_seq _ _ _ (fun _ => True)); [|intros _ _; settles]. intros d Hd. destruct (bool_decide_reflect (checkpoints = [])) as [->|Hne]; cbn [negb]; [done|].
    apply obeys_call; [|done]. cbn. split; [by left|]. change (llen []) with 0. assert (0 < llen checkpoints) by (destruct checkpoints; [done|rewrite llen_cons; pose proof (llen_nonneg checkpoints); lia]). lia.
  - apply settles_then; [done|done|]. intros checkpoints Hn. cbn in Hn. apply settles_then; [|done|].
    { intros d _. cbn. split; [by left|]. assert (0 < llen (ar_DeliveryIDs a)) by (destruct (ar_DeliveryIDs a) as [|x xs]; [done|rewrite llen_cons; pose proof (llen_nonneg xs); lia]). pose proof (llen_nonneg checkpoints). lia. }
    intros ok _. apply settles_if; intros _; [settles|]. apply settles_then; [intros d _; split; [by left|done]|done|]. intros ? _. settles.
Qed.

Lemma settles_nack : entitled cfg r -> settles cfg r (nack r).
Proof.
  intros He. unfold nack. destruct (decodeAckRequest (hr_body r)) as [a|] eqn:E; [|settles]. apply decodeAck_spec, validAck_spec in E as (E1 & E2 & E3 & E4 & E5).
  apply settles_if; intros _; [settles|]. apply settles_then; [intros d _; split; [by left|done]|done|]. intros [] _.
  apply settles_then; [intros d _; split; [by left|done]|done|]. intros ok _. settles.
Qed.

Lemma settles_internalAck : settles cfg r (internalAck cfg r).
Proof.
  apply settles_forPeer. intros Hp. destruct (decodeAckRequest (hr_body r)) as [a|] eqn:E; [|settles]. apply decodeAck_spec, validAck_spec in E as (E1 & E2 & E3 & E4 & E5).
  apply settles_then; [intros d _; split; [by right|done]|done|]. intros derived Hn. cbn in Hn.
  apply (settles_seq _ _ _ (fun _ => True)).
  - intros d Hd. destruct (bool_decide_reflect (derived = [])) as [->|Hne]; cbn [negb]; [done|]. apply obeys_call; [|done]. cbn. split; [by right|].
    change (llen []) with 0. assert (0 < llen derived) by (destruct derived; [done|rewrite llen_cons; pose proof (llen_nonneg derived); lia]). lia.
  - intros _ _. apply settles_then; [done|done|]. intros [] _. settles.
Qed.

Lemma settles_internalNack : settles cfg r (internalNack cfg r).
Proof.
  apply settles_forPeer. intros Hp. destruct (decodeAckRequest (hr_body r)) as [a|] eqn:E; [|settles]. apply decodeAck_spec, validAck_spec in E as (E1 & E2 & E3 & E4 & E5).
  apply settles_if; intros _; [settles|]. apply settles_then; [intros d _; split; [by right|done]|done|]. intros [] _. settles.
Qed.

(** ** Copies from peers *)
Lemma keeps_markLegacy (messages : list Message) : fromPeer cfg r -> keeps cfg r (markLegacy messages) (fun _ => True).
Proof.
  intros Hp. induction messages as [|m messages IH]; intros d Hd; cbn [markLegacy]; [done|]. apply obeys_then; [exact Hp|]. intros [] _. by apply IH.
Qed.

Lemma keeps_validBatch v2 (messages : list Message) : keeps cfg r (validBatch cfg v2 messages) (fun ok => ok = true -> Forall (replica cfg v2) messages).
Proof.
  induction messages as [|m messages IH]; intros d Hd; cbn [validBatch]; [done|]. destruct (validTopic (m_Topic m)) eqn:Et; cbn [negb]; [|done].
  apply obeys_then; [done|]. intros now _. destruct (_ || _) eqn:E; [done|]. eapply obeys_mono; [|by apply IH]. cbn. intros ok d' [-> Hok]. split; [done|]. intros Ho.
  apply orb_false_iff in E as [E E3]. apply orb_false_iff in E as [E1 E2]. apply bool_decide_eq_false in E1, E2. constructor; [|by apply Hok].
  split; [done|]. split; [lia|]. split; [exists now; lia|]. intros ->. cbn in E3. apply orb_false_iff in E3 as [E3 E4]. by apply bool_decide_eq_false in E3, E4.
Qed.

Lemma replica_live v2 now (messages : list Message) : Forall (replica cfg v2) messages ->
  Forall (replica cfg v2) (List.filter (fun m => bool_decide (now < m_ExpiresAt m)) (sized <$> messages)).
Proof.
  intros F. rewrite !Forall_forall in *. intros m Hm. apply list_elem_of_In, List.filter_In in Hm as [Hm _]. apply list_elem_of_In, list_elem_of_fmap in Hm as (x & -> & Hx).
  destruct (F x Hx) as (H1' & H2' & H3' & H4'). split; [done|]. split; [by rewrite sized_size|done].
Qed.

Lemma settles_replicaAnswer err buffered : settles cfg r (replicaAnswer err buffered).
Proof. destruct err as [e|]; cbn; [|settles]. unfold replicaProblem. settles. Qed.

Lemma settles_replicate : settles cfg r (replicate cfg r).
Proof.
  apply settles_forPeer. intros Hp. cbv zeta. set (v2 := bool_decide (hr_header r "Spruce-Peer-Version" = "2")). destruct (if v2 then _ else _) as [e|[messages rest]]; [settles|].
  apply settles_then; [done|done|]. intros now _. eapply (settles_seq _ _ _ (fun _ => True)).
  { destruct v2; cbn [negb]; [done|by apply keeps_markLegacy]. }
  intros _ _. eapply settles_seq; [apply keeps_validBatch|]. intros ok Hok. destruct ok; cbn [negb]; [|settles]. pose proof (replica_live _ (unixMilli now) _ (Hok eq_refl)) as F.
  apply settles_if; intros _.
  - destruct v2; cbn [negb]; [|settles]. apply settles_then; [by split|done|]. intros err _. apply settles_replicaAnswer.
  - destruct v2.
    + apply settles_then; [by split|done|]. intros err _. apply settles_then; [done|done|]. intros buffered _. apply settles_replicaAnswer.
    + apply settles_then; [intros d _; right; by split| |].
      * intros [e|ms] d (Ha & _); cbn [after]; [done|]. rewrite bool_decide_false; [done|]. rewrite Ha. by intros [? ?].
      * intros answer _. apply settles_replicaAnswer.
Qed.

(** ** What peers read *)
Lemma settles_peerBody resp : fromPeer cfg r -> (match rs_body resp with wireBody _ | checkpointsBody _ | frontiersBody _ => True | _ => False end) -> settles cfg r (respond resp).
Proof. intros Hp Hb. apply settles_respond. intros d Hd. unfold honest. destruct (rs_body resp); done. Qed.

Lemma settles_snapshot : settles cfg r (snapshot cfg r).
Proof.
  apply settles_forPeer. intros Hp. apply settles_then; [done|done|]. intros [[messages next] valid] _. apply settles_if; intros _; [settles|]. apply settles_if; intros _; [settles|]. by apply settles_peerBody.
Qed.
Lemma settles_checkpoints : settles cfg r (checkpointSnapshot cfg r).
Proof. apply settles_forPeer. intros Hp. apply settles_then; [done|done|]. intros now _. apply settles_then; [done|done|]. intros cs _. by apply settles_peerBody. Qed.
Lemma settles_frontiers : settles cfg r (replayFrontiers cfg r).
Proof. apply settles_forPeer. intros Hp. apply settles_then; [done|done|]. intros now _. apply settles_then; [done|done|]. intros fs _. by apply settles_peerBody. Qed.

Lemma keeps_gapState (gaps : list (Z * Z)) : forall required, keeps cfg r (gapState required gaps) (fun _ => True).
Proof.
  induction gaps as [|[n since] gaps IH]; intros required d Hd; cbn [gapState]; [done|]. destruct (bool_decide (n = 0)); [by apply IH|]. apply obeys_then; [done|]. intros now _.
  destruct (bool_decide _); [done|]. by apply IH.
Qed.
Lemma settles_capabilities : settles cfg r (peerCapabilities cfg r).
Proof.
  apply settles_forPeer. intros Hp. apply settles_then; [done|done|]. intros gaps _. eapply settles_seq; [apply keeps_gapState|]. intros required _. settles.
Qed.
Lemma settles_digest : settles cfg r (cacheDigest cfg r).
Proof. apply settles_forPeer. intros Hp. by apply settles_other. Qed.
Lemma settles_messageStatus id : entitled cfg r -> settles cfg r (messageStatus id).
Proof. intros He. apply settles_then; [done|done|]. intros ok _. apply settles_if; intros _; settles. Qed.
Lemma settles_ready : settles cfg r healthReady.
Proof. apply settles_then; [done|done|]. intros b _. settles. Qed.

(** ** Routes *)
Hypothesis Hmax : 0 <= cfg_MaxMessage cfg < 2 ^ 60.

Lemma settles_publish topic : entitled cfg r -> settles cfg r (publish cfg r topic).
Proof. intros He d Hd. by apply obeys_publish. Qed.
Lemma settles_publishBatch topic : entitled cfg r -> settles cfg r (publishBatch cfg r topic).
Proof. intros He d Hd. by apply obeys_publishBatch. Qed.

(** The handlers of clients are under /v1, of administrators under /v1/status and /metrics: neither /internal nor /health. *)
Definition guarded (path : string) : Prop := hasPrefix path "/internal/" = false /\ hasPrefix path "/health/" = false.

Lemma settles_dispatch boot : (guarded (hr_path r) -> entitled cfg r) -> settles cfg r (dispatch cfg boot r).
Proof.
  intros He. unfold dispatch, route. cbv zeta.
  assert (Hon : forall (methods : list string) p, settles cfg r p -> settles cfg r (match (if bool_decide (hr_method r ∈ methods) then Some p else None) with Some p => p | None => respond (mkResponse 404 [] noBody) end)).
  { intros methods p Hp. destruct (bool_decide _); [done|settles]. }
  assert (Hpub : forall path, hr_path r = path -> guarded path -> entitled cfg r) by (intros path <-; exact He).
  destruct (wildcard _ ["messages"] _) as [topic|] eqn:E1; [apply wildcard_path in E1; apply Hon, settles_publish; by eapply Hpub|].
  destruct (wildcard _ ["batches"] _) as [topic|] eqn:E2; [apply wildcard_path in E2; apply Hon, settles_publishBatch; by eapply Hpub|].
  destruct (wildcard _ [] _) as [id|] eqn:E3; [apply wildcard_path in E3; apply Hon, settles_messageStatus; by eapply Hpub|].
  destruct (bool_decide_reflect (hr_path r = "/v1/subscriptions/stream")) as [E|_]; [apply Hon, settles_other; by eapply Hpub|].
  destruct (bool_decide_reflect (hr_path r = "/v1/deliveries/ack")) as [E|_]; [apply Hon, settles_ack; by eapply Hpub|].
  destruct (bool_decide_reflect (hr_path r = "/v1/deliveries/nack")) as [E|_]; [apply Hon, settles_nack; by eapply Hpub|].
  destruct (bool_decide (hr_path r = "/internal/replicate")); [apply Hon, settles_replicate|].
  destruct (bool_decide (hr_path r = "/internal/repair")); [apply Hon, settles_replicate|].
  destruct (bool_decide (hr_path r = "/internal/snapshot")); [apply Hon, settles_snapshot|].
  destruct (bool_decide (hr_path r = "/internal/checkpoints")); [apply Hon, settles_checkpoints|].
  destruct (bool_decide (hr_path r = "/internal/replay-frontiers")); [apply Hon, settles_frontiers|].
  destruct (bool_decide (hr_path r = "/internal/capabilities")); [apply Hon, settles_capabilities|].
  destruct (bool_decide (hr_path r = "/internal/cache-digest")); [apply Hon, settles_digest|].
  destruct (bool_decide (hr_path r = "/internal/ack")); [apply Hon, settles_internalAck|].
  destruct (bool_decide (hr_path r = "/internal/nack")); [apply Hon, settles_internalNack|].
  destruct (bool_decide_reflect (hr_path r = "/metrics")) as [E|_]; [apply Hon, settles_other; by eapply Hpub|].
  destruct (bool_decide (hr_path r = "/health/live")); [apply Hon, settles_empty|].
  destruct (bool_decide (hr_path r = "/health/ready")); [apply Hon, settles_ready|].
  destruct (bool_decide_reflect (hr_path r = "/v1/status")) as [E|_]; [apply Hon, settles_other; by eapply Hpub|]. settles.
Qed.

Lemma settles_authorized boot : settles cfg r (authorized cfg boot r).
Proof.
  unfold authorized. pose proof (gate_spec cfg r) as Hg. destruct (credentials cfg (hr_path r)) as [[[required previous] username] password]. destruct (_ && _).
  - intros d Hd. eapply obeys_seq with (P := fun _ d' => d' = d). { destruct (adminPath _); (apply obeys_call; [done|]; by intros [] _). }
    intros [] ? ->. by apply settles_problem.
  - apply settles_dispatch. intros _. by apply Hg.
Qed.
End Handlers.
