(* ===== verification/Executions.v ===== *)
(** * Executions of handlers

    The same promises over whole executions: the sequence of calls that a handler makes, with the answers it
    got.  Whatever was taken is given back, in every execution, exactly once. *)
From S2P Require Import Prelude Programs Types Config Metrics GoIO Base64 Wire BatchWire Pending Replication Services Publish Handlers Contracts PublishSpec ServeSpec.
From Stdlib Require Import String.
#[local] Open Scope Z_scope.

Abbreviation action := (Programs.action service).

Section Executions.
Context (cfg : Config) (r : request).

(** The executions in which the components keep their promises, and what is owed after them. *)
Definition execution {A} (p : prog A) (tr : list action) (a : A) : Prop := Programs.execution (@after) (fun _ e _ => possible cfg e) p idle tr a.
Definition permitted (tr : list action) (d : duty) : Prop := Programs.permitted (@permits cfg r) (@after) tr d.
Definition afterAll (tr : list action) (d : duty) : duty := Programs.afterAll (@after) tr d.

(** ** What is taken, and what is given back *)
Definition acquired (a : action) : list Z := match a with Act (sAcquire bytes) ok => if ok : bool then [bytes] else [] | _ => [] end.
Definition released (a : action) : list Z := match a with Act (sRelease bytes) _ => [bytes] | _ => [] end.
Definition reserved (a : action) : list (nat * Z) := match a with Act (sWaitReplication bytes) (Some p) => [(p, bytes)] | _ => [] end.
Definition consumed (a : action) : list (nat * Z) :=
  match a with Act (sReleaseReservation (Some p) bytes) _ => [(p, bytes)] | Act (sEnqueue messages (Some p)) _ => [(p, batchBytes messages)] | _ => [] end.
Definition begun (a : action) : list (string * loc) := match a with Act (sBegin key _ _ _) (inr (e, true)) => [(key, e)] | _ => [] end.
Definition finished (a : action) : list (string * loc) := match a with Act (sFinish key (Some e) _ _) _ => [(key, e)] | _ => [] end.
Definition slotTaken (a : action) : list slotKind := match a with Act (sSlot kind) ok => if ok : bool then [kind] else [] | _ => [] end.
Definition slotFreed (a : action) : list slotKind := match a with Act (sFreeSlot kind) _ => [kind] | _ => [] end.
Definition all {B} (f : action -> list B) (tr : list action) : list B := tr ≫= f.

(** The calls that do not touch the resource. *)
Ltac untouched IH := first
  [ exact IH
  | match goal with x : bool |- _ => destruct x; exact IH end
  | match goal with x : option _ |- _ => destruct x; exact IH end
  | match goal with x : error + _ * bool |- _ => destruct x as [?|[? []]]; exact IH end
  | match goal with x : error + list Message |- _ => destruct x; cbn [after] in *; repeat case_bool_decide; exact IH end ].
Ltac balance IH :=
  unfold permitted, afterAll; let X := fresh "X" in let e := fresh "e" in let x := fresh "x" in let tr := fresh "tr" in
  intros tr; induction tr as [|[X e x] tr IH]; intros d; cbn [Programs.permitted Programs.afterAll]; [intros _; cbn; by rewrite app_nil_r|];
  intros [Hp Ht]; specialize (IH _ Ht); unfold all in *; cbn [mbind list_bind]; destruct e; try untouched IH.

Lemma balance_admission : forall tr d, permitted tr d -> option_list (du_admitted d) ++ all acquired tr = all released tr ++ option_list (du_admitted (afterAll tr d)).
Proof.
  balance IH.
  - destruct x; [|exact IH]. destruct Hp as [_ Hn]. rewrite Hn. exact IH.
  - cbn in Hp. rewrite Hp. cbn. f_equal. exact IH.
Qed.
Lemma balance_reserved : forall tr d, permitted tr d -> option_list (du_reserved d) ++ all reserved tr = all consumed tr ++ option_list (du_reserved (afterAll tr d)).
Proof.
  balance IH.
  - destruct x; [|exact IH]. destruct Hp as [_ Hn]. rewrite Hn. exact IH.
  - destruct p; [|exact IH]. destruct Hp as [Hp _]. rewrite Hp. cbn. f_equal. exact IH.
  - destruct reserved0; [|destruct Hp as (_ & _ & Hn); rewrite Hn; exact IH]. destruct Hp as (_ & _ & Hp). rewrite Hp. cbn. f_equal. exact IH.
Qed.
Lemma balance_entries : forall tr d, permitted tr d -> option_list (du_entry d) ++ all begun tr = all finished tr ++ option_list (du_entry (afterAll tr d)).
Proof.
  balance IH.
  - destruct x as [?|[e []]]; [exact IH| |exact IH]. destruct Hp as (_ & _ & Hn & _). rewrite Hn. exact IH.
  - destruct e; [|exact IH]. destruct Hp as [Hp _]. rewrite Hp. cbn. f_equal. exact IH.
Qed.
Lemma balance_slots : forall tr d, permitted tr d -> option_list (du_slot d) ++ all slotTaken tr = all slotFreed tr ++ option_list (du_slot (afterAll tr d)).
Proof.
  balance IH.
  - destruct x; [|exact IH]. cbn in Hp. rewrite Hp. exact IH.
  - cbn in Hp. rewrite Hp. cbn. f_equal. exact IH.
Qed.

End Executions.

(** ** Requests *)
Section Requests.
Context `{PublishStd} `{AckJSON} `{MapRange} (cfg : Config) (r : request).
Hypothesis Hmax : 0 <= cfg_MaxMessage cfg < 2 ^ 60.

Lemma serve_obeys boot : obeys cfg r (serveHTTP cfg boot r) idle (fun _ d => discharged d /\ is_Some (du_response d)).
Proof.
  unfold serveHTTP. apply obeys_then; [done|]. intros draining _. cbv zeta. cbn [after].
  assert (Hdone : forall p, settles cfg r p -> obeys cfg r p idle (fun _ d => discharged d /\ is_Some (du_response d))).
  { intros p Hp. eapply obeys_mono; [|by apply Hp]. intros [] d (G1 & G2 & G3 & G4 & G5). by split_and!. }
  destruct (_ && _); [apply Hdone; settles|]. destruct (hasPrefix (hr_path r) "/health/") eqn:Eh.
  { apply Hdone, settles_dispatch; [done|]. intros [_ E]. congruence. }
  set (kind := if hasPrefix _ _ then _ else _). unfold slotted. apply obeys_then; [done|]. intros [] _; cbn [negb]; [|apply Hdone; settles].
  assert (Hs : settles cfg r (if hasPrefix (hr_path r) "/internal/" then dispatch cfg boot r else authorized cfg boot r)).
  { destruct (hasPrefix (hr_path r) "/internal/") eqn:Ei; [|by apply settles_authorized]. apply settles_dispatch; [done|]. intros [E _]. congruence. }
  eapply obeys_seq; [by apply Hs|]. intros [] d (G1 & G2 & G3 & G4 & G5). apply obeys_call; [done|]. intros [] _. by split_and!.
Qed.

(** C2: a request takes nothing with it. In every execution of [serveHTTP], whatever the components answer: the admission bytes,
    the replication reservation, the idempotency entry and the slot that were taken are given back exactly once,
    with the same size and owner; nothing is accepted, acknowledged or revealed unless the request carries the credentials of its path or
    the token of a peer; and the answer tells what happened: 202 only for a message that was accepted and offered to every
    peer or confirmed by one, an error only if nothing was accepted (or no peer confirmed a one-peer publication). *)
Theorem serve_requests boot tr :
  execution cfg (serveHTTP cfg boot r) tr tt ->
  permitted cfg r tr idle /\ is_Some (du_response (afterAll tr idle)) /\
  all acquired tr = all released tr /\ all reserved tr = all consumed tr /\ all begun tr = all finished tr /\ all slotTaken tr = all slotFreed tr.
Proof.
  intros Ex. destruct (Programs.obeys_sound (@permits cfg r) _ _ _ _ _ _ Ex _ (serve_obeys boot)) as [Hp [(D1 & D2 & D3 & D4) Hr]].
  change (Programs.afterAll (@after) tr idle) with (afterAll tr idle) in *. split; [done|]. split; [done|].
  pose proof (balance_admission cfg r tr idle Hp) as B1. pose proof (balance_reserved cfg r tr idle Hp) as B2. pose proof (balance_entries cfg r tr idle Hp) as B3. pose proof (balance_slots cfg r tr idle Hp) as B4.
  rewrite D2 in B1. rewrite D3 in B2. rewrite D4 in B3. rewrite D1 in B4. cbn in B1, B2, B3, B4. rewrite app_nil_r in B1, B2, B3, B4. by split_and!.
Qed.
End Requests.

(** ** A broker that answers *)
Definition plainStd : PublishStd := {| ps_parseDuration := fun _ => None; ps_durationString := fun _ => "1h0m0s"; ps_sha256 := fun _ => repeat Byte.x00 32; ps_sha256_len := fun _ => eq_refl |}.
Definition plainJSON : AckJSON := {| aj_decode := fun _ => None |}.
Definition plainRange : MapRange := {| rangeMap := map_to_list; rangeMap_perm := fun h => reflexivity _ |}.
Definition onePeerConfig : Config := (DefaultConfig <| cfg_Peers := ["http://b"] |>) <| cfg_ClientToken := "secret" |>.
Definition publication1 : request :=
  mkRequest "POST" "/v1/topics/orders/messages" (fun h => if bool_decide (h = "Authorization") then "Bearer secret" else "") (fun _ => "") (fun _ => false) None 2 [Byte.x68; Byte.x69].
(** The state counts the identifiers. *)
Definition plainAnswer X (e : service X) (n : nat) : X * nat :=
  match e in service X return X * nat with
  | sNow => (10 ^ 18, n) | sCount _ => (tt, n) | sRespond _ => (tt, n) | sDraining => (false, n) | sReady => (true, n)
  | sSlot _ => (true, n) | sFreeSlot _ => (tt, n) | sAcquire _ => (true, n) | sRelease _ => (tt, n) | sPressured _ _ => (false, n)
  | sNextID => ("a", S n) | sBegin _ _ _ _ => (inr (1%positive, true), n) | sEntryID _ => ("", n) | sFinish _ _ _ _ => (tt, n)
  | sReplicated _ => (false, n) | sMarkReplicated _ => (tt, n) | sSetExpires _ _ => (tt, n) | sCacheGet _ => (None, n) | sHas _ => (false, n)
  | sWaitReplication _ => (if bool_decide (cfg_Peers onePeerConfig = []) then None else Some 0%nat, n) | sReleaseReservation _ _ => (tt, n)
  | sAccept m => (inr (m, true), n) | sAcceptIdempotent m _ => (inr (m, true), n) | sAcceptBatch l => (inr l, n)
  | sReplicateOne _ => (true, n) | sReplicateAvailable _ => (1, n) | sEnqueue _ _ => (tt, n) | sMarkUnsafe _ _ => (tt, n)
  | sAcceptReplicas _ => (None, n) | sBuffered _ => (false, n) | sAcceptRepair _ => (None, n) | sRemoveAcks _ => ([], n) | sCheckpointsFor _ => ([], n)
  | sApplyCheckpoints _ => (tt, n) | sApplyNacks _ => (tt, n) | sBroadcast _ _ => (true, n) | sPage _ _ => ([], "", true, n)
  | sCheckpoints => ([], n) | sFrontiers => (mkFrontierSnapshot ∅ ∅, n) | sGaps => ([], n) | sOther _ => (tt, n)
  end.
Lemma plainAnswer_possible X (e : service X) n : possible onePeerConfig e (plainAnswer X e n).1.
Proof. destruct e; cbn; try done; try lia. by induction messages; constructor. Qed.

Definition actions1 : list action := (run plainAnswer (@serveHTTP plainStd plainJSON plainRange onePeerConfig [] publication1) 0%nat).1.1.
Lemma actions1_execution : execution onePeerConfig (@serveHTTP plainStd plainJSON plainRange onePeerConfig [] publication1) actions1 tt.
Proof.
  unfold actions1. pose proof (run_execution (@after) (fun _ e _ => possible onePeerConfig e) plainAnswer (fun X e _ n => plainAnswer_possible X e n) _ (@serveHTTP plainStd plainJSON plainRange onePeerConfig [] publication1) idle 0%nat) as Hr.
  by destruct (run _ _ _) as [[tr []] n].
Qed.
Lemma actions1_values : rs_status <$> du_response (afterAll actions1 idle) = Some 202 /\ all acquired actions1 = [2] /\ all reserved actions1 <> [].
Proof. vm_compute. done. Qed.
Lemma maxMessage_default : 0 <= cfg_MaxMessage onePeerConfig < 2 ^ 60.
Proof. vm_compute. done. Qed.

Lemma serve_requests_witness :
  (rs_status <$> du_response (afterAll actions1 idle) = Some 202 /\ all acquired actions1 = [2] /\ all reserved actions1 <> []) /\
  permitted onePeerConfig publication1 actions1 idle /\ is_Some (du_response (afterAll actions1 idle)) /\
  all acquired actions1 = all released actions1 /\ all reserved actions1 = all consumed actions1 /\ all begun actions1 = all finished actions1 /\ all slotTaken actions1 = all slotFreed actions1.
Proof. split; [exact actions1_values|]. exact (@serve_requests plainStd plainJSON plainRange onePeerConfig publication1 maxMessage_default [] actions1 actions1_execution). Defined.

(** ** A publication that its peers refuse

    [publish] accepts a content type of [maxHeaders] bytes, and a peer counts the header's name and value together
    against the same limit. *)
Definition longType : string := String.concat "" (repeat "0123456789" 819).
Definition longTypeMessage : Message := sized (newMessage "a" "orders" "" longType [] (10 ^ 18) Minute).

Lemma longType_refused :
  publication onePeerConfig longTypeMessage /\
  (let '(bytes, err) := @appendPeerBatch plainRange [longTypeMessage] [] in err = None /\ readPeerBatch (cfg_MaxMessage onePeerConfig) bytes = inl (errOther "peer headers exceed limit")).
Proof.
  assert (Hs : slen longType = 8190) by (vm_cast_no_check (eq_refl 8190)).
  split.
  - constructor.
    + vm_cast_no_check (eq_refl true).
    + change (0 <= maxHeaders). unfold maxHeaders. lia.
    + exists longType. rewrite Hs. unfold maxHeaders. split; [reflexivity|lia].
    + change (0 <= cfg_MaxMessage onePeerConfig). exact (proj1 maxMessage_default).
    + split; reflexivity.
    + exists (10 ^ 18), Minute. split; [left; reflexivity|]. split; reflexivity.
  - vm_compute. split; reflexivity.
Qed.
