(* ===== verification/ActionsSpec.v ===== *)
(** * Acknowledgements for peers: what the queues promise

    Broadcasts and the two workers of a peer share [actionBytes]; their atomic operations are the steps of
    [astep], for one peer.  The ghost state says who holds which bytes, what each worker has open and what it has
    finished: every identifier that was queued is in exactly one request, in order, and every
    request passes the checks of [decodeAckRequest] on counts, identifiers and checkpoints at the peer. *)
From S2P Require Import Prelude Programs Runs Types Config Metrics GoIO Wire Pending Replication ReplicationInv Actions ReplicationSpec Services Publish Handlers.
#[local] Open Scope Z_scope.

(** ** One queue and its worker *)
Record lane := mkLane {
  la_open : option gathered;
  la_carry : option actionBatch;
  la_queued : list actionBatch;
  la_requests : list ackRequest;
}.
#[export] Instance lane_settable : Settable lane := fun r => mkLane (la_open r) (la_carry r) (la_queued r) (la_requests r).
#[export] Instance set_la_open : Setter la_open := ltac:(derive_setter).
#[export] Instance set_la_carry : Setter la_carry := ltac:(derive_setter).
#[export] Instance set_la_queued : Setter la_queued := ltac:(derive_setter).
#[export] Instance set_la_requests : Setter la_requests := ltac:(derive_setter).

Definition openBatch (g : gathered) : actionBatch := mkActionBatch (ga_ids g) (ga_checkpoints g) (ga_bytes g).
Definition carried (l : lane) : option actionBatch := match la_open l with Some g => ga_carry g | None => la_carry l end.
(** What is queued or in the hands of the worker, in order. *)
Definition pieces (q : list actionBatch) (l : lane) : list actionBatch := option_list (openBatch <$> la_open l) ++ option_list (carried l) ++ q.

Definition requestOf (b : actionBatch) : ackRequest := mkAckRequest (ab_ids b) (ab_checkpoints b).
Definition sound (b : actionBatch) : Prop := validAckRequest (requestOf b) = true /\ 0 <= ab_bytes b.
Definition idsOf (l : list actionBatch) : list string := concat (ab_ids <$> l).
Definition checkpointsOf (l : list actionBatch) : list groupCheckpoint := concat (ab_checkpoints <$> l).

Record lane_ok (q : list actionBatch) (l : lane) : Prop := {
  lo_sound : Forall sound (pieces q l);
  lo_ids : idsOf (la_queued l) = concat (ar_DeliveryIDs <$> la_requests l) ++ idsOf (pieces q l);
  lo_checkpoints : checkpointsOf (la_queued l) = concat (ar_Checkpoints <$> la_requests l) ++ checkpointsOf (pieces q l);
  lo_requests : Forall (fun a => validAckRequest a = true) (la_requests l);
  lo_depth : llen q <= actionQueueDepth;
  lo_idle : is_Some (la_open l) -> la_carry l = None;
}.
Definition laneBytes (q : list actionBatch) (l : lane) : Z := zsum (ab_bytes <$> pieces q l).

Lemma laneBytes_nonneg q l : lane_ok q l -> 0 <= laneBytes q l.
Proof. intros [Hs _ _ _ _ _]. apply zsum_nonneg, Forall_fmap. eapply Forall_impl; [exact Hs|]. by intros b [_ Hb]. Qed.

Lemma validAckRequest_spec a : validAckRequest a = true <->
  llen (ar_DeliveryIDs a) <= 1024 /\ llen (ar_Checkpoints a) <= 1024 /\ llen (ar_DeliveryIDs a) + llen (ar_Checkpoints a) <> 0 /\
  Forall (fun id => validID id = true) (ar_DeliveryIDs a) /\ Forall (fun c => validCheckpoint c = true) (ar_Checkpoints a).
Proof.
  unfold validAckRequest. rewrite !andb_true_iff, negb_true_iff, !orb_false_iff, !bool_decide_eq_false, !forallb_forall, !List.Forall_forall.
  split; [intros [[[[? ?] ?] ?] ?]|intros (? & ? & ? & ? & ?)]; split_and?; auto; lia.
Qed.

Lemma joined_sound g more : sound (openBatch g) -> sound more -> joins g more = true -> ga_bytes g + ab_bytes more < 2 ^ 62 ->
  sound (openBatch (join g more)) /\ ab_bytes (openBatch (join g more)) = ga_bytes g + ab_bytes more.
Proof.
  intros [V1 B1] [V2 B2] Hj Hmax. change (2 ^ 62) with 4611686018427387904 in Hmax. cbn in B1. unfold joins in Hj.
  apply negb_true_iff, orb_false_iff in Hj as [J1 J2]. apply bool_decide_eq_false in J1, J2. unfold maxActionIDs in *.
  assert (Eb : i64 (ga_bytes g + ab_bytes more) = ga_bytes g + ab_bytes more) by (apply i64_id; unfold in_i64; lia).
  split; [|exact Eb]. split; [|cbn; rewrite Eb; lia]. apply validAckRequest_spec. apply validAckRequest_spec in V1 as (A1 & A2 & A3 & A4 & A5), V2 as (C1 & C2 & C3 & C4 & C5).
  cbn in *. rewrite !llen_app. split_and!; [lia|lia| |by apply Forall_app|by apply Forall_app].
  pose proof (llen_nonneg (ga_ids g)). pose proof (llen_nonneg (ga_checkpoints g)). pose proof (llen_nonneg (ab_ids more)). pose proof (llen_nonneg (ab_checkpoints more)). lia.
Qed.

(** What the worker does with its queue. *)
Inductive lstep : list actionBatch * lane -> list actionBatch * lane -> Prop :=
| ls_take b q l : la_open l = None -> la_carry l = None -> lstep (b :: q, l) (q, l <| la_open := Some (firstGathered b) |>)
| ls_resume b q l : la_open l = None -> la_carry l = Some b -> lstep (q, l) (q, (l <| la_open := Some (firstGathered b) |>) <| la_carry := None |>)
| ls_join g b q l : la_open l = Some g -> ga_carry g = None -> joins g b = true -> lstep (b :: q, l) (q, l <| la_open := Some (join g b) |>)
| ls_carry g b q l : la_open l = Some g -> ga_carry g = None -> joins g b = false -> lstep (b :: q, l) (q, l <| la_open := Some (g <| ga_carry := Some b |>) |>).

Lemma lstep_ok x y : lane_ok x.1 x.2 -> laneBytes x.1 x.2 < 2 ^ 62 -> lstep x y -> lane_ok y.1 y.2 /\ laneBytes y.1 y.2 = laneBytes x.1 x.2.
Proof.
  intros L Hb St. pose proof (laneBytes_nonneg _ _ L) as Hn.
  assert (Hsame : forall q' l', pieces q' l' = pieces x.1 x.2 -> la_queued l' = la_queued x.2 -> la_requests l' = la_requests x.2 -> llen q' <= llen x.1 ->
    (is_Some (la_open l') -> la_carry l' = None) -> lane_ok q' l' /\ laneBytes q' l' = laneBytes x.1 x.2).
  { intros q' l' E1 E2 E3 E4 E5. destruct L as [L1 L2 L3 L4 L5 L6]. split; [|unfold laneBytes; by rewrite E1]. split; rewrite ?E1, ?E2, ?E3; try done. lia. }
  destruct St as [b q l Ho Hc|b q l Ho Hc|g b q l Ho Hc Hj|g b q l Ho Hc Hj]; cbn [fst snd] in *.
  - apply Hsame; try done; [|rewrite llen_cons; lia]. unfold pieces, carried. rewrite Ho, Hc. cbn. by destruct b.
  - apply Hsame; try done. unfold pieces, carried. rewrite Ho, Hc. cbn. by destruct b.
  - assert (Ep : pieces (b :: q) l = openBatch g :: b :: q) by (unfold pieces, carried; by rewrite Ho, Hc).
    assert (Ep' : pieces q (l <| la_open := Some (join g b) |>) = openBatch (join g b) :: q) by (unfold pieces, carried; cbn; by rewrite Hc).
    destruct L as [L1 L2 L3 L4 L5 L6]. unfold laneBytes in *. rewrite Ep in *. rewrite Ep'. rewrite !fmap_cons, !zsum_cons in Hb, Hn.
    apply Forall_cons in L1 as [L1 [Lb L1']%Forall_cons]. assert (Hq : 0 <= zsum (ab_bytes <$> q)).
    { apply zsum_nonneg, Forall_fmap. eapply Forall_impl; [exact L1'|]. by intros c [_ Hb']. }
    destruct (joined_sound g b L1 Lb Hj) as [Sj Ej]; [cbn in Hb; lia|]. split; [|rewrite !fmap_cons, !zsum_cons, Ej; cbn; lia].
    split; rewrite ?Ep'; try done.
    + by constructor.
    + etransitivity; [exact L2|]. f_equal. unfold idsOf. cbn. by rewrite <- (app_assoc (ga_ids g)).
    + etransitivity; [exact L3|]. f_equal. unfold checkpointsOf. cbn. by rewrite <- (app_assoc (ga_checkpoints g)).
    + rewrite llen_cons in L5. lia.
    + cbn. intros _. apply L6. by rewrite Ho.
  - apply Hsame; try done; [|rewrite llen_cons; lia|cbn; intros _; apply (lo_idle _ _ L); by rewrite Ho]. unfold pieces, carried. by rewrite Ho, Hc.
Qed.

(** A broadcast adds a batch, and the worker finishes with a request. *)
Lemma lane_send q l b : lane_ok q l -> sound b -> llen q < actionQueueDepth ->
  lane_ok (q ++ [b]) (l <| la_queued := la_queued l ++ [b] |>) /\ laneBytes (q ++ [b]) (l <| la_queued := la_queued l ++ [b] |>) = laneBytes q l + ab_bytes b.
Proof.
  intros [L1 L2 L3 L4 L5 L6] Hs Hr. set (l' := l <| la_queued := _ |>). assert (Ep : pieces (q ++ [b]) l' = pieces q l ++ [b]) by (unfold pieces; by rewrite <- !app_assoc).
  split.
  - split; rewrite ?Ep; try done.
    + apply Forall_app. split; [done|]. by constructor.
    + unfold idsOf in *. change (la_queued l') with (la_queued l ++ [b]). rewrite !fmap_app, !concat_app, L2, <- app_assoc. done.
    + unfold checkpointsOf in *. change (la_queued l') with (la_queued l ++ [b]). rewrite !fmap_app, !concat_app, L3, <- app_assoc. done.
    + rewrite llen_app. change (llen [b]) with 1. lia.
  - unfold laneBytes. rewrite Ep, fmap_app, zsum_app. cbn. rewrite zsum_cons. change (zsum []) with 0. lia.
Qed.

Definition finished (g : gathered) (l : lane) : lane :=
  ((l <| la_open := None |>) <| la_carry := ga_carry g |>) <| la_requests := la_requests l ++ [requestOf (openBatch g)] |>.
Lemma lane_finish q l g : lane_ok q l -> la_open l = Some g -> lane_ok q (finished g l) /\ laneBytes q (finished g l) = laneBytes q l - ga_bytes g /\ 0 <= ga_bytes g <= laneBytes q l.
Proof.
  intros L Ho. destruct L as [L1 L2 L3 L4 L5 L6]. assert (Ep : pieces q l = openBatch g :: pieces q (finished g l)) by (unfold pieces, carried; by rewrite Ho).
  rewrite Ep in *. apply Forall_cons in L1 as [Lg L1]. assert (Hq : 0 <= laneBytes q (finished g l)).
  { apply zsum_nonneg, Forall_fmap. eapply Forall_impl; [exact L1|]. by intros c [_ Hb']. }
  assert (Eb : laneBytes q l = ga_bytes g + laneBytes q (finished g l)) by (unfold laneBytes; by rewrite Ep, fmap_cons, zsum_cons).
  destruct Lg as [Lv Lb]. cbn in Lb. split_and!; [|lia|done|lia]. split; try done.
  - unfold idsOf in *. change (la_requests (finished g l)) with (la_requests l ++ [requestOf (openBatch g)]). rewrite fmap_app, concat_app, <- app_assoc.
    etransitivity; [exact L2|]. cbn. by rewrite app_nil_r.
  - unfold checkpointsOf in *. change (la_requests (finished g l)) with (la_requests l ++ [requestOf (openBatch g)]). rewrite fmap_app, concat_app, <- app_assoc.
    etransitivity; [exact L3|]. cbn. by rewrite app_nil_r.
  - apply Forall_app. split; [done|]. by constructor.
  - cbn. by intros [? ?].
Qed.

(** ** The two queues of a peer *)
Record actions := mkActions { ac_held : list Z; ac_ack : lane; ac_nack : lane }.
#[export] Instance actions_settable : Settable actions := fun r => mkActions (ac_held r) (ac_ack r) (ac_nack r).
#[export] Instance set_ac_held : Setter ac_held := ltac:(derive_setter).
#[export] Instance set_ac_ack : Setter ac_ack := ltac:(derive_setter).
#[export] Instance set_ac_nack : Setter ac_nack := ltac:(derive_setter).

Definition idleLane : lane := mkLane None None [] [].
Definition noActions : actions := mkActions [] idleLane idleLane.
Definition ghostLane (action : string) (a : actions) : lane := if bool_decide (action = "ack") then ac_ack a else ac_nack a.
Definition setGhost (action : string) (l : lane) (a : actions) : actions := if bool_decide (action = "ack") then a <| ac_ack := l |> else a <| ac_nack := l |>.

Record actions_ok (cfg : Config) (p : peer) (a : actions) : Prop := {
  ao_bytes : p_actionBytes p = zsum (ac_held a) + laneBytes (p_acks p) (ac_ack a) + laneBytes (p_nacks p) (ac_nack a);
  ao_held : Forall (fun n => 0 <= n) (ac_held a);
  ao_max : p_actionBytes p <= cfg_ActionQueueBytes cfg;
  ao_ack : lane_ok (p_acks p) (ac_ack a);
  ao_nack : lane_ok (p_nacks p) (ac_nack a);
}.

Lemma lane_ok_idle : lane_ok [] idleLane.
Proof. split; cbn; done. Qed.
Lemma actions_ok_new cfg url : 0 <= cfg_ActionQueueBytes cfg -> actions_ok cfg (newPeer url) noActions.
Proof. intros Hc. split; try apply lane_ok_idle; cbn; done. Qed.

Lemma actions_lane cfg p a action : actions_ok cfg p a -> lane_ok (laneOf action p) (ghostLane action a).
Proof. intros [_ _ _ Ha Hn]. unfold laneOf, ghostLane. by destruct (bool_decide _). Qed.
Lemma actions_nonneg cfg p a action : actions_ok cfg p a -> 0 <= zsum (ac_held a) /\ 0 <= laneBytes (laneOf action p) (ghostLane action a) <= p_actionBytes p - zsum (ac_held a).
Proof.
  intros [Eb Hh _ Ha Hn]. pose proof (laneBytes_nonneg _ _ Ha). pose proof (laneBytes_nonneg _ _ Hn). pose proof (zsum_nonneg _ Hh).
  unfold laneOf, ghostLane. destruct (bool_decide _); lia.
Qed.

(** One queue and the bytes that are held change. *)
Lemma actions_set cfg p p' a action q l held bytes : actions_ok cfg p a -> lane_ok q l -> Forall (fun n => 0 <= n) held ->
  p_acks p' = p_acks (setLane action q p) -> p_nacks p' = p_nacks (setLane action q p) -> p_actionBytes p' = bytes ->
  bytes = p_actionBytes p + (zsum held - zsum (ac_held a)) + (laneBytes q l - laneBytes (laneOf action p) (ghostLane action a)) -> bytes <= cfg_ActionQueueBytes cfg ->
  actions_ok cfg p' ((setGhost action l a) <| ac_held := held |>).
Proof.
  intros [Eb Hh Hm Ha Hn] L Hh' Ea En Ep Es Hle. unfold laneOf, ghostLane, setLane, setGhost in *. destruct (bool_decide _); cbn in *; split; cbn; rewrite ?Ea, ?En, ?Ep; try done; lia.
Qed.
Lemma laneOf_set action q p : laneOf action (setLane action q p) = q.
Proof. unfold laneOf, setLane. by destruct (bool_decide _). Qed.
Lemma setLane_id action p : setLane action (laneOf action p) p = p.
Proof. unfold laneOf, setLane. destruct (bool_decide _); by destruct p. Qed.
Lemma setGhost_id action a : setGhost action (ghostLane action a) a = a.
Proof. unfold ghostLane, setGhost. destruct (bool_decide _); by destruct a. Qed.
Lemma ghostLane_set action l a : ghostLane action (setGhost action l a) = l.
Proof. unfold ghostLane, setGhost. by destruct (bool_decide _). Qed.
Lemma setLane_bytes action q p : p_actionBytes (setLane action q p) = p_actionBytes p.
Proof. unfold setLane. by destruct (bool_decide _). Qed.
Lemma setGhost_held action l a : ac_held (setGhost action l a) = ac_held a.
Proof. unfold setGhost. by destruct (bool_decide _). Qed.

Section Steps.
Context {W : Type} (i : nat).
Abbreviation RS := (replication W).
Implicit Types (s : RS) (a : actions).

Definition actionView (s : RS) : Config * option (list actionBatch * list actionBatch * Z * string) :=
  (rp_cfg s, (fun p => (p_acks p, p_nacks p, p_actionBytes p, p_url p)) <$> rp_peers s !! i).

Inductive astep : RS * actions -> RS * actions -> Prop :=
| as_claim s a bytes s' : 0 <= bytes < 2 ^ 62 -> claimAction i bytes s = Some (true, s') -> astep (s, a) (s', a <| ac_held := bytes :: ac_held a |>)
| as_unclaim s a bytes held s' : ac_held a ≡ₚ bytes :: held -> addAction i (- bytes) s = Some (tt, s') -> astep (s, a) (s', a <| ac_held := held |>)
| as_send s a action b held s' : sound b -> ac_held a ≡ₚ ab_bytes b :: held -> trySendAction i action b s = Some (true, s') ->
    astep (s, a) (s', (setGhost action ((ghostLane action a) <| la_queued := la_queued (ghostLane action a) ++ [b] |>) a) <| ac_held := held |>)
| as_receive s a action b rest l s' p : rp_peers s !! i = Some p -> laneOf action p = b :: rest -> receiveAction i action s = Some (Some b, s') ->
    lstep (b :: rest, ghostLane action a) (rest, l) -> astep (s, a) (s', setGhost action l a)
| as_resume s a action l p : rp_peers s !! i = Some p -> lstep (laneOf action p, ghostLane action a) (laneOf action p, l) -> astep (s, a) (s, setGhost action l a)
| as_finish s a action g s' : la_open (ghostLane action a) = Some g -> addAction i (- ga_bytes g) s = Some (tt, s') -> astep (s, a) (s', setGhost action (finished g (ghostLane action a)) a)
| as_other s a s' : actionView s' = actionView s -> astep (s, a) (s', a).

Lemma addAction_eq bytes s p : rp_peers s !! i = Some p ->
  addAction i bytes s = Some (tt, s <| rp_peers := <[i := p <| p_actionBytes := i64 (p_actionBytes p + bytes) |>]> (rp_peers s) |>).
Proof. intros Hp. unfold addAction, updatePeer, gmodify. by rewrite (alter_at _ _ _ _ Hp). Qed.
Lemma claimAction_eq bytes s p : rp_peers s !! i = Some p -> claimAction i bytes s =
  if bool_decide (cfg_ActionQueueBytes (rp_cfg s) < i64 (p_actionBytes p + bytes)) then Some (false, s)
  else Some (true, s <| rp_peers := <[i := p <| p_actionBytes := i64 (p_actionBytes p + bytes) |>]> (rp_peers s) |>).
Proof.
  intros Hp. unfold claimAction, peerAt, addAction, updatePeer, gmodify, gbind, gget, glift. rewrite Hp. cbn. destruct (bool_decide _); [done|]. cbn. by rewrite (alter_at _ _ _ _ Hp).
Qed.
Lemma trySendAction_eq action b s p : rp_peers s !! i = Some p -> trySendAction i action b s =
  if bool_decide (llen (laneOf action p) < actionQueueDepth) then Some (true, s <| rp_peers := <[i := setLane action (laneOf action p ++ [b]) p]> (rp_peers s) |>) else Some (false, s).
Proof.
  intros Hp. unfold trySendAction, peerAt, gbind, gget, glift, updatePeer, gmodify. rewrite Hp. cbn. destruct (bool_decide _); [|done]. cbn. by rewrite (alter_at _ _ _ _ Hp).
Qed.
Lemma receiveAction_eq action s p : rp_peers s !! i = Some p -> receiveAction i action s =
  match laneOf action p with [] => Some (None, s) | b :: rest => Some (Some b, s <| rp_peers := <[i := setLane action rest p]> (rp_peers s) |>) end.
Proof.
  intros Hp. unfold receiveAction, peerAt, gbind, gget, glift, updatePeer, gmodify. rewrite Hp. cbn. destruct (laneOf action p); [done|]. cbn. by rewrite (alter_at _ _ _ _ Hp).
Qed.

Definition peer_ok (x : RS * actions) : Prop := exists p, rp_peers x.1 !! i = Some p /\ actions_ok (rp_cfg x.1) p x.2.
Definition actionBudget (cfg : Config) : Prop := 0 < cfg_ActionQueueBytes cfg < 2 ^ 62.

Lemma set_held_id a : a <| ac_held := ac_held a |> = a.
Proof. by destruct a. Qed.

Lemma astep_ok x y : actionBudget (rp_cfg x.1) -> peer_ok x -> astep x y -> peer_ok y /\ rp_cfg y.1 = rp_cfg x.1.
Proof.
  unfold actionBudget. change (2 ^ 62) with 4611686018427387904. intros Hb (p & Hp & A) St.
  assert (Hset : forall s p', rp_peers s !! i = Some p -> (<[i := p']> (rp_peers s)) !! i = Some p') by (intros; apply list_lookup_insert_eq; by eapply lookup_lt_Some).
  destruct St as [s a bytes s' Hn E|s a bytes held s' Hh E|s a action b held s' Hs Hh E|s a action b rest l s' p0 Hp0 El E St|s a action l p0 Hp0 St|s a action g s' Ho E|s a s' E]; cbn [fst snd] in *.
  - change (2 ^ 62) with 4611686018427387904 in Hn. rewrite (claimAction_eq _ _ _ Hp) in E. destruct (bool_decide_reflect (cfg_ActionQueueBytes (rp_cfg s) < i64 (p_actionBytes p + bytes))) as [|Hle]; [done|].
    injection E as <-. split; [|done]. eexists. split; [by apply Hset|]. destruct (actions_nonneg _ _ _ "ack" A) as [N1 N2]. pose proof (ao_max _ _ _ A).
    rewrite i64_id in * by (unfold in_i64; lia). rewrite <- (setGhost_id "ack" a) at 1.
    apply (actions_set _ p _ a "ack" (laneOf "ack" p) (ghostLane "ack" a) (bytes :: ac_held a) (p_actionBytes p + bytes)); [done|by eapply actions_lane|constructor; [lia|apply A]|done|done|done|rewrite zsum_cons; lia|cbn; lia].
  - rewrite (addAction_eq _ _ _ Hp) in E. injection E as <-. split; [|done]. eexists. split; [by apply Hset|]. destruct (actions_nonneg _ _ _ "ack" A) as [N1 N2]. pose proof (ao_max _ _ _ A).
    pose proof (ao_held _ _ _ A) as Hf. rewrite Hh in Hf. apply Forall_cons in Hf as [Hf1 Hf]. pose proof (zsum_nonneg _ Hf). assert (Ez : zsum (ac_held a) = bytes + zsum held) by (by rewrite Hh, zsum_cons).
    rewrite i64_id by (unfold in_i64; lia). rewrite <- (setGhost_id "ack" a) at 1.
    apply (actions_set _ p _ a "ack" (laneOf "ack" p) (ghostLane "ack" a) held (p_actionBytes p + - bytes)); [done|by eapply actions_lane|done|done|done|done|lia|cbn; lia].
  - rewrite (trySendAction_eq _ _ _ _ Hp) in E. destruct (bool_decide_reflect (llen (laneOf action p) < actionQueueDepth)) as [Hr|]; [|done]. injection E as <-. split; [|done].
    eexists. split; [by apply Hset|]. destruct (actions_nonneg _ _ _ action A) as [N1 N2]. destruct (lane_send _ _ _ (actions_lane _ _ _ action A) Hs Hr) as [L Eb].
    pose proof (ao_held _ _ _ A) as Hf. rewrite Hh in Hf. apply Forall_cons in Hf as [Hf1 Hf]. assert (Ez : zsum (ac_held a) = ab_bytes b + zsum held) by (by rewrite Hh, zsum_cons).
    eapply (actions_set _ p _ a action _ _ held (p_actionBytes p)); [done|exact L|done|done|done|by rewrite setLane_bytes|lia|apply A].
  - assert (p0 = p) as -> by congruence. rewrite (receiveAction_eq _ _ _ Hp), El in E. injection E as <-. split; [|done]. eexists. split; [by apply Hset|].
    destruct (actions_nonneg _ _ _ action A) as [N1 N2]. pose proof (ao_max _ _ _ A). pose proof (actions_lane _ _ _ action A) as L. rewrite El in L, N2.
    destruct (lstep_ok (_, _) (_, _) L ltac:(change (2 ^ 62) with 4611686018427387904; cbn; lia) St) as [L' Eb]. cbn [fst snd] in L', Eb. rewrite <- (set_held_id (setGhost action l a)), setGhost_held.
    eapply (actions_set _ p _ a action _ _ (ac_held a) (p_actionBytes p)); [done|exact L'|apply A|done|done|by rewrite setLane_bytes|rewrite El; lia|apply A].
  - assert (p0 = p) as -> by congruence. split; [|done]. exists p. split; [done|]. destruct (actions_nonneg _ _ _ action A) as [N1 N2]. pose proof (ao_max _ _ _ A).
    pose proof (actions_lane _ _ _ action A) as L. destruct (lstep_ok (_, _) (_, _) L ltac:(change (2 ^ 62) with 4611686018427387904; cbn; lia) St) as [L' Eb]. cbn [fst snd] in L', Eb.
    cbn [fst snd]. rewrite <- (set_held_id (setGhost action l a)), setGhost_held.
    eapply (actions_set _ p _ a action (laneOf action p) _ (ac_held a) (p_actionBytes p)); [done|exact L'|apply A|by rewrite setLane_id|by rewrite setLane_id|done|lia|apply A].
  - rewrite (addAction_eq _ _ _ Hp) in E. injection E as <-. split; [|done]. eexists. split; [by apply Hset|]. destruct (actions_nonneg _ _ _ action A) as [N1 N2]. pose proof (ao_max _ _ _ A).
    destruct (lane_finish _ _ _ (actions_lane _ _ _ action A) Ho) as (L & Eb & Hg). rewrite i64_id by (unfold in_i64; lia). rewrite <- (set_held_id (setGhost action _ a)), setGhost_held.
    eapply (actions_set _ p _ a action (laneOf action p) _ (ac_held a) (p_actionBytes p + - ga_bytes g)); [done|exact L|apply A|by rewrite setLane_id|by rewrite setLane_id|done|lia|cbn; lia].
  - unfold actionView in E. rewrite Hp in E. cbn in E. injection E as Ec E. destruct (rp_peers s' !! i) as [p'|] eqn:Hp'; [|done]. injection E as E1 E2 E3 E4.
    split; [|done]. exists p'. split; [done|]. cbn. rewrite Ec. destruct A as [A1 A2 A3 A4 A5]. split; by rewrite ?E1, ?E2, ?E3.
Qed.
End Steps.

(** ** The operations *)

(** The clock does not go back, and a pause that is not cut short lasts. *)
Class PeerClock (W : Type) `{PeerNetTotal W} := {
  pc_clock : W -> Z;
  now_clock w t w' : pn_now w = Some (t, w') -> t = pc_clock w' /\ pc_clock w <= pc_clock w';
  do_clock url req w r w' : pn_do url req w = Some (r, w') -> pc_clock w <= pc_clock w';
  pause_clock d w w' : pn_pause d w = Some (false, w') -> pc_clock w + d <= pc_clock w';
}.

Lemma foldl_sizes {A} (f : A -> Z) (bound : Z) (l : list A) acc : 0 <= acc -> Forall (fun x => 0 <= f x <= bound) l -> acc + bound * llen l < 2 ^ 62 ->
  acc <= foldl (fun bytes x => i64 (bytes + f x)) acc l <= acc + bound * llen l.
Proof.
  change (2 ^ 62) with 4611686018427387904. revert acc. induction l as [|x l IH]; intros acc Ha Hf Hb; cbn [foldl]; [change (llen (@nil A)) with 0; lia|].
  apply Forall_cons in Hf as [Hx Hf]. rewrite llen_cons in *. assert (0 <= bound * llen l) by (apply Z.mul_nonneg_nonneg; [lia|apply llen_nonneg]).
  rewrite Z.mul_add_distr_l in *. rewrite i64_id by (unfold in_i64; lia). specialize (IH (acc + f x) ltac:(lia) Hf ltac:(lia)). lia.
Qed.

Lemma actionSize_range ids checkpoints : validAckRequest (mkAckRequest ids checkpoints) = true -> 0 <= actionSize ids checkpoints < 2 ^ 21.
Proof.
  intros (H1 & H2 & _ & H4 & H5)%validAckRequest_spec. cbn in *. unfold actionSize. change (2 ^ 21) with 2097152.
  pose proof (llen_nonneg ids). pose proof (llen_nonneg checkpoints).
  pose proof (foldl_sizes (fun id => slen id + 4) 68 ids 32 ltac:(lia)) as B1. cbn beta in B1.
  destruct B1 as [B1 B1']. { eapply Forall_impl; [exact H4|]. intros id Hid. unfold validID in Hid. apply andb_true_iff in Hid as [I1 I2]. apply bool_decide_eq_true in I1, I2. cbn. pose proof (slen_nonneg id). lia. }
  { change (2 ^ 62) with 4611686018427387904. lia. }
  set (start := foldl _ 32 ids) in *.
  pose proof (foldl_sizes (fun c => slen (gc_Topic c) + slen (gc_Group c) + slen (gc_MessageID c) + 48) 622 checkpoints start ltac:(lia)) as B2. cbn beta in B2.
  destruct B2 as [B2 B2']; [|change (2 ^ 62) with 4611686018427387904; lia|split; [etransitivity; [|exact B2]; lia|eapply Z.le_lt_trans; [exact B2'|lia]]].
  eapply Forall_impl; [exact H5|]. intros c Hc. unfold validCheckpoint, validID in Hc. rewrite !andb_true_iff in Hc. destruct Hc as [[[[T G1] G2] [I1 I2]] _].
  apply bool_decide_eq_true in G1, G2, I1, I2. assert (slen (gc_Topic c) <= 255).
  { unfold validTopic in T. destruct (slen (gc_Topic c) =? 0); [done|]. destruct (255 <? slen (gc_Topic c)) eqn:E; [done|]. cbn in E. by apply Z.ltb_ge in E. }
  pose proof (slen_nonneg (gc_Topic c)). cbn. lia.
Qed.

Section Operations.
Context {W : Type} `{PeerClock W} (i : nat).
Abbreviation RS := (replication W).
Abbreviation aruns := (runsBy (astep i)).
Implicit Types (s : RS) (a : actions).

Lemma wp_world {A} (m : GoM W A) s (Q : A -> RS -> Prop) : is_Some (m (rp_world s)) -> (forall r w, m (rp_world s) = Some (r, w) -> Q r (s <| rp_world := w |>)) -> wp (inWorld m) s Q.
Proof. intros [[r w] Hm] HQ. apply wp_zoom. unfold wp. rewrite Hm. by apply HQ. Qed.

(** ** Attempts *)
Definition postOf (url action : string) (body : ackRequest) (r : reply) : event := asked (url +:+ "/internal/" +:+ action) (postAction action body) r.
Definition nextPause (d : Z) : Z := if bool_decide (d < 2 * Second) then i64 (d * 2) else d.

(** Attempts that failed, each with the pause after it. *)
Fixpoint failedPosts (url action : string) (body : ackRequest) (d : Z) (rs : list reply) : list event :=
  match rs with [] => [] | r :: rs => postOf url action body r :: paused d false :: failedPosts url action body (nextPause d) rs end.

(** Posts of the body until one is answered with success, the next pause would end after the deadline, or a pause is cut short by the broker's stop;
    [clock] is the time at the end. *)
Definition attempted (url action : string) (body : ackRequest) (d deadline clock : Z) (res : attempts) (evs : list event) : Prop :=
  exists rs r tail, evs = failedPosts url action body d rs ++ postOf url action body r :: tail /\ Forall (fun r => delivers r = false) rs /\
    let last := Nat.iter (length rs) nextPause d in
    match res with
    | sentBatch => delivers r = true /\ tail = []
    | gaveUp => delivers r = false /\ tail = [] /\ deadline < clock + last
    | stoppedWorker => delivers r = false /\ tail = [paused last true]
    end.

Lemma attempted_more url action body d deadline clock r res evs : delivers r = false -> attempted url action body (nextPause d) deadline clock res evs ->
  attempted url action body d deadline clock res (postOf url action body r :: paused d false :: evs).
Proof.
  intros Hr (rs & r' & tail & -> & Hf & Hres). exists (r :: rs), r', tail. split; [done|]. split; [by constructor|]. cbn [length]. by rewrite Nat.iter_succ_r.
Qed.

Lemma wp_postLoop action body deadline p n : forall backoff s (Q : attempts -> RS -> Prop), rp_peers s !! i = Some p ->
  50 * Millisecond <= backoff <= 4 * Second -> (0 < n)%nat -> deadline - pc_clock (rp_world s) < Z.of_nat n * (50 * Millisecond) ->
  (forall r w evs, exchange (rp_world s) evs w -> attempted (p_url p) action body backoff deadline (pc_clock w) r evs -> Q r (s <| rp_world := w |>)) ->
  wp (postLoop n i action body backoff deadline) s Q.
Proof.
  change (50 * Millisecond) with 50000000. change (4 * Second) with 4000000000.
  induction n as [|n IH]; intros backoff s Q Hp Hb Hn Hd HQ; [lia|]. cbn [postLoop]. apply wp_bind. eapply wp_peerAt; [exact Hp|].
  apply wp_bind, wp_world; [apply do_total|]. intros r w1 E1. pose proof (do_clock _ _ _ _ _ E1) as C1. fold (delivers r).
  assert (X1 : forall evs w, exchange w1 evs w -> exchange (rp_world s) (postOf (p_url p) action body r :: evs) w) by (intros evs w X; by eapply ex_asked).
  destruct (delivers r) eqn:Er.
  { apply wp_ret. eapply HQ; [apply X1, ex_end|]. by exists [], r, []. }
  apply wp_bind, wp_world; [apply now_total|]. intros now w2 E2. destruct (now_clock _ _ _ E2) as [C2 C2']. cbn in C2', E2.
  assert (X2 : forall evs w, exchange w2 evs w -> exchange w1 evs w) by (intros evs w X; by eapply ReplicationSpec.ex_now).
  destruct (bool_decide_reflect (deadline < now + backoff)) as [Hlt|Hle].
  { apply wp_ret. eapply HQ; [apply X1, X2, ex_end|]. exists [], r, []. split; [done|]. split; [done|]. cbn. rewrite <- C2. done. }
  apply wp_bind, wp_world; [apply pause_total|]. intros stop w3 E3. cbn in E3.
  assert (X3 : forall evs w, exchange w3 evs w -> exchange (rp_world s) (postOf (p_url p) action body r :: paused backoff stop :: evs) w) by (intros evs w X; apply X1, X2; by eapply ex_paused).
  destruct stop; [apply wp_ret; eapply HQ; [apply X3, ex_end|]; by exists [], r, [paused backoff true]|]. pose proof (pause_clock _ _ _ E3) as C3. cbn in C3.
  fold (nextPause backoff). apply IH; [done| |lia|cbn; lia|].
  - unfold nextPause. change (2 * Second) with 2000000000. case_bool_decide; [|lia]. rewrite i64_id by (unfold in_i64; lia). lia.
  - intros r' w' evs X' Hr'. eapply HQ; [by apply X3|by apply attempted_more].
Qed.

Lemma setGhost_set action l l' a : setGhost action l' (setGhost action l a) = setGhost action l' a.
Proof. unfold setGhost. by destruct (bool_decide _). Qed.

(** ** Draining *)

(** What was taken from the queue, up to a batch that does not fit, the bounds of a request or the end. *)
Definition drained (q q' : list actionBatch) (g g' : gathered) : Prop := exists taken,
  ga_ids g' = ga_ids g ++ idsOf taken /\ ga_checkpoints g' = ga_checkpoints g ++ checkpointsOf taken /\
  match ga_carry g' with
  | Some b => q = taken ++ b :: q' /\ joins g' b = false
  | None => q = taken ++ q' /\ (q' = [] \/ gatherable g' = false)
  end.

Lemma drained_more q q' g g' b : drained q q' (join g b) g' -> drained (b :: q) q' g g'.
Proof.
  intros (taken & E1 & E2 & E3). exists (b :: taken). split_and!; [by rewrite E1; cbn; rewrite <- app_assoc|by rewrite E2; cbn; rewrite <- app_assoc|].
  destruct (ga_carry g'); by destruct E3 as [-> ?].
Qed.

Lemma runs_gather action n : forall g s a (Q : gathered -> RS -> actions -> Prop), peer_ok i (s, a) -> actionBudget (rp_cfg s) ->
  la_open (ghostLane action a) = Some g -> ga_carry g = None -> 2048 - llen (ga_ids g) - llen (ga_checkpoints g) < Z.of_nat n ->
  (forall g' s' l', la_open l' = Some g' -> la_requests l' = la_requests (ghostLane action a) -> la_queued l' = la_queued (ghostLane action a) ->
     peer_ok i (s', setGhost action l' a) -> rp_cfg s' = rp_cfg s -> rp_world s' = rp_world s -> rp_metrics s' = rp_metrics s ->
     (p_url <$> rp_peers s' !! i) = (p_url <$> rp_peers s !! i) ->
     (forall p p', rp_peers s !! i = Some p -> rp_peers s' !! i = Some p' -> drained (laneOf action p) (laneOf action p') g g') -> Q g' s' (setGhost action l' a)) ->
  aruns s a (gather n i action g) Q.
Proof.
  induction n as [|n IH]; intros g s a Q Hok Hbud Ho Hc Hn HQ.
  all: assert (Hdone : (forall p, rp_peers s !! i = Some p -> laneOf action p = [] \/ gatherable g = false) -> aruns s a (gret g) Q) by
    (intros Hd; apply runs_ret; rewrite <- (setGhost_id action a) at 1; apply HQ; rewrite ?setGhost_id; try done; intros p p' Hp' Hp'';
     assert (p' = p) as -> by congruence; exists []; rewrite Hc, !app_nil_r; split_and!; [done|done|done|by apply Hd]).
  all: destruct Hok as (p & Hp & A); cbn [fst snd] in Hp, A; pose proof (actions_lane _ _ _ action A) as L; assert (Sg : sound (openBatch g));
    [pose proof (lo_sound _ _ L) as Hs; unfold pieces in Hs; rewrite Ho in Hs; by apply Forall_cons in Hs as [Hs _]|];
    pose proof Sg as [(V1 & V2 & _)%validAckRequest_spec _]; cbn in V1, V2; cbn [gather].
  { destruct (gatherable g) eqn:Eg; cbn [negb]; [|apply Hdone; by right]. unfold gatherable, maxActionIDs in Eg. apply andb_true_iff in Eg as [E1 E2].
    apply bool_decide_eq_true in E1, E2. lia. }
  destruct (gatherable g) eqn:Eg; cbn [negb]; [|apply Hdone; by right]. apply runs_bind. pose proof (receiveAction_eq i action s p Hp) as Er. destruct (laneOf action p) as [|b rest] eqn:El.
  { eapply runs_read; [exact Er|]. apply Hdone. intros p' Hp'. left. congruence. }
  set (s1 := s <| rp_peers := _ |>) in Er. assert (Hp1 : rp_peers s1 !! i = Some (setLane action rest p)) by (apply list_lookup_insert_eq; by eapply lookup_lt_Some).
  assert (Hurl : (p_url <$> rp_peers s1 !! i) = (p_url <$> rp_peers s !! i)) by (rewrite Hp1, Hp; cbn; unfold setLane; by destruct (bool_decide _)).
  assert (Hstep : forall l, lstep (b :: rest, ghostLane action a) (rest, l) -> astep i (s, a) (s1, setGhost action l a) /\ peer_ok i (s1, setGhost action l a)).
  { intros l St. assert (T : astep i (s, a) (s1, setGhost action l a)) by (by eapply as_receive). split; [done|].
    eapply (astep_ok i (s, a)); [done| |exact T]. by exists p. }
  destruct (joins g b) eqn:Ej.
  - destruct (Hstep ((ghostLane action a) <| la_open := Some (join g b) |>)) as [T Hok1]; [by eapply ls_join|].
    eapply runs_one; [exact Er|exact T|]. cbv beta iota. rewrite Ej. apply IH; rewrite ?ghostLane_set; [done|done|done|done| |].
    + assert (Sb : sound b) by (pose proof (lo_sound _ _ L) as Hs; unfold pieces in Hs; rewrite Forall_app in Hs; destruct Hs as [_ Hs]; rewrite Forall_app in Hs; destruct Hs as [_ Hs]; by apply Forall_cons in Hs as [Hs _]).
      destruct Sb as [(_ & _ & V3 & _)%validAckRequest_spec _]. cbn in V3. cbn [join ga_ids ga_checkpoints]. rewrite !llen_app.
      pose proof (llen_nonneg (ab_ids b)). pose proof (llen_nonneg (ab_checkpoints b)). lia.
    + intros g' s' l' L1 L2 L3 L4 L5 L6 L7 L8 L9. rewrite setGhost_set in *. apply HQ; try done; [by rewrite L8|]. intros q q' Hq Hq'. assert (q = p) as -> by congruence.
      specialize (L9 _ _ Hp1 Hq'). rewrite laneOf_set in L9. rewrite El. by apply drained_more.
  - destruct (Hstep ((ghostLane action a) <| la_open := Some (g <| ga_carry := Some b |>) |>)) as [T Hok1]; [by eapply ls_carry|].
    eapply runs_one; [exact Er|exact T|]. cbv beta iota. rewrite Ej. apply runs_ret, HQ; try done. intros q q' Hq Hq'. assert (q = p) as -> by congruence.
    assert (q' = setLane action rest p) as -> by congruence. rewrite El, laneOf_set. exists []. cbn. by rewrite !app_nil_r.
Qed.

(** A computation of the world, or of the counters. *)
Lemma runs_quiet {A} (m : GoM RS A) s a (Q : A -> RS -> actions -> Prop) : wp m s (fun r s' => actionView i s' = actionView i s /\ Q r s' a) -> aruns s a m Q.
Proof. intros Hm. eapply wp_mono; [exact Hm|]. intros r s' [E HQ]. exists a. split; [by apply steps_one, as_other|done]. Qed.

Definition droppedActions (action : string) (mt : Metrics) : Z := if bool_decide (action = "ack") then mt_AckActionDropped mt else mt_NackActionDropped mt.
Lemma wp_countDropped action n s (Q : unit -> RS -> Prop) :
  (forall mt, droppedActions action mt = u64 (droppedActions action (rp_metrics s) + n) -> Q tt (s <| rp_metrics := mt |>)) -> wp (countDroppedAction action n) s Q.
Proof. intros HQ. unfold countDroppedAction, countBy, droppedActions in *. destruct (bool_decide _); apply wp_modify, HQ; done. Qed.

(** What a turn of the worker leaves, with the batch it begins with and the queue behind it. *)
Inductive turned (action : string) (first : actionBatch) (q : list actionBatch) (s : RS) (a : actions) (s' : RS) (a' : actions) : option (option actionBatch) -> Prop :=
| turned_by g p p' deadline res evs : rp_peers s !! i = Some p -> rp_peers s' !! i = Some p' ->
    drained q (laneOf action p') (firstGathered first) g -> llen (ga_ids g) <= maxActionIDs -> llen (ga_checkpoints g) <= maxActionIDs ->
    pc_clock (rp_world s) + cfg_AckDeadline (rp_cfg s) <= deadline -> exchange (rp_world s) evs (rp_world s') ->
    attempted (p_url p) action (requestOf (openBatch g)) (50 * Millisecond) deadline (pc_clock (rp_world s')) res evs ->
    droppedActions action (rp_metrics s') = match res with
      | gaveUp => u64 (droppedActions action (rp_metrics s) + Z.max (llen (ga_ids g)) (llen (ga_checkpoints g)))
      | _ => droppedActions action (rp_metrics s)
      end ->
    match res with
    | stoppedWorker => la_requests (ghostLane action a') = la_requests (ghostLane action a)
    | _ => la_requests (ghostLane action a') = la_requests (ghostLane action a) ++ [requestOf (openBatch g)] /\
        la_open (ghostLane action a') = None /\ la_carry (ghostLane action a') = ga_carry g
    end ->
    turned action first q s a s' a' (match res with stoppedWorker => None | _ => Some (ga_carry g) end).

Lemma runs_finish action g s a (Q : option (option actionBatch) -> RS -> actions -> Prop) p : rp_peers s !! i = Some p -> la_open (ghostLane action a) = Some g ->
  (forall s' p', rp_peers s' !! i = Some p' -> laneOf action p' = laneOf action p -> rp_metrics s' = rp_metrics s -> rp_world s' = rp_world s ->
     Q (Some (ga_carry g)) s' (setGhost action (finished g (ghostLane action a)) a)) ->
  aruns s a (addAction i (- ga_bytes g) ;;; gret (Some (ga_carry g))) Q.
Proof.
  intros Hp Ho HQ. apply runs_bind. pose proof (addAction_eq i (- ga_bytes g) s p Hp) as E. eapply runs_one; [exact E|by eapply as_finish|].
  apply runs_ret. eapply HQ; [cbn; apply list_lookup_insert_eq; by eapply lookup_lt_Some|done..].
Qed.

Lemma runs_turn action first s a p : rp_peers s !! i = Some p -> peer_ok i (s, a) -> actionBudget (rp_cfg s) -> la_open (ghostLane action a) = Some (firstGathered first) ->
  aruns s a (actionTurn i action first) (fun r s' a' => turned action first (laneOf action p) s a s' a' r).
Proof.
  intros Hp Hok Hbud Ho. unfold actionTurn. apply runs_bind, runs_get. apply runs_bind. apply (runs_gather action); [done|done|done|done| |].
  { unfold gatherFuel. cbn. pose proof (llen_nonneg (ab_ids first)). pose proof (llen_nonneg (ab_checkpoints first)). lia. }
  intros g s1 l1 L1 L2 L3 Hok1 Ec Ew Em Eu Hdr. set (a1 := setGhost action l1 a) in *. assert (Ea1 : ghostLane action a1 = l1) by apply ghostLane_set.
  destruct Hok1 as (p1 & Hp1 & A1). cbn in Hp1, A1. specialize (Hdr _ _ Hp Hp1). rewrite Hp1, Hp in Eu. injection Eu as Eu.
  assert (Sg : validAckRequest (requestOf (openBatch g)) = true).
  { pose proof (actions_lane _ _ _ action A1) as L. pose proof (lo_sound _ _ L) as Hs. unfold pieces in Hs. rewrite Ea1, L1 in Hs. apply Forall_cons in Hs as [[Hs _] _]. exact Hs. }
  apply validAckRequest_spec in Sg as (V1 & V2 & _). cbn in V1, V2.
  apply runs_bind, runs_quiet, wp_world; [apply now_total|]. intros now w1 E1. split; [done|]. destruct (now_clock _ _ _ E1) as [C1 C1']. rewrite Ew in C1', E1.
  apply runs_bind, runs_quiet. eapply (wp_postLoop _ _ _ p1); [exact Hp1|unfold Millisecond, Second; cbn; lia|unfold postFuel; lia| |].
  { change (50 * Millisecond) with 50000000. cbn [rp_world]. unfold postFuel. change (50 * Millisecond) with 50000000.
    change (rp_world _) with w1. rewrite C1. set (d := cfg_AckDeadline (rp_cfg s)). pose proof (Z.div_mod d 50000000 ltac:(lia)). pose proof (Z.mod_pos_bound d 50000000 ltac:(lia)). lia. }
  intros r w evs X Hr. split; [done|]. rewrite Eu in Hr. change (rp_world (s1 <| rp_world := w1 |>)) with w1 in X. set (s2 := _ <| rp_world := w |>). assert (Hp2 : rp_peers s2 !! i = Some p1) by done.
  assert (X' : exchange (rp_world s) evs w) by by eapply ReplicationSpec.ex_now.
  assert (Hd : pc_clock (rp_world s) + cfg_AckDeadline (rp_cfg s) <= now + cfg_AckDeadline (rp_cfg s)) by lia.
  pose proof (fun s' a' p' H1 H2 => turned_by action first (laneOf action p) s a s' a' g p p' _ r evs Hp H1 H2 V1 V2 Hd) as T.
  destruct r.
  - apply (runs_finish action _ _ _ _ p1); [done|by rewrite Ea1|]. intros s3 p3 Hp3 Elane Em3 Ew3. apply (T _ _ p3); rewrite ?Elane, ?ghostLane_set, ?Ew3, ?Em3, ?Ea1; try done.
    + by rewrite <- Em.
    + by rewrite <- L2.
  - apply runs_bind, runs_quiet, wp_countDropped. intros mt Emt. split; [done|]. apply (runs_finish action _ _ _ _ p1); [done|by rewrite Ea1|].
    intros s3 p3 Hp3 Elane Em3 Ew3. apply (T _ _ p3); rewrite ?Elane, ?ghostLane_set, ?Ew3, ?Em3, ?Ea1; try done.
    + etransitivity; [exact Emt|]. change (rp_metrics s2) with (rp_metrics s1). by rewrite Em.
    + by rewrite <- L2.
  - apply runs_ret. apply (T _ _ p1); [done|done|done|done|by rewrite <- Em|by rewrite Ea1].
Qed.
End Operations.

Section Promises.
Context {W : Type} `{PeerClock W} (i : nat).
Abbreviation RS := (replication W).
Abbreviation aruns := (runsBy (astep i)).
Implicit Types (s : RS) (a : actions).

Lemma turned_from action first q s1 a1 s a s' a' r : la_requests (ghostLane action a1) = la_requests (ghostLane action a) -> rp_metrics s1 = rp_metrics s ->
  rp_cfg s1 = rp_cfg s -> rp_world s1 = rp_world s ->
  (p_url <$> rp_peers s1 !! i) = (p_url <$> rp_peers s !! i) -> turned i action first q s1 a1 s' a' r -> turned i action first q s a s' a' r.
Proof.
  intros E1 E2 E3 E4 E5 [g p1 p' deadline res evs T1 T2 T3 T4 T5 T6 T7 T8 T9 T10]. rewrite T1 in E5. destruct (rp_peers s !! i) as [p|] eqn:Hp; [|done]. injection E5 as E5.
  eapply (turned_by _ _ _ _ _ _ _ _ g p p' deadline res evs); rewrite <- ?E1, <- ?E2, <- ?E3, <- ?E4, <- ?E5; done.
Qed.

(** The batch a turn begins with, and the queue behind it. *)
Definition begins (action : string) s a (first : actionBatch) (q : list actionBatch) : Prop := exists p, rp_peers s !! i = Some p /\
  match la_carry (ghostLane action a) with Some b => first = b /\ q = laneOf action p | None => laneOf action p = first :: q end.

(** What the select of a turn may leave alone. *)
Definition waits (action : string) (ev : actionEvent) s (r : option (option actionBatch)) : Prop :=
  (ev = actionStop /\ r = None) \/ (ev = actionReady /\ r = Some None /\ exists p, rp_peers s !! i = Some p /\ laneOf action p = []).


(** ** Broadcasts *)
Definition queuedFor (action : string) (ids : list string) (checkpoints : list groupCheckpoint) a a' : Prop :=
  la_queued (ghostLane action a') = la_queued (ghostLane action a) ++ [mkActionBatch ids checkpoints (actionSize ids checkpoints)].

Lemma runs_offer canceled action ids checkpoints s a : peer_ok i (s, a) -> actionBudget (rp_cfg s) -> validAckRequest (mkAckRequest ids checkpoints) = true ->
  aruns s a (offerAction canceled i action ids checkpoints) (fun r s' a' => rp_cfg s' = rp_cfg s /\ length (rp_peers s') = length (rp_peers s) /\
    match r with Some true => queuedFor action ids checkpoints a a' | _ => a' = a end).
Proof.
  intros Hok Hbud Hv. pose proof Hok as (p & Hp & A). cbn in Hp, A. pose proof (actionSize_range _ _ Hv) as Hr. unfold offerAction. apply runs_bind.
  set (bytes := actionSize ids checkpoints) in *. pose proof (claimAction_eq i bytes s p Hp) as Ec. destruct (bool_decide _).
  { eapply runs_read; [exact Ec|]. cbn [negb]. apply runs_bind, runs_quiet, wp_countDropped. intros mt _. split; [done|]. by apply runs_ret. }
  set (s1 := s <| rp_peers := _ |>) in Ec. assert (T1 : astep i (s, a) (s1, a <| ac_held := bytes :: ac_held a |>)).
  { apply as_claim; [|exact Ec]. split; [lia|]. etransitivity; [apply Hr|]. change (2 ^ 21 < 2 ^ 62). lia. }
  eapply runs_one; [exact Ec|exact T1|]. cbn [negb]. set (a1 := a <| ac_held := _ |>). assert (Hp1 : rp_peers s1 !! i = Some (p <| p_actionBytes := i64 (p_actionBytes p + bytes) |>)) by (apply list_lookup_insert_eq; by eapply lookup_lt_Some).
  assert (Hback : forall (k : GoM RS (option bool)) (Q : option bool -> RS -> actions -> Prop), (forall s2, rp_cfg s2 = rp_cfg s -> length (rp_peers s2) = length (rp_peers s) -> aruns s2 a k Q) ->
    aruns s1 a1 (addAction i (- bytes) ;;; k) Q).
  { intros k Q Hk. apply runs_bind. pose proof (addAction_eq i (- bytes) s1 _ Hp1) as Eb. eapply runs_one; [exact Eb|apply (as_unclaim i s1 a1 bytes (ac_held a)); [done|exact Eb]|].
    rewrite (set_held_id a : a1 <| ac_held := ac_held a |> = a). apply Hk; [done|]. cbn. by rewrite !length_insert. }
  destruct canceled; [apply Hback; intros s2 E2 E3; by apply runs_ret|]. apply runs_bind.
  pose proof (trySendAction_eq i action (mkActionBatch ids checkpoints bytes) s1 _ Hp1) as Es. destruct (bool_decide _).
  - eapply runs_one; [exact Es|eapply (as_send i s1 a1 action (mkActionBatch ids checkpoints bytes) (ac_held a)); [by split; [|cbn; lia]|done|exact Es]|].
    apply runs_ret. split; [done|]. split; [cbn; by rewrite !length_insert|]. unfold queuedFor, ghostLane, setGhost. by destruct (bool_decide _).
  - eapply runs_read; [exact Es|]. apply Hback. intros s2 E2 E3. apply runs_bind, runs_quiet, wp_countDropped. intros mt _. split; [done|]. by apply runs_ret.
Qed.

(** Another peer. *)
Definition aside {A} (j : nat) (m : GoM RS A) : Prop := forall s, is_Some (rp_peers s !! j) ->
  wp m s (fun _ s' => actionView i s' = actionView i s /\ length (rp_peers s') = length (rp_peers s)).
Lemma aside_ret {A} j (x : A) : aside j (gret x).
Proof. intros s _. by apply wp_ret. Qed.
Lemma aside_bind {A B} j (m : GoM RS A) (k : A -> GoM RS B) : aside j m -> (forall x, aside j (k x)) -> aside j (gbind m k).
Proof.
  intros Hm Hk s Hs. apply wp_bind. eapply wp_mono; [by apply Hm|]. intros x s1 [E1 L1]. eapply wp_mono; [apply Hk|cbn; intros _ s2 [E2 L2]; split; congruence].
  apply lookup_lt_is_Some. rewrite L1. by apply lookup_lt_is_Some.
Qed.
Lemma aside_get j : aside j gget.
Proof. by intros s _. Qed.
Lemma aside_peer j : aside j (peerAt j).
Proof. intros s [p Hp]. unfold peerAt. wp_step. wp_step. by eapply wp_lift. Qed.
Lemma aside_update j f : j <> i -> aside j (updatePeer j f).
Proof. intros Hj s _. apply wp_modify. unfold actionView. cbn. by rewrite list_lookup_alter_ne, length_alter. Qed.
Lemma aside_count j action n : aside j (countDroppedAction action n).
Proof. intros s _. by apply wp_countDropped. Qed.

Lemma aside_offer j canceled action ids checkpoints : j <> i -> aside j (offerAction canceled j action ids checkpoints).
Proof.
  intros Hj. unfold offerAction, claimAction, trySendAction, addAction.
  repeat first [apply aside_ret|apply aside_get|apply aside_peer|apply aside_count|by apply aside_update|apply aside_bind; [|intros ?]|case_match].
Qed.

(** The peers from here on: nothing else is queued for this one. *)
Lemma runs_broadcast canceled action x : forall peers ok s a, NoDup peers -> (forall j, j ∈ peers -> (j < length (rp_peers s))%nat) ->
  peer_ok i (s, a) -> actionBudget (rp_cfg s) -> validAckRequest x = true ->
  aruns s a (broadcastFrom peers canceled action x ok) (fun r s' a' => (r = true -> ok = true) /\
    if bool_decide (i ∈ peers) then (r = true -> queuedFor action (ar_DeliveryIDs x) (ar_Checkpoints x) a a') /\ (a' = a \/ queuedFor action (ar_DeliveryIDs x) (ar_Checkpoints x) a a')
    else a' = a).
Proof.
  intros peers. induction peers as [|j peers IH]; intros ok s a Hnd Hlt Hok Hbud Hv; cbn [broadcastFrom]; [by apply runs_ret|].
  apply NoDup_cons in Hnd as [Hj Hnd]. assert (Hrest : forall s1, length (rp_peers s1) = length (rp_peers s) -> forall k, k ∈ peers -> (k < length (rp_peers s1))%nat).
  { intros s1 -> k Hk. apply Hlt. by right. }
  assert (Hpeer : forall s1, actionView i s1 = actionView i s -> peer_ok i (s1, a) /\ rp_cfg s1 = rp_cfg s).
  { intros s1 E. apply (astep_ok i (s, a) (s1, a)); [done|done|by apply as_other]. }
  apply runs_bind. destruct (decide (j = i)) as [->|Hne].
  - rewrite (bool_decide_eq_true_2 (i ∈ i :: peers)) by left. pose proof (runs_offer (canceled i) action (ar_DeliveryIDs x) (ar_Checkpoints x) s a Hok Hbud) as Ho.
    destruct x as [ids checkpoints]. cbn [ar_DeliveryIDs ar_Checkpoints] in *. eapply wp_mono; [exact (Ho Hv)|].
    intros r s1 (a1 & S1 & E1 & E2 & Hr). exists a1. split; [done|].
    assert (Hok1 : peer_ok i (s1, a1)).
    { eapply (steps_inv (astep i) (fun y => peer_ok i y /\ actionBudget (rp_cfg y.1)) (s, a)); [|done|exact S1].
      intros y z [Y1 Y2] St. destruct (astep_ok i y z Y2 Y1 St) as [Z1 Z2]. split; [done|by rewrite Z2]. }
    destruct r as [sent|]; [|apply runs_ret; split; [done|]; split; [done|by left]].
    eapply runs_mono; [apply IH; [done|by apply Hrest|done|by rewrite E1|done]|]. rewrite (bool_decide_eq_false_2 (i ∈ peers)) by done.
    intros r s2 a2 [Hr2 ->]. split; [intros Ht%Hr2; by apply andb_true_iff in Ht as [-> _]|].
    destruct sent; [by split; [|right]|]. split; [|by left]. intros Ht%Hr2. by destruct ok.
  - apply runs_quiet. eapply wp_mono; [apply aside_offer; [done|apply lookup_lt_is_Some, Hlt; left]|].
    intros r s1 [E1 E2]. split; [done|]. destruct (Hpeer s1 E1) as [Hok1 Ec]. rewrite (bool_decide_ext (i ∈ j :: peers) (i ∈ peers)) by set_solver.
    destruct r as [sent|]; [|apply runs_ret; split; [done|]; case_bool_decide; [|done]; split; [done|by left]].
    eapply runs_mono; [apply IH; [done|by apply Hrest|done|by rewrite Ec|done]|]. intros r s2 a2 [Hr2 Hq]. split; [|done]. intros Ht%Hr2. by apply andb_true_iff in Ht as [-> _].
Qed.
End Promises.

Section Queues.
Context {W : Type}.

(** C8: whatever the interleaving of broadcasts and of the two workers of a peer, [actionBytes] is exactly what is held, queued and
    open, and stays within its budget; each queue has its bound; the identifiers and checkpoints that were queued are, in order and
    without loss or repetition, those of the finished requests, of the open one and of the queue; and every finished
    request passes the checks that [decodeAckRequest] makes on the counts and on each identifier and checkpoint. The limit of 1 MiB that it sets on
    the encoded request is not among them: joined names that need escapes can exceed it. *)
Theorem action_queues i cfg urls m w (s : replication W) (a : actions) :
  (i < length urls)%nat -> actionBudget cfg -> steps (astep i) (mkReplication cfg (newPeer <$> urls) false m w, noActions) (s, a) ->
  exists p, rp_peers s !! i = Some p /\ 0 <= p_actionBytes p <= cfg_ActionQueueBytes cfg /\
    p_actionBytes p = zsum (ac_held a) + laneBytes (p_acks p) (ac_ack a) + laneBytes (p_nacks p) (ac_nack a) /\
    forall action, let l := ghostLane action a in let q := laneOf action p in
      llen q <= 1024 /\ Forall (fun r => validAckRequest r = true) (la_requests l) /\
      idsOf (la_queued l) = concat (ar_DeliveryIDs <$> la_requests l) ++ idsOf (pieces q l) /\
      checkpointsOf (la_queued l) = concat (ar_Checkpoints <$> la_requests l) ++ checkpointsOf (pieces q l).
Proof.
  intros Hi Hbud St. apply lookup_lt_is_Some in Hi as [url Hurl]. set (s0 := mkReplication _ _ _ _ _) in St.
  assert (Hok : peer_ok i (s, a) /\ rp_cfg s = cfg).
  { apply (steps_inv (astep i) (fun y => peer_ok i y /\ rp_cfg y.1 = cfg) (s0, noActions)); [| |exact St].
    - intros y z [Y1 Y2] T. destruct (astep_ok i y z) as [Z1 Z2]; [by rewrite Y2|done|done|]. split; [done|by rewrite Z2].
    - split; [|done]. exists (newPeer url). split; [cbn; by rewrite list_lookup_fmap, Hurl|]. apply actions_ok_new. unfold actionBudget in Hbud. cbn. lia. }
  destruct Hok as [(p & Hp & A) Ec]. cbn in Hp, A. rewrite Ec in A. exists p. split; [done|]. destruct (actions_nonneg _ _ _ "ack" A) as [N1 N2]. pose proof (ao_max _ _ _ A).
  split; [lia|]. split; [apply A|]. intros action l q. pose proof (actions_lane _ _ _ action A) as [L1 L2 L3 L4 L5 _]. by split_and!.
Qed.

(** [broadcastAction] offers a valid request once to every peer: it returns, as a sequence of the steps of [astep] for each
    of them, and when it answers [true] the request is in the queue of every peer. *)
Theorem broadcast_action i canceled action x (s : replication W) (a : actions) : (i < length (rp_peers s))%nat -> peer_ok i (s, a) -> actionBudget (rp_cfg s) -> validAckRequest x = true ->
  runsBy (astep i) s a (broadcastAction canceled action x) (fun r s' a' =>
    (r = true -> queuedFor action (ar_DeliveryIDs x) (ar_Checkpoints x) a a') /\ (a' = a \/ queuedFor action (ar_DeliveryIDs x) (ar_Checkpoints x) a a')).
Proof.
  intros Hi Hok Hbud Hv. unfold broadcastAction, allPeers. apply runs_bind, runs_bind, runs_get, runs_ret.
  eapply runs_mono; [apply runs_broadcast; try done; [apply NoDup_seq|intros j Hj; apply elem_of_seq in Hj; lia]|].
  intros r s' a' [_ Hq]. rewrite bool_decide_eq_true_2 in Hq by (apply elem_of_seq; lia). exact Hq.
Qed.
End Queues.

(** ** A peer that answers *)
#[local] Instance ex_net : PeerNet Z := {| pn_do := fun _ _ => gret (replied 204 "" "2"); pn_pause := fun d w => Some (false, w + Z.max 0 d); pn_now := fun w => Some (w, w) |}.
#[local] Instance ex_total : PeerNetTotal Z.
Proof. split; by eexists. Qed.
#[local] Instance ex_clock : PeerClock Z.
Proof.
  refine {| pc_clock := fun w => w |}.
  - intros w t w' [= <- <-]. lia.
  - intros url req w r w' [= _ <-]. lia.
  - intros d w w' [= <-]. lia.
Qed.

Definition ex_ack : ackRequest := mkAckRequest ["d1"; "d2"] [mkCheckpoint "orders" "billing" "m1" 7].
Definition ex_batch : actionBatch := mkActionBatch (ar_DeliveryIDs ex_ack) (ar_Checkpoints ex_ack) (actionSize (ar_DeliveryIDs ex_ack) (ar_Checkpoints ex_ack)).
Definition ex_queue : replication Z :=
  mkReplication DefaultConfig [(newPeer "http://b") <| p_acks := [ex_batch; ex_batch] |> <| p_actionBytes := 2 * ab_bytes ex_batch |>; newPeer "http://c"] false newMetrics 0.
Definition ex_actions : actions := noActions <| ac_ack := idleLane <| la_queued := [ex_batch; ex_batch] |> |>.

Lemma ex_actionBudget : actionBudget DefaultConfig.
Proof. by vm_compute. Qed.
Lemma ex_valid : validAckRequest ex_ack = true.
Proof. by vm_compute. Qed.
Lemma ex_queue_ok : peer_ok 0 (ex_queue, ex_actions).
Proof.
  eexists. split; [reflexivity|]. split; cbn [fst snd]; try apply lane_ok_idle; try (by vm_compute).
  split; try (by vm_compute); try done. repeat constructor; by vm_compute.
Qed.


Lemma broadcast_action_witness : runsBy (astep 0) ex_queue ex_actions (broadcastAction (fun _ => false) "ack" ex_ack) (fun r s' a' =>
  (r = true -> queuedFor "ack" (ar_DeliveryIDs ex_ack) (ar_Checkpoints ex_ack) ex_actions a') /\
  (a' = ex_actions \/ queuedFor "ack" (ar_DeliveryIDs ex_ack) (ar_Checkpoints ex_ack) ex_actions a')).
Proof. exact (broadcast_action 0 (fun _ => false) "ack" ex_ack ex_queue ex_actions (Nat.lt_0_succ 1) ex_queue_ok ex_actionBudget ex_valid). Defined.

(** The first turn sends both requests at once. *)
Lemma ex_turn : exists s', actionLoop 0 "ack" None actionReady ex_queue = Some (Some None, s') /\ p_actionBytes <$> rp_peers s' !! 0%nat = Some 0.
Proof. eexists. split; vm_compute; reflexivity. Qed.

(** A broadcast to a fresh peer, with its steps. *)
Lemma ex_start_ok : peer_ok 0 (mkReplication DefaultConfig (newPeer <$> ["http://b"; "http://c"]) false newMetrics 0, noActions).
Proof. eexists. split; [reflexivity|]. apply actions_ok_new. by vm_compute. Qed.
Definition ex_sent : replication Z := mkReplication DefaultConfig [((newPeer "http://b") <| p_actionBytes := ab_bytes ex_batch |>) <| p_acks := [ex_batch] |>; newPeer "http://c"] false newMetrics 0.
Definition ex_sentActions : actions := noActions <| ac_ack := idleLane <| la_queued := [ex_batch] |> |>.
Lemma ex_actionSteps : steps (astep 0) (mkReplication DefaultConfig (newPeer <$> ["http://b"; "http://c"]) false newMetrics 0, noActions) (ex_sent, ex_sentActions).
Proof.
  eapply steps_step; [apply (as_claim 0 _ _ (ab_bytes ex_batch) (mkReplication DefaultConfig [(newPeer "http://b") <| p_actionBytes := ab_bytes ex_batch |>; newPeer "http://c"] false newMetrics 0)); [by vm_compute|reflexivity]|].
  set (a1 := noActions <| ac_held := _ |>).
  assert (E : ex_sentActions = (setGhost "ack" ((ghostLane "ack" a1) <| la_queued := la_queued (ghostLane "ack" a1) ++ [ex_batch] |>) a1) <| ac_held := [] |>) by (vm_compute; reflexivity).
  rewrite E. apply steps_one, as_send; [split; by vm_compute|done|reflexivity].
Qed.

Lemma action_queues_witness : exists p, rp_peers ex_sent !! 0%nat = Some p /\ 0 <= p_actionBytes p <= cfg_ActionQueueBytes DefaultConfig /\
  p_actionBytes p = zsum (ac_held ex_sentActions) + laneBytes (p_acks p) (ac_ack ex_sentActions) + laneBytes (p_nacks p) (ac_nack ex_sentActions) /\
  forall action, let l := ghostLane action ex_sentActions in let q := laneOf action p in
    llen q <= 1024 /\ Forall (fun r => validAckRequest r = true) (la_requests l) /\
    idsOf (la_queued l) = concat (ar_DeliveryIDs <$> la_requests l) ++ idsOf (pieces q l) /\
    checkpointsOf (la_queued l) = concat (ar_Checkpoints <$> la_requests l) ++ checkpointsOf (pieces q l).
Proof. exact (action_queues 0 DefaultConfig ["http://b"; "http://c"] newMetrics 0 ex_sent ex_sentActions (Nat.lt_0_succ 1) ex_actionBudget ex_actionSteps). Defined.
