(* ===== verification/StreamCursor.v ===== *)
(** * Resume cursors

    stream_cursor.go, [encodeReplayCursor] and [decodeReplayCursor] of internal/broker/broker.go: a cursor
    says for each origin up to which sequence a subscriber has been served, so that a new stream
    replays exactly what the broken one had not written.  A stream forgets origins whose messages
    have all expired.  encoding/json is behind [CursorJSON]. *)
From S2P Require Import Prelude Types GoIO Base64 Pending Cache.
From Stdlib Require Import String Ascii.
#[local] Open Scope Z_scope.

(** [json.Marshal] and [json.Unmarshal] of a [replayCursor]; [Some None]: no sequences in the text. *)
Definition asciiText (s : string) : bool := forallb (fun c => bool_decide (nat_of_ascii c < 128)%nat) (list_ascii_of_string s).
Class CursorJSON := {
  cj_marshal : gmap string Z -> list byte;
  cj_unmarshal : list byte -> option (option (gmap string Z));
  cj_roundtrip m : (forall k v, m !! k = Some v -> asciiText k = true /\ in_u64 v) -> cj_unmarshal (cj_marshal m) = Some (Some m);
}.

(** [type streamCursor struct] *)
Record streamCursor := mkStreamCursor { sc_sequences : gmap string Z; sc_expires : gmap string Z }.
#[export] Instance streamCursor_settable : Settable streamCursor := fun r => mkStreamCursor (sc_sequences r) (sc_expires r).
#[export] Instance set_sc_sequences : Setter sc_sequences := ltac:(derive_setter).
#[export] Instance set_sc_expires : Setter sc_expires := ltac:(derive_setter).

Definition maxCursorOrigins : Z := 256.

(** A map that is indexed at a missing key reads zero. *)
Definition at0 (m : gmap string Z) (k : string) : Z := default 0 (m !! k).

Definition newStreamCursor (sequences retainedUntil : gmap string Z) : streamCursor :=
  mkStreamCursor sequences (map_imap (fun origin _ => Some (at0 retainedUntil origin)) sequences).

(** The loop of [stream] over the cursor: the expiry of an origin that is ahead of what this broker has received is unknown. *)
Definition unknownExpiry (receivedThrough : gmap string Z) (c : streamCursor) : streamCursor :=
  c <| sc_expires := map_imap (fun origin until =>
    Some (if bool_decide (at0 receivedThrough origin < at0 (sc_sequences c) origin) then 0 else until)) (sc_expires c) |>.

Definition decodeLimit : Z := 16384.
Definition encodeLimit : Z := 12288.

Section Cursor.
Context `{CursorJSON}.

Definition encodeReplayCursor (sequences : gmap string Z) : string :=
  if bool_decide (maxCursorOrigins < mlen sequences) then "" else
  let b := cj_marshal sequences in
  if bool_decide (encodeLimit < llen b) then "" else encode64 b.

Definition decodeReplayCursor (value : string) : option (gmap string Z) :=
  if bool_decide (value = "") then Some ∅ else
  b ← decode64 value ;
  if bool_decide (decodeLimit < llen b) then None else
  sequences ← cj_unmarshal b ;
  match sequences with
  | None => None
  | Some sequences =>
    if bool_decide (maxCursorOrigins < mlen sequences) then None else
    if forallb (fun p : string * Z => negb (bool_decide (p.1 = "") || bool_decide (64 < slen p.1))) (map_to_list sequences) then Some sequences else None
  end.

(** The origins whose messages have all expired. *)
Definition dropExpired (now : Z) (c : streamCursor) : streamCursor :=
  let dead := filter (fun p => 0 < p.2 /\ p.2 <= now) (sc_expires c) in
  mkStreamCursor (sc_sequences c ∖ dead) (sc_expires c ∖ dead).

Definition advanceMaps (d : Delivery) (now : Z) (c : streamCursor) : streamCursor :=
  let exists_ := bool_decide (is_Some (sc_sequences c !! d_origin d)) in
  let c := if exists_ then c else dropExpired now c in
  let c := c <| sc_sequences := <[d_origin d := Z.max (at0 (sc_sequences c) (d_origin d)) (d_sequence d)]> (sc_sequences c) |> in
  if negb exists_ || bool_decide (0 < at0 (sc_expires c) (d_origin d))
  then c <| sc_expires := <[d_origin d := Z.max (at0 (sc_expires c) (d_origin d)) (d_expiresAt d)]> (sc_expires c) |> else c.

Definition advance (c : streamCursor) (d : Delivery) (now : Z) : string * streamCursor :=
  let c := advanceMaps d now c in (encodeReplayCursor (sc_sequences c), c).
End Cursor.

(** ** Texts *)
Section Texts.
Context `{CursorJSON}.

Definition originOK (origin : string) : Prop := asciiText origin = true /\ 0 < slen origin <= 64.
Definition cursorOK (sequences : gmap string Z) : Prop := forall origin v, sequences !! origin = Some v -> originOK origin /\ in_u64 v.

(** A cursor that was given out is understood. *)
Lemma decode_encode_cursor sequences : cursorOK sequences -> encodeReplayCursor sequences <> "" -> decodeReplayCursor (encodeReplayCursor sequences) = Some sequences.
Proof.
  intros Hok Hne. unfold decodeReplayCursor. rewrite bool_decide_eq_false_2 by done. unfold encodeReplayCursor in *.
  destruct (bool_decide_reflect (maxCursorOrigins < mlen sequences)) as [|Hm]; [done|]. cbv zeta in *.
  destruct (bool_decide_reflect (encodeLimit < llen (cj_marshal sequences))) as [|Hl]; [done|]. rewrite decode_encode64. cbn [option_bind mbind].
  unfold encodeLimit, decodeLimit in *. rewrite bool_decide_eq_false_2 by lia.
  rewrite cj_roundtrip by (intros k v Hk; destruct (Hok k v Hk) as [[? ?] ?]; done). cbn [option_bind mbind]. rewrite bool_decide_eq_false_2 by done.
  replace (forallb _ _) with true; [done|]. symmetry. apply forallb_forall. intros [k v] Hk. apply list_elem_of_In, elem_of_map_to_list in Hk.
  destruct (Hok k v Hk) as [[_ Hlen] _]. cbn. rewrite negb_true_iff, orb_false_iff, !bool_decide_eq_false. split; [|lia]. intros ->. change (slen "") with 0 in Hlen. lia.
Qed.
End Texts.

(** ** What a cursor covers *)
Lemma dropExpired_sequences now c o : sc_sequences (dropExpired now c) !! o = match sc_expires c !! o with Some u => if bool_decide (0 < u /\ u <= now) then None else sc_sequences c !! o | None => sc_sequences c !! o end.
Proof.
  unfold dropExpired. cbn. rewrite lookup_difference, map_lookup_filter. destruct (sc_expires c !! o) as [u|]; [|done]. cbn. case_bool_decide as Hu.
  - by rewrite option_guard_True.
  - by rewrite option_guard_False.
Qed.
Lemma dropExpired_expires now c o : sc_expires (dropExpired now c) !! o = match sc_expires c !! o with Some u => if bool_decide (0 < u /\ u <= now) then None else Some u | None => None end.
Proof.
  unfold dropExpired. cbn. rewrite lookup_difference, map_lookup_filter. destruct (sc_expires c !! o) as [u|]; [|done]. cbn. case_bool_decide as Hu.
  - by rewrite option_guard_True.
  - by rewrite option_guard_False.
Qed.

(** The frames of a stream with the instants of their writing, in order. *)
Definition frames := list (Delivery * Z).
Definition advanceAll (l : frames) (c : streamCursor) : streamCursor := foldl (fun c f => advanceMaps f.1 f.2 c) c l.
(** What a replay with a cursor would send, of a history. *)
Definition unread (cursor : gmap string Z) (h : list Message) : list Message := filter (fun m => at0 cursor (m_Origin m) < m_Sequence m) h.

(** A message that is newer than the cursor, and than every frame of its origin. *)
Definition beyond (cursor : gmap string Z) (l : frames) (m : Message) : Prop :=
  at0 cursor (m_Origin m) < m_Sequence m /\ forall f, f ∈ l -> d_origin f.1 = m_Origin m -> d_sequence f.1 < m_Sequence m.
(** A frame of the message. *)
Definition carries (f : Delivery * Z) (m : Message) : Prop := d_origin f.1 = m_Origin m /\ d_sequence f.1 = m_Sequence m /\ d_expiresAt f.1 = m_ExpiresAt m.

Lemma at0_insert m k v k' : at0 (<[k := v]> m) k' = if bool_decide (k' = k) then v else at0 m k'.
Proof. unfold at0. case_bool_decide as Hk; [subst; by rewrite lookup_insert_eq|by rewrite lookup_insert_ne]. Qed.

Lemma at0_dropExpired now c o : at0 (sc_sequences (dropExpired now c)) o = 0 \/ at0 (sc_sequences (dropExpired now c)) o = at0 (sc_sequences c) o.
Proof. unfold at0. rewrite dropExpired_sequences. destruct (sc_expires c !! o); [case_bool_decide; [by left|]|]; by right. Qed.

(** A cursor does not pass what no frame has reached. *)
Lemma advance_behind f c o v : at0 (sc_sequences c) o < v -> 0 < v -> (d_origin f.1 = o -> d_sequence f.1 < v) -> at0 (sc_sequences (advanceMaps f.1 f.2 c)) o < v.
Proof.
  intros Hc Hv Hf. unfold advanceMaps. set (c1 := if bool_decide _ then c else dropExpired f.2 c).
  assert (H1 : at0 (sc_sequences c1) o < v) by (unfold c1; case_bool_decide; [done|]; destruct (at0_dropExpired f.2 c o) as [-> | ->]; done).
  assert (H2 : at0 (<[d_origin f.1 := Z.max (at0 (sc_sequences c1) (d_origin f.1)) (d_sequence f.1)]> (sc_sequences c1)) o < v).
  { rewrite at0_insert. destruct (bool_decide_reflect (o = d_origin f.1)) as [->|]; [|done]. specialize (Hf eq_refl). lia. }
  by destruct (_ || _).
Qed.

Lemma advanceAll_behind l c o v : at0 (sc_sequences c) o < v -> 0 < v -> (forall f, f ∈ l -> d_origin f.1 = o -> d_sequence f.1 < v) -> at0 (sc_sequences (advanceAll l c)) o < v.
Proof.
  revert c. induction l as [|f l IH]; intros c Hc Hv Hl; [done|]. cbn. apply IH; [|done|intros g Hg; apply Hl; by right]. apply advance_behind; [done..|]. apply Hl. left.
Qed.

(** A cursor that covers a sequence, and does not forget it before [e]. *)
Definition reached (o : string) (v e : Z) (c : streamCursor) : Prop := v <= at0 (sc_sequences c) o /\ (0 < at0 (sc_expires c) o -> e <= at0 (sc_expires c) o).

Lemma reached_drop o v e c t : reached o v e c -> t < e -> reached o v e (dropExpired t c).
Proof.
  intros [H1 H2] Ht. unfold reached, at0 in *. rewrite dropExpired_sequences, dropExpired_expires. destruct (sc_expires c !! o) as [u|]; cbn in *; [|done].
  case_bool_decide as Hu; [lia|done].
Qed.

Lemma reached_advance o v e c f : 0 < v -> f.2 < e -> reached o v e c \/ (d_origin f.1 = o /\ d_sequence f.1 = v /\ d_expiresAt f.1 = e) -> reached o v e (advanceMaps f.1 f.2 c).
Proof.
  intros Hv Ht Hc. unfold advanceMaps. set (known := bool_decide _). set (c1 := if known then c else dropExpired f.2 c).
  assert (H1 : reached o v e c1 \/ (d_origin f.1 = o /\ d_sequence f.1 = v /\ d_expiresAt f.1 = e)) by (unfold c1; destruct known; [done|]; destruct Hc as [Hc|Hc]; [left; by apply reached_drop|by right]).
  assert (Hk : reached o v e c1 -> d_origin f.1 = o -> known = true).
  { unfold c1, known. intros [Hr _] <-. case_bool_decide as Hn; [done|]. apply eq_None_not_Some in Hn. unfold at0 in Hr. rewrite dropExpired_sequences, Hn in Hr.
    destruct (sc_expires c !! d_origin f.1); [case_bool_decide|]; cbn in Hr; lia. }
  unfold reached in *. destruct (negb known || _) eqn:Eb; cbn; rewrite !at0_insert.
  - destruct (bool_decide_reflect (o = d_origin f.1)) as [Eo|Eo]; [|destruct H1 as [H1|(? & _)]; [done|congruence]]. subst o.
    destruct H1 as [[H1 H2]|(_ & <- & <-)]; [|lia]. specialize (Hk (conj H1 H2) eq_refl). rewrite Hk in Eb. cbn in Eb. apply bool_decide_eq_true in Eb.
    change (0 < at0 (sc_expires c1) (d_origin f.1)) in Eb. specialize (H2 Eb). lia.
  - apply orb_false_iff in Eb as [_ Eb]. apply bool_decide_eq_false in Eb. change (~ 0 < at0 (sc_expires c1) (d_origin f.1)) in Eb.
    destruct (bool_decide_reflect (o = d_origin f.1)) as [->|Eo]; [|destruct H1 as [H1|(? & _)]; [done|congruence]]. destruct H1 as [[H1 H2]|(_ & <- & _)]; split; try lia.
Qed.

(** What a frame has delivered stays covered, as long as it has not expired. *)
Lemma advanceAll_reached l c o v e now f : 0 < v -> now < e -> Forall (fun f => f.2 <= now) l -> f ∈ l -> d_origin f.1 = o -> d_sequence f.1 = v -> d_expiresAt f.1 = e -> v <= at0 (sc_sequences (advanceAll l c)) o.
Proof.
  intros Hv He Ht Hf E1 E2 E3. enough (reached o v e (advanceAll l c)) as [? _] by done.
  induction l as [|g l IH] using rev_ind; [by apply elem_of_nil in Hf|]. apply Forall_app in Ht as [Ht [Hg _]%Forall_cons].
  unfold advanceAll. rewrite foldl_snoc. apply reached_advance; [done|lia|]. apply elem_of_app in Hf as [Hf|Hf]; [left; by apply IH|]. apply list_elem_of_singleton in Hf as ->. by right.
Qed.
