(* ===== verification/StreamResume.v ===== *)
(** * Resuming a stream

    What a cursor promises: a stream that is opened with the cursor of the last frame of another one replays
    every message that is newer than the frames of its origin, and none that a frame has delivered. *)
From S2P Require Import Prelude GoHeap Dll Types Config Metrics GoIO Base64 Pending Cache CacheIndex CacheExpiry CacheInv CacheExpire CacheSpec StreamCursor.
From Stdlib Require Import String Ascii.
#[local] Open Scope Z_scope.

(** The messages of a topic in the order of its index. *)
Definition history (c : cache) (topic : string) : list Message := omap (fun r => c_mstore c !! r) (live (default [] (c_topics c !! topic))).

Lemma passing_history st p (l : list loc) out : (forall r m, (r, m) ∈ out -> st !! r = Some m) -> out.*1 = passing st p l ->
  out.*2 = filter (fun m => p m = true) (omap (fun r => st !! r) l).
Proof.
  revert out. unfold passing. induction l as [|r l IH]; intros out Hout E; cbn [omap list_omap] in *; [by destruct out|]. destruct (st !! r) as [m|] eqn:Hm; cbn [mbind option_bind] in *; [|by apply IH].
  rewrite filter_cons. destruct (p m) eqn:Ep; [|rewrite decide_False by done; by apply IH]. rewrite decide_True by done.
  destruct out as [|[r' m'] out]; [done|]. cbn in E. injection E as -> E. cbn. assert (m' = m) as -> by (specialize (Hout r m' ltac:(left)); congruence).
  f_equal. apply IH; [|done]. intros x y Hx. apply Hout. by right.
Qed.

Lemma wp_topicHistory c topic p (Q : list (loc * Message) -> cache -> Prop) : cacheOK c ->
  (forall l, l.*2 = filter (fun m => p m = true) (history c topic) -> Q l c) -> wp (topicFilter topic p) c Q.
Proof.
  intros [[L I] _] HQ. unfold topicFilter. wp_step. apply wp_get. set (idx := default [] (c_topics c !! topic)).
  assert (Hst : forall r, r ∈ live idx -> is_Some (c_mstore c !! r)).
  { intros r [i Hi]%elem_of_live. unfold idx in Hi. destruct (c_topics c !! topic) as [l|] eqn:El; [|by destruct i].
    destruct (ixt_slot _ _ _ _ (ci_topics _ _ _ I) _ _ _ _ El Hi) as (m & ? & _). by exists m. }
  wp_step. apply wp_filterLive; [exact Hst|]. intros l' El'. rewrite El'.
  apply wp_derefAll; [intros r [Hr _]%elem_of_passing; by apply Hst|]. intros out Eout Hout. apply HQ. by eapply passing_history.
Qed.

Lemma replayIDs_unread c topic cursor : cacheOK c -> replayIDsLocked topic cursor false 0 c = Some (m_ID <$> unread cursor (history c topic), c).
Proof.
  intros K. assert (Hw : wp (replayIDsLocked topic cursor false 0) c (fun ids c' => c' = c /\ ids = m_ID <$> unread cursor (history c topic))).
  { unfold replayIDsLocked. wp_step. apply wp_topicHistory; [done|]. intros l El. apply wp_ret. split; [done|].
    change ((fun p : loc * Message => m_ID p.2) <$> l) with (compose m_ID snd <$> l). rewrite list_fmap_compose, El. f_equal. unfold unread.
    apply list_filter_iff. intros m. cbn. by rewrite bool_decide_eq_true. }
  apply wp_elim in Hw as (ids & c' & E & -> & ->). exact E.
Qed.

Section Resume.
Context `{CursorJSON}.

Lemma cursorOK_insert sequences o v : cursorOK sequences -> originOK o -> in_u64 v -> cursorOK (<[o := v]> sequences).
Proof. intros Hok Ho Hv k x. destruct (decide (k = o)) as [->|Hne]; [rewrite lookup_insert_eq; by intros [= <-]|rewrite lookup_insert_ne by done; apply Hok]. Qed.

Lemma advance_cursorOK f c : cursorOK (sc_sequences c) -> originOK (d_origin f.1) -> in_u64 (d_sequence f.1) -> cursorOK (sc_sequences (advanceMaps f.1 f.2 c)).
Proof.
  intros Hok Ho Hv. destruct f as [d t]. cbn [fst snd] in *. unfold advanceMaps. set (c1 := if bool_decide _ then c else dropExpired t c).
  assert (Hok1 : cursorOK (sc_sequences c1)).
  { unfold c1. case_bool_decide; [done|]. intros k v. rewrite dropExpired_sequences. destruct (sc_expires c !! k); [case_bool_decide; [done|]|]; apply Hok. }
  assert (Hok2 : cursorOK (<[d_origin d := Z.max (at0 (sc_sequences c1) (d_origin d)) (d_sequence d)]> (sc_sequences c1))).
  { apply cursorOK_insert; [done|done|]. unfold in_u64, at0 in *. destruct (sc_sequences c1 !! d_origin d) as [v|] eqn:Ev; cbn; [|lia].
    destruct (Hok1 _ _ Ev) as [_ Hv1]. unfold in_u64 in Hv1. lia. }
  by destruct (_ || _).
Qed.

Lemma advanceAll_cursorOK l c : cursorOK (sc_sequences c) -> Forall (fun f => originOK (d_origin f.1) /\ in_u64 (d_sequence f.1)) l -> cursorOK (sc_sequences (advanceAll l c)).
Proof.
  revert c. induction l as [|f l IH]; intros c Hok Hl; cbn; [done|]. apply Forall_cons in Hl as [[Ho Hv] Hl]. apply IH; [by apply advance_cursorOK|done].
Qed.

(** A replay from the cursor of the last frame: of the messages of the topic that are cached, in their order, every one that is
    beyond the first cursor and the frames, and none that has not expired and that a frame has delivered, also where the stream has forgotten origins. *)
Lemma resumed_replay c l now k topic : cacheOK k -> cursorOK (sc_sequences c) -> Forall (fun f => originOK (d_origin f.1) /\ in_u64 (d_sequence f.1)) l -> Forall (fun f => f.2 <= now) l ->
  exists ms, replayIDsLocked topic (sc_sequences (advanceAll l c)) false 0 k = Some (m_ID <$> ms, k) /\ ms `sublist_of` history k topic /\
    (forall m, m ∈ history k topic -> beyond (sc_sequences c) l m -> m ∈ ms) /\ (forall f m, f ∈ l -> carries f m -> now < m_ExpiresAt m -> m ∉ ms).
Proof.
  intros K Hok Hl Ht. exists (unread (sc_sequences (advanceAll l c)) (history k topic)). unfold unread. split_and!; [by apply replayIDs_unread|apply sublist_filter| |].
  - intros m Hm [Hc Hf]. apply list_elem_of_filter. split; [|done]. apply advanceAll_behind; [done| |done].
    enough (0 <= at0 (sc_sequences c) (m_Origin m)) by lia. unfold at0. destruct (sc_sequences c !! m_Origin m) as [v|] eqn:Ev; [|done]. destruct (Hok _ _ Ev) as [_ Hv]. unfold in_u64 in Hv. cbn. lia.
  - intros f m Hf (E1 & E2 & E3) Hnow [Hm _]%list_elem_of_filter. destruct (decide (0 < m_Sequence m)) as [Hp|Hp].
    + pose proof (advanceAll_reached l c (m_Origin m) (m_Sequence m) (m_ExpiresAt m) now f Hp Hnow Ht Hf E1 E2 E3). lia.
    + unfold at0 in Hm. destruct (sc_sequences (advanceAll l c) !! m_Origin m) as [v|] eqn:Ev; cbn in Hm; [|lia].
      destruct (advanceAll_cursorOK l c Hok Hl _ _ Ev) as [_ Hv]. unfold in_u64 in Hv. lia.
Qed.

(** The text of that cursor is understood. *)
Lemma advanced_text c l : cursorOK (sc_sequences c) -> Forall (fun f => originOK (d_origin f.1) /\ in_u64 (d_sequence f.1)) l ->
  encodeReplayCursor (sc_sequences (advanceAll l c)) <> "" -> decodeReplayCursor (encodeReplayCursor (sc_sequences (advanceAll l c))) = Some (sc_sequences (advanceAll l c)).
Proof. intros Hok Hl Hne. apply decode_encode_cursor; [by apply advanceAll_cursorOK|done]. Qed.
End Resume.

(** ** A stream that broke after its first frame *)
Fixpoint bitBytes (p : positive) : list byte := match p with xH => [] | xO p => Byte.x00 :: bitBytes p | xI p => Byte.x01 :: bitBytes p end.
Fixpoint byteBits (l : list byte) : positive := match l with [] => xH | b :: l => if bool_decide (b = Byte.x00) then xO (byteBits l) else xI (byteBits l) end.
Lemma byteBits_bytes p : byteBits (bitBytes p) = p.
Proof. induction p as [p IH|p IH|]; cbn; [by rewrite IH|by rewrite IH|done]. Qed.
Definition bitJSON : CursorJSON.
Proof.
  refine {| cj_marshal := fun m => bitBytes (encode (map_to_list m)); cj_unmarshal := fun l => Some (list_to_map <$> (decode (byteBits l) : option (list (string * Z)))) |}.
  intros m _. by rewrite byteBits_bytes, decode_encode; cbn; rewrite list_to_map_to_list.
Defined.

Definition ex_seq (id : string) (expires sequence : Z) : Message := mkMessage id "t" "" ∅ [] 5 expires "o" sequence None None None 0 0 0 0.
Definition ex_history0 : cache := allocated 2%positive (ex_seq "b" 20 2) (allocated 1%positive (ex_seq "a" 10 1) (newCache 1000)).
Definition ex_history1 : cache := afterCache (putLocked 1%positive 0 0 ex_history0).
Definition ex_history2 : cache := afterCache (putLocked 2%positive 0 0 ex_history1).
Lemma ex_history_ok : cacheOK ex_history2.
Proof.
  apply (cruns_ok 1000); [done|]. eapply cruns_step; [eapply cruns_step; [eapply cruns_step; [eapply cruns_step; [apply cruns_new|]|]|]|].
  - by apply (cs_alloc (newCache 1000) 1%positive (ex_seq "a" 10 1)).
  - by apply (cs_alloc (allocated 1%positive (ex_seq "a" 10 1) (newCache 1000)) 2%positive (ex_seq "b" 20 2)).
  - apply (cs_put _ 1%positive 0 0 (true, None) ex_history1); [by eexists|vm_compute; reflexivity].
  - apply (cs_put _ 2%positive 0 0 (true, None) ex_history2); [vm_compute; by eexists|vm_compute; reflexivity].
Qed.

Definition ex_frame : Delivery := mkDelivery "d1" "a" "t" "" ∅ 5 1 "" [] "o" 1 10.
Definition ex_frames : frames := [(ex_frame, 1)].
Definition ex_cursor : streamCursor := mkStreamCursor ∅ ∅.
Lemma ex_frames_ok : Forall (fun f => originOK (d_origin f.1) /\ in_u64 (d_sequence f.1)) ex_frames.
Proof. constructor; [|done]. repeat split; vm_compute; done. Qed.
Lemma ex_cursor_ok : cursorOK (sc_sequences ex_cursor).
Proof. intros o v Hv. change ((∅ : gmap string Z) !! o = Some v) in Hv. by rewrite lookup_empty in Hv. Qed.
