(* ===== verification/Stream.v ===== *)
(** * The subscription stream

    [stream] of internal/broker/broker.go, whole, as a program over the calls it makes ([streamCall]), and what those calls
    do to the cache and the consumer groups ([streamStep]). The response writer, its 64 KiB buffer, the timers and
    the clock answer as they like. A stream has no end of its own: [rounds] bounds how many times its
    loops are followed, and a program that has used them up is [running]. *)
From S2P Require Import Prelude Programs GoHeap Dll Types Config Metrics GoIO Base64 Checkpoints Pending GroupIndex GroupWork Cache Accept StreamCursor Services.
From Stdlib Require Import String Ascii.
#[local] Open Scope Z_scope.

(** [strconv.ParseInt(s, 10, 64)] *)
Fixpoint parseDigits (acc : Z) (l : list ascii) : option Z :=
  match l with
  | [] => Some acc
  | c :: l => let d := Z.of_nat (nat_of_ascii c) - 48 in if bool_decide (0 <= d <= 9) then parseDigits (acc * 10 + d) l else None
  end.
Definition parseInt (s : string) : option Z :=
  let '(negative, digits) := match list_ascii_of_string s with
    | c :: l => if bool_decide (c = "-"%char) then (true, l) else if bool_decide (c = "+"%char) then (false, l) else (false, c :: l)
    | [] => (false, []) end in
  if bool_decide (digits = []) then None else
  n ← parseDigits 0 digits ;
  let n := if negative : bool then - n else n in
  if bool_decide (in_i64 n) then Some n else None.
#[export] Instance in_i64_dec n : Decision (in_i64 n).
Proof. unfold in_i64. apply _. Defined.

(** ** The critical sections *)
Section Sections_.
#[local] Abbreviation SM := (GoM (broker groups)).

Definition topicSlots (topic : string) : CM (list (option Message)) :=
  c <- gget ;;
  gmap_list (fun o : option loc => match o with None => gret None | Some r => m <- cderef r ;; gret (Some m) end) (default [] (c_topics c !! topic)).

Record opened := mkOpened { op_subscriber : loc; op_reserved : Z; op_replay : list string; op_cursor : streamCursor }.

(** The section under [cache.mu]: the cursor is checked, the subscriber registered, the replay listed. *)
Definition openLocked (id topic group member : string) (cursor : gmap string Z) (cursorText : string) (legacy : bool) (since : Z) (draining : bool) (now : Z)
    : SM (string + opened) :=
  let ms := unixMilli now in
  inCache (expireLocked ms ms) ;;;
  c <- inCache gget ;;
  let frontier := c_frontiers c !! topic in
  let '(c, unsafe) := topicUnsafeLocked topic ms c in
  inCache (gput c) ;;;
  let legacyLost := legacy && (unsafe || match frontier with Some f => bool_decide (0 < mlen (tf_Sequences f)) | None => false end) in
  if legacyLost || (negb legacy && bool_decide (cursorText <> "") && (unsafe || frontierBehind cursor frontier)) then
    inSink (GroupWork.count mt_CursorExpired) ;;; inSink (releaseStreamMemory streamMemoryReservation) ;;; gret (inl "cursor_expired")
  else
  let sc := unknownExpiry (c_receivedThrough c) (newStreamCursor cursor (c_receivedUntil c)) in
  messages <- inCache (topicSlots topic) ;;
  joined <- inSink (joinStream id topic group member messages draining ms) ;;
  match joined with
  | inl code => gret (inl code)
  | inr (sr, reserved) =>
    replay <- (if bool_decide (group = "") then inCache (replayIDsLocked topic cursor legacy since) else gret []) ;;
    gret (inr (mkOpened sr reserved replay sc))
  end.

(** [b.replayMessage(id)], the message by its value. *)
Definition replayValue (id : string) (now : Z) : CM (option Message) :=
  r <- replayMessage id (unixMilli now) ;;
  match r with
  | None => gret None
  | Some r => m <- cderef r ;; gret (Some m)
  end.
End Sections_.

(** ** Calls

    [kWrite] is [writeFrame] to the buffered writer, [kHeartbeat] that of an empty delivery, [kFlush] the flush of the buffer and of the
    response; [kSelect] and [kPoll] are the selects of the last loop. *)
Inductive streamEvent := streamDone | streamDelivery (d : Delivery) | streamHeartbeat.

Inductive streamCall : Type -> Type :=
| kNow : streamCall Z
| kRespond (r : response) : streamCall unit
| kFlusher : streamCall bool
| kReserve : streamCall bool
| kNextID : streamCall string
| kOpen (id topic group member : string) (cursor : gmap string Z) (cursorText : string) (legacy : bool) (since : Z) : streamCall (string + opened)
| kReplayMessage (id : string) : streamCall (option Message)
| kSend (m : Message) : streamCall bool
| kReceive : streamCall (option Delivery)
| kMarkUnsafe (topic source : string) (until : Z) : streamCall unit
| kTakeDeferred : streamCall (list string)
| kWrite (d : Delivery) : streamCall bool
| kHeartbeat : streamCall bool
| kFlush : streamCall bool
| kSelect : streamCall streamEvent
| kPoll : streamCall (option Delivery)
| kEnd (sr : loc) (reserved : Z) : streamCall unit.

(** What a call does to the broker, for those that touch it; [sr] is the subscriber of the stream. *)
Definition streamStep {X} (sr : loc) (draining : bool) (now : Z) (e : streamCall X) : option (GoM (broker groups) X) :=
  match e in streamCall X return option (GoM (broker groups) X) with
  | kReserve => Some (inSink (reserveStreamMemory streamMemoryReservation))
  | kNextID => Some (inSink (inDeliveries nextID))
  | kOpen id topic group member cursor cursorText legacy since => Some (openLocked id topic group member cursor cursorText legacy since draining now)
  | kReplayMessage id => Some (inCache (replayValue id now))
  | kSend m => Some (inSink (inDeliveries (sendDelivery sr m 1 now)))
  | kReceive | kPoll => Some (inSink (receiveDelivery sr))
  | kMarkUnsafe topic source until => Some (inCache (gmodify (markUnsafeLocked topic source until)))
  | kTakeDeferred => Some (inSink (takeDeferred sr))
  | kEnd sr reserved => Some (inSink (endStream sr reserved now))
  | _ => None
  end.

(** ** The program *)
#[local] Open Scope prog_scope.
Abbreviation sprog := (program streamCall).

(** What the writer of a stream keeps. *)
Record writer := mkWriter { wr_cursor : streamCursor; wr_replayFrames : Z; wr_replayBytes : Z }.

Inductive outcome := closed | running.

Section Stream.
Context `{CursorJSON} (cfg : Config).

Definition streamProblem (status : Z) (code : string) : sprog unit := call (kRespond (problemResponse status code [])).
Definition streamBusy (status : Z) (code : string) : sprog unit := call (kRespond (problemResponse status code retryAfter1)).

(** [flushReplay]; [None] when the stream ends. *)
Definition flushReplay (w : writer) : sprog (option writer) :=
  if bool_decide (wr_replayFrames w = 0) then Ret (Some w) else
  ok <- call kFlush ;;
  if negb ok then Ret None else Ret (Some (mkWriter (wr_cursor w) 0 0)).

Definition writeReplay (id : string) (w : writer) : sprog (option writer) :=
  m <- call (kReplayMessage id) ;;
  match m with
  | None => Ret None
  | Some m =>
    sent <- call (kSend m) ;;
    if negb sent then Ret None else
    d <- call kReceive ;;
    match d with
    | None => Ret None
    | Some d =>
      now <- call kNow ;;
      let '(encoded, sc) := advance (wr_cursor w) d (unixMilli now) in
      if bool_decide (encoded = "") then call (kMarkUnsafe (m_Topic m) "cursor-capacity" (m_ExpiresAt m)) ;;; Ret None else
      ok <- call (kWrite (d <| d_Cursor := encoded |>)) ;;
      if negb ok then Ret None else Ret (Some (mkWriter sc (wr_replayFrames w + 1) (i64 (wr_replayBytes w + sizeOf m))))
    end
  end.

(** The identifiers of a replay, or those deferred during one. *)
Fixpoint writeReplays (ids : list string) (w : writer) : sprog (option writer) :=
  match ids with
  | [] => Ret (Some w)
  | id :: ids =>
    w <- writeReplay id w ;;
    match w with
    | None => Ret None
    | Some w =>
      w <- (if bool_decide (128 <= wr_replayFrames w) || bool_decide (262144 <= wr_replayBytes w) then flushReplay w else Ret (Some w)) ;;
      match w with None => Ret None | Some w => writeReplays ids w end
    end
  end.

(** A replay with its last flush. *)
Definition replayAll (ids : list string) (w : writer) : sprog (option writer) :=
  w <- writeReplays ids w ;;
  match w with None => Ret None | Some w => flushReplay w end.

(** What was deferred meanwhile, until nothing is. *)
Fixpoint catchUp (rounds : nat) (w : writer) : sprog (outcome + writer) :=
  match rounds with
  | O => Ret (inl running)
  | S rounds =>
    deferred <- call kTakeDeferred ;;
    if bool_decide (deferred = []) then Ret (inr w) else
    w <- replayAll deferred w ;;
    match w with None => Ret (inl closed) | Some w => catchUp rounds w end
  end.

(** One live delivery. *)
Definition writeLive (topic : string) (d : Delivery) (sc : streamCursor) : sprog (option streamCursor) :=
  now <- call kNow ;;
  let '(encoded, sc) := advance sc d (unixMilli now) in
  if bool_decide (encoded = "") then
    now <- call kNow ;;
    call (kMarkUnsafe topic "cursor-capacity" (unixMilli (now + cfg_MaxTTL cfg))) ;;; Ret None
  else
  ok <- call (kWrite (d <| d_Cursor := encoded |>)) ;;
  if negb ok then Ret None else Ret (Some sc).

(** [for range 127]: what else is in the channel. *)
Fixpoint writeMore (n : nat) (topic : string) (sc : streamCursor) : sprog (option streamCursor) :=
  match n with
  | O => Ret (Some sc)
  | S n =>
    d <- call kPoll ;;
    match d with
    | None => Ret (Some sc)
    | Some d =>
      sc <- writeLive topic d sc ;;
      match sc with None => Ret None | Some sc => writeMore n topic sc end
    end
  end.

Fixpoint live (rounds : nat) (topic : string) (sc : streamCursor) : sprog outcome :=
  match rounds with
  | O => Ret running
  | S rounds =>
    ev <- call kSelect ;;
    match ev with
    | streamDone => Ret closed
    | streamDelivery d =>
      sc <- writeLive topic d sc ;;
      match sc with
      | None => Ret closed
      | Some sc =>
        sc <- writeMore 127 topic sc ;;
        match sc with
        | None => Ret closed
        | Some sc => ok <- call kFlush ;; if negb ok then Ret closed else live rounds topic sc
        end
      end
    | streamHeartbeat =>
      ok <- call kHeartbeat ;;
      if negb ok then Ret closed else
      ok <- call kFlush ;;
      if negb ok then Ret closed else live rounds topic sc
    end
  end.

(** From the first flush to the return. *)
Definition serveStream (rounds : nat) (topic : string) (o : opened) : sprog outcome :=
  w <- replayAll (op_replay o) (mkWriter (op_cursor o) 0 0) ;;
  match w with
  | None => Ret closed
  | Some w =>
    w <- catchUp rounds w ;;
    match w with
    | inl out => Ret out
    | inr w => live rounds topic (wr_cursor w)
    end
  end.

(** The codes of the failures of [openLocked]. *)
Definition openProblem (code : string) : sprog unit :=
  if bool_decide (code = "cursor_expired") then streamProblem 409 code
  else if bool_decide (code = "broker_draining") then streamProblem 503 code
  else streamBusy 429 code.

Definition stream (rounds : nat) (r : request) : sprog outcome :=
  let topic := hr_query r "topic" in
  let group := hr_query r "group" in
  let member := hr_query r "member" in
  let legacy := hr_hasQuery r "since" in
  let finish (p : sprog unit) : sprog outcome := p ;;; Ret closed in
  if negb (validTopic topic) then finish (streamProblem 400 "invalid_topic") else
  if bool_decide (255 < slen group) then finish (streamProblem 400 "invalid_group") else
  if bool_decide (255 < slen member) then finish (streamProblem 400 "invalid_member") else
  if legacy && hr_hasQuery r "cursor" then finish (streamProblem 400 "ambiguous_cursor") else
  match (if legacy then since ← parseInt (hr_query r "since"); if bool_decide (since < 0) then None else Some since else Some 0) with
  | None => finish (streamProblem 400 "invalid_since")
  | Some since =>
    match decodeReplayCursor (hr_query r "cursor") with
    | None => finish (streamProblem 400 "invalid_cursor")
    | Some cursor =>
      ok <- call kFlusher ;;
      if negb ok then finish (streamProblem 500 "stream_unsupported") else
      ok <- call kReserve ;;
      if negb ok then finish (streamBusy 429 "stream_memory_capacity") else
      id <- call kNextID ;;
      answer <- call (kOpen id topic group member cursor (hr_query r "cursor") legacy since) ;;
      match answer with
      | inl code => finish (openProblem code)
      | inr o =>
        call (kRespond (mkResponse 200 [("Spruce-Cursor", encodeReplayCursor cursor); ("Content-Type", "application/vnd.spruce.stream"); ("Cache-Control", "no-store")] noBody)) ;;;
        out <- serveStream rounds topic o ;;
        match out with
        | running => Ret running
        | closed => call (kEnd (op_subscriber o) (op_reserved o)) ;;; Ret closed
        end
      end
    end
  end.
End Stream.
