(* ===== verification/StreamSpec.v ===== *)
(** * The subscription stream: what every execution keeps

    [streaming] is what a stream holds and owes at a moment. Every execution of [stream], whatever the
    broker, the client and the clock do: the memory and the subscriber are given back once; each
    delivery that is taken is written before another one is taken, with the cursor that covers it and all before it; the
    messages of the replay and of what was deferred are sent to the channel in their order before anything live is taken from it.
    What the channel yields is free: other deliveries, those that maintenance sends again for example, may be in it. *)
From S2P Require Import Prelude Programs GoHeap Dll Types Config Metrics GoIO Base64 Checkpoints Pending GroupIndex GroupWork Cache CacheIndex CacheExpiry CacheInv Accept StreamCursor StreamResume Services Stream.
From Stdlib Require Import String Ascii.
#[local] Open Scope Z_scope.

Record streaming := mkStreaming {
  st_memory : bool;
  st_open : option (loc * Z);
  st_answered : bool;
  st_owed : list string;
  st_asked : option Message;
  st_sent : option Message;
  st_hand : option Delivery;
  st_live : bool;
  st_now : Z;
  st_cursor : streamCursor;
}.
#[export] Instance streaming_settable : Settable streaming := fun r => mkStreaming (st_memory r) (st_open r) (st_answered r) (st_owed r) (st_asked r) (st_sent r)
  (st_hand r) (st_live r) (st_now r) (st_cursor r).
#[export] Instance set_st_memory : Setter st_memory := ltac:(derive_setter).
#[export] Instance set_st_open : Setter st_open := ltac:(derive_setter).
#[export] Instance set_st_answered : Setter st_answered := ltac:(derive_setter).
#[export] Instance set_st_owed : Setter st_owed := ltac:(derive_setter).
#[export] Instance set_st_asked : Setter st_asked := ltac:(derive_setter).
#[export] Instance set_st_sent : Setter st_sent := ltac:(derive_setter).
#[export] Instance set_st_hand : Setter st_hand := ltac:(derive_setter).
#[export] Instance set_st_live : Setter st_live := ltac:(derive_setter).
#[export] Instance set_st_now : Setter st_now := ltac:(derive_setter).
#[export] Instance set_st_cursor : Setter st_cursor := ltac:(derive_setter).

Definition noCursor : streamCursor := mkStreamCursor ∅ ∅.
Definition unopened : streaming := mkStreaming false None false [] None None None false 0 noCursor.

(** Between two deliveries. *)
Definition between (d : streaming) : Prop := st_asked d = None /\ st_sent d = None /\ st_hand d = None.

(** The answer of the cache to [kReplayMessage]: the message of that identifier. *)
Lemma replay_names c L id now m c' : cinv [] c L -> replayValue id now c = Some (Some m, c') -> m_ID m = id.
Proof.
  intros I E. assert (Hw : wp (replayValue id now) c (fun o _ => forall m, o = Some m -> m_ID m = id)).
  { unfold replayValue, replayMessage. wp_step. wp_step. apply wp_get. unfold Cache.get. destruct (c_items c !! id) as [r|] eqn:Hr.
    - cbv beta iota. destruct (ci_item _ _ _ _ _ I Hr) as (x & Hx & Ex). wp_step. apply (wp_cderef r x); [done|]. apply wp_ret.
      case_bool_decide; cbv beta iota; [apply wp_ret; by intros y|]. wp_step. apply (wp_cderef r x); [done|]. apply wp_ret. by intros y [= <-].
    - apply wp_ret; cbv beta iota; apply wp_ret. by intros y. }
  unfold wp in Hw. rewrite E in Hw. by apply Hw.
Qed.

Section Protocol.
Context `{CursorJSON}.

Definition covering (d : streaming) (x : Delivery) : streamCursor := advanceMaps x (unixMilli (st_now d)) (st_cursor d).

Definition allows X (e : streamCall X) (d : streaming) : Prop :=
  match e with
  | kNow | kFlusher => True
  | kRespond _ => st_answered d = false
  | kReserve => st_memory d = false /\ st_open d = None /\ st_answered d = false
  | kNextID => st_memory d = true
  | kOpen _ topic group member _ _ _ _ => st_memory d = true /\ st_open d = None /\ validTopic topic = true /\ slen group <= 255 /\ slen member <= 255
  | kReplayMessage id => is_Some (st_open d) /\ between d /\ st_live d = false /\ head (st_owed d) = Some id
  | kSend m => st_asked d = Some m
  | kReceive => is_Some (st_sent d)
  | kMarkUnsafe _ _ _ => is_Some (st_hand d)
  | kTakeDeferred => is_Some (st_open d) /\ between d /\ st_live d = false /\ st_owed d = []
  | kWrite y => exists x, st_hand d = Some x /\ encodeReplayCursor (sc_sequences (covering d x)) <> "" /\ y = x <| d_Cursor := encodeReplayCursor (sc_sequences (covering d x)) |>
  | kHeartbeat => is_Some (st_open d) /\ between d /\ st_live d = true
  | kFlush => is_Some (st_open d) /\ between d
  | kSelect | kPoll => is_Some (st_open d) /\ between d /\ st_live d = true
  | kEnd sr reserved => st_open d = Some (sr, reserved) /\ st_answered d = true
  end.

Definition hands (o : option Delivery) (d : streaming) : streaming := match o with Some x => d <| st_hand := Some x |> | None => d end.

Definition next X (e : streamCall X) : X -> streaming -> streaming :=
  match e in streamCall X return X -> streaming -> streaming with
  | kNow => fun now d => d <| st_now := now |>
  | kRespond _ => fun _ d => d <| st_answered := true |>
  | kReserve => fun ok d => if ok then d <| st_memory := true |> else d
  | kOpen _ _ _ _ _ _ _ _ => fun answer d => match answer with
    | inl _ => d <| st_memory := false |>
    | inr o => (((d <| st_memory := false |>) <| st_open := Some (op_subscriber o, op_reserved o) |>) <| st_owed := op_replay o |>) <| st_cursor := op_cursor o |>
    end
  | kReplayMessage _ => fun m d => d <| st_asked := m |>
  | kSend _ => fun ok d => if ok then ((d <| st_sent := st_asked d |>) <| st_asked := None |>) <| st_owed := tail (st_owed d) |> else d
  | kReceive => fun x d => match x with Some _ => hands x (d <| st_sent := None |>) | None => d end
  | kTakeDeferred => fun ids d => match ids with [] => d <| st_live := true |> | _ => d <| st_owed := ids |> end
  | kWrite _ => fun ok d => match st_hand d with Some x => if ok then (d <| st_cursor := covering d x |>) <| st_hand := None |> else d | None => d end
  | kSelect => fun ev d => match ev with streamDelivery x => hands (Some x) d | _ => d end
  | kPoll => hands
  | kEnd _ _ => fun _ d => d <| st_open := None |>
  | _ => fun _ d => d
  end.

(** What the cache answers ([replay_names] below); whatever the channel of the subscriber answers. *)
Definition may X (e : streamCall X) (d : streaming) : X -> Prop :=
  match e in streamCall X return X -> Prop with
  | kReplayMessage id => fun m => match m with Some m => m_ID m = id | None => True end
  | _ => fun _ => True
  end.

Abbreviation keeps := (Programs.obeys allows next may).

(** ** The writer *)
Context (cfg : Config).

(** The stream is open, its writer is up to date, and [owed] is still to be replayed. *)
Record at_work (sr : loc) (reserved : Z) (owed : list string) (isLive : bool) (sc : streamCursor) (d : streaming) : Prop := {
  aw_open : st_open d = Some (sr, reserved);
  aw_memory : st_memory d = false;
  aw_answered : st_answered d = true;
  aw_owed : st_owed d = owed;
  aw_between : between d;
  aw_live : st_live d = isLive;
  aw_cursor : st_cursor d = sc;
}.
(** The stream is open, wherever it stands. *)
Definition stopped_at (sr : loc) (reserved : Z) (d : streaming) : Prop := st_open d = Some (sr, reserved) /\ st_memory d = false /\ st_answered d = true.

Lemma keeps_call {X A} (e : streamCall X) (f : X -> sprog A) d Q : allows X e d -> (forall x, may X e d x -> keeps (f x) (next X e x d) Q) -> keeps (pbind (call e) f) d Q.
Proof. intros Ha Hf. split; [exact Ha|]. exact Hf. Qed.
Lemma keeps_return {A} (a : A) d (Q : A -> streaming -> Prop) : Q a d -> keeps (Ret a) d Q.
Proof. done. Qed.

Section Writer.
Context (sr : loc) (reserved : Z).

(** What a part of the writer answers: an up to date writer, or nothing when the stream ends. *)
Definition wrote_on (owed : list string) (isLive : bool) (o : option writer) (d : streaming) : Prop :=
  match o with Some w => at_work sr reserved owed isLive (wr_cursor w) d | None => stopped_at sr reserved d end.

Lemma at_work_stopped owed isLive sc d : at_work sr reserved owed isLive sc d -> stopped_at sr reserved d.
Proof. by intros []. Qed.

Lemma keeps_flushReplay w owed isLive d : at_work sr reserved owed isLive (wr_cursor w) d -> keeps (flushReplay w) d (wrote_on owed isLive).
Proof.
  intros W. unfold flushReplay. case_bool_decide; [by apply keeps_return|]. apply keeps_call; [split; [rewrite (aw_open _ _ _ _ _ _ W); by eexists|apply W]|].
  intros [] _; cbn [negb]; apply keeps_return; [done|]. by eapply at_work_stopped.
Qed.

Lemma keeps_writeReplay id ids w d : at_work sr reserved (id :: ids) false (wr_cursor w) d -> keeps (writeReplay id w) d (wrote_on ids false).
Proof.
  intros [W1 W2 W3 W4 (B1 & B2 & B3) W6 W7]. unfold writeReplay. apply keeps_call; [split; [rewrite W1; by eexists|]; split; [done|]; split; [done|]; by rewrite W4|].
  intros [m|] Hm; [|apply keeps_return; done]. apply keeps_call; [done|]. intros [] _; cbn [negb]; [|apply keeps_return; done].
  apply keeps_call; [by eexists|]. intros [x|] _; [|apply keeps_return; done].
  apply keeps_call; [done|]. intros now _. cbn [next]. unfold advance. cbv zeta. set (d1 := _ <| st_now := now |>).
  assert (Ec : covering d1 x = advanceMaps x (unixMilli now) (wr_cursor w)) by (unfold covering; cbn; by rewrite W7).
  destruct (bool_decide_reflect (encodeReplayCursor (sc_sequences (advanceMaps x (unixMilli now) (wr_cursor w))) = "")) as [E|E].
  - apply keeps_call; [by eexists|]. intros [] _. by apply keeps_return.
  - apply keeps_call; [exists x; split; [done|]; by rewrite Ec|]. intros [] _; cbn [negb]; apply keeps_return; [|done].
    split; cbn; try done. by rewrite W4.
Qed.

Lemma keeps_seq {A B} (p : sprog A) (f : A -> sprog B) d (P : A -> streaming -> Prop) Q : keeps p d P -> (forall a d', P a d' -> keeps (f a) d' Q) -> keeps (pbind p f) d Q.
Proof. apply program_seq. Qed.

Lemma keeps_writeReplays ids rest : forall w d, at_work sr reserved (ids ++ rest) false (wr_cursor w) d -> keeps (writeReplays ids w) d (wrote_on rest false).
Proof.
  induction ids as [|id ids IH]; intros w d W; cbn [writeReplays]; [by apply keeps_return|]. eapply keeps_seq; [by apply (keeps_writeReplay id (ids ++ rest))|].
  intros [w1|] d1 W1; [|by apply keeps_return]. cbn [wrote_on] in W1. eapply (keeps_seq _ _ _ (wrote_on (ids ++ rest) false)); [destruct (_ || _); [by apply keeps_flushReplay|by apply keeps_return]|].
  intros [w2|] d2 W2; [|by apply keeps_return]. by apply IH.
Qed.

Lemma keeps_replayAll ids w d : at_work sr reserved ids false (wr_cursor w) d -> keeps (replayAll ids w) d (wrote_on [] false).
Proof.
  intros W. unfold replayAll. eapply keeps_seq; [apply (keeps_writeReplays ids []); by rewrite app_nil_r|]. intros [w1|] d1 W1; [by apply keeps_flushReplay|by apply keeps_return].
Qed.

(** The outcome of a part of the stream that may also have to go on. *)
Definition caught_up (o : outcome + writer) (d : streaming) : Prop :=
  match o with inl _ => stopped_at sr reserved d | inr w => at_work sr reserved [] true (wr_cursor w) d end.

Lemma keeps_catchUp rounds : forall w d, at_work sr reserved [] false (wr_cursor w) d -> keeps (catchUp rounds w) d caught_up.
Proof.
  induction rounds as [|rounds IH]; intros w d W; cbn [catchUp]; [apply keeps_return; by eapply at_work_stopped|].
  apply keeps_call; [split; [rewrite (aw_open _ _ _ _ _ _ W); by eexists|]; split_and!; apply W|].
  intros ids _. destruct W as [W1 W2 W3 W4 W5 W6 W7]. case_bool_decide as Ei.
  - subst ids. by apply keeps_return.
  - eapply keeps_seq; [apply keeps_replayAll; destruct ids; [done|]; split; done|]. intros [w1|] d1 Wd; [by apply IH|by apply keeps_return].
Qed.

(** The stream is live, with or without a delivery in hand. *)
Definition holding (x : Delivery) (sc : streamCursor) (d : streaming) : Prop := exists d0, at_work sr reserved [] true sc d0 /\ d = d0 <| st_hand := Some x |>.
Definition live_on (o : option streamCursor) (d : streaming) : Prop := match o with Some sc => at_work sr reserved [] true sc d | None => stopped_at sr reserved d end.

Lemma keeps_writeLive topic x sc d : holding x sc d -> keeps (writeLive cfg topic x sc) d live_on.
Proof.
  intros (d0 & [W1 W2 W3 W4 (B1 & B2 & B3) W6 W7] & ->). unfold writeLive. apply keeps_call; [done|]. intros now _. cbn [next]. unfold advance. cbv zeta.
  set (d1 := _ <| st_now := now |>). assert (Ec : covering d1 x = advanceMaps x (unixMilli now) sc) by (unfold covering; cbn; by rewrite W7).
  destruct (bool_decide_reflect (encodeReplayCursor (sc_sequences (advanceMaps x (unixMilli now) sc)) = "")) as [E|E].
  - apply keeps_call; [done|]. intros now2 _. apply keeps_call; [by eexists|]. intros [] _. by apply keeps_return.
  - apply keeps_call; [exists x; split; [done|]; by rewrite Ec|]. intros [] _; cbn [negb]; apply keeps_return; [|done]. by split.
Qed.

Lemma keeps_writeMore n topic : forall sc d, at_work sr reserved [] true sc d -> keeps (writeMore cfg n topic sc) d live_on.
Proof.
  induction n as [|n IH]; intros sc d W; cbn [writeMore]; [by apply keeps_return|].
  apply keeps_call; [split; [rewrite (aw_open _ _ _ _ _ _ W); by eexists|]; split; apply W|]. intros [x|] _; [|by apply keeps_return].
  eapply keeps_seq; [apply keeps_writeLive; by exists d|]. intros [sc1|] d1 W1; [by apply IH|by apply keeps_return].
Qed.

Lemma keeps_live rounds topic : forall sc d, at_work sr reserved [] true sc d -> keeps (live cfg rounds topic sc) d (fun _ => stopped_at sr reserved).
Proof.
  induction rounds as [|rounds IH]; intros sc d W; cbn [live]; [apply keeps_return; by eapply at_work_stopped|].
  assert (Hopen : forall sc d, at_work sr reserved [] true sc d -> is_Some (st_open d) /\ between d /\ st_live d = true) by (intros sc0 d0 W0; split; [rewrite (aw_open _ _ _ _ _ _ W0); by eexists|]; split; apply W0).
  assert (Hflush : forall sc d, at_work sr reserved [] true sc d -> keeps (pbind (call kFlush) (fun ok => if negb ok then Ret closed else live cfg rounds topic sc)) d (fun _ => stopped_at sr reserved)).
  { intros sc0 d0 W0. destruct (Hopen _ _ W0) as (O1 & O2 & _). apply keeps_call; [done|]. intros [] _; cbn [negb]; [by apply IH|]. apply keeps_return. by eapply at_work_stopped. }
  apply keeps_call; [by eapply Hopen|]. intros [|x|] _; [apply keeps_return; by eapply at_work_stopped| |].
  - eapply keeps_seq; [apply keeps_writeLive; by exists d|]. intros [sc1|] d1 W1; [|by apply keeps_return].
    eapply keeps_seq; [by apply keeps_writeMore|]. intros [sc2|] d2 W2; [|by apply keeps_return]. by apply Hflush.
  - apply keeps_call; [by eapply Hopen|]. intros [] _; cbn [negb]; [by eapply Hflush|]. apply keeps_return. by eapply at_work_stopped.
Qed.

Lemma keeps_serveStream rounds topic o d : at_work sr reserved (op_replay o) false (op_cursor o) d -> keeps (serveStream cfg rounds topic o) d (fun _ => stopped_at sr reserved).
Proof.
  intros W. unfold serveStream. eapply keeps_seq; [by apply (keeps_replayAll (op_replay o))|]. intros [w|] d1 W1; [|by apply keeps_return].
  eapply keeps_seq; [by apply keeps_catchUp|]. intros [out|w2] d2 W2; [by apply keeps_return|]. by apply keeps_live.
Qed.
End Writer.

(** ** The handler *)

(** Nothing is held once the stream is closed, and it is registered as long as it runs. *)
Definition returned (out : outcome) (d : streaming) : Prop :=
  st_memory d = false /\ st_answered d = true /\ match out with closed => st_open d = None | running => is_Some (st_open d) end.

Lemma keeps_problem (p : sprog unit) d : (exists r, p = call (kRespond r)) -> st_memory d = false -> st_open d = None -> st_answered d = false ->
  keeps (pbind p (fun _ => Ret closed)) d returned.
Proof. intros [r ->] H1 H2 H3. apply keeps_call; [done|]. intros [] _. by apply keeps_return. Qed.

Lemma keeps_stream rounds r : keeps (stream cfg rounds r) unopened returned.
Proof.
  unfold stream. cbv zeta.
  assert (Hsp : forall status code, keeps (pbind (streamProblem status code) (fun _ => Ret closed)) unopened returned) by (intros; apply keeps_problem; [by eexists|done..]).
  assert (Hsb : forall status code, keeps (pbind (streamBusy status code) (fun _ => Ret closed)) unopened returned) by (intros; apply keeps_problem; [by eexists|done..]).
  destruct (validTopic (hr_query r "topic")) eqn:Ht; cbn [negb]; [|apply Hsp]. case_bool_decide as Hg; [apply Hsp|]. case_bool_decide as Hm; [apply Hsp|].
  destruct (_ && _); [apply Hsp|]. destruct (if hr_hasQuery r "since" then _ else _) as [since|]; [|apply Hsp]. destruct (decodeReplayCursor _) as [cursor|]; [|apply Hsp].
  apply keeps_call; [done|]. intros [] _; cbn [negb]; [|apply Hsp]. apply keeps_call; [done|]. intros [] _; cbn [negb]; [|apply Hsb].
  apply keeps_call; [done|]. intros id _. apply keeps_call; [by split_and!; try lia|]. intros [code|o] _.
  - unfold openProblem. destruct (bool_decide _); [apply keeps_problem; [by eexists|done..]|]. destruct (bool_decide _); apply keeps_problem; try done; by eexists.
  - apply keeps_call; [done|]. intros [] _. eapply keeps_seq; [apply (keeps_serveStream (op_subscriber o) (op_reserved o)); by split|].
    intros out d (S1 & S2 & S3). destruct out; [|apply keeps_return; split_and!; [done|done|by eexists]]. apply keeps_call; [done|]. intros [] _. by apply keeps_return.
Qed.

(** ** Executions *)
Definition acts := list (Programs.action streamCall).

(** What a kind of calls shows of an execution. *)
Definition shows {B} (f : forall X, streamCall X -> X -> list B) (tr : acts) : list B := tr ≫= fun a => match a with @Act _ X e x => f X e x end.
Lemma shows_snoc {B} (f : forall X, streamCall X -> X -> list B) tr X (e : streamCall X) x : shows f (tr ++ [Act e x]) = shows f tr ++ f X e x.
Proof. unfold shows. rewrite bind_app. cbn. by rewrite app_nil_r. Qed.

Definition openings : acts -> list opened := shows (fun X e =>
  match e in streamCall X return X -> list opened with kOpen _ _ _ _ _ _ _ _ => fun answer => match answer with inr o => [o] | _ => [] end | _ => fun _ => [] end).
(** The messages sent to the channel, and the subscriber's removals. *)
Definition sentMessages : acts -> list Message := shows (fun X e => match e in streamCall X return X -> list Message with kSend m => fun ok : bool => if ok then [m] else [] | _ => fun _ => [] end).
Definition ended : acts -> list (loc * Z) := shows (fun X e => match e in streamCall X return X -> list (loc * Z) with kEnd sr reserved => fun _ => [(sr, reserved)] | _ => fun _ => [] end).
(** The deliveries taken from the channel while replaying, and those taken live. *)
Definition received : acts -> list Delivery := shows (fun X e => match e in streamCall X return X -> list Delivery with kReceive => option_list | _ => fun _ => [] end).
Definition takenLive : acts -> list Delivery := shows (fun X e =>
  match e in streamCall X return X -> list Delivery with
  | kSelect => fun ev => match ev with streamDelivery x => [x] | _ => [] end
  | kPoll => option_list
  | _ => fun _ => []
  end).
Definition written : acts -> list Delivery := shows (fun X e => match e in streamCall X return X -> list Delivery with kWrite y => fun ok : bool => if ok then [y] else [] | _ => fun _ => [] end).
Definition deferred : acts -> list string := shows (fun X e => match e in streamCall X return X -> list string with kTakeDeferred => fun ids => ids | _ => fun _ => [] end).

(** The frames of deliveries that are written at given instants, starting from a cursor. *)
Fixpoint stamped (c : streamCursor) (l : frames) : list Delivery :=
  match l with
  | [] => []
  | (x, t) :: l => let c := advanceMaps x t c in x <| d_Cursor := encodeReplayCursor (sc_sequences c) |> :: stamped c l
  end.
Lemma stamped_snoc c l x t : stamped c (l ++ [(x, t)]) = stamped c l ++ [x <| d_Cursor := encodeReplayCursor (sc_sequences (advanceMaps x t (advanceAll l c))) |>].
Proof. revert c. induction l as [|[y u] l IH]; intros c; cbn; [done|]. by rewrite IH. Qed.
Lemma advanceAll_snoc c l x t : advanceAll (l ++ [(x, t)]) c = advanceMaps x t (advanceAll l c).
Proof. unfold advanceAll. by rewrite foldl_snoc. Qed.

(** What an execution has done since it was opened. *)
Record progress (tr : acts) (o : opened) (d : streaming) : Prop := {
  pg_once : st_memory d = false /\ (st_open d = None -> st_answered d = true);
  pg_frames : exists l, written tr = stamped (op_cursor o) l /\ st_cursor d = advanceAll l (op_cursor o) /\ received tr ++ takenLive tr = l.*1 ++ option_list (st_hand d);
  pg_order : op_replay o ++ deferred tr = (m_ID <$> sentMessages tr) ++ st_owed d;
  pg_live : if st_live d then st_owed d = [] /\ st_asked d = None /\ st_sent d = None else takenLive tr = [];
  pg_asked : forall m, st_asked d = Some m -> head (st_owed d) = Some (m_ID m) /\ st_sent d = None /\ st_hand d = None;
  pg_sent : is_Some (st_sent d) -> st_hand d = None;
  pg_received : llen (sentMessages tr) = llen (received tr) + if st_sent d then 1 else 0;
  pg_ended : match st_open d with Some x => ended tr = [] /\ x = (op_subscriber o, op_reserved o) | None => ended tr = [(op_subscriber o, op_reserved o)] end;
}.
Record unstarted (tr : acts) (d : streaming) : Prop := {
  un_open : st_open d = None;
  un_between : between d;
  un_owed : st_owed d = [] /\ st_live d = false;
  un_trace : received tr = [] /\ takenLive tr = [] /\ written tr = [] /\ deferred tr = [] /\ sentMessages tr = [] /\ ended tr = [];
}.
Definition account (tr : acts) (d : streaming) : Prop :=
  match openings tr with
  | [] => unstarted tr d
  | [o] => progress tr o d
  | _ => False
  end.

(** What an execution shows. *)
Definition view (tr : acts) := (received tr, takenLive tr, written tr, deferred tr, sentMessages tr, ended tr).

Lemma progress_eq tr tr' o d : view tr' = view tr -> progress tr o d -> progress tr' o d.
Proof. unfold view. intros [= E1 E2 E3 E4 E5 E6] [P1 P2 P3 P4 P5 P6 P7 P8]. split; by rewrite ?E1, ?E2, ?E3, ?E4, ?E5, ?E6. Qed.

(** The calls that hand nothing over. *)
Lemma progress_quiet tr o d d' : st_hand d' = st_hand d -> st_cursor d' = st_cursor d -> st_owed d' = st_owed d -> st_live d' = st_live d -> st_asked d' = st_asked d -> st_sent d' = st_sent d ->
  st_open d' = st_open d -> (st_memory d' = false /\ (st_open d' = None -> st_answered d' = true)) -> progress tr o d -> progress tr o d'.
Proof. intros E1 E2 E3 E4 E5 E6 E7 H1 [P1 P2 P3 P4 P5 P6 P7 P8]. split; [done|..]; by rewrite ?E1, ?E2, ?E3, ?E4, ?E5, ?E6, ?E7. Qed.

Section Steps.
Context (tr : acts) (o : opened) (d : streaming) (P : progress tr o d).

(** A delivery is taken while live. *)
Lemma progress_live x tr' : between d -> st_live d = true -> view tr' = (received tr, takenLive tr ++ [x], written tr, deferred tr, sentMessages tr, ended tr) ->
  progress tr' o (d <| st_hand := Some x |>).
Proof.
  unfold view. intros (B1 & B2 & B3) Hl [= E1 E2 E3 E4 E5 E6]. destruct P as [P1 (l & P21 & P22 & P23) P3 P4 P5 P6 P7 P8]. split; cbn; rewrite ?E1, ?E2, ?E3, ?E4, ?E5, ?E6; try done.
  - exists l. split_and!; [done..|]. by rewrite app_assoc, P23, B3, app_nil_r.
  - by rewrite Hl in *.
  - intros m Hm. by rewrite B1 in Hm.
  - rewrite B2. by intros [].
Qed.

(** A message of the replay is sent, and one delivery taken. *)
Lemma progress_send m tr' : st_asked d = Some m -> view tr' = (received tr, takenLive tr, written tr, deferred tr, sentMessages tr ++ [m], ended tr) ->
  progress tr' o (((d <| st_sent := st_asked d |>) <| st_asked := None |>) <| st_owed := tail (st_owed d) |>).
Proof.
  unfold view. intros Ha [= E1 E2 E3 E4 E5 E6]. destruct P as [P1 P2 P3 P4 P5 P6 P7 P8]. destruct (P5 _ Ha) as (Hh & Hs & Hn).
  destruct (st_owed d) as [|id owed] eqn:Ho; [done|]. injection Hh as ->. split; cbn; rewrite ?E1, ?E2, ?E3, ?E4, ?E5, ?E6, ?Ha; try done.
  - by rewrite fmap_app, <- app_assoc.
  - destruct (st_live d); [by destruct P4|done].
  - rewrite llen_app, P7, Hs. change (llen [m]) with 1. lia.
Qed.

Lemma progress_receive x m tr' : st_sent d = Some m -> view tr' = (received tr ++ [x], takenLive tr, written tr, deferred tr, sentMessages tr, ended tr) ->
  progress tr' o ((d <| st_sent := None |>) <| st_hand := Some x |>).
Proof.
  unfold view. intros Hs [= E1 E2 E3 E4 E5 E6]. destruct P as [P1 (l & P21 & P22 & P23) P3 P4 P5 P6 P7 P8]. pose proof (P6 ltac:(by eexists)) as Hn.
  assert (Ha : st_asked d = None) by (destruct (st_asked d) as [m2|] eqn:Ea; [destruct (P5 _ eq_refl) as (_ & Hc & _); congruence|done]).
  assert (Hl : st_live d = false) by (destruct (st_live d); [destruct P4 as (_ & _ & Hc); congruence|done]). rewrite Hl in P4.
  split; cbn; rewrite ?E1, ?E2, ?E3, ?E4, ?E5, ?E6, ?Ha, ?Hl; try done.
  - exists l. split_and!; [done..|]. rewrite P4, app_nil_r in P23 |- *. by rewrite P23, Hn, app_nil_r.
  - rewrite llen_app, <- Z.add_assoc. change (llen [x]) with 1. rewrite P7, Hs. lia.
Qed.

Lemma progress_write x tr' : st_hand d = Some x ->
  view tr' = (received tr, takenLive tr, written tr ++ [x <| d_Cursor := encodeReplayCursor (sc_sequences (covering d x)) |>], deferred tr, sentMessages tr, ended tr) ->
  progress tr' o ((d <| st_cursor := covering d x |>) <| st_hand := None |>).
Proof.
  unfold view. intros Hh [= E1 E2 E3 E4 E5 E6]. destruct P as [P1 (l & P21 & P22 & P23) P3 P4 P5 P6 P7 P8]. split; cbn; rewrite ?E1, ?E2, ?E3, ?E4, ?E5, ?E6; try done.
  - exists (l ++ [(x, unixMilli (st_now d))]). rewrite stamped_snoc, advanceAll_snoc, fmap_app, P21, P23, Hh, app_nil_r. unfold covering. by rewrite P22.
  - intros m Hm. by destruct (P5 m Hm) as (? & ? & ?).
Qed.

Lemma progress_deferred ids tr' : between d -> st_live d = false -> st_owed d = [] ->
  view tr' = (received tr, takenLive tr, written tr, deferred tr ++ ids, sentMessages tr, ended tr) ->
  progress tr' o (match ids with [] => d <| st_live := true |> | _ => d <| st_owed := ids |> end).
Proof.
  unfold view. intros (B1 & B2 & B3) Hl Ho [= E1 E2 E3 E4 E5 E6]. destruct P as [P1 (l & P21 & P22 & P23) P3 P4 P5 P6 P7 P8]. rewrite Ho, app_nil_r in P3. rewrite Hl in P4.
  destruct ids as [|id ids]; split; cbn; rewrite ?E1, ?E2, ?E3, ?E4, ?E5, ?E6, ?Hl, ?Ho, ?app_nil_r; try done; try (by eauto); try (intros m Hm; congruence). by rewrite app_assoc, P3.
Qed.

(** The subscriber is removed. *)
Lemma progress_end sr reserved tr' : st_open d = Some (sr, reserved) -> st_answered d = true ->
  view tr' = (received tr, takenLive tr, written tr, deferred tr, sentMessages tr, ended tr ++ [(sr, reserved)]) -> progress tr' o (d <| st_open := None |>).
Proof.
  unfold view. intros Ho Ha [= E1 E2 E3 E4 E5 E6]. destruct P as [[P1 _] P2 P3 P4 P5 P6 P7 P8]. rewrite Ho in P8. destruct P8 as [P8 Eo].
  split; cbn; rewrite ?E1, ?E2, ?E3, ?E4, ?E5, ?E6, ?P8, ?Eo; done.
Qed.
End Steps.

Lemma account_opened tr o d : unstarted tr d -> forall tr', view tr' = view tr ->
  progress tr' o ((((d <| st_memory := false |>) <| st_open := Some (op_subscriber o, op_reserved o) |>) <| st_owed := op_replay o |>) <| st_cursor := op_cursor o |>).
Proof.
  unfold view. intros [U1 (B1 & B2 & B3) (U2 & U3) (T1 & T2 & T3 & T4 & T5 & T6)] tr' [= E1 E2 E3 E4 E5 E6].
  split; cbn; rewrite ?E1, ?E2, ?E3, ?E4, ?E5, ?E6, ?T1, ?T2, ?T3, ?T4, ?T5, ?T6, ?U3, ?B1, ?B2, ?B3, ?app_nil_r; try done; by exists [].
Qed.

(** What one more call adds to each observation. *)
Lemma view_snoc tr a : view (tr ++ [a]) = let v := view [a] in (received tr ++ v.1.1.1.1.1, takenLive tr ++ v.1.1.1.1.2, written tr ++ v.1.1.1.2, deferred tr ++ v.1.1.2, sentMessages tr ++ v.1.2, ended tr ++ v.2).
Proof. unfold view, received, takenLive, written, deferred, sentMessages, ended, shows. cbv zeta. by rewrite !bind_app. Qed.
Definition silent X (e : streamCall X) (x : X) : Prop := view [Act e x] = ([], [], [], [], [], []).
Lemma view_silent tr X (e : streamCall X) x : silent X e x -> view (tr ++ [Act e x]) = view tr.
Proof. intros E. rewrite view_snoc, E. cbn. by rewrite !app_nil_r. Qed.

Lemma account_unstarted tr X (e : streamCall X) x d : openings tr = [] -> unstarted tr d -> allows X e d -> may X e d x -> account (tr ++ [Act e x]) (next X e x d).
Proof.
  intros E0 U Ha Hx. pose proof U as [U1 (B1 & B2 & B3) (U2 & U3) (T1 & T2 & T3 & T4 & T5 & T6)].
  pose proof (shows_snoc _ tr _ e x : openings _ = _) as Eo. fold (openings tr) in Eo. unfold account. rewrite Eo, E0.
  assert (Hn : forall Y, is_Some (st_open d) -> Y) by (intros Y Hs; exfalso; rewrite U1 in Hs; by destruct Hs).
  pose proof (view_silent tr X e x) as Hq.
  assert (Hu : forall d', silent X e x -> st_open d' = None -> between d' -> st_owed d' = [] /\ st_live d' = false -> unstarted (tr ++ [Act e x]) d').
  { intros d' F%Hq F1 F2 F3. unfold view in F. injection F as G1 G2 G3 G4 G5 G6. split; [done..|]. by rewrite G1, G2, G3, G4, G5, G6. }
  destruct e; cbn [allows next app] in *; try (apply Hn, Ha); try (by apply Hu).
  - destruct x; by apply Hu.
  - destruct x as [code|o]; [by apply Hu|]. apply (account_opened tr); [done|by apply Hq].
  - congruence.
  - rewrite B2 in Ha. by destruct Ha.
  - destruct Ha as (y & Hy & _). congruence.
  - destruct Ha as (Hy & _). congruence.
Qed.

Lemma account_step tr X (e : streamCall X) x d : account tr d -> allows X e d -> may X e d x -> account (tr ++ [Act e x]) (next X e x d).
Proof.
  intros I Ha Hx. unfold account in I. destruct (openings tr) as [|o [|]] eqn:E0; [by apply account_unstarted| |done].
  pose proof (shows_snoc _ tr _ e x : openings _ = _) as Eo. fold (openings tr) in Eo. unfold account. rewrite Eo, E0. pose proof (pg_once _ _ _ I) as [Hm Ha0].
  pose proof (view_silent tr X e x) as Hq.
  assert (Hk : silent X e x -> progress (tr ++ [Act e x]) o d) by (intros F%Hq; by apply (progress_eq tr)).
  destruct e; cbn [allows next app may] in *; try (by apply Hk); try (apply (progress_eq tr); [by apply Hq|]; by eapply progress_quiet; [..|exact I]).
  - destruct Ha as (_ & H1 & H2). rewrite (Ha0 H1) in H2. discriminate.
  - destruct Ha as (H1 & _). congruence.
  - destruct Ha as (_ & (B1 & B2 & B3) & Hl & Hh). apply (progress_eq tr); [by apply Hq|]. destruct I as [P1 P2 P3 P4 P5 P6 P7 P8]. split; cbn; try done; [by rewrite Hl in *|].
    intros m ->. by rewrite Hx.
  - destruct x; [|by apply Hk]. apply (progress_send tr o d I m); [done|]. rewrite view_snoc. cbn. by rewrite !app_nil_r.
  - destruct Ha as [m Hs]. destruct x as [x|]; [|by apply Hk]. apply (progress_receive tr o d I x m); [done|]. rewrite view_snoc. cbn. by rewrite !app_nil_r.
  - destruct Ha as (_ & Hb & Hl & Ho). apply (progress_deferred tr); [done..|]. rewrite view_snoc. cbn. by rewrite !app_nil_r.
  - destruct Ha as (y & Hy & _ & ->). rewrite Hy. destruct x; [|by apply Hk]. apply (progress_write tr); [done..|]. rewrite view_snoc. cbn. by rewrite !app_nil_r.
  - destruct Ha as (_ & Hb & Hl). destruct x; try (by apply Hk). apply (progress_live tr); [done..|]. rewrite view_snoc. cbn. by rewrite !app_nil_r.
  - destruct Ha as (_ & Hb & Hl). destruct x; [|by apply Hk]. apply (progress_live tr); [done..|]. rewrite view_snoc. cbn. by rewrite !app_nil_r.
  - destruct Ha as (H0 & H1). apply (progress_end tr o d I sr reserved); [done..|]. rewrite view_snoc. cbn. by rewrite !app_nil_r.
Qed.

(** C3: every execution of [stream], whatever the broker, the client, the clock and the timers answer. The reserved memory has
    been given to the subscriber or released and the client has been answered; once the stream has ended, the subscriber it opened has been removed exactly once, and
    while it goes on it stays registered. The frames that were written are the deliveries taken from the channel, in
    their order, each stamped with the cursor that covers it and all before it; at most the last one taken
    was not written. The messages of the replay, and then those deferred meanwhile, are sent to the channel in
    their order, each once, with one delivery taken from it after each (what else may be in the channel goes first), and a delivery is taken live only when all of them have been. *)
Theorem stream_serves rounds r tr out : execution next may (stream cfg rounds r) unopened tr out ->
  returned out (afterAll next tr unopened) /\
  match openings tr with
  | [] => out = closed /\ received tr = [] /\ takenLive tr = [] /\ written tr = [] /\ ended tr = []
  | [o] => ended tr = match out with closed => [(op_subscriber o, op_reserved o)] | running => [] end /\
      exists (l : frames) (rest : list Delivery) (owed : list string), written tr = stamped (op_cursor o) l /\ received tr ++ takenLive tr = l.*1 ++ rest /\ llen rest <= 1 /\
      op_replay o ++ deferred tr = (m_ID <$> sentMessages tr) ++ owed /\ llen (received tr) <= llen (sentMessages tr) <= llen (received tr) + 1 /\ (takenLive tr <> [] -> owed = [] /\ llen (received tr) = llen (sentMessages tr))
  | _ => False
  end.
Proof.
  intros He. destruct (obeys_lawful _ _ _ _ _ _ _ He _ (keeps_stream rounds r)) as [Hl Hr]. split; [exact Hr|].
  assert (I : account tr (afterAll next tr unopened)) by (apply (lawful_inv allows next may account); [by split| |exact Hl]; intros; by apply account_step).
  unfold account in I. set (d := afterAll next tr unopened) in *. destruct Hr as (_ & _ & Ho). destruct (openings tr) as [|o [|]]; [|clear -I Ho|done].
  { destruct I as [U1 _ _ (-> & -> & -> & _ & _ & ->)]. rewrite U1 in Ho. destruct out; [done|]. by destruct Ho. }
  destruct I as [_ (l & P1 & _ & P3) P4 P5 _ _ P7 P8]. split; [destruct out; [by rewrite Ho in P8|destruct Ho as [x Ho]; rewrite Ho in P8; by destruct P8]|].
  exists l, (option_list (st_hand d)), (st_owed d). rewrite P7.
  split_and!; [done|done|by destruct (st_hand d)|done|destruct (st_sent d); lia..|]. intros Ht. destruct (st_live d); [|done]. destruct P5 as (-> & _ & ->). split; [done|lia].
Qed.
End Protocol.

(** ** A stream that replays a message and serves another one live *)
Definition ex_deliver (m : Message) : Delivery := mkDelivery ("d" ++ m_ID m)%string (m_ID m) (m_Topic m) (m_Key m) (m_Headers m) (m_CreatedAt m) 1 "" (m_Payload m) (m_Origin m) (m_Sequence m) (m_ExpiresAt m).
Definition ex_answer X (e : streamCall X) (d : streaming) : X :=
  match e in streamCall X return X with
  | kNow => 10 ^ 6 | kRespond _ => tt | kFlusher => true | kReserve => true | kNextID => "s"
  | kOpen _ _ _ _ _ _ _ _ => inr (mkOpened 1%positive 1024 ["a"] ex_cursor)
  | kReplayMessage id => Some (ex_seq id 10 1)
  | kSend _ => true | kReceive => ex_deliver <$> st_sent d | kMarkUnsafe _ _ _ => tt | kTakeDeferred => [] | kWrite _ => true | kHeartbeat => true | kFlush => true
  | kSelect => if bool_decide (at0 (sc_sequences (st_cursor d)) "o" = 1) then streamDelivery (ex_deliver (ex_seq "b" 20 2)) else streamDone
  | kPoll => None | kEnd _ _ => tt
  end.
Lemma ex_answer_may X (e : streamCall X) d : may X e d (ex_answer X e d).
Proof. by destruct e. Qed.

Definition ex_subscription : request := mkRequest "GET" "/v1/subscriptions/stream" (fun _ => "") (fun k => if bool_decide (k = "topic") then "t" else "") (fun _ => false) None 0 [].
Definition ex_run : acts * outcome * streaming := run (fun X e d => (ex_answer X e d, next X e (ex_answer X e d) d)) (@stream bitJSON DefaultConfig 3 ex_subscription) unopened.
Definition ex_trace : acts := ex_run.1.1.
Lemma ex_trace_execution : execution next may (@stream bitJSON DefaultConfig 3 ex_subscription) unopened ex_trace closed.
Proof.
  assert (E : ex_run.1.2 = closed) by (vm_compute; reflexivity). rewrite <- E. unfold ex_trace, ex_run. apply (run_related next may _ eq); [|done].
  intros X e d s <-. split; [apply ex_answer_may|done].
Qed.
Lemma ex_trace_values : map d_MessageID (written ex_trace) = ["a"; "b"] /\ map d_MessageID (received ex_trace) = ["a"] /\ map d_MessageID (takenLive ex_trace) = ["b"] /\ llen (openings ex_trace) = 1.
Proof. vm_compute. done. Qed.
Lemma stream_serves_witness : (map d_MessageID (written ex_trace) = ["a"; "b"] /\ map d_MessageID (received ex_trace) = ["a"] /\ map d_MessageID (takenLive ex_trace) = ["b"] /\ llen (openings ex_trace) = 1) /\
  returned closed (afterAll next ex_trace unopened) /\
  match openings ex_trace with
  | [] => closed = closed /\ received ex_trace = [] /\ takenLive ex_trace = [] /\ written ex_trace = [] /\ ended ex_trace = []
  | [o] => ended ex_trace = [(op_subscriber o, op_reserved o)] /\
      exists (l : frames) (rest : list Delivery) (owed : list string), written ex_trace = @stamped bitJSON (op_cursor o) l /\ received ex_trace ++ takenLive ex_trace = l.*1 ++ rest /\
      llen rest <= 1 /\ op_replay o ++ deferred ex_trace = (m_ID <$> sentMessages ex_trace) ++ owed /\
      llen (received ex_trace) <= llen (sentMessages ex_trace) <= llen (received ex_trace) + 1 /\ (takenLive ex_trace <> [] -> owed = [] /\ llen (received ex_trace) = llen (sentMessages ex_trace))
  | _ => False
  end.
Proof. split; [exact ex_trace_values|]. exact (@stream_serves bitJSON DefaultConfig 3 ex_subscription ex_trace closed ex_trace_execution). Defined.
