(* ===== verification/Sync.v ===== *)
(** * Starting from peers

    [SyncFromPeers], [syncReplayFrontiersFromPeer] and [syncCheckpointsFromPeer] of internal/broker/broker.go: a broker
    that starts reads the messages that its peers hold, page by page, then what they have evicted and the
    checkpoints of their groups. The calls ([syncCall]) are answered by the peers and the parts of this broker; [pages] bounds the
    pages of one peer that are followed, since the loop goes on as long as the peer has pages. *)
From S2P Require Import Prelude Programs Types Config GoIO Urls Wire Pending Cache StreamCursor.
#[local] Open Scope Z_scope.

(** An answer as far as the code looks: the status, Spruce-Peer-Version, Spruce-Next-Cursor and the body. *)
Record peerAnswer := mkPeerAnswer { pa_status : Z; pa_version : string; pa_cursor : string; pa_body : list byte }.

(** [type replayFrontierSnapshot struct] as it is read; a frontier may be null. *)
Record incomingFrontiers := mkIncoming {
  in_UnsafeUntil : Z;
  in_Topics : gmap string (option topicFrontier);
  in_Unsafe : gmap string (gmap string Z);
}.

(** encoding/json, and the order in which Go ranges over a map. *)
Class SyncJSON := {
  yj_frontiers : list byte -> option incomingFrontiers;
  yj_checkpoints : list byte -> error + list groupCheckpoint;
}.
Class MapOrder := {
  rangeAll : forall {A}, gmap string A -> list (string * A);
  rangeAll_perm : forall {A} (m : gmap string A), rangeAll m ≡ₚ map_to_list m;
}.

(** ** What a snapshot of frontiers changes, under the lock of the cache *)
Section Frontiers.
Context `{CursorJSON, MapOrder}.

(** [m[origin] = max(m[origin], sequence)] *)
Definition raise (m : gmap string Z) (p : string * Z) : gmap string Z := <[p.1 := Z.max (default 0 (m !! p.1)) p.2]> m.

Definition mergeTopic (now : Z) (c : cache) (p : string * option topicFrontier) : cache :=
  let '(topic, incoming) := p in
  match incoming with
  | None => c
  | Some incoming =>
    if bool_decide (tf_ExpiresAt incoming <= now) then c else
    let current := default (mkTopicFrontier ∅ 0) (c_frontiers c !! topic) in
    let c := c <| c_frontiers := <[topic := current]> (c_frontiers c) |> in
    let combined := foldl raise (tf_Sequences current) (rangeAll (tf_Sequences incoming)) in
    if bool_decide (encodeReplayCursor combined = "") then markUnsafeLocked topic "frontier-merge" (tf_ExpiresAt incoming) c else
    let sequences := foldl raise (tf_Sequences current) (rangeAll (tf_Sequences incoming)) in
    c <| c_frontiers := <[topic := mkTopicFrontier sequences (Z.max (tf_ExpiresAt current) (tf_ExpiresAt incoming))]> (c_frontiers c) |>
  end.

Definition markPeer (c : cache) (p : string * gmap string Z) : cache :=
  foldl (fun c e => markUnsafeLocked p.1 (String.append "peer:" e.1) e.2 c) c (rangeAll p.2).

Definition mergeFrontiers (snapshot : incomingFrontiers) (now : Z) (c : cache) : cache :=
  let c := if bool_decide (0 < in_UnsafeUntil snapshot) then markUnsafeLocked "*" "legacy-snapshot" (in_UnsafeUntil snapshot) c else c in
  let c := foldl markPeer c (rangeAll (in_Unsafe snapshot)) in
  foldl (mergeTopic now) c (rangeAll (in_Topics snapshot)).
End Frontiers.

(** ** Which snapshots are taken *)
Definition validUnsafe (maxExpiry : Z) (topic : string) (entries : gmap string Z) : bool :=
  (bool_decide (topic = "*") || validTopic topic) && negb (bool_decide (256 < mlen entries))
  && forallb (fun e => negb (bool_decide (e.1 = "") || bool_decide (e.2 < 0) || bool_decide (maxExpiry < e.2))) (map_to_list entries).
Definition validFrontier (maxExpiry : Z) (topic : string) (incoming : option topicFrontier) : bool :=
  match incoming with
  | None => false
  | Some f => validTopic topic && negb (bool_decide (256 < mlen (tf_Sequences f))) && negb (bool_decide (maxExpiry < tf_ExpiresAt f))
    && forallb (fun e => negb (bool_decide (e.1 = "") || bool_decide (64 < slen e.1))) (map_to_list (tf_Sequences f))
  end.
Definition validFrontiers (frontierLimit maxExpiry : Z) (s : incomingFrontiers) : bool :=
  negb (bool_decide (frontierLimit < mlen (in_Topics s)) || bool_decide (frontierLimit < mlen (in_Unsafe s)))
  && negb (bool_decide (in_UnsafeUntil s < 0) || bool_decide (maxExpiry < in_UnsafeUntil s))
  && forallb (fun p => validUnsafe maxExpiry p.1 p.2) (map_to_list (in_Unsafe s))
  && forallb (fun p => validFrontier maxExpiry p.1 p.2) (map_to_list (in_Topics s)).
Definition validSnapshotCheckpoint (maxExpiry : Z) (c : groupCheckpoint) : bool :=
  negb (negb (validTopic (gc_Topic c)) || bool_decide (slen (gc_Group c) = 0) || bool_decide (255 < slen (gc_Group c))
    || bool_decide (slen (gc_MessageID c) = 0) || bool_decide (64 < slen (gc_MessageID c)) || bool_decide (maxExpiry < gc_ExpiresAt c)).

(** ** Calls *)
Inductive syncCall : Type -> Type :=
| yDo (i : nat) (path : string) (version : string) : syncCall (error + peerAnswer)
| yNow : syncCall Z
| yV2 (i : nat) (v2 : bool) : syncCall unit
| yMarkUnsafe (topic source : string) (until : Z) : syncCall unit
| yMergeFrontiers (snapshot : incomingFrontiers) (now : Z) : syncCall unit
| yAcceptBatch (messages : list Message) : syncCall (option error)
| yApplyCheckpoints (checkpoints : list groupCheckpoint) : syncCall unit.

#[local] Open Scope prog_scope.
Abbreviation yprog := (program syncCall).

Section Sync.
Context `{SyncJSON} (cfg : Config) (urls : list string) (frontierLimit : Z).
Definition urlOf (i : nat) : string := default "" (urls !! i).

Definition syncReplayFrontiersFromPeer (i : nat) : yprog (option error) :=
  answer <- call (yDo i "/internal/replay-frontiers" "") ;;
  match answer with
  | inl e => Ret (Some e)
  | inr a =>
    if bool_decide (pa_status a = 404) then
      call (yV2 i false) ;;;
      now <- call yNow ;;
      call (yMarkUnsafe "*" (String.append "legacy-frontier:" (urlOf i)) (unixMilli (now + cfg_MaxTTL cfg))) ;;;
      Ret None
    else if bool_decide (pa_status a <> 200) then Ret (Some (errOther "replay frontier peer returned an error")) else
    call (yV2 i true) ;;;
    match yj_frontiers (limitReader (Z.shiftl 16 20) (pa_body a)) with
    | None => Ret (Some (errOther "invalid replay frontier snapshot"))
    | Some snapshot =>
      now <- call yNow ;;
      let maxExpiry := i64 (unixMilli now + Z.quot (cfg_MaxTTL cfg) Millisecond) in
      if negb (validFrontiers frontierLimit maxExpiry snapshot) then Ret (Some (errOther "invalid replay frontier snapshot")) else
      call (yMergeFrontiers snapshot (unixMilli now)) ;;;
      Ret None
    end
  end.

Definition syncCheckpointsFromPeer (i : nat) : yprog (option error) :=
  answer <- call (yDo i "/internal/checkpoints" "") ;;
  match answer with
  | inl e => Ret (Some e)
  | inr a =>
    if bool_decide (pa_status a = 404) || bool_decide (pa_status a = 204) then Ret None else
    if bool_decide (pa_status a <> 200) then Ret (Some (errOther "checkpoint peer returned an error")) else
    match yj_checkpoints (limitReader (Z.shiftl 64 20) (pa_body a)) with
    | inl e => Ret (Some e)
    | inr checkpoints =>
      if bool_decide (cfg_CheckpointEntries cfg < llen checkpoints) then Ret (Some (errOther "checkpoint snapshot exceeds configured limit")) else
      now <- call yNow ;;
      let maxExpiry := i64 (unixMilli now + Z.quot (cfg_MaxTTL cfg) Millisecond) in
      if negb (forallb (validSnapshotCheckpoint maxExpiry) checkpoints) then Ret (Some (errOther "invalid checkpoint snapshot")) else
      call (yApplyCheckpoints checkpoints) ;;;
      Ret None
    end
  end.

(** ** The pages of a peer

    [left]: [peerAvailable] and [peerErr] after the loop; [aborted]: an error that [SyncFromPeers] returns at once; [endless]: more than
    [pages] pages. *)
Inductive pagesEnd := left (available : bool) (err : option error) | aborted (e : error) | endless.
Definition snapshotPath (cursor : string) : string := String.append "/internal/snapshot?after=" (QueryEscape cursor).

Fixpoint markBootstrap (i : nat) (messages : list Message) : yprog unit :=
  match messages with
  | [] => Ret tt
  | m :: messages => call (yMarkUnsafe (m_Topic m) (String.append "legacy-bootstrap:" (urlOf i)) (m_ExpiresAt m)) ;;; markBootstrap i messages
  end.

Fixpoint syncPages (pages : nat) (i : nat) (cursor : string) (available : bool) : yprog pagesEnd :=
  match pages with
  | O => Ret endless
  | S pages =>
    answer <- call (yDo i (snapshotPath cursor) "2") ;;
    match answer with
    | inl e => Ret (left available (Some e))
    | inr a =>
      if bool_decide (pa_status a = 204) then Ret (left true None) else
      if bool_decide (pa_status a <> 200) then Ret (left true (Some (errOther "snapshot peer returned an error"))) else
      let v2 := bool_decide (pa_version a = "2") in
      let body := limitReader (Z.shiftl 25 20) (pa_body a) in
      match (if v2 then readPeerBatch (cfg_MaxMessage cfg) body else readPeerBatchV1 (cfg_MaxMessage cfg) body) with
      | inl e => Ret (left true (Some e))
      | inr (messages, _) =>
        (if negb v2 then markBootstrap i messages else Ret tt) ;;;
        err <- call (yAcceptBatch messages) ;;
        match err with
        | Some e => Ret (aborted e)
        | None =>
          let next := pa_cursor a in
          if bool_decide (next = "") || bool_decide (next = cursor) then Ret (aborted (errOther "invalid snapshot cursor")) else
          syncPages pages i next true
        end
      end
    end
  end.

(** ** [SyncFromPeers] *)
Inductive synced := finished (err : option error) | unfinished.

Definition syncPeer (pages : nat) (i : nat) : yprog (pagesEnd * option error) :=
  r <- syncPages pages i "" false ;;
  match r with
  | left true None =>
    err <- syncReplayFrontiersFromPeer i ;;
    match err with
    | Some e => Ret (r, Some e)
    | None => err <- syncCheckpointsFromPeer i ;; Ret (r, err)
    end
  | left true (Some e) => Ret (r, Some e)
  | left false _ => Ret (r, None)
  | aborted e => Ret (r, Some e)
  | endless => Ret (r, None)
  end.

Fixpoint syncPeers (pages : nat) (peers : list nat) (available : bool) : yprog synced :=
  match peers with
  | [] => Ret (finished (if available then None else Some (errOther "no peer snapshot available")))
  | i :: peers =>
    let! (r, err) := syncPeer pages i ;;
    match r, err with
    | endless, _ => Ret unfinished
    | _, Some e => Ret (finished (Some e))
    | left here _, None => syncPeers pages peers (available || here)
    | aborted e, None => Ret (finished (Some e))
    end
  end.
Definition SyncFromPeers (pages : nat) : yprog synced := syncPeers pages (seq 0 (length urls)) false.
End Sync.
