(* ===== verification/Frontiers.v ===== *)
(** * Evicted messages are not forgotten

    A cache that evicts a message under pressure raises the frontier of its topic, or marks the topic as unsafe; a broker
    that starts takes both over from its peers. [warns]: a subscriber with this cursor is told so. *)
From S2P Require Import Prelude Programs Types Config GoIO Pending Cache CacheSpec StreamCursor StreamResume Services Handlers Sync.
#[local] Open Scope Z_scope.

(** A live reason, under [key], not to trust a cursor. *)
Definition unsafeAt (c : cache) (key : string) (now : Z) : Prop := exists entries source until, c_unsafe c !! key = Some entries /\ entries !! source = Some until /\ now < until.
(** The topic is unsafe, or its frontier is beyond the cursor. *)
Definition warns (c : cache) (topic : string) (cursor : gmap string Z) (now : Z) : Prop :=
  unsafeAt c "*" now \/ unsafeAt c topic now \/
  exists f origin sequence, c_frontiers c !! topic = Some f /\ now < tf_ExpiresAt f /\ tf_Sequences f !! origin = Some sequence /\ at0 cursor origin < sequence.

(** What the handler of the stream looks at. *)
Lemma prune_live key now c k : unsafeAt c k now -> unsafeAt (pruneUnsafeKey now key c).1 k now /\ (k = key -> (pruneUnsafeKey now key c).2 = true).
Proof.
  intros (entries & source & until & E1 & E2 & Hu). unfold pruneUnsafeKey. destruct (decide (k = key)) as [->|Hne].
  - rewrite E1. set (live := filter _ entries). assert (El : live !! source = Some until) by by apply map_lookup_filter_Some_2.
    assert (live <> ∅) by (intros Ez; by rewrite Ez, lookup_empty in El). cbn. rewrite bool_decide_false by done. split; [|intros _; by apply bool_decide_true].
    exists live, source, until. cbn. by rewrite lookup_insert_eq.
  - split; [|done]. destruct (c_unsafe c !! key) as [x|]; [|by exists entries, source, until]. exists entries, source, until. cbn.
    case_bool_decide; cbn; [by rewrite lookup_delete_ne|by rewrite lookup_insert_ne].
Qed.
Lemma warns_checked c topic cursor now : warns c topic cursor now -> (topicUnsafeLocked topic now c).2 || frontierBehind cursor (c_frontiers c !! topic) = true.
Proof.
  intros H. apply orb_true_iff. destruct H as [H|[H|(f & origin & sequence & Ef & _ & Es & Hs)]]; [left..|right].
  - unfold topicUnsafeLocked. destruct (prune_live "*" now c "*" H) as [_ H2]. destruct (pruneUnsafeKey now "*" c) as [c1 b1]. destruct (pruneUnsafeKey now topic c1) as [c2 b2]. cbn in *. by rewrite H2.
  - unfold topicUnsafeLocked. destruct (prune_live "*" now c topic H) as [H1 _]. destruct (pruneUnsafeKey now "*" c) as [c1 b1]. cbn [fst] in H1.
    destruct (prune_live topic now c1 topic H1) as [_ H2]. destruct (pruneUnsafeKey now topic c1) as [c2 b2]. cbn in *. rewrite H2 by done. apply orb_true_r.
  - rewrite Ef. cbn. apply existsb_exists. exists (origin, sequence). split; [by apply list_elem_of_In, elem_of_map_to_list|]. cbn. by apply bool_decide_true.
Qed.

(** ** Marks *)
Lemma mark_keeps topic source until c key now : unsafeAt c key now -> unsafeAt (markUnsafeLocked topic source until c) key now.
Proof.
  intros (entries & s & u & E1 & E2 & Hu). unfold markUnsafeLocked. case_bool_decide; [by exists entries, s, u|].
  assert (Hput : forall t s0 es, (c_unsafe c !! t = Some es \/ (c_unsafe c !! t = None /\ es = ∅)) ->
    unsafeAt (c <| c_unsafe := <[t := <[s0 := Z.max (default 0 (es !! s0)) until]> es]> (c_unsafe c) |>) key now).
  { intros t s0 es Hes. destruct (decide (key = t)) as [->|Hne].
    - destruct Hes as [Hes|[Hes _]]; [|congruence]. assert (es = entries) as -> by congruence. destruct (decide (s = s0)) as [->|Hs].
      + eexists _, s0, _. cbn. rewrite lookup_insert_eq. split; [done|]. rewrite lookup_insert_eq. split; [done|]. rewrite E2. cbn. lia.
      + eexists _, s, u. cbn. rewrite lookup_insert_eq. split; [done|]. by rewrite lookup_insert_ne.
    - exists entries, s, u. cbn. by rewrite lookup_insert_ne. }
  destruct (c_unsafe c !! topic) as [es|] eqn:Et; [apply Hput; by left|]. case_bool_decide.
  - apply Hput. destruct (c_unsafe c !! "*") as [es|]; [by left|by right].
  - apply Hput. rewrite Et. by right.
Qed.
Lemma mark_marks topic source until c now : 0 <= now < until -> unsafeAt (markUnsafeLocked topic source until c) "*" now \/ unsafeAt (markUnsafeLocked topic source until c) topic now.
Proof.
  intros Hu. unfold markUnsafeLocked. rewrite bool_decide_false by lia.
  assert (Hput : forall t s0 es, unsafeAt (c <| c_unsafe := <[t := <[s0 := Z.max (default 0 (es !! s0)) until]> es]> (c_unsafe c) |>) t now).
  { intros t s0 es. eexists _, s0, _. cbn. rewrite lookup_insert_eq. split; [done|]. rewrite lookup_insert_eq. split; [done|]. lia. }
  destruct (c_unsafe c !! topic) as [es|] eqn:Et; [right; apply Hput|]. case_bool_decide; [left|right]; apply Hput.
Qed.

Lemma mark_frontiers topic source until c : c_frontiers (markUnsafeLocked topic source until c) = c_frontiers c.
Proof. unfold markUnsafeLocked. case_bool_decide; [done|]. destruct (c_unsafe c !! topic); [done|]. by case_bool_decide. Qed.
Lemma mark_warns topic source until c t cursor now : warns c t cursor now -> warns (markUnsafeLocked topic source until c) t cursor now.
Proof.
  intros [H|[H|H]]; [left; by apply mark_keeps|right; left; by apply mark_keeps|right; right]. by rewrite mark_frontiers.
Qed.
Lemma mark_new topic source until c cursor now : 0 <= now < until -> warns (markUnsafeLocked topic source until c) topic cursor now.
Proof. intros Hu. destruct (mark_marks topic source until c now Hu); [by left|right; by left]. Qed.

(** A change of one frontier, upwards. *)
Lemma raised_warns c topic f t cursor now : warns c t cursor now ->
  (forall f0, c_frontiers c !! topic = Some f0 -> tf_ExpiresAt f0 <= tf_ExpiresAt f /\ forall o s, tf_Sequences f0 !! o = Some s -> exists s', tf_Sequences f !! o = Some s' /\ s <= s') ->
  warns (c <| c_frontiers := <[topic := f]> (c_frontiers c) |>) t cursor now.
Proof.
  intros [H|[H|(f0 & o & s & E1 & E2 & E3 & E4)]] Hf; [by left|right; by left|right; right]. cbn. destruct (decide (t = topic)) as [->|Hne].
  - destruct (Hf f0 E1) as [He Hs]. destruct (Hs o s E3) as (s' & E' & Hle). exists f, o, s'. rewrite lookup_insert_eq. split_and!; [done|lia|done|lia].
  - exists f0, o, s. by rewrite lookup_insert_ne.
Qed.
Lemma frontier_new c topic f o s cursor now : now < tf_ExpiresAt f -> tf_Sequences f !! o = Some s -> at0 cursor o < s -> warns (c <| c_frontiers := <[topic := f]> (c_frontiers c) |>) topic cursor now.
Proof. intros He Hs Hc. right. right. exists f, o, s. cbn. by rewrite lookup_insert_eq. Qed.

(** ** Evictions *)
Lemma evicted_warns m tnow c t cursor now : 0 <= tnow <= now -> warns c t cursor now -> warns (noteEvictedLocked m tnow c) t cursor now.
Proof.
  intros Ht Hw. unfold noteEvictedLocked. set (c1 := if bool_decide (c_frontierLimit c <= mlen (c_frontiers c)) then _ else c).
  assert (Hw1 : warns c1 t cursor now).
  { unfold c1. case_bool_decide; [|done]. destruct Hw as [H'|[H'|(f & o & s & E1 & E2 & E3)]]; [by left|right; by left|right; right]. exists f, o, s. split; [|done]. cbn.
    apply map_lookup_filter_Some_2; [done|]. cbn. lia. }
  assert (Hraise : forall c0 f0, warns c0 t cursor now -> (c_frontiers c0 !! m_Topic m = Some f0 \/ (c_frontiers c0 !! m_Topic m = None /\ f0 = mkTopicFrontier ∅ 0)) ->
    warns (c0 <| c_frontiers := <[m_Topic m := mkTopicFrontier (<[m_Origin m := Z.max (default 0 (tf_Sequences f0 !! m_Origin m)) (m_Sequence m)]> (tf_Sequences f0)) (Z.max (tf_ExpiresAt f0) (m_ExpiresAt m))]> (c_frontiers c0) |>) t cursor now).
  { intros c0 f0 Hw0 Hf0. apply raised_warns; [done|]. intros f' Ef'. destruct Hf0 as [Hf0|[Hf0 _]]; [|congruence]. assert (f' = f0) as -> by congruence. cbn. split; [lia|].
    intros o s Es. destruct (decide (o = m_Origin m)) as [->|Hne]; [rewrite lookup_insert_eq, Es; eexists; split; [done|]; cbn; lia|rewrite lookup_insert_ne by done; by exists s]. }
  destruct (c_frontiers c !! m_Topic m) as [f|] eqn:Ef.
  - cbv zeta. destruct (_ && _); [by apply mark_warns|]. apply Hraise; [done|by left].
  - fold c1. destruct (bool_decide (c_frontierLimit c1 <= mlen (c_frontiers c1))) eqn:Eb; [by apply mark_warns|]. destruct (_ && _) eqn:E2; [by apply mark_warns|]. apply Hraise; [done|]. right. split; [|done].
    unfold c1. destruct (bool_decide (c_frontierLimit c <= mlen (c_frontiers c))); [|done]. cbn. apply map_lookup_filter_None. by left.
Qed.
Lemma evicted_new m tnow c cursor now : 0 <= now < m_ExpiresAt m -> at0 cursor (m_Origin m) < m_Sequence m -> warns (noteEvictedLocked m tnow c) (m_Topic m) cursor now.
Proof.
  intros Hn Hs. unfold noteEvictedLocked. set (c1 := if bool_decide (c_frontierLimit c <= mlen (c_frontiers c)) then _ else c).
  assert (Hraise : forall c0 f0, warns (c0 <| c_frontiers := <[m_Topic m := mkTopicFrontier (<[m_Origin m := Z.max (default 0 (tf_Sequences f0 !! m_Origin m)) (m_Sequence m)]> (tf_Sequences f0)) (Z.max (tf_ExpiresAt f0) (m_ExpiresAt m))]> (c_frontiers c0) |>) (m_Topic m) cursor now).
  { intros c0 f0. eapply frontier_new; cbn; [|by rewrite lookup_insert_eq|]; lia. }
  destruct (c_frontiers c !! m_Topic m) as [f|] eqn:Ef.
  - cbv zeta. destruct (_ && _); [by apply mark_new|]. apply Hraise.
  - fold c1. destruct (bool_decide (c_frontierLimit c1 <= mlen (c_frontiers c1))); [by apply mark_new|]. destruct (_ && _); [by apply mark_new|]. apply Hraise.
Qed.

(** ** A snapshot of a peer *)
Lemma raise_keeps l : forall m o s, m !! o = Some s -> exists s', foldl raise m l !! o = Some s' /\ s <= s'.
Proof.
  induction l as [|[o1 s1] l IH]; intros m o s Hs; cbn; [by exists s|]. destruct (decide (o1 = o)) as [->|Hne].
  - destruct (IH (raise m (o, s1)) o (Z.max s s1)) as (s' & E & Hle); [unfold raise; cbn; by rewrite lookup_insert_eq, Hs|]. exists s'. split; [done|lia].
  - apply IH. unfold raise. cbn. by rewrite lookup_insert_ne.
Qed.
Lemma raise_new l : forall m o s, (o, s) ∈ l -> exists s', foldl raise m l !! o = Some s' /\ s <= s'.
Proof.
  induction l as [|[o1 s1] l IH]; intros m o s Hin; cbn; [by apply elem_of_nil in Hin|]. apply elem_of_cons in Hin as [[= <- <-]|Hin]; [|by apply IH].
  destruct (raise_keeps l (raise m (o, s)) o (Z.max (default 0 (m !! o)) s)) as (s' & E & Hle); [unfold raise; cbn; by rewrite lookup_insert_eq|]. exists s'. split; [done|lia].
Qed.
Lemma foldl_keeps {A S} (P : S -> Prop) (f : S -> A -> S) l : (forall s a, P s -> P (f s a)) -> forall s, P s -> P (foldl f s l).
Proof. intros Hf. induction l as [|a l IH]; intros s Hs; cbn; [done|]. by apply IH, Hf. Qed.
Lemma foldl_sets {A S} (P : S -> Prop) (f : S -> A -> S) l a : a ∈ l -> (forall s, P (f s a)) -> (forall s a, P s -> P (f s a)) -> forall s, P (foldl f s l).
Proof. intros Ha Hs Hk. induction l as [|b l IH]; intros s; [by apply elem_of_nil in Ha|]. cbn. apply elem_of_cons in Ha as [<-|Ha]; [by apply foldl_keeps|by apply IH]. Qed.

Section Merge.
Context `{CursorJSON, MapOrder}.

Lemma rangeAll_elem {A} (m : gmap string A) k v : m !! k = Some v -> (k, v) ∈ rangeAll m.
Proof. intros Hk. rewrite rangeAll_perm. by apply elem_of_map_to_list. Qed.

Lemma mergeTopic_keeps tnow t cursor now c p : warns c t cursor now -> warns (mergeTopic tnow c p) t cursor now.
Proof.
  intros Hw. destruct p as [topic [f|]]; [|done]. unfold mergeTopic. case_bool_decide; [done|]. set (current := default (mkTopicFrontier ∅ 0) (c_frontiers c !! topic)).
  assert (Hw1 : warns (c <| c_frontiers := <[topic := current]> (c_frontiers c) |>) t cursor now).
  { apply raised_warns; [done|]. intros f0 E0. unfold current. rewrite E0. cbn. split; [lia|]. intros o s Es. by exists s. }
  cbv zeta. set (sequences := foldl raise _ _). destruct (bool_decide (encodeReplayCursor sequences = "")); [by apply mark_warns|]. apply (raised_warns _ topic); [exact Hw1|]. cbn.
  rewrite lookup_insert_eq. intros f0 [= <-]. split; [lia|]. intros o s Es. by apply raise_keeps.
Qed.
Lemma mergeTopic_new tnow cursor now c topic f o s : 0 <= tnow <= now -> now < tf_ExpiresAt f -> tf_Sequences f !! o = Some s -> at0 cursor o < s ->
  warns (mergeTopic tnow c (topic, Some f)) topic cursor now.
Proof.
  intros Ht He Es Hs. unfold mergeTopic. rewrite bool_decide_false by lia. cbv zeta. set (sequences := foldl raise _ _). destruct (bool_decide (encodeReplayCursor sequences = "")); [apply mark_new; lia|].
  destruct (raise_new (rangeAll (tf_Sequences f)) (tf_Sequences (default (mkTopicFrontier ∅ 0) (c_frontiers c !! topic))) o s) as (s' & E & Hle); [by apply rangeAll_elem|].
  eapply frontier_new; [cbn; lia|exact E|lia].
Qed.

Lemma markPeer_keeps t cursor now c p : warns c t cursor now -> warns (markPeer c p) t cursor now.
Proof. intros Hw. unfold markPeer. apply foldl_keeps; [|done]. intros c0 e. by apply mark_warns. Qed.
Lemma mark_either topic source until c t cursor now : 0 <= now < until -> topic = "*" \/ topic = t -> warns (markUnsafeLocked topic source until c) t cursor now.
Proof. intros Hu Ht. destruct (mark_marks topic source until c now Hu) as [H1|H1]; [by left|]. destruct Ht as [->| ->]; [by left|right; by left]. Qed.
Lemma markPeer_new t cursor now c topic entries source until : 0 <= now < until -> entries !! source = Some until -> topic = "*" \/ topic = t -> warns (markPeer c (topic, entries)) t cursor now.
Proof.
  intros Hu Es Ht. unfold markPeer. cbn [fst snd]. apply (foldl_sets (fun c => warns c t cursor now) _ _ (source, until)); [by apply rangeAll_elem| |].
  - intros c0. by apply mark_either.
  - intros c0 e. by apply mark_warns.
Qed.

(** What a peer answers for its frontiers. *)
Definition frontiersOf (now : Z) (c : cache) : incomingFrontiers := mkIncoming 0 (Some <$> c_frontiers c) (liveUnsafe now (c_unsafe c)).

Lemma liveUnsafe_at tnow c key now : 0 <= tnow <= now -> unsafeAt c key now -> exists entries source until, liveUnsafe tnow (c_unsafe c) !! key = Some entries /\ entries !! source = Some until /\ now < until.
Proof.
  intros Ht (entries & source & until & E1 & E2 & Hu). unfold liveUnsafe. rewrite lookup_omap, E1. cbn. set (copied := filter _ entries).
  assert (El : copied !! source = Some until) by (apply map_lookup_filter_Some_2; [done|cbn; lia]).
  rewrite bool_decide_false by (intros Ez; by rewrite Ez, lookup_empty in El). by exists copied, source, until.
Qed.

(** C11: the loss of a message is never hidden from a subscriber. For a cursor that has not reached a message, until that message would have
    expired: its eviction makes [topicUnsafeLocked] or [frontierBehind], which the handler of the stream asks, say so, unless the bounded
    tables are full, when they say it of more topics than needed; later evictions keep it so; and a broker that starts and merges the
    frontiers of a peer warns of everything that the peer warned of, and of what it has warned of itself. *)
Theorem losses_warn topic cursor tnow now : 0 <= tnow <= now ->
  (forall c, warns c topic cursor now -> (topicUnsafeLocked topic now c).2 || frontierBehind cursor (c_frontiers c !! topic) = true) /\
  (forall c m, m_Topic m = topic -> now < m_ExpiresAt m -> at0 cursor (m_Origin m) < m_Sequence m -> warns (noteEvictedLocked m tnow c) topic cursor now) /\
  (forall c m, warns c topic cursor now -> warns (noteEvictedLocked m tnow c) topic cursor now) /\
  (forall c s, warns c topic cursor now -> warns (mergeFrontiers s tnow c) topic cursor now) /\
  (forall c peer sent, 0 <= sent <= now -> warns peer topic cursor now -> warns (mergeFrontiers (frontiersOf sent peer) tnow c) topic cursor now).
Proof.
  intros Ht. split; [intros c; apply warns_checked|]. split; [intros c m <- He Hs; by apply evicted_new; [lia|]|]. split; [intros c m; by apply evicted_warns|].
  assert (Hk : forall s c1, warns c1 topic cursor now -> warns (foldl (mergeTopic tnow) c1 (rangeAll (in_Topics s))) topic cursor now).
  { intros s c1 Hw. apply foldl_keeps; [|done]. intros c0 p. apply mergeTopic_keeps. }
  split.
  - intros c s Hw. unfold mergeFrontiers. cbv zeta. apply Hk. apply foldl_keeps; [intros c0 p; apply markPeer_keeps|]. case_bool_decide; [by apply mark_warns|done].
  - intros c peer sent Hsent Hw. unfold mergeFrontiers. cbv zeta. set (c1 := if bool_decide (0 < _) then _ else c).
    assert (Hmark : forall key, unsafeAt peer key now -> key = "*" \/ key = topic -> warns (foldl markPeer c1 (rangeAll (in_Unsafe (frontiersOf sent peer)))) topic cursor now).
    { intros key Hu Hkey. destruct (liveUnsafe_at sent peer key now Hsent Hu) as (entries & source & until & E1 & E2 & Hn).
      apply (foldl_sets (fun c => warns c topic cursor now) _ _ (key, entries)); [by apply rangeAll_elem| |intros c0 p; apply markPeer_keeps].
      intros c0. eapply markPeer_new; [|exact E2|exact Hkey]. lia. }
    destruct Hw as [Hw|[Hw|(f & o & s & E1 & He & Es & Hs)]]; [apply Hk, (Hmark "*"); [done|by left]|apply Hk, (Hmark topic); [done|by right]|].
    apply (foldl_sets (fun c => warns c topic cursor now) _ _ (topic, Some f)); [apply rangeAll_elem; cbn; by rewrite lookup_fmap, E1| |intros c0 p; apply mergeTopic_keeps].
    intros c0. by eapply mergeTopic_new.
Qed.
End Merge.

(** ** A message that a peer has evicted *)
Definition ex_order : MapOrder.
Proof. refine {| rangeAll := fun A m => map_to_list m |}. reflexivity. Defined.
Definition ex_evicted : cache := noteEvictedLocked (ex_msg "a" 10) 0 (newCache 1000).
Lemma losses_warn_witness : 0 <= 0 <= 5 /\ warns (@mergeFrontiers bitJSON ex_order (frontiersOf 0 ex_evicted) 0 (newCache 1000)) "t" ∅ 5.
Proof.
  split; [lia|]. destruct (@losses_warn bitJSON ex_order "t" ∅ 0 5 ltac:(lia)) as (_ & Hnew & _ & _ & Hm). apply Hm; [lia|].
  apply (Hnew (newCache 1000) (ex_msg "a" 10)); [reflexivity|reflexivity|reflexivity].
Defined.
