(* ===== verification/SyncSpec.v ===== *)
(** * What a broker has after [SyncFromPeers]

    The peer goes on while its pages are read: messages arrive, expire and are evicted between any two of them. [served] says which
    answers come from a peer that runs [snapshot] of broker.go on its cache; the theorem follows every such history. *)
From S2P Require Import Prelude Programs GoHeap Dll Types Config Metrics GoIO Urls Wire Cache CacheIndex CacheExpiry CacheInv CacheExpire CacheSpec CacheOrder Pending StreamCursor Services Publish Handlers RepairSpec Sync.
From Stdlib Require Import Sorting.Sorted.
#[local] Open Scope Z_scope.

(** ** Readers and longer inputs *)
Definition extends {A} (rd : Reader A) : Prop := forall l a r k, rd l = inr (a, r) -> rd (l ++ k) = inr (a, r ++ k).
Lemma extends_ret {A} (a : A) : extends (rret a).
Proof. by intros l b r k [= -> ->]. Qed.
Lemma extends_full n : extends (readFull n).
Proof. intros l a r k E. apply readFull_inr in E as [Hl ->]. rewrite <- app_assoc. by apply readFull_app. Qed.
Lemma extends_bind {A B} (m : Reader A) (f : A -> Reader B) : extends m -> (forall a, extends (f a)) -> extends (rbind m f).
Proof. intros Hm Hf l b r k E. apply rbind_inr in E as (a & l' & E1 & E2). rewrite (rbind_eq _ _ _ a (l' ++ k)) by by apply Hm. by apply Hf. Qed.
Lemma extends_guard {A} bad e (m : Reader A) : extends m -> extends (rguard bad e m).
Proof. intros Hm l a r k E. destruct bad; [done|]. by apply Hm. Qed.
Lemma extends_times {A} n (m : Reader A) : extends m -> extends (rtimes n m).
Proof. intros Hm. induction n as [|n IH]; cbn [rtimes]; [apply extends_ret|]. apply extends_bind; [done|]. intros a. apply extends_bind; [done|]. intros l. apply extends_ret. Qed.
Lemma extends_string n : extends (readPeerString n).
Proof. unfold readPeerString. apply extends_bind; [apply extends_full|]. intros size. cbv zeta. apply extends_guard, extends_bind; [apply extends_full|]. intros v. apply extends_ret. Qed.
Lemma extends_headers n : forall hb h, extends (readHeaders n hb h).
Proof. induction n as [|n IH]; intros hb h; cbn [readHeaders]; [apply extends_ret|]. do 2 (apply extends_bind; [apply extends_string|]; intros ?). cbv zeta. by apply extends_guard. Qed.
Lemma extends_message maxMessage : extends (readMessage maxMessage).
Proof.
  unfold readMessage. do 4 (apply extends_bind; [apply extends_string|]; intros ?). apply extends_bind; [apply extends_full|]. intros ?. cbv zeta. apply extends_guard.
  apply extends_bind; [apply extends_headers|]. intros ?. apply extends_bind; [apply extends_full|]. intros ?. apply extends_ret.
Qed.
Lemma extends_batch maxMessage : extends (readPeerBatch maxMessage).
Proof. unfold readPeerBatch, readBatchOf. apply extends_bind; [apply extends_full|]. intros ?. cbv zeta. apply extends_guard, extends_times, extends_message. Qed.

(** What is read of a body that is cut is what the whole body holds. *)
Lemma limited_batch `{MapRange} maxMessage messages n l r : batchOk maxMessage messages -> readPeerBatch maxMessage (limitReader n (writePeerBatch false messages []).1) = inr (l, r) -> l = wireOf <$> messages.
Proof.
  intros Ok E. assert (Ew : (writePeerBatch false messages []).1 = encBatch encMessage messages).
  { unfold writePeerBatch. rewrite (badBatchSize_ok _ _ Ok). assert (Ha : emits (wwrite (beBytes 4 (llen messages)) ;>> weach messages writeMessage) (encBatch encMessage messages)).
    { apply (emits_batch _ _ maxMessage); [done|]. intros m Hm. apply (emits_message_gen writePeerString maxMessage); [apply emits_writePeerString|done]. }
    by rewrite Ha. }
  assert (Hd : readPeerBatch maxMessage (encBatch encMessage messages) = inr (wireOf <$> messages, [])).
  { rewrite <- (app_nil_r (encBatch _ _)). apply (decodes_batch _ _ _ maxMessage); [done|]. intros m. apply decodes_message. }
  rewrite Ew in E. set (body := encBatch encMessage messages) in *. unfold limitReader in E. destruct (bool_decide (llen body <= n)); [rewrite Hd in E; by injection E as -> _|].
  apply (extends_batch maxMessage _ _ _ (drop (Z.to_nat n) body)) in E. rewrite take_drop, Hd in E. by injection E as -> _.
Qed.

(** ** The peer's side *)
Definition recordsResponse X (e : service X) : X -> list response -> list response :=
  match e in service X return X -> list response -> list response with sRespond r => fun _ d => d ++ [r] | _ => fun _ d => d end.
Definition pageIs (page : list Message * string * bool) X (e : service X) (_ : list response) : X -> Prop :=
  match e in service X return X -> Prop with sPage _ _ => fun x => x = page | _ => fun _ => True end.
Definition headerOf (name : string) (l : list (string * string)) : string := default "" (snd <$> List.find (fun p => bool_decide (p.1 = name)) l).
Definition answerOf (rs : response) (a : peerAnswer) : Prop :=
  pa_status a = rs_status rs /\ pa_version a = headerOf "Spruce-Peer-Version" (rs_headers rs) /\ pa_cursor a = headerOf "Spruce-Next-Cursor" (rs_headers rs) /\
  match rs_body rs with wireBody bytes => pa_body a = bytes | _ => True end.

Section Spec.
Context `{MapRange} `{SyncJSON} (cfg peerCfg : Config) (urls : list string) (frontierLimit : Z) (i : nat).

(** The peer runs [snapshot] for this cursor, its cache answers the page. *)
Definition responds (cursor : string) (page : list Message * string * bool) (a : peerAnswer) : Prop :=
  exists r tr rs, hr_query r "after" = cursor /\ hr_header r "Spruce-Peer-Version" = "2" /\
    execution recordsResponse (pageIs page) (Handlers.snapshot peerCfg r) [] tr tt /\ rs ∈ afterAll recordsResponse tr [] /\ answerOf rs a.

(** What a right answer says of the page. *)
Definition tells (page : list Message * string * bool) (a : peerAnswer) : Prop :=
  (pa_status a = 204 -> page.2 = true /\ page.1.1 = []) /\
  (pa_status a = 200 -> page.2 = true /\ page.1.1 <> [] /\ pa_version a = "2" /\ pa_cursor a = page.1.2 /\ pa_body a = (writePeerBatch false page.1.1 []).1).
Lemma responds_tells cursor page a : responds cursor page a -> tells page a.
Proof.
  intros (r & tr & rs & _ & Hv & Hex & Hrs & Ha). destruct page as [[messages next] valid].
  assert (Ho : obeys (fun _ _ _ => True) recordsResponse (pageIs (messages, next, valid)) (Handlers.snapshot peerCfg r) [] (fun _ d => Forall (fun rs => forall a, answerOf rs a -> tells (messages, next, valid) a) d)).
  { assert (Hone : forall rs, (forall a, answerOf rs a -> tells (messages, next, valid) a) -> forall d : list response, d = [] -> Forall (fun rs => forall a, answerOf rs a -> tells (messages, next, valid) a) (d ++ [rs])) by (intros rs0 G0 d ->; by apply Forall_singleton).
    assert (Hbad : forall st code h, st <> 204 -> st <> 200 -> forall a, answerOf (mkResponse st h (errorBody code)) a -> tells (messages, next, valid) a) by (intros st code h N1 N2 a0 (E & _); cbn in E; split; intros ?; congruence).
    assert (Hdenied : obeys (fun _ _ _ => True) recordsResponse (pageIs (messages, next, valid)) (problem 401 "invalid_peer") [] (fun _ d => Forall (fun rs => forall a, answerOf rs a -> tells (messages, next, valid) a) d)).
    { split; [done|]. intros [] _. apply (Hone (problemResponse 401 "invalid_peer" [])); [|done]. by apply Hbad. }
    unfold Handlers.snapshot, forPeer, peerAllowed. destruct (_ || _); [split; [done|intros [] _; exact Hdenied]|]. destruct (bool_decide _); cbn [negb pbind Programs.call]; [|split; [done|intros [] _; exact Hdenied]].
    split; [done|]. intros x ->. cbn [pbind]. destruct valid; cbn [negb]; [|split; [done|intros [] _; apply (Hone (problemResponse 409 "snapshot_cursor_expired" [])); [by apply Hbad|done]]].
    destruct (bool_decide_reflect (messages = [])) as [->|Hne].
    - split; [done|]. intros [] _. apply (Hone (mkResponse 204 [] noBody)); [|done]. intros a0 (E & _). cbn in E. split; [done|]. intros ?. congruence.
    - rewrite Hv. rewrite bool_decide_true by done. split; [done|]. intros [] _. apply Hone; [|done]. intros a0 (E & E2 & E3 & E4). cbn in *. split; [intros ?; congruence|]. done. }
  destruct (obeys_sound _ _ _ _ _ _ _ Hex _ Ho) as [_ Hall]. rewrite Forall_forall in Hall. by apply (Hall rs Hrs).
Qed.

(** The cache of the peer, and the message that the cursor it gave out last names: its ID and its ordinal. *)
Record side := mkSide { sd_cache : cache; sd_cursor : option (string * Z) }.

(** What is asked of the peer besides its code: every message that it holds is within the limits of the wire format (a content type of more than 8180 bytes is
    not), and as long as a cursor is in use its ID is not cached again for a new publication (an idempotent publication that is made again after it has
    expired or been evicted has the same ID). *)
Record sideOK (s : side) : Prop := {
  sk_cache : cacheOK (sd_cache s);
  sk_order : ordered (sd_cache s);
  sk_wire : forall r m, r ∈ cached (sd_cache s) -> c_mstore (sd_cache s) !! r = Some m -> wireOk (cfg_MaxMessage cfg) m;
  sk_cursor : forall r m o, r ∈ cached (sd_cache s) -> c_mstore (sd_cache s) !! r = Some m -> sd_cursor s = Some (m_ID m, o) -> m_repairOrdinal m = o;
}.
Definition moves (s s' : side) : Prop := cacheStep (sd_cache s) (sd_cache s') /\ sd_cursor s' = sd_cursor s /\ sideOK s'.

(** The cursor that a page gives out. *)
Definition given (c : cache) (out : list loc) (old : option (string * Z)) : option (string * Z) :=
  match last out with Some y => match c_mstore c !! y with Some m => Some (m_ID m, m_repairOrdinal m) | None => old end | None => old end.

(** An answer of the peer, and what it does to the peer: a page comes from its cache. *)
Inductive answers (path : string) (a : peerAnswer) (s : side) : side -> Prop :=
| an_other : (forall cursor, path <> snapshotPath cursor) -> answers path a s s
| an_refused : pa_status a <> 200 -> pa_status a <> 204 -> answers path a s s
| an_page cursor tnow out messages next valid c' : path = snapshotPath cursor -> page cursor (Z.shiftl 24 20) tnow (sd_cache s) = Some ((out, next, valid), c') ->
    Forall2 (fun r m => c_mstore c' !! r = Some m) out messages -> responds cursor (messages, next, valid) a -> answers path a s (mkSide c' (given c' out (sd_cursor s))).
Definition acts (x : Programs.action syncCall) (s s' : side) : Prop :=
  match x with @Act _ X e r =>
    match e in syncCall X return X -> Prop with
    | yDo j path _ => fun r => match r with inr a => if decide (j = i) then answers path a s s' else s' = s | inl _ => s' = s end
    | _ => fun _ => s' = s
    end r
  end.

(** The histories of the peer that fit a sequence of calls. *)
Inductive served (s0 : side) : list (Programs.action syncCall) -> side -> Prop :=
| sv_new : served s0 [] s0
| sv_moves tr s s' : served s0 tr s -> moves s s' -> served s0 tr s'
| sv_acts tr x s s' : served s0 tr s -> acts x s s' -> served s0 (tr ++ [x]) s'.

(** The messages that the cache of this broker has accepted. *)
Definition acceptedOf (x : Programs.action syncCall) : list Message :=
  match x with @Act _ X e r => match e in syncCall X return X -> list Message with yAcceptBatch l => fun err => match err with None => l | Some _ => [] end | _ => fun _ => [] end r end.
Definition accepted (tr : list (Programs.action syncCall)) : list Message := tr ≫= acceptedOf.
Definition replies (x : Programs.action syncCall) : Prop :=
  match x with @Act _ X e r => match e in syncCall X return X -> Prop with yDo j _ _ => fun r => j = i /\ is_Some (match r with inr a => Some a | inl _ => None end) | _ => fun _ => False end r end.
Definition answered (tr : list (Programs.action syncCall)) : Prop := Exists replies tr.

(** ** Histories *)
Lemma wireOk_same n m m' : wireOf m' = wireOf m -> wireOk n m -> wireOk n m'.
Proof. intros E [W1 W2 W3 W4 W5 W6 W7 W8 W9 W10 W11]. injection E as E1 E2 E3 E4 E5 E6 E7 E8 E9. split; congruence. Qed.

Lemma thinned_side s c' : sideOK s -> thinned (sd_cache s) c' -> cacheOK c' -> sideOK (mkSide c' (sd_cursor s)) /\ evolves (sd_cache s) c'.
Proof.
  intros [K O W B] T K'. destruct (thinned_ordered _ _ O T) as [O' V]. split; [|done].
  assert (Hback : forall r m', r ∈ cached c' -> c_mstore c' !! r = Some m' -> exists m, r ∈ cached (sd_cache s) /\ c_mstore (sd_cache s) !! r = Some m /\ wireOf m' = wireOf m /\ m_repairOrdinal m' = m_repairOrdinal m).
  { intros r m' Hr Hm'. assert (Hr0 : r ∈ cached (sd_cache s)) by (eapply elem_of_sublist; [exact Hr|apply T]). destruct (cached_found _ _ K Hr0) as [m Hm]. exists m. split; [done|]. split; [done|].
    pose proof (th_store _ _ T r) as Ha. rewrite Hm, Hm' in Ha. apply (inj Some), pair_equal_spec in Ha as [E1 E2]. done. }
  split; cbn; [done|done| |].
  - intros r m' Hr Hm'. destruct (Hback r m' Hr Hm') as (m & Hr0 & Hm & E & _). eapply wireOk_same; [exact E|by eapply W].
  - intros r m' o Hr Hm' Eo. destruct (Hback r m' Hr Hm') as (m & Hr0 & Hm & E & ->). injection E as E _. rewrite E in Eo. by eapply B.
Qed.

Lemma page_facts cursor tnow s res c' : sideOK s -> page cursor (Z.shiftl 24 20) tnow (sd_cache s) = Some (res, c') ->
  sideOK (mkSide c' (sd_cursor s)) /\ evolves (sd_cache s) c' /\
  if decide (cursor <> "" /\ c_items c' !! cursor = None) then res = ([], "", false) else exists l, following c' cursor l /\ pageResult (c_mstore c') (Z.shiftl 24 20) cursor l res.
Proof.
  intros Ok E. pose proof (sk_cache _ Ok) as K.
  assert (H' : wp (page cursor (Z.shiftl 24 20) tnow) (sd_cache s) (fun res c' => cacheOK c' /\
    if decide (cursor <> "" /\ c_items c' !! cursor = None) then res = ([], "", false) else exists l, following c' cursor l /\ pageResult (c_mstore c') (Z.shiftl 24 20) cursor l res)) by (apply wp_page; [done|done|auto]).
  apply wp_elim in H' as (res0 & c0 & E0 & K' & Hres). assert ((res0, c0) = (res, c')) as [= -> ->] by congruence.
  destruct (thinned_side s c' Ok (thins_page _ _ _ _ _ _ E) K') as [Ok' V]. done.
Qed.

Lemma acts_cases x s s' : acts x s s' -> s' = s \/ exists path version a, x = Act (yDo i path version) (inr a) /\ answers path a s s'.
Proof.
  destruct x as [X e r]. destruct e; try by left. cbn. destruct r as [e|a]; [by left|]. case_decide as Hj; [subst i0|by left]. intros A. right. by exists path, version, a.
Qed.
(** A page is of what is cached, and its cursor names one message. *)
Lemma page_cached cursor tnow s out next valid c' y : sideOK s -> page cursor (Z.shiftl 24 20) tnow (sd_cache s) = Some ((out, next, valid), c') -> y ∈ out -> y ∈ cached c'.
Proof.
  intros Ok E Hy. destruct (page_facts _ _ _ _ _ Ok E) as (Ok' & _ & Hres). case_decide as Hd; [injection Hres as -> _ _; by apply elem_of_nil in Hy|].
  destruct Hres as (l & Hf & Hres). unfold pageResult in Hres. destruct valid; [|destruct Hres as [-> _]; by apply elem_of_nil in Hy]. destruct Hres as (rest & El & _). assert (Hl : y ∈ l) by (rewrite El; apply elem_of_app; by left).
  unfold following in Hf. case_decide; [by subst l|]. destruct Hf as (x & l1 & _ & Ec). rewrite Ec. apply elem_of_app. right. by right.
Qed.
Lemma side_given c o out : sideOK (mkSide c o) -> (forall y, y ∈ out -> y ∈ cached c) -> sideOK (mkSide c (given c out o)).
Proof.
  intros [K O Wi B] Hin. split; [done..|]. cbn in *. intros r m o' Hr Hm. unfold given. destruct (last out) as [y|] eqn:Hl; [|intros Eo; by apply (B r m)].
  assert (Hy : y ∈ cached c) by (apply Hin; apply last_Some in Hl as [out0 ->]; apply elem_of_app; right; left).
  destruct (c_mstore c !! y) as [my|] eqn:Hmy; [|intros Eo; by apply (B r m)]. intros [= Eid <-]. destruct (cached_spec c K) as [_ Hc].
  apply Hc in Hr as (m1 & Hm1 & Hi1), Hy as (m2 & Hm2 & Hi2). assert (m1 = m) as -> by congruence. assert (m2 = my) as -> by congruence. congruence.
Qed.
Lemma act_ok x s s' : sideOK s -> acts x s s' -> sideOK s' /\ evolves (sd_cache s) (sd_cache s').
Proof.
  intros Ok [->|(path & version & a & _ & A)]%acts_cases; [split; [done|]; apply evolves_refl|]. destruct A as [_|_ _|cursor tnow out messages next valid c' _ E _ _]; [split; [done|]; apply evolves_refl..|].
  destruct (page_facts _ _ _ _ _ Ok E) as (Ok' & V & Hres). split; [|done]. apply side_given; [done|]. intros y Hy. exact (page_cached _ _ _ _ _ _ _ y Ok E Hy).
Qed.

Lemma served_ok s0 tr s : sideOK s0 -> served s0 tr s -> sideOK s /\ c_nextRepairOrdinal (sd_cache s0) <= c_nextRepairOrdinal (sd_cache s).
Proof.
  intros Ok. induction 1 as [|tr s s' _ [IH Hn] (St & _ & Ok')|tr x s s' _ [IH Hn] A]; [split; [done|lia]| |].
  - split; [done|]. destruct (cacheStep_ok _ _ (sk_cache _ IH) (sk_order _ IH) St) as (_ & _ & [Hle _]). lia.
  - destruct (act_ok _ _ _ IH A) as (Ok' & [Hle _]). split; [done|lia].
Qed.

(** What holds after an answer, if it survives what the peer does meanwhile. *)
Lemma served_snoc s0 (P : side -> Prop) tr x : sideOK s0 -> (forall s s', sideOK s -> P s -> moves s s' -> P s') -> (forall s s', served s0 tr s -> acts x s s' -> P s') ->
  forall s', served s0 (tr ++ [x]) s' -> P s'.
Proof.
  intros Ok Hm Ha s' Hs. remember (tr ++ [x]) as tr' eqn:E. induction Hs as [|tr1 s s' Hs IH St|tr1 y s s' Hs IH A].
  - by destruct tr.
  - eapply Hm; [by apply (served_ok s0 tr1)|by apply IH|done].
  - apply app_inj_tail in E as [-> ->]. by eapply Ha.
Qed.

Lemma moves_evolve s s' : sideOK s -> moves s s' -> evolves (sd_cache s) (sd_cache s') /\ sd_cursor s' = sd_cursor s.
Proof. intros Ok (St & Hb & _). destruct (cacheStep_ok _ _ (sk_cache _ Ok) (sk_order _ Ok) St) as (_ & _ & V). done. Qed.

Lemma within_more c from to l k : within c from to l -> within c from to (l ++ k).
Proof. intros Hw r Hr Ho. destruct (Hw r Hr Ho) as (m & Hm & E). exists m. split; [apply elem_of_app; by left|done]. Qed.

(** ** One page *)
Lemma following_beyond s cursor l o : sideOK s -> following (sd_cache s) cursor l -> (cursor = "" /\ o = 0 \/ cursor <> "" /\ sd_cursor s = Some (cursor, o)) ->
  (exists l1, cached (sd_cache s) = l1 ++ l) /\ forall r, r ∈ cached (sd_cache s) -> o < ordinalAt (c_mstore (sd_cache s)) r -> r ∈ l.
Proof.
  intros Ok Hf Ho. unfold following in Hf. case_decide as Hc.
  - subst l. split; [by exists []|done].
  - destruct Hf as (y & l1 & Hy & El). destruct Ho as [[Hz _]|[_ Hb]]; [done|]. split; [exists (l1 ++ [y]); by rewrite El, <- app_assoc|]. intros r Hr Hlt.
    pose proof (sk_cache _ Ok) as K. pose proof K as [[L I] _]. destruct (ci_item _ _ _ _ _ I Hy) as (m & Hm & Eid).
    assert (Hyc : y ∈ cached (sd_cache s)) by (rewrite El; apply elem_of_app; right; left). pose proof (sk_cursor _ Ok _ _ o Hyc Hm) as Hb'. rewrite Eid in Hb'. specialize (Hb' Hb). subst o.
    assert (Ey : ordinalAt (c_mstore (sd_cache s)) y = m_repairOrdinal m) by (unfold ordinalAt; by rewrite Hm). rewrite <- Ey in Hlt. pose proof (od_sorted _ (sk_order _ Ok)) as Hs. rewrite El in Hs, Hr.
    destruct (decide (r ∈ l)) as [|Hn]; [done|]. assert (Hr1 : r ∈ l1 ++ [y]) by (apply elem_of_app in Hr as [Hr|[->|Hr]%elem_of_cons]; [apply elem_of_app; by left|apply elem_of_app; right; left|done]).
    exfalso. rewrite (cons_middle y l1 l), fmap_app in Hs. apply elem_of_app in Hr1 as [Hr1|Hr1]; [|apply list_elem_of_singleton in Hr1 as ->; lia].
    assert (Hin : ordinalAt (c_mstore (sd_cache s)) r ∈ ordinalAt (c_mstore (sd_cache s)) <$> l1) by by apply list_elem_of_fmap_2.
    clear -Hs Hin Hlt. induction (ordinalAt (c_mstore (sd_cache s)) <$> l1) as [|z k IH]; [by apply elem_of_nil in Hin|]. cbn in Hs. apply StronglySorted_inv in Hs as [Hs Hz].
    apply elem_of_cons in Hin as [<-|Hin]; [|by apply IH]. rewrite Forall_forall in Hz. specialize (Hz (ordinalAt (c_mstore (sd_cache s)) y)). cbn in Hz. rewrite elem_of_app in Hz. specialize (Hz ltac:(right; left)). lia.
Qed.

Lemma page_end cursor tnow s o next c' acc N : sideOK s -> (cursor = "" /\ o = 0 \/ cursor <> "" /\ sd_cursor s = Some (cursor, o)) -> o <= c_nextRepairOrdinal (sd_cache s) -> within (sd_cache s) 0 o acc ->
  page cursor (Z.shiftl 24 20) tnow (sd_cache s) = Some (([], next, true), c') -> within c' 0 N acc.
Proof.
  intros Ok Ho Hn Hw E. destruct (page_facts _ _ _ _ _ Ok E) as (Ok' & V & Hres). case_decide as Hd; [done|]. destruct Hres as (l & Hf & rest & El & _ & _ & _ & _ & Hrest).
  rewrite (Hrest eq_refl) in El. cbn in El. subst l. destruct (following_beyond (mkSide c' (sd_cursor s)) cursor [] o Ok' Hf Ho) as [_ Hb]. intros r Hr Hor.
  apply (within_evolves _ _ _ _ _ V Hn Hw r Hr). destruct (Z.le_gt_cases (ordinalAt (c_mstore c') r) o); [lia|]. exfalso. cbn in Hb. apply (proj1 (elem_of_nil r)), (Hb r Hr). lia.
Qed.

Lemma page_more cursor tnow s o out messages next c' acc : sideOK s -> (cursor = "" /\ o = 0 \/ cursor <> "" /\ sd_cursor s = Some (cursor, o)) -> 0 <= o <= c_nextRepairOrdinal (sd_cache s) -> within (sd_cache s) 0 o acc ->
  page cursor (Z.shiftl 24 20) tnow (sd_cache s) = Some ((out, next, true), c') -> Forall2 (fun r m => c_mstore c' !! r = Some m) out messages -> messages <> [] ->
  batchOk (cfg_MaxMessage cfg) messages /\ exists o', given c' out (sd_cursor s) = Some (next, o') /\ 0 <= o' <= c_nextRepairOrdinal c' /\ within c' 0 o' (acc ++ (wireOf <$> messages)).
Proof.
  intros Ok Ho Hn Hw E F Hne. destruct (page_facts _ _ _ _ _ Ok E) as (Ok' & V & Hres). case_decide as Hd; [done|]. destruct Hres as (l & Hf & rest & El & _ & Hlen & Enext & _ & _).
  destruct (following_beyond (mkSide c' (sd_cursor s)) cursor l o Ok' Hf Ho) as [[l1 Ec] Hb]. cbn in Ec, Hb.
  assert (Hout : out <> []) by (intros ->; by apply Forall2_nil_inv_l in F). destruct (last_is_Some out) as [_ Hl]. destruct (Hl Hout) as [y Hy]. apply last_Some in Hy as [out0 ->]. unfold lastID in Enext. rewrite last_snoc in Enext.
  assert (Hin : forall x, x ∈ out0 ++ [y] -> x ∈ cached c') by (intros x Hx; rewrite Ec, El; apply elem_of_app; right; apply elem_of_app; by left).
  destruct (cached_found _ y (sk_cache _ Ok')) as [my Hmy]; [apply Hin, elem_of_app; right; left|]. cbn in Hmy. rewrite Hmy in Enext. cbn in Enext.
  assert (Ey : ordinalAt (c_mstore c') y = m_repairOrdinal my) by (unfold ordinalAt; by rewrite Hmy). pose proof (sk_order _ Ok') as O'. cbn in O'.
  pose proof (od_range _ O') as Hr. rewrite Forall_forall in Hr. specialize (Hr y (Hin y ltac:(apply elem_of_app; right; left))). rewrite Ey in Hr. split.
  - split; [apply Forall2_length in F; unfold llen in *; rewrite F in Hlen; destruct messages; [done|cbn in *; lia]|]. apply Forall_forall. intros m Hm. apply list_elem_of_lookup in Hm as [j Hj].
    destruct (Forall2_lookup_r _ _ _ _ _ F Hj) as (x & Hx & Hxm). eapply (sk_wire _ Ok'); [apply Hin; by eapply list_elem_of_lookup_2|exact Hxm].
  - exists (m_repairOrdinal my). rewrite Enext. split; [unfold given; by rewrite last_snoc, Hmy|]. split; [lia|].
    apply (within_app c' 0 o); [by eapply within_evolves; [exact V|lia|done]|]. intros x Hx Hor.
    assert (Hxo : x ∈ out0 ++ [y]).
    { assert (E2 : out0 ++ y :: rest = l) by by rewrite El, <- app_assoc. apply (sorted_prefix (ordinalAt (c_mstore c')) out0 rest y); [|rewrite E2; apply Hb; [done|lia]|lia].
      rewrite E2. eapply sorted_sublist; [|exact (od_sorted _ O')]. rewrite Ec. apply sublist_fmap', sublist_inserts_l. done. }
    apply list_elem_of_lookup in Hxo as [j Hj]. destruct (Forall2_lookup_l _ _ _ _ _ F Hj) as (m & Hm & Exm). exists (wireOf m). split; [apply list_elem_of_fmap_2; by eapply list_elem_of_lookup_2|].
    unfold publicationAt. by rewrite Exm.
Qed.

(** ** The walk of the pages *)
Section Walk.
Context (s0 : side) (Ok0 : sideOK s0).
Abbreviation trace := (list (Programs.action syncCall)).
#[local] Definition free : forall X, syncCall X -> trace -> Prop := fun _ _ _ => True.
#[local] Definition traced : forall X, syncCall X -> X -> trace -> trace := fun X e x tr => tr ++ [Act e x].
#[local] Definition any : forall X, syncCall X -> trace -> X -> Prop := fun _ _ _ _ => True.
Abbreviation does := (Programs.obeys free traced any).

(** What the pages up to [cursor] hold has been accepted. *)
Definition upTo (tr : trace) (cursor : string) (held : list Message) : Prop := forall s, served s0 tr s ->
  exists o, (cursor = "" /\ o = 0 \/ cursor <> "" /\ sd_cursor s = Some (cursor, o)) /\ 0 <= o <= c_nextRepairOrdinal (sd_cache s) /\ within (sd_cache s) 0 o (accepted tr ++ held).
(** Everything that was there from the beginning has been accepted. *)
Definition copied (tr : trace) : Prop := forall s, served s0 tr s -> within (sd_cache s) 0 (c_nextRepairOrdinal (sd_cache s0)) (accepted tr).
Definition settled (tr : trace) : Prop := answered tr -> copied tr.

Lemma accepted_snoc tr x : accepted (tr ++ [x]) = accepted tr ++ acceptedOf x.
Proof. unfold accepted. rewrite bind_app. cbn. by rewrite app_nil_r. Qed.

Lemma within_moves s s' N l : c_nextRepairOrdinal (sd_cache s0) <= c_nextRepairOrdinal (sd_cache s) -> N <= c_nextRepairOrdinal (sd_cache s) -> evolves (sd_cache s) (sd_cache s') -> within (sd_cache s) 0 N l -> within (sd_cache s') 0 N l.
Proof. intros _ HN V. by apply within_evolves. Qed.

Lemma copied_snoc tr x : copied tr -> copied (tr ++ [x]).
Proof.
  intros Hc s' Hs'. rewrite accepted_snoc. revert s' Hs'.
  set (P := fun s : side => c_nextRepairOrdinal (sd_cache s0) <= c_nextRepairOrdinal (sd_cache s) /\ within (sd_cache s) 0 (c_nextRepairOrdinal (sd_cache s0)) (accepted tr ++ acceptedOf x)).
  intros s' Hs'. apply (served_snoc s0 P tr x Ok0); [| |exact Hs'].
  - intros s s1 Ok [Hn Hw] M. destruct (moves_evolve _ _ Ok M) as [V _]. split; [destruct V; lia|]. by eapply within_evolves; [exact V| |].
  - intros s s1 Hs A. destruct (served_ok _ _ _ Ok0 Hs) as [Ok Hn]. destruct (act_ok _ _ _ Ok A) as (_ & V). split; [destruct V; lia|].
    eapply within_evolves; [exact V|done|]. by apply within_more, Hc.
Qed.

Lemma upTo_moves cursor l s s' : sideOK s -> moves s s' ->
  (exists o, (cursor = "" /\ o = 0 \/ cursor <> "" /\ sd_cursor s = Some (cursor, o)) /\ 0 <= o <= c_nextRepairOrdinal (sd_cache s) /\ within (sd_cache s) 0 o l) ->
  exists o, (cursor = "" /\ o = 0 \/ cursor <> "" /\ sd_cursor s' = Some (cursor, o)) /\ 0 <= o <= c_nextRepairOrdinal (sd_cache s') /\ within (sd_cache s') 0 o l.
Proof.
  intros Ok M (o & Ho & Hn & Hw). destruct (moves_evolve _ _ Ok M) as [V Hb]. exists o. split; [destruct Ho as [?|[? Ho]]; [by left|right; split; [done|by rewrite Hb]]|].
  split; [destruct V; lia|]. by eapply within_evolves; [exact V|lia|].
Qed.

(** A call that is not to a peer. *)
Definition local {X} (e : syncCall X) : Prop := match e with yDo _ _ _ => False | _ => True end.
Lemma local_act X (e : syncCall X) x s s' : local e -> acts (Act e x) s s' -> s' = s.
Proof. by destruct e. Qed.
Lemma upTo_local tr cursor held X (e : syncCall X) x : local e -> upTo tr cursor held -> acceptedOf (Act e x) = [] -> upTo (tr ++ [Act e x]) cursor held.
Proof.
  intros He Hu Ha s' Hs'. rewrite accepted_snoc, Ha, app_nil_r. revert s' Hs'. apply served_snoc; [done|intros s s' Ok Hp M; by eapply upTo_moves|].
  intros s s' Hs A. apply local_act in A as ->; [|done]. by apply Hu.
Qed.
Lemma upTo_accept tr cursor held x : x = None -> upTo tr cursor held -> upTo (tr ++ [Act (yAcceptBatch held) x]) cursor [].
Proof.
  intros -> Hu s' Hs'. rewrite accepted_snoc, app_nil_r. cbn [acceptedOf]. revert s' Hs'. apply served_snoc; [done|intros s s' Ok Hp M; by eapply upTo_moves|].
  intros s s' Hs A. apply local_act in A as ->; [|done]. by apply Hu.
Qed.

Lemma snapshotPath_inj c1 c2 : snapshotPath c1 = snapshotPath c2 -> c1 = c2.
Proof. unfold snapshotPath. intros E%(inj (String.append _)). by apply (inj QueryEscape). Qed.

(** An answer to a page. *)
Lemma asked cursor version a s s' : acts (Act (yDo i (snapshotPath cursor) version) (inr a)) s s' -> pa_status a = 200 \/ pa_status a = 204 ->
  exists tnow out messages next valid c', page cursor (Z.shiftl 24 20) tnow (sd_cache s) = Some ((out, next, valid), c') /\
    Forall2 (fun r m => c_mstore c' !! r = Some m) out messages /\ tells (messages, next, valid) a /\ s' = mkSide c' (given c' out (sd_cursor s)).
Proof.
  intros A Hst. cbn in A. rewrite decide_True in A by done. destruct A as [Hno|N1 N2|c1 tnow out messages next valid c' Ep E F R]; [by destruct (Hno cursor)|lia|].
  apply snapshotPath_inj in Ep as ->. exists tnow, out, messages, next, valid, c'. split; [done|]. split; [done|]. split; [by eapply responds_tells|done].
Qed.

Lemma upTo_end tr cursor version a : pa_status a = 204 -> upTo tr cursor [] -> copied (tr ++ [Act (yDo i (snapshotPath cursor) version) (inr a)]).
Proof.
  intros Hst Hu s' Hs'. rewrite accepted_snoc. cbn [acceptedOf]. rewrite app_nil_r.
  set (P := fun s : side => c_nextRepairOrdinal (sd_cache s0) <= c_nextRepairOrdinal (sd_cache s) /\ within (sd_cache s) 0 (c_nextRepairOrdinal (sd_cache s0)) (accepted tr)).
  enough (P s') as [_ ?] by done. eapply (served_snoc s0 P tr); [exact Ok0| | |exact Hs'].
  - intros s s1 Ok [Hn Hw] M. destruct (moves_evolve _ _ Ok M) as [V _]. split; [destruct V; lia|]. by eapply within_evolves; [exact V| |].
  - intros s s1 Hs A. destruct (served_ok _ _ _ Ok0 Hs) as [Ok Hn]. pose proof (act_ok _ _ _ Ok A) as (_ & [Hle _]). split; [lia|].
    destruct (asked _ _ _ _ _ A) as (tnow & out & messages & next & valid & c' & E & F & [T _] & ->); [by right|]. destruct (T Hst) as [Hv Hm]. cbn in Hv, Hm. subst valid messages.
    apply Forall2_nil_inv_r in F as ->. destruct (Hu s Hs) as (o & Ho & Hn2 & Hw). rewrite app_nil_r in Hw. eapply page_end; [exact Ok|exact Ho|lia|exact Hw|exact E].
Qed.

Lemma upTo_page tr cursor version a held r : pa_status a = 200 -> upTo tr cursor [] -> pa_cursor a <> "" ->
  (if bool_decide (pa_version a = "2") then readPeerBatch (cfg_MaxMessage cfg) (limitReader (Z.shiftl 25 20) (pa_body a)) else readPeerBatchV1 (cfg_MaxMessage cfg) (limitReader (Z.shiftl 25 20) (pa_body a))) = inr (held, r) ->
  upTo (tr ++ [Act (yDo i (snapshotPath cursor) version) (inr a)]) (pa_cursor a) held.
Proof.
  intros Hst Hu Hc Er s' Hs'. rewrite accepted_snoc. cbn [acceptedOf]. rewrite app_nil_r. revert s' Hs'. apply served_snoc; [done|intros s s' Ok Hp M; by eapply upTo_moves|].
  intros s s' Hs A. destruct (served_ok _ _ _ Ok0 Hs) as [Ok _]. destruct (asked _ _ _ _ _ A) as (tnow & out & messages & next & valid & c' & E & F & [_ T] & ->); [by left|].
  destruct (T Hst) as (Hv & Hm & Ev & Ec & Eb). cbn in Hv, Hm, Ec, Eb. subst valid. rewrite Ev, bool_decide_true, Eb in Er by done. destruct (Hu s Hs) as (o & Ho & Hn2 & Hw). rewrite app_nil_r in Hw.
  destruct (page_more _ _ _ _ _ _ _ _ _ Ok Ho Hn2 Hw E F Hm) as (Hok & o' & Hb & Hn' & Hw'). apply (limited_batch _ _ _ _ _ Hok) in Er as ->.
  exists o'. rewrite Ec in *. split; [by right|]. done.
Qed.

Lemma does_markBootstrap cursor held l : forall tr, upTo tr cursor held -> does (markBootstrap urls i l) tr (fun _ tr' => upTo tr' cursor held).
Proof. induction l as [|m l IH]; intros tr Hu; cbn [markBootstrap]; [done|]. split; [done|]. intros [] _. apply IH. by apply upTo_local. Qed.

Lemma settled_snoc tr x : settled tr -> ~ replies x -> settled (tr ++ [x]).
Proof. intros Hs Hx Ha. apply copied_snoc, Hs. by apply Exists_app in Ha as [Ha|[Ha|Ha]%Exists_cons]; [..|by apply Exists_nil in Ha]. Qed.

Definition walked (r : pagesEnd) (tr : trace) : Prop := match r with left true None => copied tr | left false _ => settled tr | _ => True end.
Lemma does_syncPages pages : forall cursor available tr, upTo tr cursor [] -> (available = false -> settled tr) -> does (syncPages cfg urls pages i cursor available) tr walked.
Proof.
  induction pages as [|pages IH]; intros cursor available tr Hu Ha; cbn [syncPages]; [done|]. split; [done|]. intros [e|a] _; cbn [pbind].
  - destruct available; [done|]. apply settled_snoc; [by apply Ha|]. by intros [_ [? ?]].
  - destruct (bool_decide_reflect (pa_status a = 204)) as [Hst|_]; [by apply upTo_end|]. destruct (bool_decide_reflect (pa_status a <> 200)) as [|Hst]; [done|]. apply dec_stable in Hst. cbv zeta.
    destruct (if bool_decide (pa_version a = "2") then _ else _) as [e|[held r]] eqn:Er; [done|]. destruct (decide (pa_cursor a = "")) as [Hz|Hz].
    { apply (program_seq _ _ _ _ _ _ (fun _ _ => True)); [|intros _ tr' _; split; [done|]; intros [e|] _; cbn [pbind]; [done|]; by rewrite bool_decide_true by done].
      destruct (negb _); [|done]. generalize (traced _ (yDo i (snapshotPath cursor) "2") (inr a) tr). clear. induction held as [|m l IH]; intros tr; cbn [markBootstrap]; [done|]. split; [done|]. intros [] _. apply IH. }
    pose proof (upTo_page tr cursor "2" a held r Hst Hu Hz Er) as Hup. apply (program_seq _ _ _ _ _ _ (fun _ tr' => upTo tr' (pa_cursor a) held)); [destruct (negb _); [by apply does_markBootstrap|exact Hup]|].
    intros _ tr' Hup'. split; [done|]. intros [e|] _; cbn [pbind]; [done|]. destruct (_ || _); [done|]. apply IH; [by apply upTo_accept|done].
Qed.

(** Once everything is copied, it stays so; and what other peers answer does not matter. *)
Lemma does_copied {A} (p : yprog A) : forall tr, copied tr -> does p tr (fun _ => copied).
Proof. induction p as [a|X e k IH]; intros tr Hc; [done|]. split; [done|]. intros x _. apply IH. by apply copied_snoc. Qed.

Definition calm {A} (p : yprog A) : Prop := forall tr, settled tr -> does p tr (fun _ => settled).
Lemma calm_ret {A} (a : A) : calm (Ret a).
Proof. by intros tr Hs. Qed.
Lemma calm_bind {A B} (p : yprog A) (f : A -> yprog B) : calm p -> (forall a, calm (f a)) -> calm (pbind p f).
Proof. intros Hp Hf tr Hs. eapply program_seq; [by apply Hp|]. intros a tr' Hs'. by apply Hf. Qed.
Lemma calm_call X (e : syncCall X) : (match e with yDo j _ _ => j <> i | _ => True end) -> calm (call e).
Proof. intros He tr Hs. split; [done|]. intros x _. apply settled_snoc; [done|]. destruct e; by intros []. Qed.
Ltac calm := repeat first [apply calm_ret | apply calm_call; done | apply calm_bind; [|intros ?] | match goal with |- calm (match ?x with _ => _ end) => destruct x end | progress cbv zeta].
Lemma calm_frontiers j : j <> i -> calm (syncReplayFrontiersFromPeer cfg urls frontierLimit j).
Proof. intros Hj. unfold syncReplayFrontiersFromPeer. calm. Qed.
Lemma calm_checkpoints j : j <> i -> calm (syncCheckpointsFromPeer cfg j).
Proof. intros Hj. unfold syncCheckpointsFromPeer. calm. Qed.
Lemma calm_markBootstrap j l : calm (markBootstrap urls j l).
Proof. induction l as [|m l IH]; cbn [markBootstrap]; calm. done. Qed.
Lemma calm_pages j pages : j <> i -> forall cursor available, calm (syncPages cfg urls pages j cursor available).
Proof. intros Hj. induction pages as [|pages IH]; intros cursor available; cbn [syncPages]; calm; first [apply calm_markBootstrap|apply IH]. Qed.
Lemma calm_syncPeer j pages : j <> i -> calm (syncPeer cfg urls frontierLimit pages j).
Proof. intros Hj. unfold syncPeer. apply calm_bind; [by apply calm_pages|]. intros [[] []|e|]; calm; by first [apply calm_frontiers|apply calm_checkpoints]. Qed.

Lemma upTo_start tr : upTo tr "" [].
Proof. intros s Hs. destruct (served_ok _ _ _ Ok0 Hs) as [Ok _]. exists 0. split; [by left|]. split; [pose proof (od_next _ (sk_order _ Ok)); lia|apply within_empty]. Qed.

Lemma does_syncPeer pages tr : settled tr -> does (syncPeer cfg urls frontierLimit pages i) tr (fun r tr' => match r with (left _ _, None) => settled tr' | _ => True end).
Proof.
  intros Hs. unfold syncPeer. eapply program_seq; [apply does_syncPages; [apply upTo_start|done]|]. intros [[] [e|]|e|] tr' Hw; cbn [walked] in Hw; try done.
  eapply program_seq; [by apply does_copied|]. intros [e|] tr2 Hc; [done|]. eapply program_seq; [by apply does_copied|]. intros [e|] tr3 Hc3; [done|]. by intros _.
Qed.

Lemma does_syncPeers pages peers : forall available tr, settled tr -> does (syncPeers cfg urls frontierLimit pages peers available) tr (fun r tr' => r = finished None -> settled tr').
Proof.
  induction peers as [|j peers IH]; intros available tr Hs; cbn [syncPeers]; [by intros _|]. destruct (decide (j = i)) as [->|Hj].
  - eapply program_seq; [by apply does_syncPeer|]. intros [[here err|e|] [e'|]] tr' Hq; cbn; try done; try (by intros [=]). by apply IH.
  - eapply program_seq; [by apply calm_syncPeer|]. intros [[here err|e|] [e'|]] tr' Hq; try done. by apply IH.
Qed.
End Walk.

Lemma traced_execution {A} (p : yprog A) d tr a : execution (D := unit) (fun _ _ _ d => d) (fun _ _ _ _ => True) p d tr a -> forall d', execution traced any p d' tr a /\ afterAll traced tr d' = d' ++ tr.
Proof.
  induction 1 as [a d|X e k d x tr a _ _ IH]; intros d'; [split; [constructor|by rewrite app_nil_r]|]. destruct (IH (traced _ e x d')) as [He Ha].
  split; [by constructor|]. cbn. rewrite Ha. unfold traced. by rewrite <- app_assoc.
Qed.

(** C10: a broker that has synchronized with a peer has what the peer had, under two conditions on the peer ([sideOK]): what it holds is within the limits of the wire format,
    and the message that the cursor of the last page names is not published again under its ID before the next page. If [SyncFromPeers] returns no error and the peer [i] answered at all, then every
    message that the peer held when this began, and has not lost since, was in a batch that the cache of this broker has accepted: however
    many pages that took, and whatever else arrived, expired and was evicted at the peer between any two of them. *)
Theorem sync_complete pages s0 tr s : sideOK s0 -> execution (D := unit) (fun _ _ _ d => d) (fun _ _ _ _ => True) (SyncFromPeers cfg urls frontierLimit pages) tt tr (finished None) ->
  answered tr -> served s0 tr s ->
  forall r, r ∈ cached (sd_cache s) -> ordinalAt (c_mstore (sd_cache s)) r <= c_nextRepairOrdinal (sd_cache s0) ->
    exists m, m ∈ accepted tr /\ publicationAt (c_mstore (sd_cache s)) r = Some (wireOf m).
Proof.
  intros Ok0 Hex Ha Hs r Hr Ho. destruct (traced_execution _ _ _ _ Hex []) as [Hex' Etr]. cbn [app] in Etr.
  assert (Hd : obeys free traced any (SyncFromPeers cfg urls frontierLimit pages) [] (fun r tr' => r = finished None -> settled s0 tr')) by (apply does_syncPeers; [done|]; by intros Hno%Exists_nil).
  destruct (obeys_sound _ _ _ _ _ _ _ Hex' _ Hd) as [_ Hq]. rewrite Etr in Hq. specialize (Hq eq_refl Ha s Hs). destruct (served_ok _ _ _ Ok0 Hs) as [Ok _].
  apply (Hq r Hr). split; [|done]. pose proof (od_range _ (sk_order _ Ok)) as Hrange. rewrite Forall_forall in Hrange. by apply (Hrange r Hr).
Qed.
End Spec.

(** ** A peer with two messages, which fit one page *)
#[local] Definition ex_map : MapRange := {| rangeMap := map_to_list; rangeMap_perm := fun h => reflexivity _ |}.
#[local] Definition ex_json : SyncJSON := {| yj_frontiers := fun _ => None; yj_checkpoints := fun _ => inr [] |}.
Definition ex_sent : list Message := [wireOf (ex_msg "a" 10); wireOf (ex_msg "b" 20)].
Definition ex_page : peerAnswer := mkPeerAnswer 200 "2" "b" (@writePeerBatch ex_map (list byte) _ false ex_sent []).1.
Definition ex_last : peerAnswer := mkPeerAnswer 204 "" "" [].
Definition ex_missing : peerAnswer := mkPeerAnswer 404 "" "" [].
Definition ex_syncAnswer X (e : syncCall X) (u : unit) : X * unit :=
  match e in syncCall X return X * unit with
  | yDo _ path _ => (inr (if bool_decide (path = snapshotPath "") then ex_page else if bool_decide (path = snapshotPath "b") then ex_last else ex_missing), u)
  | yNow => (5, u)
  | yV2 _ _ => (tt, u)
  | yMarkUnsafe _ _ _ => (tt, u)
  | yMergeFrontiers _ _ => (tt, u)
  | yAcceptBatch _ => (None, u)
  | yApplyCheckpoints _ => (tt, u)
  end.
Definition ex_syncTrace : list (Programs.action syncCall) :=
  [Act (yDo 0 (snapshotPath "") "2") (inr ex_page); Act (yAcceptBatch ex_sent) None; Act (yDo 0 (snapshotPath "b") "2") (inr ex_last);
   Act (yDo 0 "/internal/replay-frontiers" "") (inr ex_missing); Act (yV2 0 false) tt; Act yNow 5; Act (yMarkUnsafe "*" "legacy-frontier:http://a" (unixMilli (5 + cfg_MaxTTL DefaultConfig))) tt;
   Act (yDo 0 "/internal/checkpoints" "") (inr ex_missing)].
Lemma ex_syncRun : (run ex_syncAnswer (@SyncFromPeers ex_json DefaultConfig ["http://a"] 1024 3) tt).1 = (ex_syncTrace, finished None).
Proof. vm_compute. reflexivity. Qed.

#[local] Definition ex_peerCfg : Config := DefaultConfig <| cfg_PeerToken := "s" |>.
#[local] Definition ex_ask (cursor : string) : request := mkRequest "GET" "/internal/snapshot" (fun name => if bool_decide (name = "Spruce-Peer-Token") then "s" else if bool_decide (name = "Spruce-Peer-Version") then "2" else "")
  (fun name => if bool_decide (name = "after") then cursor else "") (fun _ => true) None 0 [].
Lemma ex_executes cursor page rs : (exists k, pbind (call (E := service) (sPage cursor 25165824)) k = @Handlers.snapshot ex_map ex_peerCfg (ex_ask cursor) /\ k page = call (sRespond rs)) ->
  execution recordsResponse (pageIs page) (@Handlers.snapshot ex_map ex_peerCfg (ex_ask cursor)) [] [Act (sPage cursor 25165824) page; Act (sRespond rs) tt] tt.
Proof. intros (k & <- & E). apply ex_do; [done|]. cbn [pbind]. rewrite E. apply ex_do; [done|]. apply ex_ret. Qed.

(** The cache of the peer after each page, and the messages of the first. *)
Definition ex_cache1 : cache := afterCache (page "" 25165824 0 ex_two).
Definition ex_cache2 : cache := afterCache (page "b" 25165824 0 ex_cache1).
Definition ex_read : list Message := omap (fun r => c_mstore ex_cache1 !! r) [1%positive; 2%positive].
Definition ex_wrote : response := mkResponse 200 [("Content-Type", "application/vnd.spruce.peer.v2"); ("Spruce-Peer-Version", "2"); ("Spruce-Next-Cursor", "b")] (wireBody (@writePeerBatch ex_map (list byte) _ false ex_read []).1).
Definition ex_none : response := mkResponse 204 [] noBody.
Lemma ex_pages : page "" 25165824 0 ex_two = Some (([1%positive; 2%positive], "b", true), ex_cache1) /\ page "b" 25165824 0 ex_cache1 = Some (([], "b", true), ex_cache2).
Proof. split; vm_compute; reflexivity. Qed.
Lemma ex_derefs : Forall2 (fun r m => c_mstore ex_cache1 !! r = Some m) [1%positive; 2%positive] ex_read.
Proof.
  assert (exists x y, ex_read = [x; y] /\ c_mstore ex_cache1 !! 1%positive = Some x /\ c_mstore ex_cache1 !! 2%positive = Some y) as (x & y & -> & E1 & E2) by (eexists _, _; split; [vm_compute; reflexivity|split; vm_compute; reflexivity]).
  apply Forall2_cons_2; [exact E1|]. apply Forall2_cons_2; [exact E2|]. by apply Forall2_nil_2.
Qed.
Lemma ex_responds1 : @responds ex_map ex_peerCfg "" (ex_read, "b", true) ex_page.
Proof.
  exists (ex_ask ""), [Act (sPage "" 25165824) (ex_read, "b", true); Act (sRespond ex_wrote) tt], ex_wrote. split; [reflexivity|]. split; [reflexivity|]. split.
  - apply ex_executes. eexists. split; [reflexivity|]. reflexivity.
  - split; [left|]. repeat split.
Qed.
Lemma ex_responds2 : @responds ex_map ex_peerCfg "b" ([], "b", true) ex_last.
Proof.
  exists (ex_ask "b"), [Act (sPage "b" 25165824) ([], "b", true); Act (sRespond ex_none) tt], ex_none. split; [reflexivity|]. split; [reflexivity|]. split.
  - apply ex_executes. eexists. split; [reflexivity|]. reflexivity.
  - split; [left|]. repeat split.
Qed.

Definition ex_side : side := mkSide ex_two None.
Definition ex_given : option (string * Z) := Some ("b", 2).
Lemma ex_given_eq : given ex_cache1 [1%positive; 2%positive] None = ex_given.
Proof. vm_compute. reflexivity. Qed.
Lemma ex_side_messages r m : r ∈ cached ex_two -> c_mstore ex_two !! r = Some m -> wireOk (cfg_MaxMessage DefaultConfig) m.
Proof.
  assert (E : cached ex_two = [1%positive; 2%positive]) by (vm_compute; reflexivity). rewrite E. assert (exists x y, c_mstore ex_two !! 1%positive = Some x /\ c_mstore ex_two !! 2%positive = Some y /\
    (wireOf x = wireOf (ex_msg "a" 10) /\ m_repairOrdinal x = 1) /\ (wireOf y = wireOf (ex_msg "b" 20) /\ m_repairOrdinal y = 2)) as (x & y & E1 & E2 & (W1 & O1) & (W2 & O2)).
  { eexists _, _. split; [vm_compute; reflexivity|]. split; [vm_compute; reflexivity|]. repeat split. }
  assert (Hw : forall id e, id = "a" \/ id = "b" -> in_i64 e -> wireOk (cfg_MaxMessage DefaultConfig) (ex_msg id e)).
  { intros id e Hid He. assert (Hs : slen id <= 64) by (destruct Hid as [-> | ->]; vm_compute; discriminate). split; [exact Hs|vm_compute; discriminate..|vm_compute; split; [discriminate|reflexivity]|exact He|vm_compute; split; [discriminate|reflexivity]]. }
  clear E. revert E1 E2. generalize (c_mstore ex_two). intros st E1 E2 [->|[->|Hr]%elem_of_cons]%elem_of_cons Hm; [| |by apply elem_of_nil in Hr].
  - assert (m = x) as -> by congruence. eapply wireOk_same; [exact W1|apply Hw; [by left|vm_compute; done]].
  - assert (m = y) as -> by congruence. eapply wireOk_same; [exact W2|apply Hw; [by right|vm_compute; done]].
Qed.
Lemma ex_side_ok : sideOK DefaultConfig ex_side.
Proof. split; [exact ex_two_ok|exact ex_two_ordered|intros r m Hr Hm; by apply (ex_side_messages r m)|by intros r m o _ _]. Qed.

Lemma ex_served : @served ex_map DefaultConfig ex_peerCfg 0 ex_side ex_syncTrace (mkSide ex_cache2 ex_given).
Proof.
  assert (H1 : @served ex_map DefaultConfig ex_peerCfg 0 ex_side [Act (yDo 0 (snapshotPath "") "2") (inr ex_page)] (mkSide ex_cache1 ex_given)).
  { apply (sv_acts _ _ _ _ [] _ ex_side); [constructor|]. cbn. rewrite <- ex_given_eq. eapply an_page; [reflexivity|exact (proj1 ex_pages)|exact ex_derefs|exact ex_responds1]. }
  assert (H2 : @served ex_map DefaultConfig ex_peerCfg 0 ex_side [Act (yDo 0 (snapshotPath "") "2") (inr ex_page); Act (yAcceptBatch ex_sent) None] (mkSide ex_cache1 ex_given)).
  { eapply (sv_acts _ _ _ _ [_]); [exact H1|reflexivity]. }
  assert (H3 : @served ex_map DefaultConfig ex_peerCfg 0 ex_side [Act (yDo 0 (snapshotPath "") "2") (inr ex_page); Act (yAcceptBatch ex_sent) None; Act (yDo 0 (snapshotPath "b") "2") (inr ex_last)] (mkSide ex_cache2 ex_given)).
  { eapply (sv_acts _ _ _ _ [_; _]); [exact H2|]. cbn. eapply (an_page _ _ _ (mkSide ex_cache1 ex_given) _ _ [] _ _ _ ex_cache2); [reflexivity|exact (proj2 ex_pages)|constructor|exact ex_responds2]. }
  assert (H4 : @served ex_map DefaultConfig ex_peerCfg 0 ex_side (take 4 ex_syncTrace) (mkSide ex_cache2 ex_given)) by (apply (sv_acts _ _ _ _ (take 3 ex_syncTrace) _ (mkSide ex_cache2 ex_given)); [exact H3|apply an_refused; discriminate]).
  assert (H5 := sv_acts _ _ _ _ _ (Act (yV2 0 false) tt) _ (mkSide ex_cache2 ex_given) H4 eq_refl). assert (H6 := sv_acts _ _ _ _ _ (Act yNow 5) _ (mkSide ex_cache2 ex_given) H5 eq_refl).
  assert (H7 := sv_acts _ _ _ _ _ (Act (yMarkUnsafe "*" "legacy-frontier:http://a" (unixMilli (5 + cfg_MaxTTL DefaultConfig))) tt) _ (mkSide ex_cache2 ex_given) H6 eq_refl).
  apply (sv_acts _ _ _ _ (take 7 ex_syncTrace) _ (mkSide ex_cache2 ex_given)); [exact H7|apply an_refused; discriminate].
Qed.

Lemma ex_sync_execution : execution (D := unit) (fun _ _ _ d => d) (fun _ _ _ _ => True) (@SyncFromPeers ex_json DefaultConfig ["http://a"] 1024 3) tt ex_syncTrace (finished None).
Proof.
  pose proof (run_execution (D := unit) (fun _ _ _ d => d) (fun _ _ _ _ => True) ex_syncAnswer (fun _ _ _ _ => I) _ (@SyncFromPeers ex_json DefaultConfig ["http://a"] 1024 3) tt tt) as Hr.
  pose proof ex_syncRun as E. destruct (run ex_syncAnswer (@SyncFromPeers ex_json DefaultConfig ["http://a"] 1024 3) tt) as [[tr a] u]. cbn [fst snd] in *. by injection E as -> ->.
Qed.
Lemma ex_answered : answered 0 ex_syncTrace.
Proof. apply Exists_cons. left. split; [reflexivity|by eexists]. Qed.
(** Both messages are still cached, and were accepted. *)
Lemma ex_both : cached ex_cache2 = [1%positive; 2%positive].
Proof. vm_compute. reflexivity. Qed.

Lemma sync_complete_witness : cached ex_cache2 = [1%positive; 2%positive] /\ forall r, r ∈ cached ex_cache2 -> ordinalAt (c_mstore ex_cache2) r <= c_nextRepairOrdinal ex_two ->
  exists m, m ∈ accepted ex_syncTrace /\ publicationAt (c_mstore ex_cache2) r = Some (wireOf m).
Proof.
  split; [exact ex_both|]. exact (@sync_complete ex_map ex_json DefaultConfig ex_peerCfg ["http://a"] 1024 0 3 ex_side ex_syncTrace (mkSide ex_cache2 ex_given) ex_side_ok ex_sync_execution ex_answered ex_served).
Defined.
