(* ===== verification/Compression.v ===== *)
(** * Payload compression of the client

    compression.go of pkg/spruce: the envelope a producer puts around a compressed payload and the
    decoding of a consumer.  The gzip and zstd codecs are libraries: they are the two [Codec]
    arguments of the definitions. *)
From S2P Require Import Prelude Types GoIO.
#[local] Open Scope Z_scope.

(** A compression library: its encoder, and its decoder as what [io.ReadAll] gets out of its reader (the
    bytes it produces and the error it ends with), or the error of opening it. *)
Record Codec := mkCodec {
  cd_encode : list byte -> error + list byte;
  cd_decode : list byte -> error + (list byte * option error);
}.

Definition CompressionOff : string := "off".
Definition CompressionGzip : string := "gzip".
Definition CompressionZstd : string := "zstd".
Definition compressionThreshold : Z := 1024.
(** ["\x89SPRUCE\x01"] *)
Definition compressionMagic : list byte := [x89; x53; x50; x52; x55; x43; x45; x01].
Definition headerSize : Z := llen compressionMagic + 5.

Section Compression.
Context (gzip zstd : Codec).

(** [bytes.HasPrefix(payload, compressionMagic)] and room for a header. *)
Definition literalEnvelope (payload : list byte) : bool :=
  bool_decide (headerSize <= llen payload) && bool_decide (take 8 payload = compressionMagic).

Definition header (code : byte) (payload : list byte) : list byte :=
  compressionMagic ++ code :: beBytes 4 (llen payload).

Definition encodeWith (algorithm : string) (payload : list byte) : error + list byte :=
  if bool_decide (algorithm = CompressionGzip) then
    match cd_encode gzip payload with inl e => inl e | inr data => inr (header x01 payload ++ data) end
  else if bool_decide (algorithm = CompressionZstd) then
    match cd_encode zstd payload with inl e => inl e | inr data => inr (header x02 payload ++ data) end
  else inl (errOther "unsupported compression").

Definition compressPayload (payload : list byte) (algorithm : string) : error + list byte :=
  if bool_decide (1048576 < llen payload) then inl (errOther "payload exceeds 1 MiB") else
  let algorithm := if bool_decide (algorithm = "") then CompressionZstd else algorithm in
  if bool_decide (algorithm <> CompressionOff) && bool_decide (algorithm <> CompressionGzip) &&
     bool_decide (algorithm <> CompressionZstd) then inl (errOther "unsupported compression") else
  let literal := literalEnvelope payload in
  if negb literal && (bool_decide (llen payload < compressionThreshold) || bool_decide (algorithm = CompressionOff))
  then inr payload else
  let algorithm := if literal && bool_decide (algorithm = CompressionOff) then CompressionGzip else algorithm in
  match encodeWith algorithm payload with
  | inl e => inl e
  | inr encoded =>
    if literal then
      if bool_decide (1048576 < llen encoded) then inl (errOther "escaped payload exceeds 1 MiB wire limit") else inr encoded
    else
      let minimumSaving := Z.max 128 (Z.quot (llen payload) 10) in
      if bool_decide (llen payload - minimumSaving < llen encoded) then inr payload else inr encoded
  end.

(** [io.ReadAll(io.LimitReader(reader, maximum+1))] *)
Definition readAllLimited (maximum : Z) (out : list byte) (e : option error) : error + list byte :=
  if bool_decide (maximum < llen out) then inr (take (Z.to_nat (maximum + 1)) out) else
  match e with Some e => inl e | None => inr out end.

Definition decompressPayload (payload : list byte) (maximum : Z) : error + list byte :=
  if bool_decide (llen payload < headerSize) || bool_decide (take 8 payload <> compressionMagic) then inr payload else
  let original := beRead (take 4 (drop 9 payload)) in
  if bool_decide (maximum < original) then inl (errOther "compressed payload exceeds decompressed limit") else
  let encoded := drop 13 payload in
  let decode codec := match cd_decode codec encoded with
    | inl e => inl e
    | inr (out, e) =>
      match readAllLimited maximum out e with
      | inl e => inl e
      | inr decoded =>
        if bool_decide (llen decoded <> original) || bool_decide (maximum < llen decoded)
        then inl (errOther "invalid decompressed payload length") else inr decoded
      end
    end in
  if bool_decide (payload !! 8%nat = Some x01) then decode gzip else
  if bool_decide (payload !! 8%nat = Some x02) then decode zstd else
  inl (errOther "unsupported compressed payload encoding").

(** ** Properties *)

(** What the code relies on: the decoder inverts the encoder, which does not fail on a buffer. *)
Definition codec_ok (c : Codec) : Prop := forall p, exists data, cd_encode c p = inr data /\ cd_decode c data = inr (p, None).

Lemma llen_header code payload : llen (header code payload) = 13.
Proof. unfold header. rewrite llen_app, llen_cons. unfold llen. by rewrite length_beBytes. Qed.

Lemma header_split code payload data : let e := header code payload ++ data in
  take 8 e = compressionMagic /\ e !! 8%nat = Some code /\ take 4 (drop 9 e) = beBytes 4 (llen payload) /\ drop 13 e = data.
Proof. unfold header. cbn [beBytes]. by split_and!. Qed.

Lemma beRead_size (payload : list byte) : llen payload <= 1048576 -> beRead (beBytes 4 (llen payload)) = llen payload.
Proof. intros H. rewrite beRead_beBytes. apply Z.mod_small. pose proof (llen_nonneg payload). change (256 ^ Z.of_nat 4) with 4294967296. lia. Qed.

Lemma decompress_header code c payload data maximum :
  (code = x01 /\ c = gzip) \/ (code = x02 /\ c = zstd) -> cd_decode c data = inr (payload, None) ->
  llen payload <= 1048576 -> llen payload <= maximum ->
  decompressPayload (header code payload ++ data) maximum = inr payload.
Proof.
  intros Hc Hdec Hlen Hmax. unfold decompressPayload. destruct (header_split code payload data) as (H1 & H2 & H3 & H4).
  cbv zeta in *. rewrite H1, H2, H3, H4, llen_app, llen_header, beRead_size by done. pose proof (llen_nonneg data).
  assert (Eh : headerSize = 13) by done. rewrite Eh, (bool_decide_false (13 + llen data < 13)) by lia.
  rewrite (bool_decide_false (compressionMagic <> compressionMagic)) by (intros H'; by apply H'). cbn [orb].
  rewrite (bool_decide_false (maximum < llen payload)) by lia.
  assert (Hd : forall r, readAllLimited maximum payload None = r -> r = inr payload).
  { intros r <-. unfold readAllLimited. by rewrite bool_decide_false by lia. }
  destruct Hc as [[-> ->]|[-> ->]].
  - rewrite (bool_decide_true (Some x01 = Some x01)) by done. rewrite Hdec, (Hd _ eq_refl).
    rewrite (bool_decide_false (llen payload <> llen payload)) by (intros H'; by apply H').
    by rewrite (bool_decide_false (maximum < llen payload)) by lia.
  - rewrite (bool_decide_false (Some x02 = Some x01)) by done. rewrite (bool_decide_true (Some x02 = Some x02)) by done.
    rewrite Hdec, (Hd _ eq_refl). rewrite (bool_decide_false (llen payload <> llen payload)) by (intros H'; by apply H').
    by rewrite (bool_decide_false (maximum < llen payload)) by lia.
Qed.

Lemma encodeWith_ok algorithm payload encoded : codec_ok gzip -> codec_ok zstd -> encodeWith algorithm payload = inr encoded ->
  exists code c data, ((code = x01 /\ c = gzip) \/ (code = x02 /\ c = zstd)) /\ cd_decode c data = inr (payload, None) /\
    encoded = header code payload ++ data.
Proof.
  intros Hg Hz. unfold encodeWith. destruct (bool_decide (algorithm = CompressionGzip)).
  - destruct (Hg payload) as (data & -> & Hd). intros [= <-]. exists x01, gzip, data. by split; [left|].
  - destruct (bool_decide (algorithm = CompressionZstd)); [|done]. destruct (Hz payload) as (data & -> & Hd).
    intros [= <-]. exists x02, zstd, data. by split; [right|].
Qed.

Lemma decompress_plain payload maximum : literalEnvelope payload = false -> decompressPayload payload maximum = inr payload.
Proof.
  unfold literalEnvelope, decompressPayload. intros H. apply andb_false_iff in H as [H|H]; apply bool_decide_eq_false in H.
  - by rewrite bool_decide_true by lia.
  - rewrite (bool_decide_true (take 8 payload <> compressionMagic)) by done. by rewrite orb_true_r.
Qed.

(** Decoding what [compressPayload] returns gives the payload. *)
Lemma compress_decompress payload algorithm encoded maximum :
  codec_ok gzip -> codec_ok zstd -> llen payload <= maximum ->
  compressPayload payload algorithm = inr encoded ->
  decompressPayload encoded maximum = inr payload /\ llen encoded <= 1048576 /\
  (literalEnvelope payload = false -> llen encoded <= llen payload).
Proof.
  intros Hg Hz Hmax. unfold compressPayload. case_bool_decide as Hlen; [done|].
  destruct (_ && _ && _); [done|]. set (alg := if bool_decide (algorithm = "") then _ else _).
  destruct (literalEnvelope payload) eqn:Hlit; cbn [negb andb].
  - destruct (encodeWith _ payload) as [|e] eqn:He; [done|].
    destruct (bool_decide_reflect (1048576 < llen e)); [done|]. intros [= <-].
    destruct (encodeWith_ok _ _ _ Hg Hz He) as (code & c & data & Hc & Hd & ->).
    split; [|split; [lia|done]]. by eapply decompress_header; [exact Hc|exact Hd|lia|].
  - assert (Hplain : decompressPayload payload maximum = inr payload /\ llen payload <= 1048576 /\ (false = false -> llen payload <= llen payload)).
    { split; [by apply decompress_plain|]. lia. }
    destruct (_ || _); [by intros [= <-]|].
    destruct (encodeWith _ payload) as [|e] eqn:He; [done|]. cbv zeta.
    destruct (bool_decide_reflect (llen payload - Z.max 128 (Z.quot (llen payload) 10) < llen e)) as [Hsave|Hsave]; [by intros [= <-]|]. intros [= <-].
    destruct (encodeWith_ok _ _ _ Hg Hz He) as (code & c & data & Hc & Hd & ->).
    split; [by eapply decompress_header; [exact Hc|exact Hd|lia|]|]. lia.
Qed.

(** what a producer sends, a consumer reads back: whatever the payload (one that looks like an envelope
    included) and the algorithm, decoding what [compressPayload] returns gives the payload, within any
    decoding limit that admits it; and what is sent is never longer than 1 MiB, nor longer than a payload
    that does not look like an envelope. *)
Theorem compression_roundtrip payload algorithm encoded maximum :
  codec_ok gzip -> codec_ok zstd -> llen payload <= maximum ->
  compressPayload payload algorithm = inr encoded ->
  decompressPayload encoded maximum = inr payload /\ llen encoded <= 1048576 /\
  (literalEnvelope payload = false -> llen encoded <= llen payload).
Proof. apply compress_decompress. Qed.

(** The algorithm that is applied, when the payload is to be encoded. *)
Definition applied (algorithm : string) : string :=
  if bool_decide (algorithm = CompressionOff) then CompressionGzip
  else if bool_decide (algorithm = "") then CompressionZstd else algorithm.

Definition supported (algorithm : string) : Prop :=
  algorithm = "" \/ algorithm = CompressionOff \/ algorithm = CompressionGzip \/ algorithm = CompressionZstd.

Lemma encode_total algorithm payload : codec_ok gzip -> codec_ok zstd -> supported algorithm ->
  exists e, encodeWith (applied algorithm) payload = inr e.
Proof.
  intros Hg Hz Hs. destruct (Hg payload) as (d1 & E1 & _), (Hz payload) as (d2 & E2 & _). unfold encodeWith. rewrite E1, E2.
  destruct Hs as [->|[->|[->| ->]]]; eexists; reflexivity.
Qed.

Lemma compress_literal payload algorithm : supported algorithm -> literalEnvelope payload = true -> llen payload <= 1048576 ->
  compressPayload payload algorithm = match encodeWith (applied algorithm) payload with
    | inl e => inl e
    | inr e => if bool_decide (1048576 < llen e) then inl (errOther "escaped payload exceeds 1 MiB wire limit") else inr e
    end.
Proof.
  intros Hs Hlit Hlen. unfold compressPayload. rewrite (bool_decide_false (1048576 < llen payload)) by lia. rewrite Hlit.
  by destruct Hs as [->|[->|[->| ->]]].
Qed.

Lemma compress_other payload algorithm : codec_ok gzip -> codec_ok zstd -> supported algorithm -> literalEnvelope payload = false ->
  llen payload <= 1048576 -> exists e, compressPayload payload algorithm = inr e.
Proof.
  intros Hg Hz Hs Hlit Hlen. destruct (encode_total algorithm payload Hg Hz Hs) as [e E].
  assert (Ec : compressPayload payload algorithm =
    if bool_decide (llen payload < compressionThreshold) || bool_decide (algorithm = CompressionOff) then inr payload else
    match encodeWith (applied algorithm) payload with
    | inl e => inl e
    | inr encoded =>
      if bool_decide (llen payload - Z.max 128 (Z.quot (llen payload) 10) < llen encoded) then inr payload else inr encoded
    end).
  { unfold compressPayload. rewrite (bool_decide_false (1048576 < llen payload)) by lia. rewrite Hlit. cbn [negb andb].
    destruct Hs as [->|[->|[->| ->]]]; try done. destruct (bool_decide (llen payload < compressionThreshold)); done. }
  rewrite Ec, E. destruct (_ || _); [eauto|]. destruct (bool_decide _); eauto.
Qed.

Lemma compress_unsupported payload algorithm : ~ supported algorithm -> llen payload <= 1048576 ->
  compressPayload payload algorithm = inl (errOther "unsupported compression").
Proof.
  intros Hs Hlen. unfold compressPayload, supported in *. rewrite (bool_decide_false (1048576 < llen payload)) by lia.
  rewrite (bool_decide_false (algorithm = "")) by tauto. rewrite !bool_decide_true by tauto. done.
Qed.

(** When compression fails. With codecs that work, it fails on a payload of more than 1 MiB, on an algorithm
    it does not know, and on a payload that looks like an envelope and whose escaped form exceeds the wire
    limit, and on nothing else. *)
Theorem compression_errors payload algorithm :
  codec_ok gzip -> codec_ok zstd ->
  (exists e, compressPayload payload algorithm = inl e) <->
  1048576 < llen payload \/ ~ supported algorithm \/
  (literalEnvelope payload = true /\ exists encoded, encodeWith (applied algorithm) payload = inr encoded /\ 1048576 < llen encoded).
Proof.
  intros Hg Hz. destruct (decide (1048576 < llen payload)) as [Hlen|Hlen].
  { split; [by left|]. intros _. unfold compressPayload. rewrite bool_decide_true by done. eauto. }
  assert (Hle : llen payload <= 1048576) by lia.
  assert (Hdec : supported algorithm \/ ~ supported algorithm).
  { unfold supported. destruct (decide (algorithm = "")), (decide (algorithm = CompressionOff)),
      (decide (algorithm = CompressionGzip)), (decide (algorithm = CompressionZstd)); tauto. }
  destruct Hdec as [Hs|Hs]; [|rewrite compress_unsupported by done; split; eauto].
  destruct (literalEnvelope payload) eqn:Hlit.
  - rewrite compress_literal by done. destruct (encode_total algorithm payload Hg Hz Hs) as [e E]. rewrite E.
    case_bool_decide as Hbig; split; try (intros; by eauto 6).
    + intros [x [=]].
    + intros [?|[?|(_ & e' & [= <-] & ?)]]; [lia|done|done].
  - destruct (compress_other payload algorithm Hg Hz Hs Hlit Hle) as [e ->]. split; [by intros [x [=]]|].
    intros [?|[?|[? _]]]; [lia|done|done].
Qed.
End Compression.

(** ** Witnesses *)

(** A codec that works: the identity. *)
Definition ex_codec : Codec := mkCodec (fun p => inr p) (fun p => inr (p, None)).
Lemma ex_codec_ok : codec_ok ex_codec.
Proof. intros p. by exists p. Qed.

Definition ex_literal : list byte := compressionMagic ++ [x01; x00; x00; x00; x00; x07].

Lemma compression_roundtrip_witness : exists encoded,
  compressPayload ex_codec ex_codec ex_literal "off" = inr encoded /\ encoded <> ex_literal /\
  decompressPayload ex_codec ex_codec encoded 64 = inr ex_literal.
Proof.
  exists (header x01 ex_literal ++ ex_literal). assert (E : compressPayload ex_codec ex_codec ex_literal "off" =
    inr (header x01 ex_literal ++ ex_literal)) by (vm_compute; done).
  split; [exact E|]. split; [vm_compute; done|].
  apply (compression_roundtrip ex_codec ex_codec ex_literal "off" _ 64 ex_codec_ok ex_codec_ok); [vm_compute; done|exact E].
Defined.

Lemma compression_errors_witness : exists e, compressPayload ex_codec ex_codec [x01] "lz4" = inl e.
Proof.
  apply (compression_errors ex_codec ex_codec [x01] "lz4" ex_codec_ok ex_codec_ok). right. left.
  intros [H|[H|[H|H]]]; vm_compute in H; done.
Defined.
