(* ===== verification/Dedupe.v ===== *)
(** * The consumer's duplicate filter

    pkg/spruce/client.go, [Deduper]: a table of recently seen message identifiers that forgets
    an identifier after a time to live and keeps at most [max] recordings.  [Seen] is the code's
    map with its queue of recordings; [refSeen] is what it promises, a search of the last [max]
    recordings.  A [time.Time] is its nanosecond count. *)
From stdpp Require Import sorting.
From S2P Require Import Prelude Types.
#[local] Open Scope Z_scope.

(** [type dedupeEntry struct] *)
Record dedupeEntry := mkDedupeEntry {
  de_id : string;
  de_until : Z;
}.
#[export] Instance dedupeEntry_eq_dec : EqDecision dedupeEntry.
Proof. solve_decision. Defined.

(** [type Deduper struct]; the mutex makes every call of [Seen] one step. *)
Record Deduper := mkDeduper {
  dd_ttl : Z;
  dd_max : Z;
  dd_seen : gmap string Z;
  dd_order : list dedupeEntry;
}.

Definition NewDeduper (max ttl : Z) : Deduper :=
  let max := if max <=? 0 then 65536 else max in
  let ttl := if ttl <=? 0 then 5 * Minute else ttl in
  mkDeduper ttl max ∅ [].

(** [for len(d.order) > d.max { ... }]; [None] is the index out of range of an empty queue. *)
Fixpoint evictOldest (max : Z) (order : list dedupeEntry) (seen : gmap string Z) : option (list dedupeEntry * gmap string Z) :=
  if max <? llen order then
    match order with
    | [] => None
    | old :: order' =>
      evictOldest max order' (if bool_decide (seen !! de_id old = Some (de_until old)) then delete (de_id old) seen else seen)
    end
  else Some (order, seen).

(** [Seen] at the instant [now]. *)
Definition Seen (d : Deduper) (id : string) (now : Z) : option (bool * Deduper) :=
  if match dd_seen d !! id with Some until => now <? until | None => false end then Some (true, d)
  else
    let until := now + dd_ttl d in
    match evictOldest (dd_max d) (dd_order d ++ [mkDedupeEntry id until]) (<[id := until]> (dd_seen d)) with
    | Some (order, seen) => Some (false, mkDeduper (dd_ttl d) (dd_max d) seen order)
    | None => None
    end.

(** Successive calls and their answers. *)
Fixpoint seenAll (d : Deduper) (calls : list (string * Z)) : option (list bool * Deduper) :=
  match calls with
  | [] => Some ([], d)
  | (id, now) :: calls =>
    match Seen d id now with
    | Some (b, d) => match seenAll d calls with Some (bs, d) => Some (b :: bs, d) | None => None end
    | None => None
    end
  end.

(** ** What a [Deduper] promises *)

(** The recordings in force: the last [max] of [recorded]. *)
Definition lastn (max : Z) (recorded : list dedupeEntry) : list dedupeEntry := drop (length recorded - Z.to_nat max) recorded.

Definition remembered (recent : list dedupeEntry) (id : string) (now : Z) : bool :=
  existsb (fun e => bool_decide (de_id e = id) && (now <? de_until e)) recent.

(** The reference: every recording ever made, and a search of the last [max] of them. *)
Definition refSeen (max ttl : Z) (recorded : list dedupeEntry) (id : string) (now : Z) : bool * list dedupeEntry :=
  if remembered (lastn max recorded) id now then (true, recorded)
  else (false, recorded ++ [mkDedupeEntry id (now + ttl)]).

Fixpoint refAll (max ttl : Z) (recorded : list dedupeEntry) (calls : list (string * Z)) : list bool * list dedupeEntry :=
  match calls with
  | [] => ([], recorded)
  | (id, now) :: calls =>
    let '(b, recorded) := refSeen max ttl recorded id now in
    let '(bs, recorded) := refAll max ttl recorded calls in (b :: bs, recorded)
  end.

(** ** The invariant *)

(** The latest recording of an identifier. *)
Fixpoint latest (order : list dedupeEntry) (id : string) : option Z :=
  match order with
  | [] => None
  | e :: order =>
    match latest order id with
    | Some u => Some u
    | None => if bool_decide (de_id e = id) then Some (de_until e) else None
    end
  end.

(** A later recording of an identifier expires later. *)
Definition renewed (e e' : dedupeEntry) : Prop := de_id e = de_id e' -> de_until e < de_until e'.

Record table_is (order : list dedupeEntry) (seen : gmap string Z) : Prop := {
  ti_seen : forall id, seen !! id = latest order id;
  ti_sorted : StronglySorted renewed order;
}.

Lemma latest_elem order id u : latest order id = Some u -> mkDedupeEntry id u ∈ order.
Proof.
  revert u. induction order as [|[i v] order IH]; intros u; cbn; [done|].
  destruct (latest order id) as [w|] eqn:E.
  - intros [= ->]. right. by apply IH.
  - destruct (bool_decide_reflect (i = id)) as [->|]; [|done]. intros [= ->]. left.
Qed.

Lemma latest_snoc order e id :
  latest (order ++ [e]) id = if bool_decide (de_id e = id) then Some (de_until e) else latest order id.
Proof.
  induction order as [|f order IH]; cbn.
  - done.
  - rewrite IH. by destruct (bool_decide (de_id e = id)).
Qed.

(** The latest recording of an identifier is the longest-lived one. *)
Lemma latest_max order e : StronglySorted renewed order -> e ∈ order ->
  exists u, latest order (de_id e) = Some u /\ de_until e <= u.
Proof.
  induction order as [|f order IH]; intros Hs He; [by apply elem_of_nil in He|].
  apply StronglySorted_inv in Hs as [Hs Hf]. cbn. apply elem_of_cons in He as [->|He].
  - destruct (latest order (de_id f)) as [u|] eqn:E.
    + exists u. split; [done|]. apply latest_elem in E. rewrite Forall_forall in Hf. specialize (Hf _ E eq_refl). cbn in Hf. lia.
    + rewrite bool_decide_true by done. exists (de_until f). split; [done|lia].
  - destruct (IH Hs He) as (u & -> & Hu). eauto.
Qed.

(** The table answers as a search of the queue does. *)
Lemma table_remembered order seen id now : table_is order seen ->
  match seen !! id with Some until => now <? until | None => false end = remembered order id now.
Proof.
  intros [Hseen Hs]. rewrite Hseen. unfold remembered. apply eq_true_iff_eq. rewrite existsb_exists. split.
  - destruct (latest order id) as [u|] eqn:E; [|done]. intros Hu. exists (mkDedupeEntry id u).
    split; [by apply list_elem_of_In, latest_elem|]. cbn. by rewrite bool_decide_true.
  - intros (e & He%list_elem_of_In & [Hid Hu]%andb_prop). apply bool_decide_eq_true in Hid. subst id.
    destruct (latest_max _ _ Hs He) as (u & -> & Hle). lia.
Qed.

Lemma table_add order seen id until now : table_is order seen -> now < until -> remembered order id now = false ->
  table_is (order ++ [mkDedupeEntry id until]) (<[id := until]> seen).
Proof.
  intros [Hseen Hs] Hlt Hno. split.
  - intros i. rewrite latest_snoc. cbn. destruct (bool_decide_reflect (id = i)) as [->|Hne].
    + by rewrite lookup_insert_eq.
    + by rewrite lookup_insert_ne.
  - apply StronglySorted_app_2; [|done|repeat constructor].
    intros e e' He ->%list_elem_of_singleton Hid. cbn in *.
    destruct (Z.ltb_spec now (de_until e)) as [Hold|]; [|lia]. exfalso.
    assert (remembered order id now = true); [|congruence]. unfold remembered. apply existsb_exists.
    exists e. split; [by apply list_elem_of_In|]. rewrite bool_decide_true by done. cbn. lia.
Qed.

Lemma table_drop old order seen : table_is (old :: order) seen ->
  table_is order (if bool_decide (seen !! de_id old = Some (de_until old)) then delete (de_id old) seen else seen).
Proof.
  intros [Hseen [Hs Hold]%StronglySorted_inv]. split; [|done]. intros id.
  assert (E : seen !! id = latest (old :: order) id) by apply Hseen. pose proof (Hseen (de_id old)) as Eo. cbn in E, Eo.
  rewrite (bool_decide_true (de_id old = de_id old)) in Eo by done.
  destruct (latest order (de_id old)) as [u|] eqn:El.
  - assert (de_until old < u). { apply latest_elem in El. rewrite Forall_forall in Hold. by apply (Hold _ El). }
    rewrite bool_decide_false by (rewrite Eo; intros [= ->]; lia). rewrite E.
    destruct (latest order id) eqn:Ei; [done|]. destruct (bool_decide_reflect (de_id old = id)) as [<-|]; [congruence|done].
  - rewrite bool_decide_true by done. destruct (decide (id = de_id old)) as [->|Hne].
    + by rewrite lookup_delete_eq.
    + rewrite lookup_delete_ne by done. rewrite E. destruct (latest order id); [done|]. by rewrite bool_decide_false.
Qed.

Lemma evictOldest_spec max order seen : 0 <= max -> table_is order seen ->
  exists seen', evictOldest max order seen = Some (lastn max order, seen') /\ table_is (lastn max order) seen'.
Proof.
  intros Hmax. revert seen. induction order as [|old order IH]; intros seen Ht; cbn [evictOldest].
  - destruct (Z.ltb_spec max (llen (@nil dedupeEntry))) as [H|_]; [change (llen []) with 0 in H; lia|].
    exists seen. by unfold lastn.
  - rewrite llen_cons. destruct (Z.ltb_spec max (1 + llen order)) as [Hlt|Hge].
    + destruct (IH _ (table_drop _ _ _ Ht)) as (seen' & E & Ht'). unfold lastn in *. cbn [length].
      replace (S (length order) - Z.to_nat max)%nat with (S (length order - Z.to_nat max))%nat by (unfold llen in Hlt; lia).
      exists seen'. done.
    + exists seen. unfold lastn. cbn [length].
      replace (S (length order) - Z.to_nat max)%nat with 0%nat by (unfold llen in Hge; lia). done.
Qed.

(** ** The refinement *)
Lemma lastn_snoc max l e : 0 < max -> lastn max (lastn max l ++ [e]) = lastn max (l ++ [e]).
Proof.
  intros Hmax. unfold lastn. rewrite !length_app, length_drop. cbn [length].
  destruct (decide (length l <= Z.to_nat max)%nat) as [Hle|Hgt].
  - replace (length l - Z.to_nat max)%nat with 0%nat by lia. rewrite drop_0. f_equal. lia.
  - rewrite (drop_app_le l) by lia. rewrite drop_app_le by (rewrite length_drop; lia). rewrite drop_drop. do 2 f_equal. lia.
Qed.

(** A [Deduper] that holds the recordings [recorded]. *)
Record holds (d : Deduper) (max ttl : Z) (recorded : list dedupeEntry) : Prop := {
  ho_max : dd_max d = max;
  ho_ttl : dd_ttl d = ttl;
  ho_order : dd_order d = lastn max recorded;
  ho_table : table_is (dd_order d) (dd_seen d);
}.

Lemma Seen_spec d max ttl recorded id now : 0 < max -> 0 < ttl -> holds d max ttl recorded ->
  exists d', Seen d id now = Some ((refSeen max ttl recorded id now).1, d') /\
    holds d' max ttl (refSeen max ttl recorded id now).2.
Proof.
  intros Hmax Httl [Em Et Eo Ht]. unfold Seen, refSeen. rewrite (table_remembered _ _ _ _ Ht), <- Eo.
  destruct (remembered (dd_order d) id now) eqn:Er; [by exists d|].
  assert (Ha := table_add _ _ id (now + dd_ttl d) now Ht ltac:(lia) Er).
  destruct (evictOldest_spec (dd_max d) _ _ ltac:(lia) Ha) as (seen' & E & Ht').
  rewrite E. eexists. split; [done|]. split; cbn; try done. rewrite Em, Et, Eo. by apply lastn_snoc.
Qed.

Lemma seenAll_spec d max ttl recorded calls : 0 < max -> 0 < ttl -> holds d max ttl recorded ->
  exists d', seenAll d calls = Some ((refAll max ttl recorded calls).1, d') /\ holds d' max ttl (refAll max ttl recorded calls).2.
Proof.
  intros Hmax Httl. revert d recorded. induction calls as [|[id now] calls IH]; intros d recorded Hd; cbn.
  - by exists d.
  - destruct (Seen_spec d max ttl recorded id now Hmax Httl Hd) as (d' & -> & Hd').
    destruct (refSeen max ttl recorded id now) as [b rec'] eqn:Er. cbn in *.
    destruct (IH _ _ Hd') as (d'' & -> & Hd''). destruct (refAll max ttl rec' calls) as [bs rec'']. by exists d''.
Qed.

Lemma lastn_length max l : 0 <= max -> llen (lastn max l) <= max.
Proof. intros H. unfold lastn, llen. rewrite length_drop. lia. Qed.

Lemma size_list_to_set_le (l : list string) : (size (list_to_set l : gset string) <= length l)%nat.
Proof.
  induction l as [|x l IH]; cbn; [by rewrite size_empty|]. pose proof (size_union_alt {[x]} (list_to_set l : gset string)) as E.
  rewrite E, size_singleton. pose proof (subseteq_size (C := gset string) (list_to_set l ∖ {[x]}) (list_to_set l) ltac:(set_solver)). lia.
Qed.

Lemma table_size order seen : table_is order seen -> mlen seen <= llen order.
Proof.
  intros [Hseen _]. unfold mlen, llen. apply inj_le.
  rewrite <- (size_dom (D := gset string) seen), <- (length_fmap de_id order).
  trans (size (list_to_set (de_id <$> order) : gset string)); [|apply size_list_to_set_le].
  apply subseteq_size. intros id (u & Hu)%elem_of_dom. rewrite Hseen in Hu. apply elem_of_list_to_set.
  apply latest_elem in Hu. apply (list_elem_of_fmap_2' _ _ _ _ Hu). done.
Qed.

(** C40: the duplicate filter is equivalent to a search of the last recordings.  Whatever calls
    [Seen] gets, at whatever instants (the clock may even go back), it never panics and answers
    exactly as the reference, which keeps every recording and looks for the identifier among the
    last [max] of them that have not expired; the defaults 65536 and five minutes stand in for
    sizes that are not positive, and neither the table nor the queue outgrows [max]. *)
Theorem deduper_equiv max ttl calls :
  let m := if max <=? 0 then 65536 else max in
  let t := if ttl <=? 0 then 5 * Minute else ttl in
  exists d, seenAll (NewDeduper max ttl) calls = Some ((refAll m t [] calls).1, d) /\
    dd_order d = lastn m (refAll m t [] calls).2 /\ mlen (dd_seen d) <= llen (dd_order d) <= m.
Proof.
  intros m t.
  assert (Hm : 0 < m) by (unfold m; destruct (Z.leb_spec max 0); lia).
  assert (Ht : 0 < t) by (unfold t, Minute; destruct (Z.leb_spec ttl 0); lia).
  destruct (seenAll_spec (NewDeduper max ttl) m t [] calls Hm Ht) as (d & E & [_ _ Eo Hd]).
  - split; cbn; try done. split; [done|constructor].
  - exists d. split; [done|]. split; [done|]. split; [by apply table_size|]. rewrite Eo. apply lastn_length. lia.
Qed.
