(* ===== verification/Client.v ===== *)
(** * The client's publications

    pkg/spruce/client.go: the requests of [Publish] and [PublishBatchEntries], the credentials
    and the redirect policy, and the retries of [PublishRetry].  The network, the random source
    and the clock are an [Env]; what the code takes from net/url, encoding/json and time is a
    [GoStd].  [n_log] records the exchanges and the waits, in order.  A result of the code that
    carries an error is its error alone; the calls of [OnEvent] are not recorded. *)
From S2P Require Import Prelude Types GoIO Urls BatchWire Compression.
#[local] Open Scope Z_scope.

(** [type Client struct]; [HTTP]'s own redirect policy is [c_previous]. *)
Record Request := mkRequest {
  rq_method : string;
  rq_url : string;
  rq_scheme : string;
  rq_header : gmap string string;
  rq_body : list byte;
}.
(** A [CheckRedirect] function: the next request, and the requests made so far. *)
Definition Policy : Type := Request -> list Request -> option error.

Record Client := mkClient {
  c_BaseURL : string;
  c_Token : string;
  c_Username : string;
  c_Password : string;
  c_previous : option Policy;
  c_AllowInsecureCredentials : bool;
}.

(** [type PublishOptions struct] *)
Record PublishOptions := mkPublishOptions {
  o_Key : string;
  o_ContentType : string;
  o_ProducerID : string;
  o_IdempotencyKey : string;
  o_Ack : string;
  o_Compression : string;
  o_TTL : Z;
}.
#[export] Instance PublishOptions_settable : Settable PublishOptions := fun r => mkPublishOptions
  (o_Key r) (o_ContentType r) (o_ProducerID r) (o_IdempotencyKey r) (o_Ack r) (o_Compression r) (o_TTL r).
#[export] Instance set_o_Key : Setter o_Key := ltac:(derive_setter).
#[export] Instance PublishOptions_eq_dec : EqDecision PublishOptions.
Proof. solve_decision. Defined.

(** [type PublishResult struct], [type BatchResult struct], [type BatchEntry struct] *)
Record PublishResult := mkPublishResult {
  pr_ID : string;
  pr_Replicated : bool;
  pr_ConfirmedCopies : Z;
  pr_Degraded : bool;
}.
Record BatchResult := mkBatchResult { br_IDs : list string }.
Record BatchEntry := mkBatchEntry { be_Payload : list byte; be_Key : string }.

(** [type Error struct]: the answer of a broker that refuses; any other error is [Plain]. *)
Record ApiError := mkApiError {
  e_StatusCode : Z;
  e_Status : string;
  e_Code : string;
  e_Body : string;
  e_RetryAfter : Z;
}.
Inductive cerror :=
| Api (e : ApiError)
| Plain (e : error).

Record Response := mkResponse {
  rs_StatusCode : Z;
  rs_Status : string;
  rs_header : gmap string string;
  rs_body : list byte;
}.

Inductive event :=
| Sent (rq : Request) (answer : error + Response)
| Waited (delay : Z).
Record net (W : Type) := mkNet { n_world : W; n_log : list event }.
Arguments mkNet {W}.
Arguments n_world {W}.
Arguments n_log {W}.

(** What the client takes from the Go library: [url.Parse] (the scheme of a URL, [None] for a URL
    it refuses), [Duration.String], the value [SetBasicAuth] sets, [strings.TrimSpace],
    [time.ParseDuration], [http.ParseTime] and the decoding of the JSON answers. *)
Record GoStd := mkGoStd {
  gs_scheme : string -> option string;
  gs_durationString : Z -> string;
  gs_basicAuth : string -> string -> string;
  gs_trimSpace : string -> string;
  gs_parseDuration : string -> option Z;
  gs_parseTime : string -> option Z;
  gs_problem : list byte -> string;
  gs_publishResult : list byte -> error + PublishResult;
  gs_batchResult : list byte -> error + BatchResult;
}.

(** The environment: [Client.Do] under a redirect policy, [rand.Int64N], a wait that the context
    may cut short (with its error), and the clock. *)
Class Env (W : Type) := mkEnv {
  ev_do : Policy -> Request -> W -> (error + Response) * W;
  ev_int64N : Z -> W -> Z * W;
  ev_wait : Z -> W -> option error * W;
  ev_now : W -> Z;
}.

(** [if value != "" { req.Header.Set(name, value) }] for each pair, in order. *)
Definition setHeaders (l : list (string * string)) (h : gmap string string) : gmap string string :=
  foldl (fun h p => if bool_decide (p.2 = "") then h else <[p.1 := p.2]> h) h l.

Definition errEnv (m : string) : cerror := Plain (errOther m).

Section Client.
Context (std : GoStd) (gzip zstd : Codec) {W : Type} `{Env W} (c : Client).

Definition authorize (req : Request) : cerror + Request :=
  if (bool_decide (c_Token c <> "") || bool_decide (c_Username c <> "")) && bool_decide (rq_scheme req <> "https")
     && negb (c_AllowInsecureCredentials c)
  then inl (errEnv "spruce: credentials require HTTPS; enable AllowInsecureCredentials only for isolated development")
  else
    let set v := mkRequest (rq_method req) (rq_url req) (rq_scheme req) (<["Authorization" := v]> (rq_header req)) (rq_body req) in
    if bool_decide (c_Token c <> "") then inr (set (String.append "Bearer " (c_Token c))) else
    if bool_decide (c_Username c <> "") then inr (set (gs_basicAuth std (c_Username c) (c_Password c))) else inr req.

(** The redirect policy of [doWith]. *)
Definition checkRedirect : Policy := fun next via =>
  if match via with first :: _ => bool_decide (default "" (rq_header first !! "Authorization") <> "") | [] => false end
     && bool_decide (rq_scheme next <> "https") && negb (c_AllowInsecureCredentials c)
  then Some (errOther "spruce: refusing credential redirect to plaintext HTTP") else
  match c_previous c with
  | Some previous => previous next via
  | None => if 10 <=? llen via then Some (errOther "stopped after 10 redirects") else None
  end.

Definition do (req : Request) : GoM (net W) (error + Response) := fun s =>
  let (answer, w) := ev_do checkRedirect req (n_world s) in
  Some (answer, mkNet w (n_log s ++ [Sent req answer])).

Definition parseRetryAfter (value : string) (now : Z) : Z :=
  match gs_parseDuration std (String.append (gs_trimSpace std value) "s") with
  | Some seconds => if 0 <? seconds then seconds else
    match gs_parseTime std value with Some deadline => if now <? deadline then deadline - now else 0 | None => 0 end
  | None => match gs_parseTime std value with Some deadline => if now <? deadline then deadline - now else 0 | None => 0 end
  end.

Definition responseError (resp : Response) (now : Z) : cerror :=
  let body := limitReader 4096 (rs_body resp) in
  Api (mkApiError (rs_StatusCode resp) (rs_Status resp) (gs_problem std body) (gs_trimSpace std (bstring body))
         (parseRetryAfter (default "" (rs_header resp !! "Retry-After")) now)).

(** What a call makes of an answer; [decode] reads the JSON of a success. *)
Definition outcome {A} (decode : list byte -> error + A) (now : Z) (answer : error + Response) : cerror + A :=
  match answer with
  | inl e => inl (Plain e)
  | inr resp =>
    if bool_decide (Z.quot (rs_StatusCode resp) 100 <> 2) then inl (responseError resp now) else
    match decode (rs_body resp) with inl e => inl (Plain e) | inr out => inr out end
  end.

Definition send {A} (decode : list byte -> error + A) (req : cerror + Request) : GoM (net W) (cerror + A) :=
  match req with
  | inl e => gret (inl e)
  | inr req => answer <- do req ;; s <- gget ;; gret (outcome decode (ev_now (n_world s)) answer)
  end.

(** ** Publish *)
Definition publishHeaders (o : PublishOptions) : gmap string string :=
  setHeaders [("Spruce-Key", o_Key o); ("Content-Type", o_ContentType o);
    ("Spruce-TTL", if 0 <? o_TTL o then gs_durationString std (o_TTL o) else ""); ("Spruce-Ack", o_Ack o);
    ("Spruce-Idempotency-Key", o_IdempotencyKey o); ("Spruce-Producer-ID", o_ProducerID o)] ∅.

Definition topicURL (topic suffix : string) : string :=
  String.append (c_BaseURL c) (String.append "/v1/topics/" (String.append (PathEscape topic) suffix)).

Definition publishRequest (topic : string) (payload : list byte) (o : PublishOptions) : cerror + Request :=
  match compressPayload gzip zstd payload (o_Compression o) with
  | inl e => inl (Plain e)
  | inr payload =>
    let url := topicURL topic "/messages" in
    match gs_scheme std url with
    | None => inl (errEnv "parse")
    | Some scheme => authorize (mkRequest "POST" url scheme (publishHeaders o) payload)
    end
  end.

Definition Publish (topic : string) (payload : list byte) (o : PublishOptions) : GoM (net W) (cerror + PublishResult) :=
  send (gs_publishResult std) (publishRequest topic payload o).

(** ** PublishBatchEntries *)
Fixpoint compressEntries (entries : list BatchEntry) (compression : string) : error + list (string * list byte) :=
  match entries with
  | [] => inr []
  | e :: entries =>
    match compressPayload gzip zstd (be_Payload e) compression with
    | inl err => inl err
    | inr payload =>
      match compressEntries entries compression with
      | inl err => inl err
      | inr l => inr ((be_Key e, payload) :: l)
      end
    end
  end.

Definition batchRequest (topic : string) (entries : list BatchEntry) (o : PublishOptions) : cerror + Request :=
  if bool_decide (llen entries = 0) then inl (errEnv "batch is empty") else
  if bool_decide (4096 < llen entries) then inl (errEnv "batch exceeds 4096 messages") else
  match compressEntries entries (o_Compression o) with
  | inl e => inl (Plain e)
  | inr encoded =>
    match encodeEntries encoded with
    | inl e => inl (Plain e)
    | inr body =>
      let url := topicURL topic "/batches" in
      match gs_scheme std url with
      | None => inl (errEnv "parse")
      | Some scheme =>
        let header := setHeaders [("Spruce-Batch-Version", "2"); ("Content-Type", o_ContentType o);
          ("Spruce-TTL", if 0 <? o_TTL o then gs_durationString std (o_TTL o) else "")] ∅ in
        if bool_decide (o_Ack o <> "") && bool_decide (o_Ack o <> "local")
        then inl (errEnv "batch only supports local acknowledgement") else
        if bool_decide (o_IdempotencyKey o <> "") then inl (errEnv "batch idempotency is not supported") else
        authorize (mkRequest "POST" url scheme header body)
      end
    end
  end.

Definition PublishBatchEntries (topic : string) (entries : list BatchEntry) (o : PublishOptions)
    : GoM (net W) (cerror + BatchResult) :=
  send (gs_batchResult std) (batchRequest topic entries o).

Definition PublishBatch (topic : string) (payloads : list (list byte)) (o : PublishOptions) : GoM (net W) (cerror + BatchResult) :=
  PublishBatchEntries topic ((fun p => mkBatchEntry p (o_Key o)) <$> payloads) o.

(** ** PublishRetry *)
Record RetryOptions := mkRetryOptions { ro_MaxAttempts : Z; ro_MinBackoff : Z; ro_MaxBackoff : Z }.

(** [retryDelay], given the number [rand.Int64N] drew. *)
Definition retryDelay (backoff maximum retryAfter drawn : Z) : Z :=
  let delay := i64 (Z.quot backoff 2 + drawn) in
  let delay := if maximum <? delay then maximum else delay in
  if delay <? retryAfter then retryAfter else delay.

(** [errors.As(err, &apiErr) && ...]: an answer that another attempt cannot change. *)
Definition permanent (e : cerror) : bool :=
  match e with
  | Api e => bool_decide (e_StatusCode e <> 408) && bool_decide (e_StatusCode e <> 429) && (e_StatusCode e <? 500)
  | Plain _ => false
  end.
Definition retryAfterOf (e : cerror) : Z := match e with Api e => e_RetryAfter e | Plain _ => 0 end.

(** The timer and its [select]. *)
Definition pause (backoff maximum retryAfter : Z) : GoM (net W) (option error) := fun s =>
  let (drawn, w) := ev_int64N (Z.max 1 backoff) (n_world s) in
  let delay := retryDelay backoff maximum retryAfter drawn in
  let (cancelled, w) := ev_wait delay w in
  Some (cancelled, mkNet w (n_log s ++ [Waited delay])).

(** The loop; [n] attempts are left. *)
Fixpoint retryLoop (n : nat) (publish : GoM (net W) (cerror + PublishResult)) (maximum backoff : Z)
    (last : cerror + PublishResult) : GoM (net W) (cerror + PublishResult) :=
  match n with
  | O => gret last
  | S n =>
    r <- publish ;;
    match r with
    | inr _ => gret r
    | inl e =>
      if permanent e then gret r else
      if bool_decide (n = 0%nat) then gret r else
      cancelled <- pause backoff maximum (retryAfterOf e) ;;
      match cancelled with
      | Some err => gret (inl (Plain err))
      | None =>
        let backoff := i64 (backoff * 2) in
        retryLoop n publish maximum (if maximum <? backoff then maximum else backoff) r
      end
    end
  end.

Definition positiveOr (d v : Z) : Z := if v <=? 0 then d else v.

Definition PublishRetry (topic : string) (payload : list byte) (o : PublishOptions) (retry : RetryOptions)
    : GoM (net W) (cerror + PublishResult) :=
  if bool_decide (o_ProducerID o = "") || bool_decide (o_IdempotencyKey o = "")
  then gret (inl (errEnv "retry requires producer ID and idempotency key")) else
  retryLoop (Z.to_nat (positiveOr 8 (ro_MaxAttempts retry))) (Publish topic payload o)
    (positiveOr (2 * Second) (ro_MaxBackoff retry)) (positiveOr (50 * Millisecond) (ro_MinBackoff retry))
    (inr (mkPublishResult "" false 0 false)).
End Client.

(** ** Credentials *)
Section Laws.
Context (std : GoStd) (gzip zstd : Codec) (c : Client).

(** [SetBasicAuth] sets a value. *)
Definition basicAuth_ok : Prop := forall u p, gs_basicAuth std u p <> "".

Definition credentialed : Prop := c_Token c <> "" \/ c_Username c <> "".

Lemma authorize_inr req rq : authorize std c req = inr rq ->
  rq_method rq = rq_method req /\ rq_url rq = rq_url req /\ rq_scheme rq = rq_scheme req /\ rq_body rq = rq_body req /\
  (forall name, name <> "Authorization" -> rq_header rq !! name = rq_header req !! name).
Proof.
  unfold authorize. destruct (_ && _); [done|].
  destruct (bool_decide (c_Token c <> "")); [|destruct (bool_decide (c_Username c <> ""))];
    intros [= <-]; cbn; split_and!; try done; intros name Hn; by rewrite lookup_insert_ne.
Qed.

Lemma authorize_safe req rq : basicAuth_ok -> credentialed -> c_AllowInsecureCredentials c = false ->
  authorize std c req = inr rq -> rq_scheme rq = "https" /\ exists v, v <> "" /\ rq_header rq !! "Authorization" = Some v.
Proof.
  intros Hb Hc Hi. unfold authorize. rewrite Hi. cbn [negb]. rewrite andb_true_r.
  destruct (_ && _) eqn:E; [done|]. intros Hrq. apply andb_false_iff in E as [E|E%bool_decide_eq_false].
  - apply orb_false_iff in E as [E1%bool_decide_eq_false E2%bool_decide_eq_false]. destruct Hc; tauto.
  - assert (Hs : rq_scheme req = "https") by (destruct (decide (rq_scheme req = "https")); tauto).
    destruct (bool_decide_reflect (c_Token c <> "")) as [Ht|Ht].
    + injection Hrq as <-. split; [done|]. eexists. split; [|cbn; apply lookup_insert_eq]. done.
    + rewrite bool_decide_true in Hrq by (destruct Hc; tauto). injection Hrq as <-. split; [done|].
      eexists. split; [|cbn; apply lookup_insert_eq]. apply Hb.
Qed.

(** A request that [Publish] or [PublishBatchEntries] sends. *)
Definition publication (rq : Request) : Prop :=
  (exists topic payload o, publishRequest std gzip zstd c topic payload o = inr rq) \/
  (exists topic entries o, batchRequest std gzip zstd c topic entries o = inr rq).

Lemma publication_authorized rq : publication rq -> exists req, authorize std c req = inr rq.
Proof.
  intros [(topic & payload & o & E)|(topic & entries & o & E)].
  - unfold publishRequest in E. destruct (compressPayload _ _ _ _); [done|]. cbv zeta in E.
    destruct (gs_scheme _ _); [eauto|done].
  - unfold batchRequest in E. destruct (bool_decide _); [done|]. destruct (bool_decide _); [done|].
    destruct (compressEntries _ _ _ _); [done|]. destruct (encodeEntries _); [done|]. cbv zeta in E.
    destruct (gs_scheme _ _); [|done]. destruct (_ && _); [done|]. destruct (bool_decide _); [done|]. eauto.
Qed.

(** C36: credentials never travel in the clear.  A client that has a token or a user name and does
    not allow insecure credentials only sends publications over HTTPS, and its redirect policy
    refuses to follow any redirect of such a request to another scheme, however many hops it took
    and whatever policy the application installed. *)
Theorem credentials_safe rq : basicAuth_ok -> credentialed -> c_AllowInsecureCredentials c = false -> publication rq ->
  rq_scheme rq = "https" /\
  forall next via, rq_scheme next <> "https" -> is_Some (checkRedirect c next (rq :: via)).
Proof.
  intros Hb Hc Hi (req & Hrq)%publication_authorized.
  destruct (authorize_safe _ _ Hb Hc Hi Hrq) as (Hs & v & Hv & Hh). split; [done|].
  intros next via Hn. unfold checkRedirect. rewrite Hi, Hh. cbn [default negb].
  rewrite !bool_decide_true by done. by eexists.
Qed.

(** ** What a consumer reads of a batch *)
Lemma compressEntries_inr entries compression l maximum : codec_ok gzip -> codec_ok zstd ->
  Forall (fun e => llen (be_Payload e) <= maximum) entries -> compressEntries gzip zstd entries compression = inr l ->
  Forall2 (fun e p => p.1 = be_Key e /\ decompressPayload gzip zstd p.2 maximum = inr (be_Payload e)) entries l.
Proof.
  intros Hg Hz Hall. revert l. induction Hall as [|e entries He _ IH]; intros l; cbn [compressEntries].
  - intros [= <-]. constructor.
  - destruct (compressPayload _ _ _ _) as [|payload] eqn:E; [done|].
    destruct (compressEntries _ _ entries _) as [|l']; [done|]. intros [= <-]. constructor; [|by apply IH].
    split; [done|]. cbn. by apply (compress_decompress gzip zstd _ compression).
Qed.

(** C38: a batch crosses the broker unchanged: the body of any request [PublishBatchEntries]
    sends is accepted by a broker whose message limit is at least 1 MiB, and what the broker
    reads from it, entry by entry and in order, has the caller's keys and decompresses to the
    caller's payloads at any consumer whose limit admits them. *)
Theorem batch_delivers topic (entries : list BatchEntry) o rq maxMessage maximum : codec_ok gzip -> codec_ok zstd ->
  1048576 <= maxMessage -> Forall (fun e => llen (be_Payload e) <= maximum) entries ->
  batchRequest std gzip zstd c topic entries o = inr rq ->
  exists l, decodeBatch true maxMessage (rq_body rq) = inr l /\ rq_header rq !! "Spruce-Batch-Version" = Some "2" /\
    Forall2 (fun e p => p.1 = be_Key e /\ decompressPayload gzip zstd p.2 maximum = inr (be_Payload e)) entries l.
Proof.
  intros Hg Hz Hm Hall. unfold batchRequest. destruct (bool_decide _); [done|]. destruct (bool_decide _); [done|].
  destruct (compressEntries _ _ _ _) as [|l] eqn:El; [done|]. destruct (encodeEntries l) as [|body] eqn:Eb; [done|].
  cbv zeta. destruct (gs_scheme _ _); [|done]. destruct (_ && _); [done|]. destruct (bool_decide _); [done|].
  intros (_ & _ & _ & Hbody & Hh)%authorize_inr. exists l. split; [|split].
  - rewrite Hbody. by apply decode_encodeEntries.
  - rewrite Hh by done. cbn [rq_header]. unfold setHeaders. cbn [foldl fst snd].
    rewrite (bool_decide_false ("2" = "")) by done.
    repeat (destruct (bool_decide _); [|rewrite lookup_insert_ne by done]); apply lookup_insert_eq.
  - by eapply compressEntries_inr.
Qed.
End Laws.

(** ** Retries *)
Section Retry.
Context (std : GoStd) (gzip zstd : Codec) {W : Type} `{Env W} (c : Client).

(** [rand.Int64N(n)] is in [0, n). *)
Definition rand_ok : Prop := forall n w, 0 < n -> 0 <= (ev_int64N n w).1 < n.

(** The backoff before the [k]-th wait. *)
Fixpoint backoffAt (maximum backoff : Z) (k : nat) : Z :=
  match k with O => backoff | S k => backoffAt maximum (Z.min (backoff * 2) maximum) k end.

(** The exchanges of the attempts, with the waits between them. *)
Fixpoint exchanges (rq : Request) (answers : list (error + Response)) (waits : list Z) : list event :=
  match answers with
  | [] => []
  | a :: answers =>
    Sent rq a :: match waits with [] => exchanges rq answers [] | d :: waits => Waited d :: exchanges rq answers waits end
  end.

(** What an attempt makes of the answer it gets, at the time it gets it. *)
Definition understood (a : error + Response) (r : cerror + PublishResult) : Prop :=
  exists now, r = outcome std (gs_publishResult std) now a.

(** The waits are jittered, backed off and at least what the broker asked for. *)
Definition waits_ok (maximum backoff : Z) (results : list (cerror + PublishResult)) (waits : list Z) : Prop :=
  forall k d, waits !! k = Some d -> exists e, results !! k = Some (inl e) /\ permanent e = false /\
    Z.max (Z.min (Z.quot (backoffAt maximum backoff k) 2) maximum) (retryAfterOf e) <= d <= Z.max maximum (retryAfterOf e).

(** How a sequence of attempts ends with [r]: on an answer that is final, on the last attempt, or because the context is done. *)
Definition ended (n : nat) (results : list (cerror + PublishResult)) (waits : list Z) (r : cerror + PublishResult) : Prop :=
  (length results = S (length waits) /\ last results = Some r /\
    (match r with inr _ => True | inl e => permanent e = true end \/ length results = n)) \/
  (length results = length waits /\ (length results < n)%nat /\ exists e, r = inl (Plain e)).

Lemma retryDelay_bounds backoff maximum retryAfter drawn :
  0 < backoff <= 2 ^ 62 -> 0 <= drawn < Z.max 1 backoff ->
  Z.max (Z.min (Z.quot backoff 2) maximum) retryAfter <= retryDelay backoff maximum retryAfter drawn <= Z.max maximum retryAfter.
Proof.
  intros Hb Hd. unfold retryDelay. assert (Hq : 0 <= Z.quot backoff 2 <= backoff).
  { rewrite Z.quot_div_nonneg by lia. split; [apply Z.div_pos; lia|apply Z.div_le_upper_bound; lia]. }
  change (2 ^ 62) with 4611686018427387904 in Hb. cbv zeta.
  assert (Z.quot backoff 2 * 2 <= backoff) by (rewrite Z.quot_div_nonneg by lia; pose proof (Z.mul_div_le backoff 2); lia).
  i64s. destruct (Z.ltb_spec maximum (Z.quot backoff 2 + drawn)), (Z.ltb_spec maximum retryAfter),
    (Z.ltb_spec (Z.quot backoff 2 + drawn) retryAfter); lia.
Qed.

Lemma wp_pause backoff maximum retryAfter (s : net W) : rand_ok -> 0 < backoff <= 2 ^ 62 ->
  wp (pause backoff maximum retryAfter) s (fun _ s' => exists d, n_log s' = n_log s ++ [Waited d] /\
    Z.max (Z.min (Z.quot backoff 2) maximum) retryAfter <= d <= Z.max maximum retryAfter).
Proof.
  intros Hr Hb. unfold wp, pause. pose proof (Hr (Z.max 1 backoff) (n_world s) ltac:(lia)) as Hd.
  destruct (ev_int64N _ _) as [drawn w]. destruct (ev_wait _ w) as [cancelled w']. cbn in *.
  eexists. split; [done|]. by apply retryDelay_bounds.
Qed.

Lemma wp_attempt rq (s : net W) :
  wp (send std c (gs_publishResult std) (inr rq)) s (fun r s' =>
    exists a, n_log s' = n_log s ++ [Sent rq a] /\ understood a r).
Proof.
  unfold send. wp_steps. unfold wp, Client.do. destruct (ev_do _ _ _) as [a w]. cbn. exists a. split; [done|]. by eexists.
Qed.

Lemma next_backoff maximum backoff : 0 < maximum <= 2 ^ 62 -> 0 < backoff <= 2 ^ 62 ->
  (if maximum <? i64 (backoff * 2) then maximum else i64 (backoff * 2)) = Z.min (backoff * 2) maximum /\
  0 < Z.min (backoff * 2) maximum <= 2 ^ 62 \/ backoff = 2 ^ 62.
Proof.
  change (2 ^ 62) with 4611686018427387904. intros Hm Hb.
  destruct (decide (backoff = 4611686018427387904)); [by right|left]. i64s.
  destruct (Z.ltb_spec maximum (backoff * 2)); lia.
Qed.

(** The loop, from a given backoff on. *)
Definition retriedFrom (rq : Request) (n : nat) (maximum backoff : Z) (log : list event) (r : cerror + PublishResult) : Prop :=
  exists answers results waits, log = exchanges rq answers waits /\ Forall2 understood answers results /\
    (length results <= n)%nat /\ waits_ok maximum backoff results waits /\ ended n results waits r.

Lemma retried_once rq n maximum backoff a r :
  understood a r -> match r with inr _ => True | inl e => permanent e = true end \/ n = 1%nat -> (0 < n)%nat ->
  retriedFrom rq n maximum backoff [Sent rq a] r.
Proof.
  intros Hu Hend Hn. exists [a], [r], []. split_and!; [done|by repeat constructor|done| |].
  - intros k d Hk. by rewrite lookup_nil in Hk.
  - left. split_and!; [done..|]. destruct Hend; auto.
Qed.

Lemma waits_cons maximum backoff results waits e d : permanent e = false ->
  Z.max (Z.min (Z.quot backoff 2) maximum) (retryAfterOf e) <= d <= Z.max maximum (retryAfterOf e) ->
  waits_ok maximum (Z.min (backoff * 2) maximum) results waits ->
  waits_ok maximum backoff (inl e :: results) (d :: waits).
Proof. intros Hp Hd Hw [|k] d'; cbn; [|apply Hw]. intros [= <-]. by exists e. Qed.

Lemma retried_cancelled rq n maximum backoff a e d err : understood a (inl e) -> permanent e = false -> (1 < n)%nat ->
  Z.max (Z.min (Z.quot backoff 2) maximum) (retryAfterOf e) <= d <= Z.max maximum (retryAfterOf e) ->
  retriedFrom rq n maximum backoff [Sent rq a; Waited d] (inl (Plain err)).
Proof.
  intros Hu Hp Hn Hd. exists [a], [inl e], [d]. split_and!; [done|by repeat constructor|cbn; lia| |].
  - apply waits_cons; [done..|]. intros k d' Hk. by rewrite lookup_nil in Hk.
  - right. split_and!; [done|cbn; lia|by eexists].
Qed.

Lemma retried_again rq n maximum backoff a e d log r : understood a (inl e) -> permanent e = false -> n <> 0%nat ->
  Z.max (Z.min (Z.quot backoff 2) maximum) (retryAfterOf e) <= d <= Z.max maximum (retryAfterOf e) ->
  retriedFrom rq n maximum (Z.min (backoff * 2) maximum) log r ->
  retriedFrom rq (S n) maximum backoff (Sent rq a :: Waited d :: log) r.
Proof.
  intros Hu Hp Hn Hd (answers & results & waits & -> & Hun & Hlen & Hw & Hend).
  exists (a :: answers), (inl e :: results), (d :: waits). split_and!; [done|by constructor|cbn; lia|by apply waits_cons|].
  destruct Hend as [(Hl & Hlast & Hfin)|(Hl & Hlt & He)].
  - left. split_and!; [cbn; lia| |cbn; destruct Hfin; auto].
    rewrite last_cons, Hlast. done.
  - right. split_and!; [cbn; lia..|done].
Qed.

Lemma wp_retryLoop rq n maximum backoff r0 (s : net W) : rand_ok -> 0 < maximum < 2 ^ 62 -> 0 < backoff < 2 ^ 62 ->
  wp (retryLoop (S n) (send std c (gs_publishResult std) (inr rq)) maximum backoff r0) s (fun r s' =>
    exists log, n_log s' = n_log s ++ log /\ retriedFrom rq (S n) maximum backoff log r).
Proof.
  intros Hr Hm. revert backoff r0 s. induction n as [|n IH]; intros backoff r0 s Hb; cbn [retryLoop].
  all: apply wp_bind; eapply wp_mono; [apply wp_attempt|]; intros r s1 (a & Hlog & Hu).
  - assert (retriedFrom rq 1 maximum backoff [Sent rq a] r) by (apply retried_once; auto).
    destruct r as [e|res]; [destruct (permanent e)|]; apply wp_ret; eauto.
  - destruct r as [e|res]; [destruct (permanent e) eqn:Hp|].
    1,3: apply wp_ret; exists [Sent rq a]; split; [done|]; apply retried_once; [done|by left|lia].
    rewrite bool_decide_false by done. apply wp_bind. eapply wp_mono; [apply (wp_pause backoff maximum (retryAfterOf e) s1 Hr); lia|].
    intros [err|] s2 (d & Hlog2 & Hd).
    + apply wp_ret. exists [Sent rq a; Waited d]. split; [by rewrite Hlog2, Hlog, <- app_assoc|].
      apply (retried_cancelled _ _ _ _ _ e); [done|done|lia|done].
    + destruct (next_backoff maximum backoff ltac:(lia) ltac:(lia)) as [[Eb Hb']|]; [|lia]. cbv zeta. rewrite Eb.
      eapply wp_mono; [apply (IH _ (inl e)); lia|]. intros r' s3 (log & Hlog3 & Hret).
      exists (Sent rq a :: Waited d :: log). split; [by rewrite Hlog3, Hlog2, Hlog, <- !app_assoc|].
      by apply (retried_again _ _ _ _ _ e).
Qed.

(** ** The policy, on the answers *)

(** The answers after which another attempt may succeed: none at all, a success whose body does not decode, 408 (timeout), 429 (too many
    requests) and the 5xx class and above. *)
Definition passing (a : error + Response) : Prop :=
  match a with
  | inl _ => True
  | inr resp => Z.quot (rs_StatusCode resp) 100 = 2 \/ rs_StatusCode resp = 408 \/ rs_StatusCode resp = 429 \/ 500 <= rs_StatusCode resp
  end.
Lemma permanent_answer a e : understood a (inl e) -> permanent e = false <-> passing a.
Proof.
  intros [now E]. unfold outcome in E. destruct a as [e'|resp]; [by injection E as ->|]. cbn [passing]. destruct (bool_decide_reflect (Z.quot (rs_StatusCode resp) 100 <> 2)) as [Hq|Hq].
  - injection E as ->. unfold permanent, responseError. cbn [e_StatusCode]. rewrite !andb_false_iff, !bool_decide_eq_false, Z.ltb_ge. split; [|lia]. intros [[H1|H1]|H1]; [right; left|right; right; left|right; right; right]; lia.
  - apply dec_stable in Hq. destruct (gs_publishResult _ _); [|done]. injection E as ->. split; [by left|done].
Qed.

(** The attempts of a call that returns [r]: each wait follows an answer that may pass, and is jittered, backed off and at least what the broker
    asked for; the call ends with an answer that is no such, or with the last attempt, whose result it returns, or because the context is done in a wait. *)
Definition attemptsOf (rq : Request) (n : nat) (maximum backoff : Z) (log : list event) (r : cerror + PublishResult) : Prop :=
  exists answers results waits, log = exchanges rq answers waits /\ Forall2 understood answers results /\ (length answers <= n)%nat /\
    (forall k d, waits !! k = Some d -> exists a e, answers !! k = Some a /\ results !! k = Some (inl e) /\ passing a /\
      Z.max (Z.min (Z.quot (backoffAt maximum backoff k) 2) maximum) (retryAfterOf e) <= d <= Z.max maximum (retryAfterOf e)) /\
    ((length answers = S (length waits) /\ last results = Some r /\
       ((exists p, r = inr p) \/ (exists a, last answers = Some a /\ ~ passing a) \/ length answers = n)) \/
     (length answers = length waits /\ (length answers < n)%nat /\ exists e, r = inl (Plain e))).

Lemma Forall2_last {A B} (R : A -> B -> Prop) l k y : Forall2 R l k -> last k = Some y -> exists x, last l = Some x /\ R x y.
Proof. intros F. rewrite !last_lookup, (Forall2_length _ _ _ F). intros Hy. destruct (Forall2_lookup_r _ _ _ _ _ F Hy) as (x & ? & ?). eauto. Qed.

Lemma retriedFrom_attempts rq n maximum backoff log r : retriedFrom rq n maximum backoff log r -> attemptsOf rq n maximum backoff log r.
Proof.
  intros (answers & results & waits & -> & Hu & Hn & Hw & Hend). pose proof (Forall2_length _ _ _ Hu) as El. exists answers, results, waits. split_and!; [done|done|lia| |].
  - intros k d (e & He & Hp & Hd)%Hw. destruct (Forall2_lookup_r _ _ _ _ _ Hu He) as (a & Ha & Hae). exists a, e. split_and!; [done|done|by apply (permanent_answer a e)|lia|lia].
  - destruct Hend as [(E1 & Hl & Hr)|(E1 & E2 & E3)]; [left|right; split_and!; [lia|lia|done]]. split_and!; [lia|done|]. destruct Hr as [Hr|]; [|right; right; lia].
    destruct r as [e|p]; [right; left|left; eauto]. destruct (Forall2_last _ _ _ _ Hu Hl) as (a & Ha & Hae). exists a. split; [done|]. rewrite <- (permanent_answer a e) by done. by rewrite Hr.
Qed.

(** C37: [PublishRetry] terminates within its attempts and never changes the request.  Given a
    producer and an idempotency key, and limits below 2^62 nanoseconds, the call returns after at most [MaxAttempts]
    (8 by default) exchanges, every one of the same request, which carries both identifiers; it
    goes on only after a transport error, a success that does not decode or an answer 408, 429 or from 500 on, and each wait is at least
    half the doubled backoff (capped) and what the broker's Retry-After asks, and at most the
    greater of the maximum and Retry-After.  It returns the result of the last exchange: a success, an answer that is none of
    these, or whatever the last attempt brought; or the context was done during a wait. *)
Theorem publish_retry topic payload o retry rq (s : net W) :
  let attempts := Z.to_nat (positiveOr 8 (ro_MaxAttempts retry)) in
  let maximum := positiveOr (2 * Second) (ro_MaxBackoff retry) in
  let backoff := positiveOr (50 * Millisecond) (ro_MinBackoff retry) in
  rand_ok -> maximum < 2 ^ 62 -> backoff < 2 ^ 62 -> o_ProducerID o <> "" -> o_IdempotencyKey o <> "" ->
  publishRequest std gzip zstd c topic payload o = inr rq ->
  rq_header rq !! "Spruce-Producer-ID" = Some (o_ProducerID o) /\
  rq_header rq !! "Spruce-Idempotency-Key" = Some (o_IdempotencyKey o) /\
  wp (PublishRetry std gzip zstd c topic payload o retry) s (fun r s' =>
    exists log, n_log s' = n_log s ++ log /\ attemptsOf rq attempts maximum backoff log r).
Proof.
  intros attempts maximum backoff Hr Hmax Hback Hp Hi Hrq. split; [|split].
  1,2: unfold publishRequest in Hrq; destruct (compressPayload _ _ _ _); [done|]; cbv zeta in Hrq;
    destruct (gs_scheme _ _); [|done]; apply authorize_inr in Hrq as (_ & _ & _ & _ & Hh); rewrite Hh by done;
    cbn [rq_header]; unfold publishHeaders, setHeaders; cbn [foldl fst snd].
  - rewrite (bool_decide_false (o_ProducerID o = "")) by done. apply lookup_insert_eq.
  - rewrite (bool_decide_false (o_ProducerID o = "")), (bool_decide_false (o_IdempotencyKey o = "")) by done.
    rewrite lookup_insert_ne by done. apply lookup_insert_eq.
  - unfold PublishRetry, Publish. rewrite !bool_decide_false by done. cbn [orb]. rewrite Hrq.
    assert (Ha : exists n, attempts = S n).
    { unfold attempts, positiveOr. destruct (Z.leb_spec (ro_MaxAttempts retry) 0); [by exists 7%nat|].
      exists (pred (Z.to_nat (ro_MaxAttempts retry))). lia. }
    destruct Ha as [n Ea]. fold attempts. fold maximum. fold backoff. rewrite Ea.
    eapply wp_mono; [apply (wp_retryLoop rq n maximum backoff); [done| |]|intros r s' (log & E & Hl); exists log; split; [exact E|by apply retriedFrom_attempts]]; unfold maximum, backoff, positiveOr, Second, Millisecond in *;
      [destruct (Z.leb_spec (ro_MaxBackoff retry) 0)|destruct (Z.leb_spec (ro_MinBackoff retry) 0)]; lia.
Qed.
End Retry.

(** ** Witnesses *)
Definition ex_std : GoStd := mkGoStd (fun _ => Some "https") (fun _ => "1s") (fun _ _ => "Basic dTpw") (fun v => v)
  (fun _ => None) (fun _ => None) (fun _ => "overloaded")
  (fun _ => inr (mkPublishResult "m1" false 1 false)) (fun _ => inr (mkBatchResult ["m1"])).
Definition ex_client : Client := mkClient "https://spruce" "token" "" "" None false.

(** A broker that is overloaded for as many exchanges as the number says; the random source draws 0. *)
#[export] Instance ex_env : Env nat := mkEnv nat
  (fun _ _ w => (inr (match w with O => mkResponse 200 "200 OK" ∅ [] | S _ => mkResponse 503 "503" ∅ [] end), pred w))
  (fun _ w => (0, w)) (fun _ w => (None, w)) (fun _ => 0).

Lemma ex_rand : rand_ok (W := nat).
Proof. intros n w Hn. cbn. lia. Qed.

Definition ex_options : PublishOptions := mkPublishOptions "k" "" "p" "i" "" "off" 0.
Definition ex_rq : Request :=
  match publishRequest ex_std ex_codec ex_codec ex_client "t" [x01] ex_options with inr rq => rq | inl _ => mkRequest "" "" "" ∅ [] end.

Lemma ex_rq_ok : publishRequest ex_std ex_codec ex_codec ex_client "t" [x01] ex_options = inr ex_rq.
Proof. vm_compute. reflexivity. Qed.

Lemma credentials_safe_witness : rq_scheme ex_rq = "https".
Proof.
  apply (credentials_safe ex_std ex_codec ex_codec ex_client ex_rq); [intros u p; done|by left|done|].
  left. exists "t", [x01], ex_options. exact ex_rq_ok.
Defined.

Definition ex_batch : list BatchEntry := [mkBatchEntry [x01; x02] "k"].
Definition ex_shared : PublishOptions := mkPublishOptions "" "" "" "" "" "" 0.

Definition ex_batchRq : Request :=
  match batchRequest ex_std ex_codec ex_codec ex_client "t" ex_batch ex_shared with inr rq => rq | inl _ => mkRequest "" "" "" ∅ [] end.

Lemma ex_batchRq_ok : batchRequest ex_std ex_codec ex_codec ex_client "t" ex_batch ex_shared = inr ex_batchRq.
Proof. vm_compute. reflexivity. Qed.

Lemma ex_batch_small : Forall (fun e => llen (be_Payload e) <= 1048576) ex_batch.
Proof. repeat constructor. vm_compute. discriminate. Qed.

Lemma batch_delivers_witness : exists l, decodeBatch true 1048576 (rq_body ex_batchRq) = inr l.
Proof.
  destruct (batch_delivers ex_std ex_codec ex_codec ex_client "t" ex_batch ex_shared ex_batchRq 1048576 1048576
    ex_codec_ok ex_codec_ok (Z.le_refl _) ex_batch_small ex_batchRq_ok) as (l & Hl & _).
  exists l. exact Hl.
Defined.

(** Two refusals, then a success. *)
Lemma publish_retry_witness :
  wp (PublishRetry ex_std ex_codec ex_codec ex_client "t" [x01] ex_options (mkRetryOptions 3 0 0)) (mkNet 2%nat [])
    (fun r s' => exists log, n_log s' = log /\ attemptsOf ex_std ex_rq 3 2000000000 50000000 log r).
Proof.
  exact (proj2 (proj2 (publish_retry ex_std ex_codec ex_codec ex_client "t" [x01] ex_options (mkRetryOptions 3 0 0) ex_rq
    (mkNet 2%nat []) ex_rand ltac:(done) ltac:(done) ltac:(done) ltac:(done) ex_rq_ok))).
Defined.
