(* ===== verification/Batcher.v ===== *)
(** * The producer's batcher

    pkg/spruce/batcher.go: publications queued by many goroutines and sent in batches by one.
    [run]'s select loop is a turn per case ([onCommand], [onTimer], [onStop]); a goroutine that
    publishes is a [reserve] and an [enqueueReserved].  [bstep] interleaves them with the contexts
    that end and the call of [Close].  The batches go out through a [BatchPublisher], which the
    client's [PublishBatchEntries] implements.  The fields [b_accepted] to [b_posts] record what
    happened: the commands queued, the values sent on the [done] and barrier channels, and the
    calls of [PublishBatchEntries] with the items they stand for. *)
From S2P Require Import Prelude Types GoIO BatchWire Compression Client.
#[local] Open Scope Z_scope.

(** What the batcher calls: it may fail, but it returns. *)
Class BatchPublisher (W : Type) := mkBatchPublisher {
  bp_post : string -> list BatchEntry -> PublishOptions -> GoM W (cerror + BatchResult);
  bp_returns : forall topic entries o w, wp (bp_post topic entries o) w (fun _ _ => True);
}.

#[export] Instance client_publisher (std : GoStd) (gzip zstd : Codec) {W : Type} `{Env W} (c : Client) : BatchPublisher (net W).
Proof.
  refine {| bp_post := PublishBatchEntries std gzip zstd c |}. intros topic entries o w.
  unfold PublishBatchEntries, send. destruct (batchRequest _ _ _ _ _ _ _); wp_steps; [done|].
  unfold wp, Client.do. by destruct (ev_do _ _ _).
Defined.

(** [type BatcherOptions struct] *)
Record BatcherOptions := mkBatcherOptions {
  bo_MaxMessages : Z;
  bo_MaxBytes : Z;
  bo_MaxDelay : Z;
  bo_QueueDepth : Z;
}.

(** The limits [NewProducerBatcher] works with. *)
Definition limits (o : BatcherOptions) : BatcherOptions :=
  mkBatcherOptions
    (let n := positiveOr 256 (bo_MaxMessages o) in if 4096 <? n then 4096 else n)
    (let n := positiveOr 1048576 (bo_MaxBytes o) in if 16777216 <? n then 16777216 else n)
    (positiveOr 250000 (bo_MaxDelay o))
    (Z.min (positiveOr 4096 (bo_QueueDepth o)) 65536).

(** [type batchPublish struct]: [bi_id] is the identity of its context and its [done] channel. *)
Record batchPublish := mkBatchPublish {
  bi_id : positive;
  bi_topic : string;
  bi_payload : list byte;
  bi_options : PublishOptions;
}.
Definition batchResult : Type := cerror + PublishResult.

(** [type batchCommand struct] *)
Inductive batchCommand :=
| Item (item : batchPublish)
| Barrier (id : positive).

(** A call of [PublishBatchEntries]: its topic, its options, the items it stands for, its answer. *)
Record post := mkPost {
  po_topic : string;
  po_options : PublishOptions;
  po_items : list batchPublish;
  po_answer : cerror + BatchResult;
}.

Record batcher (W : Type) := mkBatcher {
  b_queue : list batchCommand;
  b_slots : Z;
  b_stopped : bool;
  b_finished : bool;
  b_pending : list batchPublish;
  b_pendingBytes : Z;
  b_timer : bool;
  b_done : gmap positive error;
  b_holding : list batchCommand;
  b_world : W;
  b_accepted : list batchCommand;
  b_replies : list (positive * batchResult);
  b_barriers : list (positive * option cerror);
  b_posts : list post;
}.
Arguments mkBatcher {W}.
Arguments b_queue {W}.
Arguments b_slots {W}.
Arguments b_stopped {W}.
Arguments b_finished {W}.
Arguments b_pending {W}.
Arguments b_pendingBytes {W}.
Arguments b_timer {W}.
Arguments b_done {W}.
Arguments b_holding {W}.
Arguments b_world {W}.
Arguments b_accepted {W}.
Arguments b_replies {W}.
Arguments b_barriers {W}.
Arguments b_posts {W}.

Section Batcher.
Context {W : Type} `{BatchPublisher W} (opts : BatcherOptions).

#[export] Instance batcher_settable : Settable (batcher W) := fun r => mkBatcher (b_queue r) (b_slots r) (b_stopped r)
  (b_finished r) (b_pending r) (b_pendingBytes r) (b_timer r) (b_done r) (b_holding r) (b_world r) (b_accepted r)
  (b_replies r) (b_barriers r) (b_posts r).
#[export] Instance set_b_queue : Setter (R := batcher W) b_queue := ltac:(derive_setter).
#[export] Instance set_b_slots : Setter (R := batcher W) b_slots := ltac:(derive_setter).
#[export] Instance set_b_stopped : Setter (R := batcher W) b_stopped := ltac:(derive_setter).
#[export] Instance set_b_finished : Setter (R := batcher W) b_finished := ltac:(derive_setter).
#[export] Instance set_b_pending : Setter (R := batcher W) b_pending := ltac:(derive_setter).
#[export] Instance set_b_pendingBytes : Setter (R := batcher W) b_pendingBytes := ltac:(derive_setter).
#[export] Instance set_b_timer : Setter (R := batcher W) b_timer := ltac:(derive_setter).
#[export] Instance set_b_done : Setter (R := batcher W) b_done := ltac:(derive_setter).
#[export] Instance set_b_holding : Setter (R := batcher W) b_holding := ltac:(derive_setter).
#[export] Instance set_b_world : Setter (R := batcher W) b_world := ltac:(derive_setter).
#[export] Instance set_b_accepted : Setter (R := batcher W) b_accepted := ltac:(derive_setter).
#[export] Instance set_b_replies : Setter (R := batcher W) b_replies := ltac:(derive_setter).
#[export] Instance set_b_barriers : Setter (R := batcher W) b_barriers := ltac:(derive_setter).
#[export] Instance set_b_posts : Setter (R := batcher W) b_posts := ltac:(derive_setter).

Definition newBatcher (w : W) : batcher W := mkBatcher [] 0 false false [] 0 false ∅ [] w [] [] [] [].

(** ** Submission *)
Definition batchEntrySize (payload : list byte) (key : string) : Z := 6 + slen key + llen payload.
Definition itemSize (i : batchPublish) : Z := batchEntrySize (bi_payload i) (o_Key (bi_options i)).

(** The checks of [Publish], before it reserves a slot. *)
Definition checkPublish (topic : string) (payload : list byte) (o : PublishOptions) : option cerror :=
  if bool_decide (topic = "") then Some (errEnv "topic is required") else
  if bool_decide (bo_MaxBytes opts < batchEntrySize payload (o_Key o)) || bool_decide (1048576 < llen payload)
     || bool_decide (8192 < slen (o_Key o))
  then Some (errEnv "payload exceeds batcher limits") else
  if bool_decide (o_IdempotencyKey o <> "") || (bool_decide (o_Ack o <> "") && bool_decide (o_Ack o <> "local"))
  then Some (errEnv "option is incompatible with batch publishing") else None.

Definition ErrBatcherClosed : cerror := errEnv "spruce: producer batcher is closed".

(** The goroutine of [cmd] takes a slot; [None] while the channel is full. *)
Definition reserve (cmd : batchCommand) (b : batcher W) : option (batcher W) :=
  if b_slots b <? bo_QueueDepth opts
  then Some (b <| b_slots := b_slots b + 1 |> <| b_holding := b_holding b ++ [cmd] |>) else None.

(** The [k]-th goroutine that holds a slot queues its command, or learns that the batcher is closed. *)
Definition enqueueReserved (k : nat) (b : batcher W) : option (option cerror * batcher W) :=
  match b_holding b !! k with
  | None => None
  | Some cmd =>
    let b := b <| b_holding := delete k (b_holding b) |> in
    if b_stopped b then Some (Some ErrBatcherClosed, b <| b_slots := b_slots b - 1 |>)
    else Some (None, b <| b_queue := b_queue b ++ [cmd] |> <| b_accepted := b_accepted b ++ [cmd] |>)
  end.

(** ** The loop *)
Definition reply (i : batchPublish) (r : batchResult) : GoM (batcher W) unit :=
  gmodify (fun b => b <| b_replies := b_replies b ++ [(bi_id i, r)] |>).

Definition reset : GoM (batcher W) unit :=
  gmodify (fun b => b <| b_pending := [] |> <| b_pendingBytes := 0 |> <| b_timer := false |>).

(** [pending[i].ctx.Err() == nil]; an item whose context is done is answered. *)
Definition keepActive (i : batchPublish) : GoM (batcher W) bool :=
  b <- gget ;;
  match b_done b !! bi_id i with
  | None => gret true
  | Some e => reply i (inl (Plain e)) ;;; gret false
  end.

Fixpoint answerAll (err : option cerror) (ids : list string) (active : list batchPublish) : GoM (batcher W) unit :=
  match active with
  | [] => gret tt
  | i :: active =>
    reply i (match err with Some e => inl e | None => inr (mkPublishResult (default "" (head ids)) false 0 false) end) ;;;
    answerAll err (tail ids) active
  end.

Definition entryOf (i : batchPublish) : BatchEntry := mkBatchEntry (bi_payload i) (o_Key (bi_options i)).

(** The error of a call, the count of its identifiers included. *)
Definition postError (answer : cerror + BatchResult) (active : list batchPublish) : option cerror :=
  match answer with
  | inl e => Some e
  | inr result => if bool_decide (llen (br_IDs result) <> llen active) then Some (errEnv "spruce: invalid batch result count") else None
  end.

Definition flush : GoM (batcher W) (option cerror) :=
  b <- gget ;;
  match b_pending b with
  | [] => gret None
  | first :: _ =>
    active <- gfilter keepActive (b_pending b) ;;
    if bool_decide (active = []) then reset ;;; gret None else
    let shared := (bi_options first) <| o_Key := "" |> in
    answer <- gzoom b_world (fun w b => b <| b_world := w |>) (bp_post (bi_topic first) (entryOf <$> active) shared) ;;
    gmodify (fun b => b <| b_posts := b_posts b ++ [mkPost (bi_topic first) shared active answer] |>) ;;;
    let err := postError answer active in
    answerAll err (match answer with inl _ => [] | inr result => br_IDs result end) active ;;;
    reset ;;; gret err
  end.

Definition compatible (a c : batchPublish) : bool :=
  bool_decide (bi_topic a = bi_topic c) && bool_decide ((bi_options a) <| o_Key := "" |> = (bi_options c) <| o_Key := "" |>).

(** Whether [item] does not fit the pending batch. *)
Definition mustFlush (b : batcher W) (item : batchPublish) : bool :=
  match b_pending b with
  | [] => false
  | first :: _ => negb (compatible first item) || bool_decide (bo_MaxMessages opts <= llen (b_pending b))
                  || bool_decide (bo_MaxBytes opts < b_pendingBytes b + itemSize item)
  end.

Definition append (item : batchPublish) : GoM (batcher W) unit :=
  gmodify (fun b =>
    let b := b <| b_pending := b_pending b ++ [item] |> <| b_pendingBytes := b_pendingBytes b + itemSize item |> in
    if bool_decide (llen (b_pending b) = 1) then b <| b_timer := true |> else b).

Definition full (b : batcher W) : bool :=
  bool_decide (bo_MaxMessages opts <= llen (b_pending b)) || bool_decide (bo_MaxBytes opts <= b_pendingBytes b).

(** [case cmd := <-b.queue] *)
Definition onItem (item : batchPublish) : GoM (batcher W) unit :=
  b <- gget ;;
  match b_done b !! bi_id item with
  | Some e => reply item (inl (Plain e))
  | None =>
    gwhen (mustFlush b item) (flush ;;; gret tt) ;;;
    append item ;;;
    b <- gget ;;
    gwhen (full b) (flush ;;; gret tt)
  end.

Definition answerBarrier (id : positive) (e : option cerror) : GoM (batcher W) unit :=
  gmodify (fun b => b <| b_barriers := b_barriers b ++ [(id, e)] |>).

Definition onCommand : GoM (batcher W) unit :=
  b <- gget ;;
  match b_queue b with
  | [] => gpanic
  | cmd :: queue =>
    gput (b <| b_queue := queue |> <| b_slots := b_slots b - 1 |>) ;;;
    match cmd with
    | Barrier id => e <- flush ;; answerBarrier id e
    | Item item => onItem item
    end
  end.

(** [case <-timerC] *)
Definition onTimer : GoM (batcher W) unit := flush ;;; gret tt.

(** [case <-b.stop]: the pending batch goes out, and what is still queued is refused. *)
Definition refuse (cmd : batchCommand) : GoM (batcher W) unit :=
  gmodify (fun b => b <| b_queue := tail (b_queue b) |> <| b_slots := b_slots b - 1 |>) ;;;
  match cmd with
  | Item item => reply item (inl ErrBatcherClosed)
  | Barrier id => answerBarrier id (Some ErrBatcherClosed)
  end.

Definition onStop : GoM (batcher W) unit :=
  flush ;;;
  b <- gget ;;
  gfor (b_queue b) refuse ;;;
  gmodify (fun b => b <| b_finished := true |>).

(** ** The interleavings *)

(** What a goroutine may submit: an item [Publish] has checked, under an identity of its own. *)
Definition submits (cmd : batchCommand) : Prop :=
  match cmd with
  | Item i => checkPublish (bi_topic i) (bi_payload i) (bi_options i) = None
  | Barrier _ => True
  end.
Definition idOfCommand (cmd : batchCommand) : positive := match cmd with Item i => bi_id i | Barrier id => id end.

Inductive bstep (b b' : batcher W) : Prop :=
| bs_reserve cmd : submits cmd -> (forall c, c ∈ b_accepted b \/ c ∈ b_holding b -> idOfCommand c <> idOfCommand cmd) ->
    reserve cmd b = Some b' -> bstep b b'
| bs_enqueue k e : enqueueReserved k b = Some (e, b') -> bstep b b'
| bs_cancel id e : b_done b !! id = None -> b' = b <| b_done := <[id := e]> (b_done b) |> -> bstep b b'
| bs_close : b' = b <| b_stopped := true |> -> bstep b b'
| bs_command : b_finished b = false -> b_queue b <> [] -> onCommand b = Some (tt, b') -> bstep b b'
| bs_timer : b_finished b = false -> b_timer b = true -> onTimer b = Some (tt, b') -> bstep b b'
| bs_stop : b_finished b = false -> b_stopped b = true -> onStop b = Some (tt, b') -> bstep b b'.

Inductive breach (w : W) : batcher W -> Prop :=
| br_new : breach w (newBatcher w)
| br_step b b' : breach w b -> bstep b b' -> breach w b'.
End Batcher.
