(* ===== verification/BatcherInv.v ===== *)
(** * The batcher's invariant

    What every interleaving of the producer's batcher keeps ([binv]): each queued command is in
    exactly one place, the pending batch is homogeneous and within its limits, its timer is armed
    exactly while it waits, and each answer has its reason.  The theorems follow from it: every
    command is answered exactly once, the batches are within their limits and keep the order of
    the queue, and a flush answers everything queued before it. *)
From S2P Require Import Prelude Types GoIO BatchWire Compression Client Batcher.
#[local] Open Scope Z_scope.

Definition itemsOf (cmds : list batchCommand) : list batchPublish :=
  omap (fun c => match c with Item i => Some i | Barrier _ => None end) cmds.
Definition barriersOf (cmds : list batchCommand) : list positive :=
  omap (fun c => match c with Item _ => None | Barrier id => Some id end) cmds.

Lemma itemsOf_app l k : itemsOf (l ++ k) = itemsOf l ++ itemsOf k.
Proof. apply omap_app. Qed.
Lemma barriersOf_app l k : barriersOf (l ++ k) = barriersOf l ++ barriersOf k.
Proof. apply omap_app. Qed.

(** The options a batch shares. *)
Definition shared (i : batchPublish) : PublishOptions := (bi_options i) <| o_Key := "" |>.

(** What [PublishBatchEntries] answered, item by item. *)
Definition answerOf (p : post) (k : nat) : batchResult :=
  match postError (po_answer p) (po_items p) with
  | Some e => inl e
  | None => inr (mkPublishResult (default "" (match po_answer p with inr r => br_IDs r !! k | inl _ => None end)) false 0 false)
  end.

(** ** One flush *)
Section Flush.
Context {W : Type} `{BatchPublisher W}.
Implicit Types b : batcher W.

Definition live (done : gmap positive error) : list batchPublish -> list batchPublish :=
  filter (fun i => done !! bi_id i = None).
Definition dead (done : gmap positive error) (l : list batchPublish) : list (positive * batchResult) :=
  omap (fun i => (fun e => (bi_id i, inl (Plain e))) <$> done !! bi_id i) l.

Lemma live_dead done l : (dead done l).*1 ++ (bi_id <$> live done l) ≡ₚ bi_id <$> l.
Proof.
  induction l as [|i l IH]; [done|]. unfold dead, live in *. rewrite filter_cons. cbn [omap list_omap].
  destruct (done !! bi_id i) as [e|] eqn:E.
  - rewrite decide_False by done. cbn. by rewrite IH.
  - rewrite decide_True by done. cbn. rewrite <- Permutation_middle. by rewrite IH.
Qed.

Lemma wp_keep l b :
  wp (gfilter keepActive l) b (fun out b' =>
    out = live (b_done b) l /\ b' = b <| b_replies := b_replies b ++ dead (b_done b) l |>).
Proof.
  revert b. induction l as [|i l IH]; intros b; cbn [gfilter].
  - apply wp_ret. split; [done|]. cbn. rewrite app_nil_r. by destruct b.
  - apply wp_bind. unfold keepActive. wp_steps. unfold live, dead. rewrite filter_cons. cbn [omap list_omap].
    destruct (b_done b !! bi_id i) as [e|] eqn:E.
    + unfold reply. wp_steps. eapply wp_mono; [apply IH|]. intros out b' [-> ->]. apply wp_ret.
      rewrite decide_False by done. split; [done|]. cbn. by rewrite <- app_assoc.
    + wp_steps. eapply wp_mono; [apply IH|]. intros out b' [-> ->]. apply wp_ret.
      rewrite decide_True by done. done.
Qed.

Fixpoint answers (err : option cerror) (ids : list string) (active : list batchPublish) : list (positive * batchResult) :=
  match active with
  | [] => []
  | i :: active =>
    (bi_id i, match err with Some e => inl e | None => inr (mkPublishResult (default "" (head ids)) false 0 false) end)
    :: answers err (tail ids) active
  end.

Lemma answers_fst err ids active : (answers err ids active).*1 = bi_id <$> active.
Proof. revert ids. induction active as [|i l IH]; intros ids; cbn; [done|]. by rewrite IH. Qed.

Lemma answers_lookup err ids active k x : answers err ids active !! k = Some x ->
  exists i, active !! k = Some i /\
    x = (bi_id i, match err with Some e => inl e | None => inr (mkPublishResult (default "" (ids !! k)) false 0 false) end).
Proof.
  revert ids k. induction active as [|i l IH]; intros ids [|k]; cbn; try done.
  - intros [= <-]. exists i. split; [done|]. by destruct ids.
  - intros (j & Hj & ->)%IH. exists j. split; [done|]. by destruct ids.
Qed.

Lemma wp_answerAll err ids active b :
  wp (answerAll err ids active) b (fun _ b' => b' = b <| b_replies := b_replies b ++ answers err ids active |>).
Proof.
  revert ids b. induction active as [|i l IH]; intros ids b; cbn [answerAll answers].
  - apply wp_ret. rewrite app_nil_r. by destruct b.
  - unfold reply. wp_steps. eapply wp_mono; [apply IH|]. intros _ b' ->. cbn. by rewrite <- app_assoc.
Qed.

(** What a flush leaves alone. *)
Definition rest b := (b_queue b, b_slots b, b_stopped b, b_finished b, b_done b, b_holding b, b_accepted b, b_barriers b).

(** The post of a flush: the items whose context is alive, under the first item's topic and options. *)
Definition postOf b (p : post) : Prop :=
  exists first, head (b_pending b) = Some first /\ po_topic p = bi_topic first /\ po_options p = shared first /\
    po_items p = live (b_done b) (b_pending b) /\ po_items p <> [].

(** Why an item got an answer. *)
Definition justified (done : gmap positive error) (closed : bool) (posts : list post) (x : positive * batchResult) : Prop :=
  (exists e, done !! x.1 = Some e /\ x.2 = inl (Plain e)) \/
  (exists p k i, p ∈ posts /\ po_items p !! k = Some i /\ bi_id i = x.1 /\ x.2 = answerOf p k) \/
  (closed = true /\ x.2 = inl ErrBatcherClosed).

Record flushed b b' : Prop := {
  fl_rest : rest b' = rest b;
  fl_empty : b_pending b' = [];
  fl_bytes : b_pendingBytes b' = 0;
  fl_timer : b_timer b' = false;
  fl_replies : exists R, b_replies b' = b_replies b ++ R /\ R.*1 ≡ₚ bi_id <$> b_pending b /\
    Forall (justified (b_done b) false (b_posts b')) R;
  fl_posts : b_posts b' = b_posts b \/ exists p, b_posts b' = b_posts b ++ [p] /\ postOf b p;
}.

Lemma dead_justified done closed posts l : Forall (justified done closed posts) (dead done l).
Proof.
  apply Forall_forall. intros x (i & _ & Hx)%list_elem_of_omap.
  destruct (done !! bi_id i) as [e|] eqn:E; [|done]. injection Hx as <-. left. by exists e.
Qed.

Lemma answers_justified done closed posts p ids : p ∈ posts ->
  ids = match po_answer p with inl _ => [] | inr r => br_IDs r end ->
  Forall (justified done closed posts) (answers (postError (po_answer p) (po_items p)) ids (po_items p)).
Proof.
  intros Hp ->. apply Forall_forall. intros x (k & (i & Hi & ->)%answers_lookup)%list_elem_of_lookup. right. left.
  exists p, k, i. split_and!; [done..|]. unfold answerOf. cbn [snd].
  destruct (postError (po_answer p) (po_items p)) eqn:E; [done|]. by destruct (po_answer p).
Qed.

Lemma wp_flush b : (b_pending b = [] -> b_pendingBytes b = 0 /\ b_timer b = false) ->
  wp flush b (fun _ b' => flushed b b').
Proof.
  intros Hidle. unfold flush. wp_steps. destruct (b_pending b) as [|first l] eqn:Ep.
  - apply wp_ret. destruct (Hidle eq_refl) as [Hb Ht]. split; try done; [|by left].
    exists []. rewrite app_nil_r, Ep. by split_and!.
  - apply wp_bind. rewrite <- Ep. eapply wp_mono; [apply wp_keep|]. intros active b1 [-> ->].
    pose proof (live_dead (b_done b) (b_pending b)) as Hld.
    destruct (bool_decide_reflect (live (b_done b) (b_pending b) = [])) as [Hnone|Hsome].
    + unfold reset. wp_steps. split; cbn; try done; [|by left].
      exists (dead (b_done b) (b_pending b)). split; [done|]. split; [|apply dead_justified].
      rewrite Hnone in Hld. cbn in Hld. by rewrite app_nil_r in Hld.
    + wp_steps. apply wp_zoom. eapply wp_mono; [apply bp_returns|]. intros answer w _. wp_steps.
      eapply wp_mono; [apply wp_answerAll|]. intros _ b2 ->. unfold reset. wp_steps.
      set (p := mkPost (bi_topic first) (shared first) (live (b_done b) (b_pending b)) answer).
      split; cbn; try done.
      * eexists. split; [by rewrite <- app_assoc|]. split.
        -- by rewrite fmap_app, answers_fst.
        -- apply Forall_app. split; [apply dead_justified|].
           apply (answers_justified _ _ _ p); [|done]. rewrite elem_of_app, list_elem_of_singleton. by right.
      * right. exists p. split; [done|]. exists first. split_and!; try done. by rewrite Ep.
Qed.
End Flush.

(** ** The invariant *)
Section Invariant.
Context {W : Type} `{BatchPublisher W} (opts : BatcherOptions).
Implicit Types b : batcher W.

(** A batch that may go out: one topic, one set of options, no key of its own, within the limits. *)
Record post_ok (p : post) : Prop := {
  pk_some : po_items p <> [];
  pk_count : llen (po_items p) <= bo_MaxMessages opts;
  pk_bytes : zsum (itemSize <$> po_items p) <= bo_MaxBytes opts;
  pk_same : Forall (fun i => bi_topic i = po_topic p /\ shared i = po_options p) (po_items p);
}.

(** [taken] are the commands that were taken off the queue and dealt with; [hand] are those that
    were taken and are not dealt with yet. *)
Record bcore (hand : list batchCommand) (taken : list batchCommand) b : Prop := {
  bc_accepted : b_accepted b = taken ++ hand ++ b_queue b;
  bc_items : bi_id <$> itemsOf taken ≡ₚ (b_replies b).*1 ++ (bi_id <$> b_pending b);
  bc_barriers : (b_barriers b).*1 = barriersOf taken;
  bc_order : concat (po_items <$> b_posts b) ++ b_pending b `sublist_of` itemsOf taken;
  bc_bytes : b_pendingBytes b = zsum (itemSize <$> b_pending b);
  bc_timer : b_timer b = bool_decide (b_pending b <> []);
  bc_same : forall i j, i ∈ b_pending b -> j ∈ b_pending b -> bi_topic i = bi_topic j /\ shared i = shared j;
  bc_count : llen (b_pending b) <= bo_MaxMessages opts;
  bc_room : b_pendingBytes b <= bo_MaxBytes opts;
  bc_slots : b_slots b = llen (b_queue b) + llen (b_holding b);
  bc_depth : b_slots b <= bo_QueueDepth opts;
  bc_ids : NoDup (idOfCommand <$> b_accepted b ++ b_holding b);
  bc_checked : Forall (submits opts) (b_accepted b ++ b_holding b);
  bc_posts : Forall post_ok (b_posts b);
  bc_replies : Forall (justified (b_done b) (b_stopped b) (b_posts b)) (b_replies b);
  bc_flushed : forall pre post id, taken = pre ++ Barrier id :: post -> bi_id <$> itemsOf pre ⊆ (b_replies b).*1;
}.

(** Between two turns. *)
Record binv b : Prop := {
  bv_core : exists taken, bcore [] taken b;
  bv_room : b_pending b = [] \/ llen (b_pending b) < bo_MaxMessages opts /\ b_pendingBytes b < bo_MaxBytes opts;
  bv_finished : b_finished b = true -> b_queue b = [] /\ b_pending b = [] /\ b_stopped b = true;
}.

Lemma itemSize_nonneg i : 0 <= itemSize i.
Proof. unfold itemSize, batchEntrySize. pose proof (slen_nonneg (o_Key (bi_options i))). pose proof (llen_nonneg (bi_payload i)). lia. Qed.

Lemma zsum_sublist (l k : list batchPublish) : l `sublist_of` k -> zsum (itemSize <$> l) <= zsum (itemSize <$> k).
Proof.
  induction 1 as [|x l k _ IH|x l k _ IH]; cbn [fmap list_fmap]; [done|rewrite !zsum_cons; lia|].
  rewrite zsum_cons. pose proof (itemSize_nonneg x). lia.
Qed.

Lemma live_sublist done l : live done l `sublist_of` l.
Proof. induction l as [|i l IH]; [done|]. unfold live in *. rewrite filter_cons. case_decide; by constructor. Qed.

Lemma sublist_llen {A} (l k : list A) : l `sublist_of` k -> llen l <= llen k.
Proof. intros Hs%sublist_length. unfold llen. lia. Qed.

Lemma justified_mono done done' closed closed' posts posts' x :
  done ⊆ done' -> (closed = true -> closed' = true) -> posts ⊆ posts' ->
  justified done closed posts x -> justified done' closed' posts' x.
Proof.
  intros Hd Hc Hp [(e & He & Hx)|[(p & k & i & Hin & Hi & Hx)|(Hcl & Hx)]].
  - left. exists e. split; [by eapply lookup_weaken|done].
  - right. left. exists p, k, i. split; [by apply Hp|done].
  - right. right. auto.
Qed.

Lemma postOf_ok hand taken b p : bcore hand taken b -> postOf b p -> post_ok p.
Proof.
  intros I (first & Hf & Ht & Ho & Hi & Hne).
  assert (Hs := live_sublist (b_done b) (b_pending b)).
  assert (Hin : first ∈ b_pending b). { destruct (b_pending b); [done|]. injection Hf as ->. left. }
  split; [done| | |].
  - rewrite Hi. pose proof (sublist_llen _ _ Hs). pose proof (bc_count _ _ _ I). lia.
  - rewrite Hi. pose proof (zsum_sublist _ _ Hs). pose proof (bc_room _ _ _ I). rewrite (bc_bytes _ _ _ I) in *. lia.
  - rewrite Hi. apply Forall_forall. intros i Hi'. rewrite Ht, Ho. apply (bc_same _ _ _ I); [|done].
    eapply sublist_subseteq; [|done]. done.
Qed.

(** A flush keeps the invariant and empties the batch. *)
Lemma bcore_flushed hand taken b b' : 0 <= bo_MaxMessages opts -> 0 <= bo_MaxBytes opts ->
  bcore hand taken b -> flushed b b' -> bcore hand taken b'.
Proof.
  intros Hm Hb I [Hr He Hby Ht (R & HR & HRp & HRj) Hp]. unfold rest in Hr.
  injection Hr as Eq Es Est _ Ed Eh Ea Eb.
  assert (Hsub : b_posts b ⊆ b_posts b'). { destruct Hp as [->|(p & -> & _)]; set_solver. }
  split; rewrite ?Eq, ?Es, ?Est, ?Ed, ?Eh, ?Ea, ?Eb, ?He, ?Hby, ?Ht; try apply I; try done.
  - rewrite HR, fmap_app. cbn. rewrite app_nil_r, HRp. apply I.
  - rewrite app_nil_r. etrans; [|apply I]. destruct Hp as [->|(p & -> & Hpo)].
    + by apply sublist_inserts_r.
    + rewrite fmap_app, concat_app. cbn. rewrite app_nil_r. apply sublist_app; [done|].
      destruct Hpo as (_ & _ & _ & _ & -> & _). apply live_sublist.
  - intros i j Hi. by apply elem_of_nil in Hi.
  - destruct Hp as [->|(p & -> & Hpo)]; [apply I|]. apply Forall_app. split; [apply I|].
    constructor; [|done]. by eapply postOf_ok.
  - rewrite HR. apply Forall_app. split.
    + eapply Forall_impl; [apply (bc_replies _ _ _ I)|]. intros x. by apply justified_mono.
    + eapply Forall_impl; [apply HRj|]. intros x. by apply justified_mono.
  - intros pre post id E. rewrite HR, fmap_app. pose proof (bc_flushed _ _ _ I _ _ _ E). set_solver.
Qed.

(** The command in hand is dealt with. *)
Lemma bcore_take taken cmd queue b : bcore [] taken b -> b_queue b = cmd :: queue ->
  bcore [cmd] taken (b <| b_queue := queue |> <| b_slots := b_slots b - 1 |>).
Proof.
  intros I Eq. split; cbn; try apply I.
  - rewrite (bc_accepted _ _ _ I), Eq. done.
  - rewrite (bc_slots _ _ _ I), Eq, llen_cons. lia.
  - pose proof (bc_depth _ _ _ I). lia.
Qed.

Lemma flushed_snoc taken cmd (replies : list positive) :
  (forall pre post id, taken = pre ++ Barrier id :: post -> bi_id <$> itemsOf pre ⊆ replies) ->
  (forall id, cmd = Barrier id -> bi_id <$> itemsOf taken ⊆ replies) ->
  forall pre post id, taken ++ [cmd] = pre ++ Barrier id :: post -> bi_id <$> itemsOf pre ⊆ replies.
Proof.
  intros Hold Hnew pre post id E. destruct post as [|c post _] using rev_ind.
  - apply app_inj_tail in E as [<- ->]. by eapply Hnew.
  - rewrite app_comm_cons, app_assoc in E. apply app_inj_tail in E as [E _]. by eapply Hold.
Qed.

Lemma bcore_answered taken i x b : bcore [Item i] taken b -> x.1 = bi_id i ->
  justified (b_done b) (b_stopped b) (b_posts b) x ->
  bcore [] (taken ++ [Item i]) (b <| b_replies := b_replies b ++ [x] |>).
Proof.
  intros I Hx Hj. split; cbn; try apply I.
  - rewrite (bc_accepted _ _ _ I), <- app_assoc. done.
  - rewrite itemsOf_app, !fmap_app. cbn. rewrite Hx, (bc_items _ _ _ I), <- !app_assoc.
    apply Permutation_app_head, Permutation_app_comm.
  - rewrite barriersOf_app. cbn. rewrite app_nil_r. apply I.
  - rewrite itemsOf_app. cbn. apply sublist_inserts_r, I.
  - apply Forall_app. split; [apply I|]. by constructor.
  - apply flushed_snoc; [|done]. intros pre post id E. rewrite fmap_app. pose proof (bc_flushed _ _ _ I _ _ _ E). set_solver.
Qed.

Lemma bcore_barrier taken id e b : bcore [Barrier id] taken b -> b_pending b = [] ->
  bcore [] (taken ++ [Barrier id]) (b <| b_barriers := b_barriers b ++ [(id, e)] |>).
Proof.
  intros I Hp. split; cbn; try apply I.
  - rewrite (bc_accepted _ _ _ I), <- app_assoc. done.
  - rewrite itemsOf_app. cbn. rewrite app_nil_r. apply I.
  - rewrite barriersOf_app, fmap_app, (bc_barriers _ _ _ I). done.
  - rewrite itemsOf_app. cbn. rewrite app_nil_r. apply I.
  - apply flushed_snoc; [apply I|]. intros _ _. pose proof (bc_items _ _ _ I) as Hi. rewrite Hp in Hi. cbn in Hi.
    rewrite app_nil_r in Hi. by rewrite Hi.
Qed.

Definition appended (i : batchPublish) b : batcher W :=
  let b := b <| b_pending := b_pending b ++ [i] |> <| b_pendingBytes := b_pendingBytes b + itemSize i |> in
  if bool_decide (llen (b_pending b) = 1) then b <| b_timer := true |> else b.

Lemma appended_pending i b : b_pending (appended i b) = b_pending b ++ [i].
Proof. unfold appended. by destruct (bool_decide _). Qed.

Lemma mustFlush_fits i b : 1 <= bo_MaxMessages opts -> submits opts (Item i) -> mustFlush opts b i = false ->
  (b_pending b = [] -> b_pendingBytes b = 0) ->
  llen (b_pending b) < bo_MaxMessages opts /\ b_pendingBytes b + itemSize i <= bo_MaxBytes opts /\
  (forall first, head (b_pending b) = Some first -> bi_topic first = bi_topic i /\ shared first = shared i).
Proof.
  intros Hm Hs. unfold mustFlush, compatible. destruct (b_pending b) as [|first l].
  - intros _ Hb. rewrite Hb by done. cbn in Hs. unfold checkPublish in Hs. destruct (bool_decide (bi_topic i = "")); [done|].
    destruct (bool_decide_reflect (bo_MaxBytes opts < batchEntrySize (bi_payload i) (o_Key (bi_options i)))); [done|].
    change (llen []) with 0. unfold itemSize. split_and!; [lia|lia|done].
  - intros Hf _. apply orb_false_iff in Hf as [[Hf Hc%bool_decide_eq_false]%orb_false_iff Hb%bool_decide_eq_false].
    apply negb_false_iff, andb_true_iff in Hf as [Ht%bool_decide_eq_true Ho%bool_decide_eq_true].
    split_and!; [lia|lia|]. intros f [= <-]. done.
Qed.

Lemma bcore_appended taken i b : 1 <= bo_MaxMessages opts -> bcore [Item i] taken b -> mustFlush opts b i = false ->
  bcore [] (taken ++ [Item i]) (appended i b).
Proof.
  intros Hm I Hf.
  assert (Hs : submits opts (Item i)).
  { pose proof (bc_checked _ _ _ I) as Hc. rewrite (bc_accepted _ _ _ I) in Hc. rewrite Forall_forall in Hc. apply Hc. set_solver. }
  destruct (mustFlush_fits i b Hm Hs Hf) as (Hc & Hb & Hh).
  { intros E. rewrite (bc_bytes _ _ _ I), E. done. }
  assert (Hall : forall j, j ∈ b_pending b -> bi_topic j = bi_topic i /\ shared j = shared i).
  { intros j Hj. destruct (b_pending b) as [|first l] eqn:Ep; [by apply elem_of_nil in Hj|].
    destruct (Hh first eq_refl) as [<- <-]. apply (bc_same _ _ _ I); rewrite Ep; [done|left]. }
  set (b1 := b <| b_pending := b_pending b ++ [i] |> <| b_pendingBytes := b_pendingBytes b + itemSize i |> <| b_timer := true |>).
  assert (E : appended i b = b1).
  { unfold appended, b1. cbn. rewrite llen_app. destruct (bool_decide_reflect (llen (b_pending b) + llen [i] = 1)) as [|Hne]; [done|].
    assert (b_timer b = true) as <-; [|done]. rewrite (bc_timer _ _ _ I), bool_decide_true; [done|]. intros Hn. rewrite Hn in Hne. by apply Hne. }
  rewrite E. split; cbn; try apply I.
  - rewrite (bc_accepted _ _ _ I), <- app_assoc. done.
  - rewrite itemsOf_app, !fmap_app. cbn. by rewrite (bc_items _ _ _ I), <- app_assoc.
  - rewrite barriersOf_app. cbn. rewrite app_nil_r. apply I.
  - rewrite itemsOf_app. cbn. rewrite app_assoc. apply sublist_app; [apply I|done].
  - rewrite fmap_app, zsum_app, (bc_bytes _ _ _ I). cbn [fmap list_fmap]. rewrite zsum_cons. change (zsum []) with 0. lia.
  - rewrite bool_decide_true by (intros Hn; by apply app_nil in Hn as [_ Hn]). done.
  - intros j k [Hj| ->%list_elem_of_singleton]%elem_of_app [Hk| ->%list_elem_of_singleton]%elem_of_app;
      [by apply (bc_same _ _ _ I)|by apply Hall| |done]. destruct (Hall _ Hk). done.
  - rewrite llen_app, llen_cons. change (llen []) with 0. lia.
  - lia.
  - apply flushed_snoc; [apply I|done].
Qed.

(** ** The turns *)
Context (Hmessages : 1 <= bo_MaxMessages opts) (Hbytes : 1 <= bo_MaxBytes opts).

Definition room b : Prop := b_pending b = [] \/ llen (b_pending b) < bo_MaxMessages opts /\ b_pendingBytes b < bo_MaxBytes opts.
Definition settled b b' : Prop := b_finished b' = b_finished b /\ b_queue b' = b_queue b /\ b_stopped b' = b_stopped b.

Lemma flushed_settled b b' : flushed b b' -> settled b b'.
Proof. intros [Hr _ _ _ _ _]. unfold rest in Hr. injection Hr as Eq _ Est Ef _ _ _ _. by split_and!. Qed.

Lemma wp_flush_core hand taken b : bcore hand taken b ->
  wp flush b (fun _ b' => bcore hand taken b' /\ b_pending b' = [] /\ settled b b').
Proof.
  intros I. eapply wp_mono.
  - apply wp_flush. intros Hp. rewrite (bc_bytes _ _ _ I), (bc_timer _ _ _ I), Hp. done.
  - intros e b' Hf. split; [apply (bcore_flushed hand taken b); [lia|lia|done..]|]. split; [apply Hf|]. by apply flushed_settled.
Qed.

Lemma wp_maybeFlush (c : bool) hand taken b : bcore hand taken b ->
  wp (gwhen c (flush ;;; gret tt)) b (fun _ b' => bcore hand taken b' /\ settled b b' /\
    if c then b_pending b' = [] else b' = b).
Proof.
  intros I. apply wp_when; intros ->.
  - apply wp_bind. eapply wp_mono; [by apply wp_flush_core|]. intros _ b' (I' & Hp & Hs). by apply wp_ret.
  - by split_and!.
Qed.

Lemma wp_appendItem i b : wp (append i) b (fun _ b' => b' = appended i b).
Proof. done. Qed.

Lemma wp_onItem taken i b : bcore [Item i] taken b -> room b ->
  wp (onItem opts i) b (fun _ b' => (exists taken, bcore [] taken b') /\ room b' /\ settled b b').
Proof.
  intros I Hr. unfold onItem. wp_steps. destruct (b_done b !! bi_id i) as [e|] eqn:Ed.
  - unfold reply. wp_steps. split_and!; try done. exists (taken ++ [Item i]). apply (bcore_answered taken i); [done..|]. left. by exists e.
  - apply wp_bind. eapply wp_mono; [by apply (wp_maybeFlush _ [Item i] taken)|]. intros _ b1 (I1 & Hs1 & Hc).
    assert (Hf : mustFlush opts b1 i = false).
    { destruct (mustFlush opts b i) eqn:E; [|by rewrite Hc]. unfold mustFlush. by rewrite Hc. }
    pose proof (bcore_appended _ _ _ Hmessages I1 Hf) as I2.
    assert (Hs2 : settled b (appended i b1)).
    { unfold settled, appended. destruct Hs1 as (<- & <- & <-). by destruct (bool_decide _). }
    apply wp_bind. eapply wp_mono; [apply wp_appendItem|]. intros _ b2 ->. wp_steps.
    eapply wp_mono; [by apply (wp_maybeFlush _ [] (taken ++ [Item i]))|]. intros _ b3 (I3 & Hs3 & Hc3). split; [eauto|]. split.
    + destruct (full opts (appended i b1)) eqn:E; [by left|]. right. rewrite Hc3. unfold full in E.
      apply orb_false_iff in E as [E1%bool_decide_eq_false E2%bool_decide_eq_false]. lia.
    + unfold settled. by destruct Hs2 as (<- & <- & <-).
Qed.

Lemma wp_onCommand b : binv b -> b_queue b <> [] -> b_finished b = false ->
  wp (onCommand opts) b (fun _ b' => binv b').
Proof.
  intros [[taken I] Hr _] Hq Hf. unfold onCommand. wp_steps. destruct (b_queue b) as [|cmd queue] eqn:Eq; [done|]. wp_steps.
  pose proof (bcore_take _ _ _ _ I Eq) as I1. destruct cmd as [i|id].
  - eapply wp_mono; [by eapply wp_onItem|]. intros _ b' (I' & Hr' & Hs & _). split; [done..|].
    cbn in Hs. rewrite Hs, Hf. done.
  - apply wp_bind. eapply wp_mono; [by eapply wp_flush_core|]. intros e b1 (I' & Hp & Hs & _). unfold answerBarrier. wp_steps.
    split; cbn; [|by left|cbn in Hs; rewrite Hs, Hf; done]. exists (taken ++ [Barrier id]). by apply (bcore_barrier taken id).
Qed.

Lemma wp_onTimer b : binv b -> b_finished b = false -> wp onTimer b (fun _ b' => binv b').
Proof.
  intros [[taken I] _ _] Hf. unfold onTimer. apply wp_bind. eapply wp_mono; [by eapply wp_flush_core|].
  intros _ b' (I' & Hp & Hs & _). apply wp_ret. split; [eauto|by left|]. rewrite Hs, Hf. done.
Qed.

Lemma wp_refuseAll cmd queue b : (exists taken, bcore [] taken b) -> b_queue b = cmd :: queue -> b_pending b = [] -> b_stopped b = true ->
  wp (refuse cmd) b (fun _ b' => (exists taken, bcore [] taken b') /\ b_queue b' = queue /\ b_pending b' = [] /\ b_stopped b' = true).
Proof.
  intros [taken I] Eq Hp Hst. unfold refuse. wp_steps. rewrite Eq. cbn [tail].
  pose proof (bcore_take _ _ _ _ I Eq) as I1. destruct cmd as [i|id].
  - unfold reply. wp_steps. split_and!; [|done..]. exists (taken ++ [Item i]). apply (bcore_answered taken i _ _ I1); [done|].
    right. right. done.
  - unfold answerBarrier. wp_steps. split_and!; [|done..]. exists (taken ++ [Barrier id]). by apply (bcore_barrier taken id _ _ I1).
Qed.

Lemma wp_onStop b : binv b -> b_stopped b = true -> wp onStop b (fun _ b' => binv b' /\ b_finished b' = true).
Proof.
  intros [[taken I] _ _] Hst. unfold onStop. apply wp_bind. eapply wp_mono; [by eapply wp_flush_core|].
  intros _ b1 (I1 & Hp & _ & Hq & Hs). wp_steps.
  apply (wp_for (fun l b => (exists taken, bcore [] taken b) /\ b_queue b = l /\ b_pending b = [] /\ b_stopped b = true)).
  - split_and!; [eauto|done..|by rewrite Hs].
  - intros cmd l b2 (I2 & Hq2 & Hp2 & Hs2). by apply wp_refuseAll.
  - intros b2 ([taken2 I2] & Hq2 & Hp2 & Hs2). wp_steps. split; [|done]. split; cbn; [|by left|done].
    exists taken2. split; apply I2.
Qed.

(** ** Every interleaving *)
Lemma binv_new (w : W) : 0 <= bo_QueueDepth opts -> binv (newBatcher w).
Proof.
  intros Hd. split; [|by left|done]. exists []. split; cbn; try done; try constructor; try lia.
  all: change (llen []) with 0; try lia.
  1,2: by destruct (not_elem_of_nil i).
  intros pre post id E. by destruct pre.
Qed.

Lemma bcore_fields hand taken b b' : bcore hand taken b ->
  b_accepted b' = b_accepted b -> b_replies b' = b_replies b -> b_pending b' = b_pending b -> b_barriers b' = b_barriers b ->
  b_posts b' = b_posts b -> b_pendingBytes b' = b_pendingBytes b -> b_timer b' = b_timer b ->
  b_queue b' = b_queue b -> b_slots b' = llen (b_queue b') + llen (b_holding b') -> b_slots b' <= bo_QueueDepth opts ->
  NoDup (idOfCommand <$> b_accepted b' ++ b_holding b') -> Forall (submits opts) (b_accepted b' ++ b_holding b') ->
  b_done b ⊆ b_done b' -> (b_stopped b = true -> b_stopped b' = true) -> bcore hand taken b'.
Proof.
  intros I Ea Er Ep Eb Epo Ey Et Eq Hs Hd Hn Hc Hdone Hstop.
  split; try done; rewrite ?Ea, ?Er, ?Ep, ?Eb, ?Epo, ?Ey, ?Et, ?Eq; try apply I.
  eapply Forall_impl; [apply (bc_replies _ _ _ I)|]. intros x. by apply justified_mono.
Qed.

Lemma binv_step b b' : binv b -> bstep opts b b' -> binv b'.
Proof.
  intros I Hstep. destruct Hstep as [cmd Hsub Hfresh E|k e E|id e Hnone E|E|Hf Hq E|Hf Ht E|Hf Hs E].
  - unfold reserve in E. destruct (Z.ltb_spec (b_slots b) (bo_QueueDepth opts)) as [Hlt|]; [|done]. injection E as <-.
    destruct I as [[taken I] Hr Hfin]. split; [|done..]. exists taken. apply (bcore_fields _ _ b); cbn; try done.
    + rewrite llen_app, llen_cons, (bc_slots _ _ _ I). change (llen []) with 0. lia.
    + lia.
    + rewrite app_assoc, fmap_app. apply NoDup_app. split_and!; [apply I| |apply NoDup_singleton].
      intros x (c & -> & Hc)%list_elem_of_fmap Hx. cbn in Hx. apply list_elem_of_singleton in Hx.
      apply (Hfresh c); [by apply elem_of_app|done].
    + rewrite app_assoc. apply Forall_app. split; [apply I|by constructor].
  - unfold enqueueReserved in E. destruct (b_holding b !! k) as [cmd|] eqn:Ek; [|done].
    destruct I as [[taken I] Hr Hfin]. pose proof (delete_Permutation _ _ _ Ek) as Hperm.
    assert (Hlen : llen (b_holding b) = 1 + llen (delete k (b_holding b))).
    { pose proof (Permutation_length Hperm) as Hl. unfold llen. cbn in Hl. lia. }
    pose proof (bc_slots _ _ _ I) as Hsl. pose proof (bc_depth _ _ _ I) as Hdp.
    pose proof (bc_ids _ _ _ I) as Hids. pose proof (bc_checked _ _ _ I) as Hck. rewrite Hperm in Hids, Hck.
    cbn in E. destruct (b_stopped b) eqn:Est; injection E as <- <-; (split; [|done|]).
    + exists taken. apply (bcore_fields _ _ b); cbn; try done; try lia.
      * rewrite <- Permutation_middle in Hids. cbn in Hids. by apply NoDup_cons in Hids as [_ Hids].
      * rewrite <- Permutation_middle in Hck. by apply Forall_cons in Hck as [_ Hck].
    + cbn. intros Hfi. destruct (Hfin Hfi) as (? & ? & _). done.
    + exists taken. cbn. split; cbn; try apply I.
      * rewrite (bc_accepted _ _ _ I), <- app_assoc. done.
      * rewrite llen_app, llen_cons. change (llen []) with 0. lia.
      * by rewrite <- app_assoc.
      * by rewrite <- app_assoc.
    + cbn. intros Hfi. destruct (Hfin Hfi) as (_ & _ & Hst). congruence.
  - subst b'. destruct I as [[taken I] Hr Hfin]. split; [|done..]. exists taken.
    apply (bcore_fields _ _ b); cbn; try done; try apply I. by apply insert_subseteq.
  - subst b'. destruct I as [[taken I] Hr Hfin]. split; [|done|].
    + exists taken. apply (bcore_fields _ _ b); cbn; try done; apply I.
    + cbn. intros Hfi. by destruct (Hfin Hfi) as (? & ? & _).
  - pose proof (wp_onCommand b I Hq Hf) as Hw. unfold wp in Hw. by rewrite E in Hw.
  - pose proof (wp_onTimer b I Hf) as Hw. unfold wp in Hw. by rewrite E in Hw.
  - pose proof (wp_onStop b I Hs) as Hw. unfold wp in Hw. rewrite E in Hw. apply Hw.
Qed.

Lemma breach_binv (w : W) b : 0 <= bo_QueueDepth opts -> breach opts w b -> binv b.
Proof. intros Hd. induction 1; [by apply binv_new|by eapply binv_step]. Qed.
End Invariant.

(** ** What the batcher promises *)
Lemma limits_bounds o : 1 <= bo_MaxMessages (limits o) <= 4096 /\ 1 <= bo_MaxBytes (limits o) <= 16777216 /\
  1 <= bo_QueueDepth (limits o) <= 65536.
Proof.
  unfold limits, positiveOr. cbn. destruct (Z.leb_spec (bo_MaxMessages o) 0), (Z.leb_spec (bo_MaxBytes o) 0),
    (Z.leb_spec (bo_QueueDepth o) 0); repeat case_match; lia.
Qed.

Lemma item_ids l : bi_id <$> itemsOf l `sublist_of` idOfCommand <$> l.
Proof. induction l as [|[i|id] l IH]; cbn; by constructor. Qed.
Lemma barrier_ids l : barriersOf l `sublist_of` idOfCommand <$> l.
Proof. induction l as [|[i|id] l IH]; cbn; by constructor. Qed.

(** An element that occurs once splits a list in one way. *)
Lemma nodup_split {A} (x : A) l1 l2 k1 k2 : NoDup (l1 ++ x :: l2) -> l1 ++ x :: l2 = k1 ++ x :: k2 -> l1 = k1.
Proof.
  revert k1. induction l1 as [|y l1 IH]; intros [|z k1] Hn E; [done| | |].
  - injection E as <- ->. apply NoDup_cons in Hn as [Hn _]. set_solver.
  - injection E as -> E. apply NoDup_cons in Hn as [Hn _]. set_solver.
  - injection E as -> E. apply NoDup_cons in Hn as [_ Hn]. f_equal. by apply IH.
Qed.

Section Promises.
Context {W : Type} `{BatchPublisher W} (o : BatcherOptions) (w : W) (b : batcher W).
Local Abbreviation opts := (limits o).
Context (Hreach : breach opts w b).

Lemma reach_core : binv opts b.
Proof. destruct (limits_bounds o) as (? & ? & ?). apply (breach_binv opts ltac:(lia) ltac:(lia) w); [lia|done]. Qed.

Lemma accepted_nodup : NoDup (idOfCommand <$> b_accepted b).
Proof.
  destruct (bv_core _ _ reach_core) as [taken I]. pose proof (bc_ids _ _ _ _ I) as Hn. rewrite fmap_app in Hn.
  by apply NoDup_app in Hn as (Hn & _).
Qed.

(** The identities of the answered items, of the barriers, and of the items to come. *)
Lemma answered_split : exists taken, b_accepted b = taken ++ b_queue b /\
  bi_id <$> itemsOf taken ≡ₚ (b_replies b).*1 ++ (bi_id <$> b_pending b) /\ (b_barriers b).*1 = barriersOf taken.
Proof. destruct (bv_core _ _ reach_core) as [taken I]. exists taken. split_and!; apply I. Qed.
End Promises.

(** C18: the batcher answers every publication exactly once.  However the goroutines that publish,
    flush and close, the contexts that end and the loop's turns interleave, no publication and no
    flush is answered twice, only what was queued is answered, and once the loop has ended every
    command that was ever queued has its answer. *)
Theorem batcher_exactly_once {W} `{BatchPublisher W} o (w : W) b : breach (limits o) w b ->
  NoDup (b_replies b).*1 /\ NoDup (b_barriers b).*1 /\
  (b_replies b).*1 ⊆ bi_id <$> itemsOf (b_accepted b) /\
  (b_finished b = true ->
    (b_replies b).*1 ≡ₚ bi_id <$> itemsOf (b_accepted b) /\ (b_barriers b).*1 = barriersOf (b_accepted b)).
Proof.
  intros Hr. destruct (answered_split _ _ _ Hr) as (taken & Ha & Hi & Hb). pose proof (accepted_nodup _ _ _ Hr) as Hn.
  rewrite Ha, fmap_app in Hn. apply NoDup_app in Hn as (Hn & _).
  pose proof (sublist_NoDup _ _ Hn (item_ids taken)) as Hni. rewrite Hi in Hni. apply NoDup_app in Hni as (Hnr & _).
  split; [done|]. split; [rewrite Hb; exact (sublist_NoDup _ _ Hn (barrier_ids taken))|]. split.
  - intros x Hx. rewrite Ha, itemsOf_app, fmap_app, Hi. set_solver.
  - intros Hf. destruct (bv_finished _ _ (reach_core _ _ _ Hr) Hf) as (Hq & Hp & _).
    rewrite Ha, Hq, app_nil_r. rewrite Hp in Hi. cbn in Hi. rewrite app_nil_r in Hi. by rewrite Hi.
Qed.

(** every batch that goes out is one the broker takes: it is not empty, has at most the
    configured messages (never over 4096) and bytes (never over 16 MiB), and its messages
    share one topic and the same options but for their keys; and the batches, one after the other,
    keep the order in which the messages were queued and repeat none. *)
Theorem batcher_batches {W} `{BatchPublisher W} o (w : W) b : breach (limits o) w b ->
  Forall (post_ok (limits o)) (b_posts b) /\ bo_MaxMessages (limits o) <= 4096 /\ bo_MaxBytes (limits o) <= 16777216 /\
  concat (po_items <$> b_posts b) `sublist_of` itemsOf (b_accepted b) /\ NoDup (bi_id <$> concat (po_items <$> b_posts b)).
Proof.
  intros Hr. destruct (bv_core _ _ (reach_core _ _ _ Hr)) as [taken I]. destruct (limits_bounds o) as (? & ? & ?).
  assert (Hs : concat (po_items <$> b_posts b) `sublist_of` itemsOf (b_accepted b)).
  { rewrite (bc_accepted _ _ _ _ I), itemsOf_app. etrans; [|apply sublist_inserts_r, (bc_order _ _ _ _ I)].
    by apply sublist_inserts_r. }
  split; [apply I|]. split; [lia|]. split; [lia|]. split; [done|].
  eapply sublist_NoDup; [apply (accepted_nodup _ _ _ Hr)|]. etrans; [|apply item_ids]. by apply fmap_sublist.
Qed.

(** an answer means what it says.  An item is answered with the error of its own context, with
    [ErrBatcherClosed] after the batcher was closed, or with what [PublishBatchEntries] returned for
    it: the identifier at its own position of a batch it went out in, or that call's error; and
    when a flush is answered, every message queued before it has been. *)
Theorem batcher_answers {W} `{BatchPublisher W} o (w : W) b : breach (limits o) w b ->
  Forall (justified (b_done b) (b_stopped b) (b_posts b)) (b_replies b) /\
  forall pre post id, b_accepted b = pre ++ Barrier id :: post -> id ∈ (b_barriers b).*1 ->
    bi_id <$> itemsOf pre ⊆ (b_replies b).*1.
Proof.
  intros Hr. destruct (bv_core _ _ (reach_core _ _ _ Hr)) as [taken I]. split; [apply I|].
  intros pre post id E Hid. rewrite (bc_barriers _ _ _ _ I) in Hid.
  apply list_elem_of_omap in Hid as ([i|id'] & Hin & [= <-]). apply list_elem_of_split in Hin as (k1 & k2 & Ht).
  pose proof (bc_accepted _ _ _ _ I) as Ha. cbn [app] in Ha. rewrite Ht, <- app_assoc in Ha. cbn [app] in Ha.
  assert (pre = k1) as ->; [|by apply (bc_flushed _ _ _ _ I _ k2 id')].
  rewrite E in Ha. apply (nodup_split (Barrier id') _ post _ (k2 ++ b_queue b)); [|done].
  rewrite <- E. apply (NoDup_fmap_1 idOfCommand), (accepted_nodup _ _ _ Hr).
Qed.

(** C39: the batcher never stalls.  In every reachable state a goroutine that holds a slot finds room in the
    queue, so it never blocks under the lock; a batch that waits has its timer armed, and the
    timer's turn sends it off; the loop's turn on a command returns; and once the batcher is
    closed, one turn answers everything and ends the loop. *)
Theorem batcher_progress {W} `{BatchPublisher W} o (w : W) b : breach (limits o) w b ->
  (b_holding b <> [] -> llen (b_queue b) < bo_QueueDepth (limits o)) /\
  (b_pending b <> [] -> b_timer b = true /\ wp onTimer b (fun _ b' => b_pending b' = [] /\ b_queue b' = b_queue b)) /\
  (b_finished b = false -> b_queue b <> [] -> wp (onCommand (limits o)) b (fun _ b' => breach (limits o) w b')) /\
  (b_stopped b = true -> wp onStop b (fun _ b' => b_finished b' = true /\ b_queue b' = [] /\ b_pending b' = [])).
Proof.
  intros Hr. pose proof (reach_core _ _ _ Hr) as I. destruct (limits_bounds o) as (? & ? & ?).
  destruct (bv_core _ _ I) as [taken C]. split_and!.
  - intros Hh. pose proof (bc_slots _ _ _ _ C). pose proof (bc_depth _ _ _ _ C).
    destruct (b_holding b) as [|c l]; [done|]. rewrite llen_cons in *. pose proof (llen_nonneg l). lia.
  - intros Hp. split; [by rewrite (bc_timer _ _ _ _ C), bool_decide_true|]. unfold onTimer. apply wp_bind.
    eapply wp_mono; [apply (wp_flush_core (limits o) ltac:(lia) ltac:(lia) [] taken b C)|].
    intros _ b' (_ & Hp' & _ & Hq & _). by apply wp_ret.
  - intros Hf Hq. destruct (wp_elim _ _ _ (wp_onCommand (limits o) ltac:(lia) ltac:(lia) b I Hq Hf)) as ([] & b' & E & _).
    apply (wp_intro _ _ _ _ _ E). by eapply br_step, bs_command.
  - intros Hs. eapply wp_mono; [apply (wp_onStop (limits o) ltac:(lia) ltac:(lia) b I Hs)|]. intros _ b' [I' Hf].
    destruct (bv_finished _ _ I' Hf) as (? & ? & _). done.
Qed.

(** ** Witnesses *)

(** A message and a flush, sent by two goroutines; then [Close]. *)
#[local] Existing Instance ex_env.
Definition ex_publisher : BatchPublisher (net nat) := client_publisher ex_std ex_codec ex_codec ex_client.
#[local] Existing Instance ex_publisher.

Definition ex_opts : BatcherOptions := mkBatcherOptions 2 0 0 4.
Definition ex_item : batchPublish := mkBatchPublish 1 "t" [x01; x02] ex_shared.
Definition ex_world : net nat := mkNet 0%nat [].

(** The state after each step of the run. *)
Definition ex_state (n : nat) : batcher (net nat) :=
  let steps := [(fun b => reserve (limits ex_opts) (Item ex_item) b); (fun b => snd <$> enqueueReserved 0 b);
    (fun b => snd <$> onCommand (limits ex_opts) b); (fun b => reserve (limits ex_opts) (Barrier 2) b);
    (fun b => snd <$> enqueueReserved 0 b)] in
  default (newBatcher ex_world) (foldl (fun b step => b ≫= step) (Some (newBatcher ex_world)) (take n steps)).

(** The run that takes the barrier too, then closes and stops. *)
Definition ex_flushed : batcher (net nat) := default (ex_state 5) (snd <$> onCommand (limits ex_opts) (ex_state 5)).
Definition ex_closed : batcher (net nat) := ex_flushed <| b_stopped := true |>.
Definition ex_ended : batcher (net nat) := default ex_closed (snd <$> onStop ex_closed).

Lemma ex_state_reach : breach (limits ex_opts) ex_world (ex_state 5).
Proof.
  apply (br_step _ _ (ex_state 4)); [apply (br_step _ _ (ex_state 3)); [apply (br_step _ _ (ex_state 2));
    [apply (br_step _ _ (ex_state 1)); [apply (br_step _ _ (ex_state 0)); [apply br_new|]|]|]|]|].
  - apply (bs_reserve _ _ _ (Item ex_item)); [vm_compute; reflexivity| |vm_compute; reflexivity].
    intros c [Hc|Hc]; by apply elem_of_nil in Hc.
  - apply (bs_enqueue _ _ _ 0 None). vm_compute. reflexivity.
  - apply bs_command; [reflexivity|discriminate|vm_compute; reflexivity].
  - apply (bs_reserve _ _ _ (Barrier 2)); [exact I| |vm_compute; reflexivity].
    intros c [Hc|Hc]; vm_compute in Hc; [|by apply elem_of_nil in Hc].
    apply list_elem_of_singleton in Hc as ->. vm_compute. discriminate.
  - apply (bs_enqueue _ _ _ 0 None). vm_compute. reflexivity.
Qed.

Lemma ex_ended_reach : breach (limits ex_opts) ex_world ex_ended.
Proof.
  apply (br_step _ _ ex_closed); [apply (br_step _ _ ex_flushed); [apply (br_step _ _ (ex_state 5)); [apply ex_state_reach|]|]|].
  - apply bs_command; [vm_compute; reflexivity|vm_compute; discriminate|vm_compute; reflexivity].
  - apply bs_close. reflexivity.
  - apply bs_stop; [vm_compute; reflexivity|reflexivity|vm_compute; reflexivity].
Qed.

Lemma ex_ended_finished : b_finished ex_ended = true.
Proof. vm_compute. reflexivity. Qed.
Lemma ex_ended_accepted : b_accepted ex_ended = [Item ex_item] ++ Barrier 2 :: [].
Proof. vm_compute. reflexivity. Qed.
Lemma ex_ended_barrier : 2%positive ∈ (b_barriers ex_ended).*1.
Proof. vm_compute. left. Qed.
Lemma ex_state_busy : b_finished (ex_state 5) = false /\ b_queue (ex_state 5) <> [].
Proof. split; vm_compute; [reflexivity|discriminate]. Qed.

Lemma batcher_exactly_once_witness : (b_replies ex_ended).*1 ≡ₚ bi_id <$> itemsOf (b_accepted ex_ended).
Proof. exact (proj1 (proj2 (proj2 (proj2 (batcher_exactly_once _ _ _ ex_ended_reach))) ex_ended_finished)). Defined.

Lemma batcher_batches_witness : NoDup (bi_id <$> concat (po_items <$> b_posts ex_ended)).
Proof. exact (proj2 (proj2 (proj2 (proj2 (batcher_batches _ _ _ ex_ended_reach))))). Defined.

Lemma batcher_answers_witness : bi_id <$> itemsOf [Item ex_item] ⊆ (b_replies ex_ended).*1.
Proof. exact (proj2 (batcher_answers _ _ _ ex_ended_reach) [Item ex_item] [] 2%positive ex_ended_accepted ex_ended_barrier). Defined.

Lemma batcher_progress_witness : wp (onCommand (limits ex_opts)) (ex_state 5) (fun _ b' => breach (limits ex_opts) ex_world b').
Proof.
  exact (proj1 (proj2 (proj2 (batcher_progress _ _ _ ex_state_reach))) (proj1 ex_state_busy) (proj2 ex_state_busy)).
Defined.
