(* ===== verification/Frames.v ===== *)
(** * Stream frames

    A delivery on the wire of a subscription: the size of its description and of its payload, then both.  [writeFrame] and
    [appendDeliveryJSON] of internal/broker/broker.go write it, [readFrame] of pkg/spruce/client.go reads it.  encoding/json
    is behind [DeliveryDecoder]. *)
From S2P Require Import Prelude Types GoIO Wire Pending.
#[local] Open Scope Z_scope.

(** [type Delivery struct] of the client. *)
Record ClientDelivery := mkClientDelivery {
  cd_DeliveryID : string;
  cd_MessageID : string;
  cd_Topic : string;
  cd_Key : string;
  cd_Headers : gmap string string;
  cd_CreatedAt : Z;
  cd_Cursor : string;
  cd_Attempt : Z;
  cd_Payload : list byte;
}.
#[export] Instance ClientDelivery_settable : Settable ClientDelivery := fun r => mkClientDelivery (cd_DeliveryID r) (cd_MessageID r) (cd_Topic r)
  (cd_Key r) (cd_Headers r) (cd_CreatedAt r) (cd_Cursor r) (cd_Attempt r) (cd_Payload r).
#[export] Instance set_cd_DeliveryID : Setter cd_DeliveryID := ltac:(derive_setter).
#[export] Instance set_cd_MessageID : Setter cd_MessageID := ltac:(derive_setter).
#[export] Instance set_cd_Topic : Setter cd_Topic := ltac:(derive_setter).
#[export] Instance set_cd_Key : Setter cd_Key := ltac:(derive_setter).
#[export] Instance set_cd_Headers : Setter cd_Headers := ltac:(derive_setter).
#[export] Instance set_cd_CreatedAt : Setter cd_CreatedAt := ltac:(derive_setter).
#[export] Instance set_cd_Cursor : Setter cd_Cursor := ltac:(derive_setter).
#[export] Instance set_cd_Attempt : Setter cd_Attempt := ltac:(derive_setter).
#[export] Instance set_cd_Payload : Setter cd_Payload := ltac:(derive_setter).

(** ** Text

    [strconv.AppendInt(out, n, 10)] of an [int64], and [strconv.AppendQuote]: what it makes of a rune outside ASCII depends on
    the tables of the unicode package ([RuneTable]). *)
Definition digit (n : Z) : byte := byteZ (48 + n).
Fixpoint digits (fuel : nat) (n : Z) : list byte :=
  match fuel with
  | O => []
  | S fuel => if bool_decide (n < 10) then [digit n] else digits fuel (n / 10) ++ [digit (n mod 10)]
  end.
Definition decimal (n : Z) : list byte := if bool_decide (n < 0) then x2d :: digits 19 (- n) else digits 19 n.

Class RuneTable := {
  (** The text of the rune at the head of some bytes, and how many bytes it has beyond the first. *)
  rt_rune : list byte -> list byte * nat;
  rt_short l : (length (rt_rune l).1 <= 4 * S (rt_rune l).2)%nat;
}.
Definition hexDigit (n : Z) : byte := byteZ (if bool_decide (n < 10) then 48 + n else 87 + n).
Definition quoteASCII (b : byte) : list byte :=
  let v := Zbyte b in
  if bool_decide (v = 34) || bool_decide (v = 92) then [x5c; b] else
  if bool_decide (32 <= v <= 126) then [b] else
  if bool_decide (v = 7) then [x5c; x61] else if bool_decide (v = 8) then [x5c; x62] else if bool_decide (v = 12) then [x5c; x66] else
  if bool_decide (v = 10) then [x5c; x6e] else if bool_decide (v = 13) then [x5c; x72] else if bool_decide (v = 9) then [x5c; x74] else
  if bool_decide (v = 11) then [x5c; x76] else [x5c; x78; hexDigit (v / 16); hexDigit (v mod 16)].
Fixpoint quoteBytes `{RuneTable} (skip : nat) (l : list byte) : list byte :=
  match l with
  | [] => []
  | b :: l' =>
    match skip with
    | S skip => quoteBytes skip l'
    | O => if bool_decide (Zbyte b < 128) then quoteASCII b ++ quoteBytes 0 l' else (rt_rune l).1 ++ quoteBytes (rt_rune l).2 l'
    end
  end.
Definition AppendQuote `{RuneTable} (out : list byte) (s : string) : list byte := out ++ [x22] ++ quoteBytes 0 (sbytes s) ++ [x22].

(** ** Writing *)
Section Write.
Context `{RuneTable, MapRange}.

Definition appendJSONField (out : list byte) (name value : string) (comma : bool) : list byte :=
  let out := if comma then out ++ [x2c] else out in
  AppendQuote (AppendQuote out name ++ [x3a]) value.

(** The entries of the headers, [first] for the first of them. *)
Fixpoint appendHeaders (first : bool) (l : list (string * string)) (out : list byte) : list byte :=
  match l with
  | [] => out
  | (key, value) :: l =>
    let out := if first then out else out ++ [x2c] in
    appendHeaders false l (AppendQuote (AppendQuote out key ++ [x3a]) value)
  end.

(** The texts that are appended as they are: a comma, a name in quotes and a colon. *)
Definition nameText (name : string) : list byte := x2c :: x22 :: sbytes name ++ [x22; x3a].

Definition appendDeliveryJSON (out : list byte) (d : Delivery) : list byte :=
  let out := out ++ [x7b] in
  let out := appendJSONField out "delivery_id" (d_DeliveryID d) false in
  let out := appendJSONField out "message_id" (d_MessageID d) true in
  let out := appendJSONField out "topic" (d_Topic d) true in
  let out := if bool_decide (d_Key d <> "") then appendJSONField out "key" (d_Key d) true else out in
  let out := if bool_decide (0 < mlen (d_Headers d))
    then appendHeaders true (rangeMap (d_Headers d)) (out ++ nameText "headers" ++ [x7b]) ++ [x7d] else out in
  let out := out ++ nameText "created_at" ++ decimal (d_CreatedAt d) in
  let out := out ++ nameText "attempt" ++ decimal (d_Attempt d) in
  let out := if bool_decide (d_Cursor d <> "") then appendJSONField out "cursor" (d_Cursor d) true else out in
  out ++ [x7d].

Definition writeFrame {W} `{IoWriter W} (d : Delivery) : Writer W :=
  let meta := appendDeliveryJSON [] d in
  wwrite (beBytes 4 (llen meta) ++ beBytes 4 (llen (d_Payload d))) ;>> wwrite meta ;>> wwrite (d_Payload d).
End Write.

(** ** Reading

    JSON values of the kinds that a delivery has, and their text. *)
Inductive jvalue := jText (s : string) | jInt (n : Z) | jMap (l : list (string * string)).

Definition escaped (b : byte) : list byte :=
  if bool_decide (b = x22) || bool_decide (b = x5c) then [x5c; b] else
  if bool_decide (b = x08) then [x5c; x62] else if bool_decide (b = x0c) then [x5c; x66] else
  if bool_decide (b = x0a) then [x5c; x6e] else if bool_decide (b = x0d) then [x5c; x72] else if bool_decide (b = x09) then [x5c; x74] else [b].
Definition quoted (s : string) : list byte := x22 :: concat (escaped <$> sbytes s) ++ [x22].
Fixpoint commas (l : list (list byte)) : list byte :=
  match l with
  | [] => []
  | [t] => t
  | t :: l => t ++ x2c :: commas l
  end.
Definition textOf (v : jvalue) : list byte :=
  match v with
  | jText s => quoted s
  | jInt n => decimal n
  | jMap l => x7b :: commas ((fun p => quoted p.1 ++ x3a :: quoted p.2) <$> l) ++ [x7d]
  end.
Definition objectText (fields : list (string * jvalue)) : list byte := x7b :: commas ((fun p => quoted p.1 ++ x3a :: textOf p.2) <$> fields) ++ [x7d].

(** The texts that JSON and Go quote alike: of ASCII, what is printable and the controls that JSON has a short escape for; of the
    rest, the runes that Go prints as they are. *)
Definition plainByte (b : byte) : bool := bool_decide (32 <= Zbyte b <= 126) || bool_decide (b ∈ [x08; x09; x0a; x0c; x0d]).
Fixpoint plainBytes `{RuneTable} (skip : nat) (l : list byte) : bool :=
  match l with
  | [] => true
  | b :: l' =>
    match skip with
    | S skip => bool_decide (128 <= Zbyte b) && plainBytes skip l'
    | O => if bool_decide (Zbyte b < 128) then plainByte b && plainBytes 0 l' else bool_decide ((rt_rune l).1 = take (S (rt_rune l).2) l) && plainBytes (rt_rune l).2 l'
    end
  end.
Definition plain `{RuneTable} (s : string) : bool := plainBytes 0 (sbytes s).
Definition plainValue `{RuneTable} (v : jvalue) : Prop :=
  match v with
  | jText s => plain s = true
  | jInt n => in_i64 n
  | jMap l => Forall (fun p => plain p.1 = true /\ plain p.2 = true) l /\ NoDup l.*1
  end.

(** The tags of [Delivery]; [None]: no field of that name and kind. *)
Definition setField (name : string) (v : jvalue) (d : ClientDelivery) : option ClientDelivery :=
  match v with
  | jText s =>
    if String.eqb name "delivery_id" then Some (d <| cd_DeliveryID := s |>) else
    if String.eqb name "message_id" then Some (d <| cd_MessageID := s |>) else
    if String.eqb name "topic" then Some (d <| cd_Topic := s |>) else
    if String.eqb name "key" then Some (d <| cd_Key := s |>) else
    if String.eqb name "cursor" then Some (d <| cd_Cursor := s |>) else None
  | jInt n =>
    if String.eqb name "created_at" then Some (d <| cd_CreatedAt := n |>) else
    if String.eqb name "attempt" then Some (d <| cd_Attempt := n |>) else None
  | jMap l => if String.eqb name "headers" then Some (d <| cd_Headers := list_to_map l |>) else None
  end.
Fixpoint setFields (fields : list (string * jvalue)) (d : ClientDelivery) : option ClientDelivery :=
  match fields with
  | [] => Some d
  | (name, v) :: fields => d ← setField name v d ; setFields fields d
  end.
Definition zeroDelivery : ClientDelivery := mkClientDelivery "" "" "" "" ∅ 0 "" 0 [].

(** [json.Unmarshal] into a [Delivery]: of an object with known fields, each once, it sets these. *)
Class DeliveryDecoder `{RuneTable} := {
  dd_unmarshal : list byte -> error + ClientDelivery;
  dd_object fields d : NoDup fields.*1 -> Forall (fun p => plainValue p.2) fields -> setFields fields zeroDelivery = Some d -> dd_unmarshal (objectText fields) = inr d;
}.

Definition readFrame `{DeliveryDecoder} (maxPayloadBytes : Z) : Reader ClientDelivery :=
  sizes <~ readFull 8 ;;
  let ml := beRead (take 4 sizes) in
  let pl := beRead (drop 4 sizes) in
  rguard (bool_decide (65536 < ml) || bool_decide (u64 maxPayloadBytes < pl)) (errOther "invalid spruce frame size") (
    meta <~ readFull (Z.to_nat ml) ;;
    match dd_unmarshal meta with
    | inl e => rfail e
    | inr d =>
      payload <~ readFull (Z.to_nat pl) ;;
      rret (d <| cd_Payload := payload |>)
    end).

(** What the client gets of a delivery of the broker. *)
Definition clientView (d : Delivery) : ClientDelivery :=
  mkClientDelivery (d_DeliveryID d) (d_MessageID d) (d_Topic d) (d_Key d) (d_Headers d) (d_CreatedAt d) (d_Cursor d) (d_Attempt d) (d_Payload d).

(** ** Round trip *)
#[local] Arguments quoted : simpl never.
#[local] Arguments sbytes : simpl never.
#[local] Arguments decimal : simpl never.
Lemma Zbyte_is b c : bool_decide (Zbyte b = Zbyte c) = bool_decide (b = c).
Proof. apply bool_decide_ext. split; [|by intros ->]. intros E. by rewrite <- (byteZ_Zbyte b), E, byteZ_Zbyte. Qed.
Lemma quoteASCII_plain b : plainByte b = true -> quoteASCII b = escaped b.
Proof. revert b. assert (Hall : forallb (fun b => negb (plainByte b) || bool_decide (quoteASCII b = escaped b)) (byteZ ∘ Z.of_nat <$> seq 0 256) = true) by (vm_compute; reflexivity).
  intros b Hb. rewrite List.forallb_forall in Hall. specialize (Hall b). rewrite Hb in Hall. apply (bool_decide_eq_true_1 _). apply Hall, list_elem_of_In, list_elem_of_fmap. exists (Z.to_nat (Zbyte b)).
  pose proof (Zbyte_range b). split; [cbn; by rewrite Z2Nat.id, byteZ_Zbyte by lia|]. apply elem_of_seq. lia.
Qed.
Lemma escaped_high b : 128 <= Zbyte b -> escaped b = [b].
Proof. intros Hb. unfold escaped. assert (Hn : forall c, Zbyte c < 128 -> bool_decide (b = c) = false) by (intros c Hc; apply bool_decide_eq_false; intros ->; lia). by rewrite !Hn. Qed.
Lemma plain_skipped `{RuneTable} n : forall l, plainBytes n l = true -> concat (escaped <$> take n l) = take n l /\ plainBytes 0 (drop n l) = true.
Proof.
  induction n as [|n IH]; intros [|b l]; cbn [plainBytes take drop]; try done. intros [Hb%bool_decide_eq_true Hl]%andb_true_iff. destruct (IH l Hl) as [E Hd]. split; [|done].
  cbn. by rewrite escaped_high, E.
Qed.
Lemma quoteBytes_skip `{RuneTable} n : forall l, quoteBytes n l = quoteBytes 0 (drop n l).
Proof. induction n as [|n IH]; intros [|b l]; try done. apply IH. Qed.
Lemma quoteBytes_plain `{RuneTable} l : plainBytes 0 l = true -> quoteBytes 0 l = concat (escaped <$> l).
Proof.
  remember (length l) as n eqn:Hn. revert l Hn. induction (lt_wf n) as [n _ IH]. intros [|b l] Hn Hl; [done|]. cbn [plainBytes quoteBytes] in *. destruct (bool_decide_reflect (Zbyte b < 128)) as [Hb|Hb].
  - apply andb_true_iff in Hl as [H1 H2]. cbn. rewrite quoteASCII_plain by done. f_equal. by apply (IH (length l)); [subst n; cbn; lia| |].
  - apply andb_true_iff in Hl as [Hr%bool_decide_eq_true Hl]. rewrite Hr, quoteBytes_skip. apply plain_skipped in Hl as [E Hd]. rewrite (IH (length (drop (rt_rune (b :: l)).2 l))); [|subst n; cbn; rewrite length_drop; lia|done|done].
    cbn. rewrite escaped_high by lia. rewrite <- E at 1. cbn. f_equal. rewrite <- concat_app, <- fmap_app. by rewrite take_drop.
Qed.
Lemma AppendQuote_plain `{RuneTable} out s : plain s = true -> AppendQuote out s = out ++ quoted s.
Proof. intros Hs. unfold AppendQuote, quoted. by rewrite quoteBytes_plain. Qed.

Lemma commas_cons t l : commas (t :: l) = t ++ concat ((fun u => x2c :: u) <$> l).
Proof. revert t. induction l as [|u l IH]; intros t; [cbn; by rewrite app_nil_r|]. change (t ++ x2c :: commas (u :: l) = t ++ concat ((fun u => x2c :: u) <$> (u :: l))). by rewrite IH. Qed.

Section Meta.
Context `{RuneTable, MapRange}.

Lemma appendHeaders_plain l : forall first out, Forall (fun p => plain p.1 = true /\ plain p.2 = true) l ->
  appendHeaders first l out = out ++ (if first then commas ((fun p => quoted p.1 ++ x3a :: quoted p.2) <$> l) else concat ((fun p => x2c :: quoted p.1 ++ x3a :: quoted p.2) <$> l)).
Proof.
  induction l as [|[k v] l IH]; intros first out Hl; cbn [appendHeaders]; [destruct first; cbn; by rewrite app_nil_r|]. apply Forall_cons in Hl as [[Hk Hv] Hl]. cbn [fst snd] in *.
  rewrite !AppendQuote_plain, IH by done. destruct first.
  - rewrite fmap_cons, commas_cons, <- list_fmap_compose. by rewrite <- !app_assoc.
  - cbn. by rewrite <- !app_assoc.
Qed.

Definition fieldsOf (d : Delivery) : list (string * jvalue) :=
  [("delivery_id", jText (d_DeliveryID d)); ("message_id", jText (d_MessageID d)); ("topic", jText (d_Topic d))] ++
  (if bool_decide (d_Key d <> "") then [("key", jText (d_Key d))] else []) ++
  (if bool_decide (0 < mlen (d_Headers d)) then [("headers", jMap (rangeMap (d_Headers d)))] else []) ++
  [("created_at", jInt (d_CreatedAt d)); ("attempt", jInt (d_Attempt d))] ++
  (if bool_decide (d_Cursor d <> "") then [("cursor", jText (d_Cursor d))] else []).

(** A delivery whose texts JSON and Go quote alike. *)
Record plainDelivery (d : Delivery) : Prop := {
  pd_texts : plain (d_DeliveryID d) = true /\ plain (d_MessageID d) = true /\ plain (d_Topic d) = true /\ plain (d_Key d) = true /\ plain (d_Cursor d) = true;
  pd_headers : forall k v, d_Headers d !! k = Some v -> plain k = true /\ plain v = true;
  pd_numbers : in_i64 (d_CreatedAt d) /\ in_i64 (d_Attempt d);
}.

Lemma rangeMap_plain d : plainDelivery d -> Forall (fun p => plain p.1 = true /\ plain p.2 = true) (rangeMap (d_Headers d)).
Proof. intros [_ Hh _]. rewrite rangeMap_perm. apply Forall_forall. intros [k v] Hkv%elem_of_map_to_list. by apply Hh. Qed.
Lemma rangeMap_NoDup h : NoDup (rangeMap h).*1.
Proof. rewrite rangeMap_perm. apply NoDup_fst_map_to_list. Qed.
Lemma rangeMap_id h : list_to_map (rangeMap h) = h.
Proof. rewrite <- (list_to_map_to_list h) at 2. apply list_to_map_proper; [apply rangeMap_NoDup|apply rangeMap_perm]. Qed.

Lemma appendField_plain out name value : plain name = true -> plain value = true -> appendJSONField out name value true = out ++ x2c :: quoted name ++ x3a :: quoted value.
Proof. intros Hn Hv. unfold appendJSONField. rewrite !AppendQuote_plain by done. by rewrite <- !app_assoc. Qed.

Definition fieldText (p : string * jvalue) : list byte := x2c :: quoted p.1 ++ x3a :: textOf p.2.
Lemma objectText_cons name v fields : objectText ((name, v) :: fields) = x7b :: quoted name ++ x3a :: textOf v ++ concat (fieldText <$> fields) ++ [x7d].
Proof. unfold objectText. rewrite fmap_cons, commas_cons, <- list_fmap_compose. cbn [fst snd]. by rewrite <- !app_assoc. Qed.

Lemma nameText_quoted name : plain name = true -> concat (escaped <$> sbytes name) = sbytes name -> nameText name = x2c :: quoted name ++ [x3a].
Proof. intros _ E. unfold nameText, quoted. rewrite E. change ([x2c; x22] ++ sbytes name ++ [x22; x3a] = [x2c; x22] ++ (sbytes name ++ [x22]) ++ [x3a]). by rewrite <- app_assoc. Qed.

Lemma appendDeliveryJSON_text d : plainDelivery d -> appendDeliveryJSON [] d = objectText (fieldsOf d).
Proof.
  intros Hd. pose proof (rangeMap_plain d Hd) as Hm. destruct Hd as [(H1 & H2 & H3 & H4 & H5) Hh _]. unfold fieldsOf. cbn [app]. rewrite objectText_cons.
  unfold appendDeliveryJSON. cbv zeta. rewrite !nameText_quoted by done.
  assert (E0 : appendJSONField ([] ++ [x7b]) "delivery_id" (d_DeliveryID d) false = x7b :: quoted "delivery_id" ++ x3a :: quoted (d_DeliveryID d)).
  { unfold appendJSONField. rewrite !AppendQuote_plain by done. cbn. by rewrite <- app_assoc. }
  rewrite E0. destruct (bool_decide (d_Key d <> "")), (bool_decide (0 < mlen (d_Headers d))), (bool_decide (d_Cursor d <> ""));
    rewrite ?appendHeaders_plain by done; rewrite ?appendField_plain by done; cbn [app fmap list_fmap concat]; unfold fieldText; cbn [fst snd textOf];
    repeat (rewrite <- app_assoc; cbn [app]); rewrite ?app_nil_r; reflexivity.
Qed.

Lemma setFields_view d : setFields (fieldsOf d) zeroDelivery = Some ((clientView d) <| cd_Payload := [] |>).
Proof.
  unfold fieldsOf, clientView. destruct (bool_decide_reflect (d_Key d <> "")) as [Hk|Hk], (bool_decide_reflect (0 < mlen (d_Headers d))) as [Hh|Hh], (bool_decide_reflect (d_Cursor d <> "")) as [Hc|Hc];
    cbn; rewrite ?rangeMap_id; try apply dec_stable in Hk; try apply dec_stable in Hc; try (assert (d_Headers d = ∅) by (apply map_size_empty_iff; unfold mlen in Hh; lia)); destruct d; cbn in *; by subst.
Qed.
Lemma fieldsOf_names d : NoDup (fieldsOf d).*1.
Proof. unfold fieldsOf. destruct (bool_decide _), (bool_decide _), (bool_decide _); cbn; refine (bool_decide_unpack _ _); vm_compute; exact I. Qed.
Lemma fieldsOf_plain d : plainDelivery d -> Forall (fun p => plainValue p.2) (fieldsOf d).
Proof.
  intros Hd. pose proof (rangeMap_plain d Hd) as Hm. destruct Hd as [(H1 & H2 & H3 & H4 & H5) _ [H6 H7]]. pose proof (rangeMap_NoDup (d_Headers d)) as Hn.
  unfold fieldsOf. destruct (bool_decide _), (bool_decide _), (bool_decide _); cbn [app]; repeat (apply Forall_cons; split; [by cbn|]); by apply Forall_nil.
Qed.

(** ** Sizes *)
Definition headerRoom (p : string * string) : Z := 2 * (slen p.1 + slen p.2) + 6.
(** A bound of the description of a delivery. *)
Definition metaBound (d : Delivery) : Z :=
  2 * (slen (d_DeliveryID d) + slen (d_MessageID d) + slen (d_Topic d) + slen (d_Key d) + slen (d_Cursor d)) + zsum (headerRoom <$> rangeMap (d_Headers d)) + 200.

Lemma llen_quoted s : llen (quoted s) <= 2 * slen s + 2.
Proof.
  unfold quoted. rewrite llen_cons, llen_app, <- llen_sbytes. change (llen [x22]) with 1. assert (llen (concat (escaped <$> sbytes s)) <= 2 * llen (sbytes s)); [|lia].
  induction (sbytes s) as [|b l IH]; cbn; [done|]. rewrite llen_app, llen_cons. assert (llen (escaped b) <= 2) by (unfold escaped; repeat (destruct (bool_decide _); [done|]); done). lia.
Qed.
Lemma llen_digits fuel n : llen (digits fuel n) <= Z.of_nat fuel.
Proof. revert n. induction fuel as [|fuel IH]; intros n; cbn [digits]; [done|]. case_bool_decide; [unfold llen; cbn; lia|]. rewrite llen_app. specialize (IH (n / 10)). unfold llen in *. cbn. lia. Qed.
Lemma llen_decimal n : llen (decimal n) <= 20.
Proof. unfold decimal. case_bool_decide; [rewrite llen_cons|]; (etransitivity; [|]; [|reflexivity]); pose proof (llen_digits 19 (- n)); pose proof (llen_digits 19 n); lia. Qed.
Lemma llen_headers l : llen (concat ((fun p => x2c :: quoted p.1 ++ x3a :: quoted p.2) <$> l)) <= zsum (headerRoom <$> l).
Proof.
  induction l as [|[k v] l IH]; cbn; [done|]. change (llen (x2c :: (quoted k ++ x3a :: quoted v) ++ concat ((fun p => x2c :: quoted p.1 ++ x3a :: quoted p.2) <$> l)) <= headerRoom (k, v) + zsum (headerRoom <$> l)).
  rewrite llen_cons, !llen_app, llen_cons. pose proof (llen_quoted k). pose proof (llen_quoted v). change (headerRoom (k, v)) with (2 * (slen k + slen v) + 6). lia.
Qed.

Lemma llen_field name v : bool_decide (llen (quoted name) <= 12) = true -> llen (fieldText (name, v)) <= 14 + llen (textOf v).
Proof. intros Hn%bool_decide_eq_true. unfold fieldText. cbn [fst snd]. rewrite llen_cons, llen_app, llen_cons. lia. Qed.

Lemma llen_meta d : llen (objectText (fieldsOf d)) <= metaBound d.
Proof.
  unfold fieldsOf. cbn [app]. rewrite objectText_cons. unfold metaBound.
  assert (Hh : llen (textOf (jMap (rangeMap (d_Headers d)))) <= 3 + zsum (headerRoom <$> rangeMap (d_Headers d))).
  { cbn [textOf]. rewrite llen_cons, llen_app. change (llen [x7d]) with 1. pose proof (llen_headers (rangeMap (d_Headers d))) as Hl. destruct (rangeMap (d_Headers d)) as [|p l]; [done|].
    rewrite fmap_cons, commas_cons, <- list_fmap_compose. rewrite fmap_cons in Hl. cbn [concat] in Hl. unfold compose. rewrite llen_app. rewrite llen_app, llen_cons in Hl. lia. }
  assert (Hz : 0 <= zsum (headerRoom <$> rangeMap (d_Headers d))) by (apply zsum_nonneg, Forall_fmap, Forall_forall; intros [k v] _; unfold headerRoom; cbn; pose proof (slen_nonneg k); pose proof (slen_nonneg v); lia).
  pose proof (llen_quoted (d_DeliveryID d)). pose proof (llen_quoted (d_MessageID d)). pose proof (llen_quoted (d_Topic d)). pose proof (llen_quoted (d_Key d)). pose proof (llen_quoted (d_Cursor d)).
  pose proof (llen_decimal (d_CreatedAt d)). pose proof (llen_decimal (d_Attempt d)). pose proof (slen_nonneg (d_Key d)). pose proof (slen_nonneg (d_Cursor d)).
  pose proof (llen_field "message_id" (jText (d_MessageID d)) eq_refl). pose proof (llen_field "topic" (jText (d_Topic d)) eq_refl). pose proof (llen_field "key" (jText (d_Key d)) eq_refl).
  pose proof (llen_field "headers" (jMap (rangeMap (d_Headers d))) eq_refl). pose proof (llen_field "created_at" (jInt (d_CreatedAt d)) eq_refl).
  pose proof (llen_field "attempt" (jInt (d_Attempt d)) eq_refl). pose proof (llen_field "cursor" (jText (d_Cursor d)) eq_refl). change (textOf (jText ?s)) with (quoted s) in *. change (textOf (jInt ?n)) with (decimal n) in *.
  destruct (bool_decide (d_Key d <> "")), (bool_decide (0 < mlen (d_Headers d))), (bool_decide (d_Cursor d <> ""));
    cbn [app fmap list_fmap concat]; rewrite !llen_cons, !llen_app, llen_cons, ?llen_app; change (llen (@nil byte)) with 0; change (llen [x7d]) with 1; change (llen (quoted "delivery_id")) with 13; lia.
Qed.
End Meta.
