(* ===== verification/FramesSpec.v ===== *)
(** * The client reads what the broker wrote *)
From S2P Require Import Prelude Types GoIO Wire Pending Frames.
#[local] Open Scope Z_scope.
#[local] Arguments quoted : simpl never.
#[local] Arguments decimal : simpl never.

Section RoundTrip.
Context `{RuneTable, MapRange, !DeliveryDecoder}.

(** C6: for a delivery whose texts JSON and Go quote alike ([plainDelivery]: printable characters, and the controls that JSON has a short escape for;
    the other texts are the finding on line 3306), [readFrame] of the client gives back the delivery that [writeFrame] of the broker wrote, and
    leaves what follows: the description, which [appendDeliveryJSON] writes in the order of Go's map iteration, is an object that sets every field;
    it never exceeds the 64 KiB that the client accepts as long as its texts are within [metaBound]. *)
Theorem frame_roundtrip d maxPayload rest : plainDelivery d -> metaBound d <= 65536 -> llen (d_Payload d) <= maxPayload < 2 ^ 32 ->
  exists bytes, writeFrame d [] = (bytes, None) /\ readFrame maxPayload (bytes ++ rest) = inr (clientView d, rest).
Proof.
  intros Hd Hm Hp. change (2 ^ 32) with 4294967296 in Hp. pose proof (llen_nonneg (d_Payload d)). pose proof (llen_meta d) as Hl. rewrite <- appendDeliveryJSON_text in Hl by done. set (meta := appendDeliveryJSON [] d) in *.
  pose proof (llen_nonneg meta). set (sizes := beBytes 4 (llen meta) ++ beBytes 4 (llen (d_Payload d))).
  exists (sizes ++ meta ++ d_Payload d). split; [unfold writeFrame; fold meta; change (((sizes ++ meta) ++ d_Payload d, @None error) = (sizes ++ meta ++ d_Payload d, None)); by rewrite <- app_assoc|].
  unfold readFrame. rewrite <- !app_assoc. erewrite rbind_eq by (apply readFull_app; unfold sizes; by rewrite length_app, !length_beBytes).
  cbv zeta. unfold sizes. rewrite take_app_length', drop_app_length', !beRead_beBytes by (by rewrite length_beBytes). change (256 ^ Z.of_nat 4) with 4294967296.
  rewrite !Z.mod_small by lia. unfold rguard. rewrite u64_id by (unfold in_u64; lia). rewrite !bool_decide_eq_false_2 by lia. cbn [orb].
  erewrite rbind_eq by (apply readFull_app; unfold llen; lia).
  rewrite (appendDeliveryJSON_text d Hd : meta = _), (dd_object _ _ (fieldsOf_names d) (fieldsOf_plain d Hd) (setFields_view d)).
  erewrite rbind_eq by (apply readFull_app; unfold llen; lia). done.
Qed.
End RoundTrip.

(** ** A decoder of such objects *)
Definition after (b : byte) (l : list byte) : option (list byte) := match l with c :: l => if bool_decide (c = b) then Some l else None | [] => None end.
Definition unescaped (c : byte) : byte :=
  if bool_decide (c = x62) then x08 else if bool_decide (c = x66) then x0c else if bool_decide (c = x6e) then x0a else
  if bool_decide (c = x72) then x0d else if bool_decide (c = x74) then x09 else c.
Fixpoint unquote (l : list byte) : option (list byte * list byte) :=
  match l with
  | [] => None
  | b :: l =>
    if bool_decide (b = x22) then Some ([], l) else
    if bool_decide (b = x5c) then match l with [] => None | c :: l => p ← unquote l ; Some (unescaped c :: p.1, p.2) end else
    p ← unquote l ; Some (b :: p.1, p.2)
  end.
Fixpoint readDigits (acc : Z) (l : list byte) : Z * list byte :=
  match l with
  | b :: l' => if bool_decide (48 <= Zbyte b <= 57) then readDigits (acc * 10 + (Zbyte b - 48)) l' else (acc, l)
  | [] => (acc, [])
  end.
Definition readDecimal (l : list byte) : Z * list byte :=
  match after x2d l with
  | Some l => let '(n, l) := readDigits 0 l in (- n, l)
  | None => readDigits 0 l
  end.
Definition parseText (l : list byte) : option (string * list byte) :=
  l ← after x22 l ; p ← unquote l ; Some (bstring p.1, p.2).
(** The items of an object, up to its brace. *)
Fixpoint parseItems {A} (item : list byte -> option (A * list byte)) (fuel : nat) (l : list byte) : option (list A * list byte) :=
  match fuel with
  | O => None
  | S fuel =>
    match after x7d l with
    | Some l => Some ([], l)
    | None =>
      p ← item l ;
      match after x2c p.2 with
      | Some l => q ← parseItems item fuel l ; Some (p.1 :: q.1, q.2)
      | None => l ← after x7d p.2 ; Some ([p.1], l)
      end
    end
  end.
Definition parseEntry {A} (value : list byte -> option (A * list byte)) (l : list byte) : option (string * A * list byte) :=
  p ← parseText l ; l ← after x3a p.2 ; q ← value l ; Some (p.1, q.1, q.2).
Definition parseValue (l : list byte) : option (jvalue * list byte) :=
  match parseText l with
  | Some p => Some (jText p.1, p.2)
  | None =>
    match after x7b l with
    | Some l => p ← parseItems (parseEntry parseText) (S (length l)) l ; Some (jMap p.1, p.2)
    | None => let '(n, l) := readDecimal l in Some (jInt n, l)
    end
  end.
Definition parseObject (l : list byte) : option (list (string * jvalue)) :=
  l ← after x7b l ; p ← parseItems (parseEntry parseValue) (S (length l)) l ; Some p.1.

Lemma unquote_quoted l rest : unquote (concat (escaped <$> l) ++ x22 :: rest) = Some (l, rest).
Proof.
  induction l as [|b l IH]; [done|]. cbn [fmap list_fmap concat]. rewrite <- app_assoc. unfold escaped at 1.
  destruct (bool_decide_reflect (b = x22)) as [->|H1]; [cbn; by rewrite IH|]. destruct (bool_decide_reflect (b = x5c)) as [->|H2]; [cbn; by rewrite IH|]. cbn [orb].
  repeat (match goal with |- context [bool_decide (b = ?c)] => destruct (bool_decide_reflect (b = c)) as [->|?]; [cbn; by rewrite IH|] end).
  cbn [app unquote]. rewrite (bool_decide_eq_false_2 _ H1), (bool_decide_eq_false_2 _ H2). by rewrite IH.
Qed.
Lemma parseText_quoted s rest : parseText (quoted s ++ rest) = Some (s, rest).
Proof.
  change (quoted s ++ rest) with (x22 :: (concat (escaped <$> sbytes s) ++ [x22]) ++ rest). unfold parseText. rewrite <- app_assoc. change (after x22 (x22 :: ?l)) with (Some l).
  cbn [mbind option_bind app]. rewrite unquote_quoted. cbn [mbind option_bind fst snd]. by rewrite bstring_sbytes.
Qed.

Lemma Zbyte_digit n : 0 <= n < 10 -> Zbyte (digit n) = 48 + n.
Proof. intros Hn. unfold digit. rewrite Zbyte_byteZ, Z.mod_small; lia. Qed.
Lemma readDigits_digits fuel : forall n acc rest, 0 <= n < 10 ^ Z.of_nat fuel -> (0 < fuel)%nat ->
  readDigits acc (digits fuel n ++ rest) = readDigits (acc * 10 ^ llen (digits fuel n) + n) rest.
Proof.
  induction fuel as [|fuel IH]; intros n acc rest Hn Hf; [lia|]. cbn [digits]. case_bool_decide as Hd.
  - cbn [app readDigits]. rewrite Zbyte_digit by lia. rewrite bool_decide_eq_true_2 by lia. f_equal. change (llen [digit n]) with 1. lia.
  - rewrite <- app_assoc. pose proof (Z.mod_pos_bound n 10 ltac:(lia)). pose proof (Z.div_mod n 10 ltac:(lia)). rewrite Nat2Z.inj_succ, Z.pow_succ_r in Hn by lia.
    rewrite IH; [|lia|destruct fuel; [cbn in Hn; lia|lia]]. cbn [app readDigits]. rewrite Zbyte_digit by lia. rewrite bool_decide_eq_true_2 by lia.
    rewrite llen_app. change (llen [digit (n mod 10)]) with 1. rewrite Z.pow_add_r by (pose proof (llen_nonneg (digits fuel (n / 10))); lia). f_equal. lia.
Qed.

(** What may follow a value. *)
Definition stop (c : byte) : Prop := c = x2c \/ c = x7d.
Lemma readDigits_stop n c rest : stop c -> readDigits n (c :: rest) = (n, c :: rest).
Proof. by intros [-> | ->]. Qed.
Lemma digits_head fuel n : (0 < fuel)%nat -> 0 <= n -> exists m l, 0 <= m < 10 /\ digits fuel n = digit m :: l.
Proof.
  revert n. induction fuel as [|fuel IH]; intros n Hf Hn; [lia|]. cbn [digits]. case_bool_decide; [exists n, []; split; [lia|done]|].
  pose proof (Z.mod_pos_bound n 10 ltac:(lia)). destruct fuel as [|fuel]; [exists (n mod 10), []; done|]. destruct (IH (n / 10)) as (m & l & ? & ->); [lia|apply Z.div_pos; lia|]. by exists m, (l ++ [digit (n mod 10)]).
Qed.
Lemma after_digit b m l : 0 <= m < 10 -> Zbyte b < 48 \/ 57 < Zbyte b -> after b (digit m :: l) = None.
Proof. intros Hm Hb. unfold after. rewrite bool_decide_eq_false_2; [done|]. intros E. apply (f_equal Zbyte) in E. rewrite Zbyte_digit in E by done. lia. Qed.

Lemma readDecimal_decimal n c rest : in_i64 n -> stop c -> readDecimal (decimal n ++ c :: rest) = (n, c :: rest).
Proof.
  intros Hn Hc. unfold in_i64 in Hn. assert (Hd : forall k, 0 <= k < 10 ^ 19 -> readDigits 0 (digits 19 k ++ c :: rest) = (k, c :: rest)).
  { intros k Hk. rewrite readDigits_digits by (try done; lia). rewrite Z.mul_0_l, Z.add_0_l. by apply readDigits_stop. }
  change (10 ^ 19) with 10000000000000000000 in Hd. unfold decimal, readDecimal. case_bool_decide.
  - change ((x2d :: digits 19 (- n)) ++ c :: rest) with (x2d :: digits 19 (- n) ++ c :: rest). change (after x2d (x2d :: ?l)) with (Some l). cbv iota. rewrite Hd by lia. by rewrite Z.opp_involutive.
  - specialize (Hd n ltac:(lia)). destruct (digits_head 19 n) as (m & l & Hm & E); [lia|lia|]. rewrite E in *. cbn [app] in *. rewrite after_digit; [exact Hd|done|]. left. reflexivity.
Qed.

Lemma parseItems_commas {A} (item : list byte -> option (A * list byte)) (text : A -> list byte) xs rest : forall fuel, (length xs < fuel)%nat ->
  (forall a c l, a ∈ xs -> stop c -> item (text a ++ c :: l) = Some (a, c :: l)) -> (forall a l, after x7d (text a ++ l) = None) ->
  parseItems item fuel (commas (text <$> xs) ++ x7d :: rest) = Some (xs, rest).
Proof.
  induction xs as [|a xs IH]; intros fuel Hf Hi Hn; (destruct fuel as [|fuel]; [cbn in Hf; lia|]); [done|]. cbn [parseItems]. rewrite fmap_cons.
  destruct xs as [|b xs].
  - cbn [fmap list_fmap commas]. rewrite Hn, Hi by (try (by left); by right). done.
  - change (commas (text a :: (text <$> b :: xs))) with (text a ++ x2c :: commas (text <$> b :: xs)). rewrite <- app_assoc, Hn. cbn [app]. rewrite Hi by (try (by left)).
    cbn [mbind option_bind fst snd]. change (after x2c (x2c :: ?l)) with (Some l). cbv iota. rewrite IH; [done|cbn in *; lia| |done]. intros x c l Hx. apply Hi. by right.
Qed.
Lemma length_commas (l : list (list byte)) : Forall (fun t => t <> []) l -> (length l <= length (commas l))%nat.
Proof.
  induction 1 as [|t l Ht _ IH]; [done|]. destruct l as [|u l]; [destruct t; [done|cbn; lia]|]. change (commas (t :: u :: l)) with (t ++ x2c :: commas (u :: l)). rewrite length_app. cbn [length] in *. lia.
Qed.

Section Entries.
Context {A : Type} (value : list byte -> option (A * list byte)) (text : A -> list byte).
Definition entryText (p : string * A) : list byte := quoted p.1 ++ x3a :: text p.2.

Lemma parseEntry_text p c l : (forall c l, stop c -> value (text p.2 ++ c :: l) = Some (p.2, c :: l)) -> stop c -> parseEntry value (entryText p ++ c :: l) = Some (p, c :: l).
Proof.
  intros Hv Hc. unfold parseEntry, entryText. rewrite <- app_assoc, parseText_quoted. cbn [mbind option_bind fst snd app]. change (after x3a (x3a :: ?l)) with (Some l). cbn [mbind option_bind].
  rewrite Hv by done. by destruct p.
Qed.
Lemma parse_entries xs rest : (forall p c l, p ∈ xs -> stop c -> value (text p.2 ++ c :: l) = Some (p.2, c :: l)) ->
  parseItems (parseEntry value) (S (length (commas (entryText <$> xs) ++ x7d :: rest))) (commas (entryText <$> xs) ++ x7d :: rest) = Some (xs, rest).
Proof.
  intros Hv. apply parseItems_commas; [|intros p c l Hp Hc; apply parseEntry_text; [|done]; intros; by apply Hv|done].
  rewrite length_app. assert (length xs <= length (commas (entryText <$> xs)))%nat; [|lia]. rewrite <- (length_fmap entryText xs) at 1. apply length_commas, Forall_fmap, Forall_forall. by intros p _.
Qed.
End Entries.

Lemma after_decimal b n l : Zbyte b < 45 \/ 57 < Zbyte b -> after b (decimal n ++ l) = None.
Proof.
  intros Hb. unfold decimal. case_bool_decide.
  - unfold after. cbn [app]. rewrite bool_decide_eq_false_2; [done|]. intros <-. change (Zbyte x2d) with 45 in Hb. lia.
  - destruct (digits_head 19 n) as (m & k & Hm & ->); [lia|lia|]. cbn [app]. apply after_digit; [done|lia].
Qed.

Lemma parseValue_text `{RuneTable} v c l : plainValue v -> stop c -> parseValue (textOf v ++ c :: l) = Some (v, c :: l).
Proof.
  intros Hp Hc. unfold parseValue. destruct v as [s|n|m]; cbn [textOf].
  - by rewrite parseText_quoted.
  - unfold parseText. rewrite (after_decimal x22), (after_decimal x7b) by (first [by left|by right]). cbn [mbind option_bind]. by rewrite readDecimal_decimal.
  - change (parseText ((x7b :: ?t) ++ ?r)) with (@None (string * list byte)). cbv iota. change (after x7b ((x7b :: ?t) ++ ?r)) with (Some (t ++ r)). cbv iota. rewrite <- app_assoc. cbn [app].
    change (fun p : string * string => quoted p.1 ++ x3a :: quoted p.2) with (entryText quoted).
    rewrite parse_entries by (intros p d k _ _; apply parseText_quoted). done.
Qed.

Lemma parseObject_text `{RuneTable} fields : Forall (fun p => plainValue p.2) fields -> parseObject (objectText fields) = Some fields.
Proof.
  intros Hp. unfold parseObject, objectText. change (after x7b (x7b :: ?l)) with (Some l). cbn [mbind option_bind]. change (fun p : string * jvalue => quoted p.1 ++ x3a :: textOf p.2) with (entryText textOf).
  rewrite parse_entries; [done|]. intros p c l Hin Hc. apply parseValue_text; [|done]. rewrite Forall_forall in Hp. by apply Hp.
Qed.
Definition objectDecoder `{RuneTable} : DeliveryDecoder.
Proof.
  refine {| dd_unmarshal := fun l => match parseObject l with Some fields => match setFields fields zeroDelivery with Some d => inr d | None => inl (errOther "json") end | None => inl (errOther "json") end |}.
  intros fields d _ Hp Hd. by rewrite parseObject_text, Hd.
Defined.

Definition ex_runes : RuneTable.
Proof. refine {| rt_rune := fun l => (take 1 l, 0%nat) |}. intros l. cbn. rewrite length_take. lia. Defined.
Definition ex_order : MapRange.
Proof. by refine {| rangeMap := map_to_list |}. Defined.

Definition ex_sent : Delivery := mkDelivery "d1" "m1" "orders" "a \ é" {[ "content-type" := "text/plain" ]} 1700000000000 1 "eyJ" [x00; xff] "n1" 3 1700000060000.
Lemma ex_sent_plain : @plainDelivery ex_runes ex_sent.
Proof.
  split; [done| |done]. intros k v. unfold ex_sent. cbn [d_Headers]. intros [<- <-]%lookup_singleton_Some. done.
Qed.
Lemma ex_sent_fits : @metaBound ex_order ex_sent <= 65536 /\ llen (d_Payload ex_sent) <= 1048576 < 2 ^ 32.
Proof. vm_compute. done. Qed.
Lemma frame_roundtrip_witness : exists bytes, @writeFrame ex_runes ex_order (list byte) _ ex_sent [] = (bytes, None) /\ @readFrame ex_runes (@objectDecoder ex_runes) 1048576 (bytes ++ [x01]) = inr (clientView ex_sent, [x01]).
Proof. exact (@frame_roundtrip ex_runes ex_order (@objectDecoder ex_runes) ex_sent 1048576 [x01] ex_sent_plain (proj1 ex_sent_fits) (proj2 ex_sent_fits)). Defined.
