(* ===== verification/Session.v ===== *)
(** * A connected subscription

    What [subscribeOnce] of pkg/spruce/client.go starts once its stream is open: the loop that reads frames, a
    goroutine for each delivery, and the two [ackBatcher]s that send acknowledgements in groups. The goroutines share
    the [session]; every operation on a channel, a lock or the context is a step, and [sstep] lets the
    goroutines, the handlers, the brokers and the timers take them in any order. *)
From S2P Require Import Prelude Types GoIO Compression Client Frames.
#[local] Open Scope Z_scope.

Inductive kind := Ack | Nack.
#[export] Instance kind_eq_dec : EqDecision kind.
Proof. solve_decision. Defined.
(** How a [Handler] returns. *)
Inductive handled := hNil | hError | hPanic.

(** The errors of a subscription: [ctx.Err()], [ErrHandlerDrainTimeout], [HandlerPanicError], and those of calls. *)
Inductive suberror := Canceled | DrainTimeout | HandlerPanic | Failed (e : cerror).

(** [type ackItem struct]; [done] is the channel of the worker [ai_worker]. *)
Record ackItem := mkAckItem { ai_id : string; ai_worker : Z }.

(** [type ackBatcher struct] with the position of its goroutine; [aq_posted] are its requests so far, with their results. *)
Inductive ackLoop := ackIdle | ackCollecting (batch : list ackItem) | ackPosting (batch : list ackItem) | ackStopped.
Record ackBatcher := mkAckBatcher { aq_items : list ackItem; aq_loop : ackLoop; aq_posted : list (list string * option suberror) }.
#[export] Instance ackBatcher_settable : Settable ackBatcher := fun r => mkAckBatcher (aq_items r) (aq_loop r) (aq_posted r).
#[export] Instance set_aq_items : Setter aq_items := ltac:(derive_setter).
#[export] Instance set_aq_loop : Setter aq_loop := ltac:(derive_setter).
#[export] Instance set_aq_posted : Setter aq_posted := ltac:(derive_setter).

Definition newAckBatcher : ackBatcher := mkAckBatcher [] ackIdle [].
Definition ackItems : Z := 1024.
Definition ackBatch : Z := 256.

(** The goroutine of a delivery: where it stands, how its handler has returned, and the [done] channel of the item it has submitted. *)
Inductive phase :=
| handling
| submitting (k : kind) (h : handled)
| awaiting (k : kind) (h : handled)
| completing
| releasing (n : nat)
| exiting
| gone.
Record worker := mkWorker { wk_delivery : ClientDelivery; wk_phase : phase; wk_handled : option handled; wk_done : option (option suberror) }.
#[export] Instance worker_settable : Settable worker := fun r => mkWorker (wk_delivery r) (wk_phase r) (wk_handled r) (wk_done r).
#[export] Instance set_wk_phase : Setter wk_phase := ltac:(derive_setter).
#[export] Instance set_wk_handled : Setter wk_handled := ltac:(derive_setter).
#[export] Instance set_wk_done : Setter wk_done := ltac:(derive_setter).

(** The loop over frames: reading one, waiting for a place in [progressWindow] and in [sem], [drainWorkers], the end. *)
Inductive mainLoop :=
| reading
| admitting (d : ClientDelivery)
| starting (d : ClientDelivery)
| draining (e : suberror) (fromRead : bool)
| returned (cursor : string) (e : suberror).

Record session := mkSession {
  ss_main : mainLoop;
  ss_cancelled : bool;
  ss_cursor : string;
  ss_sequence : Z;
  ss_sem : Z;
  ss_window : Z;
  ss_workerErrors : option suberror;
  ss_nextProgress : Z;
  ss_completed : gmap Z string;
  ss_workers : gmap Z worker;
  ss_acks : ackBatcher;
  ss_nacks : ackBatcher;
  ss_taken : list ClientDelivery;
}.
#[export] Instance session_settable : Settable session := fun r => mkSession (ss_main r) (ss_cancelled r) (ss_cursor r) (ss_sequence r) (ss_sem r) (ss_window r)
  (ss_workerErrors r) (ss_nextProgress r) (ss_completed r) (ss_workers r) (ss_acks r) (ss_nacks r) (ss_taken r).
#[export] Instance set_ss_main : Setter ss_main := ltac:(derive_setter).
#[export] Instance set_ss_cancelled : Setter ss_cancelled := ltac:(derive_setter).
#[export] Instance set_ss_cursor : Setter ss_cursor := ltac:(derive_setter).
#[export] Instance set_ss_sequence : Setter ss_sequence := ltac:(derive_setter).
#[export] Instance set_ss_sem : Setter ss_sem := ltac:(derive_setter).
#[export] Instance set_ss_window : Setter ss_window := ltac:(derive_setter).
#[export] Instance set_ss_workerErrors : Setter ss_workerErrors := ltac:(derive_setter).
#[export] Instance set_ss_nextProgress : Setter ss_nextProgress := ltac:(derive_setter).
#[export] Instance set_ss_completed : Setter ss_completed := ltac:(derive_setter).
#[export] Instance set_ss_workers : Setter ss_workers := ltac:(derive_setter).
#[export] Instance set_ss_acks : Setter ss_acks := ltac:(derive_setter).
#[export] Instance set_ss_nacks : Setter ss_nacks := ltac:(derive_setter).
#[export] Instance set_ss_taken : Setter ss_taken := ltac:(derive_setter).

Definition newSession (initial : string) : session :=
  mkSession reading false initial 0 0 0 None 1 ∅ ∅ newAckBatcher newAckBatcher [].

Definition queueOf (k : kind) (s : session) : ackBatcher := match k with Ack => ss_acks s | Nack => ss_nacks s end.

Section Session.
Context (gzip zstd : Codec) (concurrency maxPayload : Z).
Abbreviation SM := (GoM session).

(** A blocking operation that is not ready panics here; the steps are guarded, or shown to be ready. *)
Definition inQueue {A} (k : kind) (m : GoM ackBatcher A) : SM A :=
  gzoom (queueOf k) (fun q s => match k with Ack => s <| ss_acks := q |> | Nack => s <| ss_nacks := q |> end) m.
Definition workerAt (i : Z) : SM worker := s <- gget ;; glift (ss_workers s !! i).
Definition updateWorker (i : Z) (f : worker -> worker) : SM unit := gmodify (fun s => s <| ss_workers := alter f i (ss_workers s) |>).
Definition goto (i : Z) (p : phase) : SM unit := updateWorker i (fun w => w <| wk_phase := p |>).
Definition cancel : SM unit := gmodify (fun s => s <| ss_cancelled := true |>).

(** ** Completion in order *)
Fixpoint advanceProgress (fuel : nat) : SM nat :=
  match fuel with
  | O => gpanic
  | S fuel =>
    s <- gget ;;
    match ss_completed s !! ss_nextProgress s with
    | None => gret O
    | Some value =>
      gmodify (fun s => s <| ss_completed := delete (ss_nextProgress s) (ss_completed s) |>) ;;;
      gwhen (negb (bool_decide (value = ""))) (gmodify (fun s => s <| ss_cursor := value |>)) ;;;
      gmodify (fun s => s <| ss_nextProgress := u64 (ss_nextProgress s + 1) |>) ;;;
      n <- advanceProgress fuel ;;
      gret (S n)
    end
  end.
(** [markComplete] up to the release of its lock; each turn of the loop takes an entry of [completed]. *)
Definition markComplete (index : Z) (value : string) : SM nat :=
  gmodify (fun s => s <| ss_completed := <[index := value]> (ss_completed s) |>) ;;;
  s <- gget ;;
  advanceProgress (S (size (ss_completed s))).

(** ** The goroutine of a delivery *)

(** [select { case workerErrors <- e: cancel(); default: }] *)
Definition offerError (e : suberror) : SM unit :=
  s <- gget ;;
  match ss_workerErrors s with
  | None => gmodify (fun s => s <| ss_workerErrors := Some e |>) ;;; cancel
  | Some _ => gret tt
  end.

Definition onHandled (i : Z) (h : handled) : SM unit :=
  updateWorker i (fun w => w <| wk_handled := Some h |>) ;;;
  goto i (submitting (match h with hNil => Ack | _ => Nack end) h).
(** [b.items <- item] of [submit] *)
Definition submitItem (i : Z) (k : kind) (h : handled) : SM unit :=
  w <- workerAt i ;;
  inQueue k (gmodify (fun q => q <| aq_items := aq_items q ++ [mkAckItem (cd_DeliveryID (wk_delivery w)) i] |>)) ;;;
  goto i (awaiting k h).
Definition submitFailed (i : Z) (e : suberror) : SM unit := offerError e ;;; goto i exiting.
(** What follows the end of [submit]. *)
Definition onSubmitted (i : Z) (h : handled) (err : option suberror) : SM unit :=
  match err with
  | Some e => submitFailed i e
  | None =>
    match h with
    | hNil => goto i completing
    | hPanic => offerError HandlerPanic ;;; goto i exiting
    | hError => cancel ;;; goto i exiting
    end
  end.
Definition onComplete (i : Z) : SM unit :=
  w <- workerAt i ;;
  n <- markComplete i (cd_Cursor (wk_delivery w)) ;;
  goto i (releasing n).
(** [<-progressWindow] *)
Definition releaseOne (i : Z) (n : nat) : SM unit :=
  s <- gget ;;
  if bool_decide (ss_window s <= 0) then gpanic else
  gmodify (fun s => s <| ss_window := ss_window s - 1 |>) ;;;
  goto i (releasing n).
(** [<-sem] *)
Definition onExit (i : Z) : SM unit :=
  s <- gget ;;
  if bool_decide (ss_sem s <= 0) then gpanic else
  gmodify (fun s => s <| ss_sem := ss_sem s - 1 |>) ;;;
  goto i gone.

(** ** The goroutine of an [ackBatcher] *)

(** [item.done <- err]; the channel holds one. *)
Definition answerItem (err : option suberror) (item : ackItem) : SM unit :=
  w <- workerAt (ai_worker item) ;;
  match wk_done w with
  | None => updateWorker (ai_worker item) (fun w => w <| wk_done := Some err |>)
  | Some _ => gpanic
  end.
(** [case item := <-b.items] *)
Definition takeItem (k : kind) (batch : list ackItem) : SM unit :=
  s <- gget ;;
  match aq_items (queueOf k s) with
  | [] => gpanic
  | item :: items => inQueue k (gmodify (fun q => (q <| aq_items := items |>) <| aq_loop := ackCollecting (batch ++ [item]) |>))
  end.
Definition postBatch (k : kind) (batch : list ackItem) : SM unit :=
  inQueue k (gmodify (fun q => q <| aq_loop := ackPosting batch |>)).
Definition answerBatch (k : kind) (batch : list ackItem) (err : option suberror) : SM unit :=
  gfor batch (answerItem err) ;;;
  inQueue k (gmodify (fun q => (q <| aq_loop := ackIdle |>) <| aq_posted := aq_posted q ++ [(ai_id <$> batch, err)] |>)).
Definition abortBatch (k : kind) (batch : list ackItem) : SM unit :=
  gfor batch (answerItem (Some Canceled)) ;;;
  inQueue k (gmodify (fun q => q <| aq_loop := ackStopped |>)).

(** ** The loop over frames *)

(** [return cursor.Load(), e], with the deferred [cancel]. *)
Definition finish (e : suberror) : SM unit :=
  cancel ;;; gmodify (fun s => s <| ss_main := returned (ss_cursor s) e |>).
Definition onFrame (frame : error + ClientDelivery) : SM unit :=
  match frame with
  | inl e =>
    gwhen (negb (bool_decide (e = errEOF))) cancel ;;;
    gmodify (fun s => s <| ss_main := draining (Failed (Plain e)) true |>)
  | inr d =>
    if bool_decide (cd_DeliveryID d = "") then gret tt else
    match decompressPayload gzip zstd (cd_Payload d) maxPayload with
    | inl e => finish (Failed (Plain e))
    | inr payload => gmodify (fun s => s <| ss_main := admitting (d <| cd_Payload := payload |>) |>)
    end
  end.
(** [progressWindow <- struct{}{}] *)
Definition onWindow (d : ClientDelivery) : SM unit :=
  gmodify (fun s => (s <| ss_window := ss_window s + 1 |>) <| ss_main := starting d |>).
(** [sem <- struct{}{}] and [go func() ...]. *)
Definition onSlot (d : ClientDelivery) : SM unit :=
  gmodify (fun s => s <| ss_sem := ss_sem s + 1 |>) ;;;
  gmodify (fun s => s <| ss_sequence := u64 (ss_sequence s + 1) |>) ;;;
  gmodify (fun s => ((s <| ss_workers := <[ss_sequence s := mkWorker d handling None None]> (ss_workers s) |>)
    <| ss_taken := ss_taken s ++ [d] |>) <| ss_main := reading |>).
Definition onCancelled (window : bool) : SM unit :=
  s <- gget ;;
  (if window : bool then if bool_decide (ss_window s <= 0) then gpanic else gmodify (fun s => s <| ss_window := ss_window s - 1 |>) else gret tt) ;;;
  gmodify (fun s => s <| ss_main := draining Canceled false |>).
Definition onDrained (e : suberror) (fromRead : bool) : SM unit :=
  s <- gget ;;
  match (if fromRead : bool then ss_workerErrors s else None) with
  | Some workerErr => gmodify (fun s => s <| ss_workerErrors := None |>) ;;; finish workerErr
  | None => finish e
  end.

(** ** Interleavings *)
Inductive sstep (s s' : session) : Prop :=
| st_cancel : cancel s = Some (tt, s') -> sstep s s'
| st_frame frame : ss_main s = reading -> onFrame frame s = Some (tt, s') -> sstep s s'
| st_window d : ss_main s = admitting d -> ss_window s < concurrency -> onWindow d s = Some (tt, s') -> sstep s s'
| st_window_done d : ss_main s = admitting d -> ss_cancelled s = true -> onCancelled false s = Some (tt, s') -> sstep s s'
| st_slot d : ss_main s = starting d -> ss_sem s < concurrency -> onSlot d s = Some (tt, s') -> sstep s s'
| st_slot_done d : ss_main s = starting d -> ss_cancelled s = true -> onCancelled true s = Some (tt, s') -> sstep s s'
| st_drained e fromRead : ss_main s = draining e fromRead -> ss_sem s = 0 -> onDrained e fromRead s = Some (tt, s') -> sstep s s'
| st_drain_timeout e fromRead : ss_main s = draining e fromRead -> finish DrainTimeout s = Some (tt, s') -> sstep s s'
| st_handled i w h : ss_workers s !! i = Some w -> wk_phase w = handling -> onHandled i h s = Some (tt, s') -> sstep s s'
| st_submit i w k h : ss_workers s !! i = Some w -> wk_phase w = submitting k h -> llen (aq_items (queueOf k s)) < ackItems -> submitItem i k h s = Some (tt, s') -> sstep s s'
| st_submit_done i w k h : ss_workers s !! i = Some w -> wk_phase w = submitting k h \/ wk_phase w = awaiting k h -> ss_cancelled s = true -> submitFailed i Canceled s = Some (tt, s') -> sstep s s'
| st_submitted i w k h err : ss_workers s !! i = Some w -> wk_phase w = awaiting k h -> wk_done w = Some err -> onSubmitted i h err s = Some (tt, s') -> sstep s s'
| st_complete i w : ss_workers s !! i = Some w -> wk_phase w = completing -> onComplete i s = Some (tt, s') -> sstep s s'
| st_release i w n : ss_workers s !! i = Some w -> wk_phase w = releasing (S n) -> releaseOne i n s = Some (tt, s') -> sstep s s'
| st_released i w : ss_workers s !! i = Some w -> wk_phase w = releasing 0 -> goto i exiting s = Some (tt, s') -> sstep s s'
| st_exit i w : ss_workers s !! i = Some w -> wk_phase w = exiting -> onExit i s = Some (tt, s') -> sstep s s'
| st_first k : aq_loop (queueOf k s) = ackIdle -> aq_items (queueOf k s) <> [] -> takeItem k [] s = Some (tt, s') -> sstep s s'
| st_idle_done k : aq_loop (queueOf k s) = ackIdle -> ss_cancelled s = true -> inQueue k (gmodify (fun q => q <| aq_loop := ackStopped |>)) s = Some (tt, s') -> sstep s s'
| st_collect k batch : aq_loop (queueOf k s) = ackCollecting batch -> llen batch < ackBatch -> aq_items (queueOf k s) <> [] -> takeItem k batch s = Some (tt, s') -> sstep s s'
| st_collect_done k batch : aq_loop (queueOf k s) = ackCollecting batch -> llen batch < ackBatch -> ss_cancelled s = true -> abortBatch k batch s = Some (tt, s') -> sstep s s'
| st_post k batch : aq_loop (queueOf k s) = ackCollecting batch -> postBatch k batch s = Some (tt, s') -> sstep s s'
| st_answer k batch err : aq_loop (queueOf k s) = ackPosting batch -> answerBatch k batch err s = Some (tt, s') -> sstep s s'.

Inductive sreach (initial : string) : session -> Prop :=
| sr_new : sreach initial (newSession initial)
| sr_step s s' : sreach initial s -> sstep s s' -> sreach initial s'.
End Session.
