(* ===== verification/SessionInv.v ===== *)
(** * A connected subscription: the invariant of every interleaving

    [progressed]: indices, the window and the cursor; [acknowledged]: items, answers and what the broker has
    confirmed.  [session_ok] holds in every reachable state. *)
From S2P Require Import Prelude Types GoIO Compression Client Frames Session.
#[local] Open Scope Z_scope.

(** The cursor after a sequence of deliveries; an empty one changes nothing. *)
Definition lastCursor (initial : string) (l : list ClientDelivery) : string :=
  foldl (fun c d => if bool_decide (cd_Cursor d = "") then c else cd_Cursor d) initial l.

Definition tokens (m : mainLoop) : Z := match m with starting _ => 1 | _ => 0 end.
Definition owed (p : phase) : Z := match p with releasing n => Z.of_nat n | _ => 0 end.
Definition running (p : phase) : Z := match p with gone => 0 | _ => 1 end.
Definition settled (p : phase) : bool := match p with releasing _ | exiting | gone => true | _ => false end.
Definition itemIDOf (w : worker) : string := cd_DeliveryID (wk_delivery w).

Definition loopBatch (l : ackLoop) : list ackItem := match l with ackCollecting b | ackPosting b => b | _ => [] end.
Definition outstandingIn (q : ackBatcher) : list ackItem := loopBatch (aq_loop q) ++ aq_items q.
Definition outstanding (k : kind) (s : session) : list ackItem := outstandingIn (queueOf k s).
(** The broker has answered a request of a kind that names an identifier with a success. *)
Definition confirmed (k : kind) (id : string) (s : session) : Prop := exists ids, (ids, None) ∈ aq_posted (queueOf k s) /\ id ∈ ids.
Definition absent (i : Z) (s : session) : Prop := forall k x, x ∈ outstanding k s -> ai_worker x <> i.
(** Completed in [markComplete], whether the cursor is past it or not. *)
Definition marked (i : Z) (s : session) : Prop := i < ss_nextProgress s \/ is_Some (ss_completed s !! i).

Section Invariant.
Context (initial : string) (concurrency : Z).

(** [extra] tokens of the window are about to be released. *)
Record progressing (extra : Z) (s : session) : Prop := {
  pr_seq : ss_sequence s = llen (ss_taken s);
  pr_at : forall i w, ss_workers s !! i = Some w -> 1 <= i <= ss_sequence s /\ ss_taken s !! Z.to_nat (i - 1) = Some (wk_delivery w);
  pr_all : forall i, 1 <= i <= ss_sequence s -> is_Some (ss_workers s !! i);
  pr_next : 1 <= ss_nextProgress s <= ss_sequence s + 1;
  pr_completed : forall i v, ss_completed s !! i = Some v -> ss_nextProgress s <= i <= ss_sequence s /\ exists w, ss_workers s !! i = Some w /\ v = cd_Cursor (wk_delivery w);
  pr_cursor : ss_cursor s = lastCursor initial (take (Z.to_nat (ss_nextProgress s - 1)) (ss_taken s));
  pr_window : ss_window s = ss_sequence s - (ss_nextProgress s - 1) + msum (fun _ w => owed (wk_phase w)) (ss_workers s) + tokens (ss_main s) + extra;
  pr_sem : ss_sem s = msum (fun _ w => running (wk_phase w)) (ss_workers s);
  pr_bounds : ss_window s <= concurrency /\ ss_sem s <= concurrency;
}.
Definition progressed (s : session) : Prop := progressing 0 s /\ ss_completed s !! ss_nextProgress s = None.

(** The handler has returned no error, and the broker has confirmed the acknowledgement. *)
Definition succeeded (w : worker) (s : session) : Prop := confirmed Ack (itemIDOf w) s /\ wk_handled w = Some hNil.
(** What the phase of a worker says of its item. *)
Definition phase_ok (i : Z) (w : worker) (s : session) : Prop :=
  match wk_phase w with
  | handling => wk_done w = None /\ absent i s
  | submitting k h => wk_done w = None /\ absent i s /\ (k = Ack <-> h = hNil) /\ wk_handled w = Some h
  | awaiting k h => ((k = Ack <-> h = hNil) /\ wk_handled w = Some h) /\ (wk_done w = Some None -> confirmed k (itemIDOf w) s)
  | completing => succeeded w s
  | _ => True
  end.
Record acknowledged (s : session) : Prop := {
  ak_marked : forall i w, ss_workers s !! i = Some w -> marked i s -> settled (wk_phase w) = true /\ succeeded w s;
  ak_phase : forall i w, ss_workers s !! i = Some w -> phase_ok i w s;
  ak_items : forall k x, x ∈ outstanding k s -> exists w, ss_workers s !! ai_worker x = Some w /\ ai_id x = itemIDOf w /\ wk_done w = None /\ forall k' h, wk_phase w = awaiting k' h -> k' = k;
  ak_once : NoDup (ai_worker <$> outstanding Ack s ++ outstanding Nack s);
  ak_batch : forall k, llen (loopBatch (aq_loop (queueOf k s))) <= ackBatch /\ llen (aq_items (queueOf k s)) <= ackItems;
}.
Definition returned_ok (s : session) : Prop := forall cursor e, ss_main s = returned cursor e -> exists n, (Z.of_nat n < ss_nextProgress s) /\ cursor = lastCursor initial (take n (ss_taken s)).

Record session_ok (s : session) : Prop := {
  so_progressed : progressed s;
  so_acknowledged : acknowledged s;
  so_returned : returned_ok s;
}.

(** ** Changes that keep it *)

(** The context, the worker errors and the positions of the main loop that hold nothing do not matter. *)
Definition quiet (s s' : session) : Prop :=
  s' = mkSession (ss_main s') (ss_cancelled s') (ss_cursor s) (ss_sequence s) (ss_sem s) (ss_window s) (ss_workerErrors s') (ss_nextProgress s) (ss_completed s) (ss_workers s)
    (ss_acks s) (ss_nacks s) (ss_taken s) /\ tokens (ss_main s') = tokens (ss_main s).
Lemma ok_quiet s s' : quiet s s' -> returned_ok s' -> session_ok s -> session_ok s'.
Proof.
  destruct s, s'. intros [E Et] Hr [[[P1 P2 P3 P4 P5 P7 P8 P9 P10] P6] [A1 A2 A3 A4 A5] _]. injection E as -> -> -> -> -> -> -> -> -> ->. cbn in Et.
  split; [split; [split|]| |]; try done; cbn in *; first [by rewrite Et|by split].
Qed.

Lemma alter_insert {A} (f : A -> A) i (m : gmap Z A) x : m !! i = Some x -> alter f i m = <[i := f x]> m.
Proof. intros Hx. apply map_eq. intros j. destruct (decide (j = i)) as [->|Hne]; [by rewrite lookup_alter_eq, lookup_insert_eq, Hx|by rewrite lookup_alter_ne, lookup_insert_ne]. Qed.

(** One worker moves; the semaphore and the window follow. *)
Lemma progressed_worker s i w w' window sem : progressed s -> ss_workers s !! i = Some w -> wk_delivery w' = wk_delivery w ->
  window - owed (wk_phase w') = ss_window s - owed (wk_phase w) -> sem - running (wk_phase w') = ss_sem s - running (wk_phase w) -> window <= concurrency -> sem <= concurrency ->
  progressed (((s <| ss_workers := <[i := w']> (ss_workers s) |>) <| ss_window := window |>) <| ss_sem := sem |>).
Proof.
  intros [[P1 P2 P3 P4 P5 P7 P8 P9 P10] P6] Hw Hd Ewin Esem B1 B2. split; [split|done]; cbn; try done.
  - intros j v. destruct (decide (j = i)) as [->|Hne]; [rewrite lookup_insert_eq; intros [= <-]; rewrite Hd; by apply P2|rewrite lookup_insert_ne by done; apply P2].
  - intros j Hj. destruct (decide (j = i)) as [->|Hne]; [rewrite lookup_insert_eq; by eexists|rewrite lookup_insert_ne by done; by apply P3].
  - intros j v Hj. destruct (P5 j v Hj) as (? & x & Hx & ->). split; [done|]. destruct (decide (j = i)) as [->|Hne]; [|exists x; by rewrite lookup_insert_ne].
    exists w'. rewrite lookup_insert_eq. split; [done|]. rewrite Hd. congruence.
  - rewrite (msum_update _ _ _ w) by done. lia.
  - rewrite (msum_update _ _ _ w) by done. lia.
Qed.

Lemma acknowledged_worker s i w w' : acknowledged s -> ss_workers s !! i = Some w -> wk_delivery w' = wk_delivery w -> wk_done w' = wk_done w ->
  (settled (wk_phase w) = true -> settled (wk_phase w') = true /\ wk_handled w' = wk_handled w) -> phase_ok i w' s -> (forall k h, wk_phase w' <> awaiting k h) ->
  acknowledged (s <| ss_workers := <[i := w']> (ss_workers s) |>).
Proof.
  intros [A1 A2 A3 A4 A5] Hw Hd Hdone Hs Hp Ha. split; [| | |exact A4|exact A5].
  - intros j v. cbn. destruct (decide (j = i)) as [->|Hne]; [rewrite lookup_insert_eq; intros [= <-]|rewrite lookup_insert_ne by done; apply A1].
    intros Hm. destruct (A1 i w Hw Hm) as [H1 H2]. destruct (Hs H1) as [H3 H4]. split; [exact H3|]. unfold succeeded, itemIDOf in *. by rewrite Hd, H4.
  - intros j v. cbn. destruct (decide (j = i)) as [->|Hne]; [rewrite lookup_insert_eq; by intros [= <-]|rewrite lookup_insert_ne by done; apply A2].
  - intros k x Hx. cbn. destruct (A3 k x Hx) as (v & Hv & H1 & H2 & H3). destruct (decide (ai_worker x = i)) as [Hi|Hne]; [|exists v; by rewrite lookup_insert_ne].
    rewrite Hi in *. exists w'. rewrite lookup_insert_eq. assert (v = w) as -> by congruence. split; [done|]. unfold itemIDOf in *. rewrite Hd, Hdone. split_and!; [done..|].
    intros k' h Hk. by destruct (Ha k' h).
Qed.

Lemma wp_goto i p s w (Q : unit -> session -> Prop) : session_ok s -> ss_workers s !! i = Some w -> owed p = owed (wk_phase w) -> running p = running (wk_phase w) ->
  (settled (wk_phase w) = true -> settled p = true) -> (forall k h, p <> awaiting k h) -> phase_ok i (w <| wk_phase := p |>) s ->
  (forall s', session_ok s' -> Q tt s') -> wp (goto i p) s Q.
Proof.
  intros [P A R] Hw Ho Hr Hs Ha Hp HQ. apply wp_modify, HQ. rewrite (alter_insert _ _ _ w) by done. split; [| |done].
  - pose proof (pr_bounds _ _ (proj1 P)) as [B1 B2].
    apply (progressed_worker s i w (w <| wk_phase := p |>) (ss_window s) (ss_sem s)) in P; [destruct s; exact P|done|done|cbn; lia|cbn; lia|done|done].
  - apply (acknowledged_worker s i w); [done|done|done|done|by auto|done|done].
Qed.

(** ** Completion *)
Lemma lastCursor_snoc c l d : lastCursor c (l ++ [d]) = if bool_decide (cd_Cursor d = "") then lastCursor c l else cd_Cursor d.
Proof. unfold lastCursor. by rewrite foldl_snoc. Qed.

(** What [advanceProgress] leaves alone. *)
Definition moved (s s' : session) : Prop :=
  s' = mkSession (ss_main s) (ss_cancelled s) (ss_cursor s') (ss_sequence s) (ss_sem s) (ss_window s) (ss_workerErrors s) (ss_nextProgress s') (ss_completed s') (ss_workers s)
    (ss_acks s) (ss_nacks s) (ss_taken s) /\ ss_nextProgress s <= ss_nextProgress s' /\ forall j, marked j s' -> marked j s.

Lemma wp_advanceProgress fuel : forall s extra (Q : nat -> session -> Prop), progressing extra s -> (size (ss_completed s) < fuel)%nat -> llen (ss_taken s) < 2 ^ 64 - 1 ->
  (forall n s', progressing (extra + Z.of_nat n) s' -> ss_completed s' !! ss_nextProgress s' = None -> moved s s' -> Q n s') -> wp (advanceProgress fuel) s Q.
Proof.
  change (2 ^ 64) with 18446744073709551616.
  induction fuel as [|fuel IH]; intros s extra Q P Hf Hb HQ; [lia|]. cbn [advanceProgress]. apply wp_bind, wp_get.
  destruct (ss_completed s !! ss_nextProgress s) as [value|] eqn:Hv.
  - pose proof P as [P1 P2 P3 P4 P5 P7 P8 P9 P10]. destruct (P5 _ _ Hv) as (Hn & w & Hw & ->). destruct (P2 _ _ Hw) as [_ Ht].
    assert (Hsize : (size (delete (ss_nextProgress s) (ss_completed s)) < size (ss_completed s))%nat).
    { rewrite map_size_delete, Hv. assert (size (ss_completed s) <> 0%nat); [|lia]. intros Hz. apply map_size_empty_iff in Hz. by rewrite Hz, lookup_empty in Hv. }
    set (s1 := (s <| ss_completed := delete (ss_nextProgress s) (ss_completed s) |>)).
    set (s2 := if bool_decide (cd_Cursor (wk_delivery w) = "") then s1 else s1 <| ss_cursor := cd_Cursor (wk_delivery w) |>).
    set (s3 := s2 <| ss_nextProgress := ss_nextProgress s + 1 |>).
    apply wp_bind, wp_modify. fold s1. apply wp_bind. apply (wp_intro _ _ tt s2); [unfold s2; by case_bool_decide|]. apply wp_bind, wp_modify.
    assert (En : ss_nextProgress s2 = ss_nextProgress s) by (unfold s2; by case_bool_decide). rewrite En, u64_id by (unfold in_u64; lia). fold s3. apply wp_bind.
    assert (Ec : ss_completed s3 = delete (ss_nextProgress s) (ss_completed s)) by (unfold s3, s2, s1; by case_bool_decide).
    assert (Em : moved s s3).
    { split; [unfold s3, s2, s1; destruct s; by case_bool_decide|]. split; [change (ss_nextProgress s <= ss_nextProgress s + 1); lia|].
      intros j [Hj|Hj]; [change (j < ss_nextProgress s + 1) in Hj|rewrite Ec in Hj].
      - destruct (decide (j = ss_nextProgress s)) as [->|]; [right; rewrite Hv; by eexists|left; lia].
      - destruct Hj as [x [_ Hd]%lookup_delete_Some]. right. by eexists. }
    assert (Ecur : ss_cursor s3 = lastCursor initial (take (Z.to_nat (ss_nextProgress s + 1 - 1)) (ss_taken s))).
    { replace (Z.to_nat (ss_nextProgress s + 1 - 1)) with (S (Z.to_nat (ss_nextProgress s - 1))) by lia. rewrite (take_S_r _ _ _ Ht), lastCursor_snoc, <- P7.
      unfold s3, s2, s1. by case_bool_decide. }
    assert (En3 : ss_nextProgress s3 = ss_nextProgress s + 1) by done. clearbody s3. destruct Em as (Em & N1 & M1).
    apply (IH s3 (extra + 1)).
    + rewrite Em, En3. split; cbn; try done; [lia| |lia].
      intros j v. rewrite Ec. intros [Hne Hj]%lookup_delete_Some. destruct (P5 j v Hj) as (? & ?). split; [lia|done].
    + rewrite Ec. lia.
    + by rewrite Em.
    + intros n s' P' Hg M. apply wp_ret, HQ; [|done|].
      * replace (extra + Z.of_nat (S n)) with (extra + 1 + Z.of_nat n) by lia. done.
      * destruct M as (E2 & N2 & M2). split; [rewrite E2, Em; done|]. split; [lia|]. intros j Hj. by apply M1, M2.
  - apply wp_ret, HQ; [by rewrite Z.add_0_r|done|]. split; [by destruct s|]. split; [lia|done].
Qed.

Lemma wp_onComplete i s w : session_ok s -> ss_workers s !! i = Some w -> wk_phase w = completing -> llen (ss_taken s) < 2 ^ 64 - 1 ->
  wp (onComplete i) s (fun _ => session_ok).
Proof.
  intros [[P G] A R] Hw Hp Hb. unfold onComplete. apply wp_bind. unfold workerAt. apply wp_bind, wp_get. eapply wp_lift; [exact Hw|].
  assert (Hn : ~ marked i s) by (intros Hm; destruct (ak_marked _ A i w Hw Hm) as [Hs _]; by rewrite Hp in Hs).
  assert (Hi : ss_nextProgress s <= i) by (destruct (Z.lt_ge_cases i (ss_nextProgress s)); [exfalso; apply Hn; by left|done]).
  pose proof (pr_at _ _ P i w Hw) as [Hr Ht]. set (s1 := s <| ss_completed := <[i := cd_Cursor (wk_delivery w)]> (ss_completed s) |>).
  assert (P1 : progressing 0 s1).
  { destruct P as [P1 P2 P3 P4 P5 P7 P8 P9 P10]. split; try done. cbn. intros j v. destruct (decide (j = i)) as [->|Hne].
    - rewrite lookup_insert_eq. intros [= <-]. split; [lia|]. by exists w.
    - rewrite lookup_insert_ne by done. apply P5. }
  apply wp_bind. unfold markComplete. apply wp_bind, wp_modify. fold s1. apply wp_bind, wp_get. eapply wp_advanceProgress; [exact P1|lia|exact Hb|].
  intros n s2 P2 G2 (E2 & N2 & M2). apply wp_modify. assert (Ew : ss_workers s2 = ss_workers s) by (by rewrite E2).
  rewrite (alter_insert _ _ _ w) by (by rewrite Ew). set (w' := w <| wk_phase := releasing n |>).
  assert (Hpi : phase_ok i w s) by (by apply (ak_phase _ A)). unfold phase_ok in Hpi. rewrite Hp in Hpi.
  assert (Ea : ss_acks s2 = ss_acks s) by (by rewrite E2). assert (En : ss_nacks s2 = ss_nacks s) by (by rewrite E2).
  assert (Em : ss_main s2 = ss_main s) by (by rewrite E2). assert (Et : ss_taken s2 = ss_taken s) by (by rewrite E2). split.
  - destruct P2 as [Q1 Q2 Q3 Q4 Q5 Q7 Q8 Q9 Q10]. split; [|exact G2]. clear E2. split; cbn; try done.
    + intros j v. destruct (decide (j = i)) as [->|Hne]; [rewrite lookup_insert_eq; intros [= <-]; apply (Q2 i w); by rewrite Ew|rewrite lookup_insert_ne by done; apply Q2].
    + intros j Hj. destruct (decide (j = i)) as [->|Hne]; [rewrite lookup_insert_eq; by eexists|rewrite lookup_insert_ne by done; by apply Q3].
    + intros j v Hj. destruct (Q5 j v Hj) as (? & x & Hx & ->). split; [done|]. destruct (decide (j = i)) as [->|Hne]; [|exists x; by rewrite lookup_insert_ne].
      exists w'. rewrite lookup_insert_eq. split; [done|]. rewrite Ew in Hx. by assert (x = w) as -> by congruence.
    + rewrite (msum_update _ _ _ w) by (by rewrite Ew). rewrite Hp. cbn. lia.
    + rewrite (msum_update _ _ _ w) by (by rewrite Ew). rewrite Hp. cbn. lia.
  - assert (Am : acknowledged (s <| ss_workers := <[i := w']> (ss_workers s) |>)) by (apply (acknowledged_worker s i w); [done|done|done|done|by rewrite Hp|done|done]).
    destruct Am as [_ A2 A3 A4 A5]. clear E2. destruct s2 as [x1 x2 x3 x4 x5 x6 x7 x8 x9 x10 x11 x12 x13]. cbn in Ew, Ea, En, Em. subst. split; try done.
    intros j v Hv Hm. cbn in Hv. apply M2 in Hm. destruct (decide (j = i)) as [->|Hne].
    + rewrite lookup_insert_eq in Hv. injection Hv as <-. done.
    + rewrite lookup_insert_ne in Hv by done. apply (ak_marked _ A j v Hv). destruct Hm as [Hm|Hm]; [by left|right]. cbn in Hm. by rewrite lookup_insert_ne in Hm.
  - intros cursor e Hc. cbn in Hc. rewrite Em in Hc. destruct (R cursor e Hc) as (k & Hk & ->). exists k. cbn. rewrite Et. split; [cbn in N2; lia|done].
Qed.

(** ** Tokens: a worker that releases what it owes never waits *)
Lemma window_positive s i w n : progressed s -> ss_workers s !! i = Some w -> wk_phase w = releasing (S n) -> 0 < ss_window s.
Proof.
  intros [P _] Hw Hp. pose proof (pr_window _ _ P) as E. pose proof (pr_next _ _ P).
  assert (Ho : owed (wk_phase w) <= msum (fun _ w => owed (wk_phase w)) (ss_workers s)) by (apply (msum_le_elem (fun _ w => owed (wk_phase w)) (ss_workers s) i w); [|done]; intros _ v _; destruct (wk_phase v); cbn; lia).
  rewrite Hp in Ho. cbn in Ho. assert (0 <= tokens (ss_main s)) by (destruct (ss_main s); cbn; lia). lia.
Qed.
Lemma sem_positive s i w : progressed s -> ss_workers s !! i = Some w -> wk_phase w <> gone -> 0 < ss_sem s.
Proof.
  intros [P _] Hw Hp. rewrite (pr_sem _ _ P).
  assert (Ho : running (wk_phase w) <= msum (fun _ w => running (wk_phase w)) (ss_workers s)) by (apply (msum_le_elem (fun _ w => running (wk_phase w)) (ss_workers s) i w); [|done]; intros _ v _; destruct (wk_phase v); cbn; lia).
  destruct (wk_phase w); cbn in Ho; try lia. done.
Qed.

Lemma wp_releaseOne i n s w : session_ok s -> ss_workers s !! i = Some w -> wk_phase w = releasing (S n) -> wp (releaseOne i n) s (fun _ => session_ok).
Proof.
  intros [P A R] Hw Hp. pose proof (window_positive _ _ _ _ P Hw Hp). pose proof (pr_bounds _ _ (proj1 P)) as [B1 B2]. unfold releaseOne. apply wp_bind, wp_get. rewrite bool_decide_eq_false_2 by lia.
  apply wp_bind, wp_modify, wp_modify. cbn. rewrite (alter_insert _ _ _ w) by done. split; [| |done].
  - apply (progressed_worker s i w (w <| wk_phase := releasing n |>) (ss_window s - 1) (ss_sem s)) in P; [destruct s; exact P|done|done|rewrite Hp; cbn; lia|rewrite Hp; cbn; lia|lia|done].
  - apply (acknowledged_worker s i w (w <| wk_phase := releasing n |>)) in A; try done. destruct A as [A1 A2 A3 A4 A5]. by split.
Qed.
Lemma wp_onExit i s w : session_ok s -> ss_workers s !! i = Some w -> wk_phase w = exiting -> wp (onExit i) s (fun _ => session_ok).
Proof.
  intros [P A R] Hw Hp. pose proof (sem_positive _ _ _ P Hw ltac:(by rewrite Hp)). pose proof (pr_bounds _ _ (proj1 P)) as [B1 B2]. unfold onExit. apply wp_bind, wp_get. rewrite bool_decide_eq_false_2 by lia.
  apply wp_bind, wp_modify, wp_modify. cbn. rewrite (alter_insert _ _ _ w) by done. split; [| |done].
  - apply (progressed_worker s i w (w <| wk_phase := gone |>) (ss_window s) (ss_sem s - 1)) in P; [destruct s; exact P|done|done|rewrite Hp; cbn; lia|rewrite Hp; cbn; lia|done|lia].
  - apply (acknowledged_worker s i w (w <| wk_phase := gone |>)) in A; try done. destruct A as [A1 A2 A3 A4 A5]. by split.
Qed.

(** ** The queues *)
Definition setQueue (k : kind) (q : ackBatcher) (s : session) : session := match k with Ack => s <| ss_acks := q |> | Nack => s <| ss_nacks := q |> end.
Lemma wp_inQueue k f s (Q : unit -> session -> Prop) : Q tt (setQueue k (f (queueOf k s)) s) -> wp (inQueue k (gmodify f)) s Q.
Proof. intros HQ. eapply wp_intro; [done|]. by destruct k. Qed.
Lemma queueOf_set k k' q s : queueOf k' (setQueue k q s) = if decide (k' = k) then q else queueOf k' s.
Proof. by destruct k, k'. Qed.

Lemma ok_setQueue k q s : progressed s -> returned_ok s -> acknowledged (setQueue k q s) -> session_ok (setQueue k q s).
Proof. intros [[P1 P2 P3 P4 P5 P7 P8 P9 P10] P6] R A. split; [|done|by destruct k]. destruct k; (split; [by split|done]). Qed.

(** Items move from the channel to the batch, or stay where they are. *)
Lemma ok_queue k q s : session_ok s -> outstandingIn q = outstanding k s -> aq_posted q = aq_posted (queueOf k s) -> llen (loopBatch (aq_loop q)) <= ackBatch -> llen (aq_items q) <= ackItems ->
  session_ok (setQueue k q s).
Proof.
  intros K E1 E2 B1 B2. apply ok_setQueue; [apply K|apply K|]. destruct K as [_ [A1 A2 A3 A4 A5] _].
  assert (Eo : forall k', outstanding k' (setQueue k q s) = outstanding k' s) by (intros k'; unfold outstanding; rewrite queueOf_set; by destruct (decide (k' = k)) as [->|]).
  assert (Ec : forall k' id, confirmed k' id s -> confirmed k' id (setQueue k q s)).
  { intros k' id (ids & Hi & Hid). exists ids. split; [|done]. rewrite queueOf_set. destruct (decide (k' = k)) as [->|]; [by rewrite E2|done]. }
  assert (Ea : forall i, absent i s -> absent i (setQueue k q s)) by (intros i Hi k' x; rewrite Eo; apply Hi).
  split.
  - intros i w Hw Hm. destruct (A1 i w) as (? & ? & ?); [by destruct k|by destruct k|]. split; [done|]. split; [by apply Ec|done].
  - intros i w Hw. assert (Hw' : ss_workers s !! i = Some w) by (by destruct k). specialize (A2 i w Hw'). unfold phase_ok, succeeded in *. destruct (wk_phase w); naive_solver.
  - intros k' x. rewrite Eo. intros Hx. destruct (A3 k' x Hx) as (w & Hw & ?). exists w. split; [by destruct k|done].
  - by rewrite !Eo.
  - intros k'. rewrite queueOf_set. destruct (decide (k' = k)) as [->|]; [done|apply A5].
Qed.

Lemma wp_takeItem k batch s : session_ok s -> loopBatch (aq_loop (queueOf k s)) = batch -> llen batch < ackBatch -> aq_items (queueOf k s) <> [] -> wp (takeItem k batch) s (fun _ => session_ok).
Proof.
  intros K Eb Hl Hne. unfold takeItem. apply wp_bind, wp_get. destruct (aq_items (queueOf k s)) as [|x items] eqn:Ei; [done|]. apply wp_inQueue. apply ok_queue; cbn; [done| |done| |].
  - unfold outstanding, outstandingIn. cbn. by rewrite Eb, Ei, <- app_assoc.
  - rewrite llen_app. change (llen [x]) with 1. lia.
  - destruct (ak_batch _ (so_acknowledged _ K) k) as [_ B]. rewrite Ei, llen_cons in B. lia.
Qed.
Lemma wp_loop k l s : session_ok s -> loopBatch l = loopBatch (aq_loop (queueOf k s)) -> wp (inQueue k (gmodify (fun q => q <| aq_loop := l |>))) s (fun _ => session_ok).
Proof.
  intros K E. destruct (ak_batch _ (so_acknowledged _ K) k) as [B1 B2]. apply wp_inQueue, ok_queue; cbn; [done| |done|by rewrite E|done].
  unfold outstanding, outstandingIn. cbn. by rewrite E.
Qed.

Lemma wp_submitItem i k h s w : session_ok s -> ss_workers s !! i = Some w -> wk_phase w = submitting k h -> llen (aq_items (queueOf k s)) < ackItems ->
  wp (submitItem i k h) s (fun _ => session_ok).
Proof.
  intros [P A R] Hw Hp Hl. unfold submitItem. apply wp_bind. unfold workerAt. apply wp_bind, wp_get. eapply wp_lift; [exact Hw|]. apply wp_bind, wp_inQueue, wp_modify.
  set (x := mkAckItem (cd_DeliveryID (wk_delivery w)) i). set (q := (queueOf k s) <| aq_items := aq_items (queueOf k s) ++ [x] |>). set (w' := w <| wk_phase := awaiting k h |>).
  assert (Hpi : phase_ok i w s) by (by apply (ak_phase _ A)). unfold phase_ok in Hpi. rewrite Hp in Hpi. destruct Hpi as (Hd & Habs & Hk).
  assert (Es : (setQueue k q s) <| ss_workers := alter (fun w => w <| wk_phase := awaiting k h |>) i (ss_workers (setQueue k q s)) |> =
    setQueue k q (s <| ss_workers := <[i := w']> (ss_workers s) |>)).
  { unfold w'. rewrite <- (alter_insert (fun w => w <| wk_phase := awaiting k h |>) i (ss_workers s) w Hw). by destruct k, s. }
  assert (Hn : ~ marked i s) by (intros Hm; destruct (ak_marked _ A i w Hw Hm) as [Hs _]; by rewrite Hp in Hs).
  unfold goto, updateWorker. refine (eq_ind_r (fun s' => session_ok s') _ Es). set (s1 := s <| ss_workers := <[i := w']> (ss_workers s) |>).
  assert (P1 : progressed s1).
  { pose proof (pr_bounds _ _ (proj1 P)) as [B1 B2]. apply (progressed_worker s i w w' (ss_window s) (ss_sem s)) in P; [destruct s; exact P|done|done|rewrite Hp; cbn; lia|rewrite Hp; cbn; lia|done|done]. }
  assert (Eo : forall k', outstanding k' (setQueue k q s1) = outstanding k' s ++ (if decide (k' = k) then [x] else [])).
  { intros k'. unfold outstanding. rewrite queueOf_set. destruct (decide (k' = k)) as [->|]; [|rewrite app_nil_r; by destruct k']. unfold q, outstandingIn. cbn. by rewrite <- app_assoc. }
  assert (Hx : forall k' y, y ∈ outstanding k' (setQueue k q s1) -> y ∈ outstanding k' s \/ (y = x /\ k' = k)).
  { intros k' y. rewrite Eo, elem_of_app. intros [|Hy]; [by left|]. destruct (decide (k' = k)); [|by apply elem_of_nil in Hy]. apply list_elem_of_singleton in Hy. by right. }
  assert (Ep : forall k', aq_posted (queueOf k' (setQueue k q s1)) = aq_posted (queueOf k' s)) by (intros k'; rewrite queueOf_set; destruct (decide (k' = k)) as [->|]; [done|by destruct k']).
  assert (Ec : forall k' id, confirmed k' id s -> confirmed k' id (setQueue k q s1)) by (intros k' id (ids & Hi & Hid); exists ids; by rewrite Ep).
  assert (Ew : ss_workers (setQueue k q s1) = <[i := w']> (ss_workers s)) by (by destruct k).
  assert (Emk : forall j, marked j (setQueue k q s1) -> marked j s) by (intros j; by destruct k).
  destruct A as [A1 A2 A3 A4 A5].
  split; [by destruct P1 as [[P1 P2 P3 P4 P5 P7 P8 P9 P10] P6]; destruct k; (split; [by split|done])| |by destruct k].
  split.
  - intros j v. rewrite Ew. intros Hv Hm%Emk. destruct (decide (j = i)) as [->|Hne]; [by destruct Hn|]. rewrite lookup_insert_ne in Hv by done. destruct (A1 j v Hv Hm) as (? & ? & ?). split; [done|]. split; [by apply Ec|done].
  - intros j v. rewrite Ew. destruct (decide (j = i)) as [->|Hne].
    + rewrite lookup_insert_eq. intros [= <-]. cbn. split; [done|]. intros Hc. cbn in Hc. congruence.
    + rewrite lookup_insert_ne by done. intros Hv. specialize (A2 j v Hv).
      assert (Habs2 : absent j s -> absent j (setQueue k q s1)) by (intros Hj k' y [Hy|[-> _]]%Hx; [by apply (Hj k')|cbn; congruence]).
      unfold phase_ok, succeeded in *. destruct (wk_phase v); naive_solver.
  - intros k' y [Hy|[-> ->]]%Hx; rewrite Ew.
    + destruct (A3 k' y Hy) as (v & Hv & H1 & H2 & H3). assert (ai_worker y <> i) by (by apply (Habs k')). exists v. by rewrite lookup_insert_ne.
    + exists w'. cbn [ai_worker x]. rewrite lookup_insert_eq. split_and!; try done. by intros k' h' [= -> _].
  - rewrite !Eo. assert (Hperm : ai_worker <$> (outstanding Ack s ++ (if decide (Ack = k) then [x] else [])) ++ outstanding Nack s ++ (if decide (Nack = k) then [x] else []) ≡ₚ
      i :: (ai_worker <$> outstanding Ack s ++ outstanding Nack s)).
    { rewrite !fmap_app. destruct k; cbn; rewrite ?app_nil_r; [rewrite <- app_assoc; cbn; by rewrite (Permutation_middle _ _ i)|]. rewrite app_assoc. symmetry. apply Permutation_cons_append. }
    rewrite Hperm. constructor; [|done]. intros (y & Ey & Hy)%list_elem_of_fmap. apply elem_of_app in Hy as [Hy|Hy]; [by apply (Habs Ack y)|by apply (Habs Nack y)].
  - intros k'. rewrite queueOf_set. destruct (decide (k' = k)) as [->|]; [|destruct k'; [exact (A5 Ack)|exact (A5 Nack)]]. cbn. destruct (A5 k). split; [done|]. rewrite llen_app. change (llen [x]) with 1. lia.
Qed.

(** ** Answers *)
Definition answeredBy (err : option suberror) (batch : list ackItem) (i : Z) (o : option worker) : option worker :=
  if bool_decide (i ∈ ai_worker <$> batch) then (fun w => w <| wk_done := Some err |>) <$> o else o.

(** The channels of a batch are empty, so that no answer waits. *)
Lemma wp_answerItems err batch : forall s (Q : unit -> session -> Prop), progressed s -> NoDup (ai_worker <$> batch) ->
  (forall x, x ∈ batch -> exists w, ss_workers s !! ai_worker x = Some w /\ wk_done w = None) ->
  (forall ws, progressed (s <| ss_workers := ws |>) -> (forall i, ws !! i = answeredBy err batch i (ss_workers s !! i)) -> Q tt (s <| ss_workers := ws |>)) ->
  wp (gfor batch (answerItem err)) s Q.
Proof.
  induction batch as [|x batch IH]; intros s Q P Hnd Hw HQ; cbn [gfor].
  - apply wp_ret. specialize (HQ (ss_workers s)). destruct s. apply HQ; [exact P|]. intros i. unfold answeredBy. rewrite bool_decide_eq_false_2; [done|]. by intros ?%elem_of_nil.
  - cbn in Hnd. apply NoDup_cons in Hnd as [Hx Hnd]. destruct (Hw x ltac:(left)) as (w & Ew & Ed). apply wp_bind. unfold answerItem, workerAt. apply wp_bind, wp_bind, wp_get.
    eapply wp_lift; [exact Ew|]. rewrite Ed. apply wp_modify. rewrite (alter_insert _ _ _ w) by done. set (w' := w <| wk_done := Some err |>). set (s1 := s <| ss_workers := <[ai_worker x := w']> (ss_workers s) |>).
    assert (P1 : progressed s1) by (pose proof (pr_bounds _ _ (proj1 P)) as [B1 B2]; apply (progressed_worker s (ai_worker x) w w' (ss_window s) (ss_sem s)) in P; [destruct s; exact P|done..]).
    apply IH; [done|done| |].
    + intros y Hy. assert (ai_worker y <> ai_worker x) by (intros E; apply Hx; rewrite <- E; by apply list_elem_of_fmap_2). destruct (Hw y ltac:(by right)) as (v & Hv & ?). exists v. cbn. by rewrite lookup_insert_ne.
    + intros ws Pw Hws. apply (HQ ws); [exact Pw|]. intros i. rewrite Hws. unfold answeredBy. cbn. destruct (decide (i = ai_worker x)) as [->|Hne].
      * rewrite (bool_decide_eq_false_2 _ Hx), lookup_insert_eq, Ew, bool_decide_eq_true_2 by (by left). done.
      * rewrite lookup_insert_ne by done. destruct (bool_decide_reflect (i ∈ ai_worker <$> batch)) as [Hi|Hi]; [rewrite bool_decide_eq_true_2 by (by right); done|].
        rewrite bool_decide_eq_false_2; [done|]. by intros [|]%elem_of_cons.
Qed.

(** What becomes of the batcher: its batch is answered, and a success is one of a request that names its items. *)
Record answers (k : kind) (batch : list ackItem) (err : option suberror) (q q' : ackBatcher) : Prop := {
  an_loop : loopBatch (aq_loop q') = [];
  an_items : aq_items q' = aq_items q;
  an_posted : forall p, p ∈ aq_posted q -> p ∈ aq_posted q';
  an_batch : err = None -> (ai_id <$> batch, None) ∈ aq_posted q';
}.

Lemma wp_answerThenLoop k batch err f s : session_ok s -> loopBatch (aq_loop (queueOf k s)) = batch -> answers k batch err (queueOf k s) (f (queueOf k s)) ->
  wp (gfor batch (answerItem err) ;;; inQueue k (gmodify f)) s (fun _ => session_ok).
Proof.
  intros [P [A1 A2 A3 A4 A5] R] Eb [N1 N2 N3 N4]. assert (Hin : forall x, x ∈ batch -> x ∈ outstanding k s) by (intros x Hx; unfold outstanding, outstandingIn; rewrite Eb; apply elem_of_app; by left).
  assert (Hnd : NoDup (ai_worker <$> outstanding k s)) by (rewrite fmap_app in A4; apply NoDup_app in A4 as (? & _ & ?); by destruct k).
  assert (Ho : ai_worker <$> outstanding k s = (ai_worker <$> batch) ++ (ai_worker <$> aq_items (queueOf k s))) by (unfold outstanding, outstandingIn; by rewrite Eb, fmap_app).
  rewrite Ho in Hnd. apply NoDup_app in Hnd as (Hnd1 & Hdis & Hnd2). apply wp_bind, wp_answerItems; [done|done| |].
  { intros x Hx. destruct (A3 k x (Hin x Hx)) as (w & Hw & _ & Hd & _). eauto. }
  intros ws Pw Hws. set (s1 := s <| ss_workers := ws |>) in *. apply wp_inQueue. assert (Eq1 : forall k', queueOf k' s1 = queueOf k' s) by (by intros []). rewrite Eq1. set (q := f (queueOf k s)) in *.
  assert (Hsub : forall k', outstanding k' (setQueue k q s1) = if decide (k' = k) then aq_items (queueOf k s) else outstanding k' s).
  { intros k'. unfold outstanding. rewrite queueOf_set, Eq1. destruct (decide (k' = k)); [|done]. unfold outstandingIn. by rewrite N1, N2. }
  assert (Hx : forall k' x, x ∈ outstanding k' (setQueue k q s1) -> x ∈ outstanding k' s /\ ai_worker x ∉ ai_worker <$> batch).
  { intros k' x. rewrite Hsub. destruct (decide (k' = k)) as [->|Hne].
    - intros Hx. split; [unfold outstanding, outstandingIn; apply elem_of_app; by right|]. intros Hb. apply (Hdis _ Hb). by apply list_elem_of_fmap_2.
    - intros Hx. split; [done|]. intros (y & Ey & Hy)%list_elem_of_fmap. rewrite fmap_app in A4. apply NoDup_app in A4 as (_ & A4 & _).
      assert (H1 : ai_worker x ∈ ai_worker <$> outstanding k' s) by (by apply list_elem_of_fmap_2). assert (H2 : ai_worker x ∈ ai_worker <$> outstanding k s) by (rewrite Ey; by apply list_elem_of_fmap_2, Hin).
      destruct k, k'; try done; by apply (A4 (ai_worker x)). }
  assert (Ec : forall k' id, confirmed k' id s -> confirmed k' id (setQueue k q s1)).
  { intros k' id (ids & Hi & Hid). exists ids. split; [|done]. rewrite queueOf_set, Eq1. destruct (decide (k' = k)) as [->|]; [by apply N3|done]. }
  assert (Ea : forall i, absent i s -> absent i (setQueue k q s1)) by (intros i Hi k' x [Hy _]%Hx; by apply (Hi k')).
  assert (Hv : forall i v, ss_workers (setQueue k q s1) !! i = Some v -> exists w, ss_workers s !! i = Some w /\ wk_delivery v = wk_delivery w /\ wk_phase v = wk_phase w /\ wk_handled v = wk_handled w /\
    ((i ∈ ai_worker <$> batch /\ wk_done v = Some err) \/ (i ∉ ai_worker <$> batch /\ v = w))).
  { intros i v. replace (ss_workers (setQueue k q s1)) with ws by (by destruct k). rewrite Hws. unfold answeredBy. destruct (bool_decide_reflect (i ∈ ai_worker <$> batch)) as [Hi|Hi]; [|intros Hw; exists v; split_and!; [done..|by right]].
    intros (w & Ew & ->)%fmap_Some. exists w. split_and!; [done..|]. by left. }
  apply ok_setQueue; [done|done|]. split.
  - intros i v Hi Hm. destruct (Hv i v Hi) as (w & Hw & Ed & Ep & Eh & _). destruct (A1 i w Hw) as (? & ? & ?); [by destruct k|]. unfold succeeded, itemIDOf. rewrite Ep, Ed, Eh. split; [done|]. split; [by apply Ec|done].
  - intros i v Hi. destruct (Hv i v Hi) as (w & Hw & Ed & Ep & Eh & Hcase). specialize (A2 i w Hw). unfold phase_ok, succeeded, itemIDOf in *. rewrite Ep, Ed, Eh.
    destruct Hcase as [[Hb Edone]|[Hb ->]]; [|destruct (wk_phase w); naive_solver]. apply list_elem_of_fmap in Hb as (x & -> & Hx1). destruct (A3 k x (Hin x Hx1)) as (w2 & Hw2 & Eid & _ & Hk).
    assert (w2 = w) as -> by congruence. destruct (wk_phase w) as [|k' h|k' h| | | |] eqn:Eph; try done.
    + destruct A2 as [_ Habs]. by destruct (Habs k x (Hin x Hx1)).
    + destruct A2 as (_ & Habs & _). by destruct (Habs k x (Hin x Hx1)).
    + destruct A2 as [Hkh _]. split; [done|]. rewrite Edone. intros [= ->]. rewrite (Hk k' h eq_refl). exists (ai_id <$> batch). rewrite queueOf_set, decide_True by done. split; [by apply N4|].
      apply list_elem_of_fmap. exists x. split; [|done]. by rewrite Eid.
    + destruct A2. split; [by apply Ec|done].
  - intros k' x Hy. destruct (Hx k' x Hy) as [Hy1 Hnb]. destruct (A3 k' x Hy1) as (w & Hw & ?). exists w. split; [|done]. replace (ss_workers (setQueue k q s1)) with ws by (by destruct k).
    rewrite Hws. unfold answeredBy. by rewrite bool_decide_eq_false_2.
  - eapply sublist_NoDup; [exact A4|]. apply fmap_sublist. rewrite !Hsub. assert (Hl : sublist (aq_items (queueOf k s)) (outstanding k s)) by (by apply sublist_inserts_l).
    destruct k; cbn; by apply sublist_app.
  - intros k'. rewrite queueOf_set, Eq1. destruct (decide (k' = k)) as [->|]; [|apply A5]. destruct (A5 k). by rewrite N1, N2.
Qed.

(** ** The loop over frames *)
Lemma ok_main s m window : session_ok s -> window - tokens m = ss_window s - tokens (ss_main s) -> window <= concurrency ->
  (forall cursor e, m = returned cursor e -> cursor = ss_cursor s) -> session_ok ((s <| ss_main := m |>) <| ss_window := window |>).
Proof.
  intros [[[P1 P2 P3 P4 P5 P7 P8 P9 P10] P6] [A1 A2 A3 A4 A5] R] Ew B Hm. split; [split; [split; try done; cbn; [lia|split; [done|apply P10]]|done]|by split|].
  intros cursor e E. cbn in E. exists (Z.to_nat (ss_nextProgress s - 1)). cbn. split; [lia|]. rewrite <- P7. by eapply Hm.
Qed.
Lemma ok_moved s m : session_ok s -> tokens m = tokens (ss_main s) -> (forall cursor e, m = returned cursor e -> cursor = ss_cursor s) -> session_ok (s <| ss_main := m |>).
Proof.
  intros K Et Hm. assert (E : s <| ss_main := m |> = (s <| ss_main := m |>) <| ss_window := ss_window s |>) by (by destruct s). rewrite E.
  apply ok_main; [done|lia| |done]. apply (pr_bounds _ _ (proj1 (so_progressed _ K))).
Qed.
Lemma ok_cancelled s : session_ok s -> session_ok (s <| ss_cancelled := true |>).
Proof. intros K. apply (ok_quiet s); [by destruct s|apply K|done]. Qed.

Lemma wp_cancel s (Q : unit -> session -> Prop) : session_ok s -> (forall s', quiet s s' -> ss_main s' = ss_main s -> session_ok s' -> Q tt s') -> wp cancel s Q.
Proof. intros K HQ. apply wp_modify, HQ; [by destruct s|done|by apply ok_cancelled]. Qed.
Lemma wp_offerError e s (Q : unit -> session -> Prop) : session_ok s -> (forall s', quiet s s' -> session_ok s' -> Q tt s') -> wp (offerError e) s Q.
Proof.
  intros K HQ. unfold offerError. apply wp_bind, wp_get. destruct (ss_workerErrors s); [apply wp_ret, HQ; [by destruct s|done]|]. apply wp_bind, wp_modify, wp_modify.
  apply HQ; [by destruct s|]. apply (ok_quiet s); [by destruct s|apply K|done].
Qed.
Lemma wp_finishSession e s : session_ok s -> tokens (ss_main s) = 0 -> wp (finish e) s (fun _ => session_ok).
Proof. intros K Et. unfold finish. apply wp_bind, wp_modify, wp_modify. apply ok_moved; [by apply ok_cancelled|done|]. by intros cursor e' [= <- <-]. Qed.

Lemma wp_onFrame gzip zstd maxPayload frame s : session_ok s -> ss_main s = reading -> wp (onFrame gzip zstd maxPayload frame) s (fun _ => session_ok).
Proof.
  intros K Em. unfold onFrame. destruct frame as [e|d].
  - apply wp_bind, wp_when; intros _; [apply wp_modify|]; apply wp_modify; apply ok_moved; try done; try (by apply ok_cancelled); cbn; by rewrite Em.
  - case_bool_decide; [by apply wp_ret|]. destruct (decompressPayload _ _ _ _); [apply wp_finishSession; by rewrite ?Em|]. apply wp_modify, ok_moved; [done|by rewrite Em|done].
Qed.
Lemma wp_onWindow d s : session_ok s -> ss_main s = admitting d -> ss_window s < concurrency -> wp (onWindow d) s (fun _ => session_ok).
Proof.
  intros K Em Hl. apply wp_modify. assert (E : (s <| ss_window := ss_window s + 1 |>) <| ss_main := starting d |> = (s <| ss_main := starting d |>) <| ss_window := ss_window s + 1 |>) by (by destruct s).
  rewrite E. apply ok_main; [done|rewrite Em; cbn; lia|lia|done].
Qed.
Lemma wp_onCancelled (window : bool) s d : session_ok s -> ss_main s = (if window then starting d else admitting d) -> wp (onCancelled window) s (fun _ => session_ok).
Proof.
  intros K Em. unfold onCancelled. apply wp_bind, wp_get. destruct window.
  - assert (0 < ss_window s).
    { destruct K as [[P _] _ _]. rewrite (pr_window _ _ P), Em. cbn. pose proof (pr_next _ _ P).
      assert (0 <= msum (fun _ w => owed (wk_phase w)) (ss_workers s)); [|lia]. apply msum_nonneg. intros _ v _. destruct (wk_phase v); cbn; lia. }
    rewrite bool_decide_eq_false_2 by lia. apply wp_bind, wp_modify, wp_modify.
    assert (E : (s <| ss_window := ss_window s - 1 |>) <| ss_main := draining Canceled false |> = (s <| ss_main := draining Canceled false |>) <| ss_window := ss_window s - 1 |>) by (by destruct s).
    rewrite E. pose proof (pr_bounds _ _ (proj1 (so_progressed _ K))) as [B _]. apply ok_main; [done|rewrite Em; cbn; lia|lia|done].
  - apply wp_bind, wp_ret, wp_modify. apply ok_moved; [done|by rewrite Em|done].
Qed.
Lemma wp_onDrained e fromRead s : session_ok s -> tokens (ss_main s) = 0 -> wp (onDrained e fromRead) s (fun _ => session_ok).
Proof.
  intros K Et. unfold onDrained. apply wp_bind, wp_get. destruct (if fromRead then _ else _); [|by apply wp_finishSession]. apply wp_bind, wp_modify.
  apply wp_finishSession; [|done]. apply (ok_quiet s); [by destruct s|apply K|done].
Qed.

(** A new delivery has an index that no item and no completion uses. *)
Lemma wp_onSlot d s : session_ok s -> ss_main s = starting d -> ss_sem s < concurrency -> llen (ss_taken s) < 2 ^ 64 - 2 -> wp (onSlot d) s (fun _ => session_ok).
Proof.
  change (2 ^ 64) with 18446744073709551616.
  intros [[[P1 P2 P3 P4 P5 P7 P8 P9 P10] P6] [A1 A2 A3 A4 A5] R] Em Hl Hb. unfold onSlot. apply wp_bind, wp_modify, wp_bind, wp_modify, wp_modify.
  pose proof (llen_nonneg (ss_taken s)). cbn. rewrite u64_id by (unfold in_u64; lia). set (i := ss_sequence s + 1) in *. set (w := mkWorker d handling None None) in *.
  assert (Hfresh : ss_workers s !! i = None) by (destruct (ss_workers s !! i) as [v|] eqn:Ev; [destruct (P2 i v Ev); lia|done]).
  assert (Hne : forall j v, ss_workers s !! j = Some v -> j <> i) by (intros j v Hv ->; congruence).
  assert (Hold : forall j v, ss_workers s !! j = Some v -> <[i := w]> (ss_workers s) !! j = Some v) by (intros j v Hv; rewrite lookup_insert_ne; [done|symmetry; by eapply Hne]).
  split; [split; [split|]| |]; cbn; try done.
  - rewrite llen_app. change (llen [d]) with 1. lia.
  - intros j v. destruct (decide (j = i)) as [->|Hj].
    + rewrite lookup_insert_eq. intros [= <-]. split; [lia|]. cbn. unfold llen in P1. replace (Z.to_nat (i - 1)) with (length (ss_taken s)) by lia. by rewrite lookup_app_r, Nat.sub_diag by lia.
    + rewrite lookup_insert_ne by done. intros Hv. destruct (P2 j v Hv) as [? Ht]. split; [lia|]. rewrite lookup_app_l; [done|]. by eapply lookup_lt_Some.
  - intros j Hj. destruct (decide (j = i)) as [->|Hji]; [rewrite lookup_insert_eq; by eexists|]. rewrite lookup_insert_ne by done. apply P3. lia.
  - lia.
  - intros j v Hj. destruct (P5 j v Hj) as (? & x & Hx & ->). split; [lia|]. exists x. split; [by apply Hold|done].
  - rewrite take_app_le; [done|]. unfold llen in P1. lia.
  - rewrite msum_insert by done. rewrite Em in P8. cbn in *. lia.
  - rewrite msum_insert by done. cbn. lia.
  - split; [apply P10|lia].
  - assert (Hmk : forall j, marked j (((s <| ss_sequence := i |>) <| ss_workers := <[i := w]> (ss_workers s) |>)) -> marked j s) by done.
    split; cbn.
    + intros j v. destruct (decide (j = i)) as [->|Hj]; [|rewrite lookup_insert_ne by done; apply A1]. intros _ [Hm|[x Hm]]; [cbn in Hm; lia|]. cbn in Hm. destruct (P5 i x Hm). lia.
    + intros j v. destruct (decide (j = i)) as [->|Hj]; [|rewrite lookup_insert_ne by done; apply A2]. rewrite lookup_insert_eq. intros [= <-]. split; [done|].
      intros k x Hx. destruct (A3 k x) as (v & Hv & _); [by destruct k|]. by eapply Hne.
    + intros k x Hx. destruct (A3 k x) as (v & Hv & ?); [by destruct k|]. exists v. split; [by apply Hold|done].
    + exact A4.
    + intros k. destruct k; [exact (A5 Ack)|exact (A5 Nack)].
Qed.
End Invariant.
