(* ===== verification/SessionSpec.v ===== *)
(** * What a connected subscription promises *)
From S2P Require Import Prelude Types GoIO Compression Client Frames Session SessionInv.
#[local] Open Scope Z_scope.

(** ** Deliveries are never forgotten *)
Definition grows {A} (m : GoM session A) : Prop := forall s a s', m s = Some (a, s') -> llen (ss_taken s) <= llen (ss_taken s').
Lemma grows_ret {A} (a : A) : grows (gret a).
Proof. by intros s b s' [= _ <-]. Qed.
Lemma grows_get : grows gget.
Proof. by intros s b s' [= _ <-]. Qed.
Lemma grows_panic {A} : grows (@gpanic session A).
Proof. done. Qed.
Lemma grows_lift {A} (o : option A) : grows (glift o).
Proof. intros s b s' E. destruct o; [|done]. by injection E as _ <-. Qed.
Lemma grows_bind {A B} (m : GoM session A) (k : A -> GoM session B) : grows m -> (forall a, grows (k a)) -> grows (gbind m k).
Proof. intros Hm Hk s b s'. unfold gbind. destruct (m s) as [[a s1]|] eqn:E; [|done]. intros E'. etransitivity; [by eapply Hm|by eapply Hk]. Qed.
Lemma grows_modify (f : session -> session) : (forall s, llen (ss_taken s) <= llen (ss_taken (f s))) -> grows (gmodify f).
Proof. intros Hf s b s' [= _ <-]. apply Hf. Qed.
Lemma grows_when b (m : GoM session unit) : grows m -> grows (gwhen b m).
Proof. intros Hm. destruct b; [done|apply grows_ret]. Qed.
Lemma grows_for {A} (l : list A) (f : A -> GoM session unit) : (forall x, grows (f x)) -> grows (gfor l f).
Proof. intros Hf. induction l as [|x l IH]; cbn; [apply grows_ret|]. by apply grows_bind. Qed.
Lemma grows_inQueue {A} k (m : GoM ackBatcher A) : grows (inQueue k m).
Proof. intros s a s'. unfold inQueue, gzoom. destruct (m _) as [[b q]|]; [|done]. intros [= _ <-]. by destruct k. Qed.

Create HintDb grows.
#[export] Hint Resolve grows_ret grows_get grows_panic grows_lift grows_when grows_for grows_inQueue : grows.
Ltac grows := repeat first [apply grows_bind; [|intros ?]|case_match|(apply grows_modify; intros ?; first [apply Z.le_refl|cbn; unfold llen; rewrite length_app; lia])|solve [eauto with grows]|apply grows_for; intros ?|apply grows_when].

Lemma grows_advanceProgress n : grows (advanceProgress n).
Proof. induction n as [|n IH]; cbn [advanceProgress]; [apply grows_panic|]. grows. Qed.
#[export] Hint Resolve grows_advanceProgress : grows.

Section Spec.
Context (gzip zstd : Codec) (initial : string) (concurrency maxPayload : Z).
Abbreviation step := (sstep gzip zstd concurrency maxPayload).
Abbreviation reach := (sreach gzip zstd concurrency maxPayload initial).
Abbreviation ok := (session_ok initial concurrency).

Lemma step_grows s s' : step s s' -> llen (ss_taken s) <= llen (ss_taken s').
Proof.
  assert (H : forall m : GoM session unit, grows m -> m s = Some (tt, s') -> llen (ss_taken s) <= llen (ss_taken s')) by (intros m Hm; apply Hm).
  intros St. destruct St; (eapply H; [|eassumption]);
    unfold cancel, onFrame, finish, onWindow, onCancelled, onSlot, onDrained, onHandled, submitItem, submitFailed, offerError, onSubmitted, onComplete, markComplete, releaseOne, onExit,
      takeItem, postBatch, answerBatch, abortBatch, answerItem, goto, updateWorker, workerAt, cancel; grows.
Qed.

Lemma wp_onHandled i h s w : ok s -> ss_workers s !! i = Some w -> wk_phase w = handling -> wp (onHandled i h) s (fun _ => ok).
Proof.
  intros K Hw Hp. unfold onHandled. apply wp_bind, wp_modify. rewrite (alter_insert _ _ _ w) by done. set (w' := w <| wk_handled := Some h |>).
  assert (Hpi : phase_ok i w s) by (by apply (ak_phase _ (so_acknowledged _ _ _ K))). unfold phase_ok in Hpi. rewrite Hp in Hpi. destruct Hpi as [Hd Habs].
  set (s1 := s <| ss_workers := <[i := w']> (ss_workers s) |>). assert (K1 : ok s1).
  { destruct K as [P A R]. pose proof (pr_bounds _ _ _ _ (proj1 P)) as [B1 B2]. split; [| |done].
    - apply (progressed_worker _ _ s i w w' (ss_window s) (ss_sem s)) in P; [destruct s; exact P|done..].
    - apply (acknowledged_worker s i w); try done; [by rewrite Hp|unfold phase_ok; cbn; by rewrite Hp|cbn; by rewrite Hp]. }
  eapply (wp_goto initial concurrency i _ s1 w'); [done|apply lookup_insert_eq|cbn; by rewrite Hp|cbn; by rewrite Hp|cbn; by rewrite Hp|done| |done].
  cbn. split; [done|]. split; [done|]. by destruct h.
Qed.

Lemma wp_submitFailed i e s w k h : ok s -> ss_workers s !! i = Some w -> wk_phase w = submitting k h \/ wk_phase w = awaiting k h -> wp (submitFailed i e) s (fun _ => ok).
Proof.
  intros K Hw Hp. unfold submitFailed. apply wp_bind. apply (wp_offerError initial concurrency); [done|]. intros s1 [E _] K1.
  apply (wp_goto initial concurrency i exiting s1 w); try done; [by rewrite E|..]; destruct Hp as [-> | ->]; done.
Qed.

Lemma wp_onSubmitted i k h err s w : ok s -> ss_workers s !! i = Some w -> wk_phase w = awaiting k h -> wk_done w = Some err -> wp (onSubmitted i h err) s (fun _ => ok).
Proof.
  intros K Hw Hp Hd. unfold onSubmitted. destruct err as [e|]; [by eapply wp_submitFailed; eauto|].
  assert (Hpi : phase_ok i w s) by (by apply (ak_phase _ (so_acknowledged _ _ _ K))). unfold phase_ok in Hpi. rewrite Hp in Hpi. destruct Hpi as [[Hk Hh] Hc].
  destruct h.
  - apply (wp_goto initial concurrency i _ s w); try done; rewrite ?Hp; try done. cbn. destruct Hk as [_ Hk]. rewrite (Hk eq_refl) in Hc. split; [by apply Hc|done].
  - apply wp_bind. apply (wp_cancel initial concurrency); [done|]. intros s1 [E _] _ K1. apply (wp_goto initial concurrency i exiting s1 w); try done; [by rewrite E|by rewrite Hp..].
  - apply wp_bind. apply (wp_offerError initial concurrency); [done|]. intros s1 [E _] K1. apply (wp_goto initial concurrency i exiting s1 w); try done; [by rewrite E|by rewrite Hp..].
Qed.

Lemma wp_answerBatch k batch err s : ok s -> aq_loop (queueOf k s) = ackPosting batch -> wp (answerBatch k batch err) s (fun _ => ok).
Proof.
  intros K El. unfold answerBatch. apply wp_answerThenLoop; [done|by rewrite El|]. split; cbn; [done|done| |].
  - intros p Hp. apply elem_of_app. by left.
  - intros ->. apply elem_of_app. right. by left.
Qed.
Lemma wp_abortBatch k batch s : ok s -> aq_loop (queueOf k s) = ackCollecting batch -> wp (abortBatch k batch) s (fun _ => ok).
Proof. intros K El. unfold abortBatch. apply wp_answerThenLoop; [done|by rewrite El|]. by split. Qed.

Lemma sstep_ok s s' : ok s -> step s s' -> llen (ss_taken s') < 2 ^ 64 - 2 -> ok s'.
Proof.
  intros K St Hb. pose proof (step_grows _ _ St) as Hg.
  assert (H : forall m : GoM session unit, m s = Some (tt, s') -> wp m s (fun _ => ok) -> ok s') by (intros m E Hm; exact (wp_use _ _ _ _ _ E Hm)).
  destruct St; (eapply H; [eassumption|]).
  - by apply (wp_cancel initial concurrency).
  - by apply wp_onFrame.
  - by apply wp_onWindow.
  - by eapply (wp_onCancelled initial concurrency false).
  - apply wp_onSlot; try done. lia.
  - by eapply (wp_onCancelled initial concurrency true).
  - apply wp_onDrained; [done|]. by destruct (ss_main s).
  - apply wp_finishSession; [done|]. by destruct (ss_main s).
  - by eapply wp_onHandled.
  - by eapply wp_submitItem.
  - by eapply wp_submitFailed.
  - by eapply wp_onSubmitted.
  - eapply wp_onComplete; try done. lia.
  - by eapply wp_releaseOne.
  - eapply (wp_goto initial concurrency); try done; by match goal with E : wk_phase _ = _ |- _ => rewrite E end.
  - by eapply wp_onExit.
  - apply wp_takeItem; try done. by match goal with E : aq_loop _ = _ |- _ => rewrite E end.
  - apply wp_loop; try done. by match goal with E : aq_loop _ = _ |- _ => rewrite E end.
  - apply wp_takeItem; try done. by match goal with E : aq_loop _ = _ |- _ => rewrite E end.
  - by apply wp_abortBatch.
  - apply wp_loop; try done. by match goal with E : aq_loop _ = _ |- _ => rewrite E end.
  - by apply wp_answerBatch.
Qed.

Lemma new_ok : 0 <= concurrency -> ok (newSession initial).
Proof.
  intros Hc. split; [split; [split|]| |]; try done; try (cbn; lia).
  split; try done; [intros [] x Hx; by apply elem_of_nil in Hx|constructor|by intros []].
Qed.

Lemma reach_ok s : 0 <= concurrency -> reach s -> llen (ss_taken s) < 2 ^ 64 - 2 -> ok s.
Proof.
  intros Hc Hr. induction Hr as [|s s' Hr IH St]; intros Hb; [by apply new_ok|]. eapply sstep_ok; [|exact St|exact Hb]. apply IH. pose proof (step_grows _ _ St). lia.
Qed.

(** The handler of the delivery that was taken at a position has returned no error, and the broker has answered with a success to an acknowledgement
    that names it. *)
Definition processed (s : session) (j : nat) (d : ClientDelivery) : Prop :=
  exists w ids, ss_workers s !! (Z.of_nat j + 1) = Some w /\ wk_delivery w = d /\ wk_handled w = Some hNil /\ (ids, None) ∈ aq_posted (ss_acks s) /\ cd_DeliveryID d ∈ ids.

Lemma ok_processed s j d : ok s -> Z.of_nat j + 1 < ss_nextProgress s -> ss_taken s !! j = Some d -> processed s j d.
Proof.
  intros [[[P1 P2 P3 P4 P5 P7 P8 P9 P10] P6] A R] Hj Hd. destruct (P3 (Z.of_nat j + 1)) as [w Hw]; [lia|]. destruct (P2 _ w Hw) as [_ Ht]. replace (Z.to_nat (Z.of_nat j + 1 - 1)) with j in Ht by lia.
  destruct (ak_marked _ A _ w Hw) as (_ & (ids & H1 & H2) & H3); [left; lia|]. exists w, ids. assert (wk_delivery w = d) as <- by congruence. done.
Qed.
Lemma ok_returned s cursor e : ok s -> ss_main s = returned cursor e -> exists n, Z.of_nat n <= llen (ss_taken s) /\ cursor = lastCursor initial (take n (ss_taken s)) /\ forall j d, (j < n)%nat -> ss_taken s !! j = Some d -> processed s j d.
Proof.
  intros K E. destruct (so_returned _ _ _ K cursor e E) as (n & Hn & ->). pose proof (pr_next _ _ _ _ (proj1 (so_progressed _ _ _ K))). pose proof (pr_seq _ _ _ _ (proj1 (so_progressed _ _ _ K))).
  exists n. split; [lia|]. split; [done|]. intros j d Hj. apply ok_processed; [done|lia].
Qed.

(** C4: the cursor of a subscription never passes a delivery that was not processed. In every interleaving of the reader, the
    handlers, the acknowledgements and the cancellation, the cursor that is kept, and the one that [subscribeOnce] returns, is that of
    some first deliveries of the stream: for each of them the handler has returned no error, and the broker has answered with a success to an
    acknowledgement that names it. *)
Theorem session_cursor s : 0 <= concurrency -> reach s -> llen (ss_taken s) < 2 ^ 64 - 2 ->
  exists n, Z.of_nat n <= llen (ss_taken s) /\ ss_cursor s = lastCursor initial (take n (ss_taken s)) /\
    (forall cursor e, ss_main s = returned cursor e -> exists k, (k <= n)%nat /\ cursor = lastCursor initial (take k (ss_taken s))) /\
    forall j d, (j < n)%nat -> ss_taken s !! j = Some d -> processed s j d.
Proof.
  intros Hc Hr Hb. pose proof (reach_ok s Hc Hr Hb) as K. pose proof (pr_next _ _ _ _ (proj1 (so_progressed _ _ _ K))). pose proof (pr_seq _ _ _ _ (proj1 (so_progressed _ _ _ K))).
  exists (Z.to_nat (ss_nextProgress s - 1)). split; [lia|]. split; [apply (pr_cursor _ _ _ _ (proj1 (so_progressed _ _ _ K)))|]. split.
  - intros cursor e E. destruct (so_returned _ _ _ K cursor e E) as (n & Hn & ->). exists n. split; [lia|done].
  - intros j d Hj. apply ok_processed; [done|lia].
Qed.

(** The completions that wait for an earlier one. *)
Lemma completed_size s : progressed initial concurrency s -> mlen (ss_completed s) <= ss_sequence s - (ss_nextProgress s - 1).
Proof.
  intros [[P1 P2 P3 P4 P5 P7 P8 P9 P10] P6]. unfold mlen. rewrite <- size_dom.
  assert (Hs : dom (ss_completed s) ⊆ list_to_set (C := gset Z) (seqZ (ss_nextProgress s) (ss_sequence s - (ss_nextProgress s - 1)))).
  { intros i [v Hv]%elem_of_dom. apply elem_of_list_to_set, elem_of_seqZ. destruct (P5 i v Hv). lia. }
  apply subseteq_size in Hs. rewrite size_list_to_set in Hs by apply NoDup_seqZ. rewrite length_seqZ in Hs. lia.
Qed.

(** The goroutines of deliveries that have not ended. *)
Definition alive (w : worker) : bool := match wk_phase w with gone => false | _ => true end.
Definition aliveWorkers (s : session) : list (Z * worker) := List.filter (fun p => alive p.2) (map_to_list (ss_workers s)).
Lemma running_count s : msum (fun _ w => running (wk_phase w)) (ss_workers s) = llen (aliveWorkers s).
Proof.
  unfold msum, aliveWorkers. induction (map_to_list (ss_workers s)) as [|[i w] l IH]; [done|]. cbn [fmap list_fmap List.filter]. rewrite zsum_cons. unfold zsum in *. cbn [fmap list_fmap] in *.
  unfold alive at 1. cbn [snd]. rewrite IH. destruct (wk_phase w); cbn [running]; rewrite ?llen_cons; lia.
Qed.

(** C21: the resources of a subscription. At most [Concurrency] goroutines have been started and have not ended; the cursor that is kept is at most
    [Concurrency] deliveries behind the last one that was taken, and as many completions wait; a group of acknowledgements has at most 256 items. No
    goroutine waits for good: a worker that has completed always finds the tokens that it takes out of [progressWindow] and [sem], and an answer
    always finds its channel empty. *)
Theorem session_bounds s : 0 <= concurrency -> reach s -> llen (ss_taken s) < 2 ^ 64 - 2 ->
  llen (aliveWorkers s) <= concurrency /\ ss_sem s = llen (aliveWorkers s) /\
  (exists n, Z.of_nat n <= llen (ss_taken s) <= Z.of_nat n + concurrency /\ ss_cursor s = lastCursor initial (take n (ss_taken s))) /\
  0 <= ss_window s <= concurrency /\ mlen (ss_completed s) <= concurrency /\
  (forall k, llen (loopBatch (aq_loop (queueOf k s))) <= 256 /\ llen (aq_items (queueOf k s)) <= 1024) /\
  (forall i w, ss_workers s !! i = Some w ->
    match wk_phase w with
    | completing => is_Some (onComplete i s)
    | releasing (S n) => is_Some (releaseOne i n s)
    | exiting => is_Some (onExit i s)
    | _ => True
    end) /\
  forall k batch err, aq_loop (queueOf k s) = ackPosting batch -> is_Some (answerBatch k batch err s).
Proof.
  intros Hc Hr Hb. pose proof (reach_ok s Hc Hr Hb) as K. pose proof K as [[P G] A R]. pose proof (pr_bounds _ _ _ _ P) as [B1 B2]. pose proof (completed_size s (conj P G)).
  assert (Hw : forall m : GoM session unit, wp m s (fun _ => ok) -> is_Some (m s)) by (intros m (a & s' & E & _)%wp_elim; by eexists).
  assert (Ho : 0 <= msum (fun _ w => owed (wk_phase w)) (ss_workers s)) by (apply msum_nonneg; intros _ v _; destruct (wk_phase v); cbn; lia).
  assert (Ht : 0 <= tokens (ss_main s)) by (destruct (ss_main s); cbn; lia). pose proof (pr_window _ _ _ _ P). pose proof (pr_next _ _ _ _ P).
  pose proof (pr_sem _ _ _ _ P) as Hsem. rewrite running_count in Hsem. pose proof (pr_seq _ _ _ _ P).
  split_and!; [lia|done|exists (Z.to_nat (ss_nextProgress s - 1)); split; [lia|apply (pr_cursor _ _ _ _ P)]|lia|done|lia| | |].
  - apply (ak_batch _ A).
  - intros i w Hi. destruct (wk_phase w) as [| | | |[|n]| |] eqn:Ep; try done; apply Hw.
    + eapply wp_onComplete; try done. change (2 ^ 64) with 18446744073709551616 in *. lia.
    + by eapply wp_releaseOne.
    + by eapply wp_onExit.
  - intros k batch err El. by apply Hw, wp_answerBatch.
Qed.
End Spec.

(** ** A subscription that processes two deliveries, the second one first *)
Definition ex_delivery (id cursor : string) : ClientDelivery := mkClientDelivery id id "t" "" ∅ 0 cursor 1 [].
Abbreviation ex_reach := (sreach ex_codec ex_codec 2 1024 "c0").

Ltac ex_go R C := eapply sr_step in R; [|eapply C; [vm_compute; try reflexivity; try discriminate..]]; cbv beta in R.
Ltac ex_frame R d := ex_go R (fun s s' => @st_frame ex_codec ex_codec 2 1024 s s' (inr d)); ex_go R (@st_window ex_codec ex_codec 2 1024); ex_go R (@st_slot ex_codec ex_codec 2 1024).
(** A delivery from its handler to its place in [completed]. *)
Ltac ex_process R i :=
  ex_go R (fun s s' w => @st_handled ex_codec ex_codec 2 1024 s s' i w hNil); ex_go R (fun s s' => @st_submit ex_codec ex_codec 2 1024 s s' i);
  ex_go R (fun s s' => @st_first ex_codec ex_codec 2 1024 s s' Ack); ex_go R (fun s s' => @st_post ex_codec ex_codec 2 1024 s s' Ack); ex_go R (fun s s' b => @st_answer ex_codec ex_codec 2 1024 s s' Ack b None);
  ex_go R (fun s s' => @st_submitted ex_codec ex_codec 2 1024 s s' i); ex_go R (fun s s' => @st_complete ex_codec ex_codec 2 1024 s s' i).
Ltac ex_leave R i := ex_go R (fun s s' => @st_released ex_codec ex_codec 2 1024 s s' i); ex_go R (fun s s' => @st_exit ex_codec ex_codec 2 1024 s s' i).

Lemma ex_reached : exists s, ex_reach s /\ ss_main s = returned "c2" (Failed (Plain errEOF)) /\ llen (ss_taken s) = 2 /\ ss_sem s = 0 /\ ss_window s = 0.
Proof.
  pose proof (sr_new ex_codec ex_codec 2 1024 "c0") as R.
  ex_frame R (ex_delivery "d1" "c1"). ex_frame R (ex_delivery "d2" "c2"). ex_process R 2. ex_leave R 2. ex_process R 1.
  do 2 ex_go R (fun s s' => @st_release ex_codec ex_codec 2 1024 s s' 1). ex_leave R 1.
  ex_go R (fun s s' => @st_frame ex_codec ex_codec 2 1024 s s' (inl errEOF)). ex_go R (@st_drained ex_codec ex_codec 2 1024).
  eexists. split; [exact R|]. vm_compute. done.
Qed.

Lemma session_cursor_witness : exists s, (ex_reach s /\ ss_main s = returned "c2" (Failed (Plain errEOF)) /\ llen (ss_taken s) = 2 /\ ss_sem s = 0 /\ ss_window s = 0) /\
  exists n, Z.of_nat n <= llen (ss_taken s) /\ ss_cursor s = lastCursor "c0" (take n (ss_taken s)) /\
    (forall cursor e, ss_main s = returned cursor e -> exists k, (k <= n)%nat /\ cursor = lastCursor "c0" (take k (ss_taken s))) /\
    forall j d, (j < n)%nat -> ss_taken s !! j = Some d -> processed s j d.
Proof.
  destruct ex_reached as (s & R & E). exists s. split; [exact (conj R E)|].
  exact (session_cursor ex_codec ex_codec "c0" 2 1024 s ltac:(lia) R ltac:(destruct E as (_ & -> & _); reflexivity)).
Defined.

Lemma session_bounds_witness : exists s, (ex_reach s /\ ss_main s = returned "c2" (Failed (Plain errEOF)) /\ llen (ss_taken s) = 2 /\ ss_sem s = 0 /\ ss_window s = 0) /\
  llen (aliveWorkers s) <= 2 /\ ss_sem s = llen (aliveWorkers s) /\
  (exists n, Z.of_nat n <= llen (ss_taken s) <= Z.of_nat n + 2 /\ ss_cursor s = lastCursor "c0" (take n (ss_taken s))) /\
  0 <= ss_window s <= 2 /\ mlen (ss_completed s) <= 2 /\
  (forall k, llen (loopBatch (aq_loop (queueOf k s))) <= 256 /\ llen (aq_items (queueOf k s)) <= 1024) /\
  (forall i w, ss_workers s !! i = Some w ->
    match wk_phase w with
    | completing => is_Some (onComplete i s)
    | releasing (S n) => is_Some (releaseOne i n s)
    | exiting => is_Some (onExit i s)
    | _ => True
    end) /\
  forall k batch err, aq_loop (queueOf k s) = ackPosting batch -> is_Some (answerBatch k batch err s).
Proof.
  destruct ex_reached as (s & R & E). exists s. split; [exact (conj R E)|].
  exact (session_bounds ex_codec ex_codec "c0" 2 1024 s ltac:(lia) R ltac:(destruct E as (_ & -> & _); reflexivity)).
Defined.
