(* ===== verification/Subscribe.v ===== *)
(** * Subscriptions: opening, reconnecting

    pkg/spruce/client.go: [Subscribe] with its reconnections as a program over the calls it makes ([subCall]); the part of
    [subscribeOnce] that opens the stream ([connect]; what follows is Session.v); [ack]; the read-only calls [get],
    [Status], [Healthy], [MessageCached] and [Metrics]; [Deliveries]. *)
From S2P Require Import Prelude Programs Types GoIO Urls Compression Client Frames Session.
#[local] Open Scope Z_scope.

(** [type SubscribeOptions struct] *)
Record SubscribeOptions := mkSubscribeOptions {
  su_Topic : string;
  su_Group : string;
  su_MemberID : string;
  su_Cursor : string;
  su_Since : Z;
  su_Concurrency : Z;
  su_MaxPayloadBytes : Z;
  su_DrainTimeout : Z;
}.
#[export] Instance SubscribeOptions_settable : Settable SubscribeOptions := fun r => mkSubscribeOptions (su_Topic r) (su_Group r) (su_MemberID r) (su_Cursor r)
  (su_Since r) (su_Concurrency r) (su_MaxPayloadBytes r) (su_DrainTimeout r).
#[export] Instance set_su_MemberID : Setter su_MemberID := ltac:(derive_setter).
#[export] Instance set_su_Cursor : Setter su_Cursor := ltac:(derive_setter).
#[export] Instance set_su_Concurrency : Setter su_Concurrency := ltac:(derive_setter).
#[export] Instance set_su_MaxPayloadBytes : Setter su_MaxPayloadBytes := ltac:(derive_setter).
#[export] Instance set_su_DrainTimeout : Setter su_DrainTimeout := ltac:(derive_setter).

(** [type Status struct] *)
Record Status := mkStatus {
  sg_RegisteredGroups : Z;
  sg_GroupOutstandingMessages : Z;
  sg_GroupActiveKeys : Z;
  sg_GroupMemoryBytes : Z;
  sg_GroupExpiredMessages : Z;
  sg_Messages : Z;
  sg_CacheAccountedBytes : Z;
  sg_CacheLimitBytes : Z;
  sg_Peers : Z;
  sg_Consumers : Z;
  sg_PendingDeliveries : Z;
}.

(** [crypto/sha256], [json.Marshal] of the body of [ack], and the decoding of a [Status]. *)
Record SubStd := mkSubStd {
  sb_sha256 : list byte -> list byte;
  sb_marshalIDs : list string -> list byte;
  sb_status : list byte -> error + Status;
}.

Section Calls.
Context (std : GoStd) (sub : SubStd) {W : Type} `{Env W} (c : Client).

Definition completionAffinity (topic group : string) : string := hexString (sb_sha256 sub (sbytes topic ++ [x00] ++ sbytes group)).

(** [http.NewRequestWithContext]; [None]: the URL does not parse. *)
Definition newRequest (method path : string) (header : gmap string string) (body : list byte) : option Request :=
  let url := String.append (c_BaseURL c) path in
  scheme ← gs_scheme std url ; Some (mkRequest method url scheme header body).

(** ** [ack] *)
Definition ackHeader (topic group : string) : gmap string string :=
  let h := {[ "Content-Type" := "application/json" ]} in
  if bool_decide (topic <> "") then <["Spruce-Delivery-Affinity" := completionAffinity topic group]> h else h.
Definition ackPath (k : kind) : string := match k with Ack => "/v1/deliveries/ack" | Nack => "/v1/deliveries/nack" end.
Definition ack (k : kind) (ids : list string) (topic group : string) : GoM (net W) (option suberror) :=
  req <- glift (newRequest "POST" (ackPath k) (ackHeader topic group) (sb_marshalIDs sub ids)) ;;
  match authorize std c req with
  | inl e => gret (Some (Failed e))
  | inr req =>
    answer <- do c req ;;
    gret (match answer with
      | inl e => Some (Failed (Plain e))
      | inr resp => if bool_decide (Z.quot (rs_StatusCode resp) 100 <> 2) then Some (Failed (errEnv (String.append (match k with Ack => "spruce ack: " | Nack => "spruce nack: " end) (rs_Status resp)))) else None
      end)
  end.

(** ** [get] and what reads with it; [decode] is the JSON of a success, when it is looked at. *)
Definition get {A} (path : string) (decode : list byte -> error + A) : GoM (net W) (cerror + A) :=
  match newRequest "GET" path ∅ [] with
  | None => gret (inl (errEnv "parse"))
  | Some req => send std c decode (authorize std c req)
  end.
Definition Status_ : GoM (net W) (cerror + Status) := get "/v1/status" (sb_status sub).
Definition Healthy : GoM (net W) (cerror + unit) := get "/health/ready" (fun _ => inr tt).
Definition MessageCached (id : string) : GoM (net W) (cerror + bool) :=
  r <- get (String.append "/v1/status/messages/" (PathEscape id)) (fun _ => inr tt) ;;
  gret (match r with
    | inl (Api e) => if bool_decide (e_StatusCode e = 404) then inr false else inl (Api e)
    | inl e => inl e
    | inr _ => inr true
    end).
Definition Metrics : GoM (net W) (cerror + list byte) :=
  req <- glift (newRequest "GET" "/metrics" ∅ []) ;;
  send std c (fun body => inr body) (authorize std c req).

(** ** Opening a stream *)
Definition boundOptions (o : SubscribeOptions) : error + SubscribeOptions :=
  let o := if bool_decide (su_Concurrency o <= 0) then o <| su_Concurrency := 16 |> else o in
  if bool_decide (1024 < su_Concurrency o) then inl (errOther "subscription concurrency exceeds 1024") else
  let o := if bool_decide (su_MaxPayloadBytes o <= 0) then o <| su_MaxPayloadBytes := 1048576 |> else o in
  if bool_decide (67108864 < su_MaxPayloadBytes o) then inl (errOther "subscription payload limit exceeds 64 MiB") else
  inr (if bool_decide (su_DrainTimeout o <= 0) then o <| su_DrainTimeout := Second |> else o).

Definition streamQuery (o : SubscribeOptions) : list (string * string) :=
  (if bool_decide (su_Cursor o <> "") then [("cursor", su_Cursor o)] else []) ++
  (if bool_decide (su_Group o <> "") then [("group", su_Group o)] else []) ++
  (if bool_decide (su_MemberID o <> "") then [("member", su_MemberID o)] else []) ++ [("topic", su_Topic o)].

(** The options in force and the cursor that the stream starts with, or what [subscribeOnce] returns. *)
Definition connect (o : SubscribeOptions) : GoM (net W) (string * suberror + SubscribeOptions * string) :=
  match boundOptions o with
  | inl e => gret (inl (su_Cursor o, Failed (Plain e)))
  | inr o =>
    req <- glift (newRequest "GET" (String.append "/v1/subscriptions/stream?" (encodeValues (streamQuery o))) {[ "Spruce-Delivery-Affinity" := completionAffinity (su_Topic o) (su_Group o) ]} []) ;;
    match authorize std c req with
    | inl e => gret (inl (su_Cursor o, Failed e))
    | inr req =>
      answer <- do c req ;;
      s <- gget ;;
      gret (match answer with
        | inl e => inl (su_Cursor o, Failed (Plain e))
        | inr resp =>
          if bool_decide (rs_StatusCode resp <> 200) then inl (su_Cursor o, Failed (responseError std resp (ev_now (n_world s)))) else
          let initial := default "" (rs_header resp !! "Spruce-Cursor") in
          inr (o, if bool_decide (initial = "") then su_Cursor o else initial)
        end)
    end
  end.
End Calls.

(** ** [Subscribe] *)
Inductive subCall : Type -> Type :=
| uContext : subCall (option suberror)
| uRandom : subCall (error + list byte)
| uNow : subCall Z
| uOnce (o : SubscribeOptions) : subCall (string * suberror)
| uDraw (n : Z) : subCall Z
| uWait (delay : Z) : subCall (option suberror)
| uEmit (operation : string) (started : Z) (status : Z) (err : option suberror) : subCall unit.

#[local] Open Scope prog_scope.
Abbreviation uprog := (program subCall).

(** How a followed part of [Subscribe] ends: with its error, or still running after [rounds] connections. *)
Inductive subscribed := ended (e : suberror) | goingOn.

Definition badOption (text : string) : suberror := Failed (errEnv text).
Definition subscriptionMemberID (explicit : string) : uprog (suberror + string) :=
  if bool_decide (255 < slen explicit) then Ret (inl (badOption "subscription member ID exceeds 255 UTF-8 bytes")) else
  if bool_decide (explicit <> "") then Ret (inr explicit) else
  id <- call uRandom ;;
  match id with
  | inl e => Ret (inl (Failed (Plain e)))
  | inr id => Ret (inr (hexString id))
  end.

Definition maxReconnect : Z := 2 * Second.
Definition minReconnect : Z := 50 * Millisecond.
Definition apiOf (e : suberror) : option ApiError := match e with Failed (Api e) => Some e | _ => None end.
Definition statusOf (e : suberror) : Z := match apiOf e with Some a => e_StatusCode a | None => 0 end.
(** An answer that another connection cannot change. *)
Definition refusal (e : suberror) : bool :=
  match apiOf e with
  | Some a => bool_decide (400 <= e_StatusCode a) && bool_decide (e_StatusCode a < 500) && bool_decide (e_StatusCode a <> 408) && bool_decide (e_StatusCode a <> 429)
  | None => false
  end.
Definition final (e : suberror) : bool := match e with DrainTimeout | HandlerPanic => true | e => refusal e end.

Fixpoint reconnectLoop (rounds : nat) (o : SubscribeOptions) (backoff : Z) (cursor : string) : uprog subscribed :=
  match rounds with
  | O => Ret goingOn
  | S rounds =>
    done <- call uContext ;;
    match done with
    | Some e => Ret (ended e)
    | None =>
      connectedAt <- call uNow ;;
      let! (last, err) := call (uOnce (o <| su_Cursor := cursor |>)) ;;
      (match apiOf err with
       | Some a => if bool_decide (e_Code a = "cursor_expired") then call (uEmit "subscription_cursor_expired" connectedAt (statusOf err) (Some err)) else Ret tt
       | None => Ret tt
       end) ;;;
      call (uEmit "subscription_disconnected" connectedAt (statusOf err) (Some err)) ;;;
      fresh <- (if bool_decide (last <> cursor) then Ret true else now <- call uNow ;; Ret (bool_decide (5 * Second <= now - connectedAt))) ;;
      let backoff := if fresh : bool then minReconnect else backoff in
      let cursor := if bool_decide (last <> "") then last else cursor in
      done <- call uContext ;;
      match done with
      | Some e => Ret (ended e)
      | None =>
        if final err then Ret (ended err) else
        drawn <- call (uDraw (Z.max 1 backoff)) ;;
        let wait := retryDelay backoff maxReconnect (match apiOf err with Some a => e_RetryAfter a | None => 0 end) drawn in
        now <- call uNow ;;
        call (uEmit "subscription_reconnecting" now 0 (Some err)) ;;;
        done <- call (uWait wait) ;;
        match done with
        | Some e => Ret (ended e)
        | None => reconnectLoop rounds o (if bool_decide (backoff < maxReconnect) then i64 (backoff * 2) else backoff) cursor
        end
      end
    end
  end.

Definition Subscribe (rounds : nat) (o : SubscribeOptions) : uprog subscribed :=
  if bool_decide (su_Topic o = "") then Ret (ended (badOption "topic is required")) else
  if bool_decide (su_Since o <> 0) then Ret (ended (badOption "timestamp subscription cursors are no longer supported; use Cursor")) else
  id <- subscriptionMemberID (su_MemberID o) ;;
  match id with
  | inl e => Ret (ended e)
  | inr id => reconnectLoop rounds (o <| su_MemberID := id |>) minReconnect (su_Cursor o)
  end.

(** ** [Deliveries]

    A [ConsumableDelivery] is completed once: [once] guards its channel, on which the handler waits. *)
Record ConsumableDelivery := mkConsumable { cn_Delivery : ClientDelivery; cn_once : bool; cn_done : option (option error) }.
Definition newConsumable (d : ClientDelivery) : ConsumableDelivery := mkConsumable d false None.
(** [None]: a full channel. *)
Definition Complete (err : option error) (d : ConsumableDelivery) : option ConsumableDelivery :=
  if cn_once d then Some d else
  match cn_done d with
  | None => Some (mkConsumable (cn_Delivery d) true (Some err))
  | Some _ => None
  end.

(** The handler: [deliveries <- item], then [<-item.done]; [inl] is [ctx.Err()]. *)
Inductive deliveryCall : Type -> Type :=
| dOffer (item : ConsumableDelivery) : deliveryCall (suberror + unit)
| dDone (item : ConsumableDelivery) : deliveryCall (suberror + option error).
Definition deliveryHandler (delivery : ClientDelivery) : program deliveryCall (option suberror) :=
  let item := newConsumable delivery in
  offered <- call (dOffer item) ;;
  match offered with
  | inl e => Ret (Some e)
  | inr _ =>
    done <- call (dDone item) ;;
    Ret (match done with inl e => Some e | inr None => None | inr (Some e) => Some (Failed (Plain e)) end)
  end.
(** What the goroutine leaves in [errs]; both channels are closed then. *)
Definition deliveriesError (r : subscribed) : option suberror := match r with ended Canceled | goingOn => None | ended e => Some e end.
Definition Deliveries (rounds : nat) (o : SubscribeOptions) : uprog (option suberror) :=
  r <- Subscribe rounds o ;; Ret (deliveriesError r).
Definition deliveriesSize (o : SubscribeOptions) : Z := Z.max 1 (su_Concurrency o).
