(* ===== verification/SubscribeSpec.v ===== *)
(** * What [Subscribe] promises

    [contact] is what a subscription has of its connections so far; [keepsContact] says when a call is right. Every execution of
    [Subscribe] follows it, whatever the connections, the context and the random source answer. *)
From Stdlib Require Import Strings.Ascii.
From S2P Require Import Prelude Programs Types GoIO Urls Compression Client Frames Session Subscribe.
#[local] Open Scope Z_scope.

Record contact := mkContact {
  ct_cursor : string;
  ct_member : option string;
  ct_error : option suberror;
  ct_context : option suberror;
  ct_random : option (error + list byte);
}.
#[export] Instance contact_settable : Settable contact := fun r => mkContact (ct_cursor r) (ct_member r) (ct_error r) (ct_context r) (ct_random r).
#[export] Instance set_ct_cursor : Setter ct_cursor := ltac:(derive_setter).
#[export] Instance set_ct_member : Setter ct_member := ltac:(derive_setter).
#[export] Instance set_ct_error : Setter ct_error := ltac:(derive_setter).
#[export] Instance set_ct_context : Setter ct_context := ltac:(derive_setter).
#[export] Instance set_ct_random : Setter ct_random := ltac:(derive_setter).

Definition retryAfter (e : suberror) : Z := match apiOf e with Some a => e_RetryAfter a | None => 0 end.

(** The errors that no other connection can change: the handler did not end or panicked, or the broker refused with a status of the
    4xx class other than 408 (timeout) and 429 (too many requests). *)
Inductive permanentError : suberror -> Prop :=
| pe_drain : permanentError DrainTimeout
| pe_panic : permanentError HandlerPanic
| pe_status a : 400 <= e_StatusCode a <= 499 -> e_StatusCode a <> 408 -> e_StatusCode a <> 429 -> permanentError (Failed (Api a)).
Lemma final_permanent e : final e = true <-> permanentError e.
Proof.
  split.
  - destruct e as [| | |[e|a]]; cbn; try done; [constructor|constructor|]. unfold refusal, apiOf. rewrite !andb_true_iff, !bool_decide_eq_true. intros [[[H1 H2] H3] H4]. constructor; [lia|done|done].
  - intros [| |a H1 H2 H3]; [done|done|]. unfold final, refusal, apiOf. rewrite !bool_decide_eq_true_2 by (done || lia). done.
Qed.

Section Spec.
Context (o : SubscribeOptions).

Definition fresh : contact := mkContact (su_Cursor o) None None None None.

(** The member ID of a subscription: the caller's, or 16 random bytes in hexadecimal. *)
Definition memberOf (d : contact) (m : string) : Prop :=
  if decide (su_MemberID o = "") then exists id, ct_random d = Some (inr id) /\ m = hexString id /\ slen m = 32 else m = su_MemberID o /\ slen m <= 255.

(** A connection resumes from the cursor of the ones before, with one member ID and only after the wait that follows an error that may pass; the
    wait is backed off, jittered and at least what the broker asked for. *)
Definition fits X (e : subCall X) (d : contact) : Prop :=
  match e with
  | uOnce o' => ct_error d = None /\ (exists m, memberOf d m /\ (ct_member d = None \/ ct_member d = Some m) /\
      o' = (o <| su_MemberID := m |>) <| su_Cursor := ct_cursor d |>)
  | uWait delay => exists e, ct_error d = Some e /\ ~ permanentError e /\ Z.max (25 * Millisecond) (retryAfter e) <= delay <= Z.max (2 * Second) (retryAfter e)
  | _ => True
  end.
Definition learns X (e : subCall X) : X -> contact -> contact :=
  match e in subCall X return X -> contact -> contact with
  | uOnce o' => fun r d => ((d <| ct_cursor := if bool_decide (r.1 <> "") then r.1 else ct_cursor d |>) <| ct_error := Some r.2 |>) <| ct_member := Some (su_MemberID o') |>
  | uContext => fun done d => match done with Some e => d <| ct_context := Some e |> | None => d end
  | uRandom => fun r d => d <| ct_random := Some r |>
  | uWait _ => fun done d => match done with Some e => d <| ct_context := Some e |> | None => d <| ct_error := None |> end
  | _ => fun _ d => d
  end.
Definition can X (e : subCall X) (_ : contact) : X -> Prop :=
  match e in subCall X return X -> Prop with
  | uDraw n => fun x => 0 < n -> 0 <= x < n
  | uRandom => fun r => match r with inr id => llen id = 16 | inl _ => True end
  | _ => fun _ => True
  end.

(** The options that are refused, and the error that says so. *)
Definition refusesOptions (e : suberror) (d : contact) : Prop :=
  su_Topic o = "" /\ e = badOption "topic is required" \/
  su_Since o <> 0 /\ e = badOption "timestamp subscription cursors are no longer supported; use Cursor" \/
  255 < slen (su_MemberID o) /\ e = badOption "subscription member ID exceeds 255 UTF-8 bytes" \/
  su_MemberID o = "" /\ exists x, ct_random d = Some (inl x) /\ e = Failed (Plain x).

(** How [Subscribe] returns: the context has ended, an error is permanent, or no connection was made. *)
Definition finished (r : subscribed) (d : contact) : Prop :=
  match r with
  | ended e => ct_context d = Some e \/ (ct_error d = Some e /\ permanentError e) \/ (ct_member d = None /\ refusesOptions e d)
  | goingOn => ct_error d = None
  end.

Lemma slen_hexString l : slen (hexString l) = 2 * llen l.
Proof. induction l as [|b l IH]; [done|]. cbn [hexString]. rewrite llen_cons. unfold slen in *. cbn [String.length]. lia. Qed.

Abbreviation follows := (Programs.obeys fits learns can).
Lemma follows_call {X A} (e : subCall X) (f : X -> uprog A) d Q : fits X e d -> (forall x, can X e d x -> follows (f x) (learns X e x d) Q) -> follows (pbind (call e) f) d Q.
Proof. intros Ha Hf. split; [exact Ha|]. exact Hf. Qed.
(** A part that only asks or reports. *)
Lemma follows_quiet {A B} (p : uprog A) (f : A -> uprog B) d Q : follows p d (fun _ d' => d' = d) -> (forall a, follows (f a) d Q) -> follows (pbind p f) d Q.
Proof. intros Hp Hf. eapply (program_seq fits learns can); [exact Hp|]. intros a d' ->. apply Hf. Qed.

Lemma obeys_loop rounds m : forall backoff d, memberOf d m -> 50 * Millisecond <= backoff <= 2 ^ 33 ->
  ct_error d = None -> (ct_member d = None \/ ct_member d = Some m) ->
  follows (reconnectLoop rounds (o <| su_MemberID := m |>) backoff (ct_cursor d)) d finished.
Proof.
  change (2 ^ 33) with 8589934592. induction rounds as [|rounds IH]; intros backoff d Hm Hb He Hd; cbn [reconnectLoop]; [done|].
  apply follows_call; [done|]. intros [e|] _; cbn [learns]; [apply obeys_ret; by left|]. apply follows_call; [done|]. intros connectedAt _. cbn [learns].
  apply follows_call; [split; [done|]; by exists m|]. intros [last err] _. cbn [learns fst snd]. set (cursor := if bool_decide (last <> "") then last else ct_cursor d).
  set (d1 := _ <| ct_member := Some (su_MemberID _) |>). assert (E1 : ct_cursor d1 = cursor) by done. assert (E2 : ct_error d1 = Some err) by done.
  assert (E3 : ct_member d1 = Some m) by done. assert (Hm1 : memberOf d1 m) by done. clearbody d1 cursor.
  apply follows_quiet; [destruct (apiOf err) as [a|]; [destruct (bool_decide (e_Code a = _)); [split; [exact I|]; by intros [] _|reflexivity]|reflexivity]|]. intros [].
  apply follows_call; [done|]. intros [] _. cbn [learns].
  apply follows_quiet; [destruct (bool_decide _); [reflexivity|]; split; [exact I|]; by intros now _|]. intros again. cbv zeta.
  set (backoff1 := if again : bool then minReconnect else backoff). assert (Hb1 : 50 * Millisecond <= backoff1 <= 8589934592) by (unfold backoff1, minReconnect, Millisecond in *; destruct again; lia). clearbody backoff1.
  apply follows_call; [done|]. intros [e|] _; cbn [learns]; [apply obeys_ret; by left|].
  destruct (final err) eqn:Hf; [apply obeys_ret; right; left; split; [done|by apply final_permanent]|]. unfold Millisecond in *.
  apply follows_call; [done|]. intros drawn Hdrawn. cbn [learns can] in *. apply follows_call; [done|]. intros now _. cbn [learns]. apply follows_call; [done|]. intros [] _. cbn [learns].
  apply follows_call.
  { exists err. split; [done|]. split; [rewrite <- final_permanent; by rewrite Hf|]. pose proof (retryDelay_bounds backoff1 maxReconnect (retryAfter err) drawn) as Hr. fold (retryAfter err).
    change (2 ^ 62) with 4611686018427387904 in Hr. specialize (Hr ltac:(lia) (Hdrawn ltac:(lia))). unfold maxReconnect in *.
    assert (Z.quot backoff1 2 * 2 + Z.rem backoff1 2 = backoff1) by (rewrite Z.mul_comm; symmetry; apply Z.quot_rem'). pose proof (Z.rem_bound_pos backoff1 2). unfold Millisecond, Second in *. lia. }
  intros [e|] _; cbn [learns]; [apply obeys_ret; by left|]. rewrite <- E1. set (d2 := d1 <| ct_error := None |>). change (ct_cursor d1) with (ct_cursor d2). apply IH; [done| |done|by right].
  unfold maxReconnect, Second, Millisecond in *. case_bool_decide; [|lia]. i64s. lia.
Qed.

Lemma follows_subscribe rounds : follows (Subscribe rounds o) fresh finished.
Proof.
  assert (Hb : 50 * Millisecond <= minReconnect <= 2 ^ 33) by done.
  unfold Subscribe. case_bool_decide; [right; right; split; [done|by left]|]. case_bool_decide; [right; right; split; [done|by right; left]|]. unfold subscriptionMemberID.
  case_bool_decide as Hl; [right; right; split; [done|by right; right; left]|]. case_bool_decide as Hm; cbn [pbind].
  - refine (obeys_loop rounds (su_MemberID o) minReconnect fresh _ Hb _ _); [|done|by left]. unfold memberOf. rewrite decide_False by done. split; [done|lia].
  - split; [done|]. intros [e|id] Hid; cbn [pbind learns]; [right; right; split; [done|]; right; right; right; split; [done|by exists e]|].
    refine (obeys_loop rounds (hexString id) minReconnect (fresh <| ct_random := Some (inr id) |>) _ Hb _ _); [|done|by left].
    unfold memberOf. rewrite decide_True by done. exists id. split; [done|]. split; [done|]. rewrite slen_hexString. cbn in Hid. lia.
Qed.

(** C7: reconnections. In every execution of [Subscribe]: each connection asks for the cursor that the last one to return a cursor has returned, under the same
    topic, group and member, whose ID is the caller's or 16 random bytes in 32 hexadecimal digits; a new connection is made only after the wait that
    follows an error, between 25 ms and 2 s or what the broker asked for, and never after a drain timeout, a panic of the handler or an answer of the 4xx class
    other than 408 and 429; and the error that is returned is that of the context, one of these, or that of the options it refuses. *)
Theorem subscribe_resumes rounds tr r : Programs.execution learns can (Subscribe rounds o) fresh tr r ->
  permitted fits learns tr fresh /\ finished r (afterAll learns tr fresh).
Proof. intros He. exact (obeys_sound fits learns can _ _ _ _ He _ (follows_subscribe rounds)). Qed.
End Spec.

(** ** A subscription that loses its connection and ends on a panic *)
Definition ex_subscribe : SubscribeOptions := mkSubscribeOptions "orders" "" "" "c0" 0 0 0 0.
(** The state counts the connections. *)
Definition ex_world X (e : subCall X) (n : nat) : X * nat :=
  match e in subCall X return X * nat with
  | uContext => (None, n)
  | uRandom => (inr (repeat x2a 16), n)
  | uNow => (0, n)
  | uOnce o => (match n with O => ("c1", Failed (Plain errEOF)) | _ => (su_Cursor o, HandlerPanic) end, S n)
  | uDraw _ => (0, n)
  | uWait _ => (None, n)
  | uEmit _ _ _ _ => (tt, n)
  end.
Definition ex_calls : list (Programs.action subCall) := (run ex_world (Subscribe 5 ex_subscribe) 0%nat).1.1.
Lemma ex_calls_execution : Programs.execution learns can (Subscribe 5 ex_subscribe) (fresh ex_subscribe) ex_calls (ended HandlerPanic).
Proof.
  assert (E : (run ex_world (Subscribe 5 ex_subscribe) 0%nat).1.2 = ended HandlerPanic) by (vm_compute; reflexivity). rewrite <- E. apply run_execution.
  intros X e d n. destruct e; done.
Qed.
(** The second connection asked for the cursor that the first one returned. *)
Lemma ex_calls_cursors : (ex_calls ≫= fun a => match a with @Act _ X e _ => match e with uOnce o => [su_Cursor o] | _ => [] end end) = ["c0"; "c1"].
Proof. vm_compute. reflexivity. Qed.
Lemma subscribe_resumes_witness : (ex_calls ≫= fun a => match a with @Act _ X e _ => match e with uOnce o => [su_Cursor o] | _ => [] end end) = ["c0"; "c1"] /\
  permitted (fits ex_subscribe) learns ex_calls (fresh ex_subscribe) /\ finished ex_subscribe (ended HandlerPanic) (afterAll learns ex_calls (fresh ex_subscribe)).
Proof. split; [exact ex_calls_cursors|]. exact (subscribe_resumes ex_subscribe 5 ex_calls (ended HandlerPanic) ex_calls_execution). Defined.
