(* ===== verification/EndToEnd.v ===== *)
(** * From the broker's stream to the client and back

    A subscription that loses its connection comes back with the cursor of what it has processed; the broker then replays
    what is beyond it, and not what was processed.  The stream of the broker ([stamped], StreamSpec.v), the frames (FramesSpec.v) and
    the session of the client (SessionSpec.v) meet here. *)
From S2P Require Import Prelude GoHeap Dll Types Config GoIO Base64 Compression Client Frames Session SessionInv SessionSpec Pending Cache CacheIndex CacheExpiry CacheInv CacheExpire CacheSpec StreamCursor StreamResume Stream StreamSpec.
#[local] Open Scope Z_scope.

Section EndToEnd.
Context `{CursorJSON} (gzip zstd : Codec) (concurrency maxPayload : Z).

Lemma stamped_take c l n : take n (stamped c l) = stamped c (take n l).
Proof. revert c n. induction l as [|[x t] l IH]; intros c [|n]; cbn; [done..|]. by rewrite IH. Qed.
Lemma stamped_lookup c l j y : stamped c l !! j = Some y -> exists f, l !! j = Some f /\ d_MessageID y = d_MessageID f.1.
Proof. revert c j. induction l as [|[x t] l IH]; intros c [|j]; cbn; [done|done|intros [= <-]; by eexists|apply IH]. Qed.
Lemma length_stamped c l : length (stamped c l) = length l.
Proof. revert c. induction l as [|[x t] l IH]; intros c; cbn; [done|]. by rewrite IH. Qed.

(** The cursor after the first frames of a stream. *)
Lemma lastCursor_stamped l : forall c initial T, cd_Cursor <$> T = d_Cursor <$> stamped c l -> Forall (fun y => d_Cursor y <> "") (stamped c l) ->
  lastCursor initial T = if bool_decide (l = []) then initial else encodeReplayCursor (sc_sequences (advanceAll l c)).
Proof.
  intros c initial. induction l as [|[x t] l IH] using rev_ind; intros T Et Hne.
  - destruct T; [done|by cbn in Et].
  - rewrite bool_decide_eq_false_2 by (by destruct l). rewrite stamped_snoc in *. rewrite fmap_app in Et.
    destruct T as [|d T _] using rev_ind; [destruct (d_Cursor <$> stamped c l); by cbn in Et|]. rewrite fmap_app in Et. apply app_inj_2 in Et as [Et Ed]; [|done]. injection Ed as Ed.
    rewrite lastCursor_snoc, Ed, advanceAll_snoc. apply Forall_app in Hne as [_ Hne]. apply Forall_cons in Hne as [Hne _]. cbn in *. by rewrite bool_decide_eq_false_2.
Qed.

(** What the client reads of a delivery, but for the payload, which it may decompress. *)
Definition sameDelivery (y : Delivery) (d : ClientDelivery) : Prop := cd_DeliveryID d = d_DeliveryID y /\ cd_MessageID d = d_MessageID y /\ cd_Cursor d = d_Cursor y.

Lemma sameDelivery_cursors n L T : Forall2 sameDelivery L T -> cd_Cursor <$> take n T = d_Cursor <$> take n L.
Proof. intros Hs%(Forall2_take _ _ _ n). induction Hs as [|y d ? ? (_ & _ & E) _ IH]; [done|]. rewrite !fmap_cons, E. by f_equal. Qed.
Lemma last_text l c : l <> [] -> Forall (fun y => d_Cursor y <> "") (stamped c l) -> encodeReplayCursor (sc_sequences (advanceAll l c)) <> "".
Proof. destruct l as [|[x t] l _] using rev_ind; [done|]. intros _. rewrite stamped_snoc, advanceAll_snoc. by intros [_ [Hlast _]%Forall_cons]%Forall_app. Qed.

(** C5: a broadcast subscription that comes back. The broker opened a stream with the cursor [c] that the text [initial] stands for, and wrote the
    frames [l]; the client took some of them, in order, and its session ended, for whatever reason, with the cursor [cur]. Then there
    are first deliveries, all of them processed (the handler returned no error and the acknowledgement was confirmed), such that the broker understands
    [cur] and replays, in their order, messages of the topic that are cached: each one that is beyond [c] and newer than every one of these deliveries of its origin, and none that one of these
    deliveries was of, unless it has expired. What the stream passed over before a later delivery of the same origin that was processed (see the finding on sendDeliveryLocked) is not among the first. *)
Theorem resume_unprocessed c l now k topic initial s cur e : cacheOK k -> Forall (fun f => f.2 <= now) l -> cursorOK (sc_sequences c) ->
  Forall (fun f => originOK (d_origin f.1) /\ in_u64 (d_sequence f.1)) l -> Forall (fun y => d_Cursor y <> "") (stamped c l) -> decodeReplayCursor initial = Some (sc_sequences c) ->
  0 <= concurrency -> sreach gzip zstd concurrency maxPayload initial s -> llen (ss_taken s) < 2 ^ 64 - 2 ->
  (exists l1 l2, l = l1 ++ l2 /\ Forall2 sameDelivery (stamped c l1) (ss_taken s)) -> ss_main s = Session.returned cur e ->
  exists n cursor ms, decodeReplayCursor cur = Some cursor /\ replayIDsLocked topic cursor false 0 k = Some (m_ID <$> ms, k) /\ ms `sublist_of` history k topic /\
    (forall m, m ∈ history k topic -> beyond (sc_sequences c) (take n l) m -> m ∈ ms) /\
    (forall f m, f ∈ take n l -> carries f m -> now < m_ExpiresAt m -> m ∉ ms) /\
    forall j f, (j < n)%nat -> l !! j = Some f -> exists d, cd_MessageID d = d_MessageID f.1 /\ processed s j d.
Proof.
  intros K Ht Hok Hl Hne Hini Hc Hr Hb (l1 & l2 & El & Hsame) Em.
  pose proof (reach_ok _ _ _ _ _ s Hc Hr Hb) as Ok. destruct (ok_returned _ _ s cur e Ok Em) as (n & Hn & -> & Hp).
  assert (Hlen : length (ss_taken s) = length l1) by (apply Forall2_length in Hsame; by rewrite length_stamped in Hsame). unfold llen in Hn.
  assert (En : take n l = take n l1) by (rewrite El, take_app_le; [done|lia]).
  destruct (resumed_replay c (take n l) now k topic K Hok (Forall_take _ _ _ Hl) (Forall_take _ _ _ Ht)) as (ms & Er & Hsub & Hin & Hout).
  exists n, (sc_sequences (advanceAll (take n l) c)), ms. split_and!; [|done..|].
  - rewrite (lastCursor_stamped (take n l) c initial); [|rewrite En, <- stamped_take; by apply sameDelivery_cursors|rewrite <- stamped_take; by apply Forall_take].
    case_bool_decide as Hz; [by rewrite Hz|]. apply advanced_text; [done|by apply Forall_take|]. apply last_text; [done|]. rewrite <- stamped_take. by apply Forall_take.
  - intros j f Hj Hf. assert (Hj1 : l1 !! j = Some f) by (rewrite <- Hf, El; symmetry; apply lookup_app_l; lia).
    destruct (lookup_lt_is_Some_2 (ss_taken s) j) as [d Hd2]; [apply lookup_lt_Some in Hj1; lia|]. exists d. split; [|by apply Hp].
    destruct (Forall2_lookup_r _ _ _ _ _ Hsame Hd2) as (y & Hy & _ & -> & _). destruct (stamped_lookup _ _ _ _ Hy) as (f' & Hf' & ->). pose proof (eq_trans (eq_sym Hf') Hj1) as Ef. by injection Ef as ->.
Qed.
End EndToEnd.

(** ** A subscription that has processed the first of two messages when its stream ends *)
Definition ex_written : list Delivery := @stamped bitJSON ex_cursor ex_frames.
Definition ex_readCursor : string := match ex_written with y :: _ => d_Cursor y | [] => "" end.
Definition ex_read : ClientDelivery := mkClientDelivery "d1" "a" "t" "" ∅ 5 ex_readCursor 1 [].

Lemma ex_session : exists s, sreach ex_codec ex_codec 2 1024 "" s /\ ss_main s = Session.returned ex_readCursor (Failed (Plain errEOF)) /\ ss_taken s = [ex_read].
Proof.
  pose proof (sr_new ex_codec ex_codec 2 1024 "") as R.
  ex_go R (fun s s' => @st_frame ex_codec ex_codec 2 1024 s s' (inr ex_read)). ex_go R (@st_window ex_codec ex_codec 2 1024). ex_go R (@st_slot ex_codec ex_codec 2 1024).
  ex_go R (fun s s' w => @st_handled ex_codec ex_codec 2 1024 s s' 1 w hNil). ex_go R (fun s s' => @st_submit ex_codec ex_codec 2 1024 s s' 1).
  ex_go R (fun s s' => @st_first ex_codec ex_codec 2 1024 s s' Ack). ex_go R (fun s s' => @st_post ex_codec ex_codec 2 1024 s s' Ack). ex_go R (fun s s' b => @st_answer ex_codec ex_codec 2 1024 s s' Ack b None).
  ex_go R (fun s s' => @st_submitted ex_codec ex_codec 2 1024 s s' 1). ex_go R (fun s s' => @st_complete ex_codec ex_codec 2 1024 s s' 1). ex_go R (fun s s' => @st_release ex_codec ex_codec 2 1024 s s' 1).
  ex_leave R 1. ex_go R (fun s s' => @st_frame ex_codec ex_codec 2 1024 s s' (inl errEOF)). ex_go R (@st_drained ex_codec ex_codec 2 1024).
  eexists. split; [exact R|]. vm_compute. done.
Qed.

Lemma ex_same : Forall2 sameDelivery ex_written [ex_read].
Proof. vm_compute. repeat constructor. Qed.
Lemma ex_cursors : Forall (fun y => d_Cursor y <> "") ex_written.
Proof.
  assert (E : exists y, ex_written = [y] /\ d_Cursor y = ex_readCursor) by (eexists; split; [vm_compute|]; reflexivity).
  destruct E as (y & -> & E). apply Forall_cons. split; [rewrite E; vm_compute; discriminate|by apply Forall_nil].
Qed.

Lemma ex_times : Forall (fun f : Delivery * Z => f.2 <= 5) ex_frames.
Proof. repeat constructor; cbn; lia. Qed.

Lemma resume_unprocessed_witness : exists s, (sreach ex_codec ex_codec 2 1024 "" s /\ ss_main s = Session.returned ex_readCursor (Failed (Plain errEOF)) /\ ss_taken s = [ex_read]) /\
  exists n cursor ms, @decodeReplayCursor bitJSON ex_readCursor = Some cursor /\ replayIDsLocked "t" cursor false 0 ex_history2 = Some (m_ID <$> ms, ex_history2) /\ ms `sublist_of` history ex_history2 "t" /\
    (forall m, m ∈ history ex_history2 "t" -> beyond (sc_sequences ex_cursor) (take n ex_frames) m -> m ∈ ms) /\
    (forall f m, f ∈ take n ex_frames -> carries f m -> 5 < m_ExpiresAt m -> m ∉ ms) /\
    forall j f, (j < n)%nat -> ex_frames !! j = Some f -> exists d, cd_MessageID d = d_MessageID f.1 /\ processed s j d.
Proof.
  destruct ex_session as (s & R & E & T). exists s. split; [exact (conj R (conj E T))|].
  refine (@resume_unprocessed bitJSON ex_codec ex_codec 2 1024 ex_cursor ex_frames 5 ex_history2 "t" "" s ex_readCursor (Failed (Plain errEOF)) ex_history_ok ex_times ex_cursor_ok ex_frames_ok ex_cursors eq_refl
    ltac:(lia) R _ _ E).
  - rewrite T. reflexivity.
  - exists ex_frames, []. split; [reflexivity|]. rewrite T. exact ex_same.
Defined.
