(* ===== verification/Digest.v ===== *)
(** * The digest of a cache

    [cacheDigest], [digestSnapshot] and [digestMessages] of internal/broker/broker.go: a fingerprint of what a broker
    caches, which tests compare between brokers. crypto/sha256 is a parameter. *)
From S2P Require Import Prelude Types GoIO Base64 Wire Cache CacheIndex CacheInv CacheExpire CacheSpec.
From stdpp Require Import sorting.
From Stdlib Require Import Sorting.Sorted.
From Stdlib Require Strings.String Strings.Ascii Strings.Byte.
#[local] Open Scope Z_scope.

Section Digest.
Context `{MapRange} (sha256 : list byte -> list byte).

(** [_ = writePeerString(h, s)] of a [hash.Hash], which collects what is written to it. *)
Definition hashed (w : Writer (list byte)) (h : list byte) : list byte := (w h).1.
Definition byText {A} (key : A -> string) : A -> A -> bool := fun a b => String.ltb (key a) (key b).

(** [fixed[:]] *)
Definition digestFixed (m : Message) : list byte :=
  beBytes 4 (llen (m_Payload m)) ++ beBytes 8 (m_CreatedAt m) ++ beBytes 8 (m_ExpiresAt m) ++ beBytes 2 (mlen (m_Headers m)).
Definition headerKeys (m : Message) : list string := stable_sort (byText id) (rangeMap (m_Headers m)).*1.
Definition writeHeader (headers : gmap string string) (h : list byte) (key : string) : list byte :=
  hashed (writePeerString (default "" (headers !! key))) (hashed (writePeerString key) h).

(** What is written to [messageDigest]. *)
Definition messageText (m : Message) : list byte :=
  let h := hashed (writePeerString (m_ID m)) [] in
  let h := hashed (writePeerString (m_Topic m)) h in
  let h := hashed (writePeerString (m_Key m)) h in
  let h := h ++ digestFixed m in
  let h := foldl (writeHeader (m_Headers m)) h (headerKeys m) in
  h ++ m_Payload m.

Definition digestMessages (messages : list Message) : string :=
  encode64 (sha256 (concat ((fun m => sha256 (messageText m)) <$> stable_sort (byText m_ID) messages))).

(** The messages of [c.items], in the order of the map. *)
Definition digestSnapshot (range : gmap string loc -> list (string * loc)) : GoM cache (list Message) :=
  c <- gget ;; gmap_list cderef (range (c_items c)).*2.

(** What [cacheDigest] answers to a peer: another digest is being computed, [busy], or the digest. *)
Definition digestAnswer (range : gmap string loc -> list (string * loc)) (busy : bool) : GoM cache (Z * string) :=
  if busy then gret (429, "digest_in_progress") else
  messages <- digestSnapshot range ;;
  gret (200, digestMessages messages).
End Digest.

(** ** Sorting by a text *)
Lemma compare_trans a : forall b c, String.compare a b <> Gt -> String.compare b c <> Gt -> String.compare a c <> Gt.
Proof.
  induction a as [|x a IH]; intros [|y b] [|z c]; cbn; try done. unfold Ascii.compare.
  destruct (N.compare_spec (Ascii.N_of_ascii x) (Ascii.N_of_ascii y)) as [E1|L1|]; [| |done]; destruct (N.compare_spec (Ascii.N_of_ascii y) (Ascii.N_of_ascii z)) as [E2|L2|]; try done; intros H1 H2.
  - assert (Ascii.N_of_ascii x = Ascii.N_of_ascii z)%N as -> by congruence. rewrite N.compare_refl. by apply (IH b).
  - rewrite E1. by rewrite (proj2 (N.compare_lt_iff _ _) L2).
  - rewrite <- E2. by rewrite (proj2 (N.compare_lt_iff _ _) L1).
  - assert (L : (Ascii.N_of_ascii x < Ascii.N_of_ascii z)%N) by lia. by rewrite (proj2 (N.compare_lt_iff _ _) L).
Qed.

Definition inOrder {A} (key : A -> string) (a b : A) : Prop := String.compare (key a) (key b) <> Gt.
#[export] Instance inOrder_trans {A} (key : A -> string) : Transitive (inOrder key).
Proof. intros a b c. apply compare_trans. Qed.
Lemma byText_false {A} (key : A -> string) a b : byText key a b = false -> inOrder key b a.
Proof. unfold byText, inOrder, String.ltb. rewrite (String.compare_antisym (key a) (key b)). by destruct (String.compare (key b) (key a)). Qed.
Lemma byText_true {A} (key : A -> string) a b : byText key a b = true -> inOrder key a b.
Proof. unfold byText, inOrder, String.ltb. by destruct (String.compare (key a) (key b)). Qed.

Lemma insert_byText {A} (key : A -> string) x l : StronglySorted (inOrder key) l -> StronglySorted (inOrder key) (insert_stable (byText key) x l).
Proof.
  induction 1 as [|y l Hs IH Hy]; cbn; [repeat constructor|]. destruct (byText key x y) eqn:E.
  - apply byText_true in E. constructor; [by constructor|]. constructor; [done|]. eapply Forall_impl; [exact Hy|]. intros z. by apply inOrder_trans.
  - apply byText_false in E. constructor; [done|]. rewrite insert_stable_perm. by constructor.
Qed.
Lemma stable_sort_byText {A} (key : A -> string) l : StronglySorted (inOrder key) (stable_sort (byText key) l).
Proof. unfold stable_sort. assert (Hn : StronglySorted (inOrder key) (@nil A)) by constructor. revert Hn. generalize (@nil A). induction l as [|x l IH]; intros acc Ha; cbn; [done|]. by apply IH, insert_byText. Qed.

(** There is one order of elements with different keys. *)
Lemma stable_sort_unique {A} (key : A -> string) l k : NoDup (key <$> l) -> l ≡ₚ k -> stable_sort (byText key) l = stable_sort (byText key) k.
Proof.
  intros Hnd Hp. assert (Hinj : forall a b, a ∈ l -> b ∈ l -> inOrder key a b -> inOrder key b a -> a = b).
  { intros a b Ha Hb H1 H2. unfold inOrder in *. rewrite (String.compare_antisym (key b) (key a)) in H2. assert (E : key a = key b) by (apply String.compare_eq_iff; destruct (String.compare (key a) (key b)); done).
    apply list_elem_of_lookup in Ha as [i Hi], Hb as [j Hj]. assert (Ei : (key <$> l) !! i = Some (key a)) by by rewrite list_lookup_fmap, Hi. assert (Ej : (key <$> l) !! j = Some (key a)) by by rewrite list_lookup_fmap, Hj, E.
    rewrite NoDup_alt in Hnd. assert (i = j) as -> by (by eapply Hnd). congruence. }
  assert (Hsp : stable_sort (byText key) l ≡ₚ stable_sort (byText key) k) by by rewrite !stable_sort_perm.
  refine (StronglySorted_unique_strong (inOrder key) _ _ _ (stable_sort_byText key l) (stable_sort_byText key k) Hsp). intros a b Ha Hb.
  rewrite (stable_sort_perm (byText key) l) in Ha. rewrite (stable_sort_perm (byText key) k), <- Hp in Hb. by apply Hinj.
Qed.

Lemma insert_stable_fmap {A B} (f : A -> B) (less : B -> B -> bool) x l : f <$> insert_stable (fun a b => less (f a) (f b)) x l = insert_stable less (f x) (f <$> l).
Proof. induction l as [|y l IH]; [done|]. cbn. destruct (less (f x) (f y)); [done|]. cbn. by f_equal. Qed.
Lemma stable_sort_fmap {A B} (f : A -> B) (less : B -> B -> bool) l : f <$> stable_sort (fun a b => less (f a) (f b)) l = stable_sort less (f <$> l).
Proof.
  unfold stable_sort. change (@nil B) with (f <$> @nil A). generalize (@nil A). induction l as [|x l IH]; intros acc; [done|]. cbn. rewrite IH. by rewrite insert_stable_fmap.
Qed.

(** ** What the text of a message holds *)
Section Content.
Context `{MapRange}.

(** What the text can hold: [writePeerString] writes a length of 16 bits and nothing of a longer text, the payload has a length of
    32 bits, the headers a count of 16. *)
Record digestible (m : Message) : Prop := {
  dg_texts : Forall (fun s => slen s <= 65535) [m_ID m; m_Topic m; m_Key m];
  dg_headers : map_Forall (fun k v => slen k <= 65535 /\ slen v <= 65535) (m_Headers m);
  dg_count : mlen (m_Headers m) < 65536;
  dg_payload : llen (m_Payload m) < 4294967296;
  dg_created : in_i64 (m_CreatedAt m);
  dg_expires : in_i64 (m_ExpiresAt m);
}.

(** A message as far as the digest looks. *)
Definition content (m : Message) : Message :=
  mkMessage (m_ID m) (m_Topic m) (m_Key m) (m_Headers m) (m_Payload m) (m_CreatedAt m) (m_ExpiresAt m) "" 0 None None None 0 0 0 0.

Definition sortedPairs (m : Message) : list (string * string) := (fun k => (k, default "" (m_Headers m !! k))) <$> headerKeys m.
Lemma sortedPairs_perm m : sortedPairs m ≡ₚ map_to_list (m_Headers m).
Proof.
  unfold sortedPairs, headerKeys. rewrite stable_sort_perm, rangeMap_perm. rewrite <- list_fmap_compose.
  assert (E : forall l : list (string * string), (forall p, p ∈ l -> m_Headers m !! p.1 = Some p.2) -> ((fun k => (k, default "" (m_Headers m !! k))) ∘ fst) <$> l = l).
  { induction l as [|[k v] l IH]; intros Hl; [done|]. rewrite fmap_cons, IH by (intros p Hp; apply Hl; by right). cbn. pose proof (Hl (k, v) ltac:(left)) as Hk. cbn in Hk. by rewrite Hk. }
  rewrite E; [done|]. intros [k v] Hp. by apply elem_of_map_to_list in Hp.
Qed.
Lemma sortedPairs_short m : digestible m -> Forall (fun p => slen p.1 <= 65535 /\ slen p.2 <= 65535) (sortedPairs m).
Proof. intros D. rewrite sortedPairs_perm. apply Forall_forall. intros [k v] Hin%elem_of_map_to_list. exact (dg_headers _ D _ _ Hin). Qed.
Lemma sortedPairs_map m : foldl addHeader ∅ (sortedPairs m) = m_Headers m.
Proof.
  rewrite foldl_addHeader, map_union_empty. transitivity (list_to_map (M := gmap string string) (map_to_list (m_Headers m))); [|apply list_to_map_to_list].
  apply list_to_map_proper; rewrite reverse_Permutation, sortedPairs_perm; [|done]. apply NoDup_fst_map_to_list.
Qed.

Lemma hashed_string s h : slen s <= 65535 -> hashed (writePeerString s) h = h ++ encString s.
Proof. intros Hs. unfold hashed. by rewrite emits_writePeerString. Qed.

Lemma messageText_eq m : digestible m -> messageText m = encString (m_ID m) ++ encString (m_Topic m) ++ encString (m_Key m) ++ digestFixed m ++ concat (encPair <$> sortedPairs m) ++ m_Payload m.
Proof.
  intros D. pose proof (dg_texts _ D) as Ht. rewrite !Forall_cons in Ht. destruct Ht as (H1 & H2 & H3 & _). unfold messageText. rewrite !hashed_string by done. cbn [app].
  assert (E : forall l h, Forall (fun p => slen p.1 <= 65535 /\ slen p.2 <= 65535) ((fun k => (k, default "" (m_Headers m !! k))) <$> l) ->
    foldl (writeHeader (m_Headers m)) h l = h ++ concat (encPair <$> ((fun k => (k, default "" (m_Headers m !! k))) <$> l))).
  { induction l as [|k l IH]; intros h Hl; cbn; [by rewrite app_nil_r|]. apply Forall_cons in Hl as [[Hk Hv] Hl]. rewrite IH by done. unfold writeHeader. rewrite !hashed_string by done.
    unfold encPair at 2. cbn [fst snd]. by rewrite <- !app_assoc. }
  rewrite E; [fold (sortedPairs m); by rewrite <- !app_assoc|by apply sortedPairs_short].
Qed.

(** A reader that takes the text apart. *)
Fixpoint readPairs (n : nat) : Reader (list (string * string)) :=
  match n with
  | O => rret []
  | S n => k <~ readPeerString 65535 ;; v <~ readPeerString 65535 ;; l <~ readPairs n ;; rret ((k, v) :: l)
  end.

Lemma decodes_pairs l : Forall (fun p => slen p.1 <= 65535 /\ slen p.2 <= 65535) l -> decodes (readPairs (length l)) (concat (encPair <$> l)) l.
Proof.
  induction 1 as [|[k v] l [Hk Hv] _ IH]; [apply decodes_ret|]. cbn [length readPairs fmap list_fmap concat]. unfold encPair at 1. cbn [fst snd] in *. rewrite <- app_assoc.
  eapply decodes_bind; [by apply decodes_string|]. eapply decodes_bind; [by apply decodes_string|]. by apply (decodes_bind_ret _ (cons (k, v))).
Qed.

Definition readContent : Reader Message :=
  id <~ readPeerString 65535 ;;
  topic <~ readPeerString 65535 ;;
  key <~ readPeerString 65535 ;;
  fixed <~ readFull 22 ;;
  headers <~ readPairs (Z.to_nat (field 20 2 fixed)) ;;
  payload <~ readFull (Z.to_nat (field 0 4 fixed)) ;;
  rret (mkMessage id topic key (foldl addHeader ∅ headers) payload (i64 (field 4 8 fixed)) (i64 (field 12 8 fixed)) "" 0 None None None 0 0 0 0).

Lemma digest_fields m : field 0 4 (digestFixed m) = llen (m_Payload m) mod 4294967296 /\ field 4 8 (digestFixed m) = u64 (m_CreatedAt m) /\
  field 12 8 (digestFixed m) = u64 (m_ExpiresAt m) /\ field 20 2 (digestFixed m) = mlen (m_Headers m) mod 65536.
Proof.
  unfold digestFixed. split_and!.
  - apply (field_beBytes []). done.
  - apply (field_beBytes (beBytes 4 _)). done.
  - rewrite (app_assoc (beBytes 4 _)). apply field_beBytes. done.
  - rewrite (app_assoc (beBytes 4 _)), (app_assoc (_ ++ beBytes 8 _)). rewrite <- (app_nil_r (beBytes 2 _)). apply (field_beBytes ((beBytes 4 _ ++ beBytes 8 _) ++ beBytes 8 _)). done.
Qed.

Lemma decodes_content m : digestible m -> decodes readContent (messageText m) (content m).
Proof.
  intros D. rewrite (messageText_eq m D). pose proof (sortedPairs_short _ D) as Hp. destruct D as [Ht _ Hc Hpay H5 H6]. rewrite !Forall_cons in Ht. destruct Ht as (H1 & H2 & H3 & _).
  pose proof (llen_nonneg (m_Payload m)). assert (0 <= mlen (m_Headers m)) by (unfold mlen; lia).
  unfold readContent. do 3 (eapply decodes_bind; [by apply decodes_string|]).
  eapply decodes_bind; [by apply decodes_full|]. destruct (digest_fields m) as (-> & -> & -> & ->). rewrite !Z.mod_small, !i64_u64 by (try done; lia).
  unfold mlen, llen. rewrite !Nat2Z.id. eapply decodes_bind.
  - assert (El : length (sortedPairs m) = size (m_Headers m)) by (rewrite sortedPairs_perm; apply length_map_to_list). rewrite <- El. by apply decodes_pairs.
  - rewrite sortedPairs_map. by apply (decodes_bind_ret _ (fun p => mkMessage _ _ _ _ p _ _ _ _ _ _ _ _ _ _ _)), decodes_full.
Qed.

Lemma messageText_inj m m' : digestible m -> digestible m' -> messageText m = messageText m' -> content m = content m'.
Proof.
  intros O O' E. pose proof (decodes_content m O []) as D. pose proof (decodes_content m' O' []) as D'. rewrite E, D' in D. congruence.
Qed.
Lemma messageText_content m : messageText (content m) = messageText m.
Proof. reflexivity. Qed.
End Content.

(** ** Digests of equal length *)
Lemma chunks_inj {A} (n : nat) (ls ks : list (list A)) :
  (0 < n)%nat -> Forall (fun l => length l = n) ls -> Forall (fun l => length l = n) ks -> concat ls = concat ks -> ls = ks.
Proof.
  intros Hn Hl. revert ks. induction Hl as [|l ls Hl _ IH]; intros [|k ks] Hk E; inversion Hk; subst; cbn in E; [done| | |].
  - symmetry in E. apply app_eq_nil in E as [-> _]. cbn in *. lia.
  - apply app_eq_nil in E as [-> _]. cbn in *. lia.
  - apply app_inj_1 in E as [-> E]; [|lia]. f_equal. by apply IH.
Qed.

(** Texts with the same image are the same texts, or two of them collide. *)
Lemma fmap_collides {A B} `{EqDecision A} (f : A -> B) (l k : list A) : f <$> l = f <$> k -> l = k \/ exists x y, x <> y /\ f x = f y.
Proof.
  revert k. induction l as [|x l IH]; intros [|y k] E; try done; [by left|]. injection E as E1 E2.
  destruct (decide (x = y)) as [<-|Hne]; [|by right; exists x, y]. destruct (IH k E2) as [->|Hc]; [by left|by right].
Qed.

(** The order in which the headers are ranged over does not matter. *)
Lemma headerKeys_any (R R' : MapRange) m : @headerKeys R m = @headerKeys R' m.
Proof.
  apply (stable_sort_unique id).
  - rewrite list_fmap_id, (rangeMap_perm (m_Headers m)). apply NoDup_fst_map_to_list.
  - by rewrite !(rangeMap_perm (m_Headers m)).
Qed.
Lemma messageText_any (R R' : MapRange) m : @messageText R m = @messageText R' m.
Proof. unfold messageText. by rewrite (headerKeys_any R R'). Qed.

Section Equivalence.
Context (sha256 : list byte -> list byte) (Hsha : forall t, llen (sha256 t) = 32).

Definition sorted (l : list Message) : list Message := stable_sort (byText m_ID) (content <$> l).
Lemma digestMessages_sorted `{MapRange} l : digestMessages sha256 l = encode64 (sha256 (concat (sha256 <$> (messageText <$> sorted l)))).
Proof.
  unfold digestMessages, sorted. do 3 f_equal. change (byText m_ID) with (fun a b => byText m_ID (content a) (content b)) at 1. rewrite <- !list_fmap_compose.
  rewrite <- (stable_sort_fmap content (byText m_ID) l), <- list_fmap_compose. done.
Qed.

Lemma sorted_texts `{MapRange} l l' : Forall digestible l -> Forall digestible l' -> messageText <$> sorted l = messageText <$> sorted l' -> content <$> l ≡ₚ content <$> l'.
Proof.
  intros Hl Hl' E. unfold sorted in E. rewrite <- !(stable_sort_fmap content (byText m_ID)), <- !list_fmap_compose in E.
  set (less := fun a b => byText m_ID (content a) (content b)) in E. rewrite <- (stable_sort_perm less l) in Hl |- *. rewrite <- (stable_sort_perm less l') in Hl' |- *.
  revert Hl Hl' E. generalize (stable_sort less l), (stable_sort less l'). clear less l l'.
  intros l. induction l as [|m l IH]; intros [|m' l'] Hl Hl' E; inversion Hl; inversion Hl'; try done. injection E as E1 E2. cbn.
  rewrite (messageText_inj m m'); [|done..]. constructor. by apply IH.
Qed.

Lemma digest_same (R R' : MapRange) l l' : NoDup (m_ID <$> l) -> content <$> l ≡ₚ content <$> l' -> @digestMessages R sha256 l = @digestMessages R' sha256 l'.
Proof.
  intros Hid Hp. rewrite !digestMessages_sorted. unfold sorted. rewrite (stable_sort_unique m_ID _ (content <$> l')); [|by rewrite <- list_fmap_compose|done].
  do 4 f_equal. apply list_fmap_ext. intros _ t _. apply messageText_any.
Qed.

Lemma digest_tells (R R' : MapRange) l l' : Forall digestible l -> Forall digestible l' -> @digestMessages R sha256 l = @digestMessages R' sha256 l' ->
  content <$> l ≡ₚ content <$> l' \/ exists t u, t <> u /\ sha256 t = sha256 u.
Proof.
  intros Hl Hl'. rewrite !digestMessages_sorted. intros E%encode64_inj. destruct (fmap_collides sha256 [_] [_] (f_equal (fun x => [x]) E)) as [[= E']|Hc]; [|by right].
  apply (chunks_inj 32) in E'; [|lia|apply Forall_fmap, Forall_true; intros t; specialize (Hsha t); unfold llen in *; cbn; lia..].
  destruct (fmap_collides _ _ _ E') as [Et|Hc]; [|by right]. left. apply (@sorted_texts R); [done..|]. rewrite Et. apply list_fmap_ext. intros _ m _. apply messageText_any.
Qed.
End Equivalence.

(** ** What a cache holds *)
Definition held (c : cache) : gmap string Message := omap (fun r => content <$> (c_mstore c !! r)) (c_items c).

Lemma wp_derefItems c (l : list loc) (Q : list Message -> cache -> Prop) :
  (forall r, r ∈ l -> is_Some (c_mstore c !! r)) -> (forall ms, (fun r => c_mstore c !! r) <$> l = Some <$> ms -> Q ms c) -> wp (gmap_list cderef l) c Q.
Proof.
  revert Q. induction l as [|r l IH]; intros Q Hl HQ; cbn [gmap_list]; [by apply wp_ret, (HQ [])|].
  destruct (Hl r) as [m Hm]; [left|]. wp_step. eapply wp_cderef; [exact Hm|]. wp_step. apply IH; [intros x Hx; apply Hl; by right|]. intros ms E. apply wp_ret, HQ. cbn. by rewrite Hm, E.
Qed.

Lemma snapshot_held range c : (forall h, range h ≡ₚ map_to_list h) -> cacheOK c ->
  exists l, digestSnapshot range c = Some (l, c) /\ (fun m => (m_ID m, content m)) <$> l ≡ₚ map_to_list (held c) /\
    (forall m, m ∈ l -> exists id r, c_items c !! id = Some r /\ c_mstore c !! r = Some m).
Proof.
  intros Hrange [[L I] _].
  assert (Hitem : forall id r, (id, r) ∈ range (c_items c) <-> c_items c !! id = Some r) by (intros id r; rewrite Hrange; apply elem_of_map_to_list).
  assert (W : wp (digestSnapshot range) c (fun l c' => c' = c /\ Forall2 (fun p m => c_mstore c !! p.2 = Some m /\ m_ID m = p.1) (range (c_items c)) l)).
  { unfold digestSnapshot. wp_step. apply wp_get. apply wp_derefItems.
    - intros r ([id r'] & -> & Hin)%list_elem_of_fmap. apply Hitem in Hin. destruct (ci_item _ _ _ _ _ I Hin) as (m & Hm & _). eauto.
    - intros ms E. split; [done|]. assert (Hall : forall id r, (id, r) ∈ range (c_items c) -> c_items c !! id = Some r) by (intros id r; by apply Hitem).
      revert ms E Hall. generalize (range (c_items c)). intros items. induction items as [|[id r] items IH]; intros [|m ms] E Hall; try done. injection E as E1 E2. constructor; [|apply IH; [done|intros; apply Hall; by right]].
      split; [done|]. destruct (ci_item _ _ _ id r I) as (m' & Hm' & <-); [by apply Hall; left|]. cbn. congruence. }
  apply wp_elim in W as (l & c' & E & -> & F). exists l. split; [exact E|]. split.
  - assert (Ek : m_ID <$> l = (range (c_items c)).*1) by (clear -F; induction F as [|p m ps ms [_ Hp] _ IH]; [done|]; cbn; by rewrite Hp, IH).
    apply NoDup_Permutation; [|apply NoDup_map_to_list|].
    + apply (NoDup_fmap_1 fst). rewrite <- list_fmap_compose. change (NoDup (m_ID <$> l)). rewrite Ek, Hrange. apply NoDup_fst_map_to_list.
    + intros [id t]. rewrite elem_of_map_to_list. unfold held. rewrite lookup_omap_Some, list_elem_of_fmap. split.
      * intros (m & [= -> ->] & Hm). apply list_elem_of_lookup in Hm as [i Hi]. destruct (Forall2_lookup_r _ _ _ _ _ F Hi) as ([id r] & Hp & Hr & Eid). cbn in *. subst id.
        exists r. rewrite Hr. split; [done|]. apply Hitem. by eapply list_elem_of_lookup_2.
      * intros (r & Ht & Hr). apply Hitem, list_elem_of_lookup in Hr as [i Hi]. destruct (Forall2_lookup_l _ _ _ _ _ F Hi) as (m & Hm & Hst & Eid). cbn in *. rewrite Hst in Ht. injection Ht as <-. exists m. rewrite Eid. split; [done|]. by eapply list_elem_of_lookup_2.
  - intros m Hm. apply list_elem_of_lookup in Hm as [i Hi]. destruct (Forall2_lookup_r _ _ _ _ _ F Hi) as ([id r] & Hp & Hr & _). exists id, r. split; [|done]. apply Hitem. by eapply list_elem_of_lookup_2.
Qed.

(** Every cached message fits. *)
Definition heldOk (c : cache) : Prop := forall id r m, c_items c !! id = Some r -> c_mstore c !! r = Some m -> digestible m.

Lemma held_contents l l' (g g' : gmap string Message) : (fun m => (m_ID m, content m)) <$> l ≡ₚ map_to_list g -> (fun m => (m_ID m, content m)) <$> l' ≡ₚ map_to_list g' ->
  content <$> l ≡ₚ content <$> l' <-> g = g'.
Proof.
  intros E E'. split.
  - intros Hp. apply map_to_list_inj. rewrite <- E, <- E'. change (fun m => (m_ID m, content m)) with ((fun t => (m_ID t, t)) ∘ content). rewrite !list_fmap_compose. by rewrite Hp.
  - intros <-. change content with (snd ∘ (fun m => (m_ID m, content m))). rewrite !list_fmap_compose, E, E'. done.
Qed.

(** C30: the digests of two caches compare what they hold.  A digest is computed without a panic and leaves the cache as it was;
    brokers whose caches hold the same messages (ID, topic, key, headers, payload and times) answer the same digest, whatever the
    orders in which each ranges over its maps; and brokers that answer the same digest hold the same messages, or two texts with
    one SHA-256 are in hand, provided that the text of a message holds all of it: no ID, topic, key or header is longer than the
    65535 bytes that [writePeerString] writes, there are fewer than 65536 headers, and the payload is shorter than 4 GiB. *)
Theorem digest_compares (sha256 : list byte -> list byte) (R R' : MapRange) range range' c c'
  (Hsha : forall t, llen (sha256 t) = 32)
  (Hr : forall h, range h ≡ₚ map_to_list h) (Hr' : forall h, range' h ≡ₚ map_to_list h) (K : cacheOK c) (K' : cacheOK c') (O : heldOk c) (O' : heldOk c') :
  exists d d', @digestAnswer R sha256 range false c = Some ((200, d), c) /\ @digestAnswer R' sha256 range' false c' = Some ((200, d'), c') /\
    (held c = held c' -> d = d') /\ (d = d' -> held c = held c' \/ exists t u, t <> u /\ sha256 t = sha256 u).
Proof.
  destruct (snapshot_held range c Hr K) as (l & E & Eh & Ho), (snapshot_held range' c' Hr' K') as (l' & E' & Eh' & Ho').
  exists (@digestMessages R sha256 l), (@digestMessages R' sha256 l'). unfold digestAnswer, gbind. rewrite E, E'. split_and!; [done..| |].
  - intros Heq. apply digest_same; [|by apply (held_contents l l' _ _ Eh Eh')]. change m_ID with (fst ∘ (fun m => (m_ID m, content m))). rewrite list_fmap_compose, Eh. apply NoDup_fst_map_to_list.
  - intros Ed. destruct (digest_tells sha256 Hsha R R' l l') as [Hp|Hc]; [..|by right]; [| |done|left; by apply (held_contents l l' _ _ Eh Eh')].
    + apply Forall_forall. intros m (id & r & Hi & Hm)%Ho. by apply (O id r).
    + apply Forall_forall. intros m (id & r & Hi & Hm)%Ho'. by apply (O' id r).
Qed.

(** ** Witness *)
Definition ex_hash (t : list byte) : list byte := take 32 (t ++ replicate 32 Byte.x00).
Lemma ex_hash_len t : llen (ex_hash t) = 32.
Proof. unfold ex_hash, llen. rewrite length_take, length_app, length_replicate. lia. Qed.
Definition ex_ranges : MapRange := {| rangeMap := map_to_list; rangeMap_perm _ := reflexivity _ |}.
Definition ex_reversed : MapRange := {| rangeMap h := reverse (map_to_list h); rangeMap_perm h := reverse_Permutation _ |}.

Lemma digest_compares_witness : heldOk ex_two /\ exists d, @digestAnswer ex_ranges ex_hash map_to_list false ex_two = Some ((200, d), ex_two) /\
  @digestAnswer ex_reversed ex_hash (fun h => reverse (map_to_list h)) false ex_two = Some ((200, d), ex_two).
Proof.
  assert (O : heldOk ex_two).
  { intros id r m Hi Hm. assert (Hin : r = 1%positive \/ r = 2%positive) by (clear Hm; apply elem_of_map_to_list in Hi; vm_compute in Hi; repeat (apply elem_of_cons in Hi as [[= -> ->]|Hi]; [first [by left|by right]|]); by apply elem_of_nil in Hi).
    destruct Hin as [-> | ->]; vm_compute in Hm; injection Hm as <-; clear; (split; [repeat (apply Forall_cons; split; [vm_compute; done|]); apply Forall_nil_2|intros k v Hkv; by vm_compute in Hkv|vm_compute; done..]). }
  split; [exact O|]. destruct (digest_compares ex_hash ex_ranges ex_reversed map_to_list (fun h => reverse (map_to_list h)) ex_two ex_two ex_hash_len
    (fun h => reflexivity _) (fun h => reverse_Permutation _) ex_two_ok ex_two_ok O O) as (d & d' & E & E' & Hd & _).
  exists d. split; [exact E|]. rewrite (Hd eq_refl). exact E'.
Defined.
