(* ===== verification/Status.v ===== *)
(** * The status and metrics pages

    [status], [prometheus] and [writeHistogram] of internal/broker/broker.go, and [groupWorkCountsLocked] of group_work.go: what an operator
    sees of a broker.  Each part of the broker is read under its own lock, so the parts of [observed] may be of different moments.
    A reader of the exposition format finds in the page of [prometheus] what the broker counted. *)
From S2P Require Import Prelude Types Config Metrics GoIO Frames FramesSpec Replication Repair Cache Checkpoints Pending PendingInv Deliveries GroupIndex GroupWork.
From Stdlib Require Import Sorting.Sorted.
From Stdlib Require Strings.String Strings.Byte.
#[local] Open Scope Z_scope.

(** What the pages read: [runtime.MemStats] and the number of goroutines come from Go's runtime. *)
Record observed := mkObserved {
  ob_cfg : Config;
  ob_cache : cache;
  ob_groups : groups;
  ob_peers : list peer;
  ob_metrics : Metrics;
  ob_admissionBytes : Z;
  ob_now : Z;
  ob_heapAlloc : Z;
  ob_numGC : Z;
  ob_goroutines : Z;
}.

Definition groupWorkCountsLocked (g : groups) : Z * Z :=
  foldl (fun n p => (n.1 + mlen (g_work p.2), n.2 + mlen (g_lanes p.2))) (0, 0) (map_to_list (gr_groupWork g)).

(** The topics that hold back publications. *)
Definition pressuredTopics (now : Z) (d : deliveries) : option Z :=
  foldl (fun n p => n ← n ; pressured ← topicDeliveryPressured p.1 now d ; Some (if pressured : bool then n + 1 else n)) (Some 0) (map_to_list (dv_topicPending d)).

(** [replicationQueueBytes], [replicationQueueMaxPeerBytes], [actionQueueBytes] *)
Definition queueBytes (peers : list peer) : Z * Z * Z :=
  foldl (fun n p => (i64 (n.1.1 + p_queuedBytes p), Z.max n.1.2 (p_queuedBytes p), i64 (n.2 + p_actionBytes p))) (0, 0, 0) peers.
Definition pendingRepairs (peers : list peer) : Z := llen (List.filter repairPending peers).
Definition queueCapacity (o : observed) : Z := i64 (cfg_ReplicationQueueBytes (ob_cfg o) * llen (ob_peers o)).

(** [status]: the fields of the answer. *)
Definition status (o : observed) : option (gmap string Z) :=
  let c := ob_cache o in let g := ob_groups o in let d := gr_dv g in let mt := ob_metrics o in
  let '(groupEntries, groupKeys) := groupWorkCountsLocked g in
  pressured ← pressuredTopics (ob_now o) d ;
  let '(queued, maxPeer, actions) := queueBytes (ob_peers o) in
  Some (list_to_map
    [("messages", mlen (c_items c)); ("cache_accounted_bytes", c_bytes c); ("cache_limit_bytes", c_maxBytes c); ("peers", llen (ob_peers o));
     ("consumers", mlen (dv_subs d)); ("pending_deliveries", mlen (dv_pending d)); ("pending_bytes", dv_pendingBytes d);
     ("consumer_checkpoints", ck_count (gr_ck g)); ("registered_groups", mlen (gr_groupWork g)); ("group_outstanding_messages", groupEntries);
     ("group_active_keys", groupKeys); ("group_memory_bytes", gr_groupMemoryBytes g); ("group_expired_messages", mt_GroupExpired mt);
     ("delivery_pressured_topics", pressured); ("replication_queue_bytes", queued); ("repair_pending_peers", pendingRepairs (ob_peers o));
     ("repair_pages", mt_RepairPages mt); ("repair_messages", mt_RepairMessages mt); ("repair_errors", mt_RepairErrors mt);
     ("replication_queue_max_peer_bytes", maxPeer); ("replication_queue_capacity_bytes", queueCapacity o);
     ("replication_queue_high_water_bytes", replicationHighWaterBytes (ob_cfg o)); ("action_queue_bytes", actions)]).

(** ** The text of metrics *)

(** [%d] of an int64 or a uint64. *)
Definition number (n : Z) : list byte := if bool_decide (n < 0) then Byte.x2d :: digits 20 (- n) else digits 20 n.
Definition newline : byte := Byte.x0a.

(** A metric: its name, its kind and its samples. *)
Record family := mkFamily { fm_name : string; fm_kind : string; fm_samples : list (string * Z) }.

Definition typeLine (f : family) : list byte := sbytes "# TYPE " ++ sbytes (fm_name f) ++ sbytes " " ++ sbytes (fm_kind f).
Definition sampleLine (s : string * Z) : list byte := sbytes s.1 ++ sbytes " " ++ number s.2.
Definition familyLines (f : family) : list (list byte) := typeLine f :: (sampleLine <$> fm_samples f).
Definition writeFamily (f : family) : list byte := concat ((fun l => l ++ [newline]) <$> familyLines f).

(** [strings.Contains] *)
Definition contains (s sub : string) : bool := match String.index 0 sub s with Some _ => true | None => false end.
Definition kindOf (name : string) : string :=
  if bool_decide (name ∈ ["spruce_cache_messages"; "spruce_cache_accounted_bytes"; "spruce_consumers"; "spruce_consumer_checkpoints"; "spruce_consumer_inflight"; "spruce_delivery_pressured_topics"])
     || contains name "_queue_" || contains name "_admission_" || bool_decide (name = "spruce_publish_admission_bytes") || bool_decide (name = "spruce_consumer_inflight_bytes")
  then "gauge" else "counter".
Definition single (kind name : string) (v : Z) : family := mkFamily name kind [(name, v)].

(** [writeHistogram] *)
Definition quoteMark : string := String.String (Ascii.ascii_of_byte Byte.x22) String.EmptyString.
Definition bucketLabel (name bound : string) : string := name +:+ "_bucket{le=" +:+ quoteMark +:+ bound +:+ quoteMark +:+ "}".
Definition histogramFamily (name : string) (h : durationHistogram) : family :=
  mkFamily name "histogram" (zip_with (fun bound n => (bucketLabel name (bstring (number bound)), n)) latencyBoundsUS (dh_buckets h)
    ++ [(bucketLabel name "+Inf", dh_count h); (name +:+ "_sum", dh_sumUS h); (name +:+ "_count", dh_count h)]).

(** [vals] *)
Definition vals (o : observed) (pressured : Z) : list (string * Z) :=
  let c := ob_cache o in let g := ob_groups o in let d := gr_dv g in let mt := ob_metrics o in let cfg := ob_cfg o in
  let '(queued, maxPeer, actions) := queueBytes (ob_peers o) in
  [("spruce_publish_total", mt_Published mt); ("spruce_publish_bytes_total", mt_PublishBytes mt); ("spruce_publish_rejected_total", mt_Rejected mt);
   ("spruce_publish_overload_rejected_total", mt_OverloadRejected mt); ("spruce_replication_pressure_rejected_total", mt_ReplicationPressureRejected mt);
   ("spruce_delivery_pressure_rejected_total", mt_DeliveryPressureRejected mt); ("spruce_subscription_cursor_expired_total", mt_CursorExpired mt);
   ("spruce_publish_admission_bytes", u64 (ob_admissionBytes o)); ("spruce_publish_admission_capacity_bytes", u64 (cfg_PublishAdmissionBytes cfg));
   ("spruce_public_auth_rejected_total", mt_PublicAuthRejected mt); ("spruce_admin_auth_rejected_total", mt_AdminAuthRejected mt);
   ("spruce_peer_auth_rejected_total", mt_PeerAuthRejected mt); ("spruce_replication_total", mt_Replicated mt); ("spruce_replication_errors_total", mt_ReplicationErrors mt);
   ("spruce_replication_dropped_messages_total", mt_ReplicationDropped mt); ("spruce_ack_propagation_dropped_ids_total", mt_AckActionDropped mt);
   ("spruce_nack_propagation_dropped_ids_total", mt_NackActionDropped mt); ("spruce_deliveries_total", mt_Delivered mt); ("spruce_redeliveries_total", mt_Redelivered mt);
   ("spruce_acks_total", mt_Acked mt); ("spruce_delivery_dropped_total", mt_Dropped mt); ("spruce_cache_evictions_total", c_evicted c); ("spruce_cache_expired_total", c_expired c);
   ("spruce_cache_messages", u64 (mlen (c_items c))); ("spruce_cache_accounted_bytes", u64 (c_bytes c)); ("spruce_consumers", u64 (mlen (dv_subs d)));
   ("spruce_consumer_checkpoints", u64 (ck_count (gr_ck g))); ("spruce_consumer_inflight", u64 (mlen (dv_pending d))); ("spruce_consumer_inflight_bytes", u64 (dv_pendingBytes d));
   ("spruce_delivery_pressured_topics", u64 pressured); ("spruce_replication_queue_bytes", u64 queued); ("spruce_replication_queue_max_peer_bytes", u64 maxPeer);
   ("spruce_replication_queue_capacity_bytes", u64 (queueCapacity o)); ("spruce_replication_queue_high_water_bytes", u64 (replicationHighWaterBytes cfg));
   ("spruce_action_queue_bytes", u64 actions)].

Definition families (o : observed) (pressured : Z) : list family :=
  let g := ob_groups o in let mt := ob_metrics o in
  let '(groupEntries, groupKeys) := groupWorkCountsLocked g in
  ((fun v => single (kindOf v.1) v.1 v.2) <$> vals o pressured)
  ++ [single "gauge" "spruce_group_outstanding_messages" groupEntries; single "gauge" "spruce_group_active_keys" groupKeys; single "gauge" "spruce_registered_groups" (mlen (gr_groupWork g));
      single "gauge" "spruce_group_memory_bytes" (gr_groupMemoryBytes g);
      single "counter" "spruce_group_expired_messages_total" (mt_GroupExpired mt);
      single "gauge" "spruce_repair_pending_peers" (pendingRepairs (ob_peers o)); single "counter" "spruce_repair_pages_total" (mt_RepairPages mt);
      single "counter" "spruce_repair_messages_total" (mt_RepairMessages mt); single "counter" "spruce_repair_errors_total" (mt_RepairErrors mt);
      histogramFamily "spruce_publish_request_duration_microseconds" (mt_PublishLatency mt);
      single "gauge" "spruce_stream_memory_bytes" (gr_streamMemoryBytes g); single "gauge" "spruce_stream_memory_capacity_bytes" (cfg_StreamMemoryBytes (ob_cfg o));
      histogramFamily "spruce_replication_request_duration_microseconds" (mt_ReplicationLatency mt);
      histogramFamily "spruce_delivery_ack_duration_microseconds" (mt_AckLatency mt);
      single "gauge" "spruce_process_heap_bytes" (ob_heapAlloc o); single "counter" "spruce_process_gc_cycles_total" (ob_numGC o); single "gauge" "spruce_process_goroutines" (ob_goroutines o)].

(** The body of [prometheus]. *)
Definition prometheus (o : observed) : option (list byte) :=
  pressured ← pressuredTopics (ob_now o) (gr_dv (ob_groups o)) ;
  Some (concat (writeFamily <$> families o pressured)).


(** ** Reading *)
Definition splitOn (c : byte) (l : list byte) : list (list byte) :=
  foldr (fun b ls => if bool_decide (b = c) then [] :: ls else match ls with [] => [[b]] | h :: t => (b :: h) :: t end) [[]] l.
Definition readNumber (l : list byte) : Z :=
  match l with
  | b :: k => if bool_decide (b = Byte.x2d) then - (readDigits 0 k).1 else (readDigits 0 l).1
  | [] => 0
  end.
(** One line, with what the lines after it hold: the samples of its family, and the families that follow. *)
Definition readLine (line : list byte) (acc : list (string * Z) * list family) : option (list (string * Z) * list family) :=
  match splitOn Byte.x20 line with
  | [hash; word; name; kind] => if bool_decide (hash = sbytes "#") && bool_decide (word = sbytes "TYPE") then Some ([], mkFamily (bstring name) (bstring kind) acc.1 :: acc.2) else None
  | [label; value] => Some ((bstring label, readNumber value) :: acc.1, acc.2)
  | [empty] => if bool_decide (empty = []) then Some acc else None
  | _ => None
  end.
Definition readPage (text : list byte) : option (list family) :=
  p ← foldr (fun line acc => acc ← acc ; readLine line acc) (Some ([], [])) (splitOn newline text) ;
  match p with ([], fs) => Some fs | _ => None end.

Lemma splitOn_word c x y : c ∉ x -> splitOn c (x ++ c :: y) = x :: splitOn c y.
Proof.
  induction x as [|b x IH]; intros Hc.
  - cbn. by rewrite bool_decide_true.
  - apply not_elem_of_cons in Hc as [H1 H2]. cbn [app]. unfold splitOn in *. cbn [foldr]. rewrite (IH H2). by rewrite bool_decide_false.
Qed.
Lemma splitOn_last c x : c ∉ x -> splitOn c x = [x].
Proof.
  induction x as [|b x IH]; intros Hc; [done|]. apply not_elem_of_cons in Hc as [H1 H2]. unfold splitOn in *. cbn [foldr]. rewrite (IH H2). by rewrite bool_decide_false.
Qed.
Lemma splitOn_lines ls : Forall (fun l => newline ∉ l) ls -> splitOn newline (concat ((fun l => l ++ [newline]) <$> ls)) = ls ++ [[]].
Proof. induction 1 as [|l ls Hl _ IH]; [done|]. cbn [fmap list_fmap concat]. rewrite <- app_assoc. cbn [app]. rewrite splitOn_word by done. by rewrite IH. Qed.

(** ** Numbers and words *)
Definition plainByte (b : byte) : bool := negb (bool_decide (b = Byte.x20)) && negb (bool_decide (b = newline)).
Definition plain (l : list byte) : Prop := Byte.x20 ∉ l /\ newline ∉ l.
Lemma plain_app l k : plain l -> plain k -> plain (l ++ k).
Proof. unfold plain. rewrite !not_elem_of_app. tauto. Qed.
Lemma plain_check l : forallb plainByte l = true -> plain l.
Proof.
  intros Hl. rewrite List.forallb_forall in Hl. split; intros Hin%list_elem_of_In; by apply Hl in Hin.
Qed.
Lemma no_space l : forallb plainByte l = true -> Byte.x20 ∉ l.
Proof. by intros [? _]%plain_check. Qed.
Lemma no_newline l : forallb plainByte l = true -> newline ∉ l.
Proof. by intros [_ ?]%plain_check. Qed.
Lemma plain_digits fuel : forall n, 0 <= n -> plain (digits fuel n).
Proof.
  assert (Hd : forall n, 0 <= n < 10 -> plain [digit n]).
  { intros n Hn. split; intros Hin%list_elem_of_singleton; apply (f_equal Zbyte) in Hin; rewrite Zbyte_digit in Hin by done; [change (Zbyte Byte.x20) with 32 in Hin|change (Zbyte newline) with 10 in Hin]; lia. }
  induction fuel as [|fuel IH]; intros n Hn; cbn [digits]; [by split; apply not_elem_of_nil|]. case_bool_decide; [by apply Hd|].
  apply plain_app; [apply IH, Z.div_pos; lia|]. apply Hd, Z.mod_pos_bound. lia.
Qed.
Lemma plain_number n : plain (number n).
Proof. unfold number. case_bool_decide; [|apply plain_digits; lia]. apply (plain_app [_]); [by apply plain_check|apply plain_digits; lia]. Qed.

Lemma readDigits_all n : 0 <= n < 10 ^ 20 -> (readDigits 0 (digits 20 n)).1 = n.
Proof. intros Hn. rewrite <- (app_nil_r (digits 20 n)), readDigits_digits by (try done; lia). cbn. lia. Qed.
Lemma readNumber_number n : - 10 ^ 20 < n < 10 ^ 20 -> readNumber (number n) = n.
Proof.
  intros Hn. unfold number. case_bool_decide.
  - unfold readNumber. rewrite bool_decide_true by done. rewrite readDigits_all; lia.
  - destruct (digits_head 20 n) as (m & l & Hm & E); [lia|lia|]. unfold readNumber. pose proof (readDigits_all n ltac:(lia)) as Hr. rewrite E in *.
    rewrite bool_decide_false; [done|]. intros Hd%(f_equal Zbyte). rewrite Zbyte_digit in Hd by done. change (Zbyte Byte.x2d) with 45 in Hd. lia.
Qed.

(** ** Families *)
Definition word (s : string) : bool := forallb plainByte (sbytes s).
Definition readable (f : family) : Prop :=
  word (fm_name f) = true /\ word (fm_kind f) = true /\ Forall (fun s : string * Z => word s.1 = true /\ - 10 ^ 20 < s.2 < 10 ^ 20) (fm_samples f).

Lemma readLine_type f acc : readable f -> readLine (typeLine f) acc = Some ([], mkFamily (fm_name f) (fm_kind f) acc.1 :: acc.2).
Proof.
  intros ([Hn _]%plain_check & [Hk _]%plain_check & _). unfold readLine, typeLine.
  change (sbytes "# TYPE " ++ ?l) with (sbytes "#" ++ Byte.x20 :: sbytes "TYPE" ++ Byte.x20 :: l). change (sbytes " " ++ ?l) with (Byte.x20 :: l).
  rewrite !splitOn_word, splitOn_last by (assumption || by apply no_space). rewrite !bool_decide_true by done. cbn. by rewrite !bstring_sbytes.
Qed.
Lemma readLine_sample s acc : word s.1 = true -> - 10 ^ 20 < s.2 < 10 ^ 20 -> readLine (sampleLine s) acc = Some (s :: acc.1, acc.2).
Proof.
  intros [Hn _]%plain_check Hv. unfold readLine, sampleLine. change (sbytes " " ++ ?l) with (Byte.x20 :: l).
  rewrite splitOn_word, splitOn_last by (done || apply plain_number). rewrite bstring_sbytes, readNumber_number by done. by destruct s.
Qed.

Definition readLines (ls : list (list byte)) (acc : option (list (string * Z) * list family)) : option (list (string * Z) * list family) := foldr (fun line acc => acc ← acc ; readLine line acc) acc ls.
Lemma readLines_family f fs : readable f -> readLines (familyLines f) (Some ([], fs)) = Some ([], f :: fs).
Proof.
  intros R. unfold familyLines, readLines. cbn [foldr].
  assert (Hs : forall l, Forall (fun s : string * Z => word s.1 = true /\ - 10 ^ 20 < s.2 < 10 ^ 20) l ->
    foldr (fun line acc => acc ← acc ; readLine line acc) (Some ([], fs)) (sampleLine <$> l) = Some (l, fs)).
  { induction 1 as [|s l [H1 H2] _ IH]; [done|]. cbn [fmap list_fmap foldr]. change (list_fmap _ _ sampleLine l) with (sampleLine <$> l). rewrite IH. cbn [mbind option_bind]. by rewrite readLine_sample. }
  destruct R as (H1 & H2 & H3). rewrite (Hs _ H3). cbn [mbind option_bind]. rewrite readLine_type by by split_and!. by destruct f.
Qed.
Lemma readLines_families fs : Forall readable fs -> readLines (concat (familyLines <$> fs)) (Some ([], [])) = Some ([], fs).
Proof.
  induction 1 as [|f fs R _ IH]; [done|]. cbn [fmap list_fmap concat]. unfold readLines. rewrite foldr_app. fold (readLines (concat (familyLines <$> fs)) (Some ([], []))). rewrite IH. by apply readLines_family.
Qed.

Lemma family_lines_plain f : readable f -> Forall (fun l => newline ∉ l) (familyLines f).
Proof.
  intros ([_ Hn]%plain_check & [_ Hk]%plain_check & Hs). unfold familyLines. constructor.
  - unfold typeLine. rewrite !not_elem_of_app. split_and!; assumption || by apply (bool_decide_unpack _).
  - apply Forall_fmap. eapply Forall_impl; [exact Hs|]. intros s [[_ Hw]%plain_check _]. change (newline ∉ sampleLine s). unfold sampleLine. rewrite !not_elem_of_app. split_and!; [done|by apply (bool_decide_unpack _)|apply plain_number].
Qed.
Lemma readPage_families fs : Forall readable fs -> readPage (concat (writeFamily <$> fs)) = Some fs.
Proof.
  intros R. unfold readPage. assert (E : concat (writeFamily <$> fs) = concat ((fun l => l ++ [newline]) <$> concat (familyLines <$> fs))).
  { clear. induction fs as [|f fs IH]; [done|]. cbn [fmap list_fmap concat]. rewrite fmap_app, concat_app. f_equal. exact IH. }
  rewrite E, splitOn_lines.
  - rewrite foldr_app. cbn [foldr mbind option_bind]. change (readLine [] ([], [])) with (Some (@nil (string * Z), @nil family)). fold (readLines (concat (familyLines <$> fs)) (Some ([], []))). by rewrite readLines_families.
  - apply Forall_concat, Forall_fmap. eapply Forall_impl; [exact R|]. exact family_lines_plain.
Qed.

(** ** The families of a broker *)

(** The topics that hold back publications. *)
Definition pressured (o : observed) : Z :=
  llen (filter (fun p => topicDeliveryPressured p.1 (ob_now o) (gr_dv (ob_groups o)) = Some true) (map_to_list (dv_topicPending (gr_dv (ob_groups o))))).

(** The queued messages and the active keys of all groups; the bytes queued for all peers, for the fullest, and of all actions. *)
Definition groupEntries (g : groups) : Z := msum (fun _ w => mlen (g_work w)) (gr_groupWork g).
Definition groupKeys (g : groups) : Z := msum (fun _ w => mlen (g_lanes w)) (gr_groupWork g).
Definition queuedAll (o : observed) : Z := zsum (p_queuedBytes <$> ob_peers o).
Definition queuedMost (o : observed) : Z := foldr Z.max 0 (p_queuedBytes <$> ob_peers o).
Definition actionsAll (o : observed) : Z := zsum (p_actionBytes <$> ob_peers o).

Lemma groupWorkCounts_sums g : groupWorkCountsLocked g = (groupEntries g, groupKeys g).
Proof.
  unfold groupWorkCountsLocked, groupEntries, groupKeys, msum. generalize (map_to_list (gr_groupWork g)). intros l.
  assert (H : forall l a b, foldl (fun n (p : checkpointScope * groupWorkState) => (n.1 + mlen (g_work p.2), n.2 + mlen (g_lanes p.2))) (a, b) l =
    (a + zsum ((fun p => mlen (g_work p.2)) <$> l), b + zsum ((fun p => mlen (g_lanes p.2)) <$> l))).
  { induction l0 as [|p l0 IH]; intros a b; cbn; [by rewrite !Z.add_0_r|]. rewrite IH, !zsum_cons. f_equal; lia. }
  by rewrite H.
Qed.

(** The numbers fit their Go types: the counters wrap by design, the gauges are not negative. *)
Record typed (o : observed) : Prop := {
  ty_counters : Forall in_u64 [mt_Published (ob_metrics o); mt_PublishBytes (ob_metrics o); mt_Rejected (ob_metrics o); mt_OverloadRejected (ob_metrics o);
    mt_ReplicationPressureRejected (ob_metrics o); mt_DeliveryPressureRejected (ob_metrics o); mt_CursorExpired (ob_metrics o); mt_PublicAuthRejected (ob_metrics o);
    mt_AdminAuthRejected (ob_metrics o); mt_PeerAuthRejected (ob_metrics o); mt_Replicated (ob_metrics o); mt_ReplicationErrors (ob_metrics o); mt_ReplicationDropped (ob_metrics o);
    mt_AckActionDropped (ob_metrics o); mt_NackActionDropped (ob_metrics o); mt_Delivered (ob_metrics o); mt_Redelivered (ob_metrics o); mt_Acked (ob_metrics o); mt_Dropped (ob_metrics o);
    c_evicted (ob_cache o); c_expired (ob_cache o); mt_GroupExpired (ob_metrics o); mt_RepairPages (ob_metrics o); mt_RepairMessages (ob_metrics o); mt_RepairErrors (ob_metrics o);
    ob_heapAlloc o; ob_numGC o];
  ty_ints : Forall in_i64 [groupEntries (ob_groups o); groupKeys (ob_groups o); mlen (gr_groupWork (ob_groups o)); gr_groupMemoryBytes (ob_groups o);
    pendingRepairs (ob_peers o); gr_streamMemoryBytes (ob_groups o); cfg_StreamMemoryBytes (ob_cfg o); ob_goroutines o];
  ty_gauges : Forall in_u64 [ob_admissionBytes o; cfg_PublishAdmissionBytes (ob_cfg o); mlen (c_items (ob_cache o)); c_bytes (ob_cache o); mlen (dv_subs (gr_dv (ob_groups o)));
    ck_count (gr_ck (ob_groups o)); mlen (dv_pending (gr_dv (ob_groups o))); dv_pendingBytes (gr_dv (ob_groups o)); pressured o; replicationHighWaterBytes (ob_cfg o)];
  ty_queues : Forall (fun p => 0 <= p_queuedBytes p /\ 0 <= p_actionBytes p) (ob_peers o);
  ty_sums : queuedAll o < 2 ^ 63 /\ actionsAll o < 2 ^ 63 /\ 0 <= cfg_ReplicationQueueBytes (ob_cfg o) * llen (ob_peers o) < 2 ^ 63;
}.

Lemma zsum_le_app (l k : list Z) : Forall (fun x => 0 <= x) k -> zsum l <= zsum (l ++ k).
Proof. intros Hk. rewrite zsum_app. assert (0 <= zsum k) by (induction Hk; [done|]; rewrite zsum_cons; lia). lia. Qed.

Lemma queueBytes_sums o : typed o -> queueBytes (ob_peers o) = (queuedAll o, queuedMost o, actionsAll o).
Proof.
  intros [_ _ _ Hq (S1 & S2 & _)]. unfold queuedAll, actionsAll, queuedMost in *. revert Hq S1 S2. generalize (ob_peers o). intros l. unfold queueBytes.
  induction l as [|p l IH] using rev_ind; [done|]. rewrite !fmap_app. cbn [fmap list_fmap]. intros [Hl [[H1 H2] _]%Forall_cons]%Forall_app S1 S2.
  pose proof (zsum_le_app (p_queuedBytes <$> l) [p_queuedBytes p] ltac:(by apply Forall_singleton)). pose proof (zsum_le_app (p_actionBytes <$> l) [p_actionBytes p] ltac:(by apply Forall_singleton)).
  assert (Hn : 0 <= zsum (p_queuedBytes <$> l) /\ 0 <= zsum (p_actionBytes <$> l)) by (clear -Hl; induction Hl as [|x l [? ?] _ IH]; [done|]; cbn; rewrite !zsum_cons; lia).
  rewrite foldl_snoc, IH by (done || lia). cbn [fst snd]. rewrite !zsum_app in *. rewrite !zsum_cons in *. cbn [zsum foldr] in *. change (zsum []) with 0 in *.
  rewrite !i64_id by (unfold in_i64; lia). f_equal; [f_equal; [lia|]|lia].
  rewrite foldr_app. cbn [foldr]. assert (Hm : forall (k : list Z) a, 0 <= a -> foldr Z.max (Z.max a 0) k = Z.max (foldr Z.max 0 k) a).
  { induction k as [|x k IHk]; intros a Ha; cbn; [lia|]. rewrite IHk by done. lia. }
  by rewrite Hm.
Qed.

(** ** The page, as a reader of the broker's counters expects it *)
Definition counter (name : string) (v : Z) : family := mkFamily name "counter" [(name, v)].
Definition gauge (name : string) (v : Z) : family := mkFamily name "gauge" [(name, v)].
(** The durations of at most each bound, all of them, their sum, and how many there were. *)
Definition histogram (name : string) (obs : list Z) : family :=
  mkFamily name "histogram" (((fun b => (bucketLabel name (bstring (number b)), countLe b obs)) <$> latencyBoundsUS)
    ++ [(bucketLabel name "+Inf", llen obs); (name +:+ "_sum", u64 (zsum (microseconds <$> obs))); (name +:+ "_count", llen obs)]).

Definition expectedPage (o : observed) (publish replication ack : list Z) : list family :=
  let g := ob_groups o in let mt := ob_metrics o in let cfg := ob_cfg o in
  [counter "spruce_publish_total" (mt_Published mt);
   counter "spruce_publish_bytes_total" (mt_PublishBytes mt);
   counter "spruce_publish_rejected_total" (mt_Rejected mt);
   counter "spruce_publish_overload_rejected_total" (mt_OverloadRejected mt);
   counter "spruce_replication_pressure_rejected_total" (mt_ReplicationPressureRejected mt);
   counter "spruce_delivery_pressure_rejected_total" (mt_DeliveryPressureRejected mt);
   counter "spruce_subscription_cursor_expired_total" (mt_CursorExpired mt);
   gauge "spruce_publish_admission_bytes" (ob_admissionBytes o);
   gauge "spruce_publish_admission_capacity_bytes" (cfg_PublishAdmissionBytes cfg);
   counter "spruce_public_auth_rejected_total" (mt_PublicAuthRejected mt);
   counter "spruce_admin_auth_rejected_total" (mt_AdminAuthRejected mt);
   counter "spruce_peer_auth_rejected_total" (mt_PeerAuthRejected mt);
   counter "spruce_replication_total" (mt_Replicated mt);
   counter "spruce_replication_errors_total" (mt_ReplicationErrors mt);
   counter "spruce_replication_dropped_messages_total" (mt_ReplicationDropped mt);
   counter "spruce_ack_propagation_dropped_ids_total" (mt_AckActionDropped mt);
   counter "spruce_nack_propagation_dropped_ids_total" (mt_NackActionDropped mt);
   counter "spruce_deliveries_total" (mt_Delivered mt);
   counter "spruce_redeliveries_total" (mt_Redelivered mt);
   counter "spruce_acks_total" (mt_Acked mt);
   counter "spruce_delivery_dropped_total" (mt_Dropped mt);
   counter "spruce_cache_evictions_total" (c_evicted (ob_cache o));
   counter "spruce_cache_expired_total" (c_expired (ob_cache o));
   gauge "spruce_cache_messages" (mlen (c_items (ob_cache o)));
   gauge "spruce_cache_accounted_bytes" (c_bytes (ob_cache o));
   gauge "spruce_consumers" (mlen (dv_subs (gr_dv g)));
   gauge "spruce_consumer_checkpoints" (ck_count (gr_ck g));
   gauge "spruce_consumer_inflight" (mlen (dv_pending (gr_dv g)));
   gauge "spruce_consumer_inflight_bytes" (dv_pendingBytes (gr_dv g));
   gauge "spruce_delivery_pressured_topics" (pressured o);
   gauge "spruce_replication_queue_bytes" (queuedAll o);
   gauge "spruce_replication_queue_max_peer_bytes" (queuedMost o);
   gauge "spruce_replication_queue_capacity_bytes" (cfg_ReplicationQueueBytes cfg * llen (ob_peers o));
   gauge "spruce_replication_queue_high_water_bytes" (replicationHighWaterBytes cfg);
   gauge "spruce_action_queue_bytes" (actionsAll o);
   gauge "spruce_group_outstanding_messages" (groupEntries g);
   gauge "spruce_group_active_keys" (groupKeys g);
   gauge "spruce_registered_groups" (mlen (gr_groupWork g));
   gauge "spruce_group_memory_bytes" (gr_groupMemoryBytes g);
   counter "spruce_group_expired_messages_total" (mt_GroupExpired mt);
   gauge "spruce_repair_pending_peers" (pendingRepairs (ob_peers o));
   counter "spruce_repair_pages_total" (mt_RepairPages mt);
   counter "spruce_repair_messages_total" (mt_RepairMessages mt);
   counter "spruce_repair_errors_total" (mt_RepairErrors mt);
   histogram "spruce_publish_request_duration_microseconds" publish;
   gauge "spruce_stream_memory_bytes" (gr_streamMemoryBytes g);
   gauge "spruce_stream_memory_capacity_bytes" (cfg_StreamMemoryBytes cfg);
   histogram "spruce_replication_request_duration_microseconds" replication;
   histogram "spruce_delivery_ack_duration_microseconds" ack;
   gauge "spruce_process_heap_bytes" (ob_heapAlloc o);
   counter "spruce_process_gc_cycles_total" (ob_numGC o);
   gauge "spruce_process_goroutines" (ob_goroutines o)].

(** The histograms hold what was observed. *)
Record measured (o : observed) (publish replication ack : list Z) : Prop := {
  ms_publish : mt_PublishLatency (ob_metrics o) = observeAll publish /\ llen publish < 2 ^ 64;
  ms_replication : mt_ReplicationLatency (ob_metrics o) = observeAll replication /\ llen replication < 2 ^ 64;
  ms_ack : mt_AckLatency (ob_metrics o) = observeAll ack /\ llen ack < 2 ^ 64;
}.

Definition shown (v : Z) : Prop := - 10 ^ 20 < v < 10 ^ 20.
Lemma shown_u64 v : in_u64 v -> shown v.
Proof. unfold in_u64, shown. lia. Qed.
Lemma shown_i64 v : in_i64 v -> shown v.
Proof. unfold in_i64, shown. lia. Qed.
Lemma shown_wrap v : shown (u64 v).
Proof. apply shown_u64, u64_range. Qed.

Lemma readable_single kind name v : word name = true -> word kind = true -> shown v -> readable (single kind name v).
Proof. intros Hn Hk Hv. split_and!; [done..|]. apply Forall_singleton. by split. Qed.
Lemma readable_vals l : forallb (fun v : string * Z => word v.1) l = true -> Forall shown l.*2 -> Forall readable ((fun v => single (kindOf v.1) v.1 v.2) <$> l).
Proof.
  induction l as [|[n v] l IH]; [constructor|]. cbn [forallb fmap list_fmap]. intros [Hn Hl]%andb_true_iff Hs. inversion Hs; subst. constructor; [|by apply IH].
  apply readable_single; [done| |done]. unfold kindOf. by destruct (_ || _).
Qed.

(** The buckets of a histogram are cumulative. *)
Definition cumulative (h : durationHistogram) : Prop := StronglySorted Z.le (dh_buckets h ++ [dh_count h]).
Lemma countLe_mono b b' obs : b <= b' -> countLe b obs <= countLe b' obs.
Proof. intros Hb. induction obs as [|e obs IH] using rev_ind; [done|]. rewrite !countLe_snoc. repeat case_bool_decide; lia. Qed.
Lemma observed_cumulative obs : llen obs < 2 ^ 64 -> cumulative (observeAll obs).
Proof.
  intros Hl. unfold cumulative. destruct (histogram_exact obs Hl) as (-> & -> & _). unfold latencyBoundsUS. cbn [fmap list_fmap app].
  repeat (apply SSorted_cons || apply SSorted_nil); repeat (apply Forall_cons; split); try apply Forall_nil_2; first [done|apply countLe_mono; lia|apply countLe_range].
Qed.
Lemma observed_u64 obs : llen obs < 2 ^ 64 -> exists b0 b1 b2 b3 b4 b5 b6 b7, dh_buckets (observeAll obs) = [b0; b1; b2; b3; b4; b5; b6; b7] /\ Forall shown [b0; b1; b2; b3; b4; b5; b6; b7; dh_count (observeAll obs); dh_sumUS (observeAll obs)].
Proof.
  intros Hl. destruct (histogram_exact obs Hl) as (-> & -> & ->). do 8 eexists. split; [done|]. pose proof (llen_nonneg obs).
  assert (Hc : forall b, shown (countLe b obs)) by (intros b; pose proof (countLe_range b obs); unfold shown; lia). repeat (apply Forall_cons; split); try apply Forall_nil_2; try apply Hc; [unfold shown; lia|apply shown_wrap].
Qed.
Lemma readable_histogram name obs : llen obs < 2 ^ 64 -> readable (histogramFamily name newHistogram) -> readable (histogramFamily name (observeAll obs)).
Proof.
  intros Hl (Hn & Hk & Hs). destruct (observed_u64 obs Hl) as (b0 & b1 & b2 & b3 & b4 & b5 & b6 & b7 & Eb & Hb). split_and!; [done..|]. unfold histogramFamily in *. cbn [fm_samples] in *. rewrite Eb.
  unfold latencyBoundsUS in *. cbn [zip_with app dh_buckets newHistogram replicate length] in *.
  repeat (apply Forall_cons in Hb as [? Hb]). repeat (apply Forall_cons in Hs as [[? _] Hs]). repeat (apply Forall_cons; split); try apply Forall_nil_2; by split.
Qed.

Lemma pressuredTopics_count o : pend_ok (gr_dv (ob_groups o)) -> pressuredTopics (ob_now o) (gr_dv (ob_groups o)) = Some (pressured o).
Proof.
  intros K. unfold pressuredTopics, pressured. generalize (map_to_list (dv_topicPending (gr_dv (ob_groups o)))). intros l. induction l as [|p l IH] using rev_ind; [done|].
  rewrite foldl_snoc, IH, filter_app, llen_app. cbn [mbind option_bind]. destruct (pressure_broadcast_only (gr_dv (ob_groups o)) p.1 (ob_now o) K) as (b & E & _). rewrite E. cbn [mbind option_bind]. rewrite filter_cons, filter_nil, E.
  destruct b; [rewrite decide_True by done; done|]. rewrite decide_False by done. change (llen []) with 0. by rewrite Z.add_0_r.
Qed.

Lemma vals_shown o p : typed o -> Forall shown (vals o p).*2.
Proof.
  intros [Hc _ _ _ _]. unfold vals. destruct (queueBytes _) as [[q m] a]. cbn [fmap list_fmap snd]. repeat (apply Forall_cons in Hc as [? Hc]).
  repeat (apply Forall_cons; split); try apply Forall_nil_2; first [apply shown_wrap|by apply shown_u64].
Qed.
Lemma vals_words o p : forallb (fun v : string * Z => word v.1) (vals o p) = true.
Proof. unfold vals. destruct (queueBytes _) as [[q m] a]. reflexivity. Qed.

Lemma families_readable o p publish replication ack : typed o -> measured o publish replication ack -> Forall readable (families o p).
Proof.
  intros T [[E1 L1] [E2 L2] [E3 L3]]. pose proof (vals_shown o p T) as Hv. destruct T as [Hc Hi _ _ _]. unfold families. rewrite groupWorkCounts_sums.
  apply Forall_app. split; [apply readable_vals; [apply vals_words|done]|]. repeat (apply Forall_cons in Hc as [? Hc]). repeat (apply Forall_cons in Hi as [? Hi]). rewrite E1, E2, E3.
  assert (Hh : Forall (fun name => readable (histogramFamily name newHistogram)) ["spruce_publish_request_duration_microseconds"; "spruce_replication_request_duration_microseconds"; "spruce_delivery_ack_duration_microseconds"]).
  { repeat (apply Forall_cons; split); try apply Forall_nil_2; (split_and!; [reflexivity..|]); cbn [histogramFamily fm_samples newHistogram dh_buckets latencyBoundsUS replicate length zip_with app];
      repeat (apply Forall_cons; split); try apply Forall_nil_2; by split. }
  repeat (apply Forall_cons in Hh as [? Hh]).
  repeat (apply Forall_cons; split); try apply Forall_nil_2; first [by apply readable_histogram|apply readable_single; [done|done|first [by apply shown_u64|by apply shown_i64]]].
Qed.

Lemma families_names o p : NoDup (fm_name <$> families o p).
Proof. unfold families, vals. destruct (groupWorkCountsLocked _) as [e k], (queueBytes _) as [[q m] a]. apply (bool_decide_unpack _). vm_compute. done. Qed.
Lemma histogram_shown name obs : llen obs < 2 ^ 64 -> histogramFamily name (observeAll obs) = histogram name obs.
Proof. intros Hl. unfold histogramFamily, histogram. destruct (histogram_exact obs Hl) as (-> & -> & ->). reflexivity. Qed.

(** What the code writes is what is expected: no value wraps. *)
Lemma families_expected o publish replication ack : typed o -> measured o publish replication ack -> families o (pressured o) = expectedPage o publish replication ack.
Proof.
  intros T [[E1 L1] [E2 L2] [E3 L3]]. unfold families, vals. rewrite groupWorkCounts_sums, (queueBytes_sums o T). destruct T as [_ _ Hg Hq (S1 & S2 & S3)]. rewrite E1, E2, E3, !histogram_shown by done.
  assert (H0 : 0 <= queuedAll o /\ 0 <= actionsAll o /\ 0 <= queuedMost o <= queuedAll o).
  { unfold queuedAll, actionsAll, queuedMost. clear -Hq. induction Hq as [|p l [? ?] _ IH]; [done|]. cbn. rewrite !zsum_cons. lia. }
  repeat (apply Forall_cons in Hg as [? Hg]). unfold queueCapacity. rewrite (i64_id (_ * _)) by (unfold in_i64; lia).
  rewrite !u64_id by (assumption || (unfold in_u64; lia)). reflexivity.
Qed.

Lemma status_returns o : pend_ok (gr_dv (ob_groups o)) -> exists fields, status o = Some fields /\ fields !! "delivery_pressured_topics" = Some (pressured o).
Proof.
  intros K. unfold status. destruct (groupWorkCountsLocked _) as [e k]. rewrite (pressuredTopics_count o K). cbn [mbind option_bind]. destruct (queueBytes _) as [[q m] a]. eexists. split; [done|].
  apply elem_of_list_to_map_1; [apply (bool_decide_unpack _); vm_compute; done|]. do 13 right. left.
Qed.

(** C31: the metrics page says what the broker counted, but for the counter of duplicates, which it does not show.  It is computed without a panic, and a reader of the exposition format finds in
    its text exactly the metrics of [expectedPage]: each name once, with its kind, and with the counter or the quantity of the
    broker that the name stands for; no value is cut or wraps, as long as the quantities fit the 64 bits of their types.  The buckets of each histogram count the
    durations that were observed up to their bounds, cumulatively up to the count, as the format asks; and the status page shows the
    same number of topics that hold back publications. *)
Theorem metrics_page o publish replication ack : pend_ok (gr_dv (ob_groups o)) -> typed o -> measured o publish replication ack ->
  exists text fields, prometheus o = Some text /\ readPage text = Some (expectedPage o publish replication ack) /\ NoDup (fm_name <$> expectedPage o publish replication ack) /\
    status o = Some fields /\ fields !! "delivery_pressured_topics" = Some (pressured o) /\
    cumulative (mt_PublishLatency (ob_metrics o)) /\ cumulative (mt_ReplicationLatency (ob_metrics o)) /\ cumulative (mt_AckLatency (ob_metrics o)).
Proof.
  intros K T M. destruct (status_returns o K) as (fields & Es & Ef). exists (concat (writeFamily <$> families o (pressured o))), fields.
  pose proof (families_names o (pressured o)) as Hnd. pose proof (families_readable o (pressured o) _ _ _ T M) as R.
  pose proof (families_expected o _ _ _ T M) as Ep. rewrite Ep in Hnd, R.
  assert (Epr : prometheus o = Some (concat (writeFamily <$> families o (pressured o)))) by (unfold prometheus; by rewrite (pressuredTopics_count o K)).
  destruct M as [[-> L1] [-> L2] [-> L3]]. split; [exact Epr|]. split; [rewrite Ep; by apply readPage_families|].
  split_and!; try done; by apply observed_cumulative.
Qed.

(** ** Witness: a broker that delivers one message, late *)
Definition ex_observed : observed :=
  mkObserved DefaultConfig (newCache 1000) (mkGroups ex_sent (newCheckpoints 10) ∅ ∅ 0 0 false ∅ ∅) [newPeer "http://a"]
    (newMetrics <| mt_Published := 1 |> <| mt_PublishLatency := observeAll [120000; 3000000] |>) 0 (10 ^ 15) 4096 3 12.
Lemma ex_observed_typed : typed ex_observed.
Proof. split; [..|vm_compute; split_and!; done]; repeat (apply Forall_cons; split); try apply Forall_nil_2; vm_compute; by split. Qed.
Lemma ex_observed_measured : measured ex_observed [120000; 3000000] [] [].
Proof. split; split; done. Qed.

Lemma metrics_page_witness : pressured ex_observed = 1 /\
  exists text, prometheus ex_observed = Some text /\ readPage text = Some (expectedPage ex_observed [120000; 3000000] [] []) /\ cumulative (observeAll [120000; 3000000]).
Proof.
  assert (E : pressured ex_observed = 1) by (vm_compute; reflexivity). split; [exact E|].
  destruct (metrics_page ex_observed [120000; 3000000] [] [] ex_sent_ok ex_observed_typed ex_observed_measured) as (text & fields & E1 & E2 & _ & _ & _ & E3 & _).
  exists text. split; [exact E1|]. split; [exact E2|exact E3].
Defined.
