(* ===== verification/Startup.v ===== *)
(** * The command that runs a broker

    src/cmd/spruce/main.go: the configuration it reads from the environment, the conditions under which it refuses
    to start, and the order in which it starts, serves, drains and stops a broker; with [New], [Ready], [BeginDrain] and [Close] of
    internal/broker/broker.go as far as the state of the whole broker goes.  The environment, time.ParseDuration and the
    files it names are parameters.  [permits]: what must have happened before each call of [main]. *)
From S2P Require Import Prelude Programs Types Config GoIO Replication Stream.
From Stdlib Require Import Strings.Ascii.
From Stdlib Require Strings.String Strings.Byte.
#[local] Open Scope Z_scope.

(** ** Texts *)

(** [strings.TrimSpace]: the UTF-8 encodings of the characters that are space for the unicode package. *)
Definition spaces : list (list byte) :=
  ((fun b => [b]) <$> [Byte.x09; Byte.x0a; Byte.x0b; Byte.x0c; Byte.x0d; Byte.x20])
  ++ [[Byte.xc2; Byte.x85]; [Byte.xc2; Byte.xa0]; [Byte.xe1; Byte.x9a; Byte.x80]]
  ++ ((fun b => [Byte.xe2; Byte.x80; b]) <$> [Byte.x80; Byte.x81; Byte.x82; Byte.x83; Byte.x84; Byte.x85; Byte.x86; Byte.x87; Byte.x88; Byte.x89; Byte.x8a; Byte.xa8; Byte.xa9; Byte.xaf])
  ++ [[Byte.xe2; Byte.x81; Byte.x9f]; [Byte.xe3; Byte.x80; Byte.x80]].

Fixpoint stripPrefix (p l : list byte) : option (list byte) :=
  match p, l with
  | [], _ => Some l
  | x :: p, y :: l => if bool_decide (x = y) then stripPrefix p l else None
  | _ :: _, [] => None
  end.
Definition stripOne (ps : list (list byte)) (l : list byte) : option (list byte) := head (omap (fun p => stripPrefix p l) ps).
Fixpoint stripAll (n : nat) (ps : list (list byte)) (l : list byte) : list byte :=
  match n with
  | O => l
  | S n => match stripOne ps l with Some l => stripAll n ps l | None => l end
  end.
Definition trimLeft (ps : list (list byte)) (l : list byte) : list byte := stripAll (length l) ps l.
Definition trimEnd (ps : list (list byte)) (l : list byte) : list byte := reverse (trimLeft (reverse <$> ps) (reverse l)).
Definition TrimSpace (s : string) : string := bstring (trimEnd spaces (trimLeft spaces (sbytes s))).
(** [strings.TrimRight(s, "/")] *)
Definition trimSlashes (s : string) : string := bstring (trimEnd [[Byte.x2f]] (sbytes s)).

(** [strings.Split(s, ",")] *)
Fixpoint splitCommas (part s : string) : list string :=
  match s with
  | String.EmptyString => [part]
  | String.String c s => if bool_decide (c = ","%char) then part :: splitCommas "" s else splitCommas (part +:+ String.String c String.EmptyString) s
  end.

(** [strconv.ParseBool] *)
Definition parseBool (s : string) : option bool :=
  if bool_decide (s ∈ ["1"; "t"; "T"; "true"; "TRUE"; "True"]) then Some true
  else if bool_decide (s ∈ ["0"; "f"; "F"; "false"; "FALSE"; "False"]) then Some false else None.

(** ** The environment *)

(** Why the command exits with status 2 before there is a broker. *)
Inductive startError :=
| notInteger (k raw : string)
| notDuration (k raw : string)
| notBoolean (k raw : string)
| basicIncomplete
| anonymousAccess
| badLimits.

Abbreviation reads A := (startError + A)%type.
Definition reading {A B} (m : reads A) (f : A -> reads B) : reads B := match m with inl e => inl e | inr a => f a end.
#[local] Notation "x <- m ;; k" := (reading m (fun x => k)) (at level 100, m at next level, right associativity).

Section Environment.
Context (getenv : string -> string) (parseDuration : string -> option Z).

Definition env (k d : string) : string := if bool_decide (getenv k <> "") then getenv k else d.
Definition envOf {A} (parse : string -> option A) (refused : string -> string -> startError) (k : string) (d : A) : reads A :=
  let raw := getenv k in
  if bool_decide (raw = "") then inr d else
  match parse raw with None => inl (refused k raw) | Some v => inr v end.
Definition envInt64 : string -> Z -> reads Z := envOf parseInt notInteger.
Definition envDuration : string -> Z -> reads Z := envOf parseDuration notDuration.
Definition envBool : string -> bool -> reads bool := envOf parseBool notBoolean.

#[local] Instance set_cfg_PreviousPeerToken : Setter cfg_PreviousPeerToken := ltac:(derive_setter).
#[local] Instance set_cfg_ClusterID : Setter cfg_ClusterID := ltac:(derive_setter).
#[local] Instance set_cfg_PeerCAFile : Setter cfg_PeerCAFile := ltac:(derive_setter).
#[local] Instance set_cfg_PreviousClientToken : Setter cfg_PreviousClientToken := ltac:(derive_setter).
#[local] Instance set_cfg_AdminToken : Setter cfg_AdminToken := ltac:(derive_setter).
#[local] Instance set_cfg_PreviousAdminToken : Setter cfg_PreviousAdminToken := ltac:(derive_setter).
#[local] Instance set_cfg_BasicUsername : Setter cfg_BasicUsername := ltac:(derive_setter).
#[local] Instance set_cfg_BasicPassword : Setter cfg_BasicPassword := ltac:(derive_setter).
#[local] Instance set_cfg_AdminBasicUsername : Setter cfg_AdminBasicUsername := ltac:(derive_setter).
#[local] Instance set_cfg_AdminBasicPassword : Setter cfg_AdminBasicPassword := ltac:(derive_setter).
#[local] Instance set_cfg_RequireClientAuth : Setter cfg_RequireClientAuth := ltac:(derive_setter).
#[local] Instance set_cfg_RequireAdminAuth : Setter cfg_RequireAdminAuth := ltac:(derive_setter).

(** [cfg.F = envInt64(k, cfg.F)], and durations alike; an [int] has 64 bits. *)
Definition readInt (proj : Config -> Z) `{!Setter proj} (k : string) (cfg : Config) : reads Config := v <- envInt64 k (proj cfg) ;; inr (cfg <| proj := v |>).
Definition readDuration (proj : Config -> Z) `{!Setter proj} (k : string) (cfg : Config) : reads Config := v <- envDuration k (proj cfg) ;; inr (cfg <| proj := v |>).

Definition readLimits (cfg : Config) : reads Config :=
  cfg <- readInt cfg_CacheBytes "SPRUCE_CACHE_BYTES" cfg ;;
  cfg <- readInt cfg_MaxMessage "SPRUCE_MAX_MESSAGE_BYTES" cfg ;;
  cfg <- readInt cfg_QueueDepth "SPRUCE_QUEUE_DEPTH" cfg ;;
  cfg <- readDuration cfg_DefaultTTL "SPRUCE_DEFAULT_TTL" cfg ;;
  cfg <- readDuration cfg_MaxTTL "SPRUCE_MAX_TTL" cfg ;;
  cfg <- readDuration cfg_AckDeadline "SPRUCE_ACK_DEADLINE" cfg ;;
  cfg <- readInt cfg_ReplicationQueueBytes "SPRUCE_REPLICATION_QUEUE_BYTES" cfg ;;
  cfg <- readInt cfg_ActionQueueBytes "SPRUCE_ACTION_QUEUE_BYTES" cfg ;;
  cfg <- readInt cfg_MaxInflightBytes "SPRUCE_MAX_INFLIGHT_BYTES" cfg ;;
  cfg <- readInt cfg_MaxSubscriberInflightBytes "SPRUCE_MAX_SUBSCRIBER_INFLIGHT_BYTES" cfg ;;
  cfg <- readInt cfg_MaxAttempts "SPRUCE_MAX_ATTEMPTS" cfg ;;
  cfg <- readInt cfg_IdempotencyEntries "SPRUCE_IDEMPOTENCY_ENTRIES" cfg ;;
  cfg <- readInt cfg_CheckpointEntries "SPRUCE_CHECKPOINT_ENTRIES" cfg ;;
  cfg <- readInt cfg_MaxConcurrentRequests "SPRUCE_MAX_CONCURRENT_REQUESTS" cfg ;;
  cfg <- readInt cfg_MaxStreams "SPRUCE_MAX_STREAMS" cfg ;;
  cfg <- readInt cfg_StreamMemoryBytes "SPRUCE_STREAM_MEMORY_BYTES" cfg ;;
  cfg <- readInt cfg_MaxInternalRequests "SPRUCE_MAX_INTERNAL_REQUESTS" cfg ;;
  cfg <- readInt cfg_PublishAdmissionBytes "SPRUCE_PUBLISH_ADMISSION_BYTES" cfg ;;
  cfg <- readDuration cfg_PublishAdmissionWait "SPRUCE_PUBLISH_ADMISSION_WAIT" cfg ;;
  readDuration cfg_DeliveryLagLimit "SPRUCE_DELIVERY_LAG_LIMIT" cfg.

Definition readCredentials (cfg : Config) : Config :=
  let cfg := cfg <| cfg_PeerToken := getenv "SPRUCE_PEER_TOKEN" |> in
  let cfg := cfg <| cfg_PreviousPeerToken := getenv "SPRUCE_PREVIOUS_PEER_TOKEN" |> in
  let cfg := cfg <| cfg_ClusterID := getenv "SPRUCE_CLUSTER_ID" |> in
  let cfg := cfg <| cfg_PeerCAFile := getenv "SPRUCE_PEER_CA_FILE" |> in
  let cfg := cfg <| cfg_ClientToken := getenv "SPRUCE_CLIENT_TOKEN" |> in
  let cfg := cfg <| cfg_PreviousClientToken := getenv "SPRUCE_PREVIOUS_CLIENT_TOKEN" |> in
  let cfg := cfg <| cfg_AdminToken := getenv "SPRUCE_ADMIN_TOKEN" |> in
  let cfg := cfg <| cfg_PreviousAdminToken := getenv "SPRUCE_PREVIOUS_ADMIN_TOKEN" |> in
  let cfg := cfg <| cfg_BasicUsername := getenv "SPRUCE_BASIC_USERNAME" |> in
  let cfg := cfg <| cfg_BasicPassword := getenv "SPRUCE_BASIC_PASSWORD" |> in
  let cfg := cfg <| cfg_AdminBasicUsername := getenv "SPRUCE_ADMIN_BASIC_USERNAME" |> in
  cfg <| cfg_AdminBasicPassword := getenv "SPRUCE_ADMIN_BASIC_PASSWORD" |>.

(** [SPRUCE_PEERS] without this broker. *)
Definition readPeers : list string :=
  let peers := getenv "SPRUCE_PEERS" in
  if bool_decide (peers = "") then [] else
  let self := trimSlashes (getenv "SPRUCE_SELF_URL") in
  filter (fun peer => peer <> "" /\ peer <> self) ((fun peer => trimSlashes (TrimSpace peer)) <$> splitCommas "" peers).

(** [(a == "") != (b == "")] *)
Definition incomplete (username password : string) : bool := xorb (bool_decide (username = "")) (bool_decide (password = "")).
Definition limitsBad (cfg : Config) : bool :=
  existsb (fun v => bool_decide (v <= 0))
    [cfg_CacheBytes cfg; cfg_MaxMessage cfg; cfg_QueueDepth cfg; cfg_DefaultTTL cfg; cfg_MaxTTL cfg; cfg_AckDeadline cfg; cfg_ReplicationQueueBytes cfg;
     cfg_ActionQueueBytes cfg; cfg_MaxInflightBytes cfg; cfg_MaxSubscriberInflightBytes cfg; cfg_MaxAttempts cfg; cfg_IdempotencyEntries cfg;
     cfg_CheckpointEntries cfg; cfg_MaxConcurrentRequests cfg; cfg_MaxStreams cfg]
  || bool_decide (cfg_StreamMemoryBytes cfg < Z.shiftl 256 10) || bool_decide (cfg_MaxInternalRequests cfg <= 0)
  || bool_decide (cfg_PublishAdmissionBytes cfg < cfg_MaxMessage cfg) || bool_decide (cfg_PublishAdmissionBytes cfg < Z.shiftl 16 20)
  || bool_decide (cfg_PublishAdmissionWait cfg <= 0) || bool_decide (cfg_DeliveryLagLimit cfg <= 0) || bool_decide (cfg_MaxTTL cfg < cfg_DefaultTTL cfg).

(** What [main] reads before it creates a broker: the address, the configuration, [allowAnonymous] and [allowInsecureTransport]. *)
Record settings := mkSettings { st_addr : string; st_cfg : Config; st_allowAnonymous : bool; st_allowInsecure : bool }.
(** The checks of [main], and the peers. *)
Definition checkConfig (addr : string) (cfg : Config) (allowAnonymous allowInsecure : bool) : reads settings :=
  if incomplete (cfg_BasicUsername cfg) (cfg_BasicPassword cfg) || incomplete (cfg_AdminBasicUsername cfg) (cfg_AdminBasicPassword cfg) then inl basicIncomplete else
  if negb allowAnonymous && (negb (cfg_RequireClientAuth cfg) || negb (cfg_RequireAdminAuth cfg)) then inl anonymousAccess else
  let cfg := cfg <| cfg_Peers := cfg_Peers cfg ++ readPeers |> in
  if limitsBad cfg then inl badLimits else
  inr (mkSettings addr cfg allowAnonymous allowInsecure).

Definition configure : reads settings :=
  let cfg := DefaultConfig in
  let addr := env "SPRUCE_ADDR" ":8080" in
  cfg <- readLimits cfg ;;
  let cfg := readCredentials cfg in
  required <- envBool "SPRUCE_REQUIRE_CLIENT_AUTH" false ;;
  let cfg := cfg <| cfg_RequireClientAuth := required |> in
  required <- envBool "SPRUCE_REQUIRE_ADMIN_AUTH" false ;;
  let cfg := cfg <| cfg_RequireAdminAuth := required |> in
  allowAnonymous <- envBool "SPRUCE_ALLOW_ANONYMOUS" false ;;
  allowInsecure <- envBool "SPRUCE_ALLOW_INSECURE_TRANSPORT" false ;;
  checkConfig addr cfg allowAnonymous allowInsecure.
End Environment.

(** ** [New] and the flags of the broker *)
Definition newPeers (cfg : Config) : list string := filter (fun u => u <> "") ((fun u => trimSlashes (TrimSpace u)) <$> cfg_Peers cfg).

(** The certificates for peers: [roots]: the file can be read and holds some. *)
Definition badRoots (roots : string -> bool) (cfg : Config) : bool := bool_decide (cfg_PeerCAFile cfg <> "") && negb (roots (cfg_PeerCAFile cfg)).

(** [None]: a panic. *)
Definition New (roots : string -> bool) (cfg : Config) : option (Config * list peer) :=
  let urls := newPeers cfg in
  cfg ← normalizeConfig urls cfg ;
  if badRoots roots cfg then None else
  Some (cfg, newPeer <$> urls).

(** [b.ready], [b.draining], whether [b.stop] is closed, and the streams with [s.cancel] and whether it was called. *)
Record lifecycle := mkLifecycle { lc_ready : bool; lc_draining : bool; lc_closed : bool; lc_streams : list (bool * bool) }.
#[export] Instance lifecycle_settable : Settable lifecycle := fun r => mkLifecycle (lc_ready r) (lc_draining r) (lc_closed r) (lc_streams r).
#[export] Instance set_lc_ready : Setter lc_ready := ltac:(derive_setter).
#[export] Instance set_lc_draining : Setter lc_draining := ltac:(derive_setter).
#[export] Instance set_lc_closed : Setter lc_closed := ltac:(derive_setter).
#[export] Instance set_lc_streams : Setter lc_streams := ltac:(derive_setter).
Definition newLifecycle : lifecycle := mkLifecycle false false false [].

Definition Ready (b : lifecycle) : lifecycle := b <| lc_ready := true |>.
Definition BeginDrain (b : lifecycle) : lifecycle :=
  let b := b <| lc_ready := false |> in
  let b := b <| lc_draining := true |> in
  b <| lc_streams := (fun s : bool * bool => if s.1 then (true, true) else s) <$> lc_streams b |>.
Definition Close (b : lifecycle) : lifecycle := if lc_closed b then b else b <| lc_closed := true |>.

(** ** The calls of [main] *)

(** What the goroutine of the server does: an error for [serverErr] at once, or a listener. *)
Inductive transport := plaintext | overTLS (certFile keyFile : string) | refusedPlaintext | refusedTLS.
Definition serverPlan (certFile keyFile : string) (allowInsecure : bool) : transport :=
  if bool_decide (certFile = "") && bool_decide (keyFile = "") && negb allowInsecure then refusedPlaintext else
  if bool_decide (certFile <> "") || bool_decide (keyFile <> "") then
    if bool_decide (certFile = "") || bool_decide (keyFile = "") then refusedTLS else overTLS certFile keyFile
  else plaintext.

(** What [SyncFromPeers] returned: nil, ErrNoPeerSnapshot or another error. *)
Inductive syncErr := syncNil | noPeerSnapshot | syncFailed.
Inductive wakeup := signalled | serverStopped.

Inductive startCall : Type -> Type :=
| mNew (cfg : Config) : startCall bool
| mServe (addr : string) (t : transport) : startCall unit
| mSync : startCall syncErr
| mPause : startCall bool
| mReady : startCall unit
| mWait : startCall wakeup
| mBeginDrain : startCall unit
| mSleep (d : Z) : startCall unit
| mShutdown : startCall unit
| mClose : startCall unit.

(** How the process ends: [exited]: [os.Exit]; [panicked]: a panic of [New]; [starting]: the loop was cut after [attempts] rounds. *)
Inductive ending := returned | exited (code : Z) | panicked | starting.

#[local] Open Scope prog_scope.
Abbreviation mprog := (program startCall).

(** The loop of [main] over [SyncFromPeers]: [None] when it is cut, or the last error. *)
Fixpoint bootstrap (attempts : nat) : mprog (option syncErr) :=
  match attempts with
  | O => Ret None
  | S attempts =>
    err <- call mSync ;;
    match err with
    | noPeerSnapshot =>
      deadline <- call mPause ;;
      if deadline : bool then Ret (Some noPeerSnapshot) else bootstrap attempts
    | _ => Ret (Some err)
    end
  end.

Section Main.
Context (getenv : string -> string) (parseDuration : string -> option Z).

(** From the signal on. *)
Definition serveUntil : mprog ending :=
  e <- call mWait ;;
  match e with
  | serverStopped => Ret (exited 1)
  | signalled =>
    call mBeginDrain ;;;
    match envDuration getenv parseDuration "SPRUCE_DRAIN_DELAY" (30 * Second) with
    | inl _ => Ret (exited 2)
    | inr drainDelay =>
      (if bool_decide (0 < drainDelay) then call (mSleep drainDelay) else Ret tt) ;;;
      call mShutdown ;;;
      call mClose ;;;
      Ret returned
    end
  end.

Definition main (attempts : nat) : mprog ending :=
  match configure getenv parseDuration with
  | inl _ => Ret (exited 2)
  | inr s =>
    let cfg := st_cfg s in
    ok <- call (mNew cfg) ;;
    if negb ok then Ret panicked else
    call (mServe (st_addr s) (serverPlan (getenv "SPRUCE_TLS_CERT_FILE") (getenv "SPRUCE_TLS_KEY_FILE") (st_allowInsecure s))) ;;;
    r <- (if bool_decide (0 < llen (cfg_Peers cfg)) then bootstrap attempts else Ret (Some syncNil)) ;;
    match r with
    | None => Ret starting
    | Some syncFailed => Ret (exited 1)
    | Some _ => call mReady ;;; serveUntil
    end
  end.
End Main.


(** ** Configurations *)

(** The limits that [main] requires are limits that [New] does not replace. *)
Lemma limits_positive cfg : limitsBad cfg = false ->
  Forall (fun v => 0 < v) [cfg_CacheBytes cfg; cfg_MaxMessage cfg; cfg_QueueDepth cfg; cfg_DefaultTTL cfg; cfg_MaxTTL cfg; cfg_AckDeadline cfg; cfg_ReplicationQueueBytes cfg;
    cfg_ActionQueueBytes cfg; cfg_MaxInflightBytes cfg; cfg_MaxSubscriberInflightBytes cfg; cfg_MaxAttempts cfg; cfg_IdempotencyEntries cfg;
    cfg_CheckpointEntries cfg; cfg_MaxConcurrentRequests cfg; cfg_MaxStreams cfg; cfg_StreamMemoryBytes cfg; cfg_MaxInternalRequests cfg; cfg_PublishAdmissionBytes cfg;
    cfg_PublishAdmissionWait cfg; cfg_DeliveryLagLimit cfg].
Proof.
  unfold limitsBad. cbn [existsb]. rewrite !orb_false_iff, !bool_decide_eq_false. intros H. destruct_and! H. change (Z.shiftl 256 10) with 262144 in *. change (Z.shiftl 16 20) with 16777216 in *. repeat constructor; lia.
Qed.

Lemma normalize_same peers cfg cfg' : limitsBad cfg = false -> normalizeConfig peers cfg = Some cfg' -> cfg' = cfg.
Proof.
  intros Hl%limits_positive. repeat (apply Forall_cons in Hl as [? Hl]). unfold normalizeConfig. cbv zeta.
  repeat (rewrite (orDefault_id _ cfg) by by apply bool_decide_true).
  repeat (match goal with |- context [if ?b then None else _] => destruct b end; [done|]). congruence.
Qed.

Lemma New_same roots cfg cfg' peers : limitsBad cfg = false -> New roots cfg = Some (cfg', peers) -> cfg' = cfg /\ peers = newPeer <$> newPeers cfg /\ configOk (newPeers cfg) cfg = true.
Proof.
  intros Hl. unfold New. destruct (normalizeConfig _ _) as [c|] eqn:E; cbn; [|done]. destruct (badRoots _ _); [done|]. intros [= -> <-].
  pose proof (normalize_same _ _ _ Hl E) as ->. split_and!; [done..|]. by eapply normalizeConfig_ok.
Qed.

Lemma reading_inr {A B} (m : reads A) (f : A -> reads B) b : reading m f = inr b -> exists a, m = inr a /\ f a = inr b.
Proof. destruct m as [e|a]; [done|]. intros E. by exists a. Qed.

(** A configuration that is accepted: its limits, and who may do without credentials. *)
Record accepted (s : settings) : Prop := {
  ac_limits : limitsBad (st_cfg s) = false;
  ac_anonymous : st_allowAnonymous s = false -> cfg_RequireClientAuth (st_cfg s) = true /\ cfg_RequireAdminAuth (st_cfg s) = true;
  ac_basic : incomplete (cfg_BasicUsername (st_cfg s)) (cfg_BasicPassword (st_cfg s)) = false /\
    incomplete (cfg_AdminBasicUsername (st_cfg s)) (cfg_AdminBasicPassword (st_cfg s)) = false;
}.
Lemma check_accepted getenv addr cfg anonymous insecure s : checkConfig getenv addr cfg anonymous insecure = inr s -> accepted s.
Proof.
  unfold checkConfig. cbv zeta. destruct (_ || _) eqn:Eb; [done|]. destruct (negb anonymous && _) eqn:Ea; [done|]. destruct (limitsBad _) eqn:El; [done|].
  intros [= <-]. apply orb_false_iff in Eb. split; cbn [st_cfg st_allowAnonymous]; [exact El| |exact Eb].
  intros ->. cbn [negb andb] in Ea. apply orb_false_iff in Ea as [E1%negb_false_iff E2%negb_false_iff]. done.
Qed.
Lemma configure_accepted getenv parseDuration s : configure getenv parseDuration = inr s -> accepted s.
Proof.
  unfold configure. cbv zeta. intros E. do 5 (apply reading_inr in E as (? & _ & E)). by eapply check_accepted.
Qed.

(** ** The protocol *)

(** What the command has done: the configuration of its broker, its server, the last answer of [SyncFromPeers], the pauses of the loop and
    whether the deadline ended them, what it waited for, how long it slept, whether the server is shut down, and the flags of the broker. *)
Record stage := mkPhase {
  ph_new : option Config;
  ph_serving : option transport;
  ph_sync : option syncErr;
  ph_pauses : nat;
  ph_deadline : bool;
  ph_event : option wakeup;
  ph_slept : Z;
  ph_down : bool;
  ph_broker : lifecycle;
}.
#[export] Instance stage_settable : Settable stage := fun r => mkPhase (ph_new r) (ph_serving r) (ph_sync r) (ph_pauses r) (ph_deadline r) (ph_event r) (ph_slept r) (ph_down r) (ph_broker r).
#[export] Instance set_ph_new : Setter ph_new := ltac:(derive_setter).
#[export] Instance set_ph_serving : Setter ph_serving := ltac:(derive_setter).
#[export] Instance set_ph_sync : Setter ph_sync := ltac:(derive_setter).
#[export] Instance set_ph_pauses : Setter ph_pauses := ltac:(derive_setter).
#[export] Instance set_ph_deadline : Setter ph_deadline := ltac:(derive_setter).
#[export] Instance set_ph_event : Setter ph_event := ltac:(derive_setter).
#[export] Instance set_ph_slept : Setter ph_slept := ltac:(derive_setter).
#[export] Instance set_ph_down : Setter ph_down := ltac:(derive_setter).
#[export] Instance set_ph_broker : Setter ph_broker := ltac:(derive_setter).
Definition before : stage := mkPhase None None None 0 false None 0 false newLifecycle.

Section Protocol.
Context (getenv : string -> string) (parseDuration : string -> option Z) (roots : string -> bool) (streams : list (bool * bool)).

Definition chosen (s : settings) : Prop := configure getenv parseDuration = inr s.
Definition drainDelay : reads Z := envDuration getenv parseDuration "SPRUCE_DRAIN_DELAY" (30 * Second).

Definition permits X (e : startCall X) (d : stage) : Prop :=
  match e with
  | mNew cfg => ph_new d = None /\ exists s, chosen s /\ cfg = st_cfg s /\ accepted s
  | mServe addr t => ph_serving d = None /\ exists s, chosen s /\ addr = st_addr s /\ ph_new d = Some (st_cfg s) /\
      New roots (st_cfg s) = Some (st_cfg s, newPeer <$> newPeers (st_cfg s)) /\ configOk (newPeers (st_cfg s)) (st_cfg s) = true /\
      (t = plaintext -> st_allowInsecure s = true)
  | mSync => is_Some (ph_serving d) /\ lc_ready (ph_broker d) = false /\ (ph_sync d = None \/ ph_sync d = Some noPeerSnapshot)
  | mPause => ph_sync d = Some noPeerSnapshot
  | mReady => is_Some (ph_serving d) /\ exists cfg, ph_new d = Some cfg /\
      (cfg_Peers cfg = [] \/ ph_sync d = Some syncNil \/ ph_sync d = Some noPeerSnapshot /\ ph_deadline d = true)
  | mWait => lc_ready (ph_broker d) = true
  | mBeginDrain => lc_ready (ph_broker d) = true /\ ph_event d = Some signalled
  | mSleep v => lc_draining (ph_broker d) = true /\ drainDelay = inr v
  | mShutdown => lc_draining (ph_broker d) = true /\ lc_ready (ph_broker d) = false /\ exists v, drainDelay = inr v /\ ph_slept d = Z.max 0 v
  | mClose => ph_down d = true
  end.

(** [streams]: the streams that are open when the signal comes. *)
Definition after X (e : startCall X) : X -> stage -> stage :=
  match e in startCall X return X -> stage -> stage with
  | mNew cfg => fun ok d => if ok then d <| ph_new := Some cfg |> else d
  | mServe _ t => fun _ d => d <| ph_serving := Some t |>
  | mSync => fun x d => d <| ph_sync := Some x |>
  | mPause => fun deadline d => d <| ph_pauses := S (ph_pauses d) |> <| ph_deadline := deadline |>
  | mReady => fun _ d => d <| ph_broker := Ready (ph_broker d) |>
  | mWait => fun e d => d <| ph_event := Some e |> <| ph_broker := (ph_broker d) <| lc_streams := streams |> |>
  | mBeginDrain => fun _ d => d <| ph_broker := BeginDrain (ph_broker d) |>
  | mSleep v => fun _ d => d <| ph_slept := ph_slept d + v |>
  | mShutdown => fun _ d => d <| ph_down := true |>
  | mClose => fun _ d => d <| ph_broker := Close (ph_broker d) |>
  end.

(** [New] panics or not; and the timer of 250 ms fires only before the context of 15 s ends. *)
Definition possible X (e : startCall X) (d : stage) : X -> Prop :=
  match e in startCall X return X -> Prop with
  | mNew cfg => fun ok => ok = true <-> is_Some (New roots cfg)
  | mPause => fun deadline => deadline = false -> Z.of_nat (S (ph_pauses d)) * (250 * Millisecond) <= 15 * Second
  | _ => fun _ => True
  end.

Abbreviation obeys := (Programs.obeys permits after possible).

(** What the loop leaves alone. *)
Definition loops (d d' : stage) : Prop := ph_new d' = ph_new d /\ ph_serving d' = ph_serving d /\ ph_broker d' = ph_broker d /\ ph_event d' = ph_event d /\ ph_slept d' = ph_slept d /\ ph_down d' = ph_down d.
Definition bootstrapped (r : option syncErr) (d : stage) : Prop :=
  match r with
  | None => False
  | Some e => ph_sync d = Some e /\ (e = noPeerSnapshot -> ph_deadline d = true)
  end.

Lemma obeys_bootstrap n : forall d, is_Some (ph_serving d) -> lc_ready (ph_broker d) = false -> (ph_sync d = None \/ ph_sync d = Some noPeerSnapshot) ->
  (ph_pauses d <= 60)%nat -> (60 < n + ph_pauses d)%nat -> obeys (bootstrap n) d (fun r d' => loops d d' /\ bootstrapped r d').
Proof.
  induction n as [|n IH]; intros d Hs Hr Hy Hp Hn; [lia|]. cbn [bootstrap]. split; [done|]. intros [| |] _; cbn [pbind]; [by split; [done|]; split|..]; [|by split; [done|]; split].
  split; [done|]. intros [] Hx; cbn [pbind]; [by split; [done|]; split|]. specialize (Hx eq_refl). cbn in Hx. unfold Second, Millisecond in Hx.
  eapply program_mono; [|apply IH; try done; [by right| |]; cbn; lia]. done.
Qed.

Definition cancelled (b : lifecycle) : Prop := Forall (fun s : bool * bool => s.1 = true -> s.2 = true) (lc_streams b).
Lemma BeginDrain_cancels b : cancelled (BeginDrain b).
Proof. unfold cancelled. cbn. apply Forall_fmap, Forall_true. by intros [[] c]. Qed.

Lemma Close_closed b : lc_closed (Close b) = true /\ lc_draining (Close b) = lc_draining b /\ lc_ready (Close b) = lc_ready b /\ lc_streams (Close b) = lc_streams b.
Proof. unfold Close. by destruct (lc_closed b) eqn:E. Qed.

(** How the command ends. *)
Definition ends (r : ending) (d : stage) : Prop :=
  match r with
  | returned => ph_down d = true /\ lc_closed (ph_broker d) = true /\ lc_draining (ph_broker d) = true /\ lc_ready (ph_broker d) = false /\ cancelled (ph_broker d)
  | exited code =>
      code = 2 /\ ph_new d = None /\ (exists e, configure getenv parseDuration = inl e) \/
      code = 1 /\ lc_ready (ph_broker d) = false /\ ph_sync d = Some syncFailed \/
      code = 1 /\ ph_event d = Some serverStopped \/
      code = 2 /\ lc_draining (ph_broker d) = true /\ cancelled (ph_broker d) /\ exists e, drainDelay = inl e
  | panicked => ph_serving d = None /\ exists s, chosen s /\ New roots (st_cfg s) = None
  | starting => False
  end.

Lemma obeys_serveUntil d : lc_ready (ph_broker d) = true -> ph_slept d = 0 -> obeys (serveUntil getenv parseDuration) d ends.
Proof.
  intros Hr Hz. unfold serveUntil. split; [done|]. intros [] _; cbn [pbind]; [|by right; right; left]. split; [done|]. intros [] _. cbn [pbind].
  destruct (envDuration _ _ _ _) as [e|v] eqn:Ed.
  - right; right; right. split_and!; [done..|apply BeginDrain_cancels|]. by exists e.
  - assert (Ht : forall d', ph_broker d' = BeginDrain ((ph_broker d) <| lc_streams := streams |>) -> ph_slept d' = Z.max 0 v ->
      obeys (call mShutdown ;;; call mClose ;;; Ret returned)%prog d' ends).
    { intros d' Eb Es. split; [unfold permits; rewrite Eb; split_and!; [done..|]; by exists v|]. intros [] _. split; [done|]. intros [] _.
      destruct (Close_closed (BeginDrain ((ph_broker d) <| lc_streams := streams |>))) as (C1 & C2 & C3 & C4). cbn. rewrite Eb. split_and!; [done|done|by rewrite C2|by rewrite C3|].
      unfold cancelled. rewrite C4. exact (BeginDrain_cancels ((ph_broker d) <| lc_streams := streams |>)). }
    apply program_bind. case_bool_decide as Hv.
    + split; [done|]. intros [] _. apply Ht; [done|]. cbn. lia.
    + apply Ht; [done|]. cbn. lia.
Qed.

Lemma serverPlan_plaintext cert key insecure : serverPlan cert key insecure = plaintext -> insecure = true.
Proof. unfold serverPlan. destruct insecure; [done|]. by repeat case_bool_decide; cbn. Qed.

Lemma obeys_main attempts : (61 <= attempts)%nat -> obeys (main getenv parseDuration attempts) before ends.
Proof.
  intros Hn. unfold main. destruct (configure getenv parseDuration) as [e|s] eqn:Ec; [by left; split_and!; [done..|]; exists e|]. cbv zeta.
  pose proof (configure_accepted _ _ _ Ec) as Ha. split; [split; [done|by exists s]|]. intros ok Hok. cbn in Hok. cbn [pbind]. destruct ok; cbn [negb].
  2: { split; [done|]. exists s. split; [done|]. apply eq_None_not_Some. intros Hs. by apply Hok in Hs. }
  destruct (proj1 Hok eq_refl) as [[cfg' ps] En]. destruct (New_same _ _ _ _ (ac_limits _ Ha) En) as (-> & -> & Hc).
  split.
  { split; [done|]. exists s. split_and!; try done. apply serverPlan_plaintext. }
  intros [] _. cbn [pbind]. set (d := after _ _ _ _). assert (Hready : forall d', ph_new d' = Some (st_cfg s) -> is_Some (ph_serving d') -> ph_slept d' = 0 ->
    (cfg_Peers (st_cfg s) = [] \/ ph_sync d' = Some syncNil \/ ph_sync d' = Some noPeerSnapshot /\ ph_deadline d' = true) ->
    obeys (call mReady ;;; serveUntil getenv parseDuration)%prog d' ends).
  { intros d' E1 E2 E3 E4. split; [split; [done|by exists (st_cfg s)]|]. intros [] _. by apply obeys_serveUntil. }
  apply program_bind. destruct (bool_decide_reflect (0 < llen (cfg_Peers (st_cfg s)))) as [Hp|Hp].
  - eapply program_mono; [|apply obeys_bootstrap; [by eexists|done|by left|cbn; lia|cbn; lia]]. intros r d' [(E1 & E2 & E3 & E4 & E5 & E6) Hb].
    destruct r as [[]|]; [| | |done]; destruct Hb as [Hb1 Hb2].
    + apply Hready; [done|by rewrite E2; eexists|done|]. right; by left.
    + apply Hready; [done|by rewrite E2; eexists|done|]. right; right. split; [done|by apply Hb2].
    + right; left. split_and!; [done| |done]. by rewrite E3.
  - apply Hready; [done|by eexists|done|]. left. destruct (cfg_Peers (st_cfg s)); [done|]. unfold llen in Hp. cbn in Hp. lia.
Qed.
End Protocol.

(** C12: the command starts and stops a broker in order.  With the 15 seconds for the first synchronisation it follows at most 60 pauses, so it never hangs
    there.  It creates a broker only with limits that are positive and, unless anonymous access is allowed, required credentials, and the broker
    that serves runs with exactly the configuration that was read; plain HTTP is served only where it is allowed; the broker is ready only after a
    synchronisation that succeeded, or that found no peer until the deadline; every stream is told to stop and the configured delay has
    passed before the server shuts down; and the broker is closed last. *)
Theorem startup_order getenv parseDuration roots streams attempts tr r : (61 <= attempts)%nat ->
  execution (after streams) (possible roots) (main getenv parseDuration attempts) before tr r ->
  permitted (permits getenv parseDuration roots) (after streams) tr before /\ ends getenv parseDuration roots r (afterAll (after streams) tr before).
Proof. intros Hn Hex. exact (obeys_sound _ _ _ _ _ _ _ Hex _ (obeys_main getenv parseDuration roots streams attempts Hn)). Qed.

(** ** Witness: a broker whose only peer is away until the deadline *)
Definition ex_env (k : string) : string :=
  default "" (list_to_map (M := gmap string string)
    [("SPRUCE_ALLOW_ANONYMOUS", "true"); ("SPRUCE_ALLOW_INSECURE_TRANSPORT", "1"); ("SPRUCE_MAX_STREAMS", "16"); ("SPRUCE_PEERS", " http://a/ ,http://b,");
     ("SPRUCE_SELF_URL", "http://b/"); ("SPRUCE_PEER_TOKEN", "secret"); ("SPRUCE_CLUSTER_ID", "c")] !! k).
Definition ex_parse (s : string) : option Z := if bool_decide (s = "1s") then Some Second else None.
Definition ex_roots (file : string) : bool := false.

(** The peer never answers; the deadline comes after 60 pauses. *)
Definition ex_answer X (e : startCall X) (pauses : nat) : X * nat :=
  match e in startCall X return X * nat with
  | mNew cfg => (bool_decide (is_Some (New ex_roots cfg)), pauses)
  | mSync => (noPeerSnapshot, pauses)
  | mPause => (bool_decide (60 <= pauses)%nat, S pauses)
  | mWait => (signalled, pauses)
  | mServe _ _ | mReady | mBeginDrain | mSleep _ | mShutdown | mClose => (tt, pauses)
  end.
Definition ex_run := run ex_answer (main ex_env ex_parse 61) 0%nat.

Lemma ex_run_execution : execution (after [(true, false)]) (possible ex_roots) (main ex_env ex_parse 61) before ex_run.1.1 ex_run.1.2.
Proof.
  apply (run_related _ _ _ (fun pauses d => pauses = ph_pauses d)); [|done]. intros X e d s ->. destruct e; cbn; try done.
  - split; [by rewrite bool_decide_eq_true|]. by case_bool_decide.
  - split; [|done]. intros Hb%bool_decide_eq_false. unfold Second, Millisecond. lia.
Qed.
Lemma ex_run_returns : ex_run.1.2 = returned.
Proof. vm_compute. reflexivity. Qed.

Lemma startup_order_witness : (st_addr <$> (match configure ex_env ex_parse with inr s => Some s | inl _ => None end)) = Some ":8080" /\
  length ex_run.1.1 = 130%nat /\ ends ex_env ex_parse ex_roots returned (afterAll (after [(true, false)]) ex_run.1.1 before).
Proof.
  split; [vm_compute; reflexivity|]. split; [vm_compute; reflexivity|].
  pose proof ex_run_execution as Hex. rewrite ex_run_returns in Hex. exact (proj2 (startup_order ex_env ex_parse ex_roots [(true, false)] 61 _ returned ltac:(lia) Hex)).
Defined.
